(* ===== verification/_CoqProject ===== *)
-Q . S2P
Prelude.v
Endian.v
Intset.v
IntsetFacts.v
IntsetProps.v
Numstr.v
NumstrFacts.v
NumstrProps.v
Glob.v
GlobFacts.v
Listpack.v
ListpackOps.v
ListpackFacts.v
ListpackEdit.v
ListpackRange.v
ListpackBatch.v
ListpackProps.v
Skiplist.v
SkiplistOrder.v
SkiplistFacts.v
SkiplistEdit.v
SkiplistInsert.v
SkiplistDelete.v
SkiplistRangeFacts.v
SkiplistProps.v
Dict.v
DictOps.v
DictFacts.v
DictRehash.v
DictFind.v
DictUpdate.v
DictScanFacts.v
DictProps.v
Zzl.v
ZzlFacts.v
ZzlRange.v
Zset.v
ZsetFacts.v
ZsetView.v
ZsetProps.v
Split.v
Resp.v
RespFacts.v
RespStream.v
RespProps.v
BitVec.v
Bits.v
BitsFacts.v
BitField.v
BitCmd.v
BitCmdFacts.v
BitOpFacts.v
BitFieldCmd.v
BitProps.v
Lzf.v
LzfFacts.v
LzfCompress.v
Rio.v
Rdb.v
RdbFacts.v
RdbProps.v
Crc.v
CrcFacts.v
Dump.v
CrcProps.v
DictIter.v
SetObj.v
SetFacts.v
SetUpdate.v
SetCmd.v
SetProps.v
SetSpec.v
Kvstore.v
KvstoreFacts.v
KvstoreProps.v
Hll.v
HllDense.v
HllSparse.v
HllUpdate.v
HllProps.v
