(* ===== verification/Prelude.v ===== *)
(** * A verification of the core data structures and of the request parser of Redis

    The program is the Redis server kept under project/redis/backend/redis-src/src of the
    repository.  File and function names below are names in that directory.

    ** The parts and how they interact

    A client sends requests; [networking.c] parses them incrementally into argument vectors
    and hands each vector to its command.  Commands work on objects.  Small objects are
    packed: sets of integers into intsets ([intset.c]), sequences of strings and integers
    into listpacks ([listpack.c]), both byte arrays with their own encodings, built on the
    conversions between numbers and strings of [util.c] and on the byte order of
    [endianconv.c].  Larger objects use the hash table of [dict.c], with incremental
    rehashing, and, for sorted sets, the skip list of [t_zset.c], whose nodes the table
    points to.  [t_zset.c] also holds the layer above: a sorted set is a listpack of names
    and scores or a table with a skip list, and converts from one to the other.  The sets of
    [t_set.c] are intsets, listpacks or tables without values, and their commands combine sets in
    any of these encodings.  The keys of a database live in the key-value store of [kvstore.c]:
    an array of hash tables, one per cluster slot, with a binary indexed tree of their sizes.
    The glob matcher of [util.c] and the line splitter of [sds.c] are used by commands and by the
    inline protocol.  The commands of [bitops.c] read and write single bits, bit fields and
    whole bitmaps inside string objects, whose arguments and integer encoding go through the
    conversions of [util.c].  The HyperLogLogs of [hyperloglog.c] are string objects too: 16384
    registers behind a header, dense or coded by runs, updated in place in strings with headers
    ([sds.c], [sds.h]).  Values are saved to and loaded from streams ([rio.h], [rio.c]) in
    the RDB format of [rdb.c], whose strings may be compressed by LZF ([lzf_c.c], [lzf_d.c]);
    DUMP ([cluster.c]) puts a version and a CRC64 ([crc64.c], [crcspeed.c]) behind such a
    value.  In a cluster the slot of a key is a CRC16 ([crc16.c], [cluster.h]).

    ** How the code is modelled

    A C integer of [w] bits is a [Z] with its wrap-around written out ([wrapu], [wraps]); a
    byte array is a [list Z], accessed by offsets ([getb], [setb], [mem_read], [mem_write],
    [memmove]); an access out of bounds, a NULL or dangling pointer and a failed assert are
    [None] of the [option] monad, so that a theorem that ends in [Some] says that none of
    them happens.  Heap nodes (skip list) are entries of a finite map from addresses.  Loops
    are [loop] with a bound, or recursion with fuel, and the theorems prove that the bound is
    enough: it is the length of the buffer, the number of nodes or the bits of the cursor,
    plus one.  Memory contents after an allocation are arbitrary ([Allocator],
    [NodeAllocator]); random numbers are arguments; doubles are [spec_float] with IEEE
    comparison and addition.  Code outside the repository, or not modelled, is an interface
    with the laws the code relies on: the callbacks of a hash table ([DictType],
    [DictTypeOk]), the printing and parsing of doubles ([DoubleText], [DoubleTextOk]), the
    execution of a command ([Server], [ServerOk]: a command that does not return C_OK has freed the
    client or marked it for closing, a client left alive keeps its query buffer, and the time of a
    command is recorded unless it blocks), the hash table a range deletion of the
    skip list updates, the target of a stream ([RioBackend], with the laws [RioStream], which
    the buffer in memory satisfies), the sorting of the sets of an operation ([Qsort], [QsortOk]:
    a permutation).  The objects of an operation on several sets live in a heap, so that a key
    given twice is one object.  The sizes the allocator reports for a string are the class
    [Usable]; the floating point estimate of a cardinality is an argument, of which the theorems
    use only that it is 0 on empty registers, the conversions to 64 bits being part of the model.
    The surroundings of the RDB functions (byte order, configuration, the block sizes the allocator
    can serve, the address of the input of the compressor and the contents of its uninitialised
    table) are the class [RdbEnv].

    ** The files

    - Prelude: machine integers, byte arrays, lists, allocation, bounded loops, the
      rewriting database [zlen] and the arithmetic tactics.
    - Endian: [endianconv.c] and [endianconv.h].
    - Intset (model of [intset.c]), IntsetFacts, IntsetProps.
    - Numstr (model of the conversions of [util.c] and of [lpStringToInt64]), NumstrFacts,
      NumstrProps.
    - Glob (model of [stringmatchlen]), GlobFacts.
    - Listpack, ListpackOps (model of [listpack.c]); ListpackFacts (the byte
      format, navigation), ListpackEdit, ListpackRange (ranges and search), ListpackBatch,
      ListpackProps.
    - Skiplist (model of the [zsl] functions of [t_zset.c]); SkiplistOrder (the order of
      scores and names), SkiplistFacts, SkiplistEdit (and the invariant), SkiplistInsert,
      SkiplistDelete (and ranks), SkiplistRangeFacts, SkiplistProps.
    - Dict, DictOps (model of [dict.c]); DictFacts, DictRehash, DictFind, DictUpdate (and
      deletion), DictScanFacts, DictProps.
    - Kvstore (model of [kvstore.c]), KvstoreFacts (the binary indexed tree, the invariant),
      KvstoreProps (deletion in two phases, scanning, histories, the theorems).
    - Zzl (model of the [zzl] functions of [t_zset.c]), ZzlFacts, ZzlRange; Zset (model of the
      [zset] functions), ZsetFacts (table and skip list agree, conversions), ZsetView (the
      ordered set both encodings implement), ZsetProps.
    - DictIter (model of the iterators of [dict.c] and what they return); SetObj (model of the set
      objects of [t_set.c]), SetFacts (the encodings, iteration, conversion), SetUpdate (adding,
      removing, looking up, copying); SetCmd (model of the commands), SetProps, SetSpec (the
      specification on finite sets, its refinement by runs of commands, the theorems).
    - Split (model of [sdssplitargs], [sdscatrepr] and the string headers of [sds.c], and its
      theorems); Resp (model of
      the request parser of [networking.c]), RespFacts (safety), RespStream (streams of
      commands), RespProps (what the bytes of a request ask for, the theorems).
    - BitVec (strings as lists of bits, the reference), Bits (model of the counting,
      searching and field functions of [bitops.c]), BitsFacts, BitField (fields and their
      overflow); BitCmd (model of the commands, from the arguments and the value of the key
      to the reply, the new value and the number of changes), BitCmdFacts (SETBIT, GETBIT,
      BITCOUNT, BITPOS), BitOpFacts (BITOP), BitFieldCmd (BITFIELD: the effect of its operations,
      the grammar of its arguments), BitProps.
    - Hll (model of [hyperloglog.c]), HllDense (packed
      registers, histograms, the hash), HllSparse (strings, opcodes, conversion), HllUpdate
      (updating a sparse register), HllProps (the specification on lists of registers, the
      commands, strings of any contents, the theorems).
    - Lzf (model of [lzf_c.c] and [lzf_d.c]), LzfFacts (the format, decompression), LzfCompress; Rio (model of [rio.h] and the buffer target of [rio.c], and the laws of streams); Rdb
      (model of the primitives of [rdb.c] and of the allocation of strings in [sds.c], [mstr.c] and
      [t_hash.c]), RdbFacts, RdbProps.
    - Crc (model of [crc64.c], [crcspeed.c], [crc16.c] and [keyHashSlot]), CrcFacts (linearity,
      tables, loops); Dump (model of the payloads of [cluster.c]), CrcProps.

    ** What the theorems show

    - Intsets refine finite sets of integers, listpacks lists of entries, hash tables finite
      maps: any history of operations gives a well-formed structure with the contents of the
      abstract operations, and every operation has its own functional theorem, error
      branches included.  The byte count of [intsetMoveTail] overflows at 2^29 members, which
      is proved as a theorem of its own.  The deep validation of an intset accepts exactly the
      well-formed ones, up to 2^31 records, behind which it reads before the blob.
    - A cursor scan of a hash table that changes and resizes during the scan is complete;
      rehashing ends.
    - A key-value store refines an array of finite maps over any history of operations; its
      index of sizes finds the table of the n-th key, and so picks tables with the weight of
      their sizes; a scan across all tables, which may change between calls, ends and reports
      every key that stays.
    - Skip lists keep their level links, spans, backward pointers and order; ranks, ranges
      and deletions of ranges are those of the sorted list of members.
    - Sorted sets in both encodings implement one ordered set of members: adding with all
      its options, deletion, score, rank, length, creation and conversion; and, in listpacks,
      the ranges by score, by name and by rank.
    - Sets in all three encodings implement finite sets of strings: single operations, runs of
      commands on a key space, intersection, union and both algorithms of the difference, whatever
      conversions happen on the way and in whatever order the sets are sorted.
    - Number conversions accept exactly the canonical numerals of the 64-bit range and round
      trip; the glob matcher equals its declarative relation, in which characters, ranges and
      letters up to case are defined apart from the code.
    - The request parser is safe on all input; it executes exactly the commands of an
      encoded stream, however the stream is cut into reads; on any bytes it completes the request,
      waits or refuses as a relation on the bytes says, and a refusal closes the connection.
      Quoting and splitting of lines round trip.
    - The bit functions and commands equal their definitions on lists of bits: the
      word-at-a-time loops of counting, searching and BITOP at every alignment and in both
      byte orders, fields of 1 to 64 bits, ranges in bytes and bits, the overflow types of
      BITFIELD, whose arguments are read as a grammar on their texts says.  Three departures of
      BITFIELD from its intention are one theorem.
    - HyperLogLog commands refine operations on lists of registers in both representations,
      with every cached cardinality valid; counts of merges and of unions agree; the unrolled
      histogram equals its definition.  Any accepted string of at most 2^18 bytes is handled in
      bounds; a string of 524303 bytes whose runs wrap the register number, so that merging it
      writes before the registers, and an assert that a valid update fails, are one theorem.
    - LZF is safe on all input and round trips whatever its table holds; RDB strings round
      trip in every form, over any stream; loading untrusted bytes is safe exactly when no
      announced length is so near 2^64 that the size of its block wraps.
    - The CRC64 that consumes eight bytes at a time equals the definition on bits; DUMP
      payloads verify, load back, and are refused after a change of up to eight bytes; the
      slot of a key is the CRC16 of its hash tag, or of the key.

    ** Bounds in the statements

    Hash tables and skip lists are stated up to 2^59 entries, where no size computation
    wraps, and so are key-value stores, of up to 2^16 tables (the limit the code asserts), whose
    scans need the bits of the table number and of the table size to fit the cursor; listpacks up to their 32-bit total length, where refusal is part of the theorems;
    intsets up to 2^32 bytes of contents (their validation up to 2^31 records); sets up to 2^29 - 2 members of fewer than 2^31 bytes,
    because of the overflow of intsets; names of sorted sets up to 2^31 bytes, the range of
    the [int] variables that hold their lengths; glob patterns up to 1000 stars, the nesting
    limit of the matcher.  Bitmaps are stated up to 2^59 bytes (2^60 for BITFIELD), where
    bit positions fit 64 bits.  HyperLogLogs are stated for a limit of the sparse representation of
    at least 32 bytes, below which the assert just mentioned can fail, and for elements of fewer
    than 2^31 bytes, the range of the length of the hash.  RDB strings are stated below the 2^64-1 bytes of the error value
    (2^63 for payloads), and the compressor for inputs at addresses of at least 8192, the
    distance its references reach back.  A few counts that the code keeps in an [int] are unbounded
    in the model, which is faithful to values that fit: ten times the steps of [dictRehash], the key
    length of [keyHashSlot], the number of arguments of [sdssplitargs].

    ** Not modelled

    Random access helpers of listpacks and sets, statistics of dictionaries and key-value stores,
    the iterators and the list of rehashing tables of [kvstore.c], defragmentation, RDB objects
    other than strings and whole RDB files.  The estimate of HyperLogLogs is floating point
    arithmetic with libm functions.  Streams and their radix trees, quicklists, linked lists and
    geohashes are further data structures of the program with their own
    representations.  The other commands, replies, replication, the cluster bus, scripting,
    modules and the command line tools are input and output, or are built on these
    structures. *)

From stdpp Require Export prelude list numbers sorting gmap.
From Stdlib Require Export ZArith Lia Sorted.

#[export] Set Default Goal Selector "!".
Global Open Scope Z_scope.

(** ** Machine integers

    A [w]-bit C integer is a [Z]; the conversions write the wrap-around out. *)

Definition wrapu (w z : Z) : Z := z mod 2 ^ w.
Definition wraps (w z : Z) : Z := (z + 2 ^ (w - 1)) mod 2 ^ w - 2 ^ (w - 1).

Notation u8 := (wrapu 8).
Notation u16 := (wrapu 16).
Notation u32 := (wrapu 32).
Notation u64 := (wrapu 64).
Notation s16 := (wraps 16).
Notation s32 := (wraps 32).
Notation s64 := (wraps 64).

Lemma wrapu_small w z : 0 <= z < 2 ^ w -> wrapu w z = z.
Proof. apply Z.mod_small. Qed.

Lemma wraps_small w z : 0 < w -> - 2 ^ (w - 1) <= z < 2 ^ (w - 1) -> wraps w z = z.
Proof.
  intros Hw Hz. unfold wraps.
  assert (2 ^ w = 2 * 2 ^ (w - 1)) as E.
  { rewrite <- Z.pow_succ_r by lia. f_equal. lia. }
  rewrite Z.mod_small by lia. lia.
Qed.

Lemma wrapu_range w z : 0 <= w -> 0 <= wrapu w z < 2 ^ w.
Proof. intros. apply Z.mod_pos_bound. apply Z.pow_pos_nonneg; lia. Qed.

Lemma wraps_range w z : 0 < w -> - 2 ^ (w - 1) <= wraps w z < 2 ^ (w - 1).
Proof.
  intros Hw. unfold wraps.
  assert (2 ^ w = 2 * 2 ^ (w - 1)) as E.
  { rewrite <- Z.pow_succ_r by lia. f_equal. lia. }
  pose proof (Z.mod_pos_bound (z + 2 ^ (w - 1)) (2 ^ w)) as H.
  assert (0 < 2 ^ (w - 1)) by (apply Z.pow_pos_nonneg; lia). lia.
Qed.

Lemma wraps_wrapu w z : 0 < w -> wraps w (wrapu w z) = wraps w z.
Proof. intros Hw. unfold wraps, wrapu. by rewrite Zplus_mod_idemp_l. Qed.

Lemma wrapu_wraps w z : 0 < w -> wrapu w (wraps w z) = wrapu w z.
Proof.
  intros Hw. unfold wraps, wrapu.
  rewrite Zminus_mod_idemp_l. f_equal. lia.
Qed.

(** ** Limits of the C types *)

Definition INT16_MIN := -32768.
Definition INT16_MAX := 32767.
Definition INT32_MIN := -2147483648.
Definition INT32_MAX := 2147483647.
Definition INT64_MIN := -9223372036854775808.
Definition INT64_MAX := 9223372036854775807.
Definition UINT16_MAX := 65535.
Definition UINT32_MAX := 4294967295.
Definition UINT64_MAX := 18446744073709551615.

Ltac unfold_limits :=
  unfold INT16_MIN, INT16_MAX, INT32_MIN, INT32_MAX, INT64_MIN, INT64_MAX,
    UINT16_MAX, UINT32_MAX, UINT64_MAX in *.

(** A closed comparison, by evaluation. *)
Ltac closed_arith := repeat split; vm_compute; first [reflexivity | discriminate | congruence].

(** Linear arithmetic with [/] and [mod] by constants. *)
Ltac div_lia := Z.to_euclidean_division_equations; lia.

(** ** Length as an integer *)

Definition zlen {A} (l : list A) : Z := Z.of_nat (length l).

Lemma zlen_nil {A} : zlen (@nil A) = 0.
Proof. done. Qed.
Lemma zlen_cons {A} (x : A) l : zlen (x :: l) = 1 + zlen l.
Proof. unfold zlen. simpl. lia. Qed.
Lemma zlen_app {A} (l1 l2 : list A) : zlen (l1 ++ l2) = zlen l1 + zlen l2.
Proof. unfold zlen. rewrite length_app. lia. Qed.
Lemma zlen_nonneg {A} (l : list A) : 0 <= zlen l.
Proof. unfold zlen. lia. Qed.
Lemma zlen_fmap {A B} (f : A -> B) l : zlen (f <$> l) = zlen l.
Proof. unfold zlen. by rewrite length_fmap. Qed.
Lemma zlen_take {A} (l : list A) n : 0 <= n <= zlen l -> zlen (take (Z.to_nat n) l) = n.
Proof. unfold zlen. intros. rewrite length_take. lia. Qed.
Lemma zlen_drop {A} (l : list A) n : 0 <= n <= zlen l -> zlen (drop (Z.to_nat n) l) = zlen l - n.
Proof. unfold zlen. intros. rewrite length_drop. lia. Qed.
Lemma zlen_reverse {A} (l : list A) : zlen (reverse l) = zlen l.
Proof. unfold zlen. by rewrite length_reverse. Qed.

Create HintDb zlen.
#[export] Hint Rewrite @zlen_nil @zlen_cons @zlen_app @zlen_fmap @zlen_reverse : zlen.

(** Arithmetic goals about lengths of concatenations. *)
Ltac zlen_saturate :=
  repeat match goal with
  | |- context [zlen ?l] =>
      lazymatch goal with
      | _ : 0 <= zlen l |- _ => fail
      | _ => pose proof (zlen_nonneg l)
      end
  | _ : context [zlen ?l] |- _ =>
      lazymatch goal with
      | _ : 0 <= zlen l |- _ => fail
      | _ => pose proof (zlen_nonneg l)
      end
  end.
Ltac len_lia := autorewrite with zlen in *; zlen_saturate; lia.

(** ** Little-endian byte encodings *)

Definition is_byte (b : Z) : Prop := 0 <= b < 256.

Fixpoint le_split (n : nat) (v : Z) : list Z :=
  match n with
  | O => []
  | S n => v mod 256 :: le_split n (v / 256)
  end.

Fixpoint le_join (bs : list Z) : Z :=
  match bs with
  | [] => 0
  | b :: bs => b + 256 * le_join bs
  end.

Lemma length_le_split n v : length (le_split n v) = n.
Proof. revert v. induction n; simpl; auto. Qed.

Lemma zlen_le_split n v : zlen (le_split n v) = Z.of_nat n.
Proof. unfold zlen. by rewrite length_le_split. Qed.
#[export] Hint Rewrite zlen_le_split : zlen.

Lemma le_split_bytes n v : Forall is_byte (le_split n v).
Proof.
  revert v. induction n; simpl; intros; constructor; auto.
  apply Z.mod_pos_bound. lia.
Qed.

Lemma pow256_succ n : 256 ^ Z.of_nat (S n) = 256 * 256 ^ Z.of_nat n.
Proof. rewrite Nat2Z.inj_succ, Z.pow_succ_r by lia. done. Qed.

Lemma pow256_pos n : 0 < 256 ^ Z.of_nat n.
Proof. apply Z.pow_pos_nonneg; lia. Qed.

Lemma pow256_pow2 n : 256 ^ Z.of_nat n = 2 ^ (8 * Z.of_nat n).
Proof. rewrite Z.pow_mul_r by lia. done. Qed.

Lemma le_join_split n v : le_join (le_split n v) = v mod 256 ^ Z.of_nat n.
Proof.
  revert v. induction n as [|n IH]; intros v.
  - simpl. by rewrite Z.mod_1_r.
  - simpl le_split. simpl le_join. rewrite IH, pow256_succ.
    rewrite Z.rem_mul_r; [lia | lia | apply pow256_pos].
Qed.

Lemma le_join_range bs : Forall is_byte bs -> 0 <= le_join bs < 256 ^ zlen bs.
Proof.
  unfold zlen. induction 1 as [|b bs Hb _ IH]; simpl length.
  - simpl. lia.
  - simpl le_join. rewrite pow256_succ. unfold is_byte in Hb. lia.
Qed.

Lemma le_split_join bs : Forall is_byte bs -> le_split (length bs) (le_join bs) = bs.
Proof.
  induction 1 as [|b bs Hb _ IH]; simpl; [done|]. unfold is_byte in Hb.
  f_equal.
  - rewrite Z.mul_comm, Z_mod_plus_full. apply Z.mod_small. lia.
  - rewrite Z.mul_comm, Z.div_add, (Z.div_small b) by lia. done.
Qed.

Lemma le_split_mod n v : le_split n (v mod 256 ^ Z.of_nat n) = le_split n v.
Proof.
  rewrite <- le_join_split.
  rewrite <- (length_le_split n v) at 1. apply le_split_join, le_split_bytes.
Qed.

(** Reading back a signed value of [n] bytes. *)
Lemma wraps_le_join_split n v :
  (0 < n)%nat -> wraps (8 * Z.of_nat n) (le_join (le_split n v)) = wraps (8 * Z.of_nat n) v.
Proof.
  intros Hn. rewrite le_join_split, pow256_pow2. apply wraps_wrapu. lia.
Qed.

Lemma le_split_wraps n v : (0 < n)%nat -> le_split n (wraps (8 * Z.of_nat n) v) = le_split n v.
Proof.
  intros Hn. rewrite <- le_split_mod, <- (le_split_mod n v), pow256_pow2. f_equal.
  apply wrapu_wraps. lia.
Qed.

Global Arguments le_split : simpl never.
Global Arguments le_join : simpl never.

(** ** Bit operations *)

(** A property of the numbers below a small bound, by evaluation. *)
Lemma forallb_range (P : Z -> bool) n x :
  forallb P (seqZ 0 n) = true -> 0 <= x < n -> P x = true.
Proof.
  intros H Hx. rewrite forallb_forall in H. apply H.
  rewrite <- list_elem_of_In. apply elem_of_seqZ. lia.
Qed.

Lemma land_255 v : Z.land v 255 = v mod 256.
Proof. change 255 with (Z.ones 8). by rewrite Z.land_ones by lia. Qed.

Lemma land_127 v : Z.land v 127 = v mod 128.
Proof. change 127 with (Z.ones 7). by rewrite Z.land_ones by lia. Qed.

Lemma lor_add_high b r k :
  0 <= k -> 0 <= b < 2 ^ k -> Z.lor b (Z.shiftl r k) = b + 2 ^ k * r.
Proof.
  intros Hk Hb. pose proof (Z.add_lor_land b (Z.shiftl r k)) as E.
  assert (Z.land b (Z.shiftl r k) = 0) as E0.
  { apply Z.bits_inj_iff'. intros n Hn. rewrite Z.land_spec, Z.bits_0.
    destruct (Z.lt_ge_cases n k).
    - rewrite Z.shiftl_spec_low by done. apply andb_false_r.
    - destruct (Z.eq_dec b 0) as [->|]; [by rewrite Z.bits_0|].
      rewrite Z.bits_above_log2; [done|lia|].
      apply Z.log2_lt_pow2; [lia|].
      apply Z.lt_le_trans with (2 ^ k); [lia|]. apply Z.pow_le_mono_r; lia. }
  rewrite Z.shiftl_mul_pow2 in * by done. lia.
Qed.
Lemma lor_shiftl_add b r s k :
  0 <= s -> 0 <= k -> 0 <= b < 2 ^ k ->
  Z.lor (Z.shiftl b s) (Z.shiftl r (s + k)) = Z.shiftl (b + 2 ^ k * r) s.
Proof.
  intros Hs Hk Hb. rewrite (Z.add_comm s k), <- Z.shiftl_shiftl by lia.
  by rewrite <- Z.shiftl_lor, lor_add_high.
Qed.

Lemma lxor_range w a b : 0 <= w -> 0 <= a < 2 ^ w -> 0 <= b < 2 ^ w -> 0 <= Z.lxor a b < 2 ^ w.
Proof.
  intros Hw Ha Hb. assert (0 <= Z.lxor a b) by (apply Z.lxor_nonneg; lia). split; [done|].
  destruct (Z.eq_dec (Z.lxor a b) 0) as [->|]; [apply Z.pow_pos_nonneg; lia|].
  apply Z.log2_lt_pow2; [lia|]. eapply Z.le_lt_trans; [apply Z.log2_lxor; lia|].
  apply Z.max_lub_lt.
  - destruct (Z.eq_dec a 0) as [->|]; [|by apply Z.log2_lt_pow2; lia]. simpl.
    destruct (Z.eq_dec w 0) as [->|]; [|lia]. exfalso. assert (b = 0) by lia. subst. done.
  - destruct (Z.eq_dec b 0) as [->|]; [|by apply Z.log2_lt_pow2; lia]. simpl.
    destruct (Z.eq_dec w 0) as [->|]; [|lia]. exfalso. assert (a = 0) by lia. subst. done.
Qed.

Lemma testbit_above x w i : 0 <= x < 2 ^ w -> 0 <= w <= i -> Z.testbit x i = false.
Proof.
  intros Hx Hi. destruct (Z.eq_dec x 0) as [->|]; [apply Z.bits_0|]. apply Z.bits_above_log2; [lia|].
  apply Z.lt_le_trans with w; [apply Z.log2_lt_pow2; lia|lia].
Qed.

Lemma land_bit_zero x k : 0 <= k -> (Z.land x (2 ^ k) =? 0) = negb (Z.testbit x k).
Proof.
  intros Hk. destruct (Z.testbit x k) eqn:E; simpl.
  - apply Z.eqb_neq. intros H. apply (f_equal (fun z => Z.testbit z k)) in H.
    rewrite Z.land_spec, E, Z.pow2_bits_true, Z.bits_0 in H by done. done.
  - apply Z.eqb_eq. apply Z.bits_inj_iff'. intros n Hn. rewrite Z.land_spec, Z.bits_0.
    destruct (Z.eq_dec n k) as [->|]; [by rewrite E|]. by rewrite Z.pow2_bits_false, andb_false_r by lia.
Qed.

(** ** Sorted lists *)

Lemma StronglySorted_app_inv {A} (R : A -> A -> Prop) l1 l2 :
  StronglySorted R (l1 ++ l2) ->
  StronglySorted R l1 /\ StronglySorted R l2 /\ Forall (fun x => Forall (R x) l2) l1.
Proof.
  induction l1 as [|x l1 IH]; simpl; intros H; [repeat constructor; done|].
  inversion_clear H as [|?? Hs Hf]. destruct (IH Hs) as (H1 & H2 & H3).
  apply Forall_app in Hf as [Hf1 Hf2]. repeat split; [|done|]; by constructor.
Qed.

Lemma StronglySorted_app_intro {A} (R : A -> A -> Prop) l1 l2 :
  StronglySorted R l1 -> StronglySorted R l2 -> Forall (fun x => Forall (R x) l2) l1 ->
  StronglySorted R (l1 ++ l2).
Proof.
  induction l1 as [|x l1 IH]; simpl; intros H1 H2 H3; [done|].
  inversion_clear H1. inversion_clear H3. constructor; [by apply IH|].
  apply Forall_app. done.
Qed.

Lemma StronglySorted_lookup_lt {A} (R : A -> A -> Prop) l i j x y :
  StronglySorted R l -> (i < j)%nat -> l !! i = Some x -> l !! j = Some y -> R x y.
Proof.
  intros Hs Hij Hx Hy. rewrite <- (take_drop_middle l i x Hx) in Hs, Hy.
  apply StronglySorted_app_inv in Hs as (_ & Hs & _). inversion_clear Hs as [|?? _ Hf].
  assert (length (take i l) = i) as E.
  { rewrite length_take. apply lookup_lt_Some in Hx. lia. }
  rewrite lookup_app_r, E in Hy by lia.
  destruct (j - i)%nat eqn:Ej; [lia|]. simpl in Hy.
  rewrite Forall_forall in Hf. apply Hf. by eapply list_elem_of_lookup_2.
Qed.

(** ** Byte memory

    An allocated object is the list of its bytes.  An access outside it, like a
    failed [assert], is [None]: a result [Some _] says every access was in bounds. *)

Definition mem_read (m : list Z) (off n : Z) : option (list Z) :=
  if (0 <=? off) && (0 <=? n) && (off + n <=? zlen m)
  then Some (take (Z.to_nat n) (drop (Z.to_nat off) m)) else None.

Definition mem_write (m : list Z) (off : Z) (bs : list Z) : option (list Z) :=
  if (0 <=? off) && (off + zlen bs <=? zlen m)
  then Some (take (Z.to_nat off) m ++ bs ++ drop (Z.to_nat (off + zlen bs)) m) else None.

Definition memmove (m : list Z) (dst src n : Z) : option (list Z) :=
  bs ← mem_read m src n; mem_write m dst bs.

(** One byte: [m[i]] and [m[i] = v]. *)
Definition getb (m : list Z) (i : Z) : option Z :=
  if 0 <=? i then m !! Z.to_nat i else None.

Definition setb (m : list Z) (i v : Z) : option (list Z) :=
  match getb m i with
  | Some _ => Some (<[Z.to_nat i := v]> m)
  | None => None
  end.

Definition assert_true (b : bool) : option unit := if b then Some tt else None.

Lemma mem_read_mid a b c off n :
  off = zlen a -> n = zlen b -> mem_read (a ++ b ++ c) off n = Some b.
Proof.
  intros -> ->. unfold mem_read.
  replace (_ && _ && _) with true by len_lia.
  unfold zlen. rewrite !Nat2Z.id, drop_app_length, take_app_length. done.
Qed.

Lemma mem_read_tail a b off n :
  off = zlen a -> n = zlen b -> mem_read (a ++ b) off n = Some b.
Proof. intros. rewrite <- (app_nil_r b) at 1. by apply mem_read_mid. Qed.

Lemma mem_write_mid a b b' c off :
  off = zlen a -> zlen b' = zlen b -> mem_write (a ++ b ++ c) off b' = Some (a ++ b' ++ c).
Proof.
  intros -> Hb. unfold mem_write.
  replace (_ && _) with true by len_lia.
  f_equal. unfold zlen in *. f_equal; [|f_equal].
  - by rewrite Nat2Z.id, take_app_length.
  - replace (Z.to_nat _) with (length (a ++ b)) by (rewrite length_app; lia).
    rewrite app_assoc. apply drop_app_length.
Qed.

Lemma mem_write_tail a b b' off :
  off = zlen a -> zlen b' = zlen b -> mem_write (a ++ b) off b' = Some (a ++ b').
Proof.
  intros Ho Hb. pose proof (mem_write_mid a b b' [] off Ho Hb) as E.
  by rewrite !app_nil_r in E.
Qed.

(** A range in bounds splits the memory in three. *)
Lemma mem_split (m : list Z) off n :
  0 <= off -> 0 <= n -> off + n <= zlen m ->
  exists a b c, m = a ++ b ++ c /\ zlen a = off /\ zlen b = n.
Proof.
  intros Ho Hn Hl.
  exists (take (Z.to_nat off) m), (take (Z.to_nat n) (drop (Z.to_nat off) m)),
    (drop (Z.to_nat n) (drop (Z.to_nat off) m)).
  rewrite !take_drop. split; [done|].
  unfold zlen in *. rewrite !length_take, length_drop. lia.
Qed.

Lemma mem_write_None m off bs :
  mem_write m off bs = None <-> off < 0 \/ zlen m < off + zlen bs.
Proof.
  unfold mem_write. destruct (_ && _) eqn:E; split; intros H; try done; lia.
Qed.

(** Shifting a block over a gap that follows, or precedes, it. *)
Lemma memmove_right a b gap dst src n :
  src = zlen a -> n = zlen b -> dst = zlen a + zlen gap ->
  exists hole, zlen hole = zlen gap /\ memmove (a ++ b ++ gap) dst src n = Some (a ++ hole ++ b).
Proof.
  intros -> -> ->. exists (take (length gap) (b ++ gap)).
  assert (zlen (take (length gap) (b ++ gap)) = zlen gap) as Hh.
  { unfold zlen. rewrite length_take, length_app. lia. }
  split; [done|]. unfold memmove. rewrite mem_read_mid by done. cbn [mbind option_bind].
  rewrite <- (take_drop (length gap) (b ++ gap)) at 1. rewrite app_assoc.
  rewrite mem_write_tail; [by rewrite <- app_assoc| |].
  - rewrite zlen_app, Hh. done.
  - unfold zlen. rewrite length_drop, length_app. lia.
Qed.

Lemma memmove_left a gap b dst src n :
  src = zlen a + zlen gap -> n = zlen b -> dst = zlen a ->
  exists rest, zlen rest = zlen gap /\ memmove (a ++ gap ++ b) dst src n = Some (a ++ b ++ rest).
Proof.
  intros -> -> ->. exists (drop (length b) (gap ++ b)).
  assert (zlen (drop (length b) (gap ++ b)) = zlen gap) as Hh.
  { unfold zlen. rewrite length_drop, length_app. lia. }
  split; [done|]. unfold memmove.
  rewrite app_assoc, mem_read_tail by (rewrite ?zlen_app; done).
  cbn [mbind option_bind]. rewrite <- app_assoc.
  rewrite <- (take_drop (length b) (gap ++ b)) at 1.
  rewrite mem_write_mid; [done|done|].
  unfold zlen. rewrite length_take, length_app. lia.
Qed.

Lemma mem_write_length m off bs m' : mem_write m off bs = Some m' -> zlen m' = zlen m.
Proof.
  unfold mem_write. destruct (_ && _) eqn:E; [|done]. intros [= <-].
  unfold zlen in *. rewrite !length_app, length_take, length_drop. lia.
Qed.

Lemma getb_app_r a l i : 0 <= i -> getb (a ++ l) (zlen a + i) = getb l i.
Proof.
  intros Hi. unfold getb. pose proof (zlen_nonneg a).
  replace (0 <=? zlen a + i) with true by lia. replace (0 <=? i) with true by lia.
  unfold zlen in *. rewrite lookup_app_r by lia. f_equal. lia.
Qed.

Lemma getb_app_l a l i : i < zlen a -> getb (a ++ l) i = getb a i.
Proof.
  intros Hi. unfold getb. case_match eqn:E; [|done].
  unfold zlen in *. apply lookup_app_l. lia.
Qed.

Lemma getb_mid a x l i : i = zlen a -> getb (a ++ x :: l) i = Some x.
Proof. intros ->. rewrite <- (Z.add_0_r (zlen a)). by rewrite getb_app_r. Qed.

Lemma setb_app_r a l i v :
  0 <= i -> setb (a ++ l) (zlen a + i) v = (l' ← setb l i v; Some (a ++ l')).
Proof.
  intros Hi. unfold setb. rewrite getb_app_r by done.
  destruct (getb l i); [|done]. simpl. f_equal.
  pose proof (zlen_nonneg a). unfold zlen in *.
  rewrite insert_app_r_alt by lia. do 2 f_equal. lia.
Qed.

Lemma setb_mid a x l i v : i = zlen a -> setb (a ++ x :: l) i v = Some (a ++ v :: l).
Proof. intros ->. rewrite <- (Z.add_0_r (zlen a)). by rewrite setb_app_r. Qed.

Lemma getb_is_Some m i : 0 <= i < zlen m -> exists b, getb m i = Some b.
Proof.
  intros Hi. unfold getb. replace (0 <=? i) with true by lia.
  apply lookup_lt_is_Some. unfold zlen in *. lia.
Qed.

(** ** The allocator

    What the allocator promises: a block of the requested size.  Its bytes are
    indeterminate, so every theorem holds for all contents. *)

Class Allocator := {
  fresh_bytes : nat -> list Z;
  length_fresh_bytes n : length (fresh_bytes n) = n;
}.

#[export] Program Instance zero_allocator : Allocator := {| fresh_bytes n := replicate n 0 |}.
Next Obligation. intros. apply length_replicate. Qed.

(** [realloc]: keeps the common prefix, new bytes are indeterminate. *)
Definition mem_resize `{Allocator} (m : list Z) (size : Z) : list Z :=
  if size <=? zlen m then take (Z.to_nat size) m
  else m ++ fresh_bytes (Z.to_nat (size - zlen m)).

Lemma mem_resize_grow `{Allocator} m size :
  zlen m <= size -> exists junk, mem_resize m size = m ++ junk /\ zlen junk = size - zlen m.
Proof.
  intros Hs. unfold mem_resize. case_match eqn:E.
  - exists []. rewrite app_nil_r. split; [|len_lia].
    apply take_ge. unfold zlen in *. lia.
  - eexists. split; [done|]. unfold zlen at 1. rewrite length_fresh_bytes. lia.
Qed.

Lemma mem_resize_shrink `{Allocator} a b size :
  size = zlen a -> mem_resize (a ++ b) size = a.
Proof.
  intros ->. unfold mem_resize.
  replace (_ <=? _) with true by len_lia.
  unfold zlen. by rewrite Nat2Z.id, take_app_length.
Qed.

(** ** Loops with an explicit bound

    [loop n f x] runs the body until it answers [inr]; [None] is either a failed
    access in the body or an exhausted bound. *)
Fixpoint loop {S R} (fuel : nat) (body : S -> option (S + R)) (s : S) : option R :=
  match fuel with
  | O => None
  | Datatypes.S fuel =>
      match body s with
      | None => None
      | Some (inl s') => loop fuel body s'
      | Some (inr r) => Some r
      end
  end.

Lemma loop_more {S R} (body : S -> option (S + R)) n m s r : loop n body s = Some r -> (n <= m)%nat -> loop m body s = Some r.
Proof.
  revert m s. induction n as [|n IH]; intros [|m] s E Hle; try done; [lia|]. cbn [loop] in *.
  destruct (body s) as [[s'|r']|]; [|done|done]. apply IH; [done|lia].
Qed.

Lemma loop_step {S R} (body : S -> option (S + R)) n s :
  loop (Datatypes.S n) body s =
    match body s with None => None | Some (inl s') => loop n body s' | Some (inr r) => Some r end.
Proof. done. Qed.

(** Total correctness of a loop from an invariant and a decreasing measure. *)
Lemma loop_ok {S R} (body : S -> option (S + R)) (I : S -> Prop) (Q : R -> Prop) (mu : S -> Z) :
  (forall s, I s -> 0 <= mu s /\
     ((exists s', body s = Some (inl s') /\ I s' /\ mu s' < mu s) \/
      (exists r, body s = Some (inr r) /\ Q r))) ->
  forall fuel s, I s -> mu s < Z.of_nat fuel -> exists r, loop fuel body s = Some r /\ Q r.
Proof.
  intros Hstep fuel. induction fuel as [|fuel IH]; intros s HI Hmu.
  - destruct (Hstep s HI). lia.
  - destruct (Hstep s HI) as [Hpos [(s' & E & HI' & Hlt) | (r & E & HQ)]]; simpl; rewrite E.
    + apply IH; [done|lia].
    + eauto.
Qed.
