(* ===== verification/Endian.v ===== *)
(** * Byte order: [endianconv.c] and the [...ifbe] macros of [endianconv.h]

    Redis writes its serialised structures little endian on every host.  [be] is
    the host's byte order ([BYTE_ORDER == BIG_ENDIAN]); a native store writes the
    bytes in that order and [memrevNifbe] then swaps them on a big-endian host.
    The theorems show that the stored bytes, and the value a load gives back, do
    not depend on [be]; the other files use the little-endian form directly. *)
From S2P Require Import Prelude.

(** ** [memrev16], [memrev32], [memrev64]: byte swaps in place *)

Definition swap_bytes (m : list Z) (i j : Z) : option (list Z) :=
  t ← getb m i; xj ← getb m j; m ← setb m i xj; setb m j t.

Definition memrev16 (m : list Z) (p : Z) : option (list Z) := swap_bytes m (p + 0) (p + 1).

Definition memrev32 (m : list Z) (p : Z) : option (list Z) :=
  m ← swap_bytes m (p + 0) (p + 3); swap_bytes m (p + 1) (p + 2).

Definition memrev64 (m : list Z) (p : Z) : option (list Z) :=
  m ← swap_bytes m (p + 0) (p + 7);
  m ← swap_bytes m (p + 1) (p + 6);
  m ← swap_bytes m (p + 2) (p + 5);
  swap_bytes m (p + 3) (p + 4).

(** ** Native stores and loads of an [n]-byte integer *)

Definition host_store (be : bool) (n : nat) (v : Z) : list Z :=
  if be then reverse (le_split n v) else le_split n v.

Definition host_load (be : bool) (bs : list Z) : Z :=
  le_join (if be then reverse bs else bs).

Definition intrev16 (be : bool) (v : Z) : option Z :=
  m ← memrev16 (host_store be 2 v) 0; Some (host_load be m).
Definition intrev32 (be : bool) (v : Z) : option Z :=
  m ← memrev32 (host_store be 4 v) 0; Some (host_load be m).
Definition intrev64 (be : bool) (v : Z) : option Z :=
  m ← memrev64 (host_store be 8 v) 0; Some (host_load be m).

Definition memrev16ifbe (be : bool) (m : list Z) (p : Z) := if be then memrev16 m p else Some m.
Definition memrev32ifbe (be : bool) (m : list Z) (p : Z) := if be then memrev32 m p else Some m.
Definition memrev64ifbe (be : bool) (m : list Z) (p : Z) := if be then memrev64 m p else Some m.

Definition htonu64 (be : bool) (v : Z) : option Z := if be then Some v else intrev64 be v.

(** ** Each swap reverses its bytes and nothing else *)

Lemma swap_bytes_app a l i j :
  0 <= i -> 0 <= j ->
  swap_bytes (a ++ l) (zlen a + i) (zlen a + j) = (l' ← swap_bytes l i j; Some (a ++ l')).
Proof.
  intros Hi Hj. unfold swap_bytes.
  rewrite !getb_app_r by done.
  destruct (getb l i) as [x|]; simpl; [|done].
  destruct (getb l j) as [y|]; simpl; [|done].
  rewrite setb_app_r by done.
  destruct (setb l i y) as [l'|]; simpl; [|done].
  by rewrite setb_app_r.
Qed.

Lemma memrev16_app a bs c :
  length bs = 2%nat -> memrev16 (a ++ bs ++ c) (zlen a) = Some (a ++ reverse bs ++ c).
Proof.
  intros Hl. do 2 (destruct bs as [|? bs]; [discriminate|]).
  destruct bs; [|discriminate]. unfold memrev16.
  by rewrite swap_bytes_app.
Qed.

Lemma memrev32_app a bs c :
  length bs = 4%nat -> memrev32 (a ++ bs ++ c) (zlen a) = Some (a ++ reverse bs ++ c).
Proof.
  intros Hl. do 4 (destruct bs as [|? bs]; [discriminate|]).
  destruct bs; [|discriminate]. unfold memrev32.
  rewrite swap_bytes_app by lia. simpl. by rewrite swap_bytes_app.
Qed.

Lemma memrev64_app a bs c :
  length bs = 8%nat -> memrev64 (a ++ bs ++ c) (zlen a) = Some (a ++ reverse bs ++ c).
Proof.
  intros Hl. do 8 (destruct bs as [|? bs]; [discriminate|]).
  destruct bs; [|discriminate]. unfold memrev64.
  do 3 (rewrite swap_bytes_app by lia; simpl). by rewrite swap_bytes_app.
Qed.

(** ** Host independence *)

(** A native store followed by the matching [memrev...ifbe] leaves the
    little-endian bytes, on either host. *)
Definition store_ifbe (be : bool) (n : nat) (m : list Z) (p v : Z) : option (list Z) :=
  m ← mem_write m p (host_store be n v);
  match n with
  | 2%nat => memrev16ifbe be m p
  | 4%nat => memrev32ifbe be m p
  | 8%nat => memrev64ifbe be m p
  | _ => None
  end.

Lemma length_host_store be n v : length (host_store be n v) = n.
Proof. destruct be; simpl; rewrite ?length_reverse; apply length_le_split. Qed.

Lemma host_store_load be n v : host_load be (host_store be n v) = v mod 256 ^ Z.of_nat n.
Proof.
  destruct be; unfold host_load, host_store; rewrite ?reverse_involutive; apply le_join_split.
Qed.

Lemma memrevifbe_app be n (m1 bs m2 : list Z) :
  n ∈ [2; 4; 8]%nat -> length bs = n ->
  match n with
  | 2%nat => memrev16ifbe be (m1 ++ bs ++ m2) (zlen m1)
  | 4%nat => memrev32ifbe be (m1 ++ bs ++ m2) (zlen m1)
  | 8%nat => memrev64ifbe be (m1 ++ bs ++ m2) (zlen m1)
  | _ => None
  end = Some (m1 ++ (if be then reverse bs else bs) ++ m2).
Proof.
  intros Hn Hl. rewrite !elem_of_cons, elem_of_nil in Hn.
  destruct be; destruct Hn as [->|[->|[->|[]]]]; simpl;
    [by apply memrev16_app|by apply memrev32_app|by apply memrev64_app|done..].
Qed.

(** storing a 16, 32 or 64 bit integer in host order and applying the matching memrev-ifbe
    macro leaves its little-endian bytes in memory on hosts of either byte order. *)
Theorem store_ifbe_le be n m p v :
  n ∈ [2; 4; 8]%nat -> store_ifbe be n m p v = mem_write m p (le_split n v).
Proof.
  intros Hn. unfold store_ifbe.
  assert (zlen (host_store be n v) = Z.of_nat n) as Hl.
  { unfold zlen. by rewrite length_host_store. }
  destruct (decide (0 <= p /\ p + Z.of_nat n <= zlen m)) as [Hin|Hout].
  - destruct (mem_split m p (Z.of_nat n)) as (a & b & c & -> & <- & Hb); [lia..|].
    rewrite !(mem_write_mid a b) by (rewrite ?zlen_le_split; lia).
    cbn [mbind option_bind]. rewrite memrevifbe_app by (by rewrite ?length_host_store).
    destruct be; unfold host_store; rewrite ?reverse_involutive; done.
  - rewrite (proj2 (mem_write_None m p (host_store be n v))) by lia.
    rewrite (proj2 (mem_write_None m p (le_split n v))); [done|].
    rewrite zlen_le_split. lia.
Qed.

Lemma store_ifbe_le_witness :
  4%nat ∈ [2; 4; 8]%nat /\
  store_ifbe true 4 [0; 0; 0; 0; 9] 0 305419896 = Some [120; 86; 52; 18; 9].
Proof.
  split; [set_solver|]. rewrite store_ifbe_le; [reflexivity|set_solver].
Defined.

(** [intrevN] through the [memrevN] lemma of its width. *)
Ltac intrev_spec memrev_app n be v :=
  pose proof (memrev_app [] (host_store be n v) [] (length_host_store be n v)) as E;
  rewrite app_nil_r in E; change (zlen []) with 0 in E; simpl app in E;
  rewrite E; cbn [mbind option_bind]; rewrite app_nil_r;
  f_equal; destruct be; unfold host_load, host_store; by rewrite ?reverse_involutive.

Lemma intrev64_spec be v : intrev64 be v = Some (le_join (reverse (le_split 8 v))).
Proof. unfold intrev64. intrev_spec memrev64_app 8%nat be v. Qed.

Lemma intrev32_spec be v : intrev32 be v = Some (le_join (reverse (le_split 4 v))).
Proof. unfold intrev32. intrev_spec memrev32_app 4%nat be v. Qed.

Lemma intrev16_spec be v : intrev16 be v = Some (le_join (reverse (le_split 2 v))).
Proof. unfold intrev16. intrev_spec memrev16_app 2%nat be v. Qed.

Lemma join_reverse_involutive n v :
  0 <= v < 256 ^ Z.of_nat n ->
  le_join (reverse (le_split n (le_join (reverse (le_split n v))))) = v.
Proof.
  intros Hv.
  pose proof (le_split_join (reverse (le_split n v))) as E.
  rewrite length_reverse, length_le_split in E.
  rewrite E by (apply Forall_reverse, le_split_bytes).
  rewrite reverse_involutive, le_join_split. by apply Z.mod_small.
Qed.

(** C2. *)
Theorem intrev_involutive be :
  (forall v, 0 <= v <= UINT16_MAX -> (w ← intrev16 be v; intrev16 be w) = Some v) /\
  (forall v, 0 <= v <= UINT32_MAX -> (w ← intrev32 be v; intrev32 be w) = Some v) /\
  (forall v, 0 <= v <= UINT64_MAX -> (w ← intrev64 be v; intrev64 be w) = Some v).
Proof.
  unfold_limits. repeat split; intros v Hv;
    rewrite ?intrev16_spec, ?intrev32_spec, ?intrev64_spec; cbn [mbind option_bind];
    rewrite ?intrev16_spec, ?intrev32_spec, ?intrev64_spec;
    f_equal; apply join_reverse_involutive; lia.
Qed.
