(* ===== verification/IntsetFacts.v ===== *)
(** * Intset correctness

    [Repr st xs]: the bytes of [st] store the sorted list [xs].  Every operation of
    [Intset] is total on such a set (no access out of bounds, no failed assert) and
    acts on [xs] as the reference functions [sorted_insert] and [sorted_remove]. *)
From S2P Require Import Prelude Intset.

(** ** The abstract set: a sorted list without duplicates *)

Fixpoint sorted_insert (v : Z) (xs : list Z) : list Z :=
  match xs with
  | [] => [v]
  | x :: xs' => if v <? x then v :: xs else if v =? x then xs else x :: sorted_insert v xs'
  end.

Definition sorted_remove (v : Z) (xs : list Z) : list Z := filter (.≠ v) xs.

Definition encode_all (n : nat) (xs : list Z) : list Z := xs ≫= le_split n.

Definition enc_ok (e : Z) : Prop := e = 2 \/ e = 4 \/ e = 8.
Definition in_enc (e v : Z) : Prop := - 2 ^ (8 * e - 1) <= v < 2 ^ (8 * e - 1).

Record Repr (st : intset) (xs : list Z) : Prop := {
  repr_enc : enc_ok (encoding st);
  repr_len : is_length st = zlen xs;
  repr_contents : contents st = encode_all (Z.to_nat (encoding st)) xs;
  repr_range : Forall (in_enc (encoding st)) xs;
  repr_sorted : StronglySorted Z.lt xs;
}.

(** The largest set whose byte counts fit the [uint32_t] that [intsetMoveTail] uses. *)
Definition fits (n : Z) : Prop := n * 8 <= UINT32_MAX.

(** ** Sorted lists *)

Lemma sorted_insert_split v l1 l2 :
  Forall (fun x => x < v) l1 -> Forall (fun x => v < x) l2 ->
  sorted_insert v (l1 ++ l2) = l1 ++ v :: l2.
Proof.
  intros H1 H2. induction H1 as [|x l1 Hx _ IH]; simpl.
  - destruct H2; simpl; [done|]. by rewrite (proj2 (Z.ltb_lt _ _)).
  - rewrite IH. replace (v <? x) with false by lia. by replace (v =? x) with false by lia.
Qed.

Lemma sorted_insert_present v l1 l2 :
  Forall (fun x => x < v) l1 -> sorted_insert v (l1 ++ v :: l2) = l1 ++ v :: l2.
Proof.
  intros H1. induction H1 as [|x l1 Hx _ IH]; simpl.
  - by rewrite Z.ltb_irrefl, Z.eqb_refl.
  - rewrite IH. replace (v <? x) with false by lia. by replace (v =? x) with false by lia.
Qed.

Lemma elem_of_sorted_insert v xs y : y ∈ sorted_insert v xs <-> y = v \/ y ∈ xs.
Proof.
  induction xs as [|x xs IH]; simpl; [set_solver|].
  destruct (v <? x); [set_solver|]. destruct (v =? x) eqn:E; [|set_solver].
  assert (v = x) as -> by lia. set_solver.
Qed.

Lemma elem_of_sorted_remove v xs y : y ∈ sorted_remove v xs <-> y ≠ v /\ y ∈ xs.
Proof. unfold sorted_remove. rewrite list_elem_of_filter. done. Qed.

Lemma sorted_insert_sorted v xs :
  StronglySorted Z.lt xs -> StronglySorted Z.lt (sorted_insert v xs).
Proof.
  induction 1 as [|x xs Hs IH Hf]; simpl; [repeat constructor|].
  destruct (v <? x) eqn:E1.
  - constructor; [by constructor|]. constructor; [lia|].
    eapply Forall_impl; [done|]. simpl. lia.
  - destruct (v =? x) eqn:E2; [by constructor|]. constructor; [done|].
    apply Forall_forall. intros y. rewrite elem_of_sorted_insert.
    rewrite Forall_forall in Hf. intros [->|?]; [lia|auto].
Qed.

Lemma sorted_remove_sorted v xs :
  StronglySorted Z.lt xs -> StronglySorted Z.lt (sorted_remove v xs).
Proof.
  unfold sorted_remove. induction 1 as [|x xs Hs IH Hf]; [constructor|].
  rewrite filter_cons. case_decide; [|done]. constructor; [done|].
  rewrite Forall_forall in *. intros y. rewrite list_elem_of_filter. naive_solver.
Qed.

Lemma sorted_remove_absent v xs : v ∉ xs -> sorted_remove v xs = xs.
Proof.
  unfold sorted_remove. induction xs as [|x xs IH]; [done|]. intros H.
  rewrite filter_cons. case_decide; [|set_solver]. f_equal. apply IH. set_solver.
Qed.

Lemma sorted_remove_split v l1 l2 :
  StronglySorted Z.lt (l1 ++ v :: l2) -> sorted_remove v (l1 ++ v :: l2) = l1 ++ l2.
Proof.
  intros Hs. apply StronglySorted_app_inv in Hs as (_ & Hs & Hf).
  inversion_clear Hs as [|?? Hs2 Hf2].
  unfold sorted_remove. rewrite filter_app, filter_cons.
  case_decide; [done|].
  change (sorted_remove v l1 ++ sorted_remove v l2 = l1 ++ l2).
  rewrite !sorted_remove_absent; [done| |]; intros Hin.
  - rewrite Forall_forall in Hf2. specialize (Hf2 _ Hin). lia.
  - rewrite Forall_forall in Hf. specialize (Hf _ Hin). inversion_clear Hf. lia.
Qed.

(** ** The byte encoding *)

Lemma encode_all_app n xs ys : encode_all n (xs ++ ys) = encode_all n xs ++ encode_all n ys.
Proof. apply bind_app. Qed.

Lemma encode_all_cons n x xs : encode_all n (x :: xs) = le_split n x ++ encode_all n xs.
Proof. done. Qed.

Lemma encode_all_nil n : encode_all n [] = [].
Proof. done. Qed.

Lemma zlen_encode_all n xs : zlen (encode_all n xs) = Z.of_nat n * zlen xs.
Proof.
  induction xs as [|x xs IH]; [unfold zlen; simpl; lia|].
  rewrite encode_all_cons. autorewrite with zlen. lia.
Qed.
#[export] Hint Rewrite zlen_encode_all : zlen.

Lemma in_enc_mono e e' v : e <= e' -> 0 < e -> in_enc e v -> in_enc e' v.
Proof.
  unfold in_enc. intros Hle He Hv.
  assert (2 ^ (8 * e - 1) <= 2 ^ (8 * e' - 1)) by (apply Z.pow_le_mono_r; lia). lia.
Qed.

Lemma value_encoding_ok v : enc_ok (_intsetValueEncoding v).
Proof.
  unfold _intsetValueEncoding, enc_ok, INTSET_ENC_INT64, INTSET_ENC_INT32, INTSET_ENC_INT16.
  repeat case_match; lia.
Qed.

(** An encoding holds a value exactly when it is at least the value's encoding. *)
Lemma value_encoding_spec v e :
  enc_ok e -> INT64_MIN <= v <= INT64_MAX -> _intsetValueEncoding v <= e <-> in_enc e v.
Proof.
  unfold _intsetValueEncoding, enc_ok, in_enc,
    INTSET_ENC_INT64, INTSET_ENC_INT32, INTSET_ENC_INT16. unfold_limits.
  intros [->|[->| ->]] Hv; simpl; repeat case_match; lia.
Qed.

(** Decides the encoding tests of the code for a known encoding. *)
Ltac enc_cases :=
  unfold INTSET_ENC_INT64, INTSET_ENC_INT32, INTSET_ENC_INT16; cbn [Z.eqb Pos.eqb].

Lemma get_encoded_mid st a x c pos e :
  enc_ok e -> contents st = a ++ le_split (Z.to_nat e) x ++ c -> zlen a = pos * e ->
  in_enc e x -> _intsetGetEncoded st pos e = Some x.
Proof.
  unfold _intsetGetEncoded, in_enc. intros He -> Ha Hx.
  destruct He as [->|[->| ->]]; enc_cases; rewrite mem_read_mid by len_lia;
    cbn [mbind option_bind]; f_equal.
  - etrans; [apply (wraps_le_join_split 2); lia|]. by apply wraps_small.
  - etrans; [apply (wraps_le_join_split 4); lia|]. by apply wraps_small.
  - etrans; [apply (wraps_le_join_split 8); lia|]. by apply wraps_small.
Qed.

Lemma set_mid st a b c pos v :
  enc_ok (encoding st) -> contents st = a ++ b ++ c -> zlen a = pos * encoding st ->
  zlen b = encoding st ->
  _intsetSet st pos v
  = Some (with_contents st (a ++ le_split (Z.to_nat (encoding st)) v ++ c)).
Proof.
  unfold _intsetSet. intros He -> Ha Hb.
  destruct He as [E|[E|E]]; rewrite E in *; enc_cases;
    by rewrite (mem_write_mid a b) by (rewrite ?zlen_le_split; lia).
Qed.

Lemma resize_grow `{Allocator} st len :
  0 <= len * encoding st <= UINT64_MAX - 8 -> zlen (contents st) <= len * encoding st ->
  exists junk, intsetResize st len = Some (with_contents st (contents st ++ junk)) /\
    zlen junk = len * encoding st - zlen (contents st).
Proof.
  intros Hr Hl. unfold intsetResize, SIZE_MAX, sizeof_intset.
  rewrite wrapu_small by (unfold_limits; lia).
  replace (_ <=? _) with true by lia. simpl.
  destruct (mem_resize_grow (contents st) (len * encoding st) Hl) as (j & -> & Hj). eauto.
Qed.

Lemma resize_shrink `{Allocator} st len a b :
  contents st = a ++ b -> zlen a = len * encoding st -> zlen a <= UINT64_MAX - 8 ->
  intsetResize st len = Some (with_contents st a).
Proof.
  intros Hc Ha Hb. unfold intsetResize, SIZE_MAX, sizeof_intset.
  pose proof (zlen_nonneg a).
  rewrite wrapu_small by (unfold_limits; lia).
  replace (_ <=? _) with true by lia. simpl. by rewrite Hc, mem_resize_shrink.
Qed.

(** ** Reading a represented set *)

Lemma get_layout st xs i x :
  enc_ok (encoding st) -> contents st = encode_all (Z.to_nat (encoding st)) xs ->
  Forall (in_enc (encoding st)) xs -> xs !! i = Some x ->
  _intsetGet st (Z.of_nat i) = Some x.
Proof.
  intros He Hc Hr Hx. unfold _intsetGet.
  rewrite <- (take_drop_middle xs i x Hx), encode_all_app, encode_all_cons in Hc.
  eapply get_encoded_mid; [done|done| |].
  - rewrite zlen_encode_all, Z2Nat.id by (unfold enc_ok in He; lia).
    unfold zlen. rewrite length_take. apply lookup_lt_Some in Hx. lia.
  - rewrite Forall_lookup in Hr. eauto.
Qed.

Section reads.
Context (st : intset) (xs : list Z) (HR : Repr st xs).

Lemma get_lookup i x : xs !! i = Some x -> _intsetGet st (Z.of_nat i) = Some x.
Proof. destruct HR. by apply get_layout. Qed.

Lemma sorted_lookup i j x y : (i < j)%nat -> xs !! i = Some x -> xs !! j = Some y -> x < y.
Proof.
  intros Hij Hx Hy. pose proof (repr_sorted _ _ HR) as Hs.
  eapply StronglySorted_lookup_lt; eauto.
Qed.
End reads.

(** ** The search *)

(** What [intsetSearch] answers about [v] in a sorted list. *)
Definition search_result (xs : list Z) (v : Z) (r : bool * Z) : Prop :=
  exists l1 l2, r.2 = zlen l1 /\ Forall (fun x => x < v) l1 /\ Forall (fun x => v < x) l2 /\
    xs = l1 ++ (if r.1 then [v] else []) ++ l2.

Section search.
Context (st : intset) (xs : list Z) (HR : Repr st xs) (v : Z).
Context (Hsmall : zlen xs <= INT32_MAX).

(** The loop invariant: everything left of [min] is smaller, right of [max] larger. *)
Definition search_inv (s : Z * Z * Z * Z) : Prop :=
  let '(min, max, mid, cur) := s in
  0 <= min /\ min <= max + 1 /\ max < zlen xs /\
  (forall i x, xs !! i = Some x -> Z.of_nat i < min -> x < v) /\
  (forall i x, xs !! i = Some x -> max < Z.of_nat i -> v < x) /\
  (min <= max \/ cur ≠ v).

Definition search_post (r : Z * Z * Z) : Prop :=
  let '(min, mid, cur) := r in
  if v =? cur then 0 <= mid /\ xs !! Z.to_nat mid = Some v
  else 0 <= min <= zlen xs /\
    (forall i x, xs !! i = Some x -> Z.of_nat i < min -> x < v) /\
    (forall i x, xs !! i = Some x -> min <= Z.of_nat i -> v < x).

Lemma search_mid min max :
  0 <= min -> min <= max -> max < zlen xs ->
  exists i cur, s32 (Z.shiftr (u32 (u32 min + u32 max)) 1) = Z.of_nat i /\
    min <= Z.of_nat i <= max /\ xs !! i = Some cur.
Proof.
  intros H0 H1 H2. unfold_limits.
  rewrite (wrapu_small 32 min), (wrapu_small 32 max), wrapu_small by lia.
  rewrite Z.shiftr_div_pow2 by lia. change (2 ^ 1) with 2.
  assert (min <= (min + max) / 2 <= max) by div_lia.
  rewrite wraps_small by lia.
  destruct (lookup_lt_is_Some_2 xs (Z.to_nat ((min + max) / 2))) as [cur Hc].
  { unfold zlen in *. lia. }
  exists (Z.to_nat ((min + max) / 2)), cur. rewrite Z2Nat.id by lia. done.
Qed.

Lemma search_step s :
  search_inv s ->
  0 <= (let '(min, max, _, _) := s in max + 1 - min) /\
  ((exists s', intsetSearch_body st v s = Some (inl s') /\ search_inv s' /\
      (let '(min, max, _, _) := s' in max + 1 - min)
      < (let '(min, max, _, _) := s in max + 1 - min)) \/
   (exists r, intsetSearch_body st v s = Some (inr r) /\ search_post r)).
Proof.
  destruct s as [[[min max] mid] cur]. intros (Hmin & Hmm & Hmax & Hlo & Hhi & Hcur).
  split; [lia|]. unfold intsetSearch_body, search_post.
  destruct (max >=? min) eqn:Hc; cycle 1.
  - right. eexists. split; [done|]. cbn beta iota. replace (v =? cur) with false by lia.
    repeat split; [lia|lia|done|]. intros i x Hx Hi. apply (Hhi i x Hx). lia.
  - destruct (search_mid min max) as (i & c & -> & Hi & Hx); [lia..|].
    rewrite (get_lookup st xs HR i c Hx). cbn [mbind option_bind].
    unfold_limits. unfold search_inv.
    destruct (v >? c) eqn:E1; [|destruct (v <? c) eqn:E2].
    + left. eexists. split; [done|]. cbn beta iota. rewrite wraps_small by lia.
      split; [|lia]. repeat split; [lia|lia|lia| |done|lia].
      intros j x Hj Hlt. destruct (decide (j = i)) as [->|].
      * simplify_eq. lia.
      * assert (x < c) by (eapply (sorted_lookup st xs HR j i); [lia|done..]). lia.
    + left. eexists. split; [done|]. cbn beta iota. rewrite wraps_small by lia.
      split; [|lia]. repeat split; [lia|lia|lia|done| |lia].
      intros j x Hj Hlt. destruct (decide (j = i)) as [->|].
      * simplify_eq. lia.
      * assert (c < x) by (eapply (sorted_lookup st xs HR i j); [lia|done..]). lia.
    + right. eexists. split; [done|]. cbn beta iota. assert (c = v) as -> by lia.
      rewrite Z.eqb_refl. rewrite Nat2Z.id. split; [lia|done].
Qed.

(** A position that separates the smaller from the larger members. *)
Lemma search_absent_at p :
  0 <= p <= zlen xs ->
  (forall i x, xs !! i = Some x -> Z.of_nat i < p -> x < v) ->
  (forall i x, xs !! i = Some x -> p <= Z.of_nat i -> v < x) ->
  search_result xs v (false, p).
Proof.
  intros Hp Hlo Hhi. exists (take (Z.to_nat p) xs), (drop (Z.to_nat p) xs).
  simpl. rewrite take_drop, zlen_take by done.
  repeat split; try done; apply Forall_lookup; intros i x Hx.
  - apply lookup_take_Some in Hx as [Hx Hi]. eapply Hlo; [done|lia].
  - rewrite lookup_drop in Hx. eapply Hhi; [done|lia].
Qed.

Lemma search_found_at i :
  0 <= i -> xs !! Z.to_nat i = Some v -> search_result xs v (true, i).
Proof.
  intros Hi Hx. exists (take (Z.to_nat i) xs), (drop (S (Z.to_nat i)) xs). simpl.
  pose proof (lookup_lt_Some _ _ _ Hx) as Hlt.
  rewrite (take_drop_middle xs _ v Hx), zlen_take by (unfold zlen; lia).
  repeat split; try done; apply Forall_lookup; intros j x Hj.
  - apply lookup_take_Some in Hj as [Hj ?]. eapply (sorted_lookup st xs HR j); eauto.
  - rewrite lookup_drop in Hj.
    eapply (sorted_lookup st xs HR (Z.to_nat i)); [|done..]. lia.
Qed.

Lemma intsetSearch_spec :
  exists r, intsetSearch st v = Some r /\ search_result xs v r.
Proof.
  unfold_limits. unfold intsetSearch. pose proof (repr_len _ _ HR) as Hl.
  pose proof (zlen_nonneg xs). rewrite Hl.
  destruct (zlen xs =? 0) eqn:E0.
  { eexists. split; [done|]. assert (xs = []) as -> by (destruct xs; [done|len_lia]).
    exists [], []. repeat split; auto using Forall_nil_2. }
  assert (s32 (u32 (zlen xs - 1)) = zlen xs - 1) as ->.
  { rewrite wrapu_small by lia. apply wraps_small; lia. }
  destruct (lookup_lt_is_Some_2 xs (length xs - 1)) as [last Hlast].
  { unfold zlen in *. lia. }
  destruct (lookup_lt_is_Some_2 xs 0) as [first Hfirst].
  { unfold zlen in *. lia. }
  assert (_intsetGet st (zlen xs - 1) = Some last) as ->.
  { rewrite <- (get_lookup st xs HR _ _ Hlast). f_equal. unfold zlen in *. lia. }
  cbn [mbind option_bind].
  destruct (v >? last) eqn:E1.
  { eexists. split; [done|]. apply search_absent_at; [lia| |].
    - intros i x Hx Hi. pose proof (lookup_lt_Some _ _ _ Hx).
      destruct (decide (i = length xs - 1)%nat) as [->|]; [simplify_eq; lia|].
      assert (x < last) by (eapply (sorted_lookup st xs HR i); [|done..]; lia). lia.
    - intros i x Hx Hi. apply lookup_lt_Some in Hx. unfold zlen in *. lia. }
  assert (_intsetGet st 0 = Some first) as -> by apply (get_lookup st xs HR _ _ Hfirst).
  cbn [mbind option_bind].
  destruct (v <? first) eqn:E2.
  { eexists. split; [done|]. apply search_absent_at; [lia|intros; lia|].
    intros i x Hx Hi. destruct (decide (i = 0)%nat) as [->|]; [simplify_eq; lia|].
    assert (first < x) by (eapply (sorted_lookup st xs HR 0); [|done..]; lia). lia. }
  destruct (loop_ok (intsetSearch_body st v) search_inv search_post
              (fun s => let '(min, max, _, _) := s in max + 1 - min) search_step
              (S (Z.to_nat (zlen xs))) (0, zlen xs - 1, -1, -1))
    as (r & -> & Hpost); [|lia|].
  { repeat split; [lia|lia|lia|intros; lia| |lia].
    intros i x Hx Hi. apply lookup_lt_Some in Hx. unfold zlen in *. lia. }
  destruct r as [[min mid] cur]. cbn [mbind option_bind]. unfold search_post in Hpost.
  destruct (v =? cur).
  - destruct Hpost as [Hm Hx]. eexists. split; [done|].
    rewrite wrapu_small; [by apply search_found_at|].
    apply lookup_lt_Some in Hx. unfold zlen in *. lia.
  - destruct Hpost as (Hm & Hlo & Hhi). eexists. split; [done|].
    rewrite wrapu_small by lia. by apply search_absent_at.
Qed.
End search.

(** ** Moving the tail *)

Lemma moveTail_bytes st from to :
  enc_ok (encoding st) -> 0 <= from <= is_length st -> fits (is_length st) ->
  intsetMoveTail st from to
  = (c ← memmove (contents st) (to * encoding st) (from * encoding st)
           ((is_length st - from) * encoding st);
     Some (with_contents st c)).
Proof.
  unfold intsetMoveTail, fits. unfold_limits. intros He Hf Hl.
  rewrite (wrapu_small 32 (is_length st - from)) by lia.
  destruct He as [E|[E|E]]; rewrite E; enc_cases; by rewrite wrapu_small by lia.
Qed.

Lemma moveTail_insert st l1 l2 junk :
  enc_ok (encoding st) -> fits (zlen l1 + zlen l2) -> is_length st = zlen l1 + zlen l2 ->
  contents st = encode_all (Z.to_nat (encoding st)) l1 ++
                encode_all (Z.to_nat (encoding st)) l2 ++ junk ->
  zlen junk = encoding st ->
  exists hole, zlen hole = encoding st /\
    intsetMoveTail st (zlen l1) (zlen l1 + 1)
    = Some (with_contents st (encode_all (Z.to_nat (encoding st)) l1 ++ hole ++
                              encode_all (Z.to_nat (encoding st)) l2)).
Proof.
  intros He Hf Hl Hc Hj.
  assert (Z.of_nat (Z.to_nat (encoding st)) = encoding st) as He0.
  { apply Z2Nat.id. unfold enc_ok in He. lia. }
  rewrite moveTail_bytes; [|done|len_lia|by rewrite Hl].
  rewrite Hc, Hl.
  edestruct memmove_right as (hole & Hh & ->); cycle 3.
  - exists hole. split; [congruence|done].
  - rewrite zlen_encode_all, He0. lia.
  - rewrite zlen_encode_all, He0. lia.
  - rewrite zlen_encode_all, He0, Hj. lia.
Qed.

Lemma moveTail_delete st l1 x l2 :
  enc_ok (encoding st) -> fits (zlen (l1 ++ x :: l2)) -> is_length st = zlen (l1 ++ x :: l2) ->
  contents st = encode_all (Z.to_nat (encoding st)) (l1 ++ x :: l2) ->
  exists rest, zlen rest = encoding st /\
    intsetMoveTail st (zlen l1 + 1) (zlen l1)
    = Some (with_contents st (encode_all (Z.to_nat (encoding st)) l1 ++
                              encode_all (Z.to_nat (encoding st)) l2 ++ rest)).
Proof.
  intros He Hf Hl Hc.
  assert (Z.of_nat (Z.to_nat (encoding st)) = encoding st) as He0.
  { apply Z2Nat.id. unfold enc_ok in He. lia. }
  rewrite moveTail_bytes; [|done|rewrite Hl; len_lia|by rewrite Hl].
  rewrite Hc, Hl, encode_all_app, encode_all_cons.
  edestruct memmove_left as (rest & Hh & ->); cycle 3.
  - exists rest. split; [|done]. by rewrite Hh, zlen_le_split.
  - rewrite zlen_encode_all, zlen_le_split, He0. lia.
  - rewrite zlen_encode_all, He0. autorewrite with zlen. lia.
  - rewrite zlen_encode_all, He0. lia.
Qed.

(** ** Upgrading in place *)

(** Before the step for [n], the first [n] members are still in the old encoding and
    the others already in the new one, at the end of the block. *)
Lemma upgrade_loop_spec st cur prepend xs ys gap tail :
  enc_ok cur -> enc_ok (encoding st) -> cur <= encoding st -> 0 <= prepend ->
  Forall (in_enc cur) xs ->
  contents st = encode_all (Z.to_nat cur) xs ++ gap ++
                encode_all (Z.to_nat (encoding st)) ys ++ tail ->
  zlen gap = (zlen xs + prepend) * encoding st - zlen xs * cur ->
  exists gap', zlen gap' = prepend * encoding st /\
    upgrade_loop st prepend cur (length xs)
    = Some (with_contents st (gap' ++ encode_all (Z.to_nat (encoding st)) (xs ++ ys) ++ tail)).
Proof.
  intros Hc He Hle Hp. revert st ys gap He Hle.
  induction xs as [|x xs IH] using rev_ind; intros st ys gap He Hle Hr Hm Hg.
  { exists gap. split; [rewrite Hg, zlen_nil; lia|].
    destruct st. simpl in *. by rewrite Hm. }
  apply Forall_app in Hr as [Hr Hx]. inversion_clear Hx as [|?? Hx' _].
  rewrite length_app. simpl length. rewrite Nat.add_1_r. cbn [upgrade_loop].
  assert (Z.of_nat (Z.to_nat cur) = cur /\
          Z.of_nat (Z.to_nat (encoding st)) = encoding st) as [Hc0 He0].
  { unfold enc_ok in *. lia. }
  rewrite encode_all_app, encode_all_cons, encode_all_nil, app_nil_r, <- app_assoc in Hm.
  rewrite (get_encoded_mid st (encode_all (Z.to_nat cur) xs) x _ (Z.of_nat (length xs)) cur
             Hc Hm); [|rewrite zlen_encode_all, Hc0; unfold zlen; lia|done].
  cbn [mbind option_bind].
  assert (0 <= (zlen xs + prepend) * encoding st - zlen xs * cur) as Hpos.
  { pose proof (zlen_nonneg xs). assert (0 < encoding st) by (unfold enc_ok in *; lia). nia. }
  assert (0 < encoding st) as Hepos by (unfold enc_ok in *; lia).
  assert (exists g1 g2, le_split (Z.to_nat cur) x ++ gap = g1 ++ g2 /\
            zlen g2 = encoding st) as (g1 & g2 & Eg & Hg2).
  { assert (0 <= zlen (le_split (Z.to_nat cur) x ++ gap) - encoding st
              <= zlen (le_split (Z.to_nat cur) x ++ gap)).
    { autorewrite with zlen in *. rewrite Hc0. lia. }
    eexists _, _. split; [symmetry; apply (take_drop (Z.to_nat
      (zlen (le_split (Z.to_nat cur) x ++ gap) - encoding st)))|].
    rewrite zlen_drop by done. lia. }
  assert (zlen g1 = (zlen xs + prepend) * encoding st - zlen xs * cur) as Hg1.
  { apply (f_equal zlen) in Eg. autorewrite with zlen in *. lia. }
  rewrite (set_mid st (encode_all (Z.to_nat cur) xs ++ g1) g2
             (encode_all (Z.to_nat (encoding st)) ys ++ tail)); [|done| | |done].
  - cbn [mbind option_bind].
    destruct (IH (with_contents st (encode_all (Z.to_nat cur) xs ++ g1 ++
               encode_all (Z.to_nat (encoding st)) (x :: ys) ++ tail)) (x :: ys) g1)
      as (gap' & Hg' & E); [done..|].
    exists gap'. split; [done|]. rewrite encode_all_cons in E.
    rewrite <- (app_assoc xs [x] ys). rewrite <- !app_assoc in E |- *. exact E.
  - rewrite Hm. rewrite <- !app_assoc. f_equal. rewrite !app_assoc. do 2 f_equal.
    by rewrite <- Eg.
  - rewrite zlen_app, zlen_encode_all, Hc0, Hg1. unfold zlen. lia.
Qed.

(** ** Adding and removing *)

Section updates.
Context `{Allocator} (st : intset) (xs : list Z) (v : Z).
Context (HR : Repr st xs) (Hv : INT64_MIN <= v <= INT64_MAX).

(** A value that needs a wider encoding lies outside the range of the members. *)
Lemma wider_value_side :
  encoding st < _intsetValueEncoding v ->
  (v < 0 -> Forall (fun x => v < x) xs) /\ (0 <= v -> Forall (fun x => x < v) xs).
Proof.
  intros Hw. destruct HR as [He _ _ Hr _].
  assert (~ in_enc (encoding st) v) as Hn.
  { rewrite <- value_encoding_spec by done. lia. }
  split; intros Hs; eapply Forall_impl; try done; unfold in_enc in *; simpl; lia.
Qed.

(** The list obtained by putting [v] between the smaller and the larger members. *)
Lemma Repr_insert st' l1 l2 :
  xs = l1 ++ l2 -> Forall (fun x => x < v) l1 -> Forall (fun x => v < x) l2 ->
  enc_ok (encoding st') -> encoding st <= encoding st' ->
  _intsetValueEncoding v <= encoding st' ->
  is_length st' = zlen xs + 1 ->
  contents st' = encode_all (Z.to_nat (encoding st')) l1 ++
    le_split (Z.to_nat (encoding st')) v ++ encode_all (Z.to_nat (encoding st')) l2 ->
  Repr st' (sorted_insert v xs).
Proof.
  intros Hx H1 H2 He Hle Hve Hl Hc. pose proof (repr_sorted _ _ HR) as Hs.
  pose proof (sorted_insert_sorted v xs Hs) as Hs'.
  pose proof (repr_range _ _ HR) as Hr. pose proof (repr_enc _ _ HR) as He0.
  rewrite Hx in *. rewrite sorted_insert_split in * by done. constructor; try done.
  - rewrite Hl. autorewrite with zlen. lia.
  - by rewrite encode_all_app, encode_all_cons.
  - assert (Forall (in_enc (encoding st')) (l1 ++ l2)) as Hf.
    { eapply Forall_impl; [done|]. simpl. intros x.
      apply in_enc_mono; [done|unfold enc_ok in He0; lia]. }
    apply Forall_app in Hf as [? ?]. apply Forall_app. split; [done|].
    constructor; [|done]. by apply value_encoding_spec.
Qed.

Lemma upgrade_spec :
  encoding st < _intsetValueEncoding v -> fits (zlen xs + 1) ->
  exists st', intsetUpgradeAndAdd st v = Some st' /\ Repr st' (sorted_insert v xs).
Proof.
  intros Hw Hfit. destruct (wider_value_side Hw) as [Hneg Hpos].
  pose proof (value_encoding_ok v) as Hok.
  unfold fits in Hfit. unfold_limits. pose proof (zlen_nonneg xs).
  unfold intsetUpgradeAndAdd. pose proof HR as [He Hl Hc Hr Hs].
  set (ne := _intsetValueEncoding v) in *.
  assert (0 < encoding st /\ 0 < ne <= 8) as [Hep Hnp] by (unfold enc_ok in *; lia).
  rewrite Hl. cbn [is_length]. rewrite (wrapu_small 32) by lia.
  rewrite (wraps_small 32) by lia. rewrite (wrapu_small 8) by (unfold enc_ok in *; lia).
  destruct (resize_grow (Intset ne (zlen xs) (contents st)) (zlen xs + 1))
    as (junk & -> & Hj); simpl encoding in *; simpl contents in *.
  { unfold_limits. nia. }
  { rewrite Hc, zlen_encode_all, Z2Nat.id by lia. nia. }
  cbn [mbind option_bind]. replace (0 <=? zlen xs) with true by lia.
  cbn [assert_true mbind option_bind].
  rewrite Hc, zlen_encode_all, Z2Nat.id in Hj by lia. unfold zlen at 2. rewrite Nat2Z.id.
  destruct (v <? 0) eqn:Ev.
  - (* prepend *)
    destruct (upgrade_loop_spec (with_contents (Intset ne (zlen xs) (contents st))
                (contents st ++ junk)) (encoding st) 1 xs [] junk [])
      as (g & Hg & ->); simpl encoding; simpl contents; try done; try lia.
    { by rewrite Hc, encode_all_nil, !app_nil_r. }
    cbn [mbind option_bind Z.eqb Pos.eqb].
    rewrite (set_mid _ [] g (encode_all (Z.to_nat ne) xs)); simpl encoding; simpl contents;
      [|done|by rewrite !app_nil_r|unfold zlen; simpl; lia|simpl in Hg; lia].
    eexists. split; [done|]. rewrite wrapu_small by (simpl; lia).
    apply (Repr_insert _ [] xs); simpl; try done; try lia.
    apply Hneg. lia.
  - (* append *)
    destruct (mem_split junk (zlen junk - ne) ne) as (j1 & j2 & j3 & -> & Hj1 & Hj2);
      [autorewrite with zlen in *; nia|lia|lia|].
    assert (j3 = []) as -> by (destruct j3; [done|len_lia]).
    rewrite app_nil_r in *. autorewrite with zlen in Hj, Hj1.
    destruct (upgrade_loop_spec (with_contents (Intset ne (zlen xs) (contents st))
                (contents st ++ j1 ++ j2)) (encoding st) 0 xs [] j1 j2)
      as (g & Hg & ->); simpl encoding; simpl contents; try done; try lia.
    { by rewrite Hc, encode_all_nil. }
    assert (g = []) as -> by (destruct g; [done|len_lia]).
    cbn [mbind option_bind Z.eqb Pos.eqb]. rewrite app_nil_r. simpl app.
    rewrite (set_mid _ (encode_all (Z.to_nat ne) xs) j2 []); simpl encoding;
      simpl contents; simpl is_length; rewrite ?app_nil_r; try done.
    + eexists. split; [done|]. simpl. rewrite wrapu_small by lia.
      apply (Repr_insert _ xs []); simpl; rewrite ?app_nil_r; try done; try lia.
      apply Hpos. lia.
    + rewrite zlen_encode_all, Z2Nat.id, wraps_small by lia. lia.
Qed.
End updates.
