(* ===== verification/IntsetProps.v ===== *)
(** * Intset properties: what each operation of [intset.c] guarantees *)
From S2P Require Import Prelude Intset IntsetFacts.

Lemma search_present xs v l1 l2 (b : bool) :
  Forall (fun x => x < v) l1 -> Forall (fun x => v < x) l2 ->
  xs = l1 ++ (if b then [v] else []) ++ l2 -> b = bool_decide (v ∈ xs).
Proof.
  intros H1 H2 ->. symmetry. destruct b; simpl.
  - apply bool_decide_eq_true_2. set_solver.
  - apply bool_decide_eq_false_2. rewrite elem_of_app, !Forall_forall in *.
    intros [Hin|Hin]; [specialize (H1 _ Hin)|specialize (H2 _ Hin)]; lia.
Qed.

(** ** The two edits, once the position is known *)

Section edits.
Context `{Allocator} (st : intset) (xs : list Z) (v : Z).
Context (HR : Repr st xs) (Hv : INT64_MIN <= v <= INT64_MAX).

Lemma encoding_range : 0 < encoding st <= 8.
Proof. destruct HR as [He _ _ _ _]. unfold enc_ok in He. lia. Qed.

(** Only a value that fits the current encoding can be a member. *)
Lemma wide_not_member : encoding st < _intsetValueEncoding v -> v ∉ xs.
Proof.
  intros Hw Hin. destruct HR as [He _ _ Hr _]. rewrite Forall_forall in Hr.
  apply Hr, value_encoding_spec in Hin; [lia|done|done].
Qed.

(** [intsetMoveTail] before an insertion opens a hole of one entry. *)
Lemma open_hole l1 l2 junk :
  xs = l1 ++ l2 -> fits (zlen xs) -> zlen junk = encoding st ->
  exists hole, zlen hole = encoding st /\
    (if zlen l1 <? zlen xs
     then intsetMoveTail (with_contents st (contents st ++ junk)) (zlen l1) (zlen l1 + 1)
     else Some (with_contents st (contents st ++ junk)))
    = Some (with_contents st (encode_all (Z.to_nat (encoding st)) l1 ++ hole ++
                              encode_all (Z.to_nat (encoding st)) l2)).
Proof.
  intros Hx Hfit Hj. pose proof HR as [He Hl Hc _ _].
  assert (zlen xs = zlen l1 + zlen l2) as Hlen by (rewrite Hx; len_lia).
  destruct (zlen l1 <? zlen xs) eqn:E.
  - destruct (moveTail_insert (with_contents st (contents st ++ junk)) l1 l2 junk)
      as (hole & Hh & ->); simpl; try done; try lia.
    { by rewrite <- Hlen. }
    { by rewrite Hc, Hx, encode_all_app, <- app_assoc. }
    by exists hole.
  - assert (l2 = []) as -> by (destruct l2; [done|len_lia]).
    exists junk. rewrite Hc, Hx, !app_nil_r. done.
Qed.

Lemma insert_at_spec l1 l2 :
  xs = l1 ++ l2 -> Forall (fun x => x < v) l1 -> Forall (fun x => v < x) l2 ->
  _intsetValueEncoding v <= encoding st -> fits (zlen xs + 1) ->
  exists st',
    (st ← intsetResize st (u32 (is_length st + 1));
     st ← (if zlen l1 <? is_length st
           then intsetMoveTail st (zlen l1) (u32 (zlen l1 + 1)) else Some st);
     st ← _intsetSet st (s32 (zlen l1)) v;
     Some (Intset (encoding st) (u32 (is_length st + 1)) (contents st), true))
    = Some (st', true) /\ Repr st' (sorted_insert v xs).
Proof.
  intros Hx H1 H2 Hve Hfit. unfold fits in Hfit. unfold_limits.
  pose proof HR as [He Hl Hc _ _]. pose proof encoding_range as Hep.
  assert (zlen xs = zlen l1 + zlen l2) as Hlen by (rewrite Hx; len_lia).
  pose proof (zlen_nonneg l1). pose proof (zlen_nonneg l2).
  rewrite Hl, (wrapu_small 32 (zlen xs + 1)) by lia.
  destruct (resize_grow st (zlen xs + 1)) as (junk & -> & Hj).
  { unfold_limits. nia. }
  { rewrite Hc, zlen_encode_all, Z2Nat.id by lia. lia. }
  rewrite Hc, zlen_encode_all, Z2Nat.id in Hj by lia.
  cbn [mbind option_bind is_length with_contents]. rewrite Hl.
  rewrite (wrapu_small 32 (zlen l1 + 1)), (wraps_small 32) by lia.
  destruct (open_hole l1 l2 junk Hx) as (hole & Hh & ->);
    [unfold fits; unfold_limits; lia|lia|]. cbn [mbind option_bind].
  rewrite (set_mid _ (encode_all (Z.to_nat (encoding st)) l1) hole
             (encode_all (Z.to_nat (encoding st)) l2)); simpl encoding; simpl contents;
    [|done|done|rewrite zlen_encode_all, Z2Nat.id by lia; lia|done].
  eexists. split; [done|]. simpl. rewrite Hl, wrapu_small by lia.
  apply (Repr_insert st xs v HR Hv _ l1 l2); simpl; try done; lia.
Qed.

(** [intsetMoveTail] in a deletion brings the tail over the deleted entry. *)
Lemma close_hole l1 l2 :
  xs = l1 ++ v :: l2 -> fits (zlen xs) ->
  exists rest,
    (if zlen l1 <? zlen xs - 1 then intsetMoveTail st (zlen l1 + 1) (zlen l1) else Some st)
    = Some (with_contents st (encode_all (Z.to_nat (encoding st)) (l1 ++ l2) ++ rest)).
Proof.
  intros Hx Hfit. pose proof HR as [He Hl Hc _ _].
  assert (zlen xs = zlen l1 + 1 + zlen l2) as Hlen by (rewrite Hx; len_lia).
  destruct (zlen l1 <? zlen xs - 1) eqn:E.
  - rewrite Hx in Hc, Hl.
    destruct (moveTail_delete st l1 v l2) as (rest & Hrest & ->); try done.
    { by rewrite <- Hx. }
    exists rest. by rewrite encode_all_app, <- app_assoc.
  - assert (l2 = []) as -> by (destruct l2; [done|len_lia]).
    exists (encode_all (Z.to_nat (encoding st)) [v]).
    rewrite app_nil_r, <- encode_all_app, <- Hx, <- Hc. by destruct st.
Qed.

Lemma Repr_delete l1 l2 :
  xs = l1 ++ v :: l2 ->
  Repr (Intset (encoding st) (zlen xs - 1) (encode_all (Z.to_nat (encoding st)) (l1 ++ l2)))
    (sorted_remove v xs).
Proof.
  intros Hx. pose proof HR as [He Hl Hc Hr Hs].
  assert (sorted_remove v xs = l1 ++ l2) as ->.
  { rewrite Hx. apply sorted_remove_split. by rewrite <- Hx. }
  rewrite Hx in Hr, Hs. constructor; simpl; try done.
  - rewrite Hx. autorewrite with zlen. lia.
  - apply Forall_app in Hr as [? Hr]. inversion_clear Hr. by apply Forall_app.
  - apply StronglySorted_app_inv in Hs as (Ha & Hb & Hab).
    inversion_clear Hb. apply StronglySorted_app_intro; [done|done|].
    eapply Forall_impl; [done|]. simpl. intros x Hf'. by inversion_clear Hf'.
Qed.

Lemma delete_at_spec l1 l2 :
  xs = l1 ++ v :: l2 -> fits (zlen xs) ->
  exists st',
    (st1 ← (if zlen l1 <? u32 (is_length st - 1)
            then intsetMoveTail st (u32 (zlen l1 + 1)) (zlen l1) else Some st);
     st1 ← intsetResize st1 (u32 (is_length st - 1));
     Some (Intset (encoding st1) (u32 (is_length st - 1)) (contents st1), true))
    = Some (st', true) /\ Repr st' (sorted_remove v xs).
Proof.
  intros Hx Hfit. pose proof Hfit as Hfit'. unfold fits in Hfit. unfold_limits.
  pose proof HR as [He Hl Hc Hr Hs]. pose proof encoding_range as Hep.
  assert (zlen xs = zlen l1 + 1 + zlen l2) as Hlen by (rewrite Hx; len_lia).
  pose proof (zlen_nonneg l1). pose proof (zlen_nonneg l2).
  rewrite Hl, (wrapu_small 32 (zlen xs - 1)), (wrapu_small 32 (zlen l1 + 1)) by lia.
  destruct (close_hole l1 l2 Hx Hfit') as (rest & ->). cbn [mbind option_bind].
  rewrite (resize_shrink _ _ (encode_all (Z.to_nat (encoding st)) (l1 ++ l2)) rest);
    simpl encoding; simpl contents.
  - eexists. split; [done|]. simpl. by apply Repr_delete.
  - done.
  - rewrite zlen_encode_all, Z2Nat.id by lia. autorewrite with zlen. lia.
  - rewrite zlen_encode_all, Z2Nat.id by lia. autorewrite with zlen. unfold_limits. nia.
Qed.
End edits.

(** ** Properties *)

Section props.
Context `{Allocator}.

(** [intsetAdd] inserts into the sorted list and reports whether the value is new. *)
Lemma intsetAdd_spec st xs v :
Repr st xs -> INT64_MIN <= v <= INT64_MAX -> fits (zlen xs + 1) ->
exists st', intsetAdd st v = Some (st', negb (bool_decide (v ∈ xs))) /\
  Repr st' (sorted_insert v xs).
Proof.
intros HR Hv Hfit. unfold intsetAdd.
destruct (_intsetValueEncoding v >? encoding st) eqn:Hw.
- destruct (upgrade_spec st xs v HR Hv) as (st' & -> & HR'); [lia|done|].
  exists st'. rewrite bool_decide_eq_false_2; [done|].
  apply (wide_not_member st xs v HR Hv). lia.
- destruct (intsetSearch_spec st xs HR v) as ([found pos] & -> & l1 & l2 & Hp & H1 & H2 & Hx);
    [unfold fits in Hfit; unfold_limits; lia|].
  simpl in Hp, Hx. cbn [mbind option_bind].
  rewrite <- (search_present xs v l1 l2 found H1 H2 Hx).
  destruct found; simpl in Hx |- *.
  + exists st. split; [done|]. rewrite Hx, sorted_insert_present, <- Hx by done. done.
  + rewrite Hp. apply insert_at_spec with (l2 := l2); try done. lia.
Qed.

Lemma intsetRemove_spec st xs v :
Repr st xs -> INT64_MIN <= v <= INT64_MAX -> fits (zlen xs) ->
exists st', intsetRemove st v = Some (st', bool_decide (v ∈ xs)) /\
  Repr st' (sorted_remove v xs).
Proof.
intros HR Hv Hfit. unfold intsetRemove.
destruct (_intsetValueEncoding v <=? encoding st) eqn:Hw; cycle 1.
{ assert (v ∉ xs) by (apply (wide_not_member st xs v HR Hv); lia).
  exists st. rewrite bool_decide_eq_false_2, sorted_remove_absent by done. done. }
destruct (intsetSearch_spec st xs HR v) as ([found pos] & -> & l1 & l2 & Hp & H1 & H2 & Hx);
  [unfold fits in Hfit; unfold_limits; lia|].
simpl in Hp, Hx. cbn [mbind option_bind].
pose proof (search_present xs v l1 l2 found H1 H2 Hx) as Hf. rewrite <- Hf.
destruct found; simpl in Hx.
- rewrite Hp. by apply delete_at_spec with (l2 := l2).
- exists st. split; [done|]. symmetry in Hf. apply bool_decide_eq_false in Hf.
  by rewrite sorted_remove_absent.
Qed.

(** intsetAdd inserts the value into the sorted array, widening the encoding when needed, and
    reports whether it was absent. *)
Theorem intsetAdd_correct st xs v :
Repr st xs -> INT64_MIN <= v <= INT64_MAX -> fits (zlen xs + 1) ->
exists st', intsetAdd st v = Some (st', negb (bool_decide (v ∈ xs))) /\
  Repr st' (sorted_insert v xs).
Proof. apply intsetAdd_spec. Qed.

(** intsetRemove removes the value if present, shifting the tail and shrinking the array, and
    reports whether it was present. *)
Theorem intsetRemove_correct st xs v :
Repr st xs -> INT64_MIN <= v <= INT64_MAX -> fits (zlen xs) ->
exists st', intsetRemove st v = Some (st', bool_decide (v ∈ xs)) /\
  Repr st' (sorted_remove v xs).
Proof. apply intsetRemove_spec. Qed.

(** intsetFind answers whether the value is a member, by binary search over the encoded array. *)
Theorem intsetFind_correct st xs v :
Repr st xs -> INT64_MIN <= v <= INT64_MAX -> zlen xs <= INT32_MAX ->
intsetFind st v = Some (bool_decide (v ∈ xs)).
Proof.
intros HR Hv Hl. unfold intsetFind.
destruct (_intsetValueEncoding v <=? encoding st) eqn:Hw.
- destruct (intsetSearch_spec st xs HR v) as ([found pos] & -> & l1 & l2 & Hp & H1 & H2 & Hx);
    [done|].
  simpl in Hx |- *. by rewrite (search_present xs v l1 l2 found H1 H2 Hx).
- rewrite bool_decide_eq_false_2; [done|]. apply (wide_not_member st xs v HR Hv). lia.
Qed.

Theorem intsetGet_correct st xs pos :
Repr st xs -> zlen xs <= INT32_MAX -> 0 <= pos ->
intsetGet st pos = Some (xs !! Z.to_nat pos).
Proof.
intros HR Hl Hp. unfold intsetGet. rewrite (repr_len _ _ HR). unfold_limits.
destruct (pos <? zlen xs) eqn:E.
- destruct (lookup_lt_is_Some_2 xs (Z.to_nat pos)) as [x Hx]; [unfold zlen in *; lia|].
  rewrite wraps_small, <- (Z2Nat.id pos) by lia.
  rewrite (get_lookup st xs HR _ _ Hx), Nat2Z.id, Hx. done.
- rewrite lookup_ge_None_2; [done|]. unfold zlen in *. lia.
Qed.

(** intsetMin and intsetMax return the least and the greatest member. *)
Theorem intsetMin_Max_correct st x xs :
Repr st (x :: xs) -> zlen (x :: xs) <= INT32_MAX ->
intsetMin st = Some x /\ intsetMax st = last (x :: xs) /\
Forall (fun y => x <= y /\ exists m, last (x :: xs) = Some m /\ y <= m) (x :: xs).
Proof.
intros HR Hl. unfold_limits. rewrite zlen_cons in Hl. pose proof (zlen_nonneg xs).
destruct (lookup_lt_is_Some_2 (x :: xs) (length xs)) as [m Hm]; [simpl; lia|].
assert (last (x :: xs) = Some m) as Hlast by (rewrite last_lookup; exact Hm).
repeat split.
- apply (get_lookup st (x :: xs) HR 0 x). done.
- unfold intsetMax. rewrite (repr_len _ _ HR), zlen_cons.
  rewrite wrapu_small, wraps_small by lia.
  rewrite Hlast, <- (get_lookup st (x :: xs) HR _ _ Hm). f_equal. unfold zlen. lia.
- apply Forall_lookup. intros i y Hy. split.
  + destruct i as [|i]; [simpl in Hy; simplify_eq; lia|].
    assert (x < y); [|lia]. eapply (sorted_lookup st _ HR 0 (S i)); [lia|done|done].
  + exists m. split; [done|]. pose proof (lookup_lt_Some _ _ _ Hy) as Hi. simpl in Hi.
    destruct (decide (i = length xs)) as [->|]; [simplify_eq; lia|].
    assert (y < m); [|lia]. eapply (sorted_lookup st _ HR i (length xs)); [lia|done|done].
Qed.

Theorem intsetRandom_member st xs r :
Repr st xs -> zlen xs <= INT32_MAX -> 0 <= r ->
(xs = [] /\ intsetRandom st r = None) \/ (exists x, intsetRandom st r = Some x /\ x ∈ xs).
Proof.
intros HR Hl Hr. unfold intsetRandom. rewrite (repr_len _ _ HR). unfold_limits.
destruct (zlen xs =? 0) eqn:E; simpl.
{ left. destruct xs; [done|]. rewrite zlen_cons in E. pose proof (zlen_nonneg xs). lia. }
right. pose proof (zlen_nonneg xs).
pose proof (Z.mod_pos_bound r (zlen xs)) as Hb.
rewrite wraps_small by lia.
destruct (lookup_lt_is_Some_2 xs (Z.to_nat (r mod zlen xs))) as [x Hx];
  [unfold zlen in *; lia|].
exists x. split; [|by eapply list_elem_of_lookup_2].
rewrite <- (get_lookup st xs HR _ _ Hx). f_equal. rewrite Z2Nat.id by lia. done.
Qed.
End props.

(** ** Histories of updates against a mathematical set *)

Inductive intset_op := OpAdd (v : Z) | OpRemove (v : Z).

Definition op_value (o : intset_op) : Z := match o with OpAdd v | OpRemove v => v end.

Definition run_op `{Allocator} (st : intset) (o : intset_op) : option intset :=
  match o with
  | OpAdd v => '(st, _) ← intsetAdd st v; Some st
  | OpRemove v => '(st, _) ← intsetRemove st v; Some st
  end.

Fixpoint run_ops `{Allocator} (st : intset) (os : list intset_op) : option intset :=
  match os with
  | [] => Some st
  | o :: os => st ← run_op st o; run_ops st os
  end.

Definition op_spec (X : gset Z) (o : intset_op) : gset Z :=
  match o with OpAdd v => {[v]} ∪ X | OpRemove v => X ∖ {[v]} end.

Lemma length_sorted_insert v xs : (length (sorted_insert v xs) <= S (length xs))%nat.
Proof. induction xs as [|x xs IH]; simpl; [lia|]. repeat case_match; simpl; lia. Qed.

Lemma Repr_new : Repr intsetNew [].
Proof. constructor; [by left|done|done|constructor|constructor]. Qed.

Lemma run_op_refines `{Allocator} st xs o :
  Repr st xs -> INT64_MIN <= op_value o <= INT64_MAX -> fits (zlen xs + 1) ->
  exists st' xs', run_op st o = Some st' /\ Repr st' xs' /\ zlen xs' <= zlen xs + 1 /\
    list_to_set (C := gset Z) xs' = op_spec (list_to_set xs) o.
Proof.
  intros HR Hv Hf. destruct o as [v|v]; simpl in Hv |- *.
  - destruct (intsetAdd_spec st xs v HR Hv Hf) as (st' & -> & HR').
    exists st', (sorted_insert v xs). split_and!; [done|done| |].
    + unfold zlen. pose proof (length_sorted_insert v xs). lia.
    + apply set_eq. intros y. rewrite elem_of_union, !elem_of_list_to_set,
        elem_of_sorted_insert, elem_of_singleton. done.
  - destruct (intsetRemove_spec st xs v HR Hv) as (st' & -> & HR').
    { unfold fits in *. lia. }
    exists st', (sorted_remove v xs). split_and!; [done|done| |].
    + unfold zlen, sorted_remove. pose proof (length_filter (.≠ v) xs). lia.
    + apply set_eq. intros y. rewrite elem_of_difference, !elem_of_list_to_set,
        elem_of_sorted_remove, elem_of_singleton. naive_solver.
Qed.

(** C34: any sequence of intsetAdd and intsetRemove from a well-formed intset gives a well-formed
    intset whose members are the mathematical set obtained by the same additions and removals,
    as long as the encoded length fits the 32-bit counters. *)
Theorem intset_history_refines_set `{Allocator} os st0 xs0 :
  Repr st0 xs0 -> Forall (fun o => INT64_MIN <= op_value o <= INT64_MAX) os ->
  fits (zlen xs0 + zlen os) ->
  exists st xs, run_ops st0 os = Some st /\ Repr st xs /\
    list_to_set (C := gset Z) xs = foldl op_spec (list_to_set xs0) os.
Proof.
  intros HR Hv. revert st0 xs0 HR. induction Hv as [|o os Ho _ IH]; intros st0 xs0 HR Hf.
  - by exists st0, xs0.
  - rewrite zlen_cons in Hf. pose proof (zlen_nonneg os).
    destruct (run_op_refines st0 xs0 o) as (st1 & xs1 & E & HR1 & Hl1 & Hs1);
      [done|done|unfold fits in *; lia|].
    destruct (IH st1 xs1 HR1) as (st & xs & E2 & HR2 & Hs2); [unfold fits in *; lia|].
    exists st, xs. cbn [run_ops]. rewrite E. simpl. by rewrite <- Hs1.
Qed.

(** ** Validation of a serialised blob *)

Lemma bytes_decode e n c :
  enc_ok e -> Forall is_byte c -> zlen c = Z.of_nat n * e ->
  exists xs, length xs = n /\ c = encode_all (Z.to_nat e) xs /\ Forall (in_enc e) xs.
Proof.
  intros He. revert c. induction n as [|n IH]; intros c Hb Hl.
  { exists []. destruct c; [done|len_lia]. }
  assert (0 < e) as Hpos by (unfold enc_ok in He; lia).
  rewrite <- (take_drop (Z.to_nat e) c) in Hb |- *.
  apply Forall_app in Hb as [Hb1 Hb2].
  destruct (IH (drop (Z.to_nat e) c) Hb2) as (xs & Hn & Hc & Hr).
  { rewrite zlen_drop by lia. lia. }
  assert (length (take (Z.to_nat e) c) = Z.to_nat e) as Hlen.
  { rewrite length_take. unfold zlen in Hl. lia. }
  exists (wraps (8 * e) (le_join (take (Z.to_nat e) c)) :: xs). split; [simpl; lia|].
  rewrite encode_all_cons, <- Hc. split.
  - f_equal. pose proof (le_split_wraps (Z.to_nat e) (le_join (take (Z.to_nat e) c))) as E.
    rewrite Z2Nat.id in E by lia. rewrite E by lia.
    pose proof (le_split_join _ Hb1) as E2. by rewrite Hlen in E2.
  - constructor; [|done]. apply wraps_range. lia.
Qed.

Lemma check_order_spec st xs prev l :
  enc_ok (encoding st) -> contents st = encode_all (Z.to_nat (encoding st)) (l ++ xs) ->
  Forall (in_enc (encoding st)) (l ++ xs) -> zlen (l ++ xs) <= 2 ^ 31 ->
  exists b, check_order st prev (zlen l) (length xs) = Some b /\
    (b = true <-> Sorted Z.lt (prev :: xs)).
Proof.
  intros He. revert l prev. induction xs as [|x xs IH]; intros l prev Hc Hr Hl; simpl.
  { exists true. split; [done|]. split; [|done]. intros _. repeat constructor. }
  pose proof (zlen_nonneg l). pose proof (zlen_nonneg xs).
  rewrite zlen_app, zlen_cons in Hl. rewrite wraps_small by lia.
  assert (_intsetGet st (zlen l) = Some x) as ->.
  { apply (get_layout st (l ++ x :: xs) (length l)); [done..|].
    by rewrite lookup_app_r, Nat.sub_diag by lia. }
  cbn [mbind option_bind]. destruct (x <=? prev) eqn:E.
  - exists false. split; [done|]. split; [done|]. intros Hs.
    inversion_clear Hs as [|?? _ Hh]. inversion_clear Hh. lia.
  - destruct (IH (l ++ [x]) x) as (b & Eb & Hb).
    + by rewrite <- app_assoc.
    + by rewrite <- app_assoc.
    + autorewrite with zlen in *. lia.
    + rewrite zlen_app in Eb. rewrite zlen_cons, zlen_nil in Eb.
      exists b. split; [by rewrite <- Eb; f_equal; lia|]. rewrite Hb. split.
      * intros Hs. constructor; [done|]. constructor. lia.
      * intros Hs. by inversion_clear Hs.
Qed.

(** The index [2^31] is negative as the [int] that [_intsetGet] takes. *)
Lemma get_negative st : _intsetGet st (s32 (2 ^ 31)) = None.
Proof.
  change (s32 (2 ^ 31)) with (- 2 ^ 31). unfold _intsetGet, _intsetGetEncoded, mem_read.
  by repeat case_match.
Qed.

Lemma check_order_overrun st xs prev l :
  enc_ok (encoding st) -> contents st = encode_all (Z.to_nat (encoding st)) (l ++ xs) ->
  Forall (in_enc (encoding st)) (l ++ xs) -> Sorted Z.lt (prev :: xs) ->
  zlen l <= 2 ^ 31 < zlen (l ++ xs) ->
  check_order st prev (zlen l) (length xs) = None.
Proof.
  intros He. revert l prev. induction xs as [|x xs IH]; intros l prev Hc Hr Hs Hl.
  { rewrite app_nil_r in Hl. lia. }
  cbn [length check_order]. destruct (decide (zlen l = 2 ^ 31)) as [->|Hne].
  { by rewrite get_negative. }
  pose proof (zlen_nonneg l). rewrite wraps_small by lia.
  assert (_intsetGet st (zlen l) = Some x) as ->.
  { apply (get_layout st (l ++ x :: xs) (length l)); [done..|].
    by rewrite lookup_app_r, Nat.sub_diag by lia. }
  inversion_clear Hs as [|?? Hs' Hh]. inversion_clear Hh as [|?? Hx].
  cbn [mbind option_bind]. replace (x <=? prev) with false by lia.
  rewrite <- (IH (l ++ [x]) x); [|by rewrite <- app_assoc..|done|].
  - f_equal. rewrite zlen_app. done.
  - autorewrite with zlen in *. lia.
Qed.

Lemma intset_of_blob_bytes p :
  Forall is_byte p -> 8 <= zlen p ->
  exists st, intset_of_blob p = Some st /\ Forall is_byte (contents st) /\
    zlen (contents st) = zlen p - 8 /\ intset_to_blob st = p.
Proof.
  intros Hb Hl. destruct (mem_split p 0 4) as (a & b & c & -> & Ha & Hb4); [lia..|].
  destruct a; [|len_lia]. simpl in *.
  destruct (mem_split c 0 4) as (a & d & e & -> & Ha' & Hd4); [lia|lia|len_lia|].
  destruct a; [|len_lia]. simpl in *.
  unfold intset_of_blob.
  assert (mem_read (b ++ d ++ e) 0 4 = Some b) as -> by (by apply (mem_read_mid [] b)).
  rewrite (mem_read_mid b d e 4 4) by done. cbn [mbind option_bind].
  eexists. split; [done|]. simpl contents.
  assert (drop 8 (b ++ d ++ e) = e) as ->.
  { rewrite app_assoc. apply drop_app_length'. rewrite length_app. unfold zlen in *. lia. }
  apply Forall_app in Hb as [Hb1 Hb]. apply Forall_app in Hb as [Hb2 Hb3].
  repeat split; [done|len_lia|]. unfold intset_to_blob; cbn [encoding is_length contents].
  assert (length b = 4 /\ length d = 4)%nat as [E1 E2] by (unfold zlen in *; lia).
  rewrite <- E1 at 1. rewrite <- E2 at 1. by rewrite !le_split_join.
Qed.

Lemma intset_blob_roundtrip st :
  0 <= encoding st <= UINT32_MAX -> 0 <= is_length st <= UINT32_MAX ->
  intset_of_blob (intset_to_blob st) = Some st.
Proof.
  intros He Hl. unfold_limits. unfold intset_of_blob, intset_to_blob.
  set (a := le_split 4 (encoding st)). set (b := le_split 4 (is_length st)).
  assert (zlen a = 4 /\ zlen b = 4) as [Ha Hb] by (unfold a, b; by rewrite !zlen_le_split).
  assert (mem_read (a ++ b ++ contents st) 0 4 = Some a) as -> by (by apply (mem_read_mid [] a)).
  rewrite (mem_read_mid a b) by done. cbn [mbind option_bind].
  rewrite app_assoc, drop_app_length' by (rewrite length_app; unfold zlen in *; lia).
  unfold a, b. rewrite !le_join_split, !Z.mod_small by lia. by destruct st.
Qed.

Lemma Repr_blob_roundtrip st xs :
  Repr st xs -> zlen xs <= UINT32_MAX -> intset_of_blob (intset_to_blob st) = Some st.
Proof.
  intros [He Hl Hc _ _] Hz. pose proof (zlen_nonneg xs). unfold_limits.
  apply intset_blob_roundtrip; unfold_limits; unfold enc_ok in He; lia.
Qed.

Lemma Sorted_lt_StronglySorted xs : Sorted Z.lt xs <-> StronglySorted Z.lt xs.
Proof.
  split; [|apply StronglySorted_Sorted]. apply Sorted_StronglySorted. intros x y z. lia.
Qed.

(** The checks after the header, on the struct laid over the blob. *)
Lemma validate_body st :
  enc_ok (encoding st) -> Forall is_byte (contents st) ->
  zlen (contents st) = is_length st * encoding st -> 0 < is_length st <= 2 ^ 31 ->
  exists b, (prev ← _intsetGet st 0; check_order st prev 1 (Z.to_nat (is_length st - 1))) = Some b /\
    (b = true <-> exists xs, Repr st xs).
Proof.
  intros He Hb Hl Hn.
  destruct (bytes_decode (encoding st) (Z.to_nat (is_length st)) (contents st))
    as (xs & Hxl & Hc & Hr); [done|done|by rewrite Z2Nat.id by lia|].
  destruct xs as [|x xs]; [simpl in Hxl; lia|].
  assert (_intsetGet st 0 = Some x) as -> by (by apply (get_layout st (x :: xs) 0)).
  cbn [mbind option_bind].
  destruct (check_order_spec st xs x [x]) as (b & E & Hbs); [done..| |].
  { unfold zlen. simpl in *. lia. }
  exists b. split; [rewrite <- E; f_equal; simpl in Hxl; lia|].
  rewrite Hbs, Sorted_lt_StronglySorted. split.
  - intros Hs. exists (x :: xs). constructor; try done. unfold zlen. lia.
  - intros (ys & HR). assert (x :: xs = ys) as ->; [|by apply HR].
    apply list_eq. intros i.
    assert (length ys = length (x :: xs)) as Hly.
    { pose proof (repr_len _ _ HR). unfold zlen in *. lia. }
    destruct (ys !! i) as [y|] eqn:Ey.
    + destruct (lookup_lt_is_Some_2 (x :: xs) i) as [z Hz].
      { rewrite <- Hly. by eapply lookup_lt_Some. }
      pose proof (get_lookup st ys HR i y Ey). pose proof (get_layout st _ i z He Hc Hr Hz).
      congruence.
    + apply lookup_ge_None in Ey. apply lookup_ge_None. lia.
Qed.

(** The number of records in the header of a blob. *)
Definition blob_count (p : list Z) : Z := le_join (take 4 (drop 4 p)).

Lemma blob_count_length p st : intset_of_blob p = Some st -> is_length st = blob_count p.
Proof.
  unfold intset_of_blob. intros H. apply bind_Some in H as (e & _ & H).
  apply bind_Some in H as (n & Hn & [= <-]). unfold mem_read in Hn.
  case_match; [|done]. by injection Hn as <-.
Qed.

(** A blob whose header announces at most [2^31] records. *)
Lemma validate_counted p :
  Forall is_byte p -> blob_count p <= 2 ^ 31 ->
  exists b, intsetValidateIntegrity p (zlen p) true = Some b /\
    (b = true <-> exists st xs, p = intset_to_blob st /\ Repr st xs /\ 0 < zlen xs <= 2 ^ 31).
Proof.
  intros Hb Hl. unfold intsetValidateIntegrity, sizeof_intset.
  destruct (zlen p <? 8) eqn:E8.
  { exists false. split; [done|]. split; [done|]. intros (st & xs & -> & _).
    unfold intset_to_blob in E8. rewrite !zlen_app, !zlen_le_split in E8.
    pose proof (zlen_nonneg (contents st)). apply Z.ltb_lt in E8. lia. }
  destruct (intset_of_blob_bytes p) as (st & Est & Hc & Hcl & Hp); [done|lia|].
  pose proof (blob_count_length _ _ Est) as Hcount.
  rewrite Est. cbn [mbind option_bind].
  set (Q := exists st0 xs, p = intset_to_blob st0 /\ Repr st0 xs /\ 0 < zlen xs <= 2 ^ 31).
  assert (Q <-> exists xs, Repr st xs /\ 0 < is_length st) as HQ.
  { split.
    - intros (st0 & xs & Hp0 & HR & Hne). exists xs.
      pose proof (Repr_blob_roundtrip st0 xs HR) as E0.
      rewrite <- Hp0, Est in E0. specialize (E0 ltac:(unfold_limits; lia)). simplify_eq.
      split; [done|]. rewrite (repr_len _ _ HR). lia.
    - intros (xs & HR & Hpos). exists st, xs. rewrite (repr_len _ _ HR) in *. split_and!; [done|done|lia|lia]. }
  assert (forall xs, Repr st xs -> enc_ok (encoding st) /\ 8 + is_length st * encoding st = zlen p) as Hnec.
  { intros xs [He Hln Hco _ _]. split; [done|].
    rewrite Hco, zlen_encode_all, Z2Nat.id in Hcl by (unfold enc_ok in He; lia). lia. }
  unfold INTSET_ENC_INT64, INTSET_ENC_INT32, INTSET_ENC_INT16.
  destruct (negb (_ || _)) eqn:E1.
  { exists false. split; [done|]. rewrite HQ. split; [done|].
    intros (xs & HR & _). exfalso. apply Hnec in HR as (He & _). unfold enc_ok in He. lia. }
  destruct (negb (_ =? _)) eqn:E2.
  { exists false. split; [done|]. rewrite HQ. split; [done|].
    intros (xs & HR & _). exfalso. apply Hnec in HR as (_ & HR). lia. }
  destruct (is_length st =? 0) eqn:E3.
  { exists false. split; [done|]. rewrite HQ. split; [done|]. intros (xs & _ & ?). lia. }
  simpl negb. cbn iota. setoid_rewrite HQ.
  assert (enc_ok (encoding st)) as He by (unfold enc_ok; lia).
  assert (0 < is_length st) as Hpos.
  { unfold enc_ok in He. pose proof (zlen_nonneg (contents st)). lia. }
  destruct (validate_body st He Hc ltac:(lia) ltac:(lia)) as (b & E & Hiff).
  exists b. split; [done|]. rewrite Hiff. naive_solver.
Qed.

(** A well-formed blob of more than [2^31] records. *)
Lemma validate_overrun st xs :
  Repr st xs -> 2 ^ 31 < zlen xs <= UINT32_MAX ->
  intsetValidateIntegrity (intset_to_blob st) (zlen (intset_to_blob st)) true = None.
Proof.
  intros HR Hl. unfold intsetValidateIntegrity, sizeof_intset.
  rewrite (Repr_blob_roundtrip st xs) by (done || lia). cbn [mbind option_bind].
  pose proof HR as [He Hn Hc Hr Hs].
  assert (zlen (intset_to_blob st) = 8 + is_length st * encoding st) as ->.
  { unfold intset_to_blob. rewrite !zlen_app, !zlen_le_split, Hc, zlen_encode_all.
    rewrite Z2Nat.id by (unfold enc_ok in He; lia). lia. }
  unfold INTSET_ENC_INT64, INTSET_ENC_INT32, INTSET_ENC_INT16. rewrite Hn.
  replace (_ <? 8) with false by (unfold enc_ok in He; lia).
  replace (negb (_ || _)) with false by (unfold enc_ok in He; lia).
  rewrite Z.eqb_refl. replace (zlen xs =? 0) with false by lia. cbn [negb].
  destruct xs as [|x xs]; [change (zlen []) with 0 in Hl; lia|].
  assert (_intsetGet st 0 = Some x) as -> by (by apply (get_layout st (x :: xs) 0)).
  cbn [mbind option_bind]. rewrite zlen_cons in *.
  replace (Z.to_nat (1 + zlen xs - 1)) with (length xs) by (unfold zlen; lia).
  apply (check_order_overrun st xs x [x]); [done|done|done| |].
  - by apply StronglySorted_Sorted.
  - rewrite zlen_app, zlen_cons, zlen_nil. lia.
Qed.

(** C36: the deep validation of an untrusted blob whose header announces at most 2^31 records never
    reads outside the blob and accepts exactly the memory images of non-empty well-formed
    intsets; a well-formed intset of more than 2^31 records makes it read the record at index
    -2^31, outside the blob, because the uint32_t counter is passed as an int. *)
Theorem intsetValidateIntegrity_correct p :
  Forall is_byte p ->
  (blob_count p <= 2 ^ 31 ->
   exists b, intsetValidateIntegrity p (zlen p) true = Some b /\
     (b = true <-> exists st xs, p = intset_to_blob st /\ Repr st xs /\ 0 < zlen xs <= 2 ^ 31)) /\
  (forall st xs, p = intset_to_blob st -> Repr st xs -> 2 ^ 31 < zlen xs <= UINT32_MAX ->
   s32 (2 ^ 31) = - 2 ^ 31 /\ _intsetGet st (s32 (2 ^ 31)) = None /\
   intsetValidateIntegrity p (zlen p) true = None).
Proof.
  intros Hb. split; [by apply validate_counted|].
  intros st xs -> HR Hl. split; [done|]. split; [apply get_negative|].
  by apply (validate_overrun st xs).
Qed.

(** ** The byte count of [intsetMoveTail] is 32 bits wide *)

Lemma moveTail_wraps_to_zero st to :
  encoding st = 8 -> is_length st = 2 ^ 29 -> 0 <= to -> to * 8 <= zlen (contents st) ->
  intsetMoveTail st 0 to = Some st.
Proof.
  intros He Hl Ht Hc. unfold intsetMoveTail. rewrite He, Hl. enc_cases.
  change (u32 (u32 (2 ^ 29 - 0) * 8)) with 0.
  pose proof (zlen_nonneg (contents st)).
  unfold memmove, mem_read, mem_write.
  replace (_ && _ && _) with true by lia. cbn [mbind option_bind].
  change (take (Z.to_nat 0) _) with (@nil Z). change (zlen []) with 0.
  rewrite (Z.add_0_r (to * 8)).
  replace ((0 <=? to * 8) && _) with true by lia. cbn [mbind option_bind].
  rewrite app_nil_l, take_drop. by destruct st.
Qed.

Lemma search_below_minimum st x xs v :
  Repr st (x :: xs) -> zlen (x :: xs) <= INT32_MAX -> v < x ->
  intsetSearch st v = Some (false, 0).
Proof.
  intros HR Hl Hv.
  destruct (intsetSearch_spec st (x :: xs) HR v Hl) as ([found pos] & -> & l1 & l2 & Hp & H1 & H2 & Hx).
  simpl in Hp, Hx.
  assert (Forall (fun y => v < y) (x :: xs)) as Hall.
  { pose proof (repr_sorted _ _ HR) as Hs. inversion_clear Hs as [|?? _ Hf]. constructor; [lia|].
    eapply Forall_impl; [done|]. simpl. lia. }
  destruct l1 as [|y l1]; cycle 1.
  { rewrite Hx in Hall. inversion_clear H1. inversion_clear Hall. lia. }
  rewrite Hp, zlen_nil. destruct found; [|done].
  rewrite Hx in Hall. inversion_clear Hall. lia.
Qed.

(** C37: at 2^29 members of 64 bits the byte count of intsetMoveTail wraps to zero: adding a new
    least value overwrites the old least member instead of shifting the array. *)
Theorem intsetAdd_overflow_loses_member `{Allocator} st x xs v :
  Repr st (x :: xs) -> encoding st = 8 -> zlen (x :: xs) = 2 ^ 29 ->
  INT64_MIN <= v < x ->
  exists st' junk, intsetAdd st v = Some (st', true) /\
    contents st' = encode_all 8 (v :: xs) ++ junk.
Proof.
  intros HR He Hlen Hv. pose proof HR as [_ Hl Hc Hr Hs].
  assert (INT64_MIN <= v <= INT64_MAX) as Hv'.
  { inversion_clear Hr as [|?? Hx _]. unfold in_enc in Hx. rewrite He in Hx.
    simpl in Hx. unfold_limits. lia. }
  unfold intsetAdd.
  assert (_intsetValueEncoding v <= encoding st) as Hve.
  { rewrite He. pose proof (value_encoding_ok v) as Ho. unfold enc_ok in Ho. lia. }
  replace (_ >? _) with false by lia.
  rewrite (search_below_minimum st x xs v HR) by (rewrite ?Hlen; unfold_limits; lia).
  cbn [mbind option_bind]. rewrite Hl, Hlen.
  destruct (resize_grow st (2 ^ 29 + 1)) as (junk & E & Hj).
  { rewrite He. unfold_limits. lia. }
  { rewrite Hc, zlen_encode_all, Hlen, He, Z2Nat.id by lia. lia. }
  change (u32 (2 ^ 29 + 1)) with (2 ^ 29 + 1). rewrite E. cbn [mbind option_bind].
  change (is_length (with_contents _ _)) with (is_length st). rewrite Hl, Hlen.
  rewrite Hc, zlen_encode_all, Hlen, He in Hj.
  change (u32 (0 + 1)) with 1. change (s32 0) with 0.
  rewrite moveTail_wraps_to_zero; simpl encoding; simpl contents; try done; try lia.
  2: { simpl. by rewrite Hl. }
  2: { rewrite zlen_app, Hc, zlen_encode_all, Hlen, He, Z2Nat.id by lia.
    pose proof (zlen_nonneg junk). lia. }
  change (0 <? 2 ^ 29) with true. cbn [mbind option_bind].
  rewrite Hc, He in *. change (Z.to_nat 8) with 8%nat in *.
  rewrite encode_all_cons, <- app_assoc.
  rewrite (set_mid _ [] (le_split 8 x) (encode_all 8 xs ++ junk));
    [|simpl; rewrite He; by right; right|done|done|simpl; by rewrite He].
  cbn [mbind option_bind]. eexists _, junk. split; [done|].
  simpl contents. simpl encoding. rewrite He. by rewrite encode_all_cons, <- app_assoc.
Qed.

(** ** The properties at concrete inputs *)

Definition example_set : intset := Intset 2 3 [1; 0; 5; 0; 9; 0].

Lemma example_set_repr : Repr example_set [1; 5; 9].
Proof.
  constructor; [by left|done|done| |].
  - repeat constructor; unfold in_enc; simpl; lia.
  - repeat constructor; lia.
Qed.

Lemma intsetAdd_correct_witness :
  exists st', intsetAdd example_set 70000 = Some (st', true) /\ Repr st' [1; 5; 9; 70000].
Proof.
  apply (intsetAdd_correct example_set [1; 5; 9] 70000);
    [apply example_set_repr|closed_arith|closed_arith].
Defined.

Lemma intsetRemove_correct_witness :
  exists st', intsetRemove example_set 5 = Some (st', true) /\ Repr st' [1; 9].
Proof.
  apply (intsetRemove_correct example_set [1; 5; 9] 5);
    [apply example_set_repr|closed_arith|closed_arith].
Defined.

Lemma intsetFind_correct_witness :
  intsetFind example_set 9 = Some true.
Proof.
  rewrite (intsetFind_correct example_set [1; 5; 9] 9);
    [reflexivity|apply example_set_repr|closed_arith|closed_arith].
Defined.

Lemma intsetMin_Max_correct_witness :
  intsetMin example_set = Some 1 /\ intsetMax example_set = Some 9.
Proof.
  destruct (intsetMin_Max_correct example_set 1 [5; 9] example_set_repr) as (H1 & H2 & _);
    [closed_arith|]. split; [exact H1|exact H2].
Defined.

Lemma intsetGet_correct_witness : intsetGet example_set 1 = Some (Some 5).
Proof.
  rewrite (intsetGet_correct example_set [1; 5; 9] 1);
    [reflexivity|apply example_set_repr|closed_arith|closed_arith].
Defined.

Lemma intset_history_witness :
  exists st xs, run_ops example_set [OpAdd 7; OpRemove 1; OpAdd (-70000)] = Some st /\ Repr st xs /\
    list_to_set (C := gset Z) xs
    = foldl op_spec (list_to_set [1; 5; 9]) [OpAdd 7; OpRemove 1; OpAdd (-70000)].
Proof.
  apply (intset_history_refines_set _ example_set [1; 5; 9]);
    [apply example_set_repr|repeat constructor; closed_arith|closed_arith].
Defined.

Lemma seqZ_sorted m n : StronglySorted Z.lt (seqZ m n).
Proof.
  destruct (decide (n <= 0)) as [Hn|Hn]; [rewrite seqZ_nil by lia; constructor|].
  revert m. pattern n. apply natlike_ind; [|clear n Hn|lia].
  - intros m. constructor.
  - intros n Hn IH m. rewrite seqZ_cons by lia. rewrite Z.pred_succ.
    constructor; [apply IH|]. apply Forall_forall. intros y Hy.
    apply elem_of_seqZ in Hy. lia.
Qed.

Definition huge_set : intset := Intset 8 (2 ^ 29) (encode_all 8 (seqZ 0 (2 ^ 29))).

Lemma huge_set_repr : Repr huge_set (0 :: seqZ 1 (2 ^ 29 - 1)).
Proof.
  assert (0 :: seqZ 1 (2 ^ 29 - 1) = seqZ 0 (2 ^ 29)) as ->.
  { symmetry. rewrite seqZ_cons by lia. f_equal. }
  constructor.
  - right. by right.
  - unfold zlen. rewrite length_seqZ, Z2Nat.id by lia. done.
  - done.
  - apply Forall_forall. intros y Hy. apply elem_of_seqZ in Hy.
    unfold in_enc. cbn [encoding huge_set]. change (2 ^ (8 * 8 - 1)) with (2 ^ 63). lia.
  - apply seqZ_sorted.
Qed.

Lemma intsetAdd_overflow_witness :
  exists st' junk, intsetAdd huge_set (-1) = Some (st', true) /\
    contents st' = encode_all 8 (-1 :: seqZ 1 (2 ^ 29 - 1)) ++ junk.
Proof.
  apply (intsetAdd_overflow_loses_member huge_set 0 (seqZ 1 (2 ^ 29 - 1)) (-1)).
  - apply huge_set_repr.
  - done.
  - rewrite zlen_cons. unfold zlen. rewrite length_seqZ, Z2Nat.id by lia. lia.
  - unfold_limits. lia.
Defined.

(** The increasing run of [2^31 + 1] integers of 32 bits. *)
Definition long_set : intset :=
  Intset 4 (2 ^ 31 + 1) (encode_all 4 (seqZ (- 2 ^ 31) (2 ^ 31 + 1))).

Lemma long_set_repr : Repr long_set (seqZ (- 2 ^ 31) (2 ^ 31 + 1)).
Proof.
  constructor.
  - right. by left.
  - unfold zlen. rewrite length_seqZ, Z2Nat.id by lia. done.
  - done.
  - apply Forall_forall. intros y Hy. apply elem_of_seqZ in Hy.
    unfold in_enc. cbn [encoding long_set]. change (2 ^ (8 * 4 - 1)) with (2 ^ 31). lia.
  - apply seqZ_sorted.
Qed.

Lemma encode_all_bytes n xs : Forall is_byte (encode_all n xs).
Proof.
  induction xs as [|x xs IH]; [constructor|]. rewrite encode_all_cons.
  apply Forall_app. split; [apply le_split_bytes|done].
Qed.

Lemma intset_to_blob_bytes st : Forall is_byte (contents st) -> Forall is_byte (intset_to_blob st).
Proof. intros H. repeat (apply Forall_app; split); [apply le_split_bytes..|done]. Qed.

Lemma intsetValidateIntegrity_witness :
  (exists b, intsetValidateIntegrity (intset_to_blob example_set) 14 true = Some b /\ b = true) /\
  intsetValidateIntegrity (intset_to_blob long_set) (zlen (intset_to_blob long_set)) true = None.
Proof.
  split.
  - destruct (intsetValidateIntegrity_correct (intset_to_blob example_set)) as [(b & E & Hb) _].
    + apply intset_to_blob_bytes. repeat constructor; unfold is_byte; lia.
    + vm_compute. discriminate.
    + exists b. split; [exact E|]. apply Hb. exists example_set, [1; 5; 9].
      split; [done|]. split; [apply example_set_repr|by vm_compute].
  - apply (intsetValidateIntegrity_correct (intset_to_blob long_set)) with
      (st := long_set) (xs := seqZ (- 2 ^ 31) (2 ^ 31 + 1)).
    + apply intset_to_blob_bytes, encode_all_bytes.
    + reflexivity.
    + apply long_set_repr.
    + unfold zlen. rewrite length_seqZ, Z2Nat.id by lia. unfold_limits. lia.
Defined.
