(* ===== verification/Numstr.v ===== *)
(** * Numbers as strings: the conversions of [util.c] and of [listpack.c]

    A C string is the list of its byte values; a destination buffer is a byte
    memory of which the function gets the offset [dst] and the room [dstlen]. *)
From S2P Require Import Prelude.
From stdpp Require Import strings.
Local Open Scope Z_scope.

Definition ULLONG_MAX := UINT64_MAX.
Definition LLONG_MAX := INT64_MAX.
Definition LLONG_MIN := INT64_MIN.
Definition LONG_STR_SIZE := 21.

(** Byte values of a Rocq string literal. *)
Fixpoint bytes_of (s : string) : list Z :=
  match s with
  | EmptyString => []
  | String a s => Z.of_N (Ascii.N_of_ascii a) :: bytes_of s
  end.

Definition is_digit (c : Z) : bool := (48 <=? c) && (c <=? 57).

(** ** Counting digits *)

(** One call per twelve digits: a [uint64_t] needs two. *)
Fixpoint digits10_rec (fuel : nat) (v : Z) : option Z :=
  match fuel with
  | O => None
  | S fuel =>
    if v <? 10 then Some 1
    else if v <? 100 then Some 2
    else if v <? 1000 then Some 3
    else if v <? 1000000000000 then
      if v <? 100000000 then
        if v <? 1000000 then
          if v <? 10000 then Some 4 else Some (5 + Z.b2z (v >=? 100000))
        else Some (7 + Z.b2z (v >=? 10000000))
      else if v <? 10000000000 then Some (9 + Z.b2z (v >=? 1000000000))
      else Some (11 + Z.b2z (v >=? 100000000000))
    else d ← digits10_rec fuel (v / 1000000000000); Some (u32 (12 + d))
  end.

Definition digits10 (v : Z) : option Z := digits10_rec 2 v.

Definition sdigits10 (v : Z) : option Z :=
  if v <? 0 then
    let uv := if negb (v =? LLONG_MIN) then u64 (- v) else LLONG_MAX + 1 in
    d ← digits10 uv; Some (u32 (d + 1))
  else digits10 v.

(** ** Printing *)

Definition digits_table : list Z := Eval vm_compute in
  bytes_of "00010203040506070809101112131415161718192021222324252627282930313233343536373839404142434445464748495051525354555657585960616263646566676869707172737475767778798081828384858687888990919293949596979899"%string.

(** [while (value >= 100) ...]: two digits per turn; the state is the buffer, [next]
    and [value]. *)
Definition ull2string_body (dst : Z) (s : list Z * Z * Z)
    : option ((list Z * Z * Z) + (list Z * Z * Z)) :=
  let '(buf, next, value) := s in
  if value >=? 100 then
    let i := value mod 100 * 2 in
    let value := value / 100 in
    d1 ← getb digits_table (i + 1); buf ← setb buf (dst + next) d1;
    d0 ← getb digits_table i; buf ← setb buf (dst + u32 (next - 1)) d0;
    Some (inl (buf, u32 (next - 2), value))
  else Some (inr (buf, next, value)).

Definition ull2string (buf : list Z) (dst dstlen value : Z) : option (list Z * Z) :=
  len ← digits10 value;
  if len >=? dstlen then
    if dstlen >? 0 then buf ← setb buf dst 0; Some (buf, 0) else Some (buf, 0)
  else
    let next := u32 (len - 1) in
    buf ← setb buf (dst + u32 (next + 1)) 0;
    '(buf, next, value) ← loop 11 (ull2string_body dst) (buf, next, value);
    if value <? 10 then
      buf ← setb buf (dst + next) (48 + value); Some (buf, len)
    else
      let i := value * 2 in
      d1 ← getb digits_table (i + 1); buf ← setb buf (dst + next) d1;
      d0 ← getb digits_table i; buf ← setb buf (dst + u32 (next - 1)) d0;
      Some (buf, len).

Definition ll2string (buf : list Z) (dst dstlen svalue : Z) : option (list Z * Z) :=
  if svalue <? 0 then
    let value := if negb (svalue =? LLONG_MIN) then u64 (- svalue) else u64 (LLONG_MAX + 1) in
    if dstlen <? 2 then
      if dstlen >? 0 then buf ← setb buf dst 0; Some (buf, 0) else Some (buf, 0)
    else
      buf ← setb buf dst 45;
      '(buf, len) ← ull2string buf (dst + 1) (dstlen - 1) value;
      if len =? 0 then Some (buf, 0) else Some (buf, len + 1)
  else
    '(buf, len) ← ull2string buf dst dstlen svalue;
    if len =? 0 then Some (buf, 0) else Some (buf, len + 0).

(** ** Parsing *)

(** The digit loop; it stops at the first byte that is no digit, and answers [None]
    where the C code returns 0 for an overflow. *)
Definition parse_digits_body (s : list Z) (slen : Z) (st : Z * Z)
    : option ((Z * Z) + option (Z * Z)) :=
  let '(plen, v) := st in
  if plen <? slen then
    c ← getb s plen;
    if (48 <=? c) && (c <=? 57) then
      if v >? ULLONG_MAX / 10 then Some (inr None)
      else
        let v := u64 (v * 10) in
        if v >? ULLONG_MAX - (c - 48) then Some (inr None)
        else Some (inl (plen + 1, u64 (v + (c - 48))))
    else Some (inr (Some (plen, v)))
  else Some (inr (Some (plen, v))).

(** The result is [Some (Some v)] for "returned 1 with [*value = v]", [Some None] for
    "returned 0", [None] for an access outside [s]. *)
Definition string2ll (s : list Z) (slen : Z) : option (option Z) :=
  if (0 =? slen) || (slen >=? LONG_STR_SIZE) then Some None
  else
    c0 ← getb s 0;
    if (slen =? 1) && (c0 =? 48) then Some (Some 0)
    else
      let negative := c0 =? 45 in
      let plen := if negative then 1 else 0 in
      if negative && (plen =? slen) then Some None
      else
        c ← getb s plen;
        if (49 <=? c) && (c <=? 57) then
          r ← loop (S (Z.to_nat slen)) (parse_digits_body s slen) (plen + 1, c - 48);
          match r with
          | None => Some None
          | Some (plen, v) =>
              if plen <? slen then Some None
              else if negative then
                if v >? u64 (- (LLONG_MIN + 1)) + 1 then Some None
                else Some (Some (s64 (u64 (- v))))
              else if v >? LLONG_MAX then Some None
              else Some (Some (s64 v))
          end
        else Some None.

(** [long] is 64 bits wide, so [LONG_MIN..LONG_MAX] is [LLONG_MIN..LLONG_MAX]. *)
Definition string2l (s : list Z) (slen : Z) : option (option Z) :=
  r ← string2ll s slen;
  match r with
  | None => Some None
  | Some llval =>
      if (llval <? INT64_MIN) || (llval >? INT64_MAX) then Some None else Some (Some llval)
  end.

(** [listpack.c] has its own copy. *)
Definition lpStringToInt64 (s : list Z) (slen : Z) : option (option Z) :=
  if (slen =? 0) || (slen >=? LONG_STR_SIZE) then Some None
  else
    c0 ← getb s 0;
    if (slen =? 1) && (c0 =? 48) then Some (Some 0)
    else
      let negative := c0 =? 45 in
      let plen := if negative then 1 else 0 in
      if negative && (plen =? slen) then Some None
      else
        c ← getb s plen;
        if (49 <=? c) && (c <=? 57) then
          r ← loop (S (Z.to_nat slen)) (parse_digits_body s slen) (plen + 1, c - 48);
          match r with
          | None => Some None
          | Some (plen, v) =>
              if plen <? slen then Some None
              else if negative then
                if v >? u64 (- (INT64_MIN + 1)) + 1 then Some None
                else Some (Some (s64 (u64 (- v))))
              else if v >? INT64_MAX then Some None
              else Some (Some (s64 v))
          end
        else Some None.

(** [ascii_to_dec[base_16_char_type(c)]], or [None] for no hex digit. *)
Definition base_16_char_type (c : Z) : Z :=
  if (48 <=? c) && (c <=? 57) then 0
  else if (97 <=? c) && (c <=? 102) then 1
  else if (65 <=? c) && (c <=? 70) then 2
  else -1.

Definition ascii_to_dec : list Z := [48; 97 - 10; 65 - 10].

(** Note the order of the two conditions of the [while]: the character is read first. *)
Definition string2ul_base16_body (src : list Z) (slen : Z) (st : Z * Z)
    : option ((Z * Z) + option Z) :=
  let '(idx, result) := st in
  c ← getb src idx;
  let char_type := base_16_char_type c in
  if negb (char_type =? -1) && (idx <? slen) then
    off ← getb ascii_to_dec char_type;
    let curr_val := c - off in
    if (result >? ULLONG_MAX / 16) || (result >? (ULLONG_MAX - curr_val) / 16)
    then Some (inr None)
    else Some (inl (idx + 1, u64 (result * 16 + curr_val)))
  else Some (inr (Some result)).

(** [Some (Some r)]: returned 1; [Some None]: returned -1 (overflow). *)
Definition string2ul_base16 (src : list Z) (slen : Z) : option (option Z) :=
  loop (S (Z.to_nat slen)) (string2ul_base16_body src slen) (0, 0).

Fixpoint mempbrk (s : list Z) (chars : list Z) : option nat :=
  match s with
  | [] => None
  | c :: s => if existsb (Z.eqb c) chars then Some 0%nat else S <$> mempbrk s chars
  end.

(** [from] and [to] are the two character sets, as the list of pairs [(from[i], to[i])]. *)
Fixpoint map_char (c : Z) (table : list (Z * Z)) : Z :=
  match table with
  | [] => c
  | (f, t) :: table => if c =? f then t else map_char c table
  end.

Definition memmapchars (s : list Z) (table : list (Z * Z)) : list Z :=
  (fun c => map_char c table) <$> s.

