(* ===== verification/NumstrFacts.v ===== *)
(** * Correctness of the number conversions

    [IsDec s v]: [s] is the canonical decimal numeral of the integer [v] (no leading
    zero, no sign but a minus).  Printing produces it, parsing accepts exactly it. *)
From S2P Require Import Prelude Numstr.

(** ** Reference numerals *)

(** The last [n] decimal digits of [v], most significant first. *)
Fixpoint dec_fixed (n : nat) (v : Z) : list Z :=
  match n with
  | O => []
  | S n => dec_fixed n (v / 10) ++ [48 + v mod 10]
  end.

(** [d] is the number of decimal digits of [v]. *)
Definition canon (d v : Z) : Prop := (v = 0 /\ d = 1) \/ (1 <= d /\ 10 ^ (d - 1) <= v < 10 ^ d).

Definition IsDecU (s : list Z) (v : Z) : Prop :=
  canon (zlen s) v /\ s = dec_fixed (length s) v.

Definition IsDec (s : list Z) (v : Z) : Prop :=
  if v <? 0 then exists s', s = 45 :: s' /\ IsDecU s' (- v) else IsDecU s v.

Lemma length_dec_fixed n v : length (dec_fixed n v) = n.
Proof. revert v. induction n; simpl; intros; [done|]. rewrite length_app, IHn. simpl. lia. Qed.

Lemma zlen_dec_fixed n v : zlen (dec_fixed n v) = Z.of_nat n.
Proof. unfold zlen. by rewrite length_dec_fixed. Qed.
#[export] Hint Rewrite zlen_dec_fixed : zlen.

Lemma dec_fixed_app a b v :
  dec_fixed (a + b) v = dec_fixed a (v / 10 ^ Z.of_nat b) ++ dec_fixed b v.
Proof.
  revert v. induction b as [|b IH]; intros v.
  - rewrite Nat.add_0_r, Z.div_1_r. simpl. by rewrite app_nil_r.
  - rewrite <- plus_n_Sm. simpl dec_fixed. rewrite IH.
    rewrite Nat2Z.inj_succ, Z.pow_succ_r by lia.
    rewrite Z.div_div by (try apply Z.pow_pos_nonneg; lia). by rewrite <- app_assoc.
Qed.

Lemma dec_fixed_digits n v : Forall (fun c => 48 <= c <= 57) (dec_fixed n v).
Proof.
  revert v. induction n; intros v; simpl; [done|]. apply Forall_app. split; [done|].
  repeat constructor; pose proof (Z.mod_pos_bound v 10); lia.
Qed.

(** ** Digit counts *)

Lemma pow10_pos n : 0 <= n -> 0 < 10 ^ n.
Proof. intros. apply Z.pow_pos_nonneg; lia. Qed.

Lemma canon_nonneg d v : canon d v -> 0 <= v /\ 1 <= d.
Proof. intros [[-> ->]|[H1 H2]]; [lia|]. pose proof (pow10_pos (d - 1)). lia. Qed.

Lemma canon_unique d d' v : canon d v -> canon d' v -> d = d'.
Proof.
  assert (forall a b, 1 <= a -> 1 <= b -> 10 ^ (a - 1) <= v -> v < 10 ^ b -> a <= b) as Hle.
  { intros a b Ha Hb H1 H2. destruct (Z.le_gt_cases a b) as [|Hgt]; [done|].
    pose proof (Z.pow_le_mono_r 10 b (a - 1)). lia. }
  intros [[-> ->]|[H1 H2]] [[H3 ->]|[H4 H5]]; [done| | |].
  - pose proof (pow10_pos (d' - 1)). lia.
  - subst v. pose proof (pow10_pos (d - 1)). lia.
  - apply Z.le_antisymm; apply Hle; lia.
Qed.

Lemma IsDecU_unique s t v : IsDecU s v -> IsDecU t v -> s = t.
Proof.
  intros [H1 E1] [H2 E2]. pose proof (canon_unique _ _ _ H1 H2) as E. unfold zlen in E.
  rewrite E1, E2. f_equal. lia.
Qed.

(** A number has one numeral. *)
Lemma IsDec_unique s t v : IsDec s v -> IsDec t v -> s = t.
Proof.
  unfold IsDec. destruct (v <? 0); [|apply IsDecU_unique].
  intros (s' & -> & H1) (t' & -> & H2). f_equal. by eapply IsDecU_unique.
Qed.

Lemma canon_intro d v : 1 <= d -> 10 ^ (d - 1) <= v < 10 ^ d -> canon d v.
Proof. by right. Qed.

Lemma canon_shift k d v :
  0 <= k -> 1 <= d -> 10 ^ (d - 1) <= v / 10 ^ k < 10 ^ d -> canon (k + d) v.
Proof.
  intros Hk Hd Hv. right. split; [lia|].
  pose proof (pow10_pos k Hk). replace (k + d - 1) with (k + (d - 1)) by lia.
  rewrite !Z.pow_add_r by lia.
  pose proof (Z.div_mod v (10 ^ k)). pose proof (Z.mod_pos_bound v (10 ^ k)). nia.
Qed.

(** Evaluates the closed powers of ten of the goal. *)
Ltac eval_pow10 :=
  repeat match goal with
  | |- context [10 ^ ?e] => let r := eval vm_compute in (10 ^ e) in
                            change (10 ^ e) with r
  end.

Lemma digits10_small fuel v :
  0 <= v < 1000000000000 -> exists d, digits10_rec (S fuel) v = Some d /\ canon d v.
Proof.
  intros Hv. cbn [digits10_rec]. unfold canon, Z.b2z.
  repeat case_match; try lia; eexists; (split; [done|]); eval_pow10; lia.
Qed.

Lemma digits10_large fuel v :
  1000000000000 <= v ->
  digits10_rec (S fuel) v
  = (d ← digits10_rec fuel (v / 1000000000000); Some (u32 (12 + d))).
Proof. intros Hv. cbn [digits10_rec]. by do 4 (case_match; [lia|]). Qed.

Lemma digits10_spec v :
  0 <= v <= ULLONG_MAX -> exists d, digits10 v = Some d /\ canon d v /\ d <= 20.
Proof.
  unfold ULLONG_MAX. unfold_limits. intros Hv. unfold digits10.
  assert (forall d, canon d v -> d <= 20) as Hub.
  { intros d [[_ ->]|[H1 H2]]; [lia|]. destruct (Z.le_gt_cases d 20) as [|Hgt]; [done|].
    pose proof (Z.pow_le_mono_r 10 20 (d - 1)). lia. }
  destruct (decide (v < 1000000000000)) as [Hs|Hs].
  { destruct (digits10_small 1 v) as (d & E & Hc); [lia|]. eauto. }
  destruct (digits10_small 0 (v / 1000000000000)) as (d & E & Hc); [div_lia|].
  rewrite digits10_large by lia. rewrite E. cbn [mbind option_bind].
  assert (1 <= v / 1000000000000) by div_lia.
  destruct Hc as [[? _]|[Hd Hc]]; [lia|].
  assert (canon (12 + d) v) as Hc' by (apply canon_shift; [lia|done|done]).
  pose proof (Hub _ Hc'). exists (12 + d). rewrite wrapu_small by lia. done.
Qed.

Lemma canon_div100 d v : 100 <= v -> canon d v -> 3 <= d /\ canon (d - 2) (v / 100).
Proof.
  intros Hv [[? _]|[Hd Hc]]; [lia|].
  assert (3 <= d) as H3.
  { destruct (Z.le_gt_cases 3 d) as [|Hgt]; [done|].
    pose proof (Z.pow_le_mono_r 10 d 2). lia. }
  split; [done|]. right. split; [lia|].
  replace (d - 1) with (2 + (d - 3)) in Hc by lia. replace d with (2 + (d - 2)) in Hc at 2 by lia.
  rewrite !Z.pow_add_r in Hc by lia. replace (d - 2 - 1) with (d - 3) by lia.
  change (10 ^ 2) with 100 in Hc. generalize dependent (10 ^ (d - 3)).
  generalize dependent (10 ^ (d - 2)). intros. div_lia.
Qed.

Lemma canon_below100 d v : v < 100 -> canon d v -> d = if v <? 10 then 1 else 2.
Proof.
  intros Hv Hc. eapply canon_unique; [done|]. apply canon_nonneg in Hc as [? _].
  unfold canon. destruct (v <? 10) eqn:E; eval_pow10; lia.
Qed.

(** ** The table of digit pairs *)

Lemma digits_table_ok x :
  0 <= x < 100 ->
  getb digits_table (x * 2) = Some (48 + x / 10) /\
  getb digits_table (x * 2 + 1) = Some (48 + x mod 10).
Proof.
  intros Hx.
  assert (Forall (fun x => getb digits_table (x * 2) = Some (48 + x / 10) /\
            getb digits_table (x * 2 + 1) = Some (48 + x mod 10)) (seqZ 0 100)) as H.
  { vm_compute. repeat constructor. }
  rewrite Forall_forall in H. apply H. apply elem_of_seqZ. lia.
Qed.

(** Writing the two digits that end at offset [next]. *)
Lemma write_pair pre h a b suf dst next x :
  dst = zlen pre -> next = zlen h + 1 -> 0 <= next <= UINT32_MAX -> 0 <= x < 100 ->
  (d1 ← getb digits_table (x * 2 + 1);
   buf ← setb (pre ++ h ++ [a; b] ++ suf) (dst + next) d1;
   d0 ← getb digits_table (x * 2);
   setb buf (dst + u32 (next - 1)) d0)
  = Some (pre ++ h ++ dec_fixed 2 x ++ suf).
Proof.
  intros -> -> Hn Hx. destruct (digits_table_ok x Hx) as [-> ->]. cbn [mbind option_bind].
  pose proof (zlen_nonneg h). unfold_limits.
  rewrite wrapu_small by lia.
  assert (pre ++ h ++ [a; b] ++ suf = (pre ++ h ++ [a]) ++ b :: suf) as ->.
  { by rewrite <- !app_assoc. }
  rewrite setb_mid by (autorewrite with zlen; lia). cbn [mbind option_bind].
  rewrite <- !app_assoc. simpl app. rewrite app_assoc.
  rewrite setb_mid by (autorewrite with zlen; lia).
  rewrite <- app_assoc. simpl. do 5 f_equal. rewrite Z.mod_small by div_lia. done.
Qed.

(** ** Printing *)

Section print.
Context (pre : list Z) (V L : Z).

(** The low [k] digits of [V] are written, the rest of [V] is still in [value]. *)
Definition print_inv (tl : list Z) (s : list Z * Z * Z) : Prop :=
  let '(buf, next, value) := s in
  exists hole k, buf = pre ++ hole ++ dec_fixed k V ++ tl /\ next = zlen hole - 1 /\
    value = V / 10 ^ Z.of_nat k /\ canon (zlen hole) value /\
    zlen hole + Z.of_nat k = L /\ L <= 20.

Definition print_post (tl : list Z) (s : list Z * Z * Z) : Prop :=
  print_inv tl s /\ s.2 < 100.

Lemma hole_last2 (hole : list Z) :
  2 <= zlen hole -> exists h a b, hole = h ++ [a; b].
Proof.
  intros Hl. destruct hole as [|b hole _] using rev_ind; [unfold zlen in Hl; simpl in Hl; lia|].
  destruct hole as [|a hole _] using rev_ind; [unfold zlen in Hl; simpl in Hl; lia|].
  exists hole, a, b. by rewrite <- app_assoc.
Qed.

(** The digits written in one turn extend the written part. *)
Lemma dec_fixed_step j k :
  dec_fixed j (V / 10 ^ Z.of_nat k) ++ dec_fixed k V = dec_fixed (j + k) V.
Proof. by rewrite dec_fixed_app. Qed.

Lemma dec_fixed2_mod x : dec_fixed 2 (x mod 100) = dec_fixed 2 x.
Proof.
  simpl. assert (x mod 100 / 10 mod 10 = x / 10 mod 10 /\ (x mod 100) mod 10 = x mod 10)
    as [-> ->]; [|done]. split; div_lia.
Qed.

Lemma print_step tl s :
  print_inv tl s ->
  0 <= s.1.2 / 2 /\
  ((exists s', ull2string_body (zlen pre) s = Some (inl s') /\ print_inv tl s' /\
      s'.1.2 / 2 < s.1.2 / 2) \/
   (exists r, ull2string_body (zlen pre) s = Some (inr r) /\ print_post tl r)).
Proof.
  destruct s as [[buf next] value]. intros (hole & k & -> & -> & Hv & Hc & HL & H20). simpl.
  pose proof (canon_nonneg _ _ Hc) as [Hv0 Hh]. split; [div_lia|].
  destruct (value >=? 100) eqn:E; cycle 1.
  { right. eexists. split; [done|]. split; [|simpl; lia].
    exists hole, k. done. }
  left. destruct (canon_div100 _ _ (Z.ge_le _ _ (proj1 (Z.geb_ge _ _) E)) Hc) as [H3 Hc'].
  destruct (hole_last2 hole) as (h & a & b & ->); [lia|].
  autorewrite with zlen in *.
  assert (0 <= value mod 100 < 100) as Hm by (apply Z.mod_pos_bound; lia).
  pose proof (write_pair pre h a b (dec_fixed k V ++ tl) (zlen pre) (zlen h + 1)
                (value mod 100) eq_refl eq_refl) as W.
  specialize (W ltac:(unfold_limits; lia) Hm). rewrite <- app_assoc.
  rewrite dec_fixed2_mod in W. remember (dec_fixed 2 value) as ds eqn:Eds.
  replace (zlen h + (1 + (1 + 0)) - 1) with (zlen h + 1) by lia.
  destruct (getb digits_table (value mod 100 * 2 + 1)) as [d1|]; [|discriminate].
  cbn [mbind option_bind] in W |- *. simpl app in W |- *.
  destruct (setb _ (zlen pre + (zlen h + 1)) d1) as [buf|]; [|discriminate].
  cbn [mbind option_bind] in W |- *.
  destruct (getb digits_table (value mod 100 * 2)) as [d0|]; [|discriminate].
  cbn [mbind option_bind] in W |- *. rewrite W. cbn [mbind option_bind].
  eexists. split; [done|]. rewrite wrapu_small by lia. split; [|simpl; div_lia].
  exists h, (2 + k)%nat. split_and!.
  - by rewrite Eds, Hv, (app_assoc (dec_fixed 2 _)), dec_fixed_step.
  - lia.
  - rewrite Hv, Nat2Z.inj_add, Z.add_comm, Z.pow_add_r by lia.
    rewrite Z.div_div; [done|pose proof (pow10_pos (Z.of_nat k)); lia|lia].
  - by replace (zlen h) with (zlen h + (1 + (1 + 0)) - 2) by lia.
  - lia.
  - lia.
Qed.

(** The last one or two digits complete the numeral. *)
Lemma print_finish tl buf next value :
  print_post tl (buf, next, value) -> 0 <= V ->
  (if value <? 10 then
     buf ← setb buf (zlen pre + next) (48 + value); Some (buf, L)
   else
     let i := value * 2 in
     d1 ← getb digits_table (i + 1); buf ← setb buf (zlen pre + next) d1;
     d0 ← getb digits_table i; buf ← setb buf (zlen pre + u32 (next - 1)) d0;
     Some (buf, L))
  = Some (pre ++ dec_fixed (Z.to_nat L) V ++ tl, L).
Proof.
  intros [(hole & k & -> & -> & Hv & Hc & HL & H20) Hlt] HV. simpl in Hlt.
  pose proof (canon_nonneg _ _ Hc) as [Hv0 _].
  pose proof (canon_below100 _ _ Hlt Hc) as Hh.
  destruct (value <? 10) eqn:E.
  - destruct hole as [|a hole]; [unfold zlen in Hh; simpl in Hh; lia|].
    destruct hole; [|autorewrite with zlen in Hh; zlen_saturate; lia].
    simpl app. rewrite setb_mid by (unfold zlen; simpl; lia). cbn [mbind option_bind].
    replace (Z.to_nat L) with (1 + k)%nat by (unfold zlen in HL; simpl in HL; lia).
    rewrite <- dec_fixed_step, <- Hv. simpl dec_fixed.
    rewrite Z.mod_small by lia. done.
  - destruct (hole_last2 hole) as (h & a & b & ->); [lia|].
    destruct h; [|autorewrite with zlen in Hh; zlen_saturate; lia].
    pose proof (write_pair pre [] a b (dec_fixed k V ++ tl) (zlen pre) 1 value eq_refl eq_refl) as W.
    specialize (W ltac:(unfold_limits; lia) ltac:(lia)).
    remember (dec_fixed 2 value) as ds eqn:Eds.
    change (zlen ([] ++ [a; b]) - 1) with 1. cbn zeta.
    destruct (getb digits_table (value * 2 + 1)) as [d1|]; [|discriminate].
    cbn [mbind option_bind] in W |- *. simpl app in W |- *.
    destruct (setb _ (zlen pre + 1) d1) as [buf|]; [|discriminate].
    cbn [mbind option_bind] in W |- *.
    destruct (getb digits_table (value * 2)) as [d0|]; [|discriminate].
    cbn [mbind option_bind] in W |- *. rewrite W. cbn [mbind option_bind].
    replace (Z.to_nat L) with (2 + k)%nat by (unfold zlen in HL; simpl in HL; lia).
    by rewrite <- dec_fixed_step, <- Hv, <- app_assoc, Eds.
Qed.
End print.

Lemma ull2string_spec pre room post v :
  0 <= v <= ULLONG_MAX ->
  exists s, IsDecU s v /\
    ull2string (pre ++ room ++ post) (zlen pre) (zlen room) v
    = if zlen s <? zlen room
      then Some (pre ++ s ++ 0 :: drop (S (length s)) room ++ post, zlen s)
      else Some (pre ++ (if room is _ :: r then 0 :: r else []) ++ post, 0).
Proof.
  intros Hv. destruct (digits10_spec v Hv) as (d & Hd & Hc & H20).
  pose proof (canon_nonneg _ _ Hc) as [_ Hd1].
  exists (dec_fixed (Z.to_nat d) v). rewrite zlen_dec_fixed, length_dec_fixed, Z2Nat.id by lia.
  split; [split; by rewrite ?zlen_dec_fixed, ?length_dec_fixed, ?Z2Nat.id by lia|].
  unfold ull2string. rewrite Hd. cbn [mbind option_bind]. rewrite Z.geb_leb.
  destruct (zlen room <=? d) eqn:E.
  { replace (d <? zlen room) with false by lia. destruct room as [|r room].
    - done.
    - replace (zlen (r :: room) >? 0) with true by len_lia.
      rewrite <- (Z.add_0_r (zlen pre)), setb_app_r by lia. done. }
  replace (d <? zlen room) with true by lia. unfold ULLONG_MAX in Hv. unfold_limits.
  rewrite (wrapu_small 32 (d - 1)), (wrapu_small 32) by lia.
  destruct (mem_split room 0 d) as (a & hole & c & -> & Ha & Hhole); [lia..|].
  destruct a; [|autorewrite with zlen in Ha; zlen_saturate; lia].
  simpl app in *. destruct c as [|c0 c]; [autorewrite with zlen in E; lia|].
  assert (pre ++ (hole ++ c0 :: c) ++ post = (pre ++ hole) ++ c0 :: (c ++ post)) as ->.
  { by rewrite <- !app_assoc. }
  rewrite setb_mid by (rewrite zlen_app; lia). cbn [mbind option_bind].
  destruct (loop_ok (ull2string_body (zlen pre)) (print_inv pre v d (0 :: c ++ post))
              (print_post pre v d (0 :: c ++ post)) (fun s => s.1.2 / 2)
              (print_step pre v d (0 :: c ++ post)) 11
              ((pre ++ hole) ++ 0 :: c ++ post, d - 1, v)) as ([[buf next] value] & -> & Hpost).
  { exists hole, 0%nat. rewrite Hhole, Z.div_1_r, <- app_assoc. split_and!; try done; lia. }
  { simpl. div_lia. }
  cbn [mbind option_bind]. etrans; [apply (print_finish pre v d _ _ _ _ Hpost); lia|].
  do 3 f_equal. f_equal. f_equal.
  replace (S (Z.to_nat d)) with (Z.to_nat d + 1)%nat by lia.
  rewrite <- drop_drop. rewrite drop_app_length' by (unfold zlen in Hhole; lia). done.
Qed.

(** ** Parsing *)

Definition dec_value (s : list Z) : Z := foldl (fun a c => a * 10 + (c - 48)) 0 s.
Definition all_digits (s : list Z) : Prop := Forall (fun c => 48 <= c <= 57) s.

Lemma dec_value_snoc s c : dec_value (s ++ [c]) = dec_value s * 10 + (c - 48).
Proof. unfold dec_value. by rewrite foldl_app. Qed.

Lemma dec_value_range s : all_digits s -> 0 <= dec_value s < 10 ^ zlen s.
Proof.
  unfold all_digits. induction s as [|c s IH] using rev_ind; intros H; [done|].
  apply Forall_app in H as [H1 H2]. inversion_clear H2.
  rewrite dec_value_snoc, zlen_app. change (zlen [c]) with 1.
  rewrite Z.pow_add_r by (unfold zlen; lia). specialize (IH H1). lia.
Qed.

Lemma dec_value_fixed n v : dec_value (dec_fixed n v) = v mod 10 ^ Z.of_nat n.
Proof.
  revert v. induction n as [|n IH]; intros v; simpl dec_fixed.
  - by rewrite Z.mod_1_r.
  - rewrite dec_value_snoc, IH, Nat2Z.inj_succ, Z.pow_succ_r by lia.
    rewrite (Z.rem_mul_r v 10) by (try apply pow10_pos; lia). lia.
Qed.

Lemma dec_fixed_value s : all_digits s -> dec_fixed (length s) (dec_value s) = s.
Proof.
  unfold all_digits. induction s as [|c s IH] using rev_ind; intros H; [done|].
  apply Forall_app in H as [H1 H2]. inversion_clear H2.
  rewrite length_app, Nat.add_1_r. simpl dec_fixed. rewrite dec_value_snoc.
  assert ((dec_value s * 10 + (c - 48)) / 10 = dec_value s) as -> by div_lia.
  assert ((dec_value s * 10 + (c - 48)) mod 10 = c - 48) as -> by div_lia.
  rewrite IH by done. f_equal. f_equal. lia.
Qed.

(** A numeral without leading zero has the length of its value. *)
Lemma canon_of_digits c s :
  all_digits (c :: s) -> 49 <= c -> IsDecU (c :: s) (dec_value (c :: s)).
Proof.
  intros H Hc. split; [|by rewrite dec_fixed_value].
  right. pose proof (dec_value_range _ H) as [_ Hub].
  rewrite zlen_cons in *. pose proof (zlen_nonneg s). split; [lia|]. split; [|done].
  replace (1 + zlen s - 1) with (zlen s) by lia.
  clear Hub. induction s as [|d s IH] using rev_ind.
  { unfold dec_value. simpl foldl. change (10 ^ zlen []) with 1. lia. }
  change (c :: s ++ [d]) with ((c :: s) ++ [d]) in *.
  apply Forall_app in H as [H1 H2]. inversion_clear H2.
  rewrite dec_value_snoc, zlen_app. change (zlen [d]) with 1.
  pose proof (zlen_nonneg s). rewrite Z.pow_add_r by lia. specialize (IH H1). lia.
Qed.

Lemma IsDecU_value s v : IsDecU s v -> dec_value s = v /\ all_digits s /\ s ≠ [].
Proof.
  intros [Hc Hs]. pose proof (canon_nonneg _ _ Hc) as [Hv Hl]. split_and!.
  - rewrite Hs, dec_value_fixed. apply Z.mod_small.
    fold (zlen s). destruct Hc as [[-> ->]|[_ ?]]; lia.
  - rewrite Hs. apply dec_fixed_digits.
  - intros ->. unfold zlen in Hl. simpl in Hl. lia.
Qed.

Lemma IsDecU_head c s v : IsDecU (c :: s) v -> (c = 48 /\ s = [] /\ v = 0) \/ (49 <= c <= 57).
Proof.
  intros H. destruct (IsDecU_value _ _ H) as (Hv & Hd & _). destruct H as [Hc _].
  inversion_clear Hd as [|?? Hc0 Hs]. destruct (decide (c = 48)) as [->|]; [|right; lia].
  left. assert (dec_value (48 :: s) = dec_value s) as E by done.
  pose proof (dec_value_range s Hs). rewrite zlen_cons in Hc.
  destruct s as [|d s].
  - split_and!; [done|done|]. rewrite <- Hv. done.
  - destruct Hc as [[_ Hl]|[_ Hc]].
    + rewrite zlen_cons in Hl. pose proof (zlen_nonneg s). lia.
    + replace (1 + zlen (d :: s) - 1) with (zlen (d :: s)) in Hc by lia. lia.
Qed.

Lemma dec_value_app_le s t : all_digits s -> all_digits t -> dec_value s <= dec_value (s ++ t).
Proof.
  intros Hs. unfold all_digits. induction t as [|c t IH] using rev_ind; intros Ht.
  { by rewrite app_nil_r. }
  apply Forall_app in Ht as [H1 H2]. inversion_clear H2.
  rewrite app_assoc, dec_value_snoc. specialize (IH H1).
  pose proof (dec_value_range s Hs). lia.
Qed.

Section parse.
Context (sgn str rest : list Z).

Definition parse_inv (s : Z * Z) : Prop :=
  exists ds l, str = sgn ++ ds ++ l /\ all_digits ds /\ s.1 = zlen sgn + zlen ds /\
    s.2 = dec_value ds /\ dec_value ds <= ULLONG_MAX.

Definition parse_post (r : option (Z * Z)) : Prop :=
  match r with
  | Some s => parse_inv s /\ (exists c l, str = take (Z.to_nat s.1) str ++ c :: l /\ ~ 48 <= c <= 57)
              \/ parse_inv s /\ s.1 = zlen str
  | None => exists ds l, str = sgn ++ ds ++ l /\ all_digits ds /\ ULLONG_MAX < dec_value ds
  end.

Lemma parse_step s :
  parse_inv s ->
  0 <= zlen str - s.1 /\
  ((exists s', parse_digits_body (str ++ rest) (zlen str) s = Some (inl s') /\ parse_inv s' /\
      zlen str - s'.1 < zlen str - s.1) \/
   (exists r, parse_digits_body (str ++ rest) (zlen str) s = Some (inr r) /\ parse_post r)).
Proof.
  destruct s as [plen v]. intros Hi. pose proof Hi as (ds & l & Hs & Hd & Hp & Hv & Hm).
  simpl in *. pose proof (dec_value_range ds Hd) as [Hv0 _].
  assert (zlen str = plen + zlen l) as Hl by (rewrite Hs; autorewrite with zlen; lia).
  pose proof (zlen_nonneg l). split; [lia|].
  destruct (plen <? zlen str) eqn:E; cycle 1.
  { right. eexists. split; [done|]. right. split; [done|]. simpl. lia. }
  destruct l as [|c l]; [rewrite zlen_nil in Hl; lia|].
  assert (getb (str ++ rest) plen = Some c) as ->.
  { rewrite Hs, <- !app_assoc. simpl. rewrite app_assoc. apply getb_mid. len_lia. }
  cbn [mbind option_bind]. unfold ULLONG_MAX in *. unfold_limits.
  destruct ((48 <=? c) && (c <=? 57)) eqn:Ec; cycle 1.
  { right. eexists. split; [done|]. left. split; [done|]. exists c, l. simpl. split; [|lia].
    rewrite Hs at 1 2. rewrite !app_assoc. f_equal.
    rewrite take_app_length'; [done|]. rewrite length_app. unfold zlen in *. lia. }
  assert (all_digits (ds ++ [c])) as Hdc.
  { apply Forall_app. split; [done|]. repeat constructor; lia. }
  assert (str = sgn ++ (ds ++ [c]) ++ l) as Hs' by (by rewrite <- app_assoc).
  pose proof (dec_value_snoc ds c) as Hsnoc.
  destruct (v >? 18446744073709551615 / 10) eqn:E1.
  { right. eexists. split; [done|]. exists (ds ++ [c]), l. split_and!; [done|done|].
    unfold ULLONG_MAX. unfold_limits. div_lia. }
  assert (v * 10 <= 18446744073709551615) as Hmul by div_lia.
  rewrite (wrapu_small 64 (v * 10)) by lia.
  destruct (v * 10 >? _) eqn:E2.
  { right. eexists. split; [done|]. exists (ds ++ [c]), l. split_and!; [done|done|].
    unfold ULLONG_MAX. unfold_limits. lia. }
  left. eexists. split; [done|]. rewrite wrapu_small by lia. split; [|simpl; lia].
  exists (ds ++ [c]), l. split_and!; simpl; [done|done|len_lia|lia|].
  unfold ULLONG_MAX. unfold_limits. lia.
Qed.

Lemma parse_loop c t :
  str = sgn ++ c :: t -> 48 <= c <= 57 ->
  exists r, loop (S (Z.to_nat (zlen str))) (parse_digits_body (str ++ rest) (zlen str))
              (zlen sgn + 1, c - 48) = Some r /\ parse_post r.
Proof.
  intros Hs Hc.
  apply (loop_ok _ parse_inv parse_post (fun s => zlen str - s.1) parse_step).
  - exists [c], t. split_and!; [done|repeat constructor; lia|done|done|].
    unfold dec_value, ULLONG_MAX. unfold_limits. simpl. lia.
  - simpl. pose proof (zlen_nonneg sgn). lia.
Qed.

(** What the loop and the two final checks say about the digits [t]. *)
Lemma parse_result t r :
  str = sgn ++ t -> parse_post r ->
  match r with
  | None => all_digits t -> ULLONG_MAX < dec_value t
  | Some (plen, v) =>
      if plen <? zlen str then ~ all_digits t
      else all_digits t /\ v = dec_value t /\ 0 <= v <= ULLONG_MAX
  end.
Proof.
  intros Ht. destruct r as [[plen v]|]; simpl.
  - intros [[Hi (c & l & Hs & Hc)]|[Hi Hp]].
    + destruct Hi as (ds & l' & Hs' & Hd & Hp & Hv & Hm). simpl in *.
      assert (zlen str = plen + zlen l') as Hl by (rewrite Hs'; len_lia).
      rewrite Hs' in Hs at 1 2. rewrite !app_assoc in Hs.
      rewrite take_app_length' in Hs by (rewrite length_app; unfold zlen in *; lia).
      apply app_inv_head in Hs. subst l'. rewrite zlen_cons in Hl.
      pose proof (zlen_nonneg l). replace (plen <? zlen str) with true by lia.
      rewrite Ht in Hs'. apply app_inv_head in Hs'. subst t. intros Hall.
      apply Forall_app in Hall as [_ Hall]. inversion_clear Hall. lia.
    + destruct Hi as (ds & l' & Hs' & Hd & Hp' & Hv & Hm). simpl in *.
      replace (plen <? zlen str) with false by lia.
      assert (l' = []) as -> by (destruct l'; [done|rewrite Hs' in Hp; len_lia]).
      rewrite Ht, app_nil_r in Hs'. apply app_inv_head in Hs'. subst ds.
      pose proof (dec_value_range t Hd). split_and!; [done|done|lia|lia].
  - intros (ds & l & Hs & Hd & Hm) Hall. rewrite Ht in Hs. apply app_inv_head in Hs. subst t.
    apply Forall_app in Hall as [_ Hl]. pose proof (dec_value_app_le ds l Hd Hl). lia.
Qed.
End parse.
