(* ===== verification/NumstrProps.v ===== *)
(** * Properties of the number conversions *)
From S2P Require Import Prelude Numstr NumstrFacts.

Definition in_int64 (v : Z) : Prop := INT64_MIN <= v <= INT64_MAX.

Lemma IsDecU_length s v : IsDecU s v -> v <= 2 ^ 63 -> zlen s <= 19.
Proof.
  intros [Hc _] Hv. destruct Hc as [[_ ->]|[Hd Hc]]; [lia|].
  destruct (Z.le_gt_cases (zlen s) 19) as [|Hgt]; [done|].
  pose proof (Z.pow_le_mono_r 10 19 (zlen s - 1)). lia.
Qed.

Lemma IsDec_length s v : IsDec s v -> in_int64 v -> 1 <= zlen s <= 20.
Proof.
  unfold IsDec, in_int64. unfold_limits. intros H Hr.
  destruct (v <? 0) eqn:E.
  - destruct H as (s' & -> & H). pose proof (IsDecU_length _ _ H).
    rewrite zlen_cons. pose proof (zlen_nonneg s'). lia.
  - pose proof (IsDecU_length _ _ H). destruct H as [Hc _].
    apply canon_nonneg in Hc. lia.
Qed.

Lemma IsDec_head c s v :
  IsDec (c :: s) v ->
  (c = 48 /\ s = [] /\ v = 0) \/ (49 <= c <= 57 /\ 0 <= v) \/
  (c = 45 /\ v < 0 /\ exists d t, s = d :: t /\ 49 <= d <= 57).
Proof.
  unfold IsDec. destruct (v <? 0) eqn:E.
  - intros (s' & [= -> ->] & H). right. right. split_and!; [done|lia|].
    destruct s' as [|d t]; [by apply IsDecU_value in H as (_ & _ & ?)|].
    exists d, t. split; [done|]. apply IsDecU_head in H as [(_ & _ & ?)|?]; [lia|done].
  - intros H. apply IsDecU_head in H as [?|?]; [by left|right; left; lia].
Qed.

Lemma dec_value_pos c t : all_digits (c :: t) -> 49 <= c -> 0 < dec_value (c :: t).
Proof.
  intros Hd Hc. destruct (canon_of_digits c t Hd Hc) as [[[_ Hn]|[Hn1 Hn]] _].
  - destruct t; [unfold dec_value; simpl; lia|].
    rewrite !zlen_cons in Hn. pose proof (zlen_nonneg t). lia.
  - pose proof (pow10_pos (zlen (c :: t) - 1)). lia.
Qed.

(** The canonical numerals of the [int64_t] range that do not start with 0. *)
Lemma IsDec_signed_iff (negative : bool) c t v :
  49 <= c <= 57 ->
  IsDec ((if negative then [45] else []) ++ c :: t) v /\ in_int64 v <->
  all_digits (c :: t) /\ v = (if negative then - dec_value (c :: t) else dec_value (c :: t)) /\
  dec_value (c :: t) <= (if negative then 9223372036854775808 else 9223372036854775807).
Proof.
  intros Hc. unfold in_int64, IsDec. unfold_limits. split.
  - intros [H Hr]. destruct (v <? 0) eqn:Ev.
    + destruct H as (s' & Hs' & H). destruct negative; simpl in Hs'; [|injection Hs'; lia].
      injection Hs' as <-. apply IsDecU_value in H as (H1 & H2 & _). split_and!; [done|lia|lia].
    + destruct negative; simpl in H.
      * apply IsDecU_head in H. lia.
      * apply IsDecU_value in H as (H1 & H2 & _). split_and!; [done|lia|lia].
  - intros (Hd & -> & Hl). pose proof (canon_of_digits c t Hd) as HU.
    pose proof (dec_value_pos c t Hd) as Hpos. destruct negative.
    + replace (- dec_value (c :: t) <? 0) with true by lia. split; [|lia].
      exists (c :: t). split; [done|]. rewrite Z.opp_involutive. apply HU. lia.
    + replace (dec_value (c :: t) <? 0) with false by lia. split; [|lia]. apply HU. lia.
Qed.

(** The accepted part of the parser: a sign, a digit 1-9, more digits. *)
Lemma parse_signed (negative : bool) str rest c t limit :
  str = (if negative then [45] else []) ++ c :: t -> 49 <= c <= 57 ->
  limit = (if negative then 9223372036854775808 else 9223372036854775807) ->
  exists o, (r ← loop (S (Z.to_nat (zlen str))) (parse_digits_body (str ++ rest) (zlen str))
               ((if negative then 1 else 0) + 1, c - 48);
             match r with
             | None => Some None
             | Some (plen, v) =>
                 if plen <? zlen str then Some None
                 else if v >? limit then Some None
                 else Some (Some (if negative then s64 (u64 (- v)) else s64 v))
             end) = Some o /\
    (forall v, o = Some v <-> IsDec str v /\ in_int64 v).
Proof.
  intros Hs Hc ->. set (sgn := if negative then [45] else []) in *.
  destruct (parse_loop sgn str rest c t Hs) as (r & E & Hp); [lia|].
  assert (zlen sgn = if negative then 1 else 0) as Hsl by (unfold sgn; by destruct negative).
  rewrite Hsl in E. rewrite E. cbn [mbind option_bind].
  apply (parse_result sgn str (c :: t) r Hs) in Hp.
  pose proof (fun v => IsDec_signed_iff negative c t v Hc) as Hiff. fold sgn in Hiff.
  rewrite <- Hs in Hiff.
  unfold ULLONG_MAX in Hp. unfold_limits.
  destruct r as [[plen v]|].
  - destruct (plen <? zlen str).
    { eexists. split; [done|]. intros v'. rewrite Hiff. split; [done|]. by intros (? & _). }
    destruct Hp as (Hd & -> & Hr). destruct (_ >? _) eqn:El.
    { eexists. split; [done|]. intros v'. rewrite Hiff. split; [done|].
      intros (_ & _ & ?). lia. }
    eexists. split; [done|]. intros v'. rewrite Hiff.
    assert ((if negative then s64 (u64 (- dec_value (c :: t))) else s64 (dec_value (c :: t)))
            = (if negative then - dec_value (c :: t) else dec_value (c :: t))) as ->.
    { destruct negative; [rewrite wraps_wrapu by lia|]; apply wraps_small; lia. }
    split; [intros [= <-]; split_and!; [done|done|lia]|intros (_ & -> & _); done].
  - eexists. split; [done|]. intros v'. rewrite Hiff. split; [done|].
    intros (Hd & _ & ?). specialize (Hp Hd). destruct negative; lia.
Qed.

Lemma string2ll_spec str rest :
  exists o, string2ll (str ++ rest) (zlen str) = Some o /\
    (forall v, o = Some v <-> IsDec str v /\ in_int64 v).
Proof.
  unfold string2ll, LONG_STR_SIZE, LLONG_MIN, LLONG_MAX.
  destruct ((0 =? zlen str) || (zlen str >=? 21)) eqn:E0.
  { eexists. split; [done|]. intros v. split; [done|]. intros [Hd Hr].
    apply IsDec_length in Hd; [lia|done]. }
  destruct str as [|c0 t]; [done|].
  change (getb ((c0 :: t) ++ rest) 0) with (Some c0). cbn [mbind option_bind].
  destruct ((zlen (c0 :: t) =? 1) && (c0 =? 48)) eqn:E1.
  { assert (c0 = 48 /\ t = []) as [-> ->].
    { destruct t; [split; [lia|done]|]. rewrite !zlen_cons in E1.
      pose proof (zlen_nonneg t). exfalso. lia. }
    eexists. split; [done|]. intros v. split.
    - intros [= <-]. unfold in_int64. unfold_limits. split; [|lia].
      split; [by left|done].
    - intros [Hd _]. apply IsDec_head in Hd as [(_ & _ & ->)|[?|?]]; [done|lia|lia]. }
  assert (forall negative : bool, (c0 =? 45) = negative ->
    forall d t', c0 :: t = (if negative then [45] else []) ++ d :: t' ->
    getb ((c0 :: t) ++ rest) (if negative then 1 else 0) = Some d) as Hget.
  { intros negative _ d t' ->. by destruct negative. }
  assert (forall v, IsDec (c0 :: t) v -> forall negative : bool, (c0 =? 45) = negative ->
    exists d t', c0 :: t = (if negative then [45] else []) ++ d :: t' /\ 49 <= d <= 57) as Hshape.
  { intros v Hd negative Hn.
    apply IsDec_head in Hd as [(-> & -> & _)|[[? _]|(-> & _ & d & t' & -> & ?)]];
      destruct negative; try lia; eauto. done. }
  destruct (c0 =? 45) eqn:En; cbn [andb].
  - assert (c0 = 45) as -> by lia. destruct t as [|d t].
    { eexists. split; [done|]. intros v. split; [done|]. intros [Hd _].
      destruct (Hshape v Hd true eq_refl) as (? & ? & [=] & _). }
    replace (1 =? zlen (45 :: d :: t)) with false by len_lia.
    rewrite (Hget true eq_refl d t eq_refl). cbn [mbind option_bind].
    destruct ((49 <=? d) && (d <=? 57)) eqn:Ed.
    + apply (parse_signed true (45 :: d :: t) rest d t); [done|lia|done].
    + eexists. split; [done|]. intros v. split; [done|]. intros [Hd _].
      destruct (Hshape v Hd true eq_refl) as (? & ? & [= <- <-] & ?). lia.
  - rewrite (Hget false eq_refl c0 t eq_refl). cbn [mbind option_bind].
    destruct ((49 <=? c0) && (c0 <=? 57)) eqn:Ed.
    + apply (parse_signed false (c0 :: t) rest c0 t); [done|lia|done].
    + eexists. split; [done|]. intros v. split; [done|]. intros [Hd _].
      destruct (Hshape v Hd false eq_refl) as (? & ? & [= <- <-] & ?). lia.
Qed.

(** What a failed conversion leaves in the destination. *)
Definition failed_room (negative : bool) (room : list Z) : list Z :=
  match room with
  | [] => []
  | [_] => [0]
  | _ :: b :: r => if negative then 45 :: 0 :: r else 0 :: b :: r
  end.

(** The magnitude of a negative number, [LLONG_MIN] included. *)
Lemma negative_magnitude v :
  INT64_MIN <= v < 0 ->
  (if negb (v =? LLONG_MIN) then u64 (- v) else u64 (LLONG_MAX + 1)) = - v.
Proof.
  unfold LLONG_MIN, LLONG_MAX. unfold_limits. intros Hv. destruct (v =? _) eqn:E; simpl.
  - assert (v = -9223372036854775808) as -> by lia. done.
  - apply wrapu_small. lia.
Qed.

Lemma ll2string_spec pre room post v :
  in_int64 v ->
  exists s, IsDec s v /\
    ll2string (pre ++ room ++ post) (zlen pre) (zlen room) v
    = if zlen s <? zlen room
      then Some (pre ++ s ++ 0 :: drop (S (length s)) room ++ post, zlen s)
      else Some (pre ++ failed_room (v <? 0) room ++ post, 0).
Proof.
  unfold in_int64. intros Hv. unfold ll2string, IsDec. unfold_limits.
  destruct (v <? 0) eqn:En; cycle 1.
  { destruct (ull2string_spec pre room post v) as (s & Hs & E).
    { unfold ULLONG_MAX. unfold_limits. lia. }
    exists s. split; [done|]. rewrite E.
    pose proof (canon_nonneg _ _ (proj1 Hs)) as [_ Hl].
    destruct (zlen s <? zlen room); cbn [mbind option_bind].
    - by replace (zlen s =? 0) with false by lia; rewrite Z.add_0_r.
    - by destruct room as [|? [|? ?]]. }
  rewrite negative_magnitude by (unfold_limits; lia).
  assert (0 <= - v <= ULLONG_MAX) as Hr by (unfold ULLONG_MAX; unfold_limits; lia).
  destruct room as [|a [|b r]].
  { destruct (ull2string_spec [] [] [] (- v) Hr) as (s & Hs & _).
    exists (45 :: s). split; [by exists s|]. rewrite (zlen_cons 45 s). pose proof (zlen_nonneg s).
    by replace (1 + zlen s <? zlen []) with false by (change (@zlen Z []) with 0; lia). }
  { destruct (ull2string_spec [] [] [] (- v) Hr) as (s & Hs & _).
    exists (45 :: s). split; [by exists s|]. rewrite (zlen_cons 45 s). pose proof (zlen_nonneg s).
    replace (1 + zlen s <? zlen [a]) with false by (change (zlen [a]) with 1; lia).
    change (zlen [a] <? 2) with true. change (zlen [a] >? 0) with true. cbn iota.
    simpl app. rewrite setb_mid by done. done. }
  replace (zlen (a :: b :: r) <? 2) with false by (rewrite !zlen_cons; pose proof (zlen_nonneg r); lia).
  simpl app at 1. rewrite setb_mid by done. cbn [mbind option_bind].
  destruct (ull2string_spec (pre ++ [45]) (b :: r) post (- v) Hr) as (s & Hs & E).
  exists (45 :: s). split; [by exists s|].
  rewrite zlen_app, <- app_assoc in E. simpl app in E.
  replace (zlen (a :: b :: r) - 1) with (zlen (b :: r)) by (rewrite !zlen_cons; lia).
  change (zlen [45]) with 1 in E. rewrite E, !zlen_cons.
  pose proof (canon_nonneg _ _ (proj1 Hs)) as [_ Hl].
  destruct (zlen s <? 1 + zlen r) eqn:El; cbn [mbind option_bind].
  - replace (1 + zlen s <? 1 + (1 + zlen r)) with true by lia.
    replace (zlen s =? 0) with false by lia. rewrite <- !app_assoc. simpl. do 2 f_equal. lia.
  - replace (1 + zlen s <? 1 + (1 + zlen r)) with false by lia. by rewrite <- !app_assoc.
Qed.

(** string2ll on any bytes terminates without reading outside the string and succeeds exactly
    when the bytes are the canonical decimal numeral of a signed 64-bit integer, with that
    value. *)
Theorem string2ll_correct str rest :
  exists o, string2ll (str ++ rest) (zlen str) = Some o /\
    (forall v, o = Some v <-> IsDec str v /\ in_int64 v).
Proof. apply string2ll_spec. Qed.

(** ll2string writes the canonical decimal numeral and a terminating zero byte inside the given
    room and returns its length, or returns 0 when the room is too small, touching nothing
    outside it. *)
Theorem ll2string_correct pre room post v :
  in_int64 v ->
  exists s, IsDec s v /\
    ll2string (pre ++ room ++ post) (zlen pre) (zlen room) v
    = if zlen s <? zlen room
      then Some (pre ++ s ++ 0 :: drop (S (length s)) room ++ post, zlen s)
      else Some (pre ++ failed_room (v <? 0) room ++ post, 0).
Proof. apply ll2string_spec. Qed.

(** a signed 64-bit integer written by ll2string into a buffer of at least 21 bytes is read
    back by string2ll. *)
Theorem ll2string_string2ll_roundtrip pre room post v :
  in_int64 v -> 21 <= zlen room ->
  exists buf n, ll2string (pre ++ room ++ post) (zlen pre) (zlen room) v = Some (buf, n) /\
    string2ll (drop (length pre) buf) n = Some (Some v).
Proof.
  intros Hv Hr. destruct (ll2string_spec pre room post v Hv) as (s & Hs & E).
  pose proof (IsDec_length s v Hs Hv).
  replace (zlen s <? zlen room) with true in E by lia.
  eexists _, _. split; [exact E|]. rewrite drop_app_length.
  destruct (string2ll_spec s (0 :: drop (S (length s)) room ++ post)) as (o & Eo & Ho).
  rewrite Eo. f_equal. by apply Ho.
Qed.

(** sdigits10 is the length of the decimal numeral of the integer, sign included, also for
    LLONG_MIN. *)
Theorem sdigits10_correct v :
  in_int64 v -> exists s, IsDec s v /\ sdigits10 v = Some (zlen s).
Proof.
  unfold in_int64. intros Hv. unfold sdigits10, IsDec. unfold_limits.
  destruct (v <? 0) eqn:E.
  - assert ((if negb (v =? LLONG_MIN) then u64 (- v) else LLONG_MAX + 1) = - v) as ->.
    { etrans; [|apply negative_magnitude; unfold_limits; lia]. by destruct (negb _). }
    destruct (digits10_spec (- v)) as (d & -> & Hc & Hd).
    { unfold ULLONG_MAX. unfold_limits. lia. }
    pose proof (canon_nonneg _ _ Hc) as [_ Hd1].
    exists (45 :: dec_fixed (Z.to_nat d) (- v)). split.
    + eexists. split; [done|]. split; rewrite ?zlen_dec_fixed, ?length_dec_fixed, ?Z2Nat.id by lia; done.
    + cbn [mbind option_bind]. rewrite wrapu_small by lia.
      rewrite zlen_cons, zlen_dec_fixed, Z2Nat.id by lia. f_equal. lia.
  - destruct (digits10_spec v) as (d & -> & Hc & Hd).
    { unfold ULLONG_MAX. unfold_limits. lia. }
    pose proof (canon_nonneg _ _ Hc) as [_ Hd1].
    exists (dec_fixed (Z.to_nat d) v).
    split; [split|]; rewrite ?zlen_dec_fixed, ?length_dec_fixed, ?Z2Nat.id by lia; done.
Qed.

(** The listpack's parser is the same function. *)
Lemma lpStringToInt64_string2ll s slen : lpStringToInt64 s slen = string2ll s slen.
Proof. unfold lpStringToInt64, string2ll. by rewrite (Z.eqb_sym slen 0). Qed.

(** ** Hexadecimal parsing *)

Definition is_hex (c : Z) : Prop := 48 <= c <= 57 \/ 97 <= c <= 102 \/ 65 <= c <= 70.
Definition hex_digit (c : Z) : Z :=
  if c <=? 57 then c - 48 else if c <=? 70 then c - 55 else c - 87.
Definition hex_value (s : list Z) : Z := foldl (fun a c => a * 16 + hex_digit c) 0 s.

Lemma hex_digit_lookup c :
  is_hex c -> base_16_char_type c ≠ -1 /\ 0 <= hex_digit c < 16 /\
    (off ← getb ascii_to_dec (base_16_char_type c); Some (c - off)) = Some (hex_digit c).
Proof.
  unfold is_hex, base_16_char_type, hex_digit. intros Hc.
  repeat case_match; try lia; split_and!; try lia; cbn; f_equal; lia.
Qed.

Lemma not_hex_type c : ~ is_hex c -> base_16_char_type c = -1.
Proof. unfold is_hex, base_16_char_type. intros Hc. repeat case_match; lia. Qed.

Lemma hex_value_snoc s c : hex_value (s ++ [c]) = hex_value s * 16 + hex_digit c.
Proof. unfold hex_value. by rewrite foldl_app. Qed.

Lemma hex_value_app_le s t : Forall is_hex t -> 0 <= hex_value s -> hex_value s <= hex_value (s ++ t).
Proof.
  revert s. induction t as [|c t IH]; intros s Ht Hs; [by rewrite app_nil_r|].
  inversion_clear Ht as [|?? Hc Ht']. pose proof (hex_digit_lookup c Hc) as (_ & Hd & _).
  change (c :: t) with ([c] ++ t). rewrite app_assoc.
  etrans; [|apply IH; [done|]]; rewrite hex_value_snoc; lia.
Qed.

(** One turn of the loop on a hex digit in range. *)
Lemma base16_turn l1 d l2 tl slen :
  is_hex d -> Forall is_hex l2 -> 0 <= hex_value l1 <= ULLONG_MAX -> zlen l1 < slen ->
  string2ul_base16_body ((l1 ++ d :: l2) ++ tl) slen (zlen l1, hex_value l1)
  = if hex_value (l1 ++ [d]) <=? ULLONG_MAX
    then Some (inl (zlen (l1 ++ [d]), hex_value (l1 ++ [d]))) else Some (inr None).
Proof.
  intros Hh Hl2 Hv Hlt. unfold string2ul_base16_body.
  pose proof (hex_digit_lookup d Hh) as (Ht & Hdig & Hoff).
  rewrite <- app_assoc. simpl app. rewrite getb_mid by done. cbn [mbind option_bind].
  replace (negb _ && _) with true by lia.
  destruct (getb ascii_to_dec (base_16_char_type d)) as [off|]; [|discriminate].
  cbn [mbind option_bind] in Hoff |- *. injection Hoff as ->.
  rewrite hex_value_snoc, zlen_app. change (zlen [d]) with 1.
  unfold ULLONG_MAX in *. unfold_limits.
  destruct (hex_value l1 * 16 + hex_digit d <=? _) eqn:Eo.
  - replace (_ || _) with false by (clear -Eo Hdig Hv; symmetry; apply orb_false_intro; div_lia).
    rewrite wrapu_small by lia. done.
  - replace (_ || _) with true; [done|].
    symmetry. apply orb_true_intro. clear -Eo Hdig Hv. right. div_lia.
Qed.

Lemma base16_loop l2 : forall l1 fuel tl slen,
  Forall is_hex l2 -> 0 <= hex_value l1 <= ULLONG_MAX -> zlen (l1 ++ l2) <= slen ->
  (length l2 < fuel)%nat ->
  loop fuel (string2ul_base16_body ((l1 ++ l2) ++ tl) slen) (zlen l1, hex_value l1)
  = if hex_value (l1 ++ l2) <=? ULLONG_MAX
    then loop (fuel - length l2) (string2ul_base16_body ((l1 ++ l2) ++ tl) slen)
           (zlen (l1 ++ l2), hex_value (l1 ++ l2))
    else Some None.
Proof.
  induction l2 as [|d l2 IH]; intros l1 fuel tl slen Hl2 Hv Hl Hf.
  { rewrite app_nil_r. replace (hex_value l1 <=? ULLONG_MAX) with true by lia.
    simpl length. by rewrite Nat.sub_0_r. }
  destruct fuel as [|fuel]; [simpl in Hf; lia|].
  inversion_clear Hl2 as [|?? Hd Hl2']. cbn [loop].
  assert (zlen l1 < slen) as Hlt.
  { rewrite zlen_app, zlen_cons in Hl. pose proof (zlen_nonneg l2). lia. }
  rewrite base16_turn by done.
  pose proof (hex_digit_lookup d Hd) as (_ & Hdig & _).
  pose proof (hex_value_snoc l1 d) as Hsnoc.
  replace (l1 ++ d :: l2) with ((l1 ++ [d]) ++ l2) in * by (by rewrite <- app_assoc).
  destruct (hex_value (l1 ++ [d]) <=? ULLONG_MAX) eqn:Eo.
  - rewrite IH; [done|done|lia|done|simpl in Hf; lia].
  - assert (hex_value (l1 ++ [d]) <= hex_value ((l1 ++ [d]) ++ l2)).
    { apply hex_value_app_le; [done|lia]. }
    by replace (hex_value ((l1 ++ [d]) ++ l2) <=? ULLONG_MAX) with false by lia.
Qed.

Lemma base16_start ds tl slen :
  Forall is_hex ds -> zlen ds <= slen ->
  string2ul_base16 (ds ++ tl) slen
  = if hex_value ds <=? ULLONG_MAX
    then loop (S (Z.to_nat slen) - length ds) (string2ul_base16_body (ds ++ tl) slen)
           (zlen ds, hex_value ds)
    else Some None.
Proof.
  intros Hds Hl. unfold string2ul_base16.
  apply (base16_loop ds [] (S (Z.to_nat slen)) tl slen); [done|closed_arith|done|].
  unfold zlen in Hl. lia.
Qed.

(** the hexadecimal parser reads the digits up to the first other byte or up to the length, and
    fails exactly on overflow. *)
Theorem string2ul_base16_correct ds c rest slen :
  Forall is_hex ds -> zlen ds <= slen -> ~ is_hex c \/ slen = zlen ds ->
  string2ul_base16 (ds ++ c :: rest) slen
  = Some (if hex_value ds <=? ULLONG_MAX then Some (hex_value ds) else None).
Proof.
  intros Hds Hl Hend. rewrite base16_start by done. case_match; [|done].
  replace (S (Z.to_nat slen) - length ds)%nat with (S (Z.to_nat slen - length ds))
    by (unfold zlen in Hl; lia).
  cbn [loop]. unfold string2ul_base16_body at 1. rewrite getb_mid by done. cbn [mbind option_bind].
  replace (negb _ && _) with false; [done|].
  destruct Hend as [Hn| ->]; [by rewrite not_hex_type|].
  by rewrite Z.ltb_irrefl, andb_false_r.
Qed.

(** on a buffer of exactly slen hexadecimal digits the parser reads the byte after the buffer
    before it looks at the length. *)
Theorem string2ul_base16_overread ds :
  Forall is_hex ds -> hex_value ds <= ULLONG_MAX -> string2ul_base16 ds (zlen ds) = None.
Proof.
  intros Hds Hv. pose proof (base16_start ds [] (zlen ds) Hds (Z.le_refl _)) as E.
  rewrite app_nil_r in E. rewrite E. replace (hex_value ds <=? ULLONG_MAX) with true by lia.
  replace (S (Z.to_nat (zlen ds)) - length ds)%nat with 1%nat by (unfold zlen; lia).
  cbn [loop]. unfold string2ul_base16_body, getb.
  replace (0 <=? zlen ds) with true by (pose proof (zlen_nonneg ds); lia).
  rewrite lookup_ge_None_2; [done|]. unfold zlen. lia.
Qed.

(** ** Instances *)

Lemma ll2string_correct_witness :
  exists s, IsDec s (-42) /\
    ll2string (replicate 24 7) 0 24 (-42)
    = if zlen s <? 24
      then Some (s ++ 0 :: drop (S (length s)) (replicate 24 7), zlen s)
      else Some (failed_room true (replicate 24 7), 0).
Proof.
  destruct (ll2string_correct [] (replicate 24 7) [] (-42)) as (s & Hs & E); [closed_arith|].
  exists s. rewrite !app_nil_r in E. split; [exact Hs|exact E].
Defined.

Lemma ll2string_roundtrip_witness :
  exists buf n, ll2string (replicate 24 7) 0 24 INT64_MIN = Some (buf, n) /\
    string2ll buf n = Some (Some INT64_MIN).
Proof.
  exact (ll2string_string2ll_roundtrip [] (replicate 24 7) [] INT64_MIN
           ltac:(closed_arith) ltac:(closed_arith)).
Defined.

Lemma sdigits10_witness : exists s, IsDec s (-1000) /\ sdigits10 (-1000) = Some (zlen s).
Proof. apply sdigits10_correct. closed_arith. Defined.

Lemma string2ul_base16_witness : string2ul_base16 [70; 102; 49; 44] 4 = Some (Some 4081).
Proof.
  apply (string2ul_base16_correct [70; 102; 49] 44 [] 4); [|closed_arith|].
  - repeat constructor; unfold is_hex; lia.
  - left. unfold is_hex. lia.
Defined.

Lemma string2ul_base16_overread_witness : string2ul_base16 [49; 50] 2 = None.
Proof.
  apply (string2ul_base16_overread [49; 50]); [|closed_arith].
  repeat constructor; unfold is_hex; lia.
Defined.
