(* ===== verification/Glob.v ===== *)
(** * Glob matching: [stringmatchlen] of [util.c]

    The pattern and the string are byte buffers read through offsets.  A pattern
    buffer goes one byte beyond [patternLen]: the code peeks at [pattern[1]] and at
    the byte past the pattern's end and relies on the terminating NUL of an sds string, so
    the model reads that byte and refuses any other byte out of the buffer. *)
From S2P Require Import Prelude.

(** [tolower] of the C locale on a [char] value. *)
Definition tolower (c : Z) : Z := if (65 <=? c) && (c <=? 90) then c + 32 else c.

(** A [char] assigned to an [int]: bytes from 128 on are negative. *)
Definition schar (b : Z) : Z := wraps 8 b.

Section glob.
Context (pb sb : list Z) (nocase : bool).

(** [pattern[0] == string[0]], up to case with [nocase]. *)
Definition char_eq (a b : Z) : bool :=
  if negb nocase then a =? b else tolower (schar a) =? tolower (schar b).

Definition in_range (a b ch : Z) : bool :=
  let start := schar a in
  let stop := schar b in
  let c := schar ch in
  let '(start, stop) := if start >? stop then (stop, start) else (start, stop) in
  let '(start, stop, c) :=
    if nocase then (tolower start, tolower stop, tolower c) else (start, stop, c) in
  (c >=? start) && (c <=? stop).

(** The [while(1)] of a bracket: [matched], the pattern offset and length. *)
Definition class_body (ch : Z) (st : bool * Z * Z)
    : option ((bool * Z * Z) + (bool * Z * Z)) :=
  let '(matched, p, plen) := st in
  c ← getb pb p;
  if (c =? 92) && (plen >=? 2) then
    let p := p + 1 in let plen := plen - 1 in
    c ← getb pb p;
    Some (inl (if c =? ch then true else matched, p + 1, plen - 1))
  else if c =? 93 then Some (inr (matched, p, plen))
  else if plen =? 0 then Some (inr (matched, p - 1, plen + 1))
  else
    range ← (if plen >=? 3 then c1 ← getb pb (p + 1); Some (c1 =? 45) else Some false);
    if (range : bool) then
      e ← getb pb (p + 2);
      Some (inl (if in_range c e ch then true else matched, p + 2 + 1, plen - 2 - 1))
    else Some (inl (if char_eq c ch then true else matched, p + 1, plen - 1)).

(** The [switch] for every character but the star: does the string character [ch]
    match, and where does the pattern element end (before the common [pattern++]). *)
Definition match_one (p plen ch : Z) : option (bool * Z * Z) :=
  c ← getb pb p;
  if c =? 63 then Some (true, p, plen)
  else if c =? 91 then
    let p := p + 1 in let plen := plen - 1 in
    c ← getb pb p;
    let neg := c =? 94 in
    let '(p, plen) := if neg then (p + 1, plen - 1) else (p, plen) in
    '(matched, p, plen) ← loop (S (S (Z.to_nat plen))) (class_body ch) (false, p, plen);
    Some (if neg then negb matched else matched, p, plen)
  else
    let '(p, plen) := if (c =? 92) && (plen >=? 2) then (p + 1, plen - 1) else (p, plen) in
    c ← getb pb p;
    Some (char_eq c ch, p, plen).

(** The loop that skips a run of stars, looking one byte ahead. *)
Definition skip_stars_body (st : Z * Z) : option ((Z * Z) + (Z * Z)) :=
  let '(p, plen) := st in
  if plen =? 0 then Some (inr (p, plen))
  else
    c ← getb pb (p + 1);
    if c =? 42 then Some (inl (p + 1, plen - 1)) else Some (inr (p, plen)).

(** The loop over the stars at the pattern's end, once the string is used up. *)
Definition tail_stars_body (st : Z * Z) : option ((Z * Z) + (Z * Z)) :=
  let '(p, plen) := st in
  c ← getb pb p;
  if c =? 42 then Some (inl (p + 1, plen - 1)) else Some (inr (p, plen)).

(** The [while(stringLen)] of a star: tries the rest of the pattern, the recursive call
    [rec], at every position of the string. *)
Fixpoint star_loop (rec : Z -> Z -> bool -> option (bool * bool))
    (n : nat) (s slen : Z) (skip : bool) : option (bool * bool) :=
  match n with
  | O => None
  | S n =>
    if slen =? 0 then Some (false, true)
    else
      '(r, skip) ← rec s slen skip;
      if (r : bool) then Some (true, skip)
      else if (skip : bool) then Some (false, skip)
      else star_loop rec n (s + 1) (slen - 1) skip
  end.

(** The [while(patternLen && stringLen)] loop of [stringmatchlen_impl]; the result is
    the match and [*skipLongerMatches].  The recursive call for a star is guarded by
    the nesting limit, checked at its entry. *)
Fixpoint glob_loop (fuel : nat) (p plen s slen : Z) (skip : bool) (nesting : Z)
    : option (bool * bool) :=
  match fuel with
  | O => None
  | S fuel =>
    if negb (plen =? 0) && negb (slen =? 0) then
      c ← getb pb p;
      if c =? 42 then
        '(p, plen) ← loop (S (Z.to_nat plen)) skip_stars_body (p, plen);
        if plen =? 1 then Some (true, skip)
        else
          star_loop (fun s slen skip =>
                       if nesting + 1 >? 1000 then Some (false, skip)
                       else glob_loop fuel (p + 1) (plen - 1) s slen skip (nesting + 1))
            (S (Z.to_nat slen)) s slen skip
      else
        ch ← getb sb s;
        '(matched, p, plen) ← match_one p plen ch;
        if negb matched then Some (false, skip)
        else
          let s := s + 1 in let slen := slen - 1 in
          let p := p + 1 in let plen := plen - 1 in
          if slen =? 0 then
            '(p, plen) ← loop (S (S (Z.to_nat plen))) tail_stars_body (p, plen);
            Some ((plen =? 0) && (slen =? 0), skip)
          else glob_loop fuel p plen s slen skip nesting
    else Some ((plen =? 0) && (slen =? 0), skip)
  end.

Definition stringmatchlen_impl (p plen s slen : Z) (skip : bool) (nesting : Z) : option (bool * bool) :=
  if nesting >? 1000 then Some (false, skip)
  else glob_loop (S (S (Z.to_nat plen))) p plen s slen skip nesting.

Definition stringmatchlen (plen slen : Z) : option bool :=
  '(r, _) ← stringmatchlen_impl 0 plen 0 slen false 0; Some r.
End glob.
