(* ===== verification/GlobFacts.v ===== *)
(** * Correctness of [stringmatchlen]

    The declarative meaning of a pattern ([Matches]), the code against a function on the list
    of pattern bytes ([Follows]), and that function against [Matches]. *)
From S2P Require Import Prelude Glob.

(** ** The meaning of a pattern

    Declarative, and apart from the tests of the code: characters are compared
    through their value as a [char] and the letters of the alphabet. *)

(** The [k]th letter of the alphabet, in upper and in lower case. *)
Definition upper (k : Z) : Z := 65 + k.
Definition lower (k : Z) : Z := 97 + k.

(** [a] and [b] are the same letter. *)
Definition same_letter (a b : Z) : Prop :=
  exists k, 0 <= k < 26 /\ (a = upper k \/ a = lower k) /\ (b = upper k \/ b = lower k).

(** Two characters agree: equal, or the same letter when the case is ignored. *)
Definition same_char (nocase : bool) (a b : Z) : Prop :=
  a = b \/ (nocase = true /\ same_letter a b).

(** The value of a byte as a signed [char]. *)
Definition char_value (b v : Z) : Prop := (b < 128 /\ v = b) \/ (128 <= b /\ v = b - 256).

(** [d] is [c] with upper case turned into lower case, when the case is ignored. *)
Definition folded (nocase : bool) (c d : Z) : Prop :=
  (nocase = true /\ exists k, 0 <= k < 26 /\ c = upper k /\ d = lower k) \/
  (c = d /\ ~ (nocase = true /\ exists k, 0 <= k < 26 /\ c = upper k)).

(** [ch] lies between [a] and [b], given in either order; the case is folded after
    the bounds are put in order. *)
Definition in_span (nocase : bool) (a b ch : Z) : Prop :=
  exists va vb vc lo hi c,
    char_value a va /\ char_value b vb /\ char_value ch vc /\
    folded nocase (Z.min va vb) lo /\ folded nocase (Z.max va vb) hi /\ folded nocase vc c /\
    lo <= c <= hi.

(** The items of a bracket. *)
Inductive item :=
| Escaped (c : Z)
| Span (a b : Z)
| Plain (c : Z).

(** The character after a backslash is compared exactly, whatever the case option. *)
Definition item_matches (nocase : bool) (ch : Z) (it : item) : Prop :=
  match it with
  | Escaped c => c = ch
  | Span a b => in_span nocase a b ch
  | Plain c => same_char nocase c ch
  end.

(** [Bracket pat items rest]: the text [pat] after an opening bracket consists of
    [items] and the closing bracket, and [rest] follows; a bracket that is never closed
    ends with the pattern. *)
Inductive Bracket : list Z -> list item -> list Z -> Prop :=
| bracket_end : Bracket [] [] []
| bracket_close rest : Bracket (93 :: rest) [] rest
| bracket_escape c pat items rest :
    Bracket pat items rest -> Bracket (92 :: c :: pat) (Escaped c :: items) rest
| bracket_span a b pat items rest :
    a ≠ 92 -> a ≠ 93 -> Bracket pat items rest ->
    Bracket (a :: 45 :: b :: pat) (Span a b :: items) rest
| bracket_plain c pat items rest :
    c ≠ 93 -> (c = 92 -> pat = []) -> ~ (exists b tl, pat = 45 :: b :: tl) ->
    Bracket pat items rest -> Bracket (c :: pat) (Plain c :: items) rest.

(** [Elem pat ch rest]: the first element of [pat], not a star, matches the character
    [ch], and [rest] is the pattern after it. *)
Inductive Elem (nocase : bool) : list Z -> Z -> list Z -> Prop :=
| elem_any pat ch : Elem nocase (63 :: pat) ch pat
| elem_class pat ch items rest :
    head pat ≠ Some 94 -> Bracket pat items rest -> Exists (item_matches nocase ch) items ->
    Elem nocase (91 :: pat) ch rest
| elem_not_class pat ch items rest :
    Bracket pat items rest -> ~ Exists (item_matches nocase ch) items ->
    Elem nocase (91 :: 94 :: pat) ch rest
| elem_escape c pat ch : same_char nocase c ch -> Elem nocase (92 :: c :: pat) ch pat
| elem_literal c pat ch :
    c ≠ 42 -> c ≠ 63 -> c ≠ 91 -> (c = 92 -> pat = []) -> same_char nocase c ch ->
    Elem nocase (c :: pat) ch pat.

(** [Matches pat str]: a star matches any run of characters, every other element one. *)
Inductive Matches (nocase : bool) : list Z -> list Z -> Prop :=
| matches_nil : Matches nocase [] []
| matches_star pat run str : Matches nocase pat str -> Matches nocase (42 :: pat) (run ++ str)
| matches_elem pat ch rest str :
    Elem nocase pat ch rest -> Matches nocase rest str -> Matches nocase pat (ch :: str).

(** ** The matcher on the list of pattern bytes

    One pattern element against one character: the answer and the pattern that
    remains, with the tests of the code.  A step between the code and [Matches]. *)

(** Inside a bracket: an escape, the closing bracket, a range, a plain character; a
    bracket that is never closed ends with the pattern. *)
Fixpoint class_match (nocase : bool) (pat : list Z) (ch : Z) (matched : bool) : bool * list Z :=
  match pat with
  | [] => (matched, [])
  | c :: pat1 =>
    let plain := class_match nocase pat1 ch (if char_eq nocase c ch then true else matched) in
    match pat1 with
    | [] => if c =? 93 then (matched, []) else plain
    | d :: pat2 =>
      if c =? 92 then class_match nocase pat2 ch (if d =? ch then true else matched)
      else if c =? 93 then (matched, pat1)
      else
        match pat2 with
        | [] => plain
        | e :: pat3 =>
          if d =? 45
          then class_match nocase pat3 ch (if in_range nocase c e ch then true else matched)
          else plain
        end
    end
  end.

Definition elem_match (nocase : bool) (pat : list Z) (ch : Z) : bool * list Z :=
  match pat with
  | [] => (false, [])
  | c :: rest =>
    if c =? 63 then (true, rest)
    else if c =? 91 then
      match rest with
      | [] => class_match nocase [] ch false
      | d :: rest' =>
        if d =? 94 then let '(m, rest) := class_match nocase rest' ch false in (negb m, rest)
        else class_match nocase rest ch false
      end
    else
      match rest with
      | [] => (char_eq nocase c ch, [])
      | d :: rest' => if c =? 92 then (char_eq nocase d ch, rest') else (char_eq nocase c ch, rest)
      end
  end.

(** [Follows pat str]: a star matches any run of characters, every other element one. *)
Inductive Follows (nocase : bool) : list Z -> list Z -> Prop :=
| follows_nil : Follows nocase [] []
| follows_star pat run str : Follows nocase pat str -> Follows nocase (42 :: pat) (run ++ str)
| follows_elem c pat ch pat' str :
    c ≠ 42 -> elem_match nocase (c :: pat) ch = (true, pat') -> Follows nocase pat' str ->
    Follows nocase (c :: pat) (ch :: str).

Fixpoint drop_stars (pat : list Z) : list Z :=
  match pat with
  | [] => []
  | c :: pat' => if c =? 42 then drop_stars pat' else pat
  end.

(** The number of stars bounds the recursion depth. *)
Definition stars (pat : list Z) : nat := length (filter (.= 42) pat).

(** Reading the pattern buffer at, one and two bytes after the offset. *)
Lemma getb_at (pre l : list Z) i p : p = zlen pre + i -> 0 <= i -> getb (pre ++ l) p = getb l i.
Proof. intros -> Hi. by apply getb_app_r. Qed.

Section correct.
Context (junk : list Z) (nocase : bool).

(** The pattern offset [p] and length [plen] point at [pat] in the buffer. *)
Definition at_pat (pb : list Z) (p plen : Z) (pat : list Z) : Prop :=
  exists pre, pb = pre ++ pat ++ 0 :: junk /\ p = zlen pre /\ plen = zlen pat.

Lemma at_pat_tail pb p plen c pat :
  at_pat pb p plen (c :: pat) -> at_pat pb (p + 1) (plen - 1) pat.
Proof.
  intros (pre & -> & -> & ->). exists (pre ++ [c]). rewrite <- app_assoc.
  split_and!; [done|len_lia|rewrite zlen_cons; lia].
Qed.

Lemma at_pat_get pb p plen pat :
  at_pat pb p plen pat -> getb pb p = Some (default 0 (head pat)).
Proof. intros (pre & -> & -> & _). destruct pat; simpl; by rewrite getb_mid. Qed.

Lemma at_pat_get1 pb p plen c pat :
  at_pat pb p plen (c :: pat) -> getb pb (p + 1) = Some (default 0 (head pat)).
Proof. intros H. eapply at_pat_get, at_pat_tail, H. Qed.

Lemma at_pat_len pb p plen pat : at_pat pb p plen pat -> plen = zlen pat.
Proof. by intros (pre & _ & _ & ?). Qed.

(** The next turn of the bracket loop starts at a shorter pattern. *)
Ltac class_rec IH fuel Hat Hc :=
  cbn [mbind option_bind];
  destruct (fun H1 H2 => IH _ _ _ _ _ _ fuel H1 H2 Hat Hc) as (p' & plen' & ? & ? & ?);
  [simpl in *; lia|simpl in *; lia|];
  exists p', plen'; split; [done|]; split; [done|]; simpl in *; lia.

(** The loop over a bracket follows [class_match]. *)
Lemma class_loop_spec pb ch n : forall pat p plen matched m rest fuel,
  (length pat <= n)%nat -> (length pat < fuel)%nat -> at_pat pb p plen pat ->
  class_match nocase pat ch matched = (m, rest) ->
  exists p' plen', loop fuel (class_body pb nocase ch) (matched, p, plen) = Some (m, p', plen') /\
    at_pat pb (p' + 1) (plen' - 1) rest /\ (length rest <= length pat)%nat.
Proof.
  induction n as [|n IH]; intros pat p plen matched m rest fuel Hn Hf Hat Hc;
    (destruct fuel as [|fuel]; [lia|]); cbn [loop]; unfold class_body at 1;
    rewrite (at_pat_get _ _ _ _ Hat); cbn [mbind option_bind];
    pose proof (at_pat_len _ _ _ _ Hat) as Hpl.
  - destruct pat; [|simpl in Hn; lia]. simpl in Hc |- *. injection Hc as <- <-. subst plen.
    eexists _, _. split; [done|]. split; [|done].
    replace (p - 1 + 1) with p by lia. exact Hat.
  - destruct pat as [|c pat1].
    { simpl in Hc |- *. injection Hc as <- <-. subst plen.
      eexists _, _. split; [done|]. split; [|done].
      replace (p - 1 + 1) with p by lia. exact Hat. }
    pose proof (at_pat_tail _ _ _ _ _ Hat) as Hat1. simpl default.
    simpl length in Hn, Hf. rewrite zlen_cons in Hpl.
    destruct pat1 as [|d pat2].
    { change (zlen []) with 0 in Hpl. assert (plen = 1) as -> by lia.
      replace ((c =? 92) && (1 >=? 2)) with false by (by rewrite andb_false_r).
      cbn [class_match] in Hc. destruct (c =? 93).
      - injection Hc as <- <-. eexists _, _. split; [done|]. split; [done|]. simpl. lia.
      - change (1 =? 0) with false. change (1 >=? 3) with false.
        class_rec IH fuel Hat1 Hc. }
    rewrite zlen_cons in Hpl. pose proof (zlen_nonneg pat2).
    replace (plen >=? 2) with true by lia. rewrite andb_true_r.
    cbn [class_match] in Hc. fold (class_match nocase) in Hc.
    destruct (c =? 92).
    { rewrite (at_pat_get1 _ _ _ _ _ Hat). simpl default. class_rec IH fuel (at_pat_tail _ _ _ _ _ Hat1) Hc. }
    destruct (c =? 93).
    { injection Hc as <- <-. eexists _, _. split; [done|]. split; [done|]. simpl. lia. }
    replace (plen =? 0) with false by lia.
    destruct pat2 as [|e pat3].
    { change (zlen []) with 0 in Hpl. replace (plen >=? 3) with false by lia.
      class_rec IH fuel Hat1 Hc. }
    rewrite zlen_cons in Hpl. pose proof (zlen_nonneg pat3).
    replace (plen >=? 3) with true by lia.
    rewrite (at_pat_get1 _ _ _ _ _ Hat). simpl default. cbn [mbind option_bind].
    destruct (d =? 45).
    { pose proof (at_pat_tail _ _ _ _ _ Hat1) as Hat2. replace (p + 1 + 1) with (p + 2) in Hat2 by lia.
      rewrite (at_pat_get _ _ _ _ Hat2). simpl default. cbn [mbind option_bind].
      replace (plen - 2 - 1) with (plen - 1 - 1 - 1) by lia.
      class_rec IH fuel (at_pat_tail _ _ _ _ _ Hat2) Hc. }
    class_rec IH fuel Hat1 Hc.
Qed.

Lemma match_one_spec pb p plen c pat ch m rest :
  at_pat pb p plen (c :: pat) -> elem_match nocase (c :: pat) ch = (m, rest) ->
  exists p' plen', match_one pb nocase p plen ch = Some (m, p', plen') /\
    at_pat pb (p' + 1) (plen' - 1) rest /\ (length rest <= length pat)%nat.
Proof.
  intros Hat He. unfold match_one. rewrite (at_pat_get _ _ _ _ Hat). simpl default.
  pose proof (at_pat_tail _ _ _ _ _ Hat) as Hat1.
  pose proof (at_pat_len _ _ _ _ Hat) as Hpl. rewrite zlen_cons in Hpl.
  cbn [mbind option_bind]. cbn [elem_match] in He.
  destruct (c =? 63); [injection He as <- <-; eauto|].
  destruct (c =? 91).
  - rewrite (at_pat_get _ _ _ _ Hat1). cbn [mbind option_bind].
    destruct pat as [|d pat].
    + simpl default. change (0 =? 94) with false. cbn iota zeta.
      destruct (class_loop_spec pb ch 0 [] _ _ false m rest (S (S (Z.to_nat (plen - 1))))
                  ltac:(done) ltac:(simpl; lia) Hat1 He) as (p' & plen' & -> & H1 & H2).
      simpl. eauto.
    + simpl default. destruct (d =? 94).
      * destruct (class_match nocase pat ch false) as [m' rest'] eqn:Ec. injection He as <- <-.
        rewrite zlen_cons in Hpl.
        destruct (class_loop_spec pb ch (length pat) pat _ _ false m' rest'
                    (S (S (Z.to_nat (plen - 1 - 1)))) ltac:(done) ltac:(unfold zlen in Hpl; lia)
                    (at_pat_tail _ _ _ _ _ Hat1) Ec) as (p' & plen' & -> & H1 & H2).
        simpl. eexists _, _. split; [done|]. split; [done|]. lia.
      * destruct (class_loop_spec pb ch (length (d :: pat)) (d :: pat) _ _ false m rest
                    (S (S (Z.to_nat (plen - 1)))) ltac:(done) ltac:(unfold zlen in Hpl; lia)
                    Hat1 He) as (p' & plen' & -> & H1 & H2).
        simpl. eauto.
  - destruct pat as [|d pat].
    + change (zlen []) with 0 in Hpl. replace (plen >=? 2) with false by lia.
      rewrite andb_false_r, (at_pat_get _ _ _ _ Hat). simpl. injection He as <- <-. eauto.
    + rewrite zlen_cons in Hpl. pose proof (zlen_nonneg pat).
      replace (plen >=? 2) with true by lia. rewrite andb_true_r.
      destruct (c =? 92); injection He as <- <-.
      * rewrite (at_pat_get _ _ _ _ Hat1). simpl. eexists _, _. split; [done|].
        split; [by eapply at_pat_tail|lia].
      * rewrite (at_pat_get _ _ _ _ Hat). simpl. eauto.
Qed.

(** ** Runs of stars *)

Lemma skip_stars_spec pb pat : forall p plen fuel,
  at_pat pb p plen (42 :: pat) -> (length pat < fuel)%nat ->
  exists p' plen', loop fuel (skip_stars_body pb) (p, plen) = Some (p', plen') /\
    at_pat pb p' plen' (42 :: drop_stars pat).
Proof.
  induction pat as [|c pat IH]; intros p plen fuel Hat Hf;
    (destruct fuel as [|fuel]; [simpl in Hf; lia|]); cbn [loop]; unfold skip_stars_body at 1;
    pose proof (at_pat_len _ _ _ _ Hat) as Hpl; rewrite zlen_cons in Hpl.
  - change (zlen []) with 0 in Hpl. replace (plen =? 0) with false by lia.
    rewrite (at_pat_get1 _ _ _ _ _ Hat). simpl. eauto.
  - pose proof (zlen_nonneg (c :: pat)). replace (plen =? 0) with false by lia.
    rewrite (at_pat_get1 _ _ _ _ _ Hat). simpl default. cbn [mbind option_bind drop_stars].
    destruct (c =? 42) eqn:E; [|eauto].
    assert (c = 42) as -> by lia.
    apply IH; [by eapply at_pat_tail|simpl in Hf; lia].
Qed.

Lemma tail_stars_spec pb pat : forall p plen fuel,
  at_pat pb p plen pat -> (length pat < fuel)%nat ->
  exists p' plen', loop fuel (tail_stars_body pb) (p, plen) = Some (p', plen') /\
    at_pat pb p' plen' (drop_stars pat).
Proof.
  induction pat as [|c pat IH]; intros p plen fuel Hat Hf;
    (destruct fuel as [|fuel]; [simpl in Hf; lia|]); cbn [loop]; unfold tail_stars_body at 1;
    rewrite (at_pat_get _ _ _ _ Hat); simpl default; cbn [mbind option_bind drop_stars].
  - simpl. eauto.
  - destruct (c =? 42) eqn:E; [|eauto].
    apply IH; [by eapply at_pat_tail|simpl in Hf; lia].
Qed.
End correct.

(** ** The specification, inverted *)

Section spec.
Context (nocase : bool).
Local Abbreviation M := (Follows nocase).

Lemma follows_star_iff pat s : M (42 :: pat) s <-> exists run t, s = run ++ t /\ M pat t.
Proof.
  split.
  - intros H. inversion H; subst; [by eauto|done].
  - intros (run & t & -> & H). by constructor.
Qed.

Lemma follows_drop_stars pat s : M (42 :: pat) s <-> M (42 :: drop_stars pat) s.
Proof.
  revert s. induction pat as [|c pat IH]; intros s; simpl; [done|].
  destruct (c =? 42) eqn:E; [|done]. assert (c = 42) as -> by lia.
  rewrite <- IH, !follows_star_iff. split.
  - intros (r & t & -> & H). apply follows_star_iff in H as (r' & t' & -> & H).
    exists (r ++ r'), t'. by rewrite app_assoc.
  - intros (r & t & -> & H). exists r, t. split; [done|]. by apply (follows_star nocase pat []).
Qed.

Lemma follows_empty pat : M pat [] <-> drop_stars pat = [].
Proof.
  induction pat as [|c pat IH]; simpl.
  - split; [done|]. constructor.
  - destruct (c =? 42) eqn:E.
    + assert (c = 42) as -> by lia. rewrite follows_star_iff, <- IH. split.
      * intros (r & t & Hs & H). by destruct r, t.
      * intros H. by exists [], [].
    + split; [|done]. intros H. inversion H; subst; lia.
Qed.

Lemma follows_elem_iff c pat ch m rest s :
  c ≠ 42 -> elem_match nocase (c :: pat) ch = (m, rest) ->
  M (c :: pat) (ch :: s) <-> m = true /\ M rest s.
Proof.
  intros Hc He. split.
  - intros H. inversion H; subst; [done|]. rewrite He in *. by simplify_eq.
  - intros [-> H]. by econstructor.
Qed.

Lemma drop_stars_head pat c q : drop_stars pat = c :: q -> c ≠ 42.
Proof.
  induction pat as [|d pat IH]; simpl; [done|]. destruct (d =? 42) eqn:E; [done|].
  intros [= -> ->]. lia.
Qed.

Lemma drop_stars_length pat : (length (drop_stars pat) <= length pat)%nat.
Proof. induction pat as [|d pat IH]; simpl; [done|]. destruct (d =? 42); simpl; lia. Qed.

(** What remains of a pattern after one element is a suffix of it. *)
Lemma class_match_suffix n : forall pat ch m,
  (length pat <= n)%nat -> (class_match nocase pat ch m).2 `suffix_of` pat.
Proof.
  induction n as [|n IH]; intros pat ch m Hn.
  { destruct pat; [done|simpl in Hn; lia]. }
  destruct pat as [|c pat1]; [done|]. simpl in Hn. cbn [class_match].
  destruct pat1 as [|d pat2].
  { destruct (c =? 93); apply suffix_nil. }
  destruct (c =? 92).
  { do 2 apply suffix_cons_r. apply IH. simpl in Hn. lia. }
  destruct (c =? 93); [by apply suffix_cons_r|].
  destruct pat2 as [|e pat3].
  { apply suffix_cons_r, IH. lia. }
  destruct (d =? 45).
  { do 3 apply suffix_cons_r. apply IH. simpl in Hn. lia. }
  apply suffix_cons_r, IH. lia.
Qed.

Lemma elem_match_suffix c pat ch : (elem_match nocase (c :: pat) ch).2 `suffix_of` pat.
Proof.
  cbn [elem_match]. destruct (c =? 63); [done|]. destruct (c =? 91).
  - destruct pat as [|d pat]; [apply suffix_nil|]. destruct (d =? 94).
    + pose proof (class_match_suffix _ pat ch false (Nat.le_refl _)) as H.
      destruct (class_match nocase pat ch false). by apply suffix_cons_r.
    + by apply (class_match_suffix (length (d :: pat))).
  - destruct pat as [|d pat]; [done|]. destruct (c =? 92); [by apply suffix_cons_r|done].
Qed.

(** The end of an element does not depend on the character it is tried on. *)
Lemma class_match_rest n : forall pat ch ch' m m',
  (length pat <= n)%nat ->
  (class_match nocase pat ch m).2 = (class_match nocase pat ch' m').2.
Proof.
  induction n as [|n IH]; intros pat ch ch' m m' Hn.
  { destruct pat; [done|simpl in Hn; lia]. }
  destruct pat as [|c [|d pat2]]; [done|by simpl; destruct (c =? 93)|].
  simpl in Hn. cbn [class_match]. destruct (c =? 92); [apply IH; lia|].
  destruct (c =? 93); [done|].
  destruct pat2 as [|e pat3]; [apply (IH [d]); simpl; lia|].
  destruct (d =? 45); [apply IH|apply (IH (d :: e :: pat3))]; simpl in *; lia.
Qed.

Lemma elem_match_rest c pat ch ch' m m' r r' :
  elem_match nocase (c :: pat) ch = (m, r) -> elem_match nocase (c :: pat) ch' = (m', r') -> r' = r.
Proof.
  cbn [elem_match]. intros H H'.
  destruct (c =? 63); [by simplify_eq|]. destruct (c =? 91).
  - destruct pat as [|d pat]; [by simplify_eq/=|]. destruct (d =? 94).
    + pose proof (class_match_rest _ pat ch ch' false false (Nat.le_refl _)) as E.
      destruct (class_match nocase pat ch false), (class_match nocase pat ch' false).
      by simplify_eq/=.
    + pose proof (class_match_rest _ (d :: pat) ch ch' false false (Nat.le_refl _)) as E.
      rewrite H, H' in E. by simplify_eq/=.
  - destruct pat as [|d pat]; [by simplify_eq|]. destruct (c =? 92); by simplify_eq.
Qed.

Lemma stars_suffix p q : p `suffix_of` q -> (stars p <= stars q)%nat.
Proof. intros [k ->]. unfold stars. rewrite filter_app, length_app. lia. Qed.

Lemma stars_drop_stars pat : (stars (drop_stars pat) <= stars pat)%nat.
Proof.
  apply stars_suffix. induction pat as [|d pat IH]; simpl; [done|].
  destruct (d =? 42); [by apply suffix_cons_r|done].
Qed.
End spec.

(** ** The matcher *)

Section matcher.
Context (pb sb junk sjunk : list Z) (nocase : bool).
Local Abbreviation M := (Follows nocase).

Definition at_str (s slen : Z) (str : list Z) : Prop :=
  exists pre, sb = pre ++ str ++ sjunk /\ s = zlen pre /\ slen = zlen str.

Lemma at_str_tail s slen c str : at_str s slen (c :: str) -> at_str (s + 1) (slen - 1) str.
Proof.
  intros (pre & -> & -> & ->). exists (pre ++ [c]). rewrite <- app_assoc.
  split_and!; [done|len_lia|rewrite zlen_cons; lia].
Qed.

(** What a call of the matcher on [pat] and [str] promises: the answer is right, and
    a set skip flag says that no suffix of the string matches either. *)
Definition promise (pat str : list Z) (r : option (bool * bool)) : Prop :=
  exists b sk, r = Some (b, sk) /\ (b = true <-> M pat str) /\
    (b = false -> sk = true -> forall t, t `suffix_of` str -> ~ M pat t).

Lemma suffix_cons_cases (t str : list Z) c :
  t `suffix_of` c :: str -> t = c :: str \/ t `suffix_of` str.
Proof.
  destruct t; intros H; [right; apply suffix_nil|]. by apply suffix_cons_inv in H.
Qed.

Lemma star_loop_spec q rec str : forall s slen n,
  ~ M q [] ->
  (forall s slen t, t ≠ [] -> at_str s slen t -> promise q t (rec s slen false)) ->
  at_str s slen str -> (length str < n)%nat ->
  exists b sk, star_loop rec n s slen false = Some (b, sk) /\
    (b = true <-> exists t, t `suffix_of` str /\ M q t).
Proof.
  induction str as [|c str IH]; intros s slen n Hnil Hrec Hat Hn;
    (destruct n as [|n]; [simpl in Hn; lia|]); cbn [star_loop];
    pose proof Hat as (pre & _ & _ & Hsl).
  - rewrite Hsl. change (zlen []) with 0. change (0 =? 0) with true. cbn iota.
    eexists _, _. split; [done|]. split; [done|].
    intros (t & Ht & Hm). apply suffix_nil_inv in Ht as ->. done.
  - rewrite zlen_cons in Hsl. pose proof (zlen_nonneg str).
    replace (slen =? 0) with false by lia.
    destruct (Hrec s slen (c :: str) ltac:(done) Hat) as (b & sk & -> & Hb & Hsk).
    cbn [mbind option_bind]. destruct b.
    { eexists _, _. split; [done|]. split; [|done]. intros _.
      exists (c :: str). split; [done|]. by apply Hb. }
    destruct sk.
    { eexists _, _. split; [done|]. split; [done|]. intros (t & Ht & Hm).
      by destruct (Hsk eq_refl eq_refl t Ht). }
    destruct (IH _ _ n Hnil Hrec (at_str_tail _ _ _ _ Hat)) as (b & sk & -> & Hiff);
      [simpl in Hn; lia|].
    eexists _, _. split; [done|]. rewrite Hiff. split.
    + intros (t & Ht & Hm). exists t. split; [by apply suffix_cons_r|done].
    + intros (t & Ht & Hm). apply suffix_cons_cases in Ht as [->|Ht]; [|by exists t].
      apply Hb in Hm. discriminate.
Qed.

Lemma follows_star_suffix pat str :
  M (42 :: pat) str <-> exists t, t `suffix_of` str /\ M pat t.
Proof.
  rewrite follows_star_iff. split.
  - intros (run & t & -> & H). exists t. split; [by exists run|done].
  - intros (t & [run ->] & H). eauto.
Qed.

Lemma at_str_get s slen c str : at_str s slen (c :: str) -> getb sb s = Some c.
Proof. intros (pre & -> & -> & _). simpl. by rewrite getb_mid. Qed.

(** The star: the recursive calls decide whether a suffix matches the rest. *)
Lemma star_case pat str (rec : Z -> Z -> Z -> Z -> bool -> option (bool * bool)) p plen s slen :
  at_pat junk pb p plen (42 :: pat) -> at_str s slen str -> str ≠ [] ->
  (forall p plen s slen t, drop_stars pat ≠ [] -> t ≠ [] -> at_pat junk pb p plen (drop_stars pat) ->
     at_str s slen t -> promise (drop_stars pat) t (rec p plen s slen false)) ->
  promise (42 :: pat) str
    ('(p, plen) ← loop (S (Z.to_nat plen)) (skip_stars_body pb) (p, plen);
     if plen =? 1 then Some (true, false)
     else star_loop (rec (p + 1) (plen - 1)) (S (Z.to_nat slen)) s slen false).
Proof.
  intros Hp Hs Hne Hrec. pose proof (at_pat_len _ _ _ _ _ Hp) as Hpl. rewrite zlen_cons in Hpl.
  destruct (skip_stars_spec junk pb pat p plen (S (Z.to_nat plen)) Hp) as (p' & plen' & -> & Hp').
  { unfold zlen in Hpl. lia. }
  cbn [mbind option_bind]. pose proof (at_pat_len _ _ _ _ _ Hp') as Hpl'. rewrite zlen_cons in Hpl'.
  unfold promise. setoid_rewrite (follows_drop_stars nocase pat).
  destruct (drop_stars pat) as [|c q] eqn:Eq.
  { change (zlen []) with 0 in Hpl'. replace (plen' =? 1) with true by lia.
    eexists _, _. split; [done|]. split; [|done]. split; [|done]. intros _.
    rewrite follows_star_suffix. exists []. split; [apply suffix_nil|constructor]. }
  rewrite zlen_cons in Hpl'. pose proof (zlen_nonneg q). replace (plen' =? 1) with false by lia.
  assert (~ M (c :: q) []) as Hnil.
  { rewrite follows_empty. simpl. apply drop_stars_head in Eq.
    by replace (c =? 42) with false by lia. }
  destruct (star_loop_spec (c :: q) (rec (p' + 1) (plen' - 1)) str s slen (S (Z.to_nat slen)) Hnil)
    as (b & sk & -> & Hiff); [|done|destruct Hs as (? & _ & _ & ->); unfold zlen; lia|].
  { intros s' slen' t Ht Hat. apply Hrec; [done|done| |done].
    by apply (at_pat_tail junk pb p' plen' 42). }
  eexists _, _. split; [done|]. rewrite follows_star_suffix. split; [done|].
  intros -> _ t Ht Hm. rewrite follows_star_suffix in Hm. destruct Hm as (t' & Ht' & Hm).
  assert (false = true) by (apply Hiff; exists t'; split; [by etrans|done]). done.
Qed.

(** One element against one character, more string to come. *)
Lemma elem_case c pat ch rest str r :
  c ≠ 42 -> elem_match nocase (c :: pat) ch = (true, rest) -> promise rest str r ->
  promise (c :: pat) (ch :: str) r.
Proof.
  intros Hc Em (b & sk & -> & Hb & Hsk).
  pose proof (fun s => follows_elem_iff nocase c pat ch true rest s Hc Em) as Hiff.
  eexists _, _. split; [done|]. rewrite Hb, Hiff. split; [by split; [|intros [??]]|].
  intros Hbf Hskt t Ht Hm. apply suffix_cons_cases in Ht as [->|Ht].
  { apply Hiff in Hm as [_ Hm]. apply Hb in Hm. congruence. }
  destruct t as [|x t].
  { apply follows_empty in Hm. simpl in Hm. by replace (c =? 42) with false in Hm by lia. }
  assert (t `suffix_of` str) as Ht' by (etrans; [by apply suffix_cons_r|done]).
  apply (Hsk Hbf Hskt t Ht').
  destruct (elem_match nocase (c :: pat) x) as [mx restx] eqn:Ex.
  assert (restx = rest) as -> by eauto using elem_match_rest.
  by apply (follows_elem_iff nocase c pat x mx rest t Hc Ex) in Hm as [_ ?].
Qed.

(** One element against the last character: only stars may remain. *)
Lemma last_elem_case c pat ch rest p plen :
  c ≠ 42 -> elem_match nocase (c :: pat) ch = (true, rest) -> at_pat junk pb p plen rest ->
  promise (c :: pat) [ch]
    ('(p, plen) ← loop (S (S (Z.to_nat plen))) (tail_stars_body pb) (p, plen);
     Some ((plen =? 0) && true, false)).
Proof.
  intros Hc Em Hp. pose proof (at_pat_len _ _ _ _ _ Hp) as Hpl.
  destruct (tail_stars_spec junk pb rest _ _ (S (S (Z.to_nat plen))) Hp)
    as (p2 & plen2 & -> & Hp2); [unfold zlen in Hpl; lia|].
  cbn [mbind option_bind]. pose proof (at_pat_len _ _ _ _ _ Hp2) as Hpl2.
  eexists _, _. split; [done|].
  rewrite andb_true_r, (follows_elem_iff nocase c pat ch true rest [] Hc Em), follows_empty, Hpl2.
  split; [|done]. split; [|by intros [_ ->]].
  intros Hz. split; [done|]. destruct (drop_stars rest) as [|x l]; [done|].
  rewrite zlen_cons in Hz. pose proof (zlen_nonneg l). lia.
Qed.

Lemma glob_loop_spec fuel : forall pat str p plen s slen nesting,
  (length pat < fuel)%nat -> nesting + Z.of_nat (stars pat) <= 1000 -> str ≠ [] ->
  at_pat junk pb p plen pat -> at_str s slen str ->
  promise pat str (glob_loop pb sb nocase fuel p plen s slen false nesting).
Proof.
  induction fuel as [|fuel IH]; intros pat str p plen s slen nesting Hf Hst Hne Hp Hs; [lia|].
  cbn [glob_loop].
  pose proof (at_pat_len _ _ _ _ _ Hp) as Hpl. pose proof Hs as (spre & _ & _ & Hsl).
  destruct str as [|ch str]; [done|]. rewrite zlen_cons in Hsl. pose proof (zlen_nonneg str).
  replace (slen =? 0) with false by lia. rewrite andb_true_r.
  destruct pat as [|c pat].
  { rewrite Hpl. change (zlen []) with 0. simpl. eexists _, _. split; [done|].
    split; [|done]. split; [done|]. intros Hm. inversion Hm. }
  rewrite zlen_cons in Hpl. pose proof (zlen_nonneg pat). replace (plen =? 0) with false by lia.
  simpl negb. cbn iota. rewrite (at_pat_get _ _ _ _ _ Hp). simpl default. cbn [mbind option_bind].
  destruct (c =? 42) eqn:Ec.
  - assert (c = 42) as -> by lia.
    assert (stars (42 :: pat) = S (stars pat)) as Hst1 by done.
    pose proof (stars_drop_stars pat). pose proof (drop_stars_length pat). simpl in Hf.
    apply (star_case pat (ch :: str) (fun p plen s slen skip =>
      if nesting + 1 >? 1000 then Some (false, skip)
      else glob_loop pb sb nocase fuel p plen s slen skip (nesting + 1))); [done|done|done|].
    intros p1 plen1 s1 slen1 t Hq Ht Hp1 Hs1.
    replace (nesting + 1 >? 1000) with false by lia.
    apply IH; [lia|lia|done|done|done].
  - rewrite (at_str_get _ _ _ _ Hs). cbn [mbind option_bind].
    destruct (elem_match nocase (c :: pat) ch) as [m rest] eqn:Em.
    assert (c ≠ 42) as Hc by lia.
    destruct (match_one_spec junk nocase pb p plen c pat ch m rest Hp Em)
      as (p' & plen' & -> & Hp' & Hlr).
    cbn [mbind option_bind].
    destruct m; simpl negb; cbn iota; cycle 1.
    { eexists _, _. split; [done|]. rewrite (follows_elem_iff nocase c pat ch false rest str Hc Em).
      split; [|done]. by split; [|intros [??]]. }
    pose proof (at_str_tail _ _ _ _ Hs) as Hs'.
    assert (stars rest <= stars pat)%nat as Hsr.
    { apply stars_suffix. pose proof (elem_match_suffix nocase c pat ch) as Hsuf.
      by rewrite Em in Hsuf. }
    assert (stars (c :: pat) = stars pat) as Hsc.
    { unfold stars. rewrite filter_cons. by case_decide. }
    destruct (slen - 1 =? 0) eqn:E1.
    + assert (str = []) as -> by (destruct str; [done|rewrite zlen_cons in *; pose proof (zlen_nonneg str); lia]).
      by apply last_elem_case with (rest := rest).
    + assert (str ≠ []) as Hne' by (intros ->; change (zlen []) with 0 in *; lia).
      simpl in Hf. apply elem_case with (rest := rest); [done|done|].
      apply IH; [lia|lia|done|done|done].
Qed.
End matcher.

(** A byte as a signed [char]. *)
Lemma schar_cases b : is_byte b -> schar b = if b <? 128 then b else b - 256.
Proof.
  intros Hb. unfold is_byte in Hb. unfold schar. destruct (b <? 128) eqn:E.
  - apply wraps_small; simpl; lia.
  - unfold wraps. change (2 ^ (8 - 1)) with 128. change (2 ^ 8) with 256.
    rewrite (Z.mod_eq (b + 128)) by lia.
    replace ((b + 128) / 256) with 1 by (apply Z.div_unique with (r := b - 128); lia). lia.
Qed.

(** ** The tests of the code decide the declarative relation *)

Section tests.
Context (nocase : bool).

Lemma char_eq_spec a b :
  is_byte a -> is_byte b -> char_eq nocase a b = true <-> same_char nocase a b.
Proof.
  unfold is_byte, char_eq, same_char, same_letter, upper, lower. intros Ha Hb.
  destruct nocase; simpl negb; cbn iota; [|split; [intros; left; lia|intros [->|[? _]]; [lia|done]]].
  rewrite Z.eqb_eq, !schar_cases by done. unfold tolower. split.
  - intros E. destruct (decide (a = b)) as [->|Hne]; [by left|]. right. split; [done|].
    exists (if a <=? 90 then a - 65 else a - 97). repeat case_match; lia.
  - intros [->|[_ (k & Hk & [->| ->] & [->| ->])]]; [done|..]; repeat case_match; lia.
Qed.

Lemma folded_tolower c d : folded nocase c d <-> d = if nocase then tolower c else c.
Proof.
  unfold folded, tolower, upper, lower. destruct nocase.
  - split.
    + intros [[_ (k & Hk & -> & ->)]|[-> Hn]]; [case_match; lia|].
      case_match; [|done]. destruct Hn. split; [done|]. exists (d - 65). lia.
    + intros ->. case_match; [left|right]; (split; [done|]).
      * exists (c - 65). lia.
      * intros [_ (k & Hk & ->)]. lia.
  - split; [by intros [[? _]|[-> _]]|]. intros ->. right. split; [done|]. by intros [? _].
Qed.

Lemma char_value_schar b v : is_byte b -> char_value b v <-> v = schar b.
Proof. unfold is_byte, char_value. intros Hb. rewrite schar_cases by done. case_match; lia. Qed.

Lemma char_range_spec a b ch :
  is_byte a -> is_byte b -> is_byte ch -> in_range nocase a b ch = true <-> in_span nocase a b ch.
Proof.
  intros Ha Hb Hc. unfold in_span. setoid_rewrite char_value_schar; [|done..].
  setoid_rewrite folded_tolower. unfold in_range.
  trans (exists lo hi c, lo = (if nocase then tolower (Z.min (schar a) (schar b)) else Z.min (schar a) (schar b)) /\
          hi = (if nocase then tolower (Z.max (schar a) (schar b)) else Z.max (schar a) (schar b)) /\
          c = (if nocase then tolower (schar ch) else schar ch) /\ lo <= c <= hi);
    [|naive_solver].
  destruct (schar a >? schar b) eqn:E;
    [rewrite Z.min_r, Z.max_l by lia|rewrite Z.min_l, Z.max_r by lia];
    destruct nocase; (split; [intros H; eexists _, _, _; do 3 (split; [done|]); lia
                             |intros (lo & hi & c & -> & -> & -> & H); lia]).
Qed.

(** The bracket: the items are those of the text, and one of them decides. *)
Lemma class_match_spec ch n : forall pat m,
  is_byte ch -> Forall is_byte pat -> (length pat <= n)%nat ->
  exists items, Bracket pat items (class_match nocase pat ch m).2 /\
    ((class_match nocase pat ch m).1 = true <-> m = true \/ Exists (item_matches nocase ch) items).
Proof.
  intros pat m Hch. revert pat m. induction n as [|n IH]; intros pat m Hb Hn.
  { destruct pat; [|simpl in Hn; lia]. exists []. split; [constructor|].
    simpl. rewrite Exists_nil. tauto. }
  destruct pat as [|c pat1].
  { exists []. split; [constructor|]. simpl. rewrite Exists_nil. tauto. }
  apply Forall_cons in Hb as [Hc Hb]. simpl in Hn.
  assert (c ≠ 93 -> (c = 92 -> pat1 = []) -> ~ (exists b tl, pat1 = 45 :: b :: tl) ->
    let r := class_match nocase pat1 ch (if char_eq nocase c ch then true else m) in
    exists items, Bracket (c :: pat1) items r.2 /\
      (r.1 = true <-> m = true \/ Exists (item_matches nocase ch) items)) as Hplain.
  { intros H1 H2 H3 r. destruct (IH pat1 (if char_eq nocase c ch then true else m) Hb ltac:(lia))
      as (items & Hbr & Hiff). exists (Plain c :: items). split; [by constructor|].
    unfold r. rewrite Hiff, Exists_cons. simpl. rewrite <- char_eq_spec by done.
    destruct (char_eq nocase c ch); naive_solver. }
  cbn [class_match]. fold (class_match nocase).
  destruct pat1 as [|d pat2].
  { destruct (c =? 93) eqn:E.
    - exists []. assert (c = 93) as -> by lia. split; [constructor|].
      simpl. rewrite Exists_nil. tauto.
    - apply Hplain; [lia|done|by intros (? & ? & ?)]. }
  apply Forall_cons in Hb as [Hd Hb]. simpl in Hn.
  destruct (c =? 92) eqn:E92.
  { destruct (IH pat2 (if d =? ch then true else m) Hb ltac:(lia)) as (items & Hbr & Hiff).
    assert (c = 92) as -> by lia. exists (Escaped d :: items). split; [by constructor|].
    rewrite Hiff, Exists_cons. simpl. destruct (d =? ch) eqn:E; [naive_solver lia|].
    assert (d ≠ ch) by lia. naive_solver. }
  destruct (c =? 93) eqn:E93.
  { assert (c = 93) as -> by lia. exists []. split; [constructor|]. simpl. rewrite Exists_nil. tauto. }
  destruct pat2 as [|e pat3].
  { apply Hplain; [lia|lia|]. by intros (? & ? & ?). }
  destruct (d =? 45) eqn:E45.
  2: { apply Hplain; [lia|lia|]. intros (? & ? & [= -> ->]). lia. }
  apply Forall_cons in Hb as [He Hb]. simpl in Hn. assert (d = 45) as -> by lia.
  destruct (IH pat3 (if in_range nocase c e ch then true else m) Hb ltac:(lia)) as (items & Hbr & Hiff).
  exists (Span c e :: items). split; [constructor; [lia|lia|done]|].
  rewrite Hiff, Exists_cons. simpl. rewrite <- char_range_spec by done.
  destruct (in_range nocase c e ch); naive_solver.
Qed.

(** The items and the end of a bracket are determined by its text. *)
Lemma bracket_unique pat items rest :
  Bracket pat items rest -> forall items' rest', Bracket pat items' rest' -> items' = items /\ rest' = rest.
Proof.
  induction 1 as [|r|c pat items r Hb IH|a b pat items r Ha1 Ha2 Hb IH|c pat items r H1 H2 H3 Hb IH];
    intros items' rest' H'; inversion H'; subst; try done; try naive_solver.
Qed.

Lemma elem_match_spec c pat ch rest :
  c ≠ 42 -> is_byte ch -> Forall is_byte (c :: pat) ->
  elem_match nocase (c :: pat) ch = (true, rest) <-> Elem nocase (c :: pat) ch rest.
Proof.
  intros Hc Hch Hb. apply Forall_cons in Hb as [Hcb Hb]. cbn [elem_match].
  destruct (c =? 63) eqn:E63.
  { assert (c = 63) as -> by lia. split; [intros [= ->]; constructor|].
    intros H. by inversion H; subst. }
  destruct (c =? 91) eqn:E91.
  { assert (c = 91) as -> by lia.
    assert (head pat ≠ Some 94 ->
      class_match nocase pat ch false = (true, rest) <-> Elem nocase (91 :: pat) ch rest) as Hpos.
    { intros Hh. destruct (class_match_spec ch _ pat false Hch Hb (Nat.le_refl _)) as (items & Hbr & Hiff).
      destruct (class_match nocase pat ch false) as [m r]; simpl in Hbr, Hiff. split.
      - intros [= -> ->]. econstructor; [done|done|]. naive_solver.
      - intros H. inversion H; subst; try done.
        destruct (bracket_unique _ _ _ Hbr _ _ ltac:(eassumption)) as [-> ->]. f_equal. naive_solver. }
    destruct pat as [|d pat]; [by apply Hpos|]. destruct (d =? 94) eqn:E94.
    2: { apply Hpos. simpl. intros [= ->]. lia. }
    assert (d = 94) as -> by lia. apply Forall_cons in Hb as [_ Hb].
    destruct (class_match_spec ch _ pat false Hch Hb (Nat.le_refl _)) as (items & Hbr & Hiff).
    destruct (class_match nocase pat ch false) as [m r]; simpl in Hbr, Hiff. split.
    - intros [= Hm ->]. destruct m; [done|]. econstructor; [done|]. naive_solver.
    - intros H. inversion H; subst; try done.
      destruct (bracket_unique _ _ _ Hbr _ _ ltac:(eassumption)) as [-> ->]. f_equal.
      destruct m; [naive_solver|done]. }
  assert (c ≠ 92 \/ pat = [] ->
    (char_eq nocase c ch, pat) = (true, rest) <-> Elem nocase (c :: pat) ch rest) as Hlit.
  { intros Hesc. split.
    - intros [= Hm ->]. apply char_eq_spec in Hm; [|done..].
      apply elem_literal; [done|lia|lia| |done]. intros ->. by destruct Hesc.
    - intros H. inversion H; subst; try done; [by destruct Hesc|].
      f_equal. by apply char_eq_spec. }
  destruct pat as [|d pat]; [by apply Hlit; right|].
  destruct (c =? 92) eqn:E92; [|apply Hlit; left; lia].
  assert (c = 92) as -> by lia. apply Forall_cons in Hb as [Hd Hb]. split.
  - intros [= Hm ->]. apply elem_escape. by apply char_eq_spec.
  - intros H. inversion H; subst; [|naive_solver]. f_equal. by apply char_eq_spec.
Qed.

Lemma elem_not_star pat ch rest : Elem nocase pat ch rest -> exists c tl, pat = c :: tl /\ c ≠ 42.
Proof. inversion 1; subst; naive_solver. Qed.

Lemma elem_bytes c pat ch :
  Forall is_byte (c :: pat) -> Forall is_byte (elem_match nocase (c :: pat) ch).2.
Proof.
  intros H. apply Forall_cons in H as [_ H].
  destruct (elem_match_suffix nocase c pat ch) as [k Hk]. rewrite Hk in H.
  by apply Forall_app in H as [_ H].
Qed.

Lemma follows_matches pat str :
  Forall is_byte pat -> Forall is_byte str -> Follows nocase pat str <-> Matches nocase pat str.
Proof.
  intros Hp Hs. split; intros H.
  - induction H as [|pat run str H IH|c pat ch rest str Hc He H IH]; [constructor|..].
    + apply Forall_cons in Hp as [_ Hp]. apply Forall_app in Hs as [_ Hs]. constructor. auto.
    + apply Forall_cons in Hs as [Hch Hs]. pose proof (elem_bytes c pat ch Hp) as Hr. rewrite He in Hr.
      apply matches_elem with (rest := rest); [|auto]. by apply elem_match_spec.
  - induction H as [|pat run str H IH|pat ch rest str He H IH]; [constructor|..].
    + apply Forall_cons in Hp as [_ Hp]. apply Forall_app in Hs as [_ Hs]. constructor. auto.
    + apply Forall_cons in Hs as [Hch Hs].
      destruct (elem_not_star _ _ _ He) as (c & tl & -> & Hc).
      apply elem_match_spec in He; [|done..]. pose proof (elem_bytes c tl ch Hp) as Hr. rewrite He in Hr.
      by apply follows_elem with (pat' := rest); auto.
Qed.
End tests.

(** ** Properties *)

(** C40: for a pattern of bytes with at most 1000 stars and a non-empty string, the backtracking
    matcher terminates, stays inside both buffers and decides the declarative glob relation,
    stated apart from the tests of the code: stars, question marks, classes with ranges of
    signed characters in either order, negation and escapes, and letters equal up to case when
    the case is ignored; early exit included. *)
Theorem stringmatchlen_correct (pat str junk sjunk : list Z) (nocase : bool) :
  Forall is_byte pat -> Forall is_byte str -> (stars pat <= 1000)%nat -> str ≠ [] ->
  exists b, stringmatchlen (pat ++ 0 :: junk) (str ++ sjunk) nocase (zlen pat) (zlen str) = Some b /\
    (b = true <-> Matches nocase pat str).
Proof.
  intros Hp Hs Hst Hne. unfold stringmatchlen, stringmatchlen_impl.
  change (0 >? 1000) with false. cbn iota.
  destruct (glob_loop_spec (pat ++ 0 :: junk) (str ++ sjunk) junk sjunk nocase
              (S (S (Z.to_nat (zlen pat)))) pat str 0 (zlen pat) 0 (zlen str) 0)
    as (b & sk & -> & Hb & _); [unfold zlen; lia|lia|done|by exists []|by exists []|].
  exists b. by rewrite <- follows_matches.
Qed.

Lemma stringmatchlen_correct_witness :
  exists b, stringmatchlen [104; 42; 108; 63; 0] [104; 101; 108; 111] false 4 4 = Some b /\
    (b = true <-> Matches false [104; 42; 108; 63] [104; 101; 108; 111]).
Proof.
  apply (stringmatchlen_correct [104; 42; 108; 63] [104; 101; 108; 111] [] [] false);
    [by repeat constructor|by repeat constructor|vm_compute; lia|done].
Defined.

(** the empty string is matched by the empty pattern only, although the declarative relation
    matches it with a star. *)
Theorem stringmatchlen_empty_string (pat junk sb : list Z) (nocase : bool) :
  stringmatchlen (pat ++ 0 :: junk) sb nocase (zlen pat) 0 = Some (zlen pat =? 0) /\
  Matches nocase [42] [].
Proof.
  split.
  - unfold stringmatchlen, stringmatchlen_impl. change (0 >? 1000) with false. cbn [glob_loop].
    by rewrite !andb_false_r, !andb_true_r.
  - by apply (matches_star nocase [] [] []), matches_nil.
Qed.
