(* ===== verification/Listpack.v ===== *)
(** * Listpacks: [listpack.c]

    A listpack is one allocated block: a header (32-bit total length, 16-bit element
    count), the encoded entries and the terminator [LP_EOF]; the block may be larger
    than the total length.  The model keeps the block as the list of its bytes and
    pointers as offsets into it.  A read or write outside the block and a failed
    [assert] are [None].  Where the C code returns [NULL] the result is [Some None]. *)
From S2P Require Import Prelude Numstr.

Definition LP_HDR_SIZE := 6.
Definition LP_HDR_NUMELE_UNKNOWN := UINT16_MAX.
Definition LP_EOF := 255.
Definition LISTPACK_MAX_SAFETY_SIZE := 1073741824.

Inductive lp_where := LP_BEFORE | LP_AFTER | LP_REPLACE.

(** ** Encoding tests and lengths: the macros *)

Definition LP_ENCODING_IS_7BIT_UINT (b : Z) : bool := Z.land b 128 =? 0.
Definition LP_ENCODING_IS_6BIT_STR (b : Z) : bool := Z.land b 192 =? 128.
Definition LP_ENCODING_IS_13BIT_INT (b : Z) : bool := Z.land b 224 =? 192.
Definition LP_ENCODING_IS_12BIT_STR (b : Z) : bool := Z.land b 240 =? 224.
Definition LP_ENCODING_IS_16BIT_INT (b : Z) : bool := Z.land b 255 =? 241.
Definition LP_ENCODING_IS_24BIT_INT (b : Z) : bool := Z.land b 255 =? 242.
Definition LP_ENCODING_IS_32BIT_INT (b : Z) : bool := Z.land b 255 =? 243.
Definition LP_ENCODING_IS_64BIT_INT (b : Z) : bool := Z.land b 255 =? 244.
Definition LP_ENCODING_IS_32BIT_STR (b : Z) : bool := Z.land b 255 =? 240.

(** Bytes at [p] joined by shifts and ors, least significant first. *)
Fixpoint or_bytes (m : list Z) (p : Z) (n : nat) (shift : Z) : option Z :=
  match n with
  | O => Some 0
  | S n => b ← getb m p; r ← or_bytes m (p + 1) n (shift + 8);
           Some (Z.lor (Z.shiftl b shift) r)
  end.

Definition LP_ENCODING_6BIT_STR_LEN (m : list Z) (p : Z) : option Z :=
  b ← getb m p; Some (Z.land b 63).
Definition LP_ENCODING_12BIT_STR_LEN (m : list Z) (p : Z) : option Z :=
  b0 ← getb m p; b1 ← getb m (p + 1); Some (Z.lor (Z.shiftl (Z.land b0 15) 8) b1).
Definition LP_ENCODING_32BIT_STR_LEN (m : list Z) (p : Z) : option Z := or_bytes m (p + 1) 4 0.

Definition lpGetTotalBytes (lp : list Z) : option Z := or_bytes lp 0 4 0.
Definition lpGetNumElements (lp : list Z) : option Z := or_bytes lp 4 2 0.

Definition lpSetTotalBytes (lp : list Z) (v : Z) : option (list Z) :=
  lp ← setb lp 0 (Z.land v 255);
  lp ← setb lp 1 (Z.land (Z.shiftr v 8) 255);
  lp ← setb lp 2 (Z.land (Z.shiftr v 16) 255);
  setb lp 3 (Z.land (Z.shiftr v 24) 255).

Definition lpSetNumElements (lp : list Z) (v : Z) : option (list Z) :=
  lp ← setb lp 4 (Z.land v 255);
  setb lp 5 (Z.land (Z.shiftr v 8) 255).

Definition ASSERT_INTEGRITY (lp : list Z) (p : Z) : option unit :=
  total ← lpGetTotalBytes lp; assert_true ((p >=? LP_HDR_SIZE) && (p <? total)).

Definition ASSERT_INTEGRITY_LEN (lp : list Z) (p len : Z) : option unit :=
  total ← lpGetTotalBytes lp; assert_true ((p >=? LP_HDR_SIZE) && (p + len <? total)).

(** [lp] is [None] for a NULL listpack. *)
Definition lpSafeToAdd (lp : option (list Z)) (add : Z) : option bool :=
  len ← (if lp is Some lp then lpGetTotalBytes lp else Some 0);
  Some (negb (u64 (len + add) >? LISTPACK_MAX_SAFETY_SIZE)).

Definition lpNew `{Allocator} (capacity : Z) : option (list Z) :=
  let lp := fresh_bytes (Z.to_nat (if capacity >? LP_HDR_SIZE + 1 then capacity else LP_HDR_SIZE + 1)) in
  lp ← lpSetTotalBytes lp (LP_HDR_SIZE + 1);
  lp ← lpSetNumElements lp 0;
  setb lp LP_HDR_SIZE LP_EOF.

Definition lpShrinkToFit `{Allocator} (lp : list Z) : option (list Z) :=
  size ← lpGetTotalBytes lp;
  Some (if size <? zlen lp then mem_resize lp size else lp).

(** ** Encoding entries *)

(** The bytes written to [intenc]; [enclen] is their number. *)
Definition lpEncodeIntegerGetType (v : Z) : list Z :=
  if (v >=? 0) && (v <=? 127) then [u8 v]
  else if (v >=? -4096) && (v <=? 4095) then
    let v := if v <? 0 then Z.shiftl 1 13 + v else v in
    [u8 (Z.lor (Z.shiftr v 8) 192); u8 (Z.land v 255)]
  else if (v >=? -32768) && (v <=? 32767) then
    let v := if v <? 0 then Z.shiftl 1 16 + v else v in
    [241; u8 (Z.land v 255); u8 (Z.shiftr v 8)]
  else if (v >=? -8388608) && (v <=? 8388607) then
    let v := if v <? 0 then Z.shiftl 1 24 + v else v in
    [242; u8 (Z.land v 255); u8 (Z.land (Z.shiftr v 8) 255); u8 (Z.shiftr v 16)]
  else if (v >=? -2147483648) && (v <=? 2147483647) then
    let v := if v <? 0 then Z.shiftl 1 32 + v else v in
    [243; u8 (Z.land v 255); u8 (Z.land (Z.shiftr v 8) 255); u8 (Z.land (Z.shiftr v 16) 255);
     u8 (Z.shiftr v 24)]
  else
    let uv := u64 v in
    [244; u8 (Z.land uv 255); u8 (Z.land (Z.shiftr uv 8) 255); u8 (Z.land (Z.shiftr uv 16) 255);
     u8 (Z.land (Z.shiftr uv 24) 255); u8 (Z.land (Z.shiftr uv 32) 255);
     u8 (Z.land (Z.shiftr uv 40) 255); u8 (Z.land (Z.shiftr uv 48) 255); u8 (Z.shiftr uv 56)].

(** [inl intenc] for [LP_ENCODING_INT], [inr enclen] for [LP_ENCODING_STRING]. *)
Definition lpEncodeGetType (ele : list Z) (size : Z) : option (list Z + Z) :=
  r ← lpStringToInt64 ele size;
  match r with
  | Some v => Some (inl (lpEncodeIntegerGetType v))
  | None => Some (inr (if size <? 64 then 1 + size else if size <? 4096 then 2 + size else 5 + size))
  end.

(** The bytes written to [buf]; their number is what the function returns. *)
Definition lpEncodeBacklen (l : Z) : list Z :=
  if l <=? 127 then [u8 l]
  else if l <? 16383 then [u8 (Z.shiftr l 7); u8 (Z.lor (Z.land l 127) 128)]
  else if l <? 2097151 then
    [u8 (Z.shiftr l 14); u8 (Z.lor (Z.land (Z.shiftr l 7) 127) 128); u8 (Z.lor (Z.land l 127) 128)]
  else if l <? 268435455 then
    [u8 (Z.shiftr l 21); u8 (Z.lor (Z.land (Z.shiftr l 14) 127) 128);
     u8 (Z.lor (Z.land (Z.shiftr l 7) 127) 128); u8 (Z.lor (Z.land l 127) 128)]
  else
    [u8 (Z.shiftr l 28); u8 (Z.lor (Z.land (Z.shiftr l 21) 127) 128);
     u8 (Z.lor (Z.land (Z.shiftr l 14) 127) 128);
     u8 (Z.lor (Z.land (Z.shiftr l 7) 127) 128); u8 (Z.lor (Z.land l 127) 128)].

Definition backlen_size (l : Z) : Z := zlen (lpEncodeBacklen l).

(** The loop reads backwards; the state is [val], [shift] and [p]. *)
Definition lpDecodeBacklen_body (m : list Z) (st : Z * Z * Z) : option ((Z * Z * Z) + Z) :=
  let '(val, shift, p) := st in
  b ← getb m p;
  let val := Z.lor val (u64 (Z.shiftl (Z.land b 127) shift)) in
  if Z.land b 128 =? 0 then Some (inr val)
  else
    let shift := shift + 7 in
    let p := p - 1 in
    if shift >? 28 then Some (inr UINT64_MAX) else Some (inl (val, shift, p)).

Definition lpDecodeBacklen (m : list Z) (p : Z) : option Z :=
  loop 6 (lpDecodeBacklen_body m) (0, 0, p).

(** What [lpEncodeString] writes at [buf]. *)
Definition lpEncodeString_bytes (s : list Z) (len : Z) : list Z :=
  if len <? 64 then [u8 (Z.lor len 128)] ++ take (Z.to_nat len) s
  else if len <? 4096 then
    [u8 (Z.lor (Z.shiftr len 8) 224); u8 (Z.land len 255)] ++ take (Z.to_nat len) s
  else
    [240; u8 (Z.land len 255); u8 (Z.land (Z.shiftr len 8) 255);
     u8 (Z.land (Z.shiftr len 16) 255); u8 (Z.land (Z.shiftr len 24) 255)] ++ take (Z.to_nat len) s.

Definition lpEncodeString (m : list Z) (buf : Z) (s : list Z) (len : Z) : option (list Z) :=
  _ ← assert_true (len <=? zlen s);
  mem_write m buf (lpEncodeString_bytes s len).

(** ** Decoding entries *)

Definition lpCurrentEncodedSizeUnsafe (m : list Z) (p : Z) : option Z :=
  b ← getb m p;
  if LP_ENCODING_IS_7BIT_UINT b then Some 1
  else if LP_ENCODING_IS_6BIT_STR b then l ← LP_ENCODING_6BIT_STR_LEN m p; Some (u32 (1 + l))
  else if LP_ENCODING_IS_13BIT_INT b then Some 2
  else if LP_ENCODING_IS_16BIT_INT b then Some 3
  else if LP_ENCODING_IS_24BIT_INT b then Some 4
  else if LP_ENCODING_IS_32BIT_INT b then Some 5
  else if LP_ENCODING_IS_64BIT_INT b then Some 9
  else if LP_ENCODING_IS_12BIT_STR b then l ← LP_ENCODING_12BIT_STR_LEN m p; Some (u32 (2 + l))
  else if LP_ENCODING_IS_32BIT_STR b then l ← LP_ENCODING_32BIT_STR_LEN m p; Some (u32 (5 + l))
  else if b =? LP_EOF then Some 1
  else Some 0.

Definition lpCurrentEncodedSizeBytes (m : list Z) (p : Z) : option Z :=
  b ← getb m p;
  if LP_ENCODING_IS_7BIT_UINT b then Some 1
  else if LP_ENCODING_IS_6BIT_STR b then Some 1
  else if LP_ENCODING_IS_13BIT_INT b then Some 1
  else if LP_ENCODING_IS_16BIT_INT b then Some 1
  else if LP_ENCODING_IS_24BIT_INT b then Some 1
  else if LP_ENCODING_IS_32BIT_INT b then Some 1
  else if LP_ENCODING_IS_64BIT_INT b then Some 1
  else if LP_ENCODING_IS_12BIT_STR b then Some 2
  else if LP_ENCODING_IS_32BIT_STR b then Some 5
  else if b =? LP_EOF then Some 1
  else Some 0.

Definition lpSkip (m : list Z) (p : Z) : option Z :=
  entrylen ← lpCurrentEncodedSizeUnsafe m p;
  Some (p + (entrylen + backlen_size entrylen)).

(** What the getters give back: an integer, or the place and length of a string. *)
Inductive lp_value := LpInt (v : Z) | LpStr (off len : Z).

(** [uval], [negstart], [negmax] turned into the signed value. *)
Definition lp_signed (uval negstart negmax : Z) : Z :=
  if uval >=? negstart then s64 (- s64 (u64 (negmax - uval)) - 1) else s64 uval.

(** The value and [*entry_size] ([None] where the code leaves it unset). *)
Definition lpGetWithSize (m : list Z) (p : Z) : option (lp_value * option Z) :=
  b ← getb m p;
  if LP_ENCODING_IS_7BIT_UINT b then
    Some (LpInt (lp_signed (Z.land b 127) UINT64_MAX 0), Some 2)
  else if LP_ENCODING_IS_6BIT_STR b then
    l ← LP_ENCODING_6BIT_STR_LEN m p;
    Some (LpStr (p + 1) l, Some (1 + l + backlen_size (l + 1)))
  else if LP_ENCODING_IS_13BIT_INT b then
    b1 ← getb m (p + 1);
    Some (LpInt (lp_signed (Z.lor (Z.shiftl (Z.land b 31) 8) b1) (Z.shiftl 1 12) 8191), Some 3)
  else if LP_ENCODING_IS_16BIT_INT b then
    u ← or_bytes m (p + 1) 2 0;
    Some (LpInt (lp_signed u (Z.shiftl 1 15) UINT16_MAX), Some 4)
  else if LP_ENCODING_IS_24BIT_INT b then
    u ← or_bytes m (p + 1) 3 0;
    Some (LpInt (lp_signed u (Z.shiftl 1 23) (Z.shiftr UINT32_MAX 8)), Some 5)
  else if LP_ENCODING_IS_32BIT_INT b then
    u ← or_bytes m (p + 1) 4 0;
    Some (LpInt (lp_signed u (Z.shiftl 1 31) UINT32_MAX), Some 6)
  else if LP_ENCODING_IS_64BIT_INT b then
    u ← or_bytes m (p + 1) 8 0;
    Some (LpInt (lp_signed u (Z.shiftl 1 63) UINT64_MAX), Some 10)
  else if LP_ENCODING_IS_12BIT_STR b then
    l ← LP_ENCODING_12BIT_STR_LEN m p;
    Some (LpStr (p + 2) l, Some (2 + l + backlen_size (l + 2)))
  else if LP_ENCODING_IS_32BIT_STR b then
    l ← LP_ENCODING_32BIT_STR_LEN m p;
    Some (LpStr (p + 5) l, Some (5 + l + backlen_size (l + 5)))
  else Some (LpInt (lp_signed (12345678900000000 + b) UINT64_MAX 0), None).

(** [lpGet] with a NULL [intbuf]; [lpGetValue] and [lpGetIntegerValue] wrap it. *)
Definition lpGet (m : list Z) (p : Z) : option lp_value := '(v, _) ← lpGetWithSize m p; Some v.
Definition lpGetValue (m : list Z) (p : Z) : option lp_value := lpGet m p.
Definition lpGetIntegerValue (m : list Z) (p : Z) : option (option Z) :=
  v ← lpGet m p; Some (if v is LpInt v then Some v else None).

(** ** Validation *)

Definition out_of_range (lpbytes p : Z) : bool := (p <? LP_HDR_SIZE) || (p >? lpbytes - 1).

(** [pp] is [None] for NULL.  The result is the return value and [*pp] afterwards. *)
Definition lpValidateNext (lp : list Z) (pp : option Z) (lpbytes : Z) : option (bool * option Z) :=
  match pp with
  | None => Some (false, pp)
  | Some p =>
    if out_of_range lpbytes p then Some (false, pp)
    else
      b ← getb lp p;
      if b =? LP_EOF then Some (true, None)
      else
        lenbytes ← lpCurrentEncodedSizeBytes lp p;
        if lenbytes =? 0 then Some (false, pp)
        else if out_of_range lpbytes (p + lenbytes) then Some (false, pp)
        else
          entrylen ← lpCurrentEncodedSizeUnsafe lp p;
          let encodedBacklen := backlen_size entrylen in
          let entrylen := entrylen + encodedBacklen in
          if out_of_range lpbytes (p + entrylen) then Some (false, pp)
          else
            let p := p + entrylen in
            prevlen ← lpDecodeBacklen lp (p - 1);
            if negb (u64 (prevlen + encodedBacklen) =? entrylen) then Some (false, pp)
            else Some (true, Some p)
  end.

Definition lpAssertValidEntry (lp : list Z) (lpbytes p : Z) : option unit :=
  '(ok, _) ← lpValidateNext lp (Some p) lpbytes; assert_true ok.

Definition lpBytes (lp : list Z) : option Z := lpGetTotalBytes lp.

(** ** Navigation *)

Definition lpNext (lp : list Z) (p : Z) : option (option Z) :=
  p ← lpSkip lp p;
  b ← getb lp p;
  if b =? LP_EOF then Some None
  else bytes ← lpBytes lp; _ ← lpAssertValidEntry lp bytes p; Some (Some p).

Definition lpPrev (lp : list Z) (p : Z) : option (option Z) :=
  if p =? LP_HDR_SIZE then Some None
  else
    let p := p - 1 in
    prevlen ← lpDecodeBacklen lp p;
    let prevlen := u64 (prevlen + backlen_size prevlen) in
    let p := p - (prevlen - 1) in
    bytes ← lpBytes lp; _ ← lpAssertValidEntry lp bytes p; Some (Some p).

Definition lpFirst (lp : list Z) : option (option Z) :=
  let p := LP_HDR_SIZE in
  b ← getb lp p;
  if b =? LP_EOF then Some None
  else bytes ← lpBytes lp; _ ← lpAssertValidEntry lp bytes p; Some (Some p).

Definition lpLast (lp : list Z) : option (option Z) :=
  total ← lpGetTotalBytes lp; lpPrev lp (total - 1).

Definition lpLength_body (lp : list Z) (st : option Z * Z) : option ((option Z * Z) + Z) :=
  let '(p, count) := st in
  match p with
  | None => Some (inr count)
  | Some p => p ← lpNext lp p; Some (inl (p, u32 (count + 1)))
  end.

(** The result is the block, whose cached count may be updated, and the length. *)
Definition lpLength (lp : list Z) : option (list Z * Z) :=
  numele ← lpGetNumElements lp;
  if negb (numele =? LP_HDR_NUMELE_UNKNOWN) then Some (lp, numele)
  else
    p ← lpFirst lp;
    count ← loop (S (length lp)) (lpLength_body lp) (p, 0);
    if count <? LP_HDR_NUMELE_UNKNOWN then lp ← lpSetNumElements lp count; Some (lp, count)
    else Some (lp, count).

Fixpoint lp_seek_forward (lp : list Z) (ele : option Z) (n : nat) : option (option Z) :=
  match n, ele with
  | S n, Some p => ele ← lpNext lp p; lp_seek_forward lp ele n
  | _, _ => Some ele
  end.

Fixpoint lp_seek_backward (lp : list Z) (ele : option Z) (n : nat) : option (option Z) :=
  match n, ele with
  | S n, Some p => ele ← lpPrev lp p; lp_seek_backward lp ele n
  | _, _ => Some ele
  end.

Definition lpSeek (lp : list Z) (index : Z) : option (option Z) :=
  numele ← lpGetNumElements lp;
  let scan (forward : bool) (index : Z) :=
    if forward then ele ← lpFirst lp; lp_seek_forward lp ele (Z.to_nat index)
    else ele ← lpLast lp; lp_seek_backward lp ele (Z.to_nat (- index - 1)) in
  if negb (numele =? LP_HDR_NUMELE_UNKNOWN) then
    let index := if index <? 0 then numele + index else index in
    if index <? 0 then Some None
    else if index >=? numele then Some None
    else if index >? numele / 2 then scan false (index - numele)
    else scan true index
  else scan (negb (index <? 0)) index.

Definition lpValidateFirst (lp : list Z) : option (option Z) :=
  b ← getb lp LP_HDR_SIZE; Some (if b =? LP_EOF then None else Some LP_HDR_SIZE).

(** [entry_cb] is the caller's check of one entry: its offset and [numele]. *)
Definition lpValidate_body (lp : list Z) (bytes numele : Z) (entry_cb : Z -> Z -> bool)
    (st : option Z * Z) : option ((option Z * Z) + option (option Z * Z)) :=
  let '(p, count) := st in
  at_end ← (if p is Some p then b ← getb lp p; Some (b =? LP_EOF) else Some true);
  if (at_end : bool) then Some (inr (Some (p, count)))
  else
    '(ok, p') ← lpValidateNext lp p bytes;
    if negb ok then Some (inr None)
    else if negb (entry_cb (default 0 p) numele) then Some (inr None)
    else Some (inl (p', u32 (count + 1))).

Definition lpValidateIntegrity (lp : list Z) (size : Z) (deep : bool)
    (entry_cb : Z -> Z -> bool) : option bool :=
  if size <? LP_HDR_SIZE + 1 then Some false
  else
    bytes ← lpGetTotalBytes lp;
    if negb (bytes =? size) then Some false
    else
      b ← getb lp (size - 1);
      if negb (b =? LP_EOF) then Some false
      else if negb deep then Some true
      else
        numele ← lpGetNumElements lp;
        r ← loop (S (length lp)) (lpValidate_body lp bytes numele entry_cb) (Some LP_HDR_SIZE, 0);
        match r with
        | None => Some false
        | Some (p, count) =>
            if negb (bool_decide (p = Some (size - 1))) then Some false
            else if negb (numele =? LP_HDR_NUMELE_UNKNOWN) && negb (numele =? count) then Some false
            else Some true
        end.
