(* ===== verification/ListpackOps.v ===== *)
(** * Listpacks: searching and editing ([listpack.c])

    The operations that compare, insert, replace, delete and merge, over the block
    model of [Listpack].  [realloc] is [mem_resize], the allocated size of a block is
    its length.  An editing operation that returns [NULL] is [Some None]. *)
From S2P Require Import Prelude Numstr Listpack.

(** ** Searching *)

(** [cmp] sees the listpack, the entry, the user state and the entry's value; it
    answers whether its C counterpart returns 0, and the new user state. *)
Definition lpCmp (U : Type) := list Z -> Z -> U -> lp_value -> option (bool * U).

Record find_state (U : Type) := {
  fs_p : Z; fs_skipcnt : Z; fs_entry_size : Z; fs_user : U
}.
Arguments Build_find_state {U}. Arguments fs_p {U}. Arguments fs_skipcnt {U}.
Arguments fs_entry_size {U}. Arguments fs_user {U}.

(** The end of an iteration: check that [p] is inside and stop at the terminator. *)
Definition lpFindCb_advance {U} (lp : list Z) (lp_bytes : Z) (st : find_state U) :
    option (find_state U + option Z) :=
  let p := fs_p st in
  _ ← (if p + 8 >=? lp_bytes then lpAssertValidEntry lp lp_bytes p
       else assert_true ((p >=? LP_HDR_SIZE) && (p <? lp_bytes)));
  b ← getb lp p;
  Some (if b =? LP_EOF then inr None else inl st).

Definition lpFindCb_body {U} (lp : list Z) (lp_bytes : Z) (cmp : lpCmp U) (skip : Z)
    (st : find_state U) : option (find_state U + option Z) :=
  let p := fs_p st in
  if fs_skipcnt st =? 0 then
    '(value, es) ← lpGetWithSize lp p;
    let entry_size := default (fs_entry_size st) es in
    _ ← (if value is LpStr _ _
         then assert_true ((p >=? LP_HDR_SIZE) && (p + entry_size <? lp_bytes)) else Some tt);
    '(equal, user) ← cmp lp p (fs_user st) value;
    if (equal : bool) then Some (inr (Some p))
    else lpFindCb_advance lp lp_bytes
           {| fs_p := p + entry_size; fs_skipcnt := s32 skip;
              fs_entry_size := entry_size; fs_user := user |}
  else
    p ← lpSkip lp p;
    lpFindCb_advance lp lp_bytes
      {| fs_p := p; fs_skipcnt := fs_skipcnt st - 1;
         fs_entry_size := fs_entry_size st; fs_user := fs_user st |}.

Definition lpFindCb {U} (lp : list Z) (p : option Z) (user : U) (cmp : lpCmp U) (skip : Z) :
    option (option Z) :=
  lp_bytes ← lpBytes lp;
  p ← (if p is Some _ then Some p else lpFirst lp);
  match p with
  | None => Some None
  | Some p => loop (S (length lp)) (lpFindCb_body lp lp_bytes cmp skip)
                {| fs_p := p; fs_skipcnt := 0; fs_entry_size := 123456789; fs_user := user |}
  end.

Record lpFindArg := { fa_s : list Z; fa_slen : Z; fa_vencoding : Z; fa_vll : Z }.

Definition UCHAR_MAX := 255.

Definition lpFindCmp : lpCmp lpFindArg := fun lp p arg value =>
  match value with
  | LpStr s slen =>
      if slen =? fa_slen arg then
        a ← mem_read (fa_s arg) 0 slen;
        b ← mem_read lp s slen;
        Some (bool_decide (a = b), arg)
      else Some (false, arg)
  | LpInt slen =>
      arg ← (if fa_vencoding arg =? 0 then
               r ← (if (fa_slen arg >=? 32) || (fa_slen arg =? 0) then Some None
                    else lpStringToInt64 (fa_s arg) (fa_slen arg));
               Some match r with
                    | None => {| fa_s := fa_s arg; fa_slen := fa_slen arg;
                                 fa_vencoding := UCHAR_MAX; fa_vll := fa_vll arg |}
                    | Some v => {| fa_s := fa_s arg; fa_slen := fa_slen arg;
                                   fa_vencoding := 1; fa_vll := v |}
                    end
             else Some arg);
      Some (negb (fa_vencoding arg =? UCHAR_MAX) && (slen =? fa_vll arg), arg)
  end.

Definition lpFind (lp : list Z) (p : option Z) (s : list Z) (slen skip : Z) : option (option Z) :=
  lpFindCb lp p {| fa_s := s; fa_slen := slen; fa_vencoding := 0; fa_vll := 0 |} lpFindCmp skip.

Definition lpCompare (m : list Z) (p : Z) (s : list Z) (slen : Z) : option bool :=
  b ← getb m p;
  if b =? LP_EOF then Some false
  else
    v ← lpGet m p;
    match v with
    | LpStr off sz =>
        if slen =? sz then
          x ← mem_read m off slen; y ← mem_read s 0 slen; Some (bool_decide (x = y))
        else Some false
    | LpInt sz =>
        r ← lpStringToInt64 s slen;
        Some (if r is Some sval then sz =? sval else false)
    end.

(** ** Insertion, replacement, deletion *)

(** What is inserted: [elestr] with its size, [eleint], or neither (deletion). *)
Inductive lp_ele := EleStr (elestr : list Z) (size : Z) | EleInt (eleint : list Z) | EleNone.

Definition is_delete (ele : lp_ele) : bool := if ele is EleNone then true else false.
Definition is_replace (w : lp_where) : bool := if w is LP_REPLACE then true else false.

Definition enc_len (enc : list Z + Z) : Z := match enc with inl b => zlen b | inr n => n end.

(** [memcpy(dst,eleint,enclen)] or [lpEncodeString(dst,elestr,size)]. *)
Definition lp_store (lp : list Z) (dst : Z) (enc : list Z + Z) (ele : lp_ele) : option (list Z) :=
  match enc, ele with
  | inl b, _ => mem_write lp dst b
  | inr _, EleStr s size => lpEncodeString lp dst s size
  | inr _, _ => None
  end.

Definition lpInsert `{Allocator} (lp : list Z) (ele : lp_ele) (p : Z) (whr : lp_where) :
    option (option (list Z * option Z)) :=
  let delete := is_delete ele in
  let whr := if delete then LP_REPLACE else whr in
  '(p, whr) ← (if whr is LP_AFTER
               then p ← lpSkip lp p; _ ← ASSERT_INTEGRITY lp p; Some (p, LP_BEFORE)
               else Some (p, whr));
  let poff := p in
  enc ← match ele with
        | EleStr s size => lpEncodeGetType s size
        | EleInt b => Some (inl b)
        | EleNone => Some (inr 0)
        end;
  let enclen := enc_len enc in
  let backlen := if delete then [] else lpEncodeBacklen enclen in
  let backlen_size := zlen backlen in
  old_bytes ← lpGetTotalBytes lp;
  replaced_len ← (if is_replace whr then
                    r ← lpCurrentEncodedSizeUnsafe lp p;
                    let r := u32 (r + Listpack.backlen_size r) in
                    _ ← ASSERT_INTEGRITY_LEN lp p r; Some r
                  else Some 0);
  let new_bytes := u64 (old_bytes + enclen + backlen_size - replaced_len) in
  if new_bytes >? UINT32_MAX then Some None
  else
    let lp := if (new_bytes >? old_bytes) && (new_bytes >? zlen lp)
              then mem_resize lp new_bytes else lp in
    lp ← (if is_replace whr
          then memmove lp (poff + enclen + backlen_size) (poff + replaced_len)
                 (old_bytes - poff - replaced_len)
          else memmove lp (poff + enclen + backlen_size) poff (old_bytes - poff));
    let lp := if new_bytes <? old_bytes then mem_resize lp new_bytes else lp in
    newp ← (if delete then b ← getb lp poff; Some (if b =? LP_EOF then None else Some poff)
            else Some (Some poff));
    lp ← (if delete then Some lp
          else lp ← lp_store lp poff enc ele; mem_write lp (poff + enclen) backlen);
    lp ← (if negb (is_replace whr) || delete then
            num ← lpGetNumElements lp;
            if negb (num =? LP_HDR_NUMELE_UNKNOWN)
            then lpSetNumElements lp (u32 (if delete then num - 1 else num + 1))
            else Some lp
          else Some lp);
    lp ← lpSetTotalBytes lp new_bytes;
    Some (Some (lp, newp)).

(** A [listpackEntry]: a string when [sval] is not NULL, else an integer. *)
Inductive listpackEntry := LeStr (sval : list Z) (slen : Z) | LeInt (lval : Z).

Definition le_encode (e : listpackEntry) : option (list Z + Z) :=
  match e with
  | LeStr s n => lpEncodeGetType s n
  | LeInt v => Some (inl (lpEncodeIntegerGetType v))
  end.

Definition le_ele (e : listpackEntry) : lp_ele :=
  match e with LeStr s n => EleStr s n | LeInt v => EleInt (lpEncodeIntegerGetType v) end.

(** The first loop: the encoded entries and [addedlen]. *)
Fixpoint lp_batch_encode (entries : list listpackEntry) (addedlen : Z) :
    option (list (list Z + Z) * Z) :=
  match entries with
  | [] => Some ([], addedlen)
  | e :: entries =>
      enc ← le_encode e;
      let addedlen := u64 (addedlen + enc_len enc) in
      let addedlen := u64 (addedlen + backlen_size (enc_len enc)) in
      '(encs, addedlen) ← lp_batch_encode entries addedlen;
      Some (enc :: encs, addedlen)
  end.

(** The second loop: the block, [dst] and [*newp] after it. *)
Fixpoint lp_batch_store (lp : list Z) (dst : Z) (newp : option Z) (entries : list listpackEntry)
    (encs : list (list Z + Z)) : option (list Z * option Z) :=
  match entries, encs with
  | e :: entries, enc :: encs =>
      let enclen := enc_len enc in
      lp ← lp_store lp dst enc (le_ele e);
      lp ← mem_write lp (dst + enclen) (lpEncodeBacklen enclen);
      lp_batch_store lp (dst + enclen + backlen_size enclen) (Some dst) entries encs
  | _, _ => Some (lp, newp)
  end.

Definition lpBatchInsert `{Allocator} (lp : list Z) (p : Z) (whr : lp_where)
    (entries : list listpackEntry) : option (option (list Z * option Z)) :=
  let len := zlen entries in
  _ ← assert_true (negb (is_replace whr));
  _ ← assert_true (len >? 0);
  p ← (if whr is LP_AFTER then p ← lpSkip lp p; _ ← ASSERT_INTEGRITY lp p; Some p else Some p);
  '(encs, addedlen) ← lp_batch_encode entries 0;
  old_bytes ← lpGetTotalBytes lp;
  let new_bytes := u64 (old_bytes + addedlen) in
  if new_bytes >? UINT32_MAX then Some None
  else
    let poff := p in
    let lp := if (new_bytes >? old_bytes) && (new_bytes >? zlen lp)
              then mem_resize lp new_bytes else lp in
    lp ← memmove lp (poff + addedlen) poff (old_bytes - poff);
    '(lp, newp) ← lp_batch_store lp poff None entries encs;
    num ← lpGetNumElements lp;
    lp ← (if negb (num =? LP_HDR_NUMELE_UNKNOWN) then
            if len >? LP_HDR_NUMELE_UNKNOWN - num
            then lpSetNumElements lp LP_HDR_NUMELE_UNKNOWN
            else lpSetNumElements lp (num + len)
          else Some lp);
    lp ← lpSetTotalBytes lp new_bytes;
    Some (Some (lp, newp)).

Definition lpInsertString `{Allocator} (lp s : list Z) (slen p : Z) (whr : lp_where) :=
  lpInsert lp (EleStr s slen) p whr.

Definition lpInsertInteger `{Allocator} (lp : list Z) (lval p : Z) (whr : lp_where) :=
  lpInsert lp (EleInt (lpEncodeIntegerGetType lval)) p whr.

(** The return value of a caller that passes a NULL [newp]. *)
Definition lp_only (r : option (list Z * option Z)) : option (list Z) :=
  if r is Some (lp, _) then Some lp else None.

Definition lpAppend `{Allocator} (lp ele : list Z) (size : Z) : option (option (list Z)) :=
  listpack_bytes ← lpGetTotalBytes lp;
  r ← lpInsert lp (EleStr ele size) (listpack_bytes - 1) LP_BEFORE; Some (lp_only r).

Definition lpAppendInteger `{Allocator} (lp : list Z) (lval : Z) : option (option (list Z)) :=
  listpack_bytes ← lpGetTotalBytes lp;
  r ← lpInsertInteger lp lval (listpack_bytes - 1) LP_BEFORE; Some (lp_only r).

Definition lpPrepend `{Allocator} (lp s : list Z) (slen : Z) : option (option (list Z)) :=
  p ← lpFirst lp;
  match p with
  | None => lpAppend lp s slen
  | Some p => r ← lpInsert lp (EleStr s slen) p LP_BEFORE; Some (lp_only r)
  end.

Definition lpPrependInteger `{Allocator} (lp : list Z) (lval : Z) : option (option (list Z)) :=
  p ← lpFirst lp;
  match p with
  | None => lpAppendInteger lp lval
  | Some p => r ← lpInsertInteger lp lval p LP_BEFORE; Some (lp_only r)
  end.

Definition lpBatchAppend `{Allocator} (lp : list Z) (entries : list listpackEntry) :
    option (option (list Z)) :=
  listpack_bytes ← lpGetTotalBytes lp;
  r ← lpBatchInsert lp (listpack_bytes - 1) LP_BEFORE entries; Some (lp_only r).

Definition lpReplace `{Allocator} (lp : list Z) (p : Z) (s : list Z) (slen : Z) :=
  lpInsert lp (EleStr s slen) p LP_REPLACE.

Definition lpReplaceInteger `{Allocator} (lp : list Z) (p lval : Z) :=
  lpInsertInteger lp lval p LP_REPLACE.

Definition lpDelete `{Allocator} (lp : list Z) (p : Z) := lpInsert lp EleNone p LP_REPLACE.

(** The [while (num--)] loop: [tail] and [deleted] when it stops. *)
Fixpoint lp_range_tail (lp : list Z) (bytes : Z) (num : nat) (tail deleted : Z) :
    option (Z * Z) :=
  match num with
  | O => Some (tail, deleted)
  | S num =>
      let deleted := deleted + 1 in
      tail ← lpSkip lp tail;
      b ← getb lp tail;
      if b =? LP_EOF then Some (tail, deleted)
      else _ ← lpAssertValidEntry lp bytes tail; lp_range_tail lp bytes num tail deleted
  end.

(** The block and [*p] afterwards. *)
Definition lpDeleteRangeWithEntry `{Allocator} (lp : list Z) (p : Z) (num : Z) :
    option (list Z * option Z) :=
  bytes ← lpBytes lp;
  let eofptr := bytes - 1 in
  let first := p in
  if num =? 0 then Some (lp, Some p)
  else
    '(tail, deleted) ← lp_range_tail lp bytes (Z.to_nat num) first 0;
    let poff := first in
    lp ← memmove lp first tail (eofptr - tail + 1);
    lp ← lpSetTotalBytes lp (bytes - (tail - first));
    numele ← lpGetNumElements lp;
    lp ← (if negb (numele =? LP_HDR_NUMELE_UNKNOWN)
          then lpSetNumElements lp (u64 (numele - deleted)) else Some lp);
    lp ← lpShrinkToFit lp;
    b ← getb lp poff;
    Some (lp, if b =? LP_EOF then None else Some poff).

Definition lpDeleteRange `{Allocator} (lp : list Z) (index num : Z) : option (list Z) :=
  numele ← lpGetNumElements lp;
  if num =? 0 then Some lp
  else
    p ← lpSeek lp index;
    match p with
    | None => Some lp
    | Some p =>
        let known := negb (numele =? LP_HDR_NUMELE_UNKNOWN) in
        let index := if known && (index <? 0) then numele + index else index in
        if known && (u64 (numele - u64 index) <=? num) then
          lp ← setb lp p LP_EOF;
          lp ← lpSetTotalBytes lp (p + 1);
          lp ← lpSetNumElements lp index;
          lpShrinkToFit lp
        else '(lp, _) ← lpDeleteRangeWithEntry lp p num; Some lp
    end.

(** The loop of [lpBatchDelete] over the pointers: the block and [dst]. *)
Fixpoint lp_batch_delete_loop (lp : list Z) (lp_end : Z) (ps : list Z) (dst : Z) :
    option (list Z * Z) :=
  match ps with
  | [] => Some (lp, dst)
  | skip :: ps =>
      b ← getb lp skip;
      _ ← assert_true (negb (b =? LP_EOF));
      keep_start ← lpSkip lp skip;
      let keep_end := match ps with next :: _ => next | [] => lp_end end in
      if bool_decide (ps <> []) && (keep_start =? keep_end) then lp_batch_delete_loop lp lp_end ps dst
      else
        _ ← assert_true (keep_end >? keep_start);
        let bytes_to_keep := keep_end - keep_start in
        lp ← memmove lp dst keep_start bytes_to_keep;
        lp_batch_delete_loop lp lp_end ps (dst + bytes_to_keep)
  end.

Definition lpBatchDelete `{Allocator} (lp : list Z) (ps : list Z) : option (list Z) :=
  match ps with
  | [] => Some lp
  | dst :: _ =>
      let count := zlen ps in
      total_bytes ← lpGetTotalBytes lp;
      let lp_end := total_bytes in
      b ← getb lp (lp_end - 1);
      _ ← assert_true (b =? LP_EOF);
      '(lp, dst) ← lp_batch_delete_loop lp lp_end ps dst;
      let deleted_bytes := lp_end - dst in
      let total_bytes := total_bytes - deleted_bytes in
      b ← getb lp (total_bytes - 1);
      _ ← assert_true (b =? LP_EOF);
      lp ← lpSetTotalBytes lp total_bytes;
      numele ← lpGetNumElements lp;
      lp ← (if negb (numele =? LP_HDR_NUMELE_UNKNOWN)
            then lpSetNumElements lp (u64 (numele - count)) else Some lp);
      lpShrinkToFit lp
  end.

(** ** Merging, copying, sizes *)

(** Two distinct, non-NULL listpacks.  The result is the merged listpack; the flag
    tells whether it replaces [*first] ([append]) or [*second]. *)
Definition lpMerge `{Allocator} (first second : list Z) : option (list Z * bool) :=
  first_bytes ← lpBytes first;
  '(first, first_len) ← lpLength first;
  second_bytes ← lpBytes second;
  '(second, second_len) ← lpLength second;
  let append := first_bytes >=? second_bytes in
  let target := if append then first else second in
  let target_bytes := if append then first_bytes else second_bytes in
  let source := if append then second else first in
  let source_bytes := if append then second_bytes else first_bytes in
  let lpbytes := u64 (first_bytes + second_bytes - LP_HDR_SIZE - 1) in
  _ ← assert_true (lpbytes <? UINT32_MAX);
  let lplength := first_len + second_len in
  let lplength := if lplength <? UINT16_MAX then lplength else UINT16_MAX in
  let target := mem_resize target lpbytes in
  target ← (if append then
              bs ← mem_read source LP_HDR_SIZE (source_bytes - LP_HDR_SIZE);
              mem_write target (target_bytes - 1) bs
            else
              target ← memmove target (source_bytes - 1) LP_HDR_SIZE (target_bytes - LP_HDR_SIZE);
              bs ← mem_read source 0 (source_bytes - 1);
              mem_write target 0 bs);
  target ← lpSetNumElements target lplength;
  target ← lpSetTotalBytes target lpbytes;
  Some (target, append).

Definition lpDup `{Allocator} (lp : list Z) : option (list Z) :=
  lpbytes ← lpBytes lp;
  let newlp := fresh_bytes (Z.to_nat lpbytes) in
  bs ← mem_read lp 0 lpbytes;
  mem_write newlp 0 bs.

Definition lpEntrySizeInteger (lval : Z) : Z :=
  let enclen := zlen (lpEncodeIntegerGetType lval) in
  let backlen := backlen_size enclen in
  enclen + backlen.

Definition lpEstimateBytesRepeatedInteger (lval rep : Z) : Z :=
  u64 (LP_HDR_SIZE + lpEntrySizeInteger lval * rep + 1).
