(* ===== verification/ListpackFacts.v ===== *)
(** * The listpack format: entries, blocks and what reading them gives

    Entries as values, their bytes, the representation predicate of a block, and the
    lemmas that say what every decoding macro and function reads from it. *)
From S2P Require Import Prelude Numstr NumstrFacts Listpack.

(** ** Reading little-endian numbers *)

Lemma or_bytes_mid a bs c off n s :
  Forall is_byte bs -> off = zlen a -> n = length bs -> 0 <= s ->
  or_bytes (a ++ bs ++ c) off n s = Some (Z.shiftl (le_join bs) s).
Proof.
  intros Hbs -> ->. revert a s. induction Hbs as [|b bs Hb _ IH]; intros a s Hs.
  - unfold le_join. by rewrite Z.shiftl_0_l.
  - cbn [length or_bytes]. change ((b :: bs) ++ c) with (b :: bs ++ c).
    rewrite getb_mid by done. cbn [mbind option_bind].
    specialize (IH (a ++ [b]) (s + 8)). rewrite <- app_assoc in IH.
    change ([b] ++ bs ++ c) with (b :: bs ++ c) in IH.
    rewrite zlen_app in IH. change (zlen [b]) with 1 in IH. rewrite IH by lia.
    cbn [mbind option_bind]. rewrite lor_shiftl_add by (unfold is_byte in *; lia).
    done.
Qed.

Lemma or_bytes_le_split a v c off n :
  off = zlen a -> or_bytes (a ++ le_split n v ++ c) off n 0 = Some (v mod 256 ^ Z.of_nat n).
Proof.
  intros Ho. rewrite or_bytes_mid; [|apply le_split_bytes|done|by rewrite length_le_split|done].
  by rewrite Z.shiftl_0_r, le_join_split.
Qed.

(** ** The bytes of an entry *)

Inductive lp_ent := EInt (v : Z) | EStr (s : list Z).

#[export] Instance lp_ent_eq_dec : EqDecision lp_ent.
Proof. solve_decision. Defined.

Definition ent_data (e : lp_ent) : list Z :=
  match e with EInt v => lpEncodeIntegerGetType v | EStr s => lpEncodeString_bytes s (zlen s) end.

Definition ent_bytes (e : lp_ent) : list Z := ent_data e ++ lpEncodeBacklen (zlen (ent_data e)).

Definition ent_ok (e : lp_ent) : Prop :=
  match e with
  | EInt v => INT64_MIN <= v <= INT64_MAX
  | EStr s => Forall is_byte s
  end.

(** The bytes the encoders write with shifts and masks are [le_split]. *)
Lemma u8_land_255 v : u8 (Z.land v 255) = v mod 256.
Proof. rewrite land_255. unfold wrapu. change (2 ^ 8) with 256. by rewrite Z.mod_mod. Qed.

Lemma le_split_shift n v : le_split n (Z.shiftr v 8) = le_split n (v / 256).
Proof. by rewrite Z.shiftr_div_pow2. Qed.

Lemma le_split_S n v : le_split (S n) v = v mod 256 :: le_split n (Z.shiftr v 8).
Proof. by rewrite Z.shiftr_div_pow2. Qed.

Lemma le_split_eq_mod n v w :
  v mod 256 ^ Z.of_nat n = w mod 256 ^ Z.of_nat n -> le_split n v = le_split n w.
Proof. intros E. by rewrite <- le_split_mod, E, le_split_mod. Qed.

Lemma le_split_two_compl n v :
  le_split n v = le_split n (if v <? 0 then Z.shiftl 1 (8 * Z.of_nat n) + v else v).
Proof.
  destruct (v <? 0); [|done]. apply le_split_eq_mod.
  rewrite Z.shiftl_mul_pow2, <- pow256_pow2 by lia.
  rewrite Z.add_comm, Z.mul_comm. symmetry. by rewrite Z.mul_comm, Z_mod_plus_full.
Qed.

Ltac solve_bytes :=
  rewrite ?le_split_S, ?Z.shiftr_shiftr by lia; simpl Z.add;
  rewrite ?u8_land_255; repeat (f_equal; []); done.

(** The integer encodings, spelled out. *)
Lemma int_data v :
  INT64_MIN <= v <= INT64_MAX ->
  lpEncodeIntegerGetType v =
    if (0 <=? v) && (v <=? 127) then [v]
    else if (-4096 <=? v) && (v <=? 4095) then [192 + (v mod 8192) / 256; v mod 256]
    else if (-32768 <=? v) && (v <=? 32767) then 241 :: le_split 2 v
    else if (-8388608 <=? v) && (v <=? 8388607) then 242 :: le_split 3 v
    else if (-2147483648 <=? v) && (v <=? 2147483647) then 243 :: le_split 4 v
    else 244 :: le_split 8 v.
Proof.
  intros Hv. unfold lpEncodeIntegerGetType. rewrite !Z.geb_leb.
  case_match eqn:E1; [by rewrite wrapu_small by lia|].
  case_match eqn:E2.
  { set (w := if v <? 0 then _ else v).
    assert (w = v mod 8192) as -> by (subst w; unfold Z.shiftl; simpl; case_match; div_lia).
    rewrite u8_land_255. f_equal; [|f_equal; div_lia].
    rewrite Z.shiftr_div_pow2 by lia. change (2 ^ 8) with 256.
    assert (0 <= v mod 8192 / 256 < 32) as Hx by div_lia.
    apply Z.eqb_eq.
    apply (forallb_range (fun x => u8 (Z.lor x 192) =? 192 + x) 32); [by vm_compute|done]. }
  clear E1 E2.
  case_match eqn:E3; [|clear E3; case_match eqn:E4; [|clear E4; case_match eqn:E5]];
    f_equal; [..|].
  - rewrite (le_split_two_compl 2 v). solve_bytes.
  - rewrite (le_split_two_compl 3 v). solve_bytes.
  - rewrite (le_split_two_compl 4 v). solve_bytes.
  - rewrite <- (le_split_mod 8 v). change (v mod 256 ^ Z.of_nat 8) with (u64 v). solve_bytes.
Qed.

(** The string encodings, spelled out. *)
Lemma str_data s :
  zlen s < 2 ^ 32 ->
  lpEncodeString_bytes s (zlen s) =
    if zlen s <? 64 then (128 + zlen s) :: s
    else if zlen s <? 4096 then [224 + zlen s / 256; zlen s mod 256] ++ s
    else 240 :: le_split 4 (zlen s) ++ s.
Proof.
  intros Hs. unfold lpEncodeString_bytes.
  assert (take (Z.to_nat (zlen s)) s = s) as -> by (apply take_ge; unfold zlen; lia).
  pose proof (zlen_nonneg s).
  case_match eqn:E1; [|case_match eqn:E2].
  - change ([?x] ++ s) with (x :: s). f_equal. apply Z.eqb_eq.
    apply (forallb_range (fun x => u8 (Z.lor x 128) =? 128 + x) 64); [by vm_compute|lia].
  - rewrite u8_land_255. do 2 f_equal. rewrite Z.shiftr_div_pow2 by lia. change (2 ^ 8) with 256.
    apply Z.eqb_eq.
    apply (forallb_range (fun x => u8 (Z.lor x 224) =? 224 + x) 16); [by vm_compute|div_lia].
  - change (?x :: le_split 4 (zlen s) ++ s) with ((x :: le_split 4 (zlen s)) ++ s).
    f_equal. f_equal. solve_bytes.
Qed.

(** ** Dispatch on the first byte *)

Definition enc_class (b : Z) : list bool :=
  [LP_ENCODING_IS_7BIT_UINT b; LP_ENCODING_IS_6BIT_STR b; LP_ENCODING_IS_13BIT_INT b;
   LP_ENCODING_IS_16BIT_INT b; LP_ENCODING_IS_24BIT_INT b; LP_ENCODING_IS_32BIT_INT b;
   LP_ENCODING_IS_64BIT_INT b; LP_ENCODING_IS_12BIT_STR b; LP_ENCODING_IS_32BIT_STR b;
   b =? LP_EOF].

(** The class whose position is [i]. *)
Definition class_is (i : nat) : list bool := <[i := true]> (replicate 10 false).

Lemma class_range off n i x :
  forallb (fun x => bool_decide (enc_class (off + x) = class_is i)) (seqZ 0 n) = true ->
  0 <= x < n -> enc_class (off + x) = class_is i.
Proof.
  intros H Hx. pose proof (forallb_range _ n x H Hx) as E. simpl in E.
  by apply bool_decide_eq_true in E.
Qed.

Section AtEntry.
Context (pre post : list Z).

Lemma head_byte b l : getb (pre ++ (b :: l) ++ post) (zlen pre) = Some b.
Proof. by apply getb_mid. Qed.

Lemma second_byte b0 b1 l : getb (pre ++ (b0 :: b1 :: l) ++ post) (zlen pre + 1) = Some b1.
Proof. by rewrite getb_app_r. Qed.

Lemma payload_le b n v l :
  or_bytes (pre ++ (b :: le_split n v ++ l) ++ post) (zlen pre + 1) n 0 =
    Some (v mod 256 ^ Z.of_nat n).
Proof.
  replace (pre ++ (b :: le_split n v ++ l) ++ post)
    with ((pre ++ [b]) ++ le_split n v ++ (l ++ post))
    by (rewrite <- !app_assoc; simpl; by rewrite <- app_assoc).
  apply or_bytes_le_split. by autorewrite with zlen.
Qed.

(** What the getters say of an entry. *)
Definition ent_value (e : lp_ent) : lp_value :=
  match e with
  | EInt v => LpInt v
  | EStr s => LpStr (zlen pre + (zlen (ent_data e) - zlen s)) (zlen s)
  end.

Lemma lp_signed_val n v k negmax :
  1 <= n <= 64 -> k = 2 ^ (n - 1) -> negmax = 2 ^ n - 1 -> - k <= v < k ->
  lp_signed (v mod 2 ^ n) k negmax = v.
Proof.
  intros Hn -> -> Hv. unfold lp_signed.
  assert (2 ^ n = 2 * 2 ^ (n - 1)) as E by (rewrite <- Z.pow_succ_r by lia; f_equal; lia).
  assert (2 ^ (n - 1) <= 2 ^ 63) by (apply Z.pow_le_mono_r; lia).
  destruct (Z.lt_ge_cases v 0).
  - replace (v mod 2 ^ n) with (v + 2 ^ n)
      by (rewrite <- (Z_mod_plus_full v 1 (2 ^ n)), Z.mod_small; lia).
    replace (_ >=? _) with true by lia.
    replace (2 ^ n - 1 - (v + 2 ^ n)) with (-1 - v) by lia.
    rewrite (wrapu_small 64), (wraps_small 64 (-1 - v)), (wraps_small 64);
      change (64 - 1) with 63; lia.
  - replace (v mod 2 ^ n) with v by (symmetry; apply Z.mod_small; lia).
    replace (_ >=? _) with false by lia. apply wraps_small; [lia|].
    change (64 - 1) with 63; lia.
Qed.

(** The reads of the header of an entry, one lemma for all encodings. *)
Definition reads_as (e : lp_ent) : Prop :=
  let m := pre ++ ent_data e ++ post in
  let p := zlen pre in
  (exists b, getb m p = Some b /\ b <> LP_EOF) /\
  lpCurrentEncodedSizeUnsafe m p = Some (zlen (ent_data e)) /\
  (exists k, lpCurrentEncodedSizeBytes m p = Some k /\ 1 <= k <= zlen (ent_data e)) /\
  lpGetWithSize m p =
    Some (ent_value e, Some (zlen (ent_data e) + backlen_size (zlen (ent_data e)))).

Ltac open_reads b tests :=
  match goal with E : ent_data _ = _ |- _ => unfold reads_as; rewrite E end;
  split_and!;
  [ exists b; rewrite head_byte; split; [done|]; first [by apply Z.eqb_neq | done]
  | unfold lpCurrentEncodedSizeUnsafe
  | unfold lpCurrentEncodedSizeBytes
  | unfold lpGetWithSize ];
  rewrite head_byte; cbn [mbind option_bind]; tests.

(** The class of the first byte is a hypothesis, or the byte is a constant. *)
Ltac tests_known :=
  repeat match goal with E : _ = ?c |- context [if _ then _ else _] =>
    match c with true => rewrite E | false => rewrite E end end.
Ltac tests_const :=
  repeat match goal with |- context [if ?c then _ else _] =>
    let v := eval vm_compute in c in change c with v; cbv iota end.

Ltac reads b H :=
  unfold enc_class, class_is in H; simpl replicate in H; simpl insert in H;
  injection H; clear H; intros; open_reads b tests_known.

(** The four encodings with a little-endian payload of [n] bytes. *)
Ltac reads_le n b :=
  open_reads b tests_const;
  [by autorewrite with zlen | eexists; split; [done|autorewrite with zlen; lia] |];
  rewrite <- (app_nil_r (le_split n _)), payload_le, app_nil_r; cbn [mbind option_bind];
  repeat match goal with |- context [Z.shiftl 1 ?k] =>
    let x := eval vm_compute in (Z.shiftl 1 k) in change (Z.shiftl 1 k) with x end;
  rewrite pow256_pow2, (lp_signed_val (8 * Z.of_nat n))
    by first [reflexivity | unfold_limits; lia];
  by autorewrite with zlen.

Lemma reads_int v : INT64_MIN <= v <= INT64_MAX -> reads_as (EInt v).
Proof.
  intros Hv. assert (ent_data (EInt v) = lpEncodeIntegerGetType v) as E by done.
  rewrite (int_data v Hv) in E.
  destruct ((0 <=? v) && _) eqn:E1.
  { pose proof (class_range 0 128 0 v ltac:(by vm_compute) ltac:(lia)) as C.
    rewrite Z.add_0_l in C.
    reads v C; [done|by eexists|].
    rewrite land_127, Z.mod_small by lia. unfold lp_signed.
    replace (v >=? UINT64_MAX) with false by (unfold_limits; lia).
    by rewrite wraps_small by (simpl; lia). }
  destruct ((-4096 <=? v) && _) eqn:E2.
  { assert (0 <= v mod 8192 / 256 < 32) as Hx by div_lia.
    pose proof (class_range 192 32 2 _ ltac:(by vm_compute) Hx) as C.
    reads (192 + v mod 8192 / 256) C; [done|by eexists|].
    rewrite second_byte. cbn [mbind option_bind]. unfold ent_value.
    assert (Z.lor (Z.shiftl (Z.land (192 + v mod 8192 / 256) 31) 8) (v mod 256) = v mod 2 ^ 13)
      as ->.
    { change 31 with (Z.ones 5). rewrite Z.land_ones, Z.lor_comm, lor_add_high by div_lia.
      simpl. div_lia. }
    change (Z.shiftl 1 12) with 4096.
    by rewrite (lp_signed_val 13 v) by first [reflexivity | lia]. }
  destruct ((-32768 <=? v) && _) eqn:E3; [|destruct ((-8388608 <=? v) && _) eqn:E4;
    [|destruct ((-2147483648 <=? v) && _) eqn:E5]].
  - reads_le 2%nat 241.
  - reads_le 3%nat 242.
  - reads_le 4%nat 243.
  - reads_le 8%nat 244.
Qed.

Lemma str_value_eq a a' l n n' k k' :
  a = a' -> n = n' -> k = k' ->
  Some (LpStr a l, Some (n + backlen_size k)) = Some (LpStr a' l, Some (n' + backlen_size k')).
Proof. by intros -> -> ->. Qed.

Lemma reads_str s : zlen s + 5 < 2 ^ 32 -> reads_as (EStr s).
Proof.
  intros Hs. assert (ent_data (EStr s) = lpEncodeString_bytes s (zlen s)) as E by done.
  rewrite str_data in E by lia. pose proof (zlen_nonneg s).
  destruct (zlen s <? 64) eqn:E1; [|destruct (zlen s <? 4096) eqn:E2].
  - pose proof (class_range 128 64 1 (zlen s) ltac:(by vm_compute) ltac:(lia)) as C.
    assert (Z.land (128 + zlen s) 63 = zlen s) as El.
    { change 63 with (Z.ones 6). rewrite Z.land_ones by lia. change (2 ^ 6) with 64. div_lia. }
    reads (128 + zlen s) C; [..|unfold ent_value; rewrite E];
      unfold LP_ENCODING_6BIT_STR_LEN; rewrite ?head_byte; cbn [mbind option_bind];
      rewrite ?El, ?zlen_cons.
    + f_equal. rewrite wrapu_small; lia.
    + eexists. split; [done|lia].
    + apply str_value_eq; lia.
  - assert (0 <= zlen s / 256 < 16) as Hx by div_lia.
    pose proof (class_range 224 16 7 _ ltac:(by vm_compute) Hx) as C.
    assert (Z.lor (Z.shiftl (Z.land (224 + zlen s / 256) 15) 8) (zlen s mod 256) = zlen s) as El.
    { change 15 with (Z.ones 4). rewrite Z.land_ones, Z.lor_comm, lor_add_high by div_lia.
      change (2 ^ 4) with 16. change (2 ^ 8) with 256. div_lia. }
    change ([?x; ?y] ++ s) with (x :: y :: s) in E.
    reads (224 + zlen s / 256) C; [..|unfold ent_value; rewrite E];
      unfold LP_ENCODING_12BIT_STR_LEN; rewrite ?head_byte, ?second_byte; cbn [mbind option_bind];
      rewrite ?El, ?zlen_cons.
    + f_equal. rewrite wrapu_small; lia.
    + eexists. split; [done|lia].
    + apply str_value_eq; lia.
  - open_reads 240 tests_const; [..|unfold ent_value; rewrite E];
      unfold LP_ENCODING_32BIT_STR_LEN; rewrite ?payload_le; cbn [mbind option_bind];
      change (256 ^ Z.of_nat 4) with (2 ^ 32);
      rewrite ?(Z.mod_small (zlen s)) by lia; autorewrite with zlen.
    + f_equal. rewrite wrapu_small; lia.
    + eexists. split; [done|lia].
    + apply str_value_eq; lia.
Qed.
End AtEntry.

(** ** The backward-readable length *)

Lemma backlen_val v s x :
  0 <= x < 128 -> 0 <= s <= 28 -> 0 <= v < 2 ^ s ->
  Z.lor v (u64 (Z.shiftl x s)) = v + 2 ^ s * x.
Proof.
  intros Hx Hs Hv. rewrite wrapu_small; [apply lor_add_high; lia|].
  rewrite Z.shiftl_mul_pow2 by lia.
  assert (2 ^ s <= 2 ^ 28) by (apply Z.pow_le_mono_r; lia). nia.
Qed.

Lemma backlen_more m v s p x :
  getb m p = Some (128 + x) -> 0 <= x < 128 -> 0 <= s <= 21 -> 0 <= v < 2 ^ s ->
  lpDecodeBacklen_body m (v, s, p) = Some (inl (v + 2 ^ s * x, s + 7, p - 1)).
Proof.
  intros Hg Hx Hs Hv. simpl. rewrite Hg. cbn [mbind option_bind].
  assert (Z.land (128 + x) 127 = x) as ->.
  { rewrite land_127. div_lia. }
  assert (Z.land (128 + x) 128 =? 0 = false) as ->.
  { apply negb_true_iff.
    apply (forallb_range (fun x => negb (Z.land (128 + x) 128 =? 0)) 128); [by vm_compute|done]. }
  rewrite backlen_val by lia. replace (s + 7 >? 28) with false by lia. done.
Qed.

Lemma backlen_last m v s p x :
  getb m p = Some x -> 0 <= x < 128 -> 0 <= s <= 28 -> 0 <= v < 2 ^ s ->
  lpDecodeBacklen_body m (v, s, p) = Some (inr (v + 2 ^ s * x)).
Proof.
  intros Hg Hx Hs Hv. simpl. rewrite Hg. cbn [mbind option_bind].
  assert (Z.land x 128 =? 0 = true) as ->.
  { apply (forallb_range (fun x => Z.land x 128 =? 0) 128); [by vm_compute|done]. }
  rewrite land_127, Z.mod_small by lia. by rewrite backlen_val.
Qed.

Definition back_digit (l i : Z) : Z := l / 128 ^ i mod 128.

(** The encoder's bytes, most significant first; every one but the first is flagged. *)
Lemma backlen_bytes l :
  0 <= l <= UINT32_MAX + 4 ->
  lpEncodeBacklen l =
    if l <=? 127 then [l]
    else if l <? 16383 then [back_digit l 1; 128 + back_digit l 0]
    else if l <? 2097151 then [back_digit l 2; 128 + back_digit l 1; 128 + back_digit l 0]
    else if l <? 268435455 then
      [back_digit l 3; 128 + back_digit l 2; 128 + back_digit l 1; 128 + back_digit l 0]
    else [back_digit l 4; 128 + back_digit l 3; 128 + back_digit l 2; 128 + back_digit l 1;
          128 + back_digit l 0].
Proof.
  intros Hl. unfold_limits.
  assert (forall x, u8 (Z.lor (Z.land x 127) 128) = 128 + x mod 128) as E.
  { intros x. rewrite land_127. apply Z.eqb_eq.
    apply (forallb_range (fun x => u8 (Z.lor x 128) =? 128 + x) 128); [by vm_compute|div_lia]. }
  unfold lpEncodeBacklen, back_digit. rewrite !E, !Z.shiftr_div_pow2 by lia.
  change (128 ^ 0) with 1. rewrite Z.div_1_r.
  change (128 ^ 1) with (2 ^ 7). change (128 ^ 2) with (2 ^ 14). change (128 ^ 3) with (2 ^ 21).
  change (128 ^ 4) with (2 ^ 28).
  repeat case_match; try (by rewrite wrapu_small by lia); f_equal;
    unfold wrapu; change (2 ^ 8) with 256; rewrite Z.mod_small by div_lia;
    symmetry; apply Z.mod_small; div_lia.
Qed.

Lemma backlen_digits l :
  0 <= l < 2 ^ 35 ->
  l = back_digit l 0 + 2 ^ 7 * back_digit l 1 + 2 ^ 14 * back_digit l 2 + 2 ^ 21 * back_digit l 3
      + 2 ^ 28 * back_digit l 4.
Proof. intros Hl. unfold back_digit. change (128 ^ 4) with 268435456. simpl Z.pow. div_lia. Qed.

Lemma back_digit_range l i : 0 <= back_digit l i < 128.
Proof. apply Z.mod_pos_bound. lia. Qed.

Lemma back_digit_0 l i : 0 <= l < 128 ^ i -> back_digit l i = 0.
Proof. intros Hl. unfold back_digit. by rewrite Z.div_small. Qed.

(** One step of the decoder over the flagged byte at a known place. *)
Ltac back_step lem d :=
  cbn [loop]; rewrite (lem _ _ _ _ d);
    [ | rewrite <- ?Z.add_sub_assoc; rewrite getb_app_r by lia; done
      | apply back_digit_range | lia | ].

Lemma lpDecodeBacklen_enc a l c p :
  0 <= l <= UINT32_MAX + 4 -> p = zlen a + backlen_size l - 1 ->
  lpDecodeBacklen (a ++ lpEncodeBacklen l ++ c) p = Some l.
Proof.
  intros Hl ->. unfold backlen_size. pose proof (backlen_bytes l Hl) as Eb.
  pose proof (backlen_digits l) as Ed.
  pose proof (back_digit_range l 0). pose proof (back_digit_range l 1).
  pose proof (back_digit_range l 2). pose proof (back_digit_range l 3).
  unfold_limits. unfold lpDecodeBacklen.
  destruct (l <=? 127) eqn:E1; [|destruct (l <? 16383) eqn:E2; [|destruct (l <? 2097151) eqn:E3;
    [|destruct (l <? 268435455) eqn:E4]]]; rewrite Eb, <- Z.add_sub_assoc.
  - cbn [loop]. rewrite (backlen_last _ _ _ _ l); [f_equal; lia|by rewrite getb_app_r|lia..].
  - change (zlen [_; _]) with 2.
    rewrite (back_digit_0 l 2), (back_digit_0 l 3), (back_digit_0 l 4) in Ed by lia.
    back_step backlen_more (back_digit l 0); [|lia].
    back_step backlen_last (back_digit l 1); [f_equal; lia|lia].
  - change (zlen [_; _; _]) with 3.
    rewrite (back_digit_0 l 3), (back_digit_0 l 4) in Ed by lia.
    back_step backlen_more (back_digit l 0); [|lia].
    back_step backlen_more (back_digit l 1); [|lia].
    back_step backlen_last (back_digit l 2); [f_equal; lia|lia].
  - change (zlen [_; _; _; _]) with 4.
    rewrite (back_digit_0 l 4) in Ed by lia.
    back_step backlen_more (back_digit l 0); [|lia].
    back_step backlen_more (back_digit l 1); [|lia].
    back_step backlen_more (back_digit l 2); [|lia].
    back_step backlen_last (back_digit l 3); [f_equal; lia|lia].
  - change (zlen [_; _; _; _; _]) with 5.
    back_step backlen_more (back_digit l 0); [|lia].
    back_step backlen_more (back_digit l 1); [|lia].
    back_step backlen_more (back_digit l 2); [|lia].
    back_step backlen_more (back_digit l 3); [|lia].
    back_step backlen_last (back_digit l 4); [f_equal; lia|lia].
Qed.

Lemma backlen_size_range l : 1 <= backlen_size l <= 5.
Proof. unfold backlen_size, lpEncodeBacklen, zlen. repeat case_match; simpl; lia. Qed.

(** ** Blocks *)

Definition lp_body (es : list lp_ent) : list Z := concat (ent_bytes <$> es).

Definition lp_total (es : list lp_ent) : Z := LP_HDR_SIZE + zlen (lp_body es) + 1.

Definition lp_header (num total : Z) : list Z := le_split 4 total ++ le_split 2 num.

Definition lp_block (num : Z) (es : list lp_ent) (slack : list Z) : list Z :=
  lp_header num (lp_total es) ++ lp_body es ++ [LP_EOF] ++ slack.

(** The cached count is exact, or says "unknown". *)
Definition num_ok (num : Z) (es : list lp_ent) : Prop :=
  (num = zlen es /\ num < LP_HDR_NUMELE_UNKNOWN) \/ num = LP_HDR_NUMELE_UNKNOWN.

Record lp_wf (num : Z) (es : list lp_ent) : Prop := {
  wf_ents : Forall ent_ok es;
  wf_total : lp_total es <= UINT32_MAX;
  wf_num : num_ok num es;
}.

Definition LpRepr (lp : list Z) (es : list lp_ent) : Prop :=
  exists num slack, lp = lp_block num es slack /\ lp_wf num es.

(** The offset at which the entries after [es1] start. *)
Definition lp_off (es1 : list lp_ent) : Z := LP_HDR_SIZE + zlen (lp_body es1).

Lemma lp_body_app es1 es2 : lp_body (es1 ++ es2) = lp_body es1 ++ lp_body es2.
Proof. unfold lp_body. by rewrite fmap_app, concat_app. Qed.

Lemma lp_body_cons e es : lp_body (e :: es) = ent_bytes e ++ lp_body es.
Proof. done. Qed.

Lemma zlen_ent_bytes e :
  zlen (ent_bytes e) = zlen (ent_data e) + backlen_size (zlen (ent_data e)).
Proof. unfold ent_bytes. by rewrite zlen_app. Qed.

Lemma zlen_lp_header num total : zlen (lp_header num total) = LP_HDR_SIZE.
Proof. unfold lp_header. by autorewrite with zlen. Qed.

Lemma zlen_int_data v : 1 <= zlen (lpEncodeIntegerGetType v) <= 9.
Proof. unfold lpEncodeIntegerGetType, zlen. repeat case_match; simpl; lia. Qed.

Lemma zlen_str_data s :
  zlen (lpEncodeString_bytes s (zlen s)) =
    zlen s + (if zlen s <? 64 then 1 else if zlen s <? 4096 then 2 else 5).
Proof.
  unfold lpEncodeString_bytes.
  assert (take (Z.to_nat (zlen s)) s = s) as -> by (apply take_ge; unfold zlen; lia).
  repeat case_match; rewrite zlen_app; unfold zlen; simpl length; lia.
Qed.

Lemma str_data_split s :
  exists h, lpEncodeString_bytes s (zlen s) = h ++ s /\ 1 <= zlen h.
Proof.
  unfold lpEncodeString_bytes.
  assert (take (Z.to_nat (zlen s)) s = s) as -> by (apply take_ge; unfold zlen; lia).
  repeat case_match; eexists; (split; [done|]); unfold zlen; simpl; lia.
Qed.

Lemma zlen_ent_data_pos e : 1 <= zlen (ent_data e).
Proof.
  destruct e as [v|s]; simpl.
  - pose proof (zlen_int_data v). lia.
  - rewrite zlen_str_data. pose proof (zlen_nonneg s). repeat case_match; lia.
Qed.

#[export] Hint Rewrite lp_body_app lp_body_cons zlen_ent_bytes zlen_lp_header : zlen.

Ltac ent_pos e :=
  pose proof (zlen_ent_data_pos e); pose proof (backlen_size_range (zlen (ent_data e))).

Lemma lp_off_snoc es1 e : lp_off (es1 ++ [e]) = lp_off es1 + zlen (ent_bytes e).
Proof. unfold lp_off. autorewrite with zlen. change (lp_body []) with (@nil Z). len_lia. Qed.

Lemma lp_off_total es1 es2 : lp_off es1 + zlen (lp_body es2) + 1 = lp_total (es1 ++ es2).
Proof. unfold lp_off, lp_total. autorewrite with zlen. lia. Qed.

Lemma lp_total_off es : lp_total es = lp_off es + 1.
Proof. done. Qed.

(** A block seen from one of its entries, and from its terminator. *)
Lemma lp_block_at num es1 e es2 slack :
  exists pre post,
    lp_block num (es1 ++ e :: es2) slack = pre ++ ent_data e ++ post /\
    post = lpEncodeBacklen (zlen (ent_data e)) ++ lp_body es2 ++ [LP_EOF] ++ slack /\
    zlen pre = lp_off es1.
Proof.
  exists (lp_header num (lp_total (es1 ++ e :: es2)) ++ lp_body es1). eexists. split; [|split; [done|]].
  - unfold lp_block. rewrite lp_body_app, lp_body_cons. unfold ent_bytes. by rewrite <- !app_assoc.
  - unfold lp_off. by autorewrite with zlen.
Qed.

Lemma reads_ent pre post e :
  ent_ok e -> zlen (ent_data e) < 2 ^ 32 -> reads_as pre post e.
Proof.
  destruct e as [v|s]; simpl; intros He Hlen; [by apply reads_int|apply reads_str].
  rewrite zlen_str_data in Hlen. repeat case_match; lia.
Qed.

(** ** Header fields *)

Lemma getTotalBytes_header num total rest :
  0 <= total <= UINT32_MAX -> lpGetTotalBytes (lp_header num total ++ rest) = Some total.
Proof.
  intros Ht. unfold lpGetTotalBytes, lp_header. rewrite <- app_assoc.
  rewrite <- (app_nil_l (le_split 4 total ++ _)), or_bytes_le_split by done.
  f_equal. apply Z.mod_small. unfold_limits. simpl. lia.
Qed.

Lemma getNumElements_header num total rest :
  0 <= num <= UINT16_MAX -> lpGetNumElements (lp_header num total ++ rest) = Some num.
Proof.
  intros Hn. unfold lpGetNumElements, lp_header. rewrite <- app_assoc.
  rewrite or_bytes_le_split by (by autorewrite with zlen).
  f_equal. apply Z.mod_small. unfold_limits. simpl. lia.
Qed.

Lemma le_split_setb_4 v :
  [Z.land v 255; Z.land (Z.shiftr v 8) 255; Z.land (Z.shiftr v 16) 255; Z.land (Z.shiftr v 24) 255]
  = le_split 4 v.
Proof. rewrite !le_split_S, !Z.shiftr_shiftr, !land_255 by lia. done. Qed.

Lemma setTotalBytes_header num total total' rest :
  lpSetTotalBytes (lp_header num total ++ rest) total' = Some (lp_header num total' ++ rest).
Proof.
  unfold lp_header. rewrite <- (le_split_setb_4 total'). rewrite <- !app_assoc.
  assert (exists a b c d, le_split 4 total = [a; b; c; d]) as (a & b & c & d & ->) by (by do 4 eexists).
  done.
Qed.

Lemma setNumElements_header num num' total rest :
  lpSetNumElements (lp_header num total ++ rest) num' = Some (lp_header num' total ++ rest).
Proof.
  unfold lp_header. rewrite <- !app_assoc.
  assert (le_split 2 num' = [Z.land num' 255; Z.land (Z.shiftr num' 8) 255]) as ->
    by (by rewrite !le_split_S, !land_255).
  assert (exists a b c d, le_split 4 total = [a; b; c; d]) as (a & b & c & d & ->) by (by do 4 eexists).
  assert (exists a b, le_split 2 num = [a; b]) as (x & y & ->) by (by do 2 eexists).
  done.
Qed.

Lemma lp_header_split num total : lp_header num total = le_split 4 total ++ le_split 2 num.
Proof. done. Qed.

Global Opaque lp_header.

(** ** Reading a block *)

Section Block.
Context (num : Z) (es : list lp_ent) (slack : list Z) (WF : lp_wf num es).
Let lp := lp_block num es slack.

Lemma lp_total_range : 7 <= lp_total es <= UINT32_MAX.
Proof. pose proof (wf_total _ _ WF). unfold lp_total, LP_HDR_SIZE in *. len_lia. Qed.

Lemma num_range : 0 <= num <= UINT16_MAX.
Proof.
  pose proof (zlen_nonneg es).
  destruct (wf_num _ _ WF) as [[-> Hn]|Hn]; unfold LP_HDR_NUMELE_UNKNOWN in *; unfold_limits; lia.
Qed.

Lemma zlen_lp : zlen lp = lp_total es + zlen slack.
Proof. unfold lp, lp_block, lp_total. autorewrite with zlen. lia. Qed.

Lemma getTotalBytes_block : lpGetTotalBytes lp = Some (lp_total es).
Proof. pose proof lp_total_range. apply getTotalBytes_header. lia. Qed.

Lemma getNumElements_block : lpGetNumElements lp = Some num.
Proof. apply getNumElements_header, num_range. Qed.

Lemma getb_eof p : p = lp_total es - 1 -> getb lp p = Some LP_EOF.
Proof.
  intros ->. unfold lp, lp_block. rewrite app_assoc. apply getb_mid.
  unfold lp_total. autorewrite with zlen. lia.
Qed.

Lemma getb_eof' p : p = lp_off es -> getb lp p = Some LP_EOF.
Proof. intros ->. apply getb_eof. rewrite lp_total_off. lia. Qed.

Section Entry.
Context (es1 : list lp_ent) (e : lp_ent) (es2 : list lp_ent) (Hes : es = es1 ++ e :: es2).

Lemma entry_ok : ent_ok e.
Proof. pose proof (wf_ents _ _ WF) as H. rewrite Hes in H. by apply Forall_app, proj2, Forall_cons, proj1 in H. Qed.

Lemma entry_fits : lp_off es1 + zlen (ent_bytes e) + zlen (lp_body es2) + 1 = lp_total es.
Proof. unfold lp_off, lp_total. rewrite Hes. autorewrite with zlen. lia. Qed.

Lemma entry_short : zlen (ent_data e) + backlen_size (zlen (ent_data e)) + 7 <= UINT32_MAX.
Proof.
  pose proof entry_fits as H. pose proof lp_total_range. rewrite zlen_ent_bytes in H.
  pose proof (zlen_nonneg (lp_body es1)). pose proof (zlen_nonneg (lp_body es2)).
  unfold lp_off, LP_HDR_SIZE in *. lia.
Qed.

Lemma entry_reads :
  exists pre post, lp = pre ++ ent_data e ++ post /\ zlen pre = lp_off es1 /\
    reads_as pre post e /\
    post = lpEncodeBacklen (zlen (ent_data e)) ++ lp_body es2 ++ [LP_EOF] ++ slack.
Proof.
  destruct (lp_block_at num es1 e es2 slack) as (pre & post & E & Ep & El).
  exists pre, post. unfold lp. rewrite Hes. split_and!; [done|done| |done].
  apply reads_ent; [apply entry_ok|].
  pose proof entry_short. ent_pos e. unfold_limits. lia.
Qed.

Lemma head_block : exists b, getb lp (lp_off es1) = Some b /\ b <> LP_EOF.
Proof. destruct entry_reads as (pre & post & -> & <- & (H & _) & _). done. Qed.

Lemma size_block : lpCurrentEncodedSizeUnsafe lp (lp_off es1) = Some (zlen (ent_data e)).
Proof. destruct entry_reads as (pre & post & -> & <- & (_ & H & _) & _). done. Qed.

Lemma skip_block : lpSkip lp (lp_off es1) = Some (lp_off (es1 ++ [e])).
Proof.
  unfold lpSkip. rewrite size_block. cbn [mbind option_bind].
  by rewrite lp_off_snoc, zlen_ent_bytes.
Qed.

Lemma backlen_block : lpDecodeBacklen lp (lp_off (es1 ++ [e]) - 1) = Some (zlen (ent_data e)).
Proof.
  destruct entry_reads as (pre & post & -> & Hp & _ & ->). rewrite app_assoc.
  pose proof entry_short. ent_pos e.
  apply lpDecodeBacklen_enc; [lia|]. rewrite lp_off_snoc, zlen_ent_bytes, zlen_app. lia.
Qed.

Lemma validateNext_block :
  lpValidateNext lp (Some (lp_off es1)) (lp_total es) = Some (true, Some (lp_off (es1 ++ [e]))).
Proof.
  pose proof entry_fits as Hf. pose proof entry_short. ent_pos e.
  pose proof (zlen_nonneg (lp_body es1)). pose proof (zlen_nonneg (lp_body es2)).
  assert (LP_HDR_SIZE <= lp_off es1) by (unfold lp_off; lia).
  pose proof backlen_block as Hb. pose proof size_block as Hs. pose proof lp_total_range.
  destruct head_block as (b & Hg & Hne).
  destruct entry_reads as (pre & post & E & Hp & (_ & _ & (k & Hk & Hkr) & _) & _).
  rewrite <- E, Hp in Hk. rewrite zlen_ent_bytes in Hf.
  unfold lpValidateNext. unfold out_of_range.
  replace (_ || _) with false by lia. rewrite Hg. cbn [mbind option_bind].
  apply Z.eqb_neq in Hne. rewrite Hne, Hk. cbn [mbind option_bind].
  replace (k =? 0) with false by lia. replace (_ || _) with false by lia.
  rewrite Hs. cbn [mbind option_bind]. replace (_ || _) with false by lia.
  rewrite lp_off_snoc, zlen_ent_bytes in Hb |- *. rewrite Hb. cbn [mbind option_bind].
  rewrite wrapu_small by (unfold_limits; lia). by rewrite Z.eqb_refl.
Qed.

Lemma assertValid_block : lpAssertValidEntry lp (lp_total es) (lp_off es1) = Some tt.
Proof. unfold lpAssertValidEntry. by rewrite validateNext_block. Qed.

Lemma getWithSize_block :
  exists v, lpGetWithSize lp (lp_off es1) = Some (v, Some (zlen (ent_bytes e))) /\
    match e, v with
    | EInt x, LpInt y => x = y
    | EStr s, LpStr off len => len = zlen s /\ mem_read lp off len = Some s /\
                               lp_off es1 < off
    | _, _ => False
    end.
Proof.
  destruct entry_reads as (pre & post & E & Hp & (_ & _ & _ & H) & _).
  rewrite zlen_ent_bytes. rewrite <- E, Hp in H. eexists. split; [done|].
  destruct e as [v|s]; simpl; [done|].
  destruct (str_data_split s) as (h & Eh & Hh). rewrite Hp, Eh, zlen_app.
  split_and!; [done| |lia].
  rewrite E. simpl ent_data. rewrite Eh, <- !app_assoc, app_assoc.
  apply mem_read_mid; [rewrite zlen_app; lia|done].
Qed.
End Entry.
End Block.

(** ** Listpack navigation, lookup and validation

    Positions by index: what [lpFirst], [lpNext], [lpPrev], [lpLast], [lpSeek],
    [lpLength] and [lpValidateIntegrity] answer on the block of a list of entries. *)

(** The offset of the [i]th entry; of the terminator when [i] is the length. *)
Definition ent_off (es : list lp_ent) (i : nat) : Z := lp_off (take i es).

(** The pointer to the [i]th entry, NULL past the end. *)
Definition ent_ptr (es : list lp_ent) (i : nat) : option Z :=
  if decide (i < length es)%nat then Some (ent_off es i) else None.

Lemma ent_off_0 es : ent_off es 0 = LP_HDR_SIZE.
Proof. done. Qed.

Lemma ent_off_end es : ent_off es (length es) = lp_total es - 1.
Proof. unfold ent_off. rewrite firstn_all, lp_total_off. lia. Qed.

Lemma ent_off_S es i e :
  es !! i = Some e -> ent_off es (S i) = lp_off (take i es ++ [e]).
Proof. intros Hi. unfold ent_off. by rewrite (take_S_r es i e). Qed.

Lemma ent_off_S_add es i e :
  es !! i = Some e -> ent_off es (S i) = ent_off es i + zlen (ent_bytes e).
Proof. intros Hi. rewrite (ent_off_S es i e Hi), lp_off_snoc. done. Qed.

Lemma ent_off_ge es i : LP_HDR_SIZE <= ent_off es i.
Proof. unfold ent_off, lp_off. len_lia. Qed.

Lemma ent_off_lt es i j : (i < j <= length es)%nat -> ent_off es i < ent_off es j.
Proof.
  intros [Hij Hj]. induction Hij as [|j Hij IH].
  - destruct (lookup_lt_is_Some_2 es i) as [e He]; [lia|].
    rewrite (ent_off_S_add es i e He), zlen_ent_bytes. ent_pos e. lia.
  - destruct (lookup_lt_is_Some_2 es j) as [e He]; [lia|].
    rewrite (ent_off_S_add es j e He), zlen_ent_bytes. ent_pos e.
    specialize (IH ltac:(lia)). lia.
Qed.

Lemma ent_off_le_total es i : (i <= length es)%nat -> ent_off es i <= lp_total es - 1.
Proof.
  intros Hi. rewrite <- ent_off_end. destruct (decide (i = length es)) as [->|]; [lia|].
  apply Z.lt_le_incl, ent_off_lt. lia.
Qed.

(** Splits the list of entries at an index. *)
Ltac at_index es i :=
  let e := fresh "e" in let He := fresh "He" in
  destruct (lookup_lt_is_Some_2 es i) as [e He]; [lia|];
  pose proof (eq_sym (take_drop_middle es i e He)).

Section Nav.
Context (num : Z) (es : list lp_ent) (slack : list Z) (WF : lp_wf num es).
Let lp := lp_block num es slack.

Lemma bytes_lp : lpGetTotalBytes lp = Some (lp_total es).
Proof. exact (getTotalBytes_block num es slack WF). Qed.

Lemma num_lp : lpGetNumElements lp = Some num.
Proof. exact (getNumElements_block num es slack WF). Qed.

Lemma head_at i : (i < length es)%nat -> exists b, getb lp (ent_off es i) = Some b /\ b <> LP_EOF.
Proof. intros Hi. at_index es i. by eapply head_block. Qed.

Lemma head_end : getb lp (ent_off es (length es)) = Some LP_EOF.
Proof. rewrite ent_off_end. by apply getb_eof. Qed.

Lemma head_test i : (i <= length es)%nat ->
  exists b, getb lp (ent_off es i) = Some b /\ (b =? LP_EOF) = bool_decide (i = length es).
Proof.
  intros Hi. destruct (decide (i = length es)) as [E|].
  - rewrite E. exists LP_EOF. split; [apply head_end|]. by rewrite bool_decide_eq_true_2.
  - destruct (head_at i) as (b & Hb & Hne); [lia|]. exists b. split; [done|].
    rewrite bool_decide_eq_false_2 by done. by apply Z.eqb_neq.
Qed.

Lemma skip_at i e : es !! i = Some e -> lpSkip lp (ent_off es i) = Some (ent_off es (S i)).
Proof.
  intros He. rewrite (ent_off_S es i e He). eapply skip_block; [done|].
  by rewrite take_drop_middle.
Qed.

Lemma assertValid_at i :
  (i < length es)%nat -> lpAssertValidEntry lp (lp_total es) (ent_off es i) = Some tt.
Proof. intros Hi. at_index es i. by eapply assertValid_block. Qed.

Lemma validateNext_at i :
  (i < length es)%nat ->
  lpValidateNext lp (Some (ent_off es i)) (lp_total es) = Some (true, Some (ent_off es (S i))).
Proof.
  intros Hi. at_index es i. rewrite (ent_off_S es i e He). by eapply validateNext_block.
Qed.

(** The common end of the navigation functions: NULL at the terminator. *)
Lemma ptr_or_null i :
  (i <= length es)%nat ->
  (b ← getb lp (ent_off es i);
   if b =? LP_EOF then Some None
   else bytes ← lpBytes lp; _ ← lpAssertValidEntry lp bytes (ent_off es i);
        Some (Some (ent_off es i))) = Some (ent_ptr es i).
Proof.
  intros Hi. destruct (head_test i Hi) as (b & -> & Hb). cbn [mbind option_bind]. rewrite Hb.
  unfold ent_ptr, lpBytes. case_bool_decide.
  - rewrite decide_False by lia. done.
  - rewrite bytes_lp.
    cbn [mbind option_bind]. rewrite assertValid_at by lia. by rewrite decide_True by lia.
Qed.

Lemma lpFirst_block : lpFirst lp = Some (ent_ptr es 0).
Proof. unfold lpFirst. rewrite <- (ent_off_0 es). apply ptr_or_null. lia. Qed.

Lemma lpNext_at i : (i < length es)%nat -> lpNext lp (ent_off es i) = Some (ent_ptr es (S i)).
Proof.
  intros Hi. at_index es i. unfold lpNext. rewrite (skip_at i e He). cbn [mbind option_bind].
  apply ptr_or_null. lia.
Qed.

Lemma lpPrev_at i :
  (i <= length es)%nat ->
  lpPrev lp (ent_off es i) = Some (match i with O => None | S j => Some (ent_off es j) end).
Proof.
  intros Hi. unfold lpPrev. destruct i as [|j]; [done|].
  pose proof (ent_off_lt es 0 (S j) ltac:(lia)) as H0. rewrite ent_off_0 in H0.
  replace (_ =? LP_HDR_SIZE) with false by lia.
  at_index es j. rewrite (ent_off_S es j e He).
  pose proof (backlen_block num es slack WF _ _ _ H) as Hb. fold lp in Hb. rewrite Hb.
  cbn [mbind option_bind].
  pose proof (entry_short num es WF _ _ _ H) as Hs. ent_pos e.
  rewrite wrapu_small by (unfold_limits; lia).
  replace (_ - 1 - _) with (ent_off es j)
    by (rewrite lp_off_snoc, zlen_ent_bytes; unfold ent_off; lia).
  unfold lpBytes. rewrite bytes_lp.
  cbn [mbind option_bind]. by rewrite assertValid_at by lia.
Qed.

Lemma lpLast_block :
  lpLast lp = Some (match length es with O => None | S j => Some (ent_off es j) end).
Proof.
  unfold lpLast. rewrite bytes_lp.
  cbn [mbind option_bind]. rewrite <- ent_off_end. by apply lpPrev_at.
Qed.

Lemma seek_forward i n :
  (i <= length es)%nat -> lp_seek_forward lp (ent_ptr es i) n = Some (ent_ptr es (i + n)).
Proof.
  revert i. induction n as [|n IH]; intros i Hi; [by rewrite Nat.add_0_r; destruct (ent_ptr es i)|].
  unfold ent_ptr at 1. destruct (decide (i < length es)%nat).
  - simpl. rewrite lpNext_at by lia. cbn [mbind option_bind]. rewrite IH by lia.
    do 2 f_equal. lia.
  - simpl. unfold ent_ptr. by rewrite decide_False by lia.
Qed.

Lemma seek_backward i n :
  (i < length es)%nat ->
  lp_seek_backward lp (Some (ent_off es i)) n =
    Some (if decide (n <= i)%nat then Some (ent_off es (i - n)) else None).
Proof.
  revert i. induction n as [|n IH]; intros i Hi.
  - rewrite decide_True by lia. by rewrite Nat.sub_0_r.
  - simpl. rewrite lpPrev_at by lia. cbn [mbind option_bind]. destruct i as [|i].
    + rewrite decide_False by lia. by destruct n.
    + rewrite IH by lia. repeat case_decide; try lia; done.
Qed.

(** Every entry takes at least two bytes, so counters of entries do not wrap. *)
Lemma zlen_body_ge l : 2 * zlen l <= zlen (lp_body l).
Proof.
  induction l as [|e l IH]; [done|]. ent_pos e. autorewrite with zlen. lia.
Qed.

Lemma zlen_es : 0 <= zlen es < UINT32_MAX /\ (length es < length lp)%nat.
Proof.
  pose proof (zlen_body_ge es). pose proof (lp_total_range num es WF).
  pose proof (zlen_lp num es slack) as Hl. pose proof (zlen_nonneg es).
  pose proof (zlen_nonneg slack).
  unfold lp_total, LP_HDR_SIZE in *. fold lp in Hl. unfold zlen in *. lia.
Qed.

Lemma lpLength_body_at i :
  (i <= length es)%nat ->
  lpLength_body lp (ent_ptr es i, Z.of_nat i) =
    Some (if decide (i < length es)%nat then inl (ent_ptr es (S i), Z.of_nat (S i))
          else inr (Z.of_nat i)).
Proof.
  intros Hi. unfold lpLength_body, ent_ptr at 1. pose proof zlen_es. case_decide; [|done].
  rewrite lpNext_at by lia. cbn [mbind option_bind].
  rewrite wrapu_small by (unfold_limits; unfold zlen in *; lia). do 3 f_equal. lia.
Qed.

Lemma lpLength_loop i fuel :
  (i <= length es < i + fuel)%nat ->
  loop fuel (lpLength_body lp) (ent_ptr es i, Z.of_nat i) = Some (zlen es).
Proof.
  revert i. induction fuel as [|fuel IH]; intros i Hi; [lia|].
  cbn [loop]. rewrite lpLength_body_at by lia. case_decide; [apply IH; lia|].
  unfold zlen. do 2 f_equal. lia.
Qed.

(** The count, and the block with its cached count possibly filled in. *)
Lemma lpLength_block :
  exists num', lpLength lp = Some (lp_block num' es slack, zlen es) /\ lp_wf num' es.
Proof.
  pose proof zlen_es. unfold lpLength. rewrite num_lp. cbn [mbind option_bind].
  destruct (num =? LP_HDR_NUMELE_UNKNOWN) eqn:En; cbn [negb].
  - rewrite lpFirst_block. cbn [mbind option_bind].
    rewrite (lpLength_loop 0) by lia. cbn [mbind option_bind].
    destruct (zlen es <? LP_HDR_NUMELE_UNKNOWN) eqn:El.
    + unfold lp, lp_block. rewrite setNumElements_header. cbn [mbind option_bind].
      eexists. split; [done|]. destruct WF. constructor; [done..|]. left. split; [done|lia].
    + by exists num.
  - exists num. split; [|done]. do 2 f_equal. destruct WF as [_ _ [[? _]|?]]; lia.
Qed.

Lemma lpSeek_block index :
  lpSeek lp index =
    Some (let i := if index <? 0 then zlen es + index else index in
          if i <? 0 then None else ent_ptr es (Z.to_nat i)).
Proof.
  pose proof zlen_es. unfold lpSeek. rewrite num_lp. cbn [mbind option_bind].
  assert (forall k, 0 <= k ->
    (ele ← lpFirst lp; lp_seek_forward lp ele (Z.to_nat k)) = Some (ent_ptr es (Z.to_nat k)))
    as Hf.
  { intros k Hk. rewrite lpFirst_block. cbn [mbind option_bind]. by rewrite seek_forward by lia. }
  assert (forall k, k < 0 ->
    (ele ← lpLast lp; lp_seek_backward lp ele (Z.to_nat (- k - 1))) =
    Some (if zlen es + k <? 0 then None else ent_ptr es (Z.to_nat (zlen es + k)))) as Hb.
  { intros k Hk. rewrite lpLast_block. cbn [mbind option_bind]. unfold zlen, ent_ptr.
    destruct (length es) as [|j] eqn:Ej; cbn [mbind option_bind].
    - rewrite Z.add_0_l. replace (k <? 0) with true by lia. by destruct (Z.to_nat _).
    - rewrite seek_backward by lia. destruct (Z.ltb_spec (Z.of_nat (S j) + k) 0).
      + by rewrite decide_False by lia.
      + rewrite !decide_True by lia. do 3 f_equal. lia. }
  destruct (num =? LP_HDR_NUMELE_UNKNOWN) eqn:En; cbn [negb].
  - destruct (index <? 0) eqn:Ei; cbn [negb]; [by rewrite Hb by lia|].
    rewrite Hf by lia. cbv zeta. by rewrite Ei.
  - assert (num = zlen es) as Hn by (destruct WF as [_ _ [[? _]|?]]; lia).
    rewrite Hn. set (i := if index <? 0 then zlen es + index else index).
    destruct (i <? 0) eqn:Ei; [done|].
    destruct (i >=? zlen es) eqn:Eg.
    + unfold ent_ptr, zlen in *. by rewrite decide_False by lia.
    + destruct (i >? zlen es / 2) eqn:Eh; [|by rewrite Hf by lia].
      rewrite Hb by lia. replace (zlen es + (i - zlen es)) with i by lia. by rewrite Ei.
Qed.

Lemma validate_loop cb i fuel :
  (i <= length es < i + fuel)%nat ->
  loop fuel (lpValidate_body lp (lp_total es) num cb) (Some (ent_off es i), Z.of_nat i) =
    Some (if forallb (fun j => cb (ent_off es j) num) (seq i (length es - i))
          then Some (Some (ent_off es (length es)), zlen es) else None).
Proof.
  revert i. induction fuel as [|fuel IH]; intros i Hi; [lia|].
  pose proof zlen_es.
  cbn [loop]. unfold lpValidate_body at 1. destruct (head_test i ltac:(lia)) as (b & -> & Hb). cbn [mbind option_bind].
  rewrite Hb. case_bool_decide as Ei.
  - rewrite Ei, Nat.sub_diag. done.
  - rewrite validateNext_at by lia. cbn [mbind option_bind negb].
    replace (length es - i)%nat with (S (length es - S i)) by lia. cbn [seq forallb].
    cbn [default from_option id]. destruct (cb (ent_off es i) num); [|done]. cbn [negb andb].
    rewrite wrapu_small by (unfold_limits; unfold zlen in *; lia).
    replace (Z.of_nat i + 1) with (Z.of_nat (S i)) by lia. apply IH. lia.
Qed.

Lemma lpValidateIntegrity_block deep cb :
  lpValidateIntegrity lp (lp_total es) deep cb =
    Some (negb deep || forallb (fun j => cb (ent_off es j) num) (seq 0 (length es))).
Proof.
  pose proof (lp_total_range num es WF). pose proof zlen_es. unfold lpValidateIntegrity.
  replace (_ <? _) with false by (unfold LP_HDR_SIZE; lia). rewrite bytes_lp.
  cbn [mbind option_bind]. rewrite Z.eqb_refl. cbn [negb].
  rewrite <- ent_off_end, head_end. cbn [mbind option_bind]. rewrite Z.eqb_refl. cbn [negb].
  destruct deep; [|done]. cbn [negb orb]. rewrite num_lp. cbn [mbind option_bind].
  pose proof (validate_loop cb 0 (S (length lp)) ltac:(lia)) as L.
  rewrite ent_off_0, Nat.sub_0_r in L. change (Z.of_nat 0) with 0 in L. rewrite L.
  cbn [mbind option_bind].
  case_match; [|done]. rewrite bool_decide_eq_true_2 by done. cbn [negb].
  destruct WF as [_ _ [[-> _]|E]]; [rewrite Z.eqb_refl|rewrite E, Z.eqb_refl];
    cbn [negb]; by rewrite ?andb_false_r.
Qed.
End Nav.
