(* ===== verification/ListpackEdit.v ===== *)
(** * Listpack editing

    [lpInsert] in all its uses is one splice of the list of entries: the entry [o] (if
    any) at a position is replaced by the entry [n] (if any). *)
From S2P Require Import Prelude Numstr NumstrFacts NumstrProps Listpack ListpackFacts ListpackOps.

(** ** The entry a string becomes *)

Definition str_ent (s : list Z) : lp_ent :=
  match lpStringToInt64 s (zlen s) with Some (Some v) => EInt v | _ => EStr s end.

Lemma lpStringToInt64_total s : exists o, lpStringToInt64 s (zlen s) = Some o /\
  (forall v, o = Some v <-> IsDec s v /\ in_int64 v).
Proof.
  rewrite lpStringToInt64_string2ll. pose proof (string2ll_spec s []) as H.
  by rewrite app_nil_r in H.
Qed.

Lemma str_ent_ok s : Forall is_byte s -> ent_ok (str_ent s).
Proof.
  intros Hs. unfold str_ent. destruct (lpStringToInt64_total s) as ([v|] & -> & Hv); [|done].
  by apply Hv.
Qed.

(** ** The element argument *)

(** [ele_ok ele n]: the argument [ele] stands for inserting the entry [n]. *)
Definition ele_ok (ele : lp_ele) (n : option lp_ent) : Prop :=
  match ele with
  | EleStr s size => size = zlen s /\ Forall is_byte s /\ zlen s <= UINT32_MAX /\ n = Some (str_ent s)
  | EleInt b => exists v, INT64_MIN <= v <= INT64_MAX /\ b = lpEncodeIntegerGetType v /\ n = Some (EInt v)
  | EleNone => n = None
  end.

Definition opt_bytes (n : option lp_ent) : list Z := lp_body (option_list n).

Definition ele_encode (ele : lp_ele) : option (list Z + Z) :=
  match ele with
  | EleStr s size => lpEncodeGetType s size
  | EleInt b => Some (inl b)
  | EleNone => Some (inr 0)
  end.

Lemma encode_spec ele e :
  ele_ok ele (Some e) ->
  exists enc, ele_encode ele = Some enc /\ enc_len enc = zlen (ent_data e) /\
    (forall m dst, lp_store m dst enc ele = mem_write m dst (ent_data e)) /\
    is_delete ele = false /\ ent_ok e /\ zlen (ent_data e) <= UINT32_MAX + 5.
Proof.
  destruct ele as [s size|b|]; simpl; [|intros (v & Hv & -> & [= ->])|done].
  - intros (-> & Hb & Hs & [= ->]). pose proof (str_ent_ok s Hb) as Hok. revert Hok.
    unfold str_ent, lpEncodeGetType.
    destruct (lpStringToInt64_total s) as ([v|] & -> & _); cbn [mbind option_bind]; intros Hok.
    + eexists. split_and!; try done. simpl. pose proof (zlen_int_data v). unfold_limits. lia.
    + eexists. split_and!; try done.
      * simpl. rewrite zlen_str_data. repeat case_match; lia.
      * intros m dst. simpl. unfold lpEncodeString. by rewrite Z.leb_refl.
      * simpl. rewrite zlen_str_data. repeat case_match; lia.
  - eexists. split_and!; try done. simpl. pose proof (zlen_int_data v). unfold_limits. lia.
Qed.

(** ** The memory part: make room, or close the gap *)

Lemma memmove_splice pre r t s n :
  0 <= n <= zlen r + zlen s ->
  exists hole rest, zlen hole = n /\ zlen rest = zlen r + zlen s - n /\
    memmove (pre ++ r ++ t ++ s) (zlen pre + n) (zlen pre + zlen r) (zlen t)
      = Some (pre ++ hole ++ t ++ rest).
Proof.
  intros Hn. unfold memmove.
  assert (mem_read (pre ++ r ++ t ++ s) (zlen pre + zlen r) (zlen t) = Some t) as ->
    by (rewrite app_assoc; apply mem_read_mid; [by rewrite zlen_app|done]).
  cbn [mbind option_bind].
  destruct (mem_split (r ++ t ++ s) n (zlen t)) as (hole & old & rest & E & Hh & Ho);
    [lia|len_lia|autorewrite with zlen; lia|].
  exists hole, rest. rewrite E. split_and!; [done| |].
  - assert (zlen (r ++ t ++ s) = zlen (hole ++ old ++ rest)) as El by (by rewrite E).
    autorewrite with zlen in El. lia.
  - rewrite (app_assoc pre hole), mem_write_mid by (rewrite ?zlen_app; lia).
    by rewrite <- app_assoc.
Qed.

Lemma splice_memory `{Allocator} pre r t s n old new :
  0 <= n -> old = zlen pre + zlen r + zlen t -> new = old + n - zlen r ->
  exists hole s', zlen hole = n /\
    exists m2, memmove (if (new >? old) && (new >? zlen (pre ++ r ++ t ++ s))
                        then mem_resize (pre ++ r ++ t ++ s) new else pre ++ r ++ t ++ s)
                 (zlen pre + n) (zlen pre + zlen r) (zlen t) = Some m2 /\
      (if new <? old then mem_resize m2 new else m2) = pre ++ hole ++ t ++ s'.
Proof.
  intros Hn -> ->. set (m := pre ++ r ++ t ++ s).
  assert (exists s1, n <= zlen r + zlen s1 /\
    (if (zlen pre + zlen r + zlen t + n - zlen r >? zlen pre + zlen r + zlen t) &&
        (zlen pre + zlen r + zlen t + n - zlen r >? zlen m)
     then mem_resize m (zlen pre + zlen r + zlen t + n - zlen r) else m) = pre ++ r ++ t ++ s1)
    as (s1 & Hs1 & ->).
  { assert (zlen m = zlen pre + zlen r + zlen t + zlen s) as Hm
      by (unfold m; autorewrite with zlen; lia). pose proof (zlen_nonneg s).
    case_match eqn:E.
    - destruct (mem_resize_grow m (zlen pre + zlen r + zlen t + n - zlen r)) as (j & -> & Hj); [lia|].
      exists (s ++ j). split; [rewrite zlen_app; lia|]. unfold m. by rewrite <- !app_assoc.
    - exists s. split; [lia|done]. }
  destruct (memmove_splice pre r t s1 n) as (hole & rest & Hh & Hr & ->); [lia|].
  case_match eqn:E.
  - exists hole, []. split; [done|]. eexists. split; [done|].
    rewrite app_nil_r, !(app_assoc _ _ rest), !app_assoc.
    rewrite <- (app_assoc _ t rest), app_assoc. rewrite mem_resize_shrink; [done|].
    autorewrite with zlen. lia.
  - exists hole, rest. split; [done|]. by eexists.
Qed.

(** Filling the hole with an entry and its length. *)
Lemma store_hole pre hole t data back :
  zlen hole = zlen data + zlen back ->
  (m ← mem_write (pre ++ hole ++ t) (zlen pre) data; mem_write m (zlen pre + zlen data) back)
    = Some (pre ++ (data ++ back) ++ t).
Proof.
  intros Hh. destruct (mem_split hole 0 (zlen data)) as (a & h1 & h2 & -> & Ha & H1);
    [lia|len_lia|pose proof (zlen_nonneg back); lia|].
  assert (a = []) as -> by (destruct a; [done|rewrite zlen_cons in Ha; len_lia]).
  rewrite !zlen_app in Hh. rewrite app_nil_l. rewrite <- app_assoc.
  rewrite mem_write_mid by done. cbn [mbind option_bind].
  rewrite (app_assoc pre data), mem_write_mid by (rewrite ?zlen_app; lia).
  by rewrite <- !app_assoc.
Qed.

(** The update of the cached count, as the editing functions do it. *)
Definition bump_num (num delta : Z) : Z :=
  if num =? LP_HDR_NUMELE_UNKNOWN then num else num + delta.

Lemma num_ok_bump num es es' delta :
  num_ok num es -> zlen es' = zlen es + delta -> -zlen es <= delta <= 1 ->
  num_ok (bump_num num delta) es' /\ 0 <= bump_num num delta <= UINT16_MAX.
Proof.
  unfold num_ok, bump_num, LP_HDR_NUMELE_UNKNOWN. unfold_limits. pose proof (zlen_nonneg es).
  intros [[-> Hn]| ->] Hl Hd; case_match; lia.
Qed.

Lemma zlen_opt_bytes_some e : zlen (opt_bytes (Some e)) = zlen (ent_bytes e).
Proof. unfold opt_bytes. simpl option_list. rewrite lp_body_cons, zlen_app. apply Z.add_0_r. Qed.

Section Insert.
Context `{Allocator} (num : Z) (es1 es2 : list lp_ent) (o n : option lp_ent) (slack : list Z).
Let es := es1 ++ option_list o ++ es2.
Let es' := es1 ++ option_list n ++ es2.
Context (WF : lp_wf num es).
Let lp := lp_block num es slack.
Let pre := lp_header num (lp_total es) ++ lp_body es1.
Let t := lp_body es2 ++ [LP_EOF].

Lemma insert_view : lp = pre ++ opt_bytes o ++ t ++ slack.
Proof.
  unfold lp, lp_block, pre, t, es, opt_bytes. rewrite !lp_body_app. by rewrite <- !app_assoc.
Qed.

Lemma zlen_pre : zlen pre = lp_off es1.
Proof. unfold pre, lp_off. by autorewrite with zlen. Qed.

Lemma zlen_t : zlen t = lp_total es - lp_off es1 - zlen (opt_bytes o).
Proof.
  unfold t, lp_total, lp_off, es, opt_bytes. rewrite !lp_body_app.
  autorewrite with zlen. lia.
Qed.

Lemma total_es' : lp_total es' = lp_total es + zlen (opt_bytes n) - zlen (opt_bytes o).
Proof. unfold lp_total, es, es', opt_bytes. rewrite !lp_body_app. autorewrite with zlen. lia. Qed.

(** The length of what is replaced, as the code reads it. *)
Lemma replaced_spec e :
  o = Some e ->
  (r ← lpCurrentEncodedSizeUnsafe lp (lp_off es1);
   let r := u32 (r + backlen_size r) in
   _ ← ASSERT_INTEGRITY_LEN lp (lp_off es1) r; Some r) = Some (zlen (opt_bytes o)).
Proof.
  intros Ho. assert (es = es1 ++ e :: es2) as Hes by (unfold es; by rewrite Ho).
  unfold lp. rewrite (size_block num es slack WF es1 e es2 Hes). cbn [mbind option_bind].
  pose proof (entry_short num es WF es1 e es2 Hes). ent_pos e.
  pose proof (entry_fits es es1 e es2 Hes) as Hf.
  rewrite wrapu_small by (unfold_limits; lia).
  unfold ASSERT_INTEGRITY_LEN. rewrite getTotalBytes_block by done. cbn [mbind option_bind].
  rewrite Ho, zlen_opt_bytes_some, zlen_ent_bytes in *.
  unfold assert_true. replace (_ && _) with true; [done|].
  pose proof (zlen_nonneg (lp_body es1)). pose proof (zlen_nonneg (lp_body es2)).
  unfold lp_off, LP_HDR_SIZE in *. lia.
Qed.

(** The header after the edit. *)
Lemma finish_header delta s' :
  let rest := lp_body es' ++ [LP_EOF] ++ s' in
  zlen es' = zlen es + delta -> -1 <= delta <= 1 -> lp_total es' <= UINT32_MAX ->
  Forall ent_ok es' ->
  (lp ← (if negb (delta =? 0) then
           num0 ← lpGetNumElements (lp_header num (lp_total es) ++ rest);
           if negb (num0 =? LP_HDR_NUMELE_UNKNOWN)
           then lpSetNumElements (lp_header num (lp_total es) ++ rest) (u32 (num0 + delta))
           else Some (lp_header num (lp_total es) ++ rest)
         else Some (lp_header num (lp_total es) ++ rest));
   lpSetTotalBytes lp (lp_total es')) =
    Some (lp_block (bump_num num delta) es' s') /\
  lp_wf (bump_num num delta) es'.
Proof.
  intros rest Hl Hd Ht Hok.
  destruct (num_ok_bump num es es' delta (wf_num _ _ WF) Hl) as [Hn Hr]; [len_lia|].
  split; [|by constructor].
  rewrite getNumElements_header by (by eapply num_range). cbn [mbind option_bind].
  unfold lp_block. fold rest. unfold bump_num in *.
  destruct (delta =? 0) eqn:Ed; cbn [negb].
  { cbn [mbind option_bind]. rewrite setTotalBytes_header. do 2 f_equal.
    replace (num + delta) with num by lia. by case_match. }
  destruct (num =? LP_HDR_NUMELE_UNKNOWN) eqn:En; cbn [negb mbind option_bind];
    [apply setTotalBytes_header|].
  rewrite setNumElements_header. cbn [mbind option_bind].
  rewrite wrapu_small by (unfold_limits; lia). apply setTotalBytes_header.
Qed.

(** Where a whole edit ends: the new list of entries, or NULL when it is too long. *)
Definition edit_result (r : option (option (list Z * option Z))) (newp : option Z) : Prop :=
  if decide (lp_total es' <= UINT32_MAX)
  then exists num' s', r = Some (Some (lp_block num' es' s', newp)) /\ lp_wf num' es'
  else r = Some None.

Lemma es'_ok : (forall e, n = Some e -> ent_ok e) -> Forall ent_ok es'.
Proof.
  intros Hn. pose proof (wf_ents _ _ WF) as Hf. unfold es in Hf. unfold es'.
  apply Forall_app in Hf as [H1 Hf]. apply Forall_app in Hf as [_ H2].
  apply Forall_app. split; [done|]. apply Forall_app. split; [|done].
  destruct n; simpl; [|done]. constructor; [by apply Hn|done].
Qed.

Lemma new_bytes_spec k :
  0 <= zlen (opt_bytes n) <= UINT32_MAX + 10 -> k = lp_total es' -> u64 k = lp_total es'.
Proof.
  intros Hn ->. pose proof (lp_total_range num es WF). pose proof zlen_t as Ht.
  pose proof total_es'. pose proof (zlen_nonneg t). pose proof (zlen_nonneg (lp_body es1)).
  pose proof (zlen_nonneg (opt_bytes o)).
  apply wrapu_small. unfold lp_off, LP_HDR_SIZE in *. unfold_limits. lia.
Qed.

Lemma where_not_after {A} (x y : A) :
  (if (if o then LP_REPLACE else LP_BEFORE) is LP_AFTER then x else y) = y.
Proof. by destruct o. Qed.

Lemma option_bind_chain {A B C} (X X' : option A) (f : A -> option B) (g : B -> option C) r c :
  (x ← X; f x) = Some r -> X' = X -> g r = Some c -> (x ← X'; y ← f x; g y) = Some c.
Proof. intros E -> Hg. destruct X; simpl in *; [|done]. by rewrite E. Qed.

Let whr := if o then LP_REPLACE else LP_BEFORE.

Lemma total_lp : lpGetTotalBytes lp = Some (lp_total es).
Proof. exact (getTotalBytes_block num es slack WF). Qed.

Lemma replaced_or_zero :
  (if is_replace whr then
     r ← lpCurrentEncodedSizeUnsafe lp (lp_off es1);
     _ ← ASSERT_INTEGRITY_LEN lp (lp_off es1) (u32 (r + backlen_size r));
     Some (u32 (r + backlen_size r))
   else Some 0) = Some (zlen (opt_bytes o)).
Proof.
  pose proof replaced_spec as Hr. unfold whr. destruct o as [e|] eqn:Eo; [|done].
  simpl is_replace. cbv iota. by apply (Hr e).
Qed.

Lemma memmove_either m dst :
  (if is_replace whr
   then memmove m dst (lp_off es1 + zlen (opt_bytes o))
          (lp_total es - lp_off es1 - zlen (opt_bytes o))
   else memmove m dst (lp_off es1) (lp_total es - lp_off es1)) =
  memmove m dst (zlen pre + zlen (opt_bytes o)) (zlen t).
Proof.
  rewrite zlen_t, zlen_pre. unfold whr. destruct o; simpl is_replace; [done|].
  cbv iota. change (zlen (opt_bytes None)) with 0. by rewrite Z.add_0_r, Z.sub_0_r.
Qed.

Lemma lpInsert_store ele e :
  ele_ok ele n -> n = Some e ->
  edit_result (lpInsert lp ele (lp_off es1) (if o then LP_REPLACE else LP_BEFORE))
              (Some (lp_off es1)).
Proof.
  intros He Hn. rewrite Hn in He.
  destruct (encode_spec ele e He) as (enc & Henc & Hlen & Hst & Hdel & Hok & Hsz). ent_pos e.
  pose proof total_es' as Htot. pose proof zlen_t as Ht. pose proof zlen_pre as Hp.
  assert (zlen (opt_bytes n) = zlen (ent_data e) + backlen_size (zlen (ent_data e))) as Hob
    by (rewrite Hn, zlen_opt_bytes_some; apply zlen_ent_bytes).
  assert (zlen es' = zlen es + (if o then 0 else 1)) as Hzl.
  { unfold es', es. rewrite Hn. autorewrite with zlen. destruct o; simpl option_list;
      autorewrite with zlen; lia. }
  unfold lpInsert. rewrite Hdel. change (match ele with EleStr _ _ => _ | _ => _ end) with (ele_encode ele).
  rewrite where_not_after. cbn [mbind option_bind]. fold whr.
  rewrite Henc. cbn [mbind option_bind].
  rewrite total_lp. cbn [mbind option_bind].
  rewrite replaced_or_zero. cbn [mbind option_bind]. rewrite Hlen.
  change (zlen (lpEncodeBacklen ?x)) with (backlen_size x).
  rewrite new_bytes_spec by lia. rewrite memmove_either. rewrite insert_view.
  unfold edit_result. destruct (decide (lp_total es' <= UINT32_MAX)) as [Hfit|Hbig];
    [|by replace (_ >? _) with true by lia].
  replace (_ >? UINT32_MAX) with false by lia.
  destruct (splice_memory pre (opt_bytes o) t slack (zlen (opt_bytes n)) (lp_total es) (lp_total es'))
    as (hole & s' & Hh & m2 & Hm & Hres); [lia..|].
  replace (lp_off es1 + zlen (ent_data e) + _) with (zlen pre + zlen (opt_bytes n)) by lia.
  rewrite Hm. cbn [mbind option_bind]. rewrite Hres, Hst, <- Hp.
  rewrite store_hole by (unfold backlen_size in *; lia). cbn [mbind option_bind].
  assert (pre ++ (ent_data e ++ lpEncodeBacklen (zlen (ent_data e))) ++ t ++ s'
          = lp_header num (lp_total es) ++ lp_body es' ++ [LP_EOF] ++ s') as ->.
  { unfold pre, t, es'. rewrite !lp_body_app. rewrite Hn.
    change (lp_body (option_list (Some e))) with (ent_bytes e ++ []). rewrite app_nil_r.
    unfold ent_bytes. by rewrite <- !app_assoc. }
  destruct (finish_header (if o then 0 else 1) s' Hzl) as [Hfin Hwf];
    [by destruct o|done|apply es'_ok; intros ? E; congruence|].
  eexists _, s'. split; [|exact Hwf].
  eapply (option_bind_chain _ _ _ _ _ _ Hfin); [|done]. unfold whr. by destruct o.
Qed.

(** The byte that follows the edited place. *)
Lemma tail_head pre' s' :
  exists b, getb (pre' ++ [] ++ t ++ s') (zlen pre') = Some b /\
    ((b =? LP_EOF) = if es2 is [] then true else false).
Proof.
  unfold t. destruct es2 as [|e2 es3] eqn:E2.
  - exists LP_EOF. split; [by apply getb_mid|done].
  - assert (es = (es1 ++ option_list o) ++ e2 :: es3) as Hes by (unfold es; by rewrite <- app_assoc).
    pose proof (entry_short num es WF _ _ _ Hes). pose proof (entry_ok num es WF _ _ _ Hes). ent_pos e2.
    rewrite lp_body_cons. unfold ent_bytes. rewrite <- !app_assoc, app_nil_l.
    destruct (reads_ent pre' (lpEncodeBacklen (zlen (ent_data e2)) ++ lp_body es3 ++ [LP_EOF] ++ s') e2)
      as ((b & Hb & Hne) & _); [done|unfold_limits; lia|].
    exists b. split; [done|]. by apply Z.eqb_neq.
Qed.

(** Deletion: [n] is empty, the replaced entry is not. *)
Lemma lpInsert_delete w :
  n = None -> is_Some o ->
  edit_result (lpInsert lp EleNone (lp_off es1) w)
              (if es2 is [] then None else Some (lp_off es1)).
Proof.
  intros Hn [e Ho].
  pose proof total_es' as Htot. pose proof zlen_t as Ht. pose proof zlen_pre as Hp.
  pose proof (lp_total_range num es WF). pose proof (zlen_nonneg (opt_bytes o)).
  assert (zlen (opt_bytes n) = 0) as Hob by (by rewrite Hn).
  assert (zlen es' = zlen es + -1) as Hzl.
  { unfold es', es. rewrite Hn, Ho. autorewrite with zlen. simpl option_list. autorewrite with zlen. lia. }
  assert (is_replace whr = true) as Hw by (unfold whr; by rewrite Ho).
  pose proof replaced_or_zero as Hr. pose proof memmove_either as Hmm. rewrite Hw in Hr, Hmm.
  unfold lpInsert. cbn [is_delete is_replace enc_len mbind option_bind].
  rewrite total_lp. cbn [mbind option_bind].
  rewrite Hr. cbn [mbind option_bind]. change (zlen []) with 0.
  rewrite new_bytes_spec by (unfold_limits; lia). rewrite Hmm. rewrite insert_view.
  unfold edit_result. rewrite decide_True by lia.
  replace (_ >? UINT32_MAX) with false by lia.
  destruct (splice_memory pre (opt_bytes o) t slack (zlen (opt_bytes n)) (lp_total es) (lp_total es'))
    as (hole & s' & Hh & m2 & Hm & Hres); [lia..|].
  replace (lp_off es1 + 0 + 0) with (zlen pre + zlen (opt_bytes n)) by lia.
  rewrite Hm. cbn [mbind option_bind]. rewrite Hres.
  assert (hole = []) as -> by (destruct hole; [done|rewrite zlen_cons in Hh; len_lia]).
  assert (pre ++ [] ++ t ++ s' = lp_header num (lp_total es) ++ lp_body es' ++ [LP_EOF] ++ s') as Eb.
  { unfold pre, t, es'. rewrite !lp_body_app, Hn. by rewrite <- !app_assoc. }
  assert (exists b, getb (pre ++ [] ++ t ++ s') (lp_off es1) = Some b /\
                    ((b =? LP_EOF) = if es2 is [] then true else false)) as (b & Hb & Hbe).
  { rewrite <- Hp. apply tail_head. }
  rewrite Hb. cbn [mbind option_bind]. rewrite Hbe, Eb.
  destruct (finish_header (-1) s' Hzl) as [Hfin Hwf];
    [lia|lia|apply es'_ok; intros ? E; congruence|].
  eexists _, s'. split; [|exact Hwf].
  eapply (option_bind_chain _ _ _ _ _ _ Hfin); [done|]. by destruct es2.
Qed.
End Insert.
