(* ===== verification/ListpackRange.v ===== *)
(** * Listpack ranges, batches and merging

    Deleting several entries, inserting several entries in one move, and joining two
    listpacks. *)
From S2P Require Import Prelude Numstr NumstrFacts NumstrProps Listpack ListpackFacts ListpackOps ListpackEdit.

Lemma shrink_block `{Allocator} num es slack :
  lp_total es <= UINT32_MAX -> lpShrinkToFit (lp_block num es slack) = Some (lp_block num es []).
Proof.
  intros Ht. unfold lpShrinkToFit.
  assert (7 <= lp_total es) by (unfold lp_total, LP_HDR_SIZE; len_lia).
  assert (lpGetTotalBytes (lp_block num es slack) = Some (lp_total es)) as ->
    by (apply getTotalBytes_header; lia). cbn [mbind option_bind].
  rewrite zlen_lp. f_equal. case_match eqn:E.
  - unfold lp_block. rewrite !app_nil_r, !app_assoc. rewrite mem_resize_shrink; [done|].
    unfold lp_total. autorewrite with zlen. lia.
  - destruct slack; [done|]. rewrite zlen_cons in E. pose proof (zlen_nonneg slack). lia.
Qed.

(** ** Cutting out a segment *)

Section Cut.
Context `{Allocator} (num : Z) (es1 mid es2 : list lp_ent) (slack : list Z).
Let es := es1 ++ mid ++ es2.
Context (WF : lp_wf num es).

Lemma cut_total : lp_total (es1 ++ es2) = lp_total es - zlen (lp_body mid).
Proof. unfold lp_total, es. rewrite !lp_body_app. autorewrite with zlen. lia. Qed.

Lemma cut_wf : lp_wf (bump_num num (- zlen mid)) (es1 ++ es2).
Proof.
  pose proof cut_total. pose proof (zlen_nonneg (lp_body mid)). destruct WF as [Hf Ht Hn].
  constructor; [| lia |].
  - unfold es in Hf. apply Forall_app in Hf as [? Hf]. apply Forall_app in Hf as [_ ?].
    by apply Forall_app.
  - apply (num_ok_bump num es); [done| |]; unfold es; autorewrite with zlen; len_lia.
Qed.

Lemma cut_memmove n :
  n = zlen (lp_body es2) + 1 ->
  exists rest, memmove (lp_block num es slack) (lp_off es1) (lp_off (es1 ++ mid)) n
    = Some (lp_header num (lp_total es) ++ lp_body (es1 ++ es2) ++ [LP_EOF] ++ rest).
Proof.
  intros ->. set (pre := lp_header num (lp_total es) ++ lp_body es1).
  assert (zlen pre = lp_off es1) as Hp by (unfold pre, lp_off; by autorewrite with zlen).
  assert (lp_block num es slack = pre ++ lp_body mid ++ (lp_body es2 ++ [LP_EOF]) ++ slack) as ->.
  { unfold lp_block, pre, es. rewrite !lp_body_app. by rewrite <- !app_assoc. }
  destruct (memmove_splice pre (lp_body mid) (lp_body es2 ++ [LP_EOF]) slack 0)
    as (hole & rest & Hh & _ & E); [len_lia|].
  assert (hole = []) as -> by (destruct hole; [done|rewrite zlen_cons in Hh; len_lia]).
  exists rest. replace (lp_off (es1 ++ mid)) with (zlen pre + zlen (lp_body mid))
    by (rewrite Hp; unfold lp_off; rewrite lp_body_app; autorewrite with zlen; lia).
  rewrite zlen_app in E. rewrite <- Hp. rewrite Z.add_0_r in E.
  change (zlen [LP_EOF]) with 1 in E. rewrite E. f_equal. unfold pre.
  rewrite lp_body_app. by rewrite <- !app_assoc.
Qed.

(** The end of a deletion: header and shrink. *)
Lemma cut_finish {A} (f : list Z -> option A) total k rest :
  total = lp_total (es1 ++ es2) -> k = zlen mid ->
  (lp ← lpSetTotalBytes (lp_header num (lp_total es) ++ lp_body (es1 ++ es2) ++ [LP_EOF] ++ rest) total;
   numele ← lpGetNumElements lp;
   lp ← (if negb (numele =? LP_HDR_NUMELE_UNKNOWN)
         then lpSetNumElements lp (u64 (numele - k)) else Some lp);
   lp ← lpShrinkToFit lp; f lp) = f (lp_block (bump_num num (- zlen mid)) (es1 ++ es2) []).
Proof.
  intros -> ->. pose proof cut_wf as [_ Ht _].
  destruct (num_ok_bump num es (es1 ++ es2) (- zlen mid) (wf_num _ _ WF)) as [_ Hr];
    [unfold es; autorewrite with zlen; len_lia..|].
  rewrite setTotalBytes_header. cbn [mbind option_bind].
  rewrite getNumElements_header by (by eapply num_range). cbn [mbind option_bind].
  unfold bump_num in *. destruct (num =? LP_HDR_NUMELE_UNKNOWN); cbn [negb].
  - cbn [mbind option_bind]. pose proof (shrink_block num (es1 ++ es2) rest Ht) as E.
    unfold lp_block at 1 in E. by rewrite E.
  - rewrite setNumElements_header. cbn [mbind option_bind].
    rewrite wrapu_small by (unfold_limits; lia).
    rewrite <- Z.add_opp_r.
    pose proof (shrink_block (num + - zlen mid) (es1 ++ es2) rest Ht) as E.
    unfold lp_block at 1 in E. by rewrite E.
Qed.
End Cut.

(** The entries left by deleting [n] entries from index [i] on. *)
Definition remove_range (i n : nat) (es : list lp_ent) : list lp_ent := take i es ++ drop (i + n) es.

Section Range.
Context `{Allocator} (num : Z) (es : list lp_ent) (slack : list Z) (WF : lp_wf num es).
Let lp := lp_block num es slack.

Lemma range_tail n i d :
  (i < length es)%nat ->
  lp_range_tail lp (lp_total es) n (ent_off es i) d =
    Some (ent_off es (Nat.min (i + n) (length es)), d + Z.of_nat (Nat.min n (length es - i))).
Proof.
  revert i d. induction n as [|n IH]; intros i d Hi.
  - simpl. rewrite Nat.add_0_r, Nat.min_l by lia. by rewrite Z.add_0_r.
  - simpl lp_range_tail. at_index es i. unfold lp. rewrite (skip_at num es slack WF i e He).
    cbn [mbind option_bind]. destruct (head_test num es slack WF (S i)) as (b & Hb & Hbe); [lia|].
    rewrite Hb. cbn [mbind option_bind]. rewrite Hbe. case_bool_decide as Hend.
    + do 2 f_equal; [f_equal|]; lia.
    + rewrite (assertValid_at num es slack WF) by lia. cbn [mbind option_bind].
      fold lp. rewrite IH by lia. do 2 f_equal; [f_equal|]; lia.
Qed.

(** [take i es], the deleted entries, the rest. *)
Lemma range_split i n :
  (i <= length es)%nat ->
  es = take i es ++ take n (drop i es) ++ drop (i + n) es /\
  zlen (take n (drop i es)) = Z.of_nat (Nat.min n (length es - i)) /\
  ent_off es (Nat.min (i + n) (length es)) = lp_off (take i es ++ take n (drop i es)).
Proof.
  intros Hi. rewrite <- drop_drop, take_drop, take_drop. split_and!; [done| |].
  - unfold zlen. by rewrite length_take, length_drop.
  - unfold ent_off. f_equal. rewrite take_take_drop.
    destruct (Nat.min_spec (i + n) (length es)) as [[? ->]|[? ->]]; [done|].
    rewrite firstn_all. by rewrite take_ge by lia.
Qed.

Lemma deleteRangeWithEntry_block i n :
  (i < length es)%nat -> 0 < n ->
  exists num', lpDeleteRangeWithEntry lp (ent_off es i) n =
    Some (lp_block num' (remove_range i (Z.to_nat n) es) [],
          ent_ptr (remove_range i (Z.to_nat n) es) i) /\
    lp_wf num' (remove_range i (Z.to_nat n) es).
Proof.
  intros Hi Hn. destruct (range_split i (Z.to_nat n)) as (Hes & Hmid & Hoff); [lia|].
  set (mid := take (Z.to_nat n) (drop i es)) in *.
  set (es2 := drop (i + Z.to_nat n) es) in *. set (es1 := take i es) in *.
  assert (lp_wf num (es1 ++ mid ++ es2)) as WF' by (by rewrite <- Hes).
  exists (bump_num num (- zlen mid)). split; [|by apply cut_wf].
  unfold lpDeleteRangeWithEntry, lpBytes.
  rewrite (bytes_lp num es slack WF : lpGetTotalBytes lp = _). cbn [mbind option_bind].
  replace (n =? 0) with false by lia. rewrite range_tail by done. cbn [mbind option_bind].
  rewrite Hoff. change (ent_off es i) with (lp_off es1).
  assert (lp_total es = lp_off (es1 ++ mid) + zlen (lp_body es2) + 1) as Htot.
  { rewrite Hes at 1. unfold lp_total, lp_off. rewrite !lp_body_app. autorewrite with zlen. lia. }
  assert (lp_off (es1 ++ mid) = lp_off es1 + zlen (lp_body mid)) as Hmo
    by (unfold lp_off; rewrite lp_body_app, zlen_app; lia).
  destruct (cut_memmove num es1 mid es2 slack (lp_total es - 1 - lp_off (es1 ++ mid) + 1))
    as (rest & Hm); [lia|].
  unfold lp. rewrite Hes at 1. rewrite Hm. cbn [mbind option_bind].
  pose proof (cut_total es1 mid es2) as Hct. rewrite <- Hes in Hct.
  rewrite Z.add_0_l, (cut_finish num es1 mid es2 WF') by lia.
  assert (lp_wf (bump_num num (- zlen mid)) (es1 ++ es2)) as WFn by (by apply cut_wf).
  assert (lp_off es1 = ent_off (es1 ++ es2) i) as ->.
  { unfold ent_off. rewrite take_app_le by (unfold es1; rewrite length_take; lia).
    unfold es1. by rewrite take_take, Nat.min_id. }
  assert (i <= length (es1 ++ es2))%nat by (unfold es1; rewrite length_app, length_take; lia).
  destruct (head_test _ _ [] WFn i) as (b & -> & Hb); [done|]. cbn [mbind option_bind].
  rewrite Hb. unfold remove_range. fold es1 es2. unfold ent_ptr.
  do 2 f_equal. case_bool_decide; case_decide; try lia; done.
Qed.

Lemma seek_index index i :
  (if index <? 0 then zlen es + index else index) = i ->
  lpSeek lp index = Some (if i <? 0 then None else ent_ptr es (Z.to_nat i)).
Proof. intros <-. unfold lp. by rewrite (lpSeek_block num es slack WF). Qed.

(** Overwriting the first byte of an entry with the terminator. *)
Lemma truncate_block i :
  (i < length es)%nat ->
  exists rest, setb lp (ent_off es i) LP_EOF
    = Some (lp_header num (lp_total es) ++ lp_body (take i es) ++ [LP_EOF] ++ rest).
Proof.
  intros Hi. at_index es i. unfold lp.
  assert (exists b l, lp_block num es slack
    = (lp_header num (lp_total es) ++ lp_body (take i es)) ++ b :: l) as (b & l & ->).
  { unfold lp_block.
    assert (lp_body es = lp_body (take i es) ++ ent_bytes e ++ lp_body (drop (S i) es)) as ->
      by (rewrite H0 at 1; by rewrite lp_body_app, lp_body_cons).
    unfold ent_bytes.
    ent_pos e. destruct (ent_data e) as [|b d]; [by rewrite ?zlen_nil in *|].
    exists b. eexists. rewrite <- !app_assoc. done. }
  exists l. rewrite setb_mid; [by rewrite <- app_assoc|].
  unfold ent_off, lp_off. by autorewrite with zlen.
Qed.

Lemma deleteRange_block index n :
  INT64_MIN <= index <= INT64_MAX -> 0 <= n <= UINT64_MAX ->
  let i := if index <? 0 then zlen es + index else index in
  let es' := if i <? 0 then es else remove_range (Z.to_nat i) (Z.to_nat n) es in
  exists num' slack', lpDeleteRange lp index n = Some (lp_block num' es' slack') /\ lp_wf num' es'.
Proof.
  intros Hidx Hn i es'. unfold lpDeleteRange.
  rewrite (num_lp num es slack WF : lpGetNumElements lp = _). cbn [mbind option_bind].
  destruct (n =? 0) eqn:E0.
  { exists num, slack. assert (es' = es) as ->; [|done]. unfold es', remove_range.
    replace n with 0 by lia. case_match; [done|]. by rewrite Nat.add_0_r, take_drop. }
  rewrite (seek_index index i) by done. cbn [mbind option_bind]. unfold es'.
  destruct (i <? 0) eqn:Ei; [by exists num, slack|]. unfold ent_ptr.
  destruct (decide (Z.to_nat i < length es)%nat) as [Hi|Hi].
  2: { exists num, slack. assert (remove_range (Z.to_nat i) (Z.to_nat n) es = es) as ->; [|done].
       unfold remove_range. rewrite take_ge, drop_ge by lia. apply app_nil_r. }
  pose proof (zlen_es num es slack WF). unfold zlen in *.
  destruct (num =? LP_HDR_NUMELE_UNKNOWN) eqn:En; cbn [negb andb].
  { destruct (deleteRangeWithEntry_block (Z.to_nat i) n Hi ltac:(lia)) as (num' & -> & WF').
    by exists num', []. }
  assert (num = zlen es) as Hnum by (destruct WF as [_ _ [[? _]|?]]; lia).
  replace (if index <? 0 then num + index else index) with i by (unfold i; rewrite Hnum; done).
  rewrite (wrapu_small 64 i), wrapu_small
    by (rewrite ?Hnum; unfold zlen; unfold_limits; split; lia).
  case_match eqn:Ec.
  2: { destruct (deleteRangeWithEntry_block (Z.to_nat i) n Hi ltac:(lia)) as (num' & -> & WF').
       by exists num', []. }
  assert (remove_range (Z.to_nat i) (Z.to_nat n) es = take (Z.to_nat i) es) as ->.
  { unfold remove_range. rewrite drop_ge by (rewrite Hnum in Ec; unfold zlen in Ec; lia).
    apply app_nil_r. }
  destruct (truncate_block (Z.to_nat i) Hi) as (rest & ->). cbn [mbind option_bind].
  rewrite setTotalBytes_header. cbn [mbind option_bind].
  rewrite setNumElements_header. cbn [mbind option_bind].
  assert (lp_wf i (take (Z.to_nat i) es)) as WF'.
  { pose proof (ent_off_le_total es (Z.to_nat i) ltac:(lia)) as Hle.
    destruct WF as [Hf Ht Hnn]. constructor; [by apply Forall_take| |].
    - rewrite lp_total_off. unfold ent_off in Hle. lia.
    - left. rewrite Hnum in *. unfold zlen in *. rewrite length_take.
      destruct Hnn as [[_ ?]|?]; lia. }
  exists i, []. split; [|done]. apply (shrink_block i (take (Z.to_nat i) es) rest), WF'.
Qed.
End Range.

(** ** Listpack search

    [lpFind] and [lpCompare] against a string: the entries that match are those equal to
    the entry the string would be stored as. *)

(** An entry matches a string: equal bytes, or the integer the string spells. *)
Definition ent_matches (e : lp_ent) (s : list Z) : bool :=
  match e with
  | EStr t => bool_decide (t = s)
  | EInt v => bool_decide (lpStringToInt64 s (zlen s) = Some (Some v))
  end.

(** Strings that spell an integer are stored as integers. *)
Definition ent_canon (e : lp_ent) : Prop := if e is EStr t then str_ent t = EStr t else True.

Lemma str_ent_canon s : ent_canon (str_ent s).
Proof.
  unfold str_ent at 1. destruct (lpStringToInt64_total s) as ([v|] & E & _); rewrite E; simpl; [done|].
  unfold str_ent. by rewrite E.
Qed.

Lemma ent_matches_canon e s : ent_canon e -> ent_matches e s = bool_decide (e = str_ent s).
Proof.
  intros Hc. unfold ent_matches. destruct (lpStringToInt64_total s) as (o & E & _).
  destruct e as [w|t]; apply bool_decide_ext; unfold str_ent; rewrite E.
  - destruct o; split; congruence.
  - destruct o as [v|]; split; try congruence. intros ->.
    unfold ent_canon, str_ent in Hc. by rewrite E in Hc.
Qed.

(** The reference search over a list: test an entry, then skip [skip] of them. *)
Fixpoint find_from (f : lp_ent -> bool) (skip cnt : nat) (l : list lp_ent) : option nat :=
  match l with
  | [] => None
  | e :: l =>
      match cnt with
      | O => if f e then Some O else S <$> find_from f skip skip l
      | S cnt => S <$> find_from f skip cnt l
      end
  end.

Lemma find_from_ext f g skip cnt l :
  Forall (fun e => f e = g e) l -> find_from f skip cnt l = find_from g skip cnt l.
Proof.
  intros Hl. revert cnt. induction Hl as [|e l He _ IH]; intros cnt; simpl; [done|].
  destruct cnt; by rewrite ?He, ?IH.
Qed.

Section Search.
Context (num : Z) (es : list lp_ent) (slack : list Z) (WF : lp_wf num es).
Let lp := lp_block num es slack.
Context (s : list Z).

Lemma get_at' i e :
  es !! i = Some e ->
  exists v, lpGetWithSize lp (ent_off es i) = Some (v, Some (zlen (ent_bytes e))) /\
    match e, v with
    | EInt x, LpInt y => x = y
    | EStr s, LpStr off len => len = zlen s /\ mem_read lp off len = Some s /\ ent_off es i < off
    | _, _ => False
    end.
Proof.
  intros Hi. pose proof (take_drop_middle es i e Hi) as Hes. symmetry in Hes.
  exact (getWithSize_block num es slack WF _ _ _ Hes).
Qed.

Lemma mem_read_self : mem_read s 0 (zlen s) = Some s.
Proof. by apply (mem_read_tail []). Qed.

Lemma lpCompare_block i e :
  es !! i = Some e -> lpCompare lp (ent_off es i) s (zlen s) = Some (ent_matches e s).
Proof.
  intros Hi. unfold lpCompare.
  destruct (head_at num es slack WF i) as (b & Hb & Hne); [by eapply lookup_lt_Some|].
  fold lp in Hb. rewrite Hb. cbn [mbind option_bind]. apply Z.eqb_neq in Hne. rewrite Hne.
  destruct (get_at' i e Hi) as (v & Hv & Hm). unfold lpGet. rewrite Hv. cbn [mbind option_bind].
  destruct e as [x|t], v as [y|off len]; try done; simpl ent_matches.
  - destruct (lpStringToInt64_total s) as (o & -> & _). cbn [mbind option_bind]. subst y. f_equal.
    destruct o as [w|]; [|by rewrite bool_decide_eq_false_2]. case_bool_decide as E.
    + injection E as ->. apply Z.eqb_refl.
    + apply Z.eqb_neq. congruence.
  - destruct Hm as (-> & Hr & _). destruct (zlen s =? zlen t) eqn:El.
    + assert (zlen s = zlen t) as El' by lia. rewrite El', Hr. rewrite <- El', mem_read_self. done.
    + f_equal. symmetry. apply bool_decide_eq_false_2. intros ->. lia.
Qed.

(** The state [lpFindCmp] caches across entries. *)
Definition arg_ok (a : lpFindArg) : Prop :=
  fa_s a = s /\ fa_slen a = zlen s /\
  (fa_vencoding a = 0 \/
   (fa_vencoding a = 1 /\ lpStringToInt64 s (zlen s) = Some (Some (fa_vll a))) \/
   (fa_vencoding a = UCHAR_MAX /\ lpStringToInt64 s (zlen s) = Some None)).

Lemma parse_guard :
  (if (zlen s >=? 32) || (zlen s =? 0) then Some None else lpStringToInt64 s (zlen s))
  = lpStringToInt64 s (zlen s).
Proof.
  case_match eqn:E; [|done]. unfold lpStringToInt64, LONG_STR_SIZE.
  by replace ((zlen s =? 0) || (zlen s >=? 21)) with true by lia.
Qed.

Lemma lpFindCmp_spec i e a v :
  arg_ok a -> es !! i = Some e ->
  lpGetWithSize lp (ent_off es i) = Some (v, Some (zlen (ent_bytes e))) ->
  exists a', lpFindCmp lp (ent_off es i) a v = Some (ent_matches e s, a') /\ arg_ok a'.
Proof.
  intros (Hs & Hl & Hv) Hi Hg. destruct (get_at' i e Hi) as (v' & Hv' & Hm).
  rewrite Hg in Hv'. injection Hv' as <-.
  destruct e as [x|t], v as [y|off len]; try done; unfold lpFindCmp; rewrite Hl, Hs.
  - subst y. unfold ent_matches.
    assert (forall w, (x =? w) = bool_decide (Some (Some w) = Some (Some x))) as Hx.
    { intros w. destruct (Z.eqb_spec x w); symmetry;
        [apply bool_decide_eq_true_2|apply bool_decide_eq_false_2]; congruence. }
    destruct (fa_vencoding a =? 0) eqn:E0.
    + rewrite parse_guard. destruct (lpStringToInt64_total s) as (o & Ho & _). rewrite Ho.
      cbn [mbind option_bind]. destruct o as [w|]; cbn [mbind option_bind fa_vencoding fa_vll];
        eexists; split.
      * by rewrite Hx.
      * split_and!; [done|done|]. by right; left.
      * done.
      * split_and!; [done|done|]. by right; right.
    + cbn [mbind option_bind]. exists a. split; [|done].
      destruct Hv as [?|[[-> Hp]|[-> Hp]]]; [lia| |]; rewrite Hp; [by rewrite Hx|done].
  - destruct Hm as (-> & Hr & _). exists a. split; [|done]. simpl.
    destruct (zlen t =? zlen s) eqn:El.
    + assert (zlen t = zlen s) as El' by lia. rewrite Hr. rewrite El', mem_read_self.
      cbn [mbind option_bind]. do 2 f_equal. apply bool_decide_ext. split; congruence.
    + do 2 f_equal. symmetry. apply bool_decide_eq_false_2. intros ->. lia.
Qed.

(** Advancing: the terminator ends the search. *)
Lemma advance_at {U} i (st : find_state U) :
  (i <= length es)%nat -> fs_p st = ent_off es i ->
  lpFindCb_advance lp (lp_total es) st =
    Some (if decide (i = length es) then inr None else inl st).
Proof.
  intros Hi Hp. unfold lpFindCb_advance. rewrite Hp.
  pose proof (ent_off_ge es i). pose proof (ent_off_le_total es i Hi).
  destruct (head_test num es slack WF i Hi) as (b & Hb & Hbe). fold lp in Hb.
  assert ((if ent_off es i + 8 >=? lp_total es then lpAssertValidEntry lp (lp_total es) (ent_off es i)
           else assert_true ((ent_off es i >=? LP_HDR_SIZE) && (ent_off es i <? lp_total es)))
          = Some tt) as ->.
  { case_match.
    - destruct (decide (i = length es)) as [->|].
      + unfold lpAssertValidEntry, lpValidateNext. unfold out_of_range.
        replace (_ || _) with false by lia. rewrite Hb. cbn [mbind option_bind].
        rewrite Hbe. by rewrite bool_decide_eq_true_2.
      + unfold lp. apply (assertValid_at num es slack WF). lia.
    - unfold assert_true. by replace (_ && _) with true by lia. }
  cbn [mbind option_bind]. rewrite Hb. cbn [mbind option_bind]. rewrite Hbe.
  case_bool_decide; case_decide; done.
Qed.

Definition ptr_of (o : option nat) : option Z := ent_off es <$> o.

Lemma find_step i e cnt skip st :
  es !! i = Some e -> arg_ok (fs_user st) -> fs_p st = ent_off es i ->
  fs_skipcnt st = Z.of_nat cnt -> Z.of_nat skip <= INT32_MAX ->
  (cnt = O /\ ent_matches e s = true /\
     lpFindCb_body lp (lp_total es) lpFindCmp (Z.of_nat skip) st = Some (inr (Some (ent_off es i)))) \/
  (cnt = O -> ent_matches e s = false) /\
  exists st', lpFindCb_body lp (lp_total es) lpFindCmp (Z.of_nat skip) st
      = Some (if decide (S i = length es) then inr None else inl st') /\
    arg_ok (fs_user st') /\ fs_p st' = ent_off es (S i) /\
    fs_skipcnt st' = Z.of_nat (if cnt is S c then c else skip).
Proof.
  intros Hi Ha Hp Hc Hsk. pose proof (lookup_lt_Some _ _ _ Hi) as Hlt.
  unfold lpFindCb_body. rewrite Hc, Hp. destruct cnt as [|c].
  - change (Z.of_nat 0 =? 0) with true. cbv iota.
    destruct (get_at' i e Hi) as (v & Hg & Hm). rewrite Hg. cbn [mbind option_bind].
    cbn [default from_option id].
    assert ((if v is LpStr _ _ then assert_true ((ent_off es i >=? LP_HDR_SIZE) &&
               (ent_off es i + zlen (ent_bytes e) <? lp_total es)) else Some tt) = Some tt) as ->.
    { destruct v; [done|]. rewrite <- (ent_off_S_add es i e Hi).
      pose proof (ent_off_le_total es (S i)). pose proof (ent_off_ge es i).
      unfold assert_true. by replace (_ && _) with true by lia. }
    cbn [mbind option_bind].
    destruct (lpFindCmp_spec i e (fs_user st) v Ha Hi Hg) as (a' & Ea & Ha'). rewrite Ea.
    cbn [mbind option_bind]. destruct (ent_matches e s); [by left|right]. split; [done|].
    rewrite <- (ent_off_S_add es i e Hi). eexists.
    rewrite (advance_at (S i)) by (done || lia). split_and!; try done.
    apply wraps_small; [lia|]. unfold_limits. simpl. lia.
  - right. split; [done|]. change (Z.of_nat (S c) =? 0) with false. cbv iota.
    rewrite (skip_at num es slack WF i e Hi : lpSkip lp _ = _). cbn [mbind option_bind]. eexists.
    rewrite (advance_at (S i)) by (done || lia). split_and!; try done. simpl. lia.
Qed.

Lemma find_loop fuel i cnt skip st :
  (i < length es < i + fuel)%nat -> arg_ok (fs_user st) -> fs_p st = ent_off es i ->
  fs_skipcnt st = Z.of_nat cnt -> Z.of_nat skip <= INT32_MAX ->
  loop fuel (lpFindCb_body lp (lp_total es) lpFindCmp (Z.of_nat skip)) st =
    Some (ptr_of (Nat.add i <$> find_from (fun e => ent_matches e s) skip cnt (drop i es))).
Proof.
  revert i cnt st. induction fuel as [|fuel IH]; intros i cnt st Hi Ha Hp Hc Hsk; [lia|].
  at_index es i. rewrite (drop_S es e i He). cbn [loop find_from].
  destruct (find_step i e cnt skip st He Ha Hp Hc Hsk)
    as [(-> & Hm & ->)|(Hm & st' & -> & Ha' & Hp' & Hc')].
  - rewrite Hm. simpl. by rewrite Nat.add_0_r.
  - destruct (decide (S i = length es)) as [Hend|].
    + rewrite (drop_ge es (S i)) by lia. destruct cnt; simpl; [|done]. by rewrite Hm.
    + rewrite (IH (S i) _ st' ltac:(lia) Ha' Hp' Hc' Hsk). f_equal. unfold ptr_of.
      destruct cnt as [|c]; [rewrite Hm by done|];
        (destruct (find_from _ skip _ (drop (S i) es)) as [k|]; simpl; [|done]);
        by rewrite Nat.add_succ_r.
Qed.

Lemma lpFind_block start skip :
  (start < length es)%nat \/ start = O -> 0 <= skip <= INT32_MAX ->
  lpFind lp (if start is O then None else Some (ent_off es start)) s (zlen s) skip =
    Some (ptr_of (Nat.add start <$> find_from (fun e => ent_matches e s) (Z.to_nat skip) 0 (drop start es))).
Proof.
  intros Hst Hsk. unfold lpFind, lpFindCb, lpBytes.
  rewrite (bytes_lp num es slack WF : lpGetTotalBytes lp = _). cbn [mbind option_bind].
  assert ((if (if start is O then None else Some (ent_off es start)) is Some _
           then Some (if start is O then None else Some (ent_off es start)) else lpFirst lp)
          = Some (ent_ptr es start)) as ->.
  { destruct start; [by apply lpFirst_block|]. unfold ent_ptr. by rewrite decide_True by lia. }
  cbn [mbind option_bind]. unfold ent_ptr. case_decide.
  - pose proof (zlen_es num es slack WF). fold lp in H0.
    rewrite <- (Z2Nat.id skip) at 1 by lia.
    rewrite (find_loop _ start 0 (Z.to_nat skip)); [done|lia| |done|done|lia].
    split_and!; [done|done|]. by left.
  - destruct Hst as [?| ->]; [lia|]. destruct es; simpl in *; [done|lia].
Qed.
End Search.
