(* ===== verification/ListpackBatch.v ===== *)
(** * Listpack batches, merging and copying *)
From S2P Require Import Prelude Numstr NumstrFacts NumstrProps Listpack ListpackFacts ListpackOps ListpackEdit ListpackRange.

(** ** Batch insertion *)

(** The entry a [listpackEntry] stands for, and when it is a valid argument. *)
Definition le_ent (e : listpackEntry) : lp_ent :=
  match e with LeStr s _ => str_ent s | LeInt v => EInt v end.

Definition le_ok (e : listpackEntry) : Prop :=
  match e with
  | LeStr s slen => slen = zlen s /\ Forall is_byte s /\ zlen s <= UINT32_MAX
  | LeInt v => INT64_MIN <= v <= INT64_MAX
  end.

Lemma le_ele_ok e : le_ok e -> ele_ok (le_ele e) (Some (le_ent e)).
Proof. destruct e as [s n|v]; simpl; [naive_solver|]. intros Hv. by exists v. Qed.

Lemma le_encode_ele e : le_encode e = ele_encode (le_ele e).
Proof. by destruct e. Qed.

(** The encodings computed by the first loop. *)
Definition enc_ok (e : listpackEntry) (enc : list Z + Z) : Prop :=
  enc_len enc = zlen (ent_data (le_ent e)) /\
  forall m dst, lp_store m dst enc (le_ele e) = mem_write m dst (ent_data (le_ent e)).

Lemma batch_encode entries acc :
  Forall le_ok entries -> 0 <= acc -> acc + zlen (lp_body (le_ent <$> entries)) < 2 ^ 64 ->
  exists encs, lp_batch_encode entries acc = Some (encs, acc + zlen (lp_body (le_ent <$> entries))) /\
    Forall2 enc_ok entries encs.
Proof.
  intros Hok. revert acc. induction Hok as [|e entries He _ IH]; intros acc Ha Hb; cbn [lp_batch_encode].
  - exists []. change (lp_body []) with (@nil Z). by rewrite Z.add_0_r.
  - rewrite le_encode_ele.
    destruct (encode_spec _ _ (le_ele_ok e He)) as (enc & -> & Hl & Hst & _). cbn [mbind option_bind].
    rewrite fmap_cons in *. rewrite lp_body_cons, zlen_app, zlen_ent_bytes in *.
    pose proof (zlen_nonneg (lp_body (le_ent <$> entries))). ent_pos (le_ent e).
    rewrite Hl, (wrapu_small 64 (acc + _)), wrapu_small by lia.
    destruct (IH (acc + zlen (ent_data (le_ent e)) + backlen_size (zlen (ent_data (le_ent e)))))
      as (encs & E & HF); [lia|lia|].
    rewrite E. cbn [mbind option_bind]. exists (enc :: encs).
    split; [do 2 f_equal; lia|]. constructor; [by split|done].
Qed.

Lemma batch_store entries encs pre hole t newp :
  Forall2 enc_ok entries encs -> zlen hole = zlen (lp_body (le_ent <$> entries)) ->
  exists newp', lp_batch_store (pre ++ hole ++ t) (zlen pre) newp entries encs
    = Some (pre ++ lp_body (le_ent <$> entries) ++ t, newp') /\
    match last entries with
    | None => newp' = newp
    | Some e => newp' = Some (zlen pre + zlen (lp_body (le_ent <$> entries)) - zlen (ent_bytes (le_ent e)))
    end.
Proof.
  intros HF. revert pre hole newp. induction HF as [|e enc entries encs [Hl Hst] _ IH];
    intros pre hole newp Hh; cbn [lp_batch_store].
  - assert (hole = []) as -> by (destruct hole; [done|rewrite zlen_cons in Hh; len_lia]). by eexists.
  - rewrite fmap_cons in *. rewrite lp_body_cons, zlen_app, zlen_ent_bytes in Hh.
    ent_pos (le_ent e). set (d := ent_data (le_ent e)) in *.
    pose proof (zlen_nonneg (lp_body (le_ent <$> entries))).
    destruct (mem_split hole 0 (zlen d + backlen_size (zlen d))) as (a & h1 & h2 & -> & Ha & Hh1);
      [lia|lia|lia|].
    assert (a = []) as -> by (destruct a; [done|rewrite zlen_cons in Ha; len_lia]).
    rewrite app_nil_l in *. rewrite zlen_app in Hh.
    rewrite Hl. fold d. rewrite Hst. fold d.
    pose proof (store_hole pre h1 (h2 ++ t) d (lpEncodeBacklen (zlen d))) as Es.
    rewrite <- app_assoc.
    destruct (mem_write (pre ++ h1 ++ h2 ++ t) (zlen pre) d) as [m|]; cbn [mbind option_bind] in *;
      [|by specialize (Es ltac:(unfold backlen_size in *; lia))].
    rewrite Es by (unfold backlen_size in *; lia). cbn [mbind option_bind].
    change (d ++ lpEncodeBacklen (zlen d)) with (ent_bytes (le_ent e)).
    destruct (IH (pre ++ ent_bytes (le_ent e)) h2 (Some (zlen pre))) as (newp' & E & Hlast);
      [lia|].
    rewrite zlen_app, zlen_ent_bytes in E. fold d in E. rewrite <- app_assoc in E.
    rewrite Z.add_assoc in E. rewrite E. exists newp'. split.
    + by rewrite lp_body_cons, <- !app_assoc.
    + rewrite zlen_app in Hlast.
      rewrite last_cons. destruct (last entries) eqn:El.
      * rewrite Hlast. f_equal. rewrite lp_body_cons, zlen_app. lia.
      * apply last_None in El as ->. rewrite Hlast. f_equal.
        rewrite lp_body_cons, zlen_app. change (zlen (lp_body (le_ent <$> []))) with 0. lia.
Qed.

Section BatchInsert.
Context `{Allocator} (num : Z) (es1 es2 : list lp_ent) (slack : list Z)
  (entries : list listpackEntry).
Let es := es1 ++ es2.
Let ns := le_ent <$> entries.
Let es' := es1 ++ ns ++ es2.
Context (WF : lp_wf num es) (Hok : Forall le_ok entries) (Hne : entries <> [])
  (Hmem : zlen (lp_body ns) < 2 ^ 63).
Let lp := lp_block num es slack.
Let pre := lp_header num (lp_total es) ++ lp_body es1.
Let t := lp_body es2 ++ [LP_EOF].

Definition batch_num : Z :=
  if num =? LP_HDR_NUMELE_UNKNOWN then num
  else if zlen entries >? LP_HDR_NUMELE_UNKNOWN - num then LP_HDR_NUMELE_UNKNOWN
  else num + zlen entries.

Lemma ents_ok : Forall ent_ok ns.
Proof.
  apply Forall_fmap. eapply Forall_impl; [exact Hok|]. intros e He. simpl.
  by destruct (encode_spec _ _ (le_ele_ok e He)) as (? & ? & ? & ? & ? & ? & _).
Qed.

Lemma batch_wf : lp_total es' <= UINT32_MAX -> lp_wf batch_num es'.
Proof.
  intros Ht. destruct WF as [Hf _ Hn]. constructor; [|done|].
  - unfold es in Hf. apply Forall_app in Hf as [? ?]. unfold es'.
    apply Forall_app. split; [done|]. apply Forall_app. split; [apply ents_ok|done].
  - assert (zlen es' = zlen es + zlen entries) as Hl.
    { unfold es', es, ns. autorewrite with zlen. lia. }
    unfold num_ok, batch_num in *. pose proof (zlen_nonneg entries). pose proof (zlen_nonneg es).
    unfold LP_HDR_NUMELE_UNKNOWN in *. unfold_limits.
    destruct Hn as [[-> Hn]| ->]; repeat case_match; lia.
Qed.

Lemma batchInsert_block :
  if decide (lp_total es' <= UINT32_MAX)
  then exists s' newp, lpBatchInsert lp (lp_off es1) LP_BEFORE entries
         = Some (Some (lp_block batch_num es' s', newp)) /\ lp_wf batch_num es' /\
       newp = Some (ent_off es' (length es1 + length entries - 1))
  else lpBatchInsert lp (lp_off es1) LP_BEFORE entries = Some None.
Proof.
  assert (zlen pre = lp_off es1) as Hp by (unfold pre, lp_off; by autorewrite with zlen).
  assert (lp = pre ++ [] ++ t ++ slack) as Hlp
    by (unfold lp, lp_block, pre, t, es; rewrite lp_body_app; by rewrite <- !app_assoc).
  assert (zlen t = lp_total es - lp_off es1) as Ht
    by (unfold t, lp_total, lp_off, es; rewrite lp_body_app; autorewrite with zlen; lia).
  assert (lp_total es' = lp_total es + zlen (lp_body ns)) as Htot
    by (unfold lp_total, es, es'; rewrite !lp_body_app; autorewrite with zlen; lia).
  pose proof (lp_total_range num es WF) as Hr. pose proof (zlen_nonneg (lp_body ns)).
  unfold lpBatchInsert. simpl is_replace. cbn [negb assert_true mbind option_bind].
  replace (zlen entries >? 0) with true
    by (destruct entries; [done|rewrite zlen_cons; len_lia]). cbn [assert_true mbind option_bind].
  destruct (batch_encode entries 0 Hok) as (encs & Henc & HF); [lia|fold ns; lia|].
  rewrite Henc. cbn [mbind option_bind]. fold ns. rewrite Z.add_0_l.
  rewrite (getTotalBytes_block num es slack WF : lpGetTotalBytes lp = _). cbn [mbind option_bind].
  rewrite wrapu_small by (unfold_limits; lia).
  case_decide as Hfit; [|by replace (_ >? UINT32_MAX) with true by lia].
  replace (_ >? UINT32_MAX) with false by lia.
  destruct (splice_memory pre [] t slack (zlen (lp_body ns)) (lp_total es) (lp_total es'))
    as (hole & s' & Hh & m2 & Hm & Hres);
    [lia|change (zlen []) with 0; lia|change (zlen []) with 0; lia|].
  rewrite <- Hlp in Hm. rewrite <- Htot.
  rewrite (Hp : zlen pre = _), Ht in Hm. change (zlen []) with 0 in Hm. rewrite Z.add_0_r in Hm.
  rewrite Hm. cbn [mbind option_bind].
  replace (lp_total es' <? lp_total es) with false in Hres by lia. rewrite Hres.
  destruct (batch_store entries encs pre hole (t ++ s') None HF Hh) as (newp & Est & Hnew).
  rewrite <- Hp. rewrite Est. cbn [mbind option_bind].
  fold ns. assert (pre ++ lp_body ns ++ t ++ s'
    = lp_header num (lp_total es) ++ lp_body es' ++ [LP_EOF] ++ s') as ->.
  { unfold pre, t, es'. rewrite !lp_body_app. by rewrite <- !app_assoc. }
  rewrite getNumElements_header by (by eapply num_range). cbn [mbind option_bind].
  exists s', newp. split_and!; [|by apply batch_wf|].
  - unfold batch_num, lp_block. destruct (num =? LP_HDR_NUMELE_UNKNOWN); cbn [negb mbind option_bind].
    { by rewrite setTotalBytes_header. }
    destruct (zlen entries >? _); rewrite setNumElements_header; cbn [mbind option_bind];
      by rewrite setTotalBytes_header.
  - destruct (last entries) as [e|] eqn:El; [|by apply last_None in El].
    rewrite Hnew. fold ns. f_equal. rewrite Hp.
    apply last_Some in El as [l' El]. unfold ent_off, es', ns in *. rewrite El.
    rewrite fmap_app, length_app. simpl length.
    replace (length es1 + (length l' + 1) - 1)%nat with (length (es1 ++ (le_ent <$> l')))
      by (rewrite length_app, length_fmap; lia).
    rewrite <- !app_assoc, (app_assoc es1), take_app_length. unfold lp_off.
    rewrite !lp_body_app. simpl (le_ent <$> [e]). autorewrite with zlen.
    change (lp_body []) with (@nil Z). change (zlen []) with 0. lia.
Qed.
End BatchInsert.

(** ** Merging and copying *)

Lemma mem_resize_keep `{Allocator} a s size :
  zlen a <= size -> exists s', mem_resize (a ++ s) size = a ++ s' /\ zlen s' = size - zlen a.
Proof.
  intros Hs. unfold mem_resize. case_match eqn:E.
  - exists (take (Z.to_nat (size - zlen a)) s). autorewrite with zlen in E.
    unfold zlen in *. rewrite take_app. rewrite take_ge by lia. split.
    + do 2 f_equal. lia.
    + rewrite length_take. lia.
  - autorewrite with zlen in E. eexists. rewrite <- app_assoc. split; [done|].
    rewrite zlen_app. unfold zlen at 2. rewrite length_fresh_bytes. autorewrite with zlen. lia.
Qed.

Section Merge.
Context `{Allocator} (n1 n2 : Z) (es1 es2 : list lp_ent) (s1 s2 : list Z)
  (WF1 : lp_wf n1 es1) (WF2 : lp_wf n2 es2).

Lemma merge_total : lp_total (es1 ++ es2) = lp_total es1 + lp_total es2 - 7.
Proof. unfold lp_total, LP_HDR_SIZE. rewrite lp_body_app, zlen_app. lia. Qed.

Definition merged_num : Z :=
  if zlen es1 + zlen es2 <? UINT16_MAX then zlen es1 + zlen es2 else UINT16_MAX.

Lemma merge_wf : lp_total (es1 ++ es2) < UINT32_MAX -> lp_wf merged_num (es1 ++ es2).
Proof.
  intros Ht. constructor; [|lia|].
  - apply Forall_app. split; [apply WF1|apply WF2].
  - unfold num_ok, merged_num, LP_HDR_NUMELE_UNKNOWN. rewrite zlen_app. case_match; lia.
Qed.

Lemma block_source num es s :
  lp_wf num es ->
  mem_read (lp_block num es s) LP_HDR_SIZE (lp_total es - LP_HDR_SIZE) = Some (lp_body es ++ [LP_EOF]) /\
  mem_read (lp_block num es s) 0 (lp_total es - 1) = Some (lp_header num (lp_total es) ++ lp_body es).
Proof.
  intros WF. unfold lp_block. split.
  - rewrite (app_assoc (lp_body es)). apply mem_read_mid; [by autorewrite with zlen|].
    unfold lp_total. autorewrite with zlen. lia.
  - rewrite app_assoc. apply (mem_read_mid []); [done|]. unfold lp_total. autorewrite with zlen. lia.
Qed.

(** The larger block keeps its place; the other's entries are copied around it. *)
Lemma merge_copy :
  lp_total (es1 ++ es2) < UINT32_MAX ->
  let append := lp_total es1 >=? lp_total es2 in
  let b1 := lp_block n1 es1 s1 in let b2 := lp_block n2 es2 s2 in
  let target := mem_resize (if append then b1 else b2) (lp_total (es1 ++ es2)) in
  let source := if append then b2 else b1 in
  exists num,
  (if append then
     bs ← mem_read source LP_HDR_SIZE (lp_total es2 - LP_HDR_SIZE);
     mem_write target (lp_total es1 - 1) bs
   else
     target ← memmove target (lp_total es1 - 1) LP_HDR_SIZE (lp_total es2 - LP_HDR_SIZE);
     bs ← mem_read source 0 (lp_total es1 - 1);
     mem_write target 0 bs)
  = Some (lp_header num (lp_total es1) ++ lp_body (es1 ++ es2) ++ [LP_EOF]).
Proof.
  intros Ht append b1 b2. destruct (block_source n1 es1 s1 WF1) as [_ Hs1].
  destruct (block_source n2 es2 s2 WF2) as [Hs2 _]. rewrite merge_total.
  pose proof (lp_total_range n1 es1 WF1). pose proof (lp_total_range n2 es2 WF2).
  exists n1. destruct append eqn:Ea; cbv zeta iota.
  - unfold b2. rewrite Hs2. cbn [mbind option_bind]. unfold b1, lp_block.
    rewrite (app_assoc _ (lp_body es1)).
    destruct (mem_resize_keep (lp_header n1 (lp_total es1) ++ lp_body es1) ([LP_EOF] ++ s1)
      (lp_total es1 + lp_total es2 - 7)) as (s' & -> & Hs');
      [unfold lp_total at 2; autorewrite with zlen; unfold LP_HDR_SIZE in *; lia|].
    rewrite mem_write_tail.
    + by rewrite lp_body_app, <- !app_assoc.
    + unfold lp_total at 1. autorewrite with zlen. lia.
    + rewrite Hs'. unfold lp_total. autorewrite with zlen. unfold LP_HDR_SIZE. lia.
  - unfold b2, lp_block at 1. rewrite (app_assoc (lp_body es2)), app_assoc.
    destruct (mem_resize_keep (lp_header n2 (lp_total es2) ++ lp_body es2 ++ [LP_EOF]) s2
      (lp_total es1 + lp_total es2 - 7)) as (s' & -> & Hs').
    { assert (zlen (lp_header n2 (lp_total es2) ++ lp_body es2 ++ [LP_EOF]) = lp_total es2) as ->
        by (unfold lp_total at 2; autorewrite with zlen; lia). lia. }
    assert (zlen s' = zlen (lp_body es1)) as Hs''.
    { rewrite Hs'. unfold lp_total. autorewrite with zlen. unfold LP_HDR_SIZE. lia. }
    rewrite <- app_assoc.
    destruct (memmove_right (lp_header n2 (lp_total es2)) (lp_body es2 ++ [LP_EOF]) s'
      (lp_total es1 - 1) LP_HDR_SIZE (lp_total es2 - LP_HDR_SIZE)) as (hole & Hh & ->).
    { by autorewrite with zlen. }
    { unfold lp_total. autorewrite with zlen. lia. }
    { rewrite Hs''. unfold lp_total. autorewrite with zlen. lia. }
    cbn [mbind option_bind]. unfold b1. rewrite Hs1. cbn [mbind option_bind].
    rewrite app_assoc. rewrite <- (app_nil_l ((_ ++ hole) ++ _)), mem_write_mid; [|done|].
    + by rewrite app_nil_l, lp_body_app, <- !app_assoc.
    + autorewrite with zlen. lia.
Qed.

End Merge.

Lemma lpMerge_block `{Allocator} n1 n2 es1 es2 s1 s2 :
  lp_wf n1 es1 -> lp_wf n2 es2 ->
  lpMerge (lp_block n1 es1 s1) (lp_block n2 es2 s2) =
    if decide (lp_total (es1 ++ es2) < UINT32_MAX)
    then Some (lp_block (merged_num es1 es2) (es1 ++ es2) [], lp_total es1 >=? lp_total es2) else None.
Proof.
  intros WF1 WF2. unfold lpMerge, lpBytes. rewrite !getTotalBytes_block by done.
  cbn [mbind option_bind].
  destruct (lpLength_block n1 es1 s1 WF1) as (n1' & -> & WF1'). cbn [mbind option_bind].
  destruct (lpLength_block n2 es2 s2 WF2) as (n2' & -> & WF2'). cbn [mbind option_bind].
  pose proof (merge_total es1 es2) as Ht.
  pose proof (lp_total_range n1 es1 WF1). pose proof (lp_total_range n2 es2 WF2).
  assert (u64 (lp_total es1 + lp_total es2 - LP_HDR_SIZE - 1) = lp_total (es1 ++ es2)) as ->.
  { rewrite wrapu_small; unfold LP_HDR_SIZE; unfold_limits; lia. }
  case_decide as Hfit; [|by replace (_ <? UINT32_MAX) with false by lia].
  replace (_ <? UINT32_MAX) with true by lia. cbn [assert_true mbind option_bind].
  destruct (merge_copy n1' n2' es1 es2 s1 s2 WF1' WF2' Hfit) as (num & Hc).
  cbv zeta in Hc. fold (merged_num es1 es2).
  destruct (lp_total es1 >=? lp_total es2) eqn:Ea; rewrite Hc; cbn [mbind option_bind];
    rewrite setNumElements_header; cbn [mbind option_bind]; by rewrite setTotalBytes_header.
Qed.

Lemma lpDup_block `{Allocator} num es slack :
  lp_wf num es -> lpDup (lp_block num es slack) = Some (lp_block num es []).
Proof.
  intros WF. unfold lpDup, lpBytes. rewrite getTotalBytes_block by done. cbn [mbind option_bind].
  pose proof (lp_total_range num es WF).
  assert (lp_block num es slack = [] ++ lp_block num es [] ++ slack) as ->
    by (unfold lp_block; by rewrite app_nil_l, <- !app_assoc).
  pose proof (zlen_lp num es []) as Hl. change (zlen []) with 0 in Hl.
  rewrite mem_read_mid by (done || lia). cbn [mbind option_bind].
  pose proof (mem_write_tail [] (fresh_bytes (Z.to_nat (lp_total es))) (lp_block num es []) 0) as E.
  rewrite !app_nil_l in E. apply E; [done|].
  unfold zlen at 2. rewrite length_fresh_bytes. lia.
Qed.

(** ** Batch deletion

    The entries are split at the deleted ones: [k0], then for every deleted entry [d] the
    entries [k] kept after it. *)

Definition seg_all (segs : list (lp_ent * list lp_ent)) : list lp_ent :=
  concat ((fun '(d, k) => d :: k) <$> segs).
Definition seg_kept (segs : list (lp_ent * list lp_ent)) : list lp_ent := concat (snd <$> segs).

(** The offsets of the deleted entries when the first segment starts at [off]. *)
Fixpoint seg_offs (off : Z) (segs : list (lp_ent * list lp_ent)) : list Z :=
  match segs with
  | [] => []
  | (d, k) :: segs => off :: seg_offs (off + zlen (lp_body (d :: k))) segs
  end.

(** Moving a block to the left over a gap leaves what follows it. *)
Lemma memmove_left_tail a gap b c dst src n :
  src = zlen a + zlen gap -> n = zlen b -> dst = zlen a ->
  exists rest, zlen rest = zlen gap /\
    memmove (a ++ gap ++ b ++ c) dst src n = Some (a ++ b ++ rest ++ c).
Proof.
  intros -> -> ->. exists (drop (length b) (gap ++ b)).
  assert (zlen (drop (length b) (gap ++ b)) = zlen gap) as Hh.
  { unfold zlen. rewrite length_drop, length_app. lia. }
  split; [done|]. unfold memmove.
  assert (mem_read (a ++ gap ++ b ++ c) (zlen a + zlen gap) (zlen b) = Some b) as ->
    by (rewrite app_assoc; apply mem_read_mid; [by rewrite zlen_app|done]).
  cbn [mbind option_bind].
  rewrite (app_assoc gap b c), <- (take_drop (length b) (gap ++ b)), <- (app_assoc _ _ c) at 1.
  rewrite mem_write_mid; [done|done|].
  unfold zlen. rewrite length_take, length_app. lia.
Qed.

Lemma seg_offs_nil off segs : seg_offs off segs = [] <-> segs = [].
Proof. destruct segs as [|[d k] segs]; done. Qed.

Lemma seg_all_cons d k segs : seg_all ((d, k) :: segs) = d :: k ++ seg_all segs.
Proof. done. Qed.

Lemma seg_kept_cons d k segs : seg_kept ((d, k) :: segs) = k ++ seg_kept segs.
Proof. done. Qed.

(** The loop: [a] is what is final, [gap] has been moved away. *)
Lemma batch_delete_loop segs : forall a gap slack lp_end,
  segs <> [] -> Forall (fun e => ent_ok e /\ zlen (ent_data e) < 2 ^ 32 - 5) (seg_all segs) ->
  lp_end = zlen a + zlen gap + zlen (lp_body (seg_all segs)) + 1 ->
  exists rest,
    lp_batch_delete_loop (a ++ gap ++ lp_body (seg_all segs) ++ [LP_EOF] ++ slack) lp_end
      (seg_offs (zlen a + zlen gap) segs) (zlen a)
    = Some (a ++ lp_body (seg_kept segs) ++ [LP_EOF] ++ rest ++ slack,
            zlen a + zlen (lp_body (seg_kept segs)) + 1).
Proof.
  induction segs as [|[d k] segs IH]; intros a gap slack lp_end Hne Hok Hend; [done|]. clear Hne.
  rewrite seg_all_cons in *. rewrite seg_kept_cons. apply Forall_cons in Hok as [[Hd Hdl] Hok].
  apply Forall_app in Hok as [_ Hok]. ent_pos d. cbn [seg_offs lp_batch_delete_loop].
  set (post := lpEncodeBacklen (zlen (ent_data d)) ++ lp_body k ++ lp_body (seg_all segs)
               ++ [LP_EOF] ++ slack).
  assert (a ++ gap ++ lp_body (d :: k ++ seg_all segs) ++ [LP_EOF] ++ slack
          = (a ++ gap) ++ ent_data d ++ post) as E.
  { rewrite lp_body_cons, lp_body_app. unfold ent_bytes, post. by rewrite <- !app_assoc. }
  destruct (reads_ent (a ++ gap) post d) as ((b & Hb & Hbe) & Hsz & _); [done|lia|].
  rewrite <- zlen_app. rewrite E, Hb. cbn [mbind option_bind].
  apply Z.eqb_neq in Hbe. rewrite Hbe. cbn [negb assert_true mbind option_bind].
  unfold lpSkip. rewrite Hsz. cbn [mbind option_bind].
  rewrite <- (zlen_ent_bytes d). rewrite !zlen_app. rewrite <- E.
  rewrite lp_body_cons in Hend. rewrite lp_body_app, !zlen_app in Hend.
  destruct segs as [|[d' k'] segs].
  - cbn [seg_offs]. rewrite bool_decide_eq_false_2 by (intros ?; done). cbn [andb].
    change (lp_body (seg_all [])) with (@nil Z) in *. change (zlen []) with 0 in *.
    pose proof (zlen_nonneg (lp_body k)).
    unfold assert_true. replace (_ >? _) with true by lia. cbn [mbind option_bind].
    rewrite (app_nil_r k : k ++ seg_all [] = k), (app_nil_r k : k ++ seg_kept [] = k).
    destruct (memmove_left_tail a (gap ++ ent_bytes d) (lp_body k ++ [LP_EOF]) slack (zlen a)
      (zlen a + zlen gap + zlen (ent_bytes d)) (lp_end - (zlen a + zlen gap + zlen (ent_bytes d))))
      as (rest & Hr & Em); [rewrite zlen_app; lia|rewrite zlen_app; change (zlen [LP_EOF]) with 1; lia|done|].
    exists rest. rewrite <- !app_assoc in Em. rewrite lp_body_cons, <- !app_assoc. rewrite Em.
    cbn [mbind option_bind lp_batch_delete_loop]. do 2 f_equal. lia.
  - set (segs' := (d', k') :: segs) in *.
    assert (forall off X, match seg_offs off segs' with [] => X | next :: _ => next end = off) as Eo
      by done.
    rewrite !Eo. clear Eo. rewrite bool_decide_eq_true_2 by done. cbn [andb].
    rewrite lp_body_cons, zlen_app.
    destruct k as [|e k].
    + change (lp_body []) with (@nil Z) in *. change (zlen []) with 0 in *.
      replace (_ =? _) with true by lia.
      destruct (IH a (gap ++ ent_bytes d) slack lp_end) as (rest & Er);
        [done|done|rewrite zlen_app; lia|].
      exists rest. rewrite zlen_app, <- !app_assoc in Er. rewrite lp_body_cons, lp_body_app, <- !app_assoc.
      replace (zlen a + zlen gap + (zlen (ent_bytes d) + 0)) with (zlen a + (zlen gap + zlen (ent_bytes d)))
        by lia. exact Er.
    + set (kk := e :: k) in *. assert (0 < zlen (lp_body kk)) as Hk
        by (unfold kk; rewrite lp_body_cons, zlen_app, zlen_ent_bytes; ent_pos e; len_lia).
      replace (_ =? _) with false by lia.
      unfold assert_true. replace (_ >? _) with true by lia. cbn [mbind option_bind].
      set (c := lp_body (seg_all segs') ++ [LP_EOF] ++ slack).
      destruct (memmove_left_tail a (gap ++ ent_bytes d) (lp_body kk) c (zlen a)
        (zlen a + zlen gap + zlen (ent_bytes d))
        (zlen a + zlen gap + (zlen (ent_bytes d) + zlen (lp_body kk)) - (zlen a + zlen gap + zlen (ent_bytes d))))
        as (gap' & Hr & Em); [rewrite zlen_app; lia|lia|done|].
      rewrite lp_body_cons, lp_body_app. rewrite <- !app_assoc. rewrite <- !app_assoc in Em.
      fold c. rewrite Em. cbn [mbind option_bind].
      destruct (IH (a ++ lp_body kk) gap' slack lp_end) as (rest & Er);
        [done|done|rewrite zlen_app in *; lia|].
      rewrite zlen_app in Er, Hr. exists rest. rewrite lp_body_app, zlen_app. rewrite <- !app_assoc in Er |- *.
      fold c in Er.
      replace (zlen a + zlen gap + (zlen (ent_bytes d) + zlen (lp_body kk)))
        with (zlen a + zlen (lp_body kk) + zlen gap') by lia.
      replace (zlen a + (_ - _)) with (zlen a + zlen (lp_body kk)) by lia.
      rewrite Z.add_assoc, Er. by rewrite <- !app_assoc.
Qed.

Lemma seg_all_length segs : zlen (seg_all segs) = zlen segs + zlen (seg_kept segs).
Proof.
  induction segs as [|[d k] segs IH]; [done|]. rewrite seg_all_cons, seg_kept_cons.
  autorewrite with zlen. lia.
Qed.

Lemma seg_offs_length off segs : zlen (seg_offs off segs) = zlen segs.
Proof.
  revert off. induction segs as [|[d k] segs IH]; intros off; [done|].
  cbn [seg_offs]. rewrite !zlen_cons, IH. done.
Qed.

Lemma seg_kept_Forall P segs : Forall P (seg_all segs) -> Forall P (seg_kept segs).
Proof.
  induction segs as [|[d k] segs IH]; [done|]. rewrite seg_all_cons, seg_kept_cons.
  intros [_ [Hk Hs]%Forall_app]%Forall_cons. apply Forall_app. auto.
Qed.

Lemma seg_kept_body segs : zlen (lp_body (seg_kept segs)) <= zlen (lp_body (seg_all segs)).
Proof.
  induction segs as [|[d k] segs IH]; [done|]. rewrite seg_all_cons, seg_kept_cons.
  autorewrite with zlen. ent_pos d. lia.
Qed.

Lemma wf_entries_short num es :
  lp_wf num es -> Forall (fun e => ent_ok e /\ zlen (ent_data e) < 2 ^ 32 - 5) es.
Proof.
  intros WF. apply Forall_forall. intros e He. apply list_elem_of_split in He as (l1 & l2 & E).
  pose proof (entry_short num es WF l1 e l2 E). ent_pos e.
  split; [by apply (entry_ok num es WF l1 e l2 E)|unfold_limits; lia].
Qed.

Lemma lpBatchDelete_block `{Allocator} num k0 segs slack :
  lp_wf num (k0 ++ seg_all segs) ->
  exists num' slack',
    lpBatchDelete (lp_block num (k0 ++ seg_all segs) slack) (seg_offs (lp_off k0) segs)
      = Some (lp_block num' (k0 ++ seg_kept segs) slack') /\
    lp_wf num' (k0 ++ seg_kept segs).
Proof.
  intros WF. set (es := k0 ++ seg_all segs). destruct (decide (segs = [])) as [->|Hne].
  { exists num, slack. done. }
  set (a := lp_header num (lp_total es) ++ lp_body k0).
  assert (zlen a = lp_off k0) as Ha by (unfold a, lp_off; by autorewrite with zlen).
  assert (lp_block num es slack = a ++ [] ++ lp_body (seg_all segs) ++ [LP_EOF] ++ slack) as Hlp
    by (unfold lp_block, a, es; rewrite lp_body_app; by rewrite <- !app_assoc).
  assert (lp_total es = zlen a + zlen (lp_body (seg_all segs)) + 1) as Ht
    by (rewrite Ha; unfold lp_total, lp_off, es; rewrite lp_body_app, zlen_app; lia).
  pose proof (seg_kept_body segs) as Hkb. pose proof (lp_total_range num es WF) as Htr.
  destruct (batch_delete_loop segs a [] slack (lp_total es) Hne) as (rest & El);
    [eapply Forall_app, (wf_entries_short num es WF)|change (zlen []) with 0; lia|].
  change (zlen []) with 0 in El. rewrite Z.add_0_r, <- Hlp in El. rewrite Ha in El.
  assert (zlen (k0 ++ seg_kept segs) = zlen es + - zlen segs) as Hlen
    by (unfold es; rewrite !zlen_app, seg_all_length; lia).
  destruct (num_ok_bump num es (k0 ++ seg_kept segs) (- zlen segs) (wf_num _ _ WF) Hlen) as [Hn Hr].
  { pose proof (zlen_nonneg (k0 ++ seg_kept segs)). len_lia. }
  assert (lp_total (k0 ++ seg_kept segs) = lp_off k0 + zlen (lp_body (seg_kept segs)) + 1) as Ht'
    by (unfold lp_total, lp_off; rewrite lp_body_app, zlen_app; lia).
  exists (bump_num num (- zlen segs)), []. split.
  2: { constructor; [|lia|done]. pose proof (wf_ents _ _ WF) as Hf. apply Forall_app in Hf as [? ?].
       apply Forall_app. split; [done|by apply seg_kept_Forall]. }
  pose proof (seg_offs_length (lp_off k0) segs) as Hcount.
  assert (exists l, seg_offs (lp_off k0) segs = lp_off k0 :: l) as [l Eo]
    by (destruct segs as [|[d k] segs']; [done|by eexists]).
  unfold lpBatchDelete. fold es. rewrite Eo in *. rewrite Hcount.
  rewrite (getTotalBytes_block num es slack WF). cbn [mbind option_bind].
  rewrite getb_eof by done. cbn [mbind option_bind]. rewrite Z.eqb_refl. cbn [assert_true mbind option_bind].
  rewrite El. cbn [mbind option_bind].
  replace (lp_total es - (lp_total es - _)) with (lp_total (k0 ++ seg_kept segs)) by lia.
  assert (a ++ lp_body (seg_kept segs) ++ [LP_EOF] ++ rest ++ slack
          = lp_header num (lp_total es) ++ lp_body (k0 ++ seg_kept segs) ++ [LP_EOF] ++ rest ++ slack) as ->
    by (unfold a; rewrite lp_body_app; by rewrite <- !app_assoc).
  assert (getb (lp_header num (lp_total es) ++ lp_body (k0 ++ seg_kept segs) ++ [LP_EOF] ++ rest ++ slack)
            (lp_total (k0 ++ seg_kept segs) - 1) = Some LP_EOF) as ->.
  { rewrite app_assoc. apply getb_mid. unfold lp_total. autorewrite with zlen. lia. }
  cbn [mbind option_bind]. rewrite Z.eqb_refl. cbn [assert_true mbind option_bind].
  rewrite setTotalBytes_header. cbn [mbind option_bind].
  rewrite getNumElements_header by (by eapply num_range). cbn [mbind option_bind].
  unfold bump_num in *. destruct (num =? LP_HDR_NUMELE_UNKNOWN); cbn [negb mbind option_bind].
  - apply (shrink_block num (k0 ++ seg_kept segs) (rest ++ slack)). lia.
  - rewrite setNumElements_header. cbn [mbind option_bind].
    rewrite wrapu_small by (unfold_limits; lia). rewrite <- Z.add_opp_r.
    apply (shrink_block _ (k0 ++ seg_kept segs) (rest ++ slack)). lia.
Qed.
