(* ===== verification/ListpackProps.v ===== *)
(** * Listpacks refine lists of entries

    Reading, navigation, validation and every editing operation of a listpack, stated
    on the list of entries the block represents. *)
From S2P Require Import Prelude Numstr NumstrFacts NumstrProps Listpack ListpackFacts ListpackOps ListpackEdit ListpackRange ListpackBatch.

(** ** Reading *)

Lemma get_at num es slack i e :
  lp_wf num es -> es !! i = Some e ->
  exists v, lpGetWithSize (lp_block num es slack) (ent_off es i) = Some (v, Some (zlen (ent_bytes e))) /\
    match e, v with
    | EInt x, LpInt y => x = y
    | EStr s, LpStr off len => len = zlen s /\ mem_read (lp_block num es slack) off len = Some s /\
                               ent_off es i < off
    | _, _ => False
    end.
Proof.
  intros WF Hi. pose proof (take_drop_middle es i e Hi) as Hes. symmetry in Hes.
  exact (getWithSize_block num es slack WF _ _ _ Hes).
Qed.

(** reading an entry of a listpack gives back the integer, or the place and bytes of the
    string, that the entry was encoded from, for all nine encodings. *)
Theorem lpGet_correct lp es i e :
  LpRepr lp es -> es !! i = Some e ->
  match e with
  | EInt x => lpGet lp (ent_off es i) = Some (LpInt x) /\
              lpGetIntegerValue lp (ent_off es i) = Some (Some x)
  | EStr s => exists off, lpGet lp (ent_off es i) = Some (LpStr off (zlen s)) /\
              mem_read lp off (zlen s) = Some s /\
              lpGetIntegerValue lp (ent_off es i) = Some None
  end.
Proof.
  intros (num & slack & -> & WF) Hi.
  destruct (get_at num es slack i e WF Hi) as (v & Hv & Hm).
  unfold lpGetIntegerValue, lpGet. rewrite Hv. cbn [mbind option_bind].
  destruct e as [x|s], v as [y|off len]; try done; [by subst|].
  destruct Hm as (-> & Hr & _). by exists off.
Qed.

(** lpFirst, lpLast, lpNext, lpPrev and lpSeek (positive and negative indexes, known and
    unknown element count, forward and backward scan) return the offset of the entry at the
    expected index, or NULL outside the list. *)
Theorem lp_navigation_correct lp es :
  LpRepr lp es ->
  lpFirst lp = Some (ent_ptr es 0) /\
  lpLast lp = Some (if es is [] then None else ent_ptr es (length es - 1)) /\
  (forall i, (i < length es)%nat ->
     lpNext lp (ent_off es i) = Some (ent_ptr es (S i)) /\
     lpPrev lp (ent_off es i) = Some (if i is S j then ent_ptr es j else None)) /\
  (forall index, INT64_MIN <= index <= INT64_MAX ->
     lpSeek lp index =
       Some (let i := if index <? 0 then zlen es + index else index in
             if i <? 0 then None else ent_ptr es (Z.to_nat i))).
Proof.
  intros (num & slack & -> & WF). split_and!.
  - by apply lpFirst_block.
  - rewrite (lpLast_block num es slack WF). unfold ent_ptr. destruct es as [|e es]; [done|].
    simpl length. rewrite decide_True by lia. by rewrite Nat.sub_succ, Nat.sub_0_r.
  - intros i Hi. split; [by apply lpNext_at|]. rewrite lpPrev_at by (done || lia).
    destruct i; [done|]. unfold ent_ptr. by rewrite decide_True by lia.
  - intros index _. by apply lpSeek_block.
Qed.

(** lpLength returns the number of entries also when the cached count is unknown, and the count
    it then stores is right. *)
Theorem lpLength_correct lp es :
  LpRepr lp es -> exists lp', lpLength lp = Some (lp', zlen es) /\ LpRepr lp' es.
Proof.
  intros (num & slack & -> & WF). destruct (lpLength_block num es slack WF) as (num' & -> & WF').
  eexists. split; [done|]. by exists num', slack.
Qed.

(** a well-formed listpack passes the shallow validation, and the deep one exactly when the
    caller callback accepts every entry. *)
Theorem lpValidateIntegrity_complete lp es deep cb :
  LpRepr lp es ->
  exists num, lpGetNumElements lp = Some num /\ lpBytes lp = Some (lp_total es) /\
    lpValidateIntegrity lp (lp_total es) deep cb =
      Some (negb deep || forallb (fun j => cb (ent_off es j) num) (seq 0 (length es))).
Proof.
  intros (num & slack & -> & WF). exists num. split_and!.
  - by apply getNumElements_block.
  - by apply getTotalBytes_block.
  - by apply lpValidateIntegrity_block.
Qed.

(** ** Insertion, replacement, deletion *)

(** The edited list: [e] before, after, or instead of the [i]th entry. *)
Definition edit_list (w : lp_where) (i : nat) (e : lp_ent) (es : list lp_ent) : list lp_ent :=
  match w with
  | LP_BEFORE => take i es ++ e :: drop i es
  | LP_AFTER => take (S i) es ++ e :: drop (S i) es
  | LP_REPLACE => <[i := e]> es
  end.

Definition edit_index (w : lp_where) (i : nat) : nat := if w is LP_AFTER then S i else i.

(** What an edit answers: NULL when the result would not fit, else the new block. *)
Definition refines_edit (r : option (option (list Z * option Z))) (es' : list lp_ent)
    (newp : option Z) : Prop :=
  if decide (lp_total es' <= UINT32_MAX)
  then exists lp', r = Some (Some (lp', newp)) /\ LpRepr lp' es'
  else r = Some None.

Lemma edit_result_refines es1 es2 n r newp :
  edit_result es1 es2 n r newp -> refines_edit r (es1 ++ option_list n ++ es2) newp.
Proof.
  unfold edit_result, refines_edit. case_decide; [|done].
  intros (num' & s' & -> & WF). eexists. split; [done|]. by exists num', s'.
Qed.

Section InsertProps.
Context `{Allocator} (lp : list Z) (es : list lp_ent) (HR : LpRepr lp es).

Lemma insert_before i ele e :
  (i <= length es)%nat -> ele_ok ele (Some e) ->
  refines_edit (lpInsert lp ele (ent_off es i) LP_BEFORE) (take i es ++ e :: drop i es)
    (Some (ent_off es i)).
Proof.
  intros Hi He. destruct HR as (num & slack & -> & WF).
  apply (edit_result_refines (take i es) (drop i es) (Some e)).
  rewrite <- (take_drop i es) in WF.
  pose proof (lpInsert_store num (take i es) (drop i es) None (Some e) slack WF ele e He eq_refl) as E.
  simpl option_list in E. rewrite app_nil_l, take_drop in E. done.
Qed.

Lemma insert_replace i ele e :
  (i < length es)%nat -> ele_ok ele (Some e) ->
  refines_edit (lpInsert lp ele (ent_off es i) LP_REPLACE) (<[i := e]> es) (Some (ent_off es i)).
Proof.
  intros Hi He. destruct HR as (num & slack & -> & WF). at_index es i.
  rewrite insert_take_drop by done.
  apply (edit_result_refines (take i es) (drop (S i) es) (Some e)).
  pose proof (lpInsert_store num (take i es) (drop (S i) es) (Some e0) (Some e) slack) as E.
  simpl option_list in E. change ([e0] ++ drop (S i) es) with (e0 :: drop (S i) es) in E.
  rewrite <- H0 in E. by apply (E WF ele e).
Qed.

Lemma insert_after i ele e :
  (i < length es)%nat -> ele_ok ele (Some e) ->
  lpInsert lp ele (ent_off es i) LP_AFTER = lpInsert lp ele (ent_off es (S i)) LP_BEFORE.
Proof.
  intros Hi He. destruct HR as (num & slack & -> & WF). at_index es i.
  destruct (encode_spec ele e He) as (_ & _ & _ & _ & Hdel & _ & _).
  unfold lpInsert at 1. rewrite Hdel. cbv iota.
  rewrite (skip_at num es slack WF i e0 He0). cbn [mbind option_bind].
  assert (ASSERT_INTEGRITY (lp_block num es slack) (ent_off es (S i)) = Some tt) as ->.
  { unfold ASSERT_INTEGRITY. rewrite getTotalBytes_block by done. cbn [mbind option_bind].
    unfold assert_true. replace (_ && _) with true; [done|].
    pose proof (ent_off_le_total es (S i)). pose proof (ent_off_ge es (S i)). lia. }
  cbn [mbind option_bind]. unfold lpInsert. by rewrite Hdel.
Qed.

Lemma delete_at i :
  (i < length es)%nat ->
  refines_edit (lpDelete lp (ent_off es i)) (delete i es) (ent_ptr (delete i es) i).
Proof.
  intros Hi. destruct HR as (num & slack & -> & WF). at_index es i.
  rewrite delete_take_drop.
  assert (ent_ptr (take i es ++ drop (S i) es) i =
          if drop (S i) es is [] then None else Some (ent_off es i)) as ->.
  { unfold ent_ptr, ent_off. rewrite length_app, length_take, length_drop.
    rewrite take_app_le by (rewrite length_take; lia). rewrite take_take, Nat.min_id.
    destruct (drop (S i) es) eqn:Ed; apply (f_equal length) in Ed;
      rewrite length_drop in Ed; simpl in Ed; case_decide; try lia; done. }
  apply (edit_result_refines (take i es) (drop (S i) es) None).
  pose proof (lpInsert_delete num (take i es) (drop (S i) es) (Some e) None slack) as E.
  simpl option_list in E. change ([e] ++ drop (S i) es) with (e :: drop (S i) es) in E.
  rewrite <- H0 in E. by apply E.
Qed.
End InsertProps.

(** lpInsert with a string or an encoded integer, before, after or instead of an entry, yields
    the block of the edited list of entries and a cursor to the new entry, or NULL without a
    change exactly when the total length would exceed UINT32_MAX. *)
Theorem lpInsert_correct `{Allocator} lp es i ele e w :
  LpRepr lp es -> (i < length es)%nat -> ele_ok ele (Some e) ->
  refines_edit (lpInsert lp ele (ent_off es i) w) (edit_list w i e es)
    (Some (ent_off es (edit_index w i))).
Proof.
  intros HR Hi He. destruct w; simpl.
  - apply insert_before; [done|lia|done].
  - rewrite (insert_after lp es HR i ele e) by done. apply insert_before; [done|lia|done].
  - by apply insert_replace.
Qed.

(** lpDelete removes exactly the entry it is given, keeps the count and the total length right,
    shrinks the block and returns the following entry, or NULL when the last one was deleted. *)
Theorem lpDelete_correct `{Allocator} lp es i :
  LpRepr lp es -> (i < length es)%nat ->
  exists lp', lpDelete lp (ent_off es i) = Some (Some (lp', ent_ptr (delete i es) i)) /\
    LpRepr lp' (delete i es).
Proof.
  intros HR Hi. pose proof (delete_at lp es HR i Hi) as E. unfold refines_edit in E.
  rewrite decide_True in E; [done|]. destruct HR as (num & slack & -> & WF).
  at_index es i. pose proof (wf_total _ _ WF) as Ht. rewrite H0 in Ht.
  rewrite delete_take_drop. unfold lp_total in *. autorewrite with zlen in *. ent_pos e. lia.
Qed.

(** What the callers without a cursor get back. *)
Definition refines_block (r : option (option (list Z))) (es' : list lp_ent) : Prop :=
  if decide (lp_total es' <= UINT32_MAX)
  then exists lp', r = Some (Some lp') /\ LpRepr lp' es'
  else r = Some None.

Lemma refines_only r es' newp :
  refines_edit r es' newp -> refines_block (r ← r; Some (lp_only r)) es'.
Proof.
  unfold refines_edit, refines_block. case_decide; [|by intros ->].
  intros (lp' & -> & HR). by exists lp'.
Qed.

Section Ends.
Context `{Allocator} (lp : list Z) (es : list lp_ent) (HR : LpRepr lp es).

Lemma end_insert ele e :
  ele_ok ele (Some e) ->
  refines_block (b ← lpGetTotalBytes lp; r ← lpInsert lp ele (b - 1) LP_BEFORE; Some (lp_only r))
    (es ++ [e]).
Proof.
  intros He. assert (lpGetTotalBytes lp = Some (lp_total es)) as ->.
  { destruct HR as (num & slack & -> & WF). by apply getTotalBytes_block. }
  cbn [mbind option_bind]. rewrite <- ent_off_end. eapply refines_only.
  pose proof (insert_before lp es HR (length es) ele e ltac:(lia) He) as E.
  by rewrite firstn_all, drop_ge in E by lia.
Qed.

Lemma front_insert ele e (g : option (option (list Z))) :
  ele_ok ele (Some e) -> refines_block g (es ++ [e]) ->
  refines_block (p ← lpFirst lp;
    match p with
    | None => g
    | Some p => r ← lpInsert lp ele p LP_BEFORE; Some (lp_only r)
    end) (e :: es).
Proof.
  intros He Hg. assert (lpFirst lp = Some (ent_ptr es 0)) as ->.
  { destruct HR as (num & slack & -> & WF). by apply lpFirst_block. }
  cbn [mbind option_bind]. unfold ent_ptr. case_decide.
  - eapply refines_only. exact (insert_before lp es HR 0 ele e ltac:(lia) He).
  - destruct es; [done|simpl in *; lia].
Qed.
End Ends.

(** lpAppend, lpPrepend and their integer variants add the entry at the end or at the front, or
    answer NULL when it does not fit. *)
Theorem lpAppend_lpPrepend_correct `{Allocator} lp es s v :
  LpRepr lp es -> Forall is_byte s -> zlen s <= UINT32_MAX -> INT64_MIN <= v <= INT64_MAX ->
  refines_block (lpAppend lp s (zlen s)) (es ++ [str_ent s]) /\
  refines_block (lpPrepend lp s (zlen s)) (str_ent s :: es) /\
  refines_block (lpAppendInteger lp v) (es ++ [EInt v]) /\
  refines_block (lpPrependInteger lp v) (EInt v :: es).
Proof.
  intros HR Hb Hs Hv.
  assert (ele_ok (EleStr s (zlen s)) (Some (str_ent s))) as H1 by done.
  assert (ele_ok (EleInt (lpEncodeIntegerGetType v)) (Some (EInt v))) as H2 by (by exists v).
  split_and!.
  - by apply end_insert.
  - apply front_insert; [done|done|]. by apply end_insert.
  - by apply end_insert.
  - apply front_insert; [done|done|]. by apply end_insert.
Qed.

(** lpDeleteRange with any index and count removes the entries from the index on, truncating at
    the end of the list, by either of its two code paths, and leaves the listpack unchanged when
    the index is out of range. *)
Theorem lpDeleteRange_correct `{Allocator} lp es index n :
  LpRepr lp es -> INT64_MIN <= index <= INT64_MAX -> 0 <= n <= UINT64_MAX ->
  exists lp', lpDeleteRange lp index n = Some lp' /\
    let i := if index <? 0 then zlen es + index else index in
    LpRepr lp' (if i <? 0 then es else remove_range (Z.to_nat i) (Z.to_nat n) es).
Proof.
  intros (num & slack & -> & WF) Hi Hn.
  destruct (deleteRange_block num es slack WF index n Hi Hn) as (num' & slack' & -> & WF').
  eexists. split; [done|]. by exists num', slack'.
Qed.

(** lpBatchInsert inserts all the given entries at the position in one move, equal to inserting
    their list there, sets the cursor to the last inserted entry, and answers NULL exactly when
    the result would not fit. *)
Theorem lpBatchInsert_correct `{Allocator} lp es i entries :
  LpRepr lp es -> (i <= length es)%nat -> Forall le_ok entries -> entries <> [] ->
  zlen (lp_body (le_ent <$> entries)) < 2 ^ 63 ->
  refines_edit (lpBatchInsert lp (ent_off es i) LP_BEFORE entries)
    (take i es ++ (le_ent <$> entries) ++ drop i es)
    (Some (ent_off (take i es ++ (le_ent <$> entries) ++ drop i es) (i + length entries - 1))).
Proof.
  intros (num & slack & -> & WF) Hi Hok Hne Hmem. rewrite <- (take_drop i es) in WF.
  pose proof (batchInsert_block num (take i es) (drop i es) slack entries WF Hok Hne Hmem) as E.
  rewrite take_drop in E. rewrite (length_take_le es i) in E by done.
  change (ent_off es i) with (lp_off (take i es)).
  unfold refines_edit. case_decide; [|done].
  destruct E as (s' & newp & -> & WF' & ->). eexists. split; [done|]. by eexists _, _.
Qed.

(** lpBatchDelete of any ordered selection of entries keeps exactly the other entries, in
    order, by one pass of moves to the left. *)
Theorem lpBatchDelete_correct `{Allocator} lp k0 segs :
  LpRepr lp (k0 ++ seg_all segs) ->
  exists lp', lpBatchDelete lp (seg_offs (lp_off k0) segs) = Some lp' /\
    LpRepr lp' (k0 ++ seg_kept segs).
Proof.
  intros (num & slack & -> & WF).
  destruct (lpBatchDelete_block num k0 segs slack WF) as (num' & slack' & -> & WF').
  eexists. split; [done|]. by exists num', slack'.
Qed.

(** lpMerge of two listpacks yields the concatenation of their entries in the block of the
    larger one (the count saturating at unknown), and its size assertion fails exactly when the
    result does not fit. *)
Theorem lpMerge_correct `{Allocator} first second es1 es2 :
  LpRepr first es1 -> LpRepr second es2 ->
  if decide (lp_total (es1 ++ es2) < UINT32_MAX)
  then exists target, lpMerge first second = Some (target, lp_total es1 >=? lp_total es2) /\
         LpRepr target (es1 ++ es2)
  else lpMerge first second = None.
Proof.
  intros (n1 & s1 & -> & WF1) (n2 & s2 & -> & WF2). rewrite lpMerge_block by done.
  case_decide; [|done]. eexists. split; [done|]. eexists _, _. split; [done|].
  by eapply merge_wf.
Qed.

(** lpFind returns the first entry, at the given stride, equal to the entry the searched string
    would be stored as (integers compared as integers, with the cached conversion), or NULL;
    lpCompare decides the same equality. *)
Theorem lpFind_correct lp es s start skip :
  LpRepr lp es -> Forall ent_canon es -> (start < length es)%nat \/ start = O ->
  0 <= skip <= INT32_MAX ->
  lpFind lp (if start is O then None else Some (ent_off es start)) s (zlen s) skip =
    Some (ent_off es <$> (Nat.add start <$>
      find_from (fun e => bool_decide (e = str_ent s)) (Z.to_nat skip) 0 (drop start es))) /\
  (forall i e, es !! i = Some e ->
     lpCompare lp (ent_off es i) s (zlen s) = Some (bool_decide (e = str_ent s))).
Proof.
  intros (num & slack & -> & WF) Hc Hst Hsk. split.
  - rewrite (lpFind_block num es slack WF) by done. unfold ptr_of. do 3 f_equal.
    apply find_from_ext. apply Forall_drop. eapply Forall_impl; [done|].
    intros e. apply ent_matches_canon.
  - intros i e Hi. rewrite (lpCompare_block num es slack WF s i e Hi).
    rewrite ent_matches_canon; [done|]. by eapply Forall_lookup_1.
Qed.

(** ** Histories

    A caller that keeps the old listpack when an edit answers NULL, and ignores an index
    that [lpSeek] does not find. *)

Lemma lpNew_repr `{Allocator} capacity : exists lp, lpNew capacity = Some lp /\ LpRepr lp [].
Proof.
  unfold lpNew. set (n := Z.to_nat _).
  assert (7 <= n)%nat as Hn by (unfold n, LP_HDR_SIZE; case_match; lia).
  pose proof (length_fresh_bytes n) as Hl. destruct (fresh_bytes n) as [|b0 l]; [simpl in Hl; lia|].
  do 6 (destruct l as [|? l]; [simpl in Hl; lia|]).
  eexists. split; [reflexivity|]. exists 0, l. split; [done|]. constructor; [done|done|by left].
Qed.

Inductive lp_op :=
  | OpAppend (s : list Z)
  | OpPrepend (s : list Z)
  | OpInsert (index : Z) (s : list Z) (w : lp_where)
  | OpDelete (index : Z)
  | OpDeleteRange (index n : Z).

Definition op_ok (op : lp_op) : Prop :=
  match op with
  | OpAppend s | OpPrepend s => Forall is_byte s /\ zlen s <= UINT32_MAX
  | OpInsert index s _ => INT64_MIN <= index <= INT64_MAX /\ Forall is_byte s /\ zlen s <= UINT32_MAX
  | OpDelete index => INT64_MIN <= index <= INT64_MAX
  | OpDeleteRange index n => INT64_MIN <= index <= INT64_MAX /\ 0 <= n <= UINT64_MAX
  end.

Definition keep_old (lp : list Z) (r : option (option (list Z))) : option (list Z) :=
  r ← r; Some (default lp r).

Definition run_op `{Allocator} (lp : list Z) (op : lp_op) : option (list Z) :=
  match op with
  | OpAppend s => keep_old lp (lpAppend lp s (zlen s))
  | OpPrepend s => keep_old lp (lpPrepend lp s (zlen s))
  | OpInsert index s w =>
      p ← lpSeek lp index;
      match p with
      | None => Some lp
      | Some p => keep_old lp (r ← lpInsertString lp s (zlen s) p w; Some (lp_only r))
      end
  | OpDelete index =>
      p ← lpSeek lp index;
      match p with
      | None => Some lp
      | Some p => keep_old lp (r ← lpDelete lp p; Some (lp_only r))
      end
  | OpDeleteRange index n => lpDeleteRange lp index n
  end.

(** The same operations on lists. *)
Definition list_index (index : Z) (es : list lp_ent) : option nat :=
  let i := if index <? 0 then zlen es + index else index in
  if (0 <=? i) && (i <? zlen es) then Some (Z.to_nat i) else None.

Definition if_fits (es es' : list lp_ent) : list lp_ent :=
  if decide (lp_total es' <= UINT32_MAX) then es' else es.

Definition spec_op (es : list lp_ent) (op : lp_op) : list lp_ent :=
  match op with
  | OpAppend s => if_fits es (es ++ [str_ent s])
  | OpPrepend s => if_fits es (str_ent s :: es)
  | OpInsert index s w =>
      if list_index index es is Some i then if_fits es (edit_list w i (str_ent s) es) else es
  | OpDelete index => if list_index index es is Some i then delete i es else es
  | OpDeleteRange index n =>
      if list_index index es is Some i then remove_range i (Z.to_nat n) es else es
  end.

Lemma keep_old_fits lp es r es' :
  LpRepr lp es -> refines_block r es' ->
  exists lp', keep_old lp r = Some lp' /\ LpRepr lp' (if_fits es es').
Proof.
  unfold refines_block, if_fits. intros HR. case_decide.
  - intros (lp' & -> & HR'). by exists lp'.
  - intros ->. by exists lp.
Qed.

Lemma seek_list_index lp es index :
  LpRepr lp es ->
  lpSeek lp index = Some (ent_off es <$> list_index index es) /\
  (forall i, list_index index es = Some i -> (i < length es)%nat).
Proof.
  intros (num & slack & -> & WF). rewrite (lpSeek_block num es slack WF). unfold list_index, ent_ptr.
  set (i := if index <? 0 then zlen es + index else index). cbv zeta. unfold zlen in *. split.
  - destruct (i <? 0) eqn:E; [by replace (0 <=? i) with false by lia|].
    replace (0 <=? i) with true by lia. case_decide.
    + by replace (i <? _) with true by lia.
    + by replace (i <? _) with false by lia.
  - intros k. case_match; [|done]. intros [= <-]. lia.
Qed.

Lemma lp_run_op_refines `{Allocator} lp es op :
  LpRepr lp es -> op_ok op -> exists lp', run_op lp op = Some lp' /\ LpRepr lp' (spec_op es op).
Proof.
  intros HR Hop. destruct op as [s|s|index s w|index|index n]; cbn [run_op spec_op op_ok] in *.
  - apply (keep_old_fits _ es); [done|]. apply end_insert; [done|]. destruct Hop. by split_and!.
  - apply (keep_old_fits _ es); [done|]. destruct Hop.
    apply front_insert; [done|by split_and!|]. apply end_insert; [done|by split_and!].
  - destruct (seek_list_index lp es index HR) as [-> Hlt]. cbn [mbind option_bind].
    destruct (list_index index es) as [i|]; [|by exists lp]. cbn [fmap option_fmap option_map].
    apply (keep_old_fits _ es); [done|]. unfold lpInsertString.
    specialize (Hlt i eq_refl). destruct Hop as (_ & Hb & Hs).
    assert (ele_ok (EleStr s (zlen s)) (Some (str_ent s))) as He by done.
    destruct w; eapply refines_only; simpl.
    + apply insert_before; [done|lia|done].
    + rewrite (insert_after lp es HR i _ _ Hlt He). apply insert_before; [done|lia|done].
    + by apply insert_replace.
  - destruct (seek_list_index lp es index HR) as [-> Hlt]. cbn [mbind option_bind].
    destruct (list_index index es) as [i|]; [|by exists lp]. cbn [fmap option_fmap option_map].
    specialize (Hlt i eq_refl). pose proof (delete_at lp es HR i Hlt) as E.
    unfold refines_edit in E. case_decide as Ht.
    + destruct E as (lp' & -> & HR'). by exists lp'.
    + exfalso. destruct HR as (num & slack & -> & WF). at_index es i.
      pose proof (wf_total _ _ WF) as Ht'. rewrite H0 in Ht'. rewrite delete_take_drop in Ht.
      unfold lp_total in *. autorewrite with zlen in *. ent_pos e. lia.
  - destruct HR as (num & slack & -> & WF). destruct Hop as [Hi Hn].
    destruct (deleteRange_block num es slack WF index n Hi Hn) as (num' & slack' & -> & WF').
    eexists. split; [done|]. revert WF'. unfold list_index.
    set (i := if index <? 0 then zlen es + index else index). cbv zeta. unfold zlen.
    destruct (i <? 0) eqn:E; [replace (0 <=? i) with false by lia; by eexists _, _|].
    replace (0 <=? i) with true by lia. cbn [andb].
    destruct (i <? Z.of_nat (length es)) eqn:E2; [by eexists _, _|].
    assert (remove_range (Z.to_nat i) (Z.to_nat n) es = es) as ->; [|by eexists _, _].
    unfold remove_range. rewrite take_ge, drop_ge by lia. apply app_nil_r.
Qed.

Fixpoint run_ops `{Allocator} (lp : list Z) (ops : list lp_op) : option (list Z) :=
  match ops with [] => Some lp | op :: ops => lp ← run_op lp op; run_ops lp ops end.

(** C1: starting from lpNew, any sequence of appends, prepends, positional inserts and replacements,
    deletions and range deletions leaves a listpack that represents the list obtained by the
    same operations on lists (an edit that would exceed the 32-bit size is refused and changes
    nothing), and that passes lpValidateIntegrity; no access leaves the block and no assert
    fails. *)
Theorem lp_history_refines_list `{Allocator} capacity ops :
  Forall op_ok ops ->
  exists lp, (lp ← lpNew capacity; run_ops lp ops) = Some lp /\
    LpRepr lp (foldl spec_op [] ops) /\
    lpValidateIntegrity lp (lp_total (foldl spec_op [] ops)) true (fun _ _ => true) = Some true.
Proof.
  intros Hops. destruct (lpNew_repr capacity) as (lp0 & -> & HR). cbn [mbind option_bind].
  generalize (@nil lp_ent) lp0 HR. clear lp0 HR. induction Hops as [|op ops Hop _ IH]; intros es lp HR.
  - exists lp. split_and!; [done|done|]. destruct HR as (num & slack & -> & WF).
    rewrite (lpValidateIntegrity_block num es slack WF). f_equal. simpl.
    apply forallb_forall. done.
  - destruct (lp_run_op_refines lp es op HR Hop) as (lp' & E & HR').
    cbn [run_ops foldl]. rewrite E. cbn [mbind option_bind]. by apply IH.
Qed.

(** ** Instances *)

(** The entries 12, "ab", -5 and a string of 70 bytes, in a block with one spare byte. *)
Definition wit_es : list lp_ent := [EInt 12; EStr [97; 98]; EInt (-5); EStr (replicate 70 120)].
Definition wit_lp : list Z := lp_block 4 wit_es [7].

Lemma wit_repr : LpRepr wit_lp wit_es.
Proof.
  exists 4, [7]. split; [done|]. constructor; [|by vm_compute|by left].
  repeat (constructor; [simpl; unfold is_byte; unfold_limits; first [lia | repeat constructor; lia]|]).
  constructor.
Defined.

Lemma lpGet_witness :
  lpGet wit_lp (ent_off wit_es 2) = Some (LpInt (-5)) /\
  lpGetIntegerValue wit_lp (ent_off wit_es 2) = Some (Some (-5)).
Proof. exact (lpGet_correct wit_lp wit_es 2 (EInt (-5)) wit_repr eq_refl). Defined.

Lemma lp_navigation_witness : lpFirst wit_lp = Some (ent_ptr wit_es 0).
Proof. exact (proj1 (lp_navigation_correct wit_lp wit_es wit_repr)). Defined.

Lemma lpLength_witness : exists lp', lpLength wit_lp = Some (lp', 4) /\ LpRepr lp' wit_es.
Proof. exact (lpLength_correct wit_lp wit_es wit_repr). Defined.

Lemma lpValidateIntegrity_witness :
  exists num, lpGetNumElements wit_lp = Some num /\ lpBytes wit_lp = Some (lp_total wit_es) /\
    lpValidateIntegrity wit_lp (lp_total wit_es) true (fun _ _ => true) = Some true.
Proof. exact (lpValidateIntegrity_complete wit_lp wit_es true (fun _ _ => true) wit_repr). Defined.

Lemma lpInsert_witness :
  refines_edit (lpInsert wit_lp (EleStr [120; 121] 2) (ent_off wit_es 1) LP_AFTER)
    [EInt 12; EStr [97; 98]; EStr [120; 121]; EInt (-5); EStr (replicate 70 120)]
    (Some (ent_off wit_es 2)).
Proof.
  apply (lpInsert_correct wit_lp wit_es 1 (EleStr [120; 121] 2) (EStr [120; 121]) LP_AFTER);
    [exact wit_repr|simpl; lia|].
  split_and!; [done|repeat constructor; unfold is_byte; lia|by vm_compute|done].
Defined.

Lemma lpDelete_witness :
  exists lp', lpDelete wit_lp (ent_off wit_es 3) = Some (Some (lp', None)) /\
    LpRepr lp' [EInt 12; EStr [97; 98]; EInt (-5)].
Proof. exact (lpDelete_correct wit_lp wit_es 3 wit_repr ltac:(simpl; lia)). Defined.

Lemma lpAppend_lpPrepend_witness :
  refines_block (lpAppend wit_lp [55] 1) (wit_es ++ [EInt 7]) /\
  refines_block (lpPrepend wit_lp [55] 1) (EInt 7 :: wit_es) /\
  refines_block (lpAppendInteger wit_lp 70000) (wit_es ++ [EInt 70000]) /\
  refines_block (lpPrependInteger wit_lp 70000) (EInt 70000 :: wit_es).
Proof.
  apply (lpAppend_lpPrepend_correct wit_lp wit_es [55] 70000); [exact wit_repr| |by vm_compute|].
  - repeat constructor; unfold is_byte; lia.
  - by vm_compute.
Defined.

Lemma lpDeleteRange_witness :
  exists lp', lpDeleteRange wit_lp (-3) 2 = Some lp' /\
    LpRepr lp' [EInt 12; EStr (replicate 70 120)].
Proof.
  exact (lpDeleteRange_correct wit_lp wit_es (-3) 2 wit_repr ltac:(by vm_compute) ltac:(by vm_compute)).
Defined.

Lemma lpBatchInsert_witness :
  refines_edit (lpBatchInsert wit_lp (ent_off wit_es 1) LP_BEFORE [LeInt 5; LeStr [45; 49] 2])
    [EInt 12; EInt 5; EInt (-1); EStr [97; 98]; EInt (-5); EStr (replicate 70 120)]
    (Some (ent_off [EInt 12; EInt 5; EInt (-1); EStr [97; 98]; EInt (-5); EStr (replicate 70 120)] 2)).
Proof.
  apply (lpBatchInsert_correct wit_lp wit_es 1 [LeInt 5; LeStr [45; 49] 2]);
    [exact wit_repr|simpl; lia| |done|by vm_compute].
  repeat constructor; by vm_compute.
Defined.

Lemma lpBatchDelete_witness :
  exists lp', lpBatchDelete wit_lp [6; 12] = Some lp' /\ LpRepr lp' [EStr [97; 98]; EStr (replicate 70 120)].
Proof.
  exact (lpBatchDelete_correct wit_lp [] [(EInt 12, [EStr [97; 98]]); (EInt (-5), [EStr (replicate 70 120)])]
    wit_repr).
Defined.

Lemma lpMerge_witness :
  exists target, lpMerge wit_lp wit_lp = Some (target, true) /\ LpRepr target (wit_es ++ wit_es).
Proof. exact (lpMerge_correct wit_lp wit_lp wit_es wit_es wit_repr wit_repr). Defined.

Lemma lpFind_witness :
  lpFind wit_lp None [45; 53] 2 1 = Some (Some 12) /\
  (forall i e, wit_es !! i = Some e ->
     lpCompare wit_lp (ent_off wit_es i) [45; 53] 2 = Some (bool_decide (e = EInt (-5)))).
Proof.
  apply (lpFind_correct wit_lp wit_es [45; 53] 0 1); [exact wit_repr| |by right|by vm_compute].
  repeat (constructor; [by vm_compute|]). constructor.
Defined.

Lemma lp_history_witness :
  exists lp, (lp ← lpNew 0; run_ops lp [OpAppend [49]; OpPrepend [97]; OpInsert (-1) [98] LP_AFTER;
                                        OpDelete 0; OpDeleteRange 1 9]) = Some lp /\
    LpRepr lp [EInt 1] /\ lpValidateIntegrity lp 9 true (fun _ _ => true) = Some true.
Proof.
  apply (lp_history_refines_list 0 [OpAppend [49]; OpPrepend [97]; OpInsert (-1) [98] LP_AFTER;
                                    OpDelete 0; OpDeleteRange 1 9]).
  repeat constructor; by vm_compute.
Defined.
