(* ===== verification/Skiplist.v ===== *)
(** * Skip lists: the sorted-set view of [t_zset.c]

    Nodes live in a heap, a finite map from addresses to nodes; a pointer is an address,
    NULL is [None].  A NULL or dangling dereference, an access past a node's level array
    and a failed [serverAssert] are [None].  Scores are IEEE doubles, compared as the
    processor compares them (NaN is unordered, the zeros are equal).  The outcomes of
    [random()] are an argument of the operations that draw levels. *)
From Stdlib Require Import SpecFloat.
From S2P Require Import Prelude.

Definition ZSKIPLIST_MAXLEVEL : nat := 32.
Definition ZSKIPLIST_MAX_SEARCH := 10.
(** [ZSKIPLIST_P*RAND_MAX] as an [int]. *)
Definition level_threshold := 536870911.

(** ** Doubles and strings *)

Notation double := spec_float.

Definition isnan (d : double) : bool := match d with S754_nan => true | _ => false end.
Definition dlt (a b : double) : bool := SFltb a b.
Definition dle (a b : double) : bool := SFleb a b.
Definition deq (a b : double) : bool := SFeqb a b.

(** The sign of [memcmp] over [n] bytes. *)
Fixpoint memcmp (a b : list Z) (n : nat) : Z :=
  match n, a, b with
  | S n, x :: a, y :: b => if x =? y then memcmp a b n else if x <? y then -1 else 1
  | _, _, _ => 0
  end.

Definition sdscmp (s1 s2 : list Z) : Z :=
  let l1 := zlen s1 in
  let l2 := zlen s2 in
  let minlen := if l1 <? l2 then l1 else l2 in
  let cmp := memcmp s1 s2 (Z.to_nat minlen) in
  if cmp =? 0 then (if l1 >? l2 then 1 else if l1 <? l2 then -1 else 0) else cmp.

(** ** Nodes and lists *)

Record zlevel := { forward : option nat; span : Z }.

Record zskiplistNode := {
  zn_ele : option (list Z);
  zn_score : double;
  zn_backward : option nat;
  zn_level : list zlevel;
}.

Record zskiplist := {
  zsl_header : nat;
  zsl_tail : option nat;
  zsl_length : Z;
  zsl_level : nat;
}.

Notation zheap := (gmap nat zskiplistNode).

(** What the allocator promises for a node: a new address, and level and backward
    fields with indeterminate contents. *)
Class NodeAllocator := {
  fresh_node : zheap -> nat;
  fresh_node_new h : h !! fresh_node h = None;
  junk_levels : nat -> list zlevel;
  length_junk_levels n : length (junk_levels n) = n;
  junk_backward : option nat;
}.

#[export] Program Instance std_node_allocator : NodeAllocator := {|
  fresh_node h := fresh (dom h);
  junk_levels n := replicate n {| forward := Some 0%nat; span := 77 |};
  junk_backward := Some 0%nat;
|}.
Next Obligation. intros h. apply not_elem_of_dom, is_fresh. Qed.
Next Obligation. intros n. apply length_replicate. Qed.

Definition zslCreateNode `{NodeAllocator} (h : zheap) (level : nat) (score : double)
    (ele : option (list Z)) : zheap * nat :=
  let zn := fresh_node h in
  (<[zn := {| zn_ele := ele; zn_score := score; zn_backward := junk_backward;
              zn_level := junk_levels level |}]> h, zn).

(** ** Field access *)

Definition get_level (h : zheap) (x i : nat) : option zlevel := nd ← h !! x; zn_level nd !! i.

Definition set_level (h : zheap) (x i : nat) (lv : zlevel) : option zheap :=
  nd ← h !! x;
  _ ← zn_level nd !! i;
  Some (<[x := {| zn_ele := zn_ele nd; zn_score := zn_score nd; zn_backward := zn_backward nd;
                  zn_level := <[i := lv]> (zn_level nd) |}]> h).

Definition set_backward (h : zheap) (x : nat) (b : option nat) : option zheap :=
  nd ← h !! x;
  Some (<[x := {| zn_ele := zn_ele nd; zn_score := zn_score nd; zn_backward := b;
                  zn_level := zn_level nd |}]> h).

Definition set_score (h : zheap) (x : nat) (s : double) : option zheap :=
  nd ← h !! x;
  Some (<[x := {| zn_ele := zn_ele nd; zn_score := s; zn_backward := zn_backward nd;
                  zn_level := zn_level nd |}]> h).

Definition set_forward h x i f := lv ← get_level h x i; set_level h x i {| forward := f; span := span lv |}.
Definition set_span h x i s := lv ← get_level h x i; set_level h x i {| forward := forward lv; span := s |}.

(** The header's level array after [zslCreate]'s loop. *)
Fixpoint init_levels (h : zheap) (x j : nat) (n : nat) : option zheap :=
  match n with
  | O => Some h
  | S n => h ← set_level h x j {| forward := None; span := 0 |}; init_levels h x (S j) n
  end.

Definition zslCreate `{NodeAllocator} (h : zheap) : option (zheap * zskiplist) :=
  let '(h, header) := zslCreateNode h ZSKIPLIST_MAXLEVEL (S754_zero false) None in
  h ← init_levels h header 0 ZSKIPLIST_MAXLEVEL;
  h ← set_backward h header None;
  Some (h, {| zsl_header := header; zsl_tail := None; zsl_length := 0; zsl_level := 1 |}).

Definition zslFreeNode (h : zheap) (x : nat) : zheap := delete x h.

(** The loop of [zslFree] over the nodes. *)
Fixpoint free_nodes (fuel : nat) (h : zheap) (node : option nat) : option zheap :=
  match node with
  | None => Some h
  | Some x =>
      match fuel with
      | O => None
      | S fuel => lv ← get_level h x 0; free_nodes fuel (zslFreeNode h x) (forward lv)
      end
  end.

Definition zslFree (h : zheap) (zsl : zskiplist) : option zheap :=
  lv ← get_level h (zsl_header zsl) 0;
  let h := delete (zsl_header zsl) h in
  free_nodes (size h) h (forward lv).

(** The level drawn from the outcomes of [random()]. *)
Fixpoint random_level (rs : list Z) (level : Z) : option Z :=
  match rs with
  | [] => None
  | r :: rs => if r <? level_threshold then random_level rs (level + 1) else Some level
  end.

Definition zslRandomLevel (rs : list Z) : option nat :=
  level ← random_level rs 1;
  Some (if level <? Z.of_nat ZSKIPLIST_MAXLEVEL then Z.to_nat level else ZSKIPLIST_MAXLEVEL).

(** ** Walking down the levels *)

(** [cond traversed span fwd]: whether to step to the node [fwd]. *)
Definition zsl_cond := Z -> Z -> zskiplistNode -> bool.

Definition walk_body (h : zheap) (cond : zsl_cond) (i : nat) (st : nat * Z) :
    option ((nat * Z) + (nat * Z)) :=
  let '(x, traversed) := st in
  lv ← get_level h x i;
  match forward lv with
  | None => Some (inr (x, traversed))
  | Some f =>
      fn ← h !! f;
      if cond traversed (span lv) fn then Some (inl (f, u64 (traversed + span lv)))
      else Some (inr (x, traversed))
  end.

Definition walk (h : zheap) (cond : zsl_cond) (i : nat) (x : nat) (traversed : Z) : option (nat * Z) :=
  loop (S (size h)) (walk_body h cond i) (x, traversed).

(** The [for] loop over the levels: the last node, the rank, and the arrays [update]
    and [rank] from index 0 on. *)
Fixpoint descend (h : zheap) (cond : zsl_cond) (i : nat) (x : nat) (traversed : Z)
    (update : list nat) (rank : list Z) : option (nat * Z * list nat * list Z) :=
  match i with
  | O => Some (x, traversed, update, rank)
  | S i =>
      '(x, traversed) ← walk h cond i x traversed;
      descend h cond i x traversed (x :: update) (traversed :: rank)
  end.

Definition zsl_descend (h : zheap) (zsl : zskiplist) (cond : zsl_cond) :=
  descend h cond (zsl_level zsl) (zsl_header zsl) 0 [] [].

(** [fwd->score < score || (fwd->score == score && sdscmp(fwd->ele,ele) < 0)]. *)
Definition node_before (score : double) (ele : list Z) : zsl_cond := fun _ _ fn =>
  dlt (zn_score fn) score ||
  (deq (zn_score fn) score && (sdscmp (default [] (zn_ele fn)) ele <? 0)).

(** ** Insertion *)

(** The new levels of the header. *)
Fixpoint grow_levels (h : zheap) (header : nat) (len : Z) (i n : nat) : option zheap :=
  match n with
  | O => Some h
  | S n => h ← set_span h header i len; grow_levels h header len (S i) n
  end.

(** Linking the new node [x] into levels [i], [i+1], ..., [i+n-1]. *)
Fixpoint link_levels (h : zheap) (x : nat) (update : list nat) (rank : list Z) (rank0 : Z)
    (i n : nat) : option zheap :=
  match n with
  | O => Some h
  | S n =>
      u ← update !! i;
      r ← rank !! i;
      lu ← get_level h u i;
      h ← set_forward h x i (forward lu);
      h ← set_forward h u i (Some x);
      h ← set_span h x i (u64 (span lu - u64 (rank0 - r)));
      h ← set_span h u i (u64 (u64 (rank0 - r) + 1));
      link_levels h x update rank rank0 (S i) n
  end.

Fixpoint bump_levels (h : zheap) (update : list nat) (i n : nat) : option zheap :=
  match n with
  | O => Some h
  | S n =>
      u ← update !! i;
      lu ← get_level h u i;
      h ← set_span h u i (u64 (span lu + 1));
      bump_levels h update (S i) n
  end.

Definition zslInsert `{NodeAllocator} (h : zheap) (zsl : zskiplist) (rs : list Z)
    (score : double) (ele : list Z) : option (zheap * zskiplist * nat) :=
  _ ← assert_true (negb (isnan score));
  '(_, _, update, rank) ← zsl_descend h zsl (node_before score ele);
  level ← zslRandomLevel rs;
  let grow := (level - zsl_level zsl)%nat in
  h ← grow_levels h (zsl_header zsl) (zsl_length zsl) (zsl_level zsl) grow;
  let rank := rank ++ replicate grow 0 in
  let update := update ++ replicate grow (zsl_header zsl) in
  let zlevel := Nat.max level (zsl_level zsl) in
  let '(h, x) := zslCreateNode h level score (Some ele) in
  rank0 ← rank !! 0%nat;
  u0 ← update !! 0%nat;
  h ← link_levels h x update rank rank0 0 level;
  h ← bump_levels h update level (zlevel - level);
  h ← set_backward h x (if decide (u0 = zsl_header zsl) then None else Some u0);
  lx ← get_level h x 0;
  '(h, tail) ← match forward lx with
               | Some f => h ← set_backward h f (Some x); Some (h, zsl_tail zsl)
               | None => Some (h, Some x)
               end;
  Some (h, {| zsl_header := zsl_header zsl; zsl_tail := tail;
              zsl_length := u64 (zsl_length zsl + 1); zsl_level := zlevel |}, x).

(** ** Deletion *)

Fixpoint unlink_levels (h : zheap) (x : nat) (update : list nat) (i n : nat) : option zheap :=
  match n with
  | O => Some h
  | S n =>
      u ← update !! i;
      lu ← get_level h u i;
      h ← (if decide (forward lu = Some x) then
             lx ← get_level h x i;
             h ← set_span h u i (u64 (span lu + u64 (span lx - 1)));
             set_forward h u i (forward lx)
           else set_span h u i (u64 (span lu - 1)));
      unlink_levels h x update (S i) n
  end.

Fixpoint shrink_level (h : zheap) (header : nat) (level : nat) : option nat :=
  match level with
  | S (S l as level') =>
      lv ← get_level h header level';
      match forward lv with None => shrink_level h header level' | Some _ => Some level end
  | _ => Some level
  end.

Definition zslDeleteNode (h : zheap) (zsl : zskiplist) (x : nat) (update : list nat) :
    option (zheap * zskiplist) :=
  h ← unlink_levels h x update 0 (zsl_level zsl);
  lx ← get_level h x 0;
  nx ← h !! x;
  '(h, tail) ← match forward lx with
               | Some f => h ← set_backward h f (zn_backward nx); Some (h, zsl_tail zsl)
               | None => Some (h, zn_backward nx)
               end;
  level ← shrink_level h (zsl_header zsl) (zsl_level zsl);
  Some (h, {| zsl_header := zsl_header zsl; zsl_tail := tail;
              zsl_length := u64 (zsl_length zsl - 1); zsl_level := level |}).

(** The result is the state, and whether the element was found; the node is freed. *)
Definition zslDelete (h : zheap) (zsl : zskiplist) (score : double) (ele : list Z) :
    option (zheap * zskiplist * bool) :=
  '(x, _, update, _) ← zsl_descend h zsl (node_before score ele);
  lx ← get_level h x 0;
  match forward lx with
  | None => Some (h, zsl, false)
  | Some x =>
      nx ← h !! x;
      if deq score (zn_score nx) && (sdscmp (default [] (zn_ele nx)) ele =? 0) then
        '(h, zsl) ← zslDeleteNode h zsl x update;
        Some (zslFreeNode h x, zsl, true)
      else Some (h, zsl, false)
  end.

Definition zslUpdateScore `{NodeAllocator} (h : zheap) (zsl : zskiplist) (rs : list Z)
    (curscore : double) (ele : list Z) (newscore : double) : option (zheap * zskiplist * nat) :=
  '(x, _, update, _) ← zsl_descend h zsl (node_before curscore ele);
  lx ← get_level h x 0;
  x ← forward lx;
  nx ← h !! x;
  _ ← assert_true (deq curscore (zn_score nx) && (sdscmp (default [] (zn_ele nx)) ele =? 0));
  lx ← get_level h x 0;
  below ← match zn_backward nx with
          | None => Some true
          | Some b => nb ← h !! b; Some (dlt (zn_score nb) newscore)
          end;
  above ← match forward lx with
          | None => Some true
          | Some f => nf ← h !! f; Some (dlt newscore (zn_score nf))
          end;
  if (below : bool) && above then
    h ← set_score h x newscore; Some (h, zsl, x)
  else
    '(h, zsl) ← zslDeleteNode h zsl x update;
    ele ← zn_ele nx;
    '(h, zsl, newnode) ← zslInsert h zsl rs newscore ele;
    Some (zslFreeNode h x, zsl, newnode).

(** ** Ranks *)

Fixpoint rank_levels (h : zheap) (cond : zsl_cond) (score : double) (ele : list Z)
    (i : nat) (x : nat) (rank : Z) : option Z :=
  match i with
  | O => Some 0
  | S i =>
      '(x, rank) ← walk h cond i x rank;
      nx ← h !! x;
      match zn_ele nx with
      | Some e => if deq (zn_score nx) score && (sdscmp e ele =? 0) then Some rank
                  else rank_levels h cond score ele i x rank
      | None => rank_levels h cond score ele i x rank
      end
  end.

Definition zslGetRank (h : zheap) (zsl : zskiplist) (score : double) (ele : list Z) : option Z :=
  rank_levels h (fun _ _ fn => dlt (zn_score fn) score ||
      (deq (zn_score fn) score && (sdscmp (default [] (zn_ele fn)) ele <=? 0)))
    score ele (zsl_level zsl) (zsl_header zsl) 0.

Fixpoint by_rank_levels (h : zheap) (rank : Z) (i : nat) (x : nat) (traversed : Z) :
    option (option nat) :=
  match i with
  | O => Some None
  | S i =>
      '(x, traversed) ← walk h (fun t s _ => u64 (t + s) <=? rank) i x traversed;
      if traversed =? rank then Some (Some x) else by_rank_levels h rank i x traversed
  end.

(** [start_level] is [zsl->level - 1]; the argument here is the number of levels. *)
Definition zslGetElementByRankFromNode (h : zheap) (start_node levels : nat) (rank : Z) :=
  by_rank_levels h rank levels start_node 0.

Definition zslGetElementByRank (h : zheap) (zsl : zskiplist) (rank : Z) : option (option nat) :=
  zslGetElementByRankFromNode h (zsl_header zsl) (zsl_level zsl) rank.

(** ** Skip lists: score, lexicographic and rank ranges ([t_zset.c]) *)

(** ** Range specifications *)

Record zrangespec := { r_min : double; r_max : double; r_minex : bool; r_maxex : bool }.

Definition zslValueGteMin (value : double) (spec : zrangespec) : bool :=
  if r_minex spec then dlt (r_min spec) value else dle (r_min spec) value.
Definition zslValueLteMax (value : double) (spec : zrangespec) : bool :=
  if r_maxex spec then dlt value (r_max spec) else dle value (r_max spec).

(** A string bound, or one of the shared objects [minstring] and [maxstring]. *)
Inductive lexbound := LexMin | LexMax | LexStr (s : list Z).

Record zlexrangespec := { l_min : lexbound; l_max : lexbound; l_minex : bool; l_maxex : bool }.

Definition sdscmplex (a b : lexbound) : Z :=
  match a, b with
  | LexMin, LexMin | LexMax, LexMax => 0
  | LexMin, _ | _, LexMax => -1
  | LexMax, _ | _, LexMin => 1
  | LexStr a, LexStr b => sdscmp a b
  end.

Definition zslLexValueGteMin (value : list Z) (spec : zlexrangespec) : bool :=
  if l_minex spec then sdscmplex (LexStr value) (l_min spec) >? 0
  else sdscmplex (LexStr value) (l_min spec) >=? 0.
Definition zslLexValueLteMax (value : list Z) (spec : zlexrangespec) : bool :=
  if l_maxex spec then sdscmplex (LexStr value) (l_max spec) <? 0
  else sdscmplex (LexStr value) (l_max spec) <=? 0.

(** [zslParseLexRangeItem]: the bound and [*ex], [None] for [C_ERR].  The string is the
    item's bytes; its end reads as a zero byte. *)
Definition zslParseLexRangeItem (c : list Z) : option (lexbound * bool) :=
  match c with
  | 43 :: rest => if bool_decide (default 0 (head rest) <> 0) then None else Some (LexMax, true)
  | 45 :: rest => if bool_decide (default 0 (head rest) <> 0) then None else Some (LexMin, true)
  | 40 :: rest => Some (LexStr rest, true)
  | 91 :: rest => Some (LexStr rest, false)
  | _ => None
  end.

(** The arguments are string objects; [None] stands for one with the integer encoding. *)
Definition zslParseLexRange (min max : option (list Z)) : option zlexrangespec :=
  min ← min;
  max ← max;
  '(lo, loex) ← zslParseLexRangeItem min;
  '(hi, hiex) ← zslParseLexRangeItem max;
  Some {| l_min := lo; l_max := hi; l_minex := loex; l_maxex := hiex |}.

(** ** Ranges over nodes: a lower and an upper test

    The score and the lexicographic functions are the same code over different tests. *)

Definition zsl_in_range (h : zheap) (zsl : zskiplist) (empty : bool)
    (gte lte : zskiplistNode -> bool) : option bool :=
  if empty then Some false
  else
    match zsl_tail zsl with
    | None => Some false
    | Some x =>
        nx ← h !! x;
        if negb (gte nx) then Some false
        else
          lv ← get_level h (zsl_header zsl) 0;
          match forward lv with
          | None => Some false
          | Some x => nx ← h !! x; Some (lte nx)
          end
    end.

Fixpoint steps_forward (h : zheap) (x : option nat) (n : nat) : option (option nat) :=
  match n with
  | O => Some x
  | S n => x ← x; lv ← get_level h x 0; steps_forward h (forward lv) n
  end.

Fixpoint steps_backward (h : zheap) (x : option nat) (n : nat) : option (option nat) :=
  match n with
  | O => Some x
  | S n => x ← x; nx ← h !! x; steps_backward h (zn_backward nx) n
  end.

(** Keep the node found only if it passes the other test. *)
Definition check_node (h : zheap) (test : zskiplistNode -> bool) (x : option nat) :
    option (option nat) :=
  match x with
  | None => Some None
  | Some x => nx ← h !! x; Some (if test nx then Some x else None)
  end.

Definition zsl_nth_in_range (h : zheap) (zsl : zskiplist) (empty : bool)
    (gte lte : zskiplistNode -> bool) (n : Z) : option (option nat) :=
  inr ← zsl_in_range h zsl empty gte lte;
  if negb inr then Some None
  else
    let top := (zsl_level zsl - 1)%nat in
    '(x, edge_rank) ← walk h (fun _ _ fn => negb (gte fn)) top (zsl_header zsl) 0;
    let last_node := x in
    let last_rank := edge_rank in
    if n >=? 0 then
      '(x, edge_rank, _, _) ← descend h (fun _ _ fn => negb (gte fn)) top x edge_rank [] [];
      if u64 (edge_rank + n) >=? zsl_length zsl then Some None
      else
        x ← (if n <? ZSKIPLIST_MAX_SEARCH then steps_forward h (Some x) (Z.to_nat (n + 1))
             else zslGetElementByRankFromNode h last_node (zsl_level zsl)
                    (u64 (edge_rank + 1 + n - last_rank)));
        check_node h lte x
    else
      '(x, edge_rank, _, _) ← descend h (fun _ _ fn => lte fn) (zsl_level zsl) x edge_rank [] [];
      if edge_rank <? - n then Some None
      else
        x ← (if n + 1 >? - ZSKIPLIST_MAX_SEARCH then steps_backward h (Some x) (Z.to_nat (- n - 1))
             else zslGetElementByRankFromNode h last_node (zsl_level zsl)
                    (u64 (edge_rank + 1 + n - last_rank)));
        check_node h gte x.

(** The score ranges. *)
Definition score_gte (range : zrangespec) (nd : zskiplistNode) := zslValueGteMin (zn_score nd) range.
Definition score_lte (range : zrangespec) (nd : zskiplistNode) := zslValueLteMax (zn_score nd) range.
Definition score_empty (range : zrangespec) : bool :=
  dlt (r_max range) (r_min range) ||
  (deq (r_min range) (r_max range) && (r_minex range || r_maxex range)).

Definition zslIsInRange h zsl (range : zrangespec) : option bool :=
  zsl_in_range h zsl (score_empty range) (score_gte range) (score_lte range).
Definition zslNthInRange h zsl (range : zrangespec) (n : Z) : option (option nat) :=
  zsl_nth_in_range h zsl (score_empty range) (score_gte range) (score_lte range) n.

(** The lexicographic ranges. *)
Definition lex_gte (range : zlexrangespec) (nd : zskiplistNode) :=
  zslLexValueGteMin (default [] (zn_ele nd)) range.
Definition lex_lte (range : zlexrangespec) (nd : zskiplistNode) :=
  zslLexValueLteMax (default [] (zn_ele nd)) range.
Definition lex_empty (range : zlexrangespec) : bool :=
  let cmp := sdscmplex (l_min range) (l_max range) in
  (cmp >? 0) || ((cmp =? 0) && (l_minex range || l_maxex range)).

Definition zslIsInLexRange h zsl (range : zlexrangespec) : option bool :=
  zsl_in_range h zsl (lex_empty range) (lex_gte range) (lex_lte range).
Definition zslNthInLexRange h zsl (range : zlexrangespec) (n : Z) : option (option nat) :=
  zsl_nth_in_range h zsl (lex_empty range) (lex_gte range) (lex_lte range) n.

(** ** Deleting ranges

    The hash table beside the skip list is seen through [dictDelete]. *)
Class DictDelete (D : Type) := dictDelete : D -> list Z -> D.

(** The deletion loop: from [x] on while [test] holds; [bound] is the number of nodes that
    may still be removed.  The state is the heap, the list, the dictionary, [x] and [removed]. *)
Fixpoint delete_while {D} `{DictDelete D} (fuel : nat) (test : Z -> zskiplistNode -> bool)
    (update : list nat) (h : zheap) (zsl : zskiplist) (dict : D) (x : option nat) (removed : Z) :
    option (zheap * zskiplist * D * Z) :=
  match x with
  | None => Some (h, zsl, dict, removed)
  | Some x =>
      nx ← h !! x;
      if negb (test removed nx) then Some (h, zsl, dict, removed)
      else
        match fuel with
        | O => None
        | S fuel =>
            lx ← get_level h x 0;
            let next := forward lx in
            '(h, zsl) ← zslDeleteNode h zsl x update;
            ele ← zn_ele nx;
            let dict := dictDelete dict ele in
            let h := zslFreeNode h x in
            delete_while fuel test update h zsl dict next (removed + 1)
        end
  end.

Definition delete_range {D} `{DictDelete D} (h : zheap) (zsl : zskiplist) (dict : D)
    (skip : zsl_cond) (test : Z -> Z -> zskiplistNode -> bool) : option (zheap * zskiplist * D * Z) :=
  '(x, traversed, update, _) ← zsl_descend h zsl skip;
  lx ← get_level h x 0;
  delete_while (size h) (test traversed) update h zsl dict (forward lx) 0.

Definition zslDeleteRangeByScore {D} `{DictDelete D} h zsl (range : zrangespec) (dict : D) :=
  delete_range h zsl dict (fun _ _ fn => negb (score_gte range fn)) (fun _ _ nd => score_lte range nd).

Definition zslDeleteRangeByLex {D} `{DictDelete D} h zsl (range : zlexrangespec) (dict : D) :=
  delete_range h zsl dict (fun _ _ fn => negb (lex_gte range fn)) (fun _ _ nd => lex_lte range nd).

(** [traversed] is one more than the rank crossed, and grows with every removal. *)
Definition zslDeleteRangeByRank {D} `{DictDelete D} h zsl (start stop : Z) (dict : D) :=
  delete_range h zsl dict (fun t s _ => u64 (t + s) <? start)
    (fun traversed removed _ => traversed + 1 + removed <=? stop).
