(* ===== verification/SkiplistOrder.v ===== *)
(** * The order of a sorted set: scores, then member names

    Comparison of non-NaN doubles and of byte strings are total orders (doubles up to the
    equality of the two zeros), hence so is the lexicographic order of the skip list. *)
From Stdlib Require Import SpecFloat.
From S2P Require Import Prelude Skiplist.

(** ** Doubles *)

(** The position of a non-NaN double, as three integers compared in turn. *)
Definition dkey (d : double) : Z * Z * Z :=
  match d with
  | S754_infinity true => (-2, 0, 0)
  | S754_finite true m e => (-1, - e, - Zpos m)
  | S754_zero _ | S754_nan => (0, 0, 0)
  | S754_finite false m e => (1, e, Zpos m)
  | S754_infinity false => (2, 0, 0)
  end.

Definition klt (a b : Z * Z * Z) : Prop :=
  let '(x1, y1, z1) := a in let '(x2, y2, z2) := b in
  x1 < x2 \/ (x1 = x2 /\ (y1 < y2 \/ (y1 = y2 /\ z1 < z2))).

Inductive key_case (a b : double) : option comparison -> Prop :=
  | key_lt : klt (dkey a) (dkey b) -> key_case a b (Some Lt)
  | key_eq : dkey a = dkey b -> key_case a b (Some Eq)
  | key_gt : klt (dkey b) (dkey a) -> key_case a b (Some Gt).

Lemma SFcompare_case a b :
  isnan a = false -> isnan b = false -> key_case a b (SFcompare a b).
Proof.
  destruct a as [sa|[]| |[] ma ea], b as [sb|[]| |[] mb eb]; try done; intros _ _; cbn [SFcompare];
    try (constructor; simpl; first [done | lia]).
  - change (Pos.compare_cont Eq ma mb) with (Pos.compare ma mb).
    destruct (Z.compare_spec ea eb); [subst; destruct (Pos.compare_spec ma mb); subst| |];
      constructor; simpl; first [done | lia].
  - change (Pos.compare_cont Eq ma mb) with (Pos.compare ma mb).
    destruct (Z.compare_spec ea eb); [subst; destruct (Pos.compare_spec ma mb); subst| |];
      constructor; simpl; first [done | lia].
Qed.

Lemma klt_irrefl k : ~ klt k k.
Proof. destruct k as [[x y] z]. simpl. lia. Qed.

Lemma klt_trans a b c : klt a b -> klt b c -> klt a c.
Proof. destruct a as [[??]?], b as [[??]?], c as [[??]?]. simpl. lia. Qed.

Section Doubles.
Context (a b : double) (Ha : isnan a = false) (Hb : isnan b = false).

Lemma dlt_spec : dlt a b = true <-> klt (dkey a) (dkey b).
Proof.
  unfold dlt, SFltb. destruct (SFcompare_case a b Ha Hb) as [H|H|H]; split; intros E; try done.
  - rewrite H in E. by apply klt_irrefl in E.
  - destruct (klt_irrefl (dkey a)). by eapply klt_trans.
Qed.

Lemma deq_spec : deq a b = true <-> dkey a = dkey b.
Proof.
  unfold deq, SFeqb. destruct (SFcompare_case a b Ha Hb) as [H|H|H]; split; intros E; try done;
    rewrite E in H; by apply klt_irrefl in H.
Qed.

Lemma dle_spec : dle a b = true <-> ~ klt (dkey b) (dkey a).
Proof.
  unfold dle, SFleb. destruct (SFcompare_case a b Ha Hb) as [H|H|H]; split; intros E; try done.
  - intros E'. destruct (klt_irrefl (dkey a)). by eapply klt_trans.
  - rewrite H. apply klt_irrefl.
Qed.
End Doubles.

(** ** Strings *)

Lemma sdscmp_cons x a y b :
  sdscmp (x :: a) (y :: b) = if x =? y then sdscmp a b else if x <? y then -1 else 1.
Proof.
  unfold sdscmp. rewrite !zlen_cons. pose proof (zlen_nonneg a). pose proof (zlen_nonneg b).
  assert ((1 + zlen a <? 1 + zlen b) = (zlen a <? zlen b)) as -> by lia.
  assert ((1 + zlen a >? 1 + zlen b) = (zlen a >? zlen b)) as -> by lia.
  destruct (zlen a <? zlen b) eqn:E;
    (replace (Z.to_nat (1 + _)) with (S (Z.to_nat (if zlen a <? zlen b then zlen a else zlen b)))
       by (rewrite E; lia)); rewrite E; cbn [memcmp];
    (destruct (x =? y); [done|]); destruct (x <? y); done.
Qed.

Lemma sdscmp_nil_l b : sdscmp [] b = if b is [] then 0 else -1.
Proof.
  destruct b as [|y b]; [done|]. unfold sdscmp. rewrite zlen_cons. change (zlen []) with 0.
  pose proof (zlen_nonneg b). replace (0 <? 1 + zlen b) with true by lia. cbn.
  replace (0 >? 1 + zlen b) with false by lia. done.
Qed.

Lemma sdscmp_nil_r a : sdscmp a [] = if a is [] then 0 else 1.
Proof.
  destruct a as [|x a]; [done|]. unfold sdscmp. rewrite zlen_cons. change (zlen []) with 0.
  pose proof (zlen_nonneg a). replace (1 + zlen a <? 0) with false by lia. cbn.
  replace (1 + zlen a >? 0) with true by lia. done.
Qed.

(** Case analysis on two strings and their first bytes. *)
Ltac sds_cases :=
  rewrite ?sdscmp_cons, ?sdscmp_nil_l, ?sdscmp_nil_r in *; repeat case_match; try lia.

Lemma sdscmp_eq a b : sdscmp a b = 0 <-> a = b.
Proof.
  revert b. induction a as [|x a IH]; intros [|y b].
  - done.
  - rewrite sdscmp_nil_l. done.
  - rewrite sdscmp_nil_r. done.
  - rewrite sdscmp_cons. destruct (Z.eqb_spec x y) as [->|].
    + rewrite IH. split; congruence.
    + split; [destruct (x <? y); done|congruence].
Qed.

Lemma sdscmp_opp a b : sdscmp b a = - sdscmp a b.
Proof.
  revert b. induction a as [|x a IH]; intros [|y b]; rewrite ?sdscmp_nil_l, ?sdscmp_nil_r; try done.
  rewrite !sdscmp_cons, (Z.eqb_sym y x). destruct (Z.eqb_spec x y); [apply IH|].
  destruct (Z.ltb_spec x y), (Z.ltb_spec y x); lia.
Qed.

Lemma sdscmp_trans a b c : sdscmp a b < 0 -> sdscmp b c < 0 -> sdscmp a c < 0.
Proof.
  revert b c. induction a as [|x a IH]; intros [|y b] [|z c];
    rewrite ?sdscmp_nil_l, ?sdscmp_nil_r, ?sdscmp_cons; try lia.
  destruct (Z.eqb_spec x y), (Z.eqb_spec y z), (Z.eqb_spec x z); subst; try lia; eauto;
    repeat match goal with |- context [?u <? ?v] => destruct (Z.ltb_spec u v) end; lia.
Qed.

(** ** Members: a score and a name *)

Definition member := (double * list Z)%type.

Definition mlt (a b : member) : Prop :=
  klt (dkey a.1) (dkey b.1) \/ (dkey a.1 = dkey b.1 /\ sdscmp a.2 b.2 < 0).

Lemma mlt_irrefl a : ~ mlt a a.
Proof.
  intros [H|[_ H]]; [by apply klt_irrefl in H|].
  by rewrite (proj2 (sdscmp_eq a.2 a.2) eq_refl) in H.
Qed.

Lemma mlt_trans a b c : mlt a b -> mlt b c -> mlt a c.
Proof.
  intros [H1|[E1 H1]] [H2|[E2 H2]].
  - left. by eapply klt_trans.
  - left. by rewrite <- E2.
  - left. by rewrite E1.
  - right. split; [congruence|]. by eapply sdscmp_trans.
Qed.

(** The key of a member: its score up to the sign of zero, and its name. *)
Definition same_key (a b : member) : Prop := dkey a.1 = dkey b.1 /\ a.2 = b.2.

Lemma same_key_not_mlt a b : same_key a b -> ~ mlt a b.
Proof.
  destruct a as [s1 e1], b as [s2 e2]. intros [E1 E2] [H|[_ H]]; simpl in *.
  - rewrite E1 in H. by apply klt_irrefl in H.
  - subst. rewrite (proj2 (sdscmp_eq e2 e2) eq_refl) in H. lia.
Qed.

Lemma mlt_asym a b : mlt a b -> ~ mlt b a.
Proof. intros H1 H2. apply (mlt_irrefl a). by eapply mlt_trans. Qed.

Lemma klt_total a b : klt a b \/ a = b \/ klt b a.
Proof.
  destruct a as [[x1 y1] z1], b as [[x2 y2] z2]. simpl.
  destruct (Z.lt_trichotomy x1 x2) as [|[->|]]; [lia| |lia].
  destruct (Z.lt_trichotomy y1 y2) as [|[->|]]; [lia| |lia].
  destruct (Z.lt_trichotomy z1 z2) as [|[->|]]; [lia| |lia]. tauto.
Qed.

Lemma mlt_total a b : mlt a b \/ same_key a b \/ mlt b a.
Proof.
  unfold mlt, same_key. destruct (klt_total (dkey a.1) (dkey b.1)) as [|[E|]]; [tauto| |tauto].
  pose proof (sdscmp_opp a.2 b.2). pose proof (sdscmp_eq a.2 b.2).
  destruct (Z.lt_trichotomy (sdscmp a.2 b.2) 0) as [|[|]]; [tauto| |].
  - right. left. split; [done|]. by apply sdscmp_eq.
  - right. right. right. split; [done|]. lia.
Qed.

(** The test of the search loops. *)
Lemma node_before_spec score ele t s fn :
  isnan (zn_score fn) = false -> isnan score = false ->
  node_before score ele t s fn = true <-> mlt (zn_score fn, default [] (zn_ele fn)) (score, ele).
Proof.
  intros Hf Hs. unfold node_before, mlt. simpl.
  rewrite orb_true_iff, andb_true_iff, dlt_spec, deq_spec, Z.ltb_lt by done. tauto.
Qed.
