(* ===== verification/SkiplistFacts.v ===== *)
(** * Skip list representation

    The nodes in order, the links every level must have, and what walking down the
    levels finds. *)
From Stdlib Require Import SpecFloat.
From S2P Require Import Prelude Skiplist SkiplistOrder.

(** ** Links *)

(** A node as the specification sees it; the header is one with no element. *)
Record snode := { s_id : nat; s_ele : option (list Z); s_score : double; s_height : nat }.

(** The level-[i] link of a node whose successors are [l]. *)
Fixpoint link (i : nat) (l : list snode) : zlevel :=
  match l with
  | [] => {| forward := None; span := 0 |}
  | x :: l =>
      if decide (i < s_height x)%nat then {| forward := Some (s_id x); span := 1 |}
      else {| forward := forward (link i l); span := span (link i l) + 1 |}
  end.

(** No node of [l] reaches level [i]. *)
Definition low (i : nat) (l : list snode) : Prop := Forall (fun x => (s_height x <= i)%nat) l.

#[export] Instance low_dec i l : Decision (low i l).
Proof. unfold low. apply _. Defined.

Lemma link_low i l m :
  low i l -> link i (l ++ m) = {| forward := forward (link i m); span := zlen l + span (link i m) |}.
Proof.
  induction 1 as [|x l Hx _ IH]; simpl.
  - destruct (link i m). simpl. by rewrite Z.add_0_l.
  - rewrite decide_False by lia. rewrite IH. simpl. rewrite zlen_cons. f_equal. lia.
Qed.

Lemma link_tall i l m : ~ low i l -> link i (l ++ m) = link i l.
Proof.
  induction l as [|x l IH]; intros Hl; [destruct Hl; constructor|]. simpl.
  case_decide as Hx; [done|]. rewrite IH; [done|]. intros Hlow. apply Hl. constructor; [lia|done].
Qed.

Lemma link_low_end i l : low i l -> link i l = {| forward := None; span := zlen l |}.
Proof.
  intros Hl. rewrite <- (app_nil_r l) at 1. rewrite link_low by done. simpl. by rewrite Z.add_0_r.
Qed.

(** The first node that reaches the level. *)
Lemma link_tall_inv i l :
  ~ low i l -> exists j x, l !! j = Some x /\ (i < s_height x)%nat /\ low i (take j l) /\
    link i l = {| forward := Some (s_id x); span := Z.of_nat j + 1 |}.
Proof.
  induction l as [|x l IH]; intros Hl; [destruct Hl; constructor|]. simpl.
  case_decide as Hx.
  - exists 0%nat, x. split_and!; [done|done|constructor|done].
  - destruct IH as (j & y & Hj & Hy & Hlow & E).
    { intros Hlow. apply Hl. constructor; [lia|done]. }
    exists (S j), y. split_and!; [done|done|constructor; [lia|done]|].
    rewrite E. simpl. f_equal. lia.
Qed.

Lemma span_range i l : 0 <= span (link i l) <= zlen l.
Proof.
  induction l as [|x l IH]; simpl; [done|]. rewrite zlen_cons. case_decide; simpl; [|lia].
  pose proof (zlen_nonneg l). lia.
Qed.

(** ** The heap as a list of nodes *)

Definition link_fn := nat -> nat -> zlevel.

(** The node at position [p] of [F] has level array [E p] and backward pointer [B p]. *)
Definition HeapOf (h : zheap) (F : list snode) (E : link_fn) (B : nat -> option nat) : Prop :=
  NoDup (s_id <$> F) /\
  forall p x, F !! p = Some x ->
    h !! s_id x = Some {| zn_ele := s_ele x; zn_score := s_score x; zn_backward := B p;
                          zn_level := E p <$> seq 0 (s_height x) |}.

Definition upd2 (E : link_fn) (p i : nat) (lv : zlevel) : link_fn :=
  fun p' i' => if decide (p' = p /\ i' = i) then lv else E p' i'.

Lemma upd2_eq E p i lv : upd2 E p i lv p i = lv.
Proof. unfold upd2. by rewrite decide_True. Qed.

Lemma upd2_ne E p i lv p' i' : p' <> p \/ i' <> i -> upd2 E p i lv p' i' = E p' i'.
Proof. intros Hne. unfold upd2. rewrite decide_False; [done|]. lia. Qed.

Section Heap.
Context (h : zheap) (F : list snode) (E : link_fn) (B : nat -> option nat) (HH : HeapOf h F E B).

Lemma ids_inj p q x y : F !! p = Some x -> F !! q = Some y -> s_id x = s_id y -> p = q.
Proof.
  intros Hp Hq Hid. destruct HH as [Hnd _]. rewrite NoDup_alt in Hnd.
  apply (Hnd p q (s_id x)); rewrite list_lookup_fmap; [by rewrite Hp|by rewrite Hq, Hid].
Qed.

Lemma node_lookup p x :
  F !! p = Some x ->
  h !! s_id x = Some {| zn_ele := s_ele x; zn_score := s_score x; zn_backward := B p;
                        zn_level := E p <$> seq 0 (s_height x) |}.
Proof. apply HH. Qed.

Lemma level_lookup p i n : (i < n)%nat -> (E p <$> seq 0 n) !! i = Some (E p i).
Proof. intros Hi. rewrite list_lookup_fmap, lookup_seq_lt by done. done. Qed.

Lemma get_level_at p x i :
  F !! p = Some x -> (i < s_height x)%nat -> get_level h (s_id x) i = Some (E p i).
Proof.
  intros Hp Hi. unfold get_level. rewrite (node_lookup p x Hp). cbn [mbind option_bind zn_level].
  by apply level_lookup.
Qed.

Lemma upd_levels p i n lv :
  <[i := lv]> (E p <$> seq 0 n) = upd2 E p i lv p <$> seq 0 n.
Proof.
  apply list_eq. intros j. rewrite list_lookup_insert, length_fmap, length_seq, !list_lookup_fmap.
  destruct (decide (j < n)%nat) as [Hj|Hj].
  - rewrite lookup_seq_lt by done. simpl. case_decide as Hd.
    + destruct Hd as [<- _]. by rewrite upd2_eq.
    + by rewrite upd2_ne by lia.
  - rewrite (lookup_ge_None_2 (seq 0 n)) by (rewrite length_seq; lia). simpl. case_decide; [lia|done].
Qed.

Lemma set_level_at p x i lv :
  F !! p = Some x -> (i < s_height x)%nat ->
  exists h', set_level h (s_id x) i lv = Some h' /\ HeapOf h' F (upd2 E p i lv) B.
Proof.
  intros Hp Hi. unfold set_level. rewrite (node_lookup p x Hp). cbn [mbind option_bind zn_level].
  rewrite level_lookup by done. cbn [mbind option_bind]. eexists. split; [done|].
  split; [apply HH|]. intros q y Hq. simpl. rewrite upd_levels.
  destruct (decide (p = q)) as [<-|Hne].
  - rewrite Hp in Hq. injection Hq as <-. by rewrite lookup_insert_eq.
  - rewrite lookup_insert_ne by (intros Hid; by apply Hne, (ids_inj p q x y)).
    rewrite (node_lookup q y Hq). do 2 f_equal. apply list_fmap_ext. intros j v _.
    by rewrite upd2_ne by lia.
Qed.

Lemma set_span_at p x i s :
  F !! p = Some x -> (i < s_height x)%nat ->
  exists h', set_span h (s_id x) i s = Some h' /\
    HeapOf h' F (upd2 E p i {| forward := forward (E p i); span := s |}) B.
Proof.
  intros Hp Hi. unfold set_span. rewrite (get_level_at p x i Hp Hi). cbn [mbind option_bind].
  by apply set_level_at.
Qed.

Lemma set_forward_at p x i f :
  F !! p = Some x -> (i < s_height x)%nat ->
  exists h', set_forward h (s_id x) i f = Some h' /\
    HeapOf h' F (upd2 E p i {| forward := f; span := span (E p i) |}) B.
Proof.
  intros Hp Hi. unfold set_forward. rewrite (get_level_at p x i Hp Hi). cbn [mbind option_bind].
  by apply set_level_at.
Qed.

Lemma set_backward_at p x b :
  F !! p = Some x ->
  exists h', set_backward h (s_id x) b = Some h' /\
    HeapOf h' F E (fun q => if decide (q = p) then b else B q).
Proof.
  intros Hp. unfold set_backward. rewrite (node_lookup p x Hp). cbn [mbind option_bind].
  eexists. split; [done|]. split; [apply HH|]. intros q y Hq. simpl.
  destruct (decide (q = p)) as [->|Hne].
  - rewrite Hp in Hq. injection Hq as <-. by rewrite lookup_insert_eq.
  - rewrite lookup_insert_ne by (intros Hid; by apply Hne, (ids_inj q p y x)).
    by apply node_lookup.
Qed.

(** Only the levels a node has matter. *)
Lemma HeapOf_ext E' B' :
  (forall p x i, F !! p = Some x -> (i < s_height x)%nat -> E p i = E' p i) ->
  (forall p x, F !! p = Some x -> B p = B' p) -> HeapOf h F E' B'.
Proof.
  intros HE HB. split; [apply HH|]. intros p x Hp. rewrite (node_lookup p x Hp).
  rewrite (HB p x Hp). do 2 f_equal. apply list_fmap_ext. intros j v Hj.
  apply lookup_seq in Hj as [-> Hj]. by apply (HE p x).
Qed.

Lemma heap_size : (length F <= size h)%nat.
Proof.
  rewrite <- (length_fmap s_id F), <- (size_list_to_set (C := gset nat)) by apply HH.
  rewrite <- size_dom. apply subseteq_size. intros n Hn. apply elem_of_list_to_set in Hn.
  apply list_elem_of_fmap in Hn as (x & -> & Hx). apply list_elem_of_lookup in Hx as [p Hp].
  apply elem_of_dom. by rewrite (node_lookup p x Hp).
Qed.
End Heap.

(** ** Positions *)

Definition height_at (F : list snode) (p : nat) : nat :=
  match F !! p with Some x => s_height x | None => 0%nat end.
Definition id_at (F : list snode) (p : nat) : nat :=
  match F !! p with Some x => s_id x | None => 0%nat end.

(** The last position up to [k] that reaches level [i]. *)
Fixpoint lastp (F : list snode) (i k : nat) : nat :=
  match k with
  | O => O
  | S k' => if decide (i < height_at F k)%nat then k else lastp F i k'
  end.

Lemma lastp_le F i k : (lastp F i k <= k)%nat.
Proof. induction k; simpl; [done|]. case_decide; lia. Qed.

Lemma lastp_tall F i k : (i < height_at F 0)%nat -> (i < height_at F (lastp F i k))%nat.
Proof. intros H0. induction k; simpl; [done|]. by case_decide. Qed.

Lemma lastp_low F i k r : (lastp F i k < r <= k)%nat -> (height_at F r <= i)%nat.
Proof.
  induction k; simpl; [lia|]. case_decide; [lia|]. intros Hr.
  destruct (decide (r = S k)) as [->|]; [lia|]. apply IHk. lia.
Qed.

Lemma lastp_unique F i k q :
  (q <= k)%nat -> (i < height_at F q)%nat -> (forall r, (q < r <= k)%nat -> (height_at F r <= i)%nat) ->
  lastp F i k = q.
Proof.
  induction k; intros Hq Hh Hlow; simpl; [lia|]. case_decide as Hd.
  - destruct (decide (q = S k)); [done|]. specialize (Hlow (S k) ltac:(lia)). lia.
  - apply IHk; [|done|intros r Hr; apply Hlow; lia].
    destruct (decide (q = S k)) as [->|]; [done|lia].
Qed.

Lemma lastp_ge F i k q : (q <= k)%nat -> (i < height_at F q)%nat -> (q <= lastp F i k)%nat.
Proof.
  intros Hq Hh. destruct (decide (lastp F i k < q)%nat) as [Hlt|]; [|lia].
  pose proof (lastp_low F i k q). lia.
Qed.

(** In a list [hd :: L], the successors of position [p] are [drop p L]. *)
Lemma height_cons hd L p j x :
  drop p L !! j = Some x -> height_at (hd :: L) (S (p + j)) = s_height x.
Proof. intros Hj. rewrite lookup_drop in Hj. unfold height_at. simpl. by rewrite Hj. Qed.

Lemma low_segment hd L i p k :
  low i (take (k - p) (drop p L)) <->
  (forall r, (p < r <= k)%nat -> (height_at (hd :: L) r <= i)%nat).
Proof.
  unfold low. rewrite Forall_lookup. split.
  - intros Hl r Hr. destruct r as [|r]; [lia|].
    unfold height_at. simpl. destruct (L !! r) as [x|] eqn:Ex; [|lia].
    apply (Hl (r - p)%nat x). rewrite lookup_take_lt, lookup_drop by lia.
    by replace (p + (r - p))%nat with r by lia.
  - intros Hr j x Hj. apply lookup_take_Some in Hj as [Hj Hlt].
    rewrite <- (height_cons hd L p j x Hj). apply Hr. lia.
Qed.

Lemma low_iff_lastp hd L i p k :
  (p <= k)%nat -> (i < height_at (hd :: L) p)%nat ->
  low i (take (k - p) (drop p L)) <-> lastp (hd :: L) i k = p.
Proof.
  intros Hp Hh. rewrite (low_segment hd). split.
  - intros Hlow. by apply lastp_unique.
  - intros E r Hr. apply (lastp_low _ i k). lia.
Qed.

(** ** Walking *)

(** The links that the levels in use must have; unused header levels are empty. *)
Definition links_ok (hd : snode) (L : list snode) (zl : nat) (E : link_fn) : Prop :=
  (forall p i, (i < height_at (hd :: L) p)%nat -> (p = O -> (i < zl)%nat) -> E p i = link i (drop p L)) /\
  (forall i, (zl <= i)%nat -> forward (E O i) = None).

Section Walk.
Context (h : zheap) (hd : snode) (L : list snode) (zl : nat) (E : link_fn) (B : nat -> option nat).
Let F := hd :: L.
Context (HH : HeapOf h F E B) (HE : links_ok hd L zl E) (Hlen : zlen L < 2 ^ 63).
Context (Hzl : (zl <= s_height hd)%nat).

(** Counting from position [o], [cond] steps exactly onto the positions up to [k]. *)
Definition cond_from (o : nat) (cond : zsl_cond) (k : nat) : Prop :=
  forall p r x fn, (o <= p < r)%nat -> F !! r = Some x -> h !! s_id x = Some fn ->
    cond (Z.of_nat p - Z.of_nat o) (Z.of_nat r - Z.of_nat p) fn = bool_decide (r <= k)%nat.

Definition cond_upto (cond : zsl_cond) (k : nat) : Prop :=
  forall p r x fn, (p < r)%nat -> F !! r = Some x -> h !! s_id x = Some fn ->
    cond (Z.of_nat p) (Z.of_nat r - Z.of_nat p) fn = bool_decide (r <= k)%nat.

Lemma height_pos p i : (i < height_at F p)%nat -> exists x, F !! p = Some x /\ s_id x = id_at F p /\ (i < s_height x)%nat.
Proof. unfold height_at, id_at. destruct (F !! p) as [x|]; [by exists x|lia]. Qed.

Lemma height_hd : height_at F 0 = s_height hd.
Proof. done. Qed.

Lemma walk_step o cond k i p :
  cond_from o cond k -> (k < length F)%nat -> (o <= p <= k)%nat -> (i < zl)%nat -> (i < height_at F p)%nat ->
  (lastp F i k = p /\
     walk_body h cond i (id_at F p, Z.of_nat p - Z.of_nat o) = Some (inr (id_at F p, Z.of_nat p - Z.of_nat o))) \/
  (exists q, (p < q <= k)%nat /\ (i < height_at F q)%nat /\
     walk_body h cond i (id_at F p, Z.of_nat p - Z.of_nat o) = Some (inl (id_at F q, Z.of_nat q - Z.of_nat o))).
Proof.
  intros Hc Hk Hp Hi Hh. destruct (height_pos p i Hh) as (x & Hx & Hid & Hxh).
  unfold walk_body. rewrite <- Hid, (get_level_at h F E B HH p x i Hx Hxh). cbn [mbind option_bind].
  rewrite (proj1 HE) by done.
  destruct (decide (low i (drop p L))) as [Hlow|Htall].
  - rewrite link_low_end by done. left. split; [|done].
    apply (low_iff_lastp hd); [lia|done|]. by apply Forall_take.
  - destruct (link_tall_inv i _ Htall) as (j & y & Hj & Hy & Hlow & ->). simpl.
    rewrite lookup_drop in Hj. assert (F !! S (p + j) = Some y) as HFy by done.
    rewrite (node_lookup h F E B HH _ y HFy). cbn [mbind option_bind].
    replace (Z.of_nat j + 1) with (Z.of_nat (S (p + j)) - Z.of_nat p) by lia.
    rewrite (Hc p (S (p + j)) y) by (lia || done || by apply (node_lookup h F E B HH _ y)).
    assert (s_id y = id_at F (S (p + j))) as Hyid by (unfold id_at; by rewrite HFy).
    pose proof (lookup_lt_Some _ _ _ Hj) as Hlt. unfold zlen in Hlen.
    case_bool_decide as Hle.
    + right. exists (S (p + j)). split_and!; [lia|lia|unfold height_at; by rewrite HFy|].
      rewrite Hyid. do 3 f_equal. rewrite wrapu_small; lia.
    + left. split; [|done]. apply (low_iff_lastp hd); [lia|done|].
      rewrite <- (take_drop j (drop p L)). rewrite take_app_le by (rewrite length_take, length_drop; lia).
      by apply Forall_take.
Qed.

Lemma walk_from o cond k i p :
  cond_from o cond k -> (k < length F)%nat -> (o <= p <= k)%nat -> (i < zl)%nat -> (i < height_at F p)%nat ->
  walk h cond i (id_at F p) (Z.of_nat p - Z.of_nat o) =
    Some (id_at F (lastp F i k), Z.of_nat (lastp F i k) - Z.of_nat o).
Proof.
  intros Hc Hk Hp Hi Hh. unfold walk.
  destruct (loop_ok (walk_body h cond i)
    (fun st => exists p, st = (id_at F p, Z.of_nat p - Z.of_nat o) /\ (o <= p <= k)%nat /\ (i < height_at F p)%nat)
    (fun r => r = (id_at F (lastp F i k), Z.of_nat (lastp F i k) - Z.of_nat o))
    (fun st => Z.of_nat k - Z.of_nat o - st.2)) with (fuel := S (size h)) (s := (id_at F p, Z.of_nat p - Z.of_nat o))
    as (r & -> & ->); [| |simpl|done].
  - intros st (q & -> & Hq & Hqh). simpl. split; [lia|].
    destruct (walk_step o cond k i q) as [[Hl E1]|(q' & Hq' & Hh' & E1)]; [done..| |].
    + right. exists (id_at F q, Z.of_nat q - Z.of_nat o). by rewrite Hl.
    + left. eexists. split; [exact E1|]. split; [exists q'; split_and!; [done|lia|lia|done]|simpl; lia].
  - by exists p.
  - pose proof (heap_size h F E B HH). lia.
Qed.

Lemma walk_spec cond k i p :
  cond_upto cond k -> (k < length F)%nat -> (p <= k)%nat -> (i < zl)%nat -> (i < height_at F p)%nat ->
  walk h cond i (id_at F p) (Z.of_nat p) = Some (id_at F (lastp F i k), Z.of_nat (lastp F i k)).
Proof.
  intros Hc Hk Hp Hi Hh. pose proof (walk_from 0 cond k i p) as Hw. rewrite !Z.sub_0_r in Hw.
  apply Hw; try done; [|lia]. intros p' r x fn Hr. rewrite Z.sub_0_r. apply Hc. lia.
Qed.

Lemma descend_spec cond k n p upd rk :
  cond_upto cond k -> (k < length F)%nat -> (p <= k)%nat -> (n <= zl)%nat -> (n <= height_at F p)%nat ->
  descend h cond n (id_at F p) (Z.of_nat p) upd rk =
    let q := if n is O then p else lastp F 0 k in
    Some (id_at F q, Z.of_nat q,
          ((fun i => id_at F (lastp F i k)) <$> seq 0 n) ++ upd,
          ((fun i => Z.of_nat (lastp F i k)) <$> seq 0 n) ++ rk).
Proof.
  revert p upd rk. induction n as [|n IH]; intros p upd rk Hc Hk Hp Hn Hh; [done|].
  cbn [descend]. rewrite (walk_spec cond k n p) by (done || lia). cbn [mbind option_bind].
  rewrite IH; [|done|done|apply lastp_le|lia|].
  - rewrite seq_S, !fmap_app, <- !app_assoc. destruct n; done.
  - apply Nat.lt_le_incl, lastp_tall. rewrite height_hd. lia.
Qed.

(** Searching from the header with all levels. *)
Lemma zsl_descend_spec cond k id tail len :
  cond_upto cond k -> (k < length F)%nat -> (0 < zl)%nat -> Forall (fun x => (0 < s_height x)%nat) L ->
  id = s_id hd ->
  zsl_descend h {| zsl_header := id; zsl_tail := tail; zsl_length := len; zsl_level := zl |} cond =
    Some (id_at F k, Z.of_nat k, (fun i => id_at F (lastp F i k)) <$> seq 0 zl,
          (fun i => Z.of_nat (lastp F i k)) <$> seq 0 zl).
Proof.
  intros Hc Hk Hz Hall ->. unfold zsl_descend. cbn [zsl_level zsl_header].
  change (s_id hd) with (id_at F 0). change 0 with (Z.of_nat 0).
  rewrite (descend_spec cond k zl 0) by (done || lia).
  assert (lastp F 0 k = k) as Hlast.
  { apply lastp_unique; [done| |intros r Hr; lia]. destruct k as [|k]; [rewrite height_hd; lia|].
    unfold height_at, F. simpl. destruct (lookup_lt_is_Some_2 L k) as [x Hx]; [simpl in Hk; lia|].
    rewrite Hx. by eapply (Forall_lookup_1 (fun x => (0 < s_height x)%nat)). }
  destruct zl as [|zl']; [lia|]. cbv zeta. rewrite Hlast, !app_nil_r. done.
Qed.
End Walk.
