(* ===== verification/SkiplistEdit.v ===== *)
(** * Skip list insertion and deletion: the level loops

    Each loop rewrites one link per level; the links it must produce are those of the
    edited list. *)
From Stdlib Require Import SpecFloat.
From S2P Require Import Prelude Skiplist SkiplistOrder SkiplistFacts.

(** ** Links of an edited list *)

Section LinkEdit.
Context (hd : snode) (A D : list snode) (x : snode) (i p : nat).
Let k := length A.
Let q := lastp (hd :: A ++ D) i k.

Lemma drop_prefix (X : list snode) : (p <= k)%nat -> drop p (A ++ X) = drop p A ++ X.
Proof. intros Hp. apply drop_app_le. done. Qed.

Lemma height_prefix (X Y : list snode) r :
  (r <= k)%nat -> height_at (hd :: A ++ X) r = height_at (hd :: A ++ Y) r.
Proof.
  intros Hr. unfold height_at. destruct r as [|r]; [done|]. simpl.
  by rewrite !lookup_app_l by (fold k; lia).
Qed.

Lemma lastp_prefix (X Y : list snode) j : (j <= k)%nat -> lastp (hd :: A ++ X) i j = lastp (hd :: A ++ Y) i j.
Proof.
  induction j as [|j IH]; intros Hj; [done|]. cbn [lastp]. rewrite (height_prefix X Y) by done.
  case_decide; [done|]. apply IH. lia.
Qed.

(** The part of [A] behind position [p] stays below level [i] exactly when [p] is the last
    position up to [k] that reaches it. *)
Lemma low_tail :
  (p <= k)%nat -> (i < height_at (hd :: A ++ D) p)%nat -> low i (drop p A) <-> p = q.
Proof.
  intros Hp Hh.
  assert (take (k - p) (drop p (A ++ D)) = drop p A) as E.
  { rewrite drop_prefix by done. apply take_app_length'. rewrite length_drop. done. }
  pose proof (low_iff_lastp hd (A ++ D) i p k Hp Hh) as Hiff. rewrite E in Hiff.
  rewrite Hiff. unfold q. split; congruence.
Qed.

(** Links at positions up to [k], when the tail [D] is preceded by [x] or not. *)
Lemma link_other (X Y : list snode) :
  (p <= k)%nat -> (i < height_at (hd :: A ++ D) p)%nat -> p <> q ->
  link i (drop p (A ++ X)) = link i (drop p (A ++ Y)).
Proof.
  intros Hp Hh Hne. rewrite !drop_prefix by done.
  assert (~ low i (drop p A)) as Ht by (intros Hl; by apply Hne, low_tail).
  by rewrite !link_tall.
Qed.

Lemma link_last (X : list snode) :
  (p <= k)%nat -> (i < height_at (hd :: A ++ D) p)%nat -> p = q ->
  link i (drop p (A ++ X)) =
    {| forward := forward (link i X); span := Z.of_nat (k - p) + span (link i X) |}.
Proof.
  intros Hp Hh Heq. rewrite drop_prefix by done. rewrite link_low by (by apply low_tail).
  unfold zlen. by rewrite length_drop.
Qed.
End LinkEdit.

(** ** Creating and freeing nodes *)

(** The functions of the list with a node added at position [S k]. *)
Definition shift_fn {A} (k : nat) (f : nat -> A) (a : A) : nat -> A :=
  fun p => if decide (p <= k)%nat then f p else if decide (p = S k) then a else f (p - 1)%nat.

Lemma lookup_insert_at {A} (l1 l2 : list A) x p :
  (l1 ++ x :: l2) !! p =
    if decide (p < length l1)%nat then (l1 ++ l2) !! p
    else if decide (p = length l1) then Some x else (l1 ++ l2) !! (p - 1)%nat.
Proof.
  case_decide; [by rewrite !lookup_app_l|]. case_decide as Hp.
  - subst. by rewrite list_lookup_middle.
  - rewrite !lookup_app_r by lia. destruct (p - length l1)%nat eqn:E; [lia|]. simpl. f_equal. lia.
Qed.

Lemma HeapOf_add h F1 F2 E B x J b :
  HeapOf h (F1 ++ F2) E B -> h !! s_id x = None -> length J = s_height x -> F1 <> [] ->
  HeapOf (<[s_id x := {| zn_ele := s_ele x; zn_score := s_score x; zn_backward := b; zn_level := J |}]> h)
    (F1 ++ x :: F2) (shift_fn (length F1 - 1) E (fun i => default {| forward := None; span := 0 |} (J !! i)))
    (shift_fn (length F1 - 1) B b).
Proof.
  intros HH Hnew HJ Hne. assert (0 < length F1)%nat by (destruct F1; [done|simpl; lia]).
  assert (forall y p, (F1 ++ F2) !! p = Some y -> s_id x <> s_id y) as Hfresh.
  { intros y p Hp Hid. rewrite Hid in Hnew. by rewrite (node_lookup _ _ _ _ HH p y Hp) in Hnew. }
  split.
  - destruct HH as [Hnd _]. rewrite fmap_app in *. rewrite fmap_cons.
    rewrite <- Permutation_middle. constructor; [|done].
    rewrite <- fmap_app. intros (y & Hid & Hy)%list_elem_of_fmap.
    apply list_elem_of_lookup in Hy as [p Hp]. by apply (Hfresh y p).
  - intros p y. rewrite lookup_insert_at. unfold shift_fn.
    destruct (decide (p < length F1)%nat) as [Hp|Hp].
    + intros Hy. rewrite lookup_insert_ne by (by apply (Hfresh y p)).
      rewrite !decide_True by lia. by apply (node_lookup _ _ _ _ HH).
    + destruct (decide (p = length F1)) as [->|Hp2].
      * intros [= <-]. rewrite lookup_insert_eq. rewrite !(decide_False (P := (_ <= _)%nat)) by lia.
        rewrite !decide_True by lia. do 2 f_equal. apply list_eq. intros j.
        rewrite list_lookup_fmap. destruct (decide (j < s_height x)%nat) as [Hj|Hj].
        { rewrite lookup_seq_lt by done. simpl.
          destruct (lookup_lt_is_Some_2 J j) as [v Hv]; [lia|]. by rewrite Hv. }
        rewrite !lookup_ge_None_2; [done|rewrite length_seq; lia|lia].
      * intros Hy. rewrite lookup_insert_ne by (by apply (Hfresh y (p - 1)%nat)).
        rewrite !decide_False by lia. by apply (node_lookup _ _ _ _ HH).
Qed.

(** Dropping the node at position [length F1] from the list, and freeing an address that
    is no longer in it. *)
Lemma HeapOf_remove h F1 F2 E B x :
  HeapOf h (F1 ++ x :: F2) E B ->
  s_id x ∉ (s_id <$> F1 ++ F2) /\
  HeapOf h (F1 ++ F2)
    (fun p => if decide (p < length F1)%nat then E p else E (S p))
    (fun p => if decide (p < length F1)%nat then B p else B (S p)).
Proof.
  intros HH. pose proof (proj1 HH) as Hnd. rewrite fmap_app, fmap_cons, <- Permutation_middle in Hnd.
  apply NoDup_cons in Hnd as [Hx Hnd]. rewrite <- fmap_app in Hx, Hnd. split; [done|]. split; [done|].
  intros p y Hy. case_decide as Hp.
  - apply (node_lookup _ _ _ _ HH). rewrite lookup_app_l in Hy |- * by done. done.
  - apply (node_lookup _ _ _ _ HH). rewrite lookup_app_r in Hy |- * by lia.
    by replace (S p - length F1)%nat with (S (p - length F1)) by lia.
Qed.

Lemma HeapOf_free h F E B id : HeapOf h F E B -> id ∉ (s_id <$> F) -> HeapOf (delete id h) F E B.
Proof.
  intros HH Hid. split; [apply HH|]. intros p y Hy. rewrite lookup_delete_ne.
  - by apply (node_lookup _ _ _ _ HH).
  - intros ->. apply Hid, list_elem_of_fmap. exists y. split; [done|]. by eapply list_elem_of_lookup_2.
Qed.

(** ** The loops over levels *)

(** Levels [j] to [j+n-1] come from [T], the others from [E]. *)
Definition mix (T E : link_fn) (j n : nat) : link_fn :=
  fun p i => if decide (j <= i < j + n)%nat then T p i else E p i.

Lemma lookup_id F p i : (i < height_at F p)%nat -> exists x, F !! p = Some x /\ s_id x = id_at F p /\ (i < s_height x)%nat.
Proof. unfold height_at, id_at. destruct (F !! p) as [x|]; [by exists x|lia]. Qed.

Section Loops.
Context (F : list snode) (B : nat -> option nat) (qs : nat -> nat).

(** One level of [T] in place of [E], given that only the listed positions differ. *)
Lemma mix_step h T E E' j n :
  (forall p, (j < height_at F p)%nat -> E' p j = T p j) ->
  (forall p i, i <> j -> E' p i = E p i) ->
  HeapOf h F (mix T E' (S j) n) B -> HeapOf h F (mix T E j (S n)) B.
Proof.
  intros Hj Ho HH. eapply HeapOf_ext; [exact HH| |done].
  intros p x i Hp Hi. unfold mix. destruct (decide (S j <= i < S j + n)%nat) as [H1|H1].
  - by rewrite decide_True by lia.
  - destruct (decide (i = j)) as [->|Hne].
    + rewrite decide_True by lia. apply Hj. unfold height_at. by rewrite Hp.
    + rewrite decide_False by lia. by apply Ho.
Qed.

Lemma mix_0 h T E j : HeapOf h F E B -> HeapOf h F (mix T E j 0) B.
Proof.
  intros HH. eapply HeapOf_ext; [exact HH| |done]. intros p x i _ _. unfold mix.
  by rewrite decide_False by lia.
Qed.

Lemma link_levels_spec n : forall h E T j x k U R,
  HeapOf h F E B -> F !! S k = Some x -> (j + n <= s_height x)%nat -> Z.of_nat k < 2 ^ 63 ->
  (forall i, (j <= i < j + n)%nat -> U !! i = Some (id_at F (qs i)) /\ R !! i = Some (Z.of_nat (qs i)) /\
     (qs i <= k)%nat /\ (i < height_at F (qs i))%nat /\
     Z.of_nat (k - qs i) <= span (E (qs i) i) < 2 ^ 63 /\
     T (qs i) i = {| forward := Some (s_id x); span := Z.of_nat (k - qs i) + 1 |} /\
     T (S k) i = {| forward := forward (E (qs i) i); span := span (E (qs i) i) - Z.of_nat (k - qs i) |} /\
     forall p, p <> qs i -> p <> S k -> (i < height_at F p)%nat -> T p i = E p i) ->
  exists h', link_levels h (s_id x) U R (Z.of_nat k) j n = Some h' /\ HeapOf h' F (mix T E j n) B.
Proof.
  induction n as [|n IH]; intros h E T j x k U R HH Hx Hn Hk HU.
  { exists h. split; [done|]. by apply mix_0. }
  destruct (HU j ltac:(lia)) as (HUj & HRj & Hq & Hqh & Hsp & HT1 & HT2 & HT3).
  destruct (lookup_id F (qs j) j Hqh) as (u & Hu & Huid & Huh).
  cbn [link_levels]. rewrite HUj, HRj. cbn [mbind option_bind]. rewrite <- Huid.
  rewrite (get_level_at h F E B HH _ u j Hu Huh). cbn [mbind option_bind].
  destruct (set_forward_at h F E B HH (S k) x j (forward (E (qs j) j)) Hx) as (h1 & -> & HH1); [lia|].
  cbn [mbind option_bind].
  destruct (set_forward_at _ _ _ _ HH1 (qs j) u j (Some (s_id x)) Hu Huh) as (h2 & -> & HH2).
  cbn [mbind option_bind].
  rewrite (wrapu_small 64 (Z.of_nat k - _)), !wrapu_small by lia.
  destruct (set_span_at _ _ _ _ HH2 (S k) x j (span (E (qs j) j) - (Z.of_nat k - Z.of_nat (qs j))) Hx)
    as (h3 & -> & HH3); [lia|]. cbn [mbind option_bind].
  destruct (set_span_at _ _ _ _ HH3 (qs j) u j (Z.of_nat k - Z.of_nat (qs j) + 1) Hu Huh)
    as (h4 & -> & HH4). cbn [mbind option_bind].
  set (E4 := upd2 _ _ _ _) in HH4.
  assert (forall p i, i <> j -> E4 p i = E p i) as Ho.
  { intros p i Hi. unfold E4. by rewrite !upd2_ne by lia. }
  destruct (IH h4 E4 T (S j) x k U R HH4 Hx ltac:(lia) Hk) as (h' & -> & HH').
  { intros i Hi. rewrite !Ho by lia. destruct (HU i ltac:(lia)) as (? & ? & ? & ? & ? & ? & ? & HT).
    split_and!; try done; [lia|lia|]. intros p ? ? ?. rewrite Ho by lia. by apply HT. }
  exists h'. split; [done|]. apply (mix_step h' T E E4); [|done|done].
  intros p Hp. destruct (decide (p = qs j)) as [->|Hne].
  - unfold E4. rewrite upd2_eq, (upd2_ne _ (S k)), upd2_eq by lia. simpl. rewrite HT1. f_equal. lia.
  - destruct (decide (p = S k)) as [->|Hne2].
    + unfold E4. rewrite upd2_ne by lia. rewrite upd2_eq, (upd2_ne _ (qs j)), upd2_eq by lia. simpl.
      rewrite HT2. f_equal. lia.
    + unfold E4. rewrite !upd2_ne by lia. symmetry. by apply HT3.
Qed.

Lemma bump_levels_spec n : forall h E T j U,
  HeapOf h F E B ->
  (forall i, (j <= i < j + n)%nat -> U !! i = Some (id_at F (qs i)) /\ (i < height_at F (qs i))%nat /\
     0 <= span (E (qs i) i) < 2 ^ 63 /\
     T (qs i) i = {| forward := forward (E (qs i) i); span := span (E (qs i) i) + 1 |} /\
     forall p, p <> qs i -> (i < height_at F p)%nat -> T p i = E p i) ->
  exists h', bump_levels h U j n = Some h' /\ HeapOf h' F (mix T E j n) B.
Proof.
  induction n as [|n IH]; intros h E T j U HH HU.
  { exists h. split; [done|]. by apply mix_0. }
  destruct (HU j ltac:(lia)) as (HUj & Hqh & Hsp & HT1 & HT2).
  destruct (lookup_id F (qs j) j Hqh) as (u & Hu & Huid & Huh).
  cbn [bump_levels]. rewrite HUj. cbn [mbind option_bind]. rewrite <- Huid.
  rewrite (get_level_at h F E B HH _ u j Hu Huh). cbn [mbind option_bind].
  rewrite wrapu_small by lia.
  destruct (set_span_at h F E B HH (qs j) u j (span (E (qs j) j) + 1) Hu Huh) as (h1 & -> & HH1).
  cbn [mbind option_bind]. set (E1 := upd2 _ _ _ _) in HH1.
  assert (forall p i, i <> j -> E1 p i = E p i) as Ho.
  { intros p i Hi. unfold E1. by rewrite upd2_ne by lia. }
  destruct (IH h1 E1 T (S j) U HH1) as (h' & -> & HH').
  { intros i Hi. rewrite !Ho by lia. destruct (HU i ltac:(lia)) as (? & ? & ? & ? & HT).
    split_and!; try done; [lia|lia|]. intros p ? ?. rewrite Ho by lia. by apply HT. }
  exists h'. split; [done|]. apply (mix_step h' T E E1); [|done|done].
  intros p Hp. destruct (decide (p = qs j)) as [->|Hne].
  - unfold E1. by rewrite upd2_eq, HT1.
  - unfold E1. rewrite upd2_ne by lia. symmetry. by apply HT2.
Qed.

Lemma unlink_levels_spec n : forall h E T j x k U,
  HeapOf h F E B -> F !! S k = Some x ->
  (forall i, (j <= i < j + n)%nat -> U !! i = Some (id_at F (qs i)) /\ (qs i <= k)%nat /\
     (i < height_at F (qs i))%nat /\
     (if decide (i < s_height x)%nat
      then forward (E (qs i) i) = Some (s_id x) /\ 1 <= span (E (qs i) i) < 2 ^ 62 /\
           0 <= span (E (S k) i) < 2 ^ 62 /\
           T (qs i) i = {| forward := forward (E (S k) i);
                           span := span (E (qs i) i) + span (E (S k) i) - 1 |}
      else forward (E (qs i) i) <> Some (s_id x) /\ 1 <= span (E (qs i) i) < 2 ^ 62 /\
           T (qs i) i = {| forward := forward (E (qs i) i); span := span (E (qs i) i) - 1 |}) /\
     forall p, p <> qs i -> (i < height_at F p)%nat -> T p i = E p i) ->
  exists h', unlink_levels h (s_id x) U j n = Some h' /\ HeapOf h' F (mix T E j n) B.
Proof.
  induction n as [|n IH]; intros h E T j x k U HH Hx HU.
  { exists h. split; [done|]. by apply mix_0. }
  destruct (HU j ltac:(lia)) as (HUj & Hq & Hqh & HT1 & HT2).
  destruct (lookup_id F (qs j) j Hqh) as (u & Hu & Huid & Huh).
  cbn [unlink_levels]. rewrite HUj. cbn [mbind option_bind]. rewrite <- Huid.
  rewrite (get_level_at h F E B HH _ u j Hu Huh). cbn [mbind option_bind].
  assert (exists h1 E1,
    (if decide (forward (E (qs j) j) = Some (s_id x)) then
       lx ← get_level h (s_id x) j;
       h ← set_span h (s_id u) j (u64 (span (E (qs j) j) + u64 (span lx - 1)));
       set_forward h (s_id u) j (forward lx)
     else set_span h (s_id u) j (u64 (span (E (qs j) j) - 1))) = Some h1 /\
    HeapOf h1 F E1 B /\ (forall p i, i <> j -> E1 p i = E p i) /\
    E1 (qs j) j = T (qs j) j /\ (forall p, p <> qs j -> E1 p j = E p j)) as (h1 & E1 & -> & HH1 & Ho & Hj1 & Hj2).
  { destruct (decide (j < s_height x)%nat) as [Hxj|Hxj].
    - destruct HT1 as (Hf & Hs1 & Hs2 & HT). rewrite decide_True by done.
      rewrite (get_level_at h F E B HH _ x j Hx Hxj). cbn [mbind option_bind].
      assert (u64 (span (E (qs j) j) + u64 (span (E (S k) j) - 1))
              = span (E (qs j) j) + span (E (S k) j) - 1) as ->.
      { unfold wrapu. rewrite Zplus_mod_idemp_r, Z.mod_small by lia. lia. }
      destruct (set_span_at h F E B HH (qs j) u j (span (E (qs j) j) + span (E (S k) j) - 1) Hu Huh)
        as (h1 & -> & HH1). cbn [mbind option_bind].
      destruct (set_forward_at _ _ _ _ HH1 (qs j) u j (forward (E (S k) j)) Hu Huh) as (h2 & -> & HH2).
      eexists _, _. split_and!; [done|exact HH2| | |].
      + intros p i Hi. by rewrite !upd2_ne by lia.
      + rewrite upd2_eq, upd2_eq, HT. done.
      + intros p Hp. by rewrite !upd2_ne by lia.
    - destruct HT1 as (Hf & Hs1 & HT). rewrite decide_False by done.
      rewrite wrapu_small by lia.
      destruct (set_span_at h F E B HH (qs j) u j (span (E (qs j) j) - 1) Hu Huh) as (h1 & -> & HH1).
      eexists _, _. split_and!; [done|exact HH1| | |].
      + intros p i Hi. by rewrite upd2_ne by lia.
      + by rewrite upd2_eq, HT.
      + intros p Hp. by rewrite upd2_ne by lia. }
  cbn [mbind option_bind].
  destruct (IH h1 E1 T (S j) x k U HH1 Hx) as (h' & -> & HH').
  { intros i Hi. destruct (HU i ltac:(lia)) as (? & ? & ? & HTi & HT).
    rewrite !Ho by lia. split_and!; try done. intros p ? ?. rewrite Ho by lia. by apply HT. }
  exists h'. split; [done|]. apply (mix_step h' T E E1); [|done|done].
  intros p Hp. destruct (decide (p = qs j)) as [->|Hne]; [done|].
  rewrite Hj2 by done. symmetry. by apply HT2.
Qed.
End Loops.

(** ** The skip list invariant, and that insertion and deletion keep it *)

Definition hdr (id : nat) : snode :=
  {| s_id := id; s_ele := None; s_score := S754_zero false; s_height := ZSKIPLIST_MAXLEVEL |}.

Definition mem (x : snode) : member := (s_score x, default [] (s_ele x)).

(** Backward pointers: NULL for the first node. *)
Definition back (L : list snode) (p : nat) : option nat :=
  match p with S (S q) => s_id <$> L !! q | _ => None end.

Definition node_ok (x : snode) : Prop := isnan (s_score x) = false /\ is_Some (s_ele x).

Record ZRepr (h : zheap) (z : zskiplist) (L : list snode) : Prop := {
  zr_heap : exists E, HeapOf h (hdr (zsl_header z) :: L) E (back L) /\
                      links_ok (hdr (zsl_header z)) L (zsl_level z) E;
  zr_tail : zsl_tail z = s_id <$> last L;
  zr_len : zsl_length z = zlen L;
  zr_level : (1 <= zsl_level z <= ZSKIPLIST_MAXLEVEL)%nat;
  zr_heights : Forall (fun x => (1 <= s_height x <= zsl_level z)%nat) L;
  zr_sorted : StronglySorted (fun x y => mlt (mem x) (mem y)) L;
  zr_nodes : Forall node_ok L;
}.

(** The two parts of a sorted list around a member. *)
Lemma split_before (L : list snode) (t : member) :
  StronglySorted (fun x y => mlt (mem x) (mem y)) L ->
  exists A D, L = A ++ D /\ Forall (fun x => mlt (mem x) t) A /\ Forall (fun x => ~ mlt (mem x) t) D.
Proof.
  induction 1 as [|x L _ IH Hx]; [by exists [], []|].
  destruct (mlt_total (mem x) t) as [Hlt|Hge].
  - destruct IH as (A & D & -> & HA & HD). exists (x :: A), D. split_and!; [done|by constructor|done].
  - assert (~ mlt (mem x) t) as Hn.
    { destruct Hge as [Hsame|Hgt]; [by apply same_key_not_mlt|exact (mlt_asym _ _ Hgt)]. }
    exists [], (x :: L). split_and!; [done|done|]. constructor; [done|].
    eapply Forall_impl; [exact Hx|]. intros y Hy Hyt. apply Hn. exact (mlt_trans _ _ _ Hy Hyt).
Qed.

(** The search test steps exactly over the part before the member. *)
Lemma cond_node_before h hd A D E B score ele :
  HeapOf h (hd :: A ++ D) E B -> Forall node_ok (A ++ D) -> isnan score = false ->
  Forall (fun x => mlt (mem x) (score, ele)) A -> Forall (fun x => ~ mlt (mem x) (score, ele)) D ->
  cond_upto h hd (A ++ D) (node_before score ele) (length A).
Proof.
  intros HH Hok Hs HA HD p r x fn Hp Hr Hfn.
  rewrite (node_lookup _ _ _ _ HH r x Hr) in Hfn. injection Hfn as <-.
  destruct r as [|r]; [lia|]. simpl in Hr.
  assert (node_ok x) as [Hx _] by (by eapply Forall_lookup_1).
  destruct (decide (r < length A)%nat) as [Hlt|Hge].
  - rewrite bool_decide_eq_true_2 by lia. apply node_before_spec; [done|done|].
    rewrite lookup_app_l in Hr by done. by apply (Forall_lookup_1 _ _ _ _ HA Hr).
  - rewrite bool_decide_eq_false_2 by lia. apply not_true_iff_false.
    rewrite node_before_spec by done. rewrite lookup_app_r in Hr by lia.
    by apply (Forall_lookup_1 _ _ _ _ HD Hr).
Qed.

(** ** Insertion *)

Lemma grow_levels_spec F B n : forall h E hd len j,
  HeapOf h F E B -> F !! 0%nat = Some hd -> (j + n <= s_height hd)%nat ->
  exists h', grow_levels h (s_id hd) len j n = Some h' /\
    HeapOf h' F (mix (fun p i => if decide (p = O) then {| forward := forward (E O i); span := len |}
                                 else E p i) E j n) B.
Proof.
  induction n as [|n IH]; intros h E hd len j HH Hhd Hn.
  { exists h. split; [done|]. by apply mix_0. }
  cbn [grow_levels].
  destruct (set_span_at h F E B HH 0 hd j len Hhd ltac:(lia)) as (h1 & -> & HH1). cbn [mbind option_bind].
  destruct (IH h1 _ hd len (S j) HH1 Hhd ltac:(lia)) as (h' & -> & HH'). exists h'. split; [done|].
  eapply HeapOf_ext; [exact HH'| |done]. intros p x i Hp Hi. unfold mix. cbv beta.
  destruct (decide (i = j)) as [->|Hne].
  - rewrite decide_False by lia. rewrite decide_True by lia. case_decide as H0.
    + subst. by rewrite upd2_eq.
    + by rewrite upd2_ne by lia.
  - rewrite !(upd2_ne _ _ _ _ _ i) by lia. destruct (decide (S j <= i < S j + n)%nat).
    + by rewrite (decide_True (P := (_ <= _ < _)%nat)) by lia.
    + by rewrite (decide_False (P := (_ <= _ < _)%nat)) by lia.
Qed.

Lemma id_prefix hd A (X Y : list snode) p :
  (p <= length A)%nat -> id_at (hd :: A ++ X) p = id_at (hd :: A ++ Y) p.
Proof.
  intros Hp. unfold id_at. destruct p as [|p]; [done|]. simpl. by rewrite !lookup_app_l by lia.
Qed.

Section InsertLinks.
Context (hd x : snode) (A D : list snode) (zl : nat) (E : link_fn) (J : nat -> zlevel).
Let k := length A.
Let L' := A ++ x :: D.
Let q i := lastp (hd :: A ++ D) i k.
Let E2 := shift_fn k E J.
Let T : link_fn := fun p i => link i (drop p L').
Lemma height_shift p :
  height_at (hd :: L') p = shift_fn k (height_at (hd :: A ++ D)) (s_height x) p.
Proof.
  unfold L', shift_fn, height_at. destruct p as [|p]; [done|]. simpl. rewrite lookup_insert_at. fold k.
  destruct (decide (p < k)%nat) as [Hp|Hp]; [by rewrite decide_True by lia|].
  rewrite (decide_False (P := (S p <= k)%nat)) by lia.
  destruct (decide (p = k)) as [->|Hne]; [by rewrite decide_True|].
  rewrite decide_False by lia. destruct p as [|p]; [lia|]. simpl. by rewrite Nat.sub_0_r.
Qed.

Lemma new_link i : T (S k) i = link i D.
Proof.
  unfold T, L'. rewrite drop_app_ge by (fold k; lia). fold k.
  by replace (S k - k)%nat with 1%nat by lia.
Qed.
Context (HE : forall p i, (i < height_at (hd :: A ++ D) p)%nat -> (i < zl)%nat -> E p i = link i (drop p (A ++ D))).
Context (Hzl : (zl <= s_height hd)%nat).

Lemma q_facts i : (i < zl)%nat ->
  (q i <= k)%nat /\ (i < height_at (hd :: A ++ D) (q i))%nat /\ (i < height_at (hd :: L') (q i))%nat /\
  E2 (q i) i = {| forward := forward (link i D); span := Z.of_nat (k - q i) + span (link i D) |} /\
  T (q i) i = {| forward := forward (link i (x :: D)); span := Z.of_nat (k - q i) + span (link i (x :: D)) |}.
Proof.
  intros Hi. assert (q i <= k)%nat as Hq by apply lastp_le.
  assert (i < height_at (hd :: A ++ D) (q i))%nat as Hh.
  { apply lastp_tall. unfold height_at. simpl. lia. }
  split_and!; [done|done| | |].
  - rewrite height_shift. unfold shift_fn. by rewrite decide_True.
  - unfold E2, shift_fn. rewrite decide_True by done. rewrite HE by done. by apply (link_last hd A D).
  - unfold T, L'. by apply (link_last hd A D).
Qed.

Lemma other_link p i :
  (i < zl)%nat -> p <> q i -> p <> S k -> (i < height_at (hd :: L') p)%nat -> T p i = E2 p i.
Proof.
  intros Hi Hq Hk. rewrite height_shift. unfold shift_fn, T, E2, shift_fn.
  destruct (decide (p <= k)%nat) as [Hp|Hp].
  - intros Hh. rewrite HE by done. unfold L'. by apply (link_other hd A D).
  - rewrite !decide_False by done. intros Hh. rewrite HE by done. f_equal. unfold L'.
    rewrite !drop_app_ge by (fold k; lia). fold k.
    destruct (p - k)%nat as [|[|m]] eqn:Em; [lia|lia|]. by replace (p - 1 - k)%nat with (S m) by lia.
Qed.

End InsertLinks.

Lemma fmap_seq_lookup {A} (f : nat -> A) n i : (i < n)%nat -> (f <$> seq 0 n) !! i = Some (f i).
Proof. intros Hi. rewrite list_lookup_fmap, lookup_seq_lt by done. done. Qed.

(** The arrays [update] and [rank] of a search that stops at position [k]. *)
Definition upd_arr (F : list snode) (k zl : nat) : list nat := (fun i => id_at F (lastp F i k)) <$> seq 0 zl.
Definition rank_arr (F : list snode) (k zl : nat) : list Z :=
  (fun i => Z.of_nat (lastp F i k)) <$> seq 0 zl.

Definition all_links (hd : snode) (L : list snode) (zl : nat) (E : link_fn) : Prop :=
  forall p i, (i < height_at (hd :: L) p)%nat -> (i < zl)%nat -> E p i = link i (drop p L).

Lemma links_ok_all hd L zl E : links_ok hd L zl E -> all_links hd L zl E.
Proof. intros [H1 _] p i Hh Hi. by apply H1. Qed.

Lemma all_links_ok hd L zl E :
  Forall (fun x => (1 <= s_height x <= zl)%nat) L -> all_links hd L zl E ->
  (forall i, (zl <= i)%nat -> forward (E O i) = None) -> links_ok hd L zl E.
Proof.
  intros HL HE H0. split; [|done]. intros p i Hh Hp. apply HE; [done|].
  destruct p as [|p]; [by apply Hp|]. unfold height_at in Hh. simpl in Hh.
  destruct (L !! p) as [y|] eqn:Ey; [|lia]. pose proof (Forall_lookup_1 _ _ _ _ HL Ey). simpl in *. lia.
Qed.

Section InsertLevels.
Context (h : zheap) (hd x : snode) (A D : list snode) (zl : nat) (E : link_fn) (B : nat -> option nat).
Let F := hd :: A ++ D.
Let k := length A.
Let q i := lastp F i k.
Context (HH : HeapOf h F E B) (HE : all_links hd (A ++ D) zl E).
Context (H0 : forall i, (zl <= i)%nat -> forward (E O i) = None).
Context (Hzl : (zl <= s_height hd)%nat) (Hx : (1 <= s_height x <= zl)%nat).
Context (HL : Forall (fun y => (1 <= s_height y <= zl)%nat) (A ++ D)) (Hlen : zlen (A ++ D) < 2 ^ 62).
Context (J : list zlevel) (b : option nat) (Hnew : h !! s_id x = None) (HJ : length J = s_height x).

Lemma insert_levels :
  exists h1 h2 E',
    link_levels (<[s_id x := {| zn_ele := s_ele x; zn_score := s_score x; zn_backward := b;
                                zn_level := J |}]> h)
      (s_id x) (upd_arr F k zl) (rank_arr F k zl) (Z.of_nat k) 0 (s_height x) = Some h1 /\
    bump_levels h1 (upd_arr F k zl) (s_height x) (zl - s_height x) = Some h2 /\
    HeapOf h2 (hd :: A ++ x :: D) E' (shift_fn k B b) /\ links_ok hd (A ++ x :: D) zl E'.
Proof.
  pose proof (HeapOf_add h (hd :: A) D E B x J b HH Hnew HJ ltac:(done)) as HA.
  change ((hd :: A) ++ x :: D) with (hd :: A ++ x :: D) in HA.
  simpl length in HA. rewrite Nat.sub_succ, Nat.sub_0_r in HA. fold k in HA.
  set (Jf := fun i => _) in HA. set (E2 := shift_fn k E Jf) in HA.
  set (T := (fun p i => link i (drop p (A ++ x :: D))) : link_fn).
  assert (Hk : (k <= length (A ++ D))%nat) by (rewrite length_app; fold k; lia). unfold zlen in Hlen.
  assert (Hsp : forall i, 0 <= span (link i D) <= Z.of_nat (length (A ++ D)) - Z.of_nat k).
  { intros i. pose proof (span_range i D) as Hs. unfold zlen in Hs. rewrite length_app. fold k. lia. }
  assert (HSk : (hd :: A ++ x :: D) !! S k = Some x) by apply list_lookup_middle, eq_refl.
  assert (Hhk : height_at (hd :: A ++ x :: D) (S k) = s_height x) by (unfold height_at; by rewrite HSk).
  assert (Hqf : forall i, (i < zl)%nat ->
    (q i <= k)%nat /\ (i < height_at (hd :: A ++ x :: D) (q i))%nat /\
    E2 (q i) i = {| forward := forward (link i D); span := Z.of_nat (k - q i) + span (link i D) |} /\
    T (q i) i = {| forward := forward (link i (x :: D)); span := Z.of_nat (k - q i) + span (link i (x :: D)) |}).
  { intros i Hi. destruct (q_facts hd x A D zl E Jf HE Hzl i Hi) as (Hq & _ & Hqh & HqE & HqT).
    split_and!; [exact Hq|exact Hqh|exact HqE|exact HqT]. }
  destruct (link_levels_spec _ _ q (s_height x) _ E2 T 0 x k (upd_arr F k zl) (rank_arr F k zl) HA HSk)
    as (h1 & E1 & HH1); [lia|lia| |].
  { intros i Hi. destruct (Hqf i ltac:(lia)) as (Hq & Hqh & HqE & HqT).
    rewrite HqE, HqT. unfold upd_arr, rank_arr. rewrite !fmap_seq_lookup by lia. specialize (Hsp i).
    cbn [link forward span]. rewrite decide_True by lia. cbn [forward span].
    split_and!; try done; try lia.
    - f_equal. apply id_prefix. exact Hq.
    - rewrite (new_link x A D i : T (S k) i = _). destruct (link i D). simpl. f_equal. lia.
    - intros p. apply (other_link hd x A D zl E Jf HE Hzl). lia. }
  rewrite E1. exists h1.
  destruct (bump_levels_spec _ _ q (zl - s_height x) h1 _ T (s_height x) (upd_arr F k zl) HH1)
    as (h2 & E3 & HH2).
  { intros i Hi. destruct (Hqf i ltac:(lia)) as (Hq & Hqh & HqE & HqT).
    unfold mix. rewrite decide_False by lia. rewrite HqE, HqT. unfold upd_arr.
    rewrite fmap_seq_lookup by lia. specialize (Hsp i).
    cbn [link forward span]. rewrite decide_False by lia. cbn [forward span].
    split_and!; try done; try lia.
    - f_equal. apply id_prefix. exact Hq.
    - f_equal. lia.
    - intros p Hp Hh. rewrite decide_False by lia. apply (other_link hd x A D zl E Jf HE Hzl); try done; [lia|].
      intros Hp'. rewrite Hp' in Hh. fold k in Hh. rewrite Hhk in Hh. lia. }
  exists h2, (mix T (mix T E2 0 (s_height x)) (s_height x) (zl - s_height x)). split_and!; [done|done|done|].
  apply all_links_ok.
  - apply Forall_app in HL as [? ?]. apply Forall_app. split; [done|]. by constructor.
  - intros p i _ Hi. unfold mix. destruct (decide (s_height x <= i < _)%nat); [done|].
    by rewrite decide_True by lia.
  - intros i Hi. unfold mix. rewrite !decide_False by lia. unfold E2, shift_fn.
    rewrite decide_True by lia. by apply H0.
Qed.
End InsertLevels.
