(* ===== verification/SkiplistInsert.v ===== *)
(** * Skip list insertion: [zslCreate], [zslRandomLevel] and [zslInsert] keep the invariant *)
From Stdlib Require Import SpecFloat.
From S2P Require Import Prelude Skiplist SkiplistOrder SkiplistFacts SkiplistEdit.

Lemma random_level_ge rs : forall l0 l, random_level rs l0 = Some l -> l0 <= l.
Proof.
  induction rs as [|r rs IH]; intros l0 l; cbn [random_level]; [done|].
  destruct (r <? level_threshold); [|intros [= ->]; lia]. intros Hl%IH. lia.
Qed.

Lemma zslRandomLevel_range rs l : zslRandomLevel rs = Some l -> (1 <= l <= ZSKIPLIST_MAXLEVEL)%nat.
Proof.
  unfold zslRandomLevel. destruct (random_level rs 1) as [v|] eqn:E; [|done]. cbn [mbind option_bind].
  apply random_level_ge in E. unfold ZSKIPLIST_MAXLEVEL.
  destruct (Z.ltb_spec v (Z.of_nat 32)); intros [= <-]; lia.
Qed.

(** The stores to a level array allocate nothing. *)
Lemma grow_levels_dom n : forall h x len j h', grow_levels h x len j n = Some h' -> dom h' = dom h.
Proof.
  induction n as [|n IH]; intros h x len j h'; cbn [grow_levels]; [by intros [= ->]|].
  unfold set_span, set_level, get_level. destruct (h !! x) as [nd|] eqn:Ex; [|done]. simpl.
  destruct (zn_level nd !! j) as [lv|]; [|done]. simpl. intros ->%IH.
  apply dom_insert_lookup_L. by rewrite Ex.
Qed.

(** A search from the header. *)
Lemma search_spec h z L cond k :
  ZRepr h z L -> zlen L < 2 ^ 62 -> cond_upto h (hdr (zsl_header z)) L cond k -> (k <= length L)%nat ->
  zsl_descend h z cond =
    Some (id_at (hdr (zsl_header z) :: L) k, Z.of_nat k,
          upd_arr (hdr (zsl_header z) :: L) k (zsl_level z), rank_arr (hdr (zsl_header z) :: L) k (zsl_level z)).
Proof.
  intros [(E & HH & HE) _ _ Hlv Hhs _ _] Hlen Hc Hk. destruct z as [hid tl ln zl]. simpl in *.
  apply (zsl_descend_spec h (hdr hid) L zl E (back L)); try done; simpl; try lia.
  eapply Forall_impl; [exact Hhs|]. simpl. lia.
Qed.

(** Above all nodes, a search stays at the header. *)
Lemma lastp_high hd L i k : Forall (fun x => (s_height x <= i)%nat) L -> lastp (hd :: L) i k = O.
Proof.
  intros HL. induction k as [|k IH]; [done|]. cbn [lastp]. rewrite decide_False; [done|].
  unfold height_at. simpl. destruct (L !! k) as [y|] eqn:Ey; [|lia].
  pose proof (Forall_lookup_1 _ _ _ _ HL Ey). simpl in *. lia.
Qed.

Section Grow.
Context (hd : snode) (L : list snode) (k zl m : nat).
Context (HL : Forall (fun x => (1 <= s_height x <= zl)%nat) L).

Lemma high_0 i : (zl <= i)%nat -> lastp (hd :: L) i k = O.
Proof. intros Hi. apply lastp_high. eapply Forall_impl; [exact HL|]. simpl. lia. Qed.

Lemma upd_arr_grow : upd_arr (hd :: L) k zl ++ replicate m (s_id hd) = upd_arr (hd :: L) k (zl + m).
Proof.
  unfold upd_arr. rewrite seq_app, fmap_app. f_equal. apply list_eq. intros j.
  rewrite list_lookup_fmap. destruct (decide (j < m)%nat) as [Hj|Hj].
  - rewrite lookup_replicate_2, lookup_seq_lt by done. simpl. by rewrite high_0 by lia.
  - rewrite !lookup_ge_None_2; [done|rewrite length_seq; lia|rewrite length_replicate; lia].
Qed.

Lemma rank_arr_grow : rank_arr (hd :: L) k zl ++ replicate m 0 = rank_arr (hd :: L) k (zl + m).
Proof.
  unfold rank_arr. rewrite seq_app, fmap_app. f_equal. apply list_eq. intros j.
  rewrite list_lookup_fmap. destruct (decide (j < m)%nat) as [Hj|Hj].
  - rewrite lookup_replicate_2, lookup_seq_lt by done. simpl. by rewrite high_0 by lia.
  - rewrite !lookup_ge_None_2; [done|rewrite length_seq; lia|rewrite length_replicate; lia].
Qed.

Lemma grow_links E : links_ok hd L zl E ->
  let E' := mix (fun p i => if decide (p = O) then {| forward := forward (E O i); span := zlen L |}
                            else E p i) E zl m in
  all_links hd L (zl + m) E' /\ forall i, (zl + m <= i)%nat -> forward (E' O i) = None.
Proof.
  intros [HE H0]. split.
  - intros p i Hh Hi. unfold mix. destruct (decide (zl <= i < zl + m)%nat) as [Hm|Hm].
    + destruct (decide (p = O)) as [->|Hp].
      * rewrite H0 by lia. rewrite drop_0, link_low_end; [done|].
        eapply Forall_impl; [exact HL|]. simpl. lia.
      * apply HE; [done|]. lia.
    + apply HE; [done|]. lia.
  - intros i Hi. unfold mix. rewrite decide_False by lia. apply H0. lia.
Qed.
End Grow.

(** Backward pointers of a list with [x] added. *)
Lemma back_insert A D x p :
  p <> S (length A) -> p <> S (S (length A)) ->
  back (A ++ x :: D) p = shift_fn (length A) (back (A ++ D)) (back (A ++ x :: D) (S (length A))) p.
Proof.
  intros H1 H2. unfold shift_fn. destruct (decide (p <= length A)%nat) as [Hp|Hp].
  - destruct p as [|[|p]]; [done|done|]. simpl. by rewrite !lookup_app_l by lia.
  - rewrite decide_False by done. destruct p as [|[|[|p]]]; [lia|lia|lia|]. simpl.
    rewrite lookup_insert_at. rewrite !decide_False by lia. f_equal. f_equal. lia.
Qed.

Lemma id_at_0 hd L k : NoDup (s_id <$> hd :: L) -> (k <= length L)%nat -> id_at (hd :: L) k = s_id hd -> k = O.
Proof.
  intros Hnd Hk Hid. unfold id_at in Hid.
  destruct (lookup_lt_is_Some_2 (hd :: L) k) as [y Hy]; [simpl; lia|]. rewrite Hy in Hid.
  rewrite NoDup_alt in Hnd. apply (Hnd k O (s_id hd)); [|done].
  by rewrite list_lookup_fmap, Hy, <- Hid.
Qed.

Section Finish.
Context (h : zheap) (hd x : snode) (A D : list snode) (zl : nat) (E : link_fn) (b : option nat).
Let k := length A.
Let F := hd :: A ++ x :: D.
Context (HH : HeapOf h F E (shift_fn k (back (A ++ D)) b)) (HE : links_ok hd (A ++ x :: D) zl E).
Context (Hx : (1 <= s_height x)%nat) (HD : Forall (fun y => (1 <= s_height y)%nat) D).
Let u0 := id_at (hd :: A ++ D) k.

Lemma insert_back : (if decide (u0 = s_id hd) then None else Some u0) = back (A ++ x :: D) (S k).
Proof.
  unfold u0. rewrite (id_prefix hd A D (x :: D)) by done. fold F.
  assert (Hk : (k <= length (A ++ x :: D))%nat) by (rewrite length_app; fold k; lia).
  destruct (decide (id_at F k = s_id hd)) as [Hid|Hne].
  - apply (id_at_0 hd (A ++ x :: D)) in Hid; [|apply HH|done]. by rewrite Hid.
  - destruct k as [|j]; [done|]. unfold id_at, F. simpl.
    destruct (lookup_lt_is_Some_2 (A ++ x :: D) j) as [y Hy]; [lia|]. by rewrite Hy.
Qed.

Lemma insert_finish tl :
  tl = s_id <$> last (A ++ D) ->
  exists h1 h2 lx, set_backward h (s_id x) (if decide (u0 = s_id hd) then None else Some u0) = Some h1 /\
    get_level h1 (s_id x) 0 = Some lx /\
    match forward lx with
    | Some f => h ← set_backward h1 f (Some (s_id x)); Some (h, tl)
    | None => Some (h1, Some (s_id x))
    end = Some (h2, s_id <$> last (A ++ x :: D)) /\
    HeapOf h2 F E (back (A ++ x :: D)).
Proof.
  intros Htl. rewrite insert_back. set (b' := back (A ++ x :: D) (S k)).
  assert (HSk : F !! S k = Some x) by apply list_lookup_middle, eq_refl.
  destruct (set_backward_at h F E _ HH (S k) x b' HSk) as (h1 & -> & HH1). exists h1.
  rewrite (get_level_at _ _ _ _ HH1 (S k) x 0 HSk ltac:(lia)).
  rewrite (proj1 HE).
  2: { fold F. unfold height_at. rewrite HSk. lia. }
  2: { done. }
  rewrite (new_link x A D 0 : link 0 (drop (S k) (A ++ x :: D)) = _).
  destruct D as [|d D'] eqn:ED.
  - eexists h1, _. split_and!; [done|done| |].
    + cbn. by rewrite last_snoc.
    + eapply HeapOf_ext; [exact HH1|done|]. intros p y Hp. cbv beta. case_decide as Hd; [by subst|].
      assert (p <> S (S k)).
      { intros ->. apply lookup_lt_Some in Hp. unfold F in Hp. simpl in Hp. rewrite length_app in Hp.
        simpl in Hp. fold k in Hp. lia. }
      rewrite back_insert by done. fold k. unfold shift_fn. by rewrite !(decide_False (P := p = S k)).
  - assert (Hd : F !! S (S k) = Some d).
    { unfold F. simpl. rewrite lookup_app_r by (fold k; lia). fold k.
      by replace (S k - k)%nat with 1%nat by lia. }
    destruct (set_backward_at _ _ _ _ HH1 (S (S k)) d (Some (s_id x)) Hd) as (h2 & E2 & HH2).
    eexists h2, _. split_and!; [done|done| |].
    + cbn [link]. rewrite decide_True by (inversion HD; lia). cbn [forward]. rewrite E2.
      cbn [mbind option_bind]. rewrite Htl, !last_app_cons, !last_cons. by destruct (last D').
    + eapply HeapOf_ext; [exact HH2|done|]. intros p y Hp. cbv beta.
      destruct (decide (p = S (S k))) as [->|Hne].
      { cbn [back]. by rewrite (list_lookup_middle A (d :: D') x k) by done. }
      destruct (decide (p = S k)) as [->|Hne2]; [done|].
      rewrite back_insert by done. fold k. unfold shift_fn. by rewrite !(decide_False (P := p = S k)).
Qed.
End Finish.

(** Every node has level 0. *)
Lemma lastp_0 hd L k zl :
  Forall (fun y => (1 <= s_height y <= zl)%nat) L -> (k <= length L)%nat -> (1 <= s_height hd)%nat ->
  lastp (hd :: L) 0 k = k.
Proof.
  intros HL Hk Hhd. apply lastp_unique; [done| |intros r Hr; lia]. unfold height_at.
  destruct k as [|j]; [simpl; lia|]. simpl.
  destruct (lookup_lt_is_Some_2 L j) as [y Hy]; [lia|]. rewrite Hy.
  pose proof (Forall_lookup_1 _ _ _ _ HL Hy). simpl in *. lia.
Qed.

Definition new_node (id : nat) (score : double) (ele : list Z) (lvl : nat) : snode :=
  {| s_id := id; s_ele := Some ele; s_score := score; s_height := lvl |}.

Lemma sorted_insert A D x :
  StronglySorted (fun y z => mlt (mem y) (mem z)) (A ++ D) ->
  Forall (fun y => mlt (mem y) (mem x)) A -> Forall (fun y => mlt (mem x) (mem y)) D ->
  StronglySorted (fun y z => mlt (mem y) (mem z)) (A ++ x :: D).
Proof.
  intros Hs HA HD. apply StronglySorted_app_inv in Hs as (HsA & HsD & HAD).
  apply StronglySorted_app_intro; [done|by constructor|].
  rewrite Forall_forall in HAD, HA |- *. intros a Ha. constructor; [by apply HA|by apply HAD].
Qed.

Lemma insert_repr h z A D x h' zl' :
  ZRepr h z (A ++ D) -> zlen (A ++ D) < 2 ^ 62 -> node_ok x ->
  Forall (fun y => mlt (mem y) (mem x)) A -> Forall (fun y => mlt (mem x) (mem y)) D ->
  (1 <= s_height x <= zl')%nat /\ (zsl_level z <= zl' <= ZSKIPLIST_MAXLEVEL)%nat ->
  (exists E, HeapOf h' (hdr (zsl_header z) :: A ++ x :: D) E (back (A ++ x :: D)) /\
             links_ok (hdr (zsl_header z)) (A ++ x :: D) zl' E) ->
  ZRepr h' {| zsl_header := zsl_header z; zsl_tail := s_id <$> last (A ++ x :: D);
              zsl_length := u64 (zlen (A ++ D) + 1); zsl_level := zl' |} (A ++ x :: D).
Proof.
  intros [_ _ _ Hzl Hhs Hso Hok] Hlen Hx HA HD [Hl Hl'] HE. split; simpl.
  - done.
  - done.
  - rewrite wrapu_small; [autorewrite with zlen; lia|]. pose proof (zlen_nonneg (A ++ D)). lia.
  - lia.
  - apply Forall_app in Hhs as [H1 H2]. apply Forall_app. split.
    + eapply Forall_impl; [exact H1|]. simpl. lia.
    + constructor; [done|]. eapply Forall_impl; [exact H2|]. simpl. lia.
  - by apply sorted_insert.
  - apply Forall_app in Hok as [? ?]. apply Forall_app. split; [done|]. by constructor.
Qed.

Section Insert.
Context `{NodeAllocator}.

(** The whole insertion, around the insertion point. *)
Lemma zslInsert_spec h z A D rs score ele lvl :
  ZRepr h z (A ++ D) -> zlen (A ++ D) < 2 ^ 62 -> isnan score = false ->
  Forall (fun y => mlt (mem y) (score, ele)) A -> Forall (fun y => mlt (score, ele) (mem y)) D ->
  zslRandomLevel rs = Some lvl ->
  exists h' z' id, zslInsert h z rs score ele = Some (h', z', id) /\
    zsl_header z' = zsl_header z /\ zsl_level z' = Nat.max lvl (zsl_level z) /\ h !! id = None /\
    ZRepr h' z' (A ++ new_node id score ele lvl :: D).
Proof.
  intros HR Hlen Hs HA HD Hlvl. pose proof (zslRandomLevel_range _ _ Hlvl) as Hl.
  pose proof HR as [(E & HH & HE) Htl Hln Hzl Hhs Hso Hok]. unfold zslInsert.
  rewrite Hs. cbn [negb assert_true mbind option_bind].
  rewrite (search_spec h z (A ++ D) _ (length A) HR); [|done| |rewrite length_app; lia].
  2: { eapply cond_node_before; [done..|]. eapply Forall_impl; [exact HD|]. intros y. apply mlt_asym. }
  cbn [mbind option_bind]. rewrite Hlvl. cbn [mbind option_bind].
  set (hd := hdr (zsl_header z)) in *. set (zl := zsl_level z) in *. set (k := length A).
  set (m := (lvl - zl)%nat). change (zsl_header z) with (s_id hd). rewrite Hln.
  destruct (grow_levels_spec (hd :: A ++ D) (back (A ++ D)) m h E hd (zlen (A ++ D)) zl HH eq_refl)
    as (h1 & Hgrow & HH1).
  { change (s_height hd) with ZSKIPLIST_MAXLEVEL. lia. }
  rewrite Hgrow. apply grow_levels_dom in Hgrow.
  cbn [mbind option_bind]. rewrite upd_arr_grow, rank_arr_grow by done.
  destruct (grow_links hd (A ++ D) zl m Hhs E HE) as [HE1 H01].
  replace (zl + m)%nat with (Nat.max lvl zl) in * by lia. set (zl' := Nat.max lvl zl) in *.
  set (E1 := mix _ _ _ _) in *. set (id := fresh_node h1). set (x := new_node id score ele lvl).
  assert (Hhs' : Forall (fun y => (1 <= s_height y <= zl')%nat) (A ++ D)).
  { eapply Forall_impl; [exact Hhs|]. simpl. lia. }
  assert (lastp (hd :: A ++ D) 0 k = k) as Hk0.
  { apply (lastp_0 hd _ k zl); [done| |simpl; unfold ZSKIPLIST_MAXLEVEL; lia].
    rewrite length_app. unfold k. lia. }
  destruct (insert_levels h1 hd x A D zl' E1 (back (A ++ D)) HH1 HE1 H01) with (J := junk_levels lvl)
    (b := junk_backward) as (h2 & h3 & E3 & HL1 & HL2 & HH3 & HE3); try done.
  { change (s_height hd) with ZSKIPLIST_MAXLEVEL. lia. }
  { simpl. lia. }
  { apply fresh_node_new. }
  { apply length_junk_levels. }
  assert (HhD : Forall (fun y => (1 <= s_height y)%nat) D).
  { apply Forall_app in Hhs as [_ HhD]. eapply Forall_impl; [exact HhD|]. simpl. lia. }
  destruct (insert_finish h3 hd x A D zl' E3 junk_backward HH3 HE3 ltac:(simpl; lia) HhD _ Htl)
    as (h4 & h5 & lx & HB1 & HB2 & HB3 & HH5).
  unfold zslCreateNode. fold id.
  assert (rank_arr (hd :: A ++ D) k zl' !! 0%nat = Some (Z.of_nat k)) as ->.
  { unfold rank_arr. rewrite fmap_seq_lookup by lia. by rewrite Hk0. }
  assert (upd_arr (hd :: A ++ D) k zl' !! 0%nat = Some (id_at (hd :: A ++ D) k)) as ->.
  { unfold upd_arr. rewrite fmap_seq_lookup by lia. by rewrite Hk0. }
  cbn [mbind option_bind]. fold k in HL1, HL2. cbn [x new_node s_id s_height s_ele s_score] in HL1, HL2.
  rewrite HL1. cbn [mbind option_bind]. rewrite HL2. cbn [mbind option_bind].
  fold k in HB1. cbn [x new_node s_id] in HB1, HB2, HB3. rewrite HB1. cbn [mbind option_bind].
  rewrite HB2. cbn [mbind option_bind]. rewrite HB3. cbn [mbind option_bind].
  eexists _, _, _. split_and!; [done|done|done| |].
  { apply not_elem_of_dom. rewrite <- Hgrow. apply not_elem_of_dom, fresh_node_new. }
  apply (insert_repr h z); [done..|simpl; lia|by exists E3].
Qed.
End Insert.

(** ** A new list *)

Lemma init_levels_spec F B n : forall h E hd j,
  HeapOf h F E B -> F !! 0%nat = Some hd -> (j + n <= s_height hd)%nat ->
  (forall i, (i < j)%nat -> E O i = {| forward := None; span := 0 |}) ->
  exists h' E', init_levels h (s_id hd) j n = Some h' /\ HeapOf h' F E' B /\
    forall i, (i < j + n)%nat -> E' O i = {| forward := None; span := 0 |}.
Proof.
  induction n as [|n IH]; intros h E hd j HH Hhd Hn HE.
  { exists h, E. split_and!; [done|done|]. intros i Hi. apply HE. lia. }
  cbn [init_levels].
  destruct (set_level_at h F E B HH 0 hd j {| forward := None; span := 0 |} Hhd ltac:(lia)) as (h1 & -> & HH1).
  cbn [mbind option_bind].
  destruct (IH h1 _ hd (S j) HH1 Hhd ltac:(lia)) as (h' & E' & -> & HH' & HE').
  { intros i Hi. destruct (decide (i = j)) as [->|]; [by rewrite upd2_eq|].
    rewrite upd2_ne by lia. apply HE. lia. }
  exists h', E'. split_and!; [done|done|]. intros i Hi. apply HE'. lia.
Qed.

Lemma zslCreate_spec `{NodeAllocator} h :
  exists h' z, zslCreate h = Some (h', z) /\ zsl_length z = 0 /\ ZRepr h' z [].
Proof.
  unfold zslCreate, zslCreateNode. set (id := fresh_node h).
  set (h0 := <[id := _]> h).
  set (J := fun i : nat => default {| forward := None; span := 0 |} (junk_levels ZSKIPLIST_MAXLEVEL !! i)).
  assert (HH : HeapOf h0 [hdr id] (fun _ => J) (fun _ => junk_backward)).
  { split; [by apply NoDup_singleton|]. intros p x Hp. apply list_lookup_singleton_Some in Hp as [-> <-].
    unfold h0. simpl s_id. rewrite lookup_insert_eq. do 2 f_equal. apply list_eq. intros j.
    pose proof (length_junk_levels ZSKIPLIST_MAXLEVEL) as HJ.
    destruct (decide (j < ZSKIPLIST_MAXLEVEL)%nat) as [Hj|Hj].
    - rewrite fmap_seq_lookup by done. unfold J.
      destruct (lookup_lt_is_Some_2 (junk_levels ZSKIPLIST_MAXLEVEL) j) as [v Hv]; [lia|].
      by rewrite Hv.
    - rewrite !lookup_ge_None_2; [done|rewrite length_fmap, length_seq; simpl; lia|lia]. }
  destruct (init_levels_spec _ _ ZSKIPLIST_MAXLEVEL h0 _ (hdr id) 0 HH eq_refl) as (h1 & E1 & HE1 & HH1 & Hall);
    [done|lia|].
  cbn [hdr s_id] in HE1. rewrite HE1. cbn [mbind option_bind].
  destruct (set_backward_at _ _ _ _ HH1 0 (hdr id) None eq_refl) as (h2 & HB & HH2).
  cbn [hdr s_id] in HB. rewrite HB. cbn [mbind option_bind]. eexists _, _. split_and!; [done|done|].
  split; cbn [zsl_header zsl_tail zsl_length zsl_level]; try done; [|unfold ZSKIPLIST_MAXLEVEL; lia|constructor].
  exists (fun p i => if decide (i < ZSKIPLIST_MAXLEVEL)%nat then E1 p i else {| forward := None; span := 0 |}).
  split.
  - eapply HeapOf_ext; [exact HH2| |].
    + intros p x i Hp Hi. apply list_lookup_singleton_Some in Hp as [-> <-].
      simpl in Hi. by rewrite decide_True.
    + intros p x Hp. by apply list_lookup_singleton_Some in Hp as [-> <-].
  - split.
    + intros p i Hh Hi. unfold height_at in Hh. destruct p as [|p]; [|simpl in Hh; lia]. simpl in Hh.
      rewrite decide_True by done. rewrite Hall by lia. done.
    + intros i _. case_decide; [|done]. by rewrite Hall by lia.
Qed.
