(* ===== verification/SkiplistDelete.v ===== *)
(** * Skip list deletion: [zslDeleteNode], [zslDelete] and [zslUpdateScore] keep the invariant *)
From Stdlib Require Import SpecFloat.
From S2P Require Import Prelude Skiplist SkiplistOrder SkiplistFacts SkiplistEdit SkiplistInsert.

Lemma link_forward_elem i l id : forward (link i l) = Some id -> id ∈ (s_id <$> l).
Proof.
  induction l as [|x l IH]; simpl; [done|]. case_decide; simpl.
  - intros [= ->]. by left.
  - intros Hf%IH. by right.
Qed.

Lemma link_forward_None i l : forward (link i l) = None -> low i l.
Proof.
  intros Hf. destruct (decide (low i l)) as [|Ht]; [done|].
  destruct (link_tall_inv i l Ht) as (? & ? & _ & _ & _ & E). by rewrite E in Hf.
Qed.

(** ** Unlinking *)

Section Unlink.
Context (h : zheap) (hd x : snode) (A D : list snode) (zl : nat) (E : link_fn) (B : nat -> option nat).
Let F := hd :: A ++ x :: D.
Let k := length A.
Let q i := lastp F i k.
Let T : link_fn := fun p i => if decide (p <= k)%nat then link i (drop p (A ++ D)) else E p i.
Context (HH : HeapOf h F E B) (HE : links_ok hd (A ++ x :: D) zl E).
Context (Hzl : (zl <= s_height hd)%nat) (Hlen : zlen (A ++ x :: D) < 2 ^ 62).
Context (Hhs : Forall (fun y => (1 <= s_height y <= zl)%nat) (A ++ x :: D)).

Lemma unlink_step i : (i < zl)%nat ->
  (q i <= k)%nat /\ (i < height_at F (q i))%nat /\
  (if decide (i < s_height x)%nat
   then forward (E (q i) i) = Some (s_id x) /\ 1 <= span (E (q i) i) < 2 ^ 62 /\
        0 <= span (E (S k) i) < 2 ^ 62 /\
        T (q i) i = {| forward := forward (E (S k) i);
                       span := span (E (q i) i) + span (E (S k) i) - 1 |}
   else forward (E (q i) i) <> Some (s_id x) /\ 1 <= span (E (q i) i) < 2 ^ 62 /\
        T (q i) i = {| forward := forward (E (q i) i); span := span (E (q i) i) - 1 |}) /\
  forall p, p <> q i -> (i < height_at F p)%nat -> T p i = E p i.
Proof.
  intros Hi. pose proof (links_ok_all _ _ _ _ HE) as HEa. unfold zlen in Hlen.
  rewrite length_app in Hlen. fold k in Hlen. simpl in Hlen.
  assert (q i <= k)%nat as Hq by apply lastp_le.
  assert (i < height_at F (q i))%nat as Hh by (apply lastp_tall; unfold height_at; simpl; lia).
  pose proof (link_last hd A (x :: D) i (q i) (x :: D) Hq Hh eq_refl) as HL1.
  pose proof (link_last hd A (x :: D) i (q i) D Hq Hh eq_refl) as HL2. fold k in HL1, HL2.
  pose proof (span_range i D) as Hsp. unfold zlen in Hsp.
  rewrite (HEa (q i) i Hh Hi), HL1.
  assert (T (q i) i = _) as -> by (unfold T; rewrite decide_True by done; exact HL2).
  cbn [link forward span]. split_and!; [done|done| |].
  - destruct (decide (i < s_height x)%nat) as [Hx|Hx].
    + assert (E (S k) i = link i D) as ->.
      { rewrite (HEa (S k) i); [apply (new_link x A D i)| |done].
        unfold height_at, F. simpl. by rewrite list_lookup_middle. }
      cbn [forward span]. split_and!; try done; try lia. f_equal. lia.
    + cbn [forward span]. split_and!; try lia; [|f_equal; lia].
      intros Hf%link_forward_elem.
      pose proof (proj1 (HeapOf_remove h (hd :: A) D E B x HH)) as Hn. apply Hn.
      rewrite fmap_app. apply elem_of_app. by right.
  - intros p Hp Hph. unfold T. case_decide as Hpk; [|done]. rewrite (HEa p i Hph Hi).
    by apply (link_other hd A (x :: D)).
Qed.

Lemma unlink_links U :
  (forall i, (i < zl)%nat -> U !! i = Some (id_at F (q i))) ->
  exists h', unlink_levels h (s_id x) U 0 zl = Some h' /\ HeapOf h' F (mix T E 0 zl) B.
Proof.
  intros HU. apply (unlink_levels_spec F B q zl h E T 0 x k U HH).
  - apply list_lookup_middle, eq_refl.
  - intros i Hi. destruct (unlink_step i ltac:(lia)) as (H1 & H2 & H3 & H4).
    split_and!; [apply HU; lia|done..].
Qed.

(** The links left for the list without [x]. *)
Lemma removed_links :
  links_ok hd (A ++ D) zl (fun p => if decide (p < S k)%nat then mix T E 0 zl p else mix T E 0 zl (S p)).
Proof.
  apply all_links_ok.
  - apply Forall_app in Hhs as [H1 H2]. apply Forall_app. split; [done|]. by inversion H2.
  - intros p i Hh Hi. pose proof (links_ok_all _ _ _ _ HE) as HEa. unfold mix.
    destruct (decide (p < S k)%nat) as [Hpk|Hpk]; rewrite decide_True by lia; unfold T.
    + by rewrite decide_True by lia.
    + rewrite decide_False by lia. rewrite HEa; [| |done].
      * f_equal. rewrite !drop_app_ge by (fold k; lia). fold k.
        by replace (S p - k)%nat with (S (p - k)) by lia.
      * rewrite height_shift. unfold shift_fn. fold k. rewrite !decide_False by lia.
        by replace (S p - 1)%nat with p by lia.
  - intros i Hi. rewrite decide_True by lia. unfold mix. rewrite decide_False by lia. by apply HE.
Qed.
End Unlink.

Lemma shrink_level_spec h hd L E B zl :
  HeapOf h (hd :: L) E B -> (1 <= zl <= s_height hd)%nat -> links_ok hd L zl E ->
  Forall (fun y => (1 <= s_height y <= zl)%nat) L ->
  exists l, shrink_level h (s_id hd) zl = Some l /\ (1 <= l <= zl)%nat /\ links_ok hd L l E /\
    Forall (fun y => (1 <= s_height y <= l)%nat) L.
Proof.
  intros HH. induction zl as [|zl IH]; intros Hzl HE Hhs; [lia|].
  destruct zl as [|zl]; [by exists 1%nat|]. cbn [shrink_level].
  rewrite (get_level_at h _ E B HH 0 hd (S zl) eq_refl ltac:(lia)). cbn [mbind option_bind].
  rewrite (proj1 HE) by (first [simpl; lia | unfold height_at; simpl; lia]). rewrite drop_0.
  destruct (forward (link (S zl) L)) as [f|] eqn:Ef.
  { eexists. split_and!; [done|lia|lia|done|done]. }
  pose proof (link_forward_None _ _ Ef) as Hlow.
  assert (Hhs' : Forall (fun y => (1 <= s_height y <= S zl)%nat) L).
  { unfold low in Hlow. rewrite Forall_forall in Hlow, Hhs |- *. intros y Hy.
    specialize (Hlow y Hy). specialize (Hhs y Hy). simpl in *. lia. }
  destruct IH as (l & El & Hl & HEl & Hhl); [lia| |done|].
  - apply all_links_ok; [done| |].
    + intros p i Hh Hi. apply (links_ok_all _ _ _ _ HE); [done|lia].
    + intros i Hi. destruct (decide (i = S zl)) as [->|Hne]; [|apply HE; lia].
      rewrite (proj1 HE) by (first [simpl; lia | unfold height_at; simpl; lia]). by rewrite drop_0.
  - exists l. split_and!; [exact El|lia|lia|done|done].
Qed.

(** Backward pointers of the list without [x]. *)
Lemma back_remove A D x p :
  p <> S (length A) ->
  back (A ++ D) p = if decide (p < S (length A))%nat then back (A ++ x :: D) p else back (A ++ x :: D) (S p).
Proof.
  intros Hp. case_decide as Hd.
  - destruct p as [|[|p]]; [done|done|]. simpl. by rewrite !lookup_app_l by lia.
  - destruct p as [|[|p]]; [lia|lia|]. simpl. rewrite lookup_insert_at.
    rewrite !decide_False by lia. do 2 f_equal. lia.
Qed.

Lemma back_last A D x : back (A ++ x :: D) (S (length A)) = s_id <$> last A.
Proof.
  rewrite last_lookup. destruct A as [|a A]; [done|]. cbn [back length].
  by rewrite lookup_app_l by (simpl; lia).
Qed.

Section DeleteFinish.
Context (h : zheap) (hd x : snode) (A D : list snode) (zl : nat) (E : link_fn) (tl : option nat).
Let k := length A.
Let F := hd :: A ++ x :: D.
Context (HH : HeapOf h F E (back (A ++ x :: D))) (HE : E (S k) 0%nat = link 0 D).
Context (HD : Forall (fun y => (1 <= s_height y)%nat) D) (Hx : (1 <= s_height x)%nat).

Lemma delete_finish :
  tl = s_id <$> last (A ++ x :: D) ->
  exists lx nx h1, get_level h (s_id x) 0 = Some lx /\ h !! s_id x = Some nx /\
    zn_ele nx = s_ele x /\ zn_score nx = s_score x /\
    match forward lx with
    | Some f => h ← set_backward h f (zn_backward nx); Some (h, tl)
    | None => Some (h, zn_backward nx)
    end = Some (h1, s_id <$> last (A ++ D)) /\
    s_id x ∉ (s_id <$> hd :: A ++ D) /\ is_Some (h1 !! s_id x) /\
    HeapOf h1 (hd :: A ++ D) (fun p => if decide (p < S k)%nat then E p else E (S p)) (back (A ++ D)).
Proof.
  intros Htl.
  assert (HSk : F !! S k = Some x) by apply list_lookup_middle, eq_refl.
  rewrite (get_level_at _ _ _ _ HH (S k) x 0 HSk ltac:(lia)), HE.
  pose proof (node_lookup _ _ _ _ HH (S k) x HSk) as Hnx. unfold k in Hnx. rewrite back_last in Hnx.
  exists (link 0 D); eexists. rewrite Hnx.
  enough (exists h1, match forward (link 0 D) with
    | Some f => h ← set_backward h f (s_id <$> last A); Some (h, tl)
    | None => Some (h, s_id <$> last A)
    end = Some (h1, s_id <$> last (A ++ D)) /\
    s_id x ∉ (s_id <$> hd :: A ++ D) /\ is_Some (h1 !! s_id x) /\
    HeapOf h1 (hd :: A ++ D) (fun p => if decide (p < S k)%nat then E p else E (S p)) (back (A ++ D)))
    as (h1 & H1 & H2 & H3 & H4) by (exists h1; split_and!; done).
  destruct D as [|d D'] eqn:ED.
  - exists h. destruct (HeapOf_remove h (hd :: A) [] E _ x HH) as [Hn HR]. split_and!; try done.
    + cbn. by rewrite app_nil_r.
    + eapply HeapOf_ext; [exact HR|done|]. intros p y Hp. cbv beta. simpl length. fold k.
      symmetry. apply back_remove. intros ->. apply lookup_lt_Some in Hp. simpl in Hp.
      rewrite length_app in Hp. simpl in Hp. lia.
  - assert (Hd : F !! S (S k) = Some d).
    { unfold F. simpl. rewrite lookup_app_r by (fold k; lia). fold k.
      by replace (S k - k)%nat with 1%nat by lia. }
    destruct (set_backward_at _ _ _ _ HH (S (S k)) d (s_id <$> last A) Hd) as (h1 & E1 & HH1).
    exists h1. destruct (HeapOf_remove h1 (hd :: A) (d :: D') E _ x HH1) as [Hn HR]. split_and!; try done.
    + cbn [link]. rewrite decide_True by (inversion HD; lia). cbn [forward]. rewrite E1.
      cbn [mbind option_bind]. rewrite Htl, !last_app_cons, !last_cons. by destruct (last D').
    + by rewrite (node_lookup _ _ _ _ HH1 (S k) x HSk).
    + eapply HeapOf_ext; [exact HR|done|]. intros p y Hp. cbv beta. simpl length. fold k.
      destruct (decide (p = S k)) as [->|Hne].
      * rewrite decide_False by lia. rewrite decide_True by done. symmetry. apply back_last.
      * rewrite (back_remove A (d :: D') x p Hne). fold k.
        destruct (decide (p < S k)%nat); rewrite decide_False by lia; done.
Qed.
End DeleteFinish.

Lemma ZRepr_free h z L id :
  ZRepr h z L -> id ∉ (s_id <$> hdr (zsl_header z) :: L) -> ZRepr (zslFreeNode h id) z L.
Proof.
  intros [(E & HH & HE) ? ? ? ? ? ?] Hid. split; try done. exists E. split; [|done]. by apply HeapOf_free.
Qed.

Lemma sorted_remove A D x :
  StronglySorted (fun y z => mlt (mem y) (mem z)) (A ++ x :: D) ->
  StronglySorted (fun y z => mlt (mem y) (mem z)) (A ++ D).
Proof.
  intros Hs. apply StronglySorted_app_inv in Hs as (HsA & HsD & HAD). inversion HsD; subst.
  apply StronglySorted_app_intro; [done|done|].
  eapply Forall_impl; [exact HAD|]. intros a Ha. by inversion Ha.
Qed.

Lemma Forall_remove {X} (P : X -> Prop) A D x : Forall P (A ++ x :: D) -> Forall P (A ++ D).
Proof. rewrite !Forall_app, Forall_cons. tauto. Qed.

Lemma zslDeleteNode_spec h z A D x U :
  ZRepr h z (A ++ x :: D) -> zlen (A ++ x :: D) < 2 ^ 62 ->
  (forall i, (i < zsl_level z)%nat -> U !! i =
     Some (id_at (hdr (zsl_header z) :: A ++ x :: D)
             (lastp (hdr (zsl_header z) :: A ++ x :: D) i (length A)))) ->
  exists h' z', zslDeleteNode h z (s_id x) U = Some (h', z') /\
    zsl_header z' = zsl_header z /\ (zsl_level z' <= zsl_level z)%nat /\
    s_id x ∉ (s_id <$> hdr (zsl_header z') :: A ++ D) /\ is_Some (h' !! s_id x) /\ ZRepr h' z' (A ++ D).
Proof.
  intros [(E & HH & HE) Htl Hln Hzl Hhs Hso Hok] Hlen HU. unfold zslDeleteNode.
  set (hd := hdr (zsl_header z)) in *. set (zl := zsl_level z) in *. change (zsl_header z) with (s_id hd).
  assert (Hhd : (zl <= s_height hd)%nat) by (simpl; lia).
  destruct (unlink_links h hd x A D zl E _ HH HE Hhd Hlen U HU) as (h1 & -> & HH1).
  pose proof (removed_links hd x A D zl E HE Hhd Hhs) as HE1. set (E1 := mix _ _ _ _) in *.
  assert (Hx : (1 <= s_height x <= zl)%nat) by (rewrite Forall_app, Forall_cons in Hhs; tauto).
  assert (Hhs' : Forall (fun y => (1 <= s_height y <= zl)%nat) (A ++ D)) by (by eapply Forall_remove).
  assert (HD : Forall (fun y => (1 <= s_height y)%nat) D).
  { apply Forall_app in Hhs' as [_ HD]. eapply Forall_impl; [exact HD|]. simpl. lia. }
  assert (HE0 : E1 (S (length A)) 0%nat = link 0 D).
  { unfold E1, mix. rewrite decide_True by lia. rewrite decide_False by lia.
    rewrite (links_ok_all _ _ _ _ HE); [apply (new_link x A D 0)| |lia].
    unfold height_at. simpl. rewrite list_lookup_middle by done. lia. }
  destruct (delete_finish h1 hd x A D E1 _ HH1 HE0 HD ltac:(lia) Htl)
    as (lx & nx & h2 & H1 & H2 & _ & _ & H3 & Hn & Hx2 & HH2).
  cbn [mbind option_bind]. rewrite H1. cbn [mbind option_bind]. rewrite H2. cbn [mbind option_bind].
  rewrite H3. cbn [mbind option_bind].
  destruct (shrink_level_spec h2 hd (A ++ D) _ _ zl HH2 ltac:(lia) HE1 Hhs') as (l & -> & Hl & HEl & Hhl).
  cbn [mbind option_bind]. eexists _, _. split_and!; [done|done|simpl; lia|exact Hn|done|].
  split; cbn [zsl_header zsl_tail zsl_length zsl_level].
  - eexists. split; [exact HH2|exact HEl].
  - done.
  - rewrite Hln. autorewrite with zlen in *. pose proof (zlen_nonneg A). pose proof (zlen_nonneg D).
    rewrite wrapu_small; lia.
  - lia.
  - done.
  - by eapply sorted_remove.
  - by eapply Forall_remove.
Qed.

(** The array [update] of a search. *)
Lemma upd_arr_lookup F k zl i :
  (i < zl)%nat -> upd_arr F k zl !! i = Some (id_at F (lastp F i k)).
Proof. intros Hi. unfold upd_arr. by rewrite fmap_seq_lookup. Qed.

Lemma link0 L zl :
  Forall (fun y => (1 <= s_height y <= zl)%nat) L -> forward (link 0 L) = s_id <$> head L.
Proof. destruct 1 as [|y L Hy _]; [done|]. simpl. by rewrite decide_True by lia. Qed.

(** The level-0 successor of the position a search stops at. *)
Lemma next_spec h z A D :
  ZRepr h z (A ++ D) ->
  exists lv, get_level h (id_at (hdr (zsl_header z) :: A ++ D) (length A)) 0 = Some lv /\
    forward lv = s_id <$> head D.
Proof.
  intros [(E & HH & HE) _ _ Hzl Hhs _ _]. set (hd := hdr (zsl_header z)) in *.
  assert (Hh : (0 < height_at (hd :: A ++ D) (length A))%nat).
  { rewrite <- (lastp_0 hd (A ++ D) (length A) (zsl_level z)); [|done|rewrite length_app; lia|].
    - apply lastp_tall. unfold height_at. simpl. unfold ZSKIPLIST_MAXLEVEL. lia.
    - simpl. unfold ZSKIPLIST_MAXLEVEL. lia. }
  destruct (lookup_id _ _ 0 Hh) as (y & Hy & <- & Hyh).
  exists (link 0 D). split.
  - rewrite (get_level_at _ _ _ _ HH (length A) y 0 Hy Hyh), (links_ok_all _ _ _ _ HE) by (done || lia).
    by rewrite drop_app_length.
  - apply Forall_app in Hhs as [_ Hhs]. by eapply link0.
Qed.

Lemma node_at h z A D x :
  ZRepr h z (A ++ x :: D) ->
  exists nx, h !! s_id x = Some nx /\ zn_ele nx = s_ele x /\ zn_score nx = s_score x /\
    zn_backward nx = s_id <$> last A /\ get_level h (s_id x) 0 = Some (link 0 D).
Proof.
  intros [(E & HH & HE) _ _ Hzl Hhs _ _].
  assert (Hx : (hdr (zsl_header z) :: A ++ x :: D) !! S (length A) = Some x) by apply list_lookup_middle, eq_refl.
  eexists. split; [apply (node_lookup _ _ _ _ HH _ x Hx)|]. split_and!; [done|done|apply back_last|].
  rewrite Forall_app, Forall_cons in Hhs.
  rewrite (get_level_at _ _ _ _ HH _ x 0 Hx ltac:(lia)), (links_ok_all _ _ _ _ HE).
  - f_equal. apply (new_link x A D 0).
  - unfold height_at. rewrite Hx. lia.
  - lia.
Qed.

(** The test for the element sought. *)
Lemma same_key_spec score ele nx :
  isnan score = false -> isnan (zn_score nx) = false ->
  deq score (zn_score nx) && (sdscmp (default [] (zn_ele nx)) ele =? 0) = true <->
  same_key (zn_score nx, default [] (zn_ele nx)) (score, ele).
Proof.
  intros Hs Hx. unfold same_key. rewrite andb_true_iff, deq_spec, Z.eqb_eq, sdscmp_eq by done. simpl.
  intuition congruence.
Qed.

Lemma mlt_same_key a b : mlt a b -> ~ same_key a b.
Proof. intros Hlt Hs. by apply (same_key_not_mlt a b). Qed.

(** A search for a member: the positions before it, and where it must be. *)
Lemma find_spec h z L t :
  ZRepr h z L -> zlen L < 2 ^ 62 -> isnan t.1 = false ->
  exists A D, L = A ++ D /\ Forall (fun y => mlt (mem y) t) A /\ Forall (fun y => ~ mlt (mem y) t) D /\
    zsl_descend h z (node_before t.1 t.2) =
      Some (id_at (hdr (zsl_header z) :: L) (length A), Z.of_nat (length A),
            upd_arr (hdr (zsl_header z) :: L) (length A) (zsl_level z),
            rank_arr (hdr (zsl_header z) :: L) (length A) (zsl_level z)).
Proof.
  intros HR Hlen Ht. destruct (split_before L t (zr_sorted _ _ _ HR)) as (A & D & -> & HA & HD).
  exists A, D. split_and!; try done. apply search_spec; [done|done| |rewrite length_app; lia].
  destruct (zr_heap _ _ _ HR) as (E & HH & _). destruct t as [s e].
  eapply cond_node_before; [done|apply HR|done..].
Qed.

(** Past the insertion point, only the first node can have the key. *)
Lemma absent_key A D t :
  StronglySorted (fun x y => mlt (mem x) (mem y)) (A ++ D) ->
  Forall (fun y => mlt (mem y) t) A -> Forall (fun y => ~ mlt (mem y) t) D ->
  (forall d, head D = Some d -> ~ same_key (mem d) t) -> Forall (fun y => ~ same_key (mem y) t) (A ++ D) /\
    Forall (fun y => mlt t (mem y)) D.
Proof.
  intros Hs HA HD Hhd. rewrite Forall_app.
  assert (Forall (fun y => mlt t (mem y)) D) as Hgt.
  { apply StronglySorted_app_inv in Hs as (_ & Hs & _). inversion Hs as [|d D' _ Hd]; subst; [done|].
    assert (mlt t (mem d)) as Htd.
    { destruct (mlt_total (mem d) t) as [|[|]]; [by inversion HD|by destruct (Hhd d)|done]. }
    constructor; [done|]. eapply Forall_impl; [exact Hd|]. intros y. by apply mlt_trans. }
  split_and!; [| |done].
  - eapply Forall_impl; [exact HA|]. intros y. apply mlt_same_key.
  - eapply Forall_impl; [exact Hgt|]. intros y Hy Hk. apply (mlt_same_key _ _ Hy).
    destruct Hk. split; congruence.
Qed.

(** Deleting a score and name: found and removed, or absent and nothing changed. *)
Lemma zslDelete_spec h z L score ele :
  ZRepr h z L -> zlen L < 2 ^ 62 -> isnan score = false ->
  (exists A x D h' z', L = A ++ x :: D /\ same_key (mem x) (score, ele) /\
     zslDelete h z score ele = Some (h', z', true) /\ zsl_header z' = zsl_header z /\ ZRepr h' z' (A ++ D)) \/
  (Forall (fun y => ~ same_key (mem y) (score, ele)) L /\ zslDelete h z score ele = Some (h, z, false)).
Proof.
  intros HR Hlen Hs. destruct (find_spec h z L (score, ele) HR Hlen Hs) as (A & D & -> & HA & HD & Hf).
  unfold zslDelete. simpl fst in Hf. simpl snd in Hf. rewrite Hf. cbn [mbind option_bind].
  destruct (next_spec h z A D HR) as (lv & -> & Hlv). cbn [mbind option_bind]. rewrite Hlv.
  destruct D as [|d D]; cbn [head fmap option_fmap option_map].
  { right. split; [|done]. by apply (absent_key A []); [apply HR|..]. }
  destruct (node_at h z A D d HR) as (nx & -> & Hne & Hns & _). cbn [mbind option_bind].
  assert (isnan (zn_score nx) = false) as Hnan.
  { rewrite Hns. pose proof (zr_nodes _ _ _ HR) as Hok. rewrite Forall_app, Forall_cons in Hok. apply Hok. }
  pose proof (same_key_spec score ele nx Hs Hnan) as Hkey. rewrite Hns, Hne in Hkey.
  rewrite Hns, Hne. destruct (deq score (s_score d) && _).
  - left. destruct (zslDeleteNode_spec h z A D d (upd_arr (hdr (zsl_header z) :: A ++ d :: D) (length A) (zsl_level z)))
      as (h' & z' & -> & Hhd & _ & Hn & _ & HR'); [done|done|intros i Hi; by apply upd_arr_lookup|].
    cbn [mbind option_bind]. eexists A, d, D, _, z'. split_and!; [done|by apply Hkey|done|done|].
    by apply ZRepr_free.
  - right. split; [|done]. apply (absent_key A (d :: D)); [apply HR|done|done|].
    intros d' [= <-] Hk. apply Hkey in Hk. done.
Qed.

(** ** Changing a score in place *)

Definition same_shape (x y : snode) : Prop := s_id x = s_id y /\ s_height x = s_height y.

Lemma link_shape i L L' : Forall2 same_shape L L' -> link i L = link i L'.
Proof. induction 1 as [|x y L L' [H1 H2] _ IH]; [done|]. simpl. by rewrite H1, H2, IH. Qed.

Lemma ids_shape L L' : Forall2 same_shape L L' -> s_id <$> L = s_id <$> L'.
Proof. induction 1 as [|x y L L' [H1 H2] _ IH]; [done|]. by rewrite !fmap_cons, H1, IH. Qed.

Lemma height_shape L L' p : Forall2 same_shape L L' -> height_at L p = height_at L' p.
Proof.
  intros HL. unfold height_at.
  destruct (L !! p) as [x|] eqn:Ex.
  - destruct (Forall2_lookup_l _ _ _ _ _ HL Ex) as (y & -> & _ & Hy). done.
  - apply lookup_ge_None in Ex. rewrite (Forall2_length _ _ _ HL) in Ex.
    by rewrite (lookup_ge_None_2 L').
Qed.

Lemma links_shape hd L L' zl E : Forall2 same_shape L L' -> links_ok hd L zl E -> links_ok hd L' zl E.
Proof.
  intros HL [H1 H2]. split; [|done]. intros p i Hh Hp.
  rewrite <- (link_shape i (drop p L) (drop p L')) by (by apply Forall2_drop).
  apply H1; [|done]. rewrite (height_shape (hd :: L) (hd :: L')); [done|]. by constructor.
Qed.

Lemma back_shape L L' p : Forall2 same_shape L L' -> back L p = back L' p.
Proof.
  intros HL. destruct p as [|[|p]]; [done|done|]. simpl.
  by rewrite <- !list_lookup_fmap, (ids_shape L L').
Qed.

Definition rescore (x : snode) (s : double) : snode :=
  {| s_id := s_id x; s_ele := s_ele x; s_score := s; s_height := s_height x |}.

Lemma set_score_spec h F1 F2 E B x s :
  HeapOf h (F1 ++ x :: F2) E B ->
  exists h', set_score h (s_id x) s = Some h' /\ HeapOf h' (F1 ++ rescore x s :: F2) E B.
Proof.
  intros HH. unfold set_score.
  assert (Hx : (F1 ++ x :: F2) !! length F1 = Some x) by (by apply list_lookup_middle).
  rewrite (node_lookup _ _ _ _ HH _ x Hx). cbn [mbind option_bind]. eexists. split; [done|]. split.
  - destruct HH as [Hnd _]. by rewrite fmap_app, fmap_cons in *.
  - intros p y Hy. destruct (decide (p = length F1)) as [->|Hne].
    + rewrite list_lookup_middle in Hy by done. injection Hy as <-. simpl. by rewrite lookup_insert_eq.
    + assert (Hy' : (F1 ++ x :: F2) !! p = Some y).
      { rewrite lookup_insert_at in Hy |- *. case_decide; [done|]. by rewrite (decide_False (P := p = _)) in Hy |- * by done. }
      rewrite lookup_insert_ne; [by apply (node_lookup _ _ _ _ HH)|].
      intros Hid. apply Hne. by apply (ids_inj _ _ _ _ HH p (length F1) y x).
Qed.

Lemma rescore_repr h z A D x s :
  ZRepr h z (A ++ x :: D) -> isnan s = false ->
  Forall (fun y => mlt (mem y) (mem (rescore x s))) A -> Forall (fun y => mlt (mem (rescore x s)) (mem y)) D ->
  exists h', set_score h (s_id x) s = Some h' /\ ZRepr h' z (A ++ rescore x s :: D).
Proof.
  intros [(E & HH & HE) Htl Hln Hzl Hhs Hso Hok] Hs HA HD.
  destruct (set_score_spec h (hdr (zsl_header z) :: A) D E _ x s HH) as (h' & -> & HH').
  exists h'. split; [done|].
  assert (Forall2 same_shape (A ++ x :: D) (A ++ rescore x s :: D)) as Hsh.
  { apply Forall2_app; [|constructor; [done|]]; by apply Forall_Forall2_diag, Forall_true. }
  rewrite Forall_app, Forall_cons in Hhs, Hok. split.
  - exists E. split; [|by eapply links_shape]. eapply HeapOf_ext; [exact HH'|done|].
    intros p y _. by apply back_shape.
  - rewrite Htl, !last_app_cons, !last_cons. by destruct (last D).
  - rewrite Hln. unfold zlen. by rewrite (Forall2_length _ _ _ Hsh).
  - done.
  - rewrite Forall_app, Forall_cons. simpl. tauto.
  - apply sorted_insert; [|done|done]. by eapply sorted_remove.
  - rewrite Forall_app, Forall_cons. unfold node_ok in *. simpl. tauto.
Qed.

Lemma same_key_mlt_r a b c : same_key a b -> mlt c a -> mlt c b.
Proof. destruct a, b. intros [H1 H2]. unfold mlt. simpl in *. by rewrite H1, H2. Qed.

Lemma same_key_mlt_l a b c : same_key a b -> mlt a c -> mlt b c.
Proof. destruct a, b. intros [H1 H2]. unfold mlt. simpl in *. by rewrite H1, H2. Qed.

Lemma node_not_nan h z L y : ZRepr h z L -> y ∈ L -> isnan (s_score y) = false.
Proof. intros HR Hy. pose proof (zr_nodes _ _ _ HR) as Hok. rewrite Forall_forall in Hok. by apply Hok. Qed.

Section UpdateScore.
Context (h : zheap) (z : zskiplist) (A D : list snode) (x : snode) (newscore : double) (e : list Z).
Context (HR : ZRepr h z (A ++ x :: D)) (Hnew : isnan newscore = false).

(** The test against the node before: all nodes before stay before. *)
Lemma below_spec :
  exists v, match s_id <$> last A with
            | None => Some true
            | Some b => nb ← h !! b; Some (dlt (zn_score nb) newscore)
            end = Some v /\ (v = true -> Forall (fun y => mlt (mem y) (newscore, e)) A).
Proof.
  destruct A as [|b A' _] eqn:EA using rev_ind; [by exists true|].
  rewrite last_snoc. cbn [fmap option_fmap option_map]. pose proof HR as HR'. rewrite <- app_assoc in HR'. simpl in HR'.
  destruct (node_at h z A' (x :: D) b HR') as (nb & -> & _ & Hsb & _). cbn [mbind option_bind]. rewrite Hsb.
  eexists. split; [done|]. intros Hlt. apply dlt_spec in Hlt; [|eapply node_not_nan; [exact HR'|set_solver]|done].
  assert (mlt (mem b) (newscore, e)) as Hb by (by left).
  apply Forall_app. split; [|by constructor].
  destruct (StronglySorted_app_inv _ _ _ (zr_sorted _ _ _ HR')) as (_ & _ & HA).
  eapply Forall_impl; [exact HA|]. intros a Ha. inversion Ha; subst. by eapply mlt_trans.
Qed.

Lemma above_spec :
  exists v, match forward (link 0 D) with
            | None => Some true
            | Some f => nf ← h !! f; Some (dlt newscore (zn_score nf))
            end = Some v /\ (v = true -> Forall (fun y => mlt (newscore, e) (mem y)) D).
Proof.
  pose proof (zr_heights _ _ _ HR) as Hh. rewrite Forall_app, Forall_cons in Hh.
  rewrite (link0 D (zsl_level z)) by tauto. clear Hh.
  destruct D as [|d D'] eqn:ED; [by exists true|]. cbn [head fmap option_fmap option_map].
  pose proof HR as HR'. replace (A ++ x :: d :: D') with ((A ++ [x]) ++ d :: D') in HR' by (by rewrite <- app_assoc).
  destruct (node_at h z (A ++ [x]) D' d HR') as (nd & -> & _ & Hsd & _). cbn [mbind option_bind]. rewrite Hsd.
  eexists. split; [done|]. intros Hlt. apply dlt_spec in Hlt; [|done|eapply node_not_nan; [exact HR'|set_solver]].
  assert (mlt (newscore, e) (mem d)) as Hd by (by left). constructor; [done|].
  destruct (StronglySorted_app_inv _ _ _ (zr_sorted _ _ _ HR')) as (_ & HsD & _).
  inversion HsD as [|? ? _ Hf]; subst. eapply Forall_impl; [exact Hf|]. intros y Hy. by eapply mlt_trans.
Qed.

(** Searching for the element itself stops just before it. *)
Lemma search_at score ele :
  isnan score = false -> zlen (A ++ x :: D) < 2 ^ 62 -> same_key (mem x) (score, ele) ->
  zsl_descend h z (node_before score ele) =
    Some (id_at (hdr (zsl_header z) :: A ++ x :: D) (length A), Z.of_nat (length A),
          upd_arr (hdr (zsl_header z) :: A ++ x :: D) (length A) (zsl_level z),
          rank_arr (hdr (zsl_header z) :: A ++ x :: D) (length A) (zsl_level z)).
Proof.
  intros Hs Hlen Hkey. apply search_spec; [done|done| |rewrite length_app; lia].
  destruct (zr_heap _ _ _ HR) as (E & HH & _). eapply cond_node_before; [done|apply HR|done| |].
  - destruct (StronglySorted_app_inv _ _ _ (zr_sorted _ _ _ HR)) as (_ & _ & HA).
    eapply Forall_impl; [exact HA|]. intros a Ha. inversion Ha; subst. by eapply same_key_mlt_r.
  - constructor; [by apply same_key_not_mlt|].
    destruct (StronglySorted_app_inv _ _ _ (zr_sorted _ _ _ HR)) as (_ & HsD & _).
    inversion HsD as [|? ? _ Hf]; subst. eapply Forall_impl; [exact Hf|]. intros y Hy.
    apply mlt_asym. by eapply same_key_mlt_l.
Qed.
End UpdateScore.

Lemma split_absent L t :
  StronglySorted (fun x y => mlt (mem x) (mem y)) L -> Forall (fun y => ~ same_key (mem y) t) L ->
  exists A D, L = A ++ D /\ Forall (fun y => mlt (mem y) t) A /\ Forall (fun y => mlt t (mem y)) D.
Proof.
  intros Hs Habs. destruct (split_before L t Hs) as (A & D & -> & HA & HD). exists A, D.
  split_and!; [done|done|]. apply (absent_key A D t Hs HA HD). intros d Hd.
  rewrite Forall_app in Habs. destruct D as [|d' D]; [done|]. injection Hd as ->.
  destruct Habs as [_ Hab]. by inversion Hab.
Qed.

Lemma zslUpdateScore_spec `{NodeAllocator} h z A x D rs curscore ele newscore lvl :
  ZRepr h z (A ++ x :: D) -> zlen (A ++ x :: D) < 2 ^ 62 ->
  isnan curscore = false -> isnan newscore = false -> same_key (mem x) (curscore, ele) ->
  Forall (fun y => ~ same_key (mem y) (newscore, ele)) (A ++ D) -> zslRandomLevel rs = Some lvl ->
  exists h' z' A' x' D', zslUpdateScore h z rs curscore ele newscore = Some (h', z', s_id x') /\
    zsl_header z' = zsl_header z /\ A ++ D = A' ++ D' /\ mem x' = (newscore, ele) /\
    ZRepr h' z' (A' ++ x' :: D').
Proof.
  intros HR Hlen Hc Hn Hkey Habs Hlvl. unfold zslUpdateScore.
  rewrite (search_at h z A D x HR curscore ele Hc Hlen Hkey). cbn [mbind option_bind].
  destruct (next_spec h z A (x :: D) HR) as (lv & -> & Hlv). cbn [mbind option_bind]. rewrite Hlv.
  cbn [head fmap option_fmap option_map mbind option_bind].
  destruct (node_at h z A D x HR) as (nx & -> & Hne & Hns & Hnb & ->). cbn [mbind option_bind].
  assert (isnan (zn_score nx) = false) as Hnan.
  { rewrite Hns. eapply node_not_nan; [exact HR|set_solver]. }
  rewrite (proj2 (same_key_spec curscore ele nx Hc Hnan)) by (by rewrite Hns, Hne).
  cbn [assert_true mbind option_bind]. rewrite Hnb.
  destruct (below_spec h z A D x newscore ele HR Hn) as (v1 & -> & Hv1).
  destruct (above_spec h z A D x newscore ele HR Hn) as (v2 & -> & Hv2). cbn [mbind option_bind].
  assert (exists e, s_ele x = Some e /\ e = ele) as (e & Hex & ->).
  { pose proof (zr_nodes _ _ _ HR) as Hok. rewrite Forall_app, Forall_cons in Hok.
    destruct Hok as (_ & [_ [e He]] & _). exists e. split; [done|].
    destruct Hkey as [_ Hk]. simpl in Hk. by rewrite He in Hk. }
  destruct (v1 && v2) eqn:Hv.
  - apply andb_true_iff in Hv as [-> ->].
    assert (mem (rescore x newscore) = (newscore, ele)) as Hm by (unfold mem; simpl; by rewrite Hex).
    destruct (rescore_repr h z A D x newscore HR Hn) as (h' & -> & HR'); [rewrite Hm; auto..|].
    cbn [mbind option_bind]. by exists h', z, A, (rescore x newscore), D.
  - destruct (zslDeleteNode_spec h z A D x (upd_arr (hdr (zsl_header z) :: A ++ x :: D) (length A) (zsl_level z)))
      as (h1 & z1 & -> & Hhd & _ & Hnot & Hin & HR1); [done|done|intros i Hi; by apply upd_arr_lookup|].
    cbn [mbind option_bind]. rewrite Hne, Hex. cbn [mbind option_bind].
    destruct (split_absent (A ++ D) (newscore, ele) (zr_sorted _ _ _ HR1) Habs) as (A' & D' & EL & HA' & HD').
    rewrite EL in HR1, Hnot.
    assert (zlen (A' ++ D') < 2 ^ 62) as Hlen' by (rewrite <- EL; autorewrite with zlen in *; lia).
    destruct (zslInsert_spec h1 z1 A' D' rs newscore ele lvl HR1 Hlen' Hn HA' HD' Hlvl)
      as (h2 & z2 & id & -> & Hhd2 & _ & Hid & HR2).
    cbn [mbind option_bind]. exists (zslFreeNode h2 (s_id x)), z2, A', (new_node id newscore ele lvl), D'.
    split_and!; [done|congruence|done|done|]. apply ZRepr_free; [done|]. rewrite Hhd2.
    rewrite fmap_cons, fmap_app in Hnot |- *. rewrite fmap_cons.
    assert (s_id x <> id) by (intros Heq; rewrite Heq, Hid in Hin; by destruct Hin).
    simpl. set_solver.
Qed.

(** ** Freeing the list *)

Lemma free_nodes_spec : forall M E B h fuel,
  HeapOf h M E B -> Forall (fun x => (1 <= s_height x)%nat) M -> (length M <= fuel)%nat ->
  (forall q, (q < length M)%nat -> forward (E q 0%nat) = s_id <$> head (drop (S q) M)) ->
  exists h', free_nodes fuel h (s_id <$> head M) = Some h' /\
    forall id, h' !! id = if decide (id ∈ (s_id <$> M)) then None else h !! id.
Proof.
  induction M as [|x M IH]; intros E B h fuel HH Hhs Hf HE.
  { exists h. split; [by destruct fuel|]. intros id. by rewrite decide_False by (apply not_elem_of_nil). }
  destruct fuel as [|fuel]; [simpl in Hf; lia|]. apply Forall_cons in Hhs as [Hx Hhs].
  destruct (HeapOf_remove h [] M E B x HH) as [Hn HR]. pose proof (HeapOf_free _ _ _ _ _ HR Hn) as HR'.
  cbn [head fmap option_fmap option_map free_nodes].
  rewrite (get_level_at h _ E B HH 0 x 0 eq_refl ltac:(lia)). cbn [mbind option_bind].
  rewrite (HE O ltac:(simpl; lia)). simpl drop. rewrite drop_0.
  destruct (IH _ _ (zslFreeNode h (s_id x)) fuel HR' Hhs) as (h' & -> & Hh').
  - simpl in Hf. lia.
  - intros q Hq. by apply (HE (S q)); simpl; lia.
  - exists h'. split; [done|]. intros id. rewrite (Hh' id), fmap_cons. unfold zslFreeNode.
    destruct (decide (id = s_id x)) as [->|Hne].
    + rewrite lookup_delete_eq. rewrite (decide_True (P := s_id x ∈ s_id x :: _)) by (by left). by case_decide.
    + rewrite lookup_delete_ne by done. destruct (decide (id ∈ (s_id <$> M))).
      * by rewrite decide_True by (by right).
      * rewrite decide_False; [done|]. set_solver.
Qed.

(** [zslFree] gives back exactly the nodes of the list. *)
Lemma zslFree_spec h z L :
  ZRepr h z L ->
  exists h', zslFree h z = Some h' /\
    forall id, h' !! id = if decide (id ∈ zsl_header z :: (s_id <$> L)) then None else h !! id.
Proof.
  intros HR. pose proof HR as [(E & HH & HE) _ _ Hzl Hhs _ _]. unfold zslFree.
  destruct (next_spec h z [] L HR) as (lv & E1 & E2). simpl app in *. cbn in E1. rewrite E1. cbn [mbind option_bind].
  rewrite E2. destruct (HeapOf_remove h [] L E _ _ HH) as [Hn HR0].
  pose proof (HeapOf_free _ _ _ _ _ HR0 Hn) as HR'. simpl in HR'.
  destruct (free_nodes_spec L _ _ _ (size (delete (zsl_header z) h)) HR') as (h' & Hf & Hh').
  - eapply Forall_impl; [exact Hhs|]. simpl. lia.
  - apply (heap_size _ _ _ _ HR').
  - intros q Hq. destruct (lookup_lt_is_Some_2 L q Hq) as [y Hy].
    pose proof (Forall_lookup_1 _ _ _ _ Hhs Hy) as Hyh. simpl in Hyh.
    rewrite (links_ok_all _ _ _ _ HE); [|unfold height_at; simpl; rewrite Hy; lia|lia].
    eapply link0. by apply Forall_drop.
  - exists h'. split; [exact Hf|]. intros id. rewrite (Hh' id).
    destruct (decide (id = zsl_header z)) as [->|Hne].
    + rewrite lookup_delete_eq. rewrite (decide_True (P := zsl_header z ∈ zsl_header z :: _)) by (by left).
      by case_decide.
    + rewrite lookup_delete_ne by done. destruct (decide (id ∈ (s_id <$> L))).
      * by rewrite decide_True by (by right).
      * rewrite decide_False; [done|]. set_solver.
Qed.

(** ** Skip list queries: ranks and elements by rank *)

(** ** Elements by rank *)

Section ByRank.
Context (h : zheap) (z : zskiplist) (L : list snode) (HR : ZRepr h z L) (Hlen : zlen L < 2 ^ 62).
Let hd := hdr (zsl_header z).
Let F := hd :: L.

Lemma rank_cond o rank :
  0 <= rank ->
  cond_from h hd L o (fun t s _ => u64 (t + s) <=? rank) (Z.to_nat (Z.min (Z.of_nat o + rank) (zlen L))).
Proof.
  intros Hr p r x fn Hp Hx _. apply lookup_lt_Some in Hx. simpl in Hx. unfold zlen in *.
  rewrite wrapu_small by lia. case_bool_decide; lia.
Qed.

Lemma by_rank_spec rank o : forall n p,
  0 <= rank -> (n <= zsl_level z)%nat -> (n <= height_at F p)%nat ->
  (o <= p <= Z.to_nat (Z.min (Z.of_nat o + rank) (zlen L)))%nat -> (0 < n)%nat ->
  by_rank_levels h rank n (id_at F p) (Z.of_nat p - Z.of_nat o) =
    Some (if decide (Z.of_nat o + rank <= zlen L) then Some (id_at F (o + Z.to_nat rank)) else None).
Proof.
  set (k := Z.to_nat _). pose proof HR as [(E & HH & HE) _ _ Hzl Hhs _ _].
  assert (Hkl : Z.of_nat k <= zlen L).
  { unfold k. pose proof (zlen_nonneg L). lia. } unfold zlen in *.
  induction n as [|n IH]; intros p Hr Hn Hh Hp Hn0; [lia|]. cbn [by_rank_levels].
  rewrite (walk_from h hd L (zsl_level z) E _ HH HE ltac:(unfold zlen; lia) ltac:(simpl; lia) o _ k n p);
    [|by apply rank_cond|simpl; lia|done|lia|exact Hh].
  cbn [mbind option_bind]. fold F. set (q := lastp F n k).
  assert (Hq : (p <= q <= k)%nat) by (split; [apply lastp_ge; [lia|exact Hh]|apply lastp_le]).
  destruct (Z.eqb_spec (Z.of_nat q - Z.of_nat o) rank) as [Heq|Hne].
  - rewrite decide_True by lia. do 3 f_equal. lia.
  - destruct n as [|n].
    + assert (q = k) as ->.
      { apply (lastp_0 hd L k (zsl_level z) Hhs); [lia|]. simpl. unfold ZSKIPLIST_MAXLEVEL. lia. }
      rewrite decide_False; [done|]. lia.
    + apply IH; [done|lia| |lia|lia].
      assert (S n < height_at F q)%nat; [|lia]. apply lastp_tall.
      unfold height_at. simpl. lia.
Qed.

(** [zslGetElementByRankFromNode] from a node that has all levels in use. *)
Lemma from_node_spec o rank :
  0 <= rank -> (o <= length L)%nat -> (zsl_level z <= height_at F o)%nat ->
  zslGetElementByRankFromNode h (id_at F o) (zsl_level z) rank =
    Some (if decide (Z.of_nat o + rank <= zlen L) then Some (id_at F (o + Z.to_nat rank)) else None).
Proof.
  intros Hr Ho Hh. unfold zslGetElementByRankFromNode.
  replace 0 with (Z.of_nat o - Z.of_nat o) by lia. pose proof (zr_level _ _ _ HR).
  apply by_rank_spec; unfold zlen; lia || done.
Qed.

Lemma zslGetElementByRank_spec rank :
  1 <= rank -> zslGetElementByRank h z rank = Some (s_id <$> L !! Z.to_nat (rank - 1)).
Proof.
  intros Hr. unfold zslGetElementByRank. change (zsl_header z) with (id_at F 0).
  rewrite from_node_spec; [|lia|lia|].
  - f_equal. unfold zlen. case_decide as Hd.
    + replace (0 + Z.to_nat rank)%nat with (S (Z.to_nat (rank - 1))) by lia. unfold id_at. simpl.
      destruct (lookup_lt_is_Some_2 L (Z.to_nat (rank - 1))) as [y Hy]; [lia|]. by rewrite Hy.
    + by rewrite lookup_ge_None_2 by lia.
  - unfold height_at. simpl. pose proof (zr_level _ _ _ HR). lia.
Qed.
End ByRank.

(** ** The rank of an element *)

Definition node_upto (score : double) (ele : list Z) : zsl_cond := fun _ _ fn =>
  dlt (zn_score fn) score ||
  (deq (zn_score fn) score && (sdscmp (default [] (zn_ele fn)) ele <=? 0)).

Lemma node_upto_spec score ele t s fn :
  isnan (zn_score fn) = false -> isnan score = false ->
  node_upto score ele t s fn = true <->
  mlt (zn_score fn, default [] (zn_ele fn)) (score, ele) \/
  same_key (zn_score fn, default [] (zn_ele fn)) (score, ele).
Proof.
  intros Hf Hs. unfold node_upto, mlt, same_key. simpl.
  rewrite orb_true_iff, andb_true_iff, dlt_spec, deq_spec, Z.leb_le, <- sdscmp_eq, Z.le_lteq by done.
  tauto.
Qed.

Section Rank.
Context (h : zheap) (z : zskiplist) (A D : list snode) (score : double) (ele : list Z).
Context (HR : ZRepr h z (A ++ D)) (Hlen : zlen (A ++ D) < 2 ^ 62) (Hs : isnan score = false).
Context (HA : Forall (fun y => mlt (mem y) (score, ele) \/ same_key (mem y) (score, ele)) A).
Context (HD : Forall (fun y => mlt (score, ele) (mem y)) D).
Let hd := hdr (zsl_header z).
Let F := hd :: A ++ D.
Let k := length A.

Lemma cond_node_upto : cond_upto h hd (A ++ D) (node_upto score ele) k.
Proof.
  intros p r x fn Hp Hr Hfn. destruct (zr_heap _ _ _ HR) as (E & HH & _).
  rewrite (node_lookup _ _ _ _ HH r x Hr) in Hfn. injection Hfn as <-.
  destruct r as [|r]; [lia|]. simpl in Hr.
  assert (isnan (s_score x) = false) as Hx.
  { eapply node_not_nan; [exact HR|]. by eapply list_elem_of_lookup_2. }
  destruct (decide (r < k)%nat) as [Hlt|Hge].
  - rewrite bool_decide_eq_true_2 by lia. apply node_upto_spec; [done|done|].
    rewrite lookup_app_l in Hr by done. by apply (Forall_lookup_1 _ _ _ _ HA Hr).
  - rewrite bool_decide_eq_false_2 by lia. apply not_true_iff_false.
    rewrite node_upto_spec by done. rewrite lookup_app_r in Hr by (fold k; lia).
    pose proof (Forall_lookup_1 _ _ _ _ HD Hr) as Hgt. simpl in Hgt.
    intros [Hlt|Hk]; [by apply (mlt_asym _ _ Hgt)|].
    apply (mlt_same_key _ _ Hgt). destruct Hk. split; simpl in *; congruence.
Qed.

(** [present]: the last node of [A] has the key, and no other node. *)
Context (present : bool).
Context (Hkey : forall p y, (A ++ D) !! p = Some y ->
  same_key (mem y) (score, ele) <-> present = true /\ S p = k).

Lemma rank_test p y nx :
  F !! p = Some y -> h !! s_id y = Some nx ->
  match zn_ele nx with
  | Some e => deq (zn_score nx) score && (sdscmp e ele =? 0)
  | None => false
  end = present && (p =? k)%nat && negb (p =? 0)%nat.
Proof.
  intros Hy Hnx. destruct (zr_heap _ _ _ HR) as (E & HH & _).
  rewrite (node_lookup _ _ _ _ HH p y Hy) in Hnx. injection Hnx as <-. cbn [zn_ele zn_score].
  destruct p as [|p]; simpl in Hy.
  { injection Hy as <-. simpl. by rewrite andb_false_r. }
  pose proof (zr_nodes _ _ _ HR) as Hok. pose proof (Forall_lookup_1 _ _ _ _ Hok Hy) as [Hnan [e He]].
  specialize (Hkey p y Hy). rewrite He. unfold same_key, mem in Hkey. rewrite He in Hkey. simpl in Hkey.
  rewrite <- deq_spec, <- sdscmp_eq in Hkey by done. apply eq_true_iff_eq.
  rewrite !andb_true_iff, Z.eqb_eq, Nat.eqb_eq, Hkey. simpl. tauto.
Qed.

Lemma rank_levels_spec : forall n p,
  (n <= zsl_level z)%nat -> (n <= height_at F p)%nat -> (p <= k)%nat -> (0 < n)%nat ->
  (present = true -> (0 < k)%nat) ->
  rank_levels h (node_upto score ele) score ele n (id_at F p) (Z.of_nat p) =
    Some (if present then Z.of_nat k else 0).
Proof.
  pose proof HR as [(E & HH & HE) _ _ Hzl Hhs _ _]. unfold zlen in *.
  assert (Hk : (k <= length (A ++ D))%nat) by (rewrite length_app; fold k; lia).
  induction n as [|n IH]; intros p Hn Hh Hp Hn0 Hpk; [lia|]. cbn [rank_levels].
  rewrite (walk_spec h hd (A ++ D) (zsl_level z) E _ HH HE ltac:(unfold zlen; lia) ltac:(simpl; lia) _ k n p);
    [|apply cond_node_upto|simpl; lia|done|lia|exact Hh].
  cbn [mbind option_bind]. fold F. set (q := lastp F n k).
  assert (Hq : (p <= q <= k)%nat) by (split; [apply lastp_ge; [lia|exact Hh]|apply lastp_le]).
  assert (Hqh : (n < height_at F q)%nat) by (apply lastp_tall; unfold height_at; simpl; lia).
  destruct (lookup_id F q n Hqh) as (y & Hy & <- & _).
  pose proof (node_lookup _ _ _ _ HH q y Hy) as Hnx. rewrite Hnx.
  pose proof (rank_test q y _ Hy Hnx) as Htest. cbn [mbind option_bind] in *. cbn [zn_ele zn_score] in *.
  assert (s_id y = id_at F q) as Hid by (unfold id_at; by rewrite Hy).
  assert (present && (q =? k)%nat && negb (q =? 0)%nat = false ->
          rank_levels h (node_upto score ele) score ele n (s_id y) (Z.of_nat q) =
            Some (if present then Z.of_nat k else 0)) as Hcont.
  { intros Hf. destruct n as [|n].
    - assert (q = k) as Hqk.
      { apply (lastp_0 hd (A ++ D) k (zsl_level z) Hhs); [lia|]. simpl. unfold ZSKIPLIST_MAXLEVEL. lia. }
      rewrite Hqk, Nat.eqb_refl in Hf. destruct present; [|done]. specialize (Hpk eq_refl).
      destruct (Nat.eqb_spec k 0); [lia|done].
    - rewrite Hid. apply IH; [lia|lia|lia|lia|done]. }
  assert (present && (q =? k)%nat && negb (q =? 0)%nat = true ->
          Z.of_nat q = if present then Z.of_nat k else 0) as Hhit.
  { intros Ht. rewrite !andb_true_iff, Nat.eqb_eq in Ht. destruct Ht as [[-> ->] _]. done. }
  destruct (s_ele y) as [e|]; [|by apply Hcont].
  destruct (deq (s_score y) score && (sdscmp e ele =? 0)).
  - f_equal. by apply Hhit.
  - by apply Hcont.
Qed.

Lemma zslGetRank_split :
  (present = true -> (0 < k)%nat) ->
  zslGetRank h z score ele = Some (if present then Z.of_nat k else 0).
Proof.
  intros Hpk. unfold zslGetRank. change (zsl_header z) with (id_at F 0).
  pose proof (zr_level _ _ _ HR). apply rank_levels_spec; [lia| |lia|lia|done].
  unfold height_at. simpl. lia.
Qed.
End Rank.

Lemma zslGetRank_present h z A D x score ele :
  ZRepr h z (A ++ x :: D) -> zlen (A ++ x :: D) < 2 ^ 62 -> isnan score = false ->
  same_key (mem x) (score, ele) -> zslGetRank h z score ele = Some (zlen A + 1).
Proof.
  intros HR Hlen Hs Hk. pose proof (zr_sorted _ _ _ HR) as Hso.
  destruct (StronglySorted_app_inv _ _ _ Hso) as (_ & HsD & HAD).
  assert (HA : Forall (fun y => mlt (mem y) (score, ele)) A).
  { eapply Forall_impl; [exact HAD|]. intros a Ha. inversion Ha; subst. by eapply same_key_mlt_r. }
  assert (HD : Forall (fun y => mlt (score, ele) (mem y)) D).
  { inversion HsD as [|? ? _ Hf]; subst. eapply Forall_impl; [exact Hf|]. intros y Hy.
    by eapply same_key_mlt_l. }
  replace (A ++ x :: D) with ((A ++ [x]) ++ D) in * by (by rewrite <- app_assoc).
  rewrite (zslGetRank_split h z (A ++ [x]) D score ele HR Hlen Hs) with (present := true).
  - f_equal. unfold zlen. rewrite length_app. simpl. lia.
  - apply Forall_app. split; [|constructor; [by right|done]].
    eapply Forall_impl; [exact HA|]. intros y Hy. by left.
  - done.
  - intros p y Hy. rewrite length_app. simpl. rewrite <- app_assoc in Hy. simpl in Hy.
    rewrite lookup_insert_at in Hy. split.
    + intros Hy2. split; [done|]. repeat case_decide; [| |]; try lia.
      * rewrite lookup_app_l in Hy by done. pose proof (Forall_lookup_1 _ _ _ _ HA Hy) as Hlt.
        by destruct (mlt_same_key _ _ Hlt).
      * rewrite lookup_app_r in Hy by lia. pose proof (Forall_lookup_1 _ _ _ _ HD Hy) as Hlt.
        destruct (mlt_same_key _ _ Hlt). destruct Hy2. split; congruence.
    + intros [_ Hp]. rewrite decide_False in Hy by lia. rewrite decide_True in Hy by lia. by injection Hy as ->.
  - intros _. rewrite length_app. simpl. lia.
Qed.

Lemma zslGetRank_absent h z L score ele :
  ZRepr h z L -> zlen L < 2 ^ 62 -> isnan score = false ->
  Forall (fun y => ~ same_key (mem y) (score, ele)) L -> zslGetRank h z score ele = Some 0.
Proof.
  intros HR Hlen Hs Habs.
  destruct (split_absent L _ (zr_sorted _ _ _ HR) Habs) as (A & D & -> & HA & HD).
  rewrite (zslGetRank_split h z A D score ele HR Hlen Hs) with (present := false); try done.
  - eapply Forall_impl; [exact HA|]. intros y Hy. by left.
  - intros p y Hy. pose proof (Forall_lookup_1 _ _ _ _ Habs Hy). simpl in *. naive_solver.
Qed.
