(* ===== verification/SkiplistRangeFacts.v ===== *)
(** * Skip list ranges: the queries against the filtered list *)
From Stdlib Require Import SpecFloat.
From S2P Require Import Prelude Skiplist SkiplistOrder SkiplistFacts SkiplistEdit SkiplistInsert SkiplistDelete.

(** ** Ranges given by positions

    [gte] fails exactly on the first [k1] nodes, [lte] holds exactly on the first [k2]. *)
Section Positions.
Context (h : zheap) (z : zskiplist) (L : list snode) (HR : ZRepr h z L) (Hlen : zlen L < 2 ^ 62).
Context (gte lte : zskiplistNode -> bool) (k1 k2 : nat) (Hk1 : (k1 <= length L)%nat) (Hk2 : (k2 <= length L)%nat).
Let hd := hdr (zsl_header z).
Let F := hd :: L.
Context (Hgte : forall p x nx, L !! p = Some x -> h !! s_id x = Some nx -> gte nx = negb (bool_decide (p < k1)%nat)).
Context (Hlte : forall p x nx, L !! p = Some x -> h !! s_id x = Some nx -> lte nx = bool_decide (p < k2)%nat).

Lemma node_in p : (p < length L)%nat -> exists x nx, L !! p = Some x /\ h !! s_id x = Some nx /\ id_at F (S p) = s_id x.
Proof.
  intros Hp. destruct (lookup_lt_is_Some_2 L p Hp) as [x Hx]. destruct (zr_heap _ _ _ HR) as (E & HH & _).
  exists x. eexists. split_and!; [done|exact (node_lookup _ _ _ _ HH (S p) x Hx)|].
  unfold id_at, F. simpl. by rewrite Hx.
Qed.

Lemma next_at p : (p <= length L)%nat ->
  exists lv, get_level h (id_at F p) 0 = Some lv /\ forward lv = s_id <$> L !! p.
Proof.
  intros Hp. pose proof HR as HR'. rewrite <- (take_drop p L) in HR'.
  destruct (next_spec h z _ _ HR') as (lv & E1 & E2). rewrite take_drop, length_take, Nat.min_l in E1 by lia.
  exists lv. split; [exact E1|]. rewrite E2. by rewrite head_lookup, lookup_drop, Nat.add_0_r.
Qed.

Lemma in_range_spec empty :
  zsl_in_range h z empty gte lte = Some (negb empty && bool_decide (k1 < length L)%nat && bool_decide (0 < k2)%nat).
Proof.
  unfold zsl_in_range. destruct empty; [done|]. rewrite (zr_tail _ _ _ HR), last_lookup. simpl negb.
  destruct (decide (length L = O)) as [HL0|HL0].
  { rewrite lookup_ge_None_2 by lia. rewrite (bool_decide_eq_false_2 (k1 < _)%nat) by lia. done. }
  assert (0 < length L)%nat as HL by lia.
  destruct (node_in (length L - 1)) as (y & ny & Hy & Hny & _); [lia|].
  replace (pred (length L)) with (length L - 1)%nat by lia. rewrite Hy. cbn [fmap option_fmap option_map].
  rewrite Hny. cbn [mbind option_bind]. rewrite (Hgte _ y ny Hy Hny), negb_involutive.
  destruct (decide (k1 < length L)%nat) as [Hlt|Hge].
  - rewrite (bool_decide_eq_false_2 (_ < k1)%nat), (bool_decide_eq_true_2 (k1 < _)%nat) by lia.
    destruct (next_at 0) as (lv & E1 & E2); [lia|]. change (zsl_header z) with (id_at F 0). rewrite E1.
    cbn [mbind option_bind]. destruct (node_in 0 HL) as (w & nw & Hw & Hnw & _). rewrite E2, Hw.
    cbn [fmap option_fmap option_map]. rewrite Hnw. cbn [mbind option_bind]. by rewrite (Hlte _ w nw Hw Hnw).
  - rewrite (bool_decide_eq_true_2 (_ < k1)%nat), (bool_decide_eq_false_2 (k1 < _)%nat) by lia. done.
Qed.

Lemma forward_spec n : forall p, (p + n <= length L)%nat ->
  steps_forward h (Some (id_at F p)) n = Some (Some (id_at F (p + n))).
Proof.
  induction n as [|n IH]; intros p Hp; cbn [steps_forward mbind option_bind]; [by rewrite Nat.add_0_r|].
  destruct (next_at p) as (lv & -> & E2); [lia|]. cbn [mbind option_bind]. rewrite E2.
  destruct (node_in p) as (x & _ & Hx & _ & Hid); [lia|]. rewrite Hx. cbn [fmap option_fmap option_map].
  rewrite <- Hid, IH by lia. do 3 f_equal. lia.
Qed.

Lemma backward_spec n : forall p, (n < p <= length L)%nat ->
  steps_backward h (Some (id_at F p)) n = Some (Some (id_at F (p - n))).
Proof.
  induction n as [|n IH]; intros p Hp; cbn [steps_backward]; [by rewrite Nat.sub_0_r|].
  destruct p as [|[|p]]; [lia|lia|].
  destruct (node_in (S p)) as (x & nx & Hx & Hnx & ->); [lia|].
  destruct (node_in p) as (y & _ & Hy & _ & Hid); [lia|].
  cbn [mbind option_bind]. rewrite Hnx. cbn [mbind option_bind].
  destruct (zr_heap _ _ _ HR) as (E & HH & _).
  rewrite (node_lookup _ _ _ _ HH (S (S p)) x Hx) in Hnx. injection Hnx as <-. cbn [zn_backward back].
  rewrite Hy. cbn [fmap option_fmap option_map]. rewrite <- Hid, IH by lia. do 3 f_equal.
Qed.

Lemma check_spec test b p :
  (p < length L)%nat ->
  (forall x nx, L !! p = Some x -> h !! s_id x = Some nx -> test nx = b) ->
  check_node h test (Some (id_at F (S p))) = Some (if b then s_id <$> L !! p else None).
Proof.
  intros Hp Ht. destruct (node_in p Hp) as (x & nx & Hx & Hnx & ->). cbn [check_node]. rewrite Hnx.
  cbn [mbind option_bind]. rewrite (Ht x nx Hx Hnx), Hx. by destruct b.
Qed.

Lemma cond_gte : cond_upto h hd L (fun _ _ fn => negb (gte fn)) k1.
Proof.
  intros p [|r] x fn Hp Hr Hfn; [lia|]. rewrite (Hgte r x fn Hr Hfn), negb_involutive.
  apply bool_decide_ext. lia.
Qed.

Lemma cond_lte : cond_upto h hd L (fun _ _ fn => lte fn) k2.
Proof.
  intros p [|r] x fn Hp Hr Hfn; [lia|]. rewrite (Hlte r x fn Hr Hfn). apply bool_decide_ext. lia.
Qed.

(** The edge at the top level, which both directions start from. *)
Let q0 := lastp F (zsl_level z - 1) k1.

Lemma q0_facts : (q0 <= k1)%nat /\ (zsl_level z <= height_at F q0)%nat.
Proof.
  pose proof (zr_level _ _ _ HR). split; [apply lastp_le|].
  assert (zsl_level z - 1 < height_at F q0)%nat; [|lia]. apply lastp_tall. unfold height_at. simpl. lia.
Qed.

Lemma top_walk :
  walk h (fun _ _ fn => negb (gte fn)) (zsl_level z - 1) (zsl_header z) 0 = Some (id_at F q0, Z.of_nat q0).
Proof.
  pose proof HR as [(E & HH & HE) _ _ Hzl _ _ _]. change (zsl_header z) with (id_at F 0).
  change 0 with (Z.of_nat 0).
  apply (walk_spec h hd L (zsl_level z) E _ HH HE); try done; try (simpl; lia).
  - apply cond_gte.
  - unfold height_at. simpl. lia.
Qed.

Lemma edge_descend cond k n :
  cond_upto h hd L cond k -> (q0 <= k <= length L)%nat -> (n <= zsl_level z)%nat -> ((0 < n)%nat \/ q0 = k) ->
  exists u r, descend h cond n (id_at F q0) (Z.of_nat q0) [] [] = Some (id_at F k, Z.of_nat k, u, r).
Proof.
  intros Hc Hk Hn Hn0. pose proof HR as [(E & HH & HE) _ _ Hzl Hhs _ _]. pose proof q0_facts as [Hq1 Hq2].
  destruct n as [|n].
  { destruct Hn0 as [| ->]; [lia|]. by eexists _, _. }
  rewrite (descend_spec h hd L (zsl_level z) E _ HH HE) with (k := k); try done; try (simpl; lia).
  - fold F. cbv zeta. assert (lastp F 0 k = k) as ->.
    { apply (lastp_0 hd L k (zsl_level z) Hhs); [lia|]. simpl. unfold ZSKIPLIST_MAXLEVEL. lia. }
    by eexists _, _.
  - fold F. lia.
Qed.

Lemma nth_forward n :
  0 <= n < 2 ^ 63 -> (k1 < length L)%nat -> (0 < k2)%nat ->
  zsl_nth_in_range h z false gte lte n =
    Some (if bool_decide (k1 + Z.to_nat n < k2)%nat then s_id <$> L !! (k1 + Z.to_nat n)%nat else None).
Proof.
  intros Hn Hlt H0. unfold zsl_nth_in_range. rewrite in_range_spec.
  rewrite !bool_decide_eq_true_2 by done. cbn [mbind option_bind negb andb].
  rewrite top_walk. cbn [mbind option_bind]. pose proof q0_facts as [Hq1 Hq2]. unfold zlen in Hlen.
  replace (n >=? 0) with true by lia.
  destruct (edge_descend _ k1 (zsl_level z - 1) cond_gte) as (u & r & ->); [lia|lia| |].
  { destruct (decide (zsl_level z - 1 = O)%nat) as [Hz|]; [|lia]. right. unfold q0. rewrite Hz.
    apply (lastp_0 hd L k1 (zsl_level z)); [apply HR|lia|]. simpl. unfold ZSKIPLIST_MAXLEVEL. lia. }
  cbn [mbind option_bind]. rewrite (zr_len _ _ _ HR). unfold zlen. rewrite wrapu_small by lia.
  destruct (Z.geb_spec (Z.of_nat k1 + n) (Z.of_nat (length L))) as [Hge|Hin].
  { rewrite lookup_ge_None_2 by lia. by case_bool_decide. }
  assert (exists x, x = Some (id_at F (S (k1 + Z.to_nat n))) /\
    (if n <? ZSKIPLIST_MAX_SEARCH then steps_forward h (Some (id_at F k1)) (Z.to_nat (n + 1))
     else zslGetElementByRankFromNode h (id_at F q0) (zsl_level z) (u64 (Z.of_nat k1 + 1 + n - Z.of_nat q0))) =
    Some x) as (x & -> & ->).
  { eexists. split; [done|]. destruct (n <? ZSKIPLIST_MAX_SEARCH).
    - rewrite forward_spec by lia. do 3 f_equal. lia.
    - rewrite wrapu_small by lia. rewrite (from_node_spec h z L HR) by (unfold zlen; lia || done).
      rewrite decide_True by (unfold zlen; lia). do 3 f_equal. lia. }
  cbn [mbind option_bind]. apply check_spec; [lia|]. intros x nx Hx Hnx. by apply (Hlte _ x).
Qed.

Lemma nth_backward n :
  - 2 ^ 63 < n < 0 -> (k1 < length L)%nat -> (0 < k2)%nat -> (k1 <= k2)%nat ->
  zsl_nth_in_range h z false gte lte n =
    Some (if bool_decide (Z.of_nat k1 <= Z.of_nat k2 + n) then s_id <$> L !! Z.to_nat (Z.of_nat k2 + n) else None).
Proof.
  intros Hn Hlt H0 H12. unfold zsl_nth_in_range. rewrite in_range_spec.
  rewrite !(bool_decide_eq_true_2 (_ < _)%nat) by done. cbn [mbind option_bind negb andb].
  rewrite top_walk. cbn [mbind option_bind]. pose proof q0_facts as [Hq1 Hq2]. unfold zlen in Hlen.
  replace (n >=? 0) with false by lia. pose proof (zr_level _ _ _ HR) as Hzl.
  destruct (edge_descend _ k2 (zsl_level z) cond_lte) as (u & r & ->); [lia|lia|lia|].
  cbn [mbind option_bind].
  destruct (Z.ltb_spec (Z.of_nat k2) (- n)) as [Hshort|Hin].
  { by rewrite bool_decide_eq_false_2 by lia. }
  destruct (decide (n + 1 > - ZSKIPLIST_MAX_SEARCH \/ Z.of_nat q0 <= Z.of_nat k2 + 1 + n)) as [Hok|Hfar].
  - assert ((if n + 1 >? - ZSKIPLIST_MAX_SEARCH then steps_backward h (Some (id_at F k2)) (Z.to_nat (- n - 1))
       else zslGetElementByRankFromNode h (id_at F q0) (zsl_level z) (u64 (Z.of_nat k2 + 1 + n - Z.of_nat q0))) =
      Some (Some (id_at F (S (Z.to_nat (Z.of_nat k2 + n)))))) as ->.
    { destruct (Z.gtb_spec (n + 1) (- ZSKIPLIST_MAX_SEARCH)).
      - rewrite backward_spec by lia. do 3 f_equal. lia.
      - rewrite wrapu_small by lia. rewrite (from_node_spec h z L HR) by (unfold zlen; lia || done).
        rewrite decide_True by (unfold zlen; lia). do 3 f_equal. lia. }
    cbn [mbind option_bind]. apply check_spec; [lia|]. intros x nx Hx Hnx.
    rewrite (Hgte _ x nx Hx Hnx). repeat case_bool_decide; lia || done.
  - replace (n + 1 >? - ZSKIPLIST_MAX_SEARCH) with false by lia.
    rewrite bool_decide_eq_false_2 by lia.
    assert (2 ^ 63 < u64 (Z.of_nat k2 + 1 + n - Z.of_nat q0)) as Hbig.
    { replace (Z.of_nat k2 + 1 + n - Z.of_nat q0) with (Z.of_nat k2 + 1 + n - Z.of_nat q0 + 2 ^ 64 + (-1) * 2 ^ 64) by lia.
      unfold wrapu. rewrite Z_mod_plus_full, Z.mod_small; lia. }
    rewrite (from_node_spec h z L HR) by (unfold zlen; lia || done).
    rewrite decide_False by (unfold zlen; lia). done.
Qed.
End Positions.

(** ** Monotone tests split a sorted list *)

Lemma split_mono {X} (P : X -> bool) (R : X -> X -> Prop) (L : list X) :
  StronglySorted R L -> (forall x y, x ∈ L -> y ∈ L -> R x y -> P y = true -> P x = true) ->
  exists k, (k <= length L)%nat /\ forall p x, L !! p = Some x -> P x = bool_decide (p < k)%nat.
Proof.
  induction 1 as [|x L Hs IH Hx]; intros HP.
  { exists O. split; [done|]. intros p x Hp. by rewrite lookup_nil in Hp. }
  destruct IH as (k & Hk & HL).
  { intros y w Hy Hw. apply HP; by right. }
  destruct (P x) eqn:EP.
  - exists (S k). split; [simpl; lia|]. intros [|p] y Hp; simpl in Hp; [by injection Hp as <-|].
    rewrite (HL p y Hp). apply bool_decide_ext. lia.
  - exists O. split; [lia|]. intros p y Hp. rewrite bool_decide_eq_false_2 by lia.
    destruct p as [|p]; simpl in Hp; [by injection Hp as <-|]. apply not_true_iff_false. intros Hy.
    apply list_elem_of_lookup_2 in Hp. rewrite Forall_forall in Hx.
    rewrite (HP x y) in EP; [done|by left|by right|by apply Hx|done].
Qed.

Lemma filter_positions {X} (P : X -> bool) (L : list X) : forall k1 k2,
  (forall p x, L !! p = Some x -> P x = bool_decide (k1 <= p < k2)%nat) ->
  filter (fun x => P x = true) L = take (k2 - k1) (drop k1 L).
Proof.
  induction L as [|x L IH]; intros k1 k2 HP; [by rewrite drop_nil, take_nil|].
  rewrite filter_cons. pose proof (HP O x eq_refl) as Hx.
  rewrite (IH (pred k1) (pred k2)).
  2: { intros p y Hp. rewrite (HP (S p) y Hp). apply bool_decide_ext. lia. }
  rewrite Hx. destruct k1 as [|k1].
  - destruct k2 as [|k2].
    + rewrite bool_decide_eq_false_2 by lia. done.
    + rewrite bool_decide_eq_true_2 by lia. simpl. by rewrite !Nat.sub_0_r.
  - rewrite bool_decide_eq_false_2 by lia. simpl. destruct k2 as [|k2]; [|done].
    by rewrite !(proj2 (Nat.sub_0_le _ _)) by lia.
Qed.

(** The element a signed index designates. *)
Definition nth_elem {X} (M : list X) (n : Z) : option X :=
  if n >=? 0 then M !! Z.to_nat n
  else if zlen M + n >=? 0 then M !! Z.to_nat (zlen M + n) else None.

(** ** Ranges over a total preorder, given by its comparison function *)

Definition gte_by {V} (cmp : V -> V -> Z) (lo : V) (ex : bool) (v : V) : bool :=
  if ex then cmp v lo >? 0 else cmp v lo >=? 0.
Definition lte_by {V} (cmp : V -> V -> Z) (hi : V) (ex : bool) (v : V) : bool :=
  if ex then cmp v hi <? 0 else cmp v hi <=? 0.
Definition empty_by {V} (cmp : V -> V -> Z) (lo hi : V) (loex hiex : bool) : bool :=
  (cmp lo hi >? 0) || ((cmp lo hi =? 0) && (loex || hiex)).

Class TotalCmp {V} (ok : V -> Prop) (cmp : V -> V -> Z) := {
  cmp_opp a b : ok a -> ok b -> cmp b a = - cmp a b;
  cmp_trans a b c : ok a -> ok b -> ok c -> cmp a b <= 0 -> cmp b c <= 0 -> cmp a c <= 0;
  cmp_trans_lt a b c : ok a -> ok b -> ok c -> cmp a b < 0 -> cmp b c <= 0 -> cmp a c < 0;
}.

Section RangeOrder.
Context {V} (ok : V -> Prop) (cmp : V -> V -> Z) `{!TotalCmp ok cmp}.
Context (lo hi : V) (loex hiex : bool) (Hlo : ok lo) (Hhi : ok hi).

Lemma cmp_trans_le_lt a b c : ok a -> ok b -> ok c -> cmp a b <= 0 -> cmp b c < 0 -> cmp a c < 0.
Proof.
  intros Ha Hb Hc Hab Hbc. destruct (decide (cmp a c < 0)) as [|Hn]; [done|].
  pose proof (cmp_opp a c Ha Hc). pose proof (cmp_opp a b Ha Hb).
  pose proof (cmp_trans_lt b c a Hb Hc Ha Hbc ltac:(lia)). lia.
Qed.

Lemma gte_mono v w : ok v -> ok w -> cmp v w <= 0 -> gte_by cmp lo loex v = true -> gte_by cmp lo loex w = true.
Proof.
  intros Hv Hw Hvw. unfold gte_by. pose proof (cmp_opp lo v Hlo Hv). pose proof (cmp_opp lo w Hlo Hw).
  destruct loex; intros Hg.
  - assert (cmp lo w < 0); [|lia]. apply (cmp_trans_lt lo v w); lia || done.
  - assert (cmp lo w <= 0); [|lia]. apply (cmp_trans lo v w); lia || done.
Qed.

Lemma lte_mono v w : ok v -> ok w -> cmp v w <= 0 -> lte_by cmp hi hiex w = true -> lte_by cmp hi hiex v = true.
Proof.
  intros Hv Hw Hvw. unfold lte_by. destruct hiex; intros Hg.
  - assert (cmp v hi < 0); [|lia]. apply (cmp_trans_le_lt v w hi); lia || done.
  - assert (cmp v hi <= 0); [|lia]. apply (cmp_trans v w hi); lia || done.
Qed.

(** An empty range has no element; in another, what is below the minimum is not above the maximum. *)
Lemma empty_range v :
  ok v -> empty_by cmp lo hi loex hiex = true -> gte_by cmp lo loex v && lte_by cmp hi hiex v = false.
Proof.
  intros Hv. unfold empty_by, gte_by, lte_by. pose proof (cmp_opp lo v Hlo Hv).
  pose proof (cmp_trans lo v hi Hlo Hv Hhi). pose proof (cmp_trans_lt lo v hi Hlo Hv Hhi).
  pose proof (cmp_trans_le_lt lo v hi Hlo Hv Hhi). destruct loex, hiex; lia.
Qed.

Lemma below_not_above v :
  ok v -> empty_by cmp lo hi loex hiex = false -> gte_by cmp lo loex v = false -> lte_by cmp hi hiex v = true.
Proof.
  intros Hv. unfold empty_by, gte_by, lte_by.
  pose proof (cmp_trans v lo hi Hv Hlo Hhi). pose proof (cmp_trans_lt v lo hi Hv Hlo Hhi).
  pose proof (cmp_trans_le_lt v lo hi Hv Hlo Hhi). destruct loex, hiex; lia.
Qed.

(** In a sorted list the range is an interval of positions. *)
Lemma ordered_positions {X} (R : X -> X -> Prop) (L : list X) (HS : StronglySorted R L) (kv : X -> V)
    (Hkv : forall x, x ∈ L -> ok (kv x)) (Hord : forall x y, x ∈ L -> y ∈ L -> R x y -> cmp (kv x) (kv y) <= 0) :
  exists k1 k2, (k1 <= length L)%nat /\ (k2 <= length L)%nat /\
  (forall p x, L !! p = Some x -> gte_by cmp lo loex (kv x) = negb (bool_decide (p < k1)%nat)) /\
  (forall p x, L !! p = Some x -> lte_by cmp hi hiex (kv x) = bool_decide (p < k2)%nat) /\
  filter (fun x => gte_by cmp lo loex (kv x) && lte_by cmp hi hiex (kv x) = true) L = take (k2 - k1) (drop k1 L) /\
  (empty_by cmp lo hi loex hiex = false -> (k1 <= k2)%nat).
Proof.
  destruct (split_mono (fun x => negb (gte_by cmp lo loex (kv x))) _ L HS) as (k1 & Hk1 & H1).
  { intros x y Hx Hy Hxy. rewrite !negb_true_iff, <- !not_true_iff_false. intros Hn Hg. apply Hn.
    apply (gte_mono (kv x)); auto. }
  destruct (split_mono (fun x => lte_by cmp hi hiex (kv x)) _ L HS) as (k2 & Hk2 & H2).
  { intros x y Hx Hy Hxy. apply (lte_mono); auto. }
  assert (H1' : forall p x, L !! p = Some x -> gte_by cmp lo loex (kv x) = negb (bool_decide (p < k1)%nat)).
  { intros p x Hp. rewrite <- (H1 p x Hp). by rewrite negb_involutive. }
  exists k1, k2. split_and!; [done|done|done|done| |].
  - apply filter_positions. intros p x Hp. rewrite (H1' p x Hp), (H2 p x Hp).
    repeat case_bool_decide; simpl; lia || done.
  - intros Hne. destruct (decide (k1 <= k2)%nat) as [|Hgt]; [done|].
    destruct (lookup_lt_is_Some_2 L k2) as [x Hx]; [lia|].
    assert (gte_by cmp lo loex (kv x) = false) as Hg.
    { rewrite (H1' k2 x Hx), bool_decide_eq_true_2 by lia. done. }
    pose proof (below_not_above (kv x)
      (Hkv x ltac:(by eapply list_elem_of_lookup_2)) Hne Hg) as Hl.
    rewrite (H2 k2 x Hx), bool_decide_eq_false_2 in Hl by lia. done.
Qed.
End RangeOrder.

(** ** Ranges over the list *)

Section ListRange.
Context {V} (ok : V -> Prop) (cmp : V -> V -> Z) `{!TotalCmp ok cmp}.
Context (lo hi : V) (loex hiex : bool) (Hlo : ok lo) (Hhi : ok hi).
Context (h : zheap) (z : zskiplist) (L : list snode) (HR : ZRepr h z L) (Hlen : zlen L < 2 ^ 62).
Context (kv : snode -> V) (Hkv : forall x, x ∈ L -> ok (kv x)).
Context (Hord : forall x y, x ∈ L -> y ∈ L -> mlt (mem x) (mem y) -> cmp (kv x) (kv y) <= 0).
Context (gte lte : zskiplistNode -> bool).
Context (Hgte : forall x nx, x ∈ L -> zn_ele nx = s_ele x -> zn_score nx = s_score x -> gte nx = gte_by cmp lo loex (kv x)).
Context (Hlte : forall x nx, x ∈ L -> zn_ele nx = s_ele x -> zn_score nx = s_score x -> lte nx = lte_by cmp hi hiex (kv x)).

Let in_r (x : snode) : bool := gte_by cmp lo loex (kv x) && lte_by cmp hi hiex (kv x).

Lemma node_fields p x nx : L !! p = Some x -> h !! s_id x = Some nx ->
  x ∈ L /\ zn_ele nx = s_ele x /\ zn_score nx = s_score x.
Proof.
  intros Hp Hnx. destruct (zr_heap _ _ _ HR) as (E & HH & _).
  rewrite (node_lookup _ _ _ _ HH (S p) x Hp) in Hnx. injection Hnx as <-.
  split_and!; [by eapply list_elem_of_lookup_2|done|done].
Qed.

(** The positions of the range. *)
Lemma range_positions : exists k1 k2, (k1 <= length L)%nat /\ (k2 <= length L)%nat /\
  (forall p x, L !! p = Some x -> gte_by cmp lo loex (kv x) = negb (bool_decide (p < k1)%nat)) /\
  (forall p x, L !! p = Some x -> lte_by cmp hi hiex (kv x) = bool_decide (p < k2)%nat) /\
  filter (fun x => in_r x = true) L = take (k2 - k1) (drop k1 L) /\
  (empty_by cmp lo hi loex hiex = false -> (k1 <= k2)%nat).
Proof. apply (ordered_positions ok cmp lo hi loex hiex Hlo Hhi _ L (zr_sorted _ _ _ HR) kv Hkv Hord). Qed.

Lemma empty_filter : empty_by cmp lo hi loex hiex = true -> filter (fun x => in_r x = true) L = [].
Proof.
  intros He. destruct (filter _ L) as [|x l] eqn:E; [done|].
  assert (Hx : x ∈ filter (fun x => in_r x = true) L) by (rewrite E; by left).
  apply list_elem_of_filter in Hx as [Hin Hx]. unfold in_r in Hin.
  by rewrite (empty_range ok cmp lo hi loex hiex Hlo Hhi (kv x) (Hkv x Hx) He) in Hin.
Qed.

Lemma take_drop_lookup (k1 k2 i : nat) :
  take (k2 - k1) (drop k1 L) !! i = if decide (k1 + i < k2)%nat then L !! (k1 + i)%nat else None.
Proof.
  case_decide as Hd; [by rewrite lookup_take_lt, lookup_drop by lia|].
  apply lookup_ge_None_2. rewrite length_take. lia.
Qed.

Lemma nth_in_range_spec n :
  - 2 ^ 63 < n < 2 ^ 63 ->
  zsl_nth_in_range h z (empty_by cmp lo hi loex hiex) gte lte n =
    Some (s_id <$> nth_elem (filter (fun x => in_r x = true) L) n).
Proof.
  intros Hn. destruct range_positions as (k1 & k2 & Hk1 & Hk2 & H1 & H2 & HF & H12).
  assert (HG : forall p x nx, L !! p = Some x -> h !! s_id x = Some nx -> gte nx = negb (bool_decide (p < k1)%nat)).
  { intros p x nx Hp Hnx. destruct (node_fields p x nx Hp Hnx) as (? & ? & ?). rewrite <- (H1 p x Hp). auto. }
  assert (HL : forall p x nx, L !! p = Some x -> h !! s_id x = Some nx -> lte nx = bool_decide (p < k2)%nat).
  { intros p x nx Hp Hnx. destruct (node_fields p x nx Hp Hnx) as (? & ? & ?). rewrite <- (H2 p x Hp). auto. }
  assert (Hnil : filter (fun x => in_r x = true) L = [] ->
    zsl_in_range h z (empty_by cmp lo hi loex hiex) gte lte = Some false ->
    zsl_nth_in_range h z (empty_by cmp lo hi loex hiex) gte lte n =
      Some (s_id <$> nth_elem (filter (fun x => in_r x = true) L) n)).
  { intros HF' HI. unfold zsl_nth_in_range. rewrite HI, HF'. simpl. unfold nth_elem.
    rewrite !lookup_nil. by repeat case_match. }
  pose proof (in_range_spec h z L HR gte lte k1 k2 Hk1 Hk2 HG HL (empty_by cmp lo hi loex hiex)) as HI.
  destruct (empty_by cmp lo hi loex hiex) eqn:He.
  { apply Hnil; [by apply empty_filter|done]. }
  specialize (H12 eq_refl). cbn [negb andb] in HI.
  destruct (decide (k1 < length L /\ 0 < k2)%nat) as [[Hlt H0]|Hout].
  2: { apply Hnil.
       - rewrite HF. destruct (decide (k1 < length L)%nat).
         + by replace (k2 - k1)%nat with O by lia.
         + by rewrite drop_ge, take_nil by lia.
       - rewrite HI. repeat case_bool_decide; lia || done. }
  rewrite HF. unfold nth_elem, zlen. rewrite length_take, length_drop, Nat.min_l by lia.
  destruct (Z.geb_spec n 0).
  - rewrite (nth_forward h z L HR Hlen gte lte k1 k2 Hk1 Hk2 HG HL) by (lia || done).
    f_equal. rewrite take_drop_lookup. destruct (decide (k1 + Z.to_nat n < k2)%nat).
    + by rewrite bool_decide_eq_true_2.
    + by rewrite bool_decide_eq_false_2.
  - rewrite (nth_backward h z L HR Hlen gte lte k1 k2 Hk1 Hk2 HG HL) by (lia || done). f_equal.
    destruct (Z.geb_spec (Z.of_nat (k2 - k1) + n) 0).
    + rewrite bool_decide_eq_true_2 by lia. rewrite take_drop_lookup, decide_True by lia.
      do 2 f_equal. lia.
    + by rewrite bool_decide_eq_false_2 by lia.
Qed.
End ListRange.

(** ** Skip list range deletions *)

(** The member names removed from the dictionary, in order. *)
Definition dict_delete_all {D} `{DictDelete D} (dict : D) (M : list snode) : D :=
  foldl (fun d x => dictDelete d (default [] (s_ele x))) dict M.

Section DeleteWhile.
Context {Dt} `{DictDelete Dt} (A : list snode) (U : list nat) (test : Z -> zskiplistNode -> bool).

(** [U] is the array of a search that stops behind [A]. *)
Definition upd_for (hd : snode) (X : list snode) (zl : nat) : Prop :=
  forall i, (i < zl)%nat -> U !! i = Some (id_at (hd :: A ++ X) (lastp (hd :: A ++ X) i (length A))).

Lemma upd_for_ext hd X Y zl zl' : (zl' <= zl)%nat -> upd_for hd X zl -> upd_for hd Y zl'.
Proof.
  intros Hz HU i Hi. rewrite (HU i ltac:(lia)), (lastp_prefix hd A X i X Y) by done. f_equal.
  apply id_prefix. apply lastp_le.
Qed.

Definition test_at (removed : Z) (x : snode) (b : bool) : Prop :=
  forall nx, zn_ele nx = s_ele x -> zn_score nx = s_score x -> test removed nx = b.

Lemma delete_while_spec R : forall M fuel h z dict removed,
  ZRepr h z (A ++ M ++ R) -> zlen (A ++ M ++ R) < 2 ^ 62 ->
  upd_for (hdr (zsl_header z)) (M ++ R) (zsl_level z) -> (length M <= fuel)%nat ->
  (forall i x, M !! i = Some x -> test_at (removed + Z.of_nat i) x true) ->
  (forall x, head R = Some x -> test_at (removed + zlen M) x false) ->
  exists h' z', delete_while fuel test U h z dict (s_id <$> head (M ++ R)) removed =
      Some (h', z', dict_delete_all dict M, removed + zlen M) /\
    zsl_header z' = zsl_header z /\ ZRepr h' z' (A ++ R).
Proof.
  induction M as [|m M IH]; intros fuel h z dict removed HR Hlen HU Hf HM HRest.
  - simpl app in *. exists h, z. split_and!; [|done|done]. rewrite zlen_nil, Z.add_0_r in *.
    destruct R as [|r R]; [by destruct fuel|]. cbn [head fmap option_fmap option_map].
    destruct (node_at h z A R r HR) as (nx & Hnx & He & Hs & _).
    destruct fuel; cbn [delete_while]; rewrite Hnx; cbn [mbind option_bind];
      rewrite (HRest r eq_refl nx He Hs); done.
  - destruct fuel as [|fuel]; [simpl in Hf; lia|]. simpl app in *.
    cbn [head fmap option_fmap option_map delete_while].
    destruct (node_at h z A (M ++ R) m HR) as (nx & Hnx & He & Hs & _ & Hlv).
    rewrite Hnx. cbn [mbind option_bind]. pose proof (HM O m eq_refl nx He Hs) as Ht.
    rewrite Z.add_0_r in Ht. rewrite Ht. cbn [negb]. rewrite Hlv. cbn [mbind option_bind].
    assert (forward (link 0 (M ++ R)) = s_id <$> head (M ++ R)) as ->.
    { pose proof (zr_heights _ _ _ HR) as Hh. rewrite Forall_app, Forall_cons in Hh.
      eapply link0. apply Hh. }
    destruct (zslDeleteNode_spec h z A (M ++ R) m U HR Hlen HU) as (h1 & z1 & -> & Hhd & Hz1 & Hn & _ & HR1).
    cbn [mbind option_bind]. pose proof (zr_nodes _ _ _ HR) as Hok. rewrite Forall_app, Forall_cons in Hok.
    destruct Hok as (_ & [_ [e Hm]] & _). rewrite He, Hm. cbn [mbind option_bind].
    destruct (IH fuel (zslFreeNode h1 (s_id m)) z1 (dictDelete dict e) (removed + 1)) as (h2 & z2 & -> & Hhd2 & HR2).
    + by apply ZRepr_free.
    + autorewrite with zlen in *. lia.
    + rewrite Hhd. by apply (upd_for_ext _ (m :: M ++ R) _ (zsl_level z)).
    + simpl in Hf. lia.
    + intros i x Hx. replace (removed + 1 + Z.of_nat i) with (removed + Z.of_nat (S i)) by lia. by apply HM.
    + intros x Hx. rewrite zlen_cons in HRest. replace (removed + 1 + zlen M) with (removed + (1 + zlen M)) by lia.
      by apply HRest.
    + exists h2, z2. split_and!; [|congruence|done]. rewrite zlen_cons. unfold dict_delete_all. simpl.
      rewrite Hm. do 2 f_equal. lia.
Qed.
End DeleteWhile.

Section DeleteRange.
Context {Dt} `{DictDelete Dt} (h : zheap) (z : zskiplist) (dict : Dt).
Context (A M R : list snode) (HR : ZRepr h z (A ++ M ++ R)) (Hlen : zlen (A ++ M ++ R) < 2 ^ 62).

Lemma delete_range_spec skip test :
  cond_upto h (hdr (zsl_header z)) (A ++ M ++ R) skip (length A) ->
  (forall i x, M !! i = Some x -> test_at (test (zlen A)) (Z.of_nat i) x true) ->
  (forall x, head R = Some x -> test_at (test (zlen A)) (zlen M) x false) ->
  exists h' z', delete_range h z dict skip test = Some (h', z', dict_delete_all dict M, zlen M) /\
    zsl_header z' = zsl_header z /\ ZRepr h' z' (A ++ R).
Proof.
  intros Hc HM HRest. unfold delete_range.
  rewrite (search_spec h z _ _ (length A) HR Hlen Hc) by (rewrite length_app; lia). cbn [mbind option_bind].
  destruct (next_spec h z A (M ++ R) HR) as (lv & -> & Hlv). cbn [mbind option_bind]. rewrite Hlv.
  apply (delete_while_spec A _ (test (Z.of_nat (length A))) R M (size h) h z dict 0 HR Hlen).
  - intros i Hi. by apply upd_arr_lookup.
  - destruct (zr_heap _ _ _ HR) as (E & HH & _). pose proof (heap_size _ _ _ _ HH) as Hsz.
    simpl in Hsz. rewrite !length_app in Hsz. lia.
  - exact HM.
  - exact HRest.
Qed.
End DeleteRange.

Lemma filter_out_positions {X} (P : X -> bool) (L : list X) : forall k1 k2,
  (forall p x, L !! p = Some x -> P x = bool_decide (k1 <= p < k2)%nat) ->
  filter (fun x => P x = false) L = take k1 L ++ drop (k1 + (k2 - k1)) L.
Proof.
  induction L as [|x L IH]; intros k1 k2 HP; [by rewrite take_nil, drop_nil|].
  rewrite filter_cons. pose proof (HP O x eq_refl) as Hx.
  rewrite (IH (pred k1) (pred k2)).
  2: { intros p y Hp. rewrite (HP (S p) y Hp). apply bool_decide_ext. lia. }
  rewrite Hx. destruct k1 as [|k1].
  - destruct k2 as [|k2].
    + rewrite bool_decide_eq_false_2 by lia. done.
    + rewrite bool_decide_eq_true_2 by lia. simpl. by rewrite !Nat.sub_0_r.
  - rewrite bool_decide_eq_false_2 by lia. rewrite decide_True by done. simpl. do 3 f_equal. lia.
Qed.

Section DeleteBy.
Context {Dt} `{DictDelete Dt} (dict : Dt).
Context {V} (ok : V -> Prop) (cmp : V -> V -> Z) `{!TotalCmp ok cmp}.
Context (lo hi : V) (loex hiex : bool) (Hlo : ok lo) (Hhi : ok hi).
Context (h : zheap) (z : zskiplist) (L : list snode) (HR : ZRepr h z L) (Hlen : zlen L < 2 ^ 62).
Context (kv : snode -> V) (Hkv : forall x, x ∈ L -> ok (kv x)).
Context (Hord : forall x y, x ∈ L -> y ∈ L -> mlt (mem x) (mem y) -> cmp (kv x) (kv y) <= 0).
Context (gte lte : zskiplistNode -> bool).
Context (Hgte : forall x nx, x ∈ L -> zn_ele nx = s_ele x -> zn_score nx = s_score x -> gte nx = gte_by cmp lo loex (kv x)).
Context (Hlte : forall x nx, x ∈ L -> zn_ele nx = s_ele x -> zn_score nx = s_score x -> lte nx = lte_by cmp hi hiex (kv x)).

Let in_r (x : snode) : bool := gte_by cmp lo loex (kv x) && lte_by cmp hi hiex (kv x).

Lemma delete_by_spec :
  exists h' z', delete_range h z dict (fun _ _ fn => negb (gte fn)) (fun _ _ nd => lte nd) =
      Some (h', z', dict_delete_all dict (filter (fun x => in_r x = true) L),
            zlen (filter (fun x => in_r x = true) L)) /\
    ZRepr h' z' (filter (fun x => in_r x = false) L).
Proof.
  destruct (range_positions ok cmp lo hi loex hiex Hlo Hhi h z L HR kv Hkv Hord) as (k1 & k2 & Hk1 & Hk2 & H1 & H2 & HF & _).
  assert (HFo : filter (fun x => in_r x = false) L = take k1 L ++ drop (k1 + (k2 - k1)) L).
  { apply filter_out_positions. intros p x Hp. unfold in_r. rewrite (H1 p x Hp), (H2 p x Hp).
    repeat case_bool_decide; simpl; lia || done. }
  change (filter (fun x => in_r x = true) L = take (k2 - k1) (drop k1 L)) in HF. rewrite HF, HFo.
  set (A := take k1 L). set (M := take (k2 - k1) (drop k1 L)). set (R := drop (k1 + (k2 - k1)) L).
  assert (EL : L = A ++ M ++ R) by (unfold A, M, R; by rewrite <- drop_drop, !take_drop).
  assert (HlA : length A = k1) by (unfold A; rewrite length_take; lia).
  assert (HR' : ZRepr h z (A ++ M ++ R)) by (by rewrite <- EL).
  assert (Hl' : zlen (A ++ M ++ R) < 2 ^ 62) by (by rewrite <- EL).
  destruct (delete_range_spec h z dict A M R HR' Hl' (fun _ _ fn => negb (gte fn)) (fun _ _ nd => lte nd))
    as (h' & z' & -> & _ & HRR); [| | |by exists h', z'].
  - rewrite <- EL, HlA. apply (cond_gte h z L gte k1 k2 Hk1 Hk2). intros p x nx Hp Hnx.
    destruct (node_fields h z L HR p x nx Hp Hnx) as (Hx & He & Hs). by rewrite (Hgte x nx Hx He Hs), (H1 p x Hp).
  - intros i x Hx nx He Hs. unfold M in Hx. apply lookup_take_Some in Hx as [Hx Hi]. rewrite lookup_drop in Hx.
    rewrite (Hlte x nx); [|by eapply list_elem_of_lookup_2|done|done]. rewrite (H2 _ x Hx).
    apply bool_decide_eq_true_2. lia.
  - intros x Hx nx He Hs. unfold R in Hx. rewrite head_lookup, lookup_drop, Nat.add_0_r in Hx.
    rewrite (Hlte x nx); [|by eapply list_elem_of_lookup_2|done|done]. rewrite (H2 _ x Hx).
    apply bool_decide_eq_false_2. lia.
Qed.
End DeleteBy.

(** Ranks: positions [start] to [stop], counted from 1. *)
Lemma delete_by_rank_spec {Dt} `{DictDelete Dt} (dict : Dt) h z L start stop :
  ZRepr h z L -> zlen L < 2 ^ 62 -> 1 <= start < 2 ^ 32 -> 0 <= stop < 2 ^ 32 ->
  let k := Z.to_nat (start - 1) in let n := Z.to_nat (stop - (start - 1)) in
  exists h' z', zslDeleteRangeByRank h z start stop dict =
      Some (h', z', dict_delete_all dict (take n (drop k L)), zlen (take n (drop k L))) /\
    ZRepr h' z' (take k L ++ drop (k + n) L).
Proof.
  intros HR Hlen Hst Hsp k n. unfold zslDeleteRangeByRank.
  set (A := take k L). set (M := take n (drop k L)). set (R := drop (k + n) L).
  assert (EL : L = A ++ M ++ R) by (unfold A, M, R; by rewrite <- drop_drop, !take_drop).
  assert (HlA : length A = Nat.min k (length L)) by (unfold A; by rewrite length_take).
  assert (HlM : length M = Nat.min n (length L - k)) by (unfold M; by rewrite length_take, length_drop).
  destruct (delete_range_spec h z dict A M R) with (skip := fun (t s : Z) (_ : zskiplistNode) => u64 (t + s) <? start)
    (test := fun traversed removed (_ : zskiplistNode) => traversed + 1 + removed <=? stop)
    as (h' & z' & -> & _ & HRR); [by rewrite <- EL|by rewrite <- EL| | | |by exists h', z'].
  - rewrite <- EL. intros p r x fn Hp Hr _. apply lookup_lt_Some in Hr. simpl in Hr. unfold zlen in Hlen.
    rewrite wrapu_small by lia. case_bool_decide; lia.
  - intros i x Hx nx _ _. apply lookup_lt_Some in Hx. unfold zlen. lia.
  - intros x Hx nx _ _. unfold R in Hx. rewrite head_lookup, lookup_drop, Nat.add_0_r in Hx.
    apply lookup_lt_Some in Hx. unfold zlen. lia.
Qed.
