(* ===== verification/SkiplistProps.v ===== *)
(** * Skip lists: the sorted set they implement

    [ZView h z ms] says the list at [z] holds the members [ms], in increasing order of score
    and name. *)
From Stdlib Require Import SpecFloat.
From S2P Require Import Prelude Skiplist SkiplistOrder SkiplistFacts SkiplistEdit SkiplistInsert SkiplistDelete SkiplistRangeFacts.

Definition ZView (h : zheap) (z : zskiplist) (ms : list member) : Prop :=
  exists L, ZRepr h z L /\ mem <$> L = ms.

(** The member a returned node holds. *)
Definition node_member (h : zheap) (x : nat) : option member :=
  nd ← h !! x; Some (zn_score nd, default [] (zn_ele nd)).

(** ** Comparison functions of the two kinds of range *)

Definition scmp (a b : double) : Z := if dlt a b then -1 else if deq a b then 0 else 1.

Lemma scmp_case a b : isnan a = false -> isnan b = false ->
  (klt (dkey a) (dkey b) /\ scmp a b = -1) \/ (dkey a = dkey b /\ scmp a b = 0) \/
  (klt (dkey b) (dkey a) /\ scmp a b = 1).
Proof.
  intros Ha Hb. unfold scmp. pose proof (dlt_spec a b Ha Hb) as Hl. pose proof (deq_spec a b Ha Hb) as He.
  destruct (klt_total (dkey a) (dkey b)) as [Hlt|[Heq|Hgt]].
  - left. split; [done|]. by rewrite (proj2 Hl).
  - right. left. split; [done|]. destruct (dlt a b).
    + destruct (klt_irrefl (dkey b)). rewrite Heq in Hl. by apply Hl.
    + by rewrite (proj2 He).
  - right. right. split; [done|]. destruct (dlt a b).
    + destruct (klt_irrefl (dkey b)). eapply klt_trans; [exact Hgt|]. by apply Hl.
    + destruct (deq a b); [|done]. destruct (klt_irrefl (dkey b)).
      by rewrite (proj1 He eq_refl) in Hgt.
Qed.

#[export] Instance scmp_total : TotalCmp (fun d => isnan d = false) scmp.
Proof.
  split.
  - intros a b Ha Hb. destruct (scmp_case a b Ha Hb) as [[H1 ->]|[[H1 ->]|[H1 ->]]],
      (scmp_case b a Hb Ha) as [[H2 ->]|[[H2 ->]|[H2 ->]]]; try lia;
      destruct (dkey a) as [[??]?], (dkey b) as [[??]?]; simplify_eq; simpl in *; lia.
  - intros a b c Ha Hb Hc. destruct (scmp_case a b Ha Hb) as [[H1 ->]|[[H1 ->]|[H1 ->]]],
      (scmp_case b c Hb Hc) as [[H2 ->]|[[H2 ->]|[H2 ->]]], (scmp_case a c Ha Hc) as [[H3 ->]|[[H3 ->]|[H3 ->]]];
      try lia; destruct (dkey a) as [[??]?], (dkey b) as [[??]?], (dkey c) as [[??]?]; simplify_eq; simpl in *; lia.
  - intros a b c Ha Hb Hc. destruct (scmp_case a b Ha Hb) as [[H1 ->]|[[H1 ->]|[H1 ->]]],
      (scmp_case b c Hb Hc) as [[H2 ->]|[[H2 ->]|[H2 ->]]], (scmp_case a c Ha Hc) as [[H3 ->]|[[H3 ->]|[H3 ->]]];
      try lia; destruct (dkey a) as [[??]?], (dkey b) as [[??]?], (dkey c) as [[??]?]; simplify_eq; simpl in *; lia.
Qed.

Lemma sdscmp_trans_le a b c : sdscmp a b <= 0 -> sdscmp b c <= 0 -> sdscmp a c <= 0.
Proof.
  intros H1 H2. destruct (decide (sdscmp a b = 0)) as [->%sdscmp_eq|]; [done|].
  destruct (decide (sdscmp b c = 0)) as [<-%sdscmp_eq|]; [lia|].
  pose proof (sdscmp_trans a b c). lia.
Qed.

Lemma sdscmp_trans_lt a b c : sdscmp a b < 0 -> sdscmp b c <= 0 -> sdscmp a c < 0.
Proof.
  intros H1 H2. destruct (decide (sdscmp b c = 0)) as [<-%sdscmp_eq|]; [done|].
  apply (sdscmp_trans a b c); lia.
Qed.

#[export] Instance sdscmplex_total : TotalCmp (fun _ => True) sdscmplex.
Proof.
  split.
  - intros [| |a] [| |b] _ _; simpl; try done. apply sdscmp_opp.
  - intros [| |a] [| |b] [| |c] _ _ _; simpl; try lia. apply sdscmp_trans_le.
  - intros [| |a] [| |b] [| |c] _ _ _; simpl; try lia. apply sdscmp_trans_lt.
Qed.

(** The tests of [t_zset.c] in terms of the comparisons. *)
Lemma score_tests v lo hi loex hiex :
  isnan v = false -> isnan lo = false -> isnan hi = false ->
  let range := {| r_min := lo; r_max := hi; r_minex := loex; r_maxex := hiex |} in
  zslValueGteMin v range = gte_by scmp lo loex v /\ zslValueLteMax v range = lte_by scmp hi hiex v.
Proof.
  intros Hv Hlo Hhi. unfold zslValueGteMin, zslValueLteMax, gte_by, lte_by. simpl. split.
  - pose proof (dlt_spec lo v Hlo Hv) as H1. pose proof (dle_spec lo v Hlo Hv) as H2.
    destruct (scmp_case v lo Hv Hlo) as [[H3 ->]|[[H3 ->]|[H3 ->]]], loex; simpl;
      apply eq_true_iff_eq; rewrite ?H1, ?H2, ?H3; try done;
      destruct (dkey v) as [[??]?], (dkey lo) as [[??]?]; simplify_eq; simpl in *; split; lia || done.
  - pose proof (dlt_spec v hi Hv Hhi) as H1. pose proof (dle_spec v hi Hv Hhi) as H2.
    destruct (scmp_case v hi Hv Hhi) as [[H3 ->]|[[H3 ->]|[H3 ->]]], hiex; simpl;
      apply eq_true_iff_eq; rewrite ?H1, ?H2, ?H3; try done;
      destruct (dkey v) as [[??]?], (dkey hi) as [[??]?]; simplify_eq; simpl in *; split; lia || done.
Qed.

Lemma score_empty_by range :
  isnan (r_min range) = false -> isnan (r_max range) = false ->
  score_empty range = empty_by scmp (r_min range) (r_max range) (r_minex range) (r_maxex range).
Proof.
  intros Hlo Hhi. unfold score_empty, empty_by.
  pose proof (dlt_spec _ _ Hhi Hlo) as H1. pose proof (deq_spec _ _ Hlo Hhi) as H2.
  destruct (scmp_case _ _ Hlo Hhi) as [[H3 ->]|[[H3 ->]|[H3 ->]]]; simpl.
  - destruct (dlt _ _); [|destruct (deq _ _); [|done]]; exfalso.
    + apply (klt_irrefl (dkey (r_max range))). eapply klt_trans; [by apply H1|done].
    + rewrite (proj1 H2 eq_refl) in H3. by apply klt_irrefl in H3.
  - rewrite (proj2 H2 H3). destruct (dlt _ _); [|done]. exfalso. rewrite H3 in H1.
    by apply (klt_irrefl (dkey (r_max range))), H1.
  - by rewrite (proj2 H1 H3).
Qed.

(** ** Members and nodes *)

Lemma members_split L A B t :
  mem <$> L = A ++ t :: B -> exists LA x LB, L = LA ++ x :: LB /\ mem <$> LA = A /\ mem x = t /\ mem <$> LB = B.
Proof.
  intros E. apply fmap_app_inv in E as (LA & L2 & -> & E & ->).
  symmetry in E. apply fmap_cons_inv in E as (x & LB & -> & -> & ->). by exists LA, x, LB.
Qed.

Lemma zlen_members L ms : mem <$> L = ms -> zlen ms = zlen L.
Proof. intros <-. by autorewrite with zlen. Qed.

Lemma members_Forall (P : member -> Prop) L ms :
  mem <$> L = ms -> Forall P ms <-> Forall (fun x => P (mem x)) L.
Proof. intros <-. apply Forall_fmap. Qed.

Lemma view_node h z L x :
  ZRepr h z L -> x ∈ L -> node_member h (s_id x) = Some (mem x).
Proof.
  intros HR Hx. destruct (zr_heap _ _ _ HR) as (E & HH & _). apply list_elem_of_lookup in Hx as [p Hp].
  unfold node_member. by rewrite (node_lookup _ _ _ _ HH (S p) x Hp).
Qed.

Lemma filter_members (P : member -> bool) (L : list snode) :
  filter (fun m => P m = true) (mem <$> L) = mem <$> filter (fun x => P (mem x) = true) L.
Proof.
  induction L as [|x L IH]; [done|]. rewrite fmap_cons, !filter_cons, IH. by case_decide.
Qed.

Lemma nth_elem_fmap {X Y} (f : X -> Y) (M : list X) n : nth_elem (f <$> M) n = f <$> nth_elem M n.
Proof. unfold nth_elem. rewrite zlen_fmap. repeat case_match; by rewrite ?list_lookup_fmap. Qed.

Lemma nth_elem_in {X} (M : list X) n x : nth_elem M n = Some x -> x ∈ M.
Proof. unfold nth_elem. repeat case_match; intros Hx; [by eapply list_elem_of_lookup_2..|done]. Qed.

(** Members in a range. *)
Definition in_score (range : zrangespec) (m : member) : bool :=
  zslValueGteMin m.1 range && zslValueLteMax m.1 range.
Definition in_lex (range : zlexrangespec) (m : member) : bool :=
  zslLexValueGteMin m.2 range && zslLexValueLteMax m.2 range.

Section Claims.
Context `{NodeAllocator}.

Lemma zsl_insert_view h z ms rs score ele lvl :
  ZView h z ms -> zlen ms < 2 ^ 62 -> isnan score = false ->
  Forall (fun m => ~ same_key m (score, ele)) ms -> zslRandomLevel rs = Some lvl ->
  exists h' z' id A B, zslInsert h z rs score ele = Some (h', z', id) /\
    ms = A ++ B /\ ZView h' z' (A ++ (score, ele) :: B) /\ node_member h' id = Some (score, ele) /\
    zsl_length z' = zlen ms + 1.
Proof.
  intros (L & HR & E) Hlen Hs Habs Hl. rewrite (zlen_members L ms E) in *.
  rewrite (members_Forall _ _ _ E) in Habs.
  destruct (split_absent L (score, ele) (zr_sorted _ _ _ HR) Habs) as (A & D & -> & HA & HD).
  destruct (zslInsert_spec h z A D rs score ele lvl HR Hlen Hs HA HD Hl) as (h' & z' & id & -> & _ & _ & _ & HR').
  exists h', z', id, (mem <$> A), (mem <$> D). split_and!; [done|by rewrite <- fmap_app| | |].
  - eexists. split; [exact HR'|]. by rewrite fmap_app, fmap_cons.
  - apply (view_node h' z' _ (new_node id score ele lvl) HR'). set_solver.
  - rewrite (zr_len _ _ _ HR'). autorewrite with zlen. lia.
Qed.

(** zslInsert of a member that is not in the list puts it at its place in the order of scores
    and names, whatever level is drawn, and leaves all level links, spans, backward pointers,
    the tail and the length right; no access is to a NULL or freed node or past a level array. *)
Theorem zslInsert_correct h z ms rs score ele lvl :
  ZView h z ms -> zlen ms < 2 ^ 62 -> isnan score = false ->
  Forall (fun m => ~ same_key m (score, ele)) ms -> zslRandomLevel rs = Some lvl ->
  exists h' z' id A B, zslInsert h z rs score ele = Some (h', z', id) /\
    ms = A ++ B /\ ZView h' z' (A ++ (score, ele) :: B) /\ node_member h' id = Some (score, ele) /\
    zsl_length z' = zlen ms + 1.
Proof. apply zsl_insert_view. Qed.

(** zslDelete removes the member with the given score and name and frees its node, or changes
    nothing and answers 0 when there is none; the list stays well formed. *)
Theorem zslDelete_correct h z ms score ele :
  ZView h z ms -> zlen ms < 2 ^ 62 -> isnan score = false ->
  exists h' z' found, zslDelete h z score ele = Some (h', z', found) /\
    if found : bool
    then exists A m B, ms = A ++ m :: B /\ same_key m (score, ele) /\ ZView h' z' (A ++ B) /\
           zsl_length z' = zlen ms - 1
    else h' = h /\ z' = z /\ Forall (fun m => ~ same_key m (score, ele)) ms.
Proof.
  intros (L & HR & E) Hlen Hs. rewrite (zlen_members L ms E) in *.
  destruct (zslDelete_spec h z L score ele HR Hlen Hs) as [(A & x & D & h' & z' & -> & Hk & -> & _ & HR')|[Habs ->]].
  - exists h', z', true. split; [done|]. rewrite fmap_app, fmap_cons in E.
    exists (mem <$> A), (mem x), (mem <$> D). split_and!; [done|done| |].
    + exists (A ++ D). by rewrite fmap_app.
    + rewrite (zr_len _ _ _ HR'). autorewrite with zlen. lia.
  - exists h, z, false. split_and!; [done..|]. by rewrite (members_Forall _ _ _ E).
Qed.

(** zslUpdateScore moves the member to the place of its new score, in place when its neighbours
    allow it and by deletion and insertion otherwise, and returns the node that holds it. *)
Theorem zslUpdateScore_correct h z A m B rs curscore ele newscore lvl :
  ZView h z (A ++ m :: B) -> zlen (A ++ m :: B) < 2 ^ 62 ->
  isnan curscore = false -> isnan newscore = false -> same_key m (curscore, ele) ->
  Forall (fun m => ~ same_key m (newscore, ele)) (A ++ B) -> zslRandomLevel rs = Some lvl ->
  exists h' z' id A' B', zslUpdateScore h z rs curscore ele newscore = Some (h', z', id) /\
    A ++ B = A' ++ B' /\ ZView h' z' (A' ++ (newscore, ele) :: B') /\
    node_member h' id = Some (newscore, ele).
Proof.
  intros (L & HR & E) Hlen Hc Hn Hk Habs Hl. rewrite (zlen_members L _ E) in *.
  destruct (members_split _ _ _ _ E) as (LA & x & LB & -> & <- & <- & <-).
  rewrite <- fmap_app, Forall_fmap in Habs.
  destruct (zslUpdateScore_spec h z LA x LB rs curscore ele newscore lvl HR Hlen Hc Hn Hk Habs Hl)
    as (h' & z' & A' & x' & B' & -> & _ & EL & Hx' & HR').
  exists h', z', (s_id x'), (mem <$> A'), (mem <$> B'). split_and!; [done| | |].
  - by rewrite <- !fmap_app, EL.
  - eexists. split; [exact HR'|]. by rewrite fmap_app, fmap_cons, Hx'.
  - rewrite (view_node h' z' _ x' HR'), Hx'; [done|]. set_solver.
Qed.
End Claims.

(** zslGetRank is one more than the index of the member in the order, and 0 for an absent one;
    zslGetElementByRank returns the node at that index, or NULL past the end. *)
Theorem rank_correct h z ms :
  ZView h z ms -> zlen ms < 2 ^ 62 ->
  (forall i m score ele, ms !! i = Some m -> isnan score = false -> same_key m (score, ele) ->
     zslGetRank h z score ele = Some (Z.of_nat i + 1)) /\
  (forall score ele, isnan score = false -> Forall (fun m => ~ same_key m (score, ele)) ms ->
     zslGetRank h z score ele = Some 0) /\
  (forall rank, 1 <= rank -> exists r, zslGetElementByRank h z rank = Some r /\
     (r ≫= node_member h) = ms !! Z.to_nat (rank - 1)).
Proof.
  intros (L & HR & E) Hlen. rewrite (zlen_members L ms E) in Hlen. split_and!.
  - intros i m score ele Hi Hs Hk. apply list_elem_of_split_length in Hi as (A & B & EA & Hi).
    rewrite EA in E. destruct (members_split _ _ _ _ E) as (LA & x & LB & -> & <- & <- & <-).
    rewrite (zslGetRank_present h z LA LB x score ele HR Hlen Hs Hk). rewrite Hi, length_fmap. done.
  - intros score ele Hs Habs. rewrite (members_Forall _ _ _ E) in Habs. by apply (zslGetRank_absent h z L).
  - intros rank Hr. rewrite (zslGetElementByRank_spec h z L HR Hlen rank Hr). eexists. split; [done|].
    rewrite <- E, list_lookup_fmap. destruct (L !! _) as [x|] eqn:Ex; [|done]. simpl.
    eapply view_node; [exact HR|]. by eapply list_elem_of_lookup_2.
Qed.

(** ** Ranges *)

Lemma filter_ext_in {X} (P Q : X -> bool) (b : bool) (L : list X) :
  (forall x, x ∈ L -> P x = Q x) -> filter (fun x => P x = b) L = filter (fun x => Q x = b) L.
Proof.
  induction L as [|x L IH]; intros HPQ; [done|]. rewrite !filter_cons, IH by (intros y Hy; apply HPQ; by right).
  by rewrite (HPQ x) by (by left).
Qed.

Lemma filter_members_out (P : member -> bool) (L : list snode) :
  filter (fun m => P m = false) (mem <$> L) = mem <$> filter (fun x => P (mem x) = false) L.
Proof. induction L as [|x L IH]; [done|]. rewrite fmap_cons, !filter_cons, IH. by case_decide. Qed.

Lemma nth_view h z L (P : member -> bool) n :
  ZRepr h z L ->
  ((s_id <$> nth_elem (filter (fun x => P (mem x) = true) L) n) ≫= node_member h) =
    nth_elem (filter (fun m => P m = true) (mem <$> L)) n.
Proof.
  intros HR. rewrite filter_members, nth_elem_fmap.
  destruct (nth_elem (filter _ L) n) as [x|] eqn:Ex; [|done]. simpl.
  apply nth_elem_in, list_elem_of_filter in Ex as [_ Hx]. by eapply view_node.
Qed.

(** Names removed by a range deletion. *)
Lemma dict_delete_names {D} `{DictDelete D} (dict : D) (M : list snode) :
  dict_delete_all dict M = foldl (fun d m => dictDelete d m.2) dict (mem <$> M).
Proof. revert dict. induction M as [|x M IH]; intros dict; [done|]. apply IH. Qed.

Section Score.
Context (h : zheap) (z : zskiplist) (L : list snode) (HR : ZRepr h z L) (range : zrangespec).
Context (Hlo : isnan (r_min range) = false) (Hhi : isnan (r_max range) = false).

Lemma score_ord x y : x ∈ L -> y ∈ L -> mlt (mem x) (mem y) -> scmp (s_score x) (s_score y) <= 0.
Proof.
  intros Hx Hy Hlt. pose proof (node_not_nan _ _ _ _ HR Hx) as Nx. pose proof (node_not_nan _ _ _ _ HR Hy) as Ny.
  destruct (scmp_case _ _ Nx Ny) as [[_ ->]|[[_ ->]|[Hgt _]]]; [lia|lia|].
  exfalso. destruct Hlt as [Hl|[He _]]; simpl in *.
  - apply (klt_irrefl (dkey (s_score x))). by eapply klt_trans.
  - rewrite He in Hgt. by apply klt_irrefl in Hgt.
Qed.

Lemma score_test x : x ∈ L ->
  zslValueGteMin (s_score x) range = gte_by scmp (r_min range) (r_minex range) (s_score x) /\
  zslValueLteMax (s_score x) range = lte_by scmp (r_max range) (r_maxex range) (s_score x).
Proof.
  intros Hx. pose proof (node_not_nan _ _ _ _ HR Hx) as Nx. destruct range as [lo hi loex hiex].
  by apply score_tests.
Qed.

Lemma score_in_r x : x ∈ L ->
  gte_by scmp (r_min range) (r_minex range) (s_score x) && lte_by scmp (r_max range) (r_maxex range) (s_score x)
  = in_score range (mem x).
Proof. intros Hx. destruct (score_test x Hx) as [E1 E2]. unfold in_score. simpl. by rewrite E1, E2. Qed.

Lemma score_nodes x nx : x ∈ L -> zn_ele nx = s_ele x -> zn_score nx = s_score x ->
  score_gte range nx = gte_by scmp (r_min range) (r_minex range) (s_score x) /\
  score_lte range nx = lte_by scmp (r_max range) (r_maxex range) (s_score x).
Proof. intros Hx _ Hs. unfold score_gte, score_lte. rewrite Hs. by apply score_test. Qed.

Lemma score_not_nan x : x ∈ L -> isnan (s_score x) = false.
Proof. by apply (node_not_nan h z). Qed.
End Score.

(** zslNthInRange returns the node of the n-th member whose score is in the range, counted from
    either end, by steps or by a jump over spans, or NULL when there are not that many. *)
Theorem zslNthInRange_correct h z ms range n :
  ZView h z ms -> zlen ms < 2 ^ 62 -> isnan (r_min range) = false -> isnan (r_max range) = false ->
  - 2 ^ 63 < n < 2 ^ 63 ->
  exists r, zslNthInRange h z range n = Some r /\
    (r ≫= node_member h) = nth_elem (filter (fun m => in_score range m = true) ms) n.
Proof.
  intros (L & HR & E) Hlen Hlo Hhi Hn. rewrite (zlen_members L ms E) in Hlen. unfold zslNthInRange.
  rewrite (score_empty_by range Hlo Hhi).
  rewrite (nth_in_range_spec (fun d => isnan d = false) scmp) with (L := L) (kv := s_score); try done.
  - eexists. split; [done|]. rewrite <- E, <- (nth_view h z L (in_score range) n HR).
    by rewrite (filter_ext_in _ (fun x => in_score range (mem x))) by (by apply (score_in_r h z L HR range Hlo Hhi)).
  - by apply (score_not_nan h z).
  - by apply (score_ord h z).
  - intros x nx Hx He Hs. by apply (score_nodes h z L HR range Hlo Hhi).
  - intros x nx Hx He Hs. by apply (score_nodes h z L HR range Hlo Hhi).
Qed.

(** zslDeleteRangeByScore removes exactly the members whose score is in the range, deletes
    exactly their names from the dictionary, and returns their number. *)
Theorem zslDeleteRangeByScore_correct {D} `{DictDelete D} h z ms range (dict : D) :
  ZView h z ms -> zlen ms < 2 ^ 62 -> isnan (r_min range) = false -> isnan (r_max range) = false ->
  exists h' z', zslDeleteRangeByScore h z range dict =
      Some (h', z', foldl (fun d m => dictDelete d m.2) dict (filter (fun m => in_score range m = true) ms),
            zlen (filter (fun m => in_score range m = true) ms)) /\
    ZView h' z' (filter (fun m => in_score range m = false) ms).
Proof.
  intros (L & HR & E) Hlen Hlo Hhi. rewrite (zlen_members L ms E) in Hlen. unfold zslDeleteRangeByScore.
  destruct (delete_by_spec dict (fun d => isnan d = false) scmp (r_min range) (r_max range) (r_minex range)
    (r_maxex range) Hlo Hhi h z L HR Hlen s_score (score_not_nan h z L HR) (score_ord h z L HR)
    (score_gte range) (score_lte range)) as (h' & z' & -> & HR').
  - intros x nx Hx He Hs. by apply (score_nodes h z L HR range Hlo Hhi).
  - intros x nx Hx He Hs. by apply (score_nodes h z L HR range Hlo Hhi).
  - exists h', z'.
    rewrite !(filter_ext_in _ (fun x => in_score range (mem x))) in * by (by apply (score_in_r h z L HR range Hlo Hhi)).
    rewrite dict_delete_names, <- filter_members, <- E. split.
    + by rewrite filter_members, zlen_fmap.
    + eexists. split; [exact HR'|]. by rewrite filter_members_out.
Qed.

Section Lex.
Context (h : zheap) (z : zskiplist) (L : list snode) (HR : ZRepr h z L) (range : zlexrangespec).
Context (Hsame : forall a b, a ∈ (mem <$> L) -> b ∈ (mem <$> L) -> deq a.1 b.1 = true).

Definition lex_key (x : snode) : lexbound := LexStr (default [] (s_ele x)).

Lemma lex_ord x y : x ∈ L -> y ∈ L -> mlt (mem x) (mem y) -> sdscmplex (lex_key x) (lex_key y) <= 0.
Proof.
  intros Hx Hy Hlt. pose proof (Hsame (mem x) (mem y) ltac:(set_solver) ltac:(set_solver)) as Heq.
  apply deq_spec in Heq; [|by apply (node_not_nan h z L)..].
  destruct Hlt as [Hl|[_ Hl]]; [|simpl in *; lia]. rewrite Heq in Hl. by apply klt_irrefl in Hl.
Qed.

Lemma lex_in_r x : x ∈ L ->
  gte_by sdscmplex (l_min range) (l_minex range) (lex_key x) &&
  lte_by sdscmplex (l_max range) (l_maxex range) (lex_key x) = in_lex range (mem x).
Proof. done. Qed.

Lemma lex_nodes x nx : x ∈ L -> zn_ele nx = s_ele x -> zn_score nx = s_score x ->
  lex_gte range nx = gte_by sdscmplex (l_min range) (l_minex range) (lex_key x) /\
  lex_lte range nx = lte_by sdscmplex (l_max range) (l_maxex range) (lex_key x).
Proof. intros _ He _. unfold lex_gte, lex_lte. by rewrite He. Qed.
End Lex.

(** when all scores are equal, zslNthInLexRange and zslDeleteRangeByLex answer and remove
    exactly the members whose name is in the lexicographic range, with open, closed and
    unbounded ends. *)
Theorem lex_range_correct {D} `{DictDelete D} h z ms range (dict : D) n :
  ZView h z ms -> zlen ms < 2 ^ 62 -> (forall a b, a ∈ ms -> b ∈ ms -> deq a.1 b.1 = true) ->
  - 2 ^ 63 < n < 2 ^ 63 ->
  (exists r, zslNthInLexRange h z range n = Some r /\
     (r ≫= node_member h) = nth_elem (filter (fun m => in_lex range m = true) ms) n) /\
  (exists h' z', zslDeleteRangeByLex h z range dict =
      Some (h', z', foldl (fun d m => dictDelete d m.2) dict (filter (fun m => in_lex range m = true) ms),
            zlen (filter (fun m => in_lex range m = true) ms)) /\
    ZView h' z' (filter (fun m => in_lex range m = false) ms)).
Proof.
  intros (L & HR & E) Hlen Hsame Hn. rewrite (zlen_members L ms E) in Hlen. rewrite <- E in Hsame. split.
  - unfold zslNthInLexRange.
    rewrite (nth_in_range_spec (fun _ => True) sdscmplex (l_min range) (l_max range) (l_minex range)
      (l_maxex range) I I h z L HR Hlen lex_key (fun _ _ => I) (lex_ord h z L HR Hsame) (lex_gte range) (lex_lte range)
      (fun x nx Hx He Hs => proj1 (lex_nodes L range x nx Hx He Hs))
      (fun x nx Hx He Hs => proj2 (lex_nodes L range x nx Hx He Hs)) n Hn : zsl_nth_in_range h z (lex_empty range) _ _ n = _).
    eexists. split; [done|]. rewrite <- E, <- (nth_view h z L (in_lex range) n HR).
    by rewrite (filter_ext_in _ (fun x => in_lex range (mem x))) by (apply lex_in_r).
  - unfold zslDeleteRangeByLex.
    destruct (delete_by_spec dict (fun _ => True) sdscmplex (l_min range) (l_max range) (l_minex range)
      (l_maxex range) I I h z L HR Hlen lex_key (fun _ _ => I) (lex_ord h z L HR Hsame)
      (lex_gte range) (lex_lte range)
      (fun x nx Hx He Hs => proj1 (lex_nodes L range x nx Hx He Hs))
      (fun x nx Hx He Hs => proj2 (lex_nodes L range x nx Hx He Hs))) as (h' & z' & -> & HR').
    exists h', z'. rewrite !(filter_ext_in _ (fun x => in_lex range (mem x))) in * by (apply lex_in_r).
    rewrite dict_delete_names, <- filter_members, <- E. split.
    + by rewrite filter_members, zlen_fmap.
    + eexists. split; [exact HR'|]. by rewrite filter_members_out.
Qed.

(** zslDeleteRangeByRank removes the members at the 1-based positions from start to end,
    deletes their names from the dictionary and returns their number. *)
Theorem zslDeleteRangeByRank_correct {D} `{DictDelete D} h z ms start stop (dict : D) :
  ZView h z ms -> zlen ms < 2 ^ 62 -> 1 <= start < 2 ^ 32 -> 0 <= stop < 2 ^ 32 ->
  let k := Z.to_nat (start - 1) in
  let n := Z.to_nat (stop - (start - 1)) in
  exists h' z', zslDeleteRangeByRank h z start stop dict =
      Some (h', z', foldl (fun d m => dictDelete d m.2) dict (take n (drop k ms)), zlen (take n (drop k ms))) /\
    ZView h' z' (take k ms ++ drop (k + n) ms).
Proof.
  intros (L & HR & E) Hlen Hst Hsp k n. rewrite (zlen_members L ms E) in Hlen.
  destruct (delete_by_rank_spec dict h z L start stop HR Hlen Hst Hsp) as (h' & z' & -> & HR').
  exists h', z'. fold k n. rewrite dict_delete_names, <- E, <- fmap_drop, <- fmap_take. split.
  - by rewrite zlen_fmap.
  - eexists. split; [exact HR'|]. rewrite fmap_app, fmap_take. by rewrite fmap_drop.
Qed.

(** What [zslIsInRange] tests: the last member against the minimum and the first against
    the maximum. *)
Lemma is_in_range_view h z ms range :
  ZView h z ms ->
  zslIsInRange h z range =
    Some (match last ms, head ms with
          | Some b, Some a => negb (score_empty range) && zslValueGteMin b.1 range && zslValueLteMax a.1 range
          | _, _ => false
          end).
Proof.
  intros (L & HR & <-). unfold zslIsInRange, zsl_in_range. rewrite (zr_tail _ _ _ HR), fmap_last.
  destruct (score_empty range); [by destruct (last L), (head (mem <$> L))|]. cbn [negb andb].
  destruct L as [|b L' _] eqn:EL using rev_ind; [done|]. rewrite last_snoc. cbn [fmap option_fmap option_map].
  destruct (node_at h z L' [] b HR) as (nb & -> & _ & Hsb & _). cbn [mbind option_bind].
  unfold score_gte. rewrite Hsb.
  destruct (next_spec h z [] (L' ++ [b]) HR) as (lv & E1 & E2). cbn in E1. rewrite E1.
  cbn [mbind option_bind]. rewrite E2.
  destruct (zslValueGteMin (s_score b) range) eqn:Eg; cbn [negb].
  - destruct (L' ++ [b]) as [|a M] eqn:EM; [by destruct L'|]. rewrite fmap_cons. cbn [head fmap option_fmap option_map].
    destruct (node_at h z [] M a) as (na & -> & _ & Hsa & _); [done|]. cbn [mbind option_bind].
    unfold score_lte. rewrite Hsa. simpl. by rewrite Eg.
  - simpl. rewrite Eg. by destruct (head (mem <$> L' ++ [b])).
Qed.

(** ** A concrete list *)

Definition one : double := S754_finite false 4503599627370496 (-52).
Definition two : double := S754_finite false 4503599627370496 (-51).
Definition five : double := S754_finite false 5629499534213120 (-50).

(** Two levels drawn, then one. *)
Definition draw2 : list Z := [5; 2000000000].
Definition draw1 : list Z := [2000000000].

Definition demo_members : list member := [(one, [97]); (two, [98]); (five, [99])].

Lemma demo_view : exists h z, ZView h z demo_members.
Proof.
  destruct (zslCreate_spec ∅) as (h0 & z0 & _ & _ & H0).
  destruct (zslInsert_spec h0 z0 [] [] draw1 one [97] 1 H0) as (h1 & z1 & i1 & _ & _ & _ & _ & H1);
    [done|done|constructor|constructor|done|].
  destruct (zslInsert_spec h1 z1 [_] [] draw2 five [99] 2 H1) as (h2 & z2 & i2 & _ & _ & _ & _ & H2);
    [done|done|repeat constructor; simpl; lia|constructor|done|].
  destruct (zslInsert_spec h2 z2 [_] [_] draw1 two [98] 1 H2) as (h3 & z3 & i3 & _ & _ & _ & _ & H3);
    [done|done|repeat constructor; simpl; lia|repeat constructor; simpl; lia|done|].
  exists h3, z3. eexists. split; [exact H3|done].
Qed.

(** zslIsInRange answers yes on a list and a range that holds none of its members: it compares
    the range with the first and the last score only. *)
Theorem zslIsInRange_no_member : exists h z,
  ZView h z demo_members /\
  zslIsInRange h z {| r_min := two; r_max := five; r_minex := true; r_maxex := true |} = Some true /\
  filter (fun m => in_score {| r_min := two; r_max := five; r_minex := true; r_maxex := true |} m = true)
    demo_members = [].
Proof.
  destruct demo_view as (h & z & Hv). exists h, z. split_and!; [done| |done].
  by rewrite (is_in_range_view h z demo_members _ Hv).
Qed.

Definition three : double := S754_finite false 6755399441055744 (-51).

Definition demo_half_open : zrangespec := {| r_min := one; r_max := five; r_minex := true; r_maxex := false |}.
Definition demo_open : zrangespec := {| r_min := one; r_max := five; r_minex := true; r_maxex := true |}.
Definition demo_upto : zlexrangespec := {| l_min := LexMin; l_max := LexStr [97]; l_minex := true; l_maxex := false |}.

Lemma zslInsert_correct_witness : exists h z h' z' id A B,
  zslInsert h z draw2 three [100] = Some (h', z', id) /\ demo_members = A ++ B /\
  ZView h' z' (A ++ (three, [100]) :: B) /\ node_member h' id = Some (three, [100]) /\ zsl_length z' = 4.
Proof.
  destruct demo_view as (h & z & Hv). exists h, z.
  apply (zslInsert_correct h z demo_members draw2 three [100] 2 Hv); [done|done| |done].
  repeat constructor; intros [? ?]; discriminate.
Defined.

Lemma zslDelete_correct_witness : exists h z h' z' found,
  zslDelete h z two [98] = Some (h', z', found) /\
  if found : bool
  then exists A m B, demo_members = A ++ m :: B /\ same_key m (two, [98]) /\ ZView h' z' (A ++ B) /\
         zsl_length z' = 2
  else h' = h /\ z' = z /\ Forall (fun m => ~ same_key m (two, [98])) demo_members.
Proof.
  destruct demo_view as (h & z & Hv). exists h, z.
  apply (zslDelete_correct h z demo_members two [98] Hv); done.
Defined.

Lemma zslUpdateScore_correct_witness : exists h z h' z' id A' B',
  zslUpdateScore h z draw1 one [97] three = Some (h', z', id) /\
  [(two, [98]); (five, [99])] = A' ++ B' /\ ZView h' z' (A' ++ (three, [97]) :: B') /\
  node_member h' id = Some (three, [97]).
Proof.
  destruct demo_view as (h & z & Hv). exists h, z.
  apply (zslUpdateScore_correct h z [] (one, [97]) [(two, [98]); (five, [99])] draw1 one [97] three 1 Hv);
    try done. repeat constructor; intros [? ?]; discriminate.
Defined.

Lemma rank_correct_witness : exists h z,
  zslGetRank h z two [98] = Some 2 /\ zslGetRank h z two [97] = Some 0 /\
  exists r, zslGetElementByRank h z 3 = Some r /\ (r ≫= node_member h) = Some (five, [99]).
Proof.
  destruct demo_view as (h & z & Hv). exists h, z.
  destruct (rank_correct h z demo_members Hv) as (H1 & H2 & H3); [done|]. split_and!.
  - by apply (H1 1%nat (two, [98])).
  - apply H2; [done|]. repeat constructor; intros [? ?]; discriminate.
  - by apply (H3 3).
Defined.

Lemma zslNthInRange_correct_witness : exists h z r,
  zslNthInRange h z demo_half_open (-1) = Some r /\
  (r ≫= node_member h) = Some (five, [99]).
Proof.
  destruct demo_view as (h & z & Hv). exists h, z.
  apply (zslNthInRange_correct h z demo_members demo_half_open (-1) Hv); done.
Defined.

#[local] Instance demo_dict : DictDelete (list (list Z)) := fun d e => filter (fun x => x <> e) d.

Lemma zslDeleteRangeByScore_correct_witness : exists h z h' z',
  zslDeleteRangeByScore h z demo_open [[97]; [98]; [99]]
    = Some (h', z', [[97]; [99]], 1) /\ ZView h' z' [(one, [97]); (five, [99])].
Proof.
  destruct demo_view as (h & z & Hv). exists h, z.
  destruct (zslDeleteRangeByScore_correct h z demo_members demo_open [[97]; [98]; [99]] Hv) as (h' & z' & E & HV);
    [done..|].
  exists h', z'. split; [exact E|exact HV].
Defined.

Lemma zslDeleteRangeByRank_correct_witness : exists h z h' z',
  zslDeleteRangeByRank h z 2 3 [[97]; [98]; [99]] = Some (h', z', [[97]], 2) /\ ZView h' z' [(one, [97])].
Proof.
  destruct demo_view as (h & z & Hv). exists h, z.
  destruct (zslDeleteRangeByRank_correct h z demo_members 2 3 [[97]; [98]; [99]] Hv) as (h' & z' & E & HV);
    [done..|].
  exists h', z'. split; [exact E|exact HV].
Defined.

Lemma lex_view : exists h z, ZView h z [(one, [97]); (one, [98])].
Proof.
  destruct (zslCreate_spec ∅) as (h0 & z0 & _ & _ & H0).
  destruct (zslInsert_spec h0 z0 [] [] draw1 one [97] 1 H0) as (h1 & z1 & i1 & _ & _ & _ & _ & H1);
    [done|done|constructor|constructor|done|].
  destruct (zslInsert_spec h1 z1 [_] [] draw2 one [98] 2 H1) as (h2 & z2 & i2 & _ & _ & _ & _ & H2);
    [done|done| |constructor|done|].
  { constructor; [|done]. right. done. }
  exists h2, z2. eexists. split; [exact H2|done].
Qed.

Lemma lex_range_correct_witness : exists h z,
  (exists r, zslNthInLexRange h z demo_upto 0
     = Some r /\ (r ≫= node_member h) = Some (one, [97])) /\
  (exists h' z', zslDeleteRangeByLex h z demo_upto
     [[97]; [98]] = Some (h', z', [[98]], 1) /\ ZView h' z' [(one, [98])]).
Proof.
  destruct lex_view as (h & z & Hv). exists h, z.
  destruct (lex_range_correct h z [(one, [97]); (one, [98])] demo_upto [[97]; [98]] 0 Hv)
    as [(r & E1 & E2) (h' & z' & E3 & HV)]; [done| |done|].
  - intros a b Ha Hb. rewrite !elem_of_cons, elem_of_nil in Ha, Hb. naive_solver.
  - split; [exists r; split; [exact E1|exact E2]|exists h', z'; split; [exact E3|exact HV]].
Defined.
