(* ===== verification/Dict.v ===== *)
(** * Hash tables with incremental rehashing ([dict.c])

    Two tables of buckets; a bucket is a chain of entries, whose pointer tag says what it is:
    a key stored directly, an entry without value, or a normal entry.  A NULL table, an index
    outside a table and a failed [assert] are [None].  The callbacks of the dictionary's type
    are the interface [DictType]; the calls that free keys and values or report rehashing
    are recorded as events. *)
From S2P Require Import Prelude.

(** ** The type of a dictionary *)

Class DictType := {
  dkey : Type;
  dval : Type;
  key_eqb : dkey -> dkey -> bool;
  key_odd : dkey -> bool;
  hashFunction : dkey -> Z;
  keyCompare : option (dkey -> dkey -> bool);
  storedHashFunction : option (dkey -> Z);
  storedKeyCompare : option (dkey -> dkey -> bool);
  keyDup : option (dkey -> dkey);
  valDup : option (dval -> dval);
  keyDestructor : bool;
  valDestructor : bool;
  rehashingStarted : bool;
  rehashingCompleted : bool;
  resizeAllowed : option (Z -> Z -> Z -> bool);
  no_value : bool;
  keys_are_odd : bool;
}.

Inductive dictResizeEnable := DICT_RESIZE_ENABLE | DICT_RESIZE_AVOID | DICT_RESIZE_FORBID.

#[export] Instance dictResizeEnable_eq_dec : EqDecision dictResizeEnable.
Proof. solve_decision. Defined.

Definition HASHTABLE_MIN_FILL := 8.
Definition dict_force_resize_ratio := 4.
Definition DICT_HT_INITIAL_EXP := 2.
Definition DICT_HT_INITIAL_SIZE := 4.
Definition LONG_MAX := 9223372036854775807.

Definition DICTHT_SIZE (exp : Z) : Z := if exp =? -1 then 0 else u64 (Z.shiftl 1 exp).
Definition DICTHT_SIZE_MASK (exp : Z) : Z := if exp =? -1 then 0 else DICTHT_SIZE exp - 1.

Definition _dictNextExp (size : Z) : Z :=
  if size <=? DICT_HT_INITIAL_SIZE then DICT_HT_INITIAL_EXP
  else if size >=? LONG_MAX then 63
  else 64 - (63 - Z.log2 (size - 1)).

Section Dict.
Context `{T : DictType}.

(** A tagged pointer to an entry, with what follows it in the bucket.  The value of a new
    normal entry is not set yet. *)
Inductive chain :=
  | Nil
  | Key (k : dkey)
  | NoValue (k : dkey) (next : chain)
  | Normal (k : dkey) (v : option dval) (next : chain).

Inductive event := FreeKey (k : dkey) | FreeVal (v : option dval) | RehashingStarted | RehashingCompleted.

Record htable := { table : option (list chain); used : Z; size_exp : Z }.

Record dict := {
  ht0 : htable;
  ht1 : htable;
  rehashidx : Z;
  pauserehash : Z;
  useStoredKeyApi : bool;
  pauseAutoResize : Z;
  events : list event;
}.

Definition ht (d : dict) (i : bool) : htable := if i then ht1 d else ht0 d.

Definition set_ht (d : dict) (i : bool) (t : htable) : dict :=
  if i then {| ht0 := ht0 d; ht1 := t; rehashidx := rehashidx d; pauserehash := pauserehash d;
               useStoredKeyApi := useStoredKeyApi d; pauseAutoResize := pauseAutoResize d; events := events d |}
  else {| ht0 := t; ht1 := ht1 d; rehashidx := rehashidx d; pauserehash := pauserehash d;
          useStoredKeyApi := useStoredKeyApi d; pauseAutoResize := pauseAutoResize d; events := events d |}.

Definition set_rehashidx (d : dict) (r : Z) : dict :=
  {| ht0 := ht0 d; ht1 := ht1 d; rehashidx := r; pauserehash := pauserehash d;
     useStoredKeyApi := useStoredKeyApi d; pauseAutoResize := pauseAutoResize d; events := events d |}.

Definition set_pauserehash (d : dict) (p : Z) : dict :=
  {| ht0 := ht0 d; ht1 := ht1 d; rehashidx := rehashidx d; pauserehash := p;
     useStoredKeyApi := useStoredKeyApi d; pauseAutoResize := pauseAutoResize d; events := events d |}.

Definition emit (d : dict) (es : list event) : dict :=
  {| ht0 := ht0 d; ht1 := ht1 d; rehashidx := rehashidx d; pauserehash := pauserehash d;
     useStoredKeyApi := useStoredKeyApi d; pauseAutoResize := pauseAutoResize d; events := events d ++ es |}.

Definition set_table (t : htable) (tb : list chain) : htable :=
  {| table := Some tb; used := used t; size_exp := size_exp t |}.
Definition set_used (t : htable) (u : Z) : htable := {| table := table t; used := u; size_exp := size_exp t |}.

(** Reading and writing [ht_table[i][idx]]. *)
Definition get_bucket (d : dict) (i : bool) (idx : Z) : option chain :=
  tb ← table (ht d i); if 0 <=? idx then tb !! Z.to_nat idx else None.

Definition set_bucket (d : dict) (i : bool) (idx : Z) (c : chain) : option dict :=
  _ ← get_bucket d i idx;
  tb ← table (ht d i);
  Some (set_ht d i (set_table (ht d i) (<[Z.to_nat idx := c]> tb))).

Definition dictSize (d : dict) : Z := u64 (used (ht0 d) + used (ht1 d)).
Definition dictIsRehashing (d : dict) : bool := negb (rehashidx d =? -1).
Definition dictPauseRehashing (d : dict) : dict := set_pauserehash d (wrapu 15 (pauserehash d + 1)).
Definition dictResumeRehashing (d : dict) : dict := set_pauserehash d (wrapu 15 (pauserehash d - 1)).

(** ** Entries *)

Definition is_nil (c : chain) : bool := match c with Nil => true | _ => false end.
Definition entryIsKey (de : chain) : bool := match de with Key _ => true | _ => false end.
Definition entryIsNoValue (de : chain) : bool := match de with NoValue _ _ => true | _ => false end.
Definition entryHasValue (de : chain) : bool := match de with Normal _ _ _ => true | _ => false end.

Definition dictGetKey (de : chain) : option dkey :=
  match de with Nil => None | Key k | NoValue k _ | Normal k _ _ => Some k end.
Definition dictGetNext (de : chain) : chain :=
  match de with Nil | Key _ => Nil | NoValue _ nx | Normal _ _ nx => nx end.
Definition dictSetNext (de next : chain) : option chain :=
  match de with
  | Nil | Key _ => None
  | NoValue k _ => Some (NoValue k next)
  | Normal k v _ => Some (Normal k v next)
  end.
Definition dictGetVal (de : chain) : option dval := match de with Normal _ v _ => v | _ => None end.

Definition dictHashKey (key : dkey) (isStoredKey : bool) : Z :=
  match storedHashFunction with
  | Some f => if isStoredKey then f key else hashFunction key
  | None => hashFunction key
  end.

Definition dictDefaultCompare (key1 key2 : dkey) : bool := key_eqb key1 key2.

Definition dictGetKeyCmpFunc (d : dict) : dkey -> dkey -> bool :=
  match storedKeyCompare, keyCompare with
  | Some f, Some g => if useStoredKeyApi d then f else g
  | Some f, None => if useStoredKeyApi d then f else dictDefaultCompare
  | None, Some g => g
  | None, None => dictDefaultCompare
  end.

(** [key == he_key || cmpFunc(d, key, he_key)]. *)
Definition key_match (d : dict) (key he_key : dkey) : bool :=
  key_eqb key he_key || dictGetKeyCmpFunc d key he_key.

(** ** Creation and resizing *)

Definition _dictReset : htable := {| table := None; used := 0; size_exp := -1 |}.

Definition dictCreate : dict :=
  {| ht0 := _dictReset; ht1 := _dictReset; rehashidx := -1; pauserehash := 0;
     useStoredKeyApi := false; pauseAutoResize := 0; events := [] |}.

(** [malloc_failed]: [None] when the pointer is NULL (the allocation then succeeds or the
    process stops), else whether [ztrycalloc] fails.  The result is the dictionary, whether
    the resize was performed, and the final [*malloc_failed]. *)
Definition _dictResize (d : dict) (size : Z) (malloc_failed : option bool) : option (dict * bool * bool) :=
  _ ← assert_true (negb (dictIsRehashing d));
  let new_ht_size_exp := _dictNextExp size in
  let newsize := DICTHT_SIZE new_ht_size_exp in
  if (newsize <? size) || (u64 (newsize * 8) <? newsize) then Some (d, false, false)
  else if new_ht_size_exp =? size_exp (ht0 d) then Some (d, false, false)
  else if default false malloc_failed then Some (d, false, true)
  else
    let new_ht := {| table := Some (replicate (Z.to_nat newsize) Nil); used := 0; size_exp := new_ht_size_exp |} in
    let d := set_rehashidx (set_ht d true new_ht) 0 in
    let d := emit d (if rehashingStarted then [RehashingStarted] else []) in
    if match table (ht0 d) with None => true | Some _ => used (ht0 d) =? 0 end then
      let d := emit d (if rehashingCompleted then [RehashingCompleted] else []) in
      Some (set_rehashidx (set_ht (set_ht d false new_ht) true _dictReset) (-1), true, false)
    else Some (d, true, false).

Definition _dictExpand (d : dict) (size : Z) (malloc_failed : option bool) : option (dict * bool * bool) :=
  if dictIsRehashing d || (used (ht0 d) >? size) || (DICTHT_SIZE (size_exp (ht0 d)) >=? size)
  then Some (d, false, false)
  else _dictResize d size malloc_failed.

Definition dictExpand (d : dict) (size : Z) : option (dict * bool) :=
  '(d, ok, _) ← _dictExpand d size None; Some (d, ok).

Definition dictTryExpand (d : dict) (size : Z) (fails : bool) : option (dict * bool) :=
  '(d, _, malloc_failed) ← _dictExpand d size (Some fails); Some (d, negb malloc_failed).

Definition dictShrink (d : dict) (size : Z) : option (dict * bool) :=
  if dictIsRehashing d || (used (ht0 d) >? size) || (DICTHT_SIZE (size_exp (ht0 d)) <=? size)
  then Some (d, false)
  else '(d, ok, _) ← _dictResize d size None; Some (d, ok).

(** [resizeAllowed] gets the memory needed and the fill ratio, here as the two numbers it
    is the quotient of. *)
Definition dictTypeResizeAllowed (d : dict) (size : Z) : bool :=
  match resizeAllowed with
  | None => true
  | Some f => f (u64 (DICTHT_SIZE (_dictNextExp size) * 8)) (used (ht0 d)) (DICTHT_SIZE (size_exp (ht0 d)))
  end.

(** ** Rehashing *)

(** One turn of the loop: the entry [de] of bucket [idx] goes to its bucket of table 1. *)
Definition move_entry (d : dict) (idx : Z) (de : chain) (key : dkey) : option dict :=
  let h := if size_exp (ht1 d) >? size_exp (ht0 d)
           then Z.land (dictHashKey key true) (DICTHT_SIZE_MASK (size_exp (ht1 d)))
           else Z.land idx (DICTHT_SIZE_MASK (size_exp (ht1 d))) in
  bucket ← get_bucket d true h;
  de ← (if no_value then
          if keys_are_odd && is_nil bucket then _ ← assert_true (key_odd key); Some (Key key)
          else if entryIsKey de then Some (NoValue key bucket)
          else _ ← assert_true (entryIsNoValue de); dictSetNext de bucket
        else dictSetNext de bucket);
  d ← set_bucket d true h de;
  let d := set_ht d false (set_used (ht0 d) (u64 (used (ht0 d) - 1))) in
  Some (set_ht d true (set_used (ht1 d) (u64 (used (ht1 d) + 1)))).

Fixpoint rehash_entries (d : dict) (idx : Z) (de : chain) : option dict :=
  match de with
  | Nil => Some d
  | Key k => move_entry d idx de k
  | NoValue k nextde | Normal k _ nextde => d ← move_entry d idx de k; rehash_entries d idx nextde
  end.

Definition rehashEntriesInBucketAtIndex (d : dict) (idx : Z) : option dict :=
  de ← get_bucket d false idx;
  d ← rehash_entries d idx de;
  set_bucket d false idx Nil.

Definition dictCheckRehashingCompleted (d : dict) : dict * bool :=
  if negb (used (ht0 d) =? 0) then (d, false)
  else
    let d := emit d (if rehashingCompleted then [RehashingCompleted] else []) in
    (set_rehashidx (set_ht (set_ht d false (ht1 d)) true _dictReset) (-1), true).

(** Rehashing is put off while resizing is to be avoided and the tables are close in size. *)
Definition rehash_avoided (resize : dictResizeEnable) (d : dict) : bool :=
  let s0 := DICTHT_SIZE (size_exp (ht0 d)) in
  let s1 := DICTHT_SIZE (size_exp (ht1 d)) in
  bool_decide (resize = DICT_RESIZE_AVOID) &&
  (((s1 >? s0) && (s1 <? u64 (dict_force_resize_ratio * s0))) ||
   ((s1 <? s0) && (s0 <? u64 (HASHTABLE_MIN_FILL * dict_force_resize_ratio * s1)))).

(** The loop over empty buckets: the new index and [empty_visits], and whether the visits
    ran out. *)
Fixpoint skip_empty (fuel : nat) (d : dict) (idx empty_visits : Z) : option (Z * Z * bool) :=
  match fuel with
  | O => None
  | S fuel =>
      c ← get_bucket d false idx;
      if is_nil c then
        if empty_visits - 1 =? 0 then Some (idx + 1, 0, true)
        else skip_empty fuel d (idx + 1) (empty_visits - 1)
      else Some (idx, empty_visits, false)
  end.

Fixpoint rehash_loop (n : nat) (d : dict) (empty_visits : Z) : option (dict * bool) :=
  match n with
  | O => let '(d, completed) := dictCheckRehashingCompleted d in Some (d, negb completed)
  | S n =>
      if used (ht0 d) =? 0 then
        let '(d, completed) := dictCheckRehashingCompleted d in Some (d, negb completed)
      else
        _ ← assert_true (DICTHT_SIZE (size_exp (ht0 d)) >? u64 (rehashidx d));
        tb ← table (ht0 d);
        '(idx, empty_visits, exhausted) ← skip_empty (S (length tb)) d (rehashidx d) empty_visits;
        let d := set_rehashidx d idx in
        if (exhausted : bool) then Some (d, true)
        else
          d ← rehashEntriesInBucketAtIndex d idx;
          rehash_loop n (set_rehashidx d (idx + 1)) empty_visits
  end.

(** The result is whether keys are left to move. *)
Definition dictRehash (resize : dictResizeEnable) (d : dict) (n : nat) : option (dict * bool) :=
  if bool_decide (resize = DICT_RESIZE_FORBID) || negb (dictIsRehashing d) then Some (d, false)
  else if rehash_avoided resize d then Some (d, false)
  else rehash_loop n d (Z.of_nat n * 10).

Definition _dictRehashStep (resize : dictResizeEnable) (d : dict) : option dict :=
  if pauserehash d =? 0 then '(d, _) ← dictRehash resize d 1; Some d else Some d.

Definition _dictBucketRehash (resize : dictResizeEnable) (d : dict) (idx : Z) : option (dict * bool) :=
  if negb (pauserehash d =? 0) then Some (d, false)
  else if bool_decide (resize = DICT_RESIZE_FORBID) || negb (dictIsRehashing d) then Some (d, false)
  else if rehash_avoided resize d then Some (d, false)
  else
    d ← rehashEntriesInBucketAtIndex d idx;
    Some ((dictCheckRehashingCompleted d).1, true).

(** The rehashing work of lookups and updates. *)
Definition rehash_for (resize : dictResizeEnable) (d : dict) (idx : Z) : option dict :=
  if dictIsRehashing d then
    c ← (if s64 idx >=? rehashidx d then get_bucket d false idx else Some Nil);
    if (s64 idx >=? rehashidx d) && negb (is_nil c)
    then '(d, _) ← _dictBucketRehash resize d idx; Some d
    else _dictRehashStep resize d
  else Some d.
End Dict.
