(* ===== verification/DictOps.v ===== *)
(** * Hash tables: lookup, insertion, deletion, scanning ([dict.c]) *)
From S2P Require Import Prelude Dict.

Section Ops.
Context `{T : DictType} (resize : dictResizeEnable).

(** ** Automatic resizing *)

(** The boolean is [DICT_OK]. *)
Definition dictExpandIfNeeded (d : dict) : option (dict * bool) :=
  if dictIsRehashing d then Some (d, true)
  else if DICTHT_SIZE (size_exp (ht0 d)) =? 0 then
    '(d, _) ← dictExpand d DICT_HT_INITIAL_SIZE; Some (d, true)
  else if (bool_decide (resize = DICT_RESIZE_ENABLE) &&
           (used (ht0 d) >=? DICTHT_SIZE (size_exp (ht0 d)))) ||
          (bool_decide (resize <> DICT_RESIZE_FORBID) &&
           (used (ht0 d) >=? u64 (dict_force_resize_ratio * DICTHT_SIZE (size_exp (ht0 d))))) then
    if dictTypeResizeAllowed d (u64 (used (ht0 d) + 1))
    then '(d, _) ← dictExpand d (u64 (used (ht0 d) + 1)); Some (d, true)
    else Some (d, true)
  else Some (d, false).

Definition _dictExpandIfNeeded (d : dict) : option dict :=
  if pauseAutoResize d >? 0 then Some d else '(d, _) ← dictExpandIfNeeded d; Some d.

Definition dictShrinkIfNeeded (d : dict) : option (dict * bool) :=
  if dictIsRehashing d then Some (d, true)
  else if DICTHT_SIZE (size_exp (ht0 d)) <=? DICT_HT_INITIAL_SIZE then Some (d, true)
  else if (bool_decide (resize = DICT_RESIZE_ENABLE) &&
           (u64 (used (ht0 d) * HASHTABLE_MIN_FILL) <=? DICTHT_SIZE (size_exp (ht0 d)))) ||
          (bool_decide (resize <> DICT_RESIZE_FORBID) &&
           (u64 (used (ht0 d) * HASHTABLE_MIN_FILL * dict_force_resize_ratio)
              <=? DICTHT_SIZE (size_exp (ht0 d)))) then
    if dictTypeResizeAllowed d (used (ht0 d))
    then '(d, _) ← dictShrink d (used (ht0 d)); Some (d, true)
    else Some (d, true)
  else Some (d, false).

Definition _dictShrinkIfNeeded (d : dict) : option dict :=
  if pauseAutoResize d >? 0 then Some d else '(d, _) ← dictShrinkIfNeeded d; Some d.

(** ** Lookup *)

(** A pointer to an entry: its table, its bucket and its depth in the chain. *)
Definition eref := (bool * Z * nat)%type.

Fixpoint chain_drop (c : chain) (n : nat) : chain :=
  match n with O => c | S n => chain_drop (dictGetNext c) n end.

(** The entry a pointer designates, with its chain from there on. *)
Definition get_entry (d : dict) (r : eref) : option chain :=
  let '(i, idx, n) := r in
  c ← get_bucket d i idx;
  let de := chain_drop c n in
  if is_nil de then None else Some de.

(** The [while (he)] loop of the lookups. *)
Fixpoint chain_find (d : dict) (key : dkey) (he : chain) (depth : nat) : option nat :=
  match he with
  | Nil => None
  | Key k => if key_match d key k then Some depth else None
  | NoValue k nx | Normal k _ nx => if key_match d key k then Some depth else chain_find d key nx (S depth)
  end.

(** The loop over the two tables: the entry found, or the index computed last. *)
Definition find_in_tables (d : dict) (key : dkey) (hash idx : Z) : option (eref + Z) :=
  let search (i : bool) :=
    let idx := Z.land hash (DICTHT_SIZE_MASK (size_exp (ht d i))) in
    he ← get_bucket d i idx;
    Some (match chain_find d key he 0 with Some n => inl (i, idx, n) | None => inr idx end) in
  if s64 idx <? rehashidx d then search true
  else
    r ← search false;
    match r with
    | inl r => Some (inl r)
    | inr idx => if dictIsRehashing d then search true else Some (inr idx)
    end.

Definition dictFind (d : dict) (key : dkey) : option (dict * option eref) :=
  if dictSize d =? 0 then Some (d, None)
  else
    let h := dictHashKey key (useStoredKeyApi d) in
    let idx := Z.land h (DICTHT_SIZE_MASK (size_exp (ht0 d))) in
    d ← rehash_for resize d idx;
    r ← find_in_tables d key h idx;
    Some (d, match r with inl r => Some r | inr _ => None end).

Definition dictFetchValue (d : dict) (key : dkey) : option (dict * option dval) :=
  '(d, he) ← dictFind d key;
  match he with
  | None => Some (d, None)
  | Some r => de ← get_entry d r; _ ← assert_true (entryHasValue de); Some (d, dictGetVal de)
  end.

(** ** Insertion *)

(** The bucket for a new key, or the entry that has the key already. *)
Definition dictFindPositionForInsert (d : dict) (key : dkey) : option (dict * (eref + bool * Z)) :=
  let hash := dictHashKey key (useStoredKeyApi d) in
  let idx := Z.land hash (DICTHT_SIZE_MASK (size_exp (ht0 d))) in
  d ← rehash_for resize d idx;
  d ← _dictExpandIfNeeded d;
  r ← find_in_tables d key hash idx;
  match r with
  | inl existing => Some (d, inl existing)
  | inr idx => Some (d, inr (dictIsRehashing d, idx))
  end.

Definition dictInsertAtPosition (d : dict) (key : dkey) (position : bool * Z) : option (dict * eref) :=
  let htidx := dictIsRehashing d in
  let '(i, idx) := position in
  _ ← assert_true (eqb i htidx && (0 <=? idx) && (idx <=? DICTHT_SIZE_MASK (size_exp (ht d htidx))));
  bucket ← get_bucket d htidx idx;
  entry ← (if no_value then
             if keys_are_odd && is_nil bucket then _ ← assert_true (key_odd key); Some (Key key)
             else Some (NoValue key bucket)
           else Some (Normal key None bucket));
  d ← set_bucket d htidx idx entry;
  let d := set_ht d htidx (set_used (ht d htidx) (u64 (used (ht d htidx) + 1))) in
  Some (d, (htidx, idx, 0%nat)).

(** The new entry, or the existing one. *)
Definition dictAddRaw (d : dict) (key : dkey) : option (dict * (eref + eref)) :=
  '(d, position) ← dictFindPositionForInsert d key;
  match position with
  | inl existing => Some (d, inr existing)
  | inr position =>
      let key := match keyDup with Some f => f key | None => key end in
      '(d, entry) ← dictInsertAtPosition d key position;
      Some (d, inl entry)
  end.

(** Replacing the value of the entry at depth [n] of a chain. *)
Fixpoint chain_set_val (c : chain) (n : nat) (v : option dval) : option chain :=
  match c, n with
  | Normal k _ nx, O => Some (Normal k v nx)
  | Normal k w nx, S n => nx ← chain_set_val nx n v; Some (Normal k w nx)
  | NoValue k nx, S n => nx ← chain_set_val nx n v; Some (NoValue k nx)
  | _, _ => None
  end.

Definition dictSetVal (d : dict) (de : eref) (val : dval) : option dict :=
  let '(i, idx, n) := de in
  c ← get_bucket d i idx;
  c ← chain_set_val c n (Some (match valDup with Some f => f val | None => val end));
  set_bucket d i idx c.

(** The boolean is [DICT_OK]. *)
Definition dictAdd (d : dict) (key : dkey) (val : dval) : option (dict * bool) :=
  '(d, r) ← dictAddRaw d key;
  match r with
  | inr _ => Some (d, false)
  | inl entry => if no_value then Some (d, true) else d ← dictSetVal d entry val; Some (d, true)
  end.

(** The boolean is whether the key was added. *)
Definition dictReplace (d : dict) (key : dkey) (val : dval) : option (dict * bool) :=
  '(d, r) ← dictAddRaw d key;
  match r with
  | inl entry => d ← dictSetVal d entry val; Some (d, true)
  | inr existing =>
      de ← get_entry d existing;
      _ ← assert_true (entryHasValue de);
      let oldval := dictGetVal de in
      d ← dictSetVal d existing val;
      Some (emit d (if valDestructor then [FreeVal oldval] else []), false)
  end.

Definition dictAddOrFind (d : dict) (key : dkey) : option (dict * eref) :=
  '(d, r) ← dictAddRaw d key; Some (d, match r with inl e => e | inr e => e end).

(** ** Deletion *)

(** An entry on its own, as a removed entry is seen by the caller. *)
Definition dictFreeUnlinkedEntry (d : dict) (he : option chain) : option dict :=
  match he with
  | None => Some d
  | Some he =>
      k ← dictGetKey he;
      _ ← assert_true (negb valDestructor || entryHasValue he);
      Some (emit d ((if keyDestructor then [FreeKey k] else []) ++
                    (if valDestructor then [FreeVal (dictGetVal he)] else [])))
  end.

(** Unlinking the first entry with the key: the entry, and the chain without it. *)
Fixpoint chain_unlink (d : dict) (key : dkey) (he : chain) : option (chain * chain) :=
  match he with
  | Nil => None
  | Key k => if key_match d key k then Some (he, Nil) else None
  | NoValue k nx =>
      if key_match d key k then Some (he, nx)
      else '(e, nx) ← chain_unlink d key nx; Some (e, NoValue k nx)
  | Normal k v nx =>
      if key_match d key k then Some (he, nx)
      else '(e, nx) ← chain_unlink d key nx; Some (e, Normal k v nx)
  end.

Definition unlink_in_table (d : dict) (i : bool) (key : dkey) (hash : Z) (nofree : bool) :
    option (dict * option chain) :=
  let idx := Z.land hash (DICTHT_SIZE_MASK (size_exp (ht d i))) in
  c ← get_bucket d i idx;
  match chain_unlink d key c with
  | None => Some (d, None)
  | Some (he, c) =>
      d ← set_bucket d i idx c;
      d ← (if nofree then Some d else dictFreeUnlinkedEntry d (Some he));
      let d := set_ht d i (set_used (ht d i) (u64 (used (ht d i) - 1))) in
      d ← _dictShrinkIfNeeded d;
      Some (d, Some he)
  end.

Definition dictGenericDelete (d : dict) (key : dkey) (nofree : bool) : option (dict * option chain) :=
  if dictSize d =? 0 then Some (d, None)
  else
    let h := dictHashKey key (useStoredKeyApi d) in
    let idx := Z.land h (DICTHT_SIZE_MASK (size_exp (ht0 d))) in
    d ← rehash_for resize d idx;
    if s64 idx <? rehashidx d then unlink_in_table d true key h nofree
    else
      '(d, he) ← unlink_in_table d false key h nofree;
      match he with
      | Some he => Some (d, Some he)
      | None => if dictIsRehashing d then unlink_in_table d true key h nofree else Some (d, None)
      end.

(** The boolean is [DICT_OK]. *)
Definition dictDelete (d : dict) (key : dkey) : option (dict * bool) :=
  '(d, he) ← dictGenericDelete d key false; Some (d, bool_decide (is_Some he)).

Definition dictUnlink (d : dict) (key : dkey) : option (dict * option chain) := dictGenericDelete d key true.

(** ** Two-phase deletion *)

Definition dictTwoPhaseUnlinkFind (d : dict) (key : dkey) : option (dict * option eref) :=
  if dictSize d =? 0 then Some (d, None)
  else
    d ← (if dictIsRehashing d then _dictRehashStep resize d else Some d);
    let h := dictHashKey key (useStoredKeyApi d) in
    let idx := Z.land h (DICTHT_SIZE_MASK (size_exp (ht0 d))) in
    r ← find_in_tables d key h idx;
    match r with
    | inl r => Some (dictPauseRehashing d, Some r)
    | inr _ => Some (d, None)
    end.

(** [*plink = dictGetNext(he)]. *)
Fixpoint chain_remove_at (c : chain) (n : nat) : option chain :=
  match c, n with
  | Nil, _ | Key _, S _ => None
  | _, O => Some (dictGetNext c)
  | NoValue k nx, S n => nx ← chain_remove_at nx n; Some (NoValue k nx)
  | Normal k v nx, S n => nx ← chain_remove_at nx n; Some (Normal k v nx)
  end.

Definition dictTwoPhaseUnlinkFree (d : dict) (he : option eref) : option dict :=
  match he with
  | None => Some d
  | Some (i, idx, n) =>
      de ← get_entry d (i, idx, n);
      let d := set_ht d i (set_used (ht d i) (u64 (used (ht d i) - 1))) in
      c ← get_bucket d i idx;
      c ← chain_remove_at c n;
      d ← set_bucket d i idx c;
      d ← dictFreeUnlinkedEntry d (Some de);
      d ← _dictShrinkIfNeeded d;
      Some (dictResumeRehashing d)
  end.
End Ops.

(** ** Hash tables: release and cursor-based scanning ([dict.c]) *)

(** ** Bit reversal *)

Definition ulong_not (v : Z) : Z := Z.lxor v UINT64_MAX.

(** The loop of [rev] for the shifts [s], the bit size halved each time. *)
Fixpoint rev_loop (shifts : list Z) (mask v : Z) : Z :=
  match shifts with
  | [] => v
  | s :: shifts =>
      let mask := Z.lxor mask (u64 (Z.shiftl mask s)) in
      let v := Z.lor (Z.land (Z.shiftr v s) mask) (Z.land (u64 (Z.shiftl v s)) (ulong_not mask)) in
      rev_loop shifts mask v
  end.

Definition rev (v : Z) : Z := rev_loop [32; 16; 8; 4; 2; 1] UINT64_MAX v.

(** [v |= ~m; v = rev(v); v++; v = rev(v);] *)
Definition next_cursor (v m : Z) : Z := rev (u64 (rev (Z.lor v (ulong_not m)) + 1)).

Section Scan.
Context `{T : DictType}.

(** The keys and values of a chain, in order. *)
Fixpoint chain_entries (c : chain) : list (dkey * option dval) :=
  match c with
  | Nil => []
  | Key k => [(k, None)]
  | NoValue k nx => (k, None) :: chain_entries nx
  | Normal k v nx => (k, v) :: chain_entries nx
  end.

(** The entries given to the callback at one bucket. *)
Definition scan_bucket (d : dict) (i : bool) (idx : Z) : option (list (dkey * option dval)) :=
  c ← get_bucket d i idx; Some (chain_entries c).

(** The [do] loop over the expansions of the cursor in the larger table. *)
Fixpoint scan_expansions (fuel : nat) (d : dict) (i : bool) (m0 m1 v : Z) (out : list (dkey * option dval)) :
    option (Z * list (dkey * option dval)) :=
  match fuel with
  | O => None
  | S fuel =>
      es ← scan_bucket d i (Z.land v m1);
      let v := next_cursor v m1 in
      let out := out ++ es in
      if Z.land v (Z.lxor m0 m1) =? 0 then Some (v, out) else scan_expansions fuel d i m0 m1 v out
  end.

(** [dictScan]: the dictionary, the next cursor and the entries emitted.  The callback does
    not change the dictionary. *)
Definition dictScan (d : dict) (v : Z) : option (dict * Z * list (dkey * option dval)) :=
  if dictSize d =? 0 then Some (d, 0, [])
  else
    let d := dictPauseRehashing d in
    '(v, out) ←
      (if negb (dictIsRehashing d) then
         let m0 := DICTHT_SIZE_MASK (size_exp (ht0 d)) in
         es ← scan_bucket d false (Z.land v m0);
         Some (next_cursor v m0, es)
       else
         let swap := DICTHT_SIZE (size_exp (ht0 d)) >? DICTHT_SIZE (size_exp (ht1 d)) in
         let m0 := DICTHT_SIZE_MASK (size_exp (ht d swap)) in
         let m1 := DICTHT_SIZE_MASK (size_exp (ht d (negb swap))) in
         es ← scan_bucket d swap (Z.land v m0);
         tb ← table (ht d (negb swap));
         scan_expansions (S (length tb)) d (negb swap) m0 m1 v es);
    Some (dictResumeRehashing d, v, out).

(** ** Release *)

Definition free_entries (es : list (dkey * option dval)) : list event :=
  es ≫= fun e => (if keyDestructor then [FreeKey e.1] else []) ++ (if valDestructor then [FreeVal e.2] else []).

(** The buckets freed while [used] is positive. *)
Fixpoint clear_buckets (buckets : list chain) (used : Z) : list event * Z :=
  match buckets with
  | [] => ([], used)
  | c :: buckets =>
      if used >? 0 then
        let es := chain_entries c in
        let '(evs, used) := clear_buckets buckets (u64 (used - zlen es)) in
        (free_entries es ++ evs, used)
      else ([], used)
  end.

Definition _dictClear (d : dict) (i : bool) : dict :=
  let '(evs, _) := clear_buckets (default [] (table (ht d i))) (used (ht d i)) in
  set_ht (emit d evs) i _dictReset.

Definition dictEmpty (d : dict) : dict :=
  let d := emit d (if dictIsRehashing d && rehashingCompleted then [RehashingCompleted] else []) in
  let d := _dictClear (_dictClear d false) true in
  {| ht0 := ht0 d; ht1 := ht1 d; rehashidx := -1; pauserehash := 0;
     useStoredKeyApi := useStoredKeyApi d; pauseAutoResize := 0; events := events d |}.
End Scan.
