(* ===== verification/DictFacts.v ===== *)
(** * Hash tables: the invariant, and that rehashing keeps the entries *)
From S2P Require Import Prelude Dict DictOps.

(** ** What a dictionary asks of its type

    Keys are compared by [keq]; equal keys have equal hashes, a duplicated key is equal to
    the original, keys are odd where the type says so, and a type without values has no
    destructor for them. *)
Class DictTypeOk (T : DictType) (stored : bool) := {
  keq : dkey -> dkey -> bool;
  keq_refl k : keq k k = true;
  keq_sym k k' : keq k k' = true -> keq k' k = true;
  keq_trans k k' k'' : keq k k' = true -> keq k' k'' = true -> keq k k'' = true;
  match_ok d k k' : useStoredKeyApi d = stored -> key_match d k k' = keq k k';
  hash_ok k k' : keq k k' = true -> dictHashKey k stored = dictHashKey k' true;
  hash_range k b : 0 <= dictHashKey k b < 2 ^ 64;
  dup_ok k : keq k (match keyDup with Some f => f k | None => k end) = true;
  odd_ok k : keys_are_odd = true -> key_odd k = true;
  no_value_ok : no_value = true -> valDestructor = false;
}.

(** ** Sizes and masks *)

Lemma size_pow e : 0 <= e <= 63 -> DICTHT_SIZE e = 2 ^ e.
Proof.
  intros He. unfold DICTHT_SIZE. destruct (Z.eqb_spec e (-1)); [lia|].
  rewrite Z.shiftl_1_l, wrapu_small; [done|]. split; [apply Z.pow_nonneg; lia|]. apply Z.pow_lt_mono_r; lia.
Qed.

Lemma mask_mod e x : 0 <= e <= 63 -> Z.land x (DICTHT_SIZE_MASK e) = x mod 2 ^ e.
Proof.
  intros He. unfold DICTHT_SIZE_MASK. destruct (Z.eqb_spec e (-1)); [lia|].
  rewrite size_pow by done. rewrite <- Z.land_ones by lia. f_equal. rewrite Z.ones_equiv. lia.
Qed.

Lemma mod_mod_pow x e e' : 0 <= e' <= e -> (x mod 2 ^ e) mod 2 ^ e' = x mod 2 ^ e'.
Proof.
  intros He. replace (2 ^ e) with (2 ^ e' * 2 ^ (e - e')) by (rewrite <- Z.pow_add_r by lia; f_equal; lia).
  rewrite Z.rem_mul_r by (try apply Z.pow_nonzero; try apply Z.pow_pos_nonneg; lia).
  rewrite Z.mul_comm, Z_mod_plus_full. apply Z.mod_mod. apply Z.pow_nonzero; lia.
Qed.

(** The exponent chosen is the least that holds the size. *)
Lemma nextexp_spec size :
  0 <= size < LONG_MAX ->
  2 <= _dictNextExp size <= 63 /\ size <= 2 ^ _dictNextExp size /\
  (2 < _dictNextExp size -> 2 ^ (_dictNextExp size - 1) < size).
Proof.
  unfold LONG_MAX. intros Hs. unfold _dictNextExp, DICT_HT_INITIAL_SIZE, DICT_HT_INITIAL_EXP, LONG_MAX.
  destruct (Z.leb_spec size 4); [change (2 ^ 2) with 4; lia|].
  destruct (Z.geb_spec size 9223372036854775807); [lia|].
  replace (64 - (63 - Z.log2 (size - 1))) with (Z.log2 (size - 1) + 1) by lia.
  pose proof (Z.log2_spec (size - 1) ltac:(lia)) as [H1 H2].
  assert (Z.log2 (size - 1) < 63) by (apply Z.log2_lt_pow2; lia).
  assert (2 <= Z.log2 (size - 1)) by (apply (Z.log2_le_mono 4); lia).
  rewrite Z.add_simpl_r. unfold Z.succ in H2. lia.
Qed.

Section Facts.
Context `{T : DictType} (stored : bool) `{!DictTypeOk T stored}.

Notation entry := (dkey * option dval)%type.

(** ** Entries of chains and tables *)

Definition head_entry (de : chain) : option entry :=
  match de with
  | Nil => None
  | Key k | NoValue k _ => Some (k, None)
  | Normal k v _ => Some (k, v)
  end.

(** The kinds of entries a dictionary of this type uses. *)
Fixpoint chain_ok (c : chain) : Prop :=
  match c with
  | Nil => True
  | Key _ => no_value = true
  | NoValue _ nx => no_value = true /\ chain_ok nx
  | Normal _ _ nx => no_value = false /\ chain_ok nx
  end.

Definition tb_entries (tb : list chain) : list entry := tb ≫= chain_entries.

Lemma tb_entries_app a b : tb_entries (a ++ b) = tb_entries a ++ tb_entries b.
Proof. apply bind_app. Qed.

Lemma tb_entries_split tb i c :
  tb !! i = Some c -> tb_entries tb = tb_entries (take i tb) ++ chain_entries c ++ tb_entries (drop (S i) tb).
Proof.
  intros Hi. rewrite <- (take_drop_middle tb i c Hi) at 1. rewrite tb_entries_app. done.
Qed.

Lemma tb_entries_insert tb i c c' :
  tb !! i = Some c ->
  tb_entries (<[i := c']> tb) = tb_entries (take i tb) ++ chain_entries c' ++ tb_entries (drop (S i) tb).
Proof.
  intros Hi. rewrite (tb_entries_split _ i c') by (apply list_lookup_insert_eq; by eapply lookup_lt_Some).
  rewrite take_insert_ge, drop_insert_lt by lia. done.
Qed.

Lemma tb_entries_nil n : tb_entries (replicate n Nil) = [].
Proof. induction n as [|n IH]; [done|]. exact IH. Qed.

Lemma tb_entries_elem tb e : e ∈ tb_entries tb <-> exists i c, tb !! i = Some c /\ e ∈ chain_entries c.
Proof.
  unfold tb_entries. rewrite list_elem_of_bind. setoid_rewrite list_elem_of_lookup at 2. naive_solver.
Qed.

(** ** A table *)

Record TableOk (t : htable) (tb : list chain) : Prop := {
  to_table : table t = Some tb;
  to_exp : 2 <= size_exp t <= 60;
  to_len : zlen tb = 2 ^ size_exp t;
  to_used : used t = zlen (tb_entries tb);
  to_chains : Forall chain_ok tb;
  to_hash : forall i c e, tb !! i = Some c -> e ∈ chain_entries c ->
    dictHashKey e.1 true mod 2 ^ size_exp t = Z.of_nat i;
}.

(** Replacing a bucket by one with an entry more at its head. *)
Lemma table_push t tb i c c' e :
  TableOk t tb -> tb !! i = Some c -> chain_entries c' = e :: chain_entries c -> chain_ok c' ->
  dictHashKey e.1 true mod 2 ^ size_exp t = Z.of_nat i -> zlen (tb_entries tb) + 1 < 2 ^ 64 ->
  TableOk (set_used (set_table t (<[i := c']> tb)) (u64 (used t + 1))) (<[i := c']> tb) /\
  tb_entries (<[i := c']> tb) ≡ₚ e :: tb_entries tb.
Proof.
  intros [H1 H2 H3 H4 H5 H6] Hi Hc' Hok He Hlt.
  assert (tb_entries (<[i := c']> tb) ≡ₚ e :: tb_entries tb) as Hperm.
  { rewrite (tb_entries_insert tb i c c' Hi), (tb_entries_split tb i c Hi), Hc'. simpl. solve_Permutation. }
  split; [|done]. split; simpl.
  - done.
  - done.
  - unfold zlen. by rewrite length_insert.
  - rewrite H4. unfold zlen in *. rewrite Hperm. simpl. rewrite wrapu_small by lia. lia.
  - by apply Forall_insert.
  - intros j cj ej Hj Hej. apply list_lookup_insert_Some in Hj as [(<- & <- & _)|[_ Hj]].
    + rewrite Hc' in Hej. apply elem_of_cons in Hej as [->|Hej]; [done|by eapply H6].
    + by eapply H6.
Qed.

(** The bucket of a hash. *)
Lemma bucket_of t tb x :
  TableOk t tb -> 0 <= x mod 2 ^ size_exp t /\ exists c, tb !! Z.to_nat (x mod 2 ^ size_exp t) = Some c.
Proof.
  intros Ht. pose proof (Z.mod_pos_bound x (2 ^ size_exp t)) as Hb.
  assert (0 < 2 ^ size_exp t) by (apply Z.pow_pos_nonneg; [lia|pose proof (to_exp _ _ Ht); lia]).
  split; [lia|]. apply lookup_lt_is_Some_2. pose proof (to_len _ _ Ht). unfold zlen in *. lia.
Qed.

Lemma get_bucket_at d i tb x :
  TableOk (ht d i) tb -> 0 <= x -> get_bucket d i x = tb !! Z.to_nat x.
Proof.
  intros Ht Hx. unfold get_bucket. rewrite (to_table _ _ Ht). cbn [mbind option_bind].
  destruct (Z.leb_spec 0 x); [done|lia].
Qed.

Lemma set_bucket_at d i tb x c c' :
  TableOk (ht d i) tb -> 0 <= x -> tb !! Z.to_nat x = Some c ->
  set_bucket d i x c' = Some (set_ht d i (set_table (ht d i) (<[Z.to_nat x := c']> tb))).
Proof.
  intros Ht Hx Hc. unfold set_bucket. rewrite (get_bucket_at d i tb x Ht Hx), Hc, (to_table _ _ Ht). done.
Qed.

(** ** Moving entries *)

(** The fields that the data operations leave alone. *)
Definition same_ctl (d d' : dict) : Prop :=
  rehashidx d' = rehashidx d /\ pauserehash d' = pauserehash d /\
  useStoredKeyApi d' = useStoredKeyApi d /\ pauseAutoResize d' = pauseAutoResize d.

Lemma same_ctl_trans d d' d'' : same_ctl d d' -> same_ctl d' d'' -> same_ctl d d''.
Proof. unfold same_ctl. intuition congruence. Qed.

(** The entry as it is stored at its new place. *)
Lemma move_kind de k bucket :
  chain_ok de -> dictGetKey de = Some k -> chain_ok bucket ->
  exists de', (if no_value then
          if keys_are_odd && is_nil bucket then _ ← assert_true (key_odd k); Some (Key k)
          else if entryIsKey de then Some (NoValue k bucket)
          else _ ← assert_true (entryIsNoValue de); dictSetNext de bucket
        else dictSetNext de bucket) = Some de' /\ chain_ok de' /\
    chain_entries de' = default (k, None) (head_entry de) :: chain_entries bucket.
Proof.
  intros Hde Hk Hb. destruct no_value eqn:Env.
  - destruct (keys_are_odd && is_nil bucket) eqn:E1.
    + apply andb_true_iff in E1 as [Hodd Hnil]. rewrite (odd_ok k Hodd). exists (Key k).
      destruct bucket; try done. split_and!; [done|done|].
      destruct de; simplify_eq/=; try done. destruct Hde. congruence.
    + destruct de as [|k'|k' nx|k' v nx]; simplify_eq/=.
      * by exists (NoValue k bucket).
      * by exists (NoValue k bucket).
      * destruct Hde. congruence.
  - destruct de as [|k'|k' nx|k' v nx]; simplify_eq/=; [congruence|destruct Hde; congruence|].
    by exists (Normal k v bucket).
Qed.

Section Move.
Context (d : dict) (idx : Z) (tb1 : list chain).
Context (H1 : TableOk (ht1 d) tb1) (Hidx : 0 <= idx).
Context (Hlt : zlen (tb_entries tb1) + 1 < 2 ^ 64).

Lemma move_entry_spec de k :
  chain_ok de -> dictGetKey de = Some k ->
  dictHashKey k true mod 2 ^ size_exp (ht0 d) = idx ->
  exists d' tb1', move_entry d idx de k = Some d' /\
    ht0 d' = set_used (ht0 d) (u64 (used (ht0 d) - 1)) /\ TableOk (ht1 d') tb1' /\
    size_exp (ht1 d') = size_exp (ht1 d) /\
    tb_entries tb1' ≡ₚ default (k, None) (head_entry de) :: tb_entries tb1 /\ same_ctl d d'.
Proof.
  intros Hde Hk Hhash. unfold move_entry. pose proof (to_exp _ _ H1) as He1.
  assert ((if size_exp (ht1 d) >? size_exp (ht0 d)
           then Z.land (dictHashKey k true) (DICTHT_SIZE_MASK (size_exp (ht1 d)))
           else Z.land idx (DICTHT_SIZE_MASK (size_exp (ht1 d)))) =
          dictHashKey k true mod 2 ^ size_exp (ht1 d)) as ->.
  { rewrite !mask_mod by lia. destruct (Z.gtb_spec (size_exp (ht1 d)) (size_exp (ht0 d))); [done|].
    rewrite <- Hhash. apply mod_mod_pow. lia. }
  destruct (bucket_of (ht1 d) tb1 (dictHashKey k true) H1) as [Hpos [bucket Hb]].
  set (x := dictHashKey k true mod 2 ^ size_exp (ht1 d)) in *.
  rewrite (get_bucket_at d true tb1 x H1 Hpos), Hb. cbn [mbind option_bind].
  assert (chain_ok bucket) as Hbok by (by eapply Forall_lookup_1; [apply H1|]).
  destruct (move_kind de k bucket Hde Hk Hbok) as (de' & -> & Hok' & Hent). cbn [mbind option_bind].
  rewrite (set_bucket_at d true tb1 x bucket de' H1 Hpos Hb). cbn [mbind option_bind].
  destruct (table_push (ht1 d) tb1 (Z.to_nat x) bucket de' _ H1 Hb Hent Hok') as [HT HP]; [|done|].
  { destruct de; simplify_eq/=; rewrite Z2Nat.id; done. }
  eexists _, _. split_and!; [done|done|exact HT|done|exact HP|done].
Qed.
End Move.

Lemma set_used_same t : set_used t (used t) = t.
Proof. by destruct t. Qed.

(** A chain as its first entry and the rest. *)
Lemma chain_case de :
  de = Nil \/ exists k, dictGetKey de = Some k /\ de <> Nil /\
    chain_entries de = default (k, None) (head_entry de) :: chain_entries (dictGetNext de) /\
    (default (k, None) (head_entry de)).1 = k /\
    (chain_ok de -> chain_ok (dictGetNext de)) /\
    (forall d idx, rehash_entries d idx de = d' ← move_entry d idx de k; rehash_entries d' idx (dictGetNext de)).
Proof.
  destruct de as [|k|k nx|k v nx]; [by left|right; exists k; split_and!; try done..].
  - intros d idx. cbn [rehash_entries dictGetNext]. by destruct (move_entry d idx (Key k) k).
  - intros [_ Hok]. exact Hok.
  - intros [_ Hok]. exact Hok.
Qed.

Lemma rehash_entries_spec idx n : forall de d tb1,
  (length (chain_entries de) <= n)%nat ->
  TableOk (ht1 d) tb1 -> 0 <= idx -> 2 <= size_exp (ht0 d) <= 60 -> chain_ok de ->
  (forall e, e ∈ chain_entries de -> dictHashKey e.1 true mod 2 ^ size_exp (ht0 d) = idx) ->
  zlen (chain_entries de) <= used (ht0 d) < 2 ^ 64 ->
  zlen (tb_entries tb1) + zlen (chain_entries de) < 2 ^ 64 ->
  exists d' tb1', rehash_entries d idx de = Some d' /\
    ht0 d' = set_used (ht0 d) (used (ht0 d) - zlen (chain_entries de)) /\ TableOk (ht1 d') tb1' /\
    size_exp (ht1 d') = size_exp (ht1 d) /\
    tb_entries tb1' ≡ₚ chain_entries de ++ tb_entries tb1 /\ same_ctl d d'.
Proof.
  induction n as [|n IH]; intros de d tb1 Hn HT Hi He Hok Hh Hu Hl;
    destruct (chain_case de) as [->|(k & Hk & _ & Hce & Hfst & Hnx & Hre)].
  1,3: exists d, tb1; change (zlen (chain_entries Nil)) with 0; rewrite Z.sub_0_r, set_used_same; done.
  { rewrite Hce in Hn. simpl in Hn. lia. }
  rewrite Hre. rewrite Hce in *. rewrite zlen_cons in *. simpl in Hn.
  pose proof (zlen_nonneg (chain_entries (dictGetNext de))) as Hpos.
  destruct (move_entry_spec d idx tb1 HT Hi ltac:(lia) de k Hok Hk) as (d1 & tb2 & -> & E0 & HT' & Ee & HP & Hc).
  { specialize (Hh _ (list_elem_of_here _ _)). by rewrite Hfst in Hh. }
  rewrite wrapu_small in E0 by lia. cbn [mbind option_bind].
  destruct (IH (dictGetNext de) d1 tb2) as (d' & tb1' & -> & E0' & HT2 & Ee' & HP' & Hc');
    [lia|done|done|by rewrite E0|by apply Hnx| | | |].
  - intros e Hin. rewrite E0. apply (Hh e). by right.
  - rewrite E0. simpl. lia.
  - unfold zlen in *. rewrite HP. simpl. lia.
  - exists d', tb1'. split; [done|]. split; [|split; [done|split; [congruence|split; [|by eapply same_ctl_trans]]]].
    + rewrite E0', E0. unfold set_used. simpl. f_equal. lia.
    + rewrite HP', HP. simpl. solve_Permutation.
Qed.

Lemma table_clear_bucket t tb i c :
  TableOk t tb -> tb !! i = Some c ->
  TableOk (set_used (set_table t (<[i := Nil]> tb)) (used t - zlen (chain_entries c))) (<[i := Nil]> tb) /\
  tb_entries tb ≡ₚ chain_entries c ++ tb_entries (<[i := Nil]> tb).
Proof.
  intros [H1 H2 H3 H4 H5 H6] Hi.
  assert (tb_entries tb ≡ₚ chain_entries c ++ tb_entries (<[i := Nil]> tb)) as HP.
  { rewrite (tb_entries_insert tb i c Nil Hi), (tb_entries_split tb i c Hi). simpl. solve_Permutation. }
  split; [|done]. split; simpl.
  - done.
  - done.
  - unfold zlen. by rewrite length_insert.
  - rewrite H4. unfold zlen. rewrite HP, length_app. lia.
  - by apply Forall_insert.
  - intros j cj ej Hj Hej. apply list_lookup_insert_Some in Hj as [(<- & <- & _)|[_ Hj]].
    + by apply not_elem_of_nil in Hej.
    + by eapply H6.
Qed.

Lemma zlen_tb_lookup tb i c : tb !! i = Some c -> zlen (chain_entries c) <= zlen (tb_entries tb).
Proof. intros Hi. rewrite (tb_entries_split tb i c Hi), !zlen_app. zlen_saturate. lia. Qed.

(** Moving a whole bucket. *)
Lemma rehash_bucket_spec d idx tb0 tb1 c :
  TableOk (ht0 d) tb0 -> TableOk (ht1 d) tb1 -> 0 <= idx -> tb0 !! Z.to_nat idx = Some c ->
  zlen (tb_entries tb0 ++ tb_entries tb1) < 2 ^ 63 ->
  exists d' tb1', rehashEntriesInBucketAtIndex d idx = Some d' /\
    TableOk (ht0 d') (<[Z.to_nat idx := Nil]> tb0) /\ TableOk (ht1 d') tb1' /\
    size_exp (ht0 d') = size_exp (ht0 d) /\ size_exp (ht1 d') = size_exp (ht1 d) /\
    tb_entries (<[Z.to_nat idx := Nil]> tb0) ++ tb_entries tb1' ≡ₚ tb_entries tb0 ++ tb_entries tb1 /\
    same_ctl d d'.
Proof.
  intros HT0 HT1 Hi Hc Hlen. rewrite zlen_app in Hlen.
  pose proof (zlen_tb_lookup tb0 _ c Hc) as Hle. pose proof (zlen_nonneg (tb_entries tb1)).
  pose proof (zlen_nonneg (chain_entries c)). pose proof (to_used _ _ HT0) as Hu.
  unfold rehashEntriesInBucketAtIndex. rewrite (get_bucket_at d false tb0 idx HT0 Hi), Hc. cbn [mbind option_bind].
  destruct (rehash_entries_spec idx (length (chain_entries c)) c d tb1) as (d1 & tb2 & -> & E0 & HT' & Ee & HP & Hctl);
    [done|done|done|apply HT0| | |lia|lia|].
  { by eapply Forall_lookup_1; [apply HT0|]. }
  { intros e Hin. rewrite (to_hash _ _ HT0 _ c e Hc Hin). by apply Z2Nat.id. }
  cbn [mbind option_bind]. destruct (table_clear_bucket (ht0 d) tb0 _ c HT0 Hc) as [HT2 HP2].
  assert (set_bucket d1 false idx Nil =
    Some (set_ht d1 false (set_used (set_table (ht0 d) (<[Z.to_nat idx := Nil]> tb0))
                             (used (ht0 d) - zlen (chain_entries c))))) as ->.
  { unfold set_bucket, get_bucket. simpl. rewrite E0. simpl. rewrite (to_table _ _ HT0). simpl.
    destruct (Z.leb_spec 0 idx); [|lia]. rewrite Hc. done. }
  eexists _, tb2. split; [done|]. split; [exact HT2|]. split; [done|]. split; [done|]. split; [done|].
  split; [|done]. rewrite HP, HP2. simpl. solve_Permutation.
Qed.
End Facts.
