(* ===== verification/DictRehash.v ===== *)
(** * Hash tables: the invariant of a dictionary, kept by rehashing and resizing *)
From S2P Require Import Prelude Dict DictOps DictFacts.

Section Rehash.
Context `{T : DictType} (stored : bool) `{!DictTypeOk T stored}.

Notation entry := (dkey * option dval)%type.

(** The three shapes of a dictionary: no table yet, one table, or a rehash in progress, in
    which the buckets of table 0 before [rehashidx] are empty. *)
Inductive DictOk (d : dict) (es : list entry) : Prop :=
  | Ok_empty :
      ht0 d = _dictReset -> ht1 d = _dictReset -> rehashidx d = -1 -> es = [] -> DictOk d es
  | Ok_single tb0 :
      TableOk (ht0 d) tb0 -> ht1 d = _dictReset -> rehashidx d = -1 -> es ≡ₚ tb_entries tb0 -> DictOk d es
  | Ok_double tb0 tb1 :
      TableOk (ht0 d) tb0 -> TableOk (ht1 d) tb1 -> 0 <= rehashidx d <= zlen tb0 ->
      (forall i c, Z.of_nat i < rehashidx d -> tb0 !! i = Some c -> c = Nil) ->
      es ≡ₚ tb_entries tb0 ++ tb_entries tb1 -> DictOk d es.

(** The control fields other than the rehashing index. *)
Definition same_flags (d d' : dict) : Prop :=
  pauserehash d' = pauserehash d /\ useStoredKeyApi d' = useStoredKeyApi d /\
  pauseAutoResize d' = pauseAutoResize d.

Lemma same_flags_refl d : same_flags d d.
Proof. done. Qed.

Lemma same_flags_trans d d' d'' : same_flags d d' -> same_flags d' d'' -> same_flags d d''.
Proof. unfold same_flags. intuition congruence. Qed.

Lemma same_ctl_flags d d' : same_ctl d d' -> same_flags d d'.
Proof. unfold same_ctl, same_flags. tauto. Qed.

Lemma not_rehashing d : rehashidx d = -1 -> dictIsRehashing d = false.
Proof. intros E. unfold dictIsRehashing. by rewrite E. Qed.

Lemma is_rehashing d : 0 <= rehashidx d -> dictIsRehashing d = true.
Proof. intros E. unfold dictIsRehashing. destruct (Z.eqb_spec (rehashidx d) (-1)); [lia|done]. Qed.

Lemma check_completed_spec d tb0 tb1 es :
  TableOk (ht0 d) tb0 -> TableOk (ht1 d) tb1 -> 0 <= rehashidx d <= zlen tb0 ->
  (forall i c, Z.of_nat i < rehashidx d -> tb0 !! i = Some c -> c = Nil) ->
  es ≡ₚ tb_entries tb0 ++ tb_entries tb1 ->
  exists d' done, dictCheckRehashingCompleted d = (d', done) /\ DictOk d' es /\ same_flags d d' /\
    dictIsRehashing d' = negb done /\ (done = false -> d' = d) /\ is_Some (table (ht0 d')).
Proof.
  intros H0 H1 Hr Hb HP. unfold dictCheckRehashingCompleted.
  destruct (Z.eqb_spec (used (ht0 d)) 0) as [Hu|Hu]; cbn [negb].
  - eexists _, true. split; [done|]. split_and!; [|done..|simpl; by rewrite (to_table _ _ H1)].
    eapply (Ok_single _ _ tb1); [exact H1|done|done|].
    rewrite (to_used _ _ H0) in Hu.
    assert (tb_entries tb0 = []) as E by (apply nil_length_inv; unfold zlen in Hu; lia).
    by rewrite E in HP.
  - exists d, false. split; [done|]. split_and!; [|done| |done|].
    + by eapply (Ok_double _ _ tb0 tb1).
    + apply is_rehashing. lia.
    + by rewrite (to_table _ _ H0).
Qed.

(** A table that is not empty has a non-empty bucket. *)
Lemma nonempty_bucket tb (r : Z) :
  tb_entries tb <> [] -> 0 <= r -> (forall i c, Z.of_nat i < r -> tb !! i = Some c -> c = Nil) ->
  exists j c, tb !! j = Some c /\ is_nil c = false /\ r <= Z.of_nat j.
Proof.
  intros Hne Hr Hb. destruct (tb_entries tb) as [|e es] eqn:E; [done|].
  assert (e ∈ tb_entries tb) as Hin by (rewrite E; by left).
  apply tb_entries_elem in Hin as (j & c & Hj & Hc). exists j, c. split_and!; [done| |].
  - destruct c; [by apply not_elem_of_nil in Hc|done..].
  - destruct (decide (Z.of_nat j < r)) as [Hlt|]; [|lia].
    rewrite (Hb j c Hlt Hj) in Hc. by apply not_elem_of_nil in Hc.
Qed.

Lemma skip_empty_spec d tb0 j c : forall fuel idx ev,
  TableOk (ht0 d) tb0 -> tb0 !! j = Some c -> is_nil c = false -> 0 <= idx <= Z.of_nat j ->
  Z.of_nat j - idx < Z.of_nat fuel ->
  exists idx' ev' ex, skip_empty fuel d idx ev = Some (idx', ev', ex) /\ idx <= idx' <= Z.of_nat j /\
    (forall i b, idx <= Z.of_nat i < idx' -> tb0 !! i = Some b -> b = Nil) /\
    (ex = true -> idx < idx').
Proof.
  induction fuel as [|fuel IH]; intros idx ev H0 Hj Hc Hidx Hf; [lia|]. cbn [skip_empty].
  rewrite (get_bucket_at d false tb0 idx H0) by lia.
  destruct (lookup_lt_is_Some_2 tb0 (Z.to_nat idx)) as [b Hb]; [apply lookup_lt_Some in Hj; lia|].
  rewrite Hb. cbn [mbind option_bind]. destruct (is_nil b) eqn:Eb.
  2: { exists idx, ev, false. split_and!; try done; lia. }
  assert (idx < Z.of_nat j) as Hlt.
  { destruct (decide (idx = Z.of_nat j)) as [->|]; [|lia]. rewrite Nat2Z.id, Hj in Hb.
    injection Hb as ->. congruence. }
  assert (Hone : forall i b', idx <= Z.of_nat i < idx + 1 -> tb0 !! i = Some b' -> b' = Nil).
  { intros i b' Hi Hb'. replace i with (Z.to_nat idx) in Hb' by lia. rewrite Hb in Hb'.
    injection Hb' as <-. by destruct b. }
  destruct (ev - 1 =? 0).
  - exists (idx + 1), 0, true. split_and!; try done; lia.
  - destruct (IH (idx + 1) (ev - 1) H0 Hj Hc) as (idx' & ev' & ex & -> & Hr & Hall & Hex); [lia|lia|].
    exists idx', ev', ex. split_and!; [done|lia|lia| |lia]. intros i b' Hi Hb'.
    destruct (decide (Z.of_nat i < idx + 1)); [apply (Hone i b'); [lia|done]|apply (Hall i b'); [lia|done]].
Qed.

Lemma rehash_loop_spec n : forall d tb0 tb1 ev es,
  TableOk (ht0 d) tb0 -> TableOk (ht1 d) tb1 -> 0 <= rehashidx d <= zlen tb0 ->
  (forall i c, Z.of_nat i < rehashidx d -> tb0 !! i = Some c -> c = Nil) ->
  es ≡ₚ tb_entries tb0 ++ tb_entries tb1 -> zlen es < 2 ^ 63 ->
  exists d' more, rehash_loop n d ev = Some (d', more) /\ DictOk d' es /\ same_flags d d' /\
    dictIsRehashing d' = more /\
    (more = true -> rehashidx d + Z.min 1 (Z.of_nat n) <= rehashidx d' /\
       size_exp (ht0 d') = size_exp (ht0 d)) /\ is_Some (table (ht0 d')).
Proof.
  induction n as [|n IH]; intros d tb0 tb1 ev es H0 H1 Hr Hb HP Hlen; cbn [rehash_loop].
  { destruct (check_completed_spec d tb0 tb1 es H0 H1 Hr Hb HP) as (d' & fin & -> & Hok & Hf & Hre & Hd & Ht).
    exists d', (negb fin). split_and!; try done. intros Hm. rewrite (Hd (proj1 (negb_true_iff _) Hm)). lia. }
  destruct (Z.eqb_spec (used (ht0 d)) 0) as [Hu|Hu].
  { destruct (check_completed_spec d tb0 tb1 es H0 H1 Hr Hb HP) as (d' & fin & Ec & Hok & Hf & Hre & Hd & Ht).
    rewrite Ec. exists d', (negb fin). split_and!; try done. unfold dictCheckRehashingCompleted in Ec. rewrite Hu in Ec.
    injection Ec as <- <-. done. }
  assert (tb_entries tb0 <> []) as Hne.
  { intros E. rewrite (to_used _ _ H0), E in Hu. done. }
  destruct (nonempty_bucket tb0 (rehashidx d) Hne ltac:(lia) Hb) as (j & c & Hj & Hc & Hjr).
  pose proof (lookup_lt_Some _ _ _ Hj) as Hjl. pose proof (to_exp _ _ H0) as He. pose proof (to_len _ _ H0) as Hl.
  assert (2 ^ size_exp (ht0 d) <= 2 ^ 60) by (apply Z.pow_le_mono_r; lia).
  unfold zlen in Hl. rewrite size_pow, wrapu_small by lia.
  replace (2 ^ size_exp (ht0 d) >? rehashidx d) with true by lia. cbn [assert_true mbind option_bind].
  rewrite (to_table _ _ H0). cbn [mbind option_bind].
  destruct (skip_empty_spec d tb0 j c (S (length tb0)) (rehashidx d) ev H0 Hj Hc)
    as (idx & ev' & ex & -> & Hidx & Hskip & Hex); [lia|lia|]. cbn [mbind option_bind].
  assert (Hb' : forall i b, Z.of_nat i < idx -> tb0 !! i = Some b -> b = Nil).
  { intros i b Hi Hib. destruct (decide (Z.of_nat i < rehashidx d)); [by apply (Hb i)|].
    apply (Hskip i b); [lia|done]. }
  destruct ex.
  { eexists _, true. split; [done|]. split_and!; [|done| | |].
    - apply (Ok_double _ _ tb0 tb1); try done. simpl. unfold zlen. lia.
    - apply is_rehashing. simpl. lia.
    - intros _. simpl. specialize (Hex eq_refl). split; [lia|done].
    - simpl. by rewrite (to_table _ _ H0). }
  destruct (lookup_lt_is_Some_2 tb0 (Z.to_nat idx)) as [b Hbk]; [lia|].
  destruct (rehash_bucket_spec stored (set_rehashidx d idx) idx tb0 tb1 b H0 H1 ltac:(lia) Hbk)
    as (d1 & tb2 & -> & HT0 & HT1 & E0 & E1 & HP1 & Hctl).
  { unfold zlen in *. by rewrite HP in Hlen. }
  cbn [mbind option_bind].
  destruct (IH (set_rehashidx d1 (idx + 1)) (<[Z.to_nat idx := Nil]> tb0) tb2 ev' es)
    as (d' & more & -> & Hok & Hf & Hre & Hm & Ht).
  - exact HT0.
  - exact HT1.
  - simpl. unfold zlen. rewrite length_insert. lia.
  - simpl. intros i b' Hi Hib. apply list_lookup_insert_Some in Hib as [(_ & <- & _)|[Hne' Hib]]; [done|].
    apply (Hb' i b'); [lia|done].
  - by rewrite HP1.
  - done.
  - exists d', more. split_and!; try done.
    + apply (same_flags_trans d (set_rehashidx d1 (idx + 1)) d'); [|done].
      apply same_ctl_flags in Hctl. exact Hctl.
    + intros Hmt. destruct (Hm Hmt) as [H2 H3]. simpl in H2, H3, E0. split; [lia|congruence].
Qed.

Lemma dict_ok_cases d es :
  DictOk d es -> dictIsRehashing d = false \/
    exists tb0 tb1, TableOk (ht0 d) tb0 /\ TableOk (ht1 d) tb1 /\ 0 <= rehashidx d <= zlen tb0 /\
      (forall i c, Z.of_nat i < rehashidx d -> tb0 !! i = Some c -> c = Nil) /\
      es ≡ₚ tb_entries tb0 ++ tb_entries tb1.
Proof.
  intros [H0 H1 Hr _|tb0 H0 H1 Hr _|tb0 tb1 H0 H1 Hr Hb HP]; [left; by apply not_rehashing..|].
  right. by exists tb0, tb1.
Qed.

(** [dictRehash] keeps the entries; it reports whether keys are left to move, unless
    resizing is forbidden or put off. *)
Lemma dictRehash_spec resize d es n :
  DictOk d es -> zlen es < 2 ^ 63 ->
  exists d' more, dictRehash resize d n = Some (d', more) /\ DictOk d' es /\ same_flags d d' /\
    (more = true -> dictIsRehashing d' = true /\ rehashidx d + Z.min 1 (Z.of_nat n) <= rehashidx d' /\
       size_exp (ht0 d') = size_exp (ht0 d)) /\
    (more = false -> d' = d \/ dictIsRehashing d' = false) /\
    (is_Some (table (ht0 d)) -> is_Some (table (ht0 d'))).
Proof.
  intros Hok Hlen. unfold dictRehash.
  destruct (dict_ok_cases d es Hok) as [Hn|(tb0 & tb1 & H0 & H1 & Hr & Hb & HP)].
  - rewrite Hn, orb_true_r. exists d, false. split_and!; try done. by left.
  - rewrite is_rehashing, orb_false_r by lia.
    destruct (bool_decide (resize = DICT_RESIZE_FORBID)); [exists d, false; split_and!; try done; by left|].
    destruct (rehash_avoided resize d); [exists d, false; split_and!; try done; by left|].
    destruct (rehash_loop_spec n d tb0 tb1 (Z.of_nat n * 10) es H0 H1 Hr Hb HP Hlen)
      as (d' & more & -> & Hok' & Hf & Hre & Hm & Ht).
    exists d', more. split_and!; try done.
    + intros Hmt. split; [congruence|by apply Hm].
    + intros Hmf. right. congruence.
Qed.

Lemma rehash_step_spec resize d es :
  DictOk d es -> zlen es < 2 ^ 63 ->
  exists d', _dictRehashStep resize d = Some d' /\ DictOk d' es /\ same_flags d d' /\
    (dictIsRehashing d' = true -> size_exp (ht0 d') = size_exp (ht0 d)) /\
    (is_Some (table (ht0 d)) -> is_Some (table (ht0 d'))).
Proof.
  intros Hok Hlen. unfold _dictRehashStep. destruct (pauserehash d =? 0); [|by exists d].
  destruct (dictRehash_spec resize d es 1 Hok Hlen) as (d' & more & -> & Hok' & Hf & Hmt & Hmf & Ht).
  exists d'. split_and!; try done. intros Hre. destruct more; [by apply Hmt|].
  destruct (Hmf eq_refl) as [->|Hn]; [done|congruence].
Qed.

Lemma bucket_rehash_spec resize d es idx c :
  DictOk d es -> zlen es < 2 ^ 63 -> 0 <= idx -> get_bucket d false idx = Some c ->
  exists d' b, _dictBucketRehash resize d idx = Some (d', b) /\ DictOk d' es /\ same_flags d d' /\
    (dictIsRehashing d' = true -> size_exp (ht0 d') = size_exp (ht0 d)) /\
    (is_Some (table (ht0 d)) -> is_Some (table (ht0 d'))).
Proof.
  intros Hok Hlen Hi Hc. unfold _dictBucketRehash. destruct (negb (pauserehash d =? 0)); [by exists d, false|].
  destruct (dict_ok_cases d es Hok) as [Hn|(tb0 & tb1 & H0 & H1 & Hr & Hb & HP)].
  { rewrite Hn, orb_true_r. by exists d, false. }
  destruct (bool_decide (resize = DICT_RESIZE_FORBID) || _); [by exists d, false|].
  destruct (rehash_avoided resize d); [by exists d, false|].
  rewrite (get_bucket_at d false tb0 idx H0 Hi) in Hc.
  destruct (rehash_bucket_spec stored d idx tb0 tb1 c H0 H1 Hi Hc) as (d1 & tb2 & -> & HT0 & HT1 & E0 & E1 & HP1 & Hctl).
  { unfold zlen in *. by rewrite HP in Hlen. }
  cbn [mbind option_bind]. destruct Hctl as (Hr1 & Hctl).
  destruct (check_completed_spec d1 (<[Z.to_nat idx := Nil]> tb0) tb2 es HT0 HT1) as (d' & fin & -> & Hok' & Hf & Hre & Hfin & Ht).
  - rewrite Hr1. unfold zlen. rewrite length_insert. done.
  - rewrite Hr1. intros i b' Hib Hl. apply list_lookup_insert_Some in Hl as [(_ & <- & _)|[_ Hl]]; [done|by apply (Hb i)].
  - by rewrite HP1.
  - eexists d', true. split; [done|]. split; [done|]. split; [by apply (same_flags_trans d d1 d')|].
    cbn [fst]. split; [|done]. intros Hre'. destruct fin; [by rewrite Hre in Hre'|]. by rewrite (Hfin eq_refl).
Qed.

(** The rehashing work before a lookup. *)
Lemma rehash_for_spec resize d es h :
  DictOk d es -> zlen es < 2 ^ 63 -> 0 <= h < 2 ^ 64 ->
  exists d', rehash_for resize d (Z.land h (DICTHT_SIZE_MASK (size_exp (ht0 d)))) = Some d' /\
    DictOk d' es /\ same_flags d d' /\
    (dictIsRehashing d' = true -> size_exp (ht0 d') = size_exp (ht0 d)) /\
    (is_Some (table (ht0 d)) -> is_Some (table (ht0 d'))).
Proof.
  intros Hok Hlen Hh. unfold rehash_for.
  destruct (dict_ok_cases d es Hok) as [Hn|(tb0 & tb1 & H0 & H1 & Hr & Hb & HP)].
  { rewrite Hn. by exists d. }
  rewrite is_rehashing by lia. pose proof (to_exp _ _ H0) as He. rewrite mask_mod by lia.
  destruct (bucket_of (ht0 d) tb0 h H0) as [Hpos [c Hc]]. set (idx := h mod _) in *.
  assert (get_bucket d false idx = Some c) as Hg by (by rewrite (get_bucket_at d false tb0 idx H0 Hpos)).
  destruct (s64 idx >=? rehashidx d); cbn [andb].
  - rewrite Hg. cbn [mbind option_bind]. destruct (is_nil c); cbn [negb].
    + by apply rehash_step_spec.
    + destruct (bucket_rehash_spec resize d es idx c Hok Hlen Hpos Hg) as (d' & b & -> & Hok' & Hf & Hre).
      by exists d'.
  - cbn [mbind option_bind]. by apply rehash_step_spec.
Qed.

(** ** Resizing *)

Lemma new_table_ok e :
  2 <= e <= 60 ->
  TableOk {| table := Some (replicate (Z.to_nat (2 ^ e)) Nil); used := 0; size_exp := e |}
    (replicate (Z.to_nat (2 ^ e)) Nil).
Proof.
  intros He. assert (0 < 2 ^ e) by (apply Z.pow_pos_nonneg; lia). split; simpl.
  - done.
  - done.
  - unfold zlen. rewrite length_replicate. lia.
  - by rewrite tb_entries_nil.
  - by apply Forall_replicate.
  - intros i c x Hi Hx. apply lookup_replicate in Hi as [-> _]. by apply not_elem_of_nil in Hx.
Qed.

(** The sizes that pass the overflow test. *)
Lemma nextexp_fits size :
  0 <= size < 2 ^ 64 ->
  (DICTHT_SIZE (_dictNextExp size) <? size) || (u64 (DICTHT_SIZE (_dictNextExp size) * 8) <? DICTHT_SIZE (_dictNextExp size)) = false ->
  2 <= _dictNextExp size <= 60 /\ DICTHT_SIZE (_dictNextExp size) = 2 ^ _dictNextExp size.
Proof.
  intros Hs Hf. assert (2 <= _dictNextExp size <= 63) as He.
  { destruct (decide (size < LONG_MAX)) as [Hlt|Hge]; [apply nextexp_spec; lia|].
    unfold _dictNextExp. unfold LONG_MAX, DICT_HT_INITIAL_SIZE, DICT_HT_INITIAL_EXP in *.
    destruct (size <=? 4); [lia|]. destruct (Z.geb_spec size 9223372036854775807); lia. }
  rewrite size_pow in * by lia. split; [|done]. split; [lia|].
  destruct (decide (_dictNextExp size <= 60)) as [|Hgt]; [done|].
  assert (u64 (2 ^ _dictNextExp size * 8) = 0) as E0.
  { replace (2 ^ _dictNextExp size * 8) with (2 ^ (_dictNextExp size - 61) * 2 ^ 64).
    - unfold wrapu. apply Z.mod_mul. done.
    - change 8 with (2 ^ 3). rewrite <- !Z.pow_add_r by lia. f_equal. lia. }
  rewrite E0 in Hf. assert (0 < 2 ^ _dictNextExp size) by (apply Z.pow_pos_nonneg; lia). lia.
Qed.

Lemma resize_spec d es size mf :
  DictOk d es -> dictIsRehashing d = false -> 0 <= size < 2 ^ 64 ->
  exists d' ok failed, _dictResize d size mf = Some (d', ok, failed) /\ DictOk d' es /\ same_flags d d' /\
    (size <= 2 ^ 59 -> default false mf = false -> table (ht0 d) = None -> is_Some (table (ht0 d'))) /\
    (is_Some (table (ht0 d)) -> is_Some (table (ht0 d'))) /\ (0 < rehashidx d' -> d' = d).
Proof.
  intros Hok Hnr Hs. unfold _dictResize. rewrite Hnr. cbn [negb assert_true mbind option_bind].
  destruct ((DICTHT_SIZE (_dictNextExp size) <? size) || _) eqn:Hov.
  { exists d, false, false. split_and!; try done. intros Hs59 _ _. exfalso.
    destruct (nextexp_spec size) as (He & Hle & Hgt); [unfold LONG_MAX; lia|].
    rewrite size_pow in Hov by lia.
    assert (_dictNextExp size <= 59) as H59.
    { destruct (decide (_dictNextExp size <= 59)) as [|Hn]; [done|].
      assert (2 ^ 59 <= 2 ^ (_dictNextExp size - 1)) by (apply Z.pow_le_mono_r; lia). lia. }
    assert (2 ^ _dictNextExp size <= 2 ^ 59) by (apply Z.pow_le_mono_r; lia).
    rewrite wrapu_small in Hov by lia. lia. }
  destruct (nextexp_fits size Hs Hov) as [He ->]. set (e := _dictNextExp size) in *.
  destruct (Z.eqb_spec e (size_exp (ht0 d))) as [Hsame|Hdiff].
  { exists d, false, false. split_and!; try done. intros _ _ Hnone. exfalso.
    destruct Hok as [H0 _ _ _|tb0 H0 _ _ _|tb0 tb1 H0 _ _ _ _].
    - rewrite H0 in Hsame. simpl in Hsame. lia.
    - by rewrite (to_table _ _ H0) in Hnone.
    - by rewrite (to_table _ _ H0) in Hnone. }
  destruct (default false mf) eqn:Emf; [by exists d, false, true|].
  set (nt := {| table := Some _; used := 0; size_exp := e |}).
  pose proof (new_table_ok e He : TableOk nt _) as Hnt.
  change (ht0 (emit (set_rehashidx (set_ht d true nt) 0) (if rehashingStarted then [RehashingStarted] else [])))
    with (ht0 d).
  destruct Hok as [H0 H1 Hr Hes|tb0 H0 H1 Hr HP|tb0 tb1 H0 H1 Hr Hb HP].
  - rewrite H0. cbn [table _dictReset]. eexists _, true, false. split; [done|]. split_and!; try done.
    eapply Ok_single; [exact Hnt|done|done|]. by rewrite tb_entries_nil, Hes.
  - rewrite (to_table _ _ H0).
    destruct (Z.eqb_spec (used (ht0 d)) 0) as [Hu|Hu]; eexists _, true, false; (split; [done|]); split_and!; try done.
    + eapply Ok_single; [exact Hnt|done|done|]. rewrite tb_entries_nil.
      rewrite (to_used _ _ H0) in Hu. assert (tb_entries tb0 = []) as E by (apply nil_length_inv; unfold zlen in Hu; lia).
      by rewrite <- E.
    + eapply Ok_double; [exact H0|exact Hnt|simpl; pose proof (zlen_nonneg tb0); lia| |].
      * simpl. intros i c Hi. lia.
      * by rewrite tb_entries_nil, app_nil_r.
    + simpl. by rewrite (to_table _ _ H0).
  - rewrite is_rehashing in Hnr by lia. done.
Qed.

Lemma expand_spec d es size mf :
  DictOk d es -> 0 <= size < 2 ^ 64 ->
  exists d' ok failed, _dictExpand d size mf = Some (d', ok, failed) /\ DictOk d' es /\ same_flags d d' /\
    (is_Some (table (ht0 d)) -> is_Some (table (ht0 d'))) /\ (0 < rehashidx d' -> d' = d).
Proof.
  intros Hok Hs. unfold _dictExpand. destruct (dictIsRehashing d) eqn:Hre; [by exists d, false, false|].
  destruct ((false || _) || _); [by exists d, false, false|].
  destruct (resize_spec d es size mf Hok Hre Hs) as (d' & ok & failed & -> & Hok' & Hf & _ & Hsome & Hri).
  by exists d', ok, failed.
Qed.

Lemma dictExpand_spec d es size :
  DictOk d es -> 0 <= size < 2 ^ 64 ->
  exists d' ok, dictExpand d size = Some (d', ok) /\ DictOk d' es /\ same_flags d d' /\
    (is_Some (table (ht0 d)) -> is_Some (table (ht0 d'))) /\ (0 < rehashidx d' -> d' = d).
Proof.
  intros Hok Hs. unfold dictExpand. destruct (expand_spec d es size None Hok Hs) as (d' & ok & failed & -> & ?).
  by exists d', ok.
Qed.

Lemma dictShrink_spec d es size :
  DictOk d es -> 0 <= size < 2 ^ 64 ->
  exists d' ok, dictShrink d size = Some (d', ok) /\ DictOk d' es /\ same_flags d d'.
Proof.
  intros Hok Hs. unfold dictShrink. destruct (dictIsRehashing d) eqn:Hre; [by exists d, false|].
  destruct ((false || _) || _); [by exists d, false|].
  destruct (resize_spec d es size None Hok Hre Hs) as (d' & ok & failed & -> & Hok' & Hf & _).
  by exists d', ok.
Qed.

Lemma used_range d es i : DictOk d es -> zlen es < 2 ^ 59 -> 0 <= used (ht d i) <= zlen es.
Proof.
  intros Hok Hlen. destruct Hok as [H0 H1 _ ->|tb0 H0 H1 _ HP|tb0 tb1 H0 H1 _ _ HP].
  - destruct i; simpl; [rewrite H1|rewrite H0]; done.
  - destruct i; simpl; [rewrite H1; simpl; pose proof (zlen_nonneg es); lia|].
    rewrite (to_used _ _ H0). unfold zlen. rewrite HP. lia.
  - unfold zlen. rewrite HP, length_app.
    destruct i; simpl; [rewrite (to_used _ _ H1)|rewrite (to_used _ _ H0)]; unfold zlen; lia.
Qed.

Section Auto.
Context (resize : dictResizeEnable) (d : dict) (es : list entry) (Hok : DictOk d es) (Hlen : zlen es < 2 ^ 59).

(** Before an insertion: unless automatic resizing is paused, there is a table afterwards. *)
Lemma expand_if_needed_spec :
  exists d', _dictExpandIfNeeded resize d = Some d' /\ DictOk d' es /\ same_flags d d' /\
    (pauseAutoResize d <= 0 \/ is_Some (table (ht0 d)) -> is_Some (table (ht0 d'))) /\
    (0 < rehashidx d' -> d' = d).
Proof.
  unfold _dictExpandIfNeeded. destruct (Z.gtb_spec (pauseAutoResize d) 0) as [Hp|Hp].
  { exists d. split_and!; try done. intros [|]; [lia|done]. }
  unfold dictExpandIfNeeded. pose proof (used_range d es false Hok Hlen) as Hu. simpl in Hu.
  destruct (dict_ok_cases d es Hok) as [Hn|(tb0 & tb1 & H0 & H1 & Hr & Hb & HP)].
  2: { rewrite is_rehashing by lia. exists d. split_and!; try done. intros _. by rewrite (to_table _ _ H0). }
  rewrite Hn. destruct (Z.eqb_spec (DICTHT_SIZE (size_exp (ht0 d))) 0) as [Hz|Hz].
  - assert (ht0 d = _dictReset) as H0.
    { destruct Hok as [H0 _ _ _|tb0 H0 _ _ _|tb0 tb1 H0 _ _ _ _]; [done|exfalso..];
        pose proof (to_exp _ _ H0); rewrite size_pow in Hz by lia;
        assert (0 < 2 ^ size_exp (ht0 d)) by (apply Z.pow_pos_nonneg; lia); lia. }
    unfold dictExpand, _dictExpand. rewrite Hn, H0. cbn -[_dictResize].
    destruct (resize_spec d es DICT_HT_INITIAL_SIZE None Hok Hn) as (d' & ok & failed & -> & Hok' & Hf & Hsome & _ & Hri); [done|].
    cbn [mbind option_bind]. exists d'. split_and!; try done. intros _. apply Hsome; [done|done|]. by rewrite H0.
  - assert (is_Some (table (ht0 d))) as Hsome.
    { destruct Hok as [H0 _ _ _|tb0 H0 _ _ _|tb0 tb1 H0 _ _ _ _].
      - by rewrite H0 in Hz.
      - by rewrite (to_table _ _ H0).
      - by rewrite (to_table _ _ H0). }
    destruct (_ || _); [|by exists d]. destruct (dictTypeResizeAllowed d _); [|by exists d].
    destruct (dictExpand_spec d es (u64 (used (ht0 d) + 1)) Hok) as (d' & ok & -> & Hok' & Hf & Hs' & Hri).
    { rewrite wrapu_small; lia. }
    cbn [mbind option_bind]. exists d'. split_and!; try done. intros _. by apply Hs'.
Qed.

Lemma shrink_if_needed_spec :
  exists d', _dictShrinkIfNeeded resize d = Some d' /\ DictOk d' es /\ same_flags d d'.
Proof.
  unfold _dictShrinkIfNeeded. destruct (pauseAutoResize d >? 0); [by exists d|].
  unfold dictShrinkIfNeeded. pose proof (used_range d es false Hok Hlen) as Hu. simpl in Hu.
  destruct (dictIsRehashing d); [by exists d|]. destruct (_ <=? DICT_HT_INITIAL_SIZE); [by exists d|].
  destruct (_ || _); [|by exists d]. destruct (dictTypeResizeAllowed d _); [|by exists d].
  destruct (dictShrink_spec d es (used (ht0 d)) Hok) as (d' & ok & -> & Hok' & Hf); [lia|].
  by exists d'.
Qed.
End Auto.
End Rehash.
