(* ===== verification/DictFind.v ===== *)
(** * Hash tables: what lookup finds, and insertion *)
From S2P Require Import Prelude Dict DictOps DictFacts DictRehash.

Section Find.
Context `{T : DictType} (stored : bool) `{!DictTypeOk T stored}.

Notation entry := (dkey * option dval)%type.

(** No two entries have equal keys. *)
Fixpoint distinct (es : list entry) : Prop :=
  match es with
  | [] => True
  | e :: es => Forall (fun f => keq e.1 f.1 = false) es /\ distinct es
  end.

Lemma keq_comm k k' : keq k k' = keq k' k.
Proof. apply eq_true_iff_eq. split; apply keq_sym. Qed.

Lemma distinct_perm es es' : es ≡ₚ es' -> distinct es -> distinct es'.
Proof.
  induction 1 as [|e es es' HP IH|e f es|es es' es'' _ IH1 _ IH2]; simpl.
  - done.
  - intros [He Hd]. split; [by rewrite <- HP|by apply IH].
  - intros [He [Hf Hd]]. inversion He; subst. split_and!; try done.
    constructor; [by rewrite keq_comm|done].
  - intros Hd. by apply IH2, IH1.
Qed.

(** ** Chains *)

Lemma chain_find_spec d key c : forall n0,
  useStoredKeyApi d = stored ->
  match chain_find d key c n0 with
  | Some n => (n0 <= n)%nat /\ exists e, head_entry (chain_drop c (n - n0)) = Some e /\
      chain_drop c (n - n0) <> Nil /\ e ∈ chain_entries c /\ keq key e.1 = true
  | None => forall e, e ∈ chain_entries c -> keq key e.1 = false
  end.
Proof.
  intros n0 Hst. revert n0.
  assert (Hrec : forall k v nx de n0, dictGetNext de = nx -> de <> Nil -> head_entry de = Some (k, v) ->
    (forall n0, match chain_find d key nx n0 with
      | Some n => (n0 <= n)%nat /\ exists e, head_entry (chain_drop nx (n - n0)) = Some e /\
          chain_drop nx (n - n0) <> Nil /\ e ∈ chain_entries nx /\ keq key e.1 = true
      | None => forall e, e ∈ chain_entries nx -> keq key e.1 = false end) ->
    match (if key_match d key k then Some n0 else chain_find d key nx (S n0)) with
    | Some n => (n0 <= n)%nat /\ exists e, head_entry (chain_drop de (n - n0)) = Some e /\
        chain_drop de (n - n0) <> Nil /\ e ∈ (k, v) :: chain_entries nx /\ keq key e.1 = true
    | None => forall e, e ∈ (k, v) :: chain_entries nx -> keq key e.1 = false
    end).
  { intros k v nx de n0 Hnx Hde He IH. rewrite (match_ok d key k Hst).
    destruct (keq key k) eqn:Ek.
    - split; [done|]. exists (k, v). rewrite Nat.sub_diag. split_and!; [done|done|by left|done].
    - specialize (IH (S n0)). destruct (chain_find d key nx (S n0)) as [n|].
      + destruct IH as (Hle & e & H1 & H2 & H3 & H4). split; [lia|]. exists e.
        replace (n - n0)%nat with (S (n - S n0)) by lia. simpl. rewrite Hnx.
        split_and!; [done|done|by right|done].
      + intros e [->|Hin]%elem_of_cons; [done|by apply IH]. }
  induction c as [|k|k nx IH|k v nx IH]; intros n0.
  - intros e He. by apply not_elem_of_nil in He.
  - apply (Hrec k None Nil (Key k) n0); try done.
    intros m e He. by apply not_elem_of_nil in He.
  - by apply (Hrec k None nx (NoValue k nx) n0).
  - by apply (Hrec k v nx (Normal k v nx) n0).
Qed.

(** An entry of a table is in the bucket of its hash. *)
Lemma entry_bucket t tb key e :
  TableOk t tb -> e ∈ tb_entries tb -> keq key e.1 = true ->
  exists c, tb !! Z.to_nat (dictHashKey key stored mod 2 ^ size_exp t) = Some c /\ e ∈ chain_entries c.
Proof.
  intros Ht He Hk. apply tb_entries_elem in He as (i & c & Hi & Hc). exists c. split; [|done].
  by rewrite (hash_ok key e.1 Hk), (to_hash _ _ Ht i c e Hi Hc), Nat2Z.id.
Qed.

(** Keys whose bucket of table 0 is already rehashed are not in that table. *)
Lemma skipped_bucket d tb0 key idx :
  TableOk (ht0 d) tb0 -> (forall i c, Z.of_nat i < rehashidx d -> tb0 !! i = Some c -> c = Nil) ->
  0 <= idx < rehashidx d -> idx = dictHashKey key stored mod 2 ^ size_exp (ht0 d) ->
  forall e, e ∈ tb_entries tb0 -> keq key e.1 = false.
Proof.
  intros H0 Hb Hlt Hidx e He. apply not_true_iff_false. intros Hk.
  destruct (entry_bucket _ tb0 key e H0 He Hk) as (c & Hc & Hin). rewrite <- Hidx in Hc.
  rewrite (Hb (Z.to_nat idx) c ltac:(lia) Hc) in Hin. by apply not_elem_of_nil in Hin.
Qed.

(** The entry a reference designates has the key, and belongs to the dictionary. *)
Definition found (d : dict) (es : list entry) (key : dkey) (r : eref) : Prop :=
  exists de e, get_entry d r = Some de /\ head_entry de = Some e /\ e ∈ es /\ keq key e.1 = true.

Section Tables.
Context (d : dict) (es : list entry) (key : dkey) (Hok : DictOk d es) (Hst : useStoredKeyApi d = stored).
Let h := dictHashKey key stored.

Definition search (i : bool) : option (eref + Z) :=
  let idx := Z.land h (DICTHT_SIZE_MASK (size_exp (ht d i))) in
  he ← get_bucket d i idx;
  Some (match chain_find d key he 0 with Some n => inl (i, idx, n) | None => inr idx end).

Lemma dict_search_spec i tb :
  TableOk (ht d i) tb ->
  exists r, search i = Some r /\
    match r with
    | inl r => exists de e, get_entry d r = Some de /\ head_entry de = Some e /\ e ∈ tb_entries tb /\ keq key e.1 = true
    | inr idx => idx = h mod 2 ^ size_exp (ht d i) /\ forall e, e ∈ tb_entries tb -> keq key e.1 = false
    end.
Proof.
  intros Ht. unfold search. pose proof (to_exp _ _ Ht). rewrite mask_mod by lia.
  destruct (bucket_of (ht d i) tb h Ht) as [Hpos [c Hc]]. set (x := h mod _) in *.
  assert (get_bucket d i x = Some c) as Hg by (by rewrite (get_bucket_at d i tb x Ht Hpos)).
  rewrite Hg. cbn [mbind option_bind]. eexists. split; [done|].
  pose proof (chain_find_spec d key c 0 Hst) as Hf. destruct (chain_find d key c 0) as [n|].
  - destruct Hf as (_ & e & H1 & H2 & H3 & H4). rewrite Nat.sub_0_r in H1, H2.
    exists (chain_drop c n), e. unfold get_entry. rewrite Hg. cbn [mbind option_bind].
    split_and!; [|done| |done].
    + by destruct (chain_drop c n).
    + apply tb_entries_elem. by exists (Z.to_nat x), c.
  - split; [done|]. intros e He. apply not_true_iff_false. intros Hk.
    destruct (entry_bucket _ tb key e Ht He Hk) as (c' & Hc' & Hin).
    change (tb !! Z.to_nat x = Some c') in Hc'. rewrite Hc in Hc'. injection Hc' as <-.
    rewrite (Hf e Hin) in Hk. done.
Qed.

(** [idx] may be stale, but not while rehashing has made progress. *)
Lemma find_in_tables_spec idx :
  is_Some (table (ht0 d)) -> 0 <= idx < 2 ^ 60 ->
  (0 < rehashidx d -> idx = h mod 2 ^ size_exp (ht0 d)) ->
  exists r, find_in_tables d key h idx = Some r /\
    match r with
    | inl r => found d es key r
    | inr x => (forall e, e ∈ es -> keq key e.1 = false) /\
        x = h mod 2 ^ size_exp (ht d (dictIsRehashing d)) /\
        exists tb, TableOk (ht d (dictIsRehashing d)) tb
    end.
Proof.
  intros Htab Hidx Hst_idx. unfold find_in_tables. fold (search false) (search true).
  rewrite wraps_small by lia.
  destruct Hok as [H0 H1 Hr Hes|tb0 H0 H1 Hr HP|tb0 tb1 H0 H1 Hr Hb HP].
  - rewrite H0 in Htab. by destruct Htab.
  - destruct (Z.ltb_spec idx (rehashidx d)); [lia|].
    destruct (dict_search_spec false tb0 H0) as (r & -> & Hr'). cbn [mbind option_bind].
    rewrite (not_rehashing d Hr). destruct r as [r|x].
    + eexists. split; [done|]. destruct Hr' as (de & e & ? & ? & ? & ?). exists de, e. split_and!; try done.
      by rewrite HP.
    + eexists. split; [done|]. destruct Hr' as [-> Hno]. split_and!; [|done|by exists tb0].
      intros e He. apply Hno. by rewrite <- HP.
  - rewrite is_rehashing by lia.
    assert (Hno0 : idx < rehashidx d -> forall e, e ∈ tb_entries tb0 -> keq key e.1 = false).
    { intros Hlt. apply (skipped_bucket d tb0 key idx H0 Hb); [lia|]. apply Hst_idx. lia. }
    destruct (dict_search_spec true tb1 H1) as (r1 & -> & Hr1).
    assert (Hfin : (forall e, e ∈ tb_entries tb0 -> keq key e.1 = false) ->
      match r1 with
      | inl r => found d es key r
      | inr x => (forall e, e ∈ es -> keq key e.1 = false) /\ x = h mod 2 ^ size_exp (ht d true) /\
          exists tb, TableOk (ht d true) tb
      end).
    { intros Hno. destruct r1 as [r|x].
      - destruct Hr1 as (de & e & ? & ? & ? & ?). exists de, e. split_and!; try done.
        rewrite HP. apply elem_of_app. by right.
      - destruct Hr1 as [-> Hno1]. split_and!; [|done|by exists tb1]. intros e He. rewrite HP in He.
        apply elem_of_app in He as [He|He]; [by apply Hno|by apply Hno1]. }
    destruct (Z.ltb_spec idx (rehashidx d)) as [Hlt|Hge].
    + exists r1. split; [done|]. apply Hfin. by apply Hno0.
    + destruct (dict_search_spec false tb0 H0) as (r0 & -> & Hr0). cbn [mbind option_bind]. destruct r0 as [r|x].
      * eexists. split; [done|]. destruct Hr0 as (de & e & ? & ? & ? & ?). exists de, e. split_and!; try done.
        rewrite HP. apply elem_of_app. by left.
      * exists r1. split; [done|]. apply Hfin. apply Hr0.
Qed.
End Tables.

(** ** The invariant with distinct keys *)

Record DictInv (d : dict) (es : list entry) : Prop := {
  di_ok : DictOk d es;
  di_stored : useStoredKeyApi d = stored;
  di_distinct : distinct es;
}.

Lemma inv_flags d d' es : DictInv d es -> DictOk d' es -> same_flags d d' -> DictInv d' es.
Proof. intros [_ Hs Hd] Hok (_ & Hf & _). split; [done|congruence|done]. Qed.

Lemma dict_size d es : DictOk d es -> zlen es < 2 ^ 59 -> dictSize d = zlen es.
Proof.
  intros Hok Hlen. pose proof (used_range d es false Hok Hlen) as Hu0.
  pose proof (used_range d es true Hok Hlen) as Hu1. simpl in *. unfold dictSize.
  assert (used (ht0 d) + used (ht1 d) = zlen es) as ->; [|apply wrapu_small; lia].
  destruct Hok as [H0 H1 _ ->|tb0 H0 H1 _ HP|tb0 tb1 H0 H1 _ _ HP].
  - by rewrite H0, H1.
  - rewrite H1, (to_used _ _ H0). unfold zlen. rewrite HP. simpl. lia.
  - rewrite (to_used _ _ H0), (to_used _ _ H1). unfold zlen. rewrite HP, length_app. lia.
Qed.

Lemma has_table d es : DictOk d es -> es <> [] -> is_Some (table (ht0 d)).
Proof.
  intros [H0 H1 _ ->|tb0 H0 H1 _ HP|tb0 tb1 H0 H1 _ _ HP] Hne; [done|..]; by rewrite (to_table _ _ H0).
Qed.

Lemma index_range d es key :
  DictOk d es ->
  0 <= Z.land (dictHashKey key stored) (DICTHT_SIZE_MASK (size_exp (ht0 d))) < 2 ^ 60 /\
  (is_Some (table (ht0 d)) -> Z.land (dictHashKey key stored) (DICTHT_SIZE_MASK (size_exp (ht0 d))) =
     dictHashKey key stored mod 2 ^ size_exp (ht0 d)).
Proof.
  assert (forall t tb, TableOk t tb ->
    0 <= Z.land (dictHashKey key stored) (DICTHT_SIZE_MASK (size_exp t)) < 2 ^ 60 /\
    Z.land (dictHashKey key stored) (DICTHT_SIZE_MASK (size_exp t)) = dictHashKey key stored mod 2 ^ size_exp t) as Ht.
  { intros t tb HT. pose proof (to_exp _ _ HT). rewrite mask_mod by lia. split; [|done].
    assert (0 < 2 ^ size_exp t) by (apply Z.pow_pos_nonneg; lia).
    assert (2 ^ size_exp t <= 2 ^ 60) by (apply Z.pow_le_mono_r; lia).
    pose proof (Z.mod_pos_bound (dictHashKey key stored) (2 ^ size_exp t)). lia. }
  intros [H0 H1 _ _|tb0 H0 H1 _ HP|tb0 tb1 H0 H1 _ _ HP].
  - rewrite H0. simpl. rewrite Z.land_0_r. split; [lia|]. intros [? [=]].
  - destruct (Ht _ _ H0). done.
  - destruct (Ht _ _ H0). done.
Qed.

(** ** Lookup *)

Lemma dictFind_spec resize d es key :
  DictInv d es -> zlen es < 2 ^ 59 ->
  exists d' r, dictFind resize d key = Some (d', r) /\ DictInv d' es /\ same_flags d d' /\
    match r with
    | Some r => found d' es key r
    | None => forall e, e ∈ es -> keq key e.1 = false
    end.
Proof.
  intros Hinv Hlen. pose proof (di_ok _ _ Hinv) as Hok. unfold dictFind.
  rewrite (dict_size d es Hok Hlen). destruct (Z.eqb_spec (zlen es) 0) as [Hz|Hz].
  { exists d, None. split_and!; try done. intros e He. destruct es; [by apply not_elem_of_nil in He|done]. }
  assert (es <> []) as Hne by (intros ->; done).
  rewrite (di_stored _ _ Hinv). pose proof (hash_range (stored := stored) key stored) as Hh.
  destruct (index_range d es key Hok) as [Hidx Hmod].
  destruct (rehash_for_spec stored resize d es (dictHashKey key stored) Hok ltac:(lia) Hh) as (d' & -> & Hok' & Hf & Hexp & _).
  cbn [mbind option_bind]. pose proof (inv_flags d d' es Hinv Hok' Hf) as Hinv'.
  destruct (find_in_tables_spec d' es key Hok' (di_stored _ _ Hinv') _ (has_table d' es Hok' Hne) Hidx)
    as (r & -> & Hr).
  { intros Hri. rewrite Hexp; [|apply is_rehashing; lia]. apply Hmod. by eapply has_table. }
  cbn [mbind option_bind]. exists d'. destruct r as [r|x]; eexists; (split; [done|]); split_and!; try done.
  apply Hr.
Qed.

(** ** Replacing a bucket *)

Lemma table_replace t tb n c c' P Q R :
  TableOk t tb -> tb !! n = Some c -> chain_ok c' ->
  (forall e, e ∈ chain_entries c' -> dictHashKey e.1 true mod 2 ^ size_exp t = Z.of_nat n) ->
  chain_entries c ≡ₚ P ++ R -> chain_entries c' ≡ₚ Q ++ R ->
  exists S, tb_entries tb ≡ₚ P ++ S /\ tb_entries (<[n := c']> tb) ≡ₚ Q ++ S /\
    TableOk (set_used (set_table t (<[n := c']> tb)) (used t - zlen P + zlen Q)) (<[n := c']> tb).
Proof.
  intros [H1 H2 H3 H4 H5 H6] Hn Hok Hh HP HQ.
  exists (R ++ tb_entries (take n tb) ++ tb_entries (drop (S n) tb)).
  assert (tb_entries tb ≡ₚ P ++ R ++ tb_entries (take n tb) ++ tb_entries (drop (S n) tb)) as HPP.
  { rewrite (tb_entries_split tb n c Hn), HP. solve_Permutation. }
  assert (tb_entries (<[n := c']> tb) ≡ₚ Q ++ R ++ tb_entries (take n tb) ++ tb_entries (drop (S n) tb)) as HQQ.
  { rewrite (tb_entries_insert tb n c c' Hn), HQ. solve_Permutation. }
  split; [done|]. split; [done|]. split; simpl.
  - done.
  - done.
  - unfold zlen. by rewrite length_insert.
  - rewrite H4. unfold zlen. rewrite HPP, HQQ, !length_app. lia.
  - by apply Forall_insert.
  - intros j cj ej Hj Hej. apply list_lookup_insert_Some in Hj as [(<- & <- & _)|[_ Hj]]; [by apply Hh|by eapply H6].
Qed.

Lemma dict_replace d es i tb n c c' P Q R u :
  DictOk d es -> TableOk (ht d i) tb -> tb !! n = Some c -> chain_ok c' ->
  (forall e, e ∈ chain_entries c' -> dictHashKey e.1 true mod 2 ^ size_exp (ht d i) = Z.of_nat n) ->
  chain_entries c ≡ₚ P ++ R -> chain_entries c' ≡ₚ Q ++ R ->
  (i = false -> rehashidx d <= Z.of_nat n) -> u = used (ht d i) - zlen P + zlen Q ->
  exists S, es ≡ₚ P ++ S /\
    DictOk (set_ht d i (set_used (set_table (ht d i) (<[n := c']> tb)) u)) (Q ++ S).
Proof.
  intros Hok Ht Hn Hc' Hh HP HQ Hi ->.
  destruct (table_replace (ht d i) tb n c c' P Q R Ht Hn Hc' Hh HP HQ) as (S & HS1 & HS2 & HT').
  pose proof (to_table _ _ Ht) as Htab.
  destruct Hok as [H0 H1 Hr Hes|tb0 H0 H1 Hr HE|tb0 tb1 H0 H1 Hr Hb HE]; destruct i; simpl in *.
  - by rewrite H1 in Htab.
  - by rewrite H0 in Htab.
  - by rewrite H1 in Htab.
  - rewrite (to_table _ _ H0) in Htab. injection Htab as <-. exists S. split; [by rewrite HE|].
    eapply Ok_single; [exact HT'|done|done|by rewrite HS2].
  - rewrite (to_table _ _ H1) in Htab. injection Htab as <-. exists (S ++ tb_entries tb0). split.
    + rewrite HE, HS1. solve_Permutation.
    + eapply Ok_double; [exact H0|exact HT'|done|done|]. rewrite HS2. solve_Permutation.
  - rewrite (to_table _ _ H0) in Htab. injection Htab as <-. exists (S ++ tb_entries tb1). split.
    + rewrite HE, HS1. solve_Permutation.
    + eapply Ok_double; [exact HT'|exact H1| | |].
      * simpl. unfold zlen. rewrite length_insert. done.
      * simpl. intros j b Hj Hjb. apply list_lookup_insert_Some in Hjb as [(<- & _ & _)|[_ Hjb]]; [|by apply (Hb j)].
        specialize (Hi eq_refl). lia.
      * rewrite HS2. solve_Permutation.
Qed.
End Find.
