(* ===== verification/DictUpdate.v ===== *)
(** * Hash tables: insertion, replacement and deletion as updates of a finite map *)
From S2P Require Import Prelude Dict DictOps DictFacts DictRehash DictFind.

Section Update.
Context `{T : DictType} (stored : bool) `{!DictTypeOk T stored}.

Notation entry := (dkey * option dval)%type.

Lemma dict_ok_perm d (es es' : list entry) : DictOk d es -> es ≡ₚ es' -> DictOk d es'.
Proof.
  intros [H0 H1 Hr Hes|tb0 H0 H1 Hr HE|tb0 tb1 H0 H1 Hr Hb HE] HP.
  - apply Ok_empty; [done..|]. subst. by apply Permutation_nil_l in HP.
  - eapply Ok_single; [done..|]. by rewrite <- HP.
  - eapply Ok_double; [done..|]. by rewrite <- HP.
Qed.

(** ** Insertion *)

Lemma find_position_spec resize d es key :
  DictInv stored d es -> zlen es < 2 ^ 59 -> pauseAutoResize d <= 0 \/ is_Some (table (ht0 d)) ->
  exists d' r, dictFindPositionForInsert resize d key = Some (d', r) /\ DictInv stored d' es /\ same_flags d d' /\
    match r with
    | inl r => found stored d' es key r
    | inr (i, x) => (forall e, e ∈ es -> keq (stored := stored) key e.1 = false) /\ i = dictIsRehashing d' /\
        x = dictHashKey key stored mod 2 ^ size_exp (ht d' i) /\ exists tb, TableOk (ht d' i) tb
    end.
Proof.
  intros Hinv Hlen Hauto. pose proof (di_ok _ _ _ Hinv) as Hok. unfold dictFindPositionForInsert.
  rewrite (di_stored _ _ _ Hinv). pose proof (hash_range (stored := stored) key stored) as Hh.
  destruct (index_range stored d es key Hok) as [Hidx Hmod].
  destruct (rehash_for_spec stored resize d es (dictHashKey key stored) Hok ltac:(lia) Hh)
    as (d1 & Hrf & Hok1 & Hf1 & Hexp & Ht1).
  rewrite Hrf. cbn [mbind option_bind]. pose proof (inv_flags stored d d1 es Hinv Hok1 Hf1) as Hinv1.
  destruct (expand_if_needed_spec resize d1 es Hok1 Hlen) as (d2 & -> & Hok2 & Hf2 & Htab & Hri).
  cbn [mbind option_bind]. pose proof (inv_flags stored d1 d2 es Hinv1 Hok2 Hf2) as Hinv2.
  assert (is_Some (table (ht0 d2))) as Hsome.
  { apply Htab. destruct Hf1 as (_ & _ & Hp). rewrite Hp. destruct Hauto; [by left|right; by apply Ht1]. }
  destruct (find_in_tables_spec stored d2 es key Hok2 (di_stored _ _ _ Hinv2) _ Hsome Hidx) as (r & -> & Hr).
  { intros Hpos. rewrite (Hri Hpos) in Hpos |- *. rewrite Hexp by (apply is_rehashing; lia).
    apply Hmod. destruct (dict_ok_cases d es Hok) as [Hnr|(tb0 & tb1 & H0 & _)].
    - unfold rehash_for in Hrf. rewrite Hnr in Hrf. injection Hrf as ->.
      rewrite is_rehashing in Hnr by lia. done.
    - by rewrite (to_table _ _ H0). }
  cbn [mbind option_bind]. exists d2. destruct r as [r|x].
  - exists (inl r). split_and!; try done. by apply (same_flags_trans d d1 d2).
  - destruct Hr as (Hno & Hx & Htb). exists (inr (dictIsRehashing d2, x)). split_and!; try done.
    by apply (same_flags_trans d d1 d2).
Qed.

Lemma set_table_used t tb : set_used (set_table t tb) (used t) = set_table t tb.
Proof. done. Qed.

(** The tables of a bucket that can be read. *)
Lemma bucket_table d es i x c :
  DictOk d es -> get_bucket d i x = Some c ->
  0 <= x /\ exists tb, TableOk (ht d i) tb /\ tb !! Z.to_nat x = Some c /\
    (i = false -> c <> Nil -> rehashidx d <= Z.of_nat (Z.to_nat x)).
Proof.
  intros Hok Hg. unfold get_bucket in Hg. destruct (table (ht d i)) as [tb|] eqn:Et; [|done]. simpl in Hg.
  destruct (Z.leb_spec 0 x); [|done]. split; [done|]. exists tb.
  destruct Hok as [H0 H1 Hr Hes|tb0 H0 H1 Hr HE|tb0 tb1 H0 H1 Hr Hb HE]; destruct i; simpl in *.
  - by rewrite H1 in Et.
  - by rewrite H0 in Et.
  - by rewrite H1 in Et.
  - rewrite (to_table _ _ H0) in Et. injection Et as ->. split_and!; try done. lia.
  - rewrite (to_table _ _ H1) in Et. injection Et as ->. split_and!; try done.
  - rewrite (to_table _ _ H0) in Et. injection Et as ->. split_and!; try done. intros _ Hne.
    destruct (decide (rehashidx d <= Z.of_nat (Z.to_nat x))) as [|Hlt]; [done|].
    destruct Hne. apply (Hb (Z.to_nat x)); [lia|done].
Qed.

Lemma get_set_bucket d i x c c' tb u :
  0 <= x -> tb !! Z.to_nat x = Some c ->
  get_bucket (set_ht d i (set_used (set_table (ht d i) (<[Z.to_nat x := c']> tb)) u)) i x = Some c'.
Proof.
  intros Hx Hc. unfold get_bucket. destruct i; simpl; (destruct (Z.leb_spec 0 x); [|lia]);
    apply list_lookup_insert_eq; by eapply lookup_lt_Some.
Qed.

Lemma insert_position_spec d es key x tb :
  DictOk d es -> zlen es < 2 ^ 59 -> TableOk (ht d (dictIsRehashing d)) tb ->
  dictHashKey key true mod 2 ^ size_exp (ht d (dictIsRehashing d)) = x ->
  exists d' c', dictInsertAtPosition d key (dictIsRehashing d, x) = Some (d', (dictIsRehashing d, x, 0%nat)) /\
    DictOk d' ((key, None) :: es) /\ same_ctl d d' /\
    get_bucket d' (dictIsRehashing d) x = Some c' /\ head_entry c' = Some (key, None) /\ c' <> Nil /\
    (no_value = false -> entryHasValue c' = true).
Proof.
  intros Hok Hlen Ht Hx. unfold dictInsertAtPosition. set (i := dictIsRehashing d) in *.
  destruct (bucket_of (ht d i) tb (dictHashKey key true) Ht) as [Hpos [c Hc]]. rewrite Hx in Hpos, Hc.
  pose proof (to_exp _ _ Ht) as He. pose proof (lookup_lt_Some _ _ _ Hc) as Hlt.
  pose proof (to_len _ _ Ht) as Hl. unfold zlen in Hl.
  assert (eqb i i && (0 <=? x) && (x <=? DICTHT_SIZE_MASK (size_exp (ht d i))) = true) as ->.
  { rewrite eqb_reflx. unfold DICTHT_SIZE_MASK. destruct (Z.eqb_spec (size_exp (ht d i)) (-1)); [lia|].
    rewrite size_pow by lia. lia. }
  cbn [assert_true mbind option_bind]. rewrite (get_bucket_at d i tb x Ht Hpos), Hc. cbn [mbind option_bind].
  assert (chain_ok c) as Hcok by (by eapply Forall_lookup_1; [apply Ht|]).
  assert (exists c', (if no_value then
             if keys_are_odd && is_nil c then _ ← assert_true (key_odd key); Some (Key key)
             else Some (NoValue key c)
           else Some (Normal key None c)) = Some c' /\ chain_ok c' /\
    chain_entries c' = (key, None) :: chain_entries c /\ head_entry c' = Some (key, None) /\ c' <> Nil /\
    (no_value = false -> entryHasValue c' = true)) as (c' & -> & Hok' & Hce & Hhe & Hne & Hv).
  { destruct no_value eqn:Env; [|by exists (Normal key None c)].
    destruct (keys_are_odd && is_nil c) eqn:Eo; [|by exists (NoValue key c)].
    apply andb_true_iff in Eo as [Hodd Hnil]. rewrite (odd_ok (stored := stored) key Hodd). exists (Key key).
    destruct c; done. }
  cbn [mbind option_bind]. rewrite (set_bucket_at d i tb x c c' Ht Hpos Hc). cbn [mbind option_bind].
  pose proof (used_range d es i Hok Hlen) as Hu.
  destruct (dict_replace d es i tb (Z.to_nat x) c c' [] [(key, None)] (chain_entries c) (used (ht d i) + 1))
    as (S & HS & Hok''); [done..| | | | | |].
  - rewrite Hce. intros e [->|Hin]%elem_of_cons; [simpl; lia|]. by eapply (to_hash _ _ Ht).
  - done.
  - by rewrite Hce.
  - unfold i, dictIsRehashing. destruct (Z.eqb_spec (rehashidx d) (-1)); [lia|done].
  - change (zlen []) with 0. change (zlen [(key, None)]) with 1. lia.
  - assert (forall t, set_ht (set_ht d i (set_table (ht d i) (<[Z.to_nat x := c']> tb))) i t = set_ht d i t) as Hss
      by (by destruct i).
    assert (ht (set_ht d i (set_table (ht d i) (<[Z.to_nat x := c']> tb))) i =
            set_table (ht d i) (<[Z.to_nat x := c']> tb)) as Hgs by (by destruct i).
    rewrite Hss, Hgs. cbn [used set_table]. rewrite wrapu_small by lia.
    eexists _, c'. split; [done|]. split; [|split; [by destruct i|split; [by eapply get_set_bucket|done]]].
    eapply dict_ok_perm; [exact Hok''|]. by rewrite HS.
Qed.

Definition stored_key (key : dkey) : dkey := match keyDup with Some f => f key | None => key end.
Definition stored_val (val : dval) : dval := match valDup with Some f => f val | None => val end.

Lemma distinct_add es key :
  distinct stored es -> (forall e, e ∈ es -> keq (stored := stored) key e.1 = false) ->
  forall v, distinct stored ((stored_key key, v) :: es).
Proof.
  intros Hd Hno v. split; [|done]. apply Forall_forall. intros e He. simpl. apply not_true_iff_false. intros Hk.
  assert (keq (stored := stored) key e.1 = true); [|rewrite (Hno e He) in *; done].
  eapply keq_trans; [apply dup_ok|exact Hk].
Qed.

Lemma add_raw_spec resize d es key :
  DictInv stored d es -> zlen es < 2 ^ 59 -> pauseAutoResize d <= 0 \/ is_Some (table (ht0 d)) ->
  exists d' r, dictAddRaw resize d key = Some (d', r) /\ same_flags d d' /\
    match r with
    | inr r => DictInv stored d' es /\ found stored d' es key r
    | inl (i, x, n) => DictInv stored d' ((stored_key key, None) :: es) /\
        (forall e, e ∈ es -> keq (stored := stored) key e.1 = false) /\ n = 0%nat /\
        exists c, get_bucket d' i x = Some c /\ head_entry c = Some (stored_key key, None) /\ c <> Nil /\
          (no_value = false -> entryHasValue c = true)
    end.
Proof.
  intros Hinv Hlen Hauto. unfold dictAddRaw.
  destruct (find_position_spec resize d es key Hinv Hlen Hauto) as (d1 & r & -> & Hinv1 & Hf1 & Hr).
  cbn [mbind option_bind]. destruct r as [r|[i x]]; [by exists d1, (inr r)|].
  destruct Hr as (Hno & -> & Hx & tb & Ht). fold (stored_key key).
  destruct (insert_position_spec d1 es (stored_key key) x tb (di_ok _ _ _ Hinv1) Hlen Ht)
    as (d2 & c & -> & Hok2 & Hctl & Hg & Hhe & Hne & Hv).
  { rewrite Hx, <- (hash_ok (stored := stored) key (stored_key key)); [done|]. apply dup_ok. }
  cbn [mbind option_bind]. eexists d2, _. split; [done|].
  split; [apply (same_flags_trans d d1 d2); [done|by apply same_ctl_flags]|]. split.
  - split; [done| |by apply distinct_add; [apply Hinv1|]]. destruct Hctl as (_ & _ & -> & _). apply Hinv1.
  - split; [done|]. split; [done|]. by exists c.
Qed.

(** ** Setting a value *)

Lemma chain_set_val_spec v : forall c n k w nx,
  chain_drop c n = Normal k w nx ->
  exists c' R, chain_set_val c n v = Some c' /\ chain_entries c ≡ₚ (k, w) :: R /\
    chain_entries c' ≡ₚ (k, v) :: R /\ (chain_ok c -> chain_ok c').
Proof.
  assert (Hnil : forall n k w nx, chain_drop Nil n = Normal k w nx -> False).
  { intros n k w nx. induction n; simpl; done. }
  induction c as [|k0|k0 c IH|k0 w0 c IH]; intros n k w nx Hd.
  - by apply Hnil in Hd.
  - destruct n as [|n]; simpl in Hd; [done|]. by apply Hnil in Hd.
  - destruct n as [|n]; simpl in Hd; [done|]. destruct (IH n k w nx Hd) as (c' & R & E & HP & HQ & Hok).
    cbn [chain_set_val]. rewrite E. exists (NoValue k0 c'), ((k0, None) :: R). split; [done|]. simpl. split_and!.
    + rewrite HP. apply Permutation_swap.
    + rewrite HQ. apply Permutation_swap.
    + intros [? ?]. auto.
  - destruct n as [|n]; simpl in Hd.
    + injection Hd as -> -> ->. exists (Normal k v nx), (chain_entries nx). done.
    + destruct (IH n k w nx Hd) as (c' & R & E & HP & HQ & Hok).
      cbn [chain_set_val]. rewrite E. exists (Normal k0 w0 c'), ((k0, w0) :: R). split; [done|]. simpl. split_and!.
      * rewrite HP. apply Permutation_swap.
      * rewrite HQ. apply Permutation_swap.
      * intros [? ?]. auto.
Qed.

Lemma set_val_spec d es i x n de e val :
  DictOk d es -> get_entry d (i, x, n) = Some de -> head_entry de = Some e -> entryHasValue de = true ->
  exists d' S, dictSetVal d (i, x, n) val = Some d' /\ es ≡ₚ e :: S /\
    DictOk d' ((e.1, Some (stored_val val)) :: S) /\ same_ctl d d'.
Proof.
  intros Hok Hge Hhe Hv. unfold dictSetVal. fold (stored_val val). unfold get_entry in Hge.
  destruct (get_bucket d i x) as [c|] eqn:Hg; [|done]. cbn [mbind option_bind] in *.
  destruct (is_nil (chain_drop c n)) eqn:En; [done|]. injection Hge as <-.
  destruct (chain_drop c n) as [| | |k w nx] eqn:Ed; try done. injection Hhe as <-.
  destruct (chain_set_val_spec (Some (stored_val val)) c n k w nx Ed) as (c' & R & -> & HP & HQ & Hcok).
  cbn [mbind option_bind]. destruct (bucket_table d es i x c Hok Hg) as (Hx & tb & Ht & Hc & Hri).
  rewrite (set_bucket_at d i tb x c c' Ht Hx Hc).
  destruct (dict_replace d es i tb (Z.to_nat x) c c' [(k, w)] [(k, Some (stored_val val))] R (used (ht d i)))
    as (S & HS & Hok'); try done.
  - apply Hcok. by eapply Forall_lookup_1; [apply Ht|].
  - intros e He. rewrite HQ in He. apply elem_of_cons in He as [->|He].
    + apply (to_hash _ _ Ht _ c (k, w) Hc). rewrite HP. by left.
    + apply (to_hash _ _ Ht _ c e Hc). rewrite HP. by right.
  - intros ->. apply Hri; [done|]. intros ->. by apply Permutation_nil_cons in HP.
  - change (zlen [(k, w)]) with 1. change (zlen [(k, Some (stored_val val))]) with 1. lia.
  - rewrite set_table_used in Hok'. eexists _, S. split; [done|]. split; [exact HS|]. split; [exact Hok'|].
    by destruct i.
Qed.

Lemma distinct_value e v S : distinct stored (e :: S) -> distinct stored ((e.1, v) :: S).
Proof. done. Qed.

(** The value of a new entry. *)
Lemma new_value_spec d es k i x c val :
  DictInv stored d ((k, None) :: es) -> get_bucket d i x = Some c -> head_entry c = Some (k, None) -> c <> Nil ->
  entryHasValue c = true ->
  exists d', dictSetVal d (i, x, 0%nat) val = Some d' /\ same_flags d d' /\
    DictInv stored d' ((k, Some (stored_val val)) :: es).
Proof.
  intros Hinv Hg Hhe Hne Hv.
  assert (get_entry d (i, x, 0%nat) = Some c) as Hge.
  { unfold get_entry. rewrite Hg. cbn. by destruct c. }
  destruct (set_val_spec d _ i x 0 c _ val (di_ok _ _ _ Hinv) Hge Hhe Hv) as (d2 & S & -> & HS & Hok2 & Hc2).
  exists d2. split; [done|]. split; [by apply same_ctl_flags|]. apply Permutation_cons_inv in HS. split.
  - eapply dict_ok_perm; [exact Hok2|]. simpl. by rewrite HS.
  - destruct Hc2 as (_ & _ & -> & _). apply Hinv.
  - exact (di_distinct _ _ _ Hinv).
Qed.

(** ** Adding *)

Lemma dictAdd_spec resize d es key val :
  DictInv stored d es -> zlen es < 2 ^ 59 -> pauseAutoResize d <= 0 \/ is_Some (table (ht0 d)) ->
  exists d' added, dictAdd resize d key val = Some (d', added) /\ same_flags d d' /\
    if added : bool
    then (forall e, e ∈ es -> keq (stored := stored) key e.1 = false) /\
         DictInv stored d' ((stored_key key, if no_value then None else Some (stored_val val)) :: es)
    else (exists e, e ∈ es /\ keq (stored := stored) key e.1 = true) /\ DictInv stored d' es.
Proof.
  intros Hinv Hlen Hauto. unfold dictAdd.
  destruct (add_raw_spec resize d es key Hinv Hlen Hauto) as (d1 & r & -> & Hf & Hr). cbn [mbind option_bind].
  destruct r as [[[i x] n]|r].
  - destruct Hr as (Hinv1 & Hno & -> & c & Hg & Hhe & Hne & Hv).
    destruct no_value eqn:Env; [by exists d1, true|].
    destruct (new_value_spec d1 es _ i x c val Hinv1 Hg Hhe Hne (Hv eq_refl)) as (d2 & -> & Hf2 & Hinv2).
    cbn [mbind option_bind]. exists d2, true. split; [done|].
    split; [by apply (same_flags_trans d d1 d2)|]. done.
  - destruct Hr as (Hinv1 & de & e & _ & _ & He & Hk). exists d1, false. split_and!; try done. by exists e.
Qed.

(** In a dictionary with values every entry has one. *)
Lemma entry_kind d es i x n de :
  no_value = false -> DictOk d es -> get_entry d (i, x, n) = Some de -> entryHasValue de = true.
Proof.
  intros Env Hok Hge. unfold get_entry in Hge. destruct (get_bucket d i x) as [c|] eqn:Hg; [|done]. simpl in Hge.
  destruct (bucket_table d es i x c Hok Hg) as (_ & tb & Ht & Hc & _).
  assert (chain_ok c) as Hcok by (by eapply Forall_lookup_1; [apply Ht|]).
  destruct (is_nil (chain_drop c n)) eqn:En; [done|]. injection Hge as <-.
  clear -Hcok En Env. revert c Hcok En. induction n as [|n IH]; intros c Hcok En; simpl in *.
  - destruct c; simpl in *; try done; [congruence|destruct Hcok; congruence].
  - apply IH; [|done]. destruct c; simpl in *; try done; apply Hcok.
Qed.

Lemma dictReplace_spec resize d es key val :
  no_value = false ->
  DictInv stored d es -> zlen es < 2 ^ 59 -> pauseAutoResize d <= 0 \/ is_Some (table (ht0 d)) ->
  exists d' added, dictReplace resize d key val = Some (d', added) /\ same_flags d d' /\
    if added : bool
    then (forall e, e ∈ es -> keq (stored := stored) key e.1 = false) /\
         DictInv stored d' ((stored_key key, Some (stored_val val)) :: es)
    else exists e S, es ≡ₚ e :: S /\ keq (stored := stored) key e.1 = true /\
           DictInv stored d' ((e.1, Some (stored_val val)) :: S).
Proof.
  intros Env Hinv Hlen Hauto. unfold dictReplace.
  destruct (add_raw_spec resize d es key Hinv Hlen Hauto) as (d1 & r & -> & Hf & Hr). cbn [mbind option_bind].
  destruct r as [[[i x] n]|[[i x] n]].
  - destruct Hr as (Hinv1 & Hno & -> & c & Hg & Hhe & Hne & Hv).
    destruct (new_value_spec d1 es _ i x c val Hinv1 Hg Hhe Hne (Hv Env)) as (d2 & -> & Hf2 & Hinv2).
    cbn [mbind option_bind]. exists d2, true. split; [done|].
    split; [by apply (same_flags_trans d d1 d2)|]. done.
  - destruct Hr as (Hinv1 & de & e & Hge & Hhe & He & Hk). rewrite Hge. cbn [mbind option_bind].
    pose proof (entry_kind d1 es i x n de Env (di_ok _ _ _ Hinv1) Hge) as Hval.
    rewrite Hval. cbn [assert_true mbind option_bind].
    destruct (set_val_spec d1 _ i x n de e val (di_ok _ _ _ Hinv1) Hge Hhe Hval) as (d2 & S & -> & HS & Hok2 & Hc2).
    cbn [mbind option_bind]. eexists _, false. split; [done|].
    split; [apply (same_flags_trans d d1 d2); [done|by apply same_ctl_flags]|].
    exists e, S. split; [done|]. split; [done|]. split.
    + clear -Hok2. destruct Hok2 as [H0 H1 Hr Hes|tb0 H0 H1 Hr HE|tb0 tb1 H0 H1 Hr Hb HE]; [done|..].
      * by eapply Ok_single.
      * by eapply Ok_double.
    + destruct Hc2 as (_ & _ & Hst & _). simpl. rewrite Hst. apply Hinv1.
    + apply (distinct_value e), (distinct_perm stored es); [done|apply Hinv1].
Qed.
End Update.

(** ** Hash tables: deletion, value lookup and two-phase unlinking *)

Section Delete.
Context `{T : DictType} (stored : bool) `{!DictTypeOk T stored}.

Notation entry := (dkey * option dval)%type.

Lemma chain_unlink_spec d key c :
  useStoredKeyApi d = stored ->
  match chain_unlink d key c with
  | Some (he, c') => exists e, head_entry he = Some e /\ keq (stored := stored) key e.1 = true /\
      chain_entries c ≡ₚ e :: chain_entries c' /\ (chain_ok c -> chain_ok c' /\ chain_ok he)
  | None => forall e, e ∈ chain_entries c -> keq (stored := stored) key e.1 = false
  end.
Proof.
  intros Hst. induction c as [|k|k nx IH|k v nx IH]; cbn [chain_unlink].
  - intros e He. by apply not_elem_of_nil in He.
  - rewrite (match_ok d key k Hst). destruct (keq key k) eqn:Ek.
    + by exists (k, None).
    + intros e He. apply list_elem_of_singleton in He as ->. done.
  - rewrite (match_ok d key k Hst). destruct (keq key k) eqn:Ek.
    { exists (k, None). split_and!; try done. by intros [? ?]. }
    destruct (chain_unlink d key nx) as [[he c']|]; cbn [mbind option_bind].
    + destruct IH as (e & H1 & H2 & HP & Hok). exists e. split_and!; try done.
      * simpl. rewrite HP. apply Permutation_swap.
      * intros [Hnv Hn]. destruct (Hok Hn). done.
    + intros e [->|He]%elem_of_cons; [done|by apply IH].
  - rewrite (match_ok d key k Hst). destruct (keq key k) eqn:Ek.
    { exists (k, v). split_and!; try done. by intros [? ?]. }
    destruct (chain_unlink d key nx) as [[he c']|]; cbn [mbind option_bind].
    + destruct IH as (e & H1 & H2 & HP & Hok). exists e. split_and!; try done.
      * simpl. rewrite HP. apply Permutation_swap.
      * intros [Hnv Hn]. destruct (Hok Hn). done.
    + intros e [->|He]%elem_of_cons; [done|by apply IH].
Qed.

Lemma free_entry_spec d he e :
  chain_ok he -> head_entry he = Some e ->
  exists evs, dictFreeUnlinkedEntry d (Some he) = Some (emit d evs).
Proof.
  intros Hok He. unfold dictFreeUnlinkedEntry.
  assert (negb valDestructor || entryHasValue he = true) as ->.
  { destruct he as [|k|k nx|k v nx]; simpl in *.
    - done.
    - by rewrite (no_value_ok (stored := stored) Hok).
    - by rewrite (no_value_ok (stored := stored) (proj1 Hok)).
    - apply orb_true_r. }
  destruct he; simpl in *; try done; by eexists.
Qed.

Lemma emit_ok d es evs : DictOk d es -> DictOk (emit d evs) es.
Proof.
  intros [H0 H1 Hr Hes|tb0 H0 H1 Hr HE|tb0 tb1 H0 H1 Hr Hb HE].
  - by apply Ok_empty.
  - by eapply Ok_single.
  - by eapply Ok_double.
Qed.

(** Removing an entry of a bucket. *)
Lemma remove_spec d es i x tb c c' e :
  DictOk d es -> zlen es < 2 ^ 59 -> 0 <= x -> TableOk (ht d i) tb -> tb !! Z.to_nat x = Some c ->
  (i = false -> c <> Nil -> rehashidx d <= Z.of_nat (Z.to_nat x)) -> chain_ok c' ->
  chain_entries c ≡ₚ e :: chain_entries c' ->
  exists S, es ≡ₚ e :: S /\
    DictOk (set_ht d i (set_used (set_table (ht d i) (<[Z.to_nat x := c']> tb)) (u64 (used (ht d i) - 1)))) S.
Proof.
  intros Hok Hlen Hx Ht Hc Hri Hok' HP. pose proof (used_range d es i Hok Hlen) as Hu.
  assert (1 <= used (ht d i)).
  { rewrite (to_used _ _ Ht). pose proof (zlen_tb_lookup tb _ c Hc) as Hle. unfold zlen in *.
    rewrite HP in Hle. simpl in Hle. lia. }
  destruct (dict_replace d es i tb (Z.to_nat x) c c' [e] [] (chain_entries c') (u64 (used (ht d i) - 1)))
    as (S & HS & HokS); try done.
  - intros f Hf. apply (to_hash _ _ Ht _ c f Hc). rewrite HP. by right.
  - intros ->. apply Hri; [done|]. intros ->. by apply Permutation_nil_cons in HP.
  - rewrite wrapu_small by lia. change (zlen [e]) with 1. change (zlen []) with 0. lia.
  - by exists S.
Qed.

Lemma set_ht_twice d i t t' : set_ht (set_ht d i t) i t' = set_ht d i t'.
Proof. by destruct i. Qed.
Lemma get_set_ht d i t : ht (set_ht d i t) i = t.
Proof. by destruct i. Qed.
Lemma emit_set_ht d i t evs : emit (set_ht d i t) evs = set_ht (emit d evs) i t.
Proof. by destruct i. Qed.
Lemma ht_emit d i evs : ht (emit d evs) i = ht d i.
Proof. by destruct i. Qed.
Lemma emit_nil d : emit d [] = d.
Proof. destruct d. unfold emit. simpl. by rewrite app_nil_r. Qed.

Lemma unlink_in_table_spec resize d es i tb key nofree :
  DictInv stored d es -> zlen es < 2 ^ 59 -> TableOk (ht d i) tb ->
  (exists he e d' S, unlink_in_table resize d i key (dictHashKey key stored) nofree = Some (d', Some he) /\
     head_entry he = Some e /\ keq (stored := stored) key e.1 = true /\ es ≡ₚ e :: S /\
     DictInv stored d' S /\ same_flags d d') \/
  (unlink_in_table resize d i key (dictHashKey key stored) nofree = Some (d, None) /\
     forall e, e ∈ tb_entries tb -> keq (stored := stored) key e.1 = false).
Proof.
  intros Hinv Hlen Ht. pose proof (di_ok _ _ _ Hinv) as Hok. unfold unlink_in_table.
  pose proof (to_exp _ _ Ht). rewrite mask_mod by lia.
  destruct (bucket_of (ht d i) tb (dictHashKey key stored) Ht) as [Hpos [c Hc]]. set (x := _ mod _) in *.
  assert (get_bucket d i x = Some c) as Hg by (by rewrite (get_bucket_at d i tb x Ht Hpos)).
  rewrite Hg. cbn [mbind option_bind].
  pose proof (chain_unlink_spec d key c (di_stored _ _ _ Hinv)) as Hcu.
  destruct (chain_unlink d key c) as [[he c']|].
  - left. destruct Hcu as (e & Hhe & Hk & HP & Hkinds).
    destruct (Hkinds ltac:(by eapply Forall_lookup_1; [apply Ht|])) as [Hok' Hokhe].
    rewrite (set_bucket_at d i tb x c c' Ht Hpos Hc). cbn [mbind option_bind].
    set (d1 := set_ht d i _).
    assert (exists evs, (if nofree then Some d1 else dictFreeUnlinkedEntry d1 (Some he)) = Some (emit d1 evs)) as [evs ->].
    { destruct nofree; [exists []; by rewrite emit_nil|by eapply free_entry_spec]. }
    cbn [mbind option_bind]. rewrite ht_emit. unfold d1. rewrite get_set_ht, emit_set_ht, set_ht_twice.
    destruct (remove_spec (emit d evs) es i x tb c c' e) as (S & HS & HokS); try done.
    { by apply emit_ok. }
    { destruct (bucket_table d es i x c Hok Hg) as (_ & tb' & _ & _ & Hri). exact Hri. }
    rewrite ht_emit in HokS. change (used (set_table (ht d i) (<[Z.to_nat x := c']> tb))) with (used (ht d i)).
    assert (zlen S < 2 ^ 59) as HlenS by (unfold zlen in *; rewrite HS in Hlen; simpl in Hlen; lia).
    destruct (shrink_if_needed_spec resize _ S HokS HlenS) as (d' & -> & Hok2 & Hf2).
    cbn [mbind option_bind]. exists he, e, d', S. split_and!; try done.
    + split; [done| |].
      * destruct Hf2 as (_ & -> & _). destruct i; apply Hinv.
      * apply (distinct_perm stored es (e :: S) HS). apply Hinv.
    + eapply same_flags_trans; [|exact Hf2]. by destruct i.
  - right. split; [done|]. intros e He. apply not_true_iff_false. intros Hk.
    destruct (entry_bucket stored _ tb key e Ht He Hk) as (c2 & Hc2 & Hin).
    change (tb !! Z.to_nat x = Some c2) in Hc2. rewrite Hc in Hc2. injection Hc2 as <-.
    by rewrite (Hcu e Hin) in Hk.
Qed.

(** Deletion removes the entry with the key, or finds that there is none. *)
Lemma dictGenericDelete_spec resize d es key nofree :
  DictInv stored d es -> zlen es < 2 ^ 59 ->
  exists d' r, dictGenericDelete resize d key nofree = Some (d', r) /\ same_flags d d' /\
    match r with
    | Some he => exists e S, head_entry he = Some e /\ keq (stored := stored) key e.1 = true /\
        es ≡ₚ e :: S /\ DictInv stored d' S
    | None => (forall e, e ∈ es -> keq (stored := stored) key e.1 = false) /\ DictInv stored d' es
    end.
Proof.
  intros Hinv Hlen. pose proof (di_ok _ _ _ Hinv) as Hok. unfold dictGenericDelete.
  rewrite (dict_size d es Hok Hlen). destruct (Z.eqb_spec (zlen es) 0) as [Hz|Hz].
  { exists d, None. split_and!; try done. intros e He. destruct es; [by apply not_elem_of_nil in He|done]. }
  assert (es <> []) as Hne by (intros ->; done).
  rewrite (di_stored _ _ _ Hinv). pose proof (hash_range (stored := stored) key stored) as Hh.
  destruct (index_range stored d es key Hok) as [Hidx Hmod].
  destruct (rehash_for_spec stored resize d es (dictHashKey key stored) Hok ltac:(lia) Hh)
    as (d1 & -> & Hok1 & Hf1 & Hexp & _).
  cbn [mbind option_bind]. pose proof (inv_flags stored d d1 es Hinv Hok1 Hf1) as Hinv1.
  rewrite wraps_small by lia. set (idx := Z.land _ _) in *.
  assert (Hskip : forall tb0, TableOk (ht0 d1) tb0 ->
    (forall i c, Z.of_nat i < rehashidx d1 -> tb0 !! i = Some c -> c = Nil) -> idx < rehashidx d1 ->
    forall e, e ∈ tb_entries tb0 -> keq (stored := stored) key e.1 = false).
  { intros tb0 H0 Hb Hlt. apply (skipped_bucket stored d1 tb0 key idx H0 Hb); [lia|].
    rewrite Hexp by (apply is_rehashing; lia). apply Hmod. by eapply has_table. }
  assert (Hhit : forall i he e d' S, unlink_in_table resize d1 i key (dictHashKey key stored) nofree = Some (d', Some he) ->
    head_entry he = Some e -> keq (stored := stored) key e.1 = true -> es ≡ₚ e :: S -> DictInv stored d' S ->
    same_flags d1 d' -> same_flags d d' /\ exists e S, head_entry he = Some e /\ keq (stored := stored) key e.1 = true /\
        es ≡ₚ e :: S /\ DictInv stored d' S).
  { intros i he e d' S _ ? ? ? ? Hf2. split; [by apply (same_flags_trans d d1 d')|]. by exists e, S. }
  assert (Hcase : DictOk d1 es) by done.
  destruct Hcase as [H0 H1 Hr Hes|tb0 H0 H1 Hr HE|tb0 tb1 H0 H1 Hr Hb HE]; [done|..].
  - destruct (Z.ltb_spec idx (rehashidx d1)); [lia|].
    destruct (unlink_in_table_spec resize d1 es false tb0 key nofree Hinv1 Hlen H0)
      as [(he & e & d' & S & E1 & ? & ? & ? & ? & ?)|[E1 Hno]]; rewrite E1; cbn [mbind option_bind].
    + exists d', (Some he). split; [done|]. by eapply Hhit.
    + rewrite (not_rehashing d1 Hr). exists d1, None. split_and!; try done. intros e He. apply Hno. by rewrite <- HE.
  - assert (Hlast : (forall e, e ∈ tb_entries tb0 -> keq (stored := stored) key e.1 = false) ->
      exists d' r, unlink_in_table resize d1 true key (dictHashKey key stored) nofree = Some (d', r) /\ same_flags d d' /\
      match r with
      | Some he => exists e S, head_entry he = Some e /\ keq (stored := stored) key e.1 = true /\
          es ≡ₚ e :: S /\ DictInv stored d' S
      | None => (forall e, e ∈ es -> keq (stored := stored) key e.1 = false) /\ DictInv stored d' es
      end).
    { intros Hno0. destruct (unlink_in_table_spec resize d1 es true tb1 key nofree Hinv1 Hlen H1)
        as [(he & e & d' & S & E1 & ? & ? & ? & ? & ?)|[E1 Hno]]; rewrite E1.
      - exists d', (Some he). split; [done|]. by eapply Hhit.
      - exists d1, None. split_and!; try done. intros e He. rewrite HE in He.
        apply elem_of_app in He as [He|He]; [by apply Hno0|by apply Hno]. }
    destruct (Z.ltb_spec idx (rehashidx d1)) as [Hlt|Hge].
    + apply Hlast. by apply (Hskip tb0).
    + destruct (unlink_in_table_spec resize d1 es false tb0 key nofree Hinv1 Hlen H0)
        as [(he & e & d' & S & E1 & ? & ? & ? & ? & ?)|[E1 Hno]]; rewrite E1; cbn [mbind option_bind].
      * exists d', (Some he). split; [done|]. by eapply Hhit.
      * rewrite is_rehashing by lia. by apply Hlast.
Qed.
End Delete.
