(* ===== verification/DictScanFacts.v ===== *)
(** * Hash tables: the order in which a scan visits the buckets

    [rev] reverses the 64 bits of the cursor.  Reversed, the hashes that fall in one bucket
    of a table of [2 ^ e] buckets are an interval of length [2 ^ (64 - e)], whatever [e] is,
    and the cursor after a call is the end of the interval just visited. *)
From S2P Require Import Prelude Dict DictOps DictFacts DictRehash DictFind.

(** ** Bit reversal *)

Lemma u64_testbit v i : 0 <= i < 64 -> Z.testbit (u64 v) i = Z.testbit v i.
Proof. intros Hi. unfold wrapu. apply Z.mod_pow2_bits_low. lia. Qed.

Lemma not_testbit m i : 0 <= i < 64 -> Z.testbit (ulong_not m) i = negb (Z.testbit m i).
Proof.
  intros Hi. unfold ulong_not, UINT64_MAX. rewrite Z.lxor_spec.
  change 18446744073709551615 with (Z.ones 64). rewrite Z.ones_spec_low by lia. by rewrite xorb_true_r.
Qed.

(** One round swaps the halves of each block of bits: bit [i] comes from [s] higher where
    the mask is set, and from [s] lower elsewhere. *)
Lemma rev_round m s v i :
  0 <= i < 64 -> 0 <= s ->
  Z.testbit (Z.lor (Z.land (Z.shiftr v s) m) (Z.land (u64 (Z.shiftl v s)) (ulong_not m))) i =
  if Z.testbit m i then Z.testbit v (i + s) else Z.testbit v (i - s).
Proof.
  intros Hi Hs. rewrite Z.lor_spec, !Z.land_spec, Z.shiftr_spec, u64_testbit, not_testbit, Z.shiftl_spec by lia.
  destruct (Z.testbit m i); rewrite ?andb_true_r, ?andb_false_r, ?orb_false_r; done.
Qed.

Lemma high_bit n v i : 0 <= v < 2 ^ n -> 0 <= n <= i -> Z.testbit v i = false.
Proof. intros Hv Hi. rewrite <- (Z.mod_small v (2 ^ n)) by done. by apply Z.mod_pow2_bits_high. Qed.

Lemma bits_range n v : 0 <= n -> (forall i, n <= i -> Z.testbit v i = false) -> 0 <= v < 2 ^ n.
Proof.
  intros Hn Hb. assert (v = v mod 2 ^ n) as ->; [|apply Z.mod_pos_bound, Z.pow_pos_nonneg; lia].
  apply Z.bits_inj'. intros i Hi. destruct (decide (i < n)).
  - by rewrite Z.mod_pow2_bits_low.
  - rewrite Z.mod_pow2_bits_high, Hb by lia. done.
Qed.

(** Two words are equal when their 64 bits are. *)
Lemma word_eq v w :
  0 <= v < 2 ^ 64 -> 0 <= w < 2 ^ 64 -> (forall i, 0 <= i < 64 -> Z.testbit v i = Z.testbit w i) -> v = w.
Proof.
  intros Hv Hw Hb. apply Z.bits_inj'. intros i Hi. destruct (decide (i < 64)); [by apply Hb|].
  by rewrite !(high_bit 64) by lia.
Qed.

Lemma rev_loop_range shifts : forall m v,
  0 <= v < 2 ^ 64 -> Forall (fun s => 0 <= s) shifts -> 0 <= rev_loop shifts m v < 2 ^ 64.
Proof.
  induction shifts as [|s shifts IH]; intros m v Hv Hs; [done|]. inversion Hs as [|? ? Hs0 Hss]; subst.
  cbn [rev_loop]. set (m' := Z.lxor _ _). apply IH; [|done]. apply bits_range; [lia|]. intros i Hi.
  rewrite Z.lor_spec, !Z.land_spec, Z.shiftr_spec, (high_bit 64 v), (high_bit 64 (u64 _)) by (try apply wrapu_range; lia).
  done.
Qed.

Lemma rev_range v : 0 <= v < 2 ^ 64 -> 0 <= rev v < 2 ^ 64.
Proof. intros Hv. unfold rev. apply rev_loop_range; [done|]. repeat constructor; lia. Qed.

(** The bit of the word that ends at bit [i]. *)
Fixpoint rev_source (shifts : list Z) (mask i : Z) : option Z :=
  match shifts with
  | [] => Some i
  | s :: shifts =>
      let mask := Z.lxor mask (u64 (Z.shiftl mask s)) in
      j ← rev_source shifts mask i;
      if (0 <=? j) && (j <? 64) && (0 <=? s) then Some (if Z.testbit mask j then j + s else j - s) else None
  end.

Lemma rev_source_spec shifts : forall mask v i j,
  rev_source shifts mask i = Some j -> Z.testbit (rev_loop shifts mask v) i = Z.testbit v j.
Proof.
  induction shifts as [|s shifts IH]; intros mask v i j Hj; [by injection Hj as ->|].
  cbn [rev_source rev_loop] in *. set (m := Z.lxor mask _) in *.
  destruct (rev_source shifts m i) as [j0|] eqn:E; [|done]. cbn [mbind option_bind] in Hj.
  destruct ((0 <=? j0) && (j0 <? 64) && (0 <=? s)) eqn:Er; [|done]. injection Hj as <-.
  rewrite (IH m _ i j0 E), rev_round by lia. by destruct (Z.testbit m j0).
Qed.

Lemma rev_source_all :
  forallb (fun i => bool_decide (rev_source [32; 16; 8; 4; 2; 1] UINT64_MAX i = Some (63 - i))) (seqZ 0 64) = true.
Proof. vm_compute. reflexivity. Qed.

Lemma rev_testbit v i : 0 <= i < 64 -> Z.testbit (rev v) i = Z.testbit v (63 - i).
Proof.
  intros Hi. unfold rev. apply rev_source_spec.
  pose proof (proj1 (forallb_forall _ _) rev_source_all i) as H. apply bool_decide_eq_true in H; [done|].
  apply list_elem_of_In, elem_of_seqZ. lia.
Qed.

Lemma rev_involutive v : 0 <= v < 2 ^ 64 -> rev (rev v) = v.
Proof.
  intros Hv. apply word_eq; [by apply rev_range, rev_range|done|]. intros i Hi.
  rewrite !rev_testbit by lia. f_equal. lia.
Qed.

Lemma rev_inj v w : 0 <= v < 2 ^ 64 -> 0 <= w < 2 ^ 64 -> rev v = rev w -> v = w.
Proof. intros Hv Hw E. rewrite <- (rev_involutive v), <- (rev_involutive w), E by done. done. Qed.

(** ** Buckets are intervals of reversed hashes *)

Definition stride (e : Z) : Z := 2 ^ (64 - e).

Lemma stride_pos e : e <= 64 -> 0 < stride e.
Proof. intros He. apply Z.pow_pos_nonneg; lia. Qed.

Lemma stride_words e : 0 <= e <= 64 -> 2 ^ e * stride e = 2 ^ 64.
Proof. intros He. unfold stride. rewrite <- Z.pow_add_r by lia. f_equal. lia. Qed.

Lemma stride_split e0 e1 : 0 <= e0 <= e1 -> e1 <= 64 -> stride e0 = 2 ^ (e1 - e0) * stride e1.
Proof. intros H0 H1. unfold stride. rewrite <- Z.pow_add_r by lia. f_equal. lia. Qed.

Lemma rev_low v e : 0 <= v < 2 ^ 64 -> 0 <= e <= 64 -> rev (v mod 2 ^ e) = rev v / stride e * stride e.
Proof.
  intros Hv He. pose proof (rev_range v Hv) as Hr. unfold stride.
  assert (0 <= v mod 2 ^ e < 2 ^ 64).
  { split; [apply Z.mod_pos_bound, Z.pow_pos_nonneg; lia|].
    assert (v mod 2 ^ e <= v); [|lia]. apply Z.mod_le; [lia|]. apply Z.pow_pos_nonneg; lia. }
  apply Z.bits_inj'. intros i Hi. destruct (decide (i < 64)).
  - rewrite rev_testbit by lia. destruct (decide (i < 64 - e)).
    + rewrite Z.mul_pow2_bits_low, Z.mod_pow2_bits_high by lia. done.
    + rewrite Z.mul_pow2_bits, Z.div_pow2_bits, Z.mod_pow2_bits_low, rev_testbit by lia. f_equal. lia.
  - rewrite (high_bit 64) by (try apply rev_range; lia).
    rewrite Z.mul_pow2_bits, Z.div_pow2_bits, (high_bit 64) by lia. done.
Qed.

Lemma mod_range v e : 0 <= v < 2 ^ 64 -> 0 <= e -> 0 <= v mod 2 ^ e < 2 ^ 64.
Proof.
  intros Hv He. assert (0 < 2 ^ e) by (apply Z.pow_pos_nonneg; lia).
  pose proof (Z.mod_pos_bound v (2 ^ e) ltac:(done)). pose proof (Z.mod_le v (2 ^ e) ltac:(lia) ltac:(lia)). lia.
Qed.

(** Two hashes fall in one bucket when their reversals are in one interval. *)
Lemma same_bucket h v e :
  0 <= h < 2 ^ 64 -> 0 <= v < 2 ^ 64 -> 0 <= e <= 64 ->
  rev h / stride e = rev v / stride e -> h mod 2 ^ e = v mod 2 ^ e.
Proof.
  intros Hh Hv He E. apply rev_inj; [by apply mod_range; [|lia]..|]. by rewrite !rev_low, E by done.
Qed.

Lemma next_cursor_rev v e :
  0 <= v < 2 ^ 64 -> 0 <= e <= 63 ->
  0 <= next_cursor v (DICTHT_SIZE_MASK e) < 2 ^ 64 /\
  rev (next_cursor v (DICTHT_SIZE_MASK e)) = u64 ((rev v / stride e + 1) * stride e).
Proof.
  intros Hv He. unfold next_cursor.
  assert (DICTHT_SIZE_MASK e = Z.ones e) as ->.
  { unfold DICTHT_SIZE_MASK. destruct (Z.eqb_spec e (-1)); [lia|]. rewrite size_pow, Z.ones_equiv by lia. lia. }
  assert (rev (Z.lor v (ulong_not (Z.ones e))) = rev v / stride e * stride e + (stride e - 1)) as ->.
  2: { replace (rev v / stride e * stride e + (stride e - 1) + 1) with ((rev v / stride e + 1) * stride e) by lia.
       split; [apply rev_range|apply rev_involutive]; by apply wrapu_range. }
  pose proof (rev_range v Hv) as Hr.
  replace (rev v / stride e * stride e + (stride e - 1)) with (Z.lor (rev v / stride e * stride e) (Z.ones (64 - e))).
  2: { unfold stride. rewrite <- Z.shiftl_mul_pow2 by lia.
       assert (Z.land (Z.shiftl (rev v / 2 ^ (64 - e)) (64 - e)) (Z.ones (64 - e)) = 0) as Hd.
       { apply Z.bits_inj'. intros i Hi. rewrite Z.land_spec, Z.bits_0, Z.shiftl_spec by lia.
         destruct (decide (i < 64 - e)); [by rewrite Z.testbit_neg_r by lia|].
         by rewrite Z.ones_spec_high, andb_false_r by lia. }
       rewrite <- Z.lxor_lor, <- Z.add_nocarry_lxor, Z.ones_equiv by done. lia. }
  assert (Hmask : 0 <= Z.lor v (ulong_not (Z.ones e)) < 2 ^ 64).
  { apply bits_range; [lia|]. intros i Hi. unfold ulong_not, UINT64_MAX.
    change 18446744073709551615 with (Z.ones 64).
    rewrite Z.lor_spec, Z.lxor_spec, (high_bit 64 v), !Z.ones_spec_high by lia. done. }
  unfold stride. apply Z.bits_inj'. intros i Hi. rewrite Z.lor_spec. destruct (decide (i < 64)).
  - rewrite rev_testbit, Z.lor_spec, not_testbit by lia. destruct (decide (i < 64 - e)).
    + rewrite Z.mul_pow2_bits_low, (Z.ones_spec_low (64 - e)), Z.ones_spec_high by lia. by rewrite orb_true_r.
    + rewrite Z.mul_pow2_bits, Z.div_pow2_bits, (Z.ones_spec_high (64 - e)), Z.ones_spec_low, rev_testbit by lia.
      rewrite !orb_false_r. f_equal. lia.
  - rewrite (high_bit 64 (rev (Z.lor v _))) by (try apply rev_range; lia).
    rewrite Z.mul_pow2_bits, Z.div_pow2_bits, (high_bit 64 (rev v)), Z.ones_spec_high by lia. done.
Qed.

Lemma rev_0 : rev 0 = 0.
Proof. reflexivity. Qed.

(** [v'] is the cursor after the interval of [v] among [2 ^ e]; 0 after the last one. *)
Definition advanced (e v v' : Z) : Prop :=
  0 <= v' < 2 ^ 64 /\
  (rev v / stride e + 1 = 2 ^ e /\ v' = 0 \/
   rev v / stride e + 1 < 2 ^ e /\ rev v' = (rev v / stride e + 1) * stride e).

Lemma rev_quotient v e : 0 <= v < 2 ^ 64 -> 0 <= e <= 64 -> 0 <= rev v / stride e < 2 ^ e.
Proof.
  intros Hv He. pose proof (rev_range v Hv) as Hr. pose proof (stride_pos e ltac:(lia)) as Hs.
  pose proof (stride_words e He). split; [apply Z.div_pos; lia|]. apply Z.div_lt_upper_bound; lia.
Qed.

Lemma next_cursor_advanced v e :
  0 <= v < 2 ^ 64 -> 0 <= e <= 63 -> advanced e v (next_cursor v (DICTHT_SIZE_MASK e)).
Proof.
  intros Hv He. destruct (next_cursor_rev v e Hv He) as [Hr E]. split; [done|].
  pose proof (rev_quotient v e Hv ltac:(lia)) as Hq. pose proof (stride_words e ltac:(lia)) as Hw.
  pose proof (stride_pos e ltac:(lia)) as Hs. set (q := rev v / stride e) in *.
  destruct (decide (q + 1 = 2 ^ e)) as [Hl|Hl]; [left|right].
  - split; [done|]. rewrite Hl, Hw in E. apply rev_inj; [done|done|]. rewrite E. done.
  - split; [lia|]. rewrite E. apply wrapu_small. nia.
Qed.

Lemma advanced_progress e v v' : 0 <= e <= 64 -> 0 <= v < 2 ^ 64 -> advanced e v v' -> v' = 0 \/ rev v < rev v'.
Proof.
  intros He Hv [_ [[_ ->]|[_ E]]]; [by left|right]. pose proof (stride_pos e ltac:(lia)).
  pose proof (rev_range v Hv). pose proof (Z.mod_pos_bound (rev v) (stride e) ltac:(done)).
  pose proof (Z.div_mod (rev v) (stride e) ltac:(lia)). nia.
Qed.

(** The reversed hashes from the cursor up to the next one are those of its interval. *)
Lemma advanced_interval e v v' h :
  0 <= e <= 64 -> 0 <= v < 2 ^ 64 -> 0 <= h < 2 ^ 64 -> advanced e v v' ->
  rev v <= rev h -> v' = 0 \/ rev h < rev v' -> rev h / stride e = rev v / stride e.
Proof.
  intros He Hv Hh [_ Ha] Hle Hlt. pose proof (stride_pos e ltac:(lia)) as Hs.
  pose proof (Z.div_le_mono (rev v) (rev h) (stride e) Hs Hle) as H1.
  pose proof (rev_quotient h e Hh He) as H2. pose proof (stride_words e He).
  destruct Ha as [[Hq ->]|[Hq E]]; [lia|]. destruct Hlt as [->|Hlt].
  - rewrite rev_0 in E. pose proof (rev_quotient v e Hv He). nia.
  - assert (rev h / stride e < rev v / stride e + 1); [|lia]. apply Z.div_lt_upper_bound; [done|]. lia.
Qed.

(** ** The expansions of an index in the larger table *)

Lemma mask_diff v e0 e1 :
  0 <= e0 <= e1 -> Z.land v (Z.lxor (Z.ones e0) (Z.ones e1)) = 0 <-> v mod 2 ^ e1 = v mod 2 ^ e0.
Proof.
  intros He. assert (Hb : forall i, 0 <= i -> Z.testbit (Z.lxor (Z.ones e0) (Z.ones e1)) i = bool_decide (e0 <= i < e1)).
  { intros i Hi. rewrite Z.lxor_spec. destruct (decide (i < e0)); [|destruct (decide (i < e1))].
    - rewrite !Z.ones_spec_low by lia. symmetry. apply bool_decide_eq_false_2. lia.
    - rewrite Z.ones_spec_high, Z.ones_spec_low by lia. symmetry. apply bool_decide_eq_true_2. lia.
    - rewrite !Z.ones_spec_high by lia. symmetry. apply bool_decide_eq_false_2. lia. }
  split; intros E; apply Z.bits_inj'; intros i Hi.
  - apply (f_equal (fun z => Z.testbit z i)) in E. rewrite Z.land_spec, Hb, Z.bits_0 in E by done.
    destruct (decide (i < e1)); [rewrite Z.mod_pow2_bits_low by done|by rewrite !Z.mod_pow2_bits_high by lia].
    destruct (decide (i < e0)); [by rewrite Z.mod_pow2_bits_low by done|rewrite Z.mod_pow2_bits_high by lia].
    rewrite bool_decide_eq_true_2, andb_true_r in E by lia. done.
  - rewrite Z.land_spec, Hb, Z.bits_0 by done. case_bool_decide as Hr; [|apply andb_false_r].
    apply (f_equal (fun z => Z.testbit z i)) in E.
    rewrite Z.mod_pow2_bits_low, Z.mod_pow2_bits_high in E by lia. by rewrite E.
Qed.

Lemma mask_ones e : 0 <= e <= 63 -> DICTHT_SIZE_MASK e = Z.ones e.
Proof.
  intros He. unfold DICTHT_SIZE_MASK. destruct (Z.eqb_spec e (-1)); [lia|]. rewrite size_pow, Z.ones_equiv by lia. lia.
Qed.

Lemma quotient_coarse V e0 e1 :
  0 <= e0 <= e1 -> e1 <= 64 -> V / stride e0 = V / stride e1 / 2 ^ (e1 - e0).
Proof.
  intros H0 H1. rewrite (stride_split e0 e1) by lia. rewrite Z.mul_comm, Z.div_div; [done| |].
  - pose proof (stride_pos e1 ltac:(lia)). lia.
  - apply Z.pow_pos_nonneg; lia.
Qed.

Lemma mask_diff_rev v e0 e1 :
  0 <= v < 2 ^ 64 -> 0 <= e0 <= e1 -> e1 <= 63 ->
  Z.land v (Z.lxor (DICTHT_SIZE_MASK e0) (DICTHT_SIZE_MASK e1)) = 0 <-> (rev v / stride e1) mod 2 ^ (e1 - e0) = 0.
Proof.
  intros Hv H0 H1. rewrite !mask_ones, mask_diff by lia.
  assert (v mod 2 ^ e1 = v mod 2 ^ e0 <-> rev v / stride e1 * stride e1 = rev v / stride e0 * stride e0) as ->.
  { rewrite <- !rev_low by lia. split; [by intros ->|]. apply rev_inj; apply mod_range; lia. }
  rewrite (quotient_coarse _ e0 e1), (stride_split e0 e1) by lia.
  assert (0 < 2 ^ (e1 - e0)) by (apply Z.pow_pos_nonneg; lia). pose proof (stride_pos e1 ltac:(lia)).
  set (q := rev v / stride e1). pose proof (Z.div_mod q (2 ^ (e1 - e0)) ltac:(lia)). split; intros E; nia.
Qed.

Lemma expansions_pos e0 e1 : 0 <= e0 <= e1 -> 0 < 2 ^ (e1 - e0).
Proof. intros He. apply Z.pow_pos_nonneg; lia. Qed.

(** One step of the cursor in the larger table ends the interval of the smaller one, or
    stays inside it. *)
Section Expansion.
Context (e0 e1 v v1 : Z) (Hv : 0 <= v < 2 ^ 64) (He : 0 <= e0 <= e1) (He1 : e1 <= 63).
Context (Hadv : advanced e1 v v1).
Let K := 2 ^ (e1 - e0).
Let q := rev v / stride e1.

Lemma expansion_end :
  Z.land v1 (Z.lxor (DICTHT_SIZE_MASK e0) (DICTHT_SIZE_MASK e1)) = 0 -> q mod K = K - 1 /\ advanced e0 v v1.
Proof.
  intros Hz. rewrite mask_diff_rev in Hz by (try apply Hadv; lia). fold K in Hz. pose proof (expansions_pos e0 e1 He : 0 < K) as HK.
  pose proof (stride_pos e1 ltac:(lia)) as Hs1.
  assert (HE : 2 ^ e1 = 2 ^ e0 * K) by (unfold K; rewrite <- Z.pow_add_r by lia; f_equal; lia).
  assert (exists c, q + 1 = c * K) as [c Hc].
  { destruct Hadv as (_ & [[E _]|[_ E]]); fold q in E.
    - exists (2 ^ e0). lia.
    - rewrite E, Z.div_mul in Hz by lia. apply Z.mod_divide in Hz as [c Hc]; [by exists c|lia]. }
  assert (Hq : q = K - 1 + (c - 1) * K) by nia.
  assert (q mod K = K - 1) as Hm by (rewrite Hq, Z_mod_plus_full; apply Z.mod_small; lia).
  assert (q / K = c - 1) as Hd by (rewrite Hq, Z_div_plus_full, Z.div_small by lia; lia).
  split; [done|]. split; [apply Hadv|]. rewrite (quotient_coarse (rev v) e0 e1) by lia. fold q K. rewrite Hd.
  destruct Hadv as (_ & [[E Ez]|[Hlt E]]); fold q in E; [left|right; fold q in Hlt].
  - split; [nia|done].
  - split; [nia|]. rewrite E, (stride_split e0 e1) by lia. fold K. nia.
Qed.

Lemma expansion_inner :
  Z.land v1 (Z.lxor (DICTHT_SIZE_MASK e0) (DICTHT_SIZE_MASK e1)) <> 0 ->
  rev v1 / stride e1 = q + 1 /\ (q + 1) mod K = q mod K + 1 /\ rev v1 / stride e0 = rev v / stride e0.
Proof.
  intros Hz. assert (v1 <> 0) as Hn0 by (intros ->; by rewrite Z.land_0_l in Hz).
  rewrite mask_diff_rev in Hz by (try apply Hadv; lia). fold K in Hz. pose proof (expansions_pos e0 e1 He : 0 < K) as HK.
  pose proof (stride_pos e1 ltac:(lia)) as Hs1.
  assert (rev v1 / stride e1 = q + 1) as Hq1.
  { destruct Hadv as (_ & [[_ ->]|[_ ->]]); [done|]. apply Z.div_mul. lia. }
  rewrite Hq1 in Hz. pose proof (Z.div_mod q K ltac:(lia)) as Hdm. pose proof (Z.mod_pos_bound q K HK) as Hm.
  split; [done|]. rewrite !(quotient_coarse _ e0 e1), Hq1 by lia. fold q K.
  destruct (decide (q mod K = K - 1)) as [El|].
  - exfalso. apply Hz. replace (q + 1) with (0 + (q / K + 1) * K) by nia. rewrite Z_mod_plus_full. apply Z.mod_0_l. lia.
  - replace (q + 1) with (q mod K + 1 + q / K * K) by nia.
    rewrite Z_mod_plus_full, Z_div_plus_full, Z.mod_small, Z.div_small by lia. lia.
Qed.
End Expansion.

Section Scan.
Context `{T : DictType} (stored : bool) `{!DictTypeOk T stored}.

Notation entry := (dkey * option dval)%type.
Notation rhash e := (rev (dictHashKey (e : entry).1 true)).

Lemma scan_bucket_spec d i tb v :
  TableOk (ht d i) tb -> 0 <= v < 2 ^ 64 ->
  exists out, scan_bucket d i (Z.land v (DICTHT_SIZE_MASK (size_exp (ht d i)))) = Some out /\
    (forall e, e ∈ out -> e ∈ tb_entries tb) /\
    (forall e, e ∈ tb_entries tb -> rhash e / stride (size_exp (ht d i)) = rev v / stride (size_exp (ht d i)) ->
      e ∈ out).
Proof.
  intros Ht Hv. pose proof (to_exp _ _ Ht) as He. rewrite mask_mod by lia.
  destruct (bucket_of (ht d i) tb v Ht) as [Hpos [c Hc]].
  unfold scan_bucket. rewrite (get_bucket_at d i tb _ Ht Hpos), Hc. cbn [mbind option_bind].
  exists (chain_entries c). split; [done|]. split.
  - intros e Hin. apply tb_entries_elem. eauto.
  - intros e Hin Hq. apply tb_entries_elem in Hin as (j & c' & Hj & Hin).
    pose proof (to_hash _ _ Ht j c' e Hj Hin) as Hh.
    rewrite (same_bucket (dictHashKey e.1 true) v (size_exp (ht d i)) (hash_range _ true) Hv ltac:(lia) Hq) in Hh.
    rewrite Hh, Nat2Z.id in Hc. congruence.
Qed.

Lemma hash_word (e : entry) : 0 <= dictHashKey e.1 true < 2 ^ 64.
Proof. apply (hash_range (stored := stored)). Qed.

(** The loop visits, in the larger table, the rest of the interval that the cursor is in
    among those of the smaller one. *)
Lemma scan_expansions_spec d i tb e0 fuel : forall v out,
  let e1 := size_exp (ht d i) in
  TableOk (ht d i) tb -> 0 <= v < 2 ^ 64 -> 2 <= e0 <= e1 ->
  2 ^ (e1 - e0) - (rev v / stride e1) mod 2 ^ (e1 - e0) <= Z.of_nat fuel ->
  exists v' out', scan_expansions fuel d i (DICTHT_SIZE_MASK e0) (DICTHT_SIZE_MASK e1) v out = Some (v', out') /\
    advanced e0 v v' /\ (forall e, e ∈ out -> e ∈ out') /\ (forall e, e ∈ out' -> e ∈ out \/ e ∈ tb_entries tb) /\
    (forall e, e ∈ tb_entries tb -> rev v / stride e1 <= rhash e / stride e1 ->
      rhash e / stride e0 = rev v / stride e0 -> e ∈ out').
Proof.
  induction fuel as [|fuel IH]; intros v out e1 Ht Hv He Hf; pose proof (to_exp _ _ Ht : 2 <= e1 <= 60) as He1;
    pose proof (Z.mod_pos_bound (rev v / stride e1) _ (expansions_pos e0 e1 ltac:(lia))) as Hm; [lia|].
  cbn [scan_expansions]. destruct (scan_bucket_spec d i tb v Ht Hv) as (es & Ees & Hes1 & Hes2). fold e1 in Ees, Hes2.
  rewrite Ees. cbn [mbind option_bind].
  pose proof (next_cursor_advanced v e1 Hv ltac:(lia)) as Hadv. set (v1 := next_cursor v _) in *.
  assert (Hco : forall V, V / stride e0 = V / stride e1 / 2 ^ (e1 - e0)) by (intros V; apply quotient_coarse; lia).
  assert (Hin : forall e, e ∈ out ++ es -> e ∈ out \/ e ∈ tb_entries tb).
  { intros e He'. apply elem_of_app in He' as [|]; [by left|right; by apply Hes1]. }
  destruct (Z.eqb_spec (Z.land v1 (Z.lxor (DICTHT_SIZE_MASK e0) (DICTHT_SIZE_MASK e1))) 0) as [Hz|Hz].
  - destruct (expansion_end e0 e1 v v1 Hv ltac:(lia) ltac:(lia) Hadv Hz) as [Hlast Hadv0].
    exists v1, (out ++ es). split; [done|]. split; [done|]. split_and!; [set_solver|done|].
    intros e Htb Hle Heq. apply elem_of_app. right. apply Hes2; [done|]. rewrite !Hco in Heq.
    pose proof (expansions_pos e0 e1 ltac:(lia)) as HK. set (K := 2 ^ (e1 - e0)) in *.
    set (q := rev v / stride e1) in *. set (qe := rhash e / stride e1) in *. change (qe = q).
    pose proof (Z.div_mod qe K ltac:(lia)). pose proof (Z.div_mod q K ltac:(lia)).
    pose proof (Z.mod_pos_bound qe K HK). nia.
  - destruct (expansion_inner e0 e1 v v1 ltac:(lia) ltac:(lia) Hadv Hz) as (Hq1 & Hmod & Hq0).
    destruct (IH v1 (out ++ es) Ht (proj1 Hadv) He) as (v' & out' & E' & Hadv' & Hsub & Hsrc & Hcov).
    { fold e1. rewrite Hq1, Hmod. lia. }
    fold e1 in E', Hcov. exists v', out'. split; [exact E'|]. split_and!.
    + destruct Hadv' as [Hr' Ha']. split; [done|]. by rewrite Hq0 in Ha'.
    + intros e Hout. apply Hsub, elem_of_app. by left.
    + intros e Hout'. destruct (Hsrc e Hout') as [H1|]; [by apply Hin|by right].
    + intros e Htb Hle Heq. destruct (decide (rhash e / stride e1 = rev v / stride e1)) as [Eq|Nq].
      * apply Hsub, elem_of_app. right. by apply Hes2.
      * apply Hcov; [done|rewrite Hq1; lia|congruence].
Qed.

(** A call during a rehash, with [i] the smaller table. *)
Lemma scan_double d i tbs tbb v :
  TableOk (ht d i) tbs -> TableOk (ht d (negb i)) tbb -> size_exp (ht d i) <= size_exp (ht d (negb i)) ->
  0 <= v < 2 ^ 64 ->
  exists v' out,
    (es ← scan_bucket d i (Z.land v (DICTHT_SIZE_MASK (size_exp (ht d i))));
     tb ← table (ht d (negb i));
     scan_expansions (S (length tb)) d (negb i) (DICTHT_SIZE_MASK (size_exp (ht d i)))
       (DICTHT_SIZE_MASK (size_exp (ht d (negb i)))) v es) = Some (v', out) /\
    advanced (size_exp (ht d i)) v v' /\
    (forall e, e ∈ out -> e ∈ tb_entries tbs ++ tb_entries tbb) /\
    (forall e, e ∈ tb_entries tbs ++ tb_entries tbb -> rev v <= rhash e -> v' = 0 \/ rhash e < rev v' -> e ∈ out).
Proof.
  intros Hs Hb Hle Hv. pose proof (to_exp _ _ Hs) as Hes. pose proof (to_exp _ _ Hb) as Heb.
  destruct (scan_bucket_spec d i tbs v Hs Hv) as (es & -> & Hes1 & Hes2). cbn [mbind option_bind].
  rewrite (to_table _ _ Hb). cbn [mbind option_bind].
  pose proof (expansions_pos (size_exp (ht d i)) (size_exp (ht d (negb i))) ltac:(lia)) as HK.
  destruct (scan_expansions_spec d (negb i) tbb (size_exp (ht d i)) (S (length tbb)) v es Hb Hv ltac:(lia))
    as (v' & out & -> & Hadv & Hsub & Hsrc & Hcov).
  { pose proof (Z.mod_pos_bound (rev v / stride (size_exp (ht d (negb i)))) _ HK) as Hm.
    pose proof (to_len _ _ Hb) as Hl. unfold zlen in Hl.
    assert (2 ^ (size_exp (ht d (negb i)) - size_exp (ht d i)) <= 2 ^ size_exp (ht d (negb i))) by (apply Z.pow_le_mono_r; lia).
    lia. }
  exists v', out. split; [done|]. split; [done|]. split.
  - intros e Hin. apply elem_of_app. destruct (Hsrc e Hin) as [H1|]; [left; by apply Hes1|by right].
  - intros e Hin Hge Hlt.
    pose proof (advanced_interval (size_exp (ht d i)) v v' _ ltac:(lia) Hv (hash_word e) Hadv Hge Hlt) as Hq.
    apply elem_of_app in Hin as [Hin|Hin]; [by apply Hsub, Hes2|].
    apply Hcov; [done| |done]. apply Z.div_le_mono; [apply stride_pos; lia|done].
Qed.

(** The exponent of the smaller table in use. *)
Definition scan_exp (d : dict) : Z :=
  if dictIsRehashing d then Z.min (size_exp (ht0 d)) (size_exp (ht1 d)) else size_exp (ht0 d).

Lemma pause_resume d : 0 <= pauserehash d < 2 ^ 15 -> dictResumeRehashing (dictPauseRehashing d) = d.
Proof.
  intros Hp. unfold dictResumeRehashing, dictPauseRehashing, set_pauserehash. destruct d; simpl in *. f_equal.
  unfold wrapu. rewrite Zminus_mod_idemp_l. rewrite Z.add_simpl_r. by apply Z.mod_small.
Qed.

(** One call: every entry whose reversed hash is between the cursors is emitted. *)
Lemma dictScan_spec d es v :
  DictOk d es -> zlen es < 2 ^ 59 -> 0 <= pauserehash d < 2 ^ 15 -> 0 <= v < 2 ^ 64 ->
  exists v' out, dictScan d v = Some (d, v', out) /\ 0 <= v' < 2 ^ 64 /\
    (v' = 0 \/ advanced (scan_exp d) v v' /\ 2 <= scan_exp d <= 60) /\
    (forall e, e ∈ out -> e ∈ es) /\
    (forall e, e ∈ es -> rev v <= rhash e -> v' = 0 \/ rhash e < rev v' -> e ∈ out).
Proof.
  intros Hok Hlen Hp Hv. unfold dictScan. rewrite (dict_size d es Hok Hlen).
  destruct (Z.eqb_spec (zlen es) 0) as [Hz|Hz].
  { exists 0, []. split_and!; [done|done|done|by left|by intros e He; apply not_elem_of_nil in He|]. intros e He.
    destruct es; [by apply not_elem_of_nil in He|done]. }
  change (dictIsRehashing (dictPauseRehashing d)) with (dictIsRehashing d). unfold scan_exp.
  destruct Hok as [_ _ _ ->|tb0 H0 _ Hr HP|tb0 tb1 H0 H1 Hr _ HP]; [done| |].
  - rewrite not_rehashing by done. cbn [negb].
    destruct (scan_bucket_spec (dictPauseRehashing d) false tb0 v H0 Hv) as (out & E & Ho1 & Ho2).
    change (ht (dictPauseRehashing d) false) with (ht0 d) in E, Ho2.
    change (ht0 (dictPauseRehashing d)) with (ht0 d). rewrite E. cbn [mbind option_bind].
    pose proof (to_exp _ _ H0) as He. pose proof (next_cursor_advanced v (size_exp (ht0 d)) Hv ltac:(lia)) as Hadv.
    eexists _, out. split; [by rewrite pause_resume|]. split; [apply Hadv|]. split; [by right|]. split.
    + intros e Hin. rewrite HP. by apply Ho1.
    + intros e Hin Hge Hlt. rewrite HP in Hin. apply Ho2; [done|].
      eapply advanced_interval; [lia|done|apply hash_word|exact Hadv|done|done].
  - rewrite is_rehashing by lia. cbn [negb]. pose proof (to_exp _ _ H0) as He0. pose proof (to_exp _ _ H1) as He1.
    change (ht0 (dictPauseRehashing d)) with (ht0 d). change (ht1 (dictPauseRehashing d)) with (ht1 d).
    rewrite !size_pow by lia.
    destruct (Z.gtb_spec (2 ^ size_exp (ht0 d)) (2 ^ size_exp (ht1 d))) as [Hgt|Hle].
    + apply Z.pow_lt_mono_r_iff in Hgt; [|lia..].
      destruct (scan_double (dictPauseRehashing d) true tb1 tb0 v H1 H0 ltac:(simpl; lia) Hv)
        as (v' & out & -> & Hadv & Hsrc & Hcov). cbn [mbind option_bind].
      exists v', out. rewrite pause_resume, Z.min_r by lia. simpl in Hadv. split; [done|]. split; [apply Hadv|].
      split; [by right|]. split.
      * intros e Hin. rewrite HP, (Permutation_app_comm (tb_entries tb0)). by apply Hsrc.
      * intros e Hin. apply Hcov. by rewrite HP, (Permutation_app_comm (tb_entries tb0)) in Hin.
    + apply Z.pow_le_mono_r_iff in Hle; [|lia..].
      destruct (scan_double (dictPauseRehashing d) false tb0 tb1 v H0 H1 ltac:(simpl; lia) Hv)
        as (v' & out & -> & Hadv & Hsrc & Hcov). cbn [mbind option_bind].
      exists v', out. rewrite pause_resume, Z.min_l by lia. simpl in Hadv. split; [done|]. split; [apply Hadv|].
      split; [by right|]. split.
      * intros e Hin. rewrite HP. by apply Hsrc.
      * intros e Hin. apply Hcov. by rewrite HP in Hin.
Qed.
End Scan.
