(* ===== verification/DictProps.v ===== *)
(** * Hash tables: the finite map a dictionary implements

    The entries of a dictionary, in any order, are an association list with distinct keys;
    the operations act on it as those of a finite map do, whatever rehashing they perform. *)
From S2P Require Import Prelude Dict DictOps DictFacts DictRehash DictFind DictUpdate DictScanFacts.

Section Props.
Context `{T : DictType} (stored : bool) `{!DictTypeOk T stored}.

Notation entry := (dkey * option dval)%type.
Notation keq := (keq (stored := stored)).

(** ** The map *)

Definition has_key (key : dkey) (es : list entry) : bool := existsb (fun e => keq key e.1) es.
Definition map_get (key : dkey) (es : list entry) : option dval :=
  e ← find (fun e => keq key e.1) es; e.2.
Definition map_add (key : dkey) (val : dval) (es : list entry) : list entry :=
  if has_key key es then es
  else (stored_key key, if no_value then None else Some (stored_val val)) :: es.
Definition map_replace (key : dkey) (val : dval) (es : list entry) : list entry :=
  if has_key key es then (fun e => if keq key e.1 then (e.1, Some (stored_val val)) else e) <$> es
  else (stored_key key, Some (stored_val val)) :: es.
Definition map_delete (key : dkey) (es : list entry) : list entry := filter (fun e => keq key e.1 = false) es.

Lemma has_key_true key es : has_key key es = true <-> exists e, e ∈ es /\ keq key e.1 = true.
Proof.
  unfold has_key. rewrite existsb_exists. split; intros (e & He & Hk); exists e; split; try done;
    by apply list_elem_of_In.
Qed.

Lemma has_key_false key es : has_key key es = false <-> forall e, e ∈ es -> keq key e.1 = false.
Proof.
  rewrite <- not_true_iff_false, has_key_true. split.
  - intros Hn e He. apply not_true_iff_false. intros Hk. apply Hn. by exists e.
  - intros Hall (e & He & Hk). by rewrite (Hall e He) in Hk.
Qed.

(** With distinct keys, only one entry has a given key. *)
Lemma others_differ key e S :
  distinct stored (e :: S) -> keq key e.1 = true -> forall f, f ∈ S -> keq key f.1 = false.
Proof.
  intros [He _] Hk f Hf. apply not_true_iff_false. intros Hkf. rewrite Forall_forall in He.
  specialize (He f Hf). assert (keq e.1 f.1 = true); [|congruence].
  eapply keq_trans; [apply keq_sym; exact Hk|exact Hkf].
Qed.

Lemma map_replace_split key val es e S :
  distinct stored es -> es ≡ₚ e :: S -> keq key e.1 = true ->
  map_replace key val es ≡ₚ (e.1, Some (stored_val val)) :: S.
Proof.
  intros Hd HP Hk. unfold map_replace.
  assert (has_key key es = true) as ->.
  { apply has_key_true. exists e. split; [|done]. rewrite HP. by left. }
  pose proof (others_differ key e S (distinct_perm stored _ _ HP Hd) Hk) as Ho.
  rewrite HP, fmap_cons, Hk. apply Permutation_skip. clear -Ho.
  assert (((fun e : entry => if keq key e.1 then (e.1, Some (stored_val val)) else e) <$> S) = S) as ->; [|done].
  induction S as [|f S IH]; [done|]. rewrite fmap_cons, (Ho f) by (by left). f_equal. apply IH.
  intros g Hg. apply Ho. by right.
Qed.

Lemma filter_all_keep key (S : list entry) : (forall f, f ∈ S -> keq key f.1 = false) -> filter (fun e : entry => keq key e.1 = false) S = S.
Proof.
  induction S as [|f S IH]; intros Ho; [done|]. rewrite filter_cons, decide_True by (apply Ho; by left).
  f_equal. apply IH. intros g Hg. apply Ho. by right.
Qed.

Lemma map_delete_split key es e S :
  distinct stored es -> es ≡ₚ e :: S -> keq key e.1 = true -> map_delete key es ≡ₚ S.
Proof.
  intros Hd HP Hk. pose proof (others_differ key e S (distinct_perm stored _ _ HP Hd) Hk) as Ho.
  unfold map_delete. rewrite HP, filter_cons, decide_False by congruence. by rewrite filter_all_keep.
Qed.

Lemma map_get_split key es e S :
  distinct stored es -> es ≡ₚ e :: S -> keq key e.1 = true -> map_get key es = e.2.
Proof.
  intros Hd HP Hk. unfold map_get.
  assert (e ∈ es) as He by (rewrite HP; by left).
  destruct (find (fun e => keq key e.1) es) as [f|] eqn:Ef.
  - apply find_some in Ef as [Hf Hkf]. simpl in Hkf. apply list_elem_of_In in Hf. rewrite HP in Hf.
    apply elem_of_cons in Hf as [->|Hf]; [done|].
    by rewrite (others_differ key e S (distinct_perm stored _ _ HP Hd) Hk f Hf) in Hkf.
  - pose proof (find_none _ _ Ef e) as Hn. simpl in Hn. rewrite Hn in Hk; [done|]. by apply list_elem_of_In.
Qed.

Lemma map_get_none key es : (forall e, e ∈ es -> keq key e.1 = false) -> map_get key es = None.
Proof.
  intros Hno. unfold map_get. destruct (find _ es) as [f|] eqn:Ef; [|done].
  apply find_some in Ef as [Hf Hkf]. rewrite (Hno f) in Hkf; [done|]. by apply list_elem_of_In.
Qed.

(** ** Operations *)

Lemma fetch_block resize d es key :
  no_value = false -> DictInv stored d es -> zlen es < 2 ^ 59 ->
  exists d', dictFetchValue resize d key = Some (d', map_get key es) /\ DictInv stored d' es /\ same_flags d d'.
Proof.
  intros Env Hinv Hlen. unfold dictFetchValue.
  destruct (dictFind_spec stored resize d es key Hinv Hlen) as (d' & r & -> & Hinv' & Hf & Hr).
  cbn [mbind option_bind]. destruct r as [[[i x] n]|].
  - destruct Hr as (de & e & Hge & Hhe & He & Hk). rewrite Hge. cbn [mbind option_bind].
    rewrite (entry_kind d' es i x n de Env (di_ok _ _ _ Hinv') Hge). cbn [assert_true mbind option_bind].
    exists d'. split; [|done]. do 2 f_equal.
    apply elem_of_Permutation in He as [S HS].
    rewrite (map_get_split key es e S (di_distinct _ _ _ Hinv) HS Hk). by destruct de; simplify_eq/=.
  - exists d'. by rewrite map_get_none.
Qed.

(** Automatic resizing is allowed, or there is a table already. *)
Definition can_insert (d : dict) : Prop := pauseAutoResize d <= 0 \/ is_Some (table (ht0 d)).

Lemma map_add_spec resize d es key val :
  DictInv stored d es -> zlen es < 2 ^ 59 -> can_insert d ->
  exists d', dictAdd resize d key val = Some (d', negb (has_key key es)) /\ same_flags d d' /\
    DictInv stored d' (map_add key val es).
Proof.
  intros Hinv Hlen Hcan. destruct (dictAdd_spec stored resize d es key val Hinv Hlen Hcan) as (d' & added & E & Hf & Hres).
  exists d'. unfold map_add. destruct added.
  - destruct Hres as [Hno Hinv']. rewrite (proj2 (has_key_false key es) Hno). done.
  - destruct Hres as [Hex Hinv']. rewrite (proj2 (has_key_true key es) Hex). done.
Qed.

Lemma inv_perm d es es' : DictInv stored d es -> es ≡ₚ es' -> DictInv stored d es'.
Proof.
  intros [H1 H2 H3] HP. split; [by eapply dict_ok_perm|done|by apply (distinct_perm stored es)].
Qed.

Lemma map_replace_spec resize d es key val :
  no_value = false -> DictInv stored d es -> zlen es < 2 ^ 59 -> can_insert d ->
  exists d', dictReplace resize d key val = Some (d', negb (has_key key es)) /\ same_flags d d' /\
    DictInv stored d' (map_replace key val es).
Proof.
  intros Env Hinv Hlen Hcan.
  destruct (dictReplace_spec stored resize d es key val Env Hinv Hlen Hcan) as (d' & added & E & Hf & Hres).
  exists d'. destruct added.
  - destruct Hres as [Hno Hinv']. unfold map_replace. rewrite (proj2 (has_key_false key es) Hno). done.
  - destruct Hres as (e & S & HP & Hk & Hinv').
    assert (has_key key es = true) as Hh.
    { apply has_key_true. exists e. split; [|done]. rewrite HP. by left. }
    rewrite Hh. split; [done|]. split; [done|]. eapply inv_perm; [exact Hinv'|].
    by rewrite (map_replace_split key val es e S (di_distinct _ _ _ Hinv) HP Hk).
Qed.

Lemma map_delete_spec resize d es key nofree :
  DictInv stored d es -> zlen es < 2 ^ 59 ->
  exists d' r, dictGenericDelete resize d key nofree = Some (d', r) /\ same_flags d d' /\
    bool_decide (is_Some r) = has_key key es /\ DictInv stored d' (map_delete key es).
Proof.
  intros Hinv Hlen. destruct (dictGenericDelete_spec stored resize d es key nofree Hinv Hlen) as (d' & r & E & Hf & Hres).
  exists d', r. split; [done|]. split; [done|]. destruct r as [he|].
  - destruct Hres as (e & S & _ & Hk & HP & Hinv').
    assert (has_key key es = true) as Hh.
    { apply has_key_true. exists e. split; [|done]. rewrite HP. by left. }
    rewrite Hh. split; [done|]. eapply inv_perm; [exact Hinv'|].
    by rewrite (map_delete_split key es e S (di_distinct _ _ _ Hinv) HP Hk).
  - destruct Hres as [Hno Hinv']. rewrite (proj2 (has_key_false key es) Hno). split; [done|].
    unfold map_delete. by rewrite filter_all_keep.
Qed.

(** ** Histories *)

Inductive dict_op :=
  | OpAdd (key : dkey) (val : dval)
  | OpReplace (key : dkey) (val : dval)
  | OpDelete (key : dkey)
  | OpUnlink (key : dkey)
  | OpFetch (key : dkey)
  | OpRehash (n : nat)
  | OpExpand (size : Z)
  | OpShrink (size : Z).

Inductive dict_result := RBool (b : bool) | RVal (v : option dval) | RNone.

(** One operation of the code, under the resize policy of the moment; the sizes are
    [unsigned long] values. *)
Definition run_op (resize : dictResizeEnable) (d : dict) (op : dict_op) : option (dict * dict_result) :=
  match op with
  | OpAdd k v => '(d, b) ← dictAdd resize d k v; Some (d, RBool b)
  | OpReplace k v => '(d, b) ← dictReplace resize d k v; Some (d, RBool b)
  | OpDelete k => '(d, b) ← dictDelete resize d k; Some (d, RBool b)
  | OpUnlink k => '(d, he) ← dictUnlink resize d k; Some (d, RBool (bool_decide (is_Some he)))
  | OpFetch k => '(d, v) ← dictFetchValue resize d k; Some (d, RVal v)
  | OpRehash n => '(d, _) ← dictRehash resize d n; Some (d, RNone)
  | OpExpand size => '(d, _) ← dictExpand d (u64 size); Some (d, RNone)
  | OpShrink size => '(d, _) ← dictShrink d (u64 size); Some (d, RNone)
  end.

Fixpoint run_ops (d : dict) (ops : list (dictResizeEnable * dict_op)) : option (dict * list dict_result) :=
  match ops with
  | [] => Some (d, [])
  | (resize, op) :: ops =>
      '(d, r) ← run_op resize d op;
      '(d, rs) ← run_ops d ops;
      Some (d, r :: rs)
  end.

(** The same on the map. *)
Definition map_op (es : list entry) (op : dict_op) : list entry * dict_result :=
  match op with
  | OpAdd k v => (map_add k v es, RBool (negb (has_key k es)))
  | OpReplace k v => (map_replace k v es, RBool (negb (has_key k es)))
  | OpDelete k | OpUnlink k => (map_delete k es, RBool (has_key k es))
  | OpFetch k => (es, RVal (map_get k es))
  | OpRehash _ | OpExpand _ | OpShrink _ => (es, RNone)
  end.

Fixpoint map_ops (es : list entry) (ops : list (dictResizeEnable * dict_op)) : list entry * list dict_result :=
  match ops with
  | [] => (es, [])
  | (_, op) :: ops =>
      let '(es, r) := map_op es op in
      let '(es, rs) := map_ops es ops in
      (es, r :: rs)
  end.

Lemma run_op_spec resize d es op :
  no_value = false -> DictInv stored d es -> zlen es < 2 ^ 59 -> pauseAutoResize d <= 0 ->
  exists d', run_op resize d op = Some (d', (map_op es op).2) /\ DictInv stored d' (map_op es op).1 /\
    pauseAutoResize d' <= 0.
Proof.
  intros Env Hinv Hlen Hp. pose proof (di_ok _ _ _ Hinv) as Hok.
  assert (Hsz : forall size, 0 <= u64 size < 2 ^ 64) by (intros size; by apply wrapu_range).
  destruct op as [k v|k v|k|k|k|n|size|size]; unfold run_op, map_op; cbn [fst snd].
  - destruct (map_add_spec resize d es k v Hinv Hlen (or_introl Hp)) as (d' & -> & (_ & _ & Hf) & Hi).
    exists d'. by rewrite Hf.
  - destruct (map_replace_spec resize d es k v Env Hinv Hlen (or_introl Hp)) as (d' & -> & (_ & _ & Hf) & Hi).
    exists d'. by rewrite Hf.
  - unfold dictDelete.
    destruct (map_delete_spec resize d es k false Hinv Hlen) as (d' & r & -> & (_ & _ & Hf) & Hb & Hi).
    exists d'. cbn [mbind option_bind]. by rewrite Hb, Hf.
  - unfold dictUnlink.
    destruct (map_delete_spec resize d es k true Hinv Hlen) as (d' & r & -> & (_ & _ & Hf) & Hb & Hi).
    exists d'. cbn [mbind option_bind]. by rewrite Hb, Hf.
  - destruct (fetch_block resize d es k Env Hinv Hlen) as (d' & -> & Hi & (_ & _ & Hf)).
    exists d'. by rewrite Hf.
  - destruct (dictRehash_spec stored resize d es n Hok ltac:(lia)) as (d' & b & -> & Hok' & Hf & _).
    exists d'. split; [done|]. split; [by apply (inv_flags stored d d')|]. destruct Hf as (_ & _ & ->). done.
  - destruct (dictExpand_spec d es (u64 size) Hok (Hsz size)) as (d' & b & -> & Hok' & Hf & _).
    exists d'. split; [done|]. split; [by apply (inv_flags stored d d')|]. destruct Hf as (_ & _ & ->). done.
  - destruct (dictShrink_spec d es (u64 size) Hok (Hsz size)) as (d' & b & -> & Hok' & Hf).
    exists d'. split; [done|]. split; [by apply (inv_flags stored d d')|]. destruct Hf as (_ & _ & ->). done.
Qed.

Lemma map_op_size es op : zlen (map_op es op).1 <= zlen es + 1.
Proof.
  destruct op; simpl; unfold map_add, map_replace, map_delete; try lia.
  - destruct (has_key key es); rewrite ?zlen_cons; lia.
  - destruct (has_key key es); rewrite ?zlen_fmap, ?zlen_cons; lia.
  - unfold zlen. pose proof (length_filter (fun e : entry => keq key e.1 = false) es). lia.
  - unfold zlen. pose proof (length_filter (fun e : entry => keq key e.1 = false) es). lia.
Qed.

Lemma map_ops_size ops : forall es, zlen (map_ops es ops).1 <= zlen es + zlen ops.
Proof.
  induction ops as [|[resize op] ops IH]; intros es; [change (zlen (@nil (dictResizeEnable * dict_op))) with 0; simpl; lia|].
  cbn [map_ops]. pose proof (map_op_size es op). destruct (map_op es op) as [es1 r]. specialize (IH es1).
  destruct (map_ops es1 ops). rewrite zlen_cons. simpl in *. lia.
Qed.

Lemma run_ops_spec ops : forall d es,
  no_value = false -> DictInv stored d es -> zlen es + zlen ops < 2 ^ 59 -> pauseAutoResize d <= 0 ->
  exists d', run_ops d ops = Some (d', (map_ops es ops).2) /\ DictInv stored d' (map_ops es ops).1.
Proof.
  induction ops as [|[resize op] ops IH]; intros d es Env Hinv Hlen Hp; [by exists d|].
  rewrite zlen_cons in Hlen. pose proof (zlen_nonneg ops). cbn [run_ops map_ops].
  destruct (run_op_spec resize d es op Env Hinv ltac:(lia) Hp) as (d1 & -> & Hi1 & Hp1).
  pose proof (map_op_size es op) as Hs. destruct (map_op es op) as [es1 r]. simpl in *.
  destruct (IH d1 es1 Env Hi1 ltac:(lia) Hp1) as (d2 & E2 & Hi2). rewrite E2. exists d2.
  destruct (map_ops es1 ops) as [es2 rs]. done.
Qed.

(** ** Running a rehash to its end *)

(** The loop [while(dictRehash(d,n))], at most [fuel] turns: [None] when it is not over. *)
Fixpoint rehash_all (fuel : nat) (d : dict) (n : nat) : option dict :=
  match fuel with
  | O => None
  | S fuel =>
      '(d, more) ← dictRehash DICT_RESIZE_ENABLE d n;
      if (more : bool) then rehash_all fuel d n else Some d
  end.

Lemma rehash_enabled d es n :
  DictOk d es -> zlen es < 2 ^ 63 -> dictIsRehashing d = true ->
  exists d' more, dictRehash DICT_RESIZE_ENABLE d n = Some (d', more) /\ dictIsRehashing d' = more.
Proof.
  intros Hok Hlen Hre. destruct (dict_ok_cases d es Hok) as [Hn|(tb0 & tb1 & H0 & H1 & Hr & Hb & HP)]; [congruence|].
  unfold dictRehash. rewrite Hre, bool_decide_eq_false_2 by done.
  assert (rehash_avoided DICT_RESIZE_ENABLE d = false) as -> by done.
  destruct (rehash_loop_spec stored n d tb0 tb1 (Z.of_nat n * 10) es H0 H1 Hr Hb HP Hlen)
    as (d' & more & E & _ & _ & Hm & _). exists d', more. done.
Qed.

Lemma rehash_all_spec n fuel : forall d es,
  (0 < n)%nat -> DictOk d es -> zlen es < 2 ^ 63 ->
  (dictIsRehashing d = true -> 2 ^ size_exp (ht0 d) - rehashidx d < Z.of_nat fuel) -> (0 < fuel)%nat ->
  exists d', rehash_all fuel d n = Some d' /\ DictOk d' es /\ same_flags d d' /\ dictIsRehashing d' = false.
Proof.
  induction fuel as [|fuel IH]; intros d es Hn Hok Hlen Hm Hf; [lia|]. cbn [rehash_all].
  destruct (dictIsRehashing d) eqn:Hre.
  2: { unfold dictRehash. rewrite Hre, orb_true_r. by exists d. }
  destruct (dictRehash_spec stored DICT_RESIZE_ENABLE d es n Hok Hlen)
    as (d1 & more & E & Hok1 & Hf1 & Hmore & _ & _).
  destruct (rehash_enabled d es n Hok Hlen Hre) as (d2 & more' & E2 & Hre2). rewrite E in E2. injection E2 as <- <-.
  rewrite E. cbn [mbind option_bind]. destruct more; [|by exists d1].
  destruct (Hmore eq_refl) as (_ & Hidx & Hexp). specialize (Hm eq_refl).
  destruct (dict_ok_cases d1 es Hok1) as [Hn1|(tb0 & tb1 & H0 & H1 & Hr & Hb & HP)]; [congruence|].
  pose proof (to_len _ _ H0) as Hl.
  destruct (IH d1 es Hn Hok1 Hlen) as (d' & E' & Hok' & Hf' & Hn'); [rewrite Hexp in *; lia|rewrite Hexp in *; lia|].
  exists d'. split; [done|]. split; [done|]. split; [by eapply same_flags_trans|done].
Qed.

(** ** A whole scan *)

(** The client's loop: it calls [dictScan] with the cursor the last call returned, until
    that is 0.  The dictionary may be changed between the calls: [ds] are its states at the
    successive calls.  [None] when the cursor is not 0 after the last of them. *)
Fixpoint scan_run (ds : list dict) (v : Z) : option (list entry) :=
  match ds with
  | [] => None
  | d :: ds =>
      '(_, v, out) ← dictScan d v;
      if v =? 0 then Some out else out' ← scan_run ds v; Some (out ++ out')
  end.

(** A state of the dictionary that can be scanned, with tables of at most [2 ^ E] buckets
    in table 0, and its keys. *)
Definition scannable (E : Z) (d : dict) (keys : list dkey) : Prop :=
  size_exp (ht0 d) <= E /\ 0 <= pauserehash d < 2 ^ 15 /\
  exists es, DictInv stored d es /\ zlen es < 2 ^ 59 /\ keys = es.*1.

Lemma advanced_count e E v v' :
  0 <= v < 2 ^ 64 -> 0 <= e <= E -> E <= 64 -> advanced e v v' -> v' <> 0 ->
  rev v / stride E + 1 <= rev v' / stride E.
Proof.
  intros Hv He HE [_ [[_ ->]|[_ Ev]]] Hn; [done|]. rewrite Ev, (quotient_coarse _ e E), (stride_split e E) by lia.
  pose proof (stride_pos E ltac:(lia)). pose proof (expansions_pos e E He) as HK.
  rewrite Z.mul_assoc, Z.div_mul by lia. set (q := rev v / stride E). set (K := 2 ^ (E - e)) in *.
  pose proof (Z.div_mod q K ltac:(lia)). pose proof (Z.mod_pos_bound q K HK). nia.
Qed.

Lemma scan_exp_le E d keys : scannable E d keys -> scan_exp d <= E.
Proof. intros (Hexp & _). unfold scan_exp. destruct (dictIsRehashing d); lia. Qed.

(** [2 ^ E] calls are enough. *)
Lemma scan_run_returns E : forall ds keyss v,
  0 <= E <= 60 -> Forall2 (scannable E) ds keyss -> 0 <= v < 2 ^ 64 ->
  2 ^ E - rev v / stride E <= zlen ds -> is_Some (scan_run ds v).
Proof.
  induction ds as [|d ds IH]; intros keyss v HE Hds Hv Hn.
  { pose proof (rev_quotient v E Hv ltac:(lia)). change (zlen (@nil dict)) with 0 in Hn. lia. }
  inversion Hds as [|? keys ? keyss' Hs Hds']; subst. pose proof (scan_exp_le E d keys Hs) as Hle.
  destruct Hs as (_ & Hp & es & Hinv & Hlen & _). rewrite zlen_cons in Hn. cbn [scan_run].
  destruct (dictScan_spec stored d es v (di_ok _ _ _ Hinv) Hlen Hp Hv) as (v' & out & -> & Hv' & Hadv & _).
  cbn [mbind option_bind]. destruct (Z.eqb_spec v' 0) as [Hz|Hz]; [done|].
  destruct Hadv as [|[Hadv He2]]; [done|].
  pose proof (advanced_count (scan_exp d) E v v' Hv ltac:(lia) ltac:(lia) Hadv Hz) as Hc.
  destruct (IH keyss' v' HE Hds' Hv' ltac:(lia)) as [out' ->]. done.
Qed.

(** The keys present in all states from the cursor on are emitted, and only keys of one of
    the states are. *)
Lemma scan_run_emits E : forall ds keyss v out,
  0 <= E <= 60 -> Forall2 (scannable E) ds keyss -> 0 <= v < 2 ^ 64 -> scan_run ds v = Some out ->
  (forall x, Forall (fun keys => x ∈ keys) keyss -> rev v <= rev (dictHashKey x true) -> x ∈ out.*1) /\
  (forall x, x ∈ out.*1 -> Exists (fun keys => x ∈ keys) keyss).
Proof.
  induction ds as [|d ds IH]; intros keyss v out HE Hds Hv Hrun; [done|].
  inversion Hds as [|? keys ? keyss' Hs Hds']; subst.
  destruct Hs as (_ & Hp & es & Hinv & Hlen & ->). cbn [scan_run] in Hrun.
  destruct (dictScan_spec stored d es v (di_ok _ _ _ Hinv) Hlen Hp Hv) as (v' & out1 & E1 & Hv' & Hadv & Hsrc & Hcov).
  rewrite E1 in Hrun. cbn [mbind option_bind] in Hrun.
  assert (Hhere : forall x, x ∈ es.*1 -> rev v <= rev (dictHashKey x true) ->
            v' = 0 \/ rev (dictHashKey x true) < rev v' -> x ∈ out1.*1).
  { intros x Hx Hge Hlt. apply list_elem_of_fmap in Hx as (e & -> & Hin). apply list_elem_of_fmap. eauto. }
  assert (Hone : forall x, x ∈ out1.*1 -> Exists (fun keys => x ∈ keys) (es.*1 :: keyss')).
  { intros x Hx. left. apply list_elem_of_fmap in Hx as (e & -> & Hin). apply list_elem_of_fmap. eauto. }
  destruct (Z.eqb_spec v' 0) as [Hz|Hz].
  { injection Hrun as <-. split; [|done]. intros x Hall Hge. inversion Hall; subst. apply Hhere; [done|done|by left]. }
  destruct (scan_run ds v') as [out2|] eqn:E2; [|done]. injection Hrun as <-.
  destruct (IH keyss' v' out2 HE Hds' Hv' E2) as [IH1 IH2]. rewrite fmap_app. split.
  - intros x Hall Hge. inversion Hall; subst. apply elem_of_app.
    destruct (decide (rev (dictHashKey x true) < rev v')); [left; apply Hhere; [done|done|by right]|].
    right. apply IH1; [done|lia].
  - intros x Hx. apply elem_of_app in Hx as [Hx|Hx]; [by apply Hone|right; by apply IH2].
Qed.
End Props.

(** ** A type of dictionaries *)

Module Sample.

#[export] Instance IntDict : DictType := {|
  dkey := Z; dval := Z; key_eqb := Z.eqb; key_odd := Z.odd; hashFunction k := u64 (k * 2654435761);
  keyCompare := None; storedHashFunction := None; storedKeyCompare := None;
  keyDup := None; valDup := None; keyDestructor := false; valDestructor := true;
  rehashingStarted := false; rehashingCompleted := true; resizeAllowed := None;
  no_value := false; keys_are_odd := false |}.

#[export] Instance IntDictOk : DictTypeOk IntDict false.
Proof.
  refine {| keq := (Z.eqb : @dkey IntDict -> @dkey IntDict -> bool) |}.
  - intros k. apply Z.eqb_refl.
  - intros k k' H. by rewrite Z.eqb_sym.
  - intros k k' k'' H1 H2. apply Z.eqb_eq in H1 as ->. done.
  - intros d k k' _. unfold key_match. simpl. unfold dictDefaultCompare. simpl. by rewrite orb_diag.
  - intros k k' H. by apply Z.eqb_eq in H as ->.
  - intros k b. by apply wrapu_range.
  - intros k. apply Z.eqb_refl.
  - done.
  - done.
Defined.

Definition ops : list (dictResizeEnable * dict_op) :=
  [(DICT_RESIZE_ENABLE, OpAdd 1 10); (DICT_RESIZE_ENABLE, OpAdd 2 20); (DICT_RESIZE_ENABLE, OpAdd 3 30);
   (DICT_RESIZE_ENABLE, OpAdd 4 40); (DICT_RESIZE_ENABLE, OpAdd 2 21); (DICT_RESIZE_ENABLE, OpReplace 3 31);
   (DICT_RESIZE_ENABLE, OpAdd 5 50); (DICT_RESIZE_FORBID, OpFetch 3); (DICT_RESIZE_FORBID, OpDelete 1)].

(** A dictionary with a rehash in progress, and its entries. *)
Definition d : dict := match run_ops dictCreate ops with Some (d, _) => d | None => dictCreate end.
Definition es : list (@dkey IntDict * option (@dval IntDict)) := [(5, Some 50); (4, Some 40); (3, Some 31); (2, Some 20)].

Lemma create_inv : DictInv false dictCreate [].
Proof. split; [by apply Ok_empty|done|done]. Qed.

Lemma d_inv : DictInv false d es.
Proof.
  destruct (run_ops_spec false ops dictCreate [] eq_refl create_inv eq_refl ltac:(done)) as (d' & E & Hinv).
  unfold d. rewrite E. exact Hinv.
Qed.

Lemma es_small : zlen es < 2 ^ 59.
Proof. vm_compute. reflexivity. Qed.

Lemma d_can_insert : can_insert d.
Proof. left. vm_compute. discriminate. Qed.

Lemma d_scannable : scannable false 2 d es.*1.
Proof.
  split; [vm_compute; discriminate|]. split; [by vm_compute|]. exists es. split; [exact d_inv|].
  split; [exact es_small|reflexivity].
Qed.

Lemma d_rehashing : dictIsRehashing d = true.
Proof. reflexivity. Qed.
End Sample.

(** ** Properties *)

Section Claims.
Context `{T : DictType} (stored : bool) `{!DictTypeOk T stored}.

(** dictAdd and dictReplace keep the invariant of the tables (each entry in the bucket of its
    hash, counts, distinct keys, emptied buckets behind the rehash index), report whether the
    key was new, and add the entry, keep the old one, or replace its value. *)
Theorem dict_add_replace_correct resize d es key val :
  no_value = false -> DictInv stored d es -> zlen es < 2 ^ 59 -> can_insert d ->
  (exists d', dictAdd resize d key val = Some (d', negb (has_key stored key es)) /\ same_flags d d' /\
     DictInv stored d' (map_add stored key val es)) /\
  (exists d', dictReplace resize d key val = Some (d', negb (has_key stored key es)) /\ same_flags d d' /\
     DictInv stored d' (map_replace stored key val es)).
Proof. intros. split; [by apply map_add_spec|by apply map_replace_spec]. Qed.

(** dictGenericDelete removes exactly the entry with the key, from either table, and returns
    it, or changes nothing but the progress of rehashing and returns NULL when the key is
    absent; the invariant of the tables holds afterwards, also when the deletion makes the table
    shrink. *)
Theorem dict_delete_correct resize d es key nofree :
  DictInv stored d es -> zlen es < 2 ^ 59 ->
  exists d' r, dictGenericDelete resize d key nofree = Some (d', r) /\ same_flags d d' /\
    DictInv stored d' (map_delete stored key es) /\
    match r with
    | Some he => exists e, head_entry he = Some e /\ e ∈ es /\ keq (stored := stored) key e.1 = true
    | None => has_key stored key es = false
    end.
Proof.
  intros Hinv Hlen. destruct (map_delete_spec stored resize d es key nofree Hinv Hlen) as (d' & r & E & Hf & Hb & Hi).
  destruct (dictGenericDelete_spec stored resize d es key nofree Hinv Hlen) as (d2 & r2 & E2 & _ & Hres).
  rewrite E in E2. injection E2 as <- <-. exists d', r. split; [done|]. split; [done|]. split; [done|].
  destruct r as [he|]; [|by rewrite <- Hb].
  destruct Hres as (e & S & Hhe & Hk & HP & _). exists e. split; [done|]. split; [|done]. rewrite HP. by left.
Qed.

(** dictFetchValue returns the value stored under the key, or NULL when there is none, in the
    middle of a rehash too, and the rehashing work it does keeps all entries. *)
Theorem dict_fetch_correct resize d es key :
  no_value = false -> DictInv stored d es -> zlen es < 2 ^ 59 ->
  exists d', dictFetchValue resize d key = Some (d', map_get stored key es) /\
    DictInv stored d' es /\ same_flags d d'.
Proof. apply fetch_block. Qed.

(** C35: repeating dictRehash with a positive step count, resizing enabled, ends the rehash after at
    most as many calls as table 0 has buckets plus one, and keeps exactly the entries. *)
Theorem dict_rehash_completes d es n :
  (0 < n)%nat -> DictInv stored d es -> zlen es < 2 ^ 59 ->
  exists d', rehash_all (S (Z.to_nat (2 ^ size_exp (ht0 d)))) d n = Some d' /\
    DictInv stored d' es /\ dictIsRehashing d' = false.
Proof.
  intros Hn Hinv Hlen. pose proof (di_ok _ _ _ Hinv) as Hok.
  destruct (rehash_all_spec stored n (S (Z.to_nat (2 ^ size_exp (ht0 d)))) d es Hn Hok ltac:(lia))
    as (d' & E & Hok' & Hf & Hre); [|lia|].
  - intros Hre. destruct (dict_ok_cases d es Hok) as [|(tb0 & tb1 & H0 & H1 & Hr & _)]; [congruence|]. lia.
  - exists d'. split; [done|]. split; [by eapply inv_flags|done].
Qed.

(** C3: a scan by cursor, with the dictionary changed, expanded or shrunk at will between the calls,
    ends after at most 2^E calls when table 0 never has more than 2^E buckets, emits every key
    that is present at all the calls, and emits only keys present at one of them. *)
Theorem dict_scan_complete E ds keyss :
  0 <= E <= 60 -> Forall2 (scannable stored E) ds keyss -> 2 ^ E <= zlen ds ->
  exists out, scan_run ds 0 = Some out /\
    (forall x, Forall (fun keys => x ∈ keys) keyss -> x ∈ out.*1) /\
    (forall x, x ∈ out.*1 -> Exists (fun keys => x ∈ keys) keyss).
Proof.
  intros HE Hds Hn. destruct (scan_run_returns stored E ds keyss 0 HE Hds ltac:(done)) as [out Hout].
  { rewrite rev_0, Z.div_0_l by (pose proof (stride_pos E ltac:(lia)); lia). lia. }
  exists out. split; [done|].
  destruct (scan_run_emits stored E ds keyss 0 out HE Hds ltac:(done) Hout) as [H1 H2]. split; [|done].
  intros x Hx. apply H1; [done|]. rewrite rev_0. apply rev_range, (hash_range (stored := stored)).
Qed.
End Claims.

(** C2: from dictCreate, any sequence of additions, replacements, deletions, unlinkings, lookups,
    rehashing steps and explicit resizes, under any resize policy that may change at each step,
    returns what the same operations on a finite map return and leaves a well-formed dictionary
    with the entries and the size of that map; no NULL table, no bucket out of range and no
    failed assert on the way. *)
Theorem dict_history_refines_map `{T : DictType} `{!DictTypeOk T false} (ops : list (dictResizeEnable * dict_op)) :
  no_value = false -> zlen ops < 2 ^ 59 ->
  exists d', run_ops dictCreate ops = Some (d', (map_ops false [] ops).2) /\
    DictInv false d' (map_ops false [] ops).1 /\ dictSize d' = zlen (map_ops false [] ops).1.
Proof.
  intros Env Hlen.
  assert (DictInv false dictCreate []) as Hinv by (split; [by apply Ok_empty|done|done]).
  destruct (run_ops_spec false ops dictCreate [] Env Hinv ltac:(done) ltac:(done)) as (d' & E & Hinv').
  exists d'. split; [done|]. split; [done|]. apply dict_size; [by apply (di_ok false)|].
  pose proof (map_ops_size false ops []) as Hs. change (zlen []) with 0 in Hs. lia.
Qed.

Section Witnesses.
Import Sample.

Lemma dict_add_replace_witness :
  (exists d', dictAdd DICT_RESIZE_ENABLE d 7 70 = Some (d', true) /\ DictInv false d' ((7, Some 70) :: es)) /\
  (exists d', dictReplace DICT_RESIZE_ENABLE d 4 70 = Some (d', false) /\
     DictInv false d' [(5, Some 50); (4, Some 70); (3, Some 31); (2, Some 20)]).
Proof.
  split.
  - destruct (dict_add_replace_correct false DICT_RESIZE_ENABLE d es 7 70 eq_refl d_inv es_small d_can_insert)
      as [(d' & E & _ & Hi) _]. exists d'. split; [exact E|exact Hi].
  - destruct (dict_add_replace_correct false DICT_RESIZE_ENABLE d es 4 70 eq_refl d_inv es_small d_can_insert)
      as [_ (d' & E & _ & Hi)]. exists d'. split; [exact E|exact Hi].
Defined.

Lemma dict_delete_witness :
  exists d' r, dictGenericDelete DICT_RESIZE_ENABLE d 3 false = Some (d', r) /\
    DictInv false d' [(5, Some 50); (4, Some 40); (2, Some 20)].
Proof.
  destruct (dict_delete_correct false DICT_RESIZE_ENABLE d es 3 false d_inv es_small) as (d' & r & E & _ & Hi & _).
  exists d', r. split; [exact E|exact Hi].
Defined.

Lemma dict_fetch_witness : exists d', dictFetchValue DICT_RESIZE_ENABLE d 3 = Some (d', Some 31).
Proof.
  destruct (dict_fetch_correct false DICT_RESIZE_ENABLE d es 3 eq_refl d_inv es_small) as (d' & E & _).
  exists d'. rewrite E. reflexivity.
Defined.

Lemma dict_rehash_witness :
  dictIsRehashing d = true /\
  exists d', rehash_all 5 d 1 = Some d' /\ DictInv false d' es /\ dictIsRehashing d' = false.
Proof. split; [exact d_rehashing|]. exact (dict_rehash_completes false d es 1 (le_n 1) d_inv es_small). Defined.

Lemma dict_scan_witness :
  exists out, scan_run [d; d; d; d] 0 = Some out /\ 5 ∈ out.*1.
Proof.
  destruct (dict_scan_complete false 2 [d; d; d; d] [es.*1; es.*1; es.*1; es.*1]) as (out & E & Hall & _).
  - done.
  - do 4 (constructor; [exact d_scannable|]). constructor.
  - done.
  - exists out. split; [exact E|]. apply Hall.
    assert (5 ∈ es.*1) as H5 by (left). do 4 (constructor; [exact H5|]). constructor.
Defined.

Lemma dict_history_witness :
  exists d', run_ops dictCreate ops =
    Some (d', [RBool true; RBool true; RBool true; RBool true; RBool false; RBool false; RBool true;
               RVal (Some 31); RBool true]) /\ dictSize d' = 4.
Proof.
  destruct (dict_history_refines_map ops eq_refl eq_refl) as (d' & E & _ & Hs). exists d'. split; [exact E|exact Hs].
Defined.
End Witnesses.
