(* ===== verification/Zzl.v ===== *)
(** * Sorted sets in a listpack ([t_zset.c], the [zzl] functions)

    The listpack holds names and scores in turn, in the order of the set.  A score is
    stored as an integer when it is one, else as the decimal text of the double.  The
    conversions between doubles and text that the C library and the bundled [fpconv]
    perform are an interface.  A failed [serverAssert] and an access outside the block are
    [None]; a NULL listpack is [None] inside. *)
From Stdlib Require Import SpecFloat.
From S2P Require Import Prelude Numstr Listpack ListpackOps Skiplist.

Class DoubleText := {
  fpconv_dtoa : double -> list Z;
  strtod : list Z -> double;
}.

(** ** Doubles and integers ([util.c]) *)

(** [(double) v] of a [long long]. *)
Definition double_of_int (v : Z) : double := binary_normalize 53 1024 v 0 false.

(** [(long long) d], undefined in C out of the range of the type. *)
Definition int_of_double (d : double) : Z :=
  match d with
  | S754_finite s m e =>
      let a := if e >=? 0 then Z.shiftl (Zpos m) e else Z.shiftr (Zpos m) (- e) in
      s64 (if s then - a else a)
  | _ => 0
  end.

Definition double2ll (d : double) : option Z :=
  if dlt d (double_of_int (- 4611686018427387903)) || dlt (double_of_int 4611686018427387903) d then None
  else
    let ll := int_of_double d in
    if deq (double_of_int ll) d then Some ll else None.

Definition isinf (d : double) : bool := match d with S754_infinity _ => true | _ => false end.
Definition dzero : double := S754_zero false.
Definition MAX_D2STRING_CHARS := 128.

Section Zzl.
Context `{Allocator} `{DoubleText}.

(** The text left in the buffer. *)
Definition d2string (value : double) : option (list Z) :=
  if isnan value then Some [110; 97; 110]
  else if isinf value then
    Some (if dlt value dzero then [45; 105; 110; 102] else [105; 110; 102])
  else if deq value dzero then
    Some (match value with S754_zero true => [45; 48] | _ => [48] end)
  else
    match double2ll value with
    | Some lvalue =>
        '(buf, len) ← ll2string (fresh_bytes (Z.to_nat MAX_D2STRING_CHARS)) 0 MAX_D2STRING_CHARS lvalue;
        mem_read buf 0 len
    | None => Some (fpconv_dtoa value)
    end.

Definition zzlStrtod (vstr : list Z) : double := strtod (take 127 vstr).

Definition zzlGetScore (zl : list Z) (sptr : Z) : option double :=
  v ← lpGetValue zl sptr;
  match v with
  | LpStr off vlen => vstr ← mem_read zl off vlen; Some (zzlStrtod vstr)
  | LpInt vlong => Some (double_of_int vlong)
  end.

Definition sdsfromlonglong (value : Z) : option (list Z) :=
  '(buf, len) ← ll2string (fresh_bytes (Z.to_nat LONG_STR_SIZE)) 0 LONG_STR_SIZE value;
  mem_read buf 0 len.

Definition lpGetObject (zl : list Z) (sptr : Z) : option (list Z) :=
  v ← lpGetValue zl sptr;
  match v with
  | LpStr off vlen => mem_read zl off vlen
  | LpInt vlong => sdsfromlonglong vlong
  end.

Definition zzlCompareElements (zl : list Z) (eptr : Z) (cstr : list Z) : option Z :=
  v ← lpGetValue zl eptr;
  '(vstr, vlen) ← match v with
                  | LpStr off vlen => vstr ← mem_read zl off vlen; Some (vstr, vlen)
                  | LpInt vlong =>
                      '(vbuf, vlen) ← ll2string (fresh_bytes 32) 0 32 vlong;
                      vstr ← mem_read vbuf 0 vlen; Some (vstr, vlen)
                  end;
  let clen := zlen cstr in
  let minlen := if vlen <? clen then vlen else clen in
  let cmp := memcmp vstr cstr (Z.to_nat minlen) in
  Some (if cmp =? 0 then s32 (u32 (vlen - clen)) else cmp).

(** [lpLength] may store the count in the header. *)
Definition zzlLength (zl : list Z) : option (list Z * Z) :=
  '(zl, n) ← lpLength zl; Some (zl, u32 (n / 2)).

(** The pointers to a name and its score, or NULL both. *)
Definition zzlNext (zl : list Z) (sptr : Z) : option (option (Z * Z)) :=
  eptr ← lpNext zl sptr;
  match eptr with
  | Some eptr => sptr ← lpNext zl eptr; sptr ← sptr; Some (Some (eptr, sptr))
  | None => Some None
  end.

Definition zzlPrev (zl : list Z) (eptr : Z) : option (option (Z * Z)) :=
  sptr ← lpPrev zl eptr;
  match sptr with
  | Some sptr => eptr ← lpPrev zl sptr; eptr ← eptr; Some (Some (eptr, sptr))
  | None => Some None
  end.

(** ** Lookup, insertion, deletion *)

Definition zzlFind (lp ele : list Z) : option (option (Z * double)) :=
  eptr ← lpFirst lp;
  match eptr with
  | None => Some None
  | Some eptr =>
      eptr ← lpFind lp (Some eptr) ele (zlen ele) 1;
      match eptr with
      | Some eptr => sptr ← lpNext lp eptr; sptr ← sptr; score ← zzlGetScore lp sptr; Some (Some (eptr, score))
      | None => Some None
      end
  end.

Definition zzlDelete (zl : list Z) (eptr : Z) : option (list Z) :=
  '(zl, _) ← lpDeleteRangeWithEntry zl eptr 2; Some zl.


Definition zzlInsertAt (zl : list Z) (eptr : option Z) (ele : list Z) (score : double) : option (option (list Z)) :=
  match eptr with
  | None =>
      zl ← lpAppend zl ele (zlen ele);
      zl ← zl;
      match double2ll score with
      | Some lscore => lpAppendInteger zl lscore
      | None => s ← d2string score; lpAppend zl s (zlen s)
      end
  | Some eptr =>
      r ← lpInsertString zl ele (zlen ele) eptr LP_BEFORE;
      '(zl, sptr) ← r;
      sptr ← sptr;
      match double2ll score with
      | Some lscore => r ← lpInsertInteger zl lscore sptr LP_AFTER; Some (lp_only r)
      | None => s ← d2string score; r ← lpInsertString zl s (zlen s) sptr LP_AFTER; Some (lp_only r)
      end
  end.

(** The place of the [while] loop of [zzlInsert]: the first pair after the new one. *)
Definition insert_place_body (zl ele : list Z) (score : double) (eptr : option Z) :
    option (option Z + option Z) :=
  match eptr with
  | None => Some (inr None)
  | Some p =>
      sptr ← lpNext zl p;
      sptr ← sptr;
      s ← zzlGetScore zl sptr;
      if dlt score s then Some (inr (Some p))
      else
        before ← (if deq s score then cmp ← zzlCompareElements zl p ele; Some (cmp >? 0) else Some false);
        if (before : bool) then Some (inr (Some p))
        else eptr ← lpNext zl sptr; Some (inl eptr)
  end.

Definition zzlInsert (zl ele : list Z) (score : double) : option (option (list Z)) :=
  eptr ← lpSeek zl 0;
  place ← loop (S (length zl)) (insert_place_body zl ele score) eptr;
  zzlInsertAt zl place ele score.

(** ** Ranges *)

Definition zzlLexValueGteMin (zl : list Z) (p : Z) (spec : zlexrangespec) : option bool :=
  value ← lpGetObject zl p; Some (zslLexValueGteMin value spec).
Definition zzlLexValueLteMax (zl : list Z) (p : Z) (spec : zlexrangespec) : option bool :=
  value ← lpGetObject zl p; Some (zslLexValueLteMax value spec).

Definition zzlIsInRange (zl : list Z) (range : zrangespec) : option bool :=
  if score_empty range then Some false
  else
    p ← lpSeek zl (-1);
    match p with
    | None => Some false
    | Some p =>
        score ← zzlGetScore zl p;
        if negb (zslValueGteMin score range) then Some false
        else
          p ← lpSeek zl 1;
          p ← p;
          score ← zzlGetScore zl p;
          Some (zslValueLteMax score range)
    end.

Definition zzlIsInLexRange (zl : list Z) (range : zlexrangespec) : option bool :=
  if lex_empty range then Some false
  else
    p ← lpSeek zl (-2);
    match p with
    | None => Some false
    | Some p =>
        ok ← zzlLexValueGteMin zl p range;
        if negb ok then Some false
        else
          p ← lpSeek zl 0;
          p ← p;
          zzlLexValueLteMax zl p range
    end.

(** The tests of a pair: by its score, or by its name. *)
Definition score_test (f : double -> bool) (zl : list Z) (eptr : Z) : option bool :=
  sptr ← lpNext zl eptr; sptr ← sptr; score ← zzlGetScore zl sptr; Some (f score).

(** The loop of the first pair that passes [gte], kept if it passes [lte]. *)
Definition first_body (zl : list Z) (gte lte : Z -> option bool) (eptr : option Z) :
    option (option Z + option Z) :=
  match eptr with
  | None => Some (inr None)
  | Some p =>
      g ← gte p;
      if (g : bool) then l ← lte p; Some (inr (if (l : bool) then Some p else None))
      else
        sptr ← lpNext zl p;
        sptr ← sptr;
        eptr ← lpNext zl sptr; Some (inl eptr)
  end.

Definition last_body (zl : list Z) (gte lte : Z -> option bool) (eptr : option Z) :
    option (option Z + option Z) :=
  match eptr with
  | None => Some (inr None)
  | Some p =>
      l ← lte p;
      if (l : bool) then g ← gte p; Some (inr (if (g : bool) then Some p else None))
      else
        sptr ← lpPrev zl p;
        match sptr with
        | Some sptr => eptr ← lpPrev zl sptr; eptr ← eptr; Some (inl (Some eptr))
        | None => Some (inl None)
        end
  end.

Definition zzlFirstInRange (zl : list Z) (range : zrangespec) : option (option Z) :=
  eptr ← lpSeek zl 0;
  inr ← zzlIsInRange zl range;
  if negb inr then Some None
  else loop (S (length zl)) (first_body zl (score_test (fun s => zslValueGteMin s range) zl)
                               (score_test (fun s => zslValueLteMax s range) zl)) eptr.

Definition zzlLastInRange (zl : list Z) (range : zrangespec) : option (option Z) :=
  eptr ← lpSeek zl (-2);
  inr ← zzlIsInRange zl range;
  if negb inr then Some None
  else loop (S (length zl)) (last_body zl (score_test (fun s => zslValueGteMin s range) zl)
                               (score_test (fun s => zslValueLteMax s range) zl)) eptr.

Definition zzlFirstInLexRange (zl : list Z) (range : zlexrangespec) : option (option Z) :=
  eptr ← lpSeek zl 0;
  inr ← zzlIsInLexRange zl range;
  if negb inr then Some None
  else loop (S (length zl)) (first_body zl (fun p => zzlLexValueGteMin zl p range)
                               (fun p => zzlLexValueLteMax zl p range)) eptr.

Definition zzlLastInLexRange (zl : list Z) (range : zlexrangespec) : option (option Z) :=
  eptr ← lpSeek zl (-2);
  inr ← zzlIsInLexRange zl range;
  if negb inr then Some None
  else loop (S (length zl)) (last_body zl (fun p => zzlLexValueGteMin zl p range)
                               (fun p => zzlLexValueLteMax zl p range)) eptr.

(** The loops that delete pairs while they pass the upper test; the result is the listpack
    and the number of pairs deleted. *)
Definition delete_body (lte : list Z -> Z -> Z -> option bool) (st : list Z * option Z * Z) :
    option (list Z * option Z * Z + list Z * Z) :=
  let '(zl, eptr, num) := st in
  match eptr with
  | None => Some (inr (zl, num))
  | Some p =>
      sptr ← lpNext zl p;
      match sptr with
      | None => Some (inr (zl, num))
      | Some sptr =>
          l ← lte zl p sptr;
          if (l : bool) then '(zl, eptr) ← lpDeleteRangeWithEntry zl p 2; Some (inl (zl, eptr, num + 1))
          else Some (inr (zl, num))
      end
  end.

Definition zzlDeleteRangeByScore (zl : list Z) (range : zrangespec) : option (list Z * Z) :=
  eptr ← zzlFirstInRange zl range;
  match eptr with
  | None => Some (zl, 0)
  | Some p =>
      loop (S (length zl))
        (delete_body (fun zl _ sptr => score ← zzlGetScore zl sptr; Some (zslValueLteMax score range)))
        (zl, Some p, 0)
  end.

Definition zzlDeleteRangeByLex (zl : list Z) (range : zlexrangespec) : option (list Z * Z) :=
  eptr ← zzlFirstInLexRange zl range;
  match eptr with
  | None => Some (zl, 0)
  | Some p =>
      loop (S (length zl)) (delete_body (fun zl p _ => zzlLexValueLteMax zl p range)) (zl, Some p, 0)
  end.

(** [start] and [end] are 1-based [unsigned int]s. *)
Definition zzlDeleteRangeByRank (zl : list Z) (start stop : Z) : option (list Z * Z) :=
  let num := u32 (stop - start + 1) in
  zl ← lpDeleteRange zl (u32 (2 * u32 (start - 1))) (u32 (2 * num));
  Some (zl, num).
End Zzl.
