(* ===== verification/ZzlFacts.v ===== *)
(** * Sorted sets in a listpack: the pairs the block represents

    What the scores and names read back as, and that lookup, insertion and deletion of
    pairs act on the list of members.  The conversion of doubles to text and back is used
    through the laws [DoubleTextOk]. *)
From Stdlib Require Import SpecFloat.
From S2P Require Import Prelude Numstr NumstrFacts NumstrProps Listpack ListpackFacts ListpackOps ListpackEdit ListpackRange ListpackBatch ListpackProps Skiplist SkiplistOrder Zzl.

Lemma str_ent_int s v : str_ent s = EInt v -> IsDec s v /\ in_int64 v.
Proof.
  unfold str_ent. destruct (lpStringToInt64_total s) as ([w|] & -> & Hw); [|done].
  intros [= ->]. by apply Hw.
Qed.

Lemma str_ent_dec s v : IsDec s v -> in_int64 v -> str_ent s = EInt v.
Proof.
  intros Hd Hv. unfold str_ent. destruct (lpStringToInt64_total s) as (o & -> & Ho).
  by rewrite (proj2 (Ho v) (conj Hd Hv)).
Qed.

Lemma str_ent_str s t : str_ent s = EStr t -> t = s.
Proof. unfold str_ent. destruct (lpStringToInt64 s (zlen s)) as [[v|]|]; congruence. Qed.

Lemma str_ent_inj s t : str_ent s = str_ent t -> s = t.
Proof.
  intros E. destruct (str_ent t) as [v|u] eqn:Et.
  - destruct (str_ent_int s v E) as [H1 _]. destruct (str_ent_int t v Et) as [H2 _]. by eapply IsDec_unique.
  - by rewrite <- (str_ent_str s u E), <- (str_ent_str t u Et).
Qed.

Lemma zlen_str_ent s : zlen (ent_bytes (str_ent s)) <= zlen s + 20.
Proof.
  rewrite zlen_ent_bytes. pose proof (zlen_nonneg s).
  assert (zlen (ent_data (str_ent s)) <= zlen s + 9).
  { unfold str_ent. destruct (lpStringToInt64 s (zlen s)) as [[v|]|]; simpl;
      rewrite ?zlen_str_data; [pose proof (zlen_int_data v); lia|repeat case_match; lia..]. }
  pose proof (backlen_size_range (zlen (ent_data (str_ent s)))). lia.
Qed.

(** ** Text of doubles *)

(** What the sorted set asks of the conversions: the text of a finite double is short and
    reads back as that double, the infinities are recognised, and a decimal integer reads
    as the double nearest to it, the one the conversion of the integer gives. *)
Class DoubleTextOk (T : DoubleText) : Prop := {
  dtoa_bytes d : Forall is_byte (fpconv_dtoa d);
  dtoa_len d : valid_binary 53 1024 d = true -> zlen (fpconv_dtoa d) <= 24;
  strtod_dtoa s m e : valid_binary 53 1024 (S754_finite s m e) = true ->
    strtod (fpconv_dtoa (S754_finite s m e)) = S754_finite s m e;
  strtod_inf : strtod [105; 110; 102] = S754_infinity false;
  strtod_minus_inf : strtod [45; 105; 110; 102] = S754_infinity true;
  strtod_int s v : IsDec s v -> in_int64 v -> strtod s = double_of_int v;
}.

Section Facts.
Context `{Allocator} `{T : DoubleText} `{!DoubleTextOk T}.

(** The score an entry reads as. *)
Definition ent_score (e : lp_ent) : double :=
  match e with EInt v => double_of_int v | EStr s => zzlStrtod s end.

Lemma text_score s : zlen s <= 127 -> ent_score (str_ent s) = strtod s.
Proof.
  intros Hs. destruct (str_ent s) as [v|t] eqn:E; simpl.
  - destruct (str_ent_int s v E) as [H1 H2]. symmetry. by apply strtod_int.
  - rewrite (str_ent_str s t E). unfold zzlStrtod. rewrite take_ge; [done|]. unfold zlen in Hs. lia.
Qed.

Lemma double2ll_score d v :
  double2ll d = Some v -> in_int64 v /\ isnan (double_of_int v) = false /\ dkey (double_of_int v) = dkey d.
Proof.
  unfold double2ll. destruct (dlt d _ || _); [done|].
  destruct (deq (double_of_int (int_of_double d)) d) eqn:E; [|done]. intros [= <-].
  assert (isnan (double_of_int (int_of_double d)) = false /\ isnan d = false) as [H1 H2].
  { unfold deq, SFeqb in E. destruct (double_of_int _), d; done. }
  split; [|split; [done|]].
  - unfold int_of_double, in_int64. destruct d as [| | |s m e]; try (unfold_limits; lia).
    pose proof (wraps_range 64 (if s then - (if e >=? 0 then Z.shiftl (Z.pos m) e else Z.shiftr (Z.pos m) (- e))
      else if e >=? 0 then Z.shiftl (Z.pos m) e else Z.shiftr (Z.pos m) (- e)) ltac:(lia)) as Hr.
    unfold_limits. lia.
  - by apply deq_spec.
Qed.

(** The entry a score is stored as. *)
Definition score_ent (d : double) : lp_ent :=
  match double2ll d with Some v => EInt v | None => str_ent (default [] (d2string d)) end.

Lemma zero_int s : double2ll (S754_zero s) = Some 0.
Proof. by destruct s. Qed.

Lemma d2string_text d :
  isnan d = false -> valid_binary 53 1024 d = true -> double2ll d = None ->
  exists s, d2string d = Some s /\ Forall is_byte s /\ zlen s <= 24 /\ strtod s = d.
Proof.
  intros Hn Hv Hll. unfold d2string. rewrite Hn. destruct d as [s|s| |s m e]; [by rewrite zero_int in Hll| |done|].
  - simpl. eexists. split; [done|]. destruct s; simpl; split_and!;
      try (apply strtod_inf || apply strtod_minus_inf); try done; repeat constructor; unfold is_byte; lia.
  - assert (isinf (S754_finite s m e) = false) as -> by done.
    assert (deq (S754_finite s m e) dzero = false) as -> by (by destruct s). rewrite Hll.
    eexists. split; [done|]. split_and!; [apply dtoa_bytes|by apply dtoa_len|by apply strtod_dtoa].
Qed.

Lemma score_ent_spec d :
  isnan d = false -> valid_binary 53 1024 d = true ->
  isnan (ent_score (score_ent d)) = false /\ dkey (ent_score (score_ent d)) = dkey d /\
  zlen (ent_bytes (score_ent d)) <= 44.
Proof.
  intros Hn Hv. unfold score_ent. destruct (double2ll d) as [v|] eqn:E.
  - destruct (double2ll_score d v E) as (_ & H1 & H2). split; [done|]. split; [done|].
    rewrite zlen_ent_bytes. simpl. pose proof (zlen_int_data v).
    pose proof (backlen_size_range (zlen (lpEncodeIntegerGetType v))). lia.
  - destruct (d2string_text d Hn Hv E) as (s & -> & Hb & Hl & Hs). simpl default.
    rewrite text_score, Hs by lia. split; [done|]. split; [done|]. pose proof (zlen_str_ent s). lia.
Qed.

(** ** Pairs *)

(** A stored pair: the name, and the entry of the score. *)
Notation zpair := (list Z * lp_ent)%type.
Definition pair_ents (p : zpair) : list lp_ent := [str_ent p.1; p.2].
Definition zz_ents (ps : list zpair) : list lp_ent := ps ≫= pair_ents.
Definition pmem (p : zpair) : member := (ent_score p.2, p.1).

Definition pair_ok (p : zpair) : Prop :=
  Forall is_byte p.1 /\ zlen p.1 < 2 ^ 31 /\ ent_canon p.2 /\ isnan (ent_score p.2) = false.

Lemma length_zz ps : length (zz_ents ps) = (2 * length ps)%nat.
Proof. induction ps as [|p ps IH]; [done|]. simpl. rewrite IH. lia. Qed.

Lemma zz_app a b : zz_ents (a ++ b) = zz_ents a ++ zz_ents b.
Proof. apply bind_app. Qed.

Lemma zz_take i ps : take (2 * i) (zz_ents ps) = zz_ents (take i ps).
Proof.
  revert ps. induction i as [|i IH]; intros [|p ps]; try done.
  replace (2 * S i)%nat with (S (S (2 * i))) by lia. cbn [take zz_ents mbind list_bind pair_ents app].
  do 2 f_equal. apply IH.
Qed.

Lemma zz_drop i ps : drop (2 * i) (zz_ents ps) = zz_ents (drop i ps).
Proof.
  revert ps. induction i as [|i IH]; intros [|p ps]; try done.
  replace (2 * S i)%nat with (S (S (2 * i))) by lia. apply IH.
Qed.

Lemma zz_name ps i p : ps !! i = Some p -> zz_ents ps !! (2 * i)%nat = Some (str_ent p.1).
Proof.
  revert ps. induction i as [|i IH]; intros [|q ps] Hp; simplify_eq/=; [done|].
  replace (i + S (i + 0))%nat with (S (2 * i)) by lia. by apply IH.
Qed.

Lemma zz_score ps i p : ps !! i = Some p -> zz_ents ps !! S (2 * i) = Some p.2.
Proof.
  revert ps. induction i as [|i IH]; intros [|q ps] Hp; simplify_eq/=; [done|].
  replace (i + S (i + 0))%nat with (S (2 * i)) by lia. by apply IH.
Qed.

(** ** Reading *)

Section Read.
Context (zl : list Z) (es : list lp_ent) (HR : LpRepr zl es).

Lemma zl_next_at i : (i < length es)%nat -> lpNext zl (ent_off es i) = Some (ent_ptr es (S i)).
Proof. destruct HR as (num & slack & -> & WF). by apply lpNext_at. Qed.

Lemma prev_at i :
  (i <= length es)%nat -> lpPrev zl (ent_off es i) = Some (match i with O => None | S j => Some (ent_off es j) end).
Proof. destruct HR as (num & slack & -> & WF). by apply lpPrev_at. Qed.

Lemma seek_at index :
  lpSeek zl index = Some (let i := if index <? 0 then zlen es + index else index in
                          if i <? 0 then None else ent_ptr es (Z.to_nat i)).
Proof. destruct HR as (num & slack & -> & WF). by apply lpSeek_block. Qed.

Lemma entries_in_block : zlen es < zlen zl.
Proof.
  destruct HR as (num & slack & -> & WF). pose proof (zlen_es num es slack WF). unfold zlen in *. lia.
Qed.

Lemma value_at i e :
  es !! i = Some e ->
  exists v, lpGetValue zl (ent_off es i) = Some v /\
    match e, v with
    | EInt x, LpInt y => x = y
    | EStr s, LpStr off len => len = zlen s /\ mem_read zl off len = Some s
    | _, _ => False
    end.
Proof.
  intros Hi. destruct HR as (num & slack & -> & WF).
  destruct (get_at num es slack i e WF Hi) as (v & Hv & Hm). exists v. unfold lpGetValue, lpGet. rewrite Hv.
  split; [done|]. destruct e, v; try done. by destruct Hm as (? & ? & _).
Qed.

Lemma score_at i e : es !! i = Some e -> zzlGetScore zl (ent_off es i) = Some (ent_score e).
Proof.
  intros Hi. unfold zzlGetScore. destruct (value_at i e Hi) as (v & -> & Hm). cbn [mbind option_bind].
  destruct e as [x|s], v as [y|off len]; try done; [by subst|]. destruct Hm as [-> ->]. done.
Qed.

(** The numeral that [ll2string] leaves in a fresh buffer. *)
Lemma print_int n v :
  in_int64 v -> 21 <= Z.of_nat n ->
  exists s, IsDec s v /\
    ('(buf, len) ← ll2string (fresh_bytes n) 0 (Z.of_nat n) v; mem_read buf 0 len) = Some s /\
    exists buf, ll2string (fresh_bytes n) 0 (Z.of_nat n) v = Some (buf, zlen s) /\ mem_read buf 0 (zlen s) = Some s.
Proof.
  intros Hv Hn. destruct (ll2string_spec [] (fresh_bytes n) [] v Hv) as (s & Hs & E).
  rewrite app_nil_l, app_nil_r in E.
  assert (zlen (fresh_bytes n) = Z.of_nat n) as El by (unfold zlen; by rewrite length_fresh_bytes).
  rewrite El in E. change (zlen (@nil Z)) with 0 in E.
  pose proof (IsDec_length s v Hs Hv) as Hls.
  destruct (Z.ltb_spec (zlen s) (Z.of_nat n)); [|lia]. exists s. split; [done|].
  rewrite E. cbn [mbind option_bind]. rewrite app_nil_l.
  assert (mem_read (s ++ 0 :: drop (S (length s)) (fresh_bytes n) ++ []) 0 (zlen s) = Some s) as Hr.
  { pose proof (mem_read_mid [] s (0 :: drop (S (length s)) (fresh_bytes n) ++ []) 0 (zlen s)) as Hm.
    by apply Hm. }
  split; [exact Hr|]. by eexists.
Qed.

Lemma object_at i s :
  es !! i = Some (str_ent s) -> lpGetObject zl (ent_off es i) = Some s.
Proof.
  intros Hi. unfold lpGetObject. destruct (value_at i _ Hi) as (v & -> & Hm). cbn [mbind option_bind].
  destruct (str_ent s) as [x|t] eqn:E, v as [y|off len]; try done.
  - subst y. destruct (str_ent_int s x E) as [Hd Hx]. unfold sdsfromlonglong.
    destruct (print_int (Z.to_nat LONG_STR_SIZE) x Hx) as (s' & Hd' & Es & _); [done|].
    change (Z.of_nat (Z.to_nat LONG_STR_SIZE)) with LONG_STR_SIZE in Es. rewrite Es.
    f_equal. by eapply IsDec_unique.
  - rewrite (str_ent_str s t E) in Hm. destruct Hm as [-> ->]. done.
Qed.

Lemma compare_at i s t :
  es !! i = Some (str_ent s) -> zlen s < 2 ^ 31 -> zlen t < 2 ^ 31 ->
  exists c, zzlCompareElements zl (ent_off es i) t = Some c /\ (c >? 0) = (sdscmp s t >? 0).
Proof.
  intros Hi Hs Ht. unfold zzlCompareElements. destruct (value_at i _ Hi) as (v & -> & Hm). cbn [mbind option_bind].
  assert (match v with
          | LpStr off vlen => vstr ← mem_read zl off vlen; Some (vstr, vlen)
          | LpInt vlong => '(vbuf, vlen) ← ll2string (fresh_bytes 32) 0 32 vlong;
                           vstr ← mem_read vbuf 0 vlen; Some (vstr, vlen)
          end = Some (s, zlen s)) as ->.
  { destruct (str_ent s) as [x|u] eqn:E, v as [y|off len]; try done.
    - subst y. destruct (str_ent_int s x E) as [Hd Hx].
      destruct (print_int 32 x Hx) as (s' & Hd' & _ & buf & Eb & Er); [done|].
      change (Z.of_nat 32) with 32 in Eb. rewrite Eb. cbn [mbind option_bind].
      rewrite (IsDec_unique s' s x Hd' Hd) in *. by rewrite Er.
    - rewrite (str_ent_str s u E) in Hm. destruct Hm as [-> ->]. done. }
  cbn [mbind option_bind]. eexists. split; [done|]. unfold sdscmp.
  destruct (memcmp s t _ =? 0); [|done]. pose proof (zlen_nonneg s). pose proof (zlen_nonneg t).
  assert (s32 (u32 (zlen s - zlen t)) = zlen s - zlen t) as ->.
  { rewrite wraps_wrapu by lia. apply wraps_small; lia. }
  destruct (Z.gtb_spec (zlen s) (zlen t)), (Z.ltb_spec (zlen s) (zlen t)); lia.
Qed.
End Read.
End Facts.

(** ** Sorted sets in a listpack: lookup, insertion and deletion of pairs *)

Section Edit.
Context `{Allocator} `{T : DoubleText} `{!DoubleTextOk T}.

Notation zpair := (list Z * lp_ent)%type.

(** The listpack holds the pairs [ps], sorted, with distinct names. *)
Record ZzRepr (zl : list Z) (ps : list zpair) : Prop := {
  zz_repr : LpRepr zl (zz_ents ps);
  zz_pairs : Forall pair_ok ps;
  zz_sorted : StronglySorted mlt (pmem <$> ps);
  zz_names : NoDup ps.*1;
}.

(** ** Lookup *)

Lemma canon_ents ps : Forall pair_ok ps -> Forall ent_canon (zz_ents ps).
Proof.
  induction 1 as [|p ps (_ & _ & Hc & _) _ IH]; [constructor|].
  change (zz_ents (p :: ps)) with (str_ent p.1 :: p.2 :: zz_ents ps).
  constructor; [apply str_ent_canon|]. by constructor.
Qed.

Lemma find_pairs f ps :
  find_from f 1 0 (zz_ents ps) =
  (fun ip => (2 * ip.1)%nat) <$> list_find (fun p : zpair => f (str_ent p.1) = true) ps.
Proof.
  induction ps as [|p ps IH]; [done|]. change (zz_ents (p :: ps)) with (str_ent p.1 :: p.2 :: zz_ents ps).
  cbn [find_from list_find]. destruct (f (str_ent p.1)) eqn:E.
  - by rewrite decide_True.
  - rewrite decide_False by congruence. rewrite IH. destruct (list_find _ ps) as [[i q]|]; [|done].
    simpl. f_equal. lia.
Qed.

Lemma matches_name ps ele :
  find_from (fun e => ent_matches e ele) 1 0 (zz_ents ps) = find_from (fun e => bool_decide (e = str_ent ele)) 1 0 (zz_ents ps) ->
  find_from (fun e => ent_matches e ele) 1 0 (zz_ents ps) =
  (fun ip => (2 * ip.1)%nat) <$> list_find (fun p : zpair => p.1 = ele) ps.
Proof.
  intros ->. rewrite find_pairs. f_equal. apply list_find_ext. intros p. rewrite bool_decide_eq_true.
  split; [apply str_ent_inj|by intros ->].
Qed.

Lemma zzlFind_spec zl ps ele :
  ZzRepr zl ps ->
  zzlFind zl ele = Some ((fun ip => (ent_off (zz_ents ps) (2 * ip.1), ent_score ip.2.2)) <$>
                         list_find (fun p : zpair => p.1 = ele) ps).
Proof.
  intros [HR Hok _ _]. unfold zzlFind.
  assert (lpFirst zl = Some (ent_ptr (zz_ents ps) 0)) as Hf.
  { destruct HR as (num & slack & -> & WF). by apply lpFirst_block. }
  rewrite Hf. cbn [mbind option_bind]. unfold ent_ptr at 1. case_decide as Hlen.
  2: { destruct ps as [|p ps]; [done|]. rewrite length_zz in Hlen. simpl in Hlen. lia. }
  assert (lpFind zl (Some (ent_off (zz_ents ps) 0)) ele (zlen ele) 1 = lpFind zl None ele (zlen ele) 1) as ->.
  { unfold lpFind, lpFindCb. rewrite Hf. unfold ent_ptr. by rewrite decide_True. }
  assert (lpFind zl None ele (zlen ele) 1 =
    Some (ent_off (zz_ents ps) <$> find_from (fun e => ent_matches e ele) 1 0 (zz_ents ps))) as ->.
  { destruct HR as (num & slack & -> & WF).
    rewrite (lpFind_block num (zz_ents ps) slack WF ele 0 1); [|by right|unfold INT32_MAX; lia].
    unfold ptr_of. rewrite drop_0. f_equal. f_equal. change (Z.to_nat 1) with 1%nat.
    by destruct (find_from _ 1 0 (zz_ents ps)). }
  rewrite matches_name.
  2: { apply find_from_ext. eapply Forall_impl; [by apply canon_ents|]. intros e He. by apply ent_matches_canon. }
  cbn [mbind option_bind]. destruct (list_find _ ps) as [[i p]|] eqn:Ef; [|done].
  apply list_find_Some in Ef as (Hp & _ & _). cbn [fmap option_fmap option_map fst snd].
  pose proof (lookup_lt_Some _ _ _ Hp) as Hi.
  rewrite (zl_next_at zl _ HR (2 * i)) by (rewrite length_zz; lia). cbn [mbind option_bind].
  unfold ent_ptr. rewrite decide_True by (rewrite length_zz; lia). cbn [mbind option_bind].
  rewrite (score_at zl _ HR _ _ (zz_score ps i p Hp)). done.
Qed.

(** ** Deletion *)

Lemma sorted_delete (ms : list member) i : StronglySorted mlt ms -> StronglySorted mlt (delete i ms).
Proof.
  revert i. induction ms as [|m ms IH]; intros i Hs; [done|]. inversion Hs as [|? ? Hs' Hm]; subst.
  destruct i as [|i]; [done|]. simpl. constructor; [by apply IH|]. by apply Forall_delete.
Qed.

Lemma fmap_delete {A B} (f : A -> B) (l : list A) i : f <$> delete i l = delete i (f <$> l).
Proof.
  revert i. induction l as [|x l IH]; intros [|i]; try done. change (f x :: (f <$> delete i l) = f x :: delete i (f <$> l)).
  f_equal. apply IH.
Qed.

Lemma NoDup_delete {A} (l : list A) i : NoDup l -> NoDup (delete i l).
Proof.
  intros Hl. eapply sublist_NoDup; [exact Hl|]. apply sublist_delete.
Qed.

Lemma remove_pair ps i : remove_range (2 * i) 2 (zz_ents ps) = zz_ents (delete i ps).
Proof.
  unfold remove_range. rewrite zz_take. replace (2 * i + 2)%nat with (2 * S i)%nat by lia.
  by rewrite zz_drop, <- zz_app, delete_take_drop.
Qed.

Lemma delete_pair zl ps i :
  ZzRepr zl ps -> (i < length ps)%nat ->
  exists zl', lpDeleteRangeWithEntry zl (ent_off (zz_ents ps) (2 * i)) 2 =
    Some (zl', ent_ptr (zz_ents (delete i ps)) (2 * i)) /\ ZzRepr zl' (delete i ps).
Proof.
  intros [HR Hok Hs Hn] Hi. destruct HR as (num & slack & -> & WF).
  destruct (deleteRangeWithEntry_block num (zz_ents ps) slack WF (2 * i) 2) as (num' & E & WF');
    [rewrite length_zz; lia|lia|].
  change (Z.to_nat 2) with 2%nat in *. rewrite remove_pair in E, WF'. rewrite E. eexists. split; [done|]. split.
  - by exists num', [].
  - by apply Forall_delete.
  - rewrite fmap_delete. by apply sorted_delete.
  - rewrite fmap_delete. by apply NoDup_delete.
Qed.

Lemma zzlDelete_spec zl ps i :
  ZzRepr zl ps -> (i < length ps)%nat ->
  exists zl', zzlDelete zl (ent_off (zz_ents ps) (2 * i)) = Some zl' /\ ZzRepr zl' (delete i ps).
Proof.
  intros HR Hi. unfold zzlDelete. destruct (delete_pair zl ps i HR Hi) as (zl' & -> & HR'). by exists zl'.
Qed.

(** ** Insertion *)

Definition insert_pair (i : nat) (p : zpair) (ps : list zpair) : list zpair := take i ps ++ p :: drop i ps.

Lemma total_insert i p ps : lp_total (zz_ents (insert_pair i p ps)) =
  lp_total (zz_ents ps) + zlen (ent_bytes (str_ent p.1)) + zlen (ent_bytes p.2).
Proof.
  unfold insert_pair, lp_total. rewrite <- (take_drop i ps) at 3.
  change (p :: drop i ps) with ([p] ++ drop i ps). rewrite !zz_app, !lp_body_app, !zlen_app.
  change (zz_ents [p]) with ([str_ent p.1] ++ [p.2]). rewrite lp_body_app, !zlen_app.
  assert (forall e, lp_body [e] = ent_bytes e) as E by (intros e; unfold lp_body; simpl; apply app_nil_r).
  rewrite !E. lia.
Qed.

(** The entry of the score, as the argument of the listpack functions. *)
Lemma score_arg d :
  isnan d = false -> valid_binary 53 1024 d = true ->
  match double2ll d with
  | Some v => ele_ok (EleInt (lpEncodeIntegerGetType v)) (Some (score_ent d))
  | None => exists s, d2string d = Some s /\ ele_ok (EleStr s (zlen s)) (Some (score_ent d))
  end.
Proof.
  intros Hn Hv. unfold score_ent. destruct (double2ll d) as [v|] eqn:E.
  - exists v. destruct (double2ll_score d v E) as (Hr & _). unfold in_int64 in Hr. done.
  - destruct (d2string_text d Hn Hv E) as (s & -> & Hb & Hl & _). exists s. split; [done|].
    split_and!; try done. unfold_limits. lia.
Qed.

Section InsertAt.
Context (zl : list Z) (ps : list zpair) (i : nat) (ele : list Z) (d : double).
Context (HR : LpRepr zl (zz_ents ps)) (Hi : (i <= length ps)%nat).
Context (Hn : isnan d = false) (Hv : valid_binary 53 1024 d = true).
Context (Hb : Forall is_byte ele) (Hfit : lp_total (zz_ents ps) + zlen ele + 64 <= UINT32_MAX).
Let es := zz_ents ps.
Let es1 := take (2 * i) es ++ str_ent ele :: drop (2 * i) es.
Let es2 := zz_ents (insert_pair i (ele, score_ent d) ps).

Lemma two_inserts : es2 = take (S (2 * i)) es1 ++ score_ent d :: drop (S (2 * i)) es1.
Proof.
  unfold es2, es1, es, insert_pair. rewrite !zz_take, !zz_drop, zz_app.
  assert (length (zz_ents (take i ps)) = (2 * i)%nat) as Hl by (rewrite length_zz, length_take; lia).
  rewrite take_app_ge, drop_app_ge by lia. rewrite !Hl.
  replace (S (2 * i) - 2 * i)%nat with 1%nat by lia. simpl. by rewrite take_0, drop_0, <- app_assoc.
Qed.

Lemma totals : lp_total es1 <= UINT32_MAX /\ lp_total es2 <= UINT32_MAX.
Proof.
  pose proof (total_insert i (ele, score_ent d) ps) as E. simpl in E. fold es2 es in E.
  pose proof (zlen_str_ent ele). destruct (score_ent_spec d Hn Hv) as (_ & _ & Hs).
  assert (lp_total es1 = lp_total es + zlen (ent_bytes (str_ent ele))) as E1.
  { unfold lp_total, es1. rewrite <- (take_drop (2 * i) es) at 3.
    change (str_ent ele :: drop (2 * i) es) with ([str_ent ele] ++ drop (2 * i) es).
    rewrite !lp_body_app, !zlen_app.
    assert (lp_body [str_ent ele] = ent_bytes (str_ent ele)) as -> by (unfold lp_body; simpl; apply app_nil_r). lia. }
  pose proof (zlen_nonneg (ent_bytes (score_ent d))). unfold es in *. lia.
Qed.

Lemma name_arg : ele_ok (EleStr ele (zlen ele)) (Some (str_ent ele)).
Proof.
  split_and!; try done. unfold lp_total, LP_HDR_SIZE in Hfit.
  pose proof (zlen_nonneg (lp_body (zz_ents ps))). lia.
Qed.

Lemma name_inserted : exists zl1,
  lpInsert zl (EleStr ele (zlen ele)) (ent_off es (2 * i)) LP_BEFORE = Some (Some (zl1, Some (ent_off es (2 * i)))) /\
  LpRepr zl1 es1.
Proof.
  pose proof (insert_before zl es HR (2 * i) (EleStr ele (zlen ele)) (str_ent ele)) as E.
  unfold refines_edit in E. rewrite decide_True in E by (apply totals). apply E; [|apply name_arg].
  unfold es. rewrite length_zz. lia.
Qed.

Lemma score_inserted zl1 a :
  LpRepr zl1 es1 -> ele_ok a (Some (score_ent d)) ->
  (exists zl2, lpInsert zl1 a (ent_off es1 (2 * i)) LP_AFTER = Some (Some (zl2, Some (ent_off es1 (S (2 * i))))) /\
     LpRepr zl2 es2) /\
  (i = length ps -> exists zl2, (b ← lpGetTotalBytes zl1; r ← lpInsert zl1 a (b - 1) LP_BEFORE; Some (lp_only r)) =
     Some (Some zl2) /\ LpRepr zl2 es2).
Proof.
  intros HR1 Ha. assert (length es1 = S (2 * length ps)) as Hl1.
  { unfold es1. rewrite length_app, length_take. simpl. rewrite length_drop. unfold es. rewrite length_zz. lia. }
  split.
  - rewrite (insert_after zl1 es1 HR1 (2 * i) a (score_ent d)) by (done || lia).
    pose proof (insert_before zl1 es1 HR1 (S (2 * i)) a (score_ent d) ltac:(lia) Ha) as E.
    rewrite <- two_inserts in E. unfold refines_edit in E. by rewrite decide_True in E by (apply totals).
  - intros Hend. pose proof (end_insert zl1 es1 HR1 a (score_ent d) Ha) as E.
    assert (es1 ++ [score_ent d] = es2) as Ee.
    { rewrite two_inserts. rewrite take_ge, drop_ge by lia. done. }
    rewrite Ee in E. unfold refines_block in E. by rewrite decide_True in E by (apply totals).
Qed.

Lemma zzlInsertAt_spec :
  exists zl2, zzlInsertAt zl (ent_ptr es (2 * i)) ele d = Some (Some zl2) /\ LpRepr zl2 es2.
Proof.
  destruct name_inserted as (zl1 & E1 & HR1). pose proof (score_arg d Hn Hv) as Harg.
  assert (ent_off es (2 * i) = ent_off es1 (2 * i)) as Eoff.
  { unfold ent_off, es1. f_equal. rewrite take_app_le, take_take, Nat.min_id; [done|].
    rewrite length_take. unfold es. rewrite length_zz. lia. }
  unfold zzlInsertAt, ent_ptr. case_decide as Hlt.
  - unfold lpInsertString, lpInsertInteger. rewrite E1. cbn [mbind option_bind]. rewrite Eoff.
    destruct (double2ll d) as [v|].
    + destruct (score_inserted zl1 _ HR1 Harg) as [(zl2 & -> & HR2) _]. by exists zl2.
    + destruct Harg as (s & -> & Ha). cbn [mbind option_bind].
      destruct (score_inserted zl1 _ HR1 Ha) as [(zl2 & -> & HR2) _]. by exists zl2.
  - assert (i = length ps) as Hend by (unfold es in Hlt; rewrite length_zz in Hlt; lia).
    assert (lpAppend zl ele (zlen ele) = Some (Some zl1)) as ->.
    { unfold lpAppend. assert (lpGetTotalBytes zl = Some (ent_off es (2 * i) + 1)) as ->.
      { replace (2 * i)%nat with (length es) by (unfold es; rewrite length_zz; lia). rewrite ent_off_end.
        destruct HR as (num & slack & -> & WF). rewrite getTotalBytes_block by done. f_equal. unfold es. lia. }
      cbn [mbind option_bind]. by rewrite Z.add_simpl_r, E1. }
    cbn [mbind option_bind].
    destruct (double2ll d) as [v|].
    + destruct (score_inserted zl1 _ HR1 Harg) as [_ Hend2]. destruct (Hend2 Hend) as (zl2 & E2 & HR2).
      exists zl2. split; [exact E2|done].
    + destruct Harg as (s & -> & Ha). cbn [mbind option_bind].
      destruct (score_inserted zl1 _ HR1 Ha) as [_ Hend2]. destruct (Hend2 Hend) as (zl2 & E2 & HR2).
      exists zl2. split; [exact E2|done].
Qed.
End InsertAt.

Lemma ptr_pair ps i : (i < length ps)%nat -> ent_ptr (zz_ents ps) (2 * i) = Some (ent_off (zz_ents ps) (2 * i)).
Proof. intros Hi. unfold ent_ptr. rewrite decide_True by (rewrite length_zz; lia). done. Qed.

Lemma ptr_score ps i : (i < length ps)%nat -> ent_ptr (zz_ents ps) (S (2 * i)) = Some (ent_off (zz_ents ps) (S (2 * i))).
Proof. intros Hi. unfold ent_ptr. rewrite decide_True by (rewrite length_zz; lia). done. Qed.

Lemma ptr_end ps i : (length ps <= i)%nat -> ent_ptr (zz_ents ps) (2 * i) = None.
Proof. intros Hi. unfold ent_ptr. rewrite decide_False by (rewrite length_zz; lia). done. Qed.

(** The pointers of a pair and of the next one. *)
Lemma pair_steps zl ps i p :
  ZzRepr zl ps -> ps !! i = Some p ->
  lpNext zl (ent_off (zz_ents ps) (2 * i)) = Some (Some (ent_off (zz_ents ps) (S (2 * i)))) /\
  zzlGetScore zl (ent_off (zz_ents ps) (S (2 * i))) = Some (ent_score p.2) /\
  lpNext zl (ent_off (zz_ents ps) (S (2 * i))) = Some (ent_ptr (zz_ents ps) (2 * S i)).
Proof.
  intros HR Hp. pose proof (lookup_lt_Some _ _ _ Hp) as Hi. pose proof (zz_repr _ _ HR) as HL. split_and!.
  - rewrite (zl_next_at zl _ HL (2 * i)) by (rewrite length_zz; lia). by rewrite ptr_score.
  - exact (score_at zl _ HL _ _ (zz_score ps i p Hp)).
  - rewrite (zl_next_at zl _ HL (S (2 * i))) by (rewrite length_zz; lia). do 2 f_equal. lia.
Qed.

Lemma pair_ok_at ps i p : Forall pair_ok ps -> ps !! i = Some p -> pair_ok p.
Proof. intros Hps Hp. by eapply Forall_lookup_1. Qed.

(** The loop stops at a pair after the new one, and steps over the others. *)
Lemma place_step zl ps ele d i p :
  ZzRepr zl ps -> isnan d = false -> zlen ele < 2 ^ 31 -> ele ∉ ps.*1 -> ps !! i = Some p ->
  let off := ent_off (zz_ents ps) (2 * i) in
  insert_place_body zl ele d (Some off) = Some (inr (Some off)) /\ mlt (d, ele) (pmem p) \/
  insert_place_body zl ele d (Some off) = Some (inl (ent_ptr (zz_ents ps) (2 * S i))) /\ mlt (pmem p) (d, ele).
Proof.
  intros HR Hd He Hnew Hp. cbv zeta. destruct (pair_steps zl ps i p HR Hp) as (N1 & G & N2).
  destruct (pair_ok_at ps i p (zz_pairs _ _ HR) Hp) as (_ & Hlen & _ & Hnan).
  unfold insert_place_body. rewrite N1. cbn [mbind option_bind]. rewrite G. cbn [mbind option_bind].
  pose proof (dlt_spec d (ent_score p.2) Hd Hnan) as Hl. pose proof (deq_spec (ent_score p.2) d Hnan Hd) as Hq.
  assert (Hne : p.1 <> ele).
  { intros <-. apply Hnew. apply list_elem_of_fmap. exists p. split; [done|]. by eapply list_elem_of_lookup_2. }
  destruct (dlt d (ent_score p.2)); [left; split; [done|]; left; by apply Hl|].
  destruct (compare_at zl _ (zz_repr _ _ HR) _ _ ele (zz_name ps i p Hp) Hlen He) as (c & Ec & Hc).
  destruct (deq (ent_score p.2) d).
  - rewrite Ec. cbn [mbind option_bind]. rewrite Hc. pose proof (proj1 Hq eq_refl) as Ek.
    pose proof (sdscmp_opp p.1 ele) as Hopp. pose proof (sdscmp_eq p.1 ele) as Heq.
    destruct (Z.gtb_spec (sdscmp p.1 ele) 0) as [Hgt|Hle]; [left|right; rewrite N2]; (split; [done|]); right; simpl.
    + split; [done|]. lia.
    + split; [done|]. assert (sdscmp p.1 ele <> 0) by (intros E0; by apply Heq in E0). lia.
  - cbn [mbind option_bind]. right. rewrite N2. split; [done|]. left. simpl.
    destruct (klt_total (dkey (ent_score p.2)) (dkey d)) as [|[E|E]]; [done|..].
    + discriminate (proj2 Hq E).
    + discriminate (proj2 Hl E).
Qed.

Lemma insert_place zl ps ele d fuel : forall i,
  ZzRepr zl ps -> isnan d = false -> zlen ele < 2 ^ 31 -> ele ∉ ps.*1 ->
  (i <= length ps)%nat -> (length ps - i < fuel)%nat ->
  exists j, (i <= j <= length ps)%nat /\
    loop fuel (insert_place_body zl ele d) (ent_ptr (zz_ents ps) (2 * i)) = Some (ent_ptr (zz_ents ps) (2 * j)) /\
    (forall k p, (i <= k < j)%nat -> ps !! k = Some p -> mlt (pmem p) (d, ele)) /\
    (forall p, ps !! j = Some p -> mlt (d, ele) (pmem p)).
Proof.
  induction fuel as [|fuel IH]; intros i HR Hd He Hnew Hi Hf; [lia|]. cbn [loop].
  destruct (decide (i < length ps)%nat) as [Hlt|Hge].
  2: { rewrite ptr_end by lia. cbn [insert_place_body]. exists i. rewrite ptr_end by lia. split_and!; [lia|lia|done| |].
       - intros k p Hk. lia.
       - intros p Hp. apply lookup_lt_Some in Hp. lia. }
  destruct (lookup_lt_is_Some_2 ps i Hlt) as [p Hp]. rewrite ptr_pair by done.
  destruct (place_step zl ps ele d i p HR Hd He Hnew Hp) as [[-> Hm]|[-> Hm]].
  - exists i. rewrite ptr_pair by done. split_and!; [lia|lia|done|intros; lia|]. intros q Hq. by simplify_eq.
  - destruct (IH (S i) HR Hd He Hnew ltac:(lia) ltac:(lia)) as (j & Hj & E & H1 & H2).
    exists j. split_and!; [lia|lia|exact E| |done]. intros k q Hk Hq.
    destruct (decide (k = i)) as [->|]; [by simplify_eq|]. apply (H1 k q); [lia|done].
Qed.

(** ** The members after an insertion *)

Lemma members_insert (x : member) (a b : list member) :
  StronglySorted mlt (a ++ b) -> Forall (fun m => mlt m x) a -> Forall (mlt x) b ->
  StronglySorted mlt (a ++ x :: b).
Proof.
  induction a as [|m a IH]; intros Hs Ha Hb; [by constructor|]. inversion Hs as [|? ? Hs' Hm]; subst.
  inversion Ha as [|? ? Hx Ha']; subst. simpl. constructor; [by apply IH|].
  apply Forall_app in Hm as [Hm1 Hm2]. apply Forall_app. split; [done|]. constructor; [done|done].
Qed.

Lemma sorted_after (x : member) (ms : list member) j m :
  StronglySorted mlt ms -> ms !! j = Some m -> mlt x m -> Forall (mlt x) (drop j ms).
Proof.
  intros Hs Hj Hx. revert j Hj. induction Hs as [|m0 ms Hs IH Hm]; intros j Hj; [done|].
  destruct j as [|j]; [|by apply IH]. simplify_eq/=. constructor; [done|].
  eapply Forall_impl; [exact Hm|]. intros y Hy. by eapply mlt_trans.
Qed.

Lemma mlt_key_l a a' b : dkey a.1 = dkey a'.1 -> a.2 = a'.2 -> mlt a b -> mlt a' b.
Proof. unfold mlt. intros -> ->. done. Qed.
Lemma mlt_key_r a b b' : dkey b.1 = dkey b'.1 -> b.2 = b'.2 -> mlt a b -> mlt a b'.
Proof. unfold mlt. intros -> ->. done. Qed.

Lemma zzlInsert_spec zl ps ele d :
  ZzRepr zl ps -> isnan d = false -> valid_binary 53 1024 d = true ->
  Forall is_byte ele -> zlen ele < 2 ^ 31 -> ele ∉ ps.*1 ->
  lp_total (zz_ents ps) + zlen ele + 64 <= UINT32_MAX ->
  exists zl' j, (j <= length ps)%nat /\ zzlInsert zl ele d = Some (Some zl') /\
    ZzRepr zl' (insert_pair j (ele, score_ent d) ps).
Proof.
  intros HR Hn Hv Hb He Hnew Hfit. unfold zzlInsert. rewrite (seek_at zl _ (zz_repr _ _ HR)). cbn [mbind option_bind].
  change (if 0 <? 0 then _ else 0) with 0. cbv zeta. change (0 <? 0) with false. cbv iota.
  change (Z.to_nat 0) with (2 * 0)%nat.
  pose proof (entries_in_block zl _ (zz_repr _ _ HR)) as Hblk. unfold zlen in Hblk. rewrite length_zz in Hblk.
  destruct (insert_place zl ps ele d (S (length zl)) 0 HR Hn He Hnew ltac:(lia) ltac:(lia)) as (j & Hj & -> & H1 & H2).
  cbn [mbind option_bind].
  destruct (zzlInsertAt_spec zl ps j ele d (zz_repr _ _ HR) ltac:(lia) Hn Hv Hb Hfit) as (zl' & -> & HL).
  destruct (score_ent_spec d Hn Hv) as (Hnan & Hkey & _).
  exists zl', j. split; [lia|]. split; [done|]. unfold insert_pair in *. split; [done|..].
  - apply Forall_app. split; [apply Forall_take, HR|]. constructor; [|apply Forall_drop, HR].
    split_and!; [done|done| |done]. unfold score_ent. destruct (double2ll d); [done|apply str_ent_canon].
  - rewrite fmap_app, fmap_cons, fmap_take, fmap_drop. apply members_insert.
    + rewrite take_drop. apply HR.
    + apply Forall_lookup. intros k m Hm. apply lookup_take_Some in Hm as [Hm Hk].
      rewrite list_lookup_fmap in Hm. destruct (ps !! k) as [p|] eqn:Ep; [|done]. injection Hm as <-.
      apply (mlt_key_r _ (d, ele)); [done|done|]. apply (H1 k p); [lia|done].
    + destruct (ps !! j) as [p|] eqn:Ep.
      * apply (sorted_after _ _ j (pmem p)); [apply HR|by rewrite list_lookup_fmap, Ep|].
        apply (mlt_key_l (d, ele)); [done|done|]. by apply H2.
      * apply lookup_ge_None in Ep. rewrite drop_ge by (rewrite length_fmap; lia). constructor.
  - rewrite fmap_app, fmap_cons, fmap_take, fmap_drop.
    rewrite <- Permutation_middle, take_drop.
    constructor; [done|apply HR].
Qed.
End Edit.
