(* ===== verification/ZzlRange.v ===== *)
(** * Sorted sets in a listpack: ranges

    The first and the last pair of a range, and the deletion of ranges by score, by name and
    by rank. *)
From Stdlib Require Import SpecFloat.
From S2P Require Import Prelude Numstr Listpack ListpackOps ListpackFacts ListpackEdit ListpackRange Skiplist SkiplistOrder SkiplistRangeFacts SkiplistProps Zzl ZzlFacts.

Notation zpair := (list Z * lp_ent)%type.

(** ** The loops, with the positions of the range given *)

Section Loops.
Context `{Allocator} `{T : DoubleText} `{!DoubleTextOk T}.
Context (zl : list Z) (ps : list zpair) (HR : ZzRepr zl ps) (k1 k2 : nat).
Context (Hk1 : (k1 <= length ps)%nat) (Hk2 : (k2 <= length ps)%nat).
Context (gte lte : Z -> option bool).
Context (Hgte : forall i, (i < length ps)%nat -> gte (ent_off (zz_ents ps) (2 * i)) = Some (negb (bool_decide (i < k1)%nat))).
Context (Hlte : forall i, (i < length ps)%nat -> lte (ent_off (zz_ents ps) (2 * i)) = Some (bool_decide (i < k2)%nat)).

Definition hit (b : bool) (i : nat) : option Z := if b then Some (ent_off (zz_ents ps) (2 * i)) else None.

Lemma first_loop fuel : forall i,
  (i <= k1)%nat -> (length ps - i < fuel)%nat ->
  loop fuel (first_body zl gte lte) (ent_ptr (zz_ents ps) (2 * i)) = Some (hit (bool_decide (k1 < k2)%nat) k1).
Proof.
  induction fuel as [|fuel IH]; intros i Hi Hf; [lia|]. cbn [loop]. unfold first_body at 1.
  destruct (decide (i < length ps)%nat) as [Hlt|Hge].
  2: { rewrite ptr_end by lia. rewrite bool_decide_eq_false_2 by lia. done. }
  rewrite ptr_pair by done. rewrite Hgte by done. cbn [mbind option_bind].
  destruct (decide (i < k1)%nat) as [Hk|Hk]; [rewrite (bool_decide_eq_true_2 _ Hk)|rewrite (bool_decide_eq_false_2 _ Hk)]; cbn [negb].
  - destruct (lookup_lt_is_Some_2 ps i Hlt) as [p Hp]. destruct (pair_steps zl ps i p HR Hp) as (N1 & _ & N2).
    rewrite N1. cbn [mbind option_bind]. rewrite N2. cbn [mbind option_bind]. apply IH; lia.
  - assert (i = k1) as -> by lia. rewrite Hlte by done. cbn [mbind option_bind]. done.
Qed.

Lemma last_loop fuel : forall i,
  (i < length ps)%nat -> (k2 <= S i)%nat -> (i < fuel)%nat ->
  loop (S fuel) (last_body zl gte lte) (Some (ent_off (zz_ents ps) (2 * i))) =
    Some (hit (bool_decide (k1 < k2)%nat) (pred k2)).
Proof.
  induction fuel as [|fuel IH]; intros i Hi Hk Hf; [lia|]. rewrite loop_step. unfold last_body at 1.
  rewrite Hlte by done. cbn [mbind option_bind].
  destruct (decide (i < k2)%nat) as [Hlt|Hlt]; [rewrite (bool_decide_eq_true_2 _ Hlt)|rewrite (bool_decide_eq_false_2 _ Hlt)].
  - assert (i = pred k2) as -> by lia. rewrite Hgte by lia. cbn [mbind option_bind]. unfold hit.
    destruct (decide (pred k2 < k1)%nat); [rewrite bool_decide_eq_true_2 by done|rewrite bool_decide_eq_false_2 by done]; cbn [negb].
    + by rewrite bool_decide_eq_false_2 by lia.
    + by rewrite bool_decide_eq_true_2 by lia.
  - rewrite (prev_at zl _ (zz_repr _ _ HR)) by (rewrite length_zz; lia). cbn [mbind option_bind].
    destruct i as [|i]; [cbn [Nat.mul Nat.add]|].
    + rewrite loop_step. cbn [last_body]. rewrite bool_decide_eq_false_2 by lia. done.
    + replace (2 * S i)%nat with (S (S (2 * i))) by lia. cbn [mbind option_bind].
      rewrite (prev_at zl _ (zz_repr _ _ HR)) by (rewrite length_zz; lia). cbn [mbind option_bind]. apply IH; lia.
Qed.
End Loops.

(** ** Deleting pairs while a test holds *)

Section Delete.
Context `{Allocator} `{T : DoubleText} `{!DoubleTextOk T}.
Context (ps : list zpair) (k1 k2 : nat) (Hk2 : (k2 <= length ps)%nat) (L : zpair -> bool).
Context (HL : forall i p, ps !! i = Some p -> L p = bool_decide (i < k2)%nat).
Context (lte : list Z -> Z -> Z -> option bool).
Context (Hlte : forall zl ps i p, ZzRepr zl ps -> ps !! i = Some p ->
  lte zl (ent_off (zz_ents ps) (2 * i)) (ent_off (zz_ents ps) (S (2 * i))) = Some (L p)).

Lemma delete_loop fuel : forall j zl,
  (k1 <= j)%nat -> (j <= length ps)%nat -> ZzRepr zl (take k1 ps ++ drop j ps) -> (length ps - j < fuel)%nat ->
  exists zl', loop fuel (delete_body lte) (zl, ent_ptr (zz_ents (take k1 ps ++ drop j ps)) (2 * k1), Z.of_nat (j - k1)) =
    Some (zl', Z.of_nat (Nat.max j k2 - k1)) /\ ZzRepr zl' (take k1 ps ++ drop (Nat.max j k2) ps).
Proof.
  induction fuel as [|fuel IH]; intros j zl Hkj Hj HR Hf; [lia|]. cbn [loop]. unfold delete_body at 1.
  assert (Hlen : length (take k1 ps ++ drop j ps) = (k1 + (length ps - j))%nat) by (rewrite length_app, length_take, length_drop; lia).
  destruct (decide (j < length ps)%nat) as [Hlt|Hge].
  2: { rewrite ptr_end by lia. replace (Nat.max j k2) with j by lia. by exists zl. }
  destruct (lookup_lt_is_Some_2 ps j Hlt) as [p Hp].
  assert (Hk : (take k1 ps ++ drop j ps) !! k1 = Some p).
  { rewrite lookup_app_r by (rewrite length_take; lia). rewrite length_take, Nat.min_l, Nat.sub_diag by lia. by rewrite lookup_drop, Nat.add_0_r. }
  rewrite ptr_pair by lia. destruct (pair_steps zl _ k1 p HR Hk) as (N1 & _ & _). rewrite N1. cbn [mbind option_bind].
  rewrite (Hlte zl _ k1 p HR Hk). cbn [mbind option_bind]. rewrite (HL j p Hp).
  destruct (decide (j < k2)%nat) as [Hjk|Hjk]; [rewrite (bool_decide_eq_true_2 _ Hjk)|rewrite (bool_decide_eq_false_2 _ Hjk)].
  - destruct (delete_pair zl _ k1 HR ltac:(lia)) as (zl1 & -> & HR1). cbn [mbind option_bind].
    assert (delete k1 (take k1 ps ++ drop j ps) = take k1 ps ++ drop (S j) ps) as Ed.
    { rewrite delete_take_drop, take_app_length', drop_app_ge by (rewrite length_take; lia). f_equal. rewrite drop_drop. f_equal.
      rewrite length_take. lia. }
    rewrite Ed in *. replace (Z.of_nat (j - k1) + 1) with (Z.of_nat (S j - k1)) by lia.
    destruct (IH (S j) zl1) as (zl' & -> & HR'); [lia|lia|done|lia|]. exists zl'.
    replace (Nat.max (S j) k2) with (Nat.max j k2) in * by lia. done.
  - replace (Nat.max j k2) with j by lia. by exists zl.
Qed.
End Delete.

(** ** Which pair is the first or the last of a range *)

Definition is_first {X} (P : X -> bool) (l : list X) (r : option nat) : Prop :=
  match r with
  | Some i => (exists x, l !! i = Some x /\ P x = true) /\ forall j y, (j < i)%nat -> l !! j = Some y -> P y = false
  | None => Forall (fun x => P x = false) l
  end.
Definition is_last {X} (P : X -> bool) (l : list X) (r : option nat) : Prop :=
  match r with
  | Some i => (exists x, l !! i = Some x /\ P x = true) /\ forall j y, (i < j)%nat -> l !! j = Some y -> P y = false
  | None => Forall (fun x => P x = false) l
  end.

Lemma positions_ends {X} (P : X -> bool) (l : list X) k1 k2 :
  (k2 <= length l)%nat -> (forall i x, l !! i = Some x -> P x = bool_decide (k1 <= i < k2)%nat) ->
  is_first P l (if bool_decide (k1 < k2)%nat then Some k1 else None) /\
  is_last P l (if bool_decide (k1 < k2)%nat then Some (pred k2) else None).
Proof.
  intros Hk2 HP. case_bool_decide as Hlt.
  - split; (split; [|intros j y Hj Hy; rewrite (HP j y Hy), bool_decide_eq_false_2; [done|lia]]).
    + destruct (lookup_lt_is_Some_2 l k1 ltac:(lia)) as [x Hx]. exists x. split; [done|]. rewrite (HP _ _ Hx), bool_decide_eq_true_2; [done|lia].
    + destruct (lookup_lt_is_Some_2 l (pred k2) ltac:(lia)) as [x Hx]. exists x. split; [done|]. rewrite (HP _ _ Hx), bool_decide_eq_true_2; [done|lia].
  - assert (Forall (fun x => P x = false) l); [|done]. apply Forall_lookup. intros i x Hi. rewrite (HP i x Hi), bool_decide_eq_false_2; [done|lia].
Qed.

(** ** Score and name ranges of the pairs *)

(** The two tests select an interval of positions, empty when the range is. *)
Record interval (ps : list zpair) (empty : bool) (G L : zpair -> bool) (k1 k2 : nat) : Prop := {
  iv_k1 : (k1 <= length ps)%nat;
  iv_k2 : (k2 <= length ps)%nat;
  iv_gte i p : ps !! i = Some p -> G p = negb (bool_decide (i < k1)%nat);
  iv_lte i p : ps !! i = Some p -> L p = bool_decide (i < k2)%nat;
  iv_empty : empty = true -> (k2 <= k1)%nat;
}.

Lemma interval_in ps empty G L k1 k2 :
  interval ps empty G L k1 k2 -> forall i p, ps !! i = Some p -> G p && L p = bool_decide (k1 <= i < k2)%nat.
Proof.
  intros HI i p Hp. rewrite (iv_gte _ _ _ _ _ _ HI i p Hp), (iv_lte _ _ _ _ _ _ HI i p Hp).
  repeat case_bool_decide; simpl; lia || done.
Qed.

Lemma sorted_tail {X} (R : X -> X -> Prop) (l : list X) j : StronglySorted R l -> StronglySorted R (drop j l).
Proof. intros Hs. revert j. induction Hs as [|x l Hs IH Hx]; intros [|j]; simpl; try constructor; auto. Qed.

Lemma sorted_cut (ms : list member) i j : StronglySorted mlt ms -> (i <= j)%nat -> StronglySorted mlt (take i ms ++ drop j ms).
Proof.
  revert i j. induction ms as [|m ms IH]; intros i j Hs Hij; [by rewrite take_nil, drop_nil|]. inversion Hs as [|? ? Hs' Hm]; subst.
  destruct i as [|i].
  - by apply (sorted_tail _ (m :: ms)).
  - destruct j as [|j]; [lia|]. simpl. constructor; [apply IH; [done|lia]|]. apply Forall_app. split; [by apply Forall_take|by apply Forall_drop].
Qed.

Lemma nodup_cut {X} (l : list X) i j : NoDup l -> (i <= j)%nat -> NoDup (take i l ++ drop j l).
Proof.
  intros Hl Hij. eapply sublist_NoDup; [exact Hl|]. rewrite <- (take_drop i l) at 3. apply sublist_app; [done|].
  replace j with (i + (j - i))%nat by lia. rewrite <- drop_drop. apply sublist_drop.
Qed.

Section Intervals.
Context `{Allocator} `{T : DoubleText} `{!DoubleTextOk T}.
Context (zl : list Z) (ps : list zpair) (HR : ZzRepr zl ps).

Lemma order_interval {V} (ok : V -> Prop) (cmp : V -> V -> Z) `{!TotalCmp ok cmp} lo hi loex hiex (kv : zpair -> V) (G L : zpair -> bool) :
  ok lo -> ok hi -> (forall p, p ∈ ps -> ok (kv p)) ->
  (forall p q, p ∈ ps -> q ∈ ps -> mlt (pmem p) (pmem q) -> cmp (kv p) (kv q) <= 0) ->
  (forall p, p ∈ ps -> G p = gte_by cmp lo loex (kv p) /\ L p = lte_by cmp hi hiex (kv p)) ->
  exists k1 k2, interval ps (empty_by cmp lo hi loex hiex) G L k1 k2.
Proof.
  intros Hlo Hhi Hkv Hord HGL.
  assert (HS : StronglySorted (fun p q => mlt (pmem p) (pmem q)) ps).
  { pose proof (zz_sorted _ _ HR) as Hs. clear -Hs. remember (pmem <$> ps) as ms eqn:E. revert ps E.
    induction Hs as [|m ms Hs IH Hm]; intros [|p ps] E; try done; [constructor|]. rewrite fmap_cons in E. injection E as -> ->.
    constructor; [by apply IH|]. by rewrite Forall_fmap in Hm. }
  destruct (ordered_positions ok cmp lo hi loex hiex Hlo Hhi _ ps HS kv Hkv Hord) as (k1 & k2 & Hk1 & Hk2 & H1 & H2 & HF & _).
  exists k1, k2. split; [done|done|..].
  - intros i p Hp. rewrite (proj1 (HGL p ltac:(by eapply list_elem_of_lookup_2))). by apply H1.
  - intros i p Hp. rewrite (proj2 (HGL p ltac:(by eapply list_elem_of_lookup_2))). by apply H2.
  - intros He. destruct (decide (k2 <= k1)%nat) as [|Hn]; [done|]. exfalso.
    destruct (lookup_lt_is_Some_2 ps k1 ltac:(lia)) as [p Hp]. pose proof (list_elem_of_lookup_2 _ _ _ Hp) as Hin.
    pose proof (empty_range ok cmp lo hi loex hiex Hlo Hhi (kv p) (Hkv p Hin) He) as Hr.
    rewrite (H1 k1 p Hp), (H2 k1 p Hp), bool_decide_eq_false_2, bool_decide_eq_true_2 in Hr by lia. done.
Qed.

Lemma pair_number p : p ∈ ps -> isnan (ent_score p.2) = false.
Proof. intros Hp. pose proof (proj1 (Forall_forall _ _) (zz_pairs _ _ HR) p Hp) as Hok. apply Hok. Qed.

Lemma score_interval range :
  isnan (r_min range) = false -> isnan (r_max range) = false ->
  exists k1 k2, interval ps (score_empty range) (fun p => zslValueGteMin (ent_score p.2) range)
    (fun p => zslValueLteMax (ent_score p.2) range) k1 k2.
Proof.
  intros Hlo Hhi. rewrite (score_empty_by range Hlo Hhi).
  apply (order_interval (fun d => isnan d = false) scmp _ _ _ _ (fun p => ent_score p.2)); try done.
  - apply pair_number.
  - intros p q Hp Hq Hlt. pose proof (pair_number p Hp) as Np. pose proof (pair_number q Hq) as Nq.
    destruct (scmp_case _ _ Np Nq) as [[_ ->]|[[_ ->]|[Hgt _]]]; [lia|lia|].
    exfalso. destruct Hlt as [Hl|[He _]]; simpl in *.
    + apply (klt_irrefl (dkey (ent_score p.2))). by eapply klt_trans.
    + rewrite He in Hgt. by apply klt_irrefl in Hgt.
  - intros p Hp. pose proof (pair_number p Hp) as Np. destruct range as [lo hi loex hiex]. by apply score_tests.
Qed.

Lemma lex_interval range :
  (forall p q, p ∈ ps -> q ∈ ps -> dkey (ent_score p.2) = dkey (ent_score q.2)) ->
  exists k1 k2, interval ps (lex_empty range) (fun p => zslLexValueGteMin p.1 range) (fun p => zslLexValueLteMax p.1 range) k1 k2.
Proof.
  intros Heq. apply (order_interval (fun _ => True) sdscmplex (l_min range) (l_max range) (l_minex range) (l_maxex range) (fun p => LexStr p.1)); try done.
  intros p q Hp Hq [Hl|[_ Hl]]; simpl in *.
  - rewrite (Heq p q Hp Hq) in Hl. by apply klt_irrefl in Hl.
  - lia.
Qed.

(** ** The ends of the listpack *)

Lemma seek_first : lpSeek zl 0 = Some (ent_ptr (zz_ents ps) (2 * 0)).
Proof. rewrite (seek_at zl _ (zz_repr _ _ HR)). done. Qed.

Lemma seek_last n : length ps = S n ->
  lpSeek zl (-1) = Some (Some (ent_off (zz_ents ps) (S (2 * n)))) /\ lpSeek zl (-2) = Some (Some (ent_off (zz_ents ps) (2 * n))) /\
  lpSeek zl 1 = Some (Some (ent_off (zz_ents ps) (S (2 * 0)))).
Proof.
  intros Hn. assert (zlen (zz_ents ps) = 2 * Z.of_nat (S n)) as Ez by (unfold zlen; rewrite length_zz; lia).
  rewrite !(seek_at zl _ (zz_repr _ _ HR)), Ez. change (-1 <? 0) with true. change (-2 <? 0) with true. change (1 <? 0) with false. cbv iota zeta.
  rewrite !(proj2 (Z.ltb_ge _ 0)) by lia.
  replace (Z.to_nat (2 * Z.of_nat (S n) + -1)) with (S (2 * n)) by lia. replace (Z.to_nat (2 * Z.of_nat (S n) + -2)) with (2 * n)%nat by lia.
  change (Z.to_nat 1) with (S (2 * 0)). rewrite !ptr_score, ptr_pair by lia. done.
Qed.

Lemma seek_none : ps = [] -> lpSeek zl (-1) = Some None /\ lpSeek zl (-2) = Some None.
Proof. intros E. rewrite !(seek_at zl _ (zz_repr _ _ HR)), E. done. Qed.

Lemma score_gate range k1 k2 :
  interval ps (score_empty range) (fun p => zslValueGteMin (ent_score p.2) range) (fun p => zslValueLteMax (ent_score p.2) range) k1 k2 ->
  zzlIsInRange zl range = Some (negb (score_empty range) && bool_decide (k1 < length ps)%nat && bool_decide (0 < k2)%nat).
Proof.
  intros HI. unfold zzlIsInRange. destruct (score_empty range); [done|]. cbn [negb andb].
  destruct (length ps) as [|n] eqn:En.
  { destruct (seek_none (nil_length_inv _ En)) as [-> _]. done. }
  destruct (seek_last n En) as (-> & _ & ->). cbn [mbind option_bind].
  destruct (lookup_lt_is_Some_2 ps n ltac:(lia)) as [q Hq]. destruct (lookup_lt_is_Some_2 ps 0 ltac:(lia)) as [p Hp].
  rewrite (score_at zl _ (zz_repr _ _ HR) _ _ (zz_score ps n q Hq)), (score_at zl _ (zz_repr _ _ HR) _ _ (zz_score ps 0 p Hp)). cbn [mbind option_bind].
  rewrite (iv_gte _ _ _ _ _ _ HI n q Hq), (iv_lte _ _ _ _ _ _ HI 0 p Hp), negb_involutive. pose proof (iv_k1 _ _ _ _ _ _ HI).
  repeat case_bool_decide; simpl; lia || done.
Qed.

Lemma lex_gate range k1 k2 :
  interval ps (lex_empty range) (fun p => zslLexValueGteMin p.1 range) (fun p => zslLexValueLteMax p.1 range) k1 k2 ->
  zzlIsInLexRange zl range = Some (negb (lex_empty range) && bool_decide (k1 < length ps)%nat && bool_decide (0 < k2)%nat).
Proof.
  intros HI. unfold zzlIsInLexRange. destruct (lex_empty range); [done|]. cbn [negb andb].
  destruct (length ps) as [|n] eqn:En.
  { destruct (seek_none (nil_length_inv _ En)) as [_ ->]. done. }
  destruct (seek_last n En) as (_ & -> & _). rewrite seek_first, ptr_pair by lia. cbn [mbind option_bind].
  destruct (lookup_lt_is_Some_2 ps n ltac:(lia)) as [q Hq]. destruct (lookup_lt_is_Some_2 ps 0 ltac:(lia)) as [p Hp].
  unfold zzlLexValueGteMin, zzlLexValueLteMax.
  rewrite (object_at zl _ (zz_repr _ _ HR) _ _ (zz_name ps n q Hq)), (object_at zl _ (zz_repr _ _ HR) _ _ (zz_name ps 0 p Hp)). cbn [mbind option_bind].
  rewrite (iv_gte _ _ _ _ _ _ HI n q Hq), (iv_lte _ _ _ _ _ _ HI 0 p Hp), negb_involutive. pose proof (iv_k1 _ _ _ _ _ _ HI).
  repeat case_bool_decide; simpl; lia || done.
Qed.

(** The tests that the loops make. *)
Lemma score_test_at f i p : ps !! i = Some p -> Zzl.score_test f zl (ent_off (zz_ents ps) (2 * i)) = Some (f (ent_score p.2)).
Proof.
  intros Hp. destruct (pair_steps zl ps i p HR Hp) as (N1 & Hs & _). unfold Zzl.score_test. rewrite N1. cbn [mbind option_bind].
  rewrite Hs. done.
Qed.

Lemma lex_test_at (f : list Z -> zlexrangespec -> bool) range i p :
  ps !! i = Some p -> (value ← lpGetObject zl (ent_off (zz_ents ps) (2 * i)); Some (f value range)) = Some (f p.1 range).
Proof. intros Hp. by rewrite (object_at zl _ (zz_repr _ _ HR) _ _ (zz_name ps i p Hp)). Qed.

(** From an interval to the first and the last pair. *)
Section Ends.
Context (empty : bool) (G L : zpair -> bool) (k1 k2 : nat) (HI : interval ps empty G L k1 k2).
Context (gte lte : Z -> option bool).
Context (Hgte : forall i p, ps !! i = Some p -> gte (ent_off (zz_ents ps) (2 * i)) = Some (G p)).
Context (Hlte : forall i p, ps !! i = Some p -> lte (ent_off (zz_ents ps) (2 * i)) = Some (L p)).
Let gate : bool := negb empty && bool_decide (k1 < length ps)%nat && bool_decide (0 < k2)%nat.

Lemma gate_closed : gate = false -> bool_decide (k1 < k2)%nat = false.
Proof.
  intros Hg. apply bool_decide_eq_false_2. pose proof (iv_k2 _ _ _ _ _ _ HI). pose proof (iv_empty _ _ _ _ _ _ HI) as He. unfold gate in Hg.
  destruct empty; [specialize (He eq_refl); lia|]. repeat case_bool_decide; simpl in Hg; lia || done.
Qed.

Lemma test_gte i : (i < length ps)%nat -> gte (ent_off (zz_ents ps) (2 * i)) = Some (negb (bool_decide (i < k1)%nat)).
Proof. intros Hi. destruct (lookup_lt_is_Some_2 ps i Hi) as [p Hp]. by rewrite (Hgte i p Hp), (iv_gte _ _ _ _ _ _ HI i p Hp). Qed.
Lemma test_lte i : (i < length ps)%nat -> lte (ent_off (zz_ents ps) (2 * i)) = Some (bool_decide (i < k2)%nat).
Proof. intros Hi. destruct (lookup_lt_is_Some_2 ps i Hi) as [p Hp]. by rewrite (Hlte i p Hp), (iv_lte _ _ _ _ _ _ HI i p Hp). Qed.

Lemma first_result :
  (if negb gate then Some None else loop (S (length zl)) (first_body zl gte lte) (ent_ptr (zz_ents ps) (2 * 0))) =
    Some (hit ps (bool_decide (k1 < k2)%nat) k1).
Proof.
  destruct gate eqn:Eg; cbn [negb]; [|by rewrite gate_closed].
  apply (first_loop zl ps HR k1 k2 (iv_k1 _ _ _ _ _ _ HI) (iv_k2 _ _ _ _ _ _ HI) gte lte test_gte test_lte); [lia|].
  pose proof (entries_in_block _ _ (zz_repr _ _ HR)) as Hb. unfold zlen in Hb. rewrite length_zz in Hb. lia.
Qed.

Lemma last_result n : length ps = S n ->
  (if negb gate then Some None else loop (S (length zl)) (last_body zl gte lte) (Some (ent_off (zz_ents ps) (2 * n)))) =
    Some (hit ps (bool_decide (k1 < k2)%nat) (pred k2)).
Proof.
  intros Hn. destruct gate eqn:Eg; cbn [negb]; [|by rewrite gate_closed]. pose proof (iv_k2 _ _ _ _ _ _ HI).
  apply (last_loop zl ps HR k1 k2 (iv_k1 _ _ _ _ _ _ HI) (iv_k2 _ _ _ _ _ _ HI) gte lte test_gte test_lte); [lia|lia|].
  pose proof (entries_in_block _ _ (zz_repr _ _ HR)) as Hb. unfold zlen in Hb. rewrite length_zz in Hb. lia.
Qed.

Lemma hit_first : exists r, hit ps (bool_decide (k1 < k2)%nat) k1 = (fun i => ent_off (zz_ents ps) (2 * i)) <$> r /\
  is_first (fun p => G p && L p) ps r.
Proof.
  exists (if bool_decide (k1 < k2)%nat then Some k1 else None). split; [by unfold hit; case_bool_decide|].
  apply (positions_ends _ ps k1 k2 (iv_k2 _ _ _ _ _ _ HI)). by apply (interval_in ps empty).
Qed.
Lemma hit_last : exists r, hit ps (bool_decide (k1 < k2)%nat) (pred k2) = (fun i => ent_off (zz_ents ps) (2 * i)) <$> r /\
  is_last (fun p => G p && L p) ps r.
Proof.
  exists (if bool_decide (k1 < k2)%nat then Some (pred k2) else None). split; [by unfold hit; case_bool_decide|].
  apply (positions_ends _ ps k1 k2 (iv_k2 _ _ _ _ _ _ HI)). by apply (interval_in ps empty).
Qed.
End Ends.

(** ** The operations *)

Lemma last_in_empty empty G L k1 k2 : interval ps empty G L k1 k2 -> ps = [] -> k2 = 0%nat.
Proof. intros HI E. pose proof (iv_k2 _ _ _ _ _ _ HI) as Hk. rewrite E in Hk. simpl in Hk. lia. Qed.

Lemma zzlFirstInRange_at range k1 k2 :
  interval ps (score_empty range) (fun p => zslValueGteMin (ent_score p.2) range) (fun p => zslValueLteMax (ent_score p.2) range) k1 k2 ->
  zzlFirstInRange zl range = Some (hit ps (bool_decide (k1 < k2)%nat) k1) /\
  zzlLastInRange zl range = Some (hit ps (bool_decide (k1 < k2)%nat) (pred k2)).
Proof.
  intros HI. unfold zzlFirstInRange, zzlLastInRange. rewrite seek_first, (score_gate range k1 k2 HI). cbn [mbind option_bind]. split.
  - apply (first_result _ _ _ _ _ HI); intros i p; apply score_test_at.
  - destruct (length ps) as [|n] eqn:En.
    + pose proof (nil_length_inv _ En) as Enil. destruct (seek_none Enil) as [_ ->]. rewrite (last_in_empty _ _ _ _ _ HI Enil).
      cbn [mbind option_bind]. rewrite !andb_false_r. rewrite bool_decide_eq_false_2 by lia. done.
    + destruct (seek_last n En) as (_ & -> & _). rewrite <- En. cbn [mbind option_bind].
      apply (last_result _ _ _ _ _ HI); [intros i p; apply score_test_at|intros i p; apply score_test_at|done].
Qed.

Lemma zzlFirstInLexRange_at range k1 k2 :
  interval ps (lex_empty range) (fun p => zslLexValueGteMin p.1 range) (fun p => zslLexValueLteMax p.1 range) k1 k2 ->
  zzlFirstInLexRange zl range = Some (hit ps (bool_decide (k1 < k2)%nat) k1) /\
  zzlLastInLexRange zl range = Some (hit ps (bool_decide (k1 < k2)%nat) (pred k2)).
Proof.
  intros HI. unfold zzlFirstInLexRange, zzlLastInLexRange. rewrite seek_first, (lex_gate range k1 k2 HI). cbn [mbind option_bind]. split.
  - apply (first_result _ _ _ _ _ HI); intros i p; by apply lex_test_at.
  - destruct (length ps) as [|n] eqn:En.
    + pose proof (nil_length_inv _ En) as Enil. destruct (seek_none Enil) as [_ ->]. rewrite (last_in_empty _ _ _ _ _ HI Enil).
      cbn [mbind option_bind]. rewrite !andb_false_r. rewrite bool_decide_eq_false_2 by lia. done.
    + destruct (seek_last n En) as (_ & -> & _). rewrite <- En. cbn [mbind option_bind].
      apply (last_result _ _ _ _ _ HI); [intros i p; by apply lex_test_at|intros i p; by apply lex_test_at|done].
Qed.

(** Deleting the pairs of an interval leaves the others. *)
Lemma delete_interval empty G L k1 k2 lte :
  interval ps empty G L k1 k2 ->
  (forall zl ps i p, ZzRepr zl ps -> ps !! i = Some p ->
     lte zl (ent_off (zz_ents ps) (2 * i)) (ent_off (zz_ents ps) (S (2 * i))) = Some (L p)) ->
  exists zl', (match hit ps (bool_decide (k1 < k2)%nat) k1 with
               | None => Some (zl, 0)
               | Some p => loop (S (length zl)) (delete_body lte) (zl, Some p, 0)
               end) = Some (zl', zlen (filter (fun p => G p && L p = true) ps)) /\
    ZzRepr zl' (filter (fun p => G p && L p = false) ps).
Proof.
  intros HI Hlte. pose proof (interval_in _ _ _ _ _ _ HI) as Hin. pose proof (iv_k1 _ _ _ _ _ _ HI). pose proof (iv_k2 _ _ _ _ _ _ HI).
  rewrite (filter_positions _ ps k1 k2 Hin), (filter_out_positions _ ps k1 k2 Hin). unfold hit. case_bool_decide as Hlt.
  - destruct (delete_loop ps k1 k2 (iv_k2 _ _ _ _ _ _ HI) L (iv_lte _ _ _ _ _ _ HI) lte Hlte (S (length zl)) k1 zl) as (zl' & E & HR').
    + lia.
    + lia.
    + by rewrite take_drop.
    + pose proof (entries_in_block _ _ (zz_repr _ _ HR)) as Hb. unfold zlen in Hb. rewrite length_zz in Hb. lia.
    + exists zl'. rewrite take_drop, ptr_pair, Nat.sub_diag in E by lia. change (Z.of_nat 0) with 0 in E. rewrite E. replace (Nat.max k1 k2) with k2 in * by lia.
      replace (k1 + (k2 - k1))%nat with k2 by lia. split; [|done]. do 2 f_equal. unfold zlen. rewrite length_take, length_drop. lia.
  - exists zl. replace (k2 - k1)%nat with 0%nat by lia. rewrite Nat.add_0_r, take_drop. done.
Qed.

Lemma delete_score range :
  isnan (r_min range) = false -> isnan (r_max range) = false ->
  exists zl', zzlDeleteRangeByScore zl range = Some (zl', zlen (filter (fun p => in_score range (pmem p) = true) ps)) /\
    ZzRepr zl' (filter (fun p => in_score range (pmem p) = false) ps).
Proof.
  intros Hlo Hhi. destruct (score_interval range Hlo Hhi) as (k1 & k2 & HI). unfold zzlDeleteRangeByScore.
  rewrite (proj1 (zzlFirstInRange_at range k1 k2 HI)). cbn [mbind option_bind]. apply (delete_interval _ _ _ _ _ _ HI).
  intros zl1 ps1 i p HR1 Hp. by rewrite (score_at zl1 _ (zz_repr _ _ HR1) _ _ (zz_score ps1 i p Hp)).
Qed.

Lemma delete_lex range :
  (forall p q, p ∈ ps -> q ∈ ps -> dkey (ent_score p.2) = dkey (ent_score q.2)) ->
  exists zl', zzlDeleteRangeByLex zl range = Some (zl', zlen (filter (fun p => in_lex range (pmem p) = true) ps)) /\
    ZzRepr zl' (filter (fun p => in_lex range (pmem p) = false) ps).
Proof.
  intros Heq. destruct (lex_interval range Heq) as (k1 & k2 & HI). unfold zzlDeleteRangeByLex.
  rewrite (proj1 (zzlFirstInLexRange_at range k1 k2 HI)). cbn [mbind option_bind]. apply (delete_interval _ _ _ _ _ _ HI).
  intros zl1 ps1 i p HR1 Hp. unfold zzlLexValueLteMax. by rewrite (object_at zl1 _ (zz_repr _ _ HR1) _ _ (zz_name ps1 i p Hp)).
Qed.

(** Ranks are 1-based; the end is part of the range. *)
Lemma delete_rank start stop :
  1 <= start -> start <= stop -> stop <= zlen ps ->
  exists zl', zzlDeleteRangeByRank zl start stop = Some (zl', stop - start + 1) /\
    ZzRepr zl' (take (Z.to_nat (start - 1)) ps ++ drop (Z.to_nat stop) ps).
Proof.
  intros H1 H2 H3. unfold zzlDeleteRangeByRank. destruct (zz_repr _ _ HR) as (num & slack & Ezl & WF).
  pose proof (zlen_es num (zz_ents ps) slack WF) as [Hz _]. assert (zlen (zz_ents ps) = 2 * zlen ps) as E2 by (unfold zlen; rewrite length_zz; lia).
  unfold UINT32_MAX in Hz. assert (zlen ps < 2 ^ 31) as Hps by lia.
  rewrite (wrapu_small 32 (stop - start + 1)), (wrapu_small 32 (start - 1)), !wrapu_small by lia.
  destruct (deleteRange_block num (zz_ents ps) slack WF (2 * (start - 1)) (2 * (stop - start + 1))) as (num' & slack' & E & WF');
    [unfold_limits; lia|unfold_limits; lia|].
  rewrite <- Ezl in E. replace (2 * (start - 1) <? 0) with false in * by lia. replace (2 * (start - 1) <? 0) with false in * by lia.
  rewrite E. cbn [mbind option_bind]. eexists. split; [done|].
  assert (remove_range (Z.to_nat (2 * (start - 1))) (Z.to_nat (2 * (stop - start + 1))) (zz_ents ps) =
    zz_ents (take (Z.to_nat (start - 1)) ps ++ drop (Z.to_nat stop) ps)) as Er.
  { unfold remove_range. replace (Z.to_nat (2 * (start - 1))) with (2 * Z.to_nat (start - 1))%nat by lia.
    replace (2 * Z.to_nat (start - 1) + Z.to_nat (2 * (stop - start + 1)))%nat with (2 * Z.to_nat stop)%nat by lia.
    by rewrite zz_take, zz_drop, zz_app. }
  rewrite Er in *. split.
  - by exists num', slack'.
  - pose proof (zz_pairs _ _ HR). apply Forall_app. split; [by apply Forall_take|by apply Forall_drop].
  - rewrite fmap_app, fmap_take, fmap_drop. apply sorted_cut; [apply HR|lia].
  - rewrite fmap_app, fmap_take, fmap_drop. apply nodup_cut; [apply HR|lia].
Qed.
End Intervals.
