(* ===== verification/Zset.v ===== *)
(** * Sorted sets ([t_zset.c], common API)

    A sorted set is a listpack, or a hash table and a skip list that share the members: the
    table maps a name to the node that holds its score, so the score is read through the
    node.  The operations work on both encodings and convert between them.  [rss] are the
    outcomes of [random()] for the successive insertions into a skip list; the seeded hash
    function of the table is an argument.  A failed [serverAssert], a NULL listpack and a
    dangling pointer are [None]. *)
From Stdlib Require Import SpecFloat.
From S2P Require Import Prelude Numstr Listpack ListpackOps Dict DictOps Skiplist Zzl.

(** ** The types *)

(** Strings are shorter than 2^31 bytes, so the [int] variables hold their lengths. *)
Definition dictSdsKeyCompare (key1 key2 : list Z) : bool :=
  if zlen key1 =? zlen key2 then memcmp key1 key2 (length key1) =? 0 else false.

(** The table does not own the names, and its values are pointers to nodes. *)
Definition zsetDictType (dictSdsHash : list Z -> Z) : DictType := {|
  dkey := list Z; dval := nat; key_eqb a b := bool_decide (a = b); key_odd _ := false;
  hashFunction := dictSdsHash; keyCompare := Some dictSdsKeyCompare;
  storedHashFunction := None; storedKeyCompare := None; keyDup := None; valDup := None;
  keyDestructor := false; valDestructor := false; rehashingStarted := false; rehashingCompleted := false;
  resizeAllowed := None; no_value := false; keys_are_odd := false |}.

Definition ZADD_IN_INCR := 1.
Definition ZADD_IN_NX := 2.
Definition ZADD_IN_XX := 4.
Definition ZADD_IN_GT := 8.
Definition ZADD_IN_LT := 16.
Definition ZADD_OUT_NOP := 1.
Definition ZADD_OUT_NAN := 2.
Definition ZADD_OUT_ADDED := 4.
Definition ZADD_OUT_UPDATED := 8.

Definition dadd (a b : double) : double := SFadd 53 1024 a b.

Section Zset.
Context `{Allocator} `{NodeAllocator} `{DoubleText}.
Context (dictSdsHash : list Z -> Z) (resize : dictResizeEnable).
Context (zset_max_listpack_entries zset_max_listpack_value : Z).
#[local] Instance D : DictType := zsetDictType dictSdsHash.

Record zset := { zs_dict : @dict D; zs_heap : zheap; zs_zsl : zskiplist }.

Inductive zobj := ObjListpack (zl : list Z) | ObjSkiplist (zs : zset).

(** [*(double* )dictGetVal(de)]: the score in the node, and the node. *)
Definition entry_score (zs : zset) (d : @dict D) (r : eref) : option (double * nat) :=
  de ← get_entry d r;
  _ ← assert_true (entryHasValue de);
  id ← (dictGetVal de : option nat);
  nd ← zs_heap zs !! id;
  Some (zn_score nd, id).

Definition with_dict (zs : zset) (d : @dict D) : zset :=
  {| zs_dict := d; zs_heap := zs_heap zs; zs_zsl := zs_zsl zs |}.

(** ** Creation, length, conversion *)

Definition createZsetObject : option zobj :=
  '(h, zsl) ← zslCreate ∅;
  Some (ObjSkiplist {| zs_dict := dictCreate; zs_heap := h; zs_zsl := zsl |}).

Definition createZsetListpackObject : option zobj := zl ← lpNew 0; Some (ObjListpack zl).

Definition zsetTypeCreate (size_hint val_len_hint : Z) : option zobj :=
  if (size_hint <=? zset_max_listpack_entries) && (val_len_hint <=? zset_max_listpack_value)
  then createZsetListpackObject
  else
    o ← createZsetObject;
    match o with
    | ObjSkiplist zs => '(d, _) ← dictExpand (zs_dict zs) size_hint; Some (ObjSkiplist (with_dict zs d))
    | ObjListpack _ => None
    end.

Definition zsetLength (o : zobj) : option (zobj * Z) :=
  match o with
  | ObjListpack zl => '(zl, n) ← zzlLength zl; Some (ObjListpack zl, n)
  | ObjSkiplist zs => Some (o, zsl_length (zs_zsl zs))
  end.

(** A new member of the table and of the skip list: the name and its node. *)
Definition add_member (zs : zset) (rss : list (list Z)) (score : double) (ele : list Z) :
    option (zset * list (list Z)) :=
  match rss with
  | [] => None
  | rs :: rss =>
      '(h, zsl, node) ← zslInsert (zs_heap zs) (zs_zsl zs) rs score ele;
      '(d, ok) ← dictAdd resize (zs_dict zs) (ele : @dkey D) (node : @dval D);
      _ ← assert_true ok;
      Some ({| zs_dict := d; zs_heap := h; zs_zsl := zsl |}, rss)
  end.

(** The loop over the pairs of the listpack. *)
Definition convert_body (zl : list Z) (st : zset * option (Z * Z) * list (list Z)) :
    option (zset * option (Z * Z) * list (list Z) + zset * list (list Z)) :=
  let '(zs, ptrs, rss) := st in
  match ptrs with
  | None => Some (inr (zs, rss))
  | Some (eptr, sptr) =>
      score ← zzlGetScore zl sptr;
      ele ← lpGetObject zl eptr;
      '(zs, rss) ← add_member zs rss score ele;
      ptrs ← zzlNext zl sptr;
      Some (inl (zs, ptrs, rss))
  end.

Definition convert_to_skiplist (zl : list Z) (cap : Z) (rss : list (list Z)) : option (zset * list (list Z)) :=
  '(h, zsl) ← zslCreate ∅;
  '(d, _) ← dictExpand dictCreate cap;
  eptr ← lpSeek zl 0;
  ptrs ← match eptr with
         | Some eptr => sptr ← lpNext zl eptr; sptr ← sptr; Some (Some (eptr, sptr))
         | None => Some None
         end;
  loop (S (length zl)) (convert_body zl) ({| zs_dict := d; zs_heap := h; zs_zsl := zsl |}, ptrs, rss).

(** The loop over the nodes, which are freed as their members are copied. *)
Fixpoint copy_nodes (fuel : nat) (h : zheap) (zl : list Z) (node : option nat) : option (list Z) :=
  match node with
  | None => Some zl
  | Some x =>
      match fuel with
      | O => None
      | S fuel =>
          nd ← h !! x;
          ele ← zn_ele nd;
          zl ← zzlInsertAt zl None ele (zn_score nd);
          zl ← zl;
          lv ← get_level h x 0;
          copy_nodes fuel (zslFreeNode h x) zl (forward lv)
      end
  end.

Definition convert_to_listpack (zs : zset) : option (list Z) :=
  zl ← lpNew 0;
  lv ← get_level (zs_heap zs) (zsl_header (zs_zsl zs)) 0;
  let h := delete (zsl_header (zs_zsl zs)) (zs_heap zs) in
  copy_nodes (size h) h zl (forward lv).

(** The target encoding is a boolean, true for the skip list. *)
Definition zsetConvertAndExpand (o : zobj) (encoding : bool) (cap : Z) (rss : list (list Z)) :
    option (zobj * list (list Z)) :=
  match o, encoding with
  | ObjListpack zl, true => '(zs, rss) ← convert_to_skiplist zl cap rss; Some (ObjSkiplist zs, rss)
  | ObjSkiplist zs, false => zl ← convert_to_listpack zs; Some (ObjListpack zl, rss)
  | _, _ => Some (o, rss)
  end.

Definition zsetConvert (o : zobj) (encoding : bool) (rss : list (list Z)) : option (zobj * list (list Z)) :=
  '(o, n) ← zsetLength o; zsetConvertAndExpand o encoding n rss.

Definition zsetTypeMaybeConvert (o : zobj) (size_hint : Z) (rss : list (list Z)) : option (zobj * list (list Z)) :=
  match o with
  | ObjListpack _ =>
      if size_hint >? zset_max_listpack_entries then zsetConvertAndExpand o true size_hint rss else Some (o, rss)
  | ObjSkiplist _ => Some (o, rss)
  end.

Definition zsetConvertToListpackIfNeeded (o : zobj) (maxelelen totelelen : Z) : option zobj :=
  match o with
  | ObjListpack _ => Some o
  | ObjSkiplist zs =>
      safe ← lpSafeToAdd None totelelen;
      if (zsl_length (zs_zsl zs) <=? zset_max_listpack_entries) && (maxelelen <=? zset_max_listpack_value) && safe
      then '(o, _) ← zsetConvert o false []; Some o
      else Some o
  end.

(** ** Lookup *)

(** [None] inside for [C_ERR]. *)
Definition zsetScore (o : zobj) (member : list Z) : option (zobj * option double) :=
  match o with
  | ObjListpack zl => r ← zzlFind zl member; Some (o, match r with Some (_, score) => Some score | None => None end)
  | ObjSkiplist zs =>
      '(d, de) ← dictFind resize (zs_dict zs) (member : @dkey D);
      match de with
      | None => Some (ObjSkiplist (with_dict zs d), None)
      | Some r => '(score, _) ← entry_score zs d r; Some (ObjSkiplist (with_dict zs d), Some score)
      end
  end.

(** ** Adding and updating *)

(** The object, the return value, [*out_flags], [*newscore] when it is set, and the draws
    left. *)
Definition zadd_result := (zobj * bool * Z * option double * list (list Z))%type.

(** The score and the flag with which the update of an existing member goes on, or the
    flags and return value with which it stops. *)
Definition zadd_update (in_flags : Z) (score curscore : double) : (bool * Z) + double :=
  let incr := negb (Z.land in_flags ZADD_IN_INCR =? 0) in
  let nx := negb (Z.land in_flags ZADD_IN_NX =? 0) in
  let gt := negb (Z.land in_flags ZADD_IN_GT =? 0) in
  let lt := negb (Z.land in_flags ZADD_IN_LT =? 0) in
  if nx then inl (true, ZADD_OUT_NOP)
  else
    let score := if incr then dadd score curscore else score in
    if incr && isnan score then inl (false, ZADD_OUT_NAN)
    else if (lt && dle curscore score) || (gt && dle score curscore) then inl (true, ZADD_OUT_NOP)
    else inr score.

Definition zsetAddSkiplist (zs : zset) (score : double) (ele : list Z) (in_flags : Z) (rss : list (list Z)) :
    option zadd_result :=
  let xx := negb (Z.land in_flags ZADD_IN_XX =? 0) in
  '(d, de) ← dictFind resize (zs_dict zs) (ele : @dkey D);
  let zs := with_dict zs d in
  match de with
  | Some r =>
      '(curscore, _) ← entry_score zs d r;
      match zadd_update in_flags score curscore with
      | inl (ret, flags) => Some (ObjSkiplist zs, ret, flags, None, rss)
      | inr score =>
          if negb (deq score curscore) then
            match rss with
            | [] => None
            | rs :: rss =>
                '(h, zsl, znode) ← zslUpdateScore (zs_heap zs) (zs_zsl zs) rs curscore ele score;
                d ← dictSetVal d r (znode : @dval D);
                Some (ObjSkiplist {| zs_dict := d; zs_heap := h; zs_zsl := zsl |}, true, ZADD_OUT_UPDATED, Some score, rss)
            end
          else Some (ObjSkiplist zs, true, 0, Some score, rss)
      end
  | None =>
      if negb xx then
        '(zs, rss) ← add_member zs rss score ele;
        Some (ObjSkiplist zs, true, ZADD_OUT_ADDED, Some score, rss)
      else Some (ObjSkiplist zs, true, ZADD_OUT_NOP, None, rss)
  end.

(** A new member of a listpack, which becomes a skip list first when it is too large; the
    code of the skip list then follows. *)
Definition zsetAddNewListpack (zl : list Z) (score : double) (ele : list Z) (in_flags : Z) (rss : list (list Z)) :
    option zadd_result :=
  '(zl, n) ← zzlLength zl;
  safe ← lpSafeToAdd (Some zl) (zlen ele);
  if (u32 (n + 1) >? zset_max_listpack_entries) || (zlen ele >? zset_max_listpack_value) || negb safe then
    '(o, n) ← zsetLength (ObjListpack zl);
    '(o, rss) ← zsetConvertAndExpand o true (u64 (n + 1)) rss;
    match o with
    | ObjSkiplist zs => zsetAddSkiplist zs score ele in_flags rss
    | ObjListpack _ => None
    end
  else
    zl ← zzlInsert zl ele score;
    zl ← zl;
    Some (ObjListpack zl, true, ZADD_OUT_ADDED, Some score, rss).

Definition zsetAdd (o : zobj) (score : double) (ele : list Z) (in_flags : Z) (rss : list (list Z)) :
    option zadd_result :=
  let xx := negb (Z.land in_flags ZADD_IN_XX =? 0) in
  if isnan score then Some (o, false, ZADD_OUT_NAN, None, rss)
  else
    match o with
    | ObjListpack zl =>
        r ← zzlFind zl ele;
        match r with
        | Some (eptr, curscore) =>
            match zadd_update in_flags score curscore with
            | inl (ret, flags) => Some (o, ret, flags, None, rss)
            | inr score =>
                if negb (deq score curscore) then
                  zl ← zzlDelete zl eptr;
                  zl ← zzlInsert zl ele score;
                  zl ← zl;
                  Some (ObjListpack zl, true, ZADD_OUT_UPDATED, Some score, rss)
                else Some (o, true, 0, Some score, rss)
            end
        | None =>
            if negb xx then zsetAddNewListpack zl score ele in_flags rss
            else Some (o, true, ZADD_OUT_NOP, None, rss)
        end
    | ObjSkiplist zs => zsetAddSkiplist zs score ele in_flags rss
    end.

(** ** Deletion *)

Definition zsetRemoveFromSkiplist (zs : zset) (ele : list Z) : option (zset * bool) :=
  '(d, de) ← dictUnlink resize (zs_dict zs) (ele : @dkey D);
  match de with
  | Some he =>
      _ ← assert_true (entryHasValue he);
      id ← (dictGetVal he : option nat);
      nd ← zs_heap zs !! id;
      d ← dictFreeUnlinkedEntry d (Some he);
      '(h, zsl, retval) ← zslDelete (zs_heap zs) (zs_zsl zs) (zn_score nd) ele;
      _ ← assert_true retval;
      Some ({| zs_dict := d; zs_heap := h; zs_zsl := zsl |}, true)
  | None => Some (with_dict zs d, false)
  end.

Definition zsetDel (o : zobj) (ele : list Z) : option (zobj * bool) :=
  match o with
  | ObjListpack zl =>
      r ← zzlFind zl ele;
      match r with
      | Some (eptr, _) => zl ← zzlDelete zl eptr; Some (ObjListpack zl, true)
      | None => Some (o, false)
      end
  | ObjSkiplist zs => '(zs, b) ← zsetRemoveFromSkiplist zs ele; Some (ObjSkiplist zs, b)
  end.

(** ** Rank *)

Definition rank_body (zl ele : list Z) (st : option (Z * Z) * Z) : option (option (Z * Z) * Z + option (Z * Z)) :=
  let '(ptrs, rank) := st in
  match ptrs with
  | None => Some (inr None)
  | Some (eptr, sptr) =>
      eq ← lpCompare zl eptr ele (zlen ele);
      if (eq : bool) then Some (inr (Some (sptr, rank)))
      else ptrs ← zzlNext zl sptr; Some (inl (ptrs, rank + 1))
  end.

(** The rank and [*output_score], or [None] inside for -1. *)
Definition zsetRank (o : zobj) (ele : list Z) (reverse : bool) : option (zobj * option (Z * double)) :=
  '(o, llen) ← zsetLength o;
  match o with
  | ObjListpack zl =>
      eptr ← lpSeek zl 0;
      eptr ← eptr;
      sptr ← lpNext zl eptr;
      sptr ← sptr;
      r ← loop (S (length zl)) (rank_body zl ele) (Some (eptr, sptr), 1);
      match r with
      | Some (sptr, rank) =>
          score ← zzlGetScore zl sptr;
          Some (o, Some (if reverse then llen - rank else rank - 1, score))
      | None => Some (o, None)
      end
  | ObjSkiplist zs =>
      '(d, de) ← dictFind resize (zs_dict zs) (ele : @dkey D);
      let zs := with_dict zs d in
      match de with
      | Some r =>
          '(score, _) ← entry_score zs d r;
          rank ← zslGetRank (zs_heap zs) (zs_zsl zs) score ele;
          _ ← assert_true (negb (rank =? 0));
          Some (ObjSkiplist zs, Some (if reverse then llen - rank else rank - 1, score))
      | None => Some (ObjSkiplist zs, None)
      end
  end.
End Zset.
