(* ===== verification/ZsetFacts.v ===== *)
(** * Sorted sets: the table and the skip list hold the same members *)
From Stdlib Require Import SpecFloat.
From S2P Require Import Prelude Numstr Listpack ListpackOps Dict DictOps DictFacts DictRehash DictFind DictUpdate DictProps Skiplist SkiplistOrder SkiplistFacts SkiplistEdit SkiplistInsert SkiplistDelete SkiplistProps Zzl Zset NumstrFacts ListpackFacts ListpackEdit ListpackRange ListpackBatch ListpackProps ZzlFacts.

(** ** The type of the table *)

Lemma dictSdsKeyCompare_spec a b : dictSdsKeyCompare a b = true <-> a = b.
Proof.
  rewrite <- sdscmp_eq. unfold dictSdsKeyCompare, sdscmp.
  destruct (Z.eqb_spec (zlen a) (zlen b)) as [E|E].
  - rewrite E. rewrite !Z.ltb_irrefl. replace (zlen b >? zlen b) with false by lia.
    replace (Z.to_nat (zlen b)) with (length a) by (unfold zlen in *; lia).
    destruct (Z.eqb_spec (memcmp a b (length a)) 0); split; congruence.
  - split; [done|]. destruct (Z.eqb_spec (memcmp a b (Z.to_nat (if zlen a <? zlen b then zlen a else zlen b))) 0);
      [|done]. destruct (Z.gtb_spec (zlen a) (zlen b)), (Z.ltb_spec (zlen a) (zlen b)); lia || done.
Qed.

Definition zsetDictOk (hash : list Z -> Z) (Hhash : forall k, 0 <= hash k < 2 ^ 64) : DictTypeOk (D hash) false.
Proof.
  assert (Heq : forall a b : list Z, bool_decide (a = b) || dictSdsKeyCompare a b = bool_decide (a = b)).
  { intros a b. case_bool_decide as E; [done|]. apply not_true_iff_false. by rewrite orb_false_l, dictSdsKeyCompare_spec. }
  refine (Build_DictTypeOk (D hash) false (fun a b : list Z => bool_decide (a = b)) _ _ _ _ _ _ _ _ _).
  - intros k. by apply bool_decide_eq_true.
  - intros k k' E%bool_decide_eq_true. by apply bool_decide_eq_true.
  - intros k k' k'' E1%bool_decide_eq_true E2%bool_decide_eq_true. apply bool_decide_eq_true. by rewrite E1.
  - intros d k k' _. unfold key_match, dictGetKeyCmpFunc. simpl. apply Heq.
  - intros k k' E%bool_decide_eq_true. by rewrite E.
  - intros k b. apply Hhash.
  - intros k. by apply bool_decide_eq_true.
  - done.
  - done.
Defined.

Section Facts.
Context `{Allocator} `{NodeAllocator} `{T : DoubleText}.
Context (hash : list Z -> Z) (Hhash : forall k, 0 <= hash k < 2 ^ 64) (resize : dictResizeEnable).
#[local] Existing Instance D.
#[local] Instance Dok : DictTypeOk (D hash) false := zsetDictOk hash Hhash.

(** The name of a node, and its entry in the table. *)
Definition nname (x : snode) : list Z := default [] (s_ele x).
Definition zent (x : snode) : @Dict.dkey (D hash) * option (@dval (D hash)) := (nname x, Some (s_id x)).

(** The table and the list hold the same members; the names are distinct. *)
Record ZsInv (zs : zset hash) (L : list snode) : Prop := {
  zi_list : ZRepr (zs_heap hash zs) (zs_zsl hash zs) L;
  zi_dict : DictInv (T := D hash) false (zs_dict hash zs) (zent <$> L);
  zi_auto : pauseAutoResize (zs_dict hash zs) <= 0;
}.

Lemma zlen_zent (L : list snode) : zlen (zent <$> L) = zlen L.
Proof. apply zlen_fmap. Qed.

Lemma keq_name a b : keq (T := D hash) (stored := false) a b = bool_decide (a = b).
Proof. done. Qed.

Lemma entry_of (L : list snode) (e : @Dict.dkey (D hash) * option (@dval (D hash))) key :
  e ∈ zent <$> L -> keq (T := D hash) (stored := false) key e.1 = true -> exists x, x ∈ L /\ e = zent x /\ nname x = key.
Proof.
  intros He Hk. apply list_elem_of_fmap in He as (x & -> & Hx). exists x. split; [done|]. split; [done|].
  rewrite keq_name in Hk. apply bool_decide_eq_true in Hk. by rewrite Hk.
Qed.

Lemma distinct_names (L : list snode) : distinct (T := D hash) false (zent <$> L) -> NoDup (nname <$> L).
Proof.
  induction L as [|x L IH]; [constructor|]. rewrite !fmap_cons. intros [Hx Hd]. constructor; [|by apply IH].
  intros Hin. apply list_elem_of_fmap in Hin as (y & E & Hy). rewrite Forall_forall in Hx.
  specialize (Hx (zent y)). rewrite keq_name in Hx. specialize (Hx ltac:(apply list_elem_of_fmap; eauto)).
  apply bool_decide_eq_false in Hx. apply Hx. exact E.
Qed.

Lemma zs_names zs L : ZsInv zs L -> NoDup (nname <$> L).
Proof. intros Hi. apply distinct_names, Hi. Qed.

(** Nothing is known of a name when no entry has it. *)
Lemma absent_name (L : list snode) ele :
  (forall e, e ∈ zent <$> L -> keq (T := D hash) (stored := false) ele e.1 = false) -> ele ∉ nname <$> L.
Proof.
  intros Hno Hin. apply list_elem_of_fmap in Hin as (x & -> & Hx).
  specialize (Hno (zent x)). rewrite keq_name in Hno. specialize (Hno ltac:(apply list_elem_of_fmap; eauto)).
  by apply bool_decide_eq_false in Hno.
Qed.

Lemma absent_keys (L : list snode) ele score : ele ∉ nname <$> L -> Forall (fun y => ~ same_key (mem y) (score, ele)) L.
Proof.
  intros Hno. apply Forall_forall. intros y Hy [_ E]. simpl in E. apply Hno. apply list_elem_of_fmap. exists y. by split.
Qed.

Lemma inv_dict zs L d :
  ZsInv zs L -> DictInv (T := D hash) false d (zent <$> L) -> same_flags (zs_dict hash zs) d -> ZsInv (with_dict hash zs d) L.
Proof. intros [H1 _ H3] Hd (_ & _ & Hf). split; [done|done|]. simpl. by rewrite Hf. Qed.

(** ** Lookup through the table *)

Lemma node_in_heap zs L x :
  ZsInv zs L -> x ∈ L -> exists nd, zs_heap hash zs !! s_id x = Some nd /\ zn_score nd = s_score x /\ zn_ele nd = s_ele x.
Proof.
  intros Hi Hx. destruct (zr_heap _ _ _ (zi_list _ _ Hi)) as (E & HH & _).
  apply list_elem_of_lookup in Hx as [p Hp]. pose proof (node_lookup _ _ _ _ HH (S p) x Hp) as Hn.
  eexists. split; [exact Hn|]. done.
Qed.

(** [dictFind] finds the node of the name. *)
Lemma find_member zs L ele :
  ZsInv zs L -> zlen L < 2 ^ 59 ->
  exists d r, dictFind (T := D hash) resize (zs_dict hash zs) ele = Some (d, r) /\ ZsInv (with_dict hash zs d) L /\
    match r with
    | None => ele ∉ nname <$> L
    | Some r => exists x de, x ∈ L /\ nname x = ele /\ get_entry d r = Some de /\ head_entry de = Some (zent x) /\
        entryHasValue de = true /\ entry_score hash zs d r = Some (s_score x, s_id x)
    end.
Proof.
  intros Hi Hlen.
  destruct (dictFind_spec (T := D hash) false resize (zs_dict hash zs) (zent <$> L) ele (zi_dict _ _ Hi))
    as (d & r & -> & Hd & Hf & Hr); [by rewrite zlen_zent|].
  exists d, r. split; [done|]. split; [by apply (inv_dict zs L d)|]. destruct r as [[[i n] k]|]; [|by apply absent_name].
  destruct Hr as (de & e & Hge & Hhe & He & Hk). destruct (entry_of L e ele He Hk) as (x & Hx & -> & Hn).
  pose proof (entry_kind d _ i n k de eq_refl (di_ok _ _ _ Hd) Hge) as Hval.
  destruct (node_in_heap zs L x Hi Hx) as (nd & Hnd & Hs & _).
  exists x, de. split_and!; try done. unfold entry_score. rewrite Hge. cbn [mbind option_bind]. rewrite Hval.
  cbn [assert_true mbind option_bind]. destruct de as [| | |k' v nx]; try done. injection Hhe as -> ->.
  cbn [dictGetVal mbind option_bind]. rewrite Hnd. cbn [mbind option_bind]. by rewrite Hs.
Qed.

(** ** Adding a member *)

Definition draw_ok (rs : list Z) : Prop := is_Some (zslRandomLevel rs).

Lemma nname_mem x : (mem x).2 = nname x.
Proof. done. Qed.

Lemma absent_has_key (L : list snode) ele : ele ∉ nname <$> L -> has_key (T := D hash) false ele (zent <$> L) = false.
Proof.
  intros Hno. apply has_key_false. intros e He. apply list_elem_of_fmap in He as (x & -> & Hx). rewrite keq_name.
  apply bool_decide_eq_false. intros ->. apply Hno. apply list_elem_of_fmap. eauto.
Qed.

Lemma add_member_spec zs L rs rss score ele :
  ZsInv zs L -> zlen L < 2 ^ 59 -> isnan score = false -> ele ∉ nname <$> L -> draw_ok rs ->
  exists zs' A D x, add_member hash resize zs (rs :: rss) score ele = Some (zs', rss) /\ L = A ++ D /\
    mem x = (score, ele) /\ ZsInv zs' (A ++ x :: D).
Proof.
  intros Hi Hlen Hs Hno [lvl Hl]. unfold add_member. pose proof (zi_list _ _ Hi) as HR.
  destruct (split_absent L (score, ele) (zr_sorted _ _ _ HR) (absent_keys L ele score Hno)) as (A & D & -> & HA & HD).
  destruct (zslInsert_spec _ _ A D rs score ele lvl HR ltac:(lia) Hs HA HD Hl) as (h' & z' & id & -> & _ & _ & _ & HR').
  cbn [mbind option_bind].
  destruct (map_add_spec (T := Zset.D hash) false resize (zs_dict hash zs) (zent <$> A ++ D) ele id (zi_dict _ _ Hi))
    as (d' & -> & Hf & Hd'); [by rewrite zlen_zent|left; apply Hi|].
  unfold map_add in Hd'. rewrite absent_has_key in * by done. cbn [negb mbind option_bind assert_true].
  eexists _, A, D, _. split; [done|]. split; [done|]. split; [|split; [exact HR'|..]].
  - done.
  - eapply inv_perm; [exact Hd'|]. rewrite !fmap_app, fmap_cons. simpl. by rewrite <- Permutation_middle.
  - simpl. destruct Hf as (_ & _ & ->). apply Hi.
Qed.

(** ** Updating a score *)

Lemma names_split (A D : list snode) x : NoDup (nname <$> A ++ x :: D) -> nname x ∉ nname <$> A ++ D.
Proof.
  rewrite !fmap_app, fmap_cons. rewrite <- Permutation_middle. intros Hd. by inversion Hd.
Qed.

Lemma update_member_spec zs L rs x r de d score :
  ZsInv zs L -> ZsInv (with_dict hash zs d) L -> zlen L < 2 ^ 59 -> isnan score = false -> draw_ok rs ->
  x ∈ L -> get_entry d r = Some de -> head_entry de = Some (zent x) -> entryHasValue de = true ->
  exists h z id d' A D A' D' x', L = A ++ x :: D /\
    zslUpdateScore (zs_heap hash zs) (zs_zsl hash zs) rs (s_score x) (nname x) score = Some (h, z, id) /\
    dictSetVal (T := Zset.D hash) d r id = Some d' /\ A ++ D = A' ++ D' /\ mem x' = (score, nname x) /\
    ZsInv {| zs_dict := d'; zs_heap := h; zs_zsl := z |} (A' ++ x' :: D').
Proof.
  intros Hi Hid Hlen Hs [lvl Hl] Hx Hge Hhe Hval. apply list_elem_of_split in Hx as (A & D & ->).
  pose proof (zi_list _ _ Hi) as HR. pose proof (names_split A D x (zs_names _ _ Hi)) as Hnew.
  assert (isnan (s_score x) = false) as Hcur.
  { pose proof (zr_nodes _ _ _ HR) as Hok. rewrite Forall_app, Forall_cons in Hok. apply Hok. }
  destruct (zslUpdateScore_spec _ _ A x D rs (s_score x) (nname x) score lvl HR ltac:(lia) Hcur Hs)
    as (h' & z' & A' & x' & D' & E & _ & EL & Hx' & HR'); [done|by apply absent_keys|done|].
  destruct r as [[i n] k].
  destruct (set_val_spec (T := Zset.D hash) d _ i n k de _ (s_id x') (di_ok _ _ _ (zi_dict _ _ Hid)) Hge Hhe Hval)
    as (d' & S & Ed & HP & Hok' & Hctl).
  exists h', z', (s_id x'), d', A, D, A', D', x'. split; [done|]. split; [exact E|]. split; [exact Ed|].
  split; [done|]. split; [done|].
  assert (S ≡ₚ zent <$> A ++ D) as HS.
  { rewrite fmap_app, fmap_cons, <- Permutation_middle in HP. apply Permutation_cons_inv in HP.
    rewrite fmap_app. by symmetry. }
  assert (zent <$> A' ++ x' :: D' ≡ₚ (nname x, Some (s_id x')) :: S) as HP'.
  { rewrite HS, EL, !fmap_app, fmap_cons, <- Permutation_middle. unfold zent at 1.
    rewrite <- nname_mem, Hx'. done. }
  split; [exact HR'| |].
  - split.
    + eapply dict_ok_perm; [exact Hok'|]. rewrite HP'. done.
    + simpl. destruct Hctl as (_ & _ & -> & _). apply (di_stored _ _ _ (zi_dict _ _ Hid)).
    + apply (distinct_perm (T := Zset.D hash) false ((nname x, Some (s_id x')) :: S)); [by rewrite HP'|].
      pose proof (di_distinct _ _ _ (zi_dict _ _ Hid)) as Hdis.
      apply (distinct_perm (T := Zset.D hash) false _ (zent x :: S)) in Hdis; [|by rewrite HP]. done.
  - simpl. destruct Hctl as (_ & _ & _ & ->). apply (zi_auto _ _ Hid).
Qed.

(** ** Removing a member *)

Lemma name_split_unique (A : list snode) x D A1 y D1 :
  A ++ x :: D = A1 ++ y :: D1 -> NoDup (nname <$> A ++ x :: D) -> nname y = nname x -> A1 = A /\ y = x /\ D1 = D.
Proof.
  intros EL Hnd Hy. pose proof (names_split A D x Hnd) as Hnx. rewrite EL in Hnd.
  pose proof (names_split A1 D1 y Hnd) as Hny. clear Hnd. revert A1 EL Hny.
  induction A as [|a A IH]; intros [|a1 A1] EL Hny; simplify_eq/=; [done|..].
  - exfalso. apply Hny. rewrite Hy. by left.
  - exfalso. apply Hnx. rewrite <- Hy. by left.
  - destruct (IH ltac:(intros Hin; apply Hnx; by right) A1) as (-> & -> & ->); [done| |done].
    intros Hin. apply Hny. by right.
Qed.

Lemma remove_member_spec zs L ele :
  ZsInv zs L -> zlen L < 2 ^ 59 ->
  exists zs' b, zsetRemoveFromSkiplist hash resize zs ele = Some (zs', b) /\
    if b : bool then exists A x D, L = A ++ x :: D /\ nname x = ele /\ ZsInv zs' (A ++ D)
    else ele ∉ nname <$> L /\ ZsInv zs' L.
Proof.
  intros Hi Hlen. unfold zsetRemoveFromSkiplist, dictUnlink.
  destruct (dictGenericDelete_spec (T := Zset.D hash) false resize (zs_dict hash zs) (zent <$> L) ele true (zi_dict _ _ Hi))
    as (d & r & -> & Hf & Hr); [by rewrite zlen_zent|]. cbn [mbind option_bind]. destruct r as [he|].
  2: { destruct Hr as [Hno Hd]. exists (with_dict hash zs d), false. split; [done|]. split; [by apply absent_name|].
       by apply (inv_dict zs L d). }
  destruct Hr as (e & S & Hhe & Hk & HP & Hd).
  destruct (entry_of L e ele) as (x & Hx & -> & Hn); [rewrite HP; by left|done|].
  apply list_elem_of_split in Hx as (A & D & ->). pose proof (zi_list _ _ Hi) as HR.
  assert (HS : S ≡ₚ zent <$> A ++ D).
  { rewrite fmap_app, fmap_cons, <- Permutation_middle in HP. apply Permutation_cons_inv in HP. rewrite fmap_app. by symmetry. }
  destruct (node_in_heap zs (A ++ x :: D) x Hi ltac:(set_solver)) as (nd & Hnd & Hsc & _).
  assert (entryHasValue he = true /\ dictGetVal he = Some (s_id x)) as [Hval Hgv].
  { destruct he as [| | |k v nx]; try done; injection Hhe as -> ->; done. }
  rewrite Hval. cbn [assert_true mbind option_bind]. rewrite Hgv. cbn [mbind option_bind]. rewrite Hnd. cbn [mbind option_bind].
  assert (dictFreeUnlinkedEntry (T := Zset.D hash) d (Some he) = Some (emit d [])) as ->.
  { destruct he as [| | |k v nx]; done. }
  cbn [mbind option_bind]. rewrite Hsc.
  assert (Hnx : isnan (s_score x) = false).
  { pose proof (zr_nodes _ _ _ HR) as Hok. rewrite Forall_app, Forall_cons in Hok. apply Hok. }
  destruct (zslDelete_spec _ _ (A ++ x :: D) (s_score x) ele HR ltac:(lia) Hnx)
    as [(A1 & y & D1 & h' & z' & EL & Hy & -> & _ & HR')|[Habs _]].
  2: { exfalso. rewrite Forall_app, Forall_cons in Habs. destruct Habs as (_ & Hk' & _). apply Hk'. by split. }
  cbn [mbind option_bind assert_true]. eexists _, true. split; [done|].
  assert (A1 = A /\ y = x /\ D1 = D) as (-> & -> & ->).
  { destruct Hy as [_ Hy]. apply (name_split_unique A x D A1 y D1); [done|apply (zs_names _ _ Hi)|by rewrite Hn]. }
  exists A, x, D. split; [done|]. split; [done|]. split; [exact HR'| |].
  - eapply inv_perm; [|exact HS]. destruct Hd as [H1 H2 H3]. split; [|done|done].
    destruct H1 as [I0 I1 I2 I3|tb0 I0 I1 I2 I3|tb0 tb1 I0 I1 I2 I3 I4]; [by apply Ok_empty|by eapply Ok_single|by eapply Ok_double].
  - simpl. destruct Hf as (_ & _ & ->). apply Hi.
Qed.
End Facts.

(** ** Sorted sets: conversion between the encodings keeps the members *)

Section Convert.
Context `{Allocator} `{NodeAllocator} `{T : DoubleText} `{!DoubleTextOk T}.
Context (hash : list Z -> Z) (Hhash : forall k, 0 <= hash k < 2 ^ 64) (resize : dictResizeEnable).

Notation zpair := (list Z * lp_ent)%type.
Notation ZsInv := (ZsInv hash Hhash).

(** ** To a skip list *)

(** A new set, with the table sized in advance. *)
Lemma new_zset cap :
  0 <= cap < 2 ^ 64 ->
  exists h z d b, zslCreate ∅ = Some (h, z) /\ dictExpand (T := D hash) dictCreate cap = Some (d, b) /\
    ZsInv {| zs_dict := d; zs_heap := h; zs_zsl := z |} [].
Proof.
  intros Hc. destruct (zslCreate_spec ∅) as (h & z & E & _ & HR).
  assert (DictOk (T := D hash) dictCreate []) as Hok by (by apply Ok_empty).
  destruct (dictExpand_spec (T := D hash) dictCreate [] cap Hok Hc) as (d & b & E' & Hok' & (Hf1 & Hf2 & Hf3) & _).
  exists h, z, d, b. split; [done|]. split; [done|]. split; [done| |].
  - split; [done|done|done].
  - simpl. rewrite Hf3. simpl. lia.
Qed.

(** A member greater than all goes to the end. *)
Lemma add_last zs L rs rss score ele :
  ZsInv zs L -> zlen L < 2 ^ 59 -> isnan score = false -> ele ∉ nname <$> L -> draw_ok rs ->
  Forall (fun y => mlt (mem y) (score, ele)) L ->
  exists zs' x, add_member hash resize zs (rs :: rss) score ele = Some (zs', rss) /\
    mem x = (score, ele) /\ ZsInv zs' (L ++ [x]).
Proof.
  intros Hi Hlen Hs Hno Hd Hall.
  destruct (add_member_spec hash Hhash resize zs L rs rss score ele Hi Hlen Hs Hno Hd) as (zs' & A & D & x & E & -> & Hx & Hi').
  exists zs', x. split; [done|]. split; [done|].
  destruct D as [|y D]; [by rewrite app_nil_r|]. exfalso.
  pose proof (zr_sorted _ _ _ (zi_list _ _ _ _ Hi')) as Hso.
  destruct (StronglySorted_app_inv _ _ _ Hso) as (_ & HsD & _). inversion HsD as [|? ? _ Hf]; subst.
  apply Forall_cons in Hf as [Hxy _]. rewrite Forall_app, Forall_cons in Hall. destruct Hall as (_ & Hyx & _).
  rewrite Hx in Hxy. by apply (mlt_asym _ _ Hxy).
Qed.

Definition pair_ptrs (ps : list zpair) (i : nat) : option (Z * Z) :=
  if decide (i < length ps)%nat then Some (ent_off (zz_ents ps) (2 * i), ent_off (zz_ents ps) (S (2 * i))) else None.

Lemma next_pair zl ps i :
  ZzRepr zl ps -> (i < length ps)%nat -> zzlNext zl (ent_off (zz_ents ps) (S (2 * i))) = Some (pair_ptrs ps (S i)).
Proof.
  intros HR Hi. destruct (lookup_lt_is_Some_2 ps i Hi) as [p Hp].
  destruct (pair_steps zl ps i p HR Hp) as (_ & _ & N2). unfold zzlNext. rewrite N2. cbn [mbind option_bind].
  unfold pair_ptrs. case_decide as Hlt.
  - rewrite ptr_pair by done. destruct (lookup_lt_is_Some_2 ps (S i) Hlt) as [q Hq].
    destruct (pair_steps zl ps (S i) q HR Hq) as (N1 & _ & _). by rewrite N1.
  - by rewrite ptr_end by lia.
Qed.

Lemma take_members (ps : list zpair) i p : ps !! i = Some p -> pmem <$> take (S i) ps = (pmem <$> take i ps) ++ [pmem p].
Proof. intros Hp. by rewrite (take_S_r ps i p Hp), fmap_app. Qed.

(** The names of the nodes are those of the members. *)
Lemma names_of L ms : mem <$> L = ms -> nname <$> L = ms.*2.
Proof. intros <-. rewrite <- list_fmap_compose. by apply list_fmap_ext. Qed.

Lemma convert_step zl ps i zs L rs rss :
  ZzRepr zl ps -> (i < length ps)%nat -> zlen ps < 2 ^ 59 -> draw_ok rs ->
  ZsInv zs L -> mem <$> L = pmem <$> take i ps ->
  exists zs' L', convert_body hash resize zl (zs, pair_ptrs ps i, rs :: rss) =
    Some (inl (zs', pair_ptrs ps (S i), rss)) /\ ZsInv zs' L' /\ mem <$> L' = pmem <$> take (S i) ps.
Proof.
  intros HR Hi Hlen Hd Hinv HL. destruct (lookup_lt_is_Some_2 ps i Hi) as [p Hp].
  destruct (pair_steps zl ps i p HR Hp) as (_ & Hsc & _). unfold convert_body, pair_ptrs at 1. rewrite decide_True by done.
  rewrite Hsc. cbn [mbind option_bind]. rewrite (object_at zl _ (zz_repr _ _ HR) _ _ (zz_name ps i p Hp)).
  cbn [mbind option_bind]. destruct (pair_ok_at ps i p (zz_pairs _ _ HR) Hp) as (_ & _ & _ & Hnan).
  assert (Hlt : Forall (fun m => mlt m (pmem p)) (pmem <$> take i ps)).
  { pose proof (zz_sorted _ _ HR) as Hso. rewrite <- (take_drop_middle ps i p Hp), fmap_app, fmap_cons in Hso.
    destruct (StronglySorted_app_inv _ _ _ Hso) as (_ & _ & HAD). eapply Forall_impl; [exact HAD|].
    intros m Hm. by inversion Hm. }
  assert (HlenL : zlen L = Z.of_nat i).
  { unfold zlen. rewrite <- (length_fmap mem L), HL, length_fmap, length_take. lia. }
  destruct (add_last zs L rs rss (ent_score p.2) p.1 Hinv) as (zs' & x & -> & Hx & Hinv').
  - unfold zlen in *. lia.
  - done.
  - rewrite (names_of L _ HL), <- list_fmap_compose. intros Hin. pose proof (zz_names _ _ HR) as Hnd.
    rewrite <- (take_drop_middle ps i p Hp), fmap_app, fmap_cons in Hnd.
    apply NoDup_app in Hnd as (_ & Hdis & _). apply (Hdis p.1); [done|by left].
  - done.
  - rewrite <- HL in Hlt. by rewrite Forall_fmap in Hlt.
  - cbn [mbind option_bind]. rewrite (next_pair zl ps i HR Hi). cbn [mbind option_bind].
    exists zs', (L ++ [x]). split; [done|]. split; [done|].
    rewrite fmap_app, HL, (take_members ps i p Hp). simpl. by rewrite Hx.
Qed.

Lemma convert_loop zl ps fuel : forall i zs L rss,
  ZzRepr zl ps -> (i <= length ps)%nat -> zlen ps < 2 ^ 59 -> Forall draw_ok rss -> (length ps - i <= length rss)%nat ->
  ZsInv zs L -> mem <$> L = pmem <$> take i ps -> (length ps - i < fuel)%nat ->
  exists zs' L', loop fuel (convert_body hash resize zl) (zs, pair_ptrs ps i, rss) =
    Some (zs', drop (length ps - i) rss) /\ ZsInv zs' L' /\ mem <$> L' = pmem <$> ps.
Proof.
  induction fuel as [|fuel IH]; intros i zs L rss HR Hi Hlen Hd Hr Hinv HL Hf; [lia|]. cbn [loop].
  destruct (decide (i < length ps)%nat) as [Hlt|Hge].
  - destruct rss as [|rs rss]; [simpl in Hr; lia|]. apply Forall_cons in Hd as [Hd1 Hd].
    destruct (convert_step zl ps i zs L rs rss HR Hlt Hlen Hd1 Hinv HL) as (zs1 & L1 & -> & Hinv1 & HL1).
    simpl in Hr. destruct (IH (S i) zs1 L1 rss HR ltac:(lia) Hlen Hd ltac:(lia) Hinv1 HL1 ltac:(lia)) as (zs2 & L2 & E & H2).
    exists zs2, L2. split; [|done]. rewrite E. f_equal. f_equal.
    replace (length ps - i)%nat with (S (length ps - S i)) by lia. done.
  - unfold convert_body, pair_ptrs. rewrite decide_False by lia. exists zs, L.
    replace (length ps - i)%nat with 0%nat by lia. rewrite drop_0. rewrite take_ge in HL by lia. done.
Qed.

Lemma convert_to_skiplist_spec zl ps cap rss :
  ZzRepr zl ps -> 0 <= cap < 2 ^ 64 -> Forall draw_ok rss -> (length ps <= length rss)%nat ->
  exists zs L, convert_to_skiplist hash resize zl cap rss = Some (zs, drop (length ps) rss) /\
    ZsInv zs L /\ mem <$> L = pmem <$> ps.
Proof.
  intros HR Hc Hd Hr. unfold convert_to_skiplist. destruct (new_zset cap Hc) as (h & z & d & b & -> & -> & Hinv).
  cbn [mbind option_bind]. rewrite (seek_at zl _ (zz_repr _ _ HR)). cbn [mbind option_bind].
  change (if 0 <? 0 then _ else 0) with 0. cbv zeta. change (0 <? 0) with false. cbv iota.
  change (Z.to_nat 0) with (2 * 0)%nat.
  assert (match ent_ptr (zz_ents ps) (2 * 0) with
          | Some eptr => sptr ← lpNext zl eptr; sptr ← sptr; Some (Some (eptr, sptr))
          | None => Some None end = Some (pair_ptrs ps 0)) as ->.
  { unfold pair_ptrs. case_decide as Hlt.
    - rewrite ptr_pair by done. destruct (lookup_lt_is_Some_2 ps 0 Hlt) as [p Hp].
      destruct (pair_steps zl ps 0 p HR Hp) as (N1 & _ & _). by rewrite N1.
    - by rewrite ptr_end by lia. }
  cbn [mbind option_bind]. pose proof (entries_in_block zl _ (zz_repr _ _ HR)) as Hb.
  assert (Hlen : zlen ps < 2 ^ 59).
  { destruct (zz_repr _ _ HR) as (num & slack & -> & WF). pose proof (zlen_es num (zz_ents ps) slack WF) as [Hz _].
    unfold zlen in *. rewrite length_zz in Hz. unfold UINT32_MAX in Hz. lia. }
  unfold zlen in Hb. rewrite length_zz in Hb.
  destruct (convert_loop zl ps (S (length zl)) 0 _ [] rss HR ltac:(lia) Hlen Hd ltac:(lia) Hinv) as (zs & L & E & H2);
    [done|lia|]. rewrite Nat.sub_0_r in E. by exists zs, L.
Qed.

(** ** To a listpack *)

Definition copy_pair (x : snode) : zpair := (nname x, score_ent (s_score x)).

(** A member that a listpack can hold. *)
Definition storable (m : member) : Prop :=
  isnan m.1 = false /\ valid_binary 53 1024 m.1 = true /\ Forall is_byte m.2 /\ zlen m.2 < 2 ^ 31.

(** An upper bound of the bytes the members take. *)
Definition weight (ms : list member) : Z := foldr (fun m w => zlen m.2 + 64 + w) 0 ms.

Lemma total_append ps p :
  lp_total (zz_ents (ps ++ [p])) = lp_total (zz_ents ps) + zlen (ent_bytes (str_ent p.1)) + zlen (ent_bytes p.2).
Proof.
  rewrite <- (total_insert (length ps) p ps). unfold insert_pair. by rewrite firstn_all, drop_all.
Qed.

Lemma copy_nodes_spec : forall M E B h fuel zl ps,
  HeapOf h M E B -> Forall (fun x => (1 <= s_height x)%nat) M -> (length M <= fuel)%nat ->
  (forall q, (q < length M)%nat -> forward (E q 0%nat) = s_id <$> head (drop (S q) M)) ->
  LpRepr zl (zz_ents ps) -> Forall (fun x => is_Some (s_ele x) /\ storable (mem x)) M ->
  lp_total (zz_ents ps) + weight (mem <$> M) <= UINT32_MAX ->
  exists zl', copy_nodes fuel h zl (s_id <$> head M) = Some zl' /\
    LpRepr zl' (zz_ents (ps ++ (copy_pair <$> M))).
Proof.
  induction M as [|x M IH]; intros E B h fuel zl ps HH Hhs Hf HE HL Hst Hw.
  { exists zl. split; [by destruct fuel|]. by rewrite app_nil_r. }
  destruct fuel as [|fuel]; [simpl in Hf; lia|]. apply Forall_cons in Hhs as [Hx Hhs].
  apply Forall_cons in Hst as [([ele Hele] & Hn & Hv & Hb & Hl) Hst].
  destruct (HeapOf_remove h [] M E B x HH) as [Hnot HR]. pose proof (HeapOf_free _ _ _ _ _ HR Hnot) as HR'.
  cbn [head fmap option_fmap option_map copy_nodes].
  rewrite (node_lookup h _ E B HH 0 x eq_refl). cbn [mbind option_bind zn_ele zn_score]. rewrite Hele. cbn [mbind option_bind].
  assert (Hname : nname x = ele) by (unfold nname; by rewrite Hele).
  change (weight (mem <$> x :: M)) with (zlen (nname x) + 64 + weight (mem <$> M)) in Hw. rewrite Hname in Hw.
  assert (Hwpos : forall ms, 0 <= weight ms) by (induction ms as [|m ms IHm]; simpl; [lia|zlen_saturate; lia]).
  specialize (Hwpos (mem <$> M)).
  assert (Forall is_byte ele) as Hb' by (by rewrite <- Hname).
  destruct (zzlInsertAt_spec zl ps (length ps) ele (s_score x) HL ltac:(lia) Hn Hv Hb' ltac:(lia)) as (zl1 & E1 & HL1).
  rewrite (ptr_end ps (length ps)) in E1 by lia. rewrite E1. cbn [mbind option_bind].
  rewrite (get_level_at h _ E B HH 0 x 0 eq_refl ltac:(lia)). cbn [mbind option_bind].
  rewrite (HE O ltac:(simpl; lia)). simpl drop. rewrite drop_0.
  unfold insert_pair in HL1. rewrite firstn_all, drop_all in HL1.
  destruct (IH _ _ (zslFreeNode h (s_id x)) fuel zl1 (ps ++ [(ele, score_ent (s_score x))]) HR' Hhs) as (zl' & -> & HL').
  - simpl in Hf. lia.
  - intros q Hq. by apply (HE (S q)); simpl; lia.
  - done.
  - done.
  - rewrite total_append. simpl. destruct (score_ent_spec (s_score x) Hn Hv) as (_ & _ & Hs).
    pose proof (zlen_str_ent ele). lia.
  - exists zl'. split; [done|]. rewrite fmap_cons. unfold copy_pair at 1. rewrite Hname.
    by rewrite <- app_assoc in HL'.
Qed.

Lemma copied_members (L : list snode) :
  Forall (fun x => storable (mem x)) L ->
  Forall2 same_key (pmem <$> (copy_pair <$> L)) (mem <$> L) /\ Forall pair_ok (copy_pair <$> L).
Proof.
  induction 1 as [|x L (Hn & Hv & Hb & Hl) _ [IH1 IH2]]; [done|]. destruct (score_ent_spec (s_score x) Hn Hv) as (H1 & H2 & _).
  split; rewrite !fmap_cons; constructor; try done. split_and!; [done|done| |done].
  unfold copy_pair, score_ent. simpl. destruct (double2ll (s_score x)); [done|apply str_ent_canon].
Qed.

Lemma sorted_same (a b : list member) : Forall2 same_key a b -> StronglySorted mlt b -> StronglySorted mlt a.
Proof.
  induction 1 as [|x y a b Hxy Hab IH]; intros Hs; [constructor|]. inversion Hs as [|? ? Hs' Hy]; subst.
  constructor; [by apply IH|]. clear -Hab Hy Hxy. induction Hab as [|u v a b Huv _ IH]; [constructor|].
  apply Forall_cons in Hy as [Hyv Hy]. constructor; [|by apply IH].
  destruct Hxy as [E1 E2], Huv as [E3 E4]. apply (mlt_key_l y); [done|done|]. apply (mlt_key_r y v); done.
Qed.

Lemma lp_total_nil : lp_total (zz_ents []) = 7.
Proof. reflexivity. Qed.

Lemma convert_to_listpack_spec zs L :
  ZsInv zs L -> Forall storable (mem <$> L) -> 7 + weight (mem <$> L) <= UINT32_MAX ->
  exists zl, convert_to_listpack hash zs = Some zl /\ ZzRepr zl (copy_pair <$> L) /\
    Forall2 same_key (pmem <$> (copy_pair <$> L)) (mem <$> L).
Proof.
  intros Hi Hst Hw. pose proof (zi_list _ _ _ _ Hi) as HR. pose proof HR as [(E & HH & HE) _ _ Hzl Hhs Hso Hok].
  rewrite Forall_fmap in Hst. destruct (copied_members L Hst) as [Hsame Hpairs].
  unfold convert_to_listpack. destruct (lpNew_repr 0) as (zl0 & -> & HL0). cbn [mbind option_bind].
  destruct (next_spec (zs_heap hash zs) (zs_zsl hash zs) [] L HR) as (lv & E1 & E2). simpl app in *. cbn in E1. rewrite E1. cbn [mbind option_bind].
  rewrite E2. destruct (HeapOf_remove _ [] L E _ _ HH) as [Hn HR0].
  pose proof (HeapOf_free _ _ _ _ _ HR0 Hn) as HR'. simpl in HR'.
  destruct (copy_nodes_spec L _ _ _ (size (delete (zsl_header (zs_zsl hash zs)) (zs_heap hash zs))) zl0 [] HR') as (zl & Ez & HL).
  - eapply Forall_impl; [exact Hhs|]. simpl. lia.
  - apply (heap_size _ _ _ _ HR').
  - intros q Hq. destruct (lookup_lt_is_Some_2 L q Hq) as [y Hy].
    pose proof (Forall_lookup_1 _ _ _ _ Hhs Hy) as Hyh. simpl in Hyh.
    rewrite (links_ok_all _ _ _ _ HE); [|unfold height_at; simpl; rewrite Hy; lia|lia].
    eapply link0. by apply Forall_drop.
  - done.
  - apply Forall_forall. intros x Hx. rewrite Forall_forall in Hst, Hok. split; [apply (Hok x Hx)|by apply Hst].
  - rewrite lp_total_nil. lia.
  - exists zl. split; [exact Ez|]. split; [|done]. split; [done|done| |].
    + apply (sorted_same _ _ Hsame). by apply StronglySorted_fmap_2 || (clear -Hso; induction Hso as [|x L Hs IH Hx]; [constructor|]; rewrite fmap_cons; constructor; [done|]; by rewrite Forall_fmap).
    + rewrite <- list_fmap_compose. apply (zs_names _ _ _ _ Hi).
Qed.
End Convert.
