(* ===== verification/ZsetView.v ===== *)
(** * Sorted sets: the ordered set of members that both encodings implement

    [ZsetView o ms]: the object holds the members [ms], strictly increasing in score and
    name, each name once. *)
From Stdlib Require Import SpecFloat.
From S2P Require Import Prelude Numstr NumstrFacts Listpack ListpackFacts ListpackOps ListpackEdit ListpackRange ListpackBatch ListpackProps Dict DictOps DictFacts DictRehash DictFind DictUpdate DictProps Skiplist SkiplistOrder SkiplistFacts SkiplistEdit SkiplistInsert SkiplistDelete SkiplistProps Zzl ZzlFacts Zset ZsetFacts.

(** ** The ordered set *)

Definition find_member_at (ele : list Z) (ms : list member) : option (nat * member) :=
  list_find (fun m : member => m.2 = ele) ms.
Definition score_of (ele : list Z) (ms : list member) : option double :=
  match find_member_at ele ms with Some (_, m) => Some m.1 | None => None end.
Definition zremove (ele : list Z) (ms : list member) : list member := filter (fun m : member => m.2 <> ele) ms.

(** [ms'] is [ms] with one member more, of the given name and score (up to the sign of
    zero). *)
Definition zinserted (s : double) (ele : list Z) (ms ms' : list member) : Prop :=
  exists A B s', ms = A ++ B /\ ms' = A ++ (s', ele) :: B /\ SkiplistOrder.dkey s' = SkiplistOrder.dkey s /\ isnan s' = false.

(** *** The specification of ZADD

    The options are the bits of the flags, scores are the binary floating-point numbers of the
    Standard Library with its addition and comparisons. *)

(** INCR, NX, XX, GT, LT. *)
Definition asks (bit in_flags : Z) : Prop := Z.testbit in_flags bit = true.

(** The score that is asked for a member of score [cur]. *)
Definition new_score (in_flags : Z) (score cur s : double) : Prop :=
  (asks 0 in_flags /\ s = SFadd 53 1024 score cur) \/ (~ asks 0 in_flags /\ s = score).

(** GT wants a greater score, LT a smaller one. *)
Definition allowed (in_flags : Z) (cur s : double) : Prop :=
  (asks 3 in_flags -> SFltb cur s = true) /\ (asks 4 in_flags -> SFltb s cur = true).

(** What adding a score to a member does: the return value, the reported flags, the new
    score when it is set, and the members afterwards. *)
Inductive zadd_spec (in_flags : Z) (score : double) (ele : list Z) (ms : list member) :
    bool * Z * option double -> list member -> Prop :=
  | zadd_nan : score = S754_nan -> zadd_spec in_flags score ele ms (false, ZADD_OUT_NAN, None) ms
  | zadd_nx :
      score <> S754_nan -> ele ∈ ms.*2 -> asks 1 in_flags -> zadd_spec in_flags score ele ms (true, ZADD_OUT_NOP, None) ms
  | zadd_sum_nan cur s :
      score <> S754_nan -> score_of ele ms = Some cur -> ~ asks 1 in_flags -> new_score in_flags score cur s -> s = S754_nan ->
      zadd_spec in_flags score ele ms (false, ZADD_OUT_NAN, None) ms
  | zadd_refused cur s :
      score <> S754_nan -> score_of ele ms = Some cur -> ~ asks 1 in_flags -> new_score in_flags score cur s -> s <> S754_nan ->
      ~ allowed in_flags cur s -> zadd_spec in_flags score ele ms (true, ZADD_OUT_NOP, None) ms
  | zadd_same cur s :
      score <> S754_nan -> score_of ele ms = Some cur -> ~ asks 1 in_flags -> new_score in_flags score cur s -> s <> S754_nan ->
      allowed in_flags cur s -> SFeqb s cur = true -> zadd_spec in_flags score ele ms (true, 0, Some s) ms
  | zadd_updated cur s ms' :
      score <> S754_nan -> score_of ele ms = Some cur -> ~ asks 1 in_flags -> new_score in_flags score cur s -> s <> S754_nan ->
      allowed in_flags cur s -> SFeqb s cur = false -> zinserted s ele (zremove ele ms) ms' ->
      zadd_spec in_flags score ele ms (true, ZADD_OUT_UPDATED, Some s) ms'
  | zadd_xx :
      score <> S754_nan -> ele ∉ ms.*2 -> asks 2 in_flags -> zadd_spec in_flags score ele ms (true, ZADD_OUT_NOP, None) ms
  | zadd_added ms' :
      score <> S754_nan -> ele ∉ ms.*2 -> ~ asks 2 in_flags -> zinserted score ele ms ms' ->
      zadd_spec in_flags score ele ms (true, ZADD_OUT_ADDED, Some score) ms'.

(** The branches of the code, a step towards [zadd_spec]. *)
Inductive zadd_step (in_flags : Z) (score : double) (ele : list Z) (ms : list member) :
    bool * Z * option double -> list member -> Prop :=
  | step_nan : isnan score = true -> zadd_step in_flags score ele ms (false, ZADD_OUT_NAN, None) ms
  | step_stop i m ret flags :
      isnan score = false -> find_member_at ele ms = Some (i, m) -> zadd_update in_flags score m.1 = inl (ret, flags) ->
      zadd_step in_flags score ele ms (ret, flags, None) ms
  | step_same i m s :
      isnan score = false -> find_member_at ele ms = Some (i, m) -> zadd_update in_flags score m.1 = inr s ->
      deq s m.1 = true -> zadd_step in_flags score ele ms (true, 0, Some s) ms
  | step_updated i m s ms' :
      isnan score = false -> find_member_at ele ms = Some (i, m) -> zadd_update in_flags score m.1 = inr s ->
      deq s m.1 = false -> zinserted s ele (zremove ele ms) ms' ->
      zadd_step in_flags score ele ms (true, ZADD_OUT_UPDATED, Some s) ms'
  | step_xx :
      isnan score = false -> ele ∉ ms.*2 -> Z.land in_flags ZADD_IN_XX <> 0 ->
      zadd_step in_flags score ele ms (true, ZADD_OUT_NOP, None) ms
  | step_added ms' :
      isnan score = false -> ele ∉ ms.*2 -> Z.land in_flags ZADD_IN_XX = 0 -> zinserted score ele ms ms' ->
      zadd_step in_flags score ele ms (true, ZADD_OUT_ADDED, Some score) ms'.

(** *** The code against the specification *)

Lemma asks_land k in_flags : 0 <= k -> asks k in_flags <-> Z.land in_flags (2 ^ k) <> 0.
Proof.
  intros Hk. unfold asks. split.
  - intros Ht E. apply (f_equal (fun z => Z.testbit z k)) in E. rewrite Z.land_spec, Ht, Z.pow2_bits_true, Z.bits_0 in E by done. done.
  - intros Hne. destruct (Z.testbit in_flags k) eqn:Et; [done|]. destruct Hne. apply Z.bits_inj'. intros n Hn.
    rewrite Z.land_spec, Z.bits_0, Z.pow2_bits_eqb by done. destruct (Z.eqb_spec k n) as [->|]; [by rewrite Et|apply andb_false_r].
Qed.

Lemma isnan_spec s : isnan s = true <-> s = S754_nan.
Proof. by destruct s. Qed.

Lemma not_nan s : isnan s = false <-> s <> S754_nan.
Proof. by destruct s. Qed.

(** For numbers, not at most is greater. *)
Lemma dle_ltb a b : isnan a = false -> isnan b = false -> dle a b = negb (SFltb b a).
Proof.
  intros Ha Hb. change (SFltb b a) with (dlt b a). pose proof (dle_spec a b Ha Hb) as H1. pose proof (dlt_spec b a Hb Ha) as H2.
  destruct (dle a b), (dlt b a); try done; exfalso; [|naive_solver].
  by apply H1; [|apply H2].
Qed.

(** The outcome of [zadd_update] for a member whose score is a number. *)
Lemma zadd_update_spec in_flags score cur :
  isnan score = false -> isnan cur = false ->
  match zadd_update in_flags score cur with
  | inl (ret, flags) =>
      (asks 1 in_flags /\ ret = true /\ flags = ZADD_OUT_NOP) \/
      (~ asks 1 in_flags /\ exists s, new_score in_flags score cur s /\
         ((s = S754_nan /\ ret = false /\ flags = ZADD_OUT_NAN) \/
          (s <> S754_nan /\ ~ allowed in_flags cur s /\ ret = true /\ flags = ZADD_OUT_NOP)))
  | inr s => ~ asks 1 in_flags /\ new_score in_flags score cur s /\ s <> S754_nan /\ allowed in_flags cur s
  end.
Proof.
  intros Hn Hc. unfold zadd_update.
  pose proof (asks_land 0 in_flags ltac:(lia)) as A0. pose proof (asks_land 1 in_flags ltac:(lia)) as A1.
  pose proof (asks_land 3 in_flags ltac:(lia)) as A3. pose proof (asks_land 4 in_flags ltac:(lia)) as A4.
  change (2 ^ 0) with ZADD_IN_INCR in A0. change (2 ^ 1) with ZADD_IN_NX in A1.
  change (2 ^ 3) with ZADD_IN_GT in A3. change (2 ^ 4) with ZADD_IN_LT in A4.
  destruct (Z.eqb_spec (Z.land in_flags ZADD_IN_NX) 0) as [E1|E1]; cbn [negb]; [|left; naive_solver].
  assert (~ asks 1 in_flags) as N1 by naive_solver.
  set (s := if negb (Z.land in_flags ZADD_IN_INCR =? 0) then dadd score cur else score).
  assert (new_score in_flags score cur s) as Hs.
  { unfold s, new_score. destruct (Z.eqb_spec (Z.land in_flags ZADD_IN_INCR) 0) as [E0|E0]; cbn [negb]; [right|left]; naive_solver. }
  destruct (negb (Z.land in_flags ZADD_IN_INCR =? 0) && isnan s) eqn:En.
  { apply andb_true_iff in En as [_ En]. right. split; [done|]. exists s. split; [done|]. left. by apply isnan_spec in En. }
  assert (isnan s = false) as Hsn.
  { unfold s in *. destruct (negb _); [|done]. done. }
  pose proof (proj1 (not_nan s) Hsn) as Hsn'. cbv zeta. rewrite (dle_ltb cur s Hc Hsn), (dle_ltb s cur Hsn Hc).
  assert (((negb (Z.land in_flags ZADD_IN_LT =? 0) && negb (SFltb s cur)) || (negb (Z.land in_flags ZADD_IN_GT =? 0) && negb (SFltb cur s))) = false
          <-> allowed in_flags cur s) as Hal.
  { unfold allowed. rewrite A3, A4, orb_false_iff, !andb_false_iff, !negb_false_iff, !Z.eqb_eq.
    destruct (Z.eq_dec (Z.land in_flags ZADD_IN_LT) 0), (Z.eq_dec (Z.land in_flags ZADD_IN_GT) 0); naive_solver. }
  destruct (_ || _).
  - right. split; [done|]. exists s. split; [done|]. right. split; [done|]. naive_solver.
  - naive_solver.
Qed.

Lemma zadd_step_spec in_flags score ele ms r ms' :
  Forall (fun m : member => isnan m.1 = false) ms -> zadd_step in_flags score ele ms r ms' -> zadd_spec in_flags score ele ms r ms'.
Proof.
  intros Hms Hs. pose proof (asks_land 2 in_flags ltac:(lia)) as A2. change (2 ^ 2) with ZADD_IN_XX in A2.
  assert (forall i m, find_member_at ele ms = Some (i, m) -> ele ∈ ms.*2 /\ score_of ele ms = Some m.1 /\ isnan m.1 = false) as Hf.
  { intros i m Hf. unfold score_of. rewrite Hf. apply list_find_Some in Hf as (Hi & <- & _). split_and!; [|done|by eapply Forall_lookup_1 in Hms].
    apply list_elem_of_fmap_2. by eapply list_elem_of_lookup_2. }
  destruct Hs as [Hn|i m ret flags Hn Hm Hu|i m s Hn Hm Hu He|i m s ms' Hn Hm Hu He Hi|Hn Hm Hx|ms' Hn Hm Hx Hi].
  - apply zadd_nan. by apply isnan_spec.
  - destruct (Hf _ _ Hm) as (H1 & H2 & H3). pose proof (zadd_update_spec in_flags score m.1 Hn H3) as H. rewrite Hu in H. apply not_nan in Hn.
    destruct H as [(Ha & -> & ->)|(Ha & s & Hs & [(Hsn & -> & ->)|(Hsn & Hal & -> & ->)])];
      [by apply zadd_nx|by eapply zadd_sum_nan|by eapply zadd_refused].
  - destruct (Hf _ _ Hm) as (H1 & H2 & H3). pose proof (zadd_update_spec in_flags score m.1 Hn H3) as H. rewrite Hu in H. apply not_nan in Hn.
    destruct H as (Ha & Hs & Hsn & Hal). by eapply zadd_same.
  - destruct (Hf _ _ Hm) as (H1 & H2 & H3). pose proof (zadd_update_spec in_flags score m.1 Hn H3) as H. rewrite Hu in H. apply not_nan in Hn.
    destruct H as (Ha & Hs & Hsn & Hal). by eapply zadd_updated.
  - apply zadd_xx; [by apply not_nan|done|by apply A2].
  - apply zadd_added; [by apply not_nan|done|naive_solver|done].
Qed.

Lemma zadd_update_number in_flags score cur s :
  isnan score = false -> zadd_update in_flags score cur = inr s -> isnan s = false.
Proof.
  unfold zadd_update. intros Hn. repeat (case_match; try done); intros [= <-]; try done.
  all: by destruct (isnan (dadd score cur)).
Qed.

Lemma zadd_update_value in_flags score cur s :
  zadd_update in_flags score cur = inr s -> s = score \/ s = dadd score cur.
Proof. unfold zadd_update. repeat (case_match; try done); intros [= <-]; tauto. Qed.

Lemma remove_middle A (m : member) B :
  m.2 ∉ (A ++ B).*2 -> zremove m.2 (A ++ m :: B) = A ++ B.
Proof.
  intros Hno. unfold zremove. rewrite filter_app, filter_cons, decide_False by (by intros Hc).
  assert (Hk : forall l : list member, m.2 ∉ l.*2 -> filter (fun n : member => n.2 <> m.2) l = l).
  { induction l as [|n l IH]; intros Hn; [done|]. rewrite fmap_cons, not_elem_of_cons in Hn. destruct Hn as [H1 H2].
    rewrite filter_cons, decide_True by (intros Hc; by apply H1). by rewrite IH. }
  rewrite fmap_app, not_elem_of_app in Hno. by rewrite !Hk by tauto.
Qed.

Lemma find_middle A (m : member) B :
  m.2 ∉ A.*2 -> find_member_at m.2 (A ++ m :: B) = Some (length A, m).
Proof.
  intros Hno. apply list_find_Some. split_and!; [by apply list_lookup_middle|done|].
  intros j y Hy Hj. rewrite lookup_app_l in Hy by done. intros Hc. apply Hno. rewrite <- Hc.
  apply list_elem_of_fmap. exists y. split; [done|]. by eapply list_elem_of_lookup_2.
Qed.

Lemma find_absent ele (ms : list member) : ele ∉ ms.*2 -> find_member_at ele ms = None.
Proof.
  intros Hno. apply list_find_None, Forall_forall. intros m Hm Hc. apply Hno. apply list_elem_of_fmap. by exists m.
Qed.

Lemma remove_absent ele (ms : list member) : ele ∉ ms.*2 -> zremove ele ms = ms.
Proof.
  induction ms as [|n l IH]; intros Hn; [done|]. rewrite fmap_cons, not_elem_of_cons in Hn. destruct Hn as [H1 H2].
  unfold zremove. rewrite filter_cons, decide_True by (intros Hc; by apply H1). f_equal. by apply IH.
Qed.

Lemma nodup_middle A (m : member) B : NoDup (A ++ m :: B).*2 -> m.2 ∉ (A ++ B).*2.
Proof. rewrite !fmap_app, fmap_cons, <- Permutation_middle. intros Hd. by inversion Hd. Qed.

Section View.
Context `{Allocator} `{NodeAllocator} `{T : DoubleText} `{!DoubleTextOk T}.
Context (hash : list Z -> Z) (Hhash : forall k, 0 <= hash k < 2 ^ 64) (resize : dictResizeEnable).
Context (max_entries max_value : Z).

Notation zpair := (list Z * lp_ent)%type.
Notation ZsInv := (ZsInv hash Hhash).
Notation zobj := (zobj hash).

Definition ZsetView (o : zobj) (ms : list member) : Prop :=
  match o with
  | ObjListpack _ zl => exists ps, ZzRepr zl ps /\ pmem <$> ps = ms
  | ObjSkiplist _ zs => exists L, ZsInv zs L /\ mem <$> L = ms
  end.

Lemma pair_names (ps : list zpair) ms : pmem <$> ps = ms -> ps.*1 = ms.*2.
Proof. intros <-. rewrite <- list_fmap_compose. by apply list_fmap_ext. Qed.

Lemma view_names o ms : ZsetView o ms -> NoDup ms.*2.
Proof.
  destruct o as [zl|zs]; intros (l & Hr & E).
  - rewrite <- (pair_names l ms E). apply Hr.
  - rewrite <- (names_of l ms E). by eapply zs_names.
Qed.

Lemma view_sorted o ms : ZsetView o ms -> StronglySorted mlt ms.
Proof.
  destruct o as [zl|zs]; intros (l & Hr & <-); [apply Hr|].
  pose proof (zr_sorted _ _ _ (zi_list _ _ _ _ Hr)) as Hs. clear -Hs.
  induction Hs as [|x L _ IH Hx]; [constructor|]. rewrite fmap_cons. constructor; [done|]. by rewrite Forall_fmap.
Qed.

(** Pairs and members have the same places. *)
Lemma find_pair (ps : list zpair) ele :
  find_member_at ele (pmem <$> ps) = (fun ip => (ip.1, pmem ip.2)) <$> list_find (fun p : zpair => p.1 = ele) ps.
Proof.
  induction ps as [|p ps IH]; [done|]. unfold find_member_at in *. rewrite fmap_cons. cbn [list_find].
  change ((pmem p).2) with p.1. destruct (decide (p.1 = ele)); [done|]. rewrite IH.
  by destruct (list_find _ ps) as [[i q]|].
Qed.

Lemma zzlLength_spec zl ps :
  ZzRepr zl ps -> exists zl', zzlLength zl = Some (zl', zlen ps) /\ ZzRepr zl' ps.
Proof.
  intros [(num & slack & -> & WF) H2 H3 H4]. unfold zzlLength.
  pose proof (zlen_es num (zz_ents ps) slack WF) as [Hz _].
  destruct (lpLength_block num (zz_ents ps) slack WF) as (num' & -> & WF'). cbn [mbind option_bind].
  assert (zlen (zz_ents ps) = zlen ps * 2) as E by (unfold zlen; rewrite length_zz; lia).
  rewrite E, Z.div_mul by lia. rewrite wrapu_small by (unfold UINT32_MAX in Hz; zlen_saturate; lia).
  eexists. split; [done|]. split; [by exists num', slack|done|done|done].
Qed.

(** ** Lookup *)

Lemma score_spec o ms ele :
  ZsetView o ms -> zlen ms < 2 ^ 59 ->
  exists o', zsetScore hash resize o ele = Some (o', score_of ele ms) /\ ZsetView o' ms.
Proof.
  destruct o as [zl|zs]; intros (l & Hr & <-) Hlen; unfold zsetScore, score_of.
  - rewrite (zzlFind_spec zl l ele Hr). cbn [mbind option_bind]. exists (ObjListpack hash zl). split; [|by exists l].
    rewrite find_pair. by destruct (list_find _ l) as [[i p]|].
  - rewrite zlen_fmap in Hlen. destruct (find_member hash Hhash resize zs l ele Hr Hlen) as (d & r & -> & Hi & Hm).
    cbn [mbind option_bind]. destruct r as [r|].
    + destruct Hm as (x & de & Hx & Hn & _ & _ & _ & ->). cbn [mbind option_bind].
      exists (ObjSkiplist hash (with_dict hash zs d)). split; [|by exists l].
      apply list_elem_of_split in Hx as (A & D & ->). pose proof (names_split A D x (zs_names _ _ _ _ Hr)) as Hnew.
      rewrite <- Hn. rewrite fmap_app, fmap_cons, <- nname_mem, find_middle; [done|].
      rewrite <- (names_of A _ eq_refl). rewrite fmap_app, not_elem_of_app in Hnew. tauto.
    + exists (ObjSkiplist hash (with_dict hash zs d)). split; [|by exists l].
      rewrite find_absent; [done|]. by rewrite <- (names_of l _ eq_refl).
Qed.

(** ** Deletion *)

Lemma delete_members (ps : list zpair) i p :
  NoDup ps.*1 -> ps !! i = Some p -> pmem <$> delete i ps = zremove p.1 (pmem <$> ps).
Proof.
  intros Hnd Hp. rewrite delete_take_drop. rewrite <- (take_drop_middle ps i p Hp) in Hnd.
  rewrite <- (take_drop_middle ps i p Hp) at 3. rewrite !fmap_app, fmap_cons.
  change p.1 with (pmem p).2. rewrite remove_middle; [done|]. apply nodup_middle.
  rewrite <- fmap_cons, <- fmap_app. by rewrite <- (pair_names _ _ eq_refl).
Qed.

Lemma find_pair_in (ps : list zpair) ele i p :
  list_find (fun p : zpair => p.1 = ele) ps = Some (i, p) -> ps !! i = Some p /\ p.1 = ele /\ ele ∈ (pmem <$> ps).*2.
Proof.
  intros (Hi & Hp & _)%list_find_Some. split; [done|]. split; [done|]. rewrite <- (pair_names _ _ eq_refl), <- Hp.
  apply list_elem_of_fmap. exists p. split; [done|]. by eapply list_elem_of_lookup_2.
Qed.

Lemma find_pair_out (ps : list zpair) ele :
  list_find (fun p : zpair => p.1 = ele) ps = None -> ele ∉ (pmem <$> ps).*2.
Proof.
  intros Hn%list_find_None. rewrite <- (pair_names _ _ eq_refl). intros (p & -> & Hp)%list_elem_of_fmap.
  rewrite Forall_forall in Hn. by apply (Hn p).
Qed.

Lemma del_spec o ms ele :
  ZsetView o ms -> zlen ms < 2 ^ 59 ->
  exists o', zsetDel hash resize o ele = Some (o', bool_decide (ele ∈ ms.*2)) /\ ZsetView o' (zremove ele ms).
Proof.
  destruct o as [zl|zs]; intros (l & Hr & <-) Hlen; unfold zsetDel.
  - rewrite (zzlFind_spec zl l ele Hr). cbn [mbind option_bind]. destruct (list_find _ l) as [[i p]|] eqn:Ef.
    + destruct (find_pair_in l ele i p Ef) as (Hi & <- & Hin). cbn [fmap option_fmap option_map fst snd].
      destruct (zzlDelete_spec zl l i Hr ltac:(by eapply lookup_lt_Some)) as (zl' & -> & Hr'). cbn [mbind option_bind].
      rewrite bool_decide_true by done. eexists. split; [done|]. exists (delete i l). split; [done|].
      apply delete_members; [apply Hr|done].
    + pose proof (find_pair_out l ele Ef) as Hout. rewrite bool_decide_false by done. eexists. split; [done|].
      rewrite remove_absent by done. by exists l.
  - rewrite zlen_fmap in Hlen. destruct (remove_member_spec hash Hhash resize zs l ele Hr Hlen) as (zs' & b & -> & Hb).
    cbn [mbind option_bind]. destruct b.
    + destruct Hb as (A & x & D & -> & <- & Hi'). rewrite <- (names_of _ _ eq_refl), bool_decide_true by set_solver.
      eexists. split; [done|]. exists (A ++ D). split; [done|]. rewrite !fmap_app, fmap_cons, <- nname_mem.
      rewrite remove_middle; [done|]. rewrite <- fmap_app, <- (names_of _ _ eq_refl).
      by apply names_split, (zs_names _ _ _ _ Hr).
    + destruct Hb as [Hno Hi']. rewrite <- (names_of _ _ eq_refl), bool_decide_false by done. eexists. split; [done|].
      exists l. split; [done|]. rewrite remove_absent; [done|]. by rewrite <- (names_of _ _ eq_refl).
Qed.

(** ** Adding *)

Lemma add_skiplist_spec zs L score ele in_flags rss :
  ZsInv zs L -> zlen L < 2 ^ 59 -> isnan score = false -> Forall draw_ok rss -> (1 <= length rss)%nat ->
  exists o' ret flags ns rss' ms', zsetAddSkiplist hash resize zs score ele in_flags rss = Some (o', ret, flags, ns, rss') /\
    zadd_step in_flags score ele (mem <$> L) (ret, flags, ns) ms' /\ ZsetView o' ms' /\ (exists zs', o' = ObjSkiplist hash zs').
Proof.
  intros Hi Hlen Hn Hd Hr. destruct rss as [|rs rss]; [simpl in Hr; lia|]. apply Forall_cons in Hd as [Hd _].
  unfold zsetAddSkiplist. destruct (find_member hash Hhash resize zs L ele Hi Hlen) as (d & r & -> & Hi' & Hm).
  cbn [mbind option_bind]. destruct r as [r|].
  2: { rewrite (names_of L _ eq_refl) in Hm. destruct (Z.eqb_spec (Z.land in_flags ZADD_IN_XX) 0) as [Ex|Ex]; cbn [negb].
       - destruct (add_member_spec hash Hhash resize (with_dict hash zs d) L rs rss score ele Hi' Hlen Hn
           ltac:(by rewrite (names_of L _ eq_refl)) Hd) as (zs' & A & D & x & -> & -> & Hx & Hz).
         cbn [mbind option_bind]. eexists _, _, _, _, _, (mem <$> A ++ x :: D). split; [done|]. split; [|split; [by exists (A ++ x :: D)|by eexists]].
         apply step_added; try done. exists (mem <$> A), (mem <$> D), score.
         rewrite !fmap_app, fmap_cons, Hx. by split_and!.
       - eexists _, _, _, _, _, (mem <$> L). split; [done|]. split; [by apply step_xx|split; [by exists L|by eexists]]. }
  destruct Hm as (x & de & Hx & <- & Hge & Hhe & Hval & Hsc).
  change (entry_score hash (with_dict hash zs d) d r) with (entry_score hash zs d r). rewrite Hsc. cbn [mbind option_bind].
  pose proof Hx as Hx0. apply list_elem_of_split in Hx0 as (A0 & D0 & EL).
  pose proof (zs_names _ _ _ _ Hi) as Hnd. rewrite EL in Hnd. pose proof (names_split A0 D0 x Hnd) as Hnew.
  assert (Hfind : find_member_at (nname x) (mem <$> L) = Some (length (mem <$> A0), mem x)).
  { rewrite EL, fmap_app, fmap_cons, <- nname_mem. apply find_middle. rewrite <- (names_of A0 _ eq_refl).
    rewrite fmap_app, not_elem_of_app in Hnew. tauto. }
  destruct (zadd_update in_flags score (s_score x)) as [[ret flags]|s] eqn:Eu.
  { eexists _, _, _, _, _, (mem <$> L). split; [done|]. split; [by eapply step_stop|split; [by exists L|by eexists]]. }
  destruct (deq s (s_score x)) eqn:Edq; cbn [negb].
  { eexists _, _, _, _, _, (mem <$> L). split; [done|]. split; [by eapply step_same|split; [by exists L|by eexists]]. }
  pose proof (zadd_update_number _ _ _ _ Hn Eu) as Hsn.
  destruct (update_member_spec hash Hhash zs L rs x r de d s Hi Hi' Hlen Hsn Hd Hx Hge Hhe Hval)
    as (h & z & id & d' & A & D & A' & D' & x' & EL' & E1 & E2 & EA & Hx' & Hz).
  simpl zs_heap. simpl zs_zsl. rewrite E1. cbn [mbind option_bind]. rewrite E2. cbn [mbind option_bind].
  eexists _, _, _, _, _, (mem <$> A' ++ x' :: D'). split; [done|]. split; [|split; [by exists (A' ++ x' :: D')|by eexists]].
  eapply step_updated; try done. exists (mem <$> A'), (mem <$> D'), s.
  rewrite <- fmap_app, <- EA, EL'. rewrite !fmap_app, !fmap_cons, <- nname_mem. split_and!; try done.
  - apply remove_middle. rewrite <- fmap_app, <- (names_of _ _ eq_refl). apply names_split. rewrite <- EL', EL. done.
  - by rewrite Hx'.
Qed.

(** The insertion of a pair is the insertion of a member. *)
Lemma insert_pair_view (ps : list zpair) j ele s :
  isnan s = false -> valid_binary 53 1024 s = true ->
  zinserted s ele (pmem <$> ps) (pmem <$> insert_pair j (ele, score_ent s) ps).
Proof.
  intros Hn Hv. destruct (score_ent_spec s Hn Hv) as (H1 & H2 & _).
  exists (pmem <$> take j ps), (pmem <$> drop j ps), (ent_score (score_ent s)). unfold insert_pair.
  rewrite fmap_app, fmap_cons, <- fmap_app, take_drop. by split_and!.
Qed.

(** The listpack has room for the name and a score, and the name is a byte string. *)
Definition room (o : zobj) (ele : list Z) : Prop :=
  match o with ObjListpack _ zl => zlen zl + zlen ele + 64 <= UINT32_MAX | ObjSkiplist _ _ => True end.

Lemma total_in_block zl es : LpRepr zl es -> lpGetTotalBytes zl = Some (lp_total es) /\ lp_total es <= zlen zl.
Proof.
  intros (num & slack & -> & WF). split; [by apply getTotalBytes_block|]. rewrite (zlen_lp num es slack). zlen_saturate. lia.
Qed.

Lemma total_delete (ps : list zpair) i p : ps !! i = Some p -> lp_total (zz_ents (delete i ps)) <= lp_total (zz_ents ps).
Proof.
  intros Hp. rewrite <- (take_drop_middle ps i p Hp) at 2.
  replace (take i ps ++ p :: drop (S i) ps) with (insert_pair i p (delete i ps)).
  - rewrite total_insert. zlen_saturate. lia.
  - unfold insert_pair. rewrite delete_take_drop. apply lookup_lt_Some in Hp.
    rewrite take_app_length', drop_app_length' by (rewrite length_take; lia). done.
Qed.

(** Updating a member of a listpack. *)
Lemma update_listpack_spec zl ps i p s :
  ZzRepr zl ps -> ps !! i = Some p -> isnan s = false -> valid_binary 53 1024 s = true ->
  zlen zl + zlen p.1 + 64 <= UINT32_MAX ->
  exists zl1 zl2 ps', zzlDelete zl (ent_off (zz_ents ps) (2 * i)) = Some zl1 /\ zzlInsert zl1 p.1 s = Some (Some zl2) /\
    ZzRepr zl2 ps' /\ zinserted s p.1 (zremove p.1 (pmem <$> ps)) (pmem <$> ps').
Proof.
  intros Hr Hi Hn Hv Hroom. destruct (zzlDelete_spec zl ps i Hr ltac:(by eapply lookup_lt_Some)) as (zl1 & E1 & Hr1).
  pose proof (proj1 (Forall_forall _ _) (zz_pairs _ _ Hr) p ltac:(by eapply list_elem_of_lookup_2)) as (Hb & Hl & _).
  destruct (total_in_block _ _ (zz_repr _ _ Hr)) as [_ Ht]. pose proof (total_delete ps i p Hi).
  pose proof (delete_members ps i p (zz_names _ _ Hr) Hi) as Hdm.
  destruct (zzlInsert_spec zl1 (delete i ps) p.1 s Hr1 Hn Hv Hb Hl) as (zl2 & j & _ & E2 & Hr2); [|lia|].
  - rewrite (pair_names _ _ eq_refl), Hdm. intros (m & Em & Hm)%list_elem_of_fmap.
    apply list_elem_of_filter in Hm as [Hm _]. by symmetry in Em.
  - exists zl1, zl2, (insert_pair j (p.1, score_ent s) (delete i ps)). split_and!; [done|done|done|].
    rewrite <- Hdm. by apply insert_pair_view.
Qed.

(** A listpack with one member more would be too large: too many members, too long a name, or
    more than a gigabyte. *)
Definition too_large (zl : list Z) (n : Z) (ele : list Z) : Prop :=
  n + 1 > max_entries \/ zlen ele > max_value \/ exists t, lpGetTotalBytes zl = Some t /\ t + zlen ele > 2 ^ 30.

(** The encoding afterwards: a listpack becomes a skip list when a member is added and it is too
    large, and only then. *)
Definition encoding_after (o : zobj) (n : Z) (ele : list Z) (flags : Z) (o' : zobj) : Prop :=
  match o, o' with
  | ObjListpack _ zl, ObjListpack _ _ => ~ (flags = ZADD_OUT_ADDED /\ too_large zl n ele)
  | ObjListpack _ zl, ObjSkiplist _ _ => flags = ZADD_OUT_ADDED /\ too_large zl n ele
  | ObjSkiplist _ _, ObjSkiplist _ _ => True
  | ObjSkiplist _ _, ObjListpack _ _ => False
  end.

Lemma add_listpack_spec zl ps score ele rss :
  ZzRepr zl ps -> zlen ps < 2 ^ 58 -> isnan score = false -> valid_binary 53 1024 score = true ->
  Forall is_byte ele -> zlen ele < 2 ^ 31 -> ele ∉ (pmem <$> ps).*2 -> Forall draw_ok rss -> (length ps < length rss)%nat ->
  forall in_flags, Z.land in_flags ZADD_IN_XX = 0 ->
  exists o' ns rss' ms',
    zsetAddNewListpack hash resize max_entries max_value zl score ele in_flags rss = Some (o', true, ZADD_OUT_ADDED, ns, rss') /\
    zadd_step in_flags score ele (pmem <$> ps) (true, ZADD_OUT_ADDED, ns) ms' /\ ZsetView o' ms' /\
    encoding_after (ObjListpack hash zl) (zlen ps) ele ZADD_OUT_ADDED o'.
Proof.
  intros Hr Hlen Hn Hv Hb Hl Hno Hd Hrs in_flags Hxx. unfold zsetAddNewListpack. destruct (zzlLength_spec zl ps Hr) as (zl1 & -> & Hr1).
  cbn [mbind option_bind]. destruct (total_in_block _ _ (zz_repr _ _ Hr1)) as [Ht1 _]. unfold lpSafeToAdd. rewrite Ht1.
  cbn [mbind option_bind]. pose proof (entries_in_block _ _ (zz_repr _ _ Hr1)) as Hblk.
  destruct (total_in_block _ _ (zz_repr _ _ Hr)) as [Ht _].
  assert ((u32 (zlen ps + 1) >? max_entries) || (zlen ele >? max_value) || negb (negb (u64 (lp_total (zz_ents ps) + zlen ele) >? LISTPACK_MAX_SAFETY_SIZE)) = true
    <-> too_large zl (zlen ps) ele) as Hbig.
  { destruct (zz_repr _ _ Hr1) as (num & slack & _ & WF). destruct (zlen_es num _ slack WF) as [Hes _].
    assert (2 * zlen ps < 2 ^ 32) as Hps by (unfold zlen in *; rewrite length_zz in Hes; unfold_limits; lia). pose proof (lp_total_range num (zz_ents ps) WF) as Htr.
    unfold too_large. rewrite Ht, negb_involutive, !orb_true_iff, !Z.gtb_lt, (wrapu_small 32), (wrapu_small 64) by (zlen_saturate; unfold_limits; lia).
    change LISTPACK_MAX_SAFETY_SIZE with (2 ^ 30). split; [intros [[?|?]|?]; [left|right; left|right; right; eexists; split; [done|]]; lia|].
    intros [?|[?|(t & [= <-] & ?)]]; lia. }
  destruct (_ || _ || _) eqn:Ebig.
  - destruct (zzlLength_spec zl1 ps Hr1) as (zl2 & E2 & Hr2). unfold zsetLength. rewrite E2.
    cbn [mbind option_bind]. unfold zsetConvertAndExpand.
    destruct (convert_to_skiplist_spec hash Hhash resize zl2 ps (u64 (zlen ps + 1)) rss Hr2) as (zs & L & -> & Hi & HL);
      [apply Z.mod_pos_bound; lia|done|lia|]. cbn [mbind option_bind].
    assert (length L = length ps) as EL by (rewrite <- (length_fmap mem L), HL; apply length_fmap).
    destruct (add_skiplist_spec zs L score ele in_flags (drop (length ps) rss) Hi) as (o' & ret & flags & ns & rss' & ms' & -> & Hs & Hvw & zs' & ->);
      [unfold zlen in *; lia|done|by apply Forall_drop|rewrite length_drop; lia|].
    rewrite HL in Hs. assert (ret = true /\ flags = ZADD_OUT_ADDED) as [-> ->].
    { inversion Hs; subst; try done; try congruence.
      all: match goal with Hf : find_member_at _ _ = Some _ |- _ => by rewrite (find_absent _ _ Hno) in Hf end. }
    eexists _, _, _, _. split; [done|]. split; [done|]. split; [done|]. split; [done|]. by apply Hbig.
  - assert (negb (u64 (lp_total (zz_ents ps) + zlen ele) >? LISTPACK_MAX_SAFETY_SIZE) = true) as Hsafe.
    { rewrite !orb_false_iff, negb_false_iff in Ebig. by destruct Ebig. }
    destruct (zzlInsert_spec zl1 ps ele score Hr1 Hn Hv Hb Hl) as (zl2 & j & _ & -> & Hr2).
    { by rewrite (pair_names ps _ eq_refl). }
    { destruct (zz_repr _ _ Hr1) as (num & slack & _ & WF). pose proof (lp_total_range num (zz_ents ps) WF).
      apply negb_true_iff in Hsafe. rewrite Z.gtb_ltb in Hsafe. apply Z.ltb_ge in Hsafe.
      unfold u64, wrapu, LISTPACK_MAX_SAFETY_SIZE, UINT32_MAX in *. zlen_saturate.
      rewrite Z.mod_small in Hsafe by lia. lia. }
    cbn [mbind option_bind]. eexists _, _, _, (pmem <$> insert_pair j (ele, score_ent score) ps). split; [done|].
    split; [apply step_added; try done; by apply insert_pair_view|]. split; [by eexists|]. intros [_ Hx]. by apply Hbig in Hx.
Qed.

Lemma update_stop_flags in_flags score cur ret : zadd_update in_flags score cur <> inl (ret, ZADD_OUT_ADDED).
Proof. unfold zadd_update. repeat case_match; done. Qed.

Lemma add_spec o ms score ele in_flags rss :
  ZsetView o ms -> zlen ms < 2 ^ 58 -> Forall is_byte ele -> zlen ele < 2 ^ 31 -> room o ele ->
  valid_binary 53 1024 score = true ->
  (forall s, score_of ele ms = Some s -> valid_binary 53 1024 (dadd score s) = true) ->
  Forall draw_ok rss -> (length ms < length rss)%nat ->
  exists o' ret flags ns rss' ms',
    zsetAdd hash resize max_entries max_value o score ele in_flags rss = Some (o', ret, flags, ns, rss') /\
    zadd_step in_flags score ele ms (ret, flags, ns) ms' /\ ZsetView o' ms' /\ encoding_after o (zlen ms) ele flags o'.
Proof.
  intros Hvw Hlen Hb Hl Hroom Hv Hvs Hd Hrs. unfold zsetAdd. destruct (isnan score) eqn:Hn.
  { eexists _, _, _, _, _, ms. split; [done|]. split; [by apply step_nan|]. split; [done|]. destruct o; [by intros [? _]|done]. }
  destruct o as [zl|zs]; destruct Hvw as (l & Hr & <-); rewrite ?length_fmap, ?zlen_fmap in *.
  2: { destruct (add_skiplist_spec zs l score ele in_flags rss) as (o' & ret & flags & ns & rss' & ms' & E & Hs & Hvw & zs' & ->); [done|lia|done|done|lia|].
       by eexists _, _, _, _, _, _. }
  rewrite (zzlFind_spec zl l ele Hr). cbn [mbind option_bind]. pose proof (find_pair l ele) as Efm.
  destruct (list_find _ l) as [[i p]|] eqn:Ef; cbn [fmap option_fmap option_map fst snd] in Efm |- *.
  - destruct (find_pair_in l ele i p Ef) as (Hi & <- & _). change (ent_score p.2) with (pmem p).1.
    destruct (zadd_update in_flags score (pmem p).1) as [[ret flags]|s] eqn:Eu.
    { eexists _, _, _, _, _, _. split; [done|]. split; [by eapply step_stop|]. split; [by exists l|]. intros [-> _]. by apply update_stop_flags in Eu. }
    destruct (deq s (pmem p).1) eqn:Edq; cbn [negb].
    { eexists _, _, _, _, _, _. split; [done|]. split; [by eapply step_same|]. split; [by exists l|]. by intros [? _]. }
    pose proof (zadd_update_number _ _ _ _ Hn Eu) as Hsn.
    assert (valid_binary 53 1024 s = true) as Hsv.
    { destruct (zadd_update_value _ _ _ _ Eu) as [-> | ->]; [done|]. apply Hvs. unfold score_of. by rewrite Efm. }
    destruct (update_listpack_spec zl l i p s Hr Hi Hsn Hsv Hroom) as (zl1 & zl2 & ps' & -> & E2 & Hr2 & Hins).
    cbn [mbind option_bind]. rewrite E2. cbn [mbind option_bind].
    eexists _, _, _, _, _, _. split; [done|]. split; [by eapply step_updated|]. split; [by exists ps'|]. by intros [? _].
  - pose proof (find_pair_out l ele Ef) as Hout. destruct (Z.eqb_spec (Z.land in_flags ZADD_IN_XX) 0) as [Ex|Ex]; cbn [negb].
    + destruct (add_listpack_spec zl l score ele rss Hr Hlen Hn Hv Hb Hl Hout Hd Hrs in_flags Ex)
        as (o' & ns & rss' & ms' & -> & Hs & Hvw & Henc). by eexists _, _, _, _, _, _.
    + eexists _, _, _, _, _, _. split; [done|]. split; [by apply step_xx|]. split; [by exists l|]. by intros [? _].
Qed.

(** ** Rank *)

Lemma length_spec o ms :
  ZsetView o ms -> exists o', zsetLength hash o = Some (o', zlen ms) /\ ZsetView o' ms /\
    match o, o' with ObjListpack _ _, ObjListpack _ _ => True | ObjSkiplist _ _, _ => o' = o | _, _ => False end.
Proof.
  destruct o as [zl|zs]; intros (l & Hr & <-); unfold zsetLength; rewrite zlen_fmap.
  - destruct (zzlLength_spec zl l Hr) as (zl' & -> & Hr'). eexists. split; [done|]. split; [by exists l|done].
  - rewrite (zr_len _ _ _ (zi_list _ _ _ _ Hr)). eexists. split; [done|]. split; [by exists l|done].
Qed.

Lemma rank_loop zl ps ele fuel : forall i,
  ZzRepr zl ps -> (i <= length ps)%nat -> (length ps - i < fuel)%nat ->
  loop fuel (rank_body zl ele) (pair_ptrs ps i, Z.of_nat i + 1) =
    Some ((fun kp => (ent_off (zz_ents ps) (S (2 * (i + kp.1))), Z.of_nat (i + kp.1) + 1)) <$>
          list_find (fun p : zpair => p.1 = ele) (drop i ps)).
Proof.
  induction fuel as [|fuel IH]; intros i HR Hi Hf; [lia|]. cbn [loop]. unfold rank_body at 1, pair_ptrs at 1.
  case_decide as Hlt.
  2: { rewrite drop_ge by lia. done. }
  destruct (lookup_lt_is_Some_2 ps i Hlt) as [p Hp]. rewrite (drop_S ps p i Hp). cbn [list_find].
  assert (lpCompare zl (ent_off (zz_ents ps) (2 * i)) ele (zlen ele) = Some (bool_decide (p.1 = ele))) as ->.
  { destruct (zz_repr _ _ HR) as (num & slack & -> & WF).
    rewrite (lpCompare_block num _ slack WF ele _ _ (zz_name ps i p Hp)). f_equal. rewrite ent_matches_canon by apply str_ent_canon. apply bool_decide_ext. split; [apply str_ent_inj|by intros ->]. }
  cbn [mbind option_bind]. case_decide as Hd; [rewrite bool_decide_true by done|rewrite bool_decide_false by done].
  - cbn [fmap option_fmap option_map fst]. by rewrite Nat.add_0_r.
  - rewrite (next_pair zl ps i HR Hlt). cbn [mbind option_bind]. replace (Z.of_nat i + 1 + 1) with (Z.of_nat (S i) + 1) by lia.
    rewrite IH by (done || lia). destruct (list_find _ (drop (S i) ps)) as [[k q]|]; [|done].
    cbn [fmap option_fmap option_map fst prod_map]. do 4 f_equal; lia.
Qed.

Lemma rank_listpack zl ps ele rev :
  ZzRepr zl ps -> ps <> [] ->
  exists zl', ZzRepr zl' ps /\ zsetRank hash resize (ObjListpack hash zl) ele rev = Some (ObjListpack hash zl',
    (fun im => (if rev : bool then zlen ps - 1 - Z.of_nat im.1 else Z.of_nat im.1, im.2.1)) <$> find_member_at ele (pmem <$> ps)).
Proof.
  intros Hr Hne. unfold zsetRank, zsetLength. destruct (zzlLength_spec zl ps Hr) as (zl' & -> & Hr').
  exists zl'. split; [done|]. cbn [mbind option_bind]. rewrite (seek_at zl' _ (zz_repr _ _ Hr')). cbn [mbind option_bind].
  change (if 0 <? 0 then _ else 0) with 0. cbv zeta. change (0 <? 0) with false. cbv iota.
  change (Z.to_nat 0) with (2 * 0)%nat.
  assert (0 < length ps)%nat as Hpos by (destruct ps; [done|simpl; lia]).
  rewrite ptr_pair by done. cbn [mbind option_bind]. destruct (lookup_lt_is_Some_2 ps 0 Hpos) as [p Hp].
  destruct (pair_steps zl' ps 0 p Hr' Hp) as (N1 & _ & _). rewrite N1. cbn [mbind option_bind].
  pose proof (rank_loop zl' ps ele (S (length zl')) 0 Hr' ltac:(lia)) as Hloop. unfold pair_ptrs in Hloop.
  rewrite decide_True in Hloop by done. cbn [Nat.add] in Hloop. change (Z.of_nat 0 + 1) with 1 in Hloop.
  rewrite Hloop.
  2: { pose proof (entries_in_block _ _ (zz_repr _ _ Hr')) as Hb. unfold zlen in Hb. rewrite length_zz in Hb. lia. }
  rewrite drop_0, find_pair. cbn [mbind option_bind]. destruct (list_find _ ps) as [[i q]|] eqn:Ef; [|done].
  destruct (find_pair_in ps ele i q Ef) as (Hi & _). destruct (pair_steps zl' ps i q Hr' Hi) as (_ & Hsc & _).
  cbn [fmap option_fmap option_map fst snd]. rewrite Hsc. cbn [mbind option_bind]. do 4 f_equal. destruct rev; lia.
Qed.

Lemma rank_spec o ms ele rev :
  ZsetView o ms -> zlen ms < 2 ^ 59 -> ms <> [] ->
  exists o', zsetRank hash resize o ele rev = Some (o',
    (fun im => (if rev : bool then zlen ms - 1 - Z.of_nat im.1 else Z.of_nat im.1, im.2.1)) <$> find_member_at ele ms) /\ ZsetView o' ms.
Proof.
  destruct o as [zl|zs]; intros (l & Hr & <-) Hlen Hne; rewrite ?zlen_fmap in *.
  { destruct (rank_listpack zl l ele rev Hr) as (zl' & Hr' & ->); [by intros ->|]. eexists. split; [done|]. by exists l. }
  unfold zsetRank, zsetLength. cbn [mbind option_bind]. rewrite (zr_len _ _ _ (zi_list _ _ _ _ Hr)).
  destruct (find_member hash Hhash resize zs l ele Hr Hlen) as (d & r & -> & Hi & Hm). cbn [mbind option_bind].
  exists (ObjSkiplist hash (with_dict hash zs d)). destruct r as [r|].
  2: { rewrite find_absent by (by rewrite <- (names_of l _ eq_refl)). split; [done|by exists l]. }
  destruct Hm as (x & de & Hx & <- & _ & _ & _ & Hsc).
  change (entry_score hash (with_dict hash zs d) d r) with (entry_score hash zs d r). rewrite Hsc. cbn [mbind option_bind].
  apply list_elem_of_split in Hx as (A & D & ->). pose proof (names_split A D x (zs_names _ _ _ _ Hr)) as Hnew.
  pose proof (zi_list _ _ _ _ Hr) as HR. pose proof (zr_nodes _ _ _ HR) as Hok. rewrite Forall_app, Forall_cons in Hok.
  simpl zs_heap. simpl zs_zsl. rewrite (zslGetRank_present _ _ A D x (s_score x) (nname x) HR ltac:(lia) ltac:(apply Hok) ltac:(done)).
  cbn [mbind option_bind]. replace (zlen A + 1 =? 0) with false by (zlen_saturate; lia). cbn [negb assert_true mbind option_bind].
  split; [|by exists (A ++ x :: D)]. rewrite fmap_app, fmap_cons, <- nname_mem, find_middle.
  - cbn [fmap option_fmap option_map fst snd]. rewrite length_fmap. fold (zlen A). do 4 f_equal. destruct rev; unfold zlen; lia.
  - rewrite <- (names_of A _ eq_refl). rewrite fmap_app, not_elem_of_app in Hnew. tauto.
Qed.

(** ** Creation and conversion *)

Lemma create_spec size_hint val_len_hint :
  0 <= size_hint < 2 ^ 64 ->
  exists o, zsetTypeCreate hash max_entries max_value size_hint val_len_hint = Some o /\ ZsetView o [].
Proof.
  intros Hs. unfold zsetTypeCreate. destruct (_ && _).
  - unfold createZsetListpackObject. destruct (lpNew_repr 0) as (zl & -> & HL). eexists. split; [done|].
    exists []. split; [|done]. split; [done|constructor|constructor|constructor].
  - unfold createZsetObject. destruct (new_zset hash Hhash size_hint Hs) as (h & z & d & b & -> & E & Hi).
    cbn [mbind option_bind]. simpl zs_dict. rewrite E. cbn [mbind option_bind]. eexists. split; [done|]. by exists [].
Qed.

Lemma convert_spec o ms enc rss :
  ZsetView o ms -> zlen ms < 2 ^ 59 -> Forall draw_ok rss -> (length ms <= length rss)%nat ->
  Forall storable ms -> 7 + weight ms <= UINT32_MAX ->
  exists o' rss' ms', zsetConvert hash resize o enc rss = Some (o', rss') /\ ZsetView o' ms' /\ Forall2 same_key ms' ms /\
    match o' with ObjSkiplist _ _ => enc = true | ObjListpack _ _ => enc = false end.
Proof.
  assert (Href : forall l : list member, Forall2 same_key l l) by (intros l; apply Forall_Forall2_diag, Forall_forall; done).
  intros Hvw Hlen Hd Hr Hst Hw. unfold zsetConvert. destruct (length_spec o ms Hvw) as (o1 & -> & Hvw1 & _).
  cbn [mbind option_bind]. clear o Hvw. unfold zsetConvertAndExpand.
  destruct o1 as [zl|zs], enc; destruct Hvw1 as (l & Hl & <-); rewrite ?zlen_fmap, ?length_fmap in *.
  - destruct (convert_to_skiplist_spec hash Hhash resize zl l (zlen l) rss Hl) as (zs & L & -> & Hi & HL);
      [zlen_saturate; lia|done|done|]. eexists _, _, _. split; [done|]. split; [by exists L|done].
  - eexists _, _, (pmem <$> l). split; [done|]. split; [by exists l|done].
  - eexists _, _, (mem <$> l). split; [done|]. split; [by exists l|done].
  - destruct (convert_to_listpack_spec hash Hhash zs l Hl Hst Hw) as (zl & -> & Hz & Hs).
    eexists _, _, _. split; [done|]. split; [by exists (copy_pair <$> l)|done].
Qed.
End View.
