(* ===== verification/ZsetProps.v ===== *)
(** * Sorted sets: what the operations do, in both encodings *)
From Stdlib Require Import SpecFloat.
From S2P Require Import Prelude Numstr NumstrFacts NumstrProps Listpack ListpackFacts Dict DictOps Skiplist SkiplistOrder SkiplistFacts SkiplistRangeFacts SkiplistEdit SkiplistProps Zzl ZzlFacts ZzlRange Zset ZsetFacts ZsetView.

(** ** The options of ZADD on the ordered set *)

Lemma inserted_score s ele ms ms' :
  zinserted s ele ms ms' -> ele ∉ ms.*2 -> exists s', score_of ele ms' = Some s' /\ SkiplistOrder.dkey s' = SkiplistOrder.dkey s /\ isnan s' = false.
Proof.
  intros (A & B & s' & -> & -> & Hk & Hn) Hno. exists s'. split; [|done]. unfold score_of.
  change ele with ((s', ele) : member).2 at 1. rewrite find_middle; [done|]. rewrite fmap_app, not_elem_of_app in Hno. tauto.
Qed.

Lemma removed_absent ele ms : ele ∉ (zremove ele ms).*2.
Proof. intros (m & Em & [Hm _]%list_elem_of_filter)%list_elem_of_fmap. by symmetry in Em. Qed.

Lemma dle_refl a : isnan a = false -> dle a a = true.
Proof. intros Ha. apply dle_spec; [done|done|]. apply klt_irrefl. Qed.

(** The score that an update keeps, under the two bounds. *)
Lemma zadd_update_bounds in_flags score cur s :
  zadd_update in_flags score cur = inr s ->
  Z.land in_flags ZADD_IN_NX = 0 /\
  (Z.land in_flags ZADD_IN_GT <> 0 -> dle s cur = false) /\ (Z.land in_flags ZADD_IN_LT <> 0 -> dle cur s = false).
Proof.
  unfold zadd_update.
  destruct (Z.eqb_spec (Z.land in_flags ZADD_IN_NX) 0) as [E1|E1]; [|done].
  destruct (Z.eqb_spec (Z.land in_flags ZADD_IN_GT) 0) as [E2|E2], (Z.eqb_spec (Z.land in_flags ZADD_IN_LT) 0) as [E3|E3],
    (Z.eqb_spec (Z.land in_flags ZADD_IN_INCR) 0) as [E4|E4]; cbn [negb andb]; repeat (case_match; try done); intros [= <-];
    rewrite ?andb_false_iff, ?orb_false_iff in *; naive_solver.
Qed.

Lemma not_dle a b : isnan a = false -> isnan b = false -> dle a b = false -> dle b a = true.
Proof.
  intros Ha Hb Hab. apply dle_spec; [done|done|]. intros Hk. apply not_true_iff_false in Hab. apply Hab.
  apply dle_spec; [done|done|]. intros Hk'. apply (klt_irrefl _ (klt_trans _ _ _ Hk Hk')).
Qed.

(** Members of other names keep their scores. *)
Lemma score_of_cons n m ms : score_of n (m :: ms) = if decide (m.2 = n) then Some m.1 else score_of n ms.
Proof.
  unfold score_of, find_member_at. cbn [list_find]. case_decide; [done|]. by destruct (list_find _ ms) as [[i p]|].
Qed.

Lemma score_of_removed n ele ms : n <> ele -> score_of n (zremove ele ms) = score_of n ms.
Proof.
  intros Hne. induction ms as [|m ms IH]; [done|]. unfold zremove. rewrite filter_cons, score_of_cons.
  destruct (decide (m.2 <> ele)) as [H1|H1]; [rewrite score_of_cons; case_decide; [done|exact IH]|].
  rewrite decide_False; [exact IH|]. intros E. apply H1. congruence.
Qed.

Lemma score_of_inserted n s ele ms ms' : zinserted s ele ms ms' -> n <> ele -> score_of n ms' = score_of n ms.
Proof.
  intros (A & B & s' & -> & -> & _) Hne. induction A as [|m A IH]; simpl app; rewrite score_of_cons.
  - by rewrite decide_False by (simpl; congruence).
  - rewrite (score_of_cons n m (A ++ B)). case_decide; [done|exact IH].
Qed.

Lemma score_of_found ele ms s : score_of ele ms = Some s -> exists i m, find_member_at ele ms = Some (i, m) /\ m.1 = s /\ m ∈ ms.
Proof.
  unfold score_of. destruct (find_member_at ele ms) as [[i m]|] eqn:E; [|done]. intros [= <-]. exists i, m. split_and!; try done.
  apply list_find_Some in E as (Hi & _). by eapply list_elem_of_lookup_2.
Qed.

(** What the options promise of the members before and after. *)
Record zadd_options (in_flags : Z) (ele : list Z) (ms : list member) (ret : bool) (flags : Z) (ms' : list member) : Prop := {
  opt_error : ret = false <-> flags = ZADD_OUT_NAN;
  opt_error_same : ret = false -> ms' = ms;
  opt_others n : n <> ele -> score_of n ms' = score_of n ms;
  opt_nx : Z.land in_flags ZADD_IN_NX <> 0 -> ele ∈ ms.*2 -> ms' = ms;
  opt_xx : Z.land in_flags ZADD_IN_XX <> 0 -> ele ∉ ms.*2 -> ms' = ms;
  opt_gt s : Z.land in_flags ZADD_IN_GT <> 0 -> score_of ele ms = Some s -> exists s', score_of ele ms' = Some s' /\ dle s s' = true;
  opt_lt s : Z.land in_flags ZADD_IN_LT <> 0 -> score_of ele ms = Some s -> exists s', score_of ele ms' = Some s' /\ dle s' s = true;
}.

Lemma options_same in_flags ele ms ret flags :
  Forall (fun m : member => isnan m.1 = false) ms -> (ret = false <-> flags = ZADD_OUT_NAN) -> zadd_options in_flags ele ms ret flags ms.
Proof.
  intros Hms He. split; try done.
  all: intros s _ Hs; exists s; split; [done|]; destruct (score_of_found _ _ _ Hs) as (i & m & _ & <- & Hm);
    apply dle_refl; by eapply Forall_forall in Hms.
Qed.

Lemma zadd_update_stop in_flags score cur ret flags :
  zadd_update in_flags score cur = inl (ret, flags) -> ret = false <-> flags = ZADD_OUT_NAN.
Proof. unfold zadd_update. repeat (case_match; try done); intros [= <- <-]; done. Qed.

Lemma dle_key a b c : isnan a = false -> isnan b = false -> isnan c = false -> SkiplistOrder.dkey b = SkiplistOrder.dkey c ->
  (dle a b = true -> dle a c = true) /\ (dle b a = true -> dle c a = true).
Proof. intros Ha Hb Hc E. rewrite !dle_spec by done. by rewrite E. Qed.

Lemma options_updated in_flags score ele ms i m s ms' :
  isnan score = false -> Forall (fun m : member => isnan m.1 = false) ms ->
  find_member_at ele ms = Some (i, m) -> zadd_update in_flags score m.1 = inr s ->
  zinserted s ele (zremove ele ms) ms' -> zadd_options in_flags ele ms true ZADD_OUT_UPDATED ms'.
Proof.
  intros Hn Hms Hf Hu Hins. destruct (zadd_update_bounds _ _ _ _ Hu) as (H1 & H2 & H3).
  pose proof (zadd_update_number _ _ _ _ Hn Hu) as Hsn. pose proof Hf as (Hi & Hme & _)%list_find_Some.
  destruct (inserted_score _ _ _ _ Hins (removed_absent ele ms)) as (s' & Hs' & Hk & Hn').
  assert (isnan m.1 = false) as Hmn by (eapply (Forall_lookup_1 _ _ _ _ Hms Hi)).
  assert (score_of ele ms = Some m.1) as Hsc by (unfold score_of; by rewrite Hf).
  destruct (dle_key m.1 s s' Hmn Hsn Hn' (eq_sym Hk)) as [K1 K2].
  split; try done.
  - intros n Hne. rewrite (score_of_inserted n _ _ _ _ Hins Hne). by apply score_of_removed.
  - intros _ Hout. exfalso. apply Hout. apply list_elem_of_fmap. exists m. split; [done|]. by eapply list_elem_of_lookup_2.
  - intros c Hg. rewrite Hsc. intros [= <-]. exists s'. split; [done|]. by apply K1, not_dle, H2.
  - intros c Hl. rewrite Hsc. intros [= <-]. exists s'. split; [done|]. by apply K2, not_dle, H3.
Qed.

Lemma options_spec in_flags score ele ms ret flags ns ms' :
  Forall (fun m : member => isnan m.1 = false) ms ->
  zadd_step in_flags score ele ms (ret, flags, ns) ms' -> zadd_options in_flags ele ms ret flags ms'.
Proof.
  intros Hms Hs. inversion Hs; subst; try (by apply options_same); try (by eapply options_updated).
  - apply options_same; [done|]. by eapply zadd_update_stop.
  - split; try done.
    + intros n Hne. by eapply score_of_inserted.
    + intros c _ Hc. destruct (score_of_found _ _ _ Hc) as (i & m & Hf & _). by rewrite find_absent in Hf.
    + intros c _ Hc. destruct (score_of_found _ _ _ Hc) as (i & m & Hf & _). by rewrite find_absent in Hf.
Qed.

(** ** The properties *)

Section Claims.
Context `{Allocator} `{NodeAllocator} `{T : DoubleText} `{!DoubleTextOk T}.
Context (hash : list Z -> Z) (Hhash : forall k, 0 <= hash k < 2 ^ 64) (resize : dictResizeEnable).
Context (max_entries max_value : Z).
Notation ZsetView := (ZsetView hash Hhash).

Lemma view_numbers o ms : ZsetView o ms -> Forall (fun m : member => isnan m.1 = false) ms.
Proof.
  destruct o as [zl|zs]; intros (l & Hr & <-); rewrite Forall_fmap.
  - eapply Forall_impl; [exact (zz_pairs _ _ Hr)|]. intros p Hp. apply Hp.
  - eapply Forall_impl; [exact (zr_nodes _ _ _ (zi_list _ _ _ _ Hr))|]. intros x Hx. apply Hx.
Qed.

(** C10: zsetAdd on a sorted set in either encoding (below 2^58 members, a name of fewer than 2^31
    bytes, a listpack with room for it below 2^32 bytes), for any combination of options,
    returns, reports and does what the ordered set of members says: NaN refused; an existing
    member kept under NX, refused when INCR makes its sum NaN, kept when GT or LT does not hold
    of the new score, and else moved to the place of the new score, the sum under INCR; a
    missing one inserted at its place or skipped under XX. A listpack becomes a skip list
    exactly when a member is added to it that makes it too large; no assert fails and no access
    is out of bounds. *)
Theorem zsetAdd_correct o ms score ele in_flags rss :
  ZsetView o ms -> zlen ms < 2 ^ 58 -> Forall is_byte ele -> zlen ele < 2 ^ 31 -> room hash o ele ->
  valid_binary 53 1024 score = true ->
  (forall s, score_of ele ms = Some s -> valid_binary 53 1024 (dadd score s) = true) ->
  Forall draw_ok rss -> (length ms < length rss)%nat ->
  exists o' ret flags ns rss' ms',
    zsetAdd hash resize max_entries max_value o score ele in_flags rss = Some (o', ret, flags, ns, rss') /\
    zadd_spec in_flags score ele ms (ret, flags, ns) ms' /\ ZsetView o' ms' /\
    encoding_after hash max_entries max_value o (zlen ms) ele flags o'.
Proof.
  intros Hvw Hlen Hb Hl Hroom Hv Hvs Hd Hr.
  destruct (add_spec hash Hhash resize max_entries max_value o ms score ele in_flags rss Hvw Hlen Hb Hl Hroom Hv Hvs Hd Hr)
    as (o' & ret & flags & ns & rss' & ms' & E & Hs & Hvw' & He).
  exists o', ret, flags, ns, rss', ms'. split; [done|]. split; [|done]. by eapply zadd_step_spec; [eapply view_numbers|].
Qed.

(** C11: zsetAdd returns 0 exactly when it reports NaN, and then nothing has changed; members of
    other names keep their scores; NX leaves an existing member alone, XX adds none, under GT
    the score never goes down and under LT never up. *)
Theorem zsetAdd_options_respected o ms score ele in_flags rss :
  ZsetView o ms -> zlen ms < 2 ^ 58 -> Forall is_byte ele -> zlen ele < 2 ^ 31 -> room hash o ele ->
  valid_binary 53 1024 score = true ->
  (forall s, score_of ele ms = Some s -> valid_binary 53 1024 (dadd score s) = true) ->
  Forall draw_ok rss -> (length ms < length rss)%nat ->
  exists o' ret flags ns rss' ms',
    zsetAdd hash resize max_entries max_value o score ele in_flags rss = Some (o', ret, flags, ns, rss') /\
    zadd_options in_flags ele ms ret flags ms' /\ ZsetView o' ms'.
Proof.
  intros Hvw Hlen Hb Hl Hroom Hv Hvs Hd Hr.
  destruct (add_spec hash Hhash resize max_entries max_value o ms score ele in_flags rss Hvw Hlen Hb Hl Hroom Hv Hvs Hd Hr)
    as (o' & ret & flags & ns & rss' & ms' & E & Hs & Hvw' & _).
  exists o', ret, flags, ns, rss', ms'. split; [done|]. split; [|done]. eapply options_spec; [by eapply view_numbers|exact Hs].
Qed.

(** zsetDel removes exactly the member of the given name, from the listpack, or from the hash
    table and the skip list together, and answers whether it was there. *)
Theorem zsetDel_correct o ms ele :
  ZsetView o ms -> zlen ms < 2 ^ 59 ->
  exists o', zsetDel hash resize o ele = Some (o', bool_decide (ele ∈ ms.*2)) /\ ZsetView o' (zremove ele ms).
Proof. apply del_spec. Qed.

(** C12: zsetLength, zsetScore and zsetRank of a non-empty sorted set answer the number of members,
    the score of the name or C_ERR, and the index of the member from either end or -1, alike for
    both encodings. *)
Theorem zset_queries_correct o ms ele rev :
  ZsetView o ms -> zlen ms < 2 ^ 59 -> ms <> [] ->
  (exists o', zsetLength hash o = Some (o', zlen ms) /\ ZsetView o' ms) /\
  (exists o', zsetScore hash resize o ele = Some (o', score_of ele ms) /\ ZsetView o' ms) /\
  (exists o', zsetRank hash resize o ele rev = Some (o',
     (fun im => (if rev : bool then zlen ms - 1 - Z.of_nat im.1 else Z.of_nat im.1, im.2.1)) <$> find_member_at ele ms) /\
     ZsetView o' ms).
Proof.
  intros Hvw Hlen Hne. split_and!.
  - destruct (length_spec hash Hhash o ms Hvw) as (o' & E & Hvw' & _). eauto.
  - by apply score_spec.
  - by apply rank_spec.
Qed.

(** a new sorted set is empty in the encoding chosen by the hints, and zsetConvert gives an
    object of the target encoding with the same names in the same order and equal scores. *)
Theorem zset_create_convert_correct o ms enc rss size_hint val_len_hint :
  ZsetView o ms -> zlen ms < 2 ^ 59 -> Forall draw_ok rss -> (length ms <= length rss)%nat ->
  Forall storable ms -> 7 + weight ms <= UINT32_MAX -> 0 <= size_hint < 2 ^ 64 ->
  (exists o0, zsetTypeCreate hash max_entries max_value size_hint val_len_hint = Some o0 /\ ZsetView o0 []) /\
  (exists o' rss' ms', zsetConvert hash resize o enc rss = Some (o', rss') /\ ZsetView o' ms' /\ Forall2 same_key ms' ms /\
     match o' with ObjSkiplist _ _ => enc = true | ObjListpack _ _ => enc = false end).
Proof.
  intros Hvw Hlen Hd Hr Hst Hw Hs. split; [by apply create_spec|by apply convert_spec].
Qed.

(** the first and the last pair of a score range, and of a name range among equal scores, are
    found, and NULL is returned exactly when no pair is in the range. *)
Theorem zzl_ranges_correct zl ps range lrange :
  ZzRepr zl ps -> isnan (r_min range) = false -> isnan (r_max range) = false ->
  (forall p q, p ∈ ps -> q ∈ ps -> SkiplistOrder.dkey (ent_score p.2) = SkiplistOrder.dkey (ent_score q.2)) ->
  let ptr (i : nat) := ent_off (zz_ents ps) (2 * i) in
  (exists r, zzlFirstInRange zl range = Some (ptr <$> r) /\ is_first (fun p => in_score range (pmem p)) ps r) /\
  (exists r, zzlLastInRange zl range = Some (ptr <$> r) /\ is_last (fun p => in_score range (pmem p)) ps r) /\
  (exists r, zzlFirstInLexRange zl lrange = Some (ptr <$> r) /\ is_first (fun p => in_lex lrange (pmem p)) ps r) /\
  (exists r, zzlLastInLexRange zl lrange = Some (ptr <$> r) /\ is_last (fun p => in_lex lrange (pmem p)) ps r).
Proof.
  intros HR Hlo Hhi Heq ptr. destruct (score_interval zl ps HR range Hlo Hhi) as (k1 & k2 & HI).
  destruct (lex_interval zl ps HR lrange Heq) as (l1 & l2 & HJ).
  destruct (zzlFirstInRange_at zl ps HR range k1 k2 HI) as [-> ->]. destruct (zzlFirstInLexRange_at zl ps HR lrange l1 l2 HJ) as [-> ->].
  destruct (hit_first ps _ _ _ _ _ HI) as (r1 & -> & F1). destruct (hit_last ps _ _ _ _ _ HI) as (r2 & -> & F2).
  destruct (hit_first ps _ _ _ _ _ HJ) as (r3 & -> & F3). destruct (hit_last ps _ _ _ _ _ HJ) as (r4 & -> & F4).
  split; [by exists r1|]. split; [by exists r2|]. split; [by exists r3|by exists r4].
Qed.

(** the range deletions of a sorted set in a listpack, by score, by name among equal scores and
    by rank, remove exactly the pairs of the range, in one pass over the shifting block, and
    count them; the other pairs stay a sorted listpack. *)
Theorem zzl_delete_ranges_correct zl ps range lrange start stop :
  ZzRepr zl ps -> isnan (r_min range) = false -> isnan (r_max range) = false ->
  (forall p q, p ∈ ps -> q ∈ ps -> SkiplistOrder.dkey (ent_score p.2) = SkiplistOrder.dkey (ent_score q.2)) ->
  1 <= start -> start <= stop -> stop <= zlen ps ->
  (exists zl', zzlDeleteRangeByScore zl range = Some (zl', zlen (filter (fun p => in_score range (pmem p) = true) ps)) /\
     ZzRepr zl' (filter (fun p => in_score range (pmem p) = false) ps)) /\
  (exists zl', zzlDeleteRangeByLex zl lrange = Some (zl', zlen (filter (fun p => in_lex lrange (pmem p) = true) ps)) /\
     ZzRepr zl' (filter (fun p => in_lex lrange (pmem p) = false) ps)) /\
  (exists zl', zzlDeleteRangeByRank zl start stop = Some (zl', stop - start + 1) /\
     ZzRepr zl' (take (Z.to_nat (start - 1)) ps ++ drop (Z.to_nat stop) ps)).
Proof.
  intros HR Hlo Hhi Heq H1 H2 H3. split; [by apply delete_score|]. split; [by apply delete_lex|by apply delete_rank].
Qed.
End Claims.

(** ** A text form of doubles, and a sorted set *)

Module ZsetSample.

(** The text is a mark, the sign, and the mantissa and the exponent in bytes. *)
Definition dtoa (d : double) : list Z :=
  match d with
  | S754_finite s m e => 120 :: (if s then 1 else 0) :: le_split 7 (Zpos m) ++ le_split 2 (e + 2048)
  | _ => []
  end.

Definition parse (s : list Z) : double :=
  match s with
  | 120 :: sg :: t => S754_finite (sg =? 1) (Z.to_pos (le_join (take 7 t))) (le_join (drop 7 t) - 2048)
  | [105; 110; 102] => S754_infinity false
  | [45; 105; 110; 102] => S754_infinity true
  | _ => match string2ll s (zlen s) with Some (Some v) => double_of_int v | _ => S754_nan end
  end.

#[export] Instance text : DoubleText := {| fpconv_dtoa := dtoa; strtod := parse |}.

Lemma bounded_range m e : bounded 53 1024 m e = true -> Zpos m < 2 ^ 53 /\ -1074 <= e <= 971.
Proof.
  unfold bounded, canonical_mantissa, fexp, emin. intros [H1%Zeq_bool_eq H2%Z.leb_le]%andb_true_iff.
  assert (Zpos (digits2_pos m) <= 53 /\ -1074 <= e) as [Hd He] by lia. split; [|lia].
  assert (Hs : forall p, Zpos p < 2 ^ Zpos (digits2_pos p)).
  { clear. induction p as [p IH|p IH|]; cbn [digits2_pos]; [| |done]; rewrite Pos2Z.inj_succ, Z.pow_succ_r; lia. }
  pose proof (Hs m). pose proof (Z.pow_le_mono_r 2 _ _ ltac:(lia) Hd). lia.
Qed.

Lemma parse_int s v : IsDec s v -> in_int64 v -> parse s = double_of_int v.
Proof.
  intros Hs Hv. pose proof (string2ll_spec s []) as (o & E & Ho). rewrite app_nil_r in E.
  destruct (Ho v) as [_ Hv']. rewrite (Hv' (conj Hs Hv)) in E.
  assert (forall c t, s = c :: t -> c <> 120 /\ c <> 105 /\ (c = 45 -> exists d u, t = d :: u /\ d <> 105)) as Hh.
  { intros c t ->. apply IsDec_head in Hs as [(-> & -> & _)|[[? _]|(-> & _ & d & u & -> & ?)]]; split_and!; try lia.
    intros _. exists d, u. split; [done|lia]. }
  unfold parse. repeat (case_match; subst; try (by rewrite E)).
  all: destruct (Hh _ _ eq_refl) as (? & ? & H45); try done.
Qed.

#[export] Instance text_ok : DoubleTextOk text.
Proof.
  split.
  - intros [| | |s m e]; try constructor; [done|]. constructor; [destruct s; done|]. apply Forall_app. split; apply le_split_bytes.
  - intros [| | |s m e] _; done.
  - intros s m e Hb. apply bounded_range in Hb as [Hm He]. cbn [strtod fpconv_dtoa text]. unfold dtoa, parse.
    rewrite take_app_length', drop_app_length' by done. rewrite !le_join_split. rewrite !Z.mod_small by lia.
    f_equal; [by destruct s|lia].
  - done.
  - done.
  - intros s v. apply parse_int.
Qed.

Definition sum_hash (k : list Z) : Z := u64 (foldr Z.add 0 k).
Lemma sum_hash_range k : 0 <= sum_hash k < 2 ^ 64.
Proof. by apply wrapu_range. Qed.

Definition pairs : list (list Z * lp_ent) := [([97], EInt 1); ([98], EInt 2)].
Definition members : list member := [(one, [97]); (two, [98])].
Definition zl : list Z := lp_block 4 (zz_ents pairs) [].
Definition obj : zobj sum_hash := ObjListpack sum_hash zl.
Definition draws : list (list Z) := [draw2; draw2; draw2].

Lemma pairs_repr : ZzRepr zl pairs.
Proof.
  split.
  - exists 4, []. split; [done|]. constructor; [|by vm_compute|by left].
    repeat (constructor; [simpl; unfold is_byte; unfold_limits; first [lia | repeat constructor; lia]|]). constructor.
  - constructor; [|constructor; [|constructor]]; split_and!; try done; by repeat constructor.
  - change (pmem <$> pairs) with members. constructor; [by repeat constructor|]. constructor; [|constructor]. left. by apply dlt_spec.
  - by repeat constructor; set_solver.
Qed.

Lemma view : ZsetView sum_hash sum_hash_range obj members.
Proof. exists pairs. split; [exact pairs_repr|reflexivity]. Qed.

(** Two names of one score. *)
Definition twins : list (list Z * lp_ent) := [([97], EInt 1); ([98], EInt 1)].
Definition twins_zl : list Z := lp_block 4 (zz_ents twins) [].

Lemma twins_repr : ZzRepr twins_zl twins.
Proof.
  split.
  - exists 4, []. split; [done|]. constructor; [|by vm_compute|by left].
    repeat (constructor; [simpl; unfold is_byte; unfold_limits; first [lia | repeat constructor; lia]|]). constructor.
  - constructor; [|constructor; [|constructor]]; split_and!; try done; by repeat constructor.
  - change (pmem <$> twins) with [(one, [97]); (one, [98])]. constructor; [by repeat constructor|]. constructor; [|constructor]. right. by split.
  - by repeat constructor; set_solver.
Qed.

Lemma twins_equal p q : p ∈ twins -> q ∈ twins -> SkiplistOrder.dkey (ent_score p.2) = SkiplistOrder.dkey (ent_score q.2).
Proof.
  assert (forall p, p ∈ twins -> ent_score p.2 = one) as Ht.
  { intros x Hx. apply elem_of_cons in Hx as [-> | Hx]; [done|]. apply elem_of_cons in Hx as [-> | Hx]; [done|]. by apply elem_of_nil in Hx. }
  intros Hp Hq. by rewrite (Ht p Hp), (Ht q Hq).
Qed.

Definition upto_a : zlexrangespec := {| l_min := LexMin; l_max := LexStr [97]; l_minex := true; l_maxex := false |}.

Lemma draws_ok : Forall draw_ok draws.
Proof. repeat constructor; by eexists. Qed.
End ZsetSample.

Section Witnesses.
Import ZsetSample.
Notation view_of := (ZsetView sum_hash sum_hash_range).

(** Raising the score of a member, and adding one to a listpack that is full. *)
Lemma zsetAdd_correct_witness :
  (exists o' ret flags ns rss' ms', zsetAdd sum_hash DICT_RESIZE_ENABLE 2 64 obj five [97] ZADD_IN_INCR draws =
     Some (o', ret, flags, ns, rss') /\ zadd_spec ZADD_IN_INCR five [97] members (ret, flags, ns) ms' /\ view_of o' ms' /\ encoding_after sum_hash 2 64 obj 2 [97] flags o') /\
  (exists o' ret flags ns rss' ms', zsetAdd sum_hash DICT_RESIZE_ENABLE 2 64 obj five [99] 0 draws =
     Some (o', ret, flags, ns, rss') /\ zadd_spec 0 five [99] members (ret, flags, ns) ms' /\ view_of o' ms' /\ encoding_after sum_hash 2 64 obj 2 [99] flags o').
Proof.
  split; apply zsetAdd_correct; try done; try exact view; try exact draws_ok; try (by repeat constructor).
  all: try (intros s [= <-]; vm_compute; reflexivity).
Defined.

Lemma zsetAdd_options_witness :
  exists o' ret flags ns rss' ms', zsetAdd sum_hash DICT_RESIZE_ENABLE 2 64 obj one [98] ZADD_IN_GT draws =
     Some (o', ret, flags, ns, rss') /\ zadd_options ZADD_IN_GT [98] members ret flags ms' /\ view_of o' ms'.
Proof.
  apply zsetAdd_options_respected; try done; try exact view; try exact draws_ok; try (by repeat constructor).
  all: try (intros s [= <-]; vm_compute; reflexivity).
Defined.

Lemma zsetDel_correct_witness :
  exists o', zsetDel sum_hash DICT_RESIZE_ENABLE obj [97] = Some (o', true) /\ view_of o' [(two, [98])].
Proof. exact (zsetDel_correct sum_hash sum_hash_range DICT_RESIZE_ENABLE obj members [97] view eq_refl). Defined.

Lemma zset_queries_witness :
  (exists o', zsetLength sum_hash obj = Some (o', 2) /\ view_of o' members) /\
  (exists o', zsetScore sum_hash DICT_RESIZE_ENABLE obj [98] = Some (o', Some two) /\ view_of o' members) /\
  (exists o', zsetRank sum_hash DICT_RESIZE_ENABLE obj [98] true = Some (o', Some (0, two)) /\ view_of o' members).
Proof.
  exact (zset_queries_correct sum_hash sum_hash_range DICT_RESIZE_ENABLE obj members [98] true view eq_refl ltac:(done)).
Defined.

Lemma zzl_ranges_witness :
  exists r, zzlLastInLexRange twins_zl upto_a = Some ((fun i => ent_off (zz_ents twins) (2 * i)) <$> r) /\
    is_last (fun p => in_lex upto_a (pmem p)) twins r.
Proof.
  exact (proj2 (proj2 (proj2 (zzl_ranges_correct twins_zl twins demo_half_open upto_a twins_repr eq_refl eq_refl twins_equal)))).
Defined.

Lemma zzl_delete_ranges_witness :
  exists zl', zzlDeleteRangeByLex twins_zl upto_a = Some (zl', 1) /\ ZzRepr zl' [([98], EInt 1)].
Proof.
  exact (proj1 (proj2 (zzl_delete_ranges_correct twins_zl twins demo_half_open upto_a 1 2 twins_repr eq_refl eq_refl twins_equal
    ltac:(lia) ltac:(lia) ltac:(vm_compute; discriminate)))).
Defined.

Lemma zset_convert_witness :
  exists o' rss' ms', zsetConvert sum_hash DICT_RESIZE_ENABLE obj true draws = Some (o', rss') /\ view_of o' ms' /\
    Forall2 same_key ms' members /\ match o' with ObjSkiplist _ _ => true = true | ObjListpack _ _ => true = false end.
Proof.
  refine (proj2 (zset_create_convert_correct sum_hash sum_hash_range DICT_RESIZE_ENABLE 2 64 obj members true draws 0 0
    view eq_refl draws_ok _ _ _ _)); try done; try (simpl; lia).
  repeat constructor; done.
Defined.
End Witnesses.
