(* ===== verification/Split.v ===== *)
(** * String headers, splitting and quoting of argument lines ([sds.c])

    The header types of strings and which one a length asks for.
    [sdssplitargs] reads a C string, the bytes of the list followed by a zero byte; a read
    behind that byte is [None].  [sdscatrepr] quotes a string.  Character classes are those of
    the C locale. *)
From S2P Require Import Prelude.

(** ** String headers ([sds.h], [sds.c]) *)

Inductive sdstype := SDS_TYPE_5 | SDS_TYPE_8 | SDS_TYPE_16 | SDS_TYPE_32 | SDS_TYPE_64.

#[export] Instance sdstype_eq_dec : EqDecision sdstype.
Proof. solve_decision. Defined.

Definition sdsHdrSize (t : sdstype) : Z :=
  match t with SDS_TYPE_5 => 1 | SDS_TYPE_8 => 3 | SDS_TYPE_16 => 5 | SDS_TYPE_32 => 9 | SDS_TYPE_64 => 17 end.

Definition sdsReqType (string_size : Z) : sdstype :=
  if string_size <? 2 ^ 5 then SDS_TYPE_5
  else if string_size <? 2 ^ 8 then SDS_TYPE_8
  else if string_size <? 2 ^ 16 then SDS_TYPE_16
  else if string_size <? 2 ^ 32 then SDS_TYPE_32
  else SDS_TYPE_64.

Definition is_type5 (t : sdstype) : bool := bool_decide (t = SDS_TYPE_5).

(** ** Argument lines *)

(** [line[p]]. *)
Definition rd (line : list Z) (p : Z) : option Z := if p =? zlen line then Some 0 else getb line p.

Definition isspace (c : Z) : bool := (c =? 32) || ((9 <=? c) && (c <=? 13)).
Definition isprint (c : Z) : bool := (32 <=? c) && (c <=? 126).

Definition is_hex_digit (c : Z) : bool :=
  ((48 <=? c) && (c <=? 57)) || ((97 <=? c) && (c <=? 102)) || ((65 <=? c) && (c <=? 70)).

Definition hex_digit_to_int (c : Z) : Z :=
  if (48 <=? c) && (c <=? 57) then c - 48
  else if (97 <=? c) && (c <=? 102) then c - 87
  else if (65 <=? c) && (c <=? 70) then c - 55
  else 0.

(** The flags [inq] and [insq]. *)
Inductive quoting := Plain | InDouble | InSingle.

(** The character that follows a backslash. *)
Definition unescape (c : Z) : Z :=
  if c =? 110 then 10 else if c =? 114 then 13 else if c =? 116 then 9 else if c =? 98 then 8 else if c =? 97 then 7 else c.

(** One turn of the loop over the characters of a token: the position at which the turn
    ends, before the pointer moves on, the token so far, the quoting and [done]; [None]
    inside for [goto err]. *)
Definition token_turn (line : list Z) (p : Z) (current : list Z) (q : quoting) :
    option (option (Z * list Z * quoting * bool)) :=
  c ← rd line p;
  match q with
  | InDouble =>
      hex ← (if c =? 92 then
               c1 ← rd line (p + 1);
               if c1 =? 120 then
                 c2 ← rd line (p + 2);
                 if is_hex_digit c2 then c3 ← rd line (p + 3); Some (if is_hex_digit c3 then Some (c2, c3) else None)
                 else Some None
               else Some None
             else Some None);
      match hex with
      | Some (c2, c3) =>
          Some (Some (p + 3, current ++ [u8 (hex_digit_to_int c2 * 16 + hex_digit_to_int c3)], InDouble, false))
      | None =>
          c1 ← (if c =? 92 then rd line (p + 1) else Some 0);
          if (c =? 92) && negb (c1 =? 0) then Some (Some (p + 1, current ++ [unescape c1], InDouble, false))
          else if c =? 34 then
            n ← rd line (p + 1);
            if negb (n =? 0) && negb (isspace n) then Some None else Some (Some (p, current, InDouble, true))
          else if c =? 0 then Some None
          else Some (Some (p, current ++ [c], InDouble, false))
      end
  | InSingle =>
      c1 ← (if c =? 92 then rd line (p + 1) else Some 0);
      if (c =? 92) && (c1 =? 39) then Some (Some (p + 1, current ++ [39], InSingle, false))
      else if c =? 39 then
        n ← rd line (p + 1);
        if negb (n =? 0) && negb (isspace n) then Some None else Some (Some (p, current, InSingle, true))
      else if c =? 0 then Some None
      else Some (Some (p, current ++ [c], InSingle, false))
  | Plain =>
      Some (Some (if (c =? 32) || (c =? 10) || (c =? 13) || (c =? 9) || (c =? 0) then (p, current, Plain, true)
                  else if c =? 34 then (p, current, InDouble, false)
                  else if c =? 39 then (p, current, InSingle, false)
                  else (p, current ++ [c], Plain, false)))
  end.

(** The loop over the characters of a token: the position behind it and the token. *)
Definition token_body (line : list Z) (st : Z * list Z * quoting) : option (Z * list Z * quoting + option (Z * list Z)) :=
  let '(p, current, q) := st in
  turn ← token_turn line p current q;
  match turn with
  | None => Some (inr None)
  | Some (p, current, q, done) =>
      c ← rd line p;
      let p := if negb (c =? 0) then p + 1 else p in
      Some (if (done : bool) then inr (Some (p, current)) else inl (p, current, q))
  end.

Definition blank_body (line : list Z) (p : Z) : option (Z + Z) :=
  c ← rd line p;
  Some (if negb (c =? 0) && isspace c then inl (p + 1) else inr p).

(** The loop over the tokens. *)
Definition split_body (line : list Z) (st : Z * list (list Z)) : option (Z * list (list Z) + option (list (list Z))) :=
  let '(p, vector) := st in
  p ← loop (S (length line)) (blank_body line) p;
  c ← rd line p;
  if negb (c =? 0) then
    tok ← loop (S (length line)) (token_body line) (p, [], Plain);
    match tok with
    | None => Some (inr None)
    | Some (p, current) => Some (inl (p, vector ++ [current]))
    end
  else Some (inr (Some vector)).

(** The tokens, or [None] inside for NULL. *)
Definition sdssplitargs (line : list Z) : option (option (list (list Z))) :=
  loop (S (S (length line))) (split_body line) (0, []).

(** ** Quoting *)

Definition hex_char (d : Z) : Z := if d <? 10 then 48 + d else 87 + d.

Definition repr_char (c : Z) : list Z :=
  if (c =? 92) || (c =? 34) then [92; c]
  else if c =? 10 then [92; 110] else if c =? 13 then [92; 114] else if c =? 9 then [92; 116]
  else if c =? 7 then [92; 97] else if c =? 8 then [92; 98]
  else if isprint c then [c]
  else [92; 120; hex_char (c / 16); hex_char (c mod 16)].

Definition sdscatrepr (s p : list Z) : list Z := s ++ [34] ++ concat (repr_char <$> p) ++ [34].

(** ** Splitting and quoting: safety and round trip *)

(** ** Reads *)

Lemma rd_in line p : 0 <= p <= zlen line -> exists c, rd line p = Some c /\ (c <> 0 -> p < zlen line).
Proof.
  intros Hp. unfold rd. destruct (Z.eqb_spec p (zlen line)) as [->|Hne]; [by exists 0|].
  unfold getb. rewrite (proj2 (Z.leb_le 0 p)) by lia. destruct (lookup_lt_is_Some_2 line (Z.to_nat p)) as [c ->];
    [unfold zlen in *; lia|]. exists c. split; [done|lia].
Qed.

Lemma rd_app pre c post p : p = zlen pre -> rd (pre ++ c :: post) p = Some c.
Proof.
  intros ->. unfold rd. rewrite zlen_app, zlen_cons. replace (_ =? _) with false by (zlen_saturate; lia).
  unfold getb. rewrite (proj2 (Z.leb_le 0 _)) by apply zlen_nonneg. unfold zlen. rewrite Nat2Z.id. by apply list_lookup_middle.
Qed.

Lemma rd_end line p : p = zlen line -> rd line p = Some 0.
Proof. intros ->. unfold rd. by rewrite Z.eqb_refl. Qed.

(** ** Every line is handled without a read behind its end *)

Ltac read_at line p :=
  let c := fresh "c" in let E := fresh "E" in let L := fresh "L" in
  destruct (rd_in line p) as (c & E & L); [lia|]; rewrite E; cbn [mbind option_bind].

(** A turn ends inside the line, and goes on only past a character. *)
Lemma token_turn_safe line p current q :
  0 <= p <= zlen line ->
  exists r, token_turn line p current q = Some r /\
    match r with
    | None => True
    | Some (p', _, _, done) => p <= p' <= zlen line /\ (done = false -> exists c, rd line p' = Some c /\ c <> 0) /\
        (done = true -> q = Plain -> exists c, rd line p = Some c /\ (isspace c = true \/ c = 0))
    end.
Proof.
  intros Hp. unfold token_turn. read_at line p. destruct q.
  - eexists. split; [done|]. unfold isspace.
    destruct (Z.eqb_spec c 32), (Z.eqb_spec c 10), (Z.eqb_spec c 13), (Z.eqb_spec c 9), (Z.eqb_spec c 0); simpl; subst;
      try (split_and!; [lia|lia|done|]; intros _ _; eexists; split; [done|]; lia || tauto).
    destruct (Z.eqb_spec c 34); [|destruct (Z.eqb_spec c 39)]; (split_and!; [lia|lia| |done]); eauto.
  - destruct (Z.eqb_spec c 92) as [->|H92].
    + specialize (L ltac:(done)). read_at line (p + 1).
      destruct (c =? 120) eqn:E120.
      * apply Z.eqb_eq in E120 as ->. specialize (L0 ltac:(done)). read_at line (p + 2).
        destruct (is_hex_digit c) eqn:Eh; cbn [mbind option_bind].
        -- assert (c <> 0) as Hc by (intros ->; done). specialize (L1 Hc). read_at line (p + 3).
           destruct (is_hex_digit c0) eqn:Eh'; cbn [mbind option_bind].
           ++ assert (c0 <> 0) as Hc0 by (intros ->; done). eexists. split; [done|]. simpl. split_and!; [lia|lia| |done]. eauto.
           ++ eexists. split; [done|]. simpl. split_and!; [lia|lia| |done]. eauto.
        -- eexists. split; [done|]. simpl. split_and!; [lia|lia| |done]. eauto.
      * destruct (Z.eqb_spec c 0) as [->|Hc]; simpl.
        -- eexists. split; [done|]. split_and!; [lia|lia| |done]. eauto.
        -- eexists. split; [done|]. split_and!; [lia|lia| |done]. eauto.
    + cbn [mbind option_bind andb]. destruct (Z.eqb_spec c 34) as [->|H34].
      * specialize (L ltac:(done)). read_at line (p + 1). destruct (negb _ && negb _); eexists; (split; [done|]); [done|].
        split_and!; [lia|lia|done|done].
      * destruct (Z.eqb_spec c 0) as [->|Hc]; eexists; (split; [done|]); [done|]. split_and!; [lia|lia| |done]. eauto.
  - destruct (Z.eqb_spec c 92) as [->|H92].
    + specialize (L ltac:(done)). read_at line (p + 1). destruct (Z.eqb_spec c 39) as [->|Hc]; simpl.
      * eexists. split; [done|]. split_and!; [lia|lia| |done]. exists 39. done.
      * eexists. split; [done|]. split_and!; [lia|lia| |done]. eauto.
    + cbn [mbind option_bind andb]. destruct (Z.eqb_spec c 39) as [->|H34].
      * specialize (L ltac:(done)). read_at line (p + 1). destruct (negb _ && negb _); eexists; (split; [done|]); [done|].
        split_and!; [lia|lia|done|done].
      * destruct (Z.eqb_spec c 0) as [->|Hc]; eexists; (split; [done|]); [done|]. split_and!; [lia|lia| |done]. eauto.
Qed.

Lemma token_loop_safe line p0 c0 :
  0 <= p0 -> rd line p0 = Some c0 -> c0 <> 0 -> isspace c0 = false -> p0 < zlen line ->
  exists r, loop (S (length line)) (token_body line) (p0, [], Plain) = Some r /\
    match r with None => True | Some (p, _) => p0 < p <= zlen line end.
Proof.
  intros Hp0 E0 Hc0 Hs0 Hlt.
  apply (loop_ok _ (fun st => let '(p, _, q) := st in p0 <= p <= zlen line /\ (p = p0 -> q = Plain)) _
           (fun st => let '(p, _, _) := st in zlen line - p)); [|split; [lia|done]|unfold zlen; lia].
  intros [[p current] q] [Hp Hq]. split; [lia|]. unfold token_body.
  destruct (token_turn_safe line p current q ltac:(lia)) as (r & -> & Hr). cbn [mbind option_bind].
  destruct r as [[[[p' cur'] q'] done]|]; [|right; by eexists]. destruct Hr as (Hp' & Hgo & Hdone).
  destruct (rd_in line p' ltac:(lia)) as (c & Ec & Hc). rewrite Ec. cbn [mbind option_bind]. destruct done.
  - right. eexists. split; [done|]. specialize (Hdone eq_refl).
    destruct (decide (p = p0)) as [->|Hne]; [|destruct (Z.eqb_spec c 0); simpl; lia].
    destruct (Hdone (Hq eq_refl)) as (c' & Ec' & Hc'). rewrite Ec' in E0. injection E0 as <-. destruct Hc'; congruence.
  - left. destruct (Hgo eq_refl) as (c' & Ec' & Hc'). rewrite Ec in Ec'. injection Ec' as <-.
    replace (c =? 0) with false by lia. simpl. eexists. split; [done|]. specialize (Hc Hc'). split; [split; lia|lia].
Qed.

Lemma blank_loop_safe line p0 :
  0 <= p0 <= zlen line ->
  exists p, loop (S (length line)) (blank_body line) p0 = Some p /\ p0 <= p <= zlen line /\
    exists c, rd line p = Some c /\ (c <> 0 -> isspace c = false).
Proof.
  intros Hp0. apply (loop_ok _ (fun p => p0 <= p <= zlen line)
    (fun p => p0 <= p <= zlen line /\ exists c, rd line p = Some c /\ (c <> 0 -> isspace c = false)) (fun p => zlen line - p));
    [|lia|unfold zlen; lia].
  intros p Hp. split; [lia|]. unfold blank_body. destruct (rd_in line p ltac:(lia)) as (c & Ec & Hc). rewrite Ec. cbn [mbind option_bind].
  destruct (Z.eqb_spec c 0) as [->|Hc0]; simpl.
  - right. eexists. split; [done|]. split; [lia|]. by exists 0.
  - destruct (isspace c) eqn:Es; [left|right]; eexists; (split; [done|]); [specialize (Hc Hc0); split; lia|].
    split; [lia|]. eauto.
Qed.

(** Splitting terminates with a result. *)
Lemma sdssplitargs_total line : exists r, sdssplitargs line = Some r.
Proof.
  unfold sdssplitargs.
  destruct (loop_ok (split_body line) (fun st : Z * list (list Z) => 0 <= st.1 <= zlen line)
    (fun _ => True) (fun st => zlen line - st.1)) with (fuel := S (S (length line))) (s := (0, [] : list (list Z))) as (r & -> & _).
  - intros [p vec] Hp. simpl in Hp. split; [simpl; lia|]. unfold split_body.
    destruct (blank_loop_safe line p Hp) as (p1 & -> & Hp1 & c & Ec & Hs). cbn [mbind option_bind]. rewrite Ec. cbn [mbind option_bind].
    destruct (Z.eqb_spec c 0) as [->|Hc]; cbn [negb]; [right; by eexists|].
    destruct (rd_in line p1 ltac:(lia)) as (c' & Ec' & Hlt). rewrite Ec in Ec'. injection Ec' as <-.
    destruct (token_loop_safe line p1 c ltac:(lia) Ec Hc (Hs Hc) (Hlt Hc)) as (r & -> & Hr). cbn [mbind option_bind].
    destruct r as [[p2 cur]|]; [left|right; by eexists]. eexists. split; [done|]. simpl. split; lia.
  - simpl. zlen_saturate. lia.
  - simpl. unfold zlen. lia.
  - by eexists.
Qed.

(** ** Quoted strings are read back *)

Lemma rd_shift pre l k : 0 <= k -> rd (pre ++ l) (zlen pre + k) = rd l k.
Proof.
  intros Hk. unfold rd. rewrite zlen_app. destruct (Z.eqb_spec k (zlen l)) as [->|Hne].
  - by rewrite Z.eqb_refl.
  - replace (_ =? _) with false by lia. unfold getb. zlen_saturate. rewrite !(proj2 (Z.leb_le 0 _)) by lia.
    rewrite lookup_app_r by (unfold zlen; lia). f_equal. unfold zlen. lia.
Qed.
Lemma rd_0 c l : rd (c :: l) 0 = Some c.
Proof. by apply (rd_app [] c l). Qed.
Lemma rd_S c l k : 0 < k -> rd (c :: l) k = rd l (k - 1).
Proof. intros Hk. replace k with (zlen [c] + (k - 1)) at 1 by (change (zlen [c]) with 1; lia). apply (rd_shift [c] l). lia. Qed.

Lemma hex_char_ok d : 0 <= d < 16 -> is_hex_digit (hex_char d) = true /\ hex_digit_to_int (hex_char d) = d.
Proof.
  intros Hd. assert (d = 0 \/ d = 1 \/ d = 2 \/ d = 3 \/ d = 4 \/ d = 5 \/ d = 6 \/ d = 7 \/ d = 8 \/ d = 9 \/ d = 10 \/
    d = 11 \/ d = 12 \/ d = 13 \/ d = 14 \/ d = 15) as Hc by lia.
  repeat destruct Hc as [->|Hc]; subst; done.
Qed.

(** One quoted character. *)
Lemma token_char pre c post cur :
  is_byte c ->
  token_body (pre ++ repr_char c ++ post) (zlen pre, cur, InDouble) =
    Some (inl (zlen (pre ++ repr_char c), cur ++ [c], InDouble)).
Proof.
  intros Hc. unfold is_byte in Hc. unfold token_body, token_turn. rewrite zlen_app.
  assert (H0 : forall l, rd (pre ++ l) (zlen pre) = rd l 0) by (intros l; rewrite <- (Z.add_0_r (zlen pre)) at 1; by apply rd_shift).
  assert (Hk : forall l k, 0 <= k -> rd (pre ++ l) (zlen pre + k) = rd l k) by (intros l k; apply rd_shift).
  rewrite H0. unfold repr_char.
  destruct (Z.eqb_spec c 92) as [->|N1]; [|destruct (Z.eqb_spec c 34) as [->|N2]];
    [| |destruct (Z.eqb_spec c 10) as [->|N3]; [|destruct (Z.eqb_spec c 13) as [->|N4]; [|destruct (Z.eqb_spec c 9) as [->|N5];
      [|destruct (Z.eqb_spec c 7) as [->|N6]; [|destruct (Z.eqb_spec c 8) as [->|N7]; [|destruct (isprint c) eqn:Ep]]]]]];
    cbn [orb app]; rewrite rd_0; cbn [mbind option_bind].
  1-7: change (92 =? 92) with true; cbv iota; rewrite (Hk _ 1) by lia; rewrite rd_S by lia; change (1 - 1) with 0; rewrite rd_0;
    simpl; rewrite (Hk _ 1), rd_S, rd_0 by lia; simpl; replace (zlen pre + 1 + 1) with (zlen pre + 2) by lia; reflexivity.
  - unfold isprint in Ep. replace (c =? 92) with false by lia. replace (c =? 34) with false by lia. replace (c =? 0) with false by lia.
    simpl. rewrite H0, rd_0. simpl. replace (c =? 0) with false by lia. simpl. done.
  - destruct (hex_char_ok (c / 16)) as [X1 X2]; [split; [apply Z.div_pos|apply Z.div_lt_upper_bound]; lia|].
    destruct (hex_char_ok (c mod 16)) as [Y1 Y2]; [by apply Z.mod_pos_bound|].
    change (92 =? 92) with true. cbv iota. rewrite (Hk _ 1), (Hk _ 2), (Hk _ 3) by lia.
    rewrite (rd_S _ _ 1), rd_0 by lia. cbn [mbind option_bind]. change (120 =? 120) with true. cbv iota.
    rewrite (rd_S _ _ 2), (rd_S _ _ (2 - 1)), rd_0 by lia. cbn [mbind option_bind]. rewrite X1.
    rewrite (rd_S _ _ 3), (rd_S _ _ (3 - 1)), (rd_S _ _ (3 - 1 - 1)), rd_0 by lia. cbn [mbind option_bind]. rewrite Y1.
    cbn [mbind option_bind]. rewrite (Hk _ 3), (rd_S _ _ 3), (rd_S _ _ (3 - 1)), (rd_S _ _ (3 - 1 - 1)), rd_0 by lia.
    cbn [mbind option_bind]. assert (hex_char (c mod 16) <> 0) as Hnz by (intros E; rewrite E in Y1; done).
    rewrite (proj2 (Z.eqb_neq _ _) Hnz). cbn [negb]. rewrite X2, Y2. replace (zlen pre + 3 + 1) with (zlen pre + 4) by lia.
    replace (u8 _) with c; [done|]. unfold u8, wrapu. rewrite Z.mod_small; pose proof (Z.div_mod c 16 ltac:(lia)); lia.
Qed.

(** What may follow a closing quote. *)
Definition closes (post : list Z) : Prop := post = [] \/ exists t, post = 32 :: t.

Lemma quoted_token (s : list Z) : forall pre post cur fuel,
  Forall is_byte s -> closes post -> (length s < fuel)%nat ->
  loop fuel (token_body (pre ++ concat (repr_char <$> s) ++ 34 :: post)) (zlen pre, cur, InDouble) =
    Some (Some (zlen (pre ++ concat (repr_char <$> s) ++ [34]), cur ++ s)).
Proof.
  induction s as [|c s IH]; intros pre post cur [|fuel] Hb Hcl Hf; try (simpl in Hf; lia); cbn [loop].
  - simpl concat. simpl app. assert (rd (pre ++ 34 :: post) (zlen pre + 1) = rd post 0) as E1.
    { rewrite rd_shift, rd_S by lia. done. }
    unfold token_body, token_turn. rewrite (rd_app pre 34 post (zlen pre) eq_refl). cbn [mbind option_bind]. simpl (34 =? 92). cbv iota.
    cbn [mbind option_bind andb]. change (34 =? 34) with true. cbv iota. rewrite E1.
    assert (exists n, rd post 0 = Some n /\ negb (n =? 0) && negb (isspace n) = false) as (n & -> & Hn).
    { destruct Hcl as [->|[t ->]]; [by exists 0|]. exists 32. rewrite rd_0. done. }
    cbn [mbind option_bind]. rewrite Hn. cbn [mbind option_bind]. rewrite (rd_app pre 34 post (zlen pre) eq_refl). simpl. rewrite app_nil_r. do 4 f_equal.
    rewrite zlen_app. done.
  - apply Forall_cons in Hb as [Hc Hb]. rewrite fmap_cons. cbn [concat]. rewrite <- (app_assoc (repr_char c)).
    rewrite token_char by done. rewrite (app_assoc pre). rewrite IH by (done || simpl in Hf; lia).
    rewrite <- !app_assoc. done.
Qed.

Lemma repr_length s : (length s <= length (concat (repr_char <$> s)))%nat.
Proof.
  induction s as [|c s IH]; [done|]. rewrite fmap_cons. cbn [concat]. rewrite length_app. simpl.
  assert (1 <= length (repr_char c))%nat; [|lia]. unfold repr_char. repeat (case_match; try (simpl; lia)).
Qed.

(** One argument, after at most one space. *)
Lemma split_quoted pre (b : list Z) s post vec :
  Forall is_byte s -> (b = [] \/ b = [32]) -> closes post ->
  split_body (pre ++ b ++ sdscatrepr [] s ++ post) (zlen pre, vec) =
    Some (inl (zlen (pre ++ b ++ sdscatrepr [] s), vec ++ [s])).
Proof.
  intros Hb Hsp Hcl. unfold split_body. set (line := pre ++ b ++ sdscatrepr [] s ++ post).
  set (q := pre ++ b). assert (line = q ++ 34 :: concat (repr_char <$> s) ++ 34 :: post) as El.
  { unfold line, q, sdscatrepr. simpl. rewrite <- !app_assoc. simpl. done. }
  assert (rd line (zlen q) = Some 34) as Eq by (rewrite El; by apply rd_app).
  assert (length s + 2 <= length line)%nat as Hlen.
  { rewrite El. pose proof (repr_length s). rewrite !length_app. simpl. rewrite length_app. simpl. lia. }
  assert (loop (S (length line)) (blank_body line) (zlen pre) = Some (zlen q)) as ->.
  { apply (loop_more _ 2); [|lia]. cbn [loop]. unfold blank_body. destruct Hsp as [->| ->]; unfold q in *.
    - rewrite app_nil_r in *. by rewrite Eq.
    - assert (rd line (zlen pre) = Some 32) as -> by (unfold line; by apply rd_app). simpl.
      rewrite zlen_app in *. change (zlen [32]) with 1 in *. by rewrite Eq. }
  cbn [mbind option_bind]. rewrite Eq. cbn [mbind option_bind]. change (negb (34 =? 0)) with true. cbv iota.
  assert (loop (S (length line)) (token_body line) (zlen q, [], Plain) =
    Some (Some (zlen (pre ++ b ++ sdscatrepr [] s), s))) as ->; [|done].
  cbn [loop]. unfold token_body at 1, token_turn. rewrite Eq. cbn [mbind option_bind]. simpl (34 =? _). cbn [orb]. cbv iota.
  cbn [mbind option_bind]. rewrite Eq. cbn [mbind option_bind]. change (negb (34 =? 0)) with true. cbv iota.
  replace (zlen q + 1) with (zlen (q ++ [34])) by (rewrite zlen_app; done).
  replace line with ((q ++ [34]) ++ concat (repr_char <$> s) ++ 34 :: post) at 2 by (rewrite El, <- app_assoc; done).
  rewrite quoted_token by (done || lia). unfold q, sdscatrepr. rewrite <- !app_assoc. done.
Qed.

(** Quoted arguments with a space between them. *)
Definition quoted_line (args : list (list Z)) : list Z :=
  match args with [] => [] | a :: args => sdscatrepr [] a ++ concat (sdscatrepr [32] <$> args) end.

Lemma closes_rest args : closes (concat (sdscatrepr [32] <$> args)).
Proof. destruct args as [|a args]; [by left|]. right. rewrite fmap_cons. by eexists. Qed.

Lemma split_rest (args : list (list Z)) : forall pre vec fuel,
  Forall (Forall is_byte) args -> (length args < fuel)%nat ->
  loop fuel (split_body (pre ++ concat (sdscatrepr [32] <$> args))) (zlen pre, vec) = Some (Some (vec ++ args)).
Proof.
  induction args as [|a args IH]; intros pre vec [|fuel] Hb Hf; try (simpl in Hf; lia); cbn [loop].
  - rewrite fmap_nil. simpl concat. rewrite !app_nil_r. unfold split_body at 1.
    assert (loop (S (length pre)) (blank_body pre) (zlen pre) = Some (zlen pre)) as ->.
    { cbn [loop]. unfold blank_body. by rewrite rd_end. }
    cbn [mbind option_bind]. rewrite rd_end by done. done.
  - apply Forall_cons in Hb as [Ha Hb]. rewrite fmap_cons. cbn [concat].
    change (sdscatrepr [32] a) with ([32] ++ sdscatrepr [] a). rewrite <- (app_assoc [32]).
    rewrite (split_quoted pre [32] a) by (done || apply closes_rest || by right).
    rewrite !app_assoc. rewrite (IH (((pre ++ [32]) ++ sdscatrepr [] a))) by (done || simpl in Hf; lia).
    by rewrite <- app_assoc.
Qed.

Lemma split_quoted_line args :
  Forall (Forall is_byte) args -> sdssplitargs (quoted_line args) = Some (Some args).
Proof.
  intros Hb. unfold sdssplitargs. destruct args as [|a args]; [done|].
  apply Forall_cons in Hb as [Ha Hb]. cbn [quoted_line]. rewrite loop_step.
  pose proof (split_quoted [] [] a (concat (sdscatrepr [32] <$> args)) [] Ha ltac:(by left) (closes_rest args)) as E.
  rewrite !app_nil_l in E. change (zlen (@nil Z)) with 0 in E. rewrite E. clear E. cbv iota. rewrite (split_rest args).
  - done.
  - done.
  - clear. rewrite length_app. induction args as [|b args IH]; [simpl; lia|]. rewrite fmap_cons. cbn [concat].
    rewrite length_app. simpl in *. lia.
Qed.
