(* ===== verification/Resp.v ===== *)
(** * The request parser ([networking.c])

    A client accumulates the bytes it receives in [querybuf] and parses them, incrementally,
    into argument vectors: RESP arrays of bulk strings, or lines of text.  The client is a
    record with the fields the parser uses; [argc] is the length of [argv], and [argv_len] the
    size of the allocated array.  A failed assert, a read outside the buffer and a write
    outside the array are [None].  The execution of a command, the settings of the server and
    its replicas are an interface.  The peak of the buffer, the log and the memory statistics are
    not part of the model. *)
From S2P Require Import Prelude Numstr Split.

Definition PROTO_INLINE_MAX_SIZE := 1024 * 64.
Definition PROTO_MBULK_BIG_ARG := 1024 * 32.
Definition PROTO_REQ_INLINE := 1.
Definition PROTO_REQ_MULTIBULK := 2.

Definition CLIENT_SLAVE := Z.shiftl 1 0.
Definition CLIENT_MASTER := Z.shiftl 1 1.
Definition CLIENT_MONITOR := Z.shiftl 1 2.
Definition CLIENT_MULTI := Z.shiftl 1 3.
Definition CLIENT_BLOCKED := Z.shiftl 1 4.
Definition CLIENT_CLOSE_AFTER_REPLY := Z.shiftl 1 6.
Definition CLIENT_ASKING := Z.shiftl 1 9.
Definition CLIENT_CLOSE_ASAP := Z.shiftl 1 10.
Definition CLIENT_REPLY_SKIP_NEXT := Z.shiftl 1 23.
Definition CLIENT_REPLY_SKIP := Z.shiftl 1 24.
Definition CLIENT_EXECUTING_COMMAND := Z.shiftl 1 29.
Definition CLIENT_PENDING_COMMAND := Z.shiftl 1 30.
Definition CLIENT_TRACKING_CACHING := Z.shiftl 1 36.
Definition CLIENT_PROTOCOL_ERROR := Z.shiftl 1 39.

(** The errors passed to [addReplyError]. *)
Inductive protocol_error :=
  | TooBigInline | UnbalancedQuotes
  | TooBigMbulkCount | InvalidMbulkCount | UnauthMbulkCount
  | TooBigBulkCount | ExpectedDollar (got : Z) | InvalidBulkLength | UnauthBulkLength.

(** The commands that [resetClient] treats specially. *)
Inductive redisCommandProc := askingCommand | clientCommand | otherCommand.

Record client := {
  querybuf : list Z; qb_pos : Z;
  argv : list (list Z); argv_len : Z; argv_len_sum : Z;
  reqtype : Z; multibulklen : Z; bulklen : Z;
  flags : Z; cmd : option redisCommandProc; slot : Z; authenticated : bool;
  mstate_argv_len_sums : Z;
  reploff : Z; read_reploff : Z; repl_applied : Z; repl_ack_time : Z;
  duration : Z; errors : list protocol_error;
}.

Definition argc (c : client) : Z := zlen (argv c).
Definition has_flag (c : client) (f : Z) : bool := negb (Z.land (flags c) f =? 0).
Definition clear_flag (fl f : Z) : Z := Z.land fl (Z.lnot f).

Definition set_buf (c : client) (buf : list Z) (pos : Z) : client := {|
  querybuf := buf; qb_pos := pos; argv := argv c; argv_len := argv_len c; argv_len_sum := argv_len_sum c;
  reqtype := reqtype c; multibulklen := multibulklen c; bulklen := bulklen c; flags := flags c; cmd := cmd c;
  slot := slot c; authenticated := authenticated c; mstate_argv_len_sums := mstate_argv_len_sums c;
  reploff := reploff c; read_reploff := read_reploff c; repl_applied := repl_applied c;
  repl_ack_time := repl_ack_time c; duration := duration c; errors := errors c |}.

Definition set_args (c : client) (av : list (list Z)) (len sum : Z) : client := {|
  querybuf := querybuf c; qb_pos := qb_pos c; argv := av; argv_len := len; argv_len_sum := sum;
  reqtype := reqtype c; multibulklen := multibulklen c; bulklen := bulklen c; flags := flags c; cmd := cmd c;
  slot := slot c; authenticated := authenticated c; mstate_argv_len_sums := mstate_argv_len_sums c;
  reploff := reploff c; read_reploff := read_reploff c; repl_applied := repl_applied c;
  repl_ack_time := repl_ack_time c; duration := duration c; errors := errors c |}.

Definition set_req (c : client) (rt mb bl : Z) : client := {|
  querybuf := querybuf c; qb_pos := qb_pos c; argv := argv c; argv_len := argv_len c; argv_len_sum := argv_len_sum c;
  reqtype := rt; multibulklen := mb; bulklen := bl; flags := flags c; cmd := cmd c;
  slot := slot c; authenticated := authenticated c; mstate_argv_len_sums := mstate_argv_len_sums c;
  reploff := reploff c; read_reploff := read_reploff c; repl_applied := repl_applied c;
  repl_ack_time := repl_ack_time c; duration := duration c; errors := errors c |}.

Definition set_state (c : client) (fl : Z) (cm : option redisCommandProc) (sl : Z) (es : list protocol_error) : client := {|
  querybuf := querybuf c; qb_pos := qb_pos c; argv := argv c; argv_len := argv_len c; argv_len_sum := argv_len_sum c;
  reqtype := reqtype c; multibulklen := multibulklen c; bulklen := bulklen c; flags := fl; cmd := cm;
  slot := sl; authenticated := authenticated c; mstate_argv_len_sums := mstate_argv_len_sums c;
  reploff := reploff c; read_reploff := read_reploff c; repl_applied := repl_applied c;
  repl_ack_time := repl_ack_time c; duration := duration c; errors := es |}.

Definition set_repl (c : client) (off read applied ack : Z) : client := {|
  querybuf := querybuf c; qb_pos := qb_pos c; argv := argv c; argv_len := argv_len c; argv_len_sum := argv_len_sum c;
  reqtype := reqtype c; multibulklen := multibulklen c; bulklen := bulklen c; flags := flags c; cmd := cmd c;
  slot := slot c; authenticated := authenticated c; mstate_argv_len_sums := mstate_argv_len_sums c;
  reploff := off; read_reploff := read; repl_applied := applied;
  repl_ack_time := ack; duration := duration c; errors := errors c |}.

(** What the I/O threads are doing. *)
Inductive io_threads_state := IO_THREADS_OP_IDLE | IO_THREADS_OP_READ | IO_THREADS_OP_WRITE.

(** The server as the parser sees it: its settings, the phase of its I/O threads, the execution
    of a command, which returns C_OK or not and whether the client is still alive, and the
    feeding of a part of the stream of a master to the replicas. *)
Class Server := {
  srv : Type;
  proto_max_bulk_len : Z;
  client_max_querybuf_len : Z;
  default_user_open : bool;
  unixtime : Z;
  io_threads_op : io_threads_state;
  isInsideYieldingLongCommand : bool;
  processCommand : srv -> client -> srv * client * bool * bool;
  replicationFeedStream : srv -> list Z -> srv;
}.

(** [addReplyError] as far as the parser is concerned: the error joins the replies. *)
Definition addReplyError (c : client) (e : protocol_error) : client :=
  set_state c (flags c) (cmd c) (slot c) (errors c ++ [e]).

(** [setProtocolError] without its log message. *)
Definition setProtocolError (c : client) : client :=
  set_state c (Z.lor (flags c) (Z.lor CLIENT_CLOSE_AFTER_REPLY CLIENT_PROTOCOL_ERROR)) (cmd c) (slot c) (errors c).

(** [strchr(buf + pos, ch)]: the position of the first [ch] before the first zero byte; the
    buffer is followed by a zero byte. *)
Fixpoint strchr_from (s : list Z) (ch i : Z) : option Z :=
  match s with
  | [] => None
  | x :: s => if x =? ch then Some i else if x =? 0 then None else strchr_from s ch (i + 1)
  end.
Definition strchr (buf : list Z) (pos ch : Z) : option Z := strchr_from (drop (Z.to_nat pos) buf) ch pos.

(** [string2ll] on a part of the buffer. *)
Definition parse_ll (buf : list Z) (from upto : Z) : option (option Z) :=
  string2ll (drop (Z.to_nat from) buf) (upto - from).

Definition freeClientArgv (c : client) : client :=
  set_args (set_state c (flags c) None (slot c) (errors c)) [] 0 0.

Definition resetClient (c : client) : option client :=
  let prevcmd := cmd c in
  let c := freeClientArgv c in
  let c := set_req c 0 0 (-1) in
  let fl := clear_flag (flags c) CLIENT_EXECUTING_COMMAND in
  _ ← assert_true (duration c =? 0);
  let multi := negb (Z.land fl CLIENT_MULTI =? 0) in
  let fl := if negb multi && (if prevcmd is Some askingCommand then false else true) then clear_flag fl CLIENT_ASKING else fl in
  let fl := if negb multi && (if prevcmd is Some clientCommand then false else true) then clear_flag fl CLIENT_TRACKING_CACHING else fl in
  let fl := clear_flag fl CLIENT_REPLY_SKIP in
  let fl := if negb (Z.land fl CLIENT_REPLY_SKIP_NEXT =? 0)
            then clear_flag (Z.lor fl CLIENT_REPLY_SKIP) CLIENT_REPLY_SKIP_NEXT else fl in
  Some (set_state c fl (cmd c) (-1) (errors c)).

Section Parser.
Context `{Server}.

Definition authRequired (c : client) : bool := negb default_user_open && negb (authenticated c).

(** ** Lines *)

Definition is_slave (c : client) : bool :=
  negb (has_flag c CLIENT_MASTER) && has_flag c CLIENT_SLAVE && negb (has_flag c CLIENT_MONITOR).

Definition processInlineBuffer (c : client) : option (client * bool) :=
  match strchr (querybuf c) (qb_pos c) 10 with
  | None =>
      if zlen (querybuf c) - qb_pos c >? PROTO_INLINE_MAX_SIZE
      then Some (setProtocolError (addReplyError c TooBigInline), false) else Some (c, false)
  | Some newline =>
      '(newline, linefeed_chars) ←
        (if negb (newline =? qb_pos c) then
           prev ← getb (querybuf c) (newline - 1);
           Some (if prev =? 13 then (newline - 1, 2) else (newline, 1))
         else Some (newline, 1));
      let querylen := newline - qb_pos c in
      aux ← mem_read (querybuf c) (qb_pos c) querylen;
      split ← sdssplitargs aux;
      match split with
      | None => Some (setProtocolError (addReplyError c UnbalancedQuotes), false)
      | Some args =>
          let c := if (querylen =? 0) && is_slave c
                   then set_repl c (reploff c) (read_reploff c) (repl_applied c) unixtime else c in
          if negb (querylen =? 0) && has_flag c CLIENT_MASTER
          then Some (setProtocolError c, false)
          else
            let c := set_buf c (querybuf c) (qb_pos c + (querylen + linefeed_chars)) in
            let c := if negb (zlen args =? 0) then set_args c [] (zlen args) 0 else c in
            let c := set_args c args (argv_len c) (argv_len_sum c + foldr (fun a n => zlen a + n) 0 args) in
            Some (c, true)
      end
  end.

(** ** Arrays of bulk strings *)

(** Reading a length line: the rest of the function goes on with the client, or returns
    C_ERR after an error, or waits for more data. *)
Inductive line_result := LineOk (c : client) | LineError (c : client) | LineMore.

Definition read_multibulklen (c : client) : option (line_result * bool) :=
  _ ← assert_true (argc c =? 0);
  match strchr (querybuf c) (qb_pos c) 13 with
  | None =>
      Some (if zlen (querybuf c) - qb_pos c >? PROTO_INLINE_MAX_SIZE
            then LineError (setProtocolError (addReplyError c TooBigMbulkCount)) else LineMore, false)
  | Some newline =>
      if newline - qb_pos c >? zlen (querybuf c) - qb_pos c - 2 then Some (LineMore, false)
      else
        b ← getb (querybuf c) (qb_pos c);
        _ ← assert_true (b =? 42);
        ll ← parse_ll (querybuf c) (1 + qb_pos c) newline;
        match ll with
        | None => Some (LineError (setProtocolError (addReplyError c InvalidMbulkCount)), false)
        | Some ll =>
            if ll >? INT32_MAX then Some (LineError (setProtocolError (addReplyError c InvalidMbulkCount)), false)
            else if (ll >? 10) && authRequired c then Some (LineError (setProtocolError (addReplyError c UnauthMbulkCount)), false)
            else
              let c := set_buf c (querybuf c) (newline + 2) in
              if ll <=? 0 then Some (LineOk c, true)
              else Some (LineOk (set_args (set_req c (reqtype c) ll (bulklen c)) [] (Z.min ll 1024) 0), false)
        end
  end.

Definition read_bulklen (c : client) : option line_result :=
  match strchr (querybuf c) (qb_pos c) 13 with
  | None =>
      Some (if zlen (querybuf c) - qb_pos c >? PROTO_INLINE_MAX_SIZE
            then LineError (setProtocolError (addReplyError c TooBigBulkCount)) else LineMore)
  | Some newline =>
      if newline - qb_pos c >? zlen (querybuf c) - qb_pos c - 2 then Some LineMore
      else
        b ← getb (querybuf c) (qb_pos c);
        if negb (b =? 36) then Some (LineError (setProtocolError (addReplyError c (ExpectedDollar b))))
        else
          ll ← parse_ll (querybuf c) (qb_pos c + 1) newline;
          match ll with
          | None => Some (LineError (setProtocolError (addReplyError c InvalidBulkLength)))
          | Some ll =>
              if (ll <? 0) || (negb (has_flag c CLIENT_MASTER) && (ll >? proto_max_bulk_len))
              then Some (LineError (setProtocolError (addReplyError c InvalidBulkLength)))
              else if (ll >? 16384) && authRequired c then Some (LineError (setProtocolError (addReplyError c UnauthBulkLength)))
              else
                let c := set_buf c (querybuf c) (newline + 2) in
                let c := if negb (has_flag c CLIENT_MASTER) && (ll >=? PROTO_MBULK_BIG_ARG)
                            && (zlen (querybuf c) - qb_pos c <=? ll + 2)
                         then set_buf c (drop (Z.to_nat (qb_pos c)) (querybuf c)) 0 else c in
                Some (LineOk (set_req c (reqtype c) (multibulklen c) ll))
          end
  end.

(** The copy of the argument into [argv], which grows when it is full; a large argument
    that fills the buffer takes the buffer itself. *)
Definition read_argument (c : client) : option client :=
  let c := if argc c >=? argv_len c
           then set_args c (argv c)
                  (Z.min (if argv_len c <? INT32_MAX / 2 then argv_len c * 2 else INT32_MAX) (argc c + multibulklen c))
                  (argv_len_sum c)
           else c in
  _ ← assert_true (argc c <? argv_len c);
  if negb (has_flag c CLIENT_MASTER) && (qb_pos c =? 0) && (bulklen c >=? PROTO_MBULK_BIG_ARG)
       && (zlen (querybuf c) =? bulklen c + 2)
  then
    arg ← mem_read (querybuf c) 0 (zlen (querybuf c) - 2);
    let c := set_args c (argv c ++ [arg]) (argv_len c) (argv_len_sum c + bulklen c) in
    Some (set_req (set_buf c [] (qb_pos c)) (reqtype c) (multibulklen c - 1) (-1))
  else
    arg ← mem_read (querybuf c) (qb_pos c) (bulklen c);
    let c := set_args c (argv c ++ [arg]) (argv_len c) (argv_len_sum c + bulklen c) in
    Some (set_req (set_buf c (querybuf c) (qb_pos c + (bulklen c + 2))) (reqtype c) (multibulklen c - 1) (-1)).

Definition multibulk_body (c : client) : option (client + client * bool) :=
  if multibulklen c =? 0 then Some (inr (c, true))
  else
    line ← (if bulklen c =? -1 then read_bulklen c else Some (LineOk c));
    match line with
    | LineError c => Some (inr (c, false))
    | LineMore => Some (inr (c, false))
    | LineOk c =>
        if zlen (querybuf c) - qb_pos c <? bulklen c + 2 then Some (inr (c, false))
        else c ← read_argument c; Some (inl c)
    end.

Definition processMultibulkBuffer (c : client) : option (client * bool) :=
  '(line, empty) ← (if multibulklen c =? 0 then read_multibulklen c else Some (LineOk c, false));
  match line with
  | LineError c => Some (c, false)
  | LineMore => Some (c, false)
  | LineOk c =>
      if (empty : bool) then Some (c, true)
      else
        _ ← assert_true (multibulklen c >? 0);
        loop (S (length (querybuf c))) multibulk_body c
  end.

(** ** The input loop *)

Definition commandProcessed (s : srv) (c : client) : option (srv * client) :=
  if has_flag c CLIENT_BLOCKED then Some (s, c)
  else
    c ← resetClient c;
    let prev_offset := reploff c in
    let c := if has_flag c CLIENT_MASTER && negb (has_flag c CLIENT_MULTI)
             then set_repl c (read_reploff c - zlen (querybuf c) + qb_pos c) (read_reploff c) (repl_applied c) (repl_ack_time c)
             else c in
    if has_flag c CLIENT_MASTER then
      let applied := reploff c - prev_offset in
      if negb (applied =? 0) then
        part ← mem_read (querybuf c) (repl_applied c) applied;
        Some (replicationFeedStream s part,
              set_repl c (reploff c) (read_reploff c) (repl_applied c + applied) (repl_ack_time c))
      else Some (s, c)
    else Some (s, c).

(** The boolean is C_OK: the client is alive. *)
Definition processCommandAndResetClient (s : srv) (c : client) : option (srv * client * bool) :=
  let '(s, c, ok, alive) := processCommand s c in
  '(s, c) ← (if (ok : bool) then commandProcessed s c else Some (s, c));
  Some (s, c, alive).

(** The loop leaves with true to trim the buffer, with false to return C_ERR. *)
Definition input_body (st : srv * client) : option ((srv * client) + (srv * client * bool)) :=
  let '(s, c) := st in
  if negb (qb_pos c <? zlen (querybuf c)) then Some (inr (s, c, true))
  else if has_flag c CLIENT_BLOCKED then Some (inr (s, c, true))
  else if has_flag c CLIENT_PENDING_COMMAND then Some (inr (s, c, true))
  else if isInsideYieldingLongCommand && has_flag c CLIENT_MASTER then Some (inr (s, c, true))
  else if has_flag c (Z.lor CLIENT_CLOSE_AFTER_REPLY CLIENT_CLOSE_ASAP) then Some (inr (s, c, true))
  else
    b ← getb (querybuf c) (qb_pos c);
    let c := if reqtype c =? 0
             then set_req c (if b =? 42 then PROTO_REQ_MULTIBULK else PROTO_REQ_INLINE) (multibulklen c) (bulklen c) else c in
    '(c, ok) ← (if reqtype c =? PROTO_REQ_INLINE then processInlineBuffer c
                else if reqtype c =? PROTO_REQ_MULTIBULK then processMultibulkBuffer c else None);
    if negb ok then Some (inr (s, c, true))
    else if argc c =? 0 then c ← resetClient c; Some (inl (s, c))
    else
      match io_threads_op with
      | IO_THREADS_OP_IDLE =>
          '(s, c, alive) ← processCommandAndResetClient s c;
          Some (if (alive : bool) then inl (s, c) else inr (s, c, false))
      | op =>
          _ ← assert_true (match op with IO_THREADS_OP_READ => true | _ => false end);
          Some (inr (s, set_state c (Z.lor (flags c) CLIENT_PENDING_COMMAND) (cmd c) (slot c) (errors c), true))
      end.

Definition processInputBuffer (s : srv) (c : client) : option (srv * client * bool) :=
  '(s, c, trim) ← loop (S (length (querybuf c))) input_body (s, c);
  if negb trim then Some (s, c, false)
  else
    let c :=
      if has_flag c CLIENT_MASTER then
        if negb (repl_applied c =? 0)
        then set_repl (set_buf c (drop (Z.to_nat (repl_applied c)) (querybuf c)) (qb_pos c - repl_applied c))
               (reploff c) (read_reploff c) 0 (repl_ack_time c)
        else c
      else if negb (qb_pos c =? 0) then set_buf c (drop (Z.to_nat (qb_pos c)) (querybuf c)) 0 else c in
    Some (s, c, true).

(** [freeClientAsync] as far as the client itself is concerned. *)
Definition CLIENT_SCRIPT := Z.shiftl 1 8.
Definition freeClientAsync (c : client) : client :=
  if has_flag c CLIENT_CLOSE_ASAP || has_flag c CLIENT_SCRIPT then c
  else set_state c (Z.lor (flags c) CLIENT_CLOSE_ASAP) (cmd c) (slot c) (errors c).

(** What [connRead] delivers: bytes, nothing yet, or the end of the connection. *)
Inductive read_result := ReadBytes (bytes : list Z) | ReadAgain | ReadClosed.

(** [readQueryFromClient] without the choice of the number of bytes to ask for.  The client
    is [None] when it has been freed. *)
Definition readQueryFromClient (s : srv) (c : client) (r : read_result) : option (srv * option client) :=
  match r with
  | ReadAgain => Some (s, Some c)
  | ReadClosed => Some (s, Some (freeClientAsync c))
  | ReadBytes bytes =>
      let c := set_buf c (querybuf c ++ bytes) (qb_pos c) in
      let c := if has_flag c CLIENT_MASTER
               then set_repl c (reploff c) (read_reploff c + zlen bytes) (repl_applied c) (repl_ack_time c) else c in
      let used := mstate_argv_len_sums c + zlen (querybuf c) in
      if negb (has_flag c CLIENT_MASTER) &&
         ((used >? client_max_querybuf_len) || ((used >? 1024 * 1024) && authRequired c))
      then Some (s, Some (freeClientAsync c))
      else '(s, c, alive) ← processInputBuffer s c; Some (s, if (alive : bool) then Some c else None)
  end.
End Parser.
