(* ===== verification/RespFacts.v ===== *)
(** * The request parser: safety on any input

    Whatever bytes arrive, no assert of the parser fails and no access leaves the query
    buffer or the argument array; the loops end, because each turn consumes input. *)
From S2P Require Import Prelude Numstr NumstrFacts NumstrProps Split Resp.

(** ** Lines *)

Lemma strchr_from_some s ch : forall i j, strchr_from s ch i = Some j ->
  exists a b, s = a ++ ch :: b /\ j = i + zlen a /\ Forall (fun x => x <> ch /\ x <> 0) a.
Proof.
  induction s as [|x s IH]; intros i j E; [done|]. simpl in E. destruct (Z.eqb_spec x ch) as [->|Hx].
  - injection E as <-. exists [], s. split_and!; [done|unfold zlen; simpl; lia|done].
  - destruct (Z.eqb_spec x 0) as [->|H0]; [done|]. destruct (IH _ _ E) as (a & b & -> & -> & Ha).
    exists (x :: a), b. split_and!; [done|rewrite zlen_cons; lia|by constructor].
Qed.

Lemma strchr_some buf pos ch j :
  0 <= pos <= zlen buf -> strchr buf pos ch = Some j ->
  exists a b, drop (Z.to_nat pos) buf = a ++ ch :: b /\ j = pos + zlen a /\ pos + zlen a + 1 + zlen b = zlen buf.
Proof.
  intros Hp E. destruct (strchr_from_some _ _ _ _ E) as (a & b & Ed & -> & _). exists a, b. split_and!; [done|done|].
  assert (zlen (drop (Z.to_nat pos) buf) = zlen buf - pos) as Hz by (unfold zlen; rewrite length_drop; unfold zlen in Hp; lia).
  rewrite Ed, zlen_app, zlen_cons in Hz. lia.
Qed.

Lemma getb_drop buf pos x t : 0 <= pos -> drop (Z.to_nat pos) buf = x :: t -> getb buf pos = Some x.
Proof.
  intros Hp E. unfold getb. rewrite (proj2 (Z.leb_le 0 pos)) by lia.
  assert (drop (Z.to_nat pos) buf !! 0%nat = Some x) as Hx by (by rewrite E). rewrite lookup_drop, Nat.add_0_r in Hx. done.
Qed.

Lemma getb_next buf pos : 0 <= pos < zlen buf -> exists x t, getb buf pos = Some x /\ drop (Z.to_nat pos) buf = x :: t.
Proof.
  intros Hp. destruct (drop (Z.to_nat pos) buf) as [|x t] eqn:E.
  - apply (f_equal length) in E. rewrite length_drop in E. simpl in E. unfold zlen in Hp. lia.
  - exists x, t. split; [|done]. apply (getb_drop buf pos x t); [lia|done].
Qed.

(** A number between two places of the buffer. *)
Lemma parse_ll_total buf from upto : 0 <= from <= upto -> upto <= zlen buf -> exists o, parse_ll buf from upto = Some o.
Proof.
  intros H1 H2. unfold parse_ll. set (s := take (Z.to_nat (upto - from)) (drop (Z.to_nat from) buf)).
  destruct (string2ll_spec s (drop (Z.to_nat (upto - from)) (drop (Z.to_nat from) buf))) as (o & E & _).
  exists o. unfold s in E at 1. rewrite take_drop in E. replace (upto - from) with (zlen s) at 1; [done|].
  unfold s, zlen. rewrite length_take, length_drop. unfold zlen in H2. lia.
Qed.

(** ** The invariant *)

(** The bytes not parsed yet. *)
Definition rem (c : client) : Z := zlen (querybuf c) - qb_pos c.

Definition unparsed (c : client) : list Z := drop (Z.to_nat (qb_pos c)) (querybuf c).

Record BufOk (c : client) : Prop := {
  bo_pos : 0 <= qb_pos c <= zlen (querybuf c);
  bo_master : has_flag c CLIENT_MASTER = true ->
    0 <= repl_applied c <= qb_pos c /\ reploff c = read_reploff c - zlen (querybuf c) + repl_applied c;
  bo_real : has_flag c CLIENT_SCRIPT = false;
}.

(** The state between two calls: no request, a line, the count of an array, or its
    arguments. *)
Inductive ReqOk (c : client) : Prop :=
  | ReqNone : reqtype c = 0 -> multibulklen c = 0 -> bulklen c = -1 -> argv c = [] -> ReqOk c
  | ReqInline : reqtype c = PROTO_REQ_INLINE -> multibulklen c = 0 -> bulklen c = -1 -> argv c = [] -> ReqOk c
  | ReqCount : reqtype c = PROTO_REQ_MULTIBULK -> multibulklen c = 0 -> bulklen c = -1 -> argv c = [] ->
      getb (querybuf c) (qb_pos c) = Some 42 -> ReqOk c
  | ReqArgs : reqtype c = PROTO_REQ_MULTIBULK -> 0 < multibulklen c -> -1 <= bulklen c ->
      argc c + multibulklen c <= INT32_MAX -> argc c <= argv_len c -> 1 <= argv_len c -> ReqOk c.

(** The client executes a command, or waits for the main thread to do it. *)
Definition busy (c : client) : Prop := has_flag c CLIENT_BLOCKED = true \/ has_flag c CLIENT_PENDING_COMMAND = true.

(** The buffer is sound, and the client is not to be parsed, or is ready for it. *)
Record ClientOk (c : client) : Prop := {
  co_buf : BufOk c;
  co_req : (busy c \/ has_flag c CLIENT_CLOSE_ASAP = true) \/ ReqOk c /\ duration c = 0;
}.

(** ** Changes of the client *)

Lemma bufok_advance c pos : BufOk c -> qb_pos c <= pos <= zlen (querybuf c) -> BufOk (set_buf c (querybuf c) pos).
Proof. intros [H1 H2 H3] Hp. split; simpl; [lia| |done]. intros Hm. specialize (H2 Hm). lia. Qed.

(** The buffer of a client that is not a master may be cut. *)
Lemma bufok_cut c buf pos : BufOk c -> has_flag c CLIENT_MASTER = false -> 0 <= pos <= zlen buf -> BufOk (set_buf c buf pos).
Proof. intros HB Hm Hp. split; [done| |apply HB]. intros Hm'. change (has_flag c CLIENT_MASTER = true) in Hm'. congruence. Qed.

Lemma bufok_req c rt mb bl : BufOk c -> BufOk (set_req c rt mb bl).
Proof. intros [H1 H2 H3]. by split. Qed.
Lemma bufok_args c av n m : BufOk c -> BufOk (set_args c av n m).
Proof. intros [H1 H2 H3]. by split. Qed.

Lemma has_flag_lor c fl cm sl es f :
  Z.land fl f = 0 -> has_flag (set_state c (Z.lor (flags c) fl) cm sl es) f = has_flag c f.
Proof. intros E. unfold has_flag. simpl. rewrite Z.land_comm, Z.land_lor_distr_r, (Z.land_comm f fl), E, Z.lor_0_r. by rewrite Z.land_comm. Qed.

Lemma bufok_flags c fl cm sl es :
  Z.land fl CLIENT_MASTER = 0 -> Z.land fl CLIENT_SCRIPT = 0 -> BufOk c -> BufOk (set_state c (Z.lor (flags c) fl) cm sl es).
Proof. intros E E' [H1 H2 H3]. split; [done| |]; rewrite has_flag_lor by done; [exact H2|done]. Qed.

(** An error is replied and the connection closes. *)
Definition protocol_failure (c : client) (e : protocol_error) : client := setProtocolError (addReplyError c e).

Lemma bufok_closed c : BufOk c -> BufOk (setProtocolError c).
Proof. by apply bufok_flags. Qed.
Lemma bufok_error e c : BufOk c -> BufOk (protocol_failure c e).
Proof. intros HB. apply bufok_closed. destruct HB as [H1 H2 H3]. by split. Qed.

(** The parser state depends on these fields and on the next byte only. *)
Lemma reqok_same c c' :
  ReqOk c -> reqtype c' = reqtype c -> multibulklen c' = multibulklen c -> bulklen c' = bulklen c -> argv c' = argv c ->
  argv_len c' = argv_len c ->
  (forall b, getb (querybuf c) (qb_pos c) = Some b -> getb (querybuf c') (qb_pos c') = Some b) -> ReqOk c'.
Proof.
  intros HR F1 F2 F3 F4 F5 F6.
  destruct HR as [R1 R2 R3 R4|R1 R2 R3 R4|R1 R2 R3 R4 R5|R1 R2 R3 R4 R5 R6];
    [apply ReqNone|apply ReqInline|apply ReqCount|apply ReqArgs]; unfold argc in *; rewrite ?F1, ?F2, ?F3, ?F4, ?F5; try done.
  by apply F6.
Qed.

Lemma reqok_closed c : ReqOk c -> ReqOk (setProtocolError c).
Proof. intros HR. by apply (reqok_same c). Qed.
Lemma reqok_error e c : ReqOk c -> ReqOk (protocol_failure c e).
Proof. intros HR. by apply (reqok_same c). Qed.

Lemma drop_length_rem c : BufOk c -> zlen (drop (Z.to_nat (qb_pos c)) (querybuf c)) = rem c.
Proof. intros [H1 _ _]. unfold rem, zlen in *. rewrite length_drop. lia. Qed.

(** ** Flags *)

Lemma land_shiftl_1 x k : 0 <= k -> (Z.land x (Z.shiftl 1 k) =? 0) = negb (Z.testbit x k).
Proof.
  intros Hk. destruct (Z.testbit x k) eqn:E.
  - apply Z.eqb_neq. intros Ez. assert (Z.testbit (Z.land x (Z.shiftl 1 k)) k = true) as Ht.
    { rewrite Z.land_spec, E, Z.shiftl_spec, Z.sub_diag by lia. done. }
    by rewrite Ez, Z.bits_0 in Ht.
  - apply Z.eqb_eq, Z.bits_inj'. intros n Hn. rewrite Z.bits_0, Z.land_spec, Z.shiftl_spec by lia.
    destruct (Z.eq_dec n k) as [->|Hne]; [by rewrite E|]. rewrite andb_comm.
    destruct (Z_lt_le_dec n k); [by rewrite Z.testbit_neg_r by lia|]. rewrite Z.bits_above_log2; [done|lia|simpl; lia].
Qed.

Lemma has_flag_bit c k : 0 <= k -> has_flag c (Z.shiftl 1 k) = Z.testbit (flags c) k.
Proof. intros Hk. unfold has_flag. by rewrite land_shiftl_1, negb_involutive. Qed.

Lemma testbit_shiftl_1 j k : 0 <= j -> 0 <= k -> Z.testbit (Z.shiftl 1 j) k = bool_decide (j = k).
Proof.
  intros Hj Hk. rewrite Z.shiftl_1_l. case_bool_decide as E; [subst; by apply Z.pow2_bits_true|by apply Z.pow2_bits_false].
Qed.

Lemma clear_flag_bit fl j k : 0 <= j -> 0 <= k -> j <> k -> Z.testbit (clear_flag fl (Z.shiftl 1 j)) k = Z.testbit fl k.
Proof.
  intros Hj Hk Hne. unfold clear_flag. rewrite Z.land_spec, Z.lnot_spec, testbit_shiftl_1 by lia.
  rewrite bool_decide_false by done. apply andb_true_r.
Qed.

Lemma set_flag_bit fl j k : 0 <= j -> 0 <= k -> j <> k -> Z.testbit (Z.lor fl (Z.shiftl 1 j)) k = Z.testbit fl k.
Proof.
  intros Hj Hk Hne. rewrite Z.lor_spec, testbit_shiftl_1 by lia. rewrite bool_decide_false by done. apply orb_false_r.
Qed.

(** Resetting a client drops the request and only touches the flags of its last command. *)
Lemma reset_spec c :
  duration c = 0 ->
  exists fl, resetClient c = Some (set_state (set_req (freeClientArgv c) 0 0 (-1)) fl None (-1) (errors c)) /\
    forall k, 0 <= k -> k <> 29 -> k <> 9 -> k <> 36 -> k <> 24 -> k <> 23 -> Z.testbit fl k = Z.testbit (flags c) k.
Proof.
  intros Hd. unfold resetClient. cbv zeta.
  change (duration (set_req (freeClientArgv c) 0 0 (-1))) with (duration c). rewrite Hd. cbn [assert_true mbind option_bind].
  change (0 =? 0) with true. cbn [assert_true mbind option_bind].
  eexists. split; [reflexivity|]. intros k Hk H1 H2 H3 H4 H5. simpl flags.
  unfold CLIENT_EXECUTING_COMMAND, CLIENT_ASKING, CLIENT_TRACKING_CACHING, CLIENT_REPLY_SKIP, CLIENT_REPLY_SKIP_NEXT.
  repeat match goal with |- context [if ?b then _ else _] => destruct b end;
    repeat first [rewrite clear_flag_bit by lia | rewrite set_flag_bit by lia]; done.
Qed.

(** What a reset keeps. *)
Record Reset (c c' : client) : Prop := {
  rs_req : reqtype c' = 0 /\ multibulklen c' = 0 /\ bulklen c' = -1 /\ argv c' = [];
  rs_flag k : 0 <= k -> k <> 29 -> k <> 9 -> k <> 36 -> k <> 24 -> k <> 23 ->
    has_flag c' (Z.shiftl 1 k) = has_flag c (Z.shiftl 1 k);
  rs_buf : querybuf c' = querybuf c /\ qb_pos c' = qb_pos c;
  rs_repl : reploff c' = reploff c /\ read_reploff c' = read_reploff c /\ repl_applied c' = repl_applied c;
  rs_rest : authenticated c' = authenticated c /\ mstate_argv_len_sums c' = mstate_argv_len_sums c /\
    duration c' = duration c /\ errors c' = errors c;
}.

Lemma reset_keeps c : duration c = 0 -> exists c', resetClient c = Some c' /\ Reset c c'.
Proof.
  intros Hd. destruct (reset_spec c Hd) as (fl & -> & Hfl). eexists. split; [done|]. split; try done.
  intros k Hk. intros. rewrite !has_flag_bit by done. by apply Hfl.
Qed.

Lemma bufok_same c c' :
  BufOk c -> querybuf c' = querybuf c -> qb_pos c' = qb_pos c -> has_flag c' CLIENT_MASTER = has_flag c CLIENT_MASTER ->
  has_flag c' CLIENT_SCRIPT = has_flag c CLIENT_SCRIPT ->
  reploff c' = reploff c -> read_reploff c' = read_reploff c -> repl_applied c' = repl_applied c -> BufOk c'.
Proof. intros [H1 H2 H3] E1 E2 E3 E3' E4 E5 E6. split; rewrite ?E1, ?E2, ?E3, ?E3', ?E4, ?E5, ?E6; done. Qed.

Lemma reset_ok c c' : Reset c c' -> BufOk c -> BufOk c' /\ ReqOk c' /\ rem c' = rem c.
Proof.
  intros [(R1 & R2 & R3 & R4) Hf [B1 B2] (P1 & P2 & P3) _] HB. split; [|split; [by apply ReqNone|unfold rem; by rewrite B1, B2]].
  by apply (bufok_same c); try done; apply Hf.
Qed.

(** What the parser relies on.  The I/O threads do not parse while they write.  A command that
    returns C_OK leaves the client alive; one that does not either frees it or has only marked it
    for closing (the answer to [POST] and [Host:]).  A client that is left alive keeps its query
    buffer and its replication counters, and when it is not blocked the time of the command has
    been recorded. *)
Class ServerOk (Sv : Server) : Prop := {
  parsing_phase : io_threads_op <> IO_THREADS_OP_WRITE;
  process_alive s c s' c' alive : processCommand s c = (s', c', true, alive) -> alive = true;
  process_refused s c s' c' : has_flag c CLIENT_SCRIPT = false ->
    processCommand s c = (s', c', false, true) -> has_flag c' CLIENT_CLOSE_ASAP = true;
  process_frame s c s' c' ok : processCommand s c = (s', c', ok, true) ->
    querybuf c' = querybuf c /\ qb_pos c' = qb_pos c /\ has_flag c' CLIENT_MASTER = has_flag c CLIENT_MASTER /\
    has_flag c' CLIENT_SCRIPT = has_flag c CLIENT_SCRIPT /\
    reploff c' = reploff c /\ read_reploff c' = read_reploff c /\ repl_applied c' = repl_applied c;
  process_duration s c s' c' : duration c = 0 -> processCommand s c = (s', c', true, true) ->
    has_flag c' CLIENT_BLOCKED = false -> duration c' = 0;
}.

Section Safety.
Context `{Sv : Server}.

(** ** The lengths *)

Lemma read_multibulklen_safe c :
  BufOk c -> argv c = [] -> bulklen c = -1 -> getb (querybuf c) (qb_pos c) = Some 42 ->
  exists r e, read_multibulklen c = Some (r, e) /\
    match r with
    | LineMore => e = false
    | LineError c' => e = false /\ exists err, c' = protocol_failure c err
    | LineOk c' => exists pos, qb_pos c < pos <= zlen (querybuf c) /\
        if e : bool then c' = set_buf c (querybuf c) pos
        else exists ll, 0 < ll <= INT32_MAX /\
          c' = set_args (set_req (set_buf c (querybuf c) pos) (reqtype c) ll (bulklen c)) [] (Z.min ll 1024) 0
    end.
Proof.
  intros HB Hav Hbl Hstar. pose proof (bo_pos c HB) as Hp. unfold read_multibulklen, argc. rewrite Hav. cbn [assert_true mbind option_bind].
  change (zlen [] =? 0) with true. cbn [assert_true mbind option_bind].
  destruct (strchr (querybuf c) (qb_pos c) 13) as [nl|] eqn:Enl.
  2: { eexists _, _. split; [done|]. destruct (_ >? _); [|done]. split; [done|]. by eexists. }
  destruct (strchr_some _ _ _ _ Hp Enl) as (a & b & Ed & -> & Hlen). destruct (_ >? _) eqn:Ecr; [by eexists _, _|].
  rewrite Hstar. cbn [mbind option_bind]. change (42 =? 42) with true. cbn [assert_true mbind option_bind].
  destruct a as [|x a].
  { simpl in Ed. pose proof (getb_drop _ _ _ _ (proj1 Hp) Ed) as Hx. rewrite Hx in Hstar. done. }
  rewrite zlen_cons in *. zlen_saturate. rewrite Z.gtb_ltb in Ecr. apply Z.ltb_ge in Ecr.
  destruct (parse_ll_total (querybuf c) (1 + qb_pos c) (qb_pos c + (1 + zlen a))) as (o & ->); [lia|lia|]. cbn [mbind option_bind].
  destruct o as [ll|]; [|eexists _, _; split; [done|]; split; [done|]; by eexists].
  destruct (ll >? INT32_MAX) eqn:Emax; [eexists _, _; split; [done|]; split; [done|]; by eexists|].
  destruct (_ && _); [eexists _, _; split; [done|]; split; [done|]; by eexists|].
  destruct (ll <=? 0) eqn:E0; eexists _, _; (split; [done|]); exists (qb_pos c + (1 + zlen a) + 2); (split; [lia|]); [done|].
  exists ll. split; [lia|done].
Qed.

Lemma read_bulklen_safe c :
  BufOk c -> bulklen c = -1 ->
  exists r, read_bulklen c = Some r /\
    match r with
    | LineMore => True
    | LineError c' => exists err, c' = protocol_failure c err
    | LineOk c' => exists buf pos ll, c' = set_req (set_buf c buf pos) (reqtype c) (multibulklen c) ll /\
        0 <= ll /\ BufOk c' /\ rem c' < rem c
    end.
Proof.
  intros HB Hbl. pose proof (bo_pos c HB) as Hp. unfold read_bulklen.
  destruct (strchr (querybuf c) (qb_pos c) 13) as [nl|] eqn:Enl.
  2: { eexists. split; [done|]. destruct (_ >? _); [|done]. by eexists. }
  destruct (strchr_some _ _ _ _ Hp Enl) as (a & b & Ed & -> & Hlen). destruct (_ >? _) eqn:Ecr; [by eexists|].
  zlen_saturate. rewrite Z.gtb_ltb in Ecr. apply Z.ltb_ge in Ecr.
  destruct (getb_next (querybuf c) (qb_pos c)) as (x & t & Hx & Hdx); [lia|]. rewrite Hx. cbn [mbind option_bind].
  destruct (Z.eqb_spec x 36) as [->|Hne]; cbn [negb]; [|eexists; split; [done|]; by eexists].
  destruct a as [|y a]; [rewrite Ed in Hdx; simpl in Hdx; congruence|]. rewrite zlen_cons in *. zlen_saturate.
  destruct (parse_ll_total (querybuf c) (qb_pos c + 1) (qb_pos c + (1 + zlen a))) as (o & ->); [lia|lia|]. cbn [mbind option_bind].
  destruct o as [ll|]; [|eexists; split; [done|]; by eexists].
  destruct (_ || _) eqn:Ebad; [eexists; split; [done|]; by eexists|]. apply orb_false_iff in Ebad as [Ebad _].
  destruct (_ && _); [eexists; split; [done|]; by eexists|].
  eexists. split; [done|]. cbv zeta. destruct (_ && _ && _) eqn:Ecut; simpl qb_pos; simpl querybuf.
  - rewrite !andb_true_iff, negb_true_iff in Ecut. destruct Ecut as [[Hm _] _].
    eexists _, _, ll. split; [done|]. split; [lia|]. unfold rem. simpl. split.
    + apply bufok_req, bufok_cut; [apply bufok_advance; [done|lia]|exact Hm|]. zlen_saturate. lia.
    + unfold zlen. rewrite length_drop. unfold zlen in *. lia.
  - eexists _, _, ll. split; [done|]. split; [lia|]. split; [by apply bufok_req, bufok_advance; [|lia]|]. unfold rem. simpl. lia.
Qed.

(** ** The arguments *)

Lemma read_argument_spec c arg rest :
  BufOk c -> 0 < multibulklen c -> argc c + multibulklen c <= INT32_MAX -> argc c <= argv_len c -> 1 <= argv_len c ->
  unparsed c = arg ++ rest -> zlen arg = bulklen c -> 2 <= zlen rest ->
  exists buf pos len sum,
    read_argument c = Some (set_req (set_buf (set_args c (argv c ++ [arg]) len sum) buf pos) (reqtype c) (multibulklen c - 1) (-1)) /\
    zlen (argv c) + 1 <= len /\ 0 <= pos <= zlen buf /\ drop (Z.to_nat pos) buf = drop 2 rest /\
    (has_flag c CLIENT_MASTER = true -> buf = querybuf c /\ qb_pos c <= pos).
Proof.
  intros HB Hmb Hmax Hav Hav1 Hun Harg Hrest. pose proof (bo_pos c HB) as Hp. unfold argc in *. unfold read_argument, argc.
  set (c1 := if zlen (argv c) >=? argv_len c then _ else c).
  assert (exists n, c1 = set_args c (argv c) n (argv_len_sum c) /\ zlen (argv c) + 1 <= n) as (n & -> & Hn).
  { unfold c1. rewrite Z.geb_leb. destruct (Z.leb_spec (argv_len c) (zlen (argv c))) as [Hle|Hlt].
    - eexists. split; [done|]. unfold INT32_MAX in *. destruct (argv_len c <? _); lia.
    - exists (argv_len c). split; [by destruct c|lia]. }
  simpl argv. simpl argv_len. simpl bulklen. simpl qb_pos. simpl querybuf. simpl argv_len_sum. simpl reqtype. simpl multibulklen.
  change (has_flag (set_args c (argv c) n (argv_len_sum c)) CLIENT_MASTER) with (has_flag c CLIENT_MASTER).
  rewrite (proj2 (Z.ltb_lt _ _)) by lia. cbn [assert_true mbind option_bind].
  assert (Hsplit : querybuf c = take (Z.to_nat (qb_pos c)) (querybuf c) ++ arg ++ rest) by (rewrite <- Hun; symmetry; apply take_drop).
  assert (Htake : zlen (take (Z.to_nat (qb_pos c)) (querybuf c)) = qb_pos c).
  { unfold zlen. rewrite length_take. unfold zlen in Hp. lia. }
  assert (Hlen : zlen (querybuf c) = qb_pos c + zlen arg + zlen rest) by (rewrite Hsplit at 1; rewrite !zlen_app; lia).
  destruct (_ && _ && _ && _) eqn:Ewhole.
  - rewrite !andb_true_iff, negb_true_iff in Ewhole. destruct Ewhole as [[[Hm Hpos] _] Hall].
    apply Z.eqb_eq in Hpos, Hall. rewrite Hpos in *.
    assert (mem_read (querybuf c) 0 (zlen (querybuf c) - 2) = Some arg) as ->.
    { rewrite Hsplit. apply mem_read_mid; [by rewrite Htake|]. rewrite !zlen_app, Htake. lia. }
    cbn [mbind option_bind]. exists [], 0, n, (argv_len_sum c + bulklen c). split; [done|]. split; [lia|].
    split; [done|]. split; [|congruence]. assert (length rest = 2)%nat as Hr by (unfold zlen in *; lia).
    by rewrite (drop_ge rest) by lia.
  - assert (mem_read (querybuf c) (qb_pos c) (bulklen c) = Some arg) as ->.
    { rewrite Hsplit at 1. apply mem_read_mid; [by rewrite Htake|done]. }
    cbn [mbind option_bind]. exists (querybuf c), (qb_pos c + (bulklen c + 2)), n, (argv_len_sum c + bulklen c).
    split; [done|]. split; [lia|]. zlen_saturate. split; [lia|]. split; [|intros _; split; [done|lia]].
    replace (Z.to_nat (qb_pos c + (bulklen c + 2))) with (Z.to_nat (qb_pos c) + (length arg + 2))%nat by (unfold zlen in *; lia).
    rewrite <- drop_drop. fold (unparsed c). rewrite Hun. by rewrite <- drop_drop, drop_app_length.
Qed.

(** While an array is read: its arguments are missing, or it is complete. *)
Definition reading (c : client) : Prop :=
  BufOk c /\ reqtype c = PROTO_REQ_MULTIBULK /\ 0 <= multibulklen c /\ -1 <= bulklen c /\
  argc c + multibulklen c <= INT32_MAX /\ argc c <= argv_len c /\ 1 <= argv_len c /\
  (multibulklen c = 0 -> bulklen c = -1 /\ 1 <= argc c).

Lemma reading_req c : reading c -> 0 < multibulklen c -> ReqOk c.
Proof. intros (_ & H1 & _ & H2 & H3 & H4 & H5 & _) Hm. by apply ReqArgs. Qed.

Lemma unparsed_length c : BufOk c -> zlen (unparsed c) = rem c.
Proof. apply drop_length_rem. Qed.

Lemma read_argument_safe c :
  reading c -> 0 < multibulklen c -> 0 <= bulklen c -> bulklen c + 2 <= rem c ->
  exists c', read_argument c = Some c' /\ reading c' /\ rem c' < rem c /\ multibulklen c' = multibulklen c - 1 /\ flags c' = flags c.
Proof.
  intros (HB & H1 & H2 & H3 & H4 & H5 & H6 & _) Hm Hb Hr. pose proof (unparsed_length c HB) as Hu.
  assert (Hz : zlen (take (Z.to_nat (bulklen c)) (unparsed c)) = bulklen c).
  { unfold zlen in *. rewrite length_take. lia. }
  destruct (read_argument_spec c (take (Z.to_nat (bulklen c)) (unparsed c)) (drop (Z.to_nat (bulklen c)) (unparsed c)) HB Hm H4 H5 H6)
    as (buf & pos & len & sum & -> & Hlen & Hpos & Hdrop & Hmaster); [by rewrite take_drop|done| |].
  { unfold zlen in *. rewrite length_drop. lia. }
  eexists. split; [done|]. assert (Hrem : rem (set_req (set_buf (set_args c (argv c ++ [take (Z.to_nat (bulklen c)) (unparsed c)]) len sum) buf pos)
    (reqtype c) (multibulklen c - 1) (-1)) = rem c - bulklen c - 2).
  { unfold rem at 1. simpl. apply (f_equal zlen) in Hdrop. unfold zlen in Hdrop at 2. rewrite !length_drop in Hdrop.
    unfold zlen in *. rewrite length_drop in Hdrop. lia. }
  split; [|split; [lia|done]]. pose proof (zlen_nonneg (argv c)). unfold reading, argc in *. simpl. rewrite zlen_app. change (zlen [_]) with 1. split_and!; try lia; try done.
  - split; simpl; [lia| |apply HB]. intros Hm'. change (has_flag c CLIENT_MASTER = true) in Hm'. destruct (Hmaster Hm') as [-> Hge].
    pose proof (bo_master c HB Hm'). lia.
Qed.

Lemma reading_error e c : reading c -> 0 < multibulklen c -> BufOk (protocol_failure c e) /\ ReqOk (protocol_failure c e).
Proof. intros Hr Hm. split; [by apply bufok_error, Hr|by apply reqok_error, reading_req]. Qed.

(** What a call leaves: a complete array, or a state to go on from. *)
Definition call_ok (r0 : Z) (r : client * bool) : Prop :=
  BufOk r.1 /\ rem r.1 <= r0 /\ if r.2 then reading r.1 /\ multibulklen r.1 = 0 /\ rem r.1 < r0 else ReqOk r.1.

Lemma multibulk_step c r0 :
  reading c -> rem c <= r0 -> (multibulklen c = 0 -> rem c < r0) ->
  (exists c', multibulk_body c = Some (inl c') /\ (reading c' /\ rem c' < r0) /\ rem c' < rem c) \/
  (exists r, multibulk_body c = Some (inr r) /\ call_ok r0 r).
Proof.
  intros Hr Hle Hlt. unfold multibulk_body. pose proof Hr as (HB & H1 & H2 & H3 & H4 & H5 & H6 & H7).
  destruct (Z.eqb_spec (multibulklen c) 0) as [Hm|Hm].
  { right. eexists. split; [done|]. split; [done|]. split; [done|]. simpl. split; [done|]. split; [done|by apply Hlt]. }
  assert (0 < multibulklen c) as Hpos by lia.
  assert (exists line, (if bulklen c =? -1 then read_bulklen c else Some (LineOk c)) = Some line /\
    match line with
    | LineMore => True
    | LineError c' => exists err, c' = protocol_failure c err
    | LineOk c' => reading c' /\ 0 <= bulklen c' /\ rem c' <= rem c /\ multibulklen c' = multibulklen c
    end) as (line & -> & Hline).
  { destruct (Z.eqb_spec (bulklen c) (-1)) as [Hb|Hb].
    - destruct (read_bulklen_safe c HB Hb) as (line & -> & Hl). exists line. split; [done|]. destruct line as [c'|c'|]; try done.
      destruct Hl as (buf & pos & ll & -> & Hll & HB' & Hrem). split_and!; try done; try lia. unfold reading, argc in *. simpl in *.
      split_and!; try done; lia.
    - exists (LineOk c). split; [done|]. split_and!; try done; lia. }
  cbn [mbind option_bind]. destruct line as [c'|c'|].
  - destruct Hline as (Hr' & Hb' & Hrem & Hmb). fold (rem c'). destruct (Z.ltb_spec (rem c') (bulklen c' + 2)) as [Hs|Hs].
    + right. eexists. split; [done|]. split; [apply Hr'|]. split; [simpl; lia|]. simpl. apply reading_req; [done|lia].
    + left. destruct (read_argument_safe c' Hr') as (c'' & -> & Hr'' & Hrem' & _); [lia|lia|lia|]. eexists. split; [done|].
      split; [split; [done|lia]|lia].
  - destruct Hline as (err & ->). right. eexists. split; [done|]. destruct (reading_error err c Hr Hpos) as [HB' HR'].
    split; [done|]. split; [exact Hle|done].
  - right. eexists. split; [done|]. split; [done|]. split; [done|]. by apply reading_req.
Qed.

Lemma multibulk_loop_safe c r0 :
  reading c -> rem c <= r0 -> (multibulklen c = 0 -> rem c < r0) ->
  exists r, loop (S (length (querybuf c))) multibulk_body c = Some r /\ call_ok r0 r.
Proof.
  intros Hr Hle Hlt.
  apply (loop_ok multibulk_body (fun c => reading c /\ rem c <= r0 /\ (multibulklen c = 0 -> rem c < r0)) (call_ok r0) rem); [|done|].
  - intros c' (Hr' & Hle' & Hlt'). pose proof (bo_pos c' (proj1 Hr')). split; [unfold rem; lia|].
    destruct (multibulk_step c' r0 Hr' Hle' Hlt') as [(c2 & E & [Hr2 H2] & H3)|Hdone]; [left|by right].
    exists c2. split; [done|]. split; [|done]. split; [done|]. split; [lia|done].
  - pose proof (bo_pos c (proj1 Hr)). unfold rem, zlen in *. lia.
Qed.

Lemma processMultibulkBuffer_safe c :
  BufOk c -> reqtype c = PROTO_REQ_MULTIBULK -> ReqOk c ->
  exists c' ok, processMultibulkBuffer c = Some (c', ok) /\ BufOk c' /\
    if ok : bool then reqtype c' = PROTO_REQ_MULTIBULK /\ rem c' < rem c else ReqOk c'.
Proof.
  intros HB Hrt HR. unfold processMultibulkBuffer.
  destruct HR as [H1 _ _ _|H1 _ _ _|H1 H2 H3 H4 H5|H1 H2 H3 H4 H5 H6]; try (rewrite H1 in Hrt; done).
  - rewrite H2. change (0 =? 0) with true. cbv iota.
    destruct (read_multibulklen_safe c HB H4 H3 H5) as (r & e & -> & Hr). cbn [mbind option_bind]. destruct r as [c'|c'|].
    + destruct Hr as (pos & Hpos & He). destruct e.
      * subst c'. eexists _, _. split; [done|]. split; [apply bufok_advance; [done|lia]|]. split; [done|]. unfold rem. simpl. lia.
      * destruct He as (ll & Hll & ->). simpl multibulklen. replace (ll >? 0) with true by lia. cbn [assert_true mbind option_bind].
        destruct (multibulk_loop_safe (set_args (set_req (set_buf c (querybuf c) pos) (reqtype c) ll (bulklen c)) [] (Z.min ll 1024) 0) (rem c))
          as ([c' ok] & E & HB' & Hle & Hok).
        { unfold reading, argc. simpl. unfold zlen. simpl. split_and!; try done; try lia.
          apply bufok_args, bufok_req, bufok_advance; [done|lia]. }
        { unfold rem. simpl. lia. }
        { simpl. lia. }
        simpl querybuf in E. simpl querybuf. rewrite E. eexists _, _. split; [done|]. split; [done|]. simpl in *.
        destruct ok; [|done]. destruct Hok as (Hrd & _ & Hlt). split; [apply Hrd|done].
    + destruct Hr as (-> & err & ->). eexists _, _. split; [done|]. split; [by apply bufok_error|]. apply reqok_error. by apply ReqCount.
    + subst e. eexists _, _. split; [done|]. split; [done|]. by apply ReqCount.
  - replace (multibulklen c =? 0) with false by lia. cbn [mbind option_bind]. replace (multibulklen c >? 0) with true by lia.
    cbn [assert_true mbind option_bind].
    assert (reading c) as Hr by (unfold reading; split_and!; try done; lia).
    destruct (multibulk_loop_safe c (rem c) Hr ltac:(lia) ltac:(lia)) as ([c' ok] & -> & HB' & Hle & Hok).
    eexists _, _. split; [done|]. split; [done|]. simpl in *. destruct ok; [|done]. destruct Hok as (Hrd & Hm0 & Hlt).
    split; [apply Hrd|done].
Qed.

(** ** Lines of text *)

Lemma processInlineBuffer_safe c :
  BufOk c -> reqtype c = PROTO_REQ_INLINE -> ReqOk c ->
  exists c' ok, processInlineBuffer c = Some (c', ok) /\ BufOk c' /\ if ok : bool then rem c' < rem c else ReqOk c'.
Proof.
  intros HB Hrt HR. pose proof (bo_pos c HB) as Hp. unfold processInlineBuffer.
  destruct (strchr (querybuf c) (qb_pos c) 10) as [nl|] eqn:Enl.
  2: { destruct (_ >? _); eexists _, _; (split; [done|]); split; [by apply bufok_error|by apply reqok_error|done|done]. }
  destruct (strchr_some _ _ _ _ Hp Enl) as (a & b & Ed & -> & Hlen). zlen_saturate.
  set (line := if negb _ then _ else _).
  assert (exists n lf, line = Some (n, lf) /\ qb_pos c <= n /\ 1 <= lf /\ n + lf = qb_pos c + zlen a + 1) as (n & lf & -> & Hn & Hlf & Hend).
  { unfold line. destruct (Z.eqb_spec (qb_pos c + zlen a) (qb_pos c)) as [Ez|Ez]; cbn [negb].
    - eexists _, _. split; [done|]. lia.
    - destruct (getb_next (querybuf c) (qb_pos c + zlen a - 1)) as (x & t & -> & _); [lia|]. cbn [mbind option_bind].
      destruct (x =? 13); eexists _, _; (split; [done|]); lia. }
  cbn [mbind option_bind]. assert (exists aux, mem_read (querybuf c) (qb_pos c) (n - qb_pos c) = Some aux) as (aux & ->).
  { unfold mem_read. rewrite !(proj2 (Z.leb_le _ _)) by lia. by eexists. }
  cbn [mbind option_bind].
  destruct (sdssplitargs_total aux) as ([args|] & ->); cbn [mbind option_bind].
  2: { eexists _, _. split; [done|]. split; [by apply bufok_error|by apply reqok_error]. }
  set (c1 := if _ && is_slave c then _ else c).
  assert (BufOk c1 /\ ReqOk c1 /\ querybuf c1 = querybuf c /\ qb_pos c1 = qb_pos c) as (HB1 & HR1 & Hq1 & Hp1).
  { unfold c1. destruct (_ && _); [|done]. split_and!; [|clear -HR|done|done].
    - destruct HB as [B1 B2 B3]. by split.
    - by apply (reqok_same c). }
  cbv zeta. fold c1. destruct (negb (n - qb_pos c =? 0) && has_flag c1 CLIENT_MASTER).
  { eexists _, _. split; [done|]. split; [by apply bufok_closed|by apply reqok_closed]. }
  eexists _, _. split; [done|]. rewrite Hq1, Hp1.
  assert (BufOk (set_buf c1 (querybuf c1) (qb_pos c + (n - qb_pos c + lf)))) as HB2 by (apply bufok_advance; [done|rewrite Hp1, Hq1; lia]).
  rewrite Hq1 in HB2. split.
  - destruct (negb _); repeat apply bufok_args; done.
  - unfold rem. destruct (negb _); simpl; lia.
Qed.

(** ** What the parsers leave alone *)

Lemma read_bulklen_kept c r :
  read_bulklen c = Some r -> match r with LineOk c' | LineError c' => duration c' = duration c | LineMore => True end.
Proof.
  unfold read_bulklen. destruct (strchr _ _ _) as [nl|]; [|destruct (_ >? _); by intros [= <-]].
  destruct (_ >? _); [by intros [= <-]|]. destruct (getb _ _) as [b|]; [cbn [mbind option_bind]|done].
  destruct (negb _); [by intros [= <-]|]. destruct (parse_ll _ _ _) as [[ll|]|]; cbn [mbind option_bind]; [|by intros [= <-]|done].
  destruct (_ || _); [by intros [= <-]|]. destruct (_ && _); [by intros [= <-]|]. intros [= <-]. by destruct (_ && _ && _).
Qed.

Lemma read_argument_kept c c' : read_argument c = Some c' -> duration c' = duration c.
Proof.
  unfold read_argument. cbv zeta. set (c1 := if _ >=? _ then _ else _).
  assert (duration c1 = duration c) as <- by (unfold c1; by destruct (_ >=? _)).
  clearbody c1. destruct (assert_true _); [cbn [mbind option_bind]|done].
  destruct (_ && _ && _ && _); (destruct (mem_read _ _ _); [cbn [mbind option_bind]|done]); by intros [= <-].
Qed.

Lemma multibulk_loop_duration fuel : forall c r, loop fuel multibulk_body c = Some r -> duration r.1 = duration c.
Proof.
  induction fuel as [|fuel IH]; intros c r; [done|]. cbn [loop]. unfold multibulk_body at 1.
  destruct (multibulklen c =? 0); [by intros [= <-]|].
  destruct (if bulklen c =? -1 then read_bulklen c else Some (LineOk c)) as [line|] eqn:El; [|done]. cbn [mbind option_bind].
  assert (match line with LineOk c' | LineError c' => duration c' = duration c | LineMore => True end) as Hl.
  { destruct (bulklen c =? -1); [by apply read_bulklen_kept|by injection El as <-]. }
  destruct line as [c1|c1|]; [|by intros [= <-]|by intros [= <-]].
  destruct (_ <? _); [by intros [= <-]|]. destruct (read_argument c1) as [c2|] eqn:Ea; [|done]. cbn [mbind option_bind].
  intros Hr%IH. by rewrite Hr, (read_argument_kept _ _ Ea).
Qed.

Lemma multibulk_duration c r : processMultibulkBuffer c = Some r -> duration r.1 = duration c.
Proof.
  unfold processMultibulkBuffer. destruct (multibulklen c =? 0).
  - unfold read_multibulklen. destruct (assert_true _); [cbn [mbind option_bind]|done].
    destruct (strchr _ _ _) as [nl|]; [|destruct (_ >? _); by intros [= <-]].
    destruct (_ >? _); [by intros [= <-]|]. destruct (getb _ _) as [b|]; [cbn [mbind option_bind]|done].
    destruct (assert_true _); [cbn [mbind option_bind]|done].
    destruct (parse_ll _ _ _) as [[ll|]|]; cbn [mbind option_bind]; [|by intros [= <-]|done].
    destruct (_ >? INT32_MAX); [by intros [= <-]|]. destruct (_ && _); [by intros [= <-]|].
    destruct (_ <=? _); [by intros [= <-]|]. cbn [mbind option_bind]. destruct (assert_true _); [cbn [mbind option_bind]|done].
    intros Hr%multibulk_loop_duration. exact Hr.
  - cbn [mbind option_bind]. destruct (assert_true _); [cbn [mbind option_bind]|done]. apply multibulk_loop_duration.
Qed.

Lemma inline_duration c r : processInlineBuffer c = Some r -> duration r.1 = duration c.
Proof.
  unfold processInlineBuffer. destruct (strchr _ _ _) as [nl|]; [|destruct (_ >? _); by intros [= <-]].
  match goal with |- context [mbind _ ?m] => destruct m as [[n lf]|]; [cbn [mbind option_bind]|done] end.
  destruct (mem_read _ _ _) as [aux|]; [cbn [mbind option_bind]|done].
  destruct (sdssplitargs aux) as [[args|]|]; [cbn [mbind option_bind]|by intros [= <-]|done].
  cbv zeta. set (c1 := if _ && is_slave c then _ else c).
  assert (duration c1 = duration c) as <- by (unfold c1; by destruct (_ && is_slave c)). clearbody c1.
  destruct (_ && _); intros [= <-]; [done|]. simpl. by destruct (negb _).
Qed.

(** One of two flags. *)
Lemma flag_union c f g : has_flag c g = true -> has_flag c (Z.lor f g) = true.
Proof.
  unfold has_flag. rewrite !negb_true_iff, !Z.eqb_neq. intros Hg E. rewrite Z.land_lor_distr_r in E.
  apply Z.lor_eq_0_iff in E. tauto.
Qed.

(** ** The input loop *)

Context `{!ServerOk Sv}.

Lemma commandProcessed_safe s c :
  BufOk c -> (has_flag c CLIENT_BLOCKED = false -> duration c = 0) ->
  exists s' c', commandProcessed s c = Some (s', c') /\ ClientOk c' /\ rem c' = rem c.
Proof.
  intros HB Hd. unfold commandProcessed. destruct (has_flag c CLIENT_BLOCKED) eqn:Eb.
  { eexists _, _. split; [done|]. split; [|done]. split; [done|]. left. left. by left. }
  destruct (reset_keeps c (Hd eq_refl)) as (c1 & -> & Hrs). cbn [mbind option_bind].
  destruct (reset_ok c c1 Hrs HB) as (HB1 & HR1 & <-).
  assert (duration c1 = 0) as Hd1 by (destruct Hrs as [_ _ _ _ (_ & _ & -> & _)]; by apply Hd). clear Hrs.
  cbv zeta. destruct (has_flag c1 CLIENT_MASTER) eqn:Em.
  2: { cbn [andb]. rewrite Em. eexists _, _. split; [done|]. split; [split; [done|by right]|done]. }
  pose proof (bo_pos c1 HB1) as Hp. destruct (bo_master c1 HB1 Em) as [Ha Hoff].
  destruct (has_flag c1 CLIENT_MULTI); cbn [andb negb].
  - rewrite Em, Z.sub_diag. eexists _, _. split; [done|]. split; [split; [done|by right]|done].
  - set (c2 := set_repl c1 _ _ _ _). change (has_flag c2 CLIENT_MASTER) with (has_flag c1 CLIENT_MASTER). rewrite Em.
    change (reploff c2) with (read_reploff c1 - zlen (querybuf c1) + qb_pos c1).
    change (repl_applied c2) with (repl_applied c1). change (querybuf c2) with (querybuf c1).
    replace (read_reploff c1 - zlen (querybuf c1) + qb_pos c1 - reploff c1) with (qb_pos c1 - repl_applied c1) by lia.
    assert (HRr : forall o r a k, ReqOk (set_repl c1 o r a k) /\ duration (set_repl c1 o r a k) = 0).
    { intros. split; [by apply (reqok_same c1)|done]. }
    destruct (Z.eqb_spec (qb_pos c1 - repl_applied c1) 0) as [Ez|Ez]; cbn [negb].
    + eexists _, _. split; [done|]. split; [|done]. split; [|right; apply HRr]. split; [done| |apply HB1]. intros _. simpl. lia.
    + assert (exists part, mem_read (querybuf c1) (repl_applied c1) (qb_pos c1 - repl_applied c1) = Some part) as (part & ->).
      { unfold mem_read. rewrite !(proj2 (Z.leb_le _ _)) by lia. by eexists. }
      cbn [mbind option_bind]. eexists _, _. split; [done|]. split; [|done]. split; [|right; apply HRr].
      split; [done| |apply HB1]. intros _. simpl. lia.
Qed.

(** The execution of a parsed command. *)
Lemma execute_safe s c :
  BufOk c -> duration c = 0 ->
  exists s' c' alive, processCommandAndResetClient s c = Some (s', c', alive) /\
    (alive = true -> ClientOk c' /\ rem c' = rem c).
Proof.
  intros HB Hd. unfold processCommandAndResetClient. destruct (processCommand s c) as [[[s3 c3] ok] alive] eqn:Ep.
  assert (alive = true -> BufOk c3 /\ rem c3 = rem c) as Hframe.
  { intros ->. destruct (process_frame _ _ _ _ _ Ep) as (F1 & F2 & F3 & F4 & F5 & F6 & F7).
    split; [by apply (bufok_same c)|]. unfold rem. by rewrite F1, F2. }
  destruct ok.
  - pose proof (process_alive _ _ _ _ _ Ep) as ->. destruct (Hframe eq_refl) as [HB3 Hr3].
    destruct (commandProcessed_safe s3 c3 HB3) as (s4 & c4 & -> & Hc4 & Hr4).
    { intros Hb. by apply (process_duration _ _ _ _ Hd Ep). }
    cbn [mbind option_bind]. eexists _, _, _. split; [done|]. intros _. split; [done|lia].
  - cbn [mbind option_bind]. eexists _, _, _. split; [done|]. intros ->. destruct (Hframe eq_refl) as [HB3 Hr3].
    split; [|done]. split; [done|]. left. right. by apply (process_refused _ _ _ _ (bo_real c HB) Ep).
Qed.

(** The type of a request is known from its first byte. *)
Definition typed (c : client) (b : Z) : client :=
  if reqtype c =? 0
  then set_req c (if b =? 42 then PROTO_REQ_MULTIBULK else PROTO_REQ_INLINE) (multibulklen c) (bulklen c) else c.

Lemma typed_ok c b :
  BufOk c -> ReqOk c -> getb (querybuf c) (qb_pos c) = Some b ->
  BufOk (typed c b) /\ ReqOk (typed c b) /\ rem (typed c b) = rem c /\ duration (typed c b) = duration c /\
  (reqtype (typed c b) = PROTO_REQ_INLINE \/ reqtype (typed c b) = PROTO_REQ_MULTIBULK).
Proof.
  intros HB HR Hb. unfold typed. destruct HR as [R1 R2 R3 R4|R1 R2 R3 R4|R1 R2 R3 R4 R5|R1 R2 R3 R4 R5 R6]; rewrite R1; simpl.
  - destruct (Z.eqb_spec b 42) as [->|Hb42]; (split; [by apply bufok_req|]); (split; [|split; [done|split; [done|simpl; tauto]]]).
    + by apply ReqCount.
    + by apply ReqInline.
  - split_and!; [done|by apply ReqInline|done|done|tauto].
  - split_and!; [done|by apply ReqCount|done|done|tauto].
  - split_and!; [done|by apply ReqArgs|done|done|tauto].
Qed.

(** One call of the parser of the request's type. *)
Lemma parse_safe c :
  BufOk c -> ReqOk c -> reqtype c = PROTO_REQ_INLINE \/ reqtype c = PROTO_REQ_MULTIBULK ->
  exists c' ok, (if reqtype c =? PROTO_REQ_INLINE then processInlineBuffer c
      else if reqtype c =? PROTO_REQ_MULTIBULK then processMultibulkBuffer c else None) = Some (c', ok) /\ BufOk c' /\
    duration c' = duration c /\ if ok : bool then rem c' < rem c else ReqOk c'.
Proof.
  intros HB HR [Hrt|Hrt]; rewrite Hrt; simpl.
  - destruct (processInlineBuffer_safe c HB Hrt HR) as (c' & ok & E & HB' & Hok). exists c', ok. split; [done|]. split; [done|].
    split; [by apply (inline_duration c (c', ok))|done].
  - destruct (processMultibulkBuffer_safe c HB Hrt HR) as (c' & ok & E & HB' & Hok). exists c', ok. split; [done|]. split; [done|].
    split; [by apply (multibulk_duration c (c', ok))|]. destruct ok; [apply Hok|done].
Qed.

(** One turn: it ends, or it goes on with less input. *)
Lemma input_step s c :
  ClientOk c ->
  (exists s' c', input_body (s, c) = Some (inl (s', c')) /\ ClientOk c' /\ rem c' < rem c) \/
  (exists s' c' b, input_body (s, c) = Some (inr (s', c', b)) /\ (b = true -> ClientOk c')).
Proof.
  intros Hc. pose proof Hc as [HB HR]. pose proof (bo_pos c HB) as Hp. unfold input_body.
  destruct (Z.ltb_spec (qb_pos c) (zlen (querybuf c))) as [Hlt|Hge]; cbn [negb]; [|right; by eexists _, _, _].
  destruct (has_flag c CLIENT_BLOCKED) eqn:E1; [right; by eexists _, _, _|].
  destruct (has_flag c CLIENT_PENDING_COMMAND) eqn:E2; [right; by eexists _, _, _|].
  destruct (_ && _); [right; by eexists _, _, _|].
  destruct (has_flag c (Z.lor _ _)) eqn:E3; [right; by eexists _, _, _|].
  destruct HR as [[[Hbusy|Hbusy]|Hcl]|[HR Hd]]; [congruence|congruence|by rewrite (flag_union _ _ _ Hcl) in E3|].
  destruct (getb_next (querybuf c) (qb_pos c) ltac:(lia)) as (b & t & Hb & _). rewrite Hb. cbn [mbind option_bind].
  cbv zeta. fold (typed c b). destruct (typed_ok c b HB HR Hb) as (HB1 & HR1 & Hrem1 & Hd1 & Hrt).
  destruct (parse_safe (typed c b) HB1 HR1 Hrt) as (c2 & ok & -> & HB2 & Hd2 & Hok). cbn [mbind option_bind].
  assert (duration c2 = 0) as Hd0 by congruence. destruct ok; cbn [negb].
  2: { right. eexists _, _, _. split; [done|]. intros _. split; [done|by right]. }
  destruct (argc c2 =? 0).
  { left. destruct (reset_keeps c2 Hd0) as (c3 & -> & Hrs). cbn [mbind option_bind]. eexists _, _. split; [done|].
    destruct (reset_ok c2 c3 Hrs HB2) as (HB3 & HR3 & Hr3). split; [split; [done|right; split; [done|]]|lia].
    by destruct Hrs as [_ _ _ _ (_ & _ & -> & _)]. }
  destruct io_threads_op eqn:Eio; [| |by destruct (parsing_phase Eio)].
  - destruct (execute_safe s c2 HB2 Hd0) as (s3 & c3 & alive & -> & Ha). cbn [mbind option_bind]. destruct alive.
    + destruct (Ha eq_refl) as [Hc3 Hr3]. left. eexists _, _. split; [done|]. split; [done|lia].
    + right. by eexists _, _, _.
  - right. cbn [assert_true mbind option_bind]. eexists _, _, _. split; [done|]. intros _. split; [by apply bufok_flags|]. left. left. right.
    unfold CLIENT_PENDING_COMMAND. rewrite has_flag_bit by done. cbn [flags set_state].
    rewrite Z.lor_spec, testbit_shiftl_1 by done. apply orb_true_r.
Qed.

Lemma processInputBuffer_safe s c :
  ClientOk c -> exists s' c' alive, processInputBuffer s c = Some (s', c', alive) /\ (alive = true -> ClientOk c').
Proof.
  intros Hc. unfold processInputBuffer.
  destruct (loop_ok input_body (fun st => ClientOk st.2) (fun r => r.2 = true -> ClientOk r.1.2) (fun st => rem st.2))
    with (fuel := Datatypes.S (length (querybuf c))) (s := (s, c)) as ([[s1 c1] trim] & -> & Hq).
  - intros [s1 c1] Hc1. pose proof (bo_pos c1 (co_buf c1 Hc1)). split; [unfold rem; simpl; lia|].
    destruct (input_step s1 c1 Hc1) as [(s2 & c2 & E & H2 & H3)|(s2 & c2 & b & E & H2)].
    + left. exists (s2, c2). by split.
    + right. exists (s2, c2, b). by split.
  - done.
  - pose proof (bo_pos c (co_buf c Hc)). unfold rem, zlen in *. simpl. lia.
  - cbn [mbind option_bind]. destruct trim; cbn [negb]; [|by eexists _, _, _]. simpl in Hq. destruct (Hq eq_refl) as [HB HR].
    eexists _, _, _. split; [done|]. intros _. pose proof (bo_pos c1 HB) as Hp.
    assert (Hcut : forall pos, 0 <= pos <= qb_pos c1 -> getb (drop (Z.to_nat pos) (querybuf c1)) (qb_pos c1 - pos) = getb (querybuf c1) (qb_pos c1)).
    { intros pos Hpos. unfold getb. rewrite !(proj2 (Z.leb_le _ _)) by lia. rewrite lookup_drop. f_equal. lia. }
    assert (Hz : forall pos, 0 <= pos <= qb_pos c1 -> zlen (drop (Z.to_nat pos) (querybuf c1)) = zlen (querybuf c1) - pos).
    { intros pos Hpos. unfold zlen in *. rewrite length_drop. lia. }
    destruct (has_flag c1 CLIENT_MASTER) eqn:Em.
    + destruct (bo_master c1 HB Em) as [Ha Hoff]. destruct (Z.eqb_spec (repl_applied c1) 0) as [E0|E0]; cbn [negb]; [by split|].
      split; [split; simpl; [rewrite Hz by lia; lia|rewrite Hz by lia; intros _; lia|apply HB]|]. destruct HR as [HR|[HR Hd]]; [by left|right; split; [|done]].
      apply (reqok_same c1); try done. simpl. by rewrite Hcut by lia.
    + destruct (Z.eqb_spec (qb_pos c1) 0) as [E0|E0]; cbn [negb]; [by split|].
      split; [apply bufok_cut; [done|done|]; rewrite Hz; lia|]. destruct HR as [HR|[HR Hd]]; [by left|right; split; [|done]].
      apply (reqok_same c1); try done. simpl. rewrite <- (Hcut (qb_pos c1)) by lia. by rewrite Z.sub_diag.
Qed.

Lemma freeClientAsync_ok c : ClientOk c -> ClientOk (freeClientAsync c).
Proof.
  intros [HB HR]. unfold freeClientAsync. destruct (_ || _); [by split|]. split; [by apply bufok_flags|].
  left. right. unfold CLIENT_CLOSE_ASAP. rewrite has_flag_bit by done. cbn [flags set_state].
  rewrite Z.lor_spec, testbit_shiftl_1 by done. apply orb_true_r.
Qed.

Lemma readQueryFromClient_safe s c r :
  ClientOk c -> exists s' c', readQueryFromClient s c r = Some (s', c') /\ (forall c1, c' = Some c1 -> ClientOk c1).
Proof.
  intros Hc. unfold readQueryFromClient. destruct r as [bytes| |].
  2: { eexists _, _. split; [done|]. by intros c1 [= <-]. }
  2: { eexists _, _. split; [done|]. intros c1 [= <-]. by apply freeClientAsync_ok. }
  cbv zeta. set (c1 := if has_flag _ CLIENT_MASTER then _ else _).
  assert (ClientOk c1) as Hc1.
  { pose proof Hc as [HB HR]. pose proof (bo_pos c HB) as Hp. pose proof (zlen_nonneg bytes).
    assert (Hb : forall b, getb (querybuf c) (qb_pos c) = Some b -> getb (querybuf c ++ bytes) (qb_pos c) = Some b).
    { intros b. unfold getb. destruct (0 <=? qb_pos c); [|done]. apply lookup_app_l_Some. }
    unfold c1. destruct (has_flag _ CLIENT_MASTER) eqn:Em; (split; [|destruct HR as [HR|[HR Hd]]; [by left|right; split; [by apply (reqok_same c)|done]]]).
    - split; simpl; [rewrite zlen_app; lia| |apply HB]. rewrite zlen_app. intros _. change (has_flag c CLIENT_MASTER = true) in Em.
      destruct (bo_master c HB Em). lia.
    - apply bufok_cut; [done|exact Em|]. rewrite zlen_app. lia. }
  clearbody c1. destruct (_ && _).
  { eexists _, _. split; [done|]. intros c2 [= <-]. by apply freeClientAsync_ok. }
  destruct (processInputBuffer_safe s c1 Hc1) as (s' & c' & alive & -> & Ha). cbn [mbind option_bind].
  eexists _, _. split; [done|]. intros c2 Hc2. destruct alive; [|done]. injection Hc2 as <-. by apply Ha.
Qed.

(** Any number of reads. *)
Fixpoint read_all (s : srv) (c : client) (rs : list read_result) : option (srv * option client) :=
  match rs with
  | [] => Some (s, Some c)
  | r :: rs =>
      '(s, c) ← readQueryFromClient s c r;
      match c with None => Some (s, None) | Some c => read_all s c rs end
  end.

Lemma read_all_safe rs : forall s c,
  ClientOk c -> exists s' c', read_all s c rs = Some (s', c') /\ (forall c1, c' = Some c1 -> ClientOk c1).
Proof.
  induction rs as [|r rs IH]; intros s c Hc; [eexists _, _; split; [done|]; by intros c1 [= <-]|].
  simpl. destruct (readQueryFromClient_safe s c r Hc) as (s1 & c1 & -> & Hc1). cbn [mbind option_bind].
  destruct c1 as [c1|]; [by apply IH, Hc1|]. by eexists _, _.
Qed.
End Safety.
