(* ===== verification/RespStream.v ===== *)
(** * The request parser: streams of commands

    The commands of a client, encoded as RESP arrays and cut into reads at any place, are
    executed one by one as they were sent. *)
From S2P Require Import Prelude Numstr NumstrFacts NumstrProps Split Resp RespFacts.

(** ** The encoding *)

Definition numeral (v : Z) : list Z :=
  default [] ('(buf, n) ← ll2string (replicate 21 0) 0 21 v; mem_read buf 0 n).

Definition enc_bulk (a : list Z) : list Z := 36 :: numeral (zlen a) ++ 13 :: 10 :: a ++ [13; 10].
Definition enc_bulks (args : list (list Z)) : list Z := concat (enc_bulk <$> args).
Definition enc_cmd (args : list (list Z)) : list Z := 42 :: numeral (zlen args) ++ 13 :: 10 :: enc_bulks args.
Definition enc (cmds : list (list (list Z))) : list Z := concat (enc_cmd <$> cmds).

Lemma numeral_ok v : in_int64 v -> IsDec (numeral v) v.
Proof.
  intros Hv. destruct (ll2string_spec [] (replicate 21 0) [] v Hv) as (s & Hs & E). pose proof (IsDec_length s v Hs Hv) as Hl.
  replace (zlen s <? zlen (replicate 21 0)) with true in E by (change (zlen (replicate 21 0)) with 21; lia).
  unfold numeral. change (ll2string (replicate 21 0) 0 21 v)
    with (ll2string ([] ++ replicate 21 0 ++ []) (zlen (@nil Z)) (zlen (replicate 21 0)) v).
  rewrite E. cbn [mbind option_bind].
  rewrite (mem_read_mid [] s); done.
Qed.

Lemma numeral_digits v : 0 <= v -> in_int64 v -> numeral v <> [] /\ Forall (fun x => x <> 13 /\ x <> 0) (numeral v) /\ zlen (numeral v) <= 20.
Proof.
  intros H0 Hv. pose proof (numeral_ok v Hv) as Hd. pose proof (IsDec_length _ _ Hd Hv) as Hl.
  unfold IsDec in Hd. replace (v <? 0) with false in Hd by lia. destruct (IsDecU_value _ _ Hd) as (_ & Had & Hne).
  split; [done|]. split; [|lia]. eapply Forall_impl; [exact Had|]. simpl. lia.
Qed.

(** ** A length line *)

Lemma strchr_from_hit a ch b i : Forall (fun x => x <> ch /\ x <> 0) a -> strchr_from (a ++ ch :: b) ch i = Some (i + zlen a).
Proof.
  revert i. induction a as [|x a IH]; intros i Ha; simpl.
  - rewrite Z.eqb_refl. f_equal. unfold zlen. simpl. lia.
  - apply Forall_cons in Ha as [[H1 H2] Ha]. replace (x =? ch) with false by lia. replace (x =? 0) with false by lia.
    rewrite IH by done. rewrite zlen_cons. f_equal. lia.
Qed.

Lemma strchr_from_miss a ch i : Forall (fun x => x <> ch /\ x <> 0) a -> strchr_from a ch i = None.
Proof.
  revert i. induction a as [|x a IH]; intros i Ha; simpl; [done|].
  apply Forall_cons in Ha as [[H1 H2] Ha]. replace (x =? ch) with false by lia. replace (x =? 0) with false by lia. by apply IH.
Qed.

(** A part of a stream that starts with a line contains the line, or stops inside it. *)
Lemma line_prefix (u rest l X : list Z) :
  u ++ rest = l ++ 13 :: 10 :: X ->
  (exists t, u = l ++ 13 :: 10 :: t /\ t ++ rest = X) \/
  (u `prefix_of` l \/ u = l ++ [13]) /\ rest <> [].
Proof.
  intros E. destruct (decide (length u <= length l)%nat) as [Hs|Hs].
  - right. assert (u = take (length u) l) as Hu.
    { apply (f_equal (take (length u))) in E. rewrite take_app_length, take_app_le in E by lia. done. }
    split; [left; rewrite Hu; apply prefix_take|]. intros ->. apply (f_equal length) in E.
    rewrite app_nil_r, length_app in E. simpl in E. lia.
  - assert (exists v, u = l ++ v) as [v ->].
    { exists (drop (length l) u). rewrite <- (take_drop (length l) u) at 1. f_equal.
      apply (f_equal (take (length l))) in E. rewrite take_app_le, take_app_length in E by lia. done. }
    rewrite <- app_assoc in E. apply app_inv_head in E. destruct v as [|x [|y v]]; simpl in E.
    + rewrite app_nil_r in Hs. lia.
    + injection E as -> ->. right. split; [by right|done].
    + injection E as -> -> <-. left. by exists v.
Qed.

Lemma parse_line c h v t :
  BufOk c -> unparsed c = (h :: numeral v) ++ 13 :: 10 :: t -> in_int64 v ->
  parse_ll (querybuf c) (qb_pos c + 1) (qb_pos c + zlen (h :: numeral v)) = Some (Some v).
Proof.
  intros HB Hu Hv. unfold parse_ll. rewrite zlen_cons. pose proof (bo_pos c HB) as Hp.
  replace (qb_pos c + (1 + zlen (numeral v)) - (qb_pos c + 1)) with (zlen (numeral v)) by lia.
  replace (Z.to_nat (qb_pos c + 1)) with (Z.to_nat (qb_pos c) + 1)%nat by lia. rewrite <- drop_drop.
  fold (unparsed c). rewrite Hu. change (drop 1 ((h :: numeral v) ++ 13 :: 10 :: t)) with (numeral v ++ 13 :: 10 :: t).
  destruct (string2ll_spec (numeral v) (13 :: 10 :: t)) as (o & -> & Ho). f_equal. apply Ho. split; [by apply numeral_ok|done].
Qed.

(** What the parser finds when a length line comes next. *)
Lemma next_line c h v rest X :
  BufOk c -> h <> 13 -> h <> 0 -> 0 <= v -> in_int64 v -> unparsed c ++ rest = h :: numeral v ++ 13 :: 10 :: X ->
  (exists t nl, unparsed c = h :: numeral v ++ 13 :: 10 :: t /\ t ++ rest = X /\ strchr (querybuf c) (qb_pos c) 13 = Some nl /\
     nl - qb_pos c >? zlen (querybuf c) - qb_pos c - 2 = false /\ nl = qb_pos c + zlen (h :: numeral v) /\
     parse_ll (querybuf c) (qb_pos c + 1) nl = Some (Some v)) \/
  (rest <> [] /\ (unparsed c <> [] -> getb (querybuf c) (qb_pos c) = Some h) /\
   match strchr (querybuf c) (qb_pos c) 13 with
   | None => zlen (querybuf c) - qb_pos c >? PROTO_INLINE_MAX_SIZE = false
   | Some nl => nl - qb_pos c >? zlen (querybuf c) - qb_pos c - 2 = true
   end).
Proof.
  intros HB H1 H2 H0 Hv E. destruct (numeral_digits v H0 Hv) as (_ & Hd & Hl20). pose proof (bo_pos c HB) as Hp.
  assert (Hline : Forall (fun x => x <> 13 /\ x <> 0) (h :: numeral v)) by (by constructor).
  pose proof (unparsed_length c HB) as Hul. unfold rem in Hul. unfold strchr. fold (unparsed c).
  destruct (line_prefix (unparsed c) rest (h :: numeral v) X) as [(t & Hu & HX)|[Hpart Hne]]; [exact E| |].
  - left. exists t, (qb_pos c + zlen (h :: numeral v)). split; [exact Hu|]. split; [done|]. split.
    { rewrite Hu. by apply strchr_from_hit. }
    split; [|split; [done|by eapply parse_line]]. rewrite Hu in Hul. rewrite zlen_app, !zlen_cons in Hul. rewrite zlen_cons.
    zlen_saturate. lia.
  - right. split; [done|]. split.
    { intros Hnil. destruct (unparsed c) as [|x u] eqn:Eu; [done|]. simpl in E. injection E as -> _.
      apply (getb_drop _ _ h u); [lia|exact Eu]. }
    destruct Hpart as [Hpre|Hcr].
    + rewrite strchr_from_miss by (destruct Hpre as [k Hk]; rewrite Hk in Hline; by apply Forall_app in Hline as [? _]).
      rewrite <- Hul. apply prefix_length in Hpre. rewrite Z.gtb_ltb. apply Z.ltb_ge. unfold PROTO_INLINE_MAX_SIZE.
      assert (zlen (unparsed c) <= zlen (h :: numeral v)) by (unfold zlen; lia). rewrite zlen_cons in *. lia.
    + rewrite Hcr, strchr_from_hit by done. rewrite Hcr, zlen_app in Hul. change (zlen [13]) with 1 in Hul. lia.
Qed.

(** ** The arguments of a command *)

Section Stream.
Context `{Sv : Server}.

Definition arg_ok (auth : bool) (a : list Z) : Prop :=
  zlen a <= proto_max_bulk_len /\ in_int64 (zlen a) /\ (auth = true -> zlen a <= 16384).
Definition cmd_ok (auth : bool) (args : list (list Z)) : Prop :=
  args <> [] /\ zlen args <= INT32_MAX /\ (auth = true -> zlen args <= 10) /\ Forall (arg_ok auth) args.

(** What parsing does not touch. *)
Definition frame (c0 c : client) : Prop :=
  flags c = flags c0 /\ authenticated c = authenticated c0 /\ errors c = errors c0 /\
  mstate_argv_len_sums c = mstate_argv_len_sums c0 /\ duration c = duration c0.

Lemma frame_flag c0 c f : frame c0 c -> has_flag c f = has_flag c0 f.
Proof. intros (E & _). unfold has_flag. by rewrite E. Qed.
Lemma frame_auth c0 c : frame c0 c -> authRequired c = authRequired c0.
Proof. intros (_ & E & _). unfold authRequired. by rewrite E. Qed.

(** The client [c] has read the arguments [done] of a command and waits for [todo]; [rest]
    are the bytes that have not arrived. *)
Record Mid (c0 : client) (rest : list Z) (done todo : list (list Z)) (cmds : list (list (list Z))) (c : client) : Prop := {
  mid_frame : frame c0 c;
  mid_buf : BufOk c;
  mid_type : reqtype c = PROTO_REQ_MULTIBULK;
  mid_argv : argv c = done;
  mid_count : multibulklen c = zlen todo;
  mid_max : zlen done + zlen todo <= INT32_MAX;
  mid_room : zlen done <= argv_len c /\ 1 <= argv_len c;
  mid_bytes :
    (bulklen c = -1 /\ unparsed c ++ rest = enc_bulks todo ++ enc cmds) \/
    (exists a todo', todo = a :: todo' /\ bulklen c = zlen a /\ unparsed c ++ rest = a ++ 13 :: 10 :: enc_bulks todo' ++ enc cmds);
}.

(** Reading the length of the next argument. *)
Lemma mid_length c0 rest done a todo cmds c :
  has_flag c0 CLIENT_MASTER = false -> arg_ok (authRequired c0) a ->
  Mid c0 rest done (a :: todo) cmds c -> bulklen c = -1 ->
  (exists c', read_bulklen c = Some (LineOk c') /\ Mid c0 rest done (a :: todo) cmds c' /\ bulklen c' = zlen a /\ rem c' < rem c) \/
  (read_bulklen c = Some LineMore /\ rest <> []).
Proof.
  intros Hma (Hmax & H64 & Hauth) [F HB Ht Hv Hc Hx [Hr1 Hr2] Hbytes] Hbl. pose proof (zlen_nonneg a) as Ha0.
  destruct Hbytes as [[_ Hb]|(a' & todo' & _ & Hbl' & _)]; [|zlen_saturate; lia].
  unfold enc_bulks in Hb. rewrite fmap_cons in Hb. cbn [concat] in Hb. fold (enc_bulks todo) in Hb.
  unfold enc_bulk in Hb. rewrite <- !app_comm_cons, <- !app_assoc in Hb. rewrite <- !app_comm_cons, <- !app_assoc in Hb. simpl in Hb.
  unfold read_bulklen.
  destruct (next_line c 36 (zlen a) rest (a ++ 13 :: 10 :: enc_bulks todo ++ enc cmds) HB ltac:(done) ltac:(done) Ha0 H64 Hb)
    as [(t & nl & Hu & Ht' & -> & -> & Hnl & Hll)|(Hne & _ & Hmore)].
  2: { right. split; [|done]. destruct (strchr _ _ _) as [nl|]; rewrite Hmore; done. }
  left. pose proof (bo_pos c HB) as Hp. rewrite (getb_drop _ _ 36 (numeral (zlen a) ++ 13 :: 10 :: t)) by (done || lia). cbn [mbind option_bind].
  change (negb (36 =? 36)) with false. cbv iota. rewrite Hll. cbn [mbind option_bind].
  rewrite (frame_flag _ _ _ F), Hma. cbn [negb andb]. replace (zlen a <? 0) with false by lia.
  replace (zlen a >? proto_max_bulk_len) with false by lia. cbn [orb]. rewrite (frame_auth _ _ F).
  assert ((zlen a >? 16384) && authRequired c0 = false) as ->.
  { destruct (authRequired c0); [|apply andb_false_r]. specialize (Hauth eq_refl). rewrite andb_true_r. lia. }
  set (L := 36 :: numeral (zlen a)) in *. change (unparsed c = L ++ 13 :: 10 :: t) in Hu.
  assert (Hrem : rem c = zlen L + 2 + zlen t) by (rewrite <- (unparsed_length c HB), Hu, zlen_app, !zlen_cons; lia).
  assert (Hdrop : drop (Z.to_nat (nl + 2)) (querybuf c) = t).
  { replace (Z.to_nat (nl + 2)) with (Z.to_nat (qb_pos c) + (length L + 2))%nat by (rewrite Hnl; unfold zlen; lia).
    rewrite <- drop_drop. fold (unparsed c). by rewrite Hu, <- drop_drop, drop_app_length. }
  unfold rem in Hrem. zlen_saturate. eexists. split; [done|]. simpl qb_pos. simpl querybuf.
  change (has_flag (set_buf c (querybuf c) (nl + 2)) CLIENT_MASTER) with (has_flag c CLIENT_MASTER).
  rewrite (frame_flag _ _ _ F), Hma. cbn [negb andb]. destruct (_ && _).
  - split; [|split; [done|]].
    + split; try done; [|right; exists a, todo; split; [done|]; split; [done|]].
      * apply bufok_req. apply (bufok_cut (set_buf c (querybuf c) (nl + 2)));
          [apply bufok_advance; [done|lia]|change (has_flag c CLIENT_MASTER = false); by rewrite (frame_flag _ _ _ F)|]. zlen_saturate. lia.
      * unfold unparsed. simpl. rewrite drop_0, Hdrop. done.
    + unfold rem. simpl. rewrite Hdrop. zlen_saturate. lia.
  - split; [|split; [done|]].
    + split; try done; [|right; exists a, todo; split; [done|]; split; [done|]].
      * apply bufok_req, bufok_advance; [done|lia].
      * unfold unparsed. simpl. rewrite Hdrop. done.
    + unfold rem. simpl. lia.
Qed.

(** Reading an argument whose length is known. *)
Lemma mid_argument c0 rest done a todo cmds c :
  has_flag c0 CLIENT_MASTER = false -> Mid c0 rest done (a :: todo) cmds c -> bulklen c = zlen a ->
  (zlen (querybuf c) - qb_pos c <? bulklen c + 2 = false /\
   exists c', read_argument c = Some c' /\ Mid c0 rest (done ++ [a]) todo cmds c' /\ rem c' < rem c) \/
  (zlen (querybuf c) - qb_pos c <? bulklen c + 2 = true /\ rest <> []).
Proof.
  intros Hma [F HB Ht Hv Hc Hx [Hr1 Hr2] Hbytes] Hbl. pose proof (zlen_nonneg a) as Ha0. rewrite zlen_cons in *.
  destruct Hbytes as [[Hbl' _]|(a' & todo' & [= <- <-] & _ & Hb)]; [zlen_saturate; lia|]. fold (rem c).
  pose proof (unparsed_length c HB) as Hul. rewrite Hbl.
  destruct (line_prefix _ _ _ _ Hb) as [(t & Hu & HY)|[Hpart Hne]].
  - left. rewrite Hu, zlen_app, !zlen_cons in Hul. zlen_saturate. split; [lia|].
    destruct (read_argument_spec c a (13 :: 10 :: t) HB) as (buf & pos & len & sum & -> & Hlen & Hpos & Hdrop & _);
      [lia|unfold argc; rewrite Hv; lia|unfold argc; rewrite Hv; lia|done|done|done|rewrite !zlen_cons; lia|].
    change (drop 2 (13 :: 10 :: t)) with (drop 0 t) in Hdrop. rewrite drop_0 in Hdrop.
    assert (Hz : zlen buf - pos = zlen t) by (rewrite <- Hdrop; unfold zlen in *; rewrite length_drop; lia).
    eexists. split; [done|]. split; [|unfold rem in *; simpl; lia].
    split; try done; simpl.
    + apply bufok_req. apply (bufok_cut (set_args c (argv c ++ [a]) len sum)); [by apply bufok_args| |done].
      change (has_flag c CLIENT_MASTER = false). by rewrite (frame_flag _ _ _ F).
    + by rewrite Hv.
    + lia.
    + rewrite zlen_app. change (zlen [a]) with 1. lia.
    + rewrite zlen_app. change (zlen [a]) with 1. rewrite Hv in Hlen. split; lia.
    + left. split; [done|]. unfold unparsed. simpl. by rewrite Hdrop.
  - right. split; [|done]. destruct Hpart as [Hpre|Hcr].
    + apply prefix_length in Hpre. unfold zlen in *. lia.
    + rewrite Hcr, zlen_app in Hul. change (zlen [13]) with 1 in Hul. lia.
Qed.

Definition call_result (c0 : client) (rest : list Z) (args : list (list Z)) (cmds : list (list (list Z))) (r : client * bool) : Prop :=
  if r.2 then Mid c0 rest args [] cmds r.1
  else exists done todo, args = done ++ todo /\ todo <> [] /\ Mid c0 rest done todo cmds r.1 /\ rest <> [].

Lemma mid_loop c0 rest args cmds done todo c :
  has_flag c0 CLIENT_MASTER = false -> Forall (arg_ok (authRequired c0)) args -> args = done ++ todo ->
  Mid c0 rest done todo cmds c ->
  exists r, loop (S (length (querybuf c))) multibulk_body c = Some r /\ call_result c0 rest args cmds r.
Proof.
  intros Hma Hargs Hsplit HM.
  apply (loop_ok multibulk_body (fun c => exists done todo, args = done ++ todo /\ Mid c0 rest done todo cmds c) _ rem).
  - clear c done todo Hsplit HM. intros c (done & todo & Hsplit & HM). pose proof (bo_pos c (mid_buf _ _ _ _ _ _ HM)) as Hp.
    split; [unfold rem; lia|]. unfold multibulk_body. rewrite (mid_count _ _ _ _ _ _ HM).
    destruct todo as [|a todo].
    { right. eexists. split; [done|]. rewrite app_nil_r in Hsplit. by subst args. }
    rewrite zlen_cons. zlen_saturate. replace (1 + zlen todo =? 0) with false by lia.
    assert (Ha : arg_ok (authRequired c0) a) by (rewrite Hsplit, Forall_app, Forall_cons in Hargs; apply Hargs).
    assert (Hsplit' : args = (done ++ [a]) ++ todo) by (by rewrite <- app_assoc).
    assert ((exists c1, (if bulklen c =? -1 then read_bulklen c else Some (LineOk c)) = Some (LineOk c1) /\
               Mid c0 rest done (a :: todo) cmds c1 /\ bulklen c1 = zlen a /\ rem c1 <= rem c) \/
            ((if bulklen c =? -1 then read_bulklen c else Some (LineOk c)) = Some LineMore /\ rest <> []))
      as [(c1 & -> & HM1 & Hb1 & Hr1)|[-> Hne]].
    { destruct (mid_bytes _ _ _ _ _ _ HM) as [[Hb _]|(a' & t' & [= <- <-] & Hb & _)]; rewrite Hb.
      - destruct (mid_length c0 rest done a todo cmds c Hma Ha HM Hb) as [(c1 & -> & H1 & H2 & H3)|[-> Hne]]; [left|by right].
        exists c1. split; [done|]. split; [done|]. split; [done|lia].
      - left. exists c. pose proof (zlen_nonneg a). replace (zlen a =? -1) with false by lia. split; [done|]. split; [done|]. split; [done|lia]. }
    + cbn [mbind option_bind]. destruct (mid_argument c0 rest done a todo cmds c1 Hma HM1 Hb1) as [[-> (c2 & -> & HM2 & Hr2)]|[-> Hne]].
      * left. exists c2. split; [done|]. split; [by exists (done ++ [a]), todo|lia].
      * right. eexists. split; [done|]. by exists done, (a :: todo).
    + cbn [mbind option_bind]. right. eexists. split; [done|]. by exists done, (a :: todo).
  - by exists done, todo.
  - pose proof (bo_pos c (mid_buf _ _ _ _ _ _ HM)). unfold rem, zlen in *. lia.
Qed.

Lemma frame_refl c : frame c c.
Proof. done. Qed.

(** ** A call of the array parser *)

Lemma process_mid rest args cmds done todo c0 c :
  has_flag c0 CLIENT_MASTER = false -> Forall (arg_ok (authRequired c0)) args -> args = done ++ todo -> todo <> [] ->
  Mid c0 rest done todo cmds c ->
  exists r, processMultibulkBuffer c = Some r /\ call_result c0 rest args cmds r.
Proof.
  intros Hma Hargs Hsplit Hne HM. unfold processMultibulkBuffer. pose proof (mid_count _ _ _ _ _ _ HM) as Hc.
  assert (0 < zlen todo) as Hpos by (destruct todo; [done|rewrite zlen_cons; zlen_saturate; lia]).
  replace (multibulklen c =? 0) with false by lia. cbn [mbind option_bind]. replace (multibulklen c >? 0) with true by lia.
  cbn [assert_true mbind option_bind]. by eapply mid_loop.
Qed.

(** The count of the array comes next. *)
Record Start (c0 : client) (rest : list Z) (cmds : list (list (list Z))) (c : client) : Prop := {
  st_frame : frame c0 c;
  st_buf : BufOk c;
  st_argv : argv c = [];
  st_mb : multibulklen c = 0;
  st_bl : bulklen c = -1;
  st_bytes : unparsed c ++ rest = enc cmds;
}.

Lemma process_count rest args cmds c0 c :
  has_flag c0 CLIENT_MASTER = false -> cmd_ok (authRequired c0) args -> Start c0 rest (args :: cmds) c ->
  reqtype c = PROTO_REQ_MULTIBULK -> unparsed c <> [] ->
  exists r, processMultibulkBuffer c = Some r /\ (call_result c0 rest args cmds r \/ r = (c, false) /\ rest <> []).
Proof.
  intros Hma (Hne & Hmax & Hauth & Hargs) [F HB Hav Hmb Hbl Hb] Hrt Hun. pose proof (zlen_nonneg args) as Ha0.
  assert (Hpos : 0 < zlen args) by (destruct args; [done|rewrite zlen_cons; zlen_saturate; lia]).
  assert (H64 : in_int64 (zlen args)) by (unfold in_int64; unfold_limits; unfold INT32_MAX in *; lia).
  unfold enc in Hb. rewrite fmap_cons in Hb. cbn [concat] in Hb. fold (enc cmds) in Hb. unfold enc_cmd in Hb.
  rewrite <- app_comm_cons, <- app_assoc, <- !app_comm_cons in Hb.
  unfold processMultibulkBuffer, read_multibulklen, argc. rewrite Hmb, Hav. change (0 =? 0) with true.
  change (zlen (@nil (list Z)) =? 0) with true. cbv iota. cbn [assert_true mbind option_bind].
  destruct (next_line c 42 (zlen args) rest (enc_bulks args ++ enc cmds) HB ltac:(done) ltac:(done) Ha0 H64 Hb)
    as [(t & nl & Hu & Ht & -> & -> & Hnl & Hll)|(Hne' & _ & Hmore)].
  2: { destruct (strchr _ _ _) as [nl|]; rewrite Hmore; eexists; (split; [done|]); by right. }
  pose proof (bo_pos c HB) as Hp. rewrite (getb_drop _ _ 42 (numeral (zlen args) ++ 13 :: 10 :: t)) by (done || lia).
  cbn [mbind option_bind assert_true]. change (42 =? 42) with true. cbn [assert_true mbind option_bind].
  rewrite (Z.add_comm 1), Hll. cbn [mbind option_bind]. replace (zlen args >? INT32_MAX) with false by lia.
  rewrite (frame_auth _ _ F). assert ((zlen args >? 10) && authRequired c0 = false) as ->.
  { destruct (authRequired c0); [|apply andb_false_r]. specialize (Hauth eq_refl). rewrite andb_true_r. lia. }
  replace (zlen args <=? 0) with false by lia. cbn [mbind option_bind]. simpl multibulklen.
  replace (zlen args >? 0) with true by lia. cbn [assert_true mbind option_bind].
  set (L := 42 :: numeral (zlen args)) in *. change (unparsed c = L ++ 13 :: 10 :: t) in Hu.
  assert (Hrem : rem c = zlen L + 2 + zlen t) by (rewrite <- (unparsed_length c HB), Hu, zlen_app, !zlen_cons; lia).
  assert (Hdrop : drop (Z.to_nat (nl + 2)) (querybuf c) = t).
  { replace (Z.to_nat (nl + 2)) with (Z.to_nat (qb_pos c) + (length L + 2))%nat by (rewrite Hnl; unfold zlen; lia).
    rewrite <- drop_drop. fold (unparsed c). by rewrite Hu, <- drop_drop, drop_app_length. }
  set (c1 := set_args _ [] _ 0).
  assert (Mid c0 rest [] args cmds c1) as HM.
  { unfold rem in Hrem. zlen_saturate. split; try done.
    - apply bufok_args, bufok_req, bufok_advance; [done|lia].
    - simpl. unfold zlen at 1. simpl. lia.
    - left. split; [done|]. unfold unparsed. simpl. by rewrite Hdrop. }
  destruct (mid_loop c0 rest args cmds [] args c1 Hma Hargs eq_refl HM) as (r & E & Hr).
  change (querybuf c1) with (querybuf c) in E. simpl querybuf. rewrite E. eexists. split; [done|]. by left.
Qed.

(** ** The input loop *)

(** A connection that is not blocked, not closing, in no transaction and not that of a master. *)
Record quiet (c : client) : Prop := {
  qu_master : has_flag c CLIENT_MASTER = false;
  qu_blocked : has_flag c CLIENT_BLOCKED = false;
  qu_pending : has_flag c CLIENT_PENDING_COMMAND = false;
  qu_reply : has_flag c CLIENT_CLOSE_AFTER_REPLY = false;
  qu_asap : has_flag c CLIENT_CLOSE_ASAP = false;
  qu_multi : has_flag c CLIENT_MULTI = false;
  qu_script : has_flag c CLIENT_SCRIPT = false;
}.

Lemma quiet_frame c0 c : quiet c0 -> frame c0 c -> quiet c.
Proof. intros [H1 H2 H3 H4 H5 H6 H7] F. split; by rewrite (frame_flag _ _ _ F). Qed.

Lemma quiet_reset c c' : quiet c -> Reset c c' -> quiet c'.
Proof. intros [H1 H2 H3 H4 H5 H6 H7] Hr. split; (etransitivity; [by apply (rs_flag _ _ Hr)|done]). Qed.

Lemma quiet_closing c : quiet c -> has_flag c (Z.lor CLIENT_CLOSE_AFTER_REPLY CLIENT_CLOSE_ASAP) = false.
Proof.
  intros [_ _ _ H4 H5 _ _]. unfold has_flag in *. rewrite negb_false_iff, Z.eqb_eq in *. by rewrite Z.land_lor_distr_r, H4, H5.
Qed.

(** The commands still to come, of which [rest] has not arrived. *)
Inductive Expect (rest : list Z) (cmds : list (list (list Z))) (c : client) : Prop :=
  | ex_idle : Start c rest cmds c -> reqtype c = 0 -> Expect rest cmds c
  | ex_count : Start c rest cmds c -> reqtype c = PROTO_REQ_MULTIBULK -> unparsed c <> [] -> Expect rest cmds c
  | ex_mid done todo cmds' : cmds = (done ++ todo) :: cmds' -> todo <> [] -> Mid c rest done todo cmds' c -> Expect rest cmds c.

Lemma expect_buf rest cmds c : Expect rest cmds c -> BufOk c.
Proof. intros [H _|H _ _|d t k _ _ H]; [apply H|apply H|by eapply mid_buf]. Qed.

(** Nothing is left when everything has arrived and has been parsed. *)
Lemma expect_end cmds c : Expect [] cmds c -> unparsed c = [] -> cmds = [].
Proof.
  intros [HS _|HS _ Hne|done todo cmds' -> Hne HM] Hu.
  - pose proof (st_bytes _ _ _ _ HS) as Hb. rewrite Hu in Hb. by destruct cmds.
  - done.
  - exfalso. destruct todo as [|a todo]; [done|].
    destruct (mid_bytes _ _ _ _ _ _ HM) as [[_ Hb]|(a' & t' & _ & _ & Hb)]; rewrite Hu in Hb; [done|]. by destruct a'.
Qed.

(** What stays from command to command: the connection is quiet, the time of its commands is
    recorded, no authentication is lost, no protocol error is reported, nothing is queued. *)
Definition conn (c0 c : client) : Prop :=
  quiet c /\ (authRequired c = true -> authRequired c0 = true) /\ errors c = errors c0 /\
  mstate_argv_len_sums c = mstate_argv_len_sums c0 /\ duration c = 0.

Lemma cmd_ok_auth c0 c cmds : conn c0 c -> Forall (cmd_ok (authRequired c0)) cmds -> Forall (cmd_ok (authRequired c)) cmds.
Proof.
  intros (_ & Ha & _) Hf. eapply Forall_impl; [exact Hf|]. intros args (H1 & H2 & H3 & H4). split; [done|]. split; [done|]. split; [tauto|].
  eapply Forall_impl; [exact H4|]. intros a (A1 & A2 & A3). split; [done|]. split; [done|tauto].
Qed.

Lemma conn_frame c0 c c' : conn c0 c -> frame c c' -> conn c0 c'.
Proof.
  intros (Hq & E1 & E2 & E3 & E4) F. split; [by eapply quiet_frame|]. rewrite (frame_auth _ _ F). split; [done|].
  destruct F as (_ & _ & F2 & F3 & F4). by rewrite F2, F3, F4.
Qed.

Lemma conn_reset c0 c c' : conn c0 c -> Reset c c' -> conn c0 c'.
Proof.
  intros (Hq & E1 & E2 & E3 & E4) Hr. split; [by eapply quiet_reset|]. destruct (rs_rest _ _ Hr) as (R1 & R2 & R3 & R4).
  unfold authRequired in *. by rewrite R1, R2, R3, R4.
Qed.

(** The command [args] of the connection [c0] is executed at once: whatever the state of the
    server, and of the connection as far as it may vary, it succeeds with the effect [run],
    leaves the query buffer alone and keeps the connection as it was. *)
Definition executes (c0 : client) (run : srv -> list (list Z) -> srv) (args : list (list Z)) : Prop :=
  forall s c, argv c = args -> conn c0 c ->
    exists c', processCommand s c = (run s args, c', true, true) /\ querybuf c' = querybuf c /\ qb_pos c' = qb_pos c /\ conn c0 c'.

Context (run : srv -> list (list Z) -> srv).
Context (Hidle : io_threads_op = IO_THREADS_OP_IDLE).

(** A state reached from a connection, as a state of its own. *)
Lemma mid_self c0 rest done todo cmds c : Mid c0 rest done todo cmds c -> Mid c rest done todo cmds c.
Proof. intros [H1 H2 H3 H4 H5 H6 H7 H8]. by split. Qed.

(** A command leaves a client without a request, behind the bytes of the command. *)
Lemma executed c0 s c :
  executes c0 run (argv c) -> conn c0 c -> BufOk c ->
  exists c', processCommandAndResetClient s c = Some (run s (argv c), c', true) /\ conn c0 c' /\ BufOk c' /\
    (reqtype c' = 0 /\ multibulklen c' = 0 /\ bulklen c' = -1 /\ argv c' = []) /\ querybuf c' = querybuf c /\ qb_pos c' = qb_pos c.
Proof.
  intros Hx Hc HB. unfold processCommandAndResetClient. destruct (Hx s c eq_refl Hc) as (c1 & -> & Q1 & Q2 & Hc1).
  pose proof Hc1 as (Hq & _ & _ & _ & Hd). unfold commandProcessed. rewrite (qu_blocked _ Hq).
  destruct (reset_keeps c1 Hd) as (c2 & -> & Hr). cbn [mbind option_bind]. cbv zeta.
  pose proof (conn_reset _ _ _ Hc1 Hr) as Hc2. pose proof (qu_master _ (proj1 Hc2)) as Hm. rewrite Hm. cbn [andb]. rewrite Hm.
  destruct (rs_buf _ _ Hr) as [B1 B2]. exists c2. split; [done|]. split; [done|]. rewrite B1, B2, Q1, Q2. split; [|split; [apply Hr|done]].
  split; [rewrite B1, B2, Q1, Q2; apply HB|congruence|apply Hc2].
Qed.

(** The parser's answer at a turn with input. *)
Lemma input_parse rest cmds c0 c :
  conn c0 c -> Forall (cmd_ok (authRequired c)) cmds -> Expect rest cmds c -> unparsed c <> [] ->
  exists args cmds' c' ok, cmds = args :: cmds' /\
    (let c1 := if reqtype c =? 0
               then set_req c PROTO_REQ_MULTIBULK (multibulklen c) (bulklen c) else c in
     reqtype c1 = PROTO_REQ_MULTIBULK /\ processMultibulkBuffer c1 = Some (c', ok)) /\ conn c0 c' /\
    (reqtype c = 0 -> getb (querybuf c) (qb_pos c) = Some 42) /\ args <> [] /\
    if ok : bool then Mid c' rest args [] cmds' c' else Expect rest cmds c' /\ rest <> [].
Proof.
  intros Hconn Hcmds HE Hun. assert (Hma : has_flag c CLIENT_MASTER = false) by apply Hconn.
  assert (HS : forall c1, Start c rest cmds c1 -> reqtype c1 = PROTO_REQ_MULTIBULK -> frame c c1 -> unparsed c1 <> [] ->
    exists args cmds' c' ok, cmds = args :: cmds' /\ processMultibulkBuffer c1 = Some (c', ok) /\ conn c0 c' /\ args <> [] /\
      if ok : bool then Mid c' rest args [] cmds' c' else Expect rest cmds c' /\ rest <> []).
  { intros c1 HS Hrt F Hu1. destruct cmds as [|args cmds'].
    { pose proof (st_bytes _ _ _ _ HS) as Hb. by destruct (unparsed c1). }
    apply Forall_cons in Hcmds as [Hcmd _].
    destruct (process_count rest args cmds' c c1 Hma Hcmd HS Hrt Hu1) as ([c' ok] & E & Hr).
    exists args, cmds', c', ok. split; [done|]. split; [done|]. destruct Hr as [Hr|[[= -> ->] Hne]].
    - unfold call_result in Hr. simpl in Hr. destruct ok.
      + split; [eapply conn_frame; [exact Hconn|apply Hr]|]. split; [apply Hcmd|]. by eapply mid_self.
      + destruct Hr as (done & todo & -> & Hnt & HM & Hne). split; [eapply conn_frame; [exact Hconn|apply HM]|].
        split; [apply Hcmd|]. split; [|done]. eapply ex_mid; [done|done|by eapply mid_self].
    - split; [by eapply conn_frame|]. split; [apply Hcmd|]. split; [|done].
      apply ex_count; [|done|done]. destruct HS as [_ ? ? ? ? ?]. by split. }
  destruct HE as [HS0 Hrt|HS0 Hrt _|done todo cmds' -> Hne HM].
  - assert (frame c (set_req c PROTO_REQ_MULTIBULK (multibulklen c) (bulklen c))) as F by done.
    destruct (HS (set_req c PROTO_REQ_MULTIBULK (multibulklen c) (bulklen c))) as (args & cmds' & c' & ok & -> & E & H1 & H2 & H3);
      [|done|done|done|].
    { destruct HS0 as [? HB ? ? ? ?]. split; try done. by apply bufok_req. }
    exists args, cmds', c', ok. split; [done|]. rewrite Hrt. simpl. split; [by split|]. split; [done|]. split; [|done].
    intros _. pose proof (st_bytes _ _ _ _ HS0) as Hb. pose proof (bo_pos c (st_buf _ _ _ _ HS0)).
    destruct (unparsed c) as [|x u] eqn:Eu; [done|]. injection Hb as -> _. apply (getb_drop _ _ 42 u); [lia|exact Eu].
  - destruct (HS c HS0 Hrt (frame_refl c) Hun) as (args & cmds' & c' & ok & -> & E & H1 & H2 & H3).
    exists args, cmds', c', ok. split; [done|]. rewrite Hrt. simpl. split; [by split|]. split; [done|]. by split.
  - apply Forall_cons in Hcmds as [(Hn & _ & _ & Hargs) _].
    destruct (process_mid rest (done ++ todo) cmds' done todo c c Hma Hargs eq_refl Hne HM) as ([c' ok] & E & Hr).
    exists (done ++ todo), cmds', c', ok. split; [done|]. rewrite (mid_type _ _ _ _ _ _ HM). simpl.
    split; [split; [by eapply mid_type|done]|]. unfold call_result in Hr. simpl in Hr. destruct ok.
    + split; [eapply conn_frame; [exact Hconn|apply Hr]|]. split; [done|]. split; [done|]. by eapply mid_self.
    + destruct Hr as (d & t & Ed & Hnt & HM' & Hne'). split; [eapply conn_frame; [exact Hconn|apply HM']|].
      split; [done|]. split; [done|]. split; [|done]. eapply ex_mid; [by rewrite Ed|done|by eapply mid_self].
Qed.

Lemma expect_req rest cmds c : Expect rest cmds c -> ReqOk c.
Proof.
  intros HE. destruct HE as [HS Hrt|HS Hrt Hne|done todo cmds' -> Hne HM].
  - destruct HS. by apply ReqNone.
  - destruct HS as [_ HB H1 H2 H3 H4]. apply ReqCount; try done. pose proof (bo_pos c HB).
    destruct (unparsed c) as [|x u] eqn:Eu; [done|]. destruct cmds as [|args cmds]; [done|]. injection H4 as -> _.
    apply (getb_drop _ _ 42 u); [lia|exact Eu].
  - destruct HM as [_ HB H1 H2 H3 H4 [H5 H6] H7]. assert (0 < zlen todo) by (destruct todo; [done|rewrite zlen_cons; zlen_saturate; lia]).
    apply ReqArgs; unfold argc; rewrite ?H2, ?H3; try done; try lia. zlen_saturate. destruct H7 as [[-> _]|(a & t & _ & -> & _)]; zlen_saturate; lia.
Qed.

Lemma input_turn rest cmds c0 s c :
  conn c0 c -> Forall (cmd_ok (authRequired c0)) cmds -> Forall (executes c0 run) cmds -> Expect rest cmds c ->
  (exists c', input_body (s, c) = Some (inr (s, c', true)) /\ conn c0 c' /\ Expect rest cmds c' /\ (rest = [] -> cmds = [])) \/
  (exists args cmds' c', cmds = args :: cmds' /\ input_body (s, c) = Some (inl (run s args, c')) /\ conn c0 c' /\
     Expect rest cmds' c' /\ rem c' < rem c).
Proof.
  intros Hconn Hcmds Hexec HE. pose proof (expect_buf _ _ _ HE) as HB. pose proof (bo_pos c HB) as Hp.
  pose proof (unparsed_length c HB) as Hul.
  destruct (unparsed c) as [|x u] eqn:Eu.
  { left. exists c. unfold rem, zlen in Hul. simpl in Hul. split; [|split; [done|split; [done|]]].
    - unfold input_body. replace (qb_pos c <? zlen (querybuf c)) with false by (unfold zlen; lia). done.
    - intros ->. by apply (expect_end cmds c). }
  assert (Hun : unparsed c <> []) by (by rewrite Eu). rewrite zlen_cons in Hul. zlen_saturate.
  destruct (input_parse rest cmds c0 c Hconn (cmd_ok_auth _ _ _ Hconn Hcmds) HE Hun)
    as (args & cmds' & c2 & ok & -> & [Hrt E] & Hconn2 & H42 & Hargs & Hres).
  unfold input_body. unfold rem in Hul. replace (qb_pos c <? zlen (querybuf c)) with true by lia. cbn [negb].
  pose proof (proj1 Hconn) as Hq. rewrite (qu_blocked _ Hq), (qu_pending _ Hq), (qu_master _ Hq), andb_false_r, (quiet_closing _ Hq).
  destruct (getb_next (querybuf c) (qb_pos c) ltac:(lia)) as (b & t & Hb & _). rewrite Hb. cbn [mbind option_bind]. cbv zeta.
  fold (typed c b). assert (typed c b = if reqtype c =? 0 then set_req c PROTO_REQ_MULTIBULK (multibulklen c) (bulklen c) else c) as Ec1.
  { unfold typed. destruct (Z.eqb_spec (reqtype c) 0) as [E0|E0]; [|done]. rewrite Hb in H42. specialize (H42 E0). by injection H42 as ->. }
  destruct (typed_ok c b HB (expect_req _ _ _ HE) Hb) as (HB1 & HR1 & Hrem1 & _ & _). rewrite <- Ec1 in Hrt, E.
  destruct (processMultibulkBuffer_safe (typed c b) HB1 Hrt HR1) as (c2' & ok' & E' & HB2 & Hok).
  rewrite E in E'. injection E' as <- <-. rewrite Hrt. change (PROTO_REQ_MULTIBULK =? PROTO_REQ_INLINE) with false.
  change (PROTO_REQ_MULTIBULK =? PROTO_REQ_MULTIBULK) with true. cbv iota. rewrite E. cbn [mbind option_bind].
  destruct ok; cbn [negb]; [|left; exists c2; by destruct Hres as [HE2 Hne]].
  right. assert (argc c2 =? 0 = false) as ->.
  { unfold argc. rewrite (mid_argv _ _ _ _ _ _ Hres). destruct args; [done|]. rewrite zlen_cons. zlen_saturate. lia. }
  rewrite Hidle. apply Forall_cons in Hexec as [Hx _]. rewrite <- (mid_argv _ _ _ _ _ _ Hres) in Hx.
  destruct (executed c0 s c2 Hx Hconn2 HB2) as (c3 & -> & Hc3 & HB3 & (R1 & R2 & R3 & R4) & Q1 & Q2). cbn [mbind option_bind].
  rewrite (mid_argv _ _ _ _ _ _ Hres). exists args, cmds', c3. split; [done|]. split; [done|]. split; [done|].
  assert (unparsed c3 = unparsed c2) as Eu3 by (unfold unparsed; by rewrite Q1, Q2). split.
  - apply ex_idle; [|done]. split; try done. rewrite Eu3. by destruct (mid_bytes _ _ _ _ _ _ Hres) as [[_ ?]|(a & t' & ? & _)].
  - unfold rem in *. rewrite Q1, Q2, <- Hrem1. apply Hok.
Qed.

Lemma input_stream rest cmds c0 s c :
  conn c0 c -> Forall (cmd_ok (authRequired c0)) cmds -> Forall (executes c0 run) cmds -> Expect rest cmds c ->
  exists cmds1 cmds2 c', cmds = cmds1 ++ cmds2 /\ processInputBuffer s c = Some (foldl run s cmds1, c', true) /\
    conn c0 c' /\ Expect rest cmds2 c' /\ qb_pos c' = 0 /\ (rest = [] -> cmds2 = []).
Proof.
  intros Hconn Hcmds Hexec HE. unfold processInputBuffer.
  set (I := fun st : srv * client => exists cmds1 cmds2, cmds = cmds1 ++ cmds2 /\ st.1 = foldl run s cmds1 /\ conn c0 st.2 /\ Expect rest cmds2 st.2).
  destruct (loop_ok input_body I (fun r => I r.1 /\ r.2 = true /\ (rest = [] -> exists cmds1, cmds = cmds1 /\ r.1.1 = foldl run s cmds1 /\ Expect rest [] r.1.2))
    (fun st => rem st.2)) with (fuel := S (length (querybuf c))) (s := (s, c)) as ([[s1 c1] trim] & -> & (H1 & H2 & H3)).
  - intros [s1 c1] (cmds1 & cmds2 & Ecm & Es & Hc1 & HE1). simpl in Es, Hc1, HE1. pose proof (bo_pos c1 (expect_buf _ _ _ HE1)).
    split; [simpl; unfold rem; lia|]. rewrite Ecm, Forall_app in Hcmds, Hexec. destruct Hcmds as [_ Hcmds2], Hexec as [_ Hexec2].
    destruct (input_turn rest cmds2 c0 s1 c1 Hc1 Hcmds2 Hexec2 HE1) as [(c' & -> & Hc' & HE' & Hend)|(args & cmds' & c' & -> & -> & Hc' & HE' & Hr)].
    + right. exists (s1, c', true). split; [done|]. split; [by exists cmds1, cmds2|]. split; [done|].
      intros Hrest. specialize (Hend Hrest). subst cmds2. rewrite app_nil_r in Ecm. by exists cmds1.
    + left. exists (run s1 args, c'). split; [done|]. split; [|done]. exists (cmds1 ++ [args]), cmds'. simpl.
      rewrite <- app_assoc, foldl_app. simpl. by rewrite <- Es.
  - exists [], cmds. done.
  - pose proof (bo_pos c (expect_buf _ _ _ HE)). simpl. unfold rem, zlen in *. lia.
  - simpl in H2. subst trim. cbn [mbind option_bind negb].
    assert (exists cmds1 cmds2, cmds = cmds1 ++ cmds2 /\ s1 = foldl run s cmds1 /\ conn c0 c1 /\ Expect rest cmds2 c1 /\ (rest = [] -> cmds2 = []))
      as (cmds1 & cmds2 & Ecm & -> & Hc1 & HE1 & Hend).
    { destruct (decide (rest = [])) as [Hr|Hr].
      - destruct (H3 Hr) as (cmds1 & <- & Es & HE'). exists cmds, []. rewrite app_nil_r. destruct H1 as (_ & _ & _ & _ & Hc & _). done.
      - destruct H1 as (cmds1 & cmds2 & H1). exists cmds1, cmds2. destruct H1 as (A & B & C & D). done. }
    pose proof (expect_buf _ _ _ HE1) as HB1. pose proof (bo_pos c1 HB1) as Hp1.
    rewrite (qu_master _ (proj1 Hc1)). destruct (Z.eqb_spec (qb_pos c1) 0) as [E0|E0]; cbn [negb].
    { by exists cmds1, cmds2, c1. }
    exists cmds1, cmds2. eexists. split; [done|]. split; [done|]. split; [by eapply conn_frame|]. split; [|done].
    set (c2 := set_buf c1 _ 0). assert (unparsed c2 = unparsed c1) as Eu by done.
    assert (BufOk c2) as HB2 by (apply bufok_cut; [done|apply Hc1|zlen_saturate; lia]).
    destruct HE1 as [HS Hrt|HS Hrt Hne|done todo cmds' -> Hne HM].
    + apply ex_idle; [|done]. destruct HS. by split.
    + apply ex_count; [|done|done]. destruct HS. by split.
    + eapply ex_mid; [done|done|]. destruct HM as [? ? ? ? ? ? ? Hby]. by split.
Qed.

(** ** A sequence of reads *)

Definition within_limit (c : client) (n : Z) : Prop :=
  mstate_argv_len_sums c + n <= client_max_querybuf_len /\
  (authRequired c = true -> mstate_argv_len_sums c + n <= 1024 * 1024).

(** The bytes of the commands to come never exceed the whole stream. *)
Lemma expect_bytes rest cmds c : Expect rest cmds c -> zlen (unparsed c ++ rest) <= zlen (enc cmds).
Proof.
  intros [HS _|HS _ _|done todo cmds' -> _ HM].
  - by rewrite (st_bytes _ _ _ _ HS).
  - by rewrite (st_bytes _ _ _ _ HS).
  - assert (Hsplit : zlen (enc_bulks todo) + zlen (enc cmds') <= zlen (enc ((done ++ todo) :: cmds'))).
    { unfold enc at 2. rewrite fmap_cons. cbn [concat]. fold (enc cmds'). unfold enc_cmd, enc_bulks. rewrite fmap_app, concat_app.
      autorewrite with zlen. zlen_saturate. lia. }
    destruct (mid_bytes _ _ _ _ _ _ HM) as [[_ Hb]|(a & t & -> & _ & Hb)]; rewrite Hb.
    + rewrite zlen_app. lia.
    + unfold enc_bulks in Hsplit at 1. rewrite fmap_cons in Hsplit. cbn [concat] in Hsplit. fold (enc_bulks t) in Hsplit.
      unfold enc_bulk in Hsplit. autorewrite with zlen in *. zlen_saturate. lia.
Qed.

Lemma expect_arrive bytes rest cmds c :
  Expect (bytes ++ rest) cmds c -> has_flag c CLIENT_MASTER = false ->
  Expect rest cmds (set_buf c (querybuf c ++ bytes) (qb_pos c)).
Proof.
  intros HE Hm. pose proof (expect_buf _ _ _ HE) as HB. pose proof (bo_pos c HB) as Hp.
  set (c' := set_buf c _ _). assert (Eu : unparsed c' = unparsed c ++ bytes).
  { unfold unparsed. simpl. rewrite drop_app_le; [done|]. unfold zlen in Hp. lia. }
  assert (HB' : BufOk c') by (apply bufok_cut; [done|done|rewrite zlen_app; zlen_saturate; lia]).
  destruct HE as [HS Hrt|HS Hrt Hne|done todo cmds' -> Hne HM].
  - apply ex_idle; [|done]. destruct HS. split; try done. by rewrite Eu, <- app_assoc.
  - apply ex_count; [|done|]. { destruct HS. split; try done. by rewrite Eu, <- app_assoc. }
    rewrite Eu. by destruct (unparsed c).
  - eapply ex_mid; [done|done|]. destruct HM as [? ? ? ? ? ? ? Hby]. split; try done. by rewrite Eu, <- app_assoc.
Qed.

Lemma read_stream_spec chunks : forall c0 cmds s c,
  conn c0 c -> Forall (cmd_ok (authRequired c0)) cmds -> Forall (executes c0 run) cmds -> Expect (concat chunks) cmds c -> qb_pos c = 0 ->
  within_limit c0 (zlen (enc cmds)) -> (chunks = [] -> cmds = []) ->
  exists c', read_all s c (ReadBytes <$> chunks) = Some (foldl run s cmds, Some c') /\ conn c0 c' /\ Expect [] [] c' /\ qb_pos c' = 0.
Proof.
  induction chunks as [|bytes chunks IH]; intros c0 cmds s c Hconn Hcmds Hexec HE Hpos Hlim Hnil.
  { rewrite (Hnil eq_refl) in *. by exists c. }
  rewrite fmap_cons. cbn [read_all concat] in *. unfold readQueryFromClient. cbv zeta.
  pose proof (qu_master _ (proj1 Hconn)) as Hm.
  change (has_flag (set_buf c (querybuf c ++ bytes) (qb_pos c)) CLIENT_MASTER) with (has_flag c CLIENT_MASTER). rewrite Hm.
  change (has_flag (set_buf c (querybuf c ++ bytes) (qb_pos c)) CLIENT_MASTER) with (has_flag c CLIENT_MASTER). rewrite Hm.
  pose proof (expect_bytes _ _ _ HE) as Hbytes. pose proof (expect_arrive bytes (concat chunks) cmds c HE Hm) as HE1.
  set (c1 := set_buf c _ _) in *.
  assert (Hconn1 : conn c0 c1) by (eapply conn_frame; [exact Hconn|done]).
  assert (mstate_argv_len_sums c1 + zlen (querybuf c1) <= mstate_argv_len_sums c0 + zlen (enc cmds)) as Hused.
  { change (mstate_argv_len_sums c1) with (mstate_argv_len_sums c). destruct Hconn as (_ & _ & _ & -> & _). simpl.
    assert (unparsed c = querybuf c) as Eu by (unfold unparsed; rewrite Hpos; done).
    rewrite Eu, !zlen_app in Hbytes. rewrite zlen_app. zlen_saturate. lia. }
  cbn [negb andb]. destruct Hlim as [Hl1 Hl2]. pose proof (proj1 (proj2 Hconn1)) as Hau.
  assert (((mstate_argv_len_sums c1 + zlen (querybuf c1) >? client_max_querybuf_len)
           || (mstate_argv_len_sums c1 + zlen (querybuf c1) >? 1024 * 1024) && authRequired c1) = false) as ->.
  { apply orb_false_iff. split; [lia|]. destruct (authRequired c1); [specialize (Hl2 (Hau eq_refl)); lia|apply andb_false_r]. }
  destruct (input_stream (concat chunks) cmds c0 s c1 Hconn1 Hcmds Hexec HE1) as (cmds1 & cmds2 & c2 & -> & -> & Hc2 & HE2 & Hp2 & Hend).
  cbn [mbind option_bind]. rewrite foldl_app. apply Forall_app in Hcmds as [_ Hcmds], Hexec as [_ Hexec].
  assert (Hle : zlen (enc cmds2) <= zlen (enc (cmds1 ++ cmds2))).
  { unfold enc. rewrite fmap_app, concat_app, zlen_app. zlen_saturate. lia. }
  apply IH; try done.
  - split; [lia|]. intros Ha. specialize (Hl2 Ha). lia.
  - intros ->. by apply Hend.
Qed.
End Stream.
