(* ===== verification/RespProps.v ===== *)
(** * The request parser: properties *)
From S2P Require Import Prelude Numstr NumstrFacts NumstrProps Split Resp RespFacts RespStream.

(** ** What the bytes of a request ask for

    Stated on the bytes that have arrived, apart from the code of the parser. *)

(** No [ch] and no zero byte. *)
Definition clean (ch : Z) (l : list Z) : Prop := Forall (fun x => x <> ch /\ x <> 0) l.

(** No [ch] before the first zero byte. *)
Definition no_end (ch : Z) (bytes : list Z) : Prop := clean ch bytes \/ exists a b, bytes = a ++ 0 :: b /\ clean ch a.

(** The text up to the first [ch] and what follows it, if it has arrived. *)
Inductive first_line (ch : Z) (bytes : list Z) : option (list Z * list Z) -> Prop :=
  | line_missing : no_end ch bytes -> first_line ch bytes None
  | line_found l rest : clean ch l -> bytes = l ++ ch :: rest -> first_line ch bytes (Some (l, rest)).

(** The request is complete and followed by [rest], or more bytes are needed, or the connection
    is refused, with an error except for a master. *)
Inductive verdict := Ready (rest : list Z) | Starved | Refused (e : option protocol_error).

Inductive line_verdict := LineNumber (v : Z) (rest : list Z) | LineStarved | LineRefused (e : protocol_error).

Section Requests.
Context `{Sv : Server} (master auth : bool).

Definition bulk_limit (v : Z) : Prop := 0 <= v /\ in_int64 v /\ (master = true \/ v <= proto_max_bulk_len).

(** The length line of an argument. *)
Inductive bulk_line (bytes : list Z) : line_verdict -> Prop :=
  | bulk_too_long : first_line 13 bytes None -> 65536 < zlen bytes -> bulk_line bytes (LineRefused TooBigBulkCount)
  | bulk_short : first_line 13 bytes None -> zlen bytes <= 65536 -> bulk_line bytes LineStarved
  | bulk_cut l : first_line 13 bytes (Some (l, [])) -> bulk_line bytes LineStarved
  | bulk_mark l x rest b t : first_line 13 bytes (Some (l, x :: rest)) -> bytes = b :: t -> b <> 36 ->
      bulk_line bytes (LineRefused (ExpectedDollar b))
  | bulk_bad num x rest : first_line 13 bytes (Some (36 :: num, x :: rest)) -> (forall v, IsDec num v -> ~ bulk_limit v) ->
      bulk_line bytes (LineRefused InvalidBulkLength)
  | bulk_unauth num x rest v : first_line 13 bytes (Some (36 :: num, x :: rest)) -> IsDec num v -> bulk_limit v ->
      auth = true -> 16384 < v -> bulk_line bytes (LineRefused UnauthBulkLength)
  | bulk_length num x rest v : first_line 13 bytes (Some (36 :: num, x :: rest)) -> IsDec num v -> bulk_limit v ->
      (auth = true -> v <= 16384) -> bulk_line bytes (LineNumber v rest).

(** [n] arguments, the first one of length [len] when it is not -1: those that are complete. *)
Inductive arguments : Z -> Z -> list Z -> list (list Z) -> verdict -> Prop :=
  | args_none bytes : arguments 0 (-1) bytes [] (Ready bytes)
  | args_line n bytes v rest args r : 0 < n -> bulk_line bytes (LineNumber v rest) -> arguments n v rest args r ->
      arguments n (-1) bytes args r
  | args_starved n bytes : 0 < n -> bulk_line bytes LineStarved -> arguments n (-1) bytes [] Starved
  | args_refused n bytes e : 0 < n -> bulk_line bytes (LineRefused e) -> arguments n (-1) bytes [] (Refused (Some e))
  | args_cut n len bytes : 0 < n -> 0 <= len -> zlen bytes < len + 2 -> arguments n len bytes [] Starved
  | args_next n arg x y rest args r : 0 < n -> arguments (n - 1) (-1) rest args r ->
      arguments n (zlen arg) (arg ++ x :: y :: rest) (arg :: args) r.

(** An array: its count, then its arguments. *)
Inductive array (bytes : list Z) : list (list Z) -> verdict -> Prop :=
  | array_too_long : first_line 13 bytes None -> 65536 < zlen bytes -> array bytes [] (Refused (Some TooBigMbulkCount))
  | array_short : first_line 13 bytes None -> zlen bytes <= 65536 -> array bytes [] Starved
  | array_cut l : first_line 13 bytes (Some (l, [])) -> array bytes [] Starved
  | array_bad num x rest : first_line 13 bytes (Some (42 :: num, x :: rest)) ->
      (forall n, IsDec num n -> in_int64 n -> INT32_MAX < n) -> array bytes [] (Refused (Some InvalidMbulkCount))
  | array_unauth num x rest n : first_line 13 bytes (Some (42 :: num, x :: rest)) -> IsDec num n ->
      10 < n <= INT32_MAX -> auth = true -> array bytes [] (Refused (Some UnauthMbulkCount))
  | array_empty num x rest n : first_line 13 bytes (Some (42 :: num, x :: rest)) -> IsDec num n -> in_int64 n -> n <= 0 ->
      array bytes [] (Ready rest)
  | array_args num x rest n args r : first_line 13 bytes (Some (42 :: num, x :: rest)) -> IsDec num n ->
      0 < n <= INT32_MAX -> (auth = true -> n <= 10) -> arguments n (-1) rest args r -> array bytes args r.

(** The text of a line without its line break. *)
Definition line_text (l : list Z) (text : list Z) : Prop := l = text ++ [13] \/ l = text /\ last l <> Some 13.

(** A line of text. *)
Inductive text_line (bytes : list Z) : list (list Z) -> verdict -> Prop :=
  | line_too_long : first_line 10 bytes None -> 65536 < zlen bytes -> text_line bytes [] (Refused (Some TooBigInline))
  | line_short : first_line 10 bytes None -> zlen bytes <= 65536 -> text_line bytes [] Starved
  | line_quotes l text rest : first_line 10 bytes (Some (l, rest)) -> line_text l text -> sdssplitargs text = Some None ->
      text_line bytes [] (Refused (Some UnbalancedQuotes))
  | line_master l text rest args : first_line 10 bytes (Some (l, rest)) -> line_text l text -> sdssplitargs text = Some (Some args) ->
      master = true -> text <> [] -> text_line bytes [] (Refused None)
  | line_ready l text rest args : first_line 10 bytes (Some (l, rest)) -> line_text l text -> sdssplitargs text = Some (Some args) ->
      (master = true -> text = []) -> text_line bytes args (Ready rest).
End Requests.

(** What a call leaves behind: the arguments, the unparsed bytes, the flags and the replies. *)
Definition answers (c : client) (args : list (list Z)) (v : verdict) (r : client * bool) : Prop :=
  argv r.1 = argv c ++ args /\
  match v with
  | Ready rest => r.2 = true /\ unparsed r.1 = rest /\ flags r.1 = flags c /\ errors r.1 = errors c
  | Starved => r.2 = false /\ flags r.1 = flags c /\ errors r.1 = errors c
  | Refused e => r.2 = false /\ flags r.1 = Z.lor (flags c) (Z.lor CLIENT_CLOSE_AFTER_REPLY CLIENT_PROTOCOL_ERROR) /\
      errors r.1 = errors c ++ match e with Some e => [e] | None => [] end
  end.

(** *** A request asks for one thing *)

Lemma clean_split ch l l' r r' : clean ch l -> clean ch l' -> l ++ ch :: r = l' ++ ch :: r' -> l = l' /\ r = r'.
Proof.
  intros Hl. revert l'. induction Hl as [|x l [H1 _] Hl IH]; intros l' Hl' E.
  - destruct l' as [|y l']; simpl in E; [by simplify_eq|]. apply Forall_cons in Hl' as [[? _] _]. congruence.
  - destruct l' as [|y l']; simpl in E; [congruence|]. apply Forall_cons in Hl' as [_ Hl'].
    injection E as -> E. by destruct (IH l' Hl' E) as [-> ->].
Qed.

Lemma no_end_clean ch l r : ch <> 0 -> clean ch l -> ~ no_end ch (l ++ ch :: r).
Proof.
  intros Hch Hl [Hc|(a & b & E & Ha)].
  - apply Forall_app in Hc as [_ Hc]. by apply Forall_cons in Hc as [[? _] _].
  - revert a E Ha. induction Hl as [|x l [_ H2] Hl IH]; intros a E Ha; (destruct a as [|y a]; simpl in E; injection E as E1 E2); try congruence.
    + apply Forall_cons in Ha as [[? _] _]. congruence.
    + apply Forall_cons in Ha as [_ Ha]. by apply (IH a).
Qed.

Lemma first_line_fun ch bytes o o' : ch <> 0 -> first_line ch bytes o -> first_line ch bytes o' -> o = o'.
Proof.
  intros Hch [Hn|l r Hl ->] H'; inversion H' as [Hn'|l' r' Hl' E]; subst; [done|by destruct (no_end_clean ch l' r')|by destruct (no_end_clean ch l r)|].
  by destruct (clean_split _ _ _ _ _ Hl Hl' E) as [-> ->].
Qed.

(** A numeral has one value. *)
Lemma numeral_value s v w : IsDec s v -> IsDec s w -> v = w.
Proof.
  assert (Hsign : forall v w, 0 <= w -> IsDec s v -> IsDec s w -> v < 0 -> False).
  { clear v w. intros v w Hw Hv Hw' Hneg. unfold IsDec in *. replace (v <? 0) with true in Hv by lia. replace (w <? 0) with false in Hw' by lia.
    destruct Hv as (u & -> & _). apply IsDecU_value in Hw' as (_ & Hd & _). apply Forall_cons in Hd as [Hd _]. lia. }
  intros Hv Hw. destruct (Z.ltb_spec v 0) as [Hv0|Hv0], (Z.ltb_spec w 0) as [Hw0|Hw0];
    [|by destruct (Hsign v w)|by destruct (Hsign w v)|].
  - unfold IsDec in *. replace (v <? 0) with true in Hv by lia. replace (w <? 0) with true in Hw by lia.
    destruct Hv as (u & -> & Hv), Hw as (u' & [= <-] & Hw). apply IsDecU_value in Hv as [Hv _], Hw as [Hw _]. lia.
  - unfold IsDec in *. replace (v <? 0) with false in Hv by lia. replace (w <? 0) with false in Hw by lia.
    apply IsDecU_value in Hv as [Hv _], Hw as [Hw _]. lia.
Qed.

Ltac same_line :=
  match goal with
  | H : first_line ?ch ?b ?o, H' : first_line ?ch ?b ?o' |- _ =>
      let E := fresh in assert (o = o') as E by (by apply (first_line_fun ch b)); simplify_eq; clear H'
  end.

Ltac same_number :=
  repeat match goal with
  | H : IsDec ?s ?v, H' : IsDec ?s ?v' |- _ =>
      lazymatch v with v' => fail | _ => assert (v' = v) as -> by (by apply (numeral_value s)) end
  end.

Section Functional.
Context `{Sv : Server} (master auth : bool).

Lemma bulk_line_fun bytes w w' : bulk_line master auth bytes w -> bulk_line master auth bytes w' -> w = w'.
Proof.
  intros [] []; same_line; same_number; try done; try lia;
    try (match goal with H : bulk_limit _ _, Hn : forall v, _ |- _ => by destruct (Hn _ ltac:(eassumption)) end);
    try (match goal with H : _ -> _ <= 16384 |- _ => specialize (H ltac:(done)); lia end).
  all: match goal with H : first_line _ _ (Some (36 :: _, _)) |- _ => inversion H; simpl in *; by simplify_eq end.
Qed.

(** The bytes behind an argument. *)
Lemma argument_split (arg arg' t t' : list Z) : zlen arg = zlen arg' -> arg ++ t = arg' ++ t' -> arg = arg' /\ t = t'.
Proof. intros Hl E. apply app_inj_1; [unfold zlen in Hl; lia|done]. Qed.

Lemma arguments_fun n len bytes args v args' v' :
  arguments master auth n len bytes args v -> arguments master auth n len bytes args' v' -> args = args' /\ v = v'.
Proof.
  intros H. revert args' v'.
  induction H as [bytes|n bytes v0 rest args r Hn Hw H IH|n bytes Hn Hw|n bytes e Hn Hw|n len bytes Hn Hl Hs|n arg x y rest args r Hn H IH];
    intros args' v' H'; inversion H' as [b|n' b v1 rest' args1 r1 Hn' Hw' H1|n' b Hn' Hw'|n' b e' Hn' Hw'|n' len' b Hn' Hl' Hs'|n' arg' x' y' rest' args1 r1 Hn' H1];
    subst; try done; try lia;
    try (pose proof (bulk_line_fun _ _ _ Hw Hw') as Ew; simplify_eq);
    try (match goal with Ha : zlen ?a = -1 |- _ => pose proof (zlen_nonneg a); lia end);
    try (match goal with Ha : -1 = zlen ?a |- _ => pose proof (zlen_nonneg a); lia end);
    try (rewrite zlen_app, !zlen_cons in *; zlen_saturate; lia); try done.
  - by apply IH.
  - match goal with Hl : zlen arg' = zlen arg, Hb : _ ++ _ = _ ++ _ |- _ => destruct (argument_split _ _ _ _ Hl Hb) as [-> E] end.
    injection E as -> -> ->. destruct (IH _ _ H1) as [-> ->]. done.
Qed.

Lemma array_fun bytes args v args' v' : array master auth bytes args v -> array master auth bytes args' v' -> args = args' /\ v = v'.
Proof.
  intros [] []; same_line; same_number; try done; try lia; try (by eapply arguments_fun);
    try (match goal with Hn : forall n, IsDec _ n -> _, H : IsDec _ ?n |- _ => specialize (Hn n H) end);
    try (match goal with H : _ = true -> _ <= 10 |- _ => specialize (H ltac:(done)); lia end).
  all: unfold in_int64 in *; unfold_limits; unfold INT32_MAX in *; lia.
Qed.

Lemma line_text_fun l t t' : line_text l t -> line_text l t' -> t = t'.
Proof.
  intros [->|[-> Hn]] [E|[E Hn']].
  - by apply app_inj_2 in E as [-> _].
  - by rewrite last_snoc in Hn'.
  - by rewrite E, last_snoc in Hn.
  - done.
Qed.

Lemma text_line_fun bytes args v args' v' : text_line master bytes args v -> text_line master bytes args' v' -> args = args' /\ v = v'.
Proof.
  intros [] []; same_line; try done; try lia;
    match goal with H : line_text ?l ?t, H' : line_text ?l ?t' |- _ => pose proof (line_text_fun _ _ _ H H'); subst end;
    simplify_eq; try done; naive_solver.
Qed.
End Functional.

(** ** The parser decides it *)

Lemma strchr_from_none s ch : forall i, strchr_from s ch i = None -> no_end ch s.
Proof.
  induction s as [|x s IH]; intros i E; [left; constructor|]. simpl in E. destruct (Z.eqb_spec x ch) as [->|Hx]; [done|].
  destruct (Z.eqb_spec x 0) as [->|H0]; [right; exists [], s; split; [done|constructor]|].
  destruct (IH _ E) as [Hc|(a & b & -> & Ha)]; [left; by constructor|right; exists (x :: a), b; split; [done|by constructor]].
Qed.

Lemma strchr_view c ch :
  match strchr (querybuf c) (qb_pos c) ch with
  | None => first_line ch (unparsed c) None
  | Some nl => exists l rest, first_line ch (unparsed c) (Some (l, rest)) /\ unparsed c = l ++ ch :: rest /\ nl = qb_pos c + zlen l
  end.
Proof.
  unfold strchr. fold (unparsed c). destruct (strchr_from (unparsed c) ch (qb_pos c)) as [nl|] eqn:E.
  - destruct (strchr_from_some _ _ _ _ E) as (l & rest & -> & -> & Hl). exists l, rest. split; [by apply line_found|done].
  - apply line_missing. by eapply strchr_from_none.
Qed.

(** The number between the mark and the line break. *)
Lemma number_view c h num x rest :
  BufOk c -> unparsed c = h :: num ++ 13 :: x :: rest ->
  exists o, parse_ll (querybuf c) (qb_pos c + 1) (qb_pos c + zlen (h :: num)) = Some o /\
    forall v, o = Some v <-> IsDec num v /\ in_int64 v.
Proof.
  intros HB Hu. pose proof (bo_pos c HB) as Hp. unfold parse_ll. rewrite zlen_cons.
  replace (qb_pos c + (1 + zlen num) - (qb_pos c + 1)) with (zlen num) by lia.
  replace (Z.to_nat (qb_pos c + 1)) with (Z.to_nat (qb_pos c) + 1)%nat by lia. rewrite <- drop_drop.
  fold (unparsed c). rewrite Hu. change (drop 1 (h :: num ++ 13 :: x :: rest)) with (num ++ 13 :: x :: rest).
  apply string2ll_spec.
Qed.

Lemma behind_line c l rest :
  BufOk c -> unparsed c = l ++ 13 :: rest -> forall x t, rest = x :: t -> drop (Z.to_nat (qb_pos c + zlen l + 2)) (querybuf c) = t.
Proof.
  intros HB Hu x t ->. pose proof (bo_pos c HB).
  replace (Z.to_nat (qb_pos c + zlen l + 2)) with (Z.to_nat (qb_pos c) + (length l + 2))%nat by (unfold zlen; lia).
  rewrite <- drop_drop. fold (unparsed c). by rewrite Hu, <- drop_drop, drop_app_length.
Qed.

(** The line break may be two bytes. *)
Lemma line_break c l rest :
  0 <= qb_pos c <= zlen (querybuf c) -> querybuf c = take (Z.to_nat (qb_pos c)) (querybuf c) ++ l ++ 10 :: rest ->
  zlen (take (Z.to_nat (qb_pos c)) (querybuf c)) = qb_pos c ->
  exists text lf,
    (if negb (qb_pos c + zlen l =? qb_pos c) then
       prev ← getb (querybuf c) (qb_pos c + zlen l - 1);
       Some (if prev =? 13 then (qb_pos c + zlen l - 1, 2) else (qb_pos c + zlen l, 1))
     else Some (qb_pos c + zlen l, 1)) = Some (qb_pos c + zlen text, lf) /\
    line_text l text /\ zlen text + lf = zlen l + 1 /\ mem_read (querybuf c) (qb_pos c) (zlen text) = Some text.
Proof.
  intros Hp Hq Hpre. assert (Hwhole : mem_read (querybuf c) (qb_pos c) (zlen l) = Some l).
  { rewrite Hq. apply mem_read_mid; [by rewrite Hpre|done]. }
  destruct l as [|y l _] using rev_ind.
  { change (zlen (@nil Z)) with 0 in *. rewrite Z.add_0_r, Z.eqb_refl. exists [], 1. rewrite Z.add_0_r. split; [done|].
    split; [by right|]. split; [done|exact Hwhole]. }
  rewrite zlen_app in *. change (zlen [y]) with 1 in *. pose proof (zlen_nonneg l).
  replace (qb_pos c + (zlen l + 1) =? qb_pos c) with false by lia. cbn [negb].
  replace (qb_pos c + (zlen l + 1) - 1) with (qb_pos c + zlen l) by lia.
  assert (getb (querybuf c) (qb_pos c + zlen l) = Some y) as ->.
  { rewrite Hq, <- app_assoc, app_assoc. apply (getb_mid _ y (10 :: rest)). by rewrite zlen_app, Hpre. }
  cbn [mbind option_bind]. destruct (Z.eqb_spec y 13) as [->|Hy].
  - exists l, 2. split; [done|]. split; [by left|]. split; [lia|]. rewrite Hq, <- (app_assoc l). apply mem_read_mid; [by rewrite Hpre|done].
  - exists (l ++ [y]), 1. rewrite zlen_app. change (zlen [y]) with 1. split; [done|]. split; [right; split; [done|]|].
    + rewrite last_snoc. congruence.
    + split; [lia|done].
Qed.

Section Decides.
Context `{Sv : Server}.

Lemma read_bulklen_spec c :
  BufOk c ->
  exists w, bulk_line (has_flag c CLIENT_MASTER) (authRequired c) (unparsed c) w /\
    match w with
    | LineNumber v rest => exists c', read_bulklen c = Some (LineOk c') /\ bulklen c' = v /\ unparsed c' = rest
    | LineStarved => read_bulklen c = Some LineMore
    | LineRefused e => read_bulklen c = Some (LineError (protocol_failure c e))
    end.
Proof.
  intros HB. pose proof (bo_pos c HB) as Hp. pose proof (unparsed_length c HB) as Hul. unfold rem in Hul.
  unfold read_bulklen. pose proof (strchr_view c 13) as Hv. destruct (strchr _ _ _) as [nl|].
  2: { rewrite <- Hul. unfold PROTO_INLINE_MAX_SIZE. destruct (Z.gtb_spec (zlen (unparsed c)) (1024 * 64)).
       - eexists. split; [apply bulk_too_long; [done|lia]|done].
       - eexists. split; [apply bulk_short; [done|lia]|done]. }
  destruct Hv as (l & rest0 & Hl & Hu & ->). pose proof (zlen_nonneg l).
  assert (zlen (querybuf c) - qb_pos c = zlen l + (1 + zlen rest0)) as -> by (rewrite <- Hul, Hu, zlen_app, zlen_cons; lia).
  destruct rest0 as [|x rest].
  { change (zlen (@nil Z)) with 0. replace (qb_pos c + zlen l - qb_pos c >? zlen l + (1 + 0) - 2) with true by lia.
    eexists. split; [by eapply bulk_cut|done]. }
  rewrite zlen_cons. pose proof (zlen_nonneg rest). replace (qb_pos c + zlen l - qb_pos c >? zlen l + (1 + (1 + zlen rest)) - 2) with false by lia.
  assert (exists b t, unparsed c = b :: t) as (b & t & Hb) by (rewrite Hu; destruct l; eauto).
  rewrite (getb_drop _ _ b t) by (lia || exact Hb). cbn [mbind option_bind].
  destruct (Z.eqb_spec b 36) as [->|Hne]; cbn [negb]; cycle 1.
  { eexists. split; [by eapply bulk_mark|done]. }
  destruct l as [|y num]; [rewrite Hu in Hb; by injection Hb|]. assert (y = 36) as -> by (rewrite Hu in Hb; by injection Hb).
  change ((36 :: num) ++ 13 :: x :: rest) with (36 :: num ++ 13 :: x :: rest) in Hu.
  destruct (number_view c 36 num x rest HB Hu) as (o & -> & Ho). cbn [mbind option_bind].
  assert (Hbad : (forall v, o = Some v -> ~ bulk_limit (has_flag c CLIENT_MASTER) v) ->
    bulk_line (has_flag c CLIENT_MASTER) (authRequired c) (unparsed c) (LineRefused InvalidBulkLength)).
  { intros Hn. eapply bulk_bad; [exact Hl|]. intros v Hd Hlim. apply (Hn v); [|done]. apply Ho. split; [done|apply Hlim]. }
  destruct o as [v|]; [|eexists; split; [by apply Hbad|done]]. destruct (proj1 (Ho v) eq_refl) as [Hd Hi].
  destruct ((v <? 0) || _) eqn:Elim.
  { eexists. split; [apply Hbad|done]. intros v' [= <-] (H1 & _ & H2). destruct (has_flag c CLIENT_MASTER); simpl in Elim; [lia|].
    destruct H2 as [H2|H2]; [done|lia]. }
  assert (bulk_limit (has_flag c CLIENT_MASTER) v) as Hlim.
  { split; [lia|]. split; [done|]. destruct (has_flag c CLIENT_MASTER); simpl in Elim; [by left|right; lia]. }
  destruct ((v >? 16384) && authRequired c) eqn:Eau.
  { eexists. split; [eapply bulk_unauth; [exact Hl|exact Hd|done|..]; destruct (authRequired c); lia|done]. }
  eexists. split; [eapply bulk_length; [exact Hl|exact Hd|done|intros Ha; rewrite Ha in Eau; lia]|].
  eexists. split; [done|]. cbn zeta. split; [done|].
  pose proof (behind_line c (36 :: num) (x :: rest) HB Hu x rest eq_refl) as Hrest.
  unfold unparsed. destruct (_ && _ && _); simpl; rewrite ?drop_0; exact Hrest.
Qed.

(** The loop over the arguments. *)
Lemma multibulk_loop_spec fuel : forall c,
  reading c -> rem c < Z.of_nat fuel ->
  exists args v r, loop fuel multibulk_body c = Some r /\
    arguments (has_flag c CLIENT_MASTER) (authRequired c) (multibulklen c) (bulklen c) (unparsed c) args v /\ answers c args v r.
Proof.
  induction fuel as [|fuel IH]; intros c Hr Hf; [pose proof (bo_pos c (proj1 Hr)); unfold rem in Hf; lia|].
  rewrite loop_step. unfold multibulk_body at 1. pose proof Hr as (HB & _ & H2 & H3 & H4 & H5 & H6 & H7).
  destruct (Z.eqb_spec (multibulklen c) 0) as [Hm|Hm].
  { destruct (H7 Hm) as [Hb _]. rewrite Hm, Hb. eexists _, _, _. split; [done|]. split; [constructor|].
    split; [by rewrite app_nil_r|done]. }
  assert (0 < multibulklen c) as Hpos by lia.
  assert (Harg : forall c1, reading c1 -> 0 <= bulklen c1 -> multibulklen c1 = multibulklen c -> argv c1 = argv c -> flags c1 = flags c ->
    errors c1 = errors c -> authenticated c1 = authenticated c -> rem c1 <= rem c ->
    exists args v r, (if zlen (querybuf c1) - qb_pos c1 <? bulklen c1 + 2 then Some (inr (c1, false))
        else c2 ← read_argument c1; Some (inl c2)) ≫= (fun x => match x with inl s => loop fuel multibulk_body s | inr r => Some r end) = Some r /\
      arguments (has_flag c CLIENT_MASTER) (authRequired c) (multibulklen c) (bulklen c1) (unparsed c1) args v /\ answers c args v r).
  { intros c1 Hr1 Hb1 Em Ea Ef Ee Eau Hle. pose proof (unparsed_length c1 (proj1 Hr1)) as Hul. fold (rem c1).
    destruct (Z.ltb_spec (rem c1) (bulklen c1 + 2)) as [Hs|Hs].
    { eexists [], Starved, _. split; [done|]. split; [apply args_cut; lia|]. split; [by rewrite app_nil_r|done]. }
    set (arg := take (Z.to_nat (bulklen c1)) (unparsed c1)). set (tl := drop (Z.to_nat (bulklen c1)) (unparsed c1)).
    assert (zlen arg = bulklen c1) as Harg by (unfold arg, zlen in *; rewrite length_take; lia).
    assert (unparsed c1 = arg ++ tl) as Hsplit by (unfold arg, tl; by rewrite take_drop).
    assert (2 <= zlen tl) as Htl by (rewrite Hsplit, zlen_app in Hul; lia).
    destruct tl as [|x [|y rest]]; [change (zlen (@nil Z)) with 0 in Htl; lia|change (zlen [x]) with 1 in Htl; lia|].
    destruct (read_argument_safe c1 Hr1) as (c2 & E2 & Hr2 & Hrem2 & Hm2 & Hf2); [lia|lia|lia|].
    pose proof Hr1 as (HB1 & _ & _ & _ & G4 & G5 & G6 & _).
    destruct (read_argument_spec c1 arg (x :: y :: rest) HB1) as (buf & pos & len & sum & E2' & _ & _ & Hdrop & _); try done; [lia|].
    rewrite E2 in E2'. injection E2' as E2'. rewrite E2. cbn [mbind option_bind].
    assert (unparsed c2 = rest) as Hu2 by (rewrite E2'; unfold unparsed; simpl; rewrite Hdrop; done).
    destruct (IH c2 Hr2 ltac:(lia)) as (args & v & r & -> & Hargs & Hans). exists (arg :: args), v, r. split; [done|].
    assert (has_flag c2 CLIENT_MASTER = has_flag c CLIENT_MASTER) as Hfl by (unfold has_flag; by rewrite Hf2, Ef).
    assert (authRequired c2 = authRequired c) as Hau by (unfold authRequired; rewrite E2'; simpl; by rewrite Eau).
    assert (bulklen c2 = -1) as Hb2 by (by rewrite E2'). rewrite Hfl, Hau, Hm2, Em, Hb2, Hu2 in Hargs. split.
    - rewrite Hsplit, <- Harg. by apply args_next.
    - assert (argv c2 = argv c ++ [arg]) as Hv2 by (rewrite E2'; simpl; by rewrite Ea).
      assert (errors c2 = errors c) as He2 by (by rewrite E2'). unfold answers in *. rewrite Hv2, Hf2, He2, Ef, <- app_assoc in Hans. exact Hans. }
  destruct (Z.eqb_spec (bulklen c) (-1)) as [Hb|Hb].
  - rewrite Hb. destruct (read_bulklen_spec c HB) as (w & Hw & Ew). destruct w as [v rest| |e].
    + destruct Ew as (c1 & E1 & Hb1 & Hu1). rewrite E1. cbn [mbind option_bind].
      destruct (read_bulklen_safe c HB Hb) as (r & E1' & Hs). rewrite E1 in E1'. injection E1' as <-.
      destruct Hs as (buf & pos & ll & Ec1 & Hll & HB1 & Hrem).
      destruct (Harg c1) as (args & v' & r & E & Hargs & Hans); try (by rewrite Ec1); [|lia|].
      { rewrite Ec1 in HB1 |- *. unfold reading, argc in *. simpl in *. split_and!; try done; lia. }
      exists args, v', r. split; [exact E|]. split; [|done]. rewrite Hb1, Hu1 in Hargs. by eapply args_line.
    + rewrite Ew. cbn [mbind option_bind]. eexists [], Starved, _. split; [done|]. split; [by apply args_starved|]. split; [by rewrite app_nil_r|done].
    + rewrite Ew. cbn [mbind option_bind]. eexists [], (Refused (Some e)), _. split; [done|]. split; [by apply args_refused|]. split; [by rewrite app_nil_r|done].
  - cbn [mbind option_bind]. destruct (Harg c) as (args & v & r & E & Hargs & Hans); try done; [lia|]. by exists args, v, r.
Qed.

(** A call on the arguments of an array. *)
Lemma arguments_spec c :
  BufOk c -> reqtype c = PROTO_REQ_MULTIBULK -> ReqOk c -> multibulklen c <> 0 ->
  exists args v r, processMultibulkBuffer c = Some r /\
    arguments (has_flag c CLIENT_MASTER) (authRequired c) (multibulklen c) (bulklen c) (unparsed c) args v /\ answers c args v r.
Proof.
  intros HB Hrt HR Hm. destruct HR as [H1 H2 _ _|H1 H2 _ _|H1 H2 _ _ _|H1 H2 H3 H4 H5 H6]; try done.
  unfold processMultibulkBuffer. replace (multibulklen c =? 0) with false by lia. cbn [mbind option_bind].
  replace (multibulklen c >? 0) with true by lia. cbn [assert_true mbind option_bind]. apply multibulk_loop_spec.
  - unfold reading. split_and!; try done; lia.
  - pose proof (bo_pos c HB). unfold rem, zlen in *. lia.
Qed.

(** A call on the count of an array. *)
Lemma array_spec c :
  BufOk c -> reqtype c = PROTO_REQ_MULTIBULK -> ReqOk c -> multibulklen c = 0 ->
  exists args v r, processMultibulkBuffer c = Some r /\
    array (has_flag c CLIENT_MASTER) (authRequired c) (unparsed c) args v /\ answers c args v r.
Proof.
  intros HB Hrt HR Hm. destruct HR as [H1 _ _ _|H1 _ _ _|H1 H2 H3 H4 H5|H1 H2]; [by rewrite H1 in Hrt..| |lia].
  pose proof (bo_pos c HB) as Hp. pose proof (unparsed_length c HB) as Hul. unfold rem in Hul.
  assert (Hsame : forall b, answers c [] Starved (c, b) <-> b = false) by (intros b; unfold answers; rewrite app_nil_r; naive_solver).
  assert (Hfail : forall e, answers c [] (Refused (Some e)) (protocol_failure c e, false)) by (intros e; split; [by rewrite app_nil_r|done]).
  unfold processMultibulkBuffer, read_multibulklen, argc. rewrite H2, H4. change (0 =? 0) with true.
  change (zlen (@nil (list Z)) =? 0) with true. cbv iota. cbn [assert_true mbind option_bind].
  pose proof (strchr_view c 13) as Hv. destruct (strchr _ _ _) as [nl|].
  2: { rewrite <- Hul. unfold PROTO_INLINE_MAX_SIZE. destruct (Z.gtb_spec (zlen (unparsed c)) (1024 * 64)); cbn [mbind option_bind].
       - eexists _, _, _. split; [done|]. split; [apply array_too_long; [done|lia]|apply Hfail].
       - eexists _, _, _. split; [done|]. split; [apply array_short; [done|lia]|by apply Hsame]. }
  destruct Hv as (l & rest0 & Hl & Hu & ->). pose proof (zlen_nonneg l).
  assert (zlen (querybuf c) - qb_pos c = zlen l + (1 + zlen rest0)) as -> by (rewrite <- Hul, Hu, zlen_app, zlen_cons; lia).
  destruct rest0 as [|x rest].
  { change (zlen (@nil Z)) with 0. replace (qb_pos c + zlen l - qb_pos c >? zlen l + (1 + 0) - 2) with true by lia. cbn [mbind option_bind].
    eexists _, _, _. split; [done|]. split; [by eapply array_cut|by apply Hsame]. }
  rewrite zlen_cons. pose proof (zlen_nonneg rest). replace (qb_pos c + zlen l - qb_pos c >? zlen l + (1 + (1 + zlen rest)) - 2) with false by lia.
  rewrite H5. cbn [mbind option_bind]. change (42 =? 42) with true. cbn [assert_true mbind option_bind].
  assert (exists num, l = 42 :: num) as (num & ->).
  { destruct l as [|y num]; [simpl in Hu; rewrite (getb_drop _ _ 13 (x :: rest)) in H5 by (lia || exact Hu); done|].
    rewrite (getb_drop _ _ y (num ++ 13 :: x :: rest)) in H5 by (lia || exact Hu). injection H5 as ->. by exists num. }
  change ((42 :: num) ++ 13 :: x :: rest) with (42 :: num ++ 13 :: x :: rest) in Hu.
  destruct (number_view c 42 num x rest HB Hu) as (o & E & Ho). rewrite (Z.add_comm 1), E. cbn [mbind option_bind]. clear E.
  assert (Hbad : (forall n, o = Some n -> INT32_MAX < n) ->
    array (has_flag c CLIENT_MASTER) (authRequired c) (unparsed c) [] (Refused (Some InvalidMbulkCount))).
  { intros Hn. eapply array_bad; [exact Hl|]. intros n Hd Hi. apply Hn, Ho. by split. }
  destruct o as [n|]; [|eexists _, _, _; split; [done|]; split; [by apply Hbad|apply Hfail]].
  destruct (proj1 (Ho n) eq_refl) as [Hd Hi]. destruct (Z.gtb_spec n INT32_MAX); cbn [mbind option_bind].
  { eexists _, _, _. split; [done|]. split; [apply Hbad; by intros n' [= <-]|apply Hfail]. }
  destruct ((n >? 10) && authRequired c) eqn:Eau; cbn [mbind option_bind].
  { eexists _, _, _. split; [done|]. split; [eapply array_unauth; [exact Hl|exact Hd|..]; destruct (authRequired c); lia|apply Hfail]. }
  pose proof (behind_line c (42 :: num) (x :: rest) HB Hu x rest eq_refl) as Hrest.
  assert (Hlen : qb_pos c + zlen (42 :: num) + 2 <= zlen (querybuf c)).
  { rewrite Hu, zlen_cons, zlen_app, !zlen_cons in Hul. rewrite zlen_cons. lia. }
  destruct (Z.leb_spec n 0); cbn [mbind option_bind].
  { eexists _, _, _. split; [done|]. split; [eapply array_empty; [exact Hl|exact Hd|done|lia]|]. split; [by rewrite app_nil_r|].
    split; [done|]. split; [exact Hrest|done]. }
  simpl multibulklen. replace (n >? 0) with true by lia. cbn [assert_true mbind option_bind].
  set (c1 := set_args _ [] _ 0).
  destruct (multibulk_loop_spec (S (length (querybuf c1))) c1) as (args & v & r & E & Hargs & Hans).
  { unfold reading, argc. simpl. change (zlen (@nil (list Z))) with 0. split_and!; try done; try lia.
    apply bufok_args, bufok_req, bufok_advance; [done|lia]. }
  { unfold rem. simpl. unfold zlen in *. lia. }
  exists args, v, r. split; [exact E|]. split.
  - eapply array_args; [exact Hl|exact Hd|lia|intros Ha; rewrite Ha in Eau; lia|].
    change (has_flag c1 CLIENT_MASTER) with (has_flag c CLIENT_MASTER) in Hargs. change (authRequired c1) with (authRequired c) in Hargs.
    change (bulklen c1) with (bulklen c) in Hargs. rewrite H3 in Hargs. change (multibulklen c1) with n in Hargs.
    assert (unparsed c1 = rest) as <-; [exact Hrest|done].
  - unfold answers in *. rewrite H4. exact Hans.
Qed.

(** A call on a line of text. *)
Lemma line_spec c :
  BufOk c -> reqtype c = PROTO_REQ_INLINE -> ReqOk c ->
  exists args v r, processInlineBuffer c = Some r /\ text_line (has_flag c CLIENT_MASTER) (unparsed c) args v /\ answers c args v r.
Proof.
  intros HB Hrt HR. assert (argv c = []) as Hav.
  { destruct HR as [H1|_ _ _ H4|H1|H1]; [by rewrite H1 in Hrt|done|by rewrite H1 in Hrt..]. }
  pose proof (bo_pos c HB) as Hp. pose proof (unparsed_length c HB) as Hul. unfold rem in Hul.
  assert (Hfail : forall e, answers c [] (Refused (Some e)) (protocol_failure c e, false)) by (intros e; split; [by rewrite app_nil_r|done]).
  unfold processInlineBuffer. pose proof (strchr_view c 10) as Hv. destruct (strchr _ _ _) as [nl|].
  2: { rewrite <- Hul. unfold PROTO_INLINE_MAX_SIZE. destruct (Z.gtb_spec (zlen (unparsed c)) (1024 * 64)).
       - eexists _, _, _. split; [done|]. split; [apply line_too_long; [done|lia]|apply Hfail].
       - eexists _, _, _. split; [done|]. split; [apply line_short; [done|lia]|]. split; [by rewrite app_nil_r|done]. }
  destruct Hv as (l & rest & Hl & Hu & ->). pose proof (zlen_nonneg l).
  assert (querybuf c = take (Z.to_nat (qb_pos c)) (querybuf c) ++ l ++ 10 :: rest) as Hq by (rewrite <- Hu; symmetry; apply take_drop).
  assert (zlen (take (Z.to_nat (qb_pos c)) (querybuf c)) = qb_pos c) as Hpre by (unfold zlen in *; rewrite length_take; lia).
  set (brk := if negb (qb_pos c + zlen l =? qb_pos c) then _ else _).
  assert (exists text lf, brk = Some (qb_pos c + zlen text, lf) /\ line_text l text /\ zlen text + lf = zlen l + 1 /\
    mem_read (querybuf c) (qb_pos c) (zlen text) = Some text) as (text & lf & -> & Ht & Hlf & Hread).
  { apply (line_break c l rest Hp Hq Hpre). }
  cbn [mbind option_bind]. replace (qb_pos c + zlen text - qb_pos c) with (zlen text) by lia. rewrite Hread. cbn [mbind option_bind].
  destruct (sdssplitargs_total text) as ([args|] & Es); rewrite Es; cbn [mbind option_bind]; cycle 1.
  { eexists _, _, _. split; [done|]. split; [by eapply line_quotes|apply Hfail]. }
  cbv zeta. set (c1 := if _ && is_slave c then _ else c).
  assert (flags c1 = flags c /\ errors c1 = errors c /\ argv c1 = argv c /\ querybuf c1 = querybuf c /\ qb_pos c1 = qb_pos c)
    as (E1 & E2 & E3 & E4 & E5) by (unfold c1; by destruct (_ && _)). clearbody c1.
  assert (has_flag c1 CLIENT_MASTER = has_flag c CLIENT_MASTER) as -> by (unfold has_flag; by rewrite E1).
  assert (negb (zlen text =? 0) = true <-> text <> []) as Htext.
  { destruct text; [done|]. rewrite zlen_cons. pose proof (zlen_nonneg text). split; [done|]. intros _. apply negb_true_iff. lia. }
  destruct (negb (zlen text =? 0) && has_flag c CLIENT_MASTER) eqn:Em.
  { apply andb_true_iff in Em as [Em1 Em2]. eexists [], (Refused None), _. split; [done|]. split; [eapply line_master; try done; by apply Htext|].
    unfold answers. simpl. rewrite E1, E2, E3, !app_nil_r. done. }
  exists args, (Ready rest). eexists. split; [done|]. split.
  { eapply line_ready; try done. intros Hm. rewrite Hm, andb_true_r in Em. destruct text as [|y text]; [done|].
    exfalso. assert (true = false) by (rewrite <- Em; symmetry; by apply Htext). done. }
  assert (drop (Z.to_nat (qb_pos c + (zlen text + lf))) (querybuf c) = rest) as Hd.
  { set (pre := take _ _) in *. clearbody pre. rewrite Hq, app_assoc.
    replace (Z.to_nat (qb_pos c + (zlen text + lf))) with (length (pre ++ l) + 1)%nat by (rewrite length_app; unfold zlen in *; lia).
    by rewrite <- drop_drop, drop_app_length. }
  unfold answers. rewrite Hav. simpl. split; [done|]. split; [done|].
  unfold unparsed. destruct (negb (zlen args =? 0)); simpl; by rewrite E1, E2, E4, E5.
Qed.
End Decides.

(** ** A closing connection *)

Definition closing (c : client) : Prop := has_flag c CLIENT_CLOSE_AFTER_REPLY = true \/ has_flag c CLIENT_CLOSE_ASAP = true.

Lemma set_flag_true fl j : 0 <= j -> Z.testbit (Z.lor fl (Z.shiftl 1 j)) j = true.
Proof. intros Hj. rewrite Z.lor_spec, testbit_shiftl_1, bool_decide_true by done. apply orb_true_r. Qed.

Lemma refused_closing c args e r :
  answers c args (Refused e) r -> closing r.1 /\ has_flag r.1 CLIENT_PROTOCOL_ERROR = true.
Proof.
  intros (_ & _ & Hf & _). unfold closing, CLIENT_CLOSE_AFTER_REPLY, CLIENT_PROTOCOL_ERROR in *.
  rewrite !has_flag_bit, Hf, Z.lor_assoc by done. split; [left; rewrite set_flag_bit by done|]; by apply set_flag_true.
Qed.

Section Closing.
Context `{Sv : Server}.

Lemma closing_flags c c' : flags c' = flags c -> closing c -> closing c'.
Proof. intros E. unfold closing, has_flag. by rewrite E. Qed.

Lemma closing_turn s c : closing c -> input_body (s, c) = Some (inr (s, c, true)).
Proof.
  intros Hc. unfold input_body. destruct (negb _); [done|]. destruct (has_flag c CLIENT_BLOCKED); [done|].
  destruct (has_flag c CLIENT_PENDING_COMMAND); [done|]. destruct (_ && _); [done|].
  assert (has_flag c (Z.lor CLIENT_CLOSE_AFTER_REPLY CLIENT_CLOSE_ASAP) = true) as ->; [|done].
  unfold closing, has_flag in *. rewrite !negb_true_iff, !Z.eqb_neq in *. intros E. rewrite Z.land_lor_distr_r in E.
  apply Z.lor_eq_0_iff in E. tauto.
Qed.

Lemma closing_async c : closing c -> closing (freeClientAsync c).
Proof.
  intros Hc. unfold freeClientAsync. destruct (_ || _); [done|]. right. unfold CLIENT_CLOSE_ASAP. rewrite has_flag_bit by done.
  by apply set_flag_true.
Qed.

Lemma closing_read s c r : closing c -> exists c', readQueryFromClient s c r = Some (s, Some c') /\ closing c'.
Proof.
  intros Hc. unfold readQueryFromClient. destruct r as [bytes| |]; [|by exists c|eexists; split; [done|]; by apply closing_async].
  cbv zeta. set (c1 := if has_flag _ CLIENT_MASTER then _ else _).
  assert (closing c1) as Hc1 by (apply (closing_flags c); [unfold c1; by destruct (has_flag _ _)|done]). clearbody c1.
  destruct (_ && _); [eexists; split; [done|]; by apply closing_async|].
  unfold processInputBuffer. cbn [loop]. rewrite (closing_turn s c1 Hc1). cbn [mbind option_bind negb].
  eexists. split; [done|]. apply (closing_flags c1); [|done].
  destruct (has_flag c1 CLIENT_MASTER); [by destruct (negb _)|by destruct (negb _)].
Qed.

Lemma closing_reads rs : forall s c, closing c -> exists c', read_all s c rs = Some (s, Some c') /\ closing c'.
Proof.
  induction rs as [|r rs IH]; intros s c Hc; [by exists c|]. cbn [read_all].
  destruct (closing_read s c r Hc) as (c1 & -> & Hc1). cbn [mbind option_bind]. by apply IH.
Qed.
End Closing.

(** ** The properties *)

(** A client that has sent nothing yet. *)
Record fresh_client (c : client) : Prop := {
  fc_quiet : quiet c;
  fc_buf : querybuf c = [] /\ qb_pos c = 0;
  fc_req : reqtype c = 0 /\ multibulklen c = 0 /\ bulklen c = -1 /\ argv c = [];
  fc_duration : duration c = 0;
}.

Lemma fresh_expect rest cmds c : fresh_client c -> rest = enc cmds -> Expect rest cmds c.
Proof.
  intros [Hq [E1 E2] (E3 & E4 & E5 & E6) _] ->. apply ex_idle; [|done]. split; try done.
  - split; [rewrite E1, E2; done| |apply Hq]. intros Hm. rewrite (qu_master _ Hq) in Hm. done.
  - unfold unparsed. by rewrite E1, E2.
Qed.

(** C7: the commands of an ordinary connection, encoded as RESP arrays of bulk strings within the
    limits of the server and cut into reads at any places, are executed one by one exactly as
    they were encoded, the last one when its last byte has arrived; no protocol error is
    reported and the query buffer ends empty, also when arguments are large and take over the
    buffer. The main thread parses, and each of these commands is one that the server executes
    at once: processCommand returns C_OK, with an effect on the server that its arguments
    decide, and leaves the query buffer alone and the connection open, unblocked and outside a
    transaction; it may change anything else of the client. *)
Theorem resp_stream_correct `{Sv : Server} (run : srv -> list (list Z) -> srv) (chunks : list (list Z))
    (cmds : list (list (list Z))) (s : srv) (c : client) :
  io_threads_op = IO_THREADS_OP_IDLE -> Forall (executes c run) cmds ->
  fresh_client c -> Forall (cmd_ok (authRequired c)) cmds -> concat chunks = enc cmds ->
  within_limit c (zlen (enc cmds)) ->
  exists c', read_all s c (ReadBytes <$> chunks) = Some (foldl run s cmds, Some c') /\
    errors c' = errors c /\ querybuf c' = [] /\ argv c' = [].
Proof.
  intros Hidle Hexec Hf Hcmds Hch Hlim.
  assert (Hnil : chunks = [] -> cmds = []) by (intros ->; by destruct cmds).
  destruct (read_stream_spec run Hidle chunks c cmds s c) as (c' & E & Hc & HE & Hp); try done.
  - split; [apply Hf|]. split; [done|]. split; [done|]. split; [done|apply Hf].
  - by apply fresh_expect.
  - apply Hf.
  - exists c'. split; [done|]. destruct Hc as (_ & _ & -> & _). split; [done|].
    destruct HE as [HS _|HS _ Hne|d t k ? _ _]; [|by destruct (app_eq_nil _ _ (st_bytes _ _ _ _ HS))|done].
    pose proof (app_eq_nil _ _ (st_bytes _ _ _ _ HS)) as [Hu _]. unfold unparsed in Hu. rewrite Hp in Hu. split; [done|apply HS].
Qed.

(** C8: whatever bytes arrive in whatever reads, from a client, a replica or a master, no assert of
    the request parser fails, the ones on the recorded duration of a command and on the phase of
    the I/O threads included, no access leaves the query buffer or the argument array, every
    loop ends, the offsets of the replication stream stay consistent with the buffer, and the
    client is left in a state to go on from. The server around the parser is assumed not to be
    in the write phase of its I/O threads, and processCommand to leave a client alive when it
    returns C_OK, to have freed it or marked it for closing otherwise, to keep the query buffer
    and the replication counters of a client it leaves alive, and to have recorded the duration
    unless the client is blocked. *)
Theorem request_parser_safe `{Sv : Server} `{!ServerOk Sv} (rs : list read_result) (s : srv) (c : client) :
  ClientOk c -> exists s' c', read_all s c rs = Some (s', c') /\ (forall c1, c' = Some c1 -> ClientOk c1).
Proof. apply read_all_safe. Qed.

(** C9: every call of the parser on a sound client returns, and what it returns is decided by the
    bytes that have arrived, as relations stated apart from the code give it: a complete request
    with its arguments and the bytes behind it, a request that needs more bytes, or a refusal
    with the error that belongs to it (a count or a length that is no number, is negative, too
    large or too large without authentication, a line over 64 KB, a missing dollar sign, a line
    that sdssplitargs cannot split; text from a master is refused without a reply). Only a
    refusal adds an error to the replies, exactly one, and sets the two flags, which close the
    connection; a closing connection executes no further command, whatever it sends. *)
Theorem protocol_errors_close `{Sv : Server} :
  (forall c, BufOk c -> ReqOk c -> reqtype c = PROTO_REQ_MULTIBULK ->
     let asks args v :=
       if multibulklen c =? 0 then array (has_flag c CLIENT_MASTER) (authRequired c) (unparsed c) args v
       else arguments (has_flag c CLIENT_MASTER) (authRequired c) (multibulklen c) (bulklen c) (unparsed c) args v in
     exists r, processMultibulkBuffer c = Some r /\ (exists args v, asks args v) /\ forall args v, asks args v -> answers c args v r) /\
  (forall c, BufOk c -> ReqOk c -> reqtype c = PROTO_REQ_INLINE ->
     let asks args v := text_line (has_flag c CLIENT_MASTER) (unparsed c) args v in
     exists r, processInlineBuffer c = Some r /\ (exists args v, asks args v) /\ forall args v, asks args v -> answers c args v r) /\
  (forall c args e r, answers c args (Refused e) r -> closing r.1 /\ has_flag r.1 CLIENT_PROTOCOL_ERROR = true) /\
  (forall rs s c, closing c -> exists c', read_all s c rs = Some (s, Some c') /\ closing c').
Proof.
  split_and!; [| |apply refused_closing|apply closing_reads].
  - intros c HB HR Hrt. cbv zeta. destruct (Z.eqb_spec (multibulklen c) 0) as [Hm|Hm].
    + destruct (array_spec c HB Hrt HR Hm) as (args & v & r & E & Ha & Hans). exists r. split; [done|]. split; [by exists args, v|].
      intros args' v' Ha'. by destruct (array_fun _ _ _ _ _ _ _ Ha Ha') as [<- <-].
    + destruct (arguments_spec c HB Hrt HR Hm) as (args & v & r & E & Ha & Hans). exists r. split; [done|]. split; [by exists args, v|].
      intros args' v' Ha'. by destruct (arguments_fun _ _ _ _ _ _ _ _ _ Ha Ha') as [<- <-].
  - intros c HB HR Hrt. cbv zeta. destruct (line_spec c HB Hrt HR) as (args & v & r & E & Ha & Hans). exists r. split; [done|].
    split; [by exists args, v|]. intros args' v' Ha'. by destruct (text_line_fun _ _ _ _ _ _ Ha Ha') as [<- <-].
Qed.

(** C39: sdssplitargs ends on every line without reading behind its terminator, and arguments quoted
    by sdscatrepr and joined by spaces are split back into the same arguments. *)
Theorem sdssplitargs_roundtrip (line : list Z) (args : list (list Z)) :
  (exists r, sdssplitargs line = Some r) /\
  (Forall (Forall is_byte) args -> sdssplitargs (quoted_line args) = Some (Some args)).
Proof. split; [apply sdssplitargs_total|apply split_quoted_line]. Qed.

(** ** A server that records the commands, and its clients *)

Module RespSample.

(** The first word is [post] or [host:]. *)
Definition security (c : client) : bool :=
  let word := (fun x => if (65 <=? x) && (x <=? 90) then x + 32 else x) <$> default [] (head (argv c)) in
  bool_decide (word = [112; 111; 115; 116] \/ word = [104; 111; 115; 116; 58]).

#[export] Instance recorder : Server := {|
  srv := list (list (list Z)); proto_max_bulk_len := 512 * 1024 * 1024; client_max_querybuf_len := 1024 * 1024 * 1024;
  default_user_open := true; unixtime := 0; io_threads_op := IO_THREADS_OP_IDLE; isInsideYieldingLongCommand := false;
  processCommand s c :=
    if security c then (s, freeClientAsync c, false, true)
    else (s ++ [argv c], set_state c (flags c) (Some otherCommand) (slot c) (errors c), true, true);
  replicationFeedStream s _ := s |}.

Lemma async_closing c : has_flag c CLIENT_SCRIPT = false -> has_flag (freeClientAsync c) CLIENT_CLOSE_ASAP = true.
Proof.
  intros Hs. unfold freeClientAsync. rewrite Hs, orb_false_r. destruct (has_flag c CLIENT_CLOSE_ASAP) eqn:E; [done|].
  unfold CLIENT_CLOSE_ASAP. rewrite has_flag_bit by done. by apply set_flag_true.
Qed.

#[export] Instance recorder_ok : ServerOk recorder.
Proof.
  split; [done|..]; simpl.
  - intros s c s' c' alive. destruct (security c); by intros [= <- <- <-].
  - intros s c s' c' Hs. destruct (security c); [|done]. intros [= <- <-]. by apply async_closing.
  - intros s c s' c' ok. destruct (security c); intros [= <- <- <-]; [|done]. unfold freeClientAsync.
    destruct (_ || _); [done|]. by rewrite !has_flag_lor.
  - intros s c s' c' Hd. destruct (security c); [done|]. by intros [= <- <-].
Qed.

Definition idle : client := {|
  querybuf := []; qb_pos := 0; argv := []; argv_len := 0; argv_len_sum := 0; reqtype := 0; multibulklen := 0; bulklen := -1;
  flags := 0; cmd := None; slot := -1; authenticated := false; mstate_argv_len_sums := 0; reploff := 0; read_reploff := 0;
  repl_applied := 0; repl_ack_time := 0; duration := 0; errors := [] |}.

(** Any command but these two is recorded. *)
Lemma recorder_executes c0 args :
  security (set_args idle args 0 0) = false -> executes (Sv := recorder) c0 (fun s args => s ++ [args]) args.
Proof.
  intros Hs s c Hargs Hc. simpl. assert (security c = false) as -> by (unfold security in *; by rewrite Hargs).
  rewrite Hargs. eexists. split; [done|]. split; [done|]. split; [done|]. destruct Hc as ([] & ? & ? & ? & ?). by repeat split.
Qed.

Lemma idle_fresh : fresh_client idle.
Proof. by split. Qed.

Lemma idle_ok : ClientOk idle.
Proof. split; [by split|]. right. split; [by apply ReqNone|done]. Qed.

(** SET k and a value with a carriage return; PING. *)
Definition cmds : list (list (list Z)) := [[[83; 69; 84]; [107]; [13; 10; 0; 36]]; [[80; 73; 78; 71]]].
Definition chunks : list (list Z) := [take 5 (enc cmds); []; take 21 (drop 5 (enc cmds)); drop 26 (enc cmds)].

(** An array whose count is not a number. *)
Definition bad : list Z := [42; 120; 13; 10].
Definition post : list Z := [80; 79; 83; 84; 32; 47; 10; 80; 13; 10].
Definition counting : client := set_req (set_buf idle bad 0) PROTO_REQ_MULTIBULK 0 (-1).
Definition refused : client :=
  match read_all (Sv := recorder) [] idle [ReadBytes bad] with Some (_, Some c) => c | _ => idle end.
End RespSample.

Section Witnesses.
Import RespSample.

Lemma resp_stream_witness : exists c',
  read_all (Sv := recorder) [] idle (ReadBytes <$> chunks) = Some (cmds, Some c') /\
  errors c' = [] /\ querybuf c' = [] /\ argv c' = [].
Proof.
  apply (resp_stream_correct (Sv := recorder) (fun s args => s ++ [args]) chunks cmds [] idle);
    [done| |exact idle_fresh| |reflexivity|split; [vm_compute; discriminate|done]].
  - by repeat (apply Forall_cons; split; [by apply recorder_executes|]).
  - repeat constructor; try done; vm_compute; discriminate.
Defined.

(** Garbage, a closed connection, and the word POST. *)
Lemma request_parser_safe_witness :
  (exists s' c', read_all (Sv := recorder) [] idle [ReadBytes bad; ReadBytes (replicate 70 42); ReadClosed] = Some (s', c') /\
    (forall c1, c' = Some c1 -> ClientOk c1)) /\
  (exists s' c', read_all (Sv := recorder) [] idle [ReadBytes post; ReadBytes bad] = Some (s', c') /\
    (forall c1, c' = Some c1 -> ClientOk c1)).
Proof. split; exact (request_parser_safe (Sv := recorder) _ [] idle idle_ok). Defined.

(** A count that is no number is refused, and commands behind it are not executed. *)
Lemma protocol_errors_witness :
  (exists r, processMultibulkBuffer (H := recorder) counting = Some r /\ answers counting [] (Refused (Some InvalidMbulkCount)) r) /\
  errors refused = [InvalidMbulkCount] /\
  exists c', read_all (Sv := recorder) [] refused [ReadBytes (enc cmds)] = Some ([], Some c') /\ closing c'.
Proof.
  destruct (protocol_errors_close (Sv := recorder)) as (Harray & _ & _ & Hclose). split; [|split; [reflexivity|]].
  - destruct (Harray counting) as (r & E & _ & Hall); [by split|by apply ReqCount|done|]. exists r. split; [done|]. apply Hall.
    eapply array_bad with (num := [120]) (x := 10) (rest := []).
    + apply line_found; [|done]. by repeat (constructor; [done|]).
    + intros n Hd Hi. exfalso. destruct (string2ll_spec [120] []) as (o & E' & Ho). assert (o = Some n) as -> by (by apply Ho).
      vm_compute in E'. discriminate.
  - apply (Hclose _ [] refused). left. reflexivity.
Defined.

Lemma sdssplitargs_witness : sdssplitargs (quoted_line [[97; 34; 32]; []; [0; 255]]) = Some (Some [[97; 34; 32]; []; [0; 255]]).
Proof.
  apply (proj2 (sdssplitargs_roundtrip [] [[97; 34; 32]; []; [0; 255]])). repeat constructor; done.
Defined.
End Witnesses.
