(* ===== verification/BitVec.v ===== *)
(** * Strings as vectors of bits

    The abstract view of a bitmap: [bits_of s] lists the bits of the string [s], bit 0 first,
    which is the most significant bit of the first byte.  Numbers of [n] bits are read and
    written most significant bit first ([bits_val], [num_bits]). *)
From S2P Require Import Prelude.

(** ** Definitions *)

(** The [n] lowest bits of [v], most significant first. *)
Fixpoint num_bits (n : nat) (v : Z) : list bool :=
  match n with
  | O => []
  | S n => Z.testbit v (Z.of_nat n) :: num_bits n v
  end.

Definition bits_of (s : list Z) : list bool := s ≫= num_bits 8.

Definition bits_val (l : list bool) : Z := fold_left (fun v b => 2 * v + Z.b2z b) l 0.

(** The number of set bits, and the position of the first bit equal to [b]. *)
Fixpoint ones (l : list bool) : Z :=
  match l with
  | [] => 0
  | b :: l => Z.b2z b + ones l
  end.

Fixpoint bit_index (b : bool) (l : list bool) : option Z :=
  match l with
  | [] => None
  | x :: l => if Bool.eqb x b then Some 0 else Z.add 1 <$> bit_index b l
  end.

Notation bytes s := (Forall is_byte s).

(** The bytes of an explicit list, from the hypotheses on each. *)
Ltac bytes_list := repeat (apply Forall_cons; split; [done|]); by apply Forall_nil.

Lemma bytes_check s : forallb (fun b => (0 <=? b) && (b <? 256)) s = true -> bytes s.
Proof.
  induction s as [|b s IH]; [by constructor|]. cbn [forallb]. intros H. apply andb_true_iff in H as [H1 H2].
  constructor; [unfold is_byte; lia|by apply IH].
Qed.

(** ** Numbers and bits *)

Lemma length_num_bits n v : length (num_bits n v) = n.
Proof. induction n; simpl; auto. Qed.

Lemma zlen_num_bits n v : zlen (num_bits n v) = Z.of_nat n.
Proof. unfold zlen. by rewrite length_num_bits. Qed.
#[export] Hint Rewrite zlen_num_bits : zlen.

Lemma num_bits_add k j v :
  num_bits (k + j) v = num_bits k (v / 2 ^ Z.of_nat j) ++ num_bits j v.
Proof.
  induction k as [|k IH]; simpl; [done|]. rewrite IH. f_equal.
  rewrite Z.div_pow2_bits by lia. f_equal. lia.
Qed.

Lemma num_bits_ext n v w :
  (forall i, 0 <= i < Z.of_nat n -> Z.testbit v i = Z.testbit w i) -> num_bits n v = num_bits n w.
Proof.
  induction n as [|n IH]; intros H; simpl; [done|]. f_equal; [apply H; lia|].
  apply IH. intros i Hi. apply H. lia.
Qed.

Lemma num_bits_mod n v : num_bits n (v mod 2 ^ Z.of_nat n) = num_bits n v.
Proof. apply num_bits_ext. intros i Hi. by rewrite Z.mod_pow2_bits_low by lia. Qed.

Lemma num_bits_wrap n w v : Z.of_nat n <= w -> num_bits n (wrapu w v) = num_bits n v.
Proof. intros Hw. apply num_bits_ext. intros i Hi. unfold wrapu. by rewrite Z.mod_pow2_bits_low by lia. Qed.

Lemma bits_val_snoc l b : bits_val (l ++ [b]) = 2 * bits_val l + Z.b2z b.
Proof. unfold bits_val. by rewrite fold_left_app. Qed.

Lemma fold_bits l : forall acc,
  fold_left (fun v b => 2 * v + Z.b2z b) l acc = acc * 2 ^ zlen l + bits_val l.
Proof.
  unfold bits_val. induction l as [|b l IH]; intros acc; [rewrite zlen_nil; simpl; lia|].
  cbn [fold_left]. rewrite (IH (2 * acc + _)), (IH (2 * 0 + _)), zlen_cons, Z.pow_add_r by (pose proof (zlen_nonneg l); lia).
  lia.
Qed.

Lemma bits_val_cons b l : bits_val (b :: l) = Z.b2z b * 2 ^ zlen l + bits_val l.
Proof. unfold bits_val at 1. simpl. apply fold_bits. Qed.

Lemma b2z_range b : 0 <= Z.b2z b <= 1.
Proof. destruct b; simpl; lia. Qed.

Lemma bits_val_range l : 0 <= bits_val l < 2 ^ zlen l.
Proof.
  induction l as [|b l IH] using rev_ind; [done|].
  rewrite bits_val_snoc, zlen_app, Z.pow_add_r by (try apply zlen_nonneg; unfold zlen; simpl; lia).
  pose proof (b2z_range b). change (2 ^ zlen [b]) with 2. lia.
Qed.

Lemma bits_val_num_bits n v : bits_val (num_bits n v) = v mod 2 ^ Z.of_nat n.
Proof.
  revert v. induction n as [|n IH]; intros v; [simpl; by rewrite Z.mod_1_r|].
  cbn [num_bits]. rewrite bits_val_cons, IH, zlen_num_bits.
  rewrite Nat2Z.inj_succ, Z.pow_succ_r, (Z.mul_comm 2) by lia.
  rewrite Z.rem_mul_r by (try apply Z.pow_nonzero; lia).
  rewrite Z.testbit_spec' by lia. lia.
Qed.

Lemma num_bits_bits_val l : num_bits (length l) (bits_val l) = l.
Proof.
  induction l as [|b l IH] using rev_ind; [done|].
  rewrite bits_val_snoc, length_app, num_bits_add. f_equal.
  - etrans; [|exact IH]. f_equal. change (2 ^ Z.of_nat (length [b])) with 2. pose proof (b2z_range b). div_lia.
  - simpl. f_equal. destruct b; simpl Z.b2z;
      [apply Z.testbit_odd_0 | rewrite Z.add_0_r; apply Z.testbit_even_0].
Qed.

Lemma num_bits_inj n v w :
  0 <= v < 2 ^ Z.of_nat n -> 0 <= w < 2 ^ Z.of_nat n -> num_bits n v = num_bits n w -> v = w.
Proof.
  intros Hv Hw E. rewrite <- (Z.mod_small v (2 ^ Z.of_nat n)), <- (Z.mod_small w (2 ^ Z.of_nat n)) by done.
  by rewrite <- !bits_val_num_bits, E.
Qed.

Lemma num_bits_0 n : num_bits n 0 = replicate n false.
Proof. induction n as [|n IH]; simpl; [done|]. by rewrite Z.testbit_0_l, IH. Qed.

Lemma num_bits_byte k v b :
  is_byte b -> num_bits (k + 8) (Z.lor (Z.shiftl v 8) b) = num_bits k v ++ num_bits 8 b.
Proof.
  intros Hb. rewrite Z.lor_comm, lor_add_high by (unfold is_byte in Hb; lia).
  rewrite num_bits_add. unfold is_byte in Hb. f_equal.
  - f_equal. change (2 ^ Z.of_nat 8) with 256. change (2 ^ 8) with 256. div_lia.
  - rewrite <- num_bits_mod. f_equal. change (2 ^ Z.of_nat 8) with 256. change (2 ^ 8) with 256. div_lia.
Qed.

(** ** Counting and searching *)

Lemma ones_app l1 l2 : ones (l1 ++ l2) = ones l1 + ones l2.
Proof. induction l1; simpl; lia. Qed.

Lemma ones_range l : 0 <= ones l <= zlen l.
Proof.
  induction l as [|b l IH]; simpl; [unfold zlen; simpl; lia|].
  rewrite zlen_cons. pose proof (b2z_range b). lia.
Qed.

Lemma bit_index_app b l1 l2 :
  bit_index b (l1 ++ l2) =
    match bit_index b l1 with
    | Some k => Some k
    | None => Z.add (zlen l1) <$> bit_index b l2
    end.
Proof.
  induction l1 as [|x l1 IH]; simpl.
  - destruct (bit_index b l2); simpl; [f_equal; unfold zlen; simpl; lia|done].
  - destruct (Bool.eqb x b); [done|]. rewrite IH, zlen_cons.
    destruct (bit_index b l1); simpl; [done|].
    destruct (bit_index b l2); simpl; [f_equal; lia|done].
Qed.

Lemma bit_index_None b l : bit_index b l = None <-> Forall (fun x => x = negb b) l.
Proof.
  induction l as [|x l IH]; simpl; [done|]. rewrite Forall_cons, <- IH.
  destruct x, b; simpl; destruct (bit_index _ l); naive_solver.
Qed.

Lemma bit_index_Some b l k :
  bit_index b l = Some k <->
  0 <= k /\ l !! Z.to_nat k = Some b /\ Forall (fun x => x = negb b) (take (Z.to_nat k) l).
Proof.
  revert k. induction l as [|x l IH]; intros k; simpl.
  - split; [done|]. intros (? & ? & ?). done.
  - destruct (Bool.eqb x b) eqn:E.
    + apply Bool.eqb_prop in E as ->. split.
      * intros [= <-]. simpl. split; [lia|]. split; [done|]. constructor.
      * intros (Hk & Hl & Hf). destruct (Z.to_nat k) eqn:Ek; [f_equal; lia|].
        simpl in Hf. apply Forall_cons in Hf as [Hb _]. by destruct b.
    + assert (x = negb b) as -> by (destruct x, b; done).
      rewrite fmap_Some. split.
      * intros (j & Hj & ->). apply IH in Hj as (Hj & Hl & Hf).
        replace (Z.to_nat (1 + j)) with (S (Z.to_nat j)) by lia. simpl.
        split; [lia|]. split; [done|]. by constructor.
      * intros (Hk & Hl & Hf). destruct (Z.to_nat k) eqn:Ek; simpl in Hl; [by destruct b|].
        simpl in Hf. apply Forall_cons in Hf as [_ Hf]. exists (k - 1).
        split; [|lia]. apply IH. replace (Z.to_nat (k - 1)) with n by lia. split; [lia|done].
Qed.

Lemma bit_index_range b l k : bit_index b l = Some k -> 0 <= k < zlen l.
Proof.
  intros H. apply bit_index_Some in H as (Hk & Hl & _).
  apply lookup_lt_Some in Hl. unfold zlen. lia.
Qed.

Lemma bit_index_replicate n b : bit_index b (replicate n (negb b)) = None.
Proof. apply bit_index_None, Forall_replicate. done. Qed.

(** ** The bits of a string *)

Lemma bits_of_app s1 s2 : bits_of (s1 ++ s2) = bits_of s1 ++ bits_of s2.
Proof. apply bind_app. Qed.

Lemma bits_of_cons b s : bits_of (b :: s) = num_bits 8 b ++ bits_of s.
Proof. done. Qed.

Lemma zlen_bits_of s : zlen (bits_of s) = 8 * zlen s.
Proof.
  induction s as [|b s IH]; [done|].
  rewrite bits_of_cons, zlen_app, IH, zlen_num_bits, zlen_cons. lia.
Qed.
#[export] Hint Rewrite zlen_bits_of : zlen.

Lemma bits_of_replicate0 n : bits_of (replicate n 0) = replicate (8 * n) false.
Proof.
  induction n as [|n IH]; [done|]. replace (8 * S n)%nat with (8 + 8 * n)%nat by lia.
  rewrite replicate_add, <- IH. done.
Qed.

Lemma bits_of_inj s1 s2 : bytes s1 -> bytes s2 -> bits_of s1 = bits_of s2 -> s1 = s2.
Proof.
  intros H1. revert s2. induction H1 as [|b s1 Hb _ IH]; intros s2 H2 E.
  - destruct H2; [done|]. by rewrite bits_of_cons in E.
  - destruct H2 as [|b' s2 Hb' H2]; [by rewrite bits_of_cons in E|].
    rewrite !bits_of_cons in E. apply app_inj_1 in E as [E1 E2]; [|by rewrite !length_num_bits].
    f_equal; [|by apply IH]. by apply (num_bits_inj 8).
Qed.

Global Arguments num_bits : simpl never.
Global Arguments bits_of : simpl never.

(** A bit position splits the string at its byte. *)
Lemma bits_of_split s i :
  0 <= i < 8 * zlen s ->
  exists a b c, s = a ++ b :: c /\ zlen a = i / 8 /\ getb s (i / 8) = Some b /\
    bits_of s = bits_of a ++ num_bits 8 b ++ bits_of c.
Proof.
  intros Hi. destruct (mem_split s (i / 8) 1) as (a & m & c & -> & Ha & Hm); [div_lia..|].
  destruct m as [|b [|? m]]; [by rewrite zlen_nil in Hm| |rewrite !zlen_cons in Hm; pose proof (zlen_nonneg m); lia].
  exists a, b, c. simpl. split_and!; [done|done|by apply getb_mid|].
  by rewrite bits_of_app, bits_of_cons.
Qed.

Lemma num_bits_lookup n v i :
  0 <= i < Z.of_nat n -> num_bits n v !! Z.to_nat i = Some (Z.testbit v (Z.of_nat n - 1 - i)).
Proof.
  revert i. induction n as [|n IH]; intros i Hi; [lia|].
  unfold num_bits; fold (num_bits n v). destruct (decide (i = 0)) as [->|Hne].
  - simpl. do 2 f_equal. lia.
  - replace (Z.to_nat i) with (S (Z.to_nat (i - 1))) by lia. simpl. rewrite IH by lia.
    do 2 f_equal. lia.
Qed.

Lemma bits_of_lookup s i b :
  0 <= i -> getb s (i / 8) = Some b ->
  bits_of s !! Z.to_nat i = Some (Z.testbit b (7 - i mod 8)).
Proof.
  intros Hi Hb. assert (i / 8 < zlen s) as Hlt.
  { unfold getb in Hb. case_match; [|done]. apply lookup_lt_Some in Hb. unfold zlen. lia. }
  destruct (bits_of_split s i) as (a & b' & c & Es & Ha & Hg & Eb); [div_lia|].
  rewrite Hb in Hg. injection Hg as <-. rewrite Eb.
  assert (length (bits_of a) = Z.to_nat (8 * (i / 8))) as Hla.
  { pose proof (zlen_bits_of a) as Hz. unfold zlen in *. lia. }
  rewrite lookup_app_r by (rewrite Hla; div_lia). rewrite Hla.
  replace (Z.to_nat i - _)%nat with (Z.to_nat (i mod 8)) by div_lia.
  rewrite lookup_app_l by (rewrite length_num_bits; div_lia).
  by rewrite num_bits_lookup by div_lia.
Qed.

(** Changing one bit of a byte. *)
Definition byte_set_bit (b bit : Z) (v : bool) : Z :=
  Z.land (Z.lor (Z.land b (Z.lnot (Z.shiftl 1 bit))) (Z.shiftl (Z.b2z v) bit)) 255.

Lemma byte_set_bit_ok b k v :
  is_byte b -> 0 <= k < 8 ->
  is_byte (byte_set_bit b (7 - k) v) /\
  num_bits 8 (byte_set_bit b (7 - k) v) = <[Z.to_nat k := v]> (num_bits 8 b).
Proof.
  intros Hb Hk.
  assert (forallb (fun k => forallb (fun b =>
    bool_decide (0 <= byte_set_bit b (7 - k) v < 256) &&
    bool_decide (num_bits 8 (byte_set_bit b (7 - k) v) = <[Z.to_nat k := v]> (num_bits 8 b)))
      (seqZ 0 256)) (seqZ 0 8) = true) as H by (destruct v; vm_compute; reflexivity).
  apply (forallb_range _ 8 k) in H; [|done]. apply (forallb_range _ 256 b) in H; [|done].
  apply andb_true_iff in H as [H1 H2]. split; by eapply bool_decide_eq_true_1.
Qed.

Lemma bits_of_setb s i b v :
  0 <= i -> bytes s -> getb s (i / 8) = Some b ->
  exists s', setb s (i / 8) (byte_set_bit b (7 - i mod 8) v) = Some s' /\
    bits_of s' = <[Z.to_nat i := v]> (bits_of s) /\ bytes s' /\ zlen s' = zlen s.
Proof.
  intros Hi Hs Hb. assert (i / 8 < zlen s) as Hlt.
  { unfold getb in Hb. case_match; [|done]. apply lookup_lt_Some in Hb. unfold zlen. lia. }
  destruct (bits_of_split s i) as (a & b' & c & -> & Ha & Hg & Eb); [div_lia|].
  rewrite Hb in Hg. injection Hg as <-.
  apply Forall_app in Hs as [Hsa Hs]. apply Forall_cons in Hs as [Hsb Hsc].
  destruct (byte_set_bit_ok b (i mod 8) v Hsb) as [Hy En]; [div_lia|].
  rewrite setb_mid by done. eexists. split; [done|]. rewrite Eb, bits_of_app, bits_of_cons, En.
  split; [|split; [|by rewrite !zlen_app, !zlen_cons]].
  - pose proof (zlen_bits_of a) as Hz. unfold zlen in *.
    rewrite insert_app_r_alt by div_lia. rewrite insert_app_l by (rewrite length_num_bits; div_lia).
    do 3 f_equal. div_lia.
  - apply Forall_app. split; [done|]. by constructor.
Qed.
