(* ===== verification/Bits.v ===== *)
(** * Bitmaps: the low level bit functions of [bitops.c]

    A string is a bitmap whose bit 0 is the most significant bit of the first byte.  This
    file models [redisPopcount], [redisBitpos], the reading and writing of bit fields and
    the overflow checks of BITFIELD.  [be] is the byte order of the host and [addr] the
    address of the block the functions read: both decide how the word-wise loops run, and
    the theorems show that neither changes a result.

    Signed 64-bit arithmetic that overflows is undefined in C; it is modelled as the
    wrap-around of the machine. *)
From S2P Require Import Prelude Endian.

Definition UCHAR_MAX := 255.
Definition ULONG_MAX := UINT64_MAX.
Definition sizeof_long := 8.

(** ** [redisPopcount] *)

Definition bitsinbyte : list Z :=
  [0; 1; 1; 2; 1; 2; 2; 3; 1; 2; 2; 3; 2; 3; 3; 4; 1; 2; 2; 3; 2; 3; 3; 4; 2; 3; 3; 4; 3; 4; 4; 5;
   1; 2; 2; 3; 2; 3; 3; 4; 2; 3; 3; 4; 3; 4; 4; 5; 2; 3; 3; 4; 3; 4; 4; 5; 3; 4; 4; 5; 4; 5; 5; 6;
   1; 2; 2; 3; 2; 3; 3; 4; 2; 3; 3; 4; 3; 4; 4; 5; 2; 3; 3; 4; 3; 4; 4; 5; 3; 4; 4; 5; 4; 5; 5; 6;
   2; 3; 3; 4; 3; 4; 4; 5; 3; 4; 4; 5; 4; 5; 5; 6; 3; 4; 4; 5; 4; 5; 5; 6; 4; 5; 5; 6; 5; 6; 6; 7;
   1; 2; 2; 3; 2; 3; 3; 4; 2; 3; 3; 4; 3; 4; 4; 5; 2; 3; 3; 4; 3; 4; 4; 5; 3; 4; 4; 5; 4; 5; 5; 6;
   2; 3; 3; 4; 3; 4; 4; 5; 3; 4; 4; 5; 4; 5; 5; 6; 3; 4; 4; 5; 4; 5; 5; 6; 4; 5; 5; 6; 5; 6; 6; 7;
   2; 3; 3; 4; 3; 4; 4; 5; 3; 4; 4; 5; 4; 5; 5; 6; 3; 4; 4; 5; 4; 5; 5; 6; 4; 5; 5; 6; 5; 6; 6; 7;
   3; 4; 4; 5; 4; 5; 5; 6; 4; 5; 5; 6; 5; 6; 6; 7; 4; 5; 5; 6; 5; 6; 6; 7; 5; 6; 6; 7; 6; 7; 7; 8].

(** [while((unsigned long)p & 3 && count)] *)
Definition popcount_head_body (addr : Z) (s : list Z) (st : Z * Z * Z)
    : option ((Z * Z * Z) + (Z * Z * Z)) :=
  let '(p, count, bits) := st in
  if negb (Z.land (addr + p) 3 =? 0) && negb (count =? 0) then
    c ← getb s p; n ← getb bitsinbyte c;
    Some (inl (p + 1, count - 1, s64 (bits + n)))
  else Some (inr st).

(** The first two steps of the parallel sum on one 32-bit word, and the third. *)
Definition popcount_pairs (aux : Z) : Z :=
  let aux := u32 (aux - Z.land (Z.shiftr aux 1) 0x55555555) in
  u32 (Z.land aux 0x33333333 + Z.land (Z.shiftr aux 2) 0x33333333).

Definition popcount_nibbles (aux : Z) : Z := Z.land (u32 (aux + Z.shiftr aux 4)) 0x0F0F0F0F.

Definition load32 (be : bool) (s : list Z) (p : Z) : option Z :=
  w ← mem_read s p 4; Some (host_load be w).

(** [while(count>=28)] *)
Definition popcount_block_body (be : bool) (s : list Z) (st : Z * Z * Z)
    : option ((Z * Z * Z) + (Z * Z * Z)) :=
  let '(p4, count, bits) := st in
  if count >=? 28 then
    aux1 ← load32 be s p4; aux2 ← load32 be s (p4 + 4); aux3 ← load32 be s (p4 + 8);
    aux4 ← load32 be s (p4 + 12); aux5 ← load32 be s (p4 + 16); aux6 ← load32 be s (p4 + 20);
    aux7 ← load32 be s (p4 + 24);
    let sum := u32 (popcount_nibbles (popcount_pairs aux1) + popcount_nibbles (popcount_pairs aux2)
      + popcount_nibbles (popcount_pairs aux3) + popcount_nibbles (popcount_pairs aux4)
      + popcount_nibbles (popcount_pairs aux5) + popcount_nibbles (popcount_pairs aux6)
      + popcount_nibbles (popcount_pairs aux7)) in
    Some (inl (p4 + 28, count - 28, s64 (bits + Z.shiftr (u32 (sum * 0x01010101)) 24)))
  else Some (inr st).

(** [while(count--)] *)
Definition popcount_tail_body (s : list Z) (st : Z * Z * Z) : option ((Z * Z * Z) + Z) :=
  let '(p, count, bits) := st in
  if negb (count =? 0) then
    c ← getb s p; n ← getb bitsinbyte c;
    Some (inl (p + 1, count - 1, s64 (bits + n)))
  else Some (inr bits).

Definition redisPopcount (be : bool) (addr : Z) (s : list Z) (p count : Z) : option Z :=
  let fuel := S (Z.to_nat count) in
  st ← loop fuel (popcount_head_body addr s) (p, count, 0);
  st ← loop fuel (popcount_block_body be s) st;
  loop fuel (popcount_tail_body s) st.

(** ** [redisBitpos] *)

(** The byte-wise search up to an aligned address; the flag is [found]. *)
Definition bitpos_head_body (addr : Z) (s : list Z) (skipval : Z) (st : Z * Z * Z)
    : option ((Z * Z * Z) + (Z * Z * Z * bool)) :=
  let '(c, count, pos) := st in
  if negb (Z.land (addr + c) (sizeof_long - 1) =? 0) && negb (count =? 0) then
    b ← getb s c;
    if negb (b =? skipval) then Some (inr (st, true))
    else Some (inl (c + 1, count - 1, s64 (pos + 8)))
  else Some (inr (st, false)).

Definition bitpos_word_body (be : bool) (s : list Z) (skipval : Z) (st : Z * Z * Z)
    : option ((Z * Z * Z) + (Z * Z * Z)) :=
  let '(l, count, pos) := st in
  if count >=? sizeof_long then
    w ← mem_read s l sizeof_long;
    if negb (host_load be w =? skipval) then Some (inr st)
    else Some (inl (l + sizeof_long, count - sizeof_long, s64 (pos + sizeof_long * 8)))
  else Some (inr st).

(** The loading of the last word, most significant byte first, padded with zeroes. *)
Fixpoint bitpos_load (n : nat) (s : list Z) (c count word : Z) : option Z :=
  match n with
  | O => Some word
  | S n =>
      let word := u64 (Z.shiftl word 8) in
      if negb (count =? 0) then
        b ← getb s c; bitpos_load n s (c + 1) (count - 1) (Z.lor word b)
      else bitpos_load n s c count word
  end.

(** [while(one)]; falling out of the loop is [serverPanic]. *)
Definition bitpos_scan_body (word bit : Z) (st : Z * Z) : option ((Z * Z) + Z) :=
  let '(one, pos) := st in
  if negb (one =? 0) then
    if (if negb (Z.land one word =? 0) then 1 else 0) =? bit then Some (inr pos)
    else Some (inl (Z.shiftr one 1, s64 (pos + 1)))
  else None.

Definition redisBitpos (be : bool) (addr : Z) (s : list Z) (p count bit : Z) : option Z :=
  let fuel := S (Z.to_nat count) in
  let skipval := if negb (bit =? 0) then 0 else UCHAR_MAX in
  '(st, found) ← loop fuel (bitpos_head_body addr s skipval) (p, count, 0);
  st ← (if negb found then
          let skipval := if negb (bit =? 0) then 0 else ULONG_MAX in
          loop fuel (bitpos_word_body be s skipval) st
        else Some st);
  let '(c, count, pos) := st in
  word ← bitpos_load 8 s c count 0;
  if (bit =? 1) && (word =? 0) then Some (-1)
  else
    let one := u64 (Z.lnot (Z.shiftr ULONG_MAX 1)) in
    loop 65 (bitpos_scan_body word bit) (one, pos).

(** ** Bit fields *)

Fixpoint set_bits_loop (n : nat) (j : Z) (p : list Z) (offset bits value : Z) : option (list Z) :=
  match n with
  | O => Some p
  | S n =>
      let bitval := if negb (Z.land value (u64 (Z.shiftl 1 (bits - 1 - j))) =? 0) then 1 else 0 in
      let byte := Z.shiftr offset 3 in
      let bit := 7 - Z.land offset 7 in
      byteval ← getb p byte;
      let byteval := Z.land byteval (Z.lnot (Z.shiftl 1 bit)) in
      let byteval := Z.lor byteval (Z.shiftl bitval bit) in
      p ← setb p byte (Z.land byteval 0xff);
      set_bits_loop n (j + 1) p (u64 (offset + 1)) bits value
  end.

Definition setUnsignedBitfield (p : list Z) (offset bits value : Z) : option (list Z) :=
  set_bits_loop (Z.to_nat bits) 0 p offset bits value.

Definition setSignedBitfield (p : list Z) (offset bits value : Z) : option (list Z) :=
  let uv := u64 value in setUnsignedBitfield p offset bits uv.

Fixpoint get_bits_loop (n : nat) (p : list Z) (offset value : Z) : option Z :=
  match n with
  | O => Some value
  | S n =>
      let byte := Z.shiftr offset 3 in
      let bit := 7 - Z.land offset 7 in
      byteval ← getb p byte;
      let bitval := Z.land (Z.shiftr byteval bit) 1 in
      get_bits_loop n p (u64 (offset + 1)) (Z.lor (u64 (Z.shiftl value 1)) bitval)
  end.

Definition getUnsignedBitfield (p : list Z) (offset bits : Z) : option Z :=
  get_bits_loop (Z.to_nat bits) p offset 0.

Definition getSignedBitfield (p : list Z) (offset bits : Z) : option Z :=
  u ← getUnsignedBitfield p offset bits;
  let value := s64 u in
  if (bits <? 64) && negb (Z.land (u64 value) (u64 (Z.shiftl 1 (bits - 1))) =? 0)
  then Some (s64 (Z.lor (u64 value) (u64 (Z.shiftl UINT64_MAX bits))))
  else Some value.

(** ** Overflow checks

    The result and what is written to [*limit]; [limit] says that the pointer is not NULL. *)

Inductive overflow_type := BFOVERFLOW_WRAP | BFOVERFLOW_SAT | BFOVERFLOW_FAIL.

#[export] Instance overflow_type_eq_dec : EqDecision overflow_type.
Proof. solve_decision. Defined.

Definition checkUnsignedBitfieldOverflow (value incr bits : Z) (owtype : overflow_type) (limit : bool)
    : Z * option Z :=
  let max := if bits =? 64 then UINT64_MAX else u64 (u64 (Z.shiftl 1 bits) - 1) in
  let maxincr := s64 (u64 (max - value)) in
  let minincr := s64 (u64 (- value)) in
  let handle_wrap :=
    let mask := u64 (Z.shiftl UINT64_MAX bits) in
    let res := u64 (value + incr) in
    (1, Some (Z.land res (u64 (Z.lnot mask)))) in
  if (value >? max) || ((incr >? 0) && (incr >? maxincr)) then
    if limit then
      match owtype with
      | BFOVERFLOW_WRAP => handle_wrap
      | BFOVERFLOW_SAT => (1, Some max)
      | BFOVERFLOW_FAIL => (1, None)
      end
    else (1, None)
  else if (incr <? 0) && (incr <? minincr) then
    if limit then
      match owtype with
      | BFOVERFLOW_WRAP => handle_wrap
      | BFOVERFLOW_SAT => (-1, Some 0)
      | BFOVERFLOW_FAIL => (-1, None)
      end
    else (-1, None)
  else (0, None).

Definition checkSignedBitfieldOverflow (value incr bits : Z) (owtype : overflow_type) (limit : bool)
    : Z * option Z :=
  let max := if bits =? 64 then INT64_MAX else s64 (s64 (Z.shiftl 1 (bits - 1)) - 1) in
  let min := (- max) - 1 in
  let maxincr := s64 (u64 (u64 max - u64 value)) in
  let minincr := s64 (min - value) in
  let handle_wrap :=
    let msb := u64 (Z.shiftl 1 (bits - 1)) in
    let c := u64 (u64 value + u64 incr) in
    let c :=
      if bits <? 64 then
        let mask := u64 (Z.shiftl UINT64_MAX bits) in
        if negb (Z.land c msb =? 0) then Z.lor c mask else Z.land c (u64 (Z.lnot mask))
      else c in
    (1, Some (s64 c)) in
  if (value >? max) || (negb (bits =? 64) && (incr >? maxincr))
     || ((value >=? 0) && (incr >? 0) && (incr >? maxincr)) then
    if limit then
      match owtype with
      | BFOVERFLOW_WRAP => handle_wrap
      | BFOVERFLOW_SAT => (1, Some max)
      | BFOVERFLOW_FAIL => (1, None)
      end
    else (1, None)
  else if (value <? min) || (negb (bits =? 64) && (incr <? minincr))
          || ((value <? 0) && (incr <? 0) && (incr <? minincr)) then
    if limit then
      match owtype with
      | BFOVERFLOW_WRAP => handle_wrap
      | BFOVERFLOW_SAT => (-1, Some min)
      | BFOVERFLOW_FAIL => (-1, None)
      end
    else (-1, None)
  else (0, None).
