(* ===== verification/BitsFacts.v ===== *)
(** * Correctness of the population count and of the bit search

    [redisPopcount] adds the bytes of an unaligned head and tail from a table and sums words in
    between by masks and shifts; [redisBitpos] skips bytes and words that hold no candidate.
    Both are proved equal to counting and searching in the list of bits, for every address and
    both byte orders. *)
From S2P Require Import Prelude Endian BitVec Bits.

(** ** Byte-wise operations on words *)

Lemma testbit_small b k n : 0 <= b < 2 ^ k -> k <= n -> Z.testbit b n = false.
Proof.
  intros Hb Hn. destruct (decide (k < 0)).
  { rewrite Z.pow_neg_r in Hb by done. lia. }
  rewrite <- (Z.mod_small b (2 ^ k)) by done. apply Z.mod_pow2_bits_high. lia.
Qed.

(** A mask whose bytes clear what the shift carries over keeps bytes apart. *)
Lemma land_shiftr_byte b r m M k :
  0 <= k <= 8 -> is_byte b -> 0 <= m < 2 ^ (8 - k) ->
  Z.land (Z.shiftr (b + 256 * r) k) (m + 256 * M)
  = Z.land (Z.shiftr b k) m + 256 * Z.land (Z.shiftr r k) M.
Proof.
  intros Hk Hb Hm. unfold is_byte in Hb.
  assert (0 <= m < 256) as Hm'.
  { split; [lia|]. apply Z.lt_le_trans with (2 ^ (8 - k)); [lia|].
    change 256 with (2 ^ 8). apply Z.pow_le_mono_r; lia. }
  assert (0 <= Z.land (Z.shiftr b k) m < 2 ^ 8) as Hl.
  { split; [apply Z.land_nonneg; lia|]. apply Z.le_lt_trans with m; [|change (2 ^ 8) with 256; lia].
    rewrite Z.land_comm. apply Z.ldiff_le; [lia|].
    apply Z.bits_inj'. intros n Hn. rewrite Z.ldiff_spec, Z.land_spec, Z.bits_0.
    by destruct (Z.testbit m n), (Z.testbit (Z.shiftr b k) n). }
  change 256 with (2 ^ 8).
  rewrite <- (lor_add_high b r 8), <- (lor_add_high m M 8), <- lor_add_high by lia.
  apply Z.bits_inj'. intros n Hn.
  rewrite Z.land_spec, Z.shiftr_spec, !Z.lor_spec, !Z.shiftl_spec, !Z.land_spec, Z.shiftr_spec by lia.
  destruct (decide (8 <= n)) as [H8|H8].
  - rewrite (testbit_small b 8), (testbit_small m 8), Z.shiftr_spec by lia. simpl.
    do 2 f_equal. lia.
  - rewrite (Z.testbit_neg_r M (n - 8)), andb_false_r, !orb_false_r by lia.
    destruct (decide (8 - k <= n)).
    + by rewrite (testbit_small m (8 - k)), !andb_false_r by lia.
    + by rewrite (Z.testbit_neg_r r), orb_false_r by lia.
Qed.

Lemma le_join_cons b bs : le_join (b :: bs) = b + 256 * le_join bs.
Proof. done. Qed.

Lemma land_shiftr_bytes bs m k :
  0 <= k <= 8 -> bytes bs -> 0 <= m < 2 ^ (8 - k) ->
  Z.land (Z.shiftr (le_join bs) k) (le_join (replicate (length bs) m))
  = le_join ((fun b => Z.land (Z.shiftr b k) m) <$> bs).
Proof.
  intros Hk Hb Hm. induction Hb as [|b bs Hb _ IH]; [by rewrite Z.land_0_r|].
  cbn [length replicate fmap list_fmap]. rewrite !le_join_cons, land_shiftr_byte, IH by done. done.
Qed.

Lemma le_join_map2 (f g h : Z -> Z) bs :
  (forall b, h b = f b + g b) -> le_join (f <$> bs) + le_join (g <$> bs) = le_join (h <$> bs).
Proof.
  intros H. induction bs as [|b bs IH]; [done|].
  cbn [fmap list_fmap]. rewrite !le_join_cons, <- IH, H. lia.
Qed.

(** The first two steps of the parallel sum on one byte: the counts of the two halves. *)
Definition pairs8 (b : Z) : Z :=
  let b := b - Z.land (Z.shiftr b 1) 0x55 in Z.land b 0x33 + Z.land (Z.shiftr b 2) 0x33.

Lemma pairs8_ok b :
  is_byte b ->
  is_byte (b - Z.land (Z.shiftr b 1) 0x55) /\
  0 <= pairs8 b mod 16 <= 4 /\ 0 <= pairs8 b / 16 <= 4 /\
  pairs8 b mod 16 + pairs8 b / 16 = ones (num_bits 8 b).
Proof.
  intros Hb.
  assert (forallb (fun b =>
    (0 <=? b - Z.land (Z.shiftr b 1) 0x55) && (b - Z.land (Z.shiftr b 1) 0x55 <? 256) &&
    (0 <=? pairs8 b mod 16) && (pairs8 b mod 16 <=? 4) && (0 <=? pairs8 b / 16) && (pairs8 b / 16 <=? 4) &&
    (pairs8 b mod 16 + pairs8 b / 16 =? ones (num_bits 8 b))) (seqZ 0 256) = true) as H
    by (vm_compute; reflexivity).
  apply (forallb_range _ 256 b) in H; [|done]. cbv beta in H. unfold is_byte. lia.
Qed.

Lemma le_join_u32 bs : length bs = 4%nat -> bytes bs -> u32 (le_join bs) = le_join bs.
Proof.
  intros Hl Hb. apply wrapu_small. pose proof (le_join_range bs Hb) as H. unfold zlen in H.
  rewrite Hl in H. done.
Qed.

Lemma pairs8_byte b : is_byte b -> is_byte (pairs8 b).
Proof. intros Hb. destruct (pairs8_ok b Hb) as (_ & H). unfold is_byte. div_lia. Qed.

Lemma popcount_pairs_bytes bs :
  length bs = 4%nat -> bytes bs -> popcount_pairs (le_join bs) = le_join (pairs8 <$> bs).
Proof.
  intros Hl Hb. unfold popcount_pairs.
  set (f := fun b => b - Z.land (Z.shiftr b 1) 0x55).
  assert (le_join bs - Z.land (Z.shiftr (le_join bs) 1) 0x55555555 = le_join (f <$> bs)) as E1.
  { change 0x55555555 with (le_join (replicate 4 0x55)). rewrite <- Hl, land_shiftr_bytes by (done || lia).
    pose proof (le_join_map2 f (fun b => Z.land (Z.shiftr b 1) 0x55) id bs) as H.
    rewrite list_fmap_id in H. rewrite <- H; [lia|]. intros b. unfold f, id. lia. }
  assert (bytes (f <$> bs)) as Hf.
  { apply Forall_fmap. eapply Forall_impl; [done|]. intros b Hb'. by apply pairs8_ok. }
  rewrite E1, le_join_u32 by (by rewrite ?length_fmap). cbv zeta.
  rewrite <- (Z.shiftr_0_r (le_join (f <$> bs))) at 1.
  change 0x33333333 with (le_join (replicate 4 0x33)).
  rewrite <- Hl, <- (length_fmap f bs), !land_shiftr_bytes by (done || lia).
  rewrite (le_join_map2 _ _ (fun b => Z.land b 0x33 + Z.land (Z.shiftr b 2) 0x33)).
  - rewrite <- list_fmap_compose. apply le_join_u32; [by rewrite length_fmap|].
    apply Forall_fmap. eapply Forall_impl; [done|]. intros b Hb'. by apply pairs8_byte.
  - intros b. by rewrite Z.shiftr_0_r.
Qed.

(** The sum of the halves, per byte: all four bytes at once. *)
Lemma popcount_nibbles_bytes p0 p1 p2 p3 :
  Forall (fun p => 0 <= p mod 16 <= 4 /\ 0 <= p / 16 <= 4) [p0; p1; p2; p3] ->
  popcount_nibbles (le_join [p0; p1; p2; p3]) = le_join ((fun p => p mod 16 + p / 16) <$> [p0; p1; p2; p3]).
Proof.
  intros H. do 4 (apply Forall_cons in H as [? H]). unfold popcount_nibbles.
  set (q := fun p n => p mod 16 + p / 16 + 16 * (p / 16 + n mod 16)).
  set (qs := [q p0 p1; q p1 p2; q p2 p3; q p3 0]).
  assert (le_join [p0; p1; p2; p3] + Z.shiftr (le_join [p0; p1; p2; p3]) 4 = le_join qs) as ->.
  { unfold qs, q, le_join. rewrite Z.shiftr_div_pow2 by lia. change (2 ^ 4) with 16. div_lia. }
  assert (bytes qs) as Hq by (unfold qs, q, is_byte; repeat constructor; div_lia).
  rewrite le_join_u32 by done.
  rewrite <- (Z.shiftr_0_r (le_join qs)). change 0x0F0F0F0F with (le_join (replicate (length qs) 0x0F)).
  rewrite land_shiftr_bytes by (done || lia). unfold qs, q. cbn [fmap list_fmap].
  change 0x0F with (Z.ones 4). rewrite !Z.shiftr_0_r, !Z.land_ones by lia. change (2 ^ 4) with 16.
  repeat f_equal; div_lia.
Qed.

(** ** [redisPopcount] *)

Definition popc (s : list Z) : Z := ones (bits_of s).

Lemma popc_app s1 s2 : popc (s1 ++ s2) = popc s1 + popc s2.
Proof. unfold popc. by rewrite bits_of_app, ones_app. Qed.

Lemma popc_cons b s : popc (b :: s) = ones (num_bits 8 b) + popc s.
Proof. unfold popc. by rewrite bits_of_cons, ones_app. Qed.

Lemma popc_range s : 0 <= popc s <= 8 * zlen s.
Proof. unfold popc. pose proof (ones_range (bits_of s)) as H. by rewrite zlen_bits_of in H. Qed.

Lemma popc_reverse s : popc (reverse s) = popc s.
Proof.
  induction s as [|b s IH]; [done|]. rewrite reverse_cons, popc_app, IH, !popc_cons.
  change (popc []) with 0. lia.
Qed.

Lemma bitsinbyte_ok b : is_byte b -> getb bitsinbyte b = Some (ones (num_bits 8 b)).
Proof.
  intros Hb.
  assert (forallb (fun b => bool_decide (getb bitsinbyte b = Some (ones (num_bits 8 b)))) (seqZ 0 256) = true)
    as H by (vm_compute; reflexivity).
  apply (forallb_range _ 256 b) in H; [|done]. by eapply bool_decide_eq_true_1.
Qed.

(** One word: four counters below 9 that add up to its population. *)
Lemma popcount_word be a w c p :
  p = zlen a -> zlen w = 4 -> bytes w ->
  exists v c0 c1 c2 c3, load32 be (a ++ w ++ c) p = Some v /\
    popcount_nibbles (popcount_pairs v) = c0 + 256 * c1 + 65536 * c2 + 16777216 * c3 /\
    0 <= c0 <= 8 /\ 0 <= c1 <= 8 /\ 0 <= c2 <= 8 /\ 0 <= c3 <= 8 /\ c0 + c1 + c2 + c3 = popc w.
Proof.
  intros Hp Hw Hb. unfold load32. rewrite mem_read_mid by done. cbn [mbind option_bind].
  set (bs := if be then reverse w else w).
  assert (length bs = 4%nat) as Hl by (unfold bs, zlen in *; destruct be; rewrite ?length_reverse; lia).
  assert (bytes bs) as Hbs by (unfold bs; destruct be; [by apply Forall_reverse|done]).
  assert (popc bs = popc w) as <- by (unfold bs; destruct be; [apply popc_reverse|done]).
  change (host_load be w) with (le_join bs).
  destruct bs as [|b0 [|b1 [|b2 [|b3 [|]]]]]; try done. pose proof Hbs as Hall.
  do 4 (apply Forall_cons in Hbs as [? Hbs]).
  exists (le_join [b0; b1; b2; b3]), (ones (num_bits 8 b0)), (ones (num_bits 8 b1)),
    (ones (num_bits 8 b2)), (ones (num_bits 8 b3)). split; [done|].
  pose proof (pairs8_ok b0) as (_ & ? & ? & E0); [done|]. pose proof (pairs8_ok b1) as (_ & ? & ? & E1); [done|].
  pose proof (pairs8_ok b2) as (_ & ? & ? & E2); [done|]. pose proof (pairs8_ok b3) as (_ & ? & ? & E3); [done|].
  rewrite popcount_pairs_bytes by done. cbn [fmap list_fmap].
  rewrite popcount_nibbles_bytes by (repeat (apply Forall_cons; split; [lia|]); constructor). cbn [fmap list_fmap].
  rewrite !popc_cons. change (popc []) with 0. unfold le_join. lia.
Qed.

(** The multiplication that adds the four byte counters. *)
Lemma bytes_sum_mult c0 c1 c2 c3 :
  0 <= c0 -> 0 <= c1 -> 0 <= c2 -> 0 <= c3 -> c0 + c1 + c2 + c3 < 256 ->
  Z.shiftr (u32 (u32 (c0 + 256 * c1 + 65536 * c2 + 16777216 * c3) * 0x01010101)) 24 = c0 + c1 + c2 + c3.
Proof.
  intros. rewrite (wrapu_small 32 (c0 + 256 * c1 + 65536 * c2 + 16777216 * c3)) by (change (2 ^ 32) with 4294967296; lia).
  rewrite Z.shiftr_div_pow2 by lia. unfold wrapu. change (2 ^ 32) with 4294967296. change (2 ^ 24) with 16777216.
  set (k := (c1 + c2 + c3) + 256 * (c2 + c3) + 65536 * c3).
  set (low := c0 + 256 * (c0 + c1) + 65536 * (c0 + c1 + c2)).
  replace (_ * _) with ((16777216 * (c0 + c1 + c2 + c3) + low) + k * 4294967296) by (unfold k, low; lia).
  rewrite Z_mod_plus_full, Z.mod_small by (unfold low; lia). unfold low. div_lia.
Qed.

Lemma split_front (l : list Z) n : 0 <= n <= zlen l -> exists w l', l = w ++ l' /\ zlen w = n.
Proof.
  intros Hn. destruct (mem_split l 0 n) as (a & w & l' & -> & Ha & Hw); [lia..|].
  destruct a; [|rewrite zlen_cons in Ha; pose proof (zlen_nonneg a); lia]. by exists w, l'.
Qed.

Section Popcount.
Variables (be : bool) (addr : Z) (pre str post : list Z).
Hypothesis Hbytes : bytes str.
Hypothesis Hlen : zlen str < 2 ^ 59.

(** Where a loop stands: [l] is left to count. *)
Definition pop_inv (st : Z * Z * Z) : Prop :=
  let '(p, count, bits) := st in
  exists d l, str = d ++ l /\ p = zlen pre + zlen d /\ count = zlen l /\ bits = popc d.

Let s := pre ++ str ++ post.

Lemma pop_inv_advance d d' l p count n :
  str = d' ++ l -> p = zlen pre + zlen d' -> count = zlen l -> popc d' = popc d + n ->
  pop_inv (p, count, s64 (popc d + n)).
Proof.
  intros E -> -> Hn. exists d', l. split; [done|]. split; [lia|]. split; [done|].
  rewrite <- Hn. apply wraps_small; [lia|].
  assert (zlen d' <= zlen str) by (rewrite E; len_lia).
  pose proof (popc_range d'). change (2 ^ (64 - 1)) with (16 * 2 ^ 59). lia.
Qed.

Lemma pop_byte d b l p :
  str = d ++ b :: l -> p = zlen pre + zlen d ->
  getb s p = Some b /\ getb bitsinbyte b = Some (ones (num_bits 8 b)) /\
  pop_inv (p + 1, zlen (b :: l) - 1, s64 (popc d + ones (num_bits 8 b))).
Proof.
  intros E ->. unfold s. rewrite E. split_and!.
  - rewrite <- app_assoc, app_assoc. apply getb_mid. by rewrite zlen_app.
  - apply bitsinbyte_ok. rewrite E in Hbytes. apply Forall_app in Hbytes as [_ H].
    by apply Forall_cons in H as [? _].
  - apply (pop_inv_advance d (d ++ [b]) l); rewrite ?zlen_app, ?zlen_cons, ?zlen_nil, ?popc_app, ?popc_cons; try lia.
    + by rewrite <- app_assoc.
    + change (popc []) with 0. lia.
Qed.

(** Four bytes further: the counters of the next word. *)
Lemma pop_word d l p :
  str = d ++ l -> p = zlen pre + zlen d -> 4 <= zlen l ->
  exists d' l' v c0 c1 c2 c3, str = d' ++ l' /\ zlen d' = zlen d + 4 /\ zlen l = 4 + zlen l' /\
    load32 be s p = Some v /\
    popcount_nibbles (popcount_pairs v) = c0 + 256 * c1 + 65536 * c2 + 16777216 * c3 /\
    0 <= c0 <= 8 /\ 0 <= c1 <= 8 /\ 0 <= c2 <= 8 /\ 0 <= c3 <= 8 /\
    popc d' = popc d + (c0 + c1 + c2 + c3).
Proof.
  intros E -> Hl. destruct (split_front l 4) as (w & l' & -> & Hw); [lia|].
  assert (bytes w) as Hb.
  { rewrite E in Hbytes. apply Forall_app in Hbytes as [_ H]. by apply Forall_app in H as [? _]. }
  destruct (popcount_word be (pre ++ d) w (l' ++ post) (zlen pre + zlen d))
    as (v & c0 & c1 & c2 & c3 & Hv & Hn & H0 & H1 & H2 & H3 & Hs); [by rewrite zlen_app|done|done|].
  exists (d ++ w), l', v, c0, c1, c2, c3. rewrite popc_app, !zlen_app, Hs.
  split_and!; try done; try lia.
  - by rewrite <- app_assoc.
  - rewrite <- Hv. f_equal. unfold s. rewrite E. by rewrite <- !app_assoc.
Qed.

Ltac pop_next d l p E :=
  let d' := fresh "d" in let l' := fresh "l" in let v := fresh "v" in let E' := fresh "E" in
  let c0 := fresh "c" in let c1 := fresh "c" in let c2 := fresh "c" in let c3 := fresh "c" in
  let Hv := fresh "Hv" in let Hn := fresh "Hn" in
  destruct (pop_word d l p E) as (d' & l' & v & c0 & c1 & c2 & c3 & E' & ? & ? & Hv & Hn & ? & ? & ? & ? & ?);
  [lia | lia | rewrite Hv; cbn [mbind option_bind]; rewrite Hn].

Lemma pop_block d l p count :
  str = d ++ l -> p = zlen pre + zlen d -> count = zlen l -> 28 <= count ->
  exists st', popcount_block_body be s (p, count, popc d) = Some (inl st') /\ pop_inv st' /\
    st'.1.2 = count - 28.
Proof.
  intros E Hp Hc Hge. unfold popcount_block_body. replace (count >=? 28) with true by lia.
  pop_next d l p E. pop_next d0 l0 (p + 4) E0. pop_next d1 l1 (p + 8) E1. pop_next d2 l2 (p + 12) E2.
  pop_next d3 l3 (p + 16) E3. pop_next d4 l4 (p + 20) E4. pop_next d5 l5 (p + 24) E5.
  eexists. split; [done|]. split; [|done].
  match goal with _ : popc ?d' = popc d5 + _ |- _ => apply (pop_inv_advance d d' l6) end; [done|lia|lia|].
  pose proof (bytes_sum_mult (c + c3 + c7 + c11 + c15 + c19 + c23) (c0 + c4 + c8 + c12 + c16 + c20 + c24)
    (c1 + c5 + c9 + c13 + c17 + c21 + c25) (c2 + c6 + c10 + c14 + c18 + c22 + c26)) as Hm.
  match goal with |- context [u32 (u32 ?w * 16843009)] => match type of Hm with context [u32 (u32 ?w' * 16843009)] =>
    replace w with w' by lia end end.
  rewrite Hm by lia. lia.
Qed.

Lemma pop_head fuel :
  zlen str < Z.of_nat fuel ->
  exists st, loop fuel (popcount_head_body addr s) (zlen pre, zlen str, 0) = Some st /\ pop_inv st.
Proof.
  intros Hf. apply (loop_ok _ pop_inv pop_inv (fun st => st.1.2)); [|exists [], str|done].
  - intros [[p count] bits] (d & l & E & -> & -> & ->). split; [apply zlen_nonneg|].
    unfold popcount_head_body. destruct (negb (Z.land _ 3 =? 0)); cbn [andb]; [destruct l as [|b l]|].
    + right. eexists. split; [done|]. by exists d, [].
    + replace (zlen (b :: l) =? 0) with false by len_lia. cbn [negb].
      destruct (pop_byte d b l _ E eq_refl) as (Hg & Hn & Hi). rewrite Hg. cbn [mbind option_bind]. rewrite Hn.
    cbn [mbind option_bind].
      left. eexists. split; [done|]. split; [done|]. simpl. lia.
    + right. eexists. split; [done|]. by exists d, l.
  - rewrite zlen_nil. split_and!; [done|lia|done|done].
Qed.

Lemma pop_blocks fuel st :
  pop_inv st -> st.1.2 < Z.of_nat fuel ->
  exists st', loop fuel (popcount_block_body be s) st = Some st' /\ pop_inv st'.
Proof.
  intros Hi Hf. apply (loop_ok _ pop_inv pop_inv (fun st => st.1.2)); [|done|done].
  intros [[p count] bits] (d & l & E & -> & -> & ->). split; [apply zlen_nonneg|].
  destruct (decide (28 <= zlen l)) as [Hge|Hlt].
  - left. destruct (pop_block d l _ _ E eq_refl eq_refl Hge) as (st' & -> & Hi' & Hc).
    exists st'. split; [done|]. split; [done|]. rewrite Hc. simpl. lia.
  - right. exists (zlen pre + zlen d, zlen l, popc d). split; [|by exists d, l]. unfold popcount_block_body.
    by replace (zlen l >=? 28) with false by lia.
Qed.

Lemma pop_tail fuel st :
  pop_inv st -> st.1.2 < Z.of_nat fuel -> loop fuel (popcount_tail_body s) st = Some (popc str).
Proof.
  intros Hi Hf.
  destruct (loop_ok (popcount_tail_body s) pop_inv (fun r => r = popc str) (fun st => st.1.2)) with fuel st
    as (r & -> & ->); [|done..|done].
  intros [[p count] bits] (d & l & E & -> & -> & ->). split; [apply zlen_nonneg|].
  unfold popcount_tail_body. destruct l as [|b l].
  - right. eexists. split; [done|]. by rewrite E, app_nil_r.
  - left. replace (zlen (b :: l) =? 0) with false by len_lia. cbn [negb].
    destruct (pop_byte d b l _ E eq_refl) as (Hg & Hn & Hi'). rewrite Hg. cbn [mbind option_bind]. rewrite Hn.
    cbn [mbind option_bind].
    eexists. split; [done|]. split; [done|]. simpl. lia.
Qed.

Lemma pop_inv_count st : pop_inv st -> st.1.2 <= zlen str.
Proof. destruct st as [[p count] bits]. intros (d & l & -> & _ & -> & _). simpl. len_lia. Qed.

Lemma redisPopcount_spec : redisPopcount be addr s (zlen pre) (zlen str) = Some (popc str).
Proof.
  unfold redisPopcount. pose proof (zlen_nonneg str).
  destruct (pop_head (S (Z.to_nat (zlen str)))) as (st & -> & Hi); [lia|]. cbn [mbind option_bind].
  pose proof (pop_inv_count st Hi).
  destruct (pop_blocks (S (Z.to_nat (zlen str))) st Hi) as (st' & -> & Hi'); [lia|]. cbn [mbind option_bind].
  pose proof (pop_inv_count st' Hi'). apply pop_tail; [done|lia].
Qed.
End Popcount.

(** ** [redisBitpos] *)

(** The position of the first bit [b]; for a missing zero bit, the end of the string, where the
    padding begins. *)
Definition bitpos_val (b : bool) (l : list bool) : Z :=
  match bit_index b l with
  | Some k => k
  | None => if b then -1 else zlen l
  end.

Definition skip_byte (b : bool) : Z := if b then 0 else UCHAR_MAX.

Lemma skip_byte_iff b x : is_byte x -> (x = skip_byte b <-> bit_index b (num_bits 8 x) = None).
Proof.
  intros Hx.
  assert (forallb (fun x => Bool.eqb (x =? skip_byte b) (bool_decide (bit_index b (num_bits 8 x) = None)))
    (seqZ 0 256) = true) as H by (destruct b; vm_compute; reflexivity).
  apply (forallb_range _ 256 x) in H; [|done]. apply Bool.eqb_prop in H.
  rewrite <- (bool_decide_eq_true (bit_index _ _ = None)), <- H. lia.
Qed.

Lemma skip_bytes_iff b w :
  bytes w -> (w = replicate (length w) (skip_byte b) <-> bit_index b (bits_of w) = None).
Proof.
  induction 1 as [|x w Hx _ IH]; [done|].
  rewrite bits_of_cons, bit_index_app. cbn [length replicate].
  pose proof (skip_byte_iff b x Hx) as Hi. split.
  - intros [= E1 E2]. apply Hi in E1. apply IH in E2. by rewrite E1, E2.
  - destruct (bit_index b (num_bits 8 x)); [done|]. destruct (bit_index b (bits_of w)); [done|].
    intros _. f_equal; [by apply Hi|by apply IH].
Qed.

Lemma host_load_inj be w1 w2 :
  bytes w1 -> bytes w2 -> length w1 = length w2 -> host_load be w1 = host_load be w2 -> w1 = w2.
Proof.
  intros H1 H2 Hl E. unfold host_load in E.
  assert (forall a c : list Z, bytes a -> bytes c -> length a = length c -> le_join a = le_join c -> a = c) as Hinj.
  { intros a c Ha Hc Hac Ej. rewrite <- (le_split_join a), <- (le_split_join c) by done. by rewrite Hac, Ej. }
  destruct be; [|by apply Hinj].
  rewrite <- (reverse_involutive w1), <- (reverse_involutive w2). f_equal.
  apply Hinj; [by apply Forall_reverse..|by rewrite !length_reverse|done].
Qed.

Lemma skip_word_iff be (b : bool) w :
  zlen w = 8 -> bytes w ->
  (host_load be w = (if b then 0 else ULONG_MAX) <-> bit_index b (bits_of w) = None).
Proof.
  intros Hl Hw. assert (length w = 8%nat) as Hl' by (unfold zlen in Hl; lia).
  rewrite <- skip_bytes_iff, Hl' by done.
  assert ((if b then 0 else ULONG_MAX) = host_load be (replicate 8 (skip_byte b))) as ->
    by (destruct be, b; vm_compute; reflexivity).
  split; [|by intros ->]. intros E. apply (host_load_inj be); try done.
  apply Forall_replicate. unfold is_byte, skip_byte, UCHAR_MAX. destruct b; lia.
Qed.

Lemma land_pow2_test k w : 0 <= k -> negb (Z.land (2 ^ k) w =? 0) = Z.testbit w k.
Proof.
  intros Hk. destruct (Z.testbit w k) eqn:E.
  - destruct (Z.eqb_spec (Z.land (2 ^ k) w) 0) as [E0|]; [|done].
    assert (Z.testbit (Z.land (2 ^ k) w) k = false) as H by (by rewrite E0, Z.bits_0).
    by rewrite Z.land_spec, E, Z.pow2_bits_true in H by done.
  - replace (Z.land (2 ^ k) w) with 0; [done|]. apply Z.bits_inj'. intros n Hn.
    rewrite Z.bits_0, Z.land_spec. destruct (decide (n = k)) as [->|Hne]; [by rewrite E, andb_false_r|].
    by rewrite Z.pow2_bits_false.
Qed.

Lemma scan_word w b k : forall fuel pos i,
  (k < fuel)%nat -> bit_index b (num_bits (S k) w) = Some i -> 0 <= pos -> pos + i < 2 ^ 63 ->
  loop fuel (bitpos_scan_body w (Z.b2z b)) (2 ^ Z.of_nat k, pos) = Some (pos + i).
Proof.
  induction k as [|k IH]; intros fuel pos i Hf Hi Hp Hb; (destruct fuel as [|fuel]; [lia|]);
    rewrite loop_step; unfold bitpos_scan_body at 1;
    rewrite (proj2 (Z.eqb_neq (2 ^ _) 0)) by (apply Z.pow_nonzero; lia); cbn [negb];
    rewrite land_pow2_test by lia.
  - unfold num_bits in Hi. cbn [bit_index] in Hi.
    destruct (Z.testbit w (Z.of_nat 0)), b; simpl in *; try done; simplify_eq; do 2 f_equal; lia.
  - replace ((if Z.testbit w (Z.of_nat (S k)) then 1 else 0) =? Z.b2z b)
      with (Bool.eqb (Z.testbit w (Z.of_nat (S k))) b) by (by destruct (Z.testbit w _), b).
    change (num_bits (S (S k)) w) with (Z.testbit w (Z.of_nat (S k)) :: num_bits (S k) w) in Hi.
    cbn [bit_index] in Hi.
    destruct (Bool.eqb _ b); [simplify_eq; do 2 f_equal; lia|].
    apply fmap_Some in Hi as (j & Hj & ->). pose proof (bit_index_range _ _ _ Hj).
    replace (Z.shiftr (2 ^ Z.of_nat (S k)) 1) with (2 ^ Z.of_nat k).
    + rewrite wraps_small by (change (2 ^ (64 - 1)) with (2 ^ 63); lia).
      rewrite (IH fuel (pos + 1) j) by (done || lia). f_equal. lia.
    + rewrite Z.shiftr_div_pow2, Nat2Z.inj_succ, Z.pow_succ_r by lia. change (2 ^ 1) with 2.
      rewrite Z.mul_comm, Z.div_mul by lia. done.
Qed.

Section Bitpos.
Variables (be : bool) (addr : Z) (pre str post : list Z) (b : bool).
Hypothesis Hbytes : bytes str.
Hypothesis Hlen : zlen str < 2 ^ 59.

(** Where the search stands: no candidate in [d], [l] is left. *)
Definition pos_at (d l : list Z) (st : Z * Z * Z) : Prop :=
  str = d ++ l /\ st = (zlen pre + zlen d, zlen l, 8 * zlen d) /\ bit_index b (bits_of d) = None.

Definition pos_inv (st : Z * Z * Z) : Prop := exists d l, pos_at d l st.

(** A candidate among the first eight bytes of what is left. *)
Definition near (l : list Z) : Prop :=
  exists w l', l = w ++ l' /\ zlen w <= 8 /\ bit_index b (bits_of w) <> None.

Let s := pre ++ str ++ post.

Lemma pos_mid d w l :
  str = d ++ w ++ l -> bytes w /\ s = (pre ++ d) ++ w ++ l ++ post /\
  0 <= zlen d /\ 0 <= zlen w /\ 0 <= zlen l /\ zlen d + zlen w + zlen l < 2 ^ 59.
Proof.
  intros E. rewrite E in Hbytes. apply Forall_app in Hbytes as [_ H]. apply Forall_app in H as [H _].
  split; [done|]. split; [unfold s; rewrite E; by rewrite <- !app_assoc|].
  assert (zlen str = zlen d + zlen w + zlen l) as Hl by (rewrite E; len_lia).
  zlen_saturate. lia.
Qed.

Lemma pos_advance d w l :
  str = d ++ w ++ l -> bit_index b (bits_of d) = None -> bit_index b (bits_of w) = None ->
  pos_inv (zlen pre + zlen d + zlen w, zlen (w ++ l) - zlen w, s64 (8 * zlen d + zlen w * 8)).
Proof.
  intros E H1 H2. destruct (pos_mid d w l E) as (_ & _ & ? & ? & ? & ?).
  exists (d ++ w), l. split; [by rewrite <- app_assoc|]. split.
  - rewrite !zlen_app, wraps_small by (change (2 ^ (64 - 1)) with (16 * 2 ^ 59); lia).
    f_equal; [f_equal|]; lia.
  - by rewrite bits_of_app, bit_index_app, H1, H2.
Qed.

Lemma pos_head fuel :
  zlen str < Z.of_nat fuel ->
  exists st found, loop fuel (bitpos_head_body addr s (skip_byte b)) (zlen pre, zlen str, 0) = Some (st, found) /\
    exists d l, pos_at d l st /\ (found = true -> near l).
Proof.
  intros Hf.
  destruct (loop_ok (bitpos_head_body addr s (skip_byte b)) pos_inv
    (fun r => exists d l, pos_at d l r.1 /\ (r.2 = true -> near l)) (fun st => st.1.2))
    with fuel (zlen pre, zlen str, 0) as ([st found] & E & H); [| |done|by exists st, found].
  - intros st (d & l & E & -> & Hd). split; [apply zlen_nonneg|]. unfold bitpos_head_body.
    destruct (negb (Z.land _ (sizeof_long - 1) =? 0)); cbn [andb].
    2:{ right. eexists. split; [done|]. exists d, l. by split. }
    destruct l as [|x l].
    { right. eexists. split; [done|]. exists d, []. by split. }
    replace (zlen (x :: l) =? 0) with false by len_lia. cbn [negb].
    destruct (pos_mid d [x] l E) as (Hx & Es & _). apply Forall_cons in Hx as [Hx _].
    rewrite Es. simpl ([x] ++ _). rewrite getb_mid by (by rewrite zlen_app). cbn [mbind option_bind].
    pose proof (skip_byte_iff b x Hx) as Hi.
    destruct (Z.eqb_spec x (skip_byte b)) as [Ex|Ex]; cbn [negb].
    + left. eexists. split; [done|]. split; [|simpl; lia].
      pose proof (pos_advance d [x] l E Hd) as Ha. rewrite bits_of_cons, bit_index_app in Ha.
      rewrite (proj1 Hi Ex) in Ha. apply (Ha eq_refl).
    + right. eexists. split; [done|]. exists d, (x :: l). split; [done|]. intros _.
      exists [x], l. split; [done|]. split; [unfold zlen; simpl; lia|].
      rewrite bits_of_cons, bit_index_app. destruct (bit_index b (num_bits 8 x)) eqn:En; [done|].
      exfalso. by apply Ex, Hi.
  - exists [], str. split; [done|]. split; [|done]. change (zlen (@nil Z)) with 0. by rewrite Z.add_0_r.
Qed.

Lemma pos_words fuel d l st :
  pos_at d l st -> zlen str < Z.of_nat fuel ->
  exists st', loop fuel (bitpos_word_body be s (if b then 0 else ULONG_MAX)) st = Some st' /\
    exists d l, pos_at d l st' /\ (zlen l < 8 \/ near l).
Proof.
  intros Hat Hf. apply (loop_ok _ pos_inv (fun r => exists d l, pos_at d l r /\ (zlen l < 8 \/ near l))
    (fun st => st.1.2)); [|by exists d, l|].
  2:{ destruct Hat as (E & -> & _). assert (zlen str = zlen d + zlen l) by (rewrite E; len_lia).
      pose proof (zlen_nonneg d). simpl. lia. }
  clear d l st Hat. intros st (d & l & E & -> & Hd). split; [apply zlen_nonneg|].
  unfold bitpos_word_body, sizeof_long. rewrite Z.geb_leb. destruct (Z.leb_spec 8 (zlen l)).
  2:{ right. eexists. split; [done|]. exists d, l. split; [done|]. by left. }
  destruct (split_front l 8) as (w & l' & -> & Hw); [lia|].
  destruct (pos_mid d w l' E) as (Hbw & Es & _). rewrite Es, mem_read_mid by (rewrite ?zlen_app; done).
  cbn [mbind option_bind]. pose proof (skip_word_iff be b w Hw Hbw) as Hi.
  destruct (Z.eqb_spec (host_load be w) (if b then 0 else ULONG_MAX)) as [Ew|Ew]; cbn [negb].
  - left. eexists. split; [done|]. pose proof (pos_advance d w l' E Hd (proj1 Hi Ew)) as Ha.
    rewrite Hw in Ha. split; [done|]. simpl. lia.
  - right. eexists. split; [done|]. exists d, (w ++ l'). split; [done|]. right.
    exists w, l'. split; [done|]. split; [lia|]. intros Hn. by apply Ew, Hi.
Qed.

(** The last word: up to eight bytes, padded with zeroes. *)
Definition padded (n : nat) (l : list Z) : list Z := take n l ++ replicate (n - length l) 0.

Lemma pos_load n : forall d l word k,
  str = d ++ l -> (k + n <= 8)%nat -> 0 <= word < 2 ^ Z.of_nat (8 * k) ->
  exists w, bitpos_load n s (zlen pre + zlen d) (zlen l) word = Some w /\
    0 <= w < 2 ^ Z.of_nat (8 * (k + n)) /\
    num_bits (8 * (k + n)) w = num_bits (8 * k) word ++ bits_of (padded n l).
Proof.
  induction n as [|n IH]; intros d l word k E Hk Hw.
  { exists word. unfold padded. rewrite Nat.add_0_r, app_nil_r. done. }
  assert (0 <= word * 256 < 2 ^ Z.of_nat (8 * (k + 1))) as Hw'.
  { replace (Z.of_nat (8 * (k + 1))) with (Z.of_nat (8 * k) + 8) by lia. rewrite Z.pow_add_r by lia.
    change (2 ^ 8) with 256. lia. }
  assert (u64 (Z.shiftl word 8) = word * 256) as Hs.
  { rewrite Z.shiftl_mul_pow2 by lia. apply wrapu_small. change (2 ^ 8) with 256. split; [lia|].
    apply Z.lt_le_trans with (2 ^ Z.of_nat (8 * (k + 1))); [lia|]. apply Z.pow_le_mono_r; lia. }
  assert (forall x, is_byte x -> 0 <= Z.lor (word * 256) x < 2 ^ Z.of_nat (8 * (k + 1)) /\
    num_bits (8 * (k + 1)) (Z.lor (word * 256) x) = num_bits (8 * k) word ++ num_bits 8 x) as Hx.
  { intros x Hx. replace (word * 256) with (Z.shiftl word 8) by (rewrite Z.shiftl_mul_pow2; lia).
    replace (8 * (k + 1))%nat with (8 * k + 8)%nat by lia. split; [|by apply num_bits_byte].
    rewrite Z.lor_comm, lor_add_high by (unfold is_byte in Hx; lia). unfold is_byte in Hx.
    replace (8 * k + 8)%nat with (8 * (k + 1))%nat by lia.
    replace (Z.of_nat (8 * (k + 1))) with (Z.of_nat (8 * k) + 8) by lia. rewrite Z.pow_add_r by lia.
    change (2 ^ 8) with 256. lia. }
  cbn [bitpos_load]. rewrite Hs. destruct l as [|x l].
  - destruct (Hx 0) as [H1 H2]; [done|]. rewrite Z.lor_0_r in H1, H2. simpl (zlen [] =? 0). cbn [negb].
    destruct (IH d [] (word * 256) (k + 1)%nat) as (w & -> & Hw1 & Hw2); [done|lia|lia|].
    replace (k + 1 + n)%nat with (k + S n)%nat in * by lia.
    exists w. split; [done|]. split; [done|]. rewrite Hw2, H2, <- app_assoc. f_equal.
    unfold padded. rewrite !take_nil. simpl. by rewrite Nat.sub_0_r.
  - destruct (pos_mid d [x] l E) as (Hb & Es & _). apply Forall_cons in Hb as [Hb _].
    destruct (Hx x Hb) as [H1 H2].
    replace (zlen (x :: l) =? 0) with false by len_lia. cbn [negb].
    assert (getb s (zlen pre + zlen d) = Some x) as ->.
    { rewrite Es. apply getb_mid. by rewrite zlen_app. }
    cbn [mbind option_bind].
    destruct (IH (d ++ [x]) l (Z.lor (word * 256) x) (k + 1)%nat) as (w & Hl & Hw1 & Hw2);
      [by rewrite <- app_assoc|lia|done|].
    replace (zlen pre + zlen d + 1) with (zlen pre + zlen (d ++ [x])) by len_lia.
    replace (zlen (x :: l) - 1) with (zlen l) by len_lia.
    replace (k + 1 + n)%nat with (k + S n)%nat in * by lia.
    exists w. split; [done|]. split; [done|]. rewrite Hw2, H2, <- app_assoc. f_equal.
Qed.

(** The padded word has a candidate, or the string has none. *)
Lemma padded_short l : (length l <= 8)%nat ->
  bits_of (padded 8 l) = bits_of l ++ replicate (8 * (8 - length l)) false.
Proof.
  intros Hl. unfold padded. by rewrite take_ge, bits_of_app, bits_of_replicate0 by lia.
Qed.

Lemma padded_index l i :
  bit_index b (bits_of (padded 8 l)) = Some i -> zlen l < 8 \/ near l ->
  match bit_index b (bits_of l) with Some k => i = k | None => b = false /\ i = 8 * zlen l end.
Proof.
  intros Hi Hl. destruct (decide (length l <= 8)%nat) as [Hs|Hs].
  - rewrite padded_short, bit_index_app in Hi by done.
    destruct (bit_index b (bits_of l)); [by simplify_eq|].
    destruct b; [by rewrite (bit_index_replicate _ true) in Hi|]. split; [done|].
    apply fmap_Some in Hi as (j & Hj & ->). rewrite zlen_bits_of.
    destruct (8 * (8 - length l))%nat; simpl in Hj; [done|]. simplify_eq. lia.
  - unfold padded in Hi. replace (8 - length l)%nat with 0%nat in Hi by lia. rewrite app_nil_r in Hi.
    rewrite <- (take_drop 8 l), bits_of_app, bit_index_app, Hi. done.
Qed.

Lemma padded_no_index l :
  bit_index b (bits_of (padded 8 l)) = None -> zlen l < 8 \/ near l ->
  b = true /\ bit_index b (bits_of l) = None.
Proof.
  intros Hi [Hl|(w & l' & -> & Hw & Hn)].
  - rewrite padded_short, bit_index_app in Hi by (unfold zlen in Hl; lia).
    destruct (bit_index b (bits_of l)); [done|]. split; [|done].
    destruct b; [done|]. replace (8 * (8 - length l))%nat with (S (8 * (8 - length l) - 1)) in Hi
      by (unfold zlen in Hl; lia). done.
  - exfalso. apply Hn. unfold padded in Hi.
    rewrite take_app_ge, <- app_assoc, bits_of_app, bit_index_app in Hi by (unfold zlen in Hw; lia).
    by destruct (bit_index b (bits_of w)).
Qed.

Lemma redisBitpos_spec :
  redisBitpos be addr s (zlen pre) (zlen str) (Z.b2z b) = Some (bitpos_val b (bits_of str)).
Proof.
  unfold redisBitpos. pose proof (zlen_nonneg str).
  assert ((if negb (Z.b2z b =? 0) then 0 else UCHAR_MAX) = skip_byte b) as -> by (by destruct b).
  assert ((if negb (Z.b2z b =? 0) then 0 else ULONG_MAX) = (if b then 0 else ULONG_MAX)) as -> by (by destruct b).
  destruct (pos_head (S (Z.to_nat (zlen str)))) as (st & found & -> & d & l & Hat & Hn); [lia|].
  cbn [mbind option_bind].
  assert (exists st', (if negb found then
      loop (S (Z.to_nat (zlen str))) (bitpos_word_body be s (if b then 0 else ULONG_MAX)) st else Some st) = Some st' /\
    exists d l, pos_at d l st' /\ (zlen l < 8 \/ near l)) as (st' & -> & d' & l' & (E & -> & Hd) & Hl).
  { destruct found; cbn [negb]; [|by apply (pos_words _ d l); [|lia]].
    exists st. split; [done|]. exists d, l. split; [done|]. right. by apply Hn. }
  cbn [mbind option_bind].
  destruct (pos_load 8 d' l' 0 0) as (w & -> & Hw & Hbits); [done|lia|done|]. cbn [mbind option_bind].
  change (8 * (0 + 8))%nat with 64%nat in *. simpl (num_bits (8 * 0) 0 ++ _) in Hbits.
  assert (zlen str = zlen d' + zlen l') as Hz by (rewrite E; len_lia).
  unfold bitpos_val. rewrite E, bits_of_app, bit_index_app, Hd, zlen_app, !zlen_bits_of.
  destruct (bit_index b (bits_of (padded 8 l'))) as [i|] eqn:Hi.
  - replace ((Z.b2z b =? 1) && (w =? 0)) with false.
    2:{ destruct b; [|done]. destruct (Z.eqb_spec w 0) as [->|]; [|done].
        by rewrite <- Hbits, num_bits_0, (bit_index_replicate _ true) in Hi. }
    change (u64 (Z.lnot (Z.shiftr ULONG_MAX 1))) with (2 ^ Z.of_nat 63).
    pose proof (bit_index_range _ _ _ Hi) as Hr. rewrite <- Hbits, zlen_num_bits in Hr.
    pose proof (zlen_nonneg d'). pose proof (zlen_nonneg l').
    rewrite (scan_word w b 63 65 (8 * zlen d') i).
    + pose proof (padded_index l' i Hi Hl) as Hp. destruct (bit_index b (bits_of l')) as [k|].
      * by rewrite Hp.
      * by destruct Hp as [-> ->].
    + lia.
    + by rewrite Hbits.
    + lia.
    + change (2 ^ 63) with (16 * 2 ^ 59). lia.
  - destruct (padded_no_index l' Hi Hl) as [Hb ->]. rewrite Hb in *.
    replace (w =? 0) with true; [done|]. symmetry. apply Z.eqb_eq, (num_bits_inj 64); [done|done|].
    rewrite num_bits_0, Hbits. apply bit_index_None in Hi.
    assert (length (bits_of (padded 8 l')) = 64%nat) as Hlen' by (by rewrite <- Hbits, length_num_bits).
    symmetry. apply replicate_as_Forall_2; [done|]. eapply Forall_impl; [done|]. by intros x ->.
Qed.
End Bitpos.
