(* ===== verification/BitField.v ===== *)
(** * Correctness of bit fields

    Reading and writing integers of up to 64 bits at any position of a bitmap, and the overflow
    checks of BITFIELD, against the list of bits and the integers. *)
From S2P Require Import Prelude Endian BitVec Bits BitsFacts.

(** ** Masks *)

Lemma pow2_split k : 1 <= k -> 2 ^ k = 2 * 2 ^ (k - 1).
Proof. intros Hk. rewrite <- Z.pow_succ_r by lia. f_equal. lia. Qed.

Lemma high_mask bits : 0 <= bits <= 64 -> u64 (Z.shiftl UINT64_MAX bits) = Z.shiftl (2 ^ (64 - bits) - 1) bits.
Proof.
  intros Hb. rewrite !Z.shiftl_mul_pow2 by lia. unfold wrapu.
  rewrite Z.mul_sub_distr_r, <- Z.pow_add_r by lia. replace (64 - bits + bits) with 64 by lia.
  assert (0 < 2 ^ bits <= 2 ^ 64) by (split; [apply Z.pow_pos_nonneg|apply Z.pow_le_mono_r]; lia).
  change UINT64_MAX with (2 ^ 64 - 1). symmetry. apply (Z.mod_unique _ _ (2 ^ bits - 1)); lia.
Qed.

Lemma low_mask bits : 0 <= bits <= 64 -> u64 (Z.lnot (u64 (Z.shiftl UINT64_MAX bits))) = Z.ones bits.
Proof.
  intros Hb. rewrite high_mask, Z.shiftl_mul_pow2 by lia. unfold Z.lnot, wrapu.
  rewrite Z.mul_sub_distr_r, <- Z.pow_add_r by lia. replace (64 - bits + bits) with 64 by lia.
  rewrite Z.ones_equiv.
  assert (0 < 2 ^ bits <= 2 ^ 64) by (split; [apply Z.pow_pos_nonneg|apply Z.pow_le_mono_r]; lia).
  symmetry. apply (Z.mod_unique _ _ (-1)); lia.
Qed.

(** The top bit is the sign, and the mask above it extends it. *)
Lemma sign_bit v bits : 1 <= bits -> 0 <= v < 2 ^ bits -> Z.testbit v (bits - 1) = (2 ^ (bits - 1) <=? v).
Proof.
  intros Hb Hv. pose proof (pow2_split bits Hb). assert (0 < 2 ^ (bits - 1)) by (apply Z.pow_pos_nonneg; lia).
  rewrite Z.testbit_odd, Z.shiftr_div_pow2 by lia. destruct (Z.leb_spec (2 ^ (bits - 1)) v).
  - replace (v / 2 ^ (bits - 1)) with 1; [done|]. apply (Z.div_unique _ _ _ (v - 2 ^ (bits - 1))); lia.
  - by rewrite Z.div_small by lia.
Qed.

Lemma wraps_of_field v bits :
  1 <= bits -> 0 <= v < 2 ^ bits -> wraps bits v = if 2 ^ (bits - 1) <=? v then v - 2 ^ bits else v.
Proof.
  intros Hb Hv. pose proof (pow2_split bits Hb). assert (0 < 2 ^ (bits - 1)) by (apply Z.pow_pos_nonneg; lia).
  unfold wraps. destruct (Z.leb_spec (2 ^ (bits - 1)) v).
  - rewrite <- (Z.mod_unique (v + 2 ^ (bits - 1)) (2 ^ bits) 1 (v - 2 ^ (bits - 1))); lia.
  - rewrite Z.mod_small; lia.
Qed.

Lemma extend_sign v bits :
  1 <= bits < 64 -> 0 <= v < 2 ^ bits -> 2 ^ (bits - 1) <= v ->
  s64 (Z.lor v (u64 (Z.shiftl UINT64_MAX bits))) = v - 2 ^ bits.
Proof.
  intros Hb Hv Hs. rewrite high_mask, lor_add_high by lia.
  rewrite Z.mul_sub_distr_l, <- Z.pow_add_r by lia. replace (bits + (64 - bits)) with 64 by lia.
  pose proof (pow2_split bits ltac:(lia)). pose proof (pow2_split 64 ltac:(lia)).
  assert (2 ^ bits <= 2 ^ (64 - 1)) by (apply Z.pow_le_mono_r; lia).
  rewrite <- (wraps_wrapu 64), <- (wrapu_wraps 64) by lia.
  replace (u64 (wraps 64 _)) with (u64 (v - 2 ^ bits)).
  - rewrite wraps_wrapu by lia. apply wraps_small; lia.
  - rewrite wrapu_wraps by lia. unfold wrapu.
    replace (v + (2 ^ 64 - 2 ^ bits * 1)) with (v - 2 ^ bits + 1 * 2 ^ 64) by lia. by rewrite Z_mod_plus_full.
Qed.

(** ** Reading and writing fields *)

(** The byte and the bit a position falls on. *)
Lemma bit_position i : 0 <= i -> Z.shiftr i 3 = i / 8 /\ 7 - Z.land i 7 = 7 - i mod 8.
Proof.
  intros Hi. rewrite Z.shiftr_div_pow2 by lia. change 7 with (Z.ones 3) at 2.
  by rewrite Z.land_ones by lia.
Qed.

Lemma bits_of_cut s A F C :
  bits_of s = A ++ F ++ C -> zlen A + zlen F <= 8 * zlen s /\ 0 <= zlen A /\ 0 <= zlen F.
Proof.
  intros E. pose proof (zlen_bits_of s) as H. rewrite E, !zlen_app in H. zlen_saturate. lia.
Qed.

Lemma bit_at_cut s A x C :
  bits_of s = A ++ x :: C ->
  exists b, getb s (zlen A / 8) = Some b /\ Z.testbit b (7 - zlen A mod 8) = x.
Proof.
  intros E. pose proof (bits_of_cut s A [x] C E) as H. unfold zlen in H at 2. simpl in H.
  destruct (getb_is_Some s (zlen A / 8)) as [b Hb]; [div_lia|]. exists b. split; [done|].
  pose proof (bits_of_lookup s (zlen A) b) as Hl. rewrite E in Hl. 
  rewrite list_lookup_middle in Hl by (unfold zlen; lia). specialize (Hl ltac:(lia) Hb). by simplify_eq.
Qed.

Lemma set_bits_ok n : forall j p offset bits value A F C,
  bits_of p = A ++ F ++ C -> bytes p -> zlen p < 2 ^ 61 -> offset = zlen A -> length F = n ->
  bits - j = Z.of_nat n -> (n <= 64)%nat ->
  exists p', set_bits_loop n j p offset bits value = Some p' /\
    bits_of p' = A ++ num_bits n value ++ C /\ bytes p' /\ zlen p' = zlen p.
Proof.
  induction n as [|n IH]; intros j p offset bits value A F C E Hb Hlen -> HF Hj Hn.
  { destruct F; [|done]. by exists p. }
  destruct F as [|x F]; [done|]. simpl in HF. cbn [set_bits_loop].
  destruct (bits_of_cut p A (x :: F) C E) as (Hz & ? & _). rewrite zlen_cons in Hz. pose proof (zlen_nonneg F).
  destruct (bit_position (zlen A)) as [-> ->]; [lia|].
  destruct (bit_at_cut p A x (F ++ C) E) as (b & Hg & _). rewrite Hg. cbn [mbind option_bind].
  replace (bits - 1 - j) with (Z.of_nat n) by lia.
  rewrite (Z.shiftl_1_l (Z.of_nat n)), (wrapu_small 64 (2 ^ Z.of_nat n)) by (split; [lia|apply Z.pow_lt_mono_r; lia]).
  rewrite (Z.land_comm value), land_pow2_test by lia.
  change (if Z.testbit value (Z.of_nat n) then 1 else 0) with (Z.b2z (Z.testbit value (Z.of_nat n))).
  destruct (bits_of_setb p (zlen A) b (Z.testbit value (Z.of_nat n))) as (p1 & Hs & E1 & Hb1 & Hl1); [lia|done|done|].
  unfold byte_set_bit in Hs. rewrite Hs. cbn [mbind option_bind].
  rewrite (wrapu_small 64) by (change (2 ^ 64) with (8 * 2 ^ 61); lia).
  assert (bits_of p1 = (A ++ [Z.testbit value (Z.of_nat n)]) ++ F ++ C) as E2.
  { rewrite E1, E, <- app_assoc. unfold zlen. rewrite Nat2Z.id.
    rewrite insert_app_r_alt, Nat.sub_diag by lia. done. }
  destruct (IH (j + 1) p1 (zlen A + 1) bits value _ F C E2) as (p' & -> & E' & Hb' & Hl');
    [done|lia|len_lia|lia|lia|lia|].
  exists p'. split; [done|]. split; [|split; [done|lia]]. rewrite E', <- app_assoc. done.
Qed.

Lemma get_bits_ok n : forall p offset value A F C,
  bits_of p = A ++ F ++ C -> bytes p -> zlen p < 2 ^ 61 -> offset = zlen A -> length F = n ->
  0 <= value -> value * 2 ^ Z.of_nat n + 2 ^ Z.of_nat n <= 2 ^ 64 ->
  get_bits_loop n p offset value = Some (value * 2 ^ Z.of_nat n + bits_val F).
Proof.
  induction n as [|n IH]; intros p offset value A F C E Hb Hlen -> HF Hv Hmax.
  { destruct F; [|done]. simpl. f_equal. change (bits_val []) with 0. lia. }
  destruct F as [|x F]; [done|]. simpl in HF. cbn [get_bits_loop].
  destruct (bits_of_cut p A (x :: F) C E) as (Hz & ? & _). rewrite zlen_cons in Hz. pose proof (zlen_nonneg F).
  destruct (bit_position (zlen A)) as [-> ->]; [lia|].
  destruct (bit_at_cut p A x (F ++ C) E) as (b & Hg & Hx). rewrite Hg. cbn [mbind option_bind].
  rewrite Nat2Z.inj_succ, Z.pow_succ_r in * by lia.
  assert (0 < 2 ^ Z.of_nat n) by (apply Z.pow_pos_nonneg; lia).
  rewrite Z.shiftl_mul_pow2, (wrapu_small 64 (zlen A + 1)) by (change (2 ^ 64) with (8 * 2 ^ 61); lia).
  rewrite (wrapu_small 64) by nia.
  assert (Z.land (Z.shiftr b (7 - zlen A mod 8)) 1 = Z.b2z x) as ->.
  { change 1 with (Z.ones 1). rewrite Z.land_ones by lia. change (2 ^ 1) with 2.
    rewrite <- Hx, Z.testbit_spec', Z.shiftr_div_pow2 by div_lia. done. }
  assert (Z.lor (value * 2 ^ 1) (Z.b2z x) = 2 * value + Z.b2z x) as ->.
  { rewrite Z.lor_comm, <- Z.shiftl_mul_pow2, lor_add_high by (destruct x; simpl; lia).
    change (2 ^ 1) with 2. lia. }
  pose proof (b2z_range x). rewrite (IH p (zlen A + 1) _ (A ++ [x]) F C); [|by rewrite <- app_assoc|done|done|len_lia|lia|lia|nia].
  f_equal. rewrite bits_val_cons. unfold zlen. replace (length F) with n by lia. lia.
Qed.

Section Fields.
Variables (p : list Z) (offset bits : Z) (A F C : list bool).
Hypothesis Hcut : bits_of p = A ++ F ++ C.
Hypothesis Hbytes : bytes p.
Hypothesis Hlen : zlen p < 2 ^ 61.
Hypothesis Hoffset : offset = zlen A.
Hypothesis Hwidth : bits = zlen F.
Hypothesis Hbits : 1 <= bits <= 64.

Lemma setUnsignedBitfield_spec value :
  exists p', setUnsignedBitfield p offset bits value = Some p' /\
    bits_of p' = A ++ num_bits (Z.to_nat bits) value ++ C /\ bytes p' /\ zlen p' = zlen p.
Proof.
  apply (set_bits_ok _ 0 p offset bits value A F C); try done; try lia. unfold zlen in *. lia.
Qed.

Lemma setSignedBitfield_spec value :
  exists p', setSignedBitfield p offset bits value = Some p' /\
    bits_of p' = A ++ num_bits (Z.to_nat bits) value ++ C /\ bytes p' /\ zlen p' = zlen p.
Proof.
  unfold setSignedBitfield. rewrite <- (num_bits_wrap (Z.to_nat bits) 64) by lia.
  apply setUnsignedBitfield_spec.
Qed.

Lemma getUnsignedBitfield_spec : getUnsignedBitfield p offset bits = Some (bits_val F).
Proof.
  unfold getUnsignedBitfield. rewrite (get_bits_ok _ p offset 0 A F C); try done; try lia.
  - unfold zlen in *. lia.
  - rewrite Z2Nat.id by lia. rewrite Z.mul_0_l. apply Z.pow_le_mono_r; lia.
Qed.

Lemma getSignedBitfield_spec : getSignedBitfield p offset bits = Some (wraps bits (bits_val F)).
Proof.
  unfold getSignedBitfield. rewrite getUnsignedBitfield_spec. cbn [mbind option_bind].
  pose proof (bits_val_range F) as HF. rewrite <- Hwidth in HF. set (v := bits_val F) in *.
  assert (0 < 2 ^ (bits - 1)) by (apply Z.pow_pos_nonneg; lia).
  destruct (Z.ltb_spec bits 64) as [Hlt|Hge]; cbn [andb].
  - assert (2 ^ bits <= 2 ^ (64 - 1)) by (apply Z.pow_le_mono_r; lia).
    assert (2 ^ (64 - 1) < 2 ^ 64) by done.
    rewrite (wraps_small 64 v) by lia. rewrite (wrapu_small 64 v) by lia.
    rewrite Z.shiftl_1_l, (wrapu_small 64) by (split; [lia|apply Z.pow_lt_mono_r; lia]).
    rewrite Z.land_comm, land_pow2_test, sign_bit, (wraps_of_field v bits) by lia.
    destruct (Z.leb_spec (2 ^ (bits - 1)) v); [|done]. f_equal. apply extend_sign; lia.
  - by replace bits with 64 by lia.
Qed.
End Fields.

(** ** Overflow checks *)

(** What BITFIELD answers and stores for the exact sum [v], in a type from [lo] to [hi] whose
    wrap-around is [w]. *)
Definition overflow_result (owtype : overflow_type) (lo hi v w : Z) : Z * option Z :=
  if hi <? v then
    (1, match owtype with BFOVERFLOW_WRAP => Some w | BFOVERFLOW_SAT => Some hi | BFOVERFLOW_FAIL => None end)
  else if v <? lo then
    match owtype with
    | BFOVERFLOW_WRAP => (1, Some w) | BFOVERFLOW_SAT => (-1, Some lo) | BFOVERFLOW_FAIL => (-1, None)
    end
  else (0, None).

Lemma mod_mod_pow2 v a b : 0 <= a <= b -> (v mod 2 ^ b) mod 2 ^ a = v mod 2 ^ a.
Proof.
  intros H. symmetry. apply Znumtheory.Zmod_div_mod.
  - apply Z.pow_pos_nonneg; lia.
  - apply Z.pow_pos_nonneg; lia.
  - exists (2 ^ (b - a)). rewrite <- Z.pow_add_r by lia. f_equal. lia.
Qed.

Lemma checkUnsigned_spec value incr bits owtype :
  1 <= bits <= 63 -> 0 <= value < 2 ^ 64 -> - 2 ^ 63 <= incr < 2 ^ 63 ->
  value < 2 ^ bits \/ incr = 0 ->
  checkUnsignedBitfieldOverflow value incr bits owtype true =
    overflow_result owtype 0 (2 ^ bits - 1) (value + incr) ((value + incr) mod 2 ^ bits).
Proof.
  intros Hb Hv Hi Hok. unfold checkUnsignedBitfieldOverflow, overflow_result.
  assert (0 < 2 ^ bits <= 2 ^ 63) by (split; [apply Z.pow_pos_nonneg|apply Z.pow_le_mono_r]; lia).
  assert (2 ^ 64 = 2 * 2 ^ 63) as H64 by done.
  replace (bits =? 64) with false by lia. rewrite low_mask, Z.land_ones, Z.shiftl_1_l by lia.
  rewrite (wrapu_small 64 (2 ^ bits)), (wrapu_small 64 (2 ^ bits - 1)) by lia.
  assert (u64 (value + incr) mod 2 ^ bits = (value + incr) mod 2 ^ bits) as -> by (apply mod_mod_pow2; lia).
  destruct (decide (value < 2 ^ bits)) as [Hs|Hl].
  - assert (s64 (u64 (2 ^ bits - 1 - value)) = 2 ^ bits - 1 - value) as ->.
    { rewrite wrapu_small by lia. apply wraps_small; change (64 - 1) with 63; lia. }
    assert (s64 (u64 (- value)) = - value) as ->.
    { rewrite wraps_wrapu by lia. apply wraps_small; change (64 - 1) with 63; lia. }
    rewrite !Z.gtb_ltb.
    destruct (Z.ltb_spec (2 ^ bits - 1) value), (Z.ltb_spec 0 incr), (Z.ltb_spec (2 ^ bits - 1 - value) incr),
      (Z.ltb_spec incr 0), (Z.ltb_spec incr (- value)), (Z.ltb_spec (2 ^ bits - 1) (value + incr)),
      (Z.ltb_spec (value + incr) 0); try lia; by destruct owtype.
  - assert (incr = 0) as -> by lia. rewrite !Z.gtb_ltb, Z.add_0_r.
    replace (2 ^ bits - 1 <? value) with true by lia. by destruct owtype.
Qed.

(** Wrapping at the width of the field. *)
Lemma wrap_field c bits :
  1 <= bits <= 64 ->
  s64 (if bits <? 64
       then (if negb (Z.land (u64 c) (u64 (Z.shiftl 1 (bits - 1))) =? 0)
             then Z.lor (u64 c) (u64 (Z.shiftl UINT64_MAX bits))
             else Z.land (u64 c) (u64 (Z.lnot (u64 (Z.shiftl UINT64_MAX bits)))))
       else u64 c) = wraps bits c.
Proof.
  intros Hb. destruct (Z.ltb_spec bits 64) as [Hlt|Hge].
  2:{ replace bits with 64 by lia. by apply wraps_wrapu. }
  assert (0 < 2 ^ bits) by (apply Z.pow_pos_nonneg; lia).
  assert (2 ^ bits <= 2 ^ (64 - 1)) by (apply Z.pow_le_mono_r; lia).
  rewrite low_mask, Z.land_ones by lia. 
  assert (u64 c mod 2 ^ bits = c mod 2 ^ bits) as -> by (apply mod_mod_pow2; lia).
  rewrite Z.shiftl_1_l, (wrapu_small 64 (2 ^ (bits - 1))) by (split; [lia|apply Z.pow_lt_mono_r; lia]).
  rewrite (Z.land_comm (u64 c)), land_pow2_test by lia.
  pose proof (Z.mod_pos_bound c (2 ^ bits) ltac:(lia)) as Hm.
  assert (Z.testbit (u64 c) (bits - 1) = Z.testbit (c mod 2 ^ bits) (bits - 1)) as ->.
  { unfold wrapu. rewrite !Z.mod_pow2_bits_low by lia. done. }
  assert (wraps bits c = wraps bits (c mod 2 ^ bits)) as -> by (symmetry; apply wraps_wrapu; lia).
  rewrite sign_bit, (wraps_of_field (c mod 2 ^ bits) bits) by lia.
  destruct (Z.leb_spec (2 ^ (bits - 1)) (c mod 2 ^ bits)).
  - rewrite <- extend_sign by lia. f_equal.
    rewrite high_mask by lia. apply Z.bits_inj'. intros n Hn. rewrite !Z.lor_spec, Z.shiftl_spec by lia.
    unfold wrapu. destruct (Z.lt_ge_cases n bits); [by rewrite !Z.mod_pow2_bits_low by lia|].
    rewrite (Z.mod_pow2_bits_high _ bits) by lia.
    replace (2 ^ (64 - bits) - 1) with (Z.ones (64 - bits)) by (rewrite Z.ones_equiv; lia).
    destruct (Z.lt_ge_cases n 64).
    + rewrite Z.ones_spec_low, orb_true_r by lia. done.
    + by rewrite Z.mod_pow2_bits_high, Z.ones_spec_high by lia.
  - apply wraps_small; lia.
Qed.

Lemma checkSigned_spec value incr bits owtype :
  1 <= bits <= 64 -> - 2 ^ 63 <= value < 2 ^ 63 -> - 2 ^ 63 <= incr < 2 ^ 63 ->
  - 2 ^ (bits - 1) <= value < 2 ^ (bits - 1) \/ (incr = 0 /\ 2 ^ (bits - 1) - 2 ^ 63 <= value) ->
  checkSignedBitfieldOverflow value incr bits owtype true =
    overflow_result owtype (- 2 ^ (bits - 1)) (2 ^ (bits - 1) - 1) (value + incr) (wraps bits (value + incr)).
Proof.
  intros Hb Hv Hi Hok. unfold checkSignedBitfieldOverflow, overflow_result. cbv zeta.
  rewrite <- (wrap_field (value + incr)) by done.
  assert (u64 (u64 value + u64 incr) = u64 (value + incr)) as ->.
  { unfold wrapu. by rewrite <- Zplus_mod. }
  assert (2 ^ (bits - 1) <= 2 ^ 63) by (apply Z.pow_le_mono_r; lia).
  assert (0 < 2 ^ (bits - 1)) by (apply Z.pow_pos_nonneg; lia).
  assert ((if bits =? 64 then INT64_MAX else s64 (s64 (Z.shiftl 1 (bits - 1)) - 1)) = 2 ^ (bits - 1) - 1) as ->.
  { destruct (Z.eqb_spec bits 64) as [->|]; [done|]. rewrite Z.shiftl_1_l.
    assert (2 ^ (bits - 1) < 2 ^ 63) by (apply Z.pow_lt_mono_r; lia).
    rewrite (wraps_small 64 (2 ^ (bits - 1))), wraps_small by (change (64 - 1) with 63; lia). done. }
  assert (s64 (u64 (u64 (2 ^ (bits - 1) - 1) - u64 value)) = s64 (2 ^ (bits - 1) - 1 - value)) as ->.
  { rewrite wraps_wrapu by lia. rewrite <- (wraps_wrapu 64 (_ - u64 value)), <- (wraps_wrapu 64 (_ - value)) by lia.
    f_equal. unfold wrapu. by rewrite <- Zminus_mod. }
  set (h := 2 ^ (bits - 1)) in *.
  replace (- (h - 1) - 1) with (- h) by lia.
  assert (forall x, - 2 ^ 63 <= x < 2 ^ 63 -> s64 x = x) as Hw by (intros; apply wraps_small; lia).
  assert ((bits = 64 /\ h = 2 ^ 63) \/ (bits <> 64 /\ h <= 2 ^ 62)) as Hh.
  { destruct (decide (bits = 64)) as [E|]; [left; split; [done|]; unfold h; by rewrite E|].
    right. split; [done|]. apply Z.pow_le_mono_r; lia. }
  assert (2 ^ 63 = 2 * 2 ^ 62) as H63 by done.
  assert (((value >? h - 1) || (negb (bits =? 64) && (incr >? s64 (h - 1 - value)))
    || ((value >=? 0) && (incr >? 0) && (incr >? s64 (h - 1 - value)))) = (h - 1 <? value + incr)) as ->.
  { destruct (decide (0 <= value \/ bits <> 64)) as [Hc|Hc]; [|lia].
    destruct (decide (value <= h - 1)); [|lia]. rewrite (Hw (h - 1 - value)) by lia. lia. }
  destruct (Z.ltb_spec (h - 1) (value + incr)) as [Hgt|Hle]; [by destruct owtype|].
  assert (((value <? - h) || (negb (bits =? 64) && (incr <? s64 (- h - value)))
    || ((value <? 0) && (incr <? 0) && (incr <? s64 (- h - value)))) = (value + incr <? - h)) as ->.
  { destruct (decide (- h <= value)); [|lia]. destruct (decide (value < 0 \/ bits <> 64)); [|lia].
    rewrite (Hw (- h - value)) by lia. lia. }
  destruct (Z.ltb_spec (value + incr) (- h)); [|done]. by destruct owtype.
Qed.

(** Far below the minimum the check takes the branch of the maximum: [maxincr] has wrapped. *)
Lemma checkSigned_below bits value owtype :
  1 <= bits <= 63 -> - 2 ^ 63 <= value < 2 ^ (bits - 1) - 2 ^ 63 ->
  checkSignedBitfieldOverflow value 0 bits owtype true =
    (1, match owtype with
        | BFOVERFLOW_WRAP => Some (wraps bits value)
        | BFOVERFLOW_SAT => Some (2 ^ (bits - 1) - 1)
        | BFOVERFLOW_FAIL => None
        end).
Proof.
  intros Hb Hv. unfold checkSignedBitfieldOverflow. cbv zeta.
  assert (u64 (u64 value + u64 0) = u64 value) as ->.
  { change (u64 0) with 0. rewrite Z.add_0_r. unfold wrapu. by rewrite Z.mod_mod. }
  rewrite wrap_field by lia.
  assert (0 < 2 ^ (bits - 1) <= 2 ^ 62) by (split; [apply Z.pow_pos_nonneg|apply Z.pow_le_mono_r]; lia).
  replace (bits =? 64) with false by lia. rewrite Z.shiftl_1_l.
  rewrite (wraps_small 64 (2 ^ (bits - 1))) by (change (2 ^ (64 - 1)) with (2 * 2 ^ 62); lia).
  rewrite (wraps_small 64 (2 ^ (bits - 1) - 1)) by (change (2 ^ (64 - 1)) with (2 * 2 ^ 62); lia).
  assert (s64 (u64 (u64 (2 ^ (bits - 1) - 1) - u64 value)) = 2 ^ (bits - 1) - 1 - value - 2 ^ 64) as ->.
  { rewrite wraps_wrapu by lia.
    rewrite <- (wraps_wrapu 64 (_ - u64 value)), <- (wraps_small 64 (_ - 2 ^ 64)), <- (wraps_wrapu 64 (_ - 2 ^ 64))
      by (try change (2 ^ 64) with (2 * 2 ^ 63); try change (2 ^ (64 - 1)) with (2 ^ 63);
          change (2 ^ 63) with (2 * 2 ^ 62) in *; lia).
    f_equal. unfold wrapu. rewrite <- Zminus_mod.
    replace (2 ^ (bits - 1) - 1 - value - 2 ^ 64) with (2 ^ (bits - 1) - 1 - value + (-1) * 2 ^ 64) by lia.
    by rewrite Z_mod_plus_full. }
  change (2 ^ 64) with (4 * 2 ^ 62). change (2 ^ 63) with (2 * 2 ^ 62) in *.
  replace (0 >? _) with true by lia. cbn [negb andb]. rewrite orb_true_r. cbn [orb]. by destruct owtype.
Qed.
