(* ===== verification/BitCmd.v ===== *)
(** * The bit commands of [bitops.c]

    SETBIT, GETBIT, BITOP, BITCOUNT, BITPOS, BITFIELD and BITFIELD_RO.  A handler gets the
    arguments of the command and the value its key holds ([lookupKeyRead] and [lookupKeyWrite]
    are outside this file) and gives the reply, the value the key holds afterwards and the
    increment of [server.dirty].  [be] is the byte order of the host, [addr] the address of the
    bytes of the string, [tmp] that of local buffers. *)
From stdpp Require Import strings.
From S2P Require Import Prelude Endian Numstr Glob BitVec Bits.

(** ** Objects and replies *)

(** A string object: raw or embedded bytes, or the integer encoding. *)
Inductive stringval := Sds (s : list Z) | IntEnc (n : Z).
Inductive robj := StringObj (v : stringval) | OtherObj (type : Z).

Inductive biterr :=
  | ErrOffset | ErrBit | ErrBitArg | ErrNotInteger | ErrSyntax | ErrWrongType | ErrFieldType
  | ErrOverflowType | ErrReadOnly | ErrSingleKey.
Inductive reply := RInt (n : Z) | RErr (e : biterr) | RNull | RArray (rs : list reply).

Record outcome := { out_reply : reply; out_value : option robj; out_dirty : Z }.

(** ** C strings and arguments *)

Fixpoint cstring (s : list Z) : list Z :=
  match s with
  | [] => []
  | c :: s => if c =? 0 then [] else c :: cstring s
  end.

(** [!strcasecmp(s, lit)] for a lower case literal. *)
Definition strcaseeq (s : list Z) (lit : string) : bool :=
  bool_decide ((tolower <$> cstring s) = bytes_of lit).

(** [p[0]] of a terminated string. *)
Definition first_char (s : list Z) : Z := match s with [] => 0 | c :: _ => c end.

(** [getLongLongFromObject] on an argument, which is raw; [long] has the same range. *)
Definition getLongLongFromObject (arg : list Z) : option (option Z) := string2ll arg (zlen arg).

(** [checkType(c, o, OBJ_STRING)]; a missing key passes. *)
Definition checkType (o : option robj) : biterr + option stringval :=
  match o with
  | None => inr None
  | Some (StringObj v) => inr (Some v)
  | Some (OtherObj _) => inl ErrWrongType
  end.

Definition getBitOffsetFromArgument (obey : bool) (proto_max_bulk_len : Z) (o : list Z) (hash : bool) (bits : Z)
    : option (option Z) :=
  let usehash := (first_char o =? 35) && hash && (bits >? 0) in
  let skip := if usehash then 1 else 0 in
  r ← string2ll (drop (Z.to_nat skip) o) (zlen o - skip);
  match r with
  | None => Some None
  | Some loffset =>
      let loffset := if usehash then s64 (loffset * bits) else loffset in
      if (loffset <? 0) || (negb obey && (Z.shiftr loffset 3 >=? proto_max_bulk_len)) then Some None
      else Some (Some loffset)
  end.

Definition getBitfieldTypeFromArgument (o : list Z) : option (option (bool * Z)) :=
  let c := first_char o in
  if (c =? 105) || (c =? 117) then
    let sign := c =? 105 in
    let p1 := cstring (drop 1 o) in
    r ← string2ll p1 (zlen p1);
    match r with
    | None => Some None
    | Some llbits =>
        if (llbits <? 1) || (sign && (llbits >? 64)) || (negb sign && (llbits >? 63)) then Some None
        else Some (Some (sign, llbits))
    end
  else Some None.

(** ** String values *)

Definition int_text (size : nat) (n : Z) : option (list Z) :=
  '(buf, len) ← ll2string (replicate size 0) 0 (Z.of_nat size) n; mem_read buf 0 len.

(** [getDecodedObject] takes the text up to its terminator. *)
Definition getDecodedObject (v : stringval) : option (list Z) :=
  match v with
  | Sds s => Some s
  | IntEnc n => '(buf, _) ← ll2string (replicate 32 0) 0 32 n; Some (cstring buf)
  end.

Definition getObjectReadOnlyString (o : option stringval) : option (option (list Z) * Z) :=
  match o with
  | Some (IntEnc n) => s ← int_text 21 n; Some (Some s, zlen s)
  | Some (Sds s) => Some (Some s, zlen s)
  | None => Some (None, 0)
  end.

Definition sdsgrowzero (s : list Z) (len : Z) : list Z :=
  if len <=? zlen s then s else s ++ replicate (Z.to_nat (len - zlen s)) 0.

(** The string with room for [maxbit], and whether it was created or has grown. *)
Definition lookupStringForBitCommand (o : option robj) (maxbit : Z) : option (biterr + list Z * bool) :=
  let byte := Z.shiftr maxbit 3 in
  match checkType o with
  | inl e => Some (inl e)
  | inr None => Some (inr (replicate (Z.to_nat (byte + 1)) 0, true))
  | inr (Some v) =>
      s ← getDecodedObject v;
      let oldlen := zlen s in
      let s' := sdsgrowzero s (byte + 1) in
      Some (inr (s', negb (oldlen =? zlen s')))
  end.

Inductive bitop := BITOP_AND | BITOP_OR | BITOP_XOR | BITOP_NOT.

#[export] Instance bitop_eq_dec : EqDecision bitop.
Proof. solve_decision. Defined.

(** ** SETBIT and GETBIT *)

Section BitCommands.
Variables (be obey : bool) (proto_max_bulk_len addr tmp : Z).

Definition fail (o : option robj) (e : biterr) : option outcome :=
  Some {| out_reply := RErr e; out_value := o; out_dirty := 0 |}.
Definition answer (o : option robj) (n : Z) : option outcome :=
  Some {| out_reply := RInt n; out_value := o; out_dirty := 0 |}.

(** [argv] is [SETBIT key offset bitvalue]. *)
Definition setbitCommand (argv : list (list Z)) (o : option robj) : option outcome :=
  a2 ← argv !! 2%nat; a3 ← argv !! 3%nat;
  off ← getBitOffsetFromArgument obey proto_max_bulk_len a2 false 0;
  match off with
  | None => fail o ErrOffset
  | Some bitoffset =>
      on ← getLongLongFromObject a3;
      match on with
      | None => fail o ErrBit
      | Some on =>
          if negb (Z.land on (Z.lnot 1) =? 0) then fail o ErrBit
          else
            r ← lookupStringForBitCommand o bitoffset;
            match r with
            | inl e => fail o e
            | inr (s, dirty) =>
                let byte := Z.shiftr bitoffset 3 in
                byteval ← getb s byte;
                let bit := 7 - Z.land bitoffset 7 in
                let bitval := Z.land byteval (Z.shiftl 1 bit) in
                let old := if negb (bitval =? 0) then 1 else 0 in
                if dirty || negb (old =? on) then
                  let byteval := Z.land byteval (Z.lnot (Z.shiftl 1 bit)) in
                  let byteval := Z.lor byteval (Z.shiftl (Z.land on 1) bit) in
                  s ← setb s byte (u8 byteval);
                  Some {| out_reply := RInt old; out_value := Some (StringObj (Sds s)); out_dirty := 1 |}
                else
                  Some {| out_reply := RInt old; out_value := Some (StringObj (Sds s)); out_dirty := 0 |}
            end
      end
  end.

Definition getbitCommand (argv : list (list Z)) (o : option robj) : option outcome :=
  a2 ← argv !! 2%nat;
  off ← getBitOffsetFromArgument obey proto_max_bulk_len a2 false 0;
  match off with
  | None => fail o ErrOffset
  | Some bitoffset =>
      match checkType o with
      | inl e => fail o e
      | inr None => answer o 0
      | inr (Some v) =>
          let byte := Z.shiftr bitoffset 3 in
          let bit := 7 - Z.land bitoffset 7 in
          s ← match v with Sds s => Some s | IntEnc n => int_text 32 n end;
          if byte <? zlen s then
            b ← getb s byte;
            answer o (if negb (Z.land b (Z.shiftl 1 bit) =? 0) then 1 else 0)
          else answer o 0
      end
  end.

(** ** BITOP *)

Definition parse_bitop (opname : list Z) : option bitop :=
  let c := first_char opname in
  if ((c =? 97) || (c =? 65)) && strcaseeq opname "and" then Some BITOP_AND
  else if ((c =? 111) || (c =? 79)) && strcaseeq opname "or" then Some BITOP_OR
  else if ((c =? 120) || (c =? 88)) && strcaseeq opname "xor" then Some BITOP_XOR
  else if ((c =? 110) || (c =? 78)) && strcaseeq opname "not" then Some BITOP_NOT
  else None.

(** The sources with [maxlen] and [minlen]; a missing key is an empty string. *)
Fixpoint bitop_lookup (j : Z) (objs : list (option robj)) (src : list (list Z)) (maxlen minlen : Z)
    : option (biterr + list (list Z) * Z * Z) :=
  match objs with
  | [] => Some (inr (src, maxlen, minlen))
  | o :: objs =>
      match checkType o with
      | inr None => bitop_lookup (j + 1) objs (src ++ [[]]) maxlen 0
      | inl e => Some (inl e)
      | inr (Some v) =>
          s ← getDecodedObject v;
          let maxlen := if zlen s >? maxlen then zlen s else maxlen in
          let minlen := if (j =? 0) || (zlen s <? minlen) then zlen s else minlen in
          bitop_lookup (j + 1) objs (src ++ [s]) maxlen minlen
      end
  end.

(** [a op= b] on machine words and on bytes. *)
Definition apply_op (op : bitop) (a b : Z) : Z :=
  match op with
  | BITOP_AND => Z.land a b
  | BITOP_OR => Z.lor a b
  | BITOP_XOR => Z.lxor a b
  | BITOP_NOT => a
  end.

(** One word of [lres]: [lres[k] op= lp[i][k]] and [lres[k] = ~lres[k]].  [lres], [lp[i]] and [j]
    advance together, so one offset stands for all of them. *)
Definition word_op (op : bitop) (off : Z) (res src : list Z) : option (list Z) :=
  a ← mem_read res off 8; b ← mem_read src off 8;
  mem_write res off (host_store be 8 (apply_op op (host_load be a) (host_load be b))).

Definition word_not (off : Z) (res : list Z) : option (list Z) :=
  a ← mem_read res off 8; mem_write res off (host_store be 8 (u64 (Z.lnot (host_load be a)))).

Definition block_op (op : bitop) (off : Z) (res src : list Z) : option (list Z) :=
  res ← word_op op off res src; res ← word_op op (off + 8) res src;
  res ← word_op op (off + 16) res src; word_op op (off + 24) res src.

Definition block_not (off : Z) (res : list Z) : option (list Z) :=
  res ← word_not off res; res ← word_not (off + 8) res;
  res ← word_not (off + 16) res; word_not (off + 24) res.

Fixpoint block_keys (op : bitop) (off : Z) (res : list Z) (srcs : list (list Z)) : option (list Z) :=
  match srcs with
  | [] => Some res
  | s :: srcs => res ← block_op op off res s; block_keys op off res srcs
  end.

(** [while(minlen >= sizeof(unsigned long)*4)] *)
Definition bitop_fast_body (op : bitop) (srcs : list (list Z)) (st : list Z * Z * Z)
    : option ((list Z * Z * Z) + (list Z * Z)) :=
  let '(res, j, minlen) := st in
  if minlen >=? sizeof_long * 4 then
    res ← match op with
          | BITOP_NOT => block_not j res
          | _ => block_keys op j res (tail srcs)
          end;
    Some (inl (res, j + sizeof_long * 4, minlen - sizeof_long * 4))
  else Some (inr (res, j)).

(** The byte of a source at [j], zero behind its end, and the inner loop with its early exit. *)
Definition src_byte (s : list Z) (j : Z) : option Z := if zlen s <=? j then Some 0 else getb s j.

Fixpoint bitop_byte (op : bitop) (j output : Z) (srcs : list (list Z)) : option Z :=
  match srcs with
  | [] => Some output
  | s :: srcs =>
      byte ← src_byte s j;
      let output := apply_op op output byte in
      let skip := match op with
                  | BITOP_AND => output =? 0
                  | BITOP_OR => output =? 0xff
                  | _ => false
                  end in
      if skip then Some output else bitop_byte op j output srcs
  end.

Definition bitop_slow_body (op : bitop) (srcs : list (list Z)) (maxlen : Z) (st : list Z * Z)
    : option ((list Z * Z) + list Z) :=
  let '(res, j) := st in
  if j <? maxlen then
    s0 ← head srcs;
    output ← src_byte s0 j;
    let output := match op with BITOP_NOT => u8 (Z.lnot output) | _ => output end in
    output ← bitop_byte op j output (tail srcs);
    res ← setb res j output;
    Some (inl (res, j + 1))
  else Some (inr res).

Definition bitop_compute (op : bitop) (srcs : list (list Z)) (maxlen minlen : Z) : option (list Z) :=
  let res := replicate (Z.to_nat maxlen) 0 in
  '(res, j) ← (if (minlen >=? sizeof_long * 4) && (zlen srcs <=? 16) then
                 s0 ← head srcs;
                 p ← mem_read s0 0 minlen;
                 res ← mem_write res 0 p;
                 loop (S (Z.to_nat minlen)) (bitop_fast_body op srcs) (res, 0, minlen)
               else Some (res, 0));
  loop (S (Z.to_nat maxlen)) (bitop_slow_body op srcs maxlen) (res, j).

(** [argv] is [BITOP op target src1 ... srcN]; [objs] are the values of the sources, [o] that of
    the target. *)
Definition bitopCommand (argv : list (list Z)) (objs : list (option robj)) (o : option robj) : option outcome :=
  opname ← argv !! 1%nat;
  match parse_bitop opname with
  | None => fail o ErrSyntax
  | Some op =>
      if bool_decide (op = BITOP_NOT) && negb (zlen argv =? 4) then fail o ErrSingleKey
      else
        r ← bitop_lookup 0 objs [] 0 0;
        match r with
        | inl e => fail o e
        | inr (srcs, maxlen, minlen) =>
            if negb (maxlen =? 0) then
              res ← bitop_compute op srcs maxlen minlen;
              Some {| out_reply := RInt maxlen; out_value := Some (StringObj (Sds res)); out_dirty := 1 |}
            else
              Some {| out_reply := RInt maxlen; out_value := None;
                      out_dirty := match o with Some _ => 1 | None => 0 end |}
        end
  end.

(** ** BITCOUNT *)

(** The index computation BITCOUNT and BITPOS share: [start], [end] and the two masks. *)
Definition bit_range (isbit : bool) (totlen start stop : Z) : Z * Z * Z * Z :=
  let totlen := if isbit then Z.shiftl totlen 3 else totlen in
  let start := if start <? 0 then totlen + start else start in
  let stop := if stop <? 0 then totlen + stop else stop in
  let start := if start <? 0 then 0 else start in
  let stop := if stop <? 0 then 0 else stop in
  let stop := if stop >=? totlen then totlen - 1 else stop in
  if isbit && (start <=? stop) then
    (Z.shiftr start 3, Z.shiftr stop 3,
     Z.land (Z.lnot (Z.shiftl 1 (8 - Z.land start 7) - 1)) 0xFF,
     Z.shiftl 1 (7 - Z.land stop 7) - 1)
  else (start, stop, 0, 0).

Definition parse_unit (arg : list Z) : option bool :=
  if strcaseeq arg "bit" then Some true
  else if strcaseeq arg "byte" then Some false
  else None.

(** The count on bytes [start..stop] of [p], less the bits the masks select at the edges. *)
Definition bitcount_bytes (p : list Z) (start stop first_mask last_mask : Z) : option Z :=
  let bytes := stop - start + 1 in
  count ← redisPopcount be addr p start bytes;
  if negb (first_mask =? 0) || negb (last_mask =? 0) then
    f ← (if negb (first_mask =? 0) then b ← getb p start; Some (Z.land b first_mask) else Some 0);
    l ← (if negb (last_mask =? 0) then b ← getb p stop; Some (Z.land b last_mask) else Some 0);
    out ← redisPopcount be tmp [f; l] 0 2;
    Some (count - out)
  else Some count.

Definition bitcount_reply (o : option robj) (p : option (list Z)) (start stop first_mask last_mask : Z)
    : option outcome :=
  match p with
  | None => answer o 0
  | Some p =>
      if start >? stop then answer o 0
      else n ← bitcount_bytes p start stop first_mask last_mask; answer o n
  end.

Definition bitcountCommand (argv : list (list Z)) (o : option robj) : option outcome :=
  let argc := zlen argv in
  if (argc =? 4) || (argc =? 5) then
    a2 ← argv !! 2%nat; a3 ← argv !! 3%nat;
    r2 ← getLongLongFromObject a2;
    match r2 with
    | None => fail o ErrNotInteger
    | Some start =>
        r3 ← getLongLongFromObject a3;
        match r3 with
        | None => fail o ErrNotInteger
        | Some stop =>
            u ← (if argc =? 5 then a4 ← argv !! 4%nat; Some (parse_unit a4) else Some (Some false));
            match u with
            | None => fail o ErrSyntax
            | Some isbit =>
                match checkType o with
                | inl e => fail o e
                | inr v =>
                    '(p, totlen) ← getObjectReadOnlyString v;
                    _ ← assert_true (totlen <=? Z.shiftr LLONG_MAX 3);
                    if (start <? 0) && (stop <? 0) && (start >? stop) then answer o 0
                    else
                      let '(start, stop, first_mask, last_mask) := bit_range isbit totlen start stop in
                      bitcount_reply o p start stop first_mask last_mask
                end
            end
        end
    end
  else if argc =? 2 then
    match checkType o with
    | inl e => fail o e
    | inr v =>
        '(p, len) ← getObjectReadOnlyString v;
        bitcount_reply o p 0 (len - 1) 0 0
    end
  else fail o ErrSyntax.

(** ** BITPOS *)

(** A byte with the bits under the mask [m] made no candidates. *)
Definition mask_edge (bit m b : Z) : Z := if negb (bit =? 0) then Z.land b (u8 (Z.lnot m)) else Z.lor b m.

(** The search behind the first byte: whole bytes, then the masked last one.  The result is the
    answer of the last [redisBitpos] with the [start] and [bytes] it was made at. *)
Definition bitpos_rest (p : list Z) (start bytes stop bit last_mask : Z) : option (Z * Z * Z) :=
  let curbytes := bytes - (if negb (last_mask =? 0) then 1 else 0) in
  r ← (if curbytes >? 0 then
         pos ← redisBitpos be addr p start curbytes bit;
         if (bytes =? curbytes) || (negb (pos =? -1) && negb (pos =? Z.shiftl curbytes 3))
         then Some (inr (pos, start, bytes))
         else Some (inl (start + curbytes, bytes - curbytes))
       else Some (inl (start, bytes)));
  match r with
  | inr result => Some result
  | inl (start, bytes) =>
      b ← getb p stop;
      pos ← redisBitpos be tmp [mask_edge bit last_mask b] 0 1 bit;
      Some (pos, start, bytes)
  end.

Definition bitpos_search (p : list Z) (start stop bit first_mask last_mask : Z) : option (Z * Z * Z) :=
  let bytes := stop - start + 1 in
  if negb (first_mask =? 0) then
    b ← getb p start;
    let tmpchar := mask_edge bit first_mask b in
    let tmpchar := if negb (last_mask =? 0) && (bytes =? 1) then mask_edge bit last_mask tmpchar else tmpchar in
    pos ← redisBitpos be tmp [tmpchar] 0 1 bit;
    if (bytes =? 1) || (negb (pos =? -1) && negb (pos =? 8)) then Some (pos, start, bytes)
    else bitpos_rest p (start + 1) (bytes - 1) stop bit last_mask
  else bitpos_rest p start bytes stop bit last_mask.

Definition bitpos_reply (o : option robj) (p : option (list Z)) (end_given : bool)
    (start stop bit first_mask last_mask : Z) : option outcome :=
  match p with
  | None => answer o (if negb (bit =? 0) then -1 else 0)
  | Some p =>
      if start >? stop then answer o (-1)
      else
        '(pos, start, bytes) ← bitpos_search p start stop bit first_mask last_mask;
        if end_given && (bit =? 0) && (pos =? Z.shiftl bytes 3) then answer o (-1)
        else answer o (if negb (pos =? -1) then pos + Z.shiftl start 3 else pos)
  end.

Definition bitposCommand (argv : list (list Z)) (o : option robj) : option outcome :=
  let argc := zlen argv in
  a2 ← argv !! 2%nat;
  rb ← getLongLongFromObject a2;
  match rb with
  | None => fail o ErrNotInteger
  | Some bit =>
      if negb (bit =? 0) && negb (bit =? 1) then fail o ErrBitArg
      else if (argc =? 4) || (argc =? 5) || (argc =? 6) then
        a3 ← argv !! 3%nat;
        r3 ← getLongLongFromObject a3;
        match r3 with
        | None => fail o ErrNotInteger
        | Some start =>
            u ← (if argc =? 6 then a5 ← argv !! 5%nat; Some (parse_unit a5) else Some (Some false));
            match u with
            | None => fail o ErrSyntax
            | Some isbit =>
                r4 ← (if argc >=? 5 then
                        a4 ← argv !! 4%nat;
                        r ← getLongLongFromObject a4;
                        Some (match r with Some z => inr (Some z) | None => inl ErrNotInteger end)
                      else Some (inr None));
                match r4 with
                | inl e => fail o e
                | inr stop =>
                    match checkType o with
                    | inl e => fail o e
                    | inr v =>
                        '(p, totlen) ← getObjectReadOnlyString v;
                        _ ← assert_true (totlen <=? Z.shiftr LLONG_MAX 3);
                        let end_given := match stop with Some _ => true | None => false end in
                        let stop := match stop with
                                    | Some z => z
                                    | None => if (isbit : bool) then Z.shiftl totlen 3 + 7 else totlen - 1
                                    end in
                        let '(start, stop, first_mask, last_mask) := bit_range isbit totlen start stop in
                        bitpos_reply o p end_given start stop bit first_mask last_mask
                    end
                end
            end
        end
      else if argc =? 3 then
        match checkType o with
        | inl e => fail o e
        | inr v =>
            '(p, len) ← getObjectReadOnlyString v;
            bitpos_reply o p false 0 (len - 1) bit 0 0
        end
      else fail o ErrSyntax
  end.

(** ** BITFIELD *)

Inductive bitfield_opcode := BITFIELDOP_GET | BITFIELDOP_SET | BITFIELDOP_INCRBY.

Record bitfieldOp := {
  op_offset : Z; op_i64 : Z; op_opcode : bitfield_opcode; op_owtype : overflow_type;
  op_bits : Z; op_sign : bool }.

(** What the parsing loop has gathered: the next argument, the operations, the overflow type,
    [readonly] and [highest_write_offset]. *)
Record bf_parse := {
  bf_j : Z; bf_ops : list bitfieldOp; bf_owtype : overflow_type; bf_readonly : bool; bf_highest : Z }.

Definition parse_opcode (subcmd : list Z) (remargs : Z) : option bitfield_opcode :=
  if strcaseeq subcmd "get" && (remargs >=? 2) then Some BITFIELDOP_GET
  else if strcaseeq subcmd "set" && (remargs >=? 3) then Some BITFIELDOP_SET
  else if strcaseeq subcmd "incrby" && (remargs >=? 3) then Some BITFIELDOP_INCRBY
  else None.

Definition parse_owtype (name : list Z) : option overflow_type :=
  if strcaseeq name "wrap" then Some BFOVERFLOW_WRAP
  else if strcaseeq name "sat" then Some BFOVERFLOW_SAT
  else if strcaseeq name "fail" then Some BFOVERFLOW_FAIL
  else None.

Definition is_get (opcode : bitfield_opcode) : bool :=
  match opcode with BITFIELDOP_GET => true | _ => false end.

Definition bitfield_parse_body (argv : list (list Z)) (st : bf_parse) : option (bf_parse + (biterr + bf_parse)) :=
  let argc := zlen argv in
  let j := bf_j st in
  if j <? argc then
    let remargs := argc - j - 1 in
    subcmd ← argv !! Z.to_nat j;
    match parse_opcode subcmd remargs with
    | None =>
        if strcaseeq subcmd "overflow" && (remargs >=? 1) then
          name ← argv !! Z.to_nat (j + 1);
          match parse_owtype name with
          | None => Some (inr (inl ErrOverflowType))
          | Some ow =>
              Some (inl {| bf_j := j + 1 + 1; bf_ops := bf_ops st; bf_owtype := ow;
                           bf_readonly := bf_readonly st; bf_highest := bf_highest st |})
          end
        else Some (inr (inl ErrSyntax))
    | Some opcode =>
        a1 ← argv !! Z.to_nat (j + 1); a2 ← argv !! Z.to_nat (j + 2);
        rt ← getBitfieldTypeFromArgument a1;
        match rt with
        | None => Some (inr (inl ErrFieldType))
        | Some (sign, bits) =>
            ro ← getBitOffsetFromArgument obey proto_max_bulk_len a2 true bits;
            match ro with
            | None => Some (inr (inl ErrOffset))
            | Some bitoffset =>
                let hi := u64 (bitoffset + bits - 1) in
                ri ← (if is_get opcode then Some (Some 0)
                      else a3 ← argv !! Z.to_nat (j + 3); getLongLongFromObject a3);
                match ri with
                | None => Some (inr (inl ErrNotInteger))
                | Some i64 =>
                    Some (inl {| bf_j := j + (3 - (if is_get opcode then 1 else 0)) + 1;
                                 bf_ops := bf_ops st ++ [{| op_offset := bitoffset; op_i64 := i64;
                                   op_opcode := opcode; op_owtype := bf_owtype st; op_bits := bits;
                                   op_sign := sign |}];
                                 bf_owtype := bf_owtype st;
                                 bf_readonly := bf_readonly st && is_get opcode;
                                 bf_highest := if negb (is_get opcode) && (bf_highest st <? hi) then hi
                                               else bf_highest st |})
                end
            end
        end
    end
  else Some (inr (inr st)).

Definition bitfield_parse (argv : list (list Z)) : option (biterr + bf_parse) :=
  loop (S (length argv)) (bitfield_parse_body argv)
    {| bf_j := 2; bf_ops := []; bf_owtype := BFOVERFLOW_WRAP; bf_readonly := true; bf_highest := 0 |}.

(** SET and INCRBY on the bytes of the string: the bytes afterwards, the reply and whether the
    operation counts as a change.  [wrapped] is not initialised by a failed check; it is not
    used then. *)
Definition bitfield_write (s : list Z) (dirty : bool) (op : bitfieldOp) : option (list Z * reply * Z) :=
  let incrby := match op_opcode op with BITFIELDOP_INCRBY => true | _ => false end in
  let refused (overflow : Z) := negb (overflow =? 0) && bool_decide (op_owtype op = BFOVERFLOW_FAIL) in
  if op_sign op then
    oldval ← getSignedBitfield s (op_offset op) (op_bits op);
    let '(overflow, newval, retval) :=
      if incrby then
        let '(overflow, limit) := checkSignedBitfieldOverflow oldval (op_i64 op) (op_bits op) (op_owtype op) true in
        let newval := if negb (overflow =? 0) then default 0 limit else s64 (oldval + op_i64 op) in
        (overflow, newval, newval)
      else
        let newval := op_i64 op in
        let '(overflow, limit) := checkSignedBitfieldOverflow newval 0 (op_bits op) (op_owtype op) true in
        let newval := if negb (overflow =? 0) then default 0 limit else newval in
        (overflow, newval, oldval) in
    if negb (refused overflow) then
      s ← setSignedBitfield s (op_offset op) (op_bits op) newval;
      Some (s, RInt retval, if dirty || negb (oldval =? newval) then 1 else 0)
    else Some (s, RNull, 0)
  else
    oldval ← getUnsignedBitfield s (op_offset op) (op_bits op);
    let '(overflow, newval, retval) :=
      if incrby then
        let newval := u64 (oldval + op_i64 op) in
        let '(overflow, limit) := checkUnsignedBitfieldOverflow oldval (op_i64 op) (op_bits op) (op_owtype op) true in
        let newval := if negb (overflow =? 0) then default 0 limit else newval in
        (overflow, newval, newval)
      else
        let newval := u64 (op_i64 op) in
        let '(overflow, limit) := checkUnsignedBitfieldOverflow newval 0 (op_bits op) (op_owtype op) true in
        let newval := if negb (overflow =? 0) then default 0 limit else newval in
        (overflow, newval, oldval) in
    if negb (refused overflow) then
      s ← setUnsignedBitfield s (op_offset op) (op_bits op) newval;
      Some (s, RInt (s64 retval), if dirty || negb (oldval =? newval) then 1 else 0)
    else Some (s, RNull, 0).

(** GET copies up to nine bytes into a zeroed buffer. *)
Fixpoint copy_loop (n : nat) (i byte : Z) (src : option (list Z)) (len : Z) (buf : list Z) : option (list Z) :=
  match n with
  | O => Some buf
  | S n =>
      match src with
      | None => Some buf
      | Some s =>
          if i + byte >=? len then Some buf
          else c ← getb s (i + byte); buf ← setb buf i c; copy_loop n (i + 1) byte src len buf
      end
  end.

Definition bitfield_get (o : option stringval) (op : bitfieldOp) : option reply :=
  '(src, len) ← getObjectReadOnlyString o;
  let byte := Z.shiftr (op_offset op) 3 in
  buf ← copy_loop 9 0 byte src len (replicate 9 0);
  if op_sign op then
    val ← getSignedBitfield buf (op_offset op - byte * 8) (op_bits op); Some (RInt val)
  else
    val ← getUnsignedBitfield buf (op_offset op - byte * 8) (op_bits op); Some (RInt (s64 val)).

Definition bitfield_exec (dirty : bool) (op : bitfieldOp) (o : option stringval)
    : option (option stringval * reply * Z) :=
  if is_get (op_opcode op) then r ← bitfield_get o op; Some (o, r, 0)
  else
    match o with
    | Some (Sds s) => '(s, r, n) ← bitfield_write s dirty op; Some (Some (Sds s), r, n)
    | _ => None
    end.

Fixpoint bitfield_run (dirty : bool) (ops : list bitfieldOp) (o : option stringval) (rs : list reply) (changes : Z)
    : option (option stringval * list reply * Z) :=
  match ops with
  | [] => Some (o, rs, changes)
  | op :: ops =>
      '(o, r, n) ← bitfield_exec dirty op o;
      bitfield_run dirty ops o (rs ++ [r]) (changes + n)
  end.

(** [flags & BITFIELD_FLAG_READONLY] is [ro]. *)
Definition bitfieldGeneric (ro : bool) (argv : list (list Z)) (o : option robj) : option outcome :=
  r ← bitfield_parse argv;
  match r with
  | inl e => fail o e
  | inr st =>
      if bf_readonly st then
        match checkType o with
        | inl e => fail o e
        | inr v =>
            '(_, rs, changes) ← bitfield_run false (bf_ops st) v [] 0;
            Some {| out_reply := RArray rs; out_value := o; out_dirty := changes |}
        end
      else if ro then fail o ErrReadOnly
      else
        r ← lookupStringForBitCommand o (bf_highest st);
        match r with
        | inl e => fail o e
        | inr (s, dirty) =>
            '(v, rs, changes) ← bitfield_run dirty (bf_ops st) (Some (Sds s)) [] 0;
            Some {| out_reply := RArray rs; out_value := StringObj <$> v; out_dirty := changes |}
        end
  end.
End BitCommands.

Definition bitfieldCommand (obey : bool) (proto_max_bulk_len : Z) := bitfieldGeneric obey proto_max_bulk_len false.
Definition bitfieldroCommand (obey : bool) (proto_max_bulk_len : Z) := bitfieldGeneric obey proto_max_bulk_len true.
