(* ===== verification/BitCmdFacts.v ===== *)
(** * Values, arguments and the single bit commands

    The bits a key holds ([bit_at]), what the argument parsers accept, and SETBIT and GETBIT. *)
From stdpp Require Import strings.
From S2P Require Import Prelude Endian Numstr NumstrFacts NumstrProps Glob BitVec Bits BitsFacts BitField BitCmd.

(** ** The bits of a value *)

(** The string a key holds; a missing key is the empty string. *)
Definition holds (o : option robj) (s : list Z) : Prop :=
  match o with
  | None => s = []
  | Some (StringObj (Sds s')) => s = s'
  | Some (StringObj (IntEnc n)) => in_int64 n /\ IsDec s n
  | Some (OtherObj _) => False
  end.

(** Bit [i] of a string, zero behind its end. *)
Definition bit_at (s : list Z) (i : Z) : bool := default false (bits_of s !! Z.to_nat i).

Lemma IsDec_chars s n : IsDec s n -> Forall (fun c => c = 45 \/ 48 <= c <= 57) s.
Proof.
  assert (forall t m, IsDecU t m -> Forall (fun c => c = 45 \/ 48 <= c <= 57) t) as Hu.
  { intros t m [_ ->]. eapply Forall_impl; [apply dec_fixed_digits|]. naive_solver. }
  unfold IsDec. destruct (n <? 0); [|apply Hu]. intros (t & -> & H). constructor; [by left|by eapply Hu].
Qed.

Lemma IsDec_bytes s n : IsDec s n -> bytes s.
Proof. intros H. eapply Forall_impl; [by eapply IsDec_chars|]. unfold is_byte. lia. Qed.

Lemma cstring_app s r : Forall (fun c => c <> 0) s -> cstring (s ++ 0 :: r) = s.
Proof.
  induction 1 as [|c s Hc _ IH]; [done|]. simpl. replace (c =? 0) with false by lia. by rewrite IH.
Qed.

Lemma ll2string_room size s n :
  (21 <= size)%nat -> in_int64 n -> IsDec s n ->
  exists r, ll2string (replicate size 0) 0 (Z.of_nat size) n = Some (s ++ 0 :: r, zlen s).
Proof.
  intros Hs Hn Hd. destruct (ll2string_spec [] (replicate size 0) [] n Hn) as (s' & Hd' & E).
  rewrite (IsDec_unique s' s n Hd' Hd) in E. pose proof (IsDec_length s n Hd Hn).
  assert (zlen (replicate size 0) = Z.of_nat size) as Hz by (unfold zlen; by rewrite length_replicate).
  rewrite Hz in E. replace (zlen s <? Z.of_nat size) with true in E by lia.
  rewrite !app_nil_r in E. simpl app in E. eexists. exact E.
Qed.

Lemma int_text_ok size s n :
  (21 <= size)%nat -> in_int64 n -> IsDec s n -> int_text size n = Some s.
Proof.
  intros Hs Hn Hd. unfold int_text. destruct (ll2string_room size s n Hs Hn Hd) as [r ->].
  cbn [mbind option_bind]. by apply (mem_read_mid [] s (0 :: r)).
Qed.

Lemma getDecodedObject_ok v s : holds (Some (StringObj v)) s -> getDecodedObject v = Some s.
Proof.
  destruct v as [s'|n]; simpl; [by intros ->|]. intros [Hn Hd].
  destruct (ll2string_room 32 s n ltac:(lia) Hn Hd) as [r E].
  change (ll2string _ 0 32 n) with (ll2string (replicate 32 0) 0 (Z.of_nat 32) n). rewrite E.
  cbn [mbind option_bind]. rewrite cstring_app; [done|].
  eapply Forall_impl; [by eapply IsDec_chars|]. intros c Hc. simpl in Hc. lia.
Qed.

Lemma getObjectReadOnlyString_ok o v s :
  checkType o = inr v -> holds o s ->
  getObjectReadOnlyString v = Some (match v with Some _ => Some s | None => None end, zlen s).
Proof.
  destruct o as [[[s'|n]|t]|]; simpl; intros [= <-] Hs; try (by subst).
  destruct Hs as [Hn Hd]. cbn [getObjectReadOnlyString]. by rewrite (int_text_ok 21 s n) by (done || lia).
Qed.

(** ** Bits behind the end *)

Lemma bit_at_lookup s i b : 0 <= i -> getb s (i / 8) = Some b -> bit_at s i = Z.testbit b (7 - i mod 8).
Proof. intros Hi Hb. unfold bit_at. by rewrite (bits_of_lookup s i b). Qed.

Lemma bit_at_beyond s i : 8 * zlen s <= i -> bit_at s i = false.
Proof.
  intros Hi. unfold bit_at. rewrite lookup_ge_None_2; [done|].
  pose proof (zlen_bits_of s) as H. unfold zlen in *. lia.
Qed.

Lemma bit_at_insert s s' i b :
  0 <= i < 8 * zlen s -> bits_of s' = <[Z.to_nat i := b]> (bits_of s) ->
  forall k, 0 <= k -> bit_at s' k = if k =? i then b else bit_at s k.
Proof.
  intros Hi E k Hk. unfold bit_at. rewrite E. destruct (Z.eqb_spec k i) as [->|Hne].
  - rewrite list_lookup_insert_eq; [done|]. pose proof (zlen_bits_of s) as H. unfold zlen in *. lia.
  - rewrite list_lookup_insert_ne by lia. done.
Qed.

Lemma bit_at_app_zeros s n i : bit_at (s ++ replicate n 0) i = bit_at s i.
Proof.
  unfold bit_at. rewrite bits_of_app, bits_of_replicate0.
  destruct (decide (Z.to_nat i < length (bits_of s))%nat) as [Hl|Hl].
  - by rewrite lookup_app_l.
  - rewrite lookup_app_r, (lookup_ge_None_2 (bits_of s)) by lia.
    destruct (replicate _ false !! _) eqn:E; [|done]. simpl.
    apply lookup_replicate in E as [-> _]. done.
Qed.

(** ** The string a writing command works on *)

Lemma sdsgrowzero_ok s len :
  bytes s -> 0 <= len -> exists n, sdsgrowzero s len = s ++ replicate n 0 /\ zlen (sdsgrowzero s len) = Z.max (zlen s) len /\
    bytes (sdsgrowzero s len).
Proof.
  intros Hb Hl. unfold sdsgrowzero. destruct (Z.leb_spec len (zlen s)).
  - exists 0%nat. rewrite app_nil_r. split; [done|]. split; [lia|done].
  - eexists. split; [done|]. split.
    + rewrite zlen_app. unfold zlen at 2. rewrite length_replicate. lia.
    + apply Forall_app. split; [done|]. apply Forall_replicate. done.
Qed.

Lemma lookupStringForBitCommand_ok o s maxbit :
  holds o s -> bytes s -> 0 <= maxbit ->
  exists s' n, lookupStringForBitCommand o maxbit
      = Some (inr (s', match o with None => true | Some _ => zlen s <? maxbit / 8 + 1 end)) /\
    s' = s ++ replicate n 0 /\ zlen s' = Z.max (zlen s) (maxbit / 8 + 1) /\ bytes s'.
Proof.
  intros Ho Hs Hm. unfold lookupStringForBitCommand.
  rewrite Z.shiftr_div_pow2 by lia. change (2 ^ 3) with 8.
  destruct o as [[v|t]|]; simpl checkType; cbn iota; [|done|].
  - rewrite (getDecodedObject_ok v s Ho). cbn [mbind option_bind].
    destruct (sdsgrowzero_ok s (maxbit / 8 + 1)) as (n & E & Hz & Hb); [done|div_lia|].
    exists (sdsgrowzero s (maxbit / 8 + 1)), n. split; [|done]. do 3 f_equal. rewrite Hz. lia.
  - simpl in Ho. subst s. exists (replicate (Z.to_nat (maxbit / 8 + 1)) 0), (Z.to_nat (maxbit / 8 + 1)).
    split; [done|]. split; [done|]. split.
    + unfold zlen. rewrite length_replicate. simpl. div_lia.
    + apply Forall_replicate. done.
Qed.

(** ** Arguments *)

Lemma getLongLong_ok a :
  exists r, getLongLongFromObject a = Some r /\ forall v, r = Some v <-> IsDec a v /\ in_int64 v.
Proof. unfold getLongLongFromObject. pose proof (string2ll_spec a []) as H. by rewrite app_nil_r in H. Qed.

Lemma getLongLong_num a v : IsDec a v -> in_int64 v -> getLongLongFromObject a = Some (Some v).
Proof. intros Hd Hv. destruct (getLongLong_ok a) as (r & -> & Hr). f_equal. by apply Hr. Qed.

Definition offset_ok (obey : bool) (max off : Z) : Prop :=
  0 <= off <= INT64_MAX /\ (obey = true \/ off / 8 < max).

Lemma offset_check obey max off :
  (off <? 0) || (negb obey && (Z.shiftr off 3 >=? max)) = false <-> 0 <= off /\ (obey = true \/ off / 8 < max).
Proof.
  rewrite Z.shiftr_div_pow2 by lia. change (2 ^ 3) with 8.
  destruct obey; simpl; rewrite ?orb_false_r; split; intros; [split; [lia|by left]|lia|split; [lia|right; lia]|].
  destruct H as [? [?|?]]; [done|lia].
Qed.

(** A plain offset, as SETBIT and GETBIT take it. *)
Lemma getBitOffset_plain obey max a :
  exists r, getBitOffsetFromArgument obey max a false 0 = Some r /\
    forall off, r = Some off <-> IsDec a off /\ offset_ok obey max off.
Proof.
  unfold getBitOffsetFromArgument. rewrite andb_false_r. cbn [andb]. change (drop (Z.to_nat 0) a) with a.
  rewrite Z.sub_0_r. destruct (getLongLong_ok a) as (r & E & Hr). unfold getLongLongFromObject in E. rewrite E.
  cbn [mbind option_bind]. destruct r as [v|].
  - pose proof (offset_check obey max v) as Hc. destruct (Hr v) as [Hv _]. specialize (Hv eq_refl) as [Hd Hi].
    destruct (_ || _).
    + eexists. split; [done|]. intros off. split; [done|]. intros (Hd' & [Ho Ho']). exfalso.
      assert (v = off) as ->. { assert (Some v = Some off) as [= ->]; [|done]. apply Hr. split; [done|].
        unfold in_int64. unfold_limits. lia. }
      assert (true = false) by (apply Hc; split; [lia|done]). done.
    + eexists. split; [done|]. intros off. split.
      * intros [= <-]. split; [done|]. destruct Hc as [Hc _]. destruct (Hc eq_refl). unfold offset_ok.
        split; [|done]. unfold in_int64 in Hi. lia.
      * intros (Hd' & [Ho Ho']). apply Hr. split; [done|]. unfold in_int64. unfold_limits. lia.
  - eexists. split; [done|]. intros off. split; [done|]. intros (Hd' & [Ho Ho']).
    apply Hr. split; [done|]. unfold in_int64. unfold_limits. lia.
Qed.

Lemma getBitOffset_num obey max a off :
  IsDec a off -> offset_ok obey max off -> getBitOffsetFromArgument obey max a false 0 = Some (Some off).
Proof. intros Hd Ho. destruct (getBitOffset_plain obey max a) as (r & -> & Hr). f_equal. by apply Hr. Qed.

(** ** SETBIT and GETBIT *)

Lemma byte_test byte i :
  0 <= i -> (if negb (Z.land byte (Z.shiftl 1 (7 - i mod 8)) =? 0) then 1 else 0) = Z.b2z (Z.testbit byte (7 - i mod 8)).
Proof.
  intros Hi. rewrite Z.land_comm, Z.shiftl_1_l, land_pow2_test by div_lia. done.
Qed.

Section SingleBit.
Variables (obey : bool) (max : Z) (a2 : list Z) (off : Z).
Hypothesis Harg : IsDec a2 off.
Hypothesis Hoff : offset_ok obey max off.

Lemma setbit_spec c k a3 o s b :
  IsDec a3 (Z.b2z b) -> holds o s -> bytes s ->
  exists s', setbitCommand obey max [c; k; a2; a3] o = Some {|
      out_reply := RInt (Z.b2z (bit_at s off));
      out_value := Some (StringObj (Sds s'));
      out_dirty := if bool_decide (o = None) || (zlen s <? off / 8 + 1) || negb (Bool.eqb (bit_at s off) b)
                   then 1 else 0 |} /\
    zlen s' = Z.max (zlen s) (off / 8 + 1) /\ bytes s' /\
    forall i, 0 <= i -> bit_at s' i = if i =? off then b else bit_at s i.
Proof.
  intros H3 Ho Hs. destruct Hoff as [Hr _]. unfold setbitCommand. cbn [lookup list_lookup mbind option_bind].
  rewrite (getBitOffset_num obey max a2 off Harg Hoff), (getLongLong_num a3 (Z.b2z b) H3)
    by (unfold in_int64; unfold_limits; destruct b; simpl; lia).
  cbn [mbind option_bind]. replace (negb (Z.land (Z.b2z b) (Z.lnot 1) =? 0)) with false by (by destruct b).
  destruct (lookupStringForBitCommand_ok o s off Ho Hs) as (s1 & n & -> & E1 & Hz & Hb1); [lia|].
  cbn [mbind option_bind]. destruct (bit_position off) as [-> ->]; [lia|].
  pose proof (zlen_nonneg s). destruct (getb_is_Some s1 (off / 8)) as [b0 Hb0]; [div_lia|].
  rewrite Hb0. cbn [mbind option_bind].
  rewrite byte_test by lia. rewrite <- (bit_at_lookup s1 off b0) by (lia || done).
  assert (bit_at s1 off = bit_at s off) as -> by (rewrite E1; apply bit_at_app_zeros).
  assert (negb (Z.b2z (bit_at s off) =? Z.b2z b) = negb (Bool.eqb (bit_at s off) b)) as ->
    by (by destruct (bit_at s off), b).
  assert (match o with None => true | Some _ => zlen s <? off / 8 + 1 end = bool_decide (o = None) || (zlen s <? off / 8 + 1)) as ->
    by (by destruct o).
  destruct (_ || _) eqn:Hd; cbn iota.
  - destruct (bits_of_setb s1 off b0 b) as (s' & Hs' & Eb & Hb' & Hz'); [lia|done|done|].
    unfold byte_set_bit in Hs'. rewrite land_255 in Hs'. replace (Z.land (Z.b2z b) 1) with (Z.b2z b) by (by destruct b).
    unfold wrapu. change (2 ^ 8) with 256. rewrite Hs'. cbn [mbind option_bind].
    exists s'. split; [done|]. split; [lia|]. split; [done|]. intros i Hi.
    rewrite (bit_at_insert s1 s' off b) by (done || div_lia). by rewrite E1, bit_at_app_zeros.
  - exists s1. split; [done|]. split; [done|]. split; [done|]. intros i Hi. rewrite E1, bit_at_app_zeros.
    destruct (Z.eqb_spec i off) as [->|]; [|done]. apply orb_false_iff in Hd as [_ Hd].
    by destruct (bit_at s off), b.
Qed.

Lemma getbit_spec c k o s :
  holds o s ->
  getbitCommand obey max [c; k; a2] o = Some {| out_reply := RInt (Z.b2z (bit_at s off)); out_value := o; out_dirty := 0 |}.
Proof.
  intros Ho. destruct Hoff as [Hr _]. unfold getbitCommand. cbn [lookup list_lookup mbind option_bind].
  rewrite (getBitOffset_num obey max a2 off Harg Hoff). cbn [mbind option_bind].
  destruct (bit_position off) as [-> ->]; [lia|].
  assert (forall s', s' = s ->
    (if off / 8 <? zlen s' then b ← getb s' (off / 8); answer o (if negb (Z.land b (Z.shiftl 1 (7 - off mod 8)) =? 0) then 1 else 0)
     else answer o 0) = Some {| out_reply := RInt (Z.b2z (bit_at s off)); out_value := o; out_dirty := 0 |}) as Hbit.
  { intros s' ->. destruct (Z.ltb_spec (off / 8) (zlen s)).
    - destruct (getb_is_Some s (off / 8)) as [b Hb]; [div_lia|]. rewrite Hb. cbn [mbind option_bind].
      rewrite byte_test by lia. by rewrite <- (bit_at_lookup s off b) by (lia || done).
    - rewrite bit_at_beyond by div_lia. done. }
  destruct o as [[[s'|n]|t]|]; simpl checkType; cbn iota; [| |done|].
  - cbn [mbind option_bind]. by apply Hbit.
  - destruct Ho as [Hn Hd]. rewrite (int_text_ok 32 s n) by (done || lia). cbn [mbind option_bind]. by apply Hbit.
  - simpl in Ho. subst s. by rewrite bit_at_beyond by (unfold zlen; simpl; lia).
Qed.
End SingleBit.

(** ** Ranges of bits: BITCOUNT and BITPOS

    Both commands work on whole bytes and mask the bits of the first and the last byte that are
    outside the range.  They are proved equal to counting and searching in the slice of the list
    of bits. *)

(** The bits from [lo] to [hi]. *)
Definition bit_slice (s : list Z) (lo hi : Z) : list bool :=
  take (Z.to_nat (hi - lo + 1)) (drop (Z.to_nat lo) (bits_of s)).

(** Indexes counted from the end when negative and cut to the [n] units there are. *)
Definition norm_range (n start stop : Z) : Z * Z :=
  (Z.max 0 (if start <? 0 then n + start else start),
   Z.min (n - 1) (Z.max 0 (if stop <? 0 then n + stop else stop))).

(** ** The masks of the edges *)

Definition fmask (k : Z) : Z := Z.land (Z.lnot (Z.shiftl 1 (8 - k) - 1)) 0xFF.
Definition lmask (t : Z) : Z := Z.shiftl 1 t - 1.

(** A byte whose masked bits are no candidates for [b]. *)
Definition mask_byte (b : bool) (m x : Z) : Z := if b then Z.land x (u8 (Z.lnot m)) else Z.lor x m.

Lemma fmask_ok b k x :
  0 <= k < 8 -> is_byte x ->
  is_byte (fmask k) /\ (fmask k = 0 <-> k = 0) /\ is_byte (Z.land x (fmask k)) /\ is_byte (mask_byte b (fmask k) x) /\
  ones (num_bits 8 (Z.land x (fmask k))) = ones (take (Z.to_nat k) (num_bits 8 x)) /\
  num_bits 8 (mask_byte b (fmask k) x) = replicate (Z.to_nat k) (negb b) ++ drop (Z.to_nat k) (num_bits 8 x).
Proof.
  intros Hk Hx.
  assert (forallb (fun k => forallb (fun x =>
    bool_decide (0 <= fmask k < 256) && Bool.eqb (fmask k =? 0) (k =? 0) &&
    bool_decide (0 <= Z.land x (fmask k) < 256) && bool_decide (0 <= mask_byte b (fmask k) x < 256) &&
    (ones (num_bits 8 (Z.land x (fmask k))) =? ones (take (Z.to_nat k) (num_bits 8 x))) &&
    bool_decide (num_bits 8 (mask_byte b (fmask k) x) = replicate (Z.to_nat k) (negb b) ++ drop (Z.to_nat k) (num_bits 8 x)))
      (seqZ 0 256)) (seqZ 0 8) = true) as H by (destruct b; vm_compute; reflexivity).
  apply (forallb_range _ 8 k) in H; [|done]. apply (forallb_range _ 256 x) in H; [|done].
  rewrite !andb_true_iff, !bool_decide_eq_true, Z.eqb_eq in H.
  destruct H as (((((H1 & H2) & H3) & H4) & H5) & H6). split_and!; try done.
  apply Bool.eqb_prop in H2. lia.
Qed.

Lemma lmask_ok b t x :
  0 <= t < 8 -> is_byte x ->
  is_byte (lmask t) /\ (lmask t = 0 <-> t = 0) /\ is_byte (Z.land x (lmask t)) /\ is_byte (mask_byte b (lmask t) x) /\
  ones (num_bits 8 (Z.land x (lmask t))) = ones (drop (8 - Z.to_nat t) (num_bits 8 x)) /\
  num_bits 8 (mask_byte b (lmask t) x) = take (8 - Z.to_nat t) (num_bits 8 x) ++ replicate (Z.to_nat t) (negb b).
Proof.
  intros Hk Hx.
  assert (forallb (fun t => forallb (fun x =>
    bool_decide (0 <= lmask t < 256) && Bool.eqb (lmask t =? 0) (t =? 0) &&
    bool_decide (0 <= Z.land x (lmask t) < 256) && bool_decide (0 <= mask_byte b (lmask t) x < 256) &&
    (ones (num_bits 8 (Z.land x (lmask t))) =? ones (drop (8 - Z.to_nat t) (num_bits 8 x))) &&
    bool_decide (num_bits 8 (mask_byte b (lmask t) x) = take (8 - Z.to_nat t) (num_bits 8 x) ++ replicate (Z.to_nat t) (negb b)))
      (seqZ 0 256)) (seqZ 0 8) = true) as H by (destruct b; vm_compute; reflexivity).
  apply (forallb_range _ 8 t) in H; [|done]. apply (forallb_range _ 256 x) in H; [|done].
  rewrite !andb_true_iff, !bool_decide_eq_true, Z.eqb_eq in H.
  destruct H as (((((H1 & H2) & H3) & H4) & H5) & H6). split_and!; try done.
  apply Bool.eqb_prop in H2. lia.
Qed.

(** ** A range and the bytes it touches *)

(** The index computation in one formula: units of one bit or of eight. *)
Definition unit_bits (isbit : bool) : Z := if isbit then 1 else 8.

Lemma bit_range_ok (isbit : bool) len start stop lo hi :
  0 <= len -> norm_range (if isbit then 8 * len else len) start stop = (lo, hi) ->
  (hi < lo -> exists a e f l, bit_range isbit len start stop = (a, e, f, l) /\ e < a) /\
  (lo <= hi ->
    let LO := unit_bits isbit * lo in let HI := unit_bits isbit * (hi + 1) - 1 in
    0 <= LO <= HI /\ HI < 8 * len /\
    bit_range isbit len start stop = (LO / 8, HI / 8, fmask (LO mod 8), lmask (7 - HI mod 8))).
Proof.
  intros Hlen E. unfold norm_range in E. injection E as E1 E2. unfold bit_range.
  assert ((if isbit then Z.shiftl len 3 else len) = (if isbit then 8 * len else len)) as ->.
  { destruct isbit; [|done]. rewrite Z.shiftl_mul_pow2 by lia. change (2 ^ 3) with 8. lia. }
  set (n := if isbit then 8 * len else len) in *. cbv zeta.
  set (s1 := if start <? 0 then n + start else start) in *. set (e1 := if stop <? 0 then n + stop else stop) in *.
  assert ((if s1 <? 0 then 0 else s1) = lo) as -> by (destruct (Z.ltb_spec s1 0); lia).
  assert ((if (if e1 <? 0 then 0 else e1) >=? n then n - 1 else if e1 <? 0 then 0 else e1) = hi) as ->.
  { rewrite Z.geb_leb. destruct (Z.ltb_spec e1 0); [destruct (Z.leb_spec n 0)|destruct (Z.leb_spec n e1)]; lia. }
  split; intros Hle.
  - replace (lo <=? hi) with false by lia. rewrite andb_false_r. by eexists _, _, _, _.
  - replace (lo <=? hi) with true by lia. rewrite andb_true_r. unfold unit_bits. destruct isbit; cbv zeta.
    + split; [lia|]. split; [lia|]. rewrite !Z.mul_1_l, Z.add_simpl_r, !Z.shiftr_div_pow2 by lia.
      assert (forall x, Z.land x 7 = x mod 8) as H7 by (intros; change 7 with (Z.ones 3); by apply Z.land_ones).
      by rewrite !H7.
    + split; [lia|]. split; [lia|].
      replace ((8 * lo) / 8) with lo by div_lia. replace ((8 * (hi + 1) - 1) / 8) with hi by div_lia.
      replace ((8 * lo) mod 8) with 0 by div_lia. replace (7 - (8 * (hi + 1) - 1) mod 8) with 0 by div_lia. done.
Qed.

Lemma length_bits_of s : length (bits_of s) = (8 * length s)%nat.
Proof. pose proof (zlen_bits_of s) as H. unfold zlen in H. lia. Qed.

Lemma take_bits_of x m k : (k <= 8)%nat -> take k (bits_of (x :: m)) = take k (num_bits 8 x).
Proof. intros Hk. rewrite bits_of_cons, take_app_le by (rewrite length_num_bits; lia). done. Qed.

Lemma drop_bits_of m y t :
  (t <= 8)%nat -> drop (8 * length (m ++ [y]) - t) (bits_of (m ++ [y])) = drop (8 - t) (num_bits 8 y).
Proof.
  intros Ht. rewrite bits_of_app, bits_of_cons, app_nil_r, length_app. simpl length.
  replace (8 * (length m + 1) - t)%nat with (length (bits_of m) + (8 - t))%nat by (rewrite length_bits_of; lia).
  rewrite drop_app_ge by lia. f_equal. lia.
Qed.

Lemma ones_split l k t :
  (k + t <= length l)%nat ->
  ones l = ones (take k l) + ones (take (length l - k - t) (drop k l)) + ones (drop (length l - t) l).
Proof.
  intros H. rewrite <- (take_drop k l) at 1. rewrite ones_app.
  rewrite <- (take_drop (length l - k - t) (drop k l)) at 1. rewrite ones_app, drop_drop.
  replace (k + (length l - k - t))%nat with (length l - t)%nat by lia. lia.
Qed.

(** Masking the edges replaces the bits outside the range by ones that are no candidates. *)
Lemma mask_first_bits b k x m :
  0 <= k < 8 -> is_byte x ->
  bits_of (mask_byte b (fmask k) x :: m) = replicate (Z.to_nat k) (negb b) ++ drop (Z.to_nat k) (bits_of (x :: m)).
Proof.
  intros Hk Hx. destruct (fmask_ok b k x Hk Hx) as (_ & _ & _ & _ & _ & E).
  rewrite !bits_of_cons, E, drop_app_le, <- app_assoc by (rewrite length_num_bits; lia). done.
Qed.

Lemma mask_last_bits b t y m :
  0 <= t < 8 -> is_byte y ->
  bits_of (m ++ [mask_byte b (lmask t) y]) =
    take (8 * length (m ++ [y]) - Z.to_nat t) (bits_of (m ++ [y])) ++ replicate (Z.to_nat t) (negb b).
Proof.
  intros Ht Hy. destruct (lmask_ok b t y Ht Hy) as (_ & _ & _ & _ & _ & E).
  rewrite !bits_of_app, !bits_of_cons, !app_nil_r, E, length_app. simpl length.
  replace (8 * (length m + 1) - Z.to_nat t)%nat with (length (bits_of m) + (8 - Z.to_nat t))%nat by (rewrite length_bits_of; lia).
  rewrite take_app_ge, <- app_assoc by lia. do 3 f_equal. lia.
Qed.

Lemma bit_index_surround b k l t :
  bit_index b (replicate k (negb b) ++ l ++ replicate t (negb b)) = Z.add (Z.of_nat k) <$> bit_index b l.
Proof.
  rewrite bit_index_app, bit_index_replicate, bit_index_app, bit_index_replicate.
  unfold zlen. rewrite length_replicate. by destruct (bit_index b l).
Qed.

Section Range.
Variables (s a m c : list Z) (LO HI : Z).
Hypothesis Hs : s = a ++ m ++ c.
Hypothesis Hbytes : bytes s.
Hypothesis Hlo : 0 <= LO <= HI.
Hypothesis Ha : zlen a = LO / 8.
Hypothesis Hm : zlen m = HI / 8 - LO / 8 + 1.

Let k := LO mod 8.
Let t := 7 - HI mod 8.

Lemma range_edges : 0 <= k < 8 /\ 0 <= t < 8 /\ (Z.to_nat k + Z.to_nat t <= 8 * length m)%nat /\ 1 <= zlen m /\ bytes m.
Proof.
  unfold k, t. assert (1 <= zlen m) by div_lia.
  split; [div_lia|]. split; [div_lia|]. split; [unfold zlen in *; div_lia|]. split; [done|].
  rewrite Hs in Hbytes. apply Forall_app in Hbytes as [_ H']. by apply Forall_app in H' as [? _].
Qed.

Lemma slice_eq :
  bit_slice s LO HI = take (8 * length m - Z.to_nat k - Z.to_nat t) (drop (Z.to_nat k) (bits_of m)).
Proof.
  destruct range_edges as (Hk & Ht & Hkt & Hm1 & _). unfold bit_slice. rewrite Hs, !bits_of_app.
  replace (Z.to_nat LO) with (length (bits_of a) + Z.to_nat k)%nat
    by (rewrite length_bits_of; unfold zlen, k in *; div_lia).
  rewrite drop_app_ge by lia. replace (_ + _ - _)%nat with (Z.to_nat k) by lia.
  rewrite drop_app_le by (rewrite length_bits_of; unfold zlen in *; lia).
  rewrite take_app_le by (rewrite length_drop, length_bits_of; unfold zlen, k, t in *; div_lia).
  f_equal. unfold zlen, k, t in *. div_lia.
Qed.

Lemma range_first : exists x m1, m = x :: m1 /\ is_byte x /\ getb s (LO / 8) = Some x.
Proof.
  destruct range_edges as (_ & _ & _ & Hm1 & Hb). destruct m as [|x m1]; [by rewrite zlen_nil in Hm1|].
  exists x, m1. split; [done|]. apply Forall_cons in Hb as [Hx _]. split; [done|].
  rewrite Hs, <- Ha. by apply getb_mid.
Qed.

Lemma range_last : exists m2 y, m = m2 ++ [y] /\ is_byte y /\ getb s (HI / 8) = Some y.
Proof.
  destruct range_edges as (_ & _ & _ & Hm1 & Hb).
  destruct m as [|y m2 _] using rev_ind; [by rewrite zlen_nil in Hm1|].
  exists m2, y. split; [done|]. apply Forall_app in Hb as [_ Hy]. apply Forall_cons in Hy as [Hy _].
  split; [done|]. rewrite Hs, <- app_assoc, app_assoc. apply getb_mid.
  rewrite zlen_app. rewrite zlen_app, zlen_cons, zlen_nil in Hm. lia.
Qed.

(** ** Counting *)

Lemma bitcount_bytes_ok be addr tmp :
  zlen s < 2 ^ 59 ->
  bitcount_bytes be addr tmp s (LO / 8) (HI / 8) (fmask k) (lmask t) = Some (ones (bit_slice s LO HI)).
Proof.
  intros Hlen. destruct range_edges as (Hk & Ht & Hkt & Hm1 & Hbm). rewrite slice_eq.
  destruct range_first as (x & m1 & Ex & Hx & Gx). destruct range_last as (m2 & y & Ey & Hy & Gy).
  unfold bitcount_bytes. rewrite <- Hm, <- Ha. rewrite Hs at 1.
  rewrite redisPopcount_spec by (done || (rewrite Hs in Hlen; len_lia)). cbn [mbind option_bind].
  pose proof (ones_split (bits_of m) (Z.to_nat k) (Z.to_nat t)) as Ho. rewrite length_bits_of in Ho.
  specialize (Ho Hkt). unfold popc. rewrite Ho.
  assert (ones (take (Z.to_nat k) (bits_of m)) = ones (take (Z.to_nat k) (num_bits 8 x))) as E1
    by (rewrite Ex, take_bits_of; [done|lia]).
  assert (ones (drop (8 * length m - Z.to_nat t) (bits_of m)) = ones (drop (8 - Z.to_nat t) (num_bits 8 y))) as E2
    by (rewrite Ey, drop_bits_of; [done|lia]).
  destruct (fmask_ok true k x Hk Hx) as (_ & Hf0 & Hfb & _ & Hf & _).
  destruct (lmask_ok true t y Ht Hy) as (_ & Hl0 & Hlb & _ & Hl & _).
  rewrite <- Ha in Gx. rewrite Gx, Gy. cbn [mbind option_bind].
  assert (forall f l, is_byte f -> is_byte l -> redisPopcount be tmp [f; l] 0 2 =
    Some (ones (num_bits 8 f) + ones (num_bits 8 l))) as Hp.
  { intros f l Hff Hll. pose proof (redisPopcount_spec be tmp [] [f; l] []) as H. simpl app in H.
    change (zlen (@nil Z)) with 0 in H. change (zlen [f; l]) with 2 in H. rewrite H; [|bytes_list|done].
    unfold popc. rewrite !bits_of_cons, !ones_app. simpl. f_equal. lia. }
  destruct (Z.eqb_spec (fmask k) 0) as [F0|F0], (Z.eqb_spec (lmask t) 0) as [L0|L0]; cbn [negb orb mbind option_bind].
  - assert (k = 0) as K0 by (by apply Hf0). assert (t = 0) as T0 by (by apply Hl0).
    rewrite E1, E2, K0, T0. simpl Z.to_nat. rewrite take_0. f_equal.
    rewrite (drop_ge (num_bits 8 y)) by (rewrite length_num_bits; lia). simpl. lia.
  - assert (k = 0) as K0 by (by apply Hf0). rewrite Hp by done. cbn [mbind option_bind]. f_equal.
    rewrite E1, E2, <- Hl, K0. simpl (Z.to_nat 0). rewrite take_0, num_bits_0. simpl. lia.
  - assert (t = 0) as T0 by (by apply Hl0). rewrite Hp by done. cbn [mbind option_bind]. f_equal.
    rewrite E1, E2, <- Hf, T0, (drop_ge (num_bits 8 y)) by (rewrite length_num_bits; simpl; lia).
    rewrite num_bits_0. simpl. lia.
  - rewrite Hp by done. cbn [mbind option_bind]. f_equal. rewrite E1, E2, <- Hf, <- Hl. lia.
Qed.

(** ** Searching *)

(** The bytes of the range with the edges masked. *)
Lemma masked_bytes b :
  exists m', bits_of m' = replicate (Z.to_nat k) (negb b) ++ bit_slice s LO HI ++ replicate (Z.to_nat t) (negb b) /\
    bytes m' /\ zlen m' = zlen m /\
    match m with
    | [] => False
    | [x] => m' = [mask_byte b (lmask t) (mask_byte b (fmask k) x)]
    | x :: rest => exists mid y, rest = mid ++ [y] /\ m' = mask_byte b (fmask k) x :: mid ++ [mask_byte b (lmask t) y]
    end.
Proof.
  destruct range_edges as (Hk & Ht & Hkt & Hm1 & Hbm). rewrite slice_eq.
  destruct range_first as (x & m1 & Ex & Hx & _).
  destruct (fmask_ok b k x Hk Hx) as (_ & _ & _ & Hfx & _).
  pose proof (mask_first_bits b k x m1 Hk Hx) as Ef. rewrite <- Ex in Ef.
  rewrite Ex in Hbm. apply Forall_cons in Hbm as [_ Hb1].
  assert (exists m2 y, mask_byte b (fmask k) x :: m1 = m2 ++ [y] /\ is_byte y /\ bytes m2 /\
    match m with
    | [] => False
    | [x] => m2 ++ [mask_byte b (lmask t) y] = [mask_byte b (lmask t) (mask_byte b (fmask k) x)]
    | x :: rest => exists mid y', rest = mid ++ [y'] /\
        m2 ++ [mask_byte b (lmask t) y] = mask_byte b (fmask k) x :: mid ++ [mask_byte b (lmask t) y']
    end) as (m2 & y & E2 & Hy & Hb2 & Hform).
  { destruct m1 as [|z m1 _] using rev_ind.
    - exists [], (mask_byte b (fmask k) x). rewrite Ex. by split_and!.
    - exists (mask_byte b (fmask k) x :: m1), z. apply Forall_app in Hb1 as [Hb1 Hz].
      apply Forall_cons in Hz as [Hz _]. split; [done|]. split; [done|]. split; [by constructor|].
      rewrite Ex. destruct (m1 ++ [z]) eqn:E; [by destruct m1|]. rewrite <- E. by exists m1, z. }
  pose proof (mask_last_bits b t y m2 Ht Hy) as El. rewrite <- E2 in El.
  exists (m2 ++ [mask_byte b (lmask t) y]). split_and!; [| | |done].
  - rewrite El, Ef. cbn [length]. replace (S (length m1)) with (length m) by (by rewrite Ex).
    rewrite take_app_ge, length_replicate, <- app_assoc by (rewrite length_replicate; lia).
    do 3 f_equal. lia.
  - apply Forall_app. split; [done|]. apply Forall_cons. split; [|by apply Forall_nil]. by apply lmask_ok.
  - assert (zlen (m2 ++ [y]) = zlen m) as <- by (by rewrite <- E2, Ex, !zlen_cons).
    by rewrite !zlen_app, !zlen_cons.
Qed.

(** What a search has to answer. *)
Definition search_ok (b : bool) (r : Z * Z * Z) : Prop :=
  let '(pos, start, bytes) := r in
  0 <= start /\ start + bytes = HI / 8 + 1 /\
  match bit_index b (bit_slice s LO HI) with
  | Some q => 0 <= pos < 8 * bytes /\ pos + 8 * start = LO + q
  | None => pos = if b then -1 else 8 * bytes
  end.

(** The search may end at [w] when it holds a candidate or is the end of the range. *)
Lemma search_end b d w r start bytes :
  bits_of (d ++ w ++ r) = replicate (Z.to_nat k) (negb b) ++ bit_slice s LO HI ++ replicate (Z.to_nat t) (negb b) ->
  bit_index b (bits_of d) = None -> (bit_index b (bits_of w) = None -> r = []) ->
  start = LO / 8 + zlen d -> bytes = zlen w + zlen r -> start + bytes = HI / 8 + 1 ->
  search_ok b (bitpos_val b (bits_of w), start, bytes).
Proof.
  intros E Hd Hr -> -> Hsum. pose proof (zlen_nonneg d). pose proof (zlen_nonneg r).
  split; [div_lia|]. split; [done|]. pose proof (bit_index_surround b (Z.to_nat k) (bit_slice s LO HI) (Z.to_nat t)) as Hi.
  rewrite <- E, !bits_of_app, bit_index_app, Hd, bit_index_app, zlen_bits_of in Hi.
  destruct range_edges as (Hk & _). unfold bitpos_val.
  destruct (bit_index b (bits_of w)) as [p|] eqn:Ew.
  - pose proof (bit_index_range _ _ _ Ew) as Hp. rewrite zlen_bits_of in Hp.
    destruct (bit_index b (bit_slice s LO HI)) as [q|]; [|done]. simpl in Hi. injection Hi as Hi.
    split; [lia|]. unfold k in *. div_lia.
  - rewrite (Hr eq_refl) in *. simpl in Hi. destruct (bit_index b (bit_slice s LO HI)); [done|].
    rewrite zlen_bits_of, zlen_nil, Z.add_0_r. done.
Qed.

Lemma bitpos_val_found b w :
  negb (bitpos_val b (bits_of w) =? -1) && negb (bitpos_val b (bits_of w) =? 8 * zlen w) =
    match bit_index b (bits_of w) with Some _ => true | None => false end.
Proof.
  unfold bitpos_val. rewrite zlen_bits_of. pose proof (zlen_nonneg w). destruct (bit_index b (bits_of w)) eqn:E.
  - apply bit_index_range in E. rewrite zlen_bits_of in E. lia.
  - destruct b; lia.
Qed.

Lemma mask_edge_eq b mk x : mask_edge (Z.b2z b) mk x = mask_byte b mk x.
Proof. by destruct b. Qed.

Lemma redisBitpos_byte be tmp b x :
  is_byte x -> redisBitpos be tmp [x] 0 1 (Z.b2z b) = Some (bitpos_val b (bits_of [x])).
Proof.
  intros Hx. pose proof (redisBitpos_spec be tmp [] [x] [] b) as H. apply H; [bytes_list|done].
Qed.

Lemma mask_byte_0 b x : is_byte x -> mask_byte b 0 x = x.
Proof.
  intros Hx. unfold mask_byte. destruct b; [|apply Z.lor_0_r].
  change (u8 (Z.lnot 0)) with 255. rewrite land_255. by apply Z.mod_small.
Qed.

Section Search.
Variables (be : bool) (addr tmp : Z) (b : bool).
Hypothesis Hlen : zlen s < 2 ^ 59.

Section Rest.
Variables (d mid : list Z) (y : Z) (a2 c2 : list Z) (start nb : Z).
Hypothesis Ebits : bits_of (d ++ mid ++ [mask_byte b (lmask t) y]) =
  replicate (Z.to_nat k) (negb b) ++ bit_slice s LO HI ++ replicate (Z.to_nat t) (negb b).
Hypothesis Hd : bit_index b (bits_of d) = None.
Hypothesis Es : s = a2 ++ mid ++ y :: c2.
Hypothesis Ha2 : zlen a2 = start.
Hypothesis Hst : start = LO / 8 + zlen d.
Hypothesis Hnb : nb = zlen mid + 1.
Hypothesis Hsum : start + nb = HI / 8 + 1.

Lemma rest_bytes : bytes mid /\ is_byte y /\ getb s (HI / 8) = Some y /\ 0 <= zlen mid.
Proof.
  pose proof Hbytes as H'. rewrite Es in H'. apply Forall_app in H' as [_ H']. apply Forall_app in H' as [? H'].
  apply Forall_cons in H' as [? _]. split_and!; [done|done| |apply zlen_nonneg].
  rewrite Es, app_assoc. apply getb_mid. rewrite zlen_app. lia.
Qed.

(** No mask at the end: one search over all bytes left. *)
Lemma rest_unmasked :
  lmask t = 0 ->
  redisBitpos be addr s start nb (Z.b2z b) = Some (bitpos_val b (bits_of (mid ++ [y]))) /\
  search_ok b (bitpos_val b (bits_of (mid ++ [y])), start, nb).
Proof.
  intros L0. destruct rest_bytes as (Hbm & Hy & _ & Hmid). split.
  - pose proof (redisBitpos_spec be addr a2 (mid ++ [y]) c2 b) as Hp.
    assert (a2 ++ (mid ++ [y]) ++ c2 = s) as Es' by (by rewrite Es, <- !app_assoc). rewrite Es', Ha2 in Hp.
    replace (zlen (mid ++ [y])) with nb in Hp by len_lia. apply Hp.
    + apply Forall_app. split; [done|]. bytes_list.
    + rewrite Es in Hlen. rewrite Hnb. len_lia.
  - rewrite L0, mask_byte_0 in Ebits by done.
    apply (search_end b d (mid ++ [y]) []); rewrite ?app_nil_r; try done. len_lia.
Qed.

(** With a mask: the search over the whole bytes finds a bit or leaves the last byte. *)
Lemma rest_middle :
  exists r, (if nb - 1 >? 0 then
      pos ← redisBitpos be addr s start (nb - 1) (Z.b2z b);
      if (nb =? nb - 1) || (negb (pos =? -1) && negb (pos =? Z.shiftl (nb - 1) 3))
      then Some (inr (pos, start, nb)) else Some (inl (start + (nb - 1), nb - (nb - 1)))
    else Some (inl (start, nb))) = Some r /\
    match r with
    | inl st => st = (HI / 8, 1) /\ bit_index b (bits_of mid) = None
    | inr res => search_ok b res
    end.
Proof.
  destruct rest_bytes as (Hbm & Hy & _ & Hmid). destruct (decide (nb = 1)) as [E1|Hne].
  - assert (mid = []) as Emid by (destruct mid; [done|rewrite zlen_cons in *; zlen_saturate; lia]).
    rewrite E1. eexists. split; [done|]. rewrite Emid. split; [f_equal; lia|done].
  - replace (nb - 1 >? 0) with true by lia.
    pose proof (redisBitpos_spec be addr a2 mid (y :: c2) b) as Hp. rewrite <- Es, Ha2 in Hp.
    replace (nb - 1) with (zlen mid) by lia. rewrite Hp by (done || (rewrite Es in Hlen; len_lia)).
    cbn [mbind option_bind]. replace (nb =? zlen mid) with false by lia. cbn [orb].
    rewrite Z.shiftl_mul_pow2, (Z.mul_comm _ (2 ^ 3)) by lia. change (2 ^ 3) with 8. rewrite bitpos_val_found.
    destruct (bit_index b (bits_of mid)) eqn:Em; eexists; (split; [done|]); cbn iota.
    + apply (search_end b d mid [mask_byte b (lmask t) y]); try done.
      by rewrite Em.
    + split; [f_equal; lia|done].
Qed.

Lemma bitpos_rest_ok :
  exists r, bitpos_rest be addr tmp s start nb (HI / 8) (Z.b2z b) (lmask t) = Some r /\ search_ok b r.
Proof.
  destruct range_edges as (_ & Ht & _). destruct rest_bytes as (Hbm & Hy & Hg & Hmid).
  destruct (lmask_ok b t y Ht Hy) as (_ & Hl0 & _ & Hmb & _). unfold bitpos_rest.
  destruct (Z.eqb_spec (lmask t) 0) as [L0|L0]; cbn [negb].
  - rewrite Z.sub_0_r. replace (nb >? 0) with true by lia. destruct (rest_unmasked L0) as [-> Hok].
    cbn [mbind option_bind]. rewrite Z.eqb_refl. by eexists.
  - destruct rest_middle as (r & -> & Hr). cbn [mbind option_bind]. destruct r as [st|res]; [|by exists res].
    destruct Hr as [-> Hm0]. rewrite Hg. cbn [mbind option_bind].
    rewrite mask_edge_eq, redisBitpos_byte by done. cbn [mbind option_bind]. eexists. split; [done|].
    pose proof Ebits as E. rewrite app_assoc in E.
    apply (search_end b (d ++ mid) [mask_byte b (lmask t) y] []); rewrite ?app_nil_r; try done.
    + by rewrite bits_of_app, bit_index_app, Hd, Hm0.
    + rewrite zlen_app. lia.
Qed.
End Rest.

Lemma bitpos_search_ok :
  exists r, bitpos_search be addr tmp s (LO / 8) (HI / 8) (Z.b2z b) (fmask k) (lmask t) = Some r /\ search_ok b r.
Proof.
  destruct range_edges as (Hk & Ht & _ & Hm1 & Hbm). destruct (masked_bytes b) as (m' & E & Hb' & Hz & Hform).
  destruct range_first as (x & m1 & Ex & Hx & Gx). destruct (fmask_ok b k x Hk Hx) as (_ & Hf0 & _ & Hfx & _).
  unfold bitpos_search. rewrite <- Hm. rewrite Ex in Hform.
  destruct m1 as [|x2 m1'] eqn:Em1.
  - destruct (lmask_ok b t (mask_byte b (fmask k) x) Ht Hfx) as (_ & _ & _ & Hlx & _).
    replace (zlen m) with 1 by (by rewrite Ex). rewrite Z.eqb_refl, andb_true_r. cbn [orb].
    destruct (Z.eqb_spec (fmask k) 0) as [F0|F0]; cbn [negb].
    + apply (bitpos_rest_ok [] [] x a c); try done.
      * simpl. rewrite Hform, F0, mask_byte_0 in E by done. done.
      * by rewrite Hs, Ex.
      * change (zlen (@nil Z)) with 0. lia.
      * rewrite Ex in Hm. change (zlen [x]) with 1 in Hm. lia.
    + rewrite Gx. cbn [mbind option_bind]. rewrite !mask_edge_eq.
      replace (if negb (lmask t =? 0) then _ else _) with (mask_byte b (lmask t) (mask_byte b (fmask k) x))
        by (destruct (Z.eqb_spec (lmask t) 0) as [->|]; [by apply mask_byte_0|done]).
      rewrite redisBitpos_byte by done. cbn [mbind option_bind]. eexists. split; [done|]. subst m'.
      apply (search_end b [] [mask_byte b (lmask t) (mask_byte b (fmask k) x)] []); try done.
      * change (zlen (@nil Z)) with 0. lia.
      * rewrite Ex in Hm. change (zlen [x]) with 1 in Hm. lia.
  - destruct Hform as (mid & y & Emid & ->). rewrite Emid in Ex.
    assert (zlen m = 2 + zlen mid) as Hzm by (rewrite Ex; len_lia). pose proof (zlen_nonneg mid).
    replace (zlen m =? 1) with false by lia. rewrite andb_false_r. cbn [orb].
    destruct (Z.eqb_spec (fmask k) 0) as [F0|F0]; cbn [negb].
    + apply (bitpos_rest_ok [] (x :: mid) y a c); try done.
      * simpl. rewrite F0, mask_byte_0 in E by done. done.
      * rewrite Hs, Ex. simpl. by rewrite <- app_assoc.
      * change (zlen (@nil Z)) with 0. lia.
      * rewrite zlen_cons. lia.
      * lia.
    + rewrite Gx. cbn [mbind option_bind]. rewrite mask_edge_eq, redisBitpos_byte by done. cbn [mbind option_bind].
      pose proof (bitpos_val_found b [mask_byte b (fmask k) x]) as Hv. change (8 * zlen [_]) with 8 in Hv. rewrite Hv.
      destruct (bit_index b (bits_of [mask_byte b (fmask k) x])) eqn:Ei.
      * eexists. split; [done|].
        apply (search_end b [] [mask_byte b (fmask k) x] (mid ++ [mask_byte b (lmask t) y])); try done.
        -- by rewrite Ei.
        -- change (zlen (@nil Z)) with 0. lia.
        -- len_lia.
        -- lia.
      * apply (bitpos_rest_ok [mask_byte b (fmask k) x] mid y (a ++ [x]) c); try done; try len_lia.
        rewrite Hs, Ex, <- !app_assoc. simpl. by rewrite <- app_assoc.
Qed.
End Search.
End Range.

(** ** The commands *)

(** The bits a range selects, in units of bits or bytes. *)
Definition range_bits (isbit : bool) (s : list Z) (start stop : Z) : list bool :=
  let '(lo, hi) := norm_range (if isbit then 8 * zlen s else zlen s) start stop in
  if hi <? lo then [] else bit_slice s (unit_bits isbit * lo) (unit_bits isbit * (hi + 1) - 1).

(** The first bit of the range. *)
Definition range_start (isbit : bool) (s : list Z) (start : Z) : Z :=
  unit_bits isbit * (norm_range (if isbit then 8 * zlen s else zlen s) start 0).1.

Definition bitcount_result (isbit : bool) (s : list Z) (start stop : Z) : Z :=
  if (start <? 0) && (stop <? 0) && (start >? stop) then 0 else ones (range_bits isbit s start stop).

(** The position of the first [b] in the range.  Without a given end the string is padded with
    zeroes; an empty range has no position. *)
Definition bitpos_result (b isbit end_given : bool) (s : list Z) (start stop : Z) : Z :=
  let l := range_bits isbit s start stop in
  if bool_decide (l = []) then -1
  else match bit_index b l with
       | Some q => range_start isbit s start + q
       | None => if b || end_given then -1 else 8 * zlen s
       end.

(** The unit argument, when there is one. *)
Definition unit_arg (rest : list (list Z)) (isbit : bool) : Prop :=
  match rest with
  | [] => isbit = false
  | [a] => parse_unit a = Some isbit
  | _ => False
  end.

Lemma bit_range_split (s : list Z) LO HI :
  0 <= LO <= HI -> HI < 8 * zlen s ->
  exists a m c, s = a ++ m ++ c /\ zlen a = LO / 8 /\ zlen m = HI / 8 - LO / 8 + 1.
Proof. intros H1 H2. apply mem_split; div_lia. Qed.

Section Commands.
Variables (be : bool) (addr tmp : Z) (s : list Z) (o : option robj) (v : option stringval).
Hypothesis Htype : checkType o = inr v.
Hypothesis Hholds : holds o s.
Hypothesis Hbytes : bytes s.
Hypothesis Hlen : zlen s < 2 ^ 59.

Let p := match v with Some _ => Some s | None => None end.

Lemma missing_empty : p = None -> s = [] /\ o = None.
Proof. unfold p. destruct o as [[w|]|]; simpl in *; by simplify_eq. Qed.

Lemma slice_length LO HI : 0 <= LO <= HI -> HI < 8 * zlen s -> length (bit_slice s LO HI) = Z.to_nat (HI - LO + 1).
Proof.
  intros H1 H2. unfold bit_slice. rewrite length_take, length_drop, length_bits_of. unfold zlen in *. lia.
Qed.

Lemma bitcount_reply_ok isbit start stop a e f l :
  bit_range isbit (zlen s) start stop = (a, e, f, l) ->
  bitcount_reply be addr tmp o p a e f l = answer o (ones (range_bits isbit s start stop)).
Proof.
  intros E. unfold range_bits. destruct (norm_range _ start stop) as [lo hi] eqn:En.
  destruct (bit_range_ok isbit (zlen s) start stop lo hi (zlen_nonneg s) En) as [H1 H2].
  unfold bitcount_reply. destruct p as [s'|] eqn:Ep.
  - assert (s' = s) as -> by (unfold p in Ep; by destruct v; simplify_eq).
    destruct (Z.ltb_spec hi lo) as [Hlt|Hle].
    + destruct (H1 Hlt) as (a' & e' & f' & l' & E' & ?). rewrite E in E'. simplify_eq.
      by replace (a' >? e') with true by lia.
    + destruct (H2 Hle) as (Hr & Hb & E'). rewrite E in E'. injection E' as -> -> -> ->.
      replace (_ >? _) with false by div_lia.
      destruct (bit_range_split s _ _ Hr Hb) as (a & m & c & Es & Ha & Hm).
      by rewrite (bitcount_bytes_ok s a m c _ _ Es Hbytes Hr Ha Hm).
  - destruct (missing_empty Ep) as [-> _]. destruct (hi <? lo); [done|].
    unfold bit_slice. change (bits_of []) with (@nil bool). by rewrite drop_nil, take_nil.
Qed.

Lemma bitpos_reply_ok b isbit end_given start stop a e f l :
  (end_given = false -> isbit = false /\ stop = zlen s - 1) ->
  bit_range isbit (zlen s) start stop = (a, e, f, l) ->
  bitpos_reply be addr tmp o p end_given a e (Z.b2z b) f l =
    answer o (match p with None => if b then -1 else 0 | Some _ => bitpos_result b isbit end_given s start stop end).
Proof.
  intros Hend E. unfold bitpos_result, range_bits.
  assert (range_start isbit s start = unit_bits isbit * (norm_range (if isbit then 8 * zlen s else zlen s) start stop).1) as Hrs
    by done.
  destruct (norm_range _ start stop) as [lo hi] eqn:En. simpl in Hrs.
  destruct (bit_range_ok isbit (zlen s) start stop lo hi (zlen_nonneg s) En) as [H1 H2].
  unfold bitpos_reply. destruct p as [s'|] eqn:Ep; [|by destruct b].
  assert (s' = s) as -> by (unfold p in Ep; by destruct v; simplify_eq).
  destruct (Z.ltb_spec hi lo) as [Hlt|Hle].
  - destruct (H1 Hlt) as (a' & e' & f' & l' & E' & ?). rewrite E in E'. simplify_eq.
    by replace (a' >? e') with true by lia.
  - destruct (H2 Hle) as (Hr & Hb & E'). rewrite E in E'. injection E' as -> -> -> ->.
    replace (_ >? _) with false by div_lia.
    destruct (bit_range_split s _ _ Hr Hb) as (a & m & c & Es & Ha & Hm).
    destruct (bitpos_search_ok s a m c _ _ Es Hbytes Hr Ha Hm be addr tmp b Hlen) as ([[pos st] nb] & -> & Hst & Hsum & Hres).
    cbn [mbind option_bind]. rewrite !Z.shiftl_mul_pow2 by lia. change (2 ^ 3) with 8.
    rewrite Hrs. set (LO := unit_bits isbit * lo) in *. set (HI := unit_bits isbit * (hi + 1) - 1) in *.
    assert (length (bit_slice s LO HI) = _) as HL by (by apply slice_length).
    rewrite bool_decide_eq_false_2 by (intros En0; rewrite En0 in HL; simpl in HL; lia). destruct (bit_index b (bit_slice s LO HI)) as [q|].
    + replace (end_given && (Z.b2z b =? 0) && (pos =? nb * 8)) with false by (destruct end_given, b; simpl; lia).
      replace (negb (pos =? -1)) with true by lia. f_equal. lia.
    + destruct b, end_given; cbn [Z.b2z andb orb Z.eqb]; subst pos; try done.
      * by replace (8 * nb =? nb * 8) with true by lia.
      * replace (negb (8 * nb =? -1)) with true by lia. f_equal. destruct (Hend eq_refl) as [-> ->].
        unfold norm_range in En. injection En as _ Ehi. pose proof (zlen_nonneg s).
        unfold HI, LO, unit_bits in *. destruct (Z.ltb_spec (zlen s - 1) 0); div_lia.
Qed.

Lemma bitcount_range_spec c k a2 a3 rest isbit start stop :
  IsDec a2 start -> in_int64 start -> IsDec a3 stop -> in_int64 stop -> unit_arg rest isbit ->
  bitcountCommand be addr tmp ([c; k; a2; a3] ++ rest) o = answer o (bitcount_result isbit s start stop).
Proof.
  intros H2 Hi2 H3 Hi3 Hu.
  assert (bitcountCommand be addr tmp ([c; k; a2; a3] ++ rest) o =
    match checkType o with
    | inl e => fail o e
    | inr v => '(p, totlen) ← getObjectReadOnlyString v;
        _ ← assert_true (totlen <=? Z.shiftr LLONG_MAX 3);
        if (start <? 0) && (stop <? 0) && (start >? stop) then answer o 0
        else let '(start, stop, f, l) := bit_range isbit totlen start stop in bitcount_reply be addr tmp o p start stop f l
    end) as ->.
  { unfold bitcountCommand. destruct rest as [|u [|]]; [| |done]; simpl in Hu;
      cbn [lookup list_lookup app mbind option_bind];
      rewrite (getLongLong_num a2 start), (getLongLong_num a3 stop) by done; cbn [mbind option_bind].
    - by rewrite Hu.
    - change (zlen [c; k; a2; a3; u]) with 5. simpl (_ || _). cbn iota. rewrite Hu. done. }
  rewrite Htype, (getObjectReadOnlyString_ok o v s Htype Hholds). cbn [mbind option_bind].
  replace (zlen s <=? Z.shiftr LLONG_MAX 3) with true
    by (change (Z.shiftr LLONG_MAX 3) with (2 * 2 ^ 59 - 1); zlen_saturate; lia).
  cbn [assert_true mbind option_bind]. unfold bitcount_result.
  destruct (_ && _ && _); [done|]. destruct (bit_range isbit (zlen s) start stop) as [[[a e] f] l] eqn:Er.
  by apply bitcount_reply_ok.
Qed.

(** The whole string is the range from 0 to the last byte. *)
Lemma whole_range : bit_range false (zlen s) 0 (zlen s - 1) = (0, zlen s - 1, 0, 0).
Proof.
  unfold bit_range. cbn [andb]. pose proof (zlen_nonneg s). rewrite Z.geb_leb.
  destruct (Z.ltb_spec (zlen s - 1) 0).
  - replace (zlen s) with 0 by lia. done.
  - replace (zlen s - 1 <? 0) with false by lia. by replace (zlen s <=? zlen s - 1) with false by lia.
Qed.

Lemma bitcount_whole_spec c k :
  bitcountCommand be addr tmp [c; k] o = answer o (bitcount_result false s 0 (zlen s - 1)).
Proof.
  unfold bitcountCommand. cbn [zlen length Z.of_nat]. simpl (_ || _). cbn iota. rewrite Htype.
  simpl (_ =? 2). cbn iota.
  rewrite (getObjectReadOnlyString_ok o v s Htype Hholds). cbn [mbind option_bind].
  unfold bitcount_result. cbn [Z.ltb Z.compare andb]. by apply bitcount_reply_ok, whole_range.
Qed.

Definition bitpos_answer (b isbit end_given : bool) (start stop : Z) : Z :=
  match o with
  | None => if b then -1 else 0
  | Some _ => bitpos_result b isbit end_given s start stop
  end.

Lemma bitpos_reply_answer b isbit end_given start stop a e f l :
  (end_given = false -> isbit = false /\ stop = zlen s - 1) ->
  bit_range isbit (zlen s) start stop = (a, e, f, l) ->
  bitpos_reply be addr tmp o p end_given a e (Z.b2z b) f l = answer o (bitpos_answer b isbit end_given start stop).
Proof.
  intros Hend E. rewrite (bitpos_reply_ok b isbit end_given start stop a e f l Hend E). unfold bitpos_answer, p.
  destruct o as [[w|]|]; simpl in Htype; by simplify_eq.
Qed.

Lemma bitpos_max : zlen s <=? Z.shiftr LLONG_MAX 3 = true.
Proof. change (Z.shiftr LLONG_MAX 3) with (2 * 2 ^ 59 - 1). zlen_saturate. lia. Qed.

Lemma bit_arg (b : bool) : in_int64 (Z.b2z b) /\ negb (Z.b2z b =? 0) && negb (Z.b2z b =? 1) = false.
Proof. split; [unfold in_int64; unfold_limits|]; destruct b; simpl; lia. Qed.

Lemma bitpos_whole_spec c k a2 b :
  IsDec a2 (Z.b2z b) ->
  bitposCommand be addr tmp [c; k; a2] o = answer o (bitpos_answer b false false 0 (zlen s - 1)).
Proof.
  intros H2. destruct (bit_arg b) as [Hi Hb]. unfold bitposCommand. cbn [lookup list_lookup mbind option_bind].
  rewrite (getLongLong_num a2 (Z.b2z b)) by done. cbn [mbind option_bind]. rewrite Hb. change (zlen [c; k; a2]) with 3.
  simpl (3 =? _). cbn [orb]. rewrite Htype, (getObjectReadOnlyString_ok o v s Htype Hholds). cbn [mbind option_bind].
  apply bitpos_reply_answer; [done|apply whole_range].
Qed.

Lemma bitpos_from_spec c k a2 a3 b start :
  IsDec a2 (Z.b2z b) -> IsDec a3 start -> in_int64 start ->
  bitposCommand be addr tmp [c; k; a2; a3] o = answer o (bitpos_answer b false false start (zlen s - 1)).
Proof.
  intros H2 H3 Hi3. destruct (bit_arg b) as [Hi Hb]. unfold bitposCommand. cbn [lookup list_lookup mbind option_bind].
  rewrite (getLongLong_num a2 (Z.b2z b)), (getLongLong_num a3 start) by done. cbn [mbind option_bind]. rewrite Hb.
  change (zlen [c; k; a2; a3]) with 4. simpl (4 =? _). simpl (4 >=? _). cbn [orb mbind option_bind].
  rewrite Htype, (getObjectReadOnlyString_ok o v s Htype Hholds). cbn [mbind option_bind].
  rewrite bitpos_max. cbn [assert_true mbind option_bind].
  destruct (bit_range false (zlen s) start (zlen s - 1)) as [[[a e] f] l] eqn:Er.
  by apply bitpos_reply_answer.
Qed.

Lemma bitpos_range_spec c k a2 a3 a4 rest b isbit start stop :
  IsDec a2 (Z.b2z b) -> IsDec a3 start -> in_int64 start -> IsDec a4 stop -> in_int64 stop -> unit_arg rest isbit ->
  bitposCommand be addr tmp ([c; k; a2; a3; a4] ++ rest) o = answer o (bitpos_answer b isbit true start stop).
Proof.
  intros H2 H3 Hi3 H4 Hi4 Hu. destruct (bit_arg b) as [Hi Hb].
  assert (bitposCommand be addr tmp ([c; k; a2; a3; a4] ++ rest) o =
    match checkType o with
    | inl e => fail o e
    | inr v => '(p, totlen) ← getObjectReadOnlyString v;
        _ ← assert_true (totlen <=? Z.shiftr LLONG_MAX 3);
        let '(start, stop, f, l) := bit_range isbit totlen start stop in
        bitpos_reply be addr tmp o p true start stop (Z.b2z b) f l
    end) as ->.
  { unfold bitposCommand. destruct rest as [|u [|]]; [| |done]; simpl in Hu; subst;
      cbn [lookup list_lookup app mbind option_bind];
      rewrite (getLongLong_num a2 (Z.b2z b)), (getLongLong_num a3 start), (getLongLong_num a4 stop) by done;
      cbn [mbind option_bind]; rewrite Hb; [done|].
    change (zlen [c; k; a2; a3; a4; u]) with 6. simpl (_ =? _). simpl (6 >=? _). cbn [orb mbind option_bind].
    by rewrite Hu. }
  rewrite Htype, (getObjectReadOnlyString_ok o v s Htype Hholds). cbn [mbind option_bind].
  rewrite bitpos_max. cbn [assert_true mbind option_bind].
  destruct (bit_range isbit (zlen s) start stop) as [[[a e] f] l] eqn:Er.
  by apply bitpos_reply_answer.
Qed.
End Commands.
