(* ===== verification/BitOpFacts.v ===== *)
(** * BITOP: the word-wise path and the byte-wise path

    Both paths of the command are proved to compute, bit by bit, the operation on the sources
    padded with zeroes. *)
From stdpp Require Import strings.
From S2P Require Import Prelude Endian Numstr NumstrFacts NumstrProps Glob BitVec Bits BitsFacts BitField BitCmd BitCmdFacts.

(** ** Operations on words are operations on bytes *)

Lemma testbit_byte_cons x r n :
  is_byte x -> 0 <= n -> Z.testbit (x + 256 * r) n = if n <? 8 then Z.testbit x n else Z.testbit r (n - 8).
Proof.
  intros Hx Hn. unfold is_byte in Hx. change 256 with (2 ^ 8). rewrite <- lor_add_high by lia.
  rewrite Z.lor_spec, Z.shiftl_spec by done. destruct (Z.ltb_spec n 8).
  - by rewrite (Z.testbit_neg_r r), orb_false_r by lia.
  - by rewrite (testbit_small x 8) by lia.
Qed.

Lemma apply_op_byte op x y : is_byte x -> is_byte y -> is_byte (apply_op op x y).
Proof.
  intros Hx Hy. destruct op; simpl; [| | |done].
  all: match goal with |- is_byte ?v => assert (v = v mod 2 ^ 8) as -> end;
    [|apply Z.mod_pos_bound; done]; apply Z.bits_inj'; intros n Hn;
    (destruct (Z.lt_ge_cases n 8); [by rewrite Z.mod_pow2_bits_low by done|]);
    rewrite Z.mod_pow2_bits_high, ?Z.land_spec, ?Z.lor_spec, ?Z.lxor_spec by lia;
    by rewrite !(testbit_small _ 8) by done.
Qed.

Lemma apply_op_cons op x r y t :
  is_byte x -> is_byte y ->
  apply_op op (x + 256 * r) (y + 256 * t) = apply_op op x y + 256 * apply_op op r t.
Proof.
  intros Hx Hy. pose proof (apply_op_byte op x y Hx Hy) as Hb. apply Z.bits_inj'. intros n Hn.
  rewrite (testbit_byte_cons (apply_op op x y)) by done.
  destruct op; simpl; rewrite ?Z.land_spec, ?Z.lor_spec, ?Z.lxor_spec, ?testbit_byte_cons by done;
    by destruct (n <? 8).
Qed.

Lemma le_join_op op w : forall w', bytes w -> bytes w' -> length w = length w' ->
  apply_op op (le_join w) (le_join w') = le_join (zip_with (apply_op op) w w').
Proof.
  induction w as [|x w IH]; intros [|y w'] Hw Hw' Hl; try done; [by destruct op|].
  apply Forall_cons in Hw as [Hx Hw]. apply Forall_cons in Hw' as [Hy Hw']. simpl in Hl.
  cbn [zip_with]. rewrite !le_join_cons, apply_op_cons, IH by (done || lia). done.
Qed.

Lemma zip_with_bytes op w w' : bytes w -> bytes w' -> bytes (zip_with (apply_op op) w w').
Proof.
  intros Hw. revert w'. induction Hw as [|x w Hx _ IH]; intros [|y w'] Hw'; try by constructor.
  apply Forall_cons in Hw' as [Hy Hw']. cbn [zip_with]. constructor; [by apply apply_op_byte|by apply IH].
Qed.

Lemma zip_with_rev (f : Z -> Z -> Z) l : forall k, length l = length k ->
  zip_with f (reverse l) (reverse k) = reverse (zip_with f l k).
Proof.
  induction l as [|x l IH]; intros [|y k] Hl; try done. simpl in Hl. cbn [zip_with].
  rewrite !reverse_cons, zip_with_app by (rewrite !length_reverse; lia). rewrite IH by lia. done.
Qed.

(** A word operation on the bytes in the order of the host. *)
Lemma host_op be op w w' :
  bytes w -> bytes w' -> length w = length w' ->
  host_store be (length w) (apply_op op (host_load be w) (host_load be w')) = zip_with (apply_op op) w w'.
Proof.
  intros Hw Hw' Hl. unfold host_store, host_load.
  assert (forall u u', bytes u -> bytes u' -> length u = length w -> length u' = length w ->
    le_split (length w) (apply_op op (le_join u) (le_join u')) = zip_with (apply_op op) u u') as H.
  { intros u u' Hu Hu' L1 L2. rewrite le_join_op by (done || lia).
    replace (length w) with (length (zip_with (apply_op op) u u')) by (rewrite length_zip_with; lia).
    by apply le_split_join, zip_with_bytes. }
  destruct be; [|by apply H]. rewrite H by (rewrite ?length_reverse; (by apply Forall_reverse) || lia).
  rewrite zip_with_rev by done. apply reverse_involutive.
Qed.

Definition byte_not (b : Z) : Z := u8 (Z.lnot b).

Lemma byte_not_eq b : is_byte b -> byte_not b = 255 - b.
Proof. unfold byte_not, wrapu, Z.lnot, is_byte. change (2 ^ 8) with 256. intros. div_lia. Qed.

Lemma byte_not_byte b : is_byte b -> is_byte (byte_not b).
Proof. intros Hb. rewrite byte_not_eq by done. unfold is_byte in *. lia. Qed.

Lemma le_join_not w : bytes w -> le_join (byte_not <$> w) = 256 ^ zlen w - 1 - le_join w.
Proof.
  induction 1 as [|b w Hb _ IH]; [done|]. cbn [fmap list_fmap]. rewrite !le_join_cons, IH, byte_not_eq by done.
  unfold zlen. cbn [length]. rewrite pow256_succ. lia.
Qed.

Lemma host_not be w :
  bytes w -> length w = 8%nat -> host_store be 8 (u64 (Z.lnot (host_load be w))) = byte_not <$> w.
Proof.
  intros Hw Hl. unfold host_store, host_load.
  assert (forall u, bytes u -> length u = 8%nat -> le_split 8 (u64 (Z.lnot (le_join u))) = byte_not <$> u) as H.
  { intros u Hu Lu. pose proof (le_join_range u Hu) as Hr. pose proof (le_join_not u Hu) as Hn.
    unfold zlen in Hr, Hn. rewrite Lu in Hr, Hn. change (256 ^ Z.of_nat 8) with (2 ^ 64) in *.
    assert (u64 (Z.lnot (le_join u)) = le_join (byte_not <$> u)) as ->.
    { rewrite Hn. unfold wrapu, Z.lnot. symmetry. apply (Z.mod_unique _ _ (-1)); lia. }
    rewrite <- Lu, <- (length_fmap byte_not u). apply le_split_join. apply Forall_fmap.
    eapply Forall_impl; [done|]. apply byte_not_byte. }
  destruct be; [|by apply H]. rewrite H by (rewrite ?length_reverse; (by apply Forall_reverse) || done).
  rewrite fmap_reverse. apply reverse_involutive.
Qed.

(** ** Bytes by position *)

Definition byte_at (s : list Z) (i : Z) : Z := default 0 (getb s i).

Lemma byte_at_byte s i : bytes s -> is_byte (byte_at s i).
Proof.
  intros Hs. unfold byte_at, getb. case_match; [|done]. destruct (s !! _) eqn:E; [|done].
  by eapply Forall_lookup in E.
Qed.

Lemma byte_at_get s i : 0 <= i < zlen s -> getb s i = Some (byte_at s i).
Proof. intros Hi. unfold byte_at. by destruct (getb_is_Some s i Hi) as [b ->]. Qed.

Lemma byte_at_beyond s i : zlen s <= i -> byte_at s i = 0.
Proof.
  intros Hi. unfold byte_at, getb. case_match; [|done]. rewrite lookup_ge_None_2; [done|]. unfold zlen in Hi. lia.
Qed.

Lemma bit_at_byte s i : 0 <= i -> bit_at s i = Z.testbit (byte_at s (i / 8)) (7 - i mod 8).
Proof.
  intros Hi. destruct (decide (i / 8 < zlen s)).
  - rewrite (bit_at_lookup s i (byte_at s (i / 8))); [done|done|]. apply byte_at_get. div_lia.
  - rewrite bit_at_beyond, byte_at_beyond, Z.bits_0 by div_lia. done.
Qed.

Lemma byte_at_app a s i : byte_at (a ++ s) i = if i <? zlen a then byte_at a i else byte_at s (i - zlen a).
Proof.
  unfold byte_at. destruct (Z.ltb_spec i (zlen a)); [by rewrite getb_app_l|].
  replace i with (zlen a + (i - zlen a)) at 1 by lia. by rewrite getb_app_r by lia.
Qed.

Lemma byte_at_ext s s' : zlen s = zlen s' -> (forall i, 0 <= i < zlen s -> byte_at s i = byte_at s' i) -> s = s'.
Proof.
  intros Hl H. apply list_eq. intros n.
  destruct (decide (n < length s)%nat) as [Hn|Hn].
  - pose proof (H (Z.of_nat n)) as Hi. unfold zlen in *.
    pose proof (byte_at_get s (Z.of_nat n)) as G1. pose proof (byte_at_get s' (Z.of_nat n)) as G2.
    unfold zlen, getb in *. replace (0 <=? Z.of_nat n) with true in * by lia. rewrite Nat2Z.id in *.
    rewrite G1, G2 by lia. by rewrite Hi by lia.
  - unfold zlen in Hl. rewrite !lookup_ge_None_2 by lia. done.
Qed.

(** Replacing a window. *)
Lemma window_at (a w w' c : list Z) i :
  zlen w' = zlen w ->
  byte_at (a ++ w' ++ c) i =
    if (zlen a <=? i) && (i <? zlen a + zlen w) then byte_at w' (i - zlen a) else byte_at (a ++ w ++ c) i.
Proof.
  intros Hl. rewrite !byte_at_app, Hl. destruct (Z.ltb_spec i (zlen a)), (Z.leb_spec (zlen a) i),
    (Z.ltb_spec (i - zlen a) (zlen w)), (Z.ltb_spec i (zlen a + zlen w)); try lia; done.
Qed.

(** Replacing one byte. *)
Lemma setb_at s i v :
  0 <= i < zlen s -> bytes s -> is_byte v ->
  exists s', setb s i v = Some s' /\ zlen s' = zlen s /\ bytes s' /\
    forall k, byte_at s' k = if k =? i then v else byte_at s k.
Proof.
  intros Hi Hb Hv. destruct (mem_split s i 1) as (a & w & c & -> & Ha & Hw); [lia..|].
  destruct w as [|x [|? w]]; [by rewrite zlen_nil in Hw| |rewrite !zlen_cons in Hw; zlen_saturate; lia].
  simpl app. rewrite setb_mid by done. eexists. split; [done|]. split; [by rewrite !zlen_app, !zlen_cons|].
  apply Forall_app in Hb as [Hba Hb]. apply Forall_cons in Hb as [_ Hbc].
  split; [apply Forall_app; split; [done|]; by apply Forall_cons|]. intros k.
  pose proof (window_at a [x] [v] c k eq_refl) as Hwin. simpl app in Hwin. rewrite Hwin. change (zlen [x]) with 1.
  rewrite Ha. destruct (Z.eqb_spec k i) as [->|Hne].
  - replace ((i <=? i) && (i <? i + 1)) with true by lia. by rewrite Z.sub_diag.
  - by replace ((i <=? k) && (k <? i + 1)) with false by lia.
Qed.

(** ** Updates of a window of the result *)

Definition updates (res res' : list Z) (lo n : Z) (f : Z -> Z) : Prop :=
  zlen res' = zlen res /\ bytes res' /\
  forall i, byte_at res' i = if (lo <=? i) && (i <? lo + n) then f i else byte_at res i.

Lemma updates_join res r1 r2 lo n m f g :
  0 <= n -> 0 <= m -> updates res r1 lo n f -> updates r1 r2 (lo + n) m g ->
  (forall i, lo + n <= i < lo + n + m -> g i = f i) -> updates res r2 lo (n + m) f.
Proof.
  intros Hn Hm (L1 & _ & H1) (L2 & B2 & H2) Hfg. split; [lia|]. split; [done|]. intros i. rewrite H2, H1.
  destruct (Z.leb_spec (lo + n) i), (Z.ltb_spec i (lo + n + m)), (Z.leb_spec lo i), (Z.ltb_spec i (lo + n)),
    (Z.ltb_spec i (lo + (n + m))); simpl; try lia; try done. by apply Hfg.
Qed.

Lemma updates_behind res r lo n f i : updates res r lo n f -> lo + n <= i -> byte_at r i = byte_at res i.
Proof. intros (_ & _ & H) Hi. rewrite H. replace (i <? lo + n) with false by lia. by rewrite andb_false_r. Qed.

(** Reading a window, computing on it and writing it back. *)
Lemma window_update res off n (g : list Z -> list Z) (f : Z -> Z) :
  0 <= off -> 0 <= n -> off + n <= zlen res -> bytes res ->
  (forall w, mem_read res off n = Some w -> bytes w -> zlen w = n ->
     zlen (g w) = n /\ bytes (g w) /\ forall i, 0 <= i < n -> byte_at (g w) i = f (off + i)) ->
  exists w res', mem_read res off n = Some w /\ bytes w /\ zlen w = n /\
    mem_write res off (g w) = Some res' /\ updates res res' off n f.
Proof.
  intros Ho Hn Hl Hb H. destruct (mem_split res off n Ho Hn Hl) as (a & w & c & -> & Ha & Hw).
  apply Forall_app in Hb as [Hba Hb]. apply Forall_app in Hb as [Hbw Hbc].
  assert (mem_read (a ++ w ++ c) off n = Some w) as Hr by (by apply mem_read_mid).
  destruct (H w Hr Hbw Hw) as (Hgl & Hgb & Hg). exists w, (a ++ g w ++ c). split; [done|]. split; [done|]. split; [done|].
  split; [apply mem_write_mid; lia|]. split; [len_lia|]. split; [by repeat (apply Forall_app; split)|].
  intros i. rewrite (window_at a w (g w) c) by lia. rewrite Ha, Hw.
  destruct (Z.leb_spec off i), (Z.ltb_spec i (off + n)); simpl; try done. rewrite Hg by lia. f_equal. lia.
Qed.

Lemma mem_read_at s off n w i : mem_read s off n = Some w -> 0 <= i < n -> byte_at w i = byte_at s (off + i).
Proof.
  intros Hr Hi. unfold mem_read in Hr. destruct (_ && _ && _) eqn:E; [|done]. injection Hr as <-.
  unfold byte_at, getb. replace (0 <=? i) with true by lia. replace (0 <=? off + i) with true by lia.
  rewrite lookup_take_lt, lookup_drop by lia. do 2 f_equal. lia.
Qed.

Section Words.
Variables (be : bool) (op : bitop).

Lemma word_op_ok off res src :
  0 <= off -> off + 8 <= zlen res -> off + 8 <= zlen src -> bytes res -> bytes src ->
  exists res', word_op be op off res src = Some res' /\
    updates res res' off 8 (fun i => apply_op op (byte_at res i) (byte_at src i)).
Proof.
  intros Ho Hr Hs Hbr Hbs. unfold word_op.
  destruct (mem_split src off 8 Ho ltac:(lia) Hs) as (a & w' & c & Es & Ha & Hw').
  assert (mem_read src off 8 = Some w') as Hr' by (rewrite Es; by apply mem_read_mid).
  assert (bytes w') as Hbw' by (rewrite Es in Hbs; apply Forall_app in Hbs as [_ Hb]; by apply Forall_app in Hb as [? _]).
  destruct (window_update res off 8 (fun w => host_store be 8 (apply_op op (host_load be w) (host_load be w')))
    (fun i => apply_op op (byte_at res i) (byte_at src i))) as (w & res' & Hm & _ & _ & Hw & Hu); [done|lia|done|done| |].
  - intros w Hm Hbw Hzw. assert (length w = 8%nat /\ length w' = 8%nat) as [L1 L2] by (unfold zlen in *; lia).
    pose proof (host_op be op w w' Hbw Hbw') as Hh. rewrite L1 in Hh. rewrite Hh by lia.
    split; [unfold zlen; rewrite length_zip_with; lia|]. split; [by apply zip_with_bytes|]. intros i Hi.
    rewrite <- (mem_read_at _ _ _ _ i Hm), <- (mem_read_at _ _ _ _ i Hr') by done.
    unfold byte_at at 1, getb. replace (0 <=? i) with true by lia. rewrite lookup_zip_with.
    pose proof (byte_at_get w i) as G1. pose proof (byte_at_get w' i) as G2. unfold getb in G1, G2.
    replace (0 <=? i) with true in * by lia. rewrite G1, G2 by lia. done.
  - exists res'. rewrite Hm, Hr'. cbn [mbind option_bind]. done.
Qed.

Lemma word_not_ok off res :
  0 <= off -> off + 8 <= zlen res -> bytes res ->
  exists res', word_not be off res = Some res' /\ updates res res' off 8 (fun i => byte_not (byte_at res i)).
Proof.
  intros Ho Hr Hbr. unfold word_not.
  destruct (window_update res off 8 (fun w => host_store be 8 (u64 (Z.lnot (host_load be w))))
    (fun i => byte_not (byte_at res i))) as (w & res' & Hm & _ & _ & Hw & Hu); [done|lia|done|done| |].
  - intros w Hm Hbw Hzw. rewrite host_not by (done || (unfold zlen in *; lia)).
    split; [by rewrite zlen_fmap|]. split; [apply Forall_fmap; eapply Forall_impl; [done|]; apply byte_not_byte|].
    intros i Hi. rewrite <- (mem_read_at _ _ _ _ i Hm) by done. unfold byte_at at 1, getb.
    replace (0 <=? i) with true by lia. rewrite list_lookup_fmap. pose proof (byte_at_get w i) as G. unfold getb in G.
    replace (0 <=? i) with true in G by lia. by rewrite G by lia.
  - exists res'. by rewrite Hm.
Qed.
End Words.

(** Four words in a row. *)
Lemma block_ok (wf : Z -> list Z -> option (list Z)) (h : Z -> Z -> Z) (L : Z) :
  (forall off res, 0 <= off -> off + 8 <= zlen res -> off + 8 <= L -> bytes res ->
     exists res', wf off res = Some res' /\ updates res res' off 8 (fun i => h i (byte_at res i))) ->
  forall off res, 0 <= off -> off + 32 <= zlen res -> off + 32 <= L -> bytes res ->
  exists res', (res ← wf off res; res ← wf (off + 8) res; res ← wf (off + 16) res; wf (off + 24) res) = Some res' /\
    updates res res' off 32 (fun i => h i (byte_at res i)).
Proof.
  intros Hw off res Ho Hr HL Hb.
  destruct (Hw off res) as (r1 & -> & U1); [lia..|done|]. cbn [mbind option_bind].
  destruct (Hw (off + 8) r1) as (r2 & -> & U2); [lia|destruct U1; lia|lia|apply U1|]. cbn [mbind option_bind].
  assert (updates res r2 off 16 (fun i => h i (byte_at res i))) as V2.
  { apply (updates_join res r1 r2 off 8 8 _ _ ltac:(lia) ltac:(lia) U1 U2). intros i Hi.
    by rewrite (updates_behind _ _ _ _ _ i U1) by lia. }
  destruct (Hw (off + 16) r2) as (r3 & -> & U3); [lia|destruct V2; lia|lia|apply V2|]. cbn [mbind option_bind].
  assert (updates res r3 off 24 (fun i => h i (byte_at res i))) as V3.
  { apply (updates_join res r2 r3 off 16 8 _ _ ltac:(lia) ltac:(lia) V2 U3). intros i Hi.
    by rewrite (updates_behind _ _ _ _ _ i V2) by lia. }
  destruct (Hw (off + 24) r3) as (r4 & -> & U4); [lia|destruct V3; lia|lia|apply V3|].
  exists r4. split; [done|]. apply (updates_join res r3 r4 off 24 8 _ _ ltac:(lia) ltac:(lia) V3 U4). intros i Hi.
  by rewrite (updates_behind _ _ _ _ _ i V3) by lia.
Qed.

(** The byte the operation gives: the first source, then the others in order. *)
Definition fold_op (op : bitop) (i acc : Z) (srcs : list (list Z)) : Z :=
  foldl (fun acc s => apply_op op acc (byte_at s i)) acc srcs.

Definition first_op (op : bitop) (x : Z) : Z := match op with BITOP_NOT => byte_not x | _ => x end.

Definition op_byte (op : bitop) (s0 : list Z) (srcs : list (list Z)) (i : Z) : Z :=
  fold_op op i (first_op op (byte_at s0 i)) srcs.

Lemma fold_op_byte op i srcs : forall acc, Forall (fun s => bytes s) srcs -> is_byte acc -> is_byte (fold_op op i acc srcs).
Proof.
  induction srcs as [|s srcs IH]; intros acc Hs Ha; [done|]. apply Forall_cons in Hs as [Hs Hss].
  apply IH; [done|]. apply apply_op_byte; [done|by apply byte_at_byte].
Qed.

Lemma op_byte_byte op s0 srcs i : bytes s0 -> Forall (fun s => bytes s) srcs -> is_byte (op_byte op s0 srcs i).
Proof.
  intros H0 Hs. apply fold_op_byte; [done|]. pose proof (byte_at_byte s0 i H0).
  destruct op; simpl; try done. by apply byte_not_byte.
Qed.

Lemma block_keys_ok be op off srcs : forall res,
  0 <= off -> off + 32 <= zlen res -> bytes res -> Forall (fun s => bytes s /\ off + 32 <= zlen s) srcs ->
  exists res', block_keys be op off res srcs = Some res' /\
    updates res res' off 32 (fun i => fold_op op i (byte_at res i) srcs).
Proof.
  induction srcs as [|s srcs IH]; intros res Ho Hr Hb Hs.
  - exists res. split; [done|]. split; [done|]. split; [done|]. intros i. by destruct (_ && _).
  - apply Forall_cons in Hs as [[Hbs Hls] Hss]. cbn [block_keys].
    destruct (block_ok (fun off res => word_op be op off res s) (fun i x => apply_op op x (byte_at s i)) (zlen s))
      with off res as (r1 & E1 & U1); try done.
    { intros. by apply word_op_ok. }
    unfold block_op. rewrite E1. cbn [mbind option_bind].
    destruct (IH r1) as (r2 & -> & (L2 & B2 & U2)); [done|destruct U1; lia|apply U1|done|].
    exists r2. split; [done|]. destruct U1 as (L1 & B1 & U1). split; [lia|]. split; [done|]. intros i.
    rewrite U2, U1. by destruct (_ && _).
Qed.

Lemma block_not_ok be off res :
  0 <= off -> off + 32 <= zlen res -> bytes res ->
  exists res', block_not be off res = Some res' /\ updates res res' off 32 (fun i => byte_not (byte_at res i)).
Proof.
  intros Ho Hr Hb. apply (block_ok (word_not be) (fun _ x => byte_not x) (zlen res)); try done; try lia.
  intros. by apply word_not_ok.
Qed.

Section BitOp.
Variables (be : bool) (op : bitop) (s0 : list Z) (srcs : list (list Z)) (maxlen minlen : Z).
Hypothesis Hs0 : bytes s0.
Hypothesis Hsrcs : Forall (fun s => bytes s) srcs.
Hypothesis Hnot : op = BITOP_NOT -> srcs = [].
Hypothesis Hmin : 0 <= minlen.
Hypothesis Hmin_all : Forall (fun s => minlen <= zlen s <= maxlen) (s0 :: srcs).

Let ref := op_byte op s0 srcs.

Definition fast_inv (st : list Z * Z * Z) : Prop :=
  let '(res, j, ml) := st in
  zlen res = maxlen /\ bytes res /\ 0 <= j /\ 0 <= ml /\ j + ml = minlen /\
  forall i, byte_at res i = if (0 <=? i) && (i <? j) then ref i else if (0 <=? i) && (i <? minlen) then byte_at s0 i else 0.

Lemma min_bounds : minlen <= zlen s0 /\ minlen <= maxlen /\ Forall (fun s => minlen <= zlen s <= maxlen) srcs.
Proof. apply Forall_cons in Hmin_all as [H1 H2]. split_and!; [lia|lia|done]. Qed.

(** One round of the fast path computes 32 bytes of the result. *)
Lemma fast_block res j ml :
  fast_inv (res, j, ml) -> 32 <= ml ->
  exists res', (match op with BITOP_NOT => block_not be j res | _ => block_keys be op j res srcs end) = Some res' /\
    updates res res' j 32 ref.
Proof.
  intros (Hl & Hb & Hj & Hml & Hsum & Hat) Hge. destruct min_bounds as (Hm0 & Hmm & Hms).
  assert (forall i, j <= i < j + 32 -> byte_at res i = byte_at s0 i) as Hw.
  { intros i Hi. rewrite Hat. replace (i <? j) with false by lia. rewrite andb_false_r.
    by replace ((0 <=? i) && (i <? minlen)) with true by lia. }
  assert (forall res' f, updates res res' j 32 f -> (forall i, j <= i < j + 32 -> f i = ref i) -> updates res res' j 32 ref) as Hext.
  { intros res' f (L & B & U) Hf. split; [done|]. split; [done|]. intros i. rewrite U.
    destruct (Z.leb_spec j i), (Z.ltb_spec i (j + 32)); simpl; try done. by apply Hf. }
  destruct (decide (op = BITOP_NOT)) as [E|E].
  - destruct (block_not_ok be j res) as (res' & Er & U); [lia|lia|done|].
    exists res'. split; [by rewrite E|]. apply (Hext _ _ U). intros i Hi. rewrite Hw by done.
    unfold ref, op_byte. by rewrite (Hnot E), E.
  - destruct (block_keys_ok be op j srcs res) as (res' & Er & U); [lia|lia|done| |].
    { apply Forall_forall. intros s Hin. rewrite Forall_forall in Hsrcs, Hms. split; [by apply Hsrcs|].
      specialize (Hms s Hin). simpl in Hms. lia. }
    exists res'. split; [by destruct op|]. apply (Hext _ _ U). intros i Hi. rewrite Hw by done.
    unfold ref, op_byte. by destruct op.
Qed.

Lemma fast_step res j ml :
  fast_inv (res, j, ml) -> 32 <= ml ->
  exists st', bitop_fast_body be op (s0 :: srcs) (res, j, ml) = Some (inl st') /\ fast_inv st' /\ st'.2 = ml - 32.
Proof.
  intros Hi Hge. destruct (fast_block res j ml Hi Hge) as (res' & E & (L & B & U)).
  destruct Hi as (Hl & Hb & Hj & Hml & Hsum & Hat).
  unfold bitop_fast_body, sizeof_long. replace (ml >=? 8 * 4) with true by lia. cbn [tail]. rewrite E.
  cbn [mbind option_bind]. eexists. split; [done|]. split; [|done]. split_and!; [lia|done|lia|lia|lia|].
  intros i. rewrite U, Hat.
  destruct (Z.leb_spec j i), (Z.ltb_spec i (j + 32)), (Z.leb_spec 0 i), (Z.ltb_spec i j), (Z.ltb_spec i (j + 8 * 4)); simpl; try lia; done.
Qed.

(** What the byte-wise loop starts from. *)
Definition slow_inv (st : list Z * Z) : Prop :=
  let '(res, j) := st in
  zlen res = maxlen /\ bytes res /\ 0 <= j <= maxlen /\ forall i, 0 <= i < j -> byte_at res i = ref i.

Lemma fast_loop res fuel :
  fast_inv (res, 0, minlen) -> minlen < Z.of_nat fuel ->
  exists st, loop fuel (bitop_fast_body be op (s0 :: srcs)) (res, 0, minlen) = Some st /\ slow_inv st.
Proof.
  intros Hi Hf. apply (loop_ok _ fast_inv slow_inv (fun st => st.2)); [|done|done].
  intros [[r j] ml] Hinv. split; [destruct Hinv as (_ & _ & _ & ? & _); done|].
  destruct (decide (32 <= ml)) as [Hge|Hlt].
  - left. destruct (fast_step r j ml Hinv Hge) as (st' & -> & Hi' & E). exists st'. split; [done|]. split; [done|]. simpl. lia.
  - right. exists (r, j). split.
    + unfold bitop_fast_body, sizeof_long. by replace (ml >=? 8 * 4) with false by lia.
    + destruct Hinv as (Hl & Hb & Hj & Hml & Hsum & Hat). destruct min_bounds as (_ & ? & _).
      split_and!; [done|done|lia|lia|]. intros i Hi'. rewrite Hat. by replace ((0 <=? i) && (i <? j)) with true by lia.
Qed.

(** The early exit of the inner loop does not change the byte. *)
Lemma fold_op_skip acc i l :
  Forall (fun s => bytes s) l -> is_byte acc ->
  (op = BITOP_AND /\ acc = 0) \/ (op = BITOP_OR /\ acc = 0xff) -> fold_op op i acc l = acc.
Proof.
  intros Hl. revert acc. induction Hl as [|s l Hs _ IH]; intros acc Ha Hc; [done|]. unfold fold_op. cbn [foldl].
  assert (apply_op op acc (byte_at s i) = acc) as ->; [|by apply IH].
  destruct Hc as [[-> ->]|[-> ->]]; simpl; [apply Z.land_0_l|].
  pose proof (byte_at_byte s i Hs) as Hb. unfold is_byte in Hb. apply Z.bits_inj'. intros n Hn.
  rewrite Z.lor_spec. change 255 with (Z.ones 8). destruct (Z.lt_ge_cases n 8).
  - by rewrite Z.ones_spec_low by lia.
  - by rewrite Z.ones_spec_high, (testbit_small _ 8) by lia.
Qed.

Lemma src_byte_ok s j : 0 <= j -> src_byte s j = Some (byte_at s j).
Proof.
  intros Hj. unfold src_byte. destruct (Z.leb_spec (zlen s) j); [by rewrite byte_at_beyond|]. apply byte_at_get. lia.
Qed.

Lemma bitop_byte_ok j l : forall acc,
  0 <= j -> is_byte acc -> Forall (fun s => bytes s) l -> bitop_byte op j acc l = Some (fold_op op j acc l).
Proof.
  induction l as [|s l IH]; intros acc Hj Ha Hl; [done|]. apply Forall_cons in Hl as [Hs Hl].
  cbn [bitop_byte]. rewrite src_byte_ok by done. cbn [mbind option_bind].
  change (fold_op op j acc (s :: l)) with (fold_op op j (apply_op op acc (byte_at s j)) l).
  pose proof (apply_op_byte op acc (byte_at s j) Ha (byte_at_byte s j Hs)) as Hb.
  destruct (match op with BITOP_AND => _ | BITOP_OR => _ | _ => _ end) eqn:Hskip; [|by apply IH].
  rewrite fold_op_skip; [done|done|done|]. destruct op; try done; [left|right]; (split; [done|lia]).
Qed.

Lemma slow_step res j :
  slow_inv (res, j) -> j < maxlen ->
  exists res', bitop_slow_body op (s0 :: srcs) maxlen (res, j) = Some (inl (res', j + 1)) /\ slow_inv (res', j + 1).
Proof.
  intros (Hl & Hb & Hj & Hat) Hlt. unfold bitop_slow_body. replace (j <? maxlen) with true by lia.
  cbn [head hd_error tail mbind option_bind]. rewrite src_byte_ok by lia. cbn [mbind option_bind].
  change (match op with BITOP_NOT => u8 (Z.lnot (byte_at s0 j)) | _ => byte_at s0 j end) with (first_op op (byte_at s0 j)).
  assert (is_byte (first_op op (byte_at s0 j))) as Hf.
  { pose proof (byte_at_byte s0 j Hs0). destruct op; simpl; try done. by apply byte_not_byte. }
  rewrite bitop_byte_ok by (done || lia). cbn [mbind option_bind].
  change (fold_op op j (first_op op (byte_at s0 j)) srcs) with (ref j).
  destruct (setb_at res j (ref j)) as (res' & -> & Hl' & Hb' & Hat'); [lia|done|by apply op_byte_byte|].
  cbn [mbind option_bind]. exists res'. split; [done|]. split_and!; [lia|done|lia|lia|].
  intros i Hi. rewrite Hat'. destruct (Z.eqb_spec i j) as [->|]; [done|]. apply Hat. lia.
Qed.

Lemma slow_loop st fuel :
  slow_inv st -> maxlen < Z.of_nat fuel ->
  exists res, loop fuel (bitop_slow_body op (s0 :: srcs) maxlen) st = Some res /\
    zlen res = maxlen /\ bytes res /\ forall i, 0 <= i < maxlen -> byte_at res i = ref i.
Proof.
  intros Hi Hf. apply (loop_ok _ slow_inv (fun res => zlen res = maxlen /\ bytes res /\ forall i, 0 <= i < maxlen -> byte_at res i = ref i)
    (fun st => maxlen - st.2)); [|done|destruct st as [r j]; destruct Hi as (_ & _ & ? & _); simpl; lia].
  intros [res j] Hinv. assert (0 <= j <= maxlen) as Hj by apply Hinv. split; [simpl; lia|].
  destruct (decide (j < maxlen)) as [Hlt|Hge].
  - left. destruct (slow_step res j Hinv Hlt) as (res' & -> & Hi'). eexists. split; [done|]. split; [done|]. simpl. lia.
  - right. exists res. destruct Hinv as (Hl & Hb & _ & Hat). split; [|split; [done|]; split; [done|]; intros; apply Hat; lia].
    unfold bitop_slow_body. by replace (j <? maxlen) with false by lia.
Qed.

Lemma byte_at_zeros n i : byte_at (replicate n 0) i = 0.
Proof.
  unfold byte_at, getb. case_match; [|done]. destruct (replicate n 0 !! _) eqn:E; [|done].
  by apply lookup_replicate in E as [-> _].
Qed.

Lemma bitop_compute_ok :
  exists res, bitop_compute be op (s0 :: srcs) maxlen minlen = Some res /\
    zlen res = maxlen /\ bytes res /\ forall i, 0 <= i < maxlen -> byte_at res i = ref i.
Proof.
  destruct min_bounds as (Hm0 & Hmm & _). unfold bitop_compute.
  assert (zlen (replicate (Z.to_nat maxlen) 0) = maxlen) as Hz by (unfold zlen; rewrite length_replicate; lia).
  destruct (_ && _) eqn:Hfast.
  - cbn [head hd_error mbind option_bind].
    destruct (split_front s0 minlen) as (w & r & E & Hw); [lia|].
    assert (mem_read s0 0 minlen = Some w) as -> by (rewrite E; by apply (mem_read_mid [] w r)).
    cbn [mbind option_bind].
    assert (mem_write (replicate (Z.to_nat maxlen) 0) 0 w = Some (w ++ replicate (Z.to_nat (maxlen - minlen)) 0)) as ->.
    { replace (Z.to_nat maxlen) with (Z.to_nat minlen + Z.to_nat (maxlen - minlen))%nat by lia. rewrite replicate_add.
      apply (mem_write_mid []); [done|]. unfold zlen at 2. rewrite length_replicate. lia. }
    cbn [mbind option_bind].
    destruct (fast_loop (w ++ replicate (Z.to_nat (maxlen - minlen)) 0) (S (Z.to_nat minlen))) as ([res j] & -> & Hi); [|lia|].
    + split_and!; try lia.
      * rewrite zlen_app. unfold zlen at 2. rewrite length_replicate. lia.
      * apply Forall_app. split; [rewrite E in Hs0; by apply Forall_app in Hs0 as [? _]|by apply Forall_replicate].
      * intros i. replace ((0 <=? i) && (i <? 0)) with false by lia. rewrite byte_at_app, Hw, byte_at_zeros.
        destruct (Z.ltb_spec i minlen); [|by rewrite andb_false_r]. rewrite andb_true_r.
        destruct (Z.leb_spec 0 i).
        -- rewrite E, byte_at_app, Hw. by replace (i <? minlen) with true by lia.
        -- unfold byte_at, getb. by replace (0 <=? i) with false by lia.
    + cbn [mbind option_bind]. apply slow_loop; [done|lia].
  - cbn [mbind option_bind]. apply slow_loop; [|lia]. split_and!; [done|by apply Forall_replicate|lia|lia|]. lia.
Qed.
End BitOp.

(** ** The sources and the command *)

(** The operation on the bits of the sources at one position. *)
Definition op_bit (op : bitop) (l : list bool) : bool :=
  match op with
  | BITOP_AND => forallb id l
  | BITOP_OR => existsb id l
  | BITOP_XOR => foldr xorb false l
  | BITOP_NOT => negb (default false (head l))
  end.

Lemma op_byte_bit op s0 srcs i n :
  (op = BITOP_NOT -> srcs = []) -> 0 <= n < 8 ->
  Z.testbit (op_byte op s0 srcs i) n = op_bit op ((fun s => Z.testbit (byte_at s i) n) <$> (s0 :: srcs)).
Proof.
  intros Hnot Hn. unfold op_byte, fold_op. destruct op; simpl.
  4:{ rewrite Hnot by done. simpl. unfold byte_not, wrapu. rewrite Z.mod_pow2_bits_low by lia. apply Z.lnot_spec. lia. }
  all: generalize (byte_at s0 i) as acc; induction srcs as [|s srcs IH]; intros acc; simpl;
    [by destruct (Z.testbit acc n)|];
    rewrite IH by done; rewrite ?Z.land_spec, ?Z.lor_spec, ?Z.lxor_spec; unfold id;
    by destruct (Z.testbit acc n), (Z.testbit (byte_at s i) n), (foldr _ _ _) || (by destruct (Z.testbit acc n), (Z.testbit (byte_at s i) n)).
Qed.

Definition max_len (ss : list (list Z)) : Z := foldl (fun m s => Z.max m (zlen s)) 0 ss.

Lemma checkType_holds o s : holds o s -> exists v, checkType o = inr v /\ match v with None => s = [] | Some w => getDecodedObject w = Some s end.
Proof.
  intros Ho. destruct o as [[w|t]|]; simpl; [|done|by exists None].
  exists (Some w). split; [done|]. by apply getDecodedObject_ok.
Qed.

Lemma bitop_lookup_ok objs ss :
  Forall2 holds objs ss ->
  forall j src mx mn, 0 <= j -> 0 <= mn <= mx -> (j = 0 -> src = []) -> Forall (fun s => mn <= zlen s <= mx) src ->
  exists mn', bitop_lookup j objs src mx mn = Some (inr (src ++ ss, foldl (fun m s => Z.max m (zlen s)) mx ss, mn')) /\
    0 <= mn' /\ Forall (fun s => mn' <= zlen s <= foldl (fun m s => Z.max m (zlen s)) mx ss) (src ++ ss).
Proof.
  induction 1 as [|o s objs ss Ho _ IH]; intros j src mx mn Hj Hmn Hj0 Hsrc.
  { exists mn. rewrite app_nil_r. simpl. split; [done|]. split; [lia|done]. }
  cbn [bitop_lookup foldl]. destruct (checkType_holds o s Ho) as (v & -> & Hv). pose proof (zlen_nonneg s).
  replace (src ++ s :: ss) with ((src ++ [s]) ++ ss) by (by rewrite <- app_assoc).
  assert (forall mn', 0 <= mn' -> (src = [] \/ mn' <= mn) -> mn' <= zlen s ->
    Forall (fun s' => mn' <= zlen s' <= Z.max mx (zlen s)) (src ++ [s])) as Hext.
  { intros mn' Hm1 Hm2 Hm3. apply Forall_app. split; [|apply Forall_cons; split; [lia|by apply Forall_nil]].
    destruct Hm2 as [->|Hm2]; [by apply Forall_nil|]. eapply Forall_impl; [done|]. simpl. lia. }
  destruct v as [w|].
  - rewrite Hv. cbn [mbind option_bind].
    replace (if zlen s >? mx then zlen s else mx) with (Z.max mx (zlen s)) by (destruct (zlen s >? mx) eqn:E; lia).
    apply IH; [lia| |lia|].
    + destruct ((j =? 0) || (zlen s <? mn)) eqn:E; lia.
    + destruct (Z.eqb_spec j 0) as [E0|]; simpl; [apply Hext; [lia|left; auto|lia]|].
      destruct (Z.ltb_spec (zlen s) mn); apply Hext; lia || (right; lia).
  - subst s. change (zlen (@nil Z)) with 0 in *. replace (Z.max mx 0) with mx in * by lia. apply IH; [lia|lia|lia|]. apply Hext; [lia|right; lia|lia].
Qed.

Lemma bitop_spec be op c t opname keys objs o s0 ss :
  parse_bitop opname = Some op -> Forall2 holds objs (s0 :: ss) -> length keys = length objs ->
  (op = BITOP_NOT -> ss = []) -> Forall (fun s => bytes s) (s0 :: ss) ->
  let maxlen := max_len (s0 :: ss) in
  if maxlen =? 0 then
    bitopCommand be ([c; opname; t] ++ keys) objs o = Some {| out_reply := RInt 0; out_value := None;
      out_dirty := match o with Some _ => 1 | None => 0 end |}
  else
    exists res, bitopCommand be ([c; opname; t] ++ keys) objs o = Some {| out_reply := RInt maxlen;
        out_value := Some (StringObj (Sds res)); out_dirty := 1 |} /\
      zlen res = maxlen /\ bytes res /\
      forall i, 0 <= i < 8 * maxlen -> bit_at res i = op_bit op ((fun s => bit_at s i) <$> (s0 :: ss)).
Proof.
  intros Hop Hobj Hkeys Hnot Hb maxlen. apply Forall_cons in Hb as [Hb0 Hbs].
  assert (length objs = S (length ss)) as Hlo by (by apply Forall2_length in Hobj).
  unfold bitopCommand. cbn [lookup list_lookup app mbind option_bind]. rewrite Hop.
  replace (bool_decide (op = BITOP_NOT) && negb (zlen (c :: opname :: t :: keys) =? 4)) with false.
  2:{ symmetry. apply andb_false_iff. destruct (decide (op = BITOP_NOT)) as [E|E]; [|left; by apply bool_decide_eq_false_2].
      right. rewrite (Hnot E) in Hlo. rewrite !zlen_cons. unfold zlen. rewrite Hkeys, Hlo. done. }
  destruct (bitop_lookup_ok objs (s0 :: ss) Hobj 0 [] 0 0) as (mn & -> & Hmn & Hall); [lia|lia|done|by constructor|].
  change (foldl _ 0 (s0 :: ss)) with maxlen in *. cbn [mbind option_bind]. rewrite app_nil_l in *.
  destruct (Z.eqb_spec maxlen 0) as [E0|E0]; cbn [negb]; [by rewrite E0|].
  destruct (bitop_compute_ok be op s0 ss maxlen mn) as (res & -> & Hl & Hbr & Hat); try done.
  cbn [mbind option_bind]. exists res. split; [done|]. split; [done|]. split; [done|]. intros i Hi.
  rewrite bit_at_byte, Hat by div_lia. rewrite op_byte_bit by (done || div_lia). f_equal.
  apply list_fmap_ext. intros _ s _. by rewrite bit_at_byte by lia.
Qed.
