(* ===== verification/BitFieldCmd.v ===== *)
(** * BITFIELD: fields of a string

    Each operation of the command against the bits of the string: what it reads, what it stores
    under each overflow type, and that nothing else changes. *)
From stdpp Require Import strings.
From S2P Require Import Prelude Endian Numstr NumstrFacts NumstrProps Glob BitVec Bits BitsFacts BitField BitCmd BitCmdFacts BitOpFacts.

(** ** Fields *)

(** The [n] bits at [off], zero behind the end of the string. *)
Definition field (s : list Z) (off n : Z) : list bool := (fun i => bit_at s (off + i)) <$> seqZ 0 n.

Lemma zlen_field s off n : 0 <= n -> zlen (field s off n) = n.
Proof. intros Hn. unfold field. rewrite zlen_fmap. unfold zlen. rewrite length_seqZ. lia. Qed.

Lemma field_ext s s' off off' n :
  (forall i, 0 <= i < n -> bit_at s (off + i) = bit_at s' (off' + i)) -> field s off n = field s' off' n.
Proof. intros H. apply list_fmap_ext. intros n0 i Hi. apply H. apply list_elem_of_lookup_2, elem_of_seqZ in Hi. lia. Qed.

Lemma bit_at_mid s A F C i :
  bits_of s = A ++ F ++ C -> 0 <= i < zlen F -> F !! Z.to_nat i = Some (bit_at s (zlen A + i)).
Proof.
  intros E Hi. unfold bit_at. rewrite E. unfold zlen in *. rewrite lookup_app_r by lia.
  replace (Z.to_nat (Z.of_nat (length A) + i) - length A)%nat with (Z.to_nat i) by lia.
  rewrite lookup_app_l by lia. destruct (F !! Z.to_nat i) eqn:El; [done|]. apply lookup_ge_None in El. lia.
Qed.

Lemma field_of_cut s A F C : bits_of s = A ++ F ++ C -> field s (zlen A) (zlen F) = F.
Proof.
  intros E. apply list_eq. intros n. unfold field. rewrite list_lookup_fmap.
  destruct (decide (n < length F)%nat) as [Hn|Hn].
  - rewrite lookup_seqZ_lt by (unfold zlen; lia). simpl.
    pose proof (bit_at_mid s A F C (Z.of_nat n) E) as H. rewrite Nat2Z.id in H. rewrite H by (unfold zlen; lia). done.
  - rewrite lookup_seqZ_ge by (unfold zlen; lia). rewrite lookup_ge_None_2 by lia. done.
Qed.

(** A field inside the string cuts its bits in three. *)
Lemma field_cut s off n :
  0 <= off -> 0 <= n -> off + n <= 8 * zlen s ->
  exists A C, bits_of s = A ++ field s off n ++ C /\ zlen A = off.
Proof.
  intros Ho Hn Hl.
  assert (bits_of s = take (Z.to_nat off) (bits_of s) ++ take (Z.to_nat n) (drop (Z.to_nat off) (bits_of s))
    ++ drop (Z.to_nat n) (drop (Z.to_nat off) (bits_of s))) as E by (by rewrite !take_drop).
  assert (zlen (take (Z.to_nat off) (bits_of s)) = off) as H1 by (apply zlen_take; rewrite zlen_bits_of; lia).
  assert (zlen (take (Z.to_nat n) (drop (Z.to_nat off) (bits_of s))) = n) as H2.
  { apply zlen_take. rewrite zlen_drop by (rewrite zlen_bits_of; lia). rewrite zlen_bits_of. lia. }
  pose proof (field_of_cut _ _ _ _ E) as Ef. rewrite H1, H2 in Ef. rewrite Ef. by eexists _, _.
Qed.

(** Writing between [A] and [C]. *)
Lemma field_written s s' A F F' C :
  bits_of s = A ++ F ++ C -> bits_of s' = A ++ F' ++ C -> zlen F' = zlen F ->
  field s' (zlen A) (zlen F) = F' /\
  forall i, 0 <= i -> i < zlen A \/ zlen A + zlen F <= i -> bit_at s' i = bit_at s i.
Proof.
  intros E E' Hl. split; [rewrite <- Hl; by apply (field_of_cut s' A F' C)|]. intros i Hi [Hlo|Hhi].
  - unfold bit_at. rewrite E, E'. unfold zlen in *. by rewrite !lookup_app_l by lia.
  - unfold bit_at. rewrite E, E'. unfold zlen in *. rewrite !app_assoc, !lookup_app_r by (rewrite length_app; lia).
    rewrite !length_app. do 2 f_equal. lia.
Qed.

(** The number a field holds. *)
Definition field_val (sign : bool) (l : list bool) : Z :=
  if sign then wraps (zlen l) (bits_val l) else bits_val l.

Lemma get_field s off n :
  0 <= off -> 1 <= n <= 64 -> off + n <= 8 * zlen s -> bytes s -> zlen s < 2 ^ 61 ->
  getSignedBitfield s off n = Some (wraps n (bits_val (field s off n))) /\
  getUnsignedBitfield s off n = Some (bits_val (field s off n)).
Proof.
  intros Ho Hn Hl Hb Hz. destruct (field_cut s off n) as (A & C & E & HA); [lia..|].
  pose proof (zlen_field s off n ltac:(lia)) as HF.
  split; [apply (getSignedBitfield_spec s _ _ A _ C)|apply (getUnsignedBitfield_spec s _ _ A _ C)]; done || lia.
Qed.

(** ** One operation *)

Definition op_ok (op : bitfieldOp) : Prop :=
  0 <= op_offset op < 2 ^ 63 /\ 1 <= op_bits op <= (if op_sign op then 64 else 63) /\ in_int64 (op_i64 op).

Definition type_min (op : bitfieldOp) : Z := if op_sign op then - 2 ^ (op_bits op - 1) else 0.
Definition type_max (op : bitfieldOp) : Z := if op_sign op then 2 ^ (op_bits op - 1) - 1 else 2 ^ op_bits op - 1.
Definition type_wrap (op : bitfieldOp) (v : Z) : Z := if op_sign op then wraps (op_bits op) v else v mod 2 ^ op_bits op.

(** What is stored for the exact result [v]; [None] is a refusal. *)
Definition stored (op : bitfieldOp) (v : Z) : option Z :=
  if (type_min op <=? v) && (v <=? type_max op) then Some v
  else match op_owtype op with
       | BFOVERFLOW_WRAP => Some (type_wrap op v)
       | BFOVERFLOW_SAT => Some (if v <? type_min op then type_min op else type_max op)
       | BFOVERFLOW_FAIL => None
       end.

(** The exact result: the sum, or the value to set, read as unsigned for an unsigned field. *)
Definition exact (op : bitfieldOp) (old : Z) : Z :=
  match op_opcode op with
  | BITFIELDOP_INCRBY => old + op_i64 op
  | _ => if op_sign op then op_i64 op else u64 (op_i64 op)
  end.

(** A saturating SET of a value so small that [max - value] leaves the 64-bit range. *)
Definition far_below (op : bitfieldOp) : Prop :=
  op_opcode op = BITFIELDOP_SET /\ op_sign op = true /\ op_owtype op = BFOVERFLOW_SAT /\
  op_bits op < 64 /\ op_i64 op < 2 ^ (op_bits op - 1) - 2 ^ 63.

Lemma stored_range op v w : 1 <= op_bits op -> stored op v = Some w -> type_min op <= w <= type_max op.
Proof.
  intros Hb. unfold stored, type_min, type_max, type_wrap.
  assert (0 < 2 ^ (op_bits op - 1)) by (apply Z.pow_pos_nonneg; lia).
  assert (0 < 2 ^ op_bits op) by (apply Z.pow_pos_nonneg; lia).
  pose proof (wraps_range (op_bits op) v). pose proof (Z.mod_pos_bound v (2 ^ op_bits op)).
  destruct (op_sign op), (op_owtype op);
    (destruct (_ && _) eqn:E; [intros [= <-]; lia|]); intros; simplify_eq; try case_match; lia.
Qed.

(** What is written for the exact result [v]: what [stored] says, but the maximum for such a
    SET. *)
Definition written (op : bitfieldOp) (v : Z) (a : option Z) : Prop :=
  (~ far_below op -> a = stored op v) /\ (far_below op -> a = Some (type_max op)).

(** A check decides on [a], the value to store or the refusal. *)
Definition decides (op : bitfieldOp) (v : Z) (chk : Z * option Z) (a : option Z) : Prop :=
  (chk.1 = 0 /\ a = Some v \/ chk.1 <> 0 /\ chk.2 = a /\ (a = None <-> op_owtype op = BFOVERFLOW_FAIL)) /\
  (forall w, a = Some w -> type_min op <= w <= type_max op) /\
  written op v a.

Lemma overflow_decides op v :
  1 <= op_bits op -> ~ far_below op ->
  decides op v (overflow_result (op_owtype op) (type_min op) (type_max op) v (type_wrap op v)) (stored op v).
Proof.
  intros Hb Hnf. split; [|split; [by intros w; apply stored_range|by split]]. unfold overflow_result, stored.
  destruct (Z.ltb_spec (type_max op) v).
  - replace (v <=? type_max op) with false by lia. rewrite andb_false_r. right.
    assert (type_min op <= type_max op).
    { unfold type_min, type_max. assert (0 < 2 ^ (op_bits op - 1)) by (apply Z.pow_pos_nonneg; lia).
      assert (0 < 2 ^ op_bits op) by (apply Z.pow_pos_nonneg; lia). destruct (op_sign op); lia. }
    replace (v <? type_min op) with false by lia. destruct (op_owtype op); by split_and!.
  - replace (v <=? type_max op) with true by lia. rewrite andb_true_r. destruct (Z.ltb_spec v (type_min op)).
    + replace (type_min op <=? v) with false by lia. right. destruct (op_owtype op); by split_and!.
    + replace (type_min op <=? v) with true by lia. by left.
Qed.

Lemma wraps_bounds bits x : 1 <= bits <= 64 -> - 2 ^ 63 <= wraps bits x < 2 ^ 63.
Proof.
  intros Hb. pose proof (wraps_range bits x ltac:(lia)).
  assert (2 ^ (bits - 1) <= 2 ^ 63) by (apply Z.pow_le_mono_r; lia). lia.
Qed.

Lemma op_bits_range op : op_ok op -> 1 <= op_bits op <= 64.
Proof. intros (_ & Hb & _). destruct (op_sign op); lia. Qed.

Section Checks.
Variable op : bitfieldOp.
Hypothesis Hok : op_ok op.

Lemma op_i64_range : - 2 ^ 63 <= op_i64 op < 2 ^ 63.
Proof. destruct Hok as (_ & _ & Hi). unfold in_int64 in Hi. unfold_limits. lia. Qed.

Lemma signed_bound : op_sign op = true -> 0 < 2 ^ (op_bits op - 1) <= 2 ^ 63.
Proof.
  intros Hs. destruct Hok as (_ & Hb & _). rewrite Hs in Hb.
  split; [apply Z.pow_pos_nonneg|apply Z.pow_le_mono_r]; lia.
Qed.

(** A signed value to set, in the range where the check is exact and below it. *)
Lemma checkSigned_set :
  op_sign op = true -> op_opcode op = BITFIELDOP_SET ->
  exists a, decides op (op_i64 op) (checkSignedBitfieldOverflow (op_i64 op) 0 (op_bits op) (op_owtype op) true) a.
Proof.
  intros Hs Hset. pose proof op_i64_range as Hi. pose proof (signed_bound Hs) as Hp.
  destruct Hok as (_ & Hb & _). pose proof (overflow_decides op (op_i64 op) ltac:(lia)) as Hd.
  unfold type_min, type_max, type_wrap in Hd. rewrite Hs in Hb, Hd.
  destruct (decide (op_bits op < 64 /\ op_i64 op < 2 ^ (op_bits op - 1) - 2 ^ 63)) as [[Hlt Hfar]|Hreg].
  - assert (2 ^ (op_bits op - 1) <= 2 ^ 62) by (apply Z.pow_le_mono_r; lia).
    rewrite checkSigned_below by lia. eexists.
    split; [right; split; [done|]; split; [reflexivity|]; simpl; by destruct (op_owtype op)|]. split.
    + intros w Hw. unfold type_min, type_max. rewrite Hs. pose proof (wraps_range (op_bits op) (op_i64 op) ltac:(lia)).
      simpl in Hw. destruct (op_owtype op); simplify_eq; lia.
    + split.
      * intros Hnf. unfold stored, type_min, type_max, type_wrap. rewrite Hs. change (2 ^ 63) with (2 * 2 ^ 62) in *.
        replace (- 2 ^ (op_bits op - 1) <=? op_i64 op) with false by lia. cbn [andb snd].
        destruct (op_owtype op) eqn:Eow; try done. exfalso. by apply Hnf.
      * intros (_ & _ & -> & _). unfold type_max. by rewrite Hs.
  - assert (op_bits op = 64 -> 2 ^ (op_bits op - 1) = 2 ^ 63) by (by intros ->).
    rewrite checkSigned_spec by lia. rewrite Z.add_0_r. exists (stored op (op_i64 op)). apply Hd.
    intros (_ & _ & _ & H1 & H2). by apply Hreg.
Qed.

Lemma checkSigned_incr old :
  op_sign op = true -> op_opcode op = BITFIELDOP_INCRBY -> type_min op <= old <= type_max op ->
  exists a, decides op (old + op_i64 op) (checkSignedBitfieldOverflow old (op_i64 op) (op_bits op) (op_owtype op) true) a.
Proof.
  intros Hs Hinc Ho. pose proof op_i64_range as Hi. pose proof (signed_bound Hs) as Hp.
  assert (~ far_below op) as Hnf by (intros (H1 & _); congruence).
  destruct Hok as (_ & Hb & _). pose proof (overflow_decides op (old + op_i64 op) ltac:(lia) Hnf) as Hd.
  unfold type_min, type_max, type_wrap in Hd, Ho. rewrite Hs in Hb, Hd, Ho.
  rewrite checkSigned_spec by lia. by exists (stored op (old + op_i64 op)).
Qed.

Lemma unsigned_bound : op_sign op = false -> 0 < 2 ^ op_bits op <= 2 ^ 63.
Proof.
  intros Hs. destruct Hok as (_ & Hb & _). rewrite Hs in Hb.
  split; [apply Z.pow_pos_nonneg|apply Z.pow_le_mono_r]; lia.
Qed.

Lemma checkUnsigned_decides v incr :
  op_sign op = false -> 0 <= v < 2 ^ 64 -> - 2 ^ 63 <= incr < 2 ^ 63 -> v <= type_max op \/ incr = 0 ->
  exists a, decides op (v + incr) (checkUnsignedBitfieldOverflow v incr (op_bits op) (op_owtype op) true) a.
Proof.
  intros Hs Hv Hi Hc. assert (~ far_below op) as Hnf by (intros (_ & H1 & _); congruence).
  destruct Hok as (_ & Hb & _). pose proof (overflow_decides op (v + incr) ltac:(lia) Hnf) as Hd.
  unfold type_min, type_max, type_wrap in Hd, Hc. rewrite Hs in Hb, Hd, Hc.
  rewrite checkUnsigned_spec by lia. by exists (stored op (v + incr)).
Qed.

(** A stored value reads back from its bits. *)
Lemma field_val_bits w :
  type_min op <= w <= type_max op -> field_val (op_sign op) (num_bits (Z.to_nat (op_bits op)) w) = w.
Proof.
  destruct Hok as (_ & Hb & _). intros Hw. assert (1 <= op_bits op) by lia.
  unfold field_val, type_min, type_max in *. rewrite zlen_num_bits, bits_val_num_bits, Z2Nat.id by lia.
  destruct (op_sign op); [|apply Z.mod_small; lia].
  change (w mod 2 ^ op_bits op) with (wrapu (op_bits op) w). rewrite wraps_wrapu by lia. apply wraps_small; lia.
Qed.
End Checks.

(** ** Writing *)

(** What a write does to the string, with its reply and whether it counts. *)
Definition write_effect (op : bitfieldOp) (dirty : bool) (s s' : list Z) (r : reply) (n : Z) (a : option Z) : Prop :=
  let old := field_val (op_sign op) (field s (op_offset op) (op_bits op)) in
  zlen s' = zlen s /\ bytes s' /\
  (forall i, 0 <= i -> i < op_offset op \/ op_offset op + op_bits op <= i -> bit_at s' i = bit_at s i) /\
  match a with
  | None => s' = s /\ r = RNull /\ n = 0
  | Some w => field_val (op_sign op) (field s' (op_offset op) (op_bits op)) = w /\
      r = RInt (match op_opcode op with BITFIELDOP_INCRBY => w | _ => old end) /\
      n = if dirty || negb (old =? w) then 1 else 0
  end.

Section Write.
Variables (op : bitfieldOp) (s : list Z) (dirty : bool).
Hypothesis Hok : op_ok op.
Hypothesis Hin : op_offset op + op_bits op <= 8 * zlen s.
Hypothesis Hbytes : bytes s.
Hypothesis Hlen : zlen s < 2 ^ 61.

Let old := field_val (op_sign op) (field s (op_offset op) (op_bits op)).

Lemma old_range : type_min op <= old <= type_max op.
Proof.
  pose proof (op_bits_range op Hok). pose proof (bits_val_range (field s (op_offset op) (op_bits op))) as Hr.
  rewrite zlen_field in Hr by lia. unfold old, field_val, type_min, type_max. rewrite zlen_field by lia.
  destruct (op_sign op); [|lia]. pose proof (wraps_range (op_bits op) (bits_val (field s (op_offset op) (op_bits op)))). lia.
Qed.

Lemma get_old :
  getSignedBitfield s (op_offset op) (op_bits op) = Some (wraps (op_bits op) (bits_val (field s (op_offset op) (op_bits op)))) /\
  getUnsignedBitfield s (op_offset op) (op_bits op) = Some (bits_val (field s (op_offset op) (op_bits op))).
Proof. pose proof (op_bits_range op Hok). destruct Hok as ([Ho _] & _ & _). by apply get_field. Qed.

(** Storing [w] in the field. *)
Lemma set_new w :
  type_min op <= w <= type_max op ->
  exists s', setSignedBitfield s (op_offset op) (op_bits op) w = Some s' /\
    setUnsignedBitfield s (op_offset op) (op_bits op) w = Some s' /\
    zlen s' = zlen s /\ bytes s' /\ field_val (op_sign op) (field s' (op_offset op) (op_bits op)) = w /\
    (forall i, 0 <= i -> i < op_offset op \/ op_offset op + op_bits op <= i -> bit_at s' i = bit_at s i).
Proof.
  intros Hw. pose proof (op_bits_range op Hok). destruct Hok as ([Ho _] & _ & _).
  destruct (field_cut s (op_offset op) (op_bits op)) as (A & C & E & HA); [lia..|].
  pose proof (zlen_field s (op_offset op) (op_bits op) ltac:(lia)) as HF.
  destruct (setSignedBitfield_spec s (op_offset op) (op_bits op) A _ C E Hbytes Hlen) with w as (s1 & E1 & B1 & Y1 & Z1); try (done || lia).
  destruct (setUnsignedBitfield_spec s (op_offset op) (op_bits op) A _ C E Hbytes Hlen) with w as (s2 & E2 & B2 & Y2 & Z2); try (done || lia).
  assert (s2 = s1) as -> by (apply bits_of_inj; [done|done|by rewrite B1, B2]).
  destruct (field_written s s1 A _ _ C E B1) as [Hf Hframe]; [rewrite zlen_num_bits; lia|].
  rewrite HA, HF in Hf, Hframe. exists s1. split_and!; try done. rewrite Hf. by apply field_val_bits.
Qed.

(** From the decision of a check to the effect. *)
Lemma write_decided v chk a :
  decides op v chk a ->
  (a = None /\ negb (chk.1 =? 0) && bool_decide (op_owtype op = BFOVERFLOW_FAIL) = true) \/
  (exists w, a = Some w /\ negb (chk.1 =? 0) && bool_decide (op_owtype op = BFOVERFLOW_FAIL) = false /\
     (if negb (chk.1 =? 0) then default 0 chk.2 else v) = w /\ type_min op <= w <= type_max op).
Proof.
  intros ([[E1 Ea]|(E1 & Ea & Hn)] & Hr & _).
  - right. exists v. rewrite E1. cbn [Z.eqb negb andb]. split_and!; try done; by apply Hr.
  - replace (negb (chk.1 =? 0)) with true by lia. destruct a as [w|].
    + right. exists w. rewrite Ea. cbn [andb]. split_and!; try done; [|by apply Hr..].
      apply bool_decide_eq_false_2. intros Hf. by apply Hn in Hf.
    + left. split; [done|]. cbn [andb]. apply bool_decide_eq_true_2. by apply Hn.
Qed.

Lemma effect_refused : write_effect op dirty s s RNull 0 None.
Proof. by repeat split. Qed.

(** A write whose check decides [chk] on the exact result [v], where [x] is what the machine
    computes for [v]; [set] is the setter of the type. *)
Lemma write_finish (set : list Z -> Z -> Z -> Z -> option (list Z)) v x chk a (ret : Z -> Z) :
  (forall w, type_min op <= w <= type_max op -> setSignedBitfield s (op_offset op) (op_bits op) w = set s (op_offset op) (op_bits op) w) ->
  decides op v chk a -> (type_min op <= v <= type_max op -> x = v) ->
  (forall w, type_min op <= w <= type_max op -> ret w = match op_opcode op with BITFIELDOP_INCRBY => w | _ => old end) ->
  let newval := if negb (chk.1 =? 0) then default 0 chk.2 else x in
  exists s' r n, (if negb (negb (chk.1 =? 0) && bool_decide (op_owtype op = BFOVERFLOW_FAIL)) then
      s' ← set s (op_offset op) (op_bits op) newval;
      Some (s', RInt (ret newval), if dirty || negb (old =? newval) then 1 else 0)
    else Some (s, RNull, 0)) = Some (s', r, n) /\ write_effect op dirty s s' r n a.
Proof.
  intros Hset Hd Hx Hret newval. destruct (write_decided v chk a Hd) as [[-> ->]|(w & -> & -> & Hw & Hr)]; cbn [negb].
  - exists s, RNull, 0. split; [done|]. apply effect_refused.
  - assert (newval = w) as ->.
    { unfold newval. destruct (chk.1 =? 0) eqn:E; cbn [negb] in *; [|done]. rewrite Hx; [done|]. by rewrite Hw. }
    destruct (set_new w Hr) as (s' & Es & _ & Hz & Hb & Hf & Hframe). rewrite <- Hset, Es by done. cbn [mbind option_bind].
    eexists _, _, _. split; [done|]. rewrite Hret by done. by split_and!.
Qed.

Lemma field_val_old : op_sign op = true -> wraps (op_bits op) (bits_val (field s (op_offset op) (op_bits op))) = old.
Proof. intros Hs. pose proof (op_bits_range op Hok). unfold old, field_val. by rewrite Hs, zlen_field by lia. Qed.

Ltac finish_write s' r n a E Hw Ha :=
  match type of Ha with decides _ _ ?chk _ => destruct chk as [ov lim] eqn:Ec end;
  exists s', r, n, a; split; [exact E|]; split; [exact Hw|apply Ha].

Lemma bitfield_write_signed :
  op_sign op = true -> is_get (op_opcode op) = false ->
  exists s' r n a, bitfield_write s dirty op = Some (s', r, n) /\ write_effect op dirty s s' r n a /\
    written op (exact op old) a.
Proof.
  intros Hs Hng. destruct get_old as [Gs _]. pose proof old_range as Hor. pose proof (op_bits_range op Hok) as Hbr.
  pose proof (signed_bound op Hok Hs) as Hp.
  assert (forall x, type_min op <= x <= type_max op -> s64 x = x) as Hs64.
  { unfold type_min, type_max. rewrite Hs. intros x Hx. apply wraps_small; change (64 - 1) with 63; lia. }
  unfold bitfield_write, exact. rewrite Hs, Gs, field_val_old by done. cbn [mbind option_bind].
  destruct (op_opcode op) eqn:Eop; [done| |].
  - destruct (checkSigned_set op Hok Hs Eop) as [a Ha].
    destruct (write_finish setSignedBitfield (op_i64 op) (op_i64 op) _ a (fun _ => old) ltac:(done) Ha)
      as (s' & r & n & E & Hw); [done|by rewrite Eop|]. finish_write s' r n a E Hw Ha.
  - destruct (checkSigned_incr op Hok old Hs Eop Hor) as [a Ha].
    destruct (write_finish setSignedBitfield (old + op_i64 op) (s64 (old + op_i64 op)) _ a id ltac:(done) Ha)
      as (s' & r & n & E & Hw); [by apply Hs64|by rewrite Eop|]. finish_write s' r n a E Hw Ha.
Qed.

Lemma bitfield_write_unsigned :
  op_sign op = false -> is_get (op_opcode op) = false ->
  exists s' r n a, bitfield_write s dirty op = Some (s', r, n) /\ write_effect op dirty s s' r n a /\
    written op (exact op old) a.
Proof.
  intros Hs Hng. destruct get_old as [_ Gu]. pose proof old_range as Hor. pose proof (op_i64_range op Hok) as Hi.
  pose proof (unsigned_bound op Hok Hs) as Hp.
  assert (bits_val (field s (op_offset op) (op_bits op)) = old) as Hold by (unfold old, field_val; by rewrite Hs).
  assert (forall x, type_min op <= x <= type_max op -> s64 x = x /\ u64 x = x) as Hsu.
  { unfold type_min, type_max. rewrite Hs. intros x Hx.
    split; [apply wraps_small; change (64 - 1) with 63; lia|apply wrapu_small; change (2 ^ 64) with (2 * 2 ^ 63); lia]. }
  assert (forall w, type_min op <= w <= type_max op -> setSignedBitfield s (op_offset op) (op_bits op) w =
    setUnsignedBitfield s (op_offset op) (op_bits op) w) as Hset.
  { intros w Hw. unfold setSignedBitfield. by rewrite (proj2 (Hsu w Hw)). }
  assert (0 <= old < 2 ^ 64) by (destruct (Hsu old Hor) as [_ <-]; by apply wrapu_range).
  unfold bitfield_write, exact. rewrite Hs, Gu, Hold. cbn [mbind option_bind].
  destruct (op_opcode op) eqn:Eop; [done| |].
  - destruct (checkUnsigned_decides op Hok (u64 (op_i64 op)) 0 Hs) as [a Ha];
      [by apply wrapu_range|lia|by right|]. rewrite Z.add_0_r in Ha.
    destruct (write_finish setUnsignedBitfield (u64 (op_i64 op)) (u64 (op_i64 op)) _ a (fun _ => s64 old) Hset Ha)
      as (s' & r & n & E & Hw); [done|rewrite Eop; intros; by apply Hsu|]. finish_write s' r n a E Hw Ha.
  - destruct (checkUnsigned_decides op Hok old (op_i64 op) Hs) as [a Ha]; [done|done|left; apply Hor|].
    destruct (write_finish setUnsignedBitfield (old + op_i64 op) (u64 (old + op_i64 op)) _ a s64 Hset Ha)
      as (s' & r & n & E & Hw); [by apply Hsu|rewrite Eop; intros; by apply Hsu|]. finish_write s' r n a E Hw Ha.
Qed.

Lemma bitfield_write_ok :
  is_get (op_opcode op) = false ->
  exists s' r n a, bitfield_write s dirty op = Some (s', r, n) /\ write_effect op dirty s s' r n a /\
    written op (exact op old) a.
Proof.
  intros Hng. assert (op_sign op = true \/ op_sign op = false) as [Hs|Hs] by (destruct (op_sign op); auto).
  - by apply bitfield_write_signed.
  - by apply bitfield_write_unsigned.
Qed.
End Write.

(** ** Reading *)

Section Read.
Variables (s : list Z) (src : option (list Z)) (byte : Z).
Hypothesis Hsrc : src = Some s \/ (src = None /\ s = []).
Hypothesis Hbytes : bytes s.
Hypothesis Hbyte : 0 <= byte.

Lemma copy_loop_ok n : forall i buf,
  0 <= i -> i + Z.of_nat n = 9 -> zlen buf = 9 -> bytes buf ->
  (forall k, byte_at buf k = if (0 <=? k) && (k <? i) then byte_at s (byte + k) else 0) ->
  exists buf', copy_loop n i byte src (zlen s) buf = Some buf' /\ zlen buf' = 9 /\ bytes buf' /\
    forall k, 0 <= k < 9 -> byte_at buf' k = byte_at s (byte + k).
Proof.
  induction n as [|n IH]; intros i buf Hi Hn Hz Hb Hat.
  { exists buf. split_and!; try done. intros k Hk. rewrite Hat. by replace ((0 <=? k) && (k <? i)) with true by lia. }
  assert (zlen s <= byte + i -> forall k, 0 <= k < 9 -> byte_at buf k = byte_at s (byte + k)) as Hend.
  { intros Hge k Hk. rewrite Hat. destruct (Z.ltb_spec k i); [by replace (0 <=? k) with true by lia|].
    rewrite andb_false_r, byte_at_beyond by lia. done. }
  cbn [copy_loop]. destruct Hsrc as [->|[-> ->]].
  - destruct (Z.leb_spec (zlen s) (byte + i)) as [Hge|Hlt].
    + replace (i + byte >=? zlen s) with true by lia. exists buf. split_and!; try done. by apply Hend.
    + replace (i + byte >=? zlen s) with false by lia. rewrite byte_at_get by lia. cbn [mbind option_bind].
      destruct (setb_at buf i (byte_at s (i + byte))) as (buf' & -> & Hz' & Hb' & Hat'); [lia|done|by apply byte_at_byte|].
      cbn [mbind option_bind]. apply IH; [lia|lia|lia|done|]. intros k. rewrite Hat', Hat.
      destruct (Z.eqb_spec k i) as [->|Hne].
      * replace ((0 <=? i) && (i <? i + 1)) with true by lia. f_equal. lia.
      * destruct (Z.leb_spec 0 k), (Z.ltb_spec k i), (Z.ltb_spec k (i + 1)); simpl; try lia; done.
  - exists buf. split_and!; try done. apply Hend. unfold zlen. simpl. lia.
Qed.
End Read.

Lemma bitfield_get_ok op o v s :
  op_ok op -> checkType o = inr v -> holds o s -> bytes s ->
  bitfield_get v op = Some (RInt (field_val (op_sign op) (field s (op_offset op) (op_bits op)))).
Proof.
  intros Hok Ht Hh Hb. pose proof (op_bits_range op Hok) as Hbr. pose proof Hok as ([Ho _] & Hbits & _).
  unfold bitfield_get. rewrite (getObjectReadOnlyString_ok o v s Ht Hh). cbn [mbind option_bind].
  rewrite Z.shiftr_div_pow2 by lia. change (2 ^ 3) with 8.
  destruct (copy_loop_ok s (match v with Some _ => Some s | None => None end) (op_offset op / 8)) with 9%nat 0 (replicate 9 0)
    as (buf & -> & Hz & Hbb & Hat); try done; try div_lia.
  { destruct o as [[w|]|]; simpl in Ht; simplify_eq; [by left|by right]. }
  { by apply Forall_replicate. }
  { intros k. rewrite byte_at_zeros. by destruct (_ && _) eqn:E; [lia|]. }
  cbn [mbind option_bind].
  assert (field buf (op_offset op - op_offset op / 8 * 8) (op_bits op) = field s (op_offset op) (op_bits op)) as Ef.
  { apply field_ext. intros i Hi. set (r := op_offset op - op_offset op / 8 * 8).
    assert (0 <= r < 8) by (unfold r; div_lia). rewrite !bit_at_byte by lia. rewrite Hat by div_lia.
    unfold r. f_equal; [f_equal|]; div_lia. }
  destruct (get_field buf (op_offset op - op_offset op / 8 * 8) (op_bits op)) as [Gs Gu]; [div_lia|done|div_lia|done|lia|].
  rewrite Ef in Gs, Gu. unfold field_val. rewrite zlen_field by lia. destruct (op_sign op).
  - by rewrite Gs.
  - rewrite Gu. cbn [mbind option_bind]. do 2 f_equal.
    pose proof (bits_val_range (field s (op_offset op) (op_bits op))) as Hr. rewrite zlen_field in Hr by lia.
    assert (2 ^ op_bits op <= 2 ^ 63) by (apply Z.pow_le_mono_r; lia). apply wraps_small; change (64 - 1) with 63; lia.
Qed.

(** ** BITFIELD: the whole command

    The parsing loop ends and gathers operations the rest can execute; the operations take
    effect one after the other. *)

(** ** The operations in order *)

Definition field_now (s : list Z) (op : bitfieldOp) : Z := field_val (op_sign op) (field s (op_offset op) (op_bits op)).

(** The operations, the string before and after, the replies and the number of changes. *)
Inductive effects (dirty : bool) : list bitfieldOp -> list Z -> list Z -> list reply -> Z -> Prop :=
  | effects_nil s : effects dirty [] s s [] 0
  | effects_get op ops s s' rs n :
      op_opcode op = BITFIELDOP_GET -> effects dirty ops s s' rs n ->
      effects dirty (op :: ops) s s' (RInt (field_now s op) :: rs) n
  | effects_write op ops s s1 s' r rs n m a :
      op_opcode op <> BITFIELDOP_GET -> write_effect op dirty s s1 r n a ->
      written op (exact op (field_now s op)) a ->
      effects dirty ops s1 s' rs m ->
      effects dirty (op :: ops) s s' (r :: rs) (n + m).

Definition writes_inside (len : Z) (op : bitfieldOp) : Prop :=
  op_opcode op <> BITFIELDOP_GET -> op_offset op + op_bits op <= 8 * len.

Lemma is_get_true oc : is_get oc = true <-> oc = BITFIELDOP_GET.
Proof. by destruct oc. Qed.
Lemma is_get_false oc : is_get oc = false <-> oc <> BITFIELDOP_GET.
Proof. by destruct oc. Qed.

Lemma bitfield_run_ok dirty ops : forall s,
  Forall op_ok ops -> Forall (writes_inside (zlen s)) ops -> bytes s -> zlen s < 2 ^ 61 ->
  exists s' rs n, effects dirty ops s s' rs n /\ zlen s' = zlen s /\
    forall acc k, bitfield_run dirty ops (Some (Sds s)) acc k = Some (Some (Sds s'), acc ++ rs, k + n).
Proof.
  induction ops as [|op ops IH]; intros s Hok Hin Hb Hl.
  { exists s, [], 0. split; [constructor|]. split; [done|]. intros. by rewrite app_nil_r, Z.add_0_r. }
  apply Forall_cons in Hok as [Hop Hok]. apply Forall_cons in Hin as [Hi Hin]. destruct (is_get (op_opcode op)) eqn:Eg.
  - destruct (IH s Hok Hin Hb Hl) as (s' & rs & n & He & Hz & Hr). exists s', (RInt (field_now s op) :: rs), n.
    split; [constructor; [by apply is_get_true|done]|]. split; [done|]. intros acc k. cbn [bitfield_run]. unfold bitfield_exec. rewrite Eg.
    rewrite (bitfield_get_ok op (Some (StringObj (Sds s))) (Some (Sds s)) s) by done. cbn [mbind option_bind].
    rewrite Hr, <- app_assoc, Z.add_0_r. done.
  - destruct (bitfield_write_ok op s dirty Hop (Hi (proj1 (is_get_false _) Eg)) Hb Hl Eg) as (s1 & r & m & a & E & Hw & Ha).
    destruct Hw as (Hz1 & Hb1 & Hframe & Hres).
    destruct (IH s1) as (s' & rs & n & He & Hz & Hr); [done|by rewrite Hz1|done|lia|].
    exists s', (r :: rs), (m + n). split; [eapply effects_write; [by apply is_get_false| |exact Ha|done]; by split_and!|].
    split; [lia|]. intros acc k. cbn [bitfield_run]. unfold bitfield_exec. rewrite Eg, E. cbn [mbind option_bind].
    by rewrite Hr, <- app_assoc, Z.add_assoc.
Qed.

Lemma bitfield_run_read dirty ops : forall o v s acc k,
  Forall op_ok ops -> forallb (fun op => is_get (op_opcode op)) ops = true ->
  checkType o = inr v -> holds o s -> bytes s ->
  bitfield_run dirty ops v acc k = Some (v, acc ++ ((fun op => RInt (field_now s op)) <$> ops), k).
Proof.
  induction ops as [|op ops IH]; intros o v s acc k Hok Hg Ht Hh Hb; [by rewrite app_nil_r|].
  apply Forall_cons in Hok as [Hop Hok]. simpl in Hg. apply andb_true_iff in Hg as [Eg Hg].
  cbn [bitfield_run]. unfold bitfield_exec. rewrite Eg, (bitfield_get_ok op o v s) by done. cbn [mbind option_bind].
  rewrite (IH o v s) by done. rewrite <- app_assoc, Z.add_0_r. done.
Qed.

(** ** Arguments *)

Lemma string2ll_total s : exists r, string2ll s (zlen s) = Some r /\ forall v, r = Some v -> in_int64 v.
Proof. destruct (getLongLong_ok s) as (r & E & Hr). exists r. split; [done|]. intros v Hv. by apply Hr. Qed.

Lemma getBitOffset_total obey max a hash bits :
  exists r, getBitOffsetFromArgument obey max a hash bits = Some r /\ forall off, r = Some off -> 0 <= off < 2 ^ 63.
Proof.
  unfold getBitOffsetFromArgument. set (use := (first_char a =? 35) && hash && (bits >? 0)).
  assert (exists r, string2ll (drop (Z.to_nat (if use then 1 else 0)) a) (zlen a - (if use then 1 else 0)) = Some r /\
    forall v, r = Some v -> in_int64 v) as (r & -> & Hr).
  { destruct use eqn:E.
    - destruct a as [|c a]; [done|]. replace (zlen (c :: a) - 1) with (zlen a) by len_lia. apply string2ll_total.
    - rewrite Z.sub_0_r. apply string2ll_total. }
  cbn [mbind option_bind]. destruct r as [v|]; [|by eexists]. specialize (Hr v eq_refl). unfold in_int64 in Hr.
  set (l := if use then s64 (v * bits) else v).
  assert (l < 2 ^ 63) as Hl.
  { unfold l. destruct use; [pose proof (wraps_range 64 (v * bits) ltac:(lia)); lia|]. unfold_limits. lia. }
  destruct (_ || _) eqn:E; eexists; (split; [done|]); intros off Ho; [done|]. injection Ho as <-.
  apply orb_false_iff in E as [E _]. lia.
Qed.

Lemma getBitfieldType_total a :
  exists r, getBitfieldTypeFromArgument a = Some r /\
    forall sign bits, r = Some (sign, bits) -> 1 <= bits <= (if sign then 64 else 63).
Proof.
  unfold getBitfieldTypeFromArgument. destruct (_ || _); [|by eexists].
  destruct (string2ll_total (cstring (drop 1 a))) as (r & -> & _). cbn [mbind option_bind].
  destruct r as [v|]; [|by eexists]. destruct (_ || _ || _) eqn:E; eexists; (split; [done|]); intros sign bits Hr; [done|].
  simplify_eq. destruct (first_char a =? 105); simpl in E; lia.
Qed.

(** ** The parsing loop *)

Definition parse_ok (argv : list (list Z)) (st : bf_parse) : Prop :=
  2 <= bf_j st /\ Forall op_ok (bf_ops st) /\ 0 <= bf_highest st < 2 ^ 63 + 64 /\
  bf_readonly st = forallb (fun op => is_get (op_opcode op)) (bf_ops st) /\
  Forall (fun op => is_get (op_opcode op) = false -> op_offset op + op_bits op - 1 <= bf_highest st) (bf_ops st) /\
  (bf_highest st = 0 \/ Exists (fun op => is_get (op_opcode op) = false /\ op_offset op + op_bits op - 1 = bf_highest st) (bf_ops st)).

Lemma parse_opcode_args subcmd rem opcode :
  parse_opcode subcmd rem = Some opcode -> (if is_get opcode then 2 else 3) <= rem.
Proof.
  unfold parse_opcode. intros H. repeat (case_match; simplify_eq; simpl); lia.
Qed.

Section Parse.
Variables (obey : bool) (max : Z) (argv : list (list Z)).

Lemma arg_is_Some i : 0 <= i < zlen argv -> exists a, argv !! Z.to_nat i = Some a.
Proof. intros Hi. apply lookup_lt_is_Some. unfold zlen in Hi. lia. Qed.

(** The value of SET and INCRBY; GET has none. *)
Lemma value_arg opcode j :
  0 <= j -> j + (if is_get opcode then 2 else 3) < zlen argv ->
  exists r, (if is_get opcode then Some (Some 0) else a3 ← argv !! Z.to_nat (j + 3); getLongLongFromObject a3) = Some r /\
    forall v, r = Some v -> in_int64 v.
Proof.
  intros Hj Hr. destruct (is_get opcode).
  - eexists. split; [done|]. intros v [= <-]. unfold in_int64. unfold_limits. lia.
  - destruct (arg_is_Some (j + 3)) as [a ->]; [lia|]. cbn [mbind option_bind]. apply string2ll_total.
Qed.

Lemma parse_add st (sign : bool) bits off i64 opcode :
  parse_ok argv st -> 1 <= bits <= (if sign then 64 else 63) -> 0 <= off < 2 ^ 63 -> in_int64 i64 ->
  let hi := u64 (off + bits - 1) in
  parse_ok argv {| bf_j := bf_j st + (3 - (if is_get opcode then 1 else 0)) + 1;
    bf_ops := bf_ops st ++ [{| op_offset := off; op_i64 := i64; op_opcode := opcode; op_owtype := bf_owtype st;
                               op_bits := bits; op_sign := sign |}];
    bf_owtype := bf_owtype st; bf_readonly := bf_readonly st && is_get opcode;
    bf_highest := if negb (is_get opcode) && (bf_highest st <? hi) then hi else bf_highest st |}.
Proof.
  intros (Hj & Hops & Hh & Hro & Hw & Hat) Hb Ho Hi hi. assert (1 <= bits <= 64) by (destruct sign; lia).
  assert (hi = off + bits - 1) as Ehi.
  { unfold hi. apply wrapu_small. change (2 ^ 64) with (2 * 2 ^ 63). assert (64 < 2 ^ 63) by done. lia. }
  set (h := if negb (is_get opcode) && (bf_highest st <? hi) then hi else bf_highest st).
  assert (bf_highest st <= h /\ 0 <= h < 2 ^ 63 + 64 /\ (is_get opcode = false -> hi <= h)) as (Hh1 & Hh2 & Hh3).
  { unfold h. destruct (is_get opcode); simpl; [split_and!; lia || done|]. destruct (Z.ltb_spec (bf_highest st) hi); lia. }
  split_and!; simpl; [destruct (is_get opcode); lia| |lia|lia| | |].
  - apply Forall_app. split; [done|]. apply Forall_cons. split; [by split; [|split]|by apply Forall_nil].
  - rewrite forallb_app, Hro. simpl. by rewrite andb_true_r.
  - apply Forall_app. split; [eapply Forall_impl; [done|]; simpl; intros op Hop Hg; specialize (Hop Hg); lia|].
    apply Forall_cons. split; [simpl; intros Hg; specialize (Hh3 Hg); lia|by apply Forall_nil].
  - rewrite Exists_app. unfold h. destruct (negb (is_get opcode) && (bf_highest st <? hi)) eqn:E; [|tauto].
    right. right. apply Exists_cons. left. simpl. split; [by destruct (is_get opcode)|done].
Qed.

Lemma bf_parse_step st :
  parse_ok argv st ->
  (exists st', bitfield_parse_body obey max argv st = Some (inl st') /\ parse_ok argv st' /\ bf_j st < bf_j st' /\ bf_j st < zlen argv) \/
  (exists r, bitfield_parse_body obey max argv st = Some (inr r) /\ forall st', r = inr st' -> parse_ok argv st').
Proof.
  intros Hp. unfold bitfield_parse_body. pose proof Hp as (Hj & _). destruct (Z.ltb_spec (bf_j st) (zlen argv)); cycle 1.
  { right. eexists. split; [done|]. by intros st' [= <-]. }
  destruct (arg_is_Some (bf_j st)) as [subcmd ->]; [lia|]. cbn [mbind option_bind].
  destruct (parse_opcode subcmd _) as [opcode|] eqn:Eop; cycle 1.
  { destruct (_ && (_ >=? 1)) eqn:Eow; [|right; by eexists]. destruct (arg_is_Some (bf_j st + 1)) as [name ->]; [lia|].
    cbn [mbind option_bind]. destruct (parse_owtype name) as [ow|]; [|right; by eexists].
    left. eexists. split; [done|]. destruct Hp as (_ & Hp). split; [split; [simpl; lia|exact Hp]|simpl; lia]. }
  apply parse_opcode_args in Eop.
  destruct (arg_is_Some (bf_j st + 1)) as [a1 ->]; [destruct (is_get opcode); lia|].
  destruct (arg_is_Some (bf_j st + 2)) as [a2 E2]; [destruct (is_get opcode); lia|].
  cbn [mbind option_bind]. rewrite E2. cbn [mbind option_bind].
  destruct (getBitfieldType_total a1) as ([[sign bits]|] & -> & Hty); cbn [mbind option_bind]; [|right; by eexists].
  specialize (Hty sign bits eq_refl).
  destruct (getBitOffset_total obey max a2 true bits) as ([off|] & -> & Hoff); cbn [mbind option_bind]; [|right; by eexists].
  specialize (Hoff off eq_refl).
  destruct (value_arg opcode (bf_j st)) as ([i64|] & -> & Hi); [lia|destruct (is_get opcode); lia| |]; cbn [mbind option_bind];
    [|right; by eexists].
  left. eexists. split; [done|]. split; [by apply parse_add; [..|apply Hi]|simpl; destruct (is_get opcode); lia].
Qed.

Lemma bitfield_parse_ok :
  exists r, bitfield_parse obey max argv = Some r /\ forall st, r = inr st -> parse_ok argv st.
Proof.
  unfold bitfield_parse.
  apply (loop_ok _ (parse_ok argv) (fun r => forall st, r = inr st -> parse_ok argv st)
    (fun st => Z.max 0 (zlen argv - bf_j st))).
  - intros st Hp. split; [lia|]. destruct (bf_parse_step st Hp) as [(st' & E & Hp' & Hj & Hlt)|H]; [left|by right].
    exists st'. split; [done|]. split; [done|]. lia.
  - split_and!; simpl; try done; lia.
  - simpl. unfold zlen. lia.
Qed.
End Parse.

(** ** The grammar of the arguments

    Stated on the texts of the arguments, apart from the parsing code. *)

(** The end of a C string: the end of the argument or a NUL byte. *)
Definition ends (tail : list Z) : Prop := tail = [] \/ exists t, tail = 0 :: t.

(** [arg] is the word [w] in upper or lower case. *)
Definition spells (w : string) (arg : list Z) : Prop :=
  exists t tail, arg = t ++ tail /\ ends tail /\
    Forall2 (fun a c => a = c \/ (97 <= c <= 122 /\ a = c - 32)) t (bytes_of w).

(** [i1] to [i64] and [u1] to [u63]. *)
Definition type_arg (arg : list Z) (sign : bool) (bits : Z) : Prop :=
  exists d tail, arg = (if sign then 105 else 117) :: d ++ tail /\ ends tail /\ IsDec d bits /\
    1 <= bits <= (if sign then 64 else 63).

(** A bit offset, or a number of fields behind a hash sign; the product is of 64 bits. *)
Definition offset_arg (obey : bool) (max bits : Z) (arg : list Z) (off : Z) : Prop :=
  (IsDec arg off \/ exists d n, arg = 35 :: d /\ IsDec d n /\ in_int64 n /\ off = s64 (n * bits)) /\
  0 <= off <= INT64_MAX /\ (obey = true \/ off / 8 < max).

Definition overflow_arg (arg : list Z) (ow : overflow_type) : Prop :=
  match ow with
  | BFOVERFLOW_WRAP => spells "wrap" arg
  | BFOVERFLOW_SAT => spells "sat" arg
  | BFOVERFLOW_FAIL => spells "fail" arg
  end.

Definition opcode_arg (arg : list Z) (oc : bitfield_opcode) : Prop :=
  match oc with
  | BITFIELDOP_GET => spells "get" arg
  | BITFIELDOP_SET => spells "set" arg
  | BITFIELDOP_INCRBY => spells "incrby" arg
  end.

(** [operations ow args ops]: the arguments ask for [ops], [ow] being the overflow type so far. *)
Inductive operations (obey : bool) (max : Z) : overflow_type -> list (list Z) -> list bitfieldOp -> Prop :=
  | operations_nil ow : operations obey max ow [] []
  | operations_overflow ow ow' word name args ops :
      spells "overflow" word -> overflow_arg name ow' -> operations obey max ow' args ops ->
      operations obey max ow (word :: name :: args) ops
  | operations_get ow word ty off args ops sign bits offset :
      opcode_arg word BITFIELDOP_GET -> type_arg ty sign bits -> offset_arg obey max bits off offset ->
      operations obey max ow args ops ->
      operations obey max ow (word :: ty :: off :: args)
        ({| op_offset := offset; op_i64 := 0; op_opcode := BITFIELDOP_GET; op_owtype := ow; op_bits := bits; op_sign := sign |} :: ops)
  | operations_write ow word ty off val args ops oc sign bits offset v :
      oc <> BITFIELDOP_GET -> opcode_arg word oc -> type_arg ty sign bits -> offset_arg obey max bits off offset ->
      IsDec val v -> in_int64 v -> operations obey max ow args ops ->
      operations obey max ow (word :: ty :: off :: val :: args)
        ({| op_offset := offset; op_i64 := v; op_opcode := oc; op_owtype := ow; op_bits := bits; op_sign := sign |} :: ops).

(** *** The parsing code decides the grammar *)

Lemma cstring_split s : exists tail, s = cstring s ++ tail /\ ends tail.
Proof.
  induction s as [|c s (tail & E & He)]; [exists []; split; [done|by left]|]. cbn [cstring].
  destruct (Z.eqb_spec c 0) as [->|]; [exists (0 :: s); split; [done|right; by eexists]|].
  exists tail. split; [simpl; by f_equal|done].
Qed.

Lemma cstring_ends t tail : Forall (fun c => c <> 0) t -> ends tail -> cstring (t ++ tail) = t.
Proof.
  intros Ht He. induction Ht as [|c t Hc Ht IH]; simpl.
  - destruct He as [->|(u & ->)]; done.
  - destruct (Z.eqb_spec c 0); [done|]. by rewrite IH.
Qed.

Lemma strcaseeq_spec arg w : Forall (fun c => 97 <= c <= 122) (bytes_of w) -> strcaseeq arg w = true <-> spells w arg.
Proof.
  intros Hw. unfold strcaseeq, spells. rewrite bool_decide_eq_true. split.
  - intros E. destruct (cstring_split arg) as (tail & Ea & He). exists (cstring arg), tail. split; [done|]. split; [done|].
    revert Hw. rewrite <- E. clear. induction (cstring arg) as [|c s IH]; intros Hw; [constructor|].
    simpl in Hw. apply Forall_cons in Hw as [Hc Hw]. constructor; [|by apply IH].
    unfold tolower in *. destruct (_ && _) eqn:E; [right; lia|by left].
  - intros (t & tail & -> & He & Hf). rewrite cstring_ends; [| |done].
    + clear He. revert Hw Hf. generalize (bytes_of w). intros l Hw Hf. induction Hf as [|a c t l [->|[H1 ->]] Hf IH]; [done|..];
        apply Forall_cons in Hw as [Hc Hw]; rewrite fmap_cons, (IH Hw); f_equal; unfold tolower; case_match; lia.
    + clear He. revert Hw Hf. generalize (bytes_of w). intros l Hw Hf. induction Hf as [|a c t l Ha Hf IH]; [done|].
      apply Forall_cons in Hw as [Hc Hw]. constructor; [lia|by apply IH].
Qed.

Lemma word_check w : forallb (fun c => (97 <=? c) && (c <=? 122)) (bytes_of w) = true -> Forall (fun c => 97 <= c <= 122) (bytes_of w).
Proof. intros H. apply Forall_forall. intros c Hc. rewrite forallb_forall in H. apply list_elem_of_In in Hc. specialize (H c Hc). lia. Qed.

Ltac word_spec H := match type of H with context [strcaseeq _ ?w] => rewrite (strcaseeq_spec _ w (word_check w eq_refl)) in H end.

(** An argument spells one word only. *)
Lemma spells_word w w' arg :
  forallb (fun c => (97 <=? c) && (c <=? 122)) (bytes_of w) = true -> forallb (fun c => (97 <=? c) && (c <=? 122)) (bytes_of w') = true ->
  spells w arg -> spells w' arg -> bytes_of w = bytes_of w'.
Proof.
  intros Hw Hw' H H'. apply (strcaseeq_spec arg w (word_check w Hw)) in H. apply (strcaseeq_spec arg w' (word_check w' Hw')) in H'.
  unfold strcaseeq in *. apply bool_decide_eq_true in H, H'. congruence.
Qed.

Ltac other_word H H' :=
  exfalso; simpl in H, H'; lazymatch type of H with spells ?w _ => lazymatch type of H' with spells ?w' _ =>
    discriminate (spells_word w w' _ eq_refl eq_refl H H') end end.

Lemma parse_owtype_spec name : match parse_owtype name with Some ow => forall ow', overflow_arg name ow' <-> ow' = ow | None => forall ow', ~ overflow_arg name ow' end.
Proof.
  unfold parse_owtype. destruct (strcaseeq name "wrap") eqn:E1; [word_spec E1|destruct (strcaseeq name "sat") eqn:E2; [word_spec E2|destruct (strcaseeq name "fail") eqn:E3; [word_spec E3|]]].
  - intros ow'. split; [|by intros ->]. destruct ow'; [done|intros H; other_word E1 H..].
  - intros ow'. split; [|by intros ->]. destruct ow'; [intros H; other_word E2 H|done|intros H; other_word E2 H].
  - intros ow'. split; [|by intros ->]. destruct ow'; [intros H; other_word E3 H..|done].
  - apply not_true_iff_false in E1, E2, E3. word_spec E1. word_spec E2. word_spec E3. by intros [].
Qed.

Lemma spells_reflect w arg :
  forallb (fun c => (97 <=? c) && (c <=? 122)) (bytes_of w) = true -> reflect (spells w arg) (strcaseeq arg w).
Proof. intros Hw. apply iff_reflect. symmetry. by apply strcaseeq_spec, word_check. Qed.

Lemma parse_opcode_spec word rem :
  match parse_opcode word rem with
  | Some oc => opcode_arg word oc /\ (forall oc', opcode_arg word oc' -> oc' = oc)
  | None => forall oc, opcode_arg word oc -> rem < (if is_get oc then 2 else 3)
  end.
Proof.
  unfold parse_opcode.
  destruct (spells_reflect "get" word eq_refl) as [Hg|Hg], (spells_reflect "set" word eq_refl) as [Hs|Hs],
    (spells_reflect "incrby" word eq_refl) as [Hi|Hi]; cbn [andb];
    try (other_word Hg Hs); try (other_word Hg Hi); try (other_word Hs Hi).
  1: destruct (Z.geb_spec rem 2). 3,4: destruct (Z.geb_spec rem 3).
  all: try (split; [done|]); intros [] Hoc; done || (simpl; lia).
Qed.

Lemma IsDec_nonzero d v : IsDec d v -> Forall (fun c => c <> 0) d.
Proof.
  assert (forall u n, IsDecU u n -> Forall (fun c => c <> 0) u) as Hu.
  { intros u n H. apply IsDecU_value in H as (_ & Hd & _). eapply Forall_impl; [exact Hd|]. simpl. intros c Hc. unfold is_digit in Hc. lia. }
  unfold IsDec. destruct (v <? 0); [|apply Hu]. intros (u & -> & H). constructor; [lia|by eapply Hu].
Qed.

Lemma getBitfieldType_spec a : exists r, getBitfieldTypeFromArgument a = Some r /\ forall sign bits, r = Some (sign, bits) <-> type_arg a sign bits.
Proof.
  unfold getBitfieldTypeFromArgument, type_arg. destruct a as [|c a].
  { exists None. split; [done|]. intros sign bits. split; [done|]. by intros (d & tail & E & _). }
  simpl first_char. change (drop 1 (c :: a)) with a.
  destruct ((c =? 105) || (c =? 117)) eqn:Ec; cycle 1.
  { exists None. split; [done|]. intros sign bits. split; [done|]. intros (d & tail & [= -> _] & _). destruct sign; lia. }
  destruct (getLongLong_ok (cstring a)) as (r & E & Hr). unfold getLongLongFromObject in E. rewrite E. cbn [mbind option_bind].
  destruct (cstring_split a) as (tail & Ea & He).
  assert (forall sign bits d tl, c :: a = (if sign : bool then 105 else 117) :: d ++ tl -> ends tl -> IsDec d bits -> d = cstring a /\ (c =? 105) = sign) as Hd.
  { intros sign bits d tl [= Hc ->] Ht Hd. rewrite cstring_ends by (done || by eapply IsDec_nonzero). split; [done|]. destruct sign; lia. }
  destruct r as [v|]; cycle 1.
  { exists None. split; [done|]. intros sign bits. split; [done|]. intros (d & tl & Ed & Ht & Hdec & Hb).
    destruct (Hd _ _ _ _ Ed Ht Hdec) as [-> _].
    assert (None = Some bits); [|done]. apply Hr. split; [done|]. unfold in_int64. unfold_limits. destruct sign; lia. }
  destruct (proj1 (Hr v) eq_refl) as [Hv Hi].
  assert (forall sign bits d tl, c :: a = (if sign : bool then 105 else 117) :: d ++ tl -> ends tl -> IsDec d bits -> 1 <= bits <= (if sign then 64 else 63) -> bits = v) as Hbits.
  { intros sign bits d tl Ed Ht Hdec Hb. destruct (Hd _ _ _ _ Ed Ht Hdec) as [-> _].
    assert (Some v = Some bits) as [= ->]; [|done]. apply Hr. split; [done|]. unfold in_int64. unfold_limits. destruct sign; lia. }
  destruct (_ || _ || _) eqn:Er.
  - exists None. split; [done|]. intros sign bits. split; [done|]. intros (d & tl & Ed & Ht & Hdec & Hb). exfalso.
    destruct (Hd _ _ _ _ Ed Ht Hdec) as [-> Hs]. pose proof (Hbits _ _ _ _ Ed Ht Hdec Hb) as ->. rewrite Hs in Er. destruct sign; simpl in Er; lia.
  - eexists. split; [done|]. intros sign bits. split.
    + intros [= <- <-]. exists (cstring a), tail. rewrite <- Ea. split; [f_equal; destruct (Z.eqb_spec c 105); lia|]. split; [done|]. split; [done|].
      destruct (c =? 105); simpl in Er; lia.
    + intros (d & tl & Ed & Ht & Hdec & Hb). pose proof (Hbits _ _ _ _ Ed Ht Hdec Hb) as ->. by destruct (Hd _ _ _ _ Ed Ht Hdec) as [_ ->].
Qed.

Lemma getBitOffset_spec obey max a bits :
  0 < bits -> exists r, getBitOffsetFromArgument obey max a true bits = Some r /\ forall off, r = Some off <-> offset_arg obey max bits a off.
Proof.
  intros Hb. unfold getBitOffsetFromArgument, offset_arg. replace (bits >? 0) with true by lia. rewrite andb_true_r, andb_true_r.
  destruct (Z.eqb_spec (first_char a) 35) as [Ef|Ef].
  - destruct a as [|c a]; [done|]. simpl in Ef. subst c. change (drop (Z.to_nat 1) (35 :: a)) with a. replace (zlen (35 :: a) - 1) with (zlen a) by len_lia.
    assert (forall off, ~ IsDec (35 :: a) off) as Hno by (intros off H; apply IsDec_head in H; lia).
    destruct (getLongLong_ok a) as (r & E & Hr). unfold getLongLongFromObject in E. rewrite E. cbn [mbind option_bind]. destruct r as [v|]; cycle 1.
    { exists None. split; [done|]. intros off. split; [done|]. intros ([H|(d & n & [= <-] & Hd & Hi & _)] & _); [by destruct (Hno off)|].
      assert (None = Some n); [by apply Hr|done]. }
    destruct (proj1 (Hr v) eq_refl) as [Hv Hi]. pose proof (offset_check obey max (s64 (v * bits))) as Hc.
    assert (forall d n, 35 :: a = 35 :: d -> IsDec d n -> in_int64 n -> n = v) as Hn.
    { intros d n [= <-] Hd Hin. assert (Some v = Some n) as [= ->]; [|done]. by apply Hr. }
    destruct (_ || _).
    + exists None. split; [done|]. intros off. split; [done|]. intros ([H|(d & n & Ed & Hd & Hin & ->)] & [H1 _] & H2); [by destruct (Hno off)|].
      pose proof (Hn _ _ Ed Hd Hin) as ->. assert (true = false); [by apply Hc|done].
    + eexists. split; [done|]. destruct (proj1 Hc eq_refl) as [H1 H2]. intros off. split.
      * intros [= <-]. split; [right; by exists a, v|]. split; [|done]. pose proof (wraps_range 64 (v * bits) ltac:(lia)). unfold_limits. lia.
      * intros ([H|(d & n & Ed & Hd & Hin & ->)] & _); [by destruct (Hno off)|]. by pose proof (Hn _ _ Ed Hd Hin) as ->.
  - change (drop (Z.to_nat 0) a) with a. rewrite Z.sub_0_r.
    destruct (getLongLong_ok a) as (r & E & Hr). unfold getLongLongFromObject in E. rewrite E. cbn [mbind option_bind].
    assert (forall off, (exists d n, a = 35 :: d /\ IsDec d n /\ in_int64 n /\ off = s64 (n * bits)) -> False) as Hno by (intros off (d & n & -> & _); done).
    assert (forall off, 0 <= off <= INT64_MAX -> in_int64 off) as H64 by (intros off; unfold in_int64; unfold_limits; lia).
    destruct r as [v|]; cycle 1.
    { exists None. split; [done|]. intros off. split; [done|]. intros ([H|H] & Hr1 & _); [|by destruct (Hno off)].
      assert (None = Some off); [|done]. apply Hr. split; [done|by apply H64]. }
    destruct (proj1 (Hr v) eq_refl) as [Hv Hi]. pose proof (offset_check obey max v) as Hc.
    assert (forall off, IsDec a off -> 0 <= off <= INT64_MAX -> off = v) as Hn.
    { intros off Hd Ho. assert (Some v = Some off) as [= ->]; [|done]. apply Hr. split; [done|by apply H64]. }
    destruct (_ || _).
    + exists None. split; [done|]. intros off. split; [done|]. intros ([H|H] & H1 & H2); [|by destruct (Hno off)].
      pose proof (Hn off H H1) as ->. assert (true = false); [apply Hc; split; [lia|done]|done].
    + eexists. split; [done|]. destruct (proj1 Hc eq_refl) as [H1 H2]. intros off. split.
      * intros [= <-]. split; [by left|]. split; [|done]. unfold in_int64 in Hi. lia.
      * intros ([H|H] & H3 & _); [by pose proof (Hn off H H3) as ->|by destruct (Hno off)].
Qed.

(** The errors of the arguments. *)
Definition argument_error (e : biterr) : Prop :=
  e = ErrSyntax \/ e = ErrOverflowType \/ e = ErrFieldType \/ e = ErrOffset \/ e = ErrNotInteger.

Section Grammar.
Context (obey : bool) (max : Z) (argv : list (list Z)).

Lemma arg_at pre args st n : argv = pre ++ args -> bf_j st = zlen pre -> argv !! Z.to_nat (bf_j st + Z.of_nat n) = args !! n.
Proof. intros -> ->. unfold zlen. rewrite lookup_app_r by lia. f_equal. lia. Qed.

(** A step of the loop on arguments that ask for an operation. *)
Lemma step_operation pre word args st oc :
  argv = pre ++ word :: args -> bf_j st = zlen pre -> parse_opcode word (zlen args) = Some oc ->
  (if is_get oc then (2 <= length args)%nat else (3 <= length args)%nat) ->
  exists ty off rest val sz, args = ty :: off :: rest /\
    (if is_get oc then val = None /\ rest = sz else exists v, val = Some v /\ rest = v :: sz) /\
    exists r, bitfield_parse_body obey max argv st = Some r /\
      match r with
      | inr (inl e) => argument_error e /\ forall ow ops, ~ operations obey max ow (word :: args) ops
      | inr (inr _) => False
      | inl st' => bf_j st' = zlen (pre ++ [word; ty; off] ++ match val with Some v => [v] | None => [] end) /\ bf_owtype st' = bf_owtype st /\
          exists op, bf_ops st' = bf_ops st ++ [op] /\
            forall ops, operations obey max (bf_owtype st) (word :: args) ops <-> exists ops', ops = op :: ops' /\ operations obey max (bf_owtype st) sz ops'
      end.
Proof.
  intros Ea Hj Hp Hl. pose proof (parse_opcode_spec word (zlen args)) as Hsp. rewrite Hp in Hsp. destruct Hsp as [Hoc Huniq].
  assert (exists ty off rest, args = ty :: off :: rest) as (ty & off & rest & ->).
  { destruct args as [|ty [|off rest]]; [destruct (is_get oc); simpl in Hl; lia..|eauto]. }
  assert (~ spells "overflow" word) as Hnow by (intros Hw; destruct oc; other_word Hw Hoc).
  assert (exists val sz, if is_get oc then val = None /\ rest = sz else exists v, val = Some v /\ rest = v :: sz) as (val & sz & Hval).
  { destruct (is_get oc) eqn:Eg; [by exists None, rest|]. destruct rest as [|v sz]; [simpl in Hl; lia|]. exists (Some v), sz. eauto. }
  exists ty, off, rest, val, sz. split; [done|]. split; [done|].
  unfold bitfield_parse_body. assert (zlen argv = zlen pre + 1 + zlen (ty :: off :: rest)) as Hz by (rewrite Ea; len_lia).
  pose proof (zlen_nonneg (ty :: off :: rest)). replace (bf_j st <? zlen argv) with true by lia.
  assert (argv !! Z.to_nat (bf_j st) = Some word) as ->.
  { pose proof (arg_at pre _ st 0 Ea Hj) as E. simpl in E. by rewrite Z.add_0_r in E. }
  cbn [mbind option_bind]. replace (zlen argv - bf_j st - 1) with (zlen (ty :: off :: rest)) by lia. rewrite Hp.
  pose proof (arg_at pre _ st 1 Ea Hj) as E1. pose proof (arg_at pre _ st 2 Ea Hj) as E2. pose proof (arg_at pre _ st 3 Ea Hj) as E3.
  change (Z.of_nat 1) with 1 in E1. change (Z.of_nat 2) with 2 in E2. change (Z.of_nat 3) with 3 in E3. cbn [lookup list_lookup] in E1, E2, E3.
  rewrite E1. cbn [mbind option_bind]. rewrite E2. cbn [mbind option_bind].
  destruct (getBitfieldType_spec ty) as (rt & -> & Hty). cbn [mbind option_bind]. destruct rt as [[sign bits]|]; cycle 1.
  { eexists. split; [done|]. split; [unfold argument_error; tauto|]. intros ow ops Ho.
    inversion Ho; subst; [done|..]; match goal with Ht : type_arg ty _ _ |- _ => by apply Hty in Ht end. }
  pose proof (proj1 (Hty sign bits) eq_refl) as Htyp.
  assert (forall sign' bits', type_arg ty sign' bits' -> sign' = sign /\ bits' = bits) as Htu by (intros sign' bits' Ht; apply Hty in Ht; by simplify_eq).
  assert (0 < bits) as Hbp by (destruct Htyp as (d & tail & _ & _ & _ & Hb); lia).
  destruct (getBitOffset_spec obey max off bits Hbp) as (ro & -> & Hoff). cbn [mbind option_bind]. destruct ro as [offset|]; cycle 1.
  { eexists. split; [done|]. split; [unfold argument_error; tauto|]. intros ow ops Ho.
    inversion Ho; subst; [done|..]; match goal with Ht : type_arg ty _ _, Hx : offset_arg _ _ _ off _ |- _ => apply Htu in Ht as [-> ->]; by apply Hoff in Hx end. }
  pose proof (proj1 (Hoff offset) eq_refl) as Hofs.
  assert (forall offset', offset_arg obey max bits off offset' -> offset' = offset) as Hou by (intros offset' Hx; apply Hoff in Hx; by simplify_eq).
  destruct (is_get oc) eqn:Eg.
  - apply is_get_true in Eg as ->. destruct Hval as [-> ->]. cbn [mbind option_bind].
    eexists. split; [done|]. cbn [bf_j bf_ops bf_owtype]. split; [rewrite Hj; simpl; len_lia|]. split; [done|]. eexists. split; [done|].
    intros ops. split.
    + intros Ho. inversion Ho as [| |? ? ? ? ? ops' ? ? ? Hw Ht Hx Hrest|? ? ? ? ? ? ? oc' ? ? ? ? Hne Hw]; subst; [done|..].
      * apply Htu in Ht as [-> ->]. apply Hou in Hx as ->. by eexists.
      * by apply Huniq in Hw.
    + intros (ops' & -> & Hrest). by apply operations_get.
  - destruct Hval as (v & -> & ->). simpl in E3. rewrite E3. cbn [mbind option_bind].
    assert (oc <> BITFIELDOP_GET) as Hne by (by apply is_get_false).
    destruct (getLongLong_ok v) as (rv & -> & Hrv). cbn [mbind option_bind]. destruct rv as [i64|]; cycle 1.
    { eexists. split; [done|]. split; [unfold argument_error; tauto|]. intros ow ops Ho.
      inversion Ho as [| |? ? ? ? ? ? ? ? ? Hw|? ? ? ? ? ? ? oc' ? ? ? ? Hne' Hw Ht Hx Hd Hi]; subst; [done|..].
      - by apply Huniq in Hw.
      - assert (None = Some v0) by (by apply Hrv). done. }
    destruct (proj1 (Hrv i64) eq_refl) as [Hdec Hint].
    eexists. split; [done|]. cbn [bf_j bf_ops bf_owtype]. split; [rewrite Hj; simpl; len_lia|]. split; [done|]. eexists. split; [done|].
    intros ops. split.
    + intros Ho. inversion Ho as [| |? ? ? ? ? ? ? ? ? Hw|? ? ? ? ? ? ops' oc' ? ? ? v' Hne' Hw Ht Hx Hd Hi Hrest]; subst; [done|..].
      * by apply Huniq in Hw.
      * apply Htu in Ht as [-> ->]. apply Hou in Hx as ->. apply Huniq in Hw as ->. assert (Some i64 = Some v') as [= ->] by (by apply Hrv). by eexists.
    + intros (ops' & -> & Hrest). by apply operations_write.
Qed.

(** A step on anything else: the overflow type, or an error. *)
Lemma step_other pre word args st :
  argv = pre ++ word :: args -> bf_j st = zlen pre -> parse_opcode word (zlen args) = None ->
  exists r, bitfield_parse_body obey max argv st = Some r /\
    match r with
    | inr (inl e) => argument_error e /\ forall ow ops, ~ operations obey max ow (word :: args) ops
    | inr (inr _) => False
    | inl st' => exists name rest, args = name :: rest /\ bf_j st' = zlen (pre ++ [word; name]) /\ bf_ops st' = bf_ops st /\
        forall ow ops, operations obey max ow (word :: args) ops <-> operations obey max (bf_owtype st') rest ops
    end.
Proof.
  intros Ea Hj Hp. pose proof (parse_opcode_spec word (zlen args)) as Hno. rewrite Hp in Hno.
  assert (forall ow ops, operations obey max ow (word :: args) ops -> spells "overflow" word /\ exists name rest ow', args = name :: rest /\ overflow_arg name ow' /\ operations obey max ow' rest ops) as Hinv.
  { intros ow ops Ho. inversion Ho as [|? ? ? name rest ? Hw Hn Hr|? ? ? ? ? ? ? ? ? Hw|? ? ? ? ? ? ? oc' ? ? ? ? Hne Hw]; subst.
    - eauto 8.
    - apply (Hno BITFIELDOP_GET) in Hw. rewrite !zlen_cons in Hw. pose proof (zlen_nonneg args0). simpl in Hw. lia.
    - apply (Hno oc') in Hw. rewrite !zlen_cons in Hw. pose proof (zlen_nonneg args0). destruct oc'; simpl in Hw; lia. }
  unfold bitfield_parse_body. assert (zlen argv = zlen pre + 1 + zlen args) as Hz by (rewrite Ea; len_lia).
  pose proof (zlen_nonneg args). replace (bf_j st <? zlen argv) with true by lia.
  assert (argv !! Z.to_nat (bf_j st) = Some word) as ->.
  { pose proof (arg_at pre _ st 0 Ea Hj) as E. simpl in E. by rewrite Z.add_0_r in E. }
  cbn [mbind option_bind]. replace (zlen argv - bf_j st - 1) with (zlen args) by lia. rewrite Hp.
  destruct (strcaseeq word "overflow") eqn:Eo; cbn [andb]; cycle 1.
  { eexists. split; [done|]. split; [unfold argument_error; tauto|]. intros ow ops Ho. apply Hinv in Ho as [Hw _].
    apply not_true_iff_false in Eo. word_spec Eo. done. }
  word_spec Eo. destruct args as [|name rest].
  { change (zlen [] >=? 1) with false. eexists. split; [done|]. split; [unfold argument_error; tauto|]. intros ow ops Ho. by apply Hinv in Ho as (_ & ? & ? & ? & ? & _). }
  pose proof (zlen_nonneg rest). replace (zlen (name :: rest) >=? 1) with true by len_lia.
  pose proof (arg_at pre _ st 1 Ea Hj) as E1. change (Z.of_nat 1) with 1 in E1. simpl in E1. rewrite E1. cbn [mbind option_bind].
  pose proof (parse_owtype_spec name) as Hns. destruct (parse_owtype name) as [ow1|].
  - eexists. split; [done|]. exists name, rest. split; [done|]. cbn [bf_j bf_ops bf_owtype]. split; [rewrite Hj; len_lia|]. split; [done|].
    intros ow ops. split.
    + intros Ho. apply Hinv in Ho as (_ & name' & rest' & ow' & [= <- <-] & Hn & Ho). by apply Hns in Hn as ->.
    + intros Ho. eapply operations_overflow; [done|by apply Hns|done].
  - eexists. split; [done|]. split; [unfold argument_error; tauto|]. intros ow ops Ho. apply Hinv in Ho as (_ & name' & rest' & ow' & [= <- <-] & Hn & _). by apply Hns in Hn.
Qed.

Lemma parse_loop_spec n : forall pre args st fuel,
  (length args <= n)%nat -> (length args < fuel)%nat -> argv = pre ++ args -> bf_j st = zlen pre ->
  exists r, loop fuel (bitfield_parse_body obey max argv) st = Some r /\
    match r with
    | inl e => argument_error e /\ forall ops, ~ operations obey max (bf_owtype st) args ops
    | inr st' => exists ops0, bf_ops st' = bf_ops st ++ ops0 /\
        forall ops, operations obey max (bf_owtype st) args ops <-> ops = ops0
    end.
Proof.
  induction n as [|n IH]; intros pre args st fuel Hn Hf Ea Hj; (destruct fuel as [|fuel]; [lia|]); rewrite loop_step;
    (destruct args as [|word args]; [|try (simpl in Hn; lia)]).
  1,2: unfold bitfield_parse_body; rewrite Ea, app_nil_r, Hj, Z.ltb_irrefl; eexists; (split; [done|]); cbn beta iota;
    exists []; (split; [by rewrite app_nil_r|]); intros ops; split; [by inversion 1|intros ->; constructor].
  simpl in Hn, Hf. destruct (parse_opcode word (zlen args)) as [oc|] eqn:Hp.
  - assert (if is_get oc then (2 <= length args)%nat else (3 <= length args)%nat) as Hl.
    { pose proof (parse_opcode_args _ _ _ Hp) as Hrem. unfold zlen in Hrem. destruct (is_get oc); lia. }
    destruct (step_operation pre word args st oc Ea Hj Hp Hl) as (ty & off & rest & val & sz & -> & Hval & r & -> & Hr).
    destruct r as [st'|[e|]]; [|eexists; split; [done|]; destruct Hr as [He Hno]; by split|done].
    destruct Hr as (Hj' & How & op & Hops & Hiff).
    destruct (IH (pre ++ [word; ty; off] ++ match val with Some v => [v] | None => [] end) sz st' fuel) as (r & -> & Hr).
    1-3: destruct (is_get oc); [destruct Hval as [-> ->]|destruct Hval as (v & -> & ->)]; simpl in Hn, Hf; try lia; by rewrite Ea, <- app_assoc.
    { done. }
    exists r. split; [done|]. rewrite How in Hr. destruct r as [e|st''].
    + destruct Hr as [He Hno]. split; [done|]. intros ops Ho. apply Hiff in Ho as (ops' & -> & Ho). by apply Hno in Ho.
    + destruct Hr as (ops0 & E0 & Hr). exists (op :: ops0). split; [by rewrite E0, Hops, <- app_assoc|].
      intros ops. rewrite Hiff. split; [intros (ops' & -> & Ho); by apply Hr in Ho as ->|].
      intros ->. exists ops0. split; [done|by apply Hr].
  - destruct (step_other pre word args st Ea Hj Hp) as (r & -> & Hr).
    destruct r as [st'|[e|]]; [|eexists; split; [done|]; destruct Hr as [He Hno]; by split|done].
    destruct Hr as (name & rest & -> & Hj' & Hops & Hiff). simpl in Hn, Hf.
    destruct (IH (pre ++ [word; name]) rest st' fuel) as (r & -> & Hr); [lia|lia|by rewrite Ea, <- app_assoc|done|].
    exists r. split; [done|]. destruct r as [e|st''].
    + destruct Hr as [He Hno]. split; [done|]. intros ops Ho. apply Hiff in Ho. by apply Hno in Ho.
    + destruct Hr as (ops0 & E0 & Hr). exists ops0. split; [by rewrite E0, Hops|]. intros ops. by rewrite Hiff.
Qed.
End Grammar.

(** The parser answers the operations the arguments ask for, or an error when they ask for none. *)
Lemma bitfield_parse_spec obey max c key args :
  exists r, bitfield_parse obey max (c :: key :: args) = Some r /\
    match r with
    | inl e => argument_error e /\ forall ops, ~ operations obey max BFOVERFLOW_WRAP args ops
    | inr st => forall ops, operations obey max BFOVERFLOW_WRAP args ops <-> ops = bf_ops st
    end.
Proof.
  unfold bitfield_parse. set (st0 := {| bf_j := 2 |}).
  destruct (parse_loop_spec obey max (c :: key :: args) (length args) [c; key] args st0 (S (length (c :: key :: args))))
    as (r & -> & Hr); [lia|simpl; lia|done|done|]. exists r. split; [done|].
  destruct r as [e|st]; [done|]. by destruct Hr as (ops0 & -> & Hr).
Qed.

(** ** The command *)

Definition unchanged (o : option robj) (e : biterr) : outcome :=
  {| out_reply := RErr e; out_value := o; out_dirty := 0 |}.

(** The string is padded no further than the last byte a write reaches. *)
Definition padded_for (ops : list bitfieldOp) (s : list Z) (n : nat) : Prop :=
  n = 0%nat \/ Exists (fun op => op_opcode op <> BITFIELDOP_GET /\ (op_offset op + op_bits op - 1) / 8 + 1 = zlen s + Z.of_nat n) ops.

(** What a command that asks for [ops] answers and leaves, given the object before. *)
Definition bitfield_outcome (ro : bool) (ops : list bitfieldOp) (o : option robj) (s : list Z) (out : outcome) : Prop :=
  (Forall (fun op => op_opcode op = BITFIELDOP_GET) ops ->
    out = {| out_reply := RArray ((fun op => RInt (field_now s op)) <$> ops); out_value := o; out_dirty := 0 |}) /\
  (Exists (fun op => op_opcode op <> BITFIELDOP_GET) ops ->
    if ro then out = unchanged o ErrReadOnly
    else exists n0 s' rs n,
      let s1 := s ++ replicate n0 0 in
      padded_for ops s n0 /\ Forall (writes_inside (zlen s1)) ops /\
      effects (bool_decide (o = None) || bool_decide (n0 <> 0%nat)) ops s1 s' rs n /\ zlen s' = zlen s1 /\
      out = {| out_reply := RArray rs; out_value := Some (StringObj (Sds s')); out_dirty := n |}).

Lemma forallb_gets ops : forallb (fun op => is_get (op_opcode op)) ops = true <-> Forall (fun op => op_opcode op = BITFIELDOP_GET) ops.
Proof.
  induction ops as [|op ops IH]; simpl; [split; [by constructor|done]|].
  by rewrite andb_true_iff, Forall_cons, is_get_true, IH.
Qed.

Lemma gets_writes ops : Forall (fun op => op_opcode op = BITFIELDOP_GET) ops -> Exists (fun op => op_opcode op <> BITFIELDOP_GET) ops -> False.
Proof. rewrite Forall_forall, Exists_exists. intros Hf (op & Hin & Hne). by apply Hne, Hf. Qed.

Lemma gets_or_writes ops : Forall (fun op => op_opcode op = BITFIELDOP_GET) ops \/ Exists (fun op => op_opcode op <> BITFIELDOP_GET) ops.
Proof.
  induction ops as [|op ops [IH|IH]]; [by left| |right; by apply Exists_cons_tl].
  destruct (op_opcode op) eqn:E; [left; by constructor|right; apply Exists_cons_hd; by rewrite E..].
Qed.

(** The farthest write decides the padding. *)
Lemma writes_reach (s : list Z) st (n0 : nat) :
  Forall op_ok (bf_ops st) -> bf_readonly st = forallb (fun op => is_get (op_opcode op)) (bf_ops st) -> bf_readonly st = false ->
  Forall (fun op => is_get (op_opcode op) = false -> op_offset op + op_bits op - 1 <= bf_highest st) (bf_ops st) ->
  (bf_highest st = 0 \/ Exists (fun op => is_get (op_opcode op) = false /\ op_offset op + op_bits op - 1 = bf_highest st) (bf_ops st)) ->
  zlen s + Z.of_nat n0 = Z.max (zlen s) (bf_highest st / 8 + 1) -> padded_for (bf_ops st) s n0.
Proof.
  intros Hops Hro Hrd Hw Hat Hn. unfold padded_for. destruct n0 as [|n]; [by left|]. right. destruct Hat as [H0|Hat]; cycle 1.
  { eapply Exists_impl; [exact Hat|]. simpl. intros op [Hg E]. split; [by apply is_get_false|]. rewrite E. lia. }
  assert (Exists (fun op => op_opcode op <> BITFIELDOP_GET) (bf_ops st)) as Hex.
  { destruct (gets_or_writes (bf_ops st)) as [Hf|?]; [|done]. apply forallb_gets in Hf. congruence. }
  apply Exists_exists in Hex as (op & Hin & Hne). apply Exists_exists. exists op. split; [done|]. split; [done|].
  rewrite Forall_forall in Hw, Hops. pose proof (Hw op Hin (proj2 (is_get_false _) Hne)). destruct (Hops op Hin) as ([Ho _] & Hbits & _).
  replace (op_offset op + op_bits op - 1) with 0 by lia. rewrite H0 in Hn. change (0 / 8) with 0 in *. lia.
Qed.

Section Outcome.
Context (obey : bool) (max : Z) (argv : list (list Z)) (o : option robj) (s : list Z).
Hypothesis Ho : holds o s.
Hypothesis Hb : bytes s.
Hypothesis Hl : zlen s < 2 ^ 60.

Lemma bitfield_writes_ok st :
  parse_ok argv st -> bitfield_parse obey max argv = Some (inr st) -> bf_readonly st = false ->
  exists out, bitfieldGeneric obey max false argv o = Some out /\
    exists n0 s' rs n,
      let s1 := s ++ replicate n0 0 in
      padded_for (bf_ops st) s n0 /\ Forall (writes_inside (zlen s1)) (bf_ops st) /\
      effects (bool_decide (o = None) || bool_decide (n0 <> 0%nat)) (bf_ops st) s1 s' rs n /\ zlen s' = zlen s1 /\
      out = {| out_reply := RArray rs; out_value := Some (StringObj (Sds s')); out_dirty := n |}.
Proof.
  intros (_ & Hops & Hh & Hro & Hw & Hat) Er Hrd. unfold bitfieldGeneric. rewrite Er. cbn [mbind option_bind]. rewrite Hrd.
  destruct (lookupStringForBitCommand_ok o s (bf_highest st) Ho Hb) as (s1 & n0 & -> & E1 & Hz & Hb1); [lia|].
  cbn [mbind option_bind]. pose proof (zlen_nonneg s).
  assert (zlen s1 < 2 ^ 61) as Hl1.
  { rewrite Hz. change (2 ^ 61) with (2 * 2 ^ 60). change (2 ^ 63) with (8 * 2 ^ 60) in Hh.
    assert (16 < 2 ^ 60) by done. div_lia. }
  assert (Forall (writes_inside (zlen s1)) (bf_ops st)) as Hin.
  { eapply Forall_impl; [exact Hw|]. intros op Hop Hg. apply is_get_false in Hg. specialize (Hop Hg). rewrite Hz. div_lia. }
  set (dirty := match o with None => true | Some _ => _ end).
  destruct (bitfield_run_ok dirty (bf_ops st) s1 Hops Hin Hb1 Hl1) as (s' & rs & n & He & Hz' & Hrun).
  rewrite Hrun. cbn [mbind option_bind]. eexists. split; [done|]. exists n0, s', rs, n. rewrite <- E1.
  rewrite E1, zlen_app in Hz. unfold zlen in Hz at 2. rewrite length_replicate in Hz. split_and!; try done.
  - apply (writes_reach s st n0 Hops Hro Hrd Hw Hat); lia.
  - replace (bool_decide (o = None) || bool_decide (n0 <> 0%nat)) with dirty; [done|]. unfold dirty.
    destruct o; [|done]. rewrite (bool_decide_eq_false_2 (Some r = None)) by done. cbn [orb].
    destruct (Z.ltb_spec (zlen s) (bf_highest st / 8 + 1)); symmetry; [apply bool_decide_eq_true_2|apply bool_decide_eq_false_2]; lia.
Qed.

Lemma bitfieldGeneric_spec ro :
  exists out r, bitfield_parse obey max argv = Some r /\ bitfieldGeneric obey max ro argv o = Some out /\
    match r with
    | inl e => out = unchanged o e
    | inr st => Forall op_ok (bf_ops st) /\ bitfield_outcome ro (bf_ops st) o s out
    end.
Proof.
  destruct (bitfield_parse_ok obey max argv) as (r & Er & Hr). destruct r as [e|st].
  { eexists _, _. split; [exact Er|]. unfold bitfieldGeneric. rewrite Er. by split. }
  pose proof (Hr st eq_refl) as Hp. pose proof Hp as (_ & Hops & _ & Hro & _). destruct (bf_readonly st) eqn:Hrd.
  - destruct (checkType_holds o s Ho) as (v & Hty & _). symmetry in Hro. eexists _, _. split; [exact Er|].
    unfold bitfieldGeneric. rewrite Er. cbn [mbind option_bind].
    rewrite Hrd, Hty, (bitfield_run_read false (bf_ops st) o v s) by done. cbn [mbind option_bind].
    split; [done|]. split; [done|]. split; [done|]. intros Hw. destruct (gets_writes (bf_ops st)); [by apply forallb_gets|done].
  - assert (forall P : Prop, Forall (fun op => op_opcode op = BITFIELDOP_GET) (bf_ops st) -> P) as Hng.
    { intros P Hf. apply forallb_gets in Hf. congruence. }
    destruct ro.
    + eexists _, _. split; [exact Er|]. unfold bitfieldGeneric. rewrite Er. cbn [mbind option_bind]. rewrite Hrd.
      split; [done|]. split; [done|]. by split; [intros Hf; apply (Hng _ Hf)|].
    + destruct (bitfield_writes_ok st Hp Er Hrd) as (out & E & Hout). exists out, (inr st). split; [done|]. split; [done|].
      split; [done|]. split; [intros Hf; apply (Hng _ Hf)|done].
Qed.
End Outcome.
