(* ===== verification/BitProps.v ===== *)
(** * What the bit functions and commands do

    The theorems about [bitops.c], over the list of bits of a string ([bits_of], [bit_at]). *)
From stdpp Require Import strings.
From S2P Require Import Prelude Endian Numstr NumstrFacts NumstrProps Glob BitVec Bits BitsFacts BitField BitCmd BitCmdFacts BitOpFacts BitFieldCmd.

Lemma first_position b l k :
  bit_index b l = Some k ->
  exists n, k = Z.of_nat n /\ l !! n = Some b /\ forall j, (j < n)%nat -> l !! j = Some (negb b).
Proof.
  intros E. apply bit_index_Some in E as (Hk & Hl & Hf). exists (Z.to_nat k). split; [lia|]. split; [done|].
  intros j Hj. apply lookup_lt_Some in Hl as Hlt. destruct (l !! j) as [x|] eqn:Ej; [|apply lookup_ge_None in Ej; lia].
  assert (take (Z.to_nat k) l !! j = Some x) as Et by (by rewrite lookup_take_lt).
  eapply Forall_lookup in Et; [|done]. by rewrite Et.
Qed.

Lemma whole_count s : bitcount_result false s 0 (zlen s - 1) = ones (bits_of s).
Proof.
  unfold bitcount_result, range_bits, norm_range, bit_slice, unit_bits. change (0 <? 0) with false. cbn [andb].
  pose proof (zlen_nonneg s). destruct (decide (zlen s = 0)) as [E0|E0].
  - destruct s; [done|]. rewrite zlen_cons in *. zlen_saturate. lia.
  - replace (zlen s - 1 <? 0) with false by lia. rewrite (Z.max_r 0 (zlen s - 1)), Z.min_id by lia.
    replace (zlen s - 1 <? Z.max 0 0) with false by lia. change (Z.to_nat (8 * Z.max 0 0)) with 0%nat.
    rewrite drop_0, take_ge; [done|]. rewrite length_bits_of. unfold zlen. lia.
Qed.

(** ** The theorems *)

(** C31: redisPopcount, with its unaligned head, blocks of seven words and tail, counts the one
    bits, and redisBitpos finds the first bit of the wanted value, or answers -1 for a missing
    one and the bit length for a missing zero, at any alignment and byte order, inside the
    string. *)
Theorem popcount_bitpos_correct be addr pre str post :
  Forall is_byte str -> zlen str < 2 ^ 59 ->
  redisPopcount be addr (pre ++ str ++ post) (zlen pre) (zlen str) = Some (ones (bits_of str)) /\
  forall b, exists r, redisBitpos be addr (pre ++ str ++ post) (zlen pre) (zlen str) (Z.b2z b) = Some r /\
    ((exists k, r = Z.of_nat k /\ bits_of str !! k = Some b /\ forall j, (j < k)%nat -> bits_of str !! j = Some (negb b)) \/
     (Forall (fun x => x = negb b) (bits_of str) /\ r = if b then -1 else 8 * zlen str)).
Proof.
  intros Hb Hl. split; [by apply redisPopcount_spec|]. intros b. eexists. split; [by apply redisBitpos_spec|].
  unfold bitpos_val. destruct (bit_index b (bits_of str)) as [k|] eqn:E.
  - left. by apply first_position.
  - right. apply bit_index_None in E. by rewrite zlen_bits_of.
Qed.

(** C32: a value stored in a bit field of 1 to 64 bits at any offset inside the string is read back
    as its residue, signed and unsigned, and no bit outside the field changes. *)
Theorem bitfield_set_get p offset bits value :
  Forall is_byte p -> zlen p < 2 ^ 61 -> 1 <= bits <= 64 -> 0 <= offset -> offset + bits <= 8 * zlen p ->
  exists p', setSignedBitfield p offset bits value = Some p' /\ zlen p' = zlen p /\ Forall is_byte p' /\
    getSignedBitfield p' offset bits = Some (wraps bits value) /\
    getUnsignedBitfield p' offset bits = Some (value mod 2 ^ bits) /\
    forall i, 0 <= i -> i < offset \/ offset + bits <= i -> bit_at p' i = bit_at p i.
Proof.
  intros Hb Hl Hn Ho Hin. destruct (field_cut p offset bits) as (A & C & E & HA); [lia..|].
  pose proof (zlen_field p offset bits ltac:(lia)) as HF.
  destruct (setSignedBitfield_spec p offset bits A _ C E Hb Hl) with value as (p' & Es & Eb & Hb' & Hl'); try (done || lia).
  exists p'. split; [done|]. split; [done|]. split; [done|].
  destruct (field_written p p' A _ _ C E Eb) as [Hf Hframe]; [rewrite zlen_num_bits; lia|]. rewrite HA, HF in Hf, Hframe.
  destruct (get_field p' offset bits) as [Gs Gu]; [lia..|done|lia|].
  rewrite Gs, Gu, Hf, bits_val_num_bits, Z2Nat.id by lia.
  change (value mod 2 ^ bits) with (wrapu bits value). rewrite wraps_wrapu by lia. done.
Qed.

(** C33: for a value inside the type and any 64-bit increment, the overflow checks of signed and
    unsigned fields tell exactly whether the sum leaves the type, and give the wrapped or
    saturated result of the overflow type. *)
Theorem bitfield_overflow_exact value incr bits owtype :
  - 2 ^ 63 <= incr < 2 ^ 63 ->
  (1 <= bits <= 63 -> 0 <= value < 2 ^ bits ->
     checkUnsignedBitfieldOverflow value incr bits owtype true =
       overflow_result owtype 0 (2 ^ bits - 1) (value + incr) ((value + incr) mod 2 ^ bits)) /\
  (1 <= bits <= 64 -> - 2 ^ (bits - 1) <= value < 2 ^ (bits - 1) ->
     checkSignedBitfieldOverflow value incr bits owtype true =
       overflow_result owtype (- 2 ^ (bits - 1)) (2 ^ (bits - 1) - 1) (value + incr) (wraps bits (value + incr))).
Proof.
  intros Hi. split; intros Hb Hv.
  - assert (2 ^ bits <= 2 ^ 63) by (apply Z.pow_le_mono_r; lia).
    apply checkUnsigned_spec; [done|change (2 ^ 64) with (2 * 2 ^ 63); lia|done|left; lia].
  - assert (2 ^ (bits - 1) <= 2 ^ 63) by (apply Z.pow_le_mono_r; lia). apply checkSigned_spec; [done|lia|done|left; lia].
Qed.

(** SETBIT answers the old bit, sets this bit only, grows the string with zeros as far as
    needed, counts a change when there is one, and GETBIT then answers the new bit; an absent
    key reads as zeros. *)
Theorem setbit_getbit_correct obey max c k a2 a3 off b o s :
  IsDec a2 off -> offset_ok obey max off -> IsDec a3 (Z.b2z b) -> holds o s -> Forall is_byte s ->
  getbitCommand obey max [c; k; a2] o =
    Some {| out_reply := RInt (Z.b2z (bit_at s off)); out_value := o; out_dirty := 0 |} /\
  exists s', setbitCommand obey max [c; k; a2; a3] o = Some {|
      out_reply := RInt (Z.b2z (bit_at s off)); out_value := Some (StringObj (Sds s'));
      out_dirty := if bool_decide (o = None) || (zlen s <? off / 8 + 1) || negb (Bool.eqb (bit_at s off) b)
                   then 1 else 0 |} /\
    zlen s' = Z.max (zlen s) (off / 8 + 1) /\ Forall is_byte s' /\
    (forall i, 0 <= i -> bit_at s' i = if i =? off then b else bit_at s i) /\
    getbitCommand obey max [c; k; a2] (Some (StringObj (Sds s'))) =
      Some {| out_reply := RInt (Z.b2z b); out_value := Some (StringObj (Sds s')); out_dirty := 0 |}.
Proof.
  intros H2 Ho H3 Hh Hb. split; [by apply getbit_spec|].
  destruct (setbit_spec obey max a2 off H2 Ho c k a3 o s b H3 Hh Hb) as (s' & E & Hl & Hb' & Hat).
  exists s'. split; [done|]. split; [done|]. split; [done|]. split; [done|].
  rewrite (getbit_spec obey max a2 off H2 Ho c k (Some (StringObj (Sds s'))) s') by done.
  destruct Ho as [Ho _]. by rewrite Hat, Z.eqb_refl by lia.
Qed.

(** BITCOUNT and BITPOS over a range in bytes or bits, with negative and out-of-range ends,
    answer the count and the first position of the reference definitions on the list of bits,
    for missing keys and integer-encoded strings too. *)
Theorem bitcount_bitpos_correct be addr tmp c k a2 a3 a4 rest isbit b start stop o s :
  holds o s -> Forall is_byte s -> zlen s < 2 ^ 59 ->
  IsDec a2 (Z.b2z b) -> IsDec a3 start -> in_int64 start -> IsDec a4 stop -> in_int64 stop -> unit_arg rest isbit ->
  bitcountCommand be addr tmp ([c; k; a3; a4] ++ rest) o = answer o (bitcount_result isbit s start stop) /\
  bitcountCommand be addr tmp [c; k] o = answer o (ones (bits_of s)) /\
  bitposCommand be addr tmp ([c; k; a2; a3; a4] ++ rest) o = answer o (bitpos_answer s o b isbit true start stop) /\
  bitposCommand be addr tmp [c; k; a2; a3] o = answer o (bitpos_answer s o b false false start (zlen s - 1)) /\
  bitposCommand be addr tmp [c; k; a2] o = answer o (bitpos_answer s o b false false 0 (zlen s - 1)).
Proof.
  intros Hh Hb Hl H2 H3 Hi3 H4 Hi4 Hu. destruct (checkType_holds o s Hh) as (v & Hty & _).
  split_and!.
  - by apply (bitcount_range_spec be addr tmp s o v).
  - rewrite (bitcount_whole_spec be addr tmp s o v) by done. by rewrite whole_count.
  - by apply (bitpos_range_spec be addr tmp s o v).
  - by apply (bitpos_from_spec be addr tmp s o v).
  - by apply (bitpos_whole_spec be addr tmp s o v).
Qed.

(** C30: BITOP gives a string as long as the longest operand whose every bit is the operation on the
    bits of the operands, the shorter ones padded with zeros, the part done on blocks of words
    included, or deletes the target when all operands are empty. *)
Theorem bitop_correct be op c t opname keys objs o s0 ss :
  parse_bitop opname = Some op -> Forall2 holds objs (s0 :: ss) -> length keys = length objs ->
  (op = BITOP_NOT -> ss = []) -> Forall (fun s => Forall is_byte s) (s0 :: ss) ->
  let maxlen := max_len (s0 :: ss) in
  if maxlen =? 0 then
    bitopCommand be ([c; opname; t] ++ keys) objs o = Some {| out_reply := RInt 0; out_value := None;
      out_dirty := match o with Some _ => 1 | None => 0 end |}
  else
    exists res, bitopCommand be ([c; opname; t] ++ keys) objs o = Some {| out_reply := RInt maxlen;
        out_value := Some (StringObj (Sds res)); out_dirty := 1 |} /\
      zlen res = maxlen /\ Forall is_byte res /\
      forall i, 0 <= i < 8 * maxlen -> bit_at res i = op_bit op ((fun s => bit_at s i) <$> (s0 :: ss)).
Proof. apply bitop_spec. Qed.

(** C29: BITFIELD and BITFIELD_RO on a string or a missing key: when the arguments ask for a list of
    operations, by a grammar stated apart from the parser (GET, SET, INCRBY and OVERFLOW words
    in any case, types i1 to i64 and u1 to u63, offsets or field numbers multiplied in 64 bits,
    an overflow type that holds until the next one), the read-only command refuses writes, and
    otherwise the operations run in order: a read gives the field, a write stores the exact,
    wrapped or saturated result or is refused, no other bit changes, and the string is grown
    with zeros exactly to the last byte written; a saturating SET of a value so small that the
    distance to the maximum leaves 64 bits stores the maximum instead of the minimum. Arguments
    that ask for no list of operations answer an argument error and change nothing. No access is
    out of bounds. *)
Theorem bitfield_command_correct obey max ro c key args o s :
  holds o s -> Forall is_byte s -> zlen s < 2 ^ 60 ->
  (forall ops, operations obey max BFOVERFLOW_WRAP args ops ->
     exists out, bitfieldGeneric obey max ro (c :: key :: args) o = Some out /\ bitfield_outcome ro ops o s out) /\
  ((forall ops, ~ operations obey max BFOVERFLOW_WRAP args ops) ->
     exists e, argument_error e /\ bitfieldGeneric obey max ro (c :: key :: args) o = Some (unchanged o e)).
Proof.
  intros Ho Hb Hl. destruct (bitfield_parse_spec obey max c key args) as (r & Er & Hr).
  destruct (bitfieldGeneric_spec obey max (c :: key :: args) o s Ho Hb Hl ro) as (out & r' & Er' & E & Hout).
  rewrite Er in Er'. injection Er' as <-. rewrite E. destruct r as [e|st].
  - destruct Hr as [He Hno]. subst out. split; [intros ops Hops; by apply Hno in Hops|eauto].
  - split; [|intros Hno; exfalso; by apply (Hno (bf_ops st)), Hr].
    intros ops Hops. apply Hr in Hops as ->. exists out. by split; [|apply Hout].
Qed.

(** ** Where the code departs from its intention *)

Lemma effects_refused dirty ops s s' rs n :
  effects dirty ops s s' rs n -> Forall (fun r => r = RNull) rs -> s' = s /\ n = 0.
Proof.
  induction 1 as [|op ops s s' rs n Hg He IH|op ops s s1 s' r rs n m a Hg Hw Ha He IH]; intros Hf; [done| |].
  - by apply Forall_cons in Hf as [? _].
  - apply Forall_cons in Hf as [-> Hf]. destruct (IH Hf) as [-> ->]. destruct Hw as (_ & _ & _ & Hr).
    destruct a; [by destruct Hr as (_ & ? & _)|]. destruct Hr as (-> & _ & ->). done.
Qed.

(** C38: the check of signed fields saturates a value far below the type to the maximum; a
    multiplied offset that overflows 64 bits is accepted with its wrapped value; and a BITFIELD
    whose writes are all refused still creates the key while it reports no change. *)
Theorem bitfield_anomalies :
  (forall bits value, 1 <= bits <= 63 -> - 2 ^ 63 <= value < 2 ^ (bits - 1) - 2 ^ 63 ->
     checkSignedBitfieldOverflow value 0 bits BFOVERFLOW_SAT true = (1, Some (2 ^ (bits - 1) - 1))) /\
  (forall obey max a n bits, IsDec a n -> in_int64 n -> 1 <= bits <= 64 ->
     offset_ok obey max (s64 (n * bits)) ->
     getBitOffsetFromArgument obey max (35 :: a) true bits = Some (Some (s64 (n * bits)))) /\
  (forall obey max argv out r rs, bitfieldGeneric obey max false argv None = Some out ->
     out_reply out = RArray (r :: rs) -> Forall (fun r => r = RNull) (r :: rs) ->
     out_dirty out = 0 /\ exists s, out_value out = Some (StringObj (Sds s)) /\ s <> []).
Proof.
  split_and!.
  - intros bits value Hb Hv. by apply checkSigned_below.
  - intros obey max a n bits Hd Hi Hb [Ho Hm]. unfold getBitOffsetFromArgument. simpl first_char.
    replace ((35 =? 35) && true && (bits >? 0)) with true by lia. change (drop (Z.to_nat 1) (35 :: a)) with a.
    replace (zlen (35 :: a) - 1) with (zlen a) by len_lia.
    pose proof (getLongLong_num a n Hd Hi) as E. unfold getLongLongFromObject in E. rewrite E. cbn [mbind option_bind].
    by rewrite (proj2 (offset_check obey max (s64 (n * bits))) (conj (proj1 Ho) Hm)).
  - intros obey max argv out r rs E Hr Hf.
    destruct (bitfieldGeneric_spec obey max argv None [] eq_refl ltac:(constructor) ltac:(done) false) as (out' & p & _ & E' & Hcase).
    rewrite E in E'. injection E' as <-. destruct p as [e|st]; [by subst out|]. destruct Hcase as (Hops & Hget & Hwrite).
    destruct (gets_or_writes (bf_ops st)) as [Hg|Hg].
    + rewrite (Hget Hg) in *. simpl in Hr. injection Hr as Hr. destruct (bf_ops st); [done|]. simpl in Hr. injection Hr as <- <-.
      by apply Forall_cons in Hf as [? _].
    + destruct (Hwrite Hg) as (n0 & s' & rs' & n & _ & Hin & He & Hz & ->). simpl in Hr. injection Hr as ->.
      destruct (effects_refused _ _ _ _ _ _ He Hf) as [-> ->]. split; [done|]. eexists. split; [done|].
      intros Hnil. rewrite Hnil in *. destruct (bf_ops st) as [|op ops]; [by inversion He|].
      apply Forall_cons in Hin as [Hin _]. apply Forall_cons in Hops as [(? & ? & _) _].
      change (zlen (@nil Z)) with 0 in Hin. inversion He; subst.
      * by apply Forall_cons in Hf as [? _].
      * specialize (Hin ltac:(done)). lia.
Qed.

(** ** Concrete instances *)

Module BitSample.

Lemma numeral a v : getLongLongFromObject a = Some (Some v) -> IsDec a v /\ in_int64 v.
Proof. intros E. destruct (getLongLong_ok a) as (r & E' & Hr). rewrite E in E'. injection E' as <-. by apply Hr. Qed.

Definition text (s : string) : list Z := bytes_of s.
Definition foobar : list Z := text "foobar".
Definition limit : Z := 536870912.

Lemma popcount_bitpos_witness :
  redisPopcount false 3 ([9] ++ (foobar ++ replicate 40 255) ++ [7]) 1 46 = Some (ones (bits_of (foobar ++ replicate 40 255))).
Proof.
  exact (proj1 (popcount_bitpos_correct false 3 [9] (foobar ++ replicate 40 255) [7]
    (bytes_check (foobar ++ replicate 40 255) eq_refl) eq_refl)).
Defined.

Lemma bitfield_set_get_witness :
  exists p, setSignedBitfield foobar 7 11 (-5) = Some p /\ getSignedBitfield p 7 11 = Some (wraps 11 (-5)).
Proof.
  destruct (bitfield_set_get foobar 7 11 (-5) (bytes_check foobar eq_refl)) as (p & E & _ & _ & G & _);
    [vm_compute; reflexivity|lia|lia|vm_compute; discriminate|]. by exists p.
Defined.

Lemma bitfield_overflow_witness :
  checkSignedBitfieldOverflow 120 100 8 BFOVERFLOW_SAT true = overflow_result BFOVERFLOW_SAT (-128) 127 220 (wraps 8 220).
Proof. apply (proj2 (bitfield_overflow_exact 120 100 8 BFOVERFLOW_SAT ltac:(lia))); lia. Defined.

Lemma setbit_getbit_witness :
  getbitCommand false limit [[]; []; text "9"] (Some (StringObj (Sds foobar))) =
    Some {| out_reply := RInt (Z.b2z (bit_at foobar 9)); out_value := Some (StringObj (Sds foobar)); out_dirty := 0 |}.
Proof.
  apply (proj1 (setbit_getbit_correct false limit [] [] (text "9") (text "1") 9 true (Some (StringObj (Sds foobar))) foobar
    (proj1 (numeral (text "9") 9 eq_refl)) ltac:(split; [unfold_limits; lia|right; done])
    (proj1 (numeral (text "1") 1 eq_refl)) eq_refl (bytes_check foobar eq_refl))).
Defined.

Lemma bitcount_bitpos_witness :
  bitcountCommand false 3 5 [[]; []; text "5"; text "-4"; text "bit"] (Some (StringObj (Sds foobar))) =
    answer (Some (StringObj (Sds foobar))) (bitcount_result true foobar 5 (-4)).
Proof.
  destruct (numeral (text "5") 5 eq_refl) as [H5 I5]. destruct (numeral (text "-4") (-4) eq_refl) as [H4 I4].
  apply (proj1 (bitcount_bitpos_correct false 3 5 [] [] (text "1") (text "5") (text "-4") [text "bit"] true true 5 (-4)
    (Some (StringObj (Sds foobar))) foobar eq_refl (bytes_check foobar eq_refl) eq_refl
    (proj1 (numeral (text "1") 1 eq_refl)) H5 I5 H4 I4 eq_refl)).
Defined.

Lemma bitop_witness :
  exists res, bitopCommand false [[]; text "XOR"; []; []; []] [Some (StringObj (Sds foobar)); None] None =
    Some {| out_reply := RInt 6; out_value := Some (StringObj (Sds res)); out_dirty := 1 |}.
Proof.
  destruct (bitop_correct false BITOP_XOR [] [] (text "XOR") [[]; []] [Some (StringObj (Sds foobar)); None] None foobar [[]])
    as (res & E & _); [reflexivity|by repeat constructor|done|done| |by exists res].
  apply Forall_cons. split; [by apply bytes_check|]. apply Forall_cons. split; [by constructor|by apply Forall_nil].
Defined.

Definition incr3 : bitfieldOp :=
  {| op_offset := 6; op_i64 := 3; op_opcode := BITFIELDOP_INCRBY; op_owtype := BFOVERFLOW_SAT; op_bits := 4; op_sign := false |}.

Lemma word w arg : forallb (fun c => (97 <=? c) && (c <=? 122)) (bytes_of w) = true -> strcaseeq arg w = true -> spells w arg.
Proof. intros Hw H. by apply (strcaseeq_spec _ _ (word_check w Hw)). Qed.

(** OVERFLOW sat INCRBY u4 6 3 is one saturating addition. *)
Lemma incr3_operations :
  operations false limit BFOVERFLOW_WRAP [text "OVERFLOW"; text "sat"; text "IncrBy"; text "u4"; text "6"; text "3"] [incr3].
Proof.
  eapply operations_overflow with (ow' := BFOVERFLOW_SAT); [by apply word|by apply word|].
  apply operations_write with (oc := BITFIELDOP_INCRBY); [done|by apply word|..].
  - exists (text "4"), []. split; [done|]. split; [by left|]. split; [by apply numeral|lia].
  - split; [left; by apply numeral|]. split; [unfold_limits; lia|right; done].
  - by apply numeral.
  - unfold in_int64. unfold_limits. lia.
  - constructor.
Qed.

(** That command runs, and an unknown overflow type is an error. *)
Lemma bitfield_command_witness :
  (exists out, bitfieldGeneric false limit false ([] :: [] :: [text "OVERFLOW"; text "sat"; text "IncrBy"; text "u4"; text "6"; text "3"]) None = Some out /\
     bitfield_outcome false [incr3] None [] out) /\
  (exists e, argument_error e /\ bitfieldGeneric false limit false ([] :: [] :: [text "OVERFLOW"; text "none"]) None = Some (unchanged None e)).
Proof.
  split.
  - exact (proj1 (bitfield_command_correct false limit false [] [] _ None [] eq_refl (List.Forall_nil _) eq_refl) [incr3] incr3_operations).
  - apply (proj2 (bitfield_command_correct false limit false [] [] [text "OVERFLOW"; text "none"] None [] eq_refl (List.Forall_nil _) eq_refl)).
    intros ops Hops. destruct (bitfield_parse_spec false limit [] [] [text "OVERFLOW"; text "none"]) as (r & E & Hr).
    assert (r = inl ErrOverflowType) as -> by (vm_compute in E; congruence). by apply (proj2 Hr ops).
Defined.

(** A saturating SET of the least integer into eight bits stores the greatest one, and a field
    number whose bit offset wraps is taken for offset 0. *)
Lemma bitfield_anomalies_witness :
  checkSignedBitfieldOverflow (- 2 ^ 63) 0 8 BFOVERFLOW_SAT true = (1, Some 127) /\
  getBitOffsetFromArgument false limit (35 :: text "2305843009213693952") true 8 = Some (Some 0).
Proof.
  destruct (numeral (text "2305843009213693952") 2305843009213693952 eq_refl) as [Hd Hi].
  split; [apply (proj1 bitfield_anomalies 8 (- 2 ^ 63)); lia|].
  apply (proj1 (proj2 bitfield_anomalies) false limit (text "2305843009213693952") 2305843009213693952 8 Hd Hi ltac:(lia)).
  split; [vm_compute; split; discriminate|right; reflexivity].
Defined.
End BitSample.
