(* ===== verification/Lzf.v ===== *)
(** * LZF compression

    [lzf_c.c] and [lzf_d.c] as configured by [lzfP.h]: [HLOG] 16, [VERY_FAST], pointers in the
    hash table, input checks on, the table not initialised.  Pointers into the input, the
    output and the table of [lzf_compress] are offsets; the slots of the table hold addresses,
    the input starting at [addr]. *)
From S2P Require Import Prelude.

Definition HLOG : Z := 16.
Definition HSIZE : Z := Z.shiftl 1 HLOG.
Definition MAX_LIT : Z := Z.shiftl 1 5.
Definition MAX_OFF : Z := Z.shiftl 1 13.
Definition MAX_REF : Z := Z.shiftl 1 8 + Z.shiftl 1 3.

Definition FRST (m : list Z) (p : Z) : option Z :=
  p0 ← getb m p; p1 ← getb m (p + 1); Some (Z.lor (Z.shiftl p0 8) p1).
Definition NEXT (m : list Z) (v p : Z) : option Z :=
  p2 ← getb m (p + 2); Some (Z.lor (u32 (Z.shiftl v 8)) p2).
Definition IDX (h : Z) : Z := Z.land (u32 (Z.shiftr h (3 * 8 - HLOG) - u32 (h * 5))) (HSIZE - 1).

(** C's [!x]. *)
Definition lnot_c (x : Z) : Z := if x =? 0 then 1 else 0.

(** ** [lzf_compress] *)

(** The table, an array indexed by [IDX]. *)
Definition LZF_STATE := Z -> Z.
Definition set_slot (htab : LZF_STATE) (i v : Z) : LZF_STATE := fun j => if j =? i then v else htab j.

Record lzf_state := { ip : Z; op : Z; lit : Z; hval : Z; htab : LZF_STATE; out : list Z }.

(** [*hslot]'s target starts with the same three bytes as [ip]; [ref] is its address. *)
Definition lzf_match (addr : Z) (data : list Z) (ip ref off : Z) : option bool :=
  if (off <? MAX_OFF) && (ref >? addr) then
    let r := ref - addr in
    r2 ← getb data (r + 2); i2 ← getb data (ip + 2);
    if r2 =? i2 then
      r1 ← getb data (r + 1); r0 ← getb data r;
      i1 ← getb data (ip + 1); i0 ← getb data ip;
      Some (Z.lor (Z.shiftl r1 8) r0 =? Z.lor (Z.shiftl i1 8) i0)
    else Some false
  else Some false.

(** The unrolled comparisons: [true] when all of them succeeded. *)
Fixpoint match_unrolled (n : nat) (data : list Z) (ref ip len : Z) : option (Z * bool) :=
  match n with
  | O => Some (len, true)
  | S n =>
      let len := len + 1 in
      x ← getb data (ref + len); y ← getb data (ip + len);
      if x =? y then match_unrolled n data ref ip len else Some (len, false)
  end.

Definition match_body (data : list Z) (ref ip maxlen len : Z) : option (Z + Z) :=
  let len := len + 1 in
  if len <? maxlen then
    x ← getb data (ref + len); y ← getb data (ip + len);
    if x =? y then Some (inl len) else Some (inr len)
  else Some (inr len).

Definition match_length (data : list Z) (ref ip maxlen : Z) : option Z :=
  '(len, go) ← (if maxlen >? 16 then match_unrolled 16 data ref ip 2 else Some (2, true));
  if (go : bool) then loop (S (Z.to_nat MAX_REF)) (match_body data ref ip maxlen) len else Some len.

(** [op [- lit - 1] = lit - 1]. *)
Definition stop_run (st : lzf_state) : option (list Z) :=
  setb (out st) (op st - lit st - 1) (u8 (lit st - 1)).

Definition put_literal (data : list Z) (st : lzf_state) : option lzf_state :=
  b ← getb data (ip st);
  o ← setb (out st) (op st) b;
  let st := {| ip := ip st + 1; op := op st + 1; lit := lit st + 1; hval := hval st; htab := htab st; out := o |} in
  if lit st =? MAX_LIT then
    o ← stop_run st;
    Some {| ip := ip st; op := op st + 1; lit := 0; hval := hval st; htab := htab st; out := o |}
  else Some st.

(** The bytes of a back reference: [len] is the number of octets minus 2. *)
Definition put_ref (o : list Z) (op off len : Z) : option (list Z * Z) :=
  '(o, op) ← (if len <? 7 then
                o ← setb o op (u8 (Z.shiftr off 8 + Z.shiftl len 5)); Some (o, op + 1)
              else
                o ← setb o op (u8 (Z.shiftr off 8 + Z.shiftl 7 5));
                o ← setb o (op + 1) (u8 (len - 7)); Some (o, op + 2));
  o ← setb o op (u8 off);
  Some (o, op + 1).

(** A match at [ref]: the next state, or the state in which the loop is left, with [false]
    for a return of 0. *)
Definition put_match (addr : Z) (data : list Z) (out_len ref off : Z) (st : lzf_state)
    : option (lzf_state + lzf_state * bool) :=
  let in_len := zlen data in
  let maxlen := in_len - ip st - 2 in
  let maxlen := if maxlen >? MAX_REF then MAX_REF else maxlen in
  if (op st + 3 + 1 >=? out_len) && (op st - lnot_c (lit st) + 3 + 1 >=? out_len) then Some (inr (st, false))
  else
    o ← stop_run st;
    let op := op st - lnot_c (lit st) in
    len ← match_length data (ref - addr) (ip st) maxlen;
    let len := len - 2 in
    let ip := ip st + 1 in
    '(o, op) ← put_ref o op off len;
    let op := op + 1 in
    let ip := ip + (len + 1) in
    if ip >=? in_len - 2 then
      Some (inr ({| ip := ip; op := op; lit := 0; hval := hval st; htab := htab st; out := o |}, true))
    else
      let ip := ip - 1 - 1 in
      hv ← FRST data ip;
      hv ← NEXT data hv ip;
      let tab := set_slot (htab st) (IDX hv) (addr + ip) in
      let ip := ip + 1 in
      hv ← NEXT data hv ip;
      let tab := set_slot tab (IDX hv) (addr + ip) in
      let ip := ip + 1 in
      Some (inl {| ip := ip; op := op; lit := 0; hval := hv; htab := tab; out := o |}).

Definition compress_body (addr : Z) (data : list Z) (out_len : Z) (st : lzf_state)
    : option (lzf_state + lzf_state * bool) :=
  if ip st <? zlen data - 2 then
    hv ← NEXT data (hval st) (ip st);
    let ref := htab st (IDX hv) in
    let st := {| ip := ip st; op := op st; lit := lit st; hval := hv;
                 htab := set_slot (htab st) (IDX hv) (addr + ip st); out := out st |} in
    let off := u64 (addr + ip st - ref - 1) in
    m ← lzf_match addr data (ip st) ref off;
    if (m : bool) then put_match addr data out_len ref off st
    else if op st >=? out_len then Some (inr (st, false))
    else st ← put_literal data st; Some (inl st)
  else Some (inr (st, true)).

Definition compress_tail_body (data : list Z) (st : lzf_state) : option (lzf_state + lzf_state) :=
  if ip st <? zlen data then st ← put_literal data st; Some (inl st) else Some (inr st).

(** The output buffer and the return value.  [tab] is the uninitialised table. *)
Definition lzf_compress (addr : Z) (tab : LZF_STATE) (data : list Z) (o : list Z) (out_len : Z)
    : option (list Z * Z) :=
  if (zlen data =? 0) || (out_len =? 0) then Some (o, 0)
  else
    hv ← FRST data 0;
    '(st, go) ← loop (S (length data)) (compress_body addr data out_len)
                  {| ip := 0; op := 1; lit := 0; hval := hv; htab := tab; out := o |};
    if negb go then Some (out st, 0)
    else if op st + 3 >? out_len then Some (out st, 0)
    else
      st ← loop (S (length data)) (compress_tail_body data) st;
      o ← stop_run st;
      Some (o, op st - lnot_c (lit st)).

(** ** [lzf_decompress] *)

Inductive lzf_errno := E2BIG | EINVAL.

(** [*op++ = *ip++], [n] times. *)
Fixpoint copy_literals (n : nat) (data : list Z) (ip : Z) (o : list Z) (op : Z) : option (list Z) :=
  match n with
  | O => Some o
  | S n => b ← getb data ip; o ← setb o op b; copy_literals n data (ip + 1) o (op + 1)
  end.

(** [*op++ = *ref++], [n] times. *)
Fixpoint copy_octets (n : nat) (o : list Z) (ref op : Z) : option (list Z) :=
  match n with
  | O => Some o
  | S n => b ← getb o ref; o ← setb o op b; copy_octets n o (ref + 1) (op + 1)
  end.

Definition copy_ref (o : list Z) (ref op len : Z) : option (list Z) :=
  if len >? 9 then
    let len := len + 2 in
    if op >=? ref + len then bs ← mem_read o ref len; mem_write o op bs
    else copy_octets (Z.to_nat len) o ref op
  else copy_octets (Z.to_nat (len + 2)) o ref op.

Definition decompress_body (data : list Z) (out_len : Z) (st : Z * Z * list Z)
    : option ((Z * Z * list Z) + (list Z * Z * option lzf_errno)) :=
  let '(ip, op, o) := st in
  let in_len := zlen data in
  if ip <? in_len then
    ctrl ← getb data ip;
    let ip := ip + 1 in
    if ctrl <? Z.shiftl 1 5 then
      let ctrl := ctrl + 1 in
      if op + ctrl >? out_len then Some (inr (o, 0, Some E2BIG))
      else if ip + ctrl >? in_len then Some (inr (o, 0, Some EINVAL))
      else
        o ← copy_literals (Z.to_nat ctrl) data ip o op;
        Some (inl (ip + ctrl, op + ctrl, o))
    else
      let len := Z.shiftr ctrl 5 in
      let ref := op - Z.shiftl (Z.land ctrl 0x1f) 8 - 1 in
      if ip >=? in_len then Some (inr (o, 0, Some EINVAL))
      else
        '(len, ip) ← (if len =? 7 then x ← getb data ip; Some (len + x, ip + 1) else Some (len, ip));
        if (Z.shiftr ctrl 5 =? 7) && (ip >=? in_len) then Some (inr (o, 0, Some EINVAL))
        else
          x ← getb data ip;
          let ref := ref - x in
          let ip := ip + 1 in
          if op + len + 2 >? out_len then Some (inr (o, 0, Some E2BIG))
          else if ref <? 0 then Some (inr (o, 0, Some EINVAL))
          else
            o ← copy_ref o ref op len;
            Some (inl (ip, op + (len + 2), o))
  else Some (inr (o, op, None)).

(** The output buffer, the return value and [errno] when it is set. *)
Definition lzf_decompress (data : list Z) (o : list Z) (out_len : Z) : option (list Z * Z * option lzf_errno) :=
  loop (S (length data)) (decompress_body data out_len) (0, 0, o).
