(* ===== verification/LzfFacts.v ===== *)
(** * The LZF format: tokens, and what the decompressor makes of them

    A compressed block is a list of tokens, literal runs and back references; [expand] is the
    text they stand for. *)
From S2P Require Import Prelude Lzf.

Inductive token := Lit (l : list Z) | Ref (off n : Z).

(** The text after copying [n] octets from [off + 1] octets back, one by one. *)
Fixpoint back (d : list Z) (off : Z) (n : nat) : list Z :=
  match n with
  | O => d
  | S n => back (d ++ [nth (Z.to_nat (zlen d - off - 1)) d 0]) off n
  end.

Definition expand (d : list Z) (t : token) : list Z :=
  match t with Lit l => d ++ l | Ref off n => back d off (Z.to_nat n) end.

Definition token_bytes (t : token) : list Z :=
  match t with
  | Lit l => (zlen l - 1) :: l
  | Ref off n =>
      if n - 2 <? 7 then [off / 256 + 32 * (n - 2); off mod 256] else [off / 256 + 224; n - 2 - 7; off mod 256]
  end.

Definition token_ok (d : list Z) (t : token) : Prop :=
  match t with
  | Lit l => 1 <= zlen l <= 32
  | Ref off n => 0 <= off < 8192 /\ off < zlen d /\ 3 <= n <= 264
  end.

Fixpoint tokens_ok (d : list Z) (ts : list token) : Prop :=
  match ts with [] => True | t :: ts => token_ok d t /\ tokens_ok (expand d t) ts end.

Definition expands (d : list Z) (ts : list token) : list Z := foldl expand d ts.
Definition tokens_bytes (ts : list token) : list Z := concat (token_bytes <$> ts).

(** ** Lists of tokens *)

Lemma tokens_ok_snoc d ts t : tokens_ok d (ts ++ [t]) <-> tokens_ok d ts /\ token_ok (expands d ts) t.
Proof.
  revert d. induction ts as [|u ts IH]; intros d; simpl; [tauto|]. rewrite IH. unfold expands. simpl. tauto.
Qed.

Lemma expands_snoc d ts t : expands d (ts ++ [t]) = expand (expands d ts) t.
Proof. unfold expands. by rewrite foldl_app. Qed.

Lemma tokens_bytes_snoc ts t : tokens_bytes (ts ++ [t]) = tokens_bytes ts ++ token_bytes t.
Proof. unfold tokens_bytes. rewrite fmap_app, concat_app. simpl. by rewrite app_nil_r. Qed.

Lemma zlen_back d off n : zlen (back d off n) = zlen d + Z.of_nat n.
Proof. revert d. induction n as [|n IH]; intros d; simpl; [lia|]. rewrite IH. len_lia. Qed.

Lemma back_app d off n : exists e, back d off n = d ++ e /\ zlen e = Z.of_nat n.
Proof.
  revert d. induction n as [|n IH]; intros d; simpl; [by exists []; rewrite app_nil_r|].
  destruct (IH (d ++ [nth (Z.to_nat (zlen d - off - 1)) d 0])) as (e & -> & He).
  eexists. rewrite <- app_assoc. split; [done|]. simpl. len_lia.
Qed.

Lemma zlen_expand_le d t : zlen d <= zlen (expand d t).
Proof. destruct t; simpl; [len_lia|]. rewrite zlen_back. lia. Qed.

Lemma zlen_expands_le d ts : zlen d <= zlen (expands d ts).
Proof.
  revert d. induction ts as [|t ts IH]; intros d; [done|]. unfold expands in *. simpl.
  pose proof (zlen_expand_le d t). pose proof (IH (expand d t)). lia.
Qed.

(** Copying from far enough back is copying a block. *)
Lemma back_disjoint d off n :
  0 <= off < zlen d -> Z.of_nat n <= off + 1 ->
  back d off n = d ++ take n (drop (Z.to_nat (zlen d - off - 1)) d).
Proof.
  revert d. induction n as [|n IH]; intros d Ho Hn; simpl; [by rewrite app_nil_r|].
  rewrite IH by len_lia. rewrite zlen_app. change (zlen [_]) with 1.
  rewrite drop_app_le by (unfold zlen in *; lia). rewrite take_app_le.
  2:{ rewrite length_drop. unfold zlen in *. lia. }
  rewrite <- app_assoc. f_equal. simpl.
  destruct (drop (Z.to_nat (zlen d - off - 1)) d) as [|x l] eqn:E.
  { apply (f_equal length) in E. rewrite length_drop in E. simpl in E. unfold zlen in *. lia. }
  simpl. f_equal.
  - rewrite <- (take_drop (Z.to_nat (zlen d - off - 1)) d) at 2. rewrite E, app_nth2; rewrite length_take.
    + replace (_ - _)%nat with 0%nat by (unfold zlen in *; lia). done.
    + lia.
  - f_equal. replace (Z.to_nat (zlen d + 1 - off - 1)) with (S (Z.to_nat (zlen d - off - 1))) by lia.
    by rewrite <- Nat.add_1_r, <- drop_drop, E.
Qed.

(** ** The copies of the decompressor *)

Lemma copy_literals_app l : forall c rest d o, (length l <= length o)%nat ->
  copy_literals (length l) (c ++ l ++ rest) (zlen c) (d ++ o) (zlen d) = Some (d ++ l ++ drop (length l) o).
Proof.
  induction l as [|x l IH]; intros c rest d o Hl; [done|]. destruct o as [|y o]; simpl in Hl; [lia|].
  cbn [length copy_literals app]. rewrite getb_mid by done. cbn [mbind option_bind]. rewrite setb_mid by done.
  cbn [mbind option_bind]. specialize (IH (c ++ [x]) rest (d ++ [x]) o).
  rewrite <- !app_assoc in IH. replace (zlen c + 1) with (zlen (c ++ [x])) by len_lia.
  replace (zlen d + 1) with (zlen (d ++ [x])) by len_lia.
  change (c ++ x :: l ++ rest) with (c ++ [x] ++ l ++ rest). change (d ++ x :: o) with (d ++ [x] ++ o). by rewrite IH by lia.
Qed.

Lemma getb_nth d i : 0 <= i < zlen d -> getb d i = Some (nth (Z.to_nat i) d 0).
Proof.
  intros Hi. destruct (getb_is_Some d i Hi) as [x E]. rewrite E. unfold getb in E.
  replace (0 <=? i) with true in E by lia. f_equal. symmetry. apply nth_lookup_Some with (d := 0) in E. done.
Qed.

Lemma copy_octets_back n : forall d o off, 0 <= off < zlen d -> (n <= length o)%nat ->
  copy_octets n (d ++ o) (zlen d - off - 1) (zlen d) = Some (back d off n ++ drop n o).
Proof.
  induction n as [|n IH]; intros d o off Ho Hn; [done|]. destruct o as [|y o]; simpl in Hn; [lia|].
  cbn [copy_octets back]. rewrite getb_app_l, getb_nth by lia. cbn [mbind option_bind]. rewrite setb_mid by done.
  cbn [mbind option_bind]. set (x := nth _ d 0). specialize (IH (d ++ [x]) o off).
  rewrite zlen_app in IH. change (zlen [x]) with 1 in IH. rewrite <- app_assoc in IH.
  replace (zlen d - off - 1 + 1) with (zlen d + 1 - off - 1) by lia. change (d ++ x :: o) with (d ++ [x] ++ o).
  rewrite IH by lia. done.
Qed.

Lemma copy_ref_back d o off len :
  0 <= off < zlen d -> 0 <= len -> len + 2 <= zlen o ->
  copy_ref (d ++ o) (zlen d - off - 1) (zlen d) len =
    Some (back d off (Z.to_nat (len + 2)) ++ drop (Z.to_nat (len + 2)) o).
Proof.
  intros Ho Hl Hz. unfold copy_ref. unfold zlen in Hz.
  destruct (len >? 9); [|apply copy_octets_back; [done|lia]].
  destruct (Z.geb_spec (zlen d) (zlen d - off - 1 + (len + 2))); [|apply copy_octets_back; [done|lia]].
  rewrite back_disjoint by lia.
  set (bs := take (Z.to_nat (len + 2)) (drop (Z.to_nat (zlen d - off - 1)) d)).
  assert (zlen bs = len + 2) as Hb by (unfold bs, zlen in *; rewrite length_take, length_drop; lia).
  unfold mem_read. rewrite zlen_app. replace (_ && _ && _) with true by (unfold zlen in *; lia).
  rewrite drop_app_le, take_app_le by (rewrite ?length_drop; unfold zlen in *; lia). fold bs. cbn [mbind option_bind].
  rewrite <- (take_drop (Z.to_nat (len + 2)) o) at 1.
  rewrite mem_write_mid; [by rewrite <- app_assoc|done|]. rewrite zlen_take; [done|unfold zlen; lia].
Qed.

(** ** Decompression of tokens *)

Lemma ref_byte_fields off n : 0 <= off < 8192 -> 0 <= n < 8 ->
  Z.shiftr (off / 256 + 32 * n) 5 = n /\ Z.shiftl (Z.land (off / 256 + 32 * n) 31) 8 = off - off mod 256.
Proof.
  intros Ho Hn. assert (0 <= off / 256 < 32) as Hq by div_lia. change 31 with (Z.ones 5).
  rewrite Z.shiftr_div_pow2, Z.land_ones, Z.shiftl_mul_pow2 by lia. change (2 ^ 5) with 32. change (2 ^ 8) with 256.
  rewrite (Z.mul_comm 32 n), Z.div_add, Z.mod_add, (Z.div_small (off / 256) 32), (Z.mod_small (off / 256) 32) by lia.
  split; [done|]. div_lia.
Qed.

Lemma decompress_token c t rest d o :
  token_ok d t -> zlen (expand d t) <= zlen d + zlen o ->
  exists o', zlen (expand d t) + zlen o' = zlen d + zlen o /\
  decompress_body (c ++ token_bytes t ++ rest) (zlen d + zlen o) (zlen c, zlen d, d ++ o) =
    Some (inl (zlen (c ++ token_bytes t), zlen (expand d t), expand d t ++ o')).
Proof.
  intros Ht Hz. unfold decompress_body. destruct t as [l|off n]; simpl in Ht, Hz.
  - cbn [token_bytes expand]. autorewrite with zlen in Hz. exists (drop (length l) o).
    split; [rewrite zlen_app; unfold zlen in *; rewrite length_drop; lia|]. autorewrite with zlen.
    zlen_saturate. replace (zlen c <? _) with true by lia. cbn [app].
    rewrite (getb_mid c _ _ (zlen c)) by done. cbn [mbind option_bind].
    replace (zlen l - 1 <? Z.shiftl 1 5) with true by (change (Z.shiftl 1 5) with 32; lia).
    replace (_ >? _) with false by lia. replace (_ >? _) with false by lia.
    replace (Z.to_nat (zlen l - 1 + 1)) with (length l) by (unfold zlen; lia).
    pose proof (copy_literals_app l (c ++ [zlen l - 1]) rest d o) as E. rewrite <- app_assoc, zlen_app in E.
    change (zlen [_]) with 1 in E. cbn [app] in E. rewrite E by (unfold zlen in *; lia). cbn [mbind option_bind].
    rewrite <- app_assoc. do 3 f_equal. f_equal; lia.
  - destruct Ht as (Ho & Hd & Hn). rewrite zlen_back, Z2Nat.id in Hz by lia.
    exists (drop (Z.to_nat n) o). cbn [expand].
    split; [rewrite zlen_back; unfold zlen in *; rewrite length_drop; lia|].
    assert (0 <= off / 256 < 32) as Hq by div_lia.
    assert (zlen (c ++ token_bytes (Ref off n) ++ rest) = zlen c + (if n - 2 <? 7 then 2 else 3) + zlen rest) as Hlen.
    { simpl. destruct (n - 2 <? 7); len_lia. }
    rewrite Hlen. zlen_saturate. replace (zlen c <? _) with true by (destruct (n - 2 <? 7); lia).
    pose proof (copy_ref_back d o off (n - 2) ltac:(lia) ltac:(lia) ltac:(lia)) as Ec.
    replace (n - 2 + 2) with n in Ec by lia. simpl token_bytes. destruct (n - 2 <? 7) eqn:E7.
    + cbn [app]. rewrite (getb_mid c _ _ (zlen c)) by done. cbn [mbind option_bind].
      destruct (ref_byte_fields off (n - 2)) as [Es El]; [lia..|].
      replace (_ <? Z.shiftl 1 5) with false by (change (Z.shiftl 1 5) with 32; lia).
      replace (zlen c + 1 >=? _) with false by lia. rewrite Es, El. replace (n - 2 =? 7) with false by lia.
      cbn [mbind option_bind andb].
      rewrite getb_app_r by lia. change (getb (_ :: off mod 256 :: rest) 1) with (Some (off mod 256)). cbn [mbind option_bind].
      replace (_ >? _) with false by lia.
      replace (zlen d - (off - off mod 256) - 1 - off mod 256) with (zlen d - off - 1) by lia.
      replace (zlen d - off - 1 <? 0) with false by lia. rewrite Ec. cbn [mbind option_bind].
      rewrite zlen_back. do 3 f_equal. f_equal; len_lia.
    + cbn [app]. rewrite (getb_mid c _ _ (zlen c)) by done. cbn [mbind option_bind].
      destruct (ref_byte_fields off 7) as [Es El]; [lia..|]. change (32 * 7) with 224 in *.
      replace (_ <? Z.shiftl 1 5) with false by (change (Z.shiftl 1 5) with 32; lia).
      replace (zlen c + 1 >=? _) with false by lia. rewrite Es, El. change (7 =? 7) with true. cbn match.
      rewrite getb_app_r by lia. change (getb (_ :: ?x :: _) 1) with (Some (n - 2 - 7)). cbn [mbind option_bind andb].
      replace (zlen c + 1 + 1 >=? _) with false by lia.
      replace (zlen c + 1 + 1) with (zlen c + 2) by lia.
      rewrite getb_app_r by lia. change (getb (_ :: _ :: ?x :: _) 2) with (Some (off mod 256)). cbn [mbind option_bind].
      replace (7 + (n - 2 - 7)) with (n - 2) by lia. replace (_ >? _) with false by lia.
      replace (zlen d - (off - off mod 256) - 1 - off mod 256) with (zlen d - off - 1) by lia.
      replace (zlen d - off - 1 <? 0) with false by lia. rewrite Ec. cbn [mbind option_bind].
      rewrite zlen_back. do 3 f_equal. f_equal; len_lia.
Qed.

Lemma decompress_tokens ts : forall fuel c d o,
  tokens_ok d ts -> zlen (expands d ts) <= zlen d + zlen o -> (length ts < fuel)%nat ->
  exists o', zlen (expands d ts) + zlen o' = zlen d + zlen o /\
  loop fuel (decompress_body (c ++ tokens_bytes ts) (zlen d + zlen o)) (zlen c, zlen d, d ++ o) =
    Some (expands d ts ++ o', zlen (expands d ts), None).
Proof.
  induction ts as [|t ts IH]; intros fuel c d o Hok Hz Hf; (destruct fuel as [|fuel]; [lia|]); rewrite loop_step.
  - exists o. split; [done|]. unfold tokens_bytes. simpl. rewrite app_nil_r, Z.ltb_irrefl. done.
  - destruct Hok as [Ht Hok]. unfold expands in *. simpl foldl in *.
    pose proof (zlen_expands_le (expand d t) ts) as Hle. unfold expands in Hle.
    change (tokens_bytes (t :: ts)) with (token_bytes t ++ tokens_bytes ts).
    destruct (decompress_token c t (tokens_bytes ts) d o Ht) as (o1 & Hz1 & ->); [lia|].
    destruct (IH fuel (c ++ token_bytes t) (expand d t) o1) as (o' & Hz' & E); [done|lia|simpl in Hf; lia|].
    exists o'. split; [lia|]. by rewrite Hz1, <- app_assoc in E.
Qed.

Lemma length_tokens_le d ts : tokens_ok d ts -> (length ts <= length (tokens_bytes ts))%nat.
Proof.
  revert d. induction ts as [|t ts IH]; intros d Hok; [simpl; lia|]. destruct Hok as [Ht Hok].
  apply IH in Hok. change (tokens_bytes (t :: ts)) with (token_bytes t ++ tokens_bytes ts). rewrite length_app.
  destruct t; simpl; [lia|]. destruct (_ <? 7); simpl; lia.
Qed.

(** Decompressing well-formed tokens gives their text. *)
Lemma decompress_spec ts o :
  tokens_ok [] ts -> zlen (expands [] ts) <= zlen o ->
  exists o', zlen (expands [] ts) + zlen o' = zlen o /\
    lzf_decompress (tokens_bytes ts) o (zlen o) = Some (expands [] ts ++ o', zlen (expands [] ts), None).
Proof.
  intros Hok Hz. unfold lzf_decompress.
  apply (decompress_tokens ts (S (length (tokens_bytes ts))) [] [] o Hok Hz).
  pose proof (length_tokens_le [] ts Hok). lia.
Qed.

(** ** Decompression of untrusted bytes

    Whatever the compressed bytes, [lzf_decompress] stays inside both buffers. *)

Lemma setb_ok m i v : 0 <= i < zlen m -> exists m', setb m i v = Some m' /\ zlen m' = zlen m.
Proof.
  intros Hi. unfold setb. destruct (getb_is_Some m i Hi) as [x ->]. eexists. split; [done|].
  unfold zlen. by rewrite length_insert.
Qed.

Lemma getb_byte m i x : Forall is_byte m -> getb m i = Some x -> is_byte x.
Proof. intros Hm. unfold getb. destruct (0 <=? i); [|done]. intros E. by eapply Forall_lookup_1. Qed.

Lemma copy_literals_safe n : forall data ip o op,
  0 <= ip -> ip + Z.of_nat n <= zlen data -> 0 <= op -> op + Z.of_nat n <= zlen o ->
  exists o', copy_literals n data ip o op = Some o' /\ zlen o' = zlen o.
Proof.
  induction n as [|n IH]; intros data ip o op Hi Hi' Ho Ho'; [by exists o|]. cbn [copy_literals].
  destruct (getb_is_Some data ip) as [b E]; [lia|]. rewrite E. cbn [mbind option_bind].
  destruct (setb_ok o op b) as (o1 & E1 & Hz1); [lia|]. rewrite E1. cbn [mbind option_bind].
  rewrite <- Hz1. apply IH; lia.
Qed.

Lemma copy_octets_safe n : forall o ref op,
  0 <= ref -> ref <= op -> op + Z.of_nat n <= zlen o ->
  exists o', copy_octets n o ref op = Some o' /\ zlen o' = zlen o.
Proof.
  induction n as [|n IH]; intros o ref op Hr Hro Ho; [by exists o|]. cbn [copy_octets].
  destruct (getb_is_Some o ref) as [b E]; [lia|]. rewrite E. cbn [mbind option_bind].
  destruct (setb_ok o op b) as (o1 & E1 & Hz1); [lia|]. rewrite E1. cbn [mbind option_bind].
  rewrite <- Hz1. apply IH; lia.
Qed.

Lemma copy_ref_safe o ref op len :
  0 <= ref -> ref <= op -> 0 <= len -> op + len + 2 <= zlen o ->
  exists o', copy_ref o ref op len = Some o' /\ zlen o' = zlen o.
Proof.
  intros Hr Hro Hl Ho. unfold copy_ref.
  destruct (len >? 9); [|apply copy_octets_safe; (done || lia)].
  destruct (op >=? ref + (len + 2)) eqn:E; [|apply copy_octets_safe; (done || lia)].
  unfold mem_read. replace (_ && _ && _) with true by lia. cbn [mbind option_bind].
  set (bs := take _ _).
  assert (zlen bs = len + 2) as Hz by (unfold bs, zlen in *; rewrite length_take, length_drop; lia).
  unfold mem_write. replace (_ && _) with true by lia. eexists. split; [done|].
  unfold zlen in *. rewrite !length_app, length_take, length_drop. lia.
Qed.

(** The state of the loop, and what it ends with. *)
Definition dec_inv (data o0 : list Z) (out_len : Z) (st : Z * Z * list Z) : Prop :=
  let '(ip, op, o) := st in
  0 <= ip <= zlen data /\ 0 <= op <= out_len /\ zlen o = zlen o0.

Definition dec_done (o0 : list Z) (out_len : Z) (r : list Z * Z * option lzf_errno) : Prop :=
  let '(o, n, e) := r in
  zlen o = zlen o0 /\ 0 <= n <= out_len /\ (e <> None -> n = 0).

Section step.
  Context (data o0 : list Z) (out_len : Z).
  Context (Hb : Forall is_byte data) (Hl : 0 <= out_len <= zlen o0).

Definition step_ok (st : Z * Z * list Z) : Prop :=
  (exists st', decompress_body data out_len st = Some (inl st') /\ dec_inv data o0 out_len st' /\ st.1.1 < st'.1.1) \/
  (exists r, decompress_body data out_len st = Some (inr r) /\ dec_done o0 out_len r).

Ltac return_here := right; eexists; (split; [reflexivity|]); split_and!; (done || lia).

Lemma decompress_step st : dec_inv data o0 out_len st -> step_ok st.
Proof.
  destruct st as [[ip op] o]. intros (Hi & Ho & Hz). unfold step_ok, decompress_body, dec_inv. simpl.
  destruct (Z.ltb_spec ip (zlen data)); [|return_here].
  destruct (getb_is_Some data ip) as [ctrl E]; [lia|]. rewrite E. cbn [mbind option_bind].
  pose proof (getb_byte _ _ _ Hb E) as Hc. unfold is_byte in Hc. change (Z.shiftl 1 5) with 32.
  destruct (Z.ltb_spec ctrl 32).
  - destruct (Z.gtb_spec (op + (ctrl + 1)) out_len); [return_here|].
    destruct (Z.gtb_spec (ip + 1 + (ctrl + 1)) (zlen data)); [return_here|].
    destruct (copy_literals_safe (Z.to_nat (ctrl + 1)) data (ip + 1) o op) as (o' & -> & Hz'); try lia.
    cbn [mbind option_bind]. left. eexists. split; [reflexivity|]. simpl. split_and!; (done || lia).
  - destruct (Z.geb_spec (ip + 1) (zlen data)); [return_here|].
    destruct (getb_is_Some data (ip + 1)) as [x Ex]; [lia|]. pose proof (getb_byte _ _ _ Hb Ex) as Hx. unfold is_byte in Hx.
    assert (0 <= Z.shiftl (Z.land ctrl 31) 8) as Hs by (apply Z.shiftl_nonneg, Z.land_nonneg; lia).
    assert (0 <= Z.shiftr ctrl 5) as Hlen by (apply Z.shiftr_nonneg; lia).
    assert (forall ip' len r, ip + 1 <= ip' < zlen data -> 0 <= len ->
      r = (x ← getb data ip';
        if op + len + 2 >? out_len then Some (inr (o, 0, Some E2BIG))
        else if op - Z.shiftl (Z.land ctrl 31) 8 - 1 - x <? 0 then Some (inr (o, 0, Some EINVAL))
        else o ← copy_ref o (op - Z.shiftl (Z.land ctrl 31) 8 - 1 - x) op len; Some (inl (ip' + 1, op + (len + 2), o))) ->
      (exists st', r = Some (inl st') /\ dec_inv data o0 out_len st' /\ ip < st'.1.1) \/
      (exists d, r = Some (inr d) /\ dec_done o0 out_len d)) as Hcopy.
    { intros ip' len r Hi' Hle ->. destruct (getb_is_Some data ip') as [y Ey]; [lia|]. rewrite Ey. cbn [mbind option_bind].
      pose proof (getb_byte _ _ _ Hb Ey) as Hy. unfold is_byte in Hy.
      destruct (Z.gtb_spec (op + len + 2) out_len); [return_here|].
      destruct (Z.ltb_spec (op - Z.shiftl (Z.land ctrl 31) 8 - 1 - y) 0); [return_here|].
      destruct (copy_ref_safe o (op - Z.shiftl (Z.land ctrl 31) 8 - 1 - y) op len) as (o' & -> & Hz'); try lia.
      cbn [mbind option_bind]. left. eexists. split; [reflexivity|]. simpl. split_and!; (done || lia). }
    destruct (Z.shiftr ctrl 5 =? 7) eqn:E7; cbn [andb].
    + rewrite Ex. cbn [mbind option_bind]. destruct (Z.geb_spec (ip + 1 + 1) (zlen data)); [return_here|].
      eapply Hcopy; [| |reflexivity]; lia.
    + cbn [mbind option_bind]. eapply Hcopy; [| |reflexivity]; lia.
Qed.

Lemma decompress_total :
  exists o n e, lzf_decompress data o0 out_len = Some (o, n, e) /\
    zlen o = zlen o0 /\ 0 <= n <= out_len /\ (e <> None -> n = 0).
Proof.
  unfold lzf_decompress.
  destruct (loop_ok (decompress_body data out_len) (dec_inv data o0 out_len) (dec_done o0 out_len)
    (fun st => zlen data - st.1.1)) with (fuel := S (length data)) (s := (0, 0, o0)) as ([[o n] e] & E & Hd).
  - intros [[ip op] o] Hinv. pose proof (decompress_step _ Hinv) as Hs. destruct Hinv as (Hi & _). simpl. split; [lia|].
    destruct Hs as [([[ip' op'] o'] & E & Hinv' & Hlt)|(r & E & Hd)]; [left|right; by exists r].
    exists (ip', op', o'). simpl in *. split; [done|]. split; [done|lia].
  - simpl. zlen_saturate. split_and!; (done || lia).
  - simpl. unfold zlen. lia.
  - by exists o, n, e.
Qed.
End step.
