(* ===== verification/LzfCompress.v ===== *)
(** * The compressor writes tokens of its input

    The invariant of the main loop: the output holds the tokens of the text already consumed,
    except for a pending run of literals whose length byte is still to be written. *)
From S2P Require Import Prelude Lzf LzfFacts.

(** ** Matches *)

(** The first [k] octets at [ref] and at [ip] agree. *)
Definition agree (data : list Z) (ref ip k : Z) : Prop :=
  forall j, 0 <= j < k -> getb data (ref + j) = getb data (ip + j).

Lemma agree_S data ref ip k x :
  agree data ref ip k -> 0 <= k -> getb data (ref + k) = Some x -> getb data (ip + k) = Some x -> agree data ref ip (k + 1).
Proof.
  intros Ha Hk E1 E2 j Hj. destruct (decide (j = k)) as [->|]; [congruence|]. apply Ha. lia.
Qed.

Lemma back_agree data off n : forall i,
  0 <= off < i -> i + Z.of_nat n <= zlen data -> agree data (i - off - 1) i (Z.of_nat n) ->
  back (take (Z.to_nat i) data) off n = take (Z.to_nat (i + Z.of_nat n)) data.
Proof.
  induction n as [|n IH]; intros i Ho Hl Ha; cbn [back]; [f_equal; lia|].
  destruct (getb_is_Some data i) as [x Ex]; [lia|].
  assert (take (Z.to_nat i) data ++ [x] = take (Z.to_nat (i + 1)) data) as Et.
  { rewrite Z2Nat.inj_add, Nat.add_1_r by lia. symmetry. apply take_S_r.
    unfold getb in Ex. by replace (0 <=? i) with true in Ex by lia. }
  assert (nth (Z.to_nat (zlen (take (Z.to_nat i) data) - off - 1)) (take (Z.to_nat i) data) 0 = x) as ->.
  { rewrite zlen_take by lia. apply (inj Some). rewrite <- getb_nth by (rewrite zlen_take; lia).
    specialize (Ha 0 ltac:(lia)). rewrite !Z.add_0_r, Ex in Ha. rewrite <- Ha.
    rewrite <- (take_drop (Z.to_nat i) data) at 2. rewrite getb_app_l; [done|]. rewrite zlen_take; lia. }
  rewrite Et, IH; [f_equal; lia|lia|lia|]. intros j Hj. specialize (Ha (j + 1) ltac:(lia)).
  by replace (i + 1 - off - 1 + j) with (i - off - 1 + (j + 1)) by lia; replace (i + 1 + j) with (i + (j + 1)) by lia.
Qed.

Lemma match_unrolled_spec n : forall data ref ip len,
  0 <= ref < ip -> 0 <= len -> ip + len + Z.of_nat n < zlen data -> agree data ref ip (len + 1) ->
  exists len' go, match_unrolled n data ref ip len = Some (len', go) /\ len <= len' <= len + Z.of_nat n /\
    if (go : bool) then len' = len + Z.of_nat n /\ agree data ref ip (len' + 1) else len < len' /\ agree data ref ip len'.
Proof.
  induction n as [|n IH]; intros data ref ip len Hr Hl Hz Ha.
  - exists len, true. split_and!; (done || lia).
  - cbn [match_unrolled]. destruct (getb_is_Some data (ref + (len + 1))) as [x Ex]; [lia|].
    destruct (getb_is_Some data (ip + (len + 1))) as [y Ey]; [lia|]. rewrite Ex, Ey. cbn [mbind option_bind].
    destruct (Z.eqb_spec x y) as [->|Hne].
    + destruct (IH data ref ip (len + 1)) as (len' & go & E & Hle & Hgo); [lia..| |].
      { eapply agree_S; [done|lia|done|done]. }
      exists len', go. split; [done|]. split; [lia|]. destruct go; [destruct Hgo; split; [lia|done]|destruct Hgo; split; [lia|done]].
    + exists (len + 1), false. split_and!; (done || lia).
Qed.

Lemma match_loop_spec data ref ip maxlen len0 fuel :
  0 <= ref < ip -> 0 <= len0 -> agree data ref ip (len0 + 1) -> maxlen <= zlen data - ip ->
  maxlen - len0 < Z.of_nat fuel -> (0 < fuel)%nat ->
  exists len, loop fuel (match_body data ref ip maxlen) len0 = Some len /\
    len0 < len <= Z.max (len0 + 1) maxlen /\ agree data ref ip len.
Proof.
  intros Hr Hl Ha Hm Hf H0.
  apply (loop_ok (match_body data ref ip maxlen)
    (fun len => len0 <= len <= Z.max len0 (maxlen - 1) /\ agree data ref ip (len + 1))
    (fun len => len0 < len <= Z.max (len0 + 1) maxlen /\ agree data ref ip len) (fun len => Z.max 0 (maxlen - len))).
  - intros len [Hlen Hag]. split; [lia|]. unfold match_body. destruct (Z.ltb_spec (len + 1) maxlen).
    + destruct (getb_is_Some data (ref + (len + 1))) as [x Ex]; [lia|].
      destruct (getb_is_Some data (ip + (len + 1))) as [y Ey]; [lia|]. rewrite Ex, Ey. cbn [mbind option_bind].
      destruct (Z.eqb_spec x y) as [->|Hne].
      * left. eexists. split; [done|]. split; [split; [lia|]|lia]. eapply agree_S; [done|lia|done|done].
      * right. eexists. split; [done|]. split; [lia|done].
    + right. eexists. split; [done|]. split; [lia|done].
  - split; [lia|done].
  - lia.
Qed.

Lemma match_length_spec data ref ip :
  0 <= ref < ip -> ip + 2 < zlen data -> agree data ref ip 3 ->
  let maxlen := zlen data - ip - 2 in
  exists n, match_length data ref ip (if maxlen >? MAX_REF then MAX_REF else maxlen) = Some n /\
    3 <= n <= 264 /\ ip + n <= zlen data /\ agree data ref ip n.
Proof.
  intros Hr Hz Ha maxlen. change MAX_REF with 264.
  assert (exists m, m = (if maxlen >? 264 then 264 else maxlen) /\ 1 <= m <= 264 /\ m <= zlen data - ip - 2) as (m & <- & Hm & Hm2).
  { eexists. split; [done|]. unfold maxlen. destruct (Z.gtb_spec (zlen data - ip - 2) 264); lia. }
  unfold match_length. change (S (Z.to_nat MAX_REF)) with 265%nat. destruct (Z.gtb_spec m 16).
  - destruct (match_unrolled_spec 16 data ref ip 2) as (len & go & -> & Hle & Hgo); [lia..|done|]. cbn [mbind option_bind].
    destruct go; destruct Hgo as [Hlen Hag].
    + destruct (match_loop_spec data ref ip m len 265) as (n & -> & Hn & Hagn); [lia|lia|done|lia|lia|lia|].
      exists n. split_and!; (done || lia).
    + exists len. split_and!; (done || lia).
  - cbn [mbind option_bind]. destruct (match_loop_spec data ref ip m 2 265) as (n & -> & Hn & Hagn); [lia|lia|done|lia|lia|lia|].
    exists n. split_and!; (done || lia).
Qed.

Lemma two_bytes_eq a b c d : is_byte a -> is_byte b -> is_byte c -> is_byte d ->
  Z.lor (Z.shiftl a 8) b = Z.lor (Z.shiftl c 8) d -> a = c /\ b = d.
Proof.
  unfold is_byte. intros Ha Hb Hc Hd E. rewrite !(Z.lor_comm (Z.shiftl _ 8)), !lor_add_high in E by lia.
  change (2 ^ 8) with 256 in E. lia.
Qed.

Section compress.
  Context (addr : Z) (data : list Z) (out_len : Z) (o0 : list Z).
  Context (Hbytes : Forall is_byte data) (Haddr : 8192 <= addr) (Hend : addr + zlen data <= 2 ^ 64).
  Context (Hout : 0 <= out_len <= zlen o0).

Lemma lzf_match_spec ip ref : 0 <= ip -> ip + 2 < zlen data -> 0 <= ref < 2 ^ 64 ->
  let off := u64 (addr + ip - ref - 1) in
  exists m, lzf_match addr data ip ref off = Some m /\
    (m = true -> 0 <= off < 8192 /\ off = ip - (ref - addr) - 1 /\ 0 < ref - addr < ip /\ agree data (ref - addr) ip 3).
Proof.
  intros Hi Hz Hr off. unfold lzf_match. change MAX_OFF with 8192.
  destruct (Z.ltb_spec off 8192); [|by exists false]. destruct (Z.gtb_spec ref addr); [|by exists false]. cbn [andb].
  assert (0 <= addr + ip - ref - 1 /\ off = addr + ip - ref - 1) as [Hpos Eoff].
  { assert (0 <= addr + ip - ref - 1).
    { destruct (Z.le_gt_cases 0 (addr + ip - ref - 1)); [done|]. exfalso.
      assert (off = addr + ip - ref - 1 + 2 ^ 64); [|lia]. unfold off, wrapu. symmetry.
      apply Z.mod_unique with (-1); lia. }
    split; [done|]. unfold off. rewrite wrapu_small; [done|]. lia. }
  set (r := ref - addr) in *.
  destruct (getb_is_Some data (r + 2)) as [r2 R2]; [lia|]. destruct (getb_is_Some data (ip + 2)) as [i2 I2]; [lia|].
  destruct (getb_is_Some data (r + 1)) as [r1 R1]; [lia|]. destruct (getb_is_Some data (ip + 1)) as [i1 I1]; [lia|].
  destruct (getb_is_Some data r) as [r0 R0]; [lia|]. destruct (getb_is_Some data ip) as [i0 I0]; [lia|].
  rewrite R2, I2. cbn [mbind option_bind]. destruct (Z.eqb_spec r2 i2) as [->|]; [|by exists false].
  rewrite R1, R0, I1, I0. cbn [mbind option_bind]. eexists. split; [done|]. intros E. apply Z.eqb_eq in E.
  apply two_bytes_eq in E as [-> ->]; [|by eapply getb_byte; [exact Hbytes|eassumption]..].
  split_and!; [lia|lia|lia|lia|lia|]. intros j Hj.
  assert (j = 0 \/ j = 1 \/ j = 2) as [-> | [-> | ->]] by lia; rewrite ?Z.add_0_r; congruence.
Qed.

(** ** The invariant *)

Definition slots_ok (tab : LZF_STATE) : Prop := forall i, 0 <= tab i < 2 ^ 64.

Lemma slots_ok_set tab i p : slots_ok tab -> 0 <= p < zlen data -> slots_ok (set_slot tab i (addr + p)).
Proof. intros Ht Hp j. unfold set_slot. destruct (j =? i); [lia|apply Ht]. Qed.

Definition pending (ts : list token) (lits o : list Z) : Prop :=
  (lits = [] /\ o = tokens_bytes ts) \/ exists h rest, o = tokens_bytes ts ++ h :: lits ++ rest.

Definition comp_inv (st : lzf_state) : Prop :=
  exists ts lits, tokens_ok [] ts /\ expands [] ts ++ lits = take (Z.to_nat (ip st)) data /\
    zlen lits = lit st /\ lit st < 32 /\ op st = zlen (tokens_bytes ts) + 1 + lit st /\
    0 <= ip st <= zlen data /\ zlen (out st) = zlen o0 /\ slots_ok (htab st) /\ pending ts lits (out st).

(** Ending the run: the output holds the tokens of all that was consumed. *)
Lemma stop_run_spec st : comp_inv st -> op st <= zlen o0 ->
  exists ts rest, stop_run st = Some (tokens_bytes ts ++ rest) /\ tokens_ok [] ts /\
    expands [] ts = take (Z.to_nat (ip st)) data /\ op st - lnot_c (lit st) = zlen (tokens_bytes ts) /\
    zlen (tokens_bytes ts) + zlen rest = zlen o0 /\ slots_ok (htab st) /\ 0 <= ip st <= zlen data.
Proof.
  intros (ts & lits & Hok & Hex & Hl & H32 & Hop & Hip & Hz & Hs & Hp) Hle. unfold stop_run.
  destruct Hp as [[ -> Ho]|(h & rest & Ho)].
  { exfalso. rewrite Ho in Hz. change (zlen (@nil Z)) with 0 in Hl. lia. }
  rewrite Ho, setb_mid by lia. rewrite Ho in Hz. unfold lnot_c. destruct (Z.eqb_spec (lit st) 0) as [E0|E0].
  - rewrite E0 in *. destruct lits; [|rewrite zlen_cons in Hl; zlen_saturate; lia]. rewrite app_nil_r in Hex.
    exists ts, (255 :: rest). split; [done|]. split_and!; try done; try lia. len_lia.
  - exists (ts ++ [Lit lits]), rest. rewrite tokens_ok_snoc, expands_snoc, tokens_bytes_snoc. simpl.
    rewrite wrapu_small, Hl by (zlen_saturate; lia). rewrite <- app_assoc. split_and!; try done; try len_lia.
Qed.

Lemma put_literal_spec st : comp_inv st -> ip st < zlen data -> op st < zlen o0 ->
  exists st', put_literal data st = Some st' /\ comp_inv st' /\ ip st' = ip st + 1 /\
    op st' = op st + 1 + (if lit st + 1 =? 32 then 1 else 0) /\
    lit st' = (if lit st + 1 =? 32 then 0 else lit st + 1).
Proof.
  intros (ts & lits & Hok & Hex & Hl & H32 & Hop & Hip & Hz & Hs & Hp) Hlt Hlo.
  destruct (getb_is_Some data (ip st)) as [b Eb]; [lia|].
  assert (expands [] ts ++ lits ++ [b] = take (Z.to_nat (ip st + 1)) data) as Hex'.
  { rewrite app_assoc, Hex, Z2Nat.inj_add, Nat.add_1_r by lia. symmetry. apply take_S_r.
    unfold getb in Eb. by replace (0 <=? ip st) with true in Eb by lia. }
  destruct Hp as [[ -> Ho]|(h & rest & Ho)].
  { exfalso. rewrite Ho in Hz. change (zlen (@nil Z)) with 0 in Hl. lia. }
  assert (exists x rest', rest = x :: rest') as (x & rest' & ->).
  { destruct rest; [|eauto]. rewrite Ho in Hz. exfalso. len_lia. }
  unfold put_literal. rewrite Eb, Ho. cbn [mbind option_bind].
  replace (tokens_bytes ts ++ h :: lits ++ x :: rest') with ((tokens_bytes ts ++ h :: lits) ++ x :: rest') by (by rewrite <- app_assoc).
  rewrite setb_mid by len_lia. cbn [mbind option_bind lit ip op out htab hval].
  set (o1 := (tokens_bytes ts ++ h :: lits) ++ b :: rest').
  assert (comp_inv {| ip := ip st + 1; op := op st + 1; lit := lit st + 1; hval := hval st; htab := htab st; out := o1 |} \/ lit st + 1 = 32) as Hinv.
  { destruct (decide (lit st + 1 = 32)); [by right|]. left. exists ts, (lits ++ [b]). simpl.
    split_and!; try done; try len_lia.
    - unfold o1. rewrite Ho in Hz. len_lia.
    - right. exists h, rest'. unfold o1. by rewrite <- !app_assoc. }
  change MAX_LIT with 32. destruct (Z.eqb_spec (lit st + 1) 32) as [E|E].
  - unfold stop_run. cbn [out op lit]. unfold o1. rewrite <- app_assoc. cbn [app].
    rewrite setb_mid by lia. cbn [mbind option_bind].
    eexists. split; [done|]. simpl. split; [|lia].
    exists (ts ++ [Lit (lits ++ [b])]), []. rewrite tokens_ok_snoc, expands_snoc, tokens_bytes_snoc. simpl.
    rewrite app_nil_r, wrapu_small by lia. split_and!; try done; try len_lia.
    + rewrite Ho in Hz. len_lia.
    + unfold pending. rewrite tokens_bytes_snoc. simpl. rewrite zlen_app, Hl. change (zlen [b]) with 1.
      replace (lit st + 1 - 1) with (lit st) by lia.
      replace (tokens_bytes ts ++ lit st :: lits ++ b :: rest') with ((tokens_bytes ts ++ lit st :: lits ++ [b]) ++ rest')
        by (rewrite <- !app_assoc; simpl; by rewrite <- app_assoc).
      destruct rest' as [|y rest']; [left; by rewrite app_nil_r|right; by exists y, rest'].
  - eexists. split; [done|]. destruct Hinv as [Hinv|]; [|done]. split; [done|]. simpl. lia.
Qed.

Lemma put_ref_spec c rest off n :
  0 <= off < 8192 -> 3 <= n <= 264 -> 3 <= zlen rest ->
  exists rest', put_ref (c ++ rest) (zlen c) off (n - 2) =
    Some (c ++ token_bytes (Ref off n) ++ rest', zlen (c ++ token_bytes (Ref off n))) /\
    zlen (token_bytes (Ref off n)) + zlen rest' = zlen rest.
Proof.
  intros Ho Hn Hz. destruct rest as [|x [|y [|z rest]]]; [exfalso; len_lia..|]. unfold put_ref. simpl token_bytes.
  assert (0 <= off / 256 < 32) as Hq by div_lia.
  rewrite Z.shiftr_div_pow2, !Z.shiftl_mul_pow2 by lia. change (2 ^ 8) with 256. change (2 ^ 5) with 32.
  change (u8 off) with (off mod 256). destruct (Z.ltb_spec (n - 2) 7).
  - rewrite setb_mid by done. cbn [mbind option_bind]. rewrite setb_app_r by lia. cbn [mbind option_bind].
    rewrite wrapu_small by lia. exists (z :: rest). split; [|len_lia].
    change (setb (?a :: y :: ?l) 1 ?v) with (Some (a :: v :: l)). cbn [mbind option_bind]. do 2 f_equal; [|len_lia].
    f_equal. simpl. f_equal. lia.
  - rewrite setb_mid by done. cbn [mbind option_bind]. rewrite setb_app_r by lia. cbn [mbind option_bind].
    change (setb (?a :: y :: ?l) 1 ?v) with (Some (a :: v :: l)). cbn [mbind option_bind].
    rewrite setb_app_r by lia. change (setb (?a :: ?b :: z :: ?l) 2 ?v) with (Some (a :: b :: v :: l)). cbn [mbind option_bind].
    rewrite !wrapu_small by lia. exists rest. split; [|len_lia]. do 2 f_equal. len_lia.
Qed.

Lemma FRST_ok p : 0 <= p -> p + 1 < zlen data -> exists v, FRST data p = Some v.
Proof.
  intros H1 H2. unfold FRST. destruct (getb_is_Some data p) as [x ->]; [lia|]. cbn [mbind option_bind].
  destruct (getb_is_Some data (p + 1)) as [y ->]; [lia|]. eauto.
Qed.

Lemma NEXT_ok v p : -2 <= p -> p + 2 < zlen data -> exists v', NEXT data v p = Some v'.
Proof.
  intros H1 H2. unfold NEXT. destruct (getb_is_Some data (p + 2)) as [x ->]; [lia|]. eauto.
Qed.

(** What a step of the main loop achieves. *)
Definition step_done (st : lzf_state) (r : option (lzf_state + lzf_state * bool)) : Prop :=
  (exists st', r = Some (inl st') /\ comp_inv st' /\ ip st < ip st') \/
  (exists st' go, r = Some (inr (st', go)) /\ comp_inv st' /\ (go = true -> zlen data - 2 <= ip st')).

Lemma put_match_spec st ref off :
  comp_inv st -> ip st + 2 < zlen data -> 0 <= off < 8192 -> off = ip st - (ref - addr) - 1 -> 0 < ref - addr < ip st ->
  agree data (ref - addr) (ip st) 3 -> step_done st (put_match addr data out_len ref off st).
Proof.
  intros Hinv Hi Hoff Eoff Hr Ha. unfold put_match.
  destruct ((op st + 3 + 1 >=? out_len) && (op st - lnot_c (lit st) + 3 + 1 >=? out_len)) eqn:Eroom.
  { right. exists st, false. done. }
  assert (0 <= lnot_c (lit st) <= 1) as Hn by (unfold lnot_c; destruct (lit st =? 0); lia).
  destruct (stop_run_spec st Hinv) as (ts & rest & -> & Hok & Hex & Hop & Hz & Hs & Hip); [lia|]. cbn [mbind option_bind].
  destruct (match_length_spec data (ref - addr) (ip st)) as (n & -> & Hn3 & Hne & Hag); [lia|lia|done|]. cbn [mbind option_bind].
  rewrite Hop. destruct (put_ref_spec (tokens_bytes ts) rest off n) as (rest' & -> & Hz'); [done|done|lia|]. cbn [mbind option_bind].
  assert (forall hv tab, slots_ok tab -> comp_inv {| ip := ip st + n;
    op := zlen (tokens_bytes ts ++ token_bytes (Ref off n)) + 1; lit := 0; hval := hv; htab := tab;
    out := tokens_bytes ts ++ token_bytes (Ref off n) ++ rest' |}) as Hnew.
  { intros hv tab Ht. exists (ts ++ [Ref off n]), []. rewrite tokens_ok_snoc, expands_snoc, tokens_bytes_snoc.
    cbn [ip op lit htab out]. split_and!; try done; try lia.
    - simpl. rewrite Hex, zlen_take by lia. lia.
    - rewrite app_nil_r. cbn [expand]. rewrite Hex, back_agree by (rewrite ?Z2Nat.id by lia; try lia; by rewrite Eoff;
        replace (ip st - (ip st - (ref - addr) - 1) - 1) with (ref - addr) by lia). f_equal. lia.
    - rewrite !zlen_app. lia.
    - unfold pending. rewrite tokens_bytes_snoc, app_assoc.
      destruct rest' as [|y rest']; [left; by rewrite app_nil_r|right; by exists y, rest']. }
  replace (ip st + 1 + (n - 2 + 1)) with (ip st + n) by lia.
  destruct (Z.geb_spec (ip st + n) (zlen data - 2)).
  - right. eexists _, true. split; [done|]. split; [by apply Hnew|]. simpl. lia.
  - left. replace (ip st + n - 1 - 1) with (ip st + n - 2) by lia.
    destruct (FRST_ok (ip st + n - 2)) as [v1 ->]; [lia..|]. cbn [mbind option_bind].
    destruct (NEXT_ok v1 (ip st + n - 2)) as [v2 ->]; [lia..|]. cbn [mbind option_bind].
    destruct (NEXT_ok v2 (ip st + n - 2 + 1)) as [v3 ->]; [lia..|]. cbn [mbind option_bind].
    eexists. split; [done|]. replace (ip st + n - 2 + 1 + 1) with (ip st + n) by lia.
    split; [|simpl; lia]. apply Hnew. apply slots_ok_set; [|lia]. apply slots_ok_set; [done|lia].
Qed.

Lemma compress_step st : comp_inv st -> step_done st (compress_body addr data out_len st).
Proof.
  intros Hinv. assert (0 <= ip st <= zlen data) as Hip by (by destruct Hinv as (? & ? & ? & ? & ? & ? & ? & ? & _)).
  assert (slots_ok (htab st)) as Hs by (by destruct Hinv as (? & ? & ? & ? & ? & ? & ? & ? & ? & ? & _)).
  unfold compress_body. destruct (Z.ltb_spec (ip st) (zlen data - 2)).
  2:{ right. exists st, true. split_and!; (done || lia). }
  destruct (NEXT_ok (hval st) (ip st)) as [hv ->]; [lia..|]. cbn [mbind option_bind].
  set (st1 := {| ip := _; op := _; lit := _; hval := _; htab := _; out := _ |}).
  assert (comp_inv st1) as Hinv1.
  { destruct Hinv as (ts & lits & ? & ? & ? & ? & ? & ? & ? & ? & ?). exists ts, lits. simpl. split_and!; try (done || lia).
    apply slots_ok_set; [done|lia]. }
  change (ip st1) with (ip st).
  destruct (lzf_match_spec (ip st) (htab st (IDX hv))) as (m & -> & Hm); [lia|lia|apply Hs|]. cbn [mbind option_bind].
  destruct m.
  - destruct (Hm eq_refl) as (Ho & Eo & Hr & Ha). apply (put_match_spec st1); try change (ip st1) with (ip st); (done || lia).
  - destruct (Z.geb_spec (op st1) out_len). { right. exists st1, false. done. }
    destruct (put_literal_spec st1 Hinv1) as (st' & -> & Hinv' & Hi' & _); [change (ip st1) with (ip st); lia|lia|]. cbn [mbind option_bind].
    change (ip st1) with (ip st) in Hi'. left. exists st'. split_and!; (done || lia).
Qed.

(** ** The last octets *)

Definition tail_room (st : lzf_state) : Prop :=
  let rem := zlen data - ip st in
  rem <= 2 /\ op st + rem + (if lit st + rem >=? 32 then 1 else 0) <= out_len.

Lemma compress_tail_spec st : comp_inv st -> tail_room st ->
  exists st', loop (S (length data)) (compress_tail_body data) st = Some st' /\ comp_inv st' /\
    ip st' = zlen data /\ op st' <= out_len.
Proof.
  intros Hinv Hroom.
  destruct (loop_ok (compress_tail_body data) (fun st => comp_inv st /\ tail_room st)
    (fun st' => comp_inv st' /\ ip st' = zlen data /\ op st' <= out_len) (fun st => zlen data - ip st))
    with (fuel := S (length data)) (s := st) as (st' & E & H); [|done| |by exists st'].
  - clear st Hinv Hroom. intros st [Hinv [Hrem Hroom]].
    assert (0 <= ip st <= zlen data) as Hip by (by destruct Hinv as (? & ? & ? & ? & ? & ? & ? & ? & _)).
    assert (lit st < 32) as Hl by (by destruct Hinv as (? & ? & ? & ? & ? & ? & _)).
    split; [lia|]. unfold compress_tail_body. destruct (Z.ltb_spec (ip st) (zlen data)).
    + destruct (put_literal_spec st Hinv) as (st' & -> & Hinv' & Hi' & Ho' & Hl'); [lia| |].
      { destruct (lit st + (zlen data - ip st) >=? 32); lia. }
      cbn [mbind option_bind]. left. exists st'. split; [done|]. split; [|lia]. split; [done|]. split; [lia|].
      rewrite Hi', Ho', Hl'. destruct (Z.eqb_spec (lit st + 1) 32).
      * replace (lit st + (zlen data - ip st) >=? 32) with true in Hroom by lia.
        replace (0 + (zlen data - (ip st + 1)) >=? 32) with false by lia. lia.
      * replace (lit st + 1 + (zlen data - (ip st + 1)) >=? 32) with (lit st + (zlen data - ip st) >=? 32) by (f_equal; lia). lia.
    + right. exists st. split; [done|]. split; [done|]. split; [lia|].
      destruct (lit st + (zlen data - ip st) >=? 32); lia.
  - assert (0 <= ip st) by (by destruct Hinv as (? & ? & ? & ? & ? & ? & ? & [? ?] & _)). unfold zlen. lia.
Qed.

(** ** The compressor *)

Lemma compress_spec tab : 2 <= zlen data -> slots_ok tab ->
  exists o n, lzf_compress addr tab data o0 out_len = Some (o, n) /\ zlen o = zlen o0 /\
    (n = 0 \/ exists ts, tokens_ok [] ts /\ expands [] ts = data /\ take (Z.to_nat n) o = tokens_bytes ts /\
       n = zlen (tokens_bytes ts) /\ n <= out_len).
Proof.
  intros H2 Ht. unfold lzf_compress. replace (zlen data =? 0) with false by lia. cbn [orb].
  destruct (Z.eqb_spec out_len 0). { exists o0, 0. auto. }
  destruct (FRST_ok 0) as [hv ->]; [lia..|]. cbn [mbind option_bind].
  destruct (loop_ok (compress_body addr data out_len) comp_inv
    (fun r => comp_inv r.1 /\ (r.2 = true -> zlen data - 2 <= ip r.1)) (fun st => zlen data - ip st))
    with (fuel := S (length data)) (s := {| ip := 0; op := 1; lit := 0; hval := hv; htab := tab; out := o0 |})
    as ([st go] & -> & Hinv & Hgo).
  { intros st Hinv. assert (0 <= ip st <= zlen data) by (by destruct Hinv as (? & ? & ? & ? & ? & ? & ? & ? & _)).
    split; [lia|]. destruct (compress_step st Hinv) as [(st' & E & Hi & Hlt)|(st' & go & E & Hi & Hg)].
    - left. exists st'. split_and!; (done || lia).
    - right. by exists (st', go). }
  { exists [], []. simpl. change (zlen (@nil Z)) with 0. split_and!; try (done || lia).
    right. destruct o0 as [|h rest]; [change (zlen (@nil Z)) with 0 in Hout; lia|]. by exists h, rest. }
  { simpl. unfold zlen. lia. }
  cbn [mbind option_bind]. assert (zlen (out st) = zlen o0) as Hz by (by destruct Hinv as (? & ? & ? & ? & ? & ? & ? & ? & ? & _)).
  destruct go; cbn [negb]; [|exists (out st), 0; auto].
  destruct (Z.gtb_spec (op st + 3) out_len). { exists (out st), 0. auto. }
  destruct (compress_tail_spec st Hinv) as (st' & -> & Hinv' & Hi' & Ho').
  { split; [simpl in Hgo; lia|]. simpl in Hgo. destruct (_ >=? 32); lia. }
  cbn [mbind option_bind].
  destruct (stop_run_spec st' Hinv') as (ts & rest & -> & Hok & Hex & Hop & Hzz & _); [lia|]. cbn [mbind option_bind].
  eexists _, _. split; [done|]. split; [len_lia|]. right. exists ts. rewrite Hop.
  rewrite Hi', take_ge in Hex by (unfold zlen; lia).
  assert (0 <= lnot_c (lit st') <= 1) by (unfold lnot_c; destruct (lit st' =? 0); lia).
  split_and!; try done; [|lia]. unfold zlen. by rewrite Nat2Z.id, take_app_length.
Qed.
End compress.

(** Tokens of bytes are bytes. *)
Lemma expands_prefix ts : forall d, exists e, expands d ts = d ++ e.
Proof.
  induction ts as [|t ts IH]; intros d; [exists []; by rewrite app_nil_r|]. unfold expands in *. simpl.
  destruct (IH (expand d t)) as [e ->]. destruct t as [l|off n]; simpl.
  - eexists. by rewrite <- app_assoc.
  - destruct (back_app d off (Z.to_nat n)) as (e' & -> & _). eexists. by rewrite <- app_assoc.
Qed.

Lemma tokens_are_bytes ts : forall d, tokens_ok d ts -> Forall is_byte (expands d ts) -> Forall is_byte (tokens_bytes ts).
Proof.
  induction ts as [|t ts IH]; intros d Hok Hb; [constructor|]. destruct Hok as [Ht Hok].
  change (tokens_bytes (t :: ts)) with (token_bytes t ++ tokens_bytes ts). apply Forall_app.
  split; [|by apply (IH (expand d t))].
  destruct t as [l|off n]; simpl in Ht |- *.
  - constructor; [unfold is_byte; lia|]. destruct (expands_prefix ts (d ++ l)) as [e E].
    unfold expands in Hb, E. simpl in Hb. rewrite E in Hb. apply Forall_app in Hb as [Hb _]. by apply Forall_app in Hb as [_ Hb].
  - destruct Ht as (? & ? & ?). assert (0 <= off / 256 < 32) by div_lia. assert (0 <= off mod 256 < 256) by div_lia.
    destruct (Z.ltb_spec (n - 2) 7); repeat (constructor; [unfold is_byte; lia|]); constructor.
Qed.
