(* ===== verification/Rio.v ===== *)
(** * Streams: [rio.h], and the buffer target of [rio.c]

    A stream has a backend, reached through the function pointers of [struct _rio]; here the
    pointers are the class [RioBackend].  Reads and writes go through it in chunks, with the
    running checksum and the sticky error flags. *)
From S2P Require Import Prelude.

Definition RIO_FLAG_READ_ERROR : Z := Z.shiftl 1 0.
Definition RIO_FLAG_WRITE_ERROR : Z := Z.shiftl 1 1.

(** [read] and [write]: the new backend state, and the bytes or success ([None] and [false] for 0). *)
Class RioBackend (B : Type) := {
  rio_read : B -> Z -> B * option (list Z);
  rio_write : B -> list Z -> B * bool;
}.

Record rio (B : Type) := mk_rio {
  io : B;
  update_cksum : option (Z -> list Z -> Z);
  cksum : Z;
  rflags : Z;
  processed_bytes : Z;
  max_processing_chunk : Z }.
Arguments mk_rio {B}. Arguments io {B}. Arguments update_cksum {B}. Arguments cksum {B}.
Arguments rflags {B}. Arguments processed_bytes {B}. Arguments max_processing_chunk {B}.

Section ops.
  Context {B : Type} `{!RioBackend B}.

Definition set_io (r : rio B) (b : B) : rio B :=
  mk_rio b (update_cksum r) (cksum r) (rflags r) (processed_bytes r) (max_processing_chunk r).
Definition set_flag (r : rio B) (f : Z) : rio B :=
  mk_rio (io r) (update_cksum r) (cksum r) (Z.lor (rflags r) f) (processed_bytes r) (max_processing_chunk r).
Definition add_cksum (r : rio B) (bs : list Z) : rio B :=
  match update_cksum r with
  | Some f => mk_rio (io r) (update_cksum r) (f (cksum r) bs) (rflags r) (processed_bytes r) (max_processing_chunk r)
  | None => r
  end.
Definition add_processed (r : rio B) (n : Z) : rio B :=
  mk_rio (io r) (update_cksum r) (cksum r) (rflags r) (u64 (processed_bytes r + n)) (max_processing_chunk r).

Definition has_error (r : rio B) (f : Z) : bool := negb (Z.land (rflags r) f =? 0).

(** [bytes_to_write], [bytes_to_read]. *)
Definition chunk (r : rio B) (len : Z) : Z :=
  if negb (max_processing_chunk r =? 0) && (max_processing_chunk r <? len) then max_processing_chunk r else len.

Definition write_body (st : rio B * list Z) : option (rio B * list Z + rio B * bool) :=
  let '(r, buf) := st in
  if negb (zlen buf =? 0) then
    let n := chunk r (zlen buf) in
    let bs := take (Z.to_nat n) buf in
    let r := add_cksum r bs in
    let '(b, ok) := rio_write (io r) bs in
    let r := set_io r b in
    if (ok : bool) then Some (inl (add_processed r n, drop (Z.to_nat n) buf))
    else Some (inr (set_flag r RIO_FLAG_WRITE_ERROR, false))
  else Some (inr (r, true)).

Definition rioWrite (r : rio B) (buf : list Z) : option (rio B * bool) :=
  if has_error r RIO_FLAG_WRITE_ERROR then Some (r, false)
  else loop (S (length buf)) write_body (r, buf).

Definition read_body (st : rio B * list Z * Z) : option (rio B * list Z * Z + rio B * option (list Z)) :=
  let '(r, buf, len) := st in
  if negb (len =? 0) then
    let n := chunk r len in
    let '(b, res) := rio_read (io r) n in
    let r := set_io r b in
    match res with
    | Some bs => Some (inl (add_processed (add_cksum r bs) n, buf ++ bs, len - n))
    | None => Some (inr (set_flag r RIO_FLAG_READ_ERROR, None))
    end
  else Some (inr (r, Some buf)).

(** The bytes read, or [None] for a return of 0. *)
Definition rioRead (r : rio B) (len : Z) : option (rio B * option (list Z)) :=
  if has_error r RIO_FLAG_READ_ERROR then Some (r, None)
  else loop (S (Z.to_nat len)) read_body (r, [], len).

Definition rioGetReadError (r : rio B) : bool := has_error r RIO_FLAG_READ_ERROR.
Definition rioGetWriteError (r : rio B) : bool := has_error r RIO_FLAG_WRITE_ERROR.
End ops.

(** ** The buffer target *)

Record riobuf := { ptr : list Z; pos : Z }.

Definition rioBufferWrite (b : riobuf) (bs : list Z) : riobuf * bool :=
  ({| ptr := ptr b ++ bs; pos := pos b + zlen bs |}, true).

Definition rioBufferRead (b : riobuf) (len : Z) : riobuf * option (list Z) :=
  if u64 (zlen (ptr b) - pos b) <? len then (b, None)
  else ({| ptr := ptr b; pos := pos b + len |}, mem_read (ptr b) (pos b) len).

#[export] Instance buffer_backend : RioBackend riobuf :=
  {| rio_read := rioBufferRead; rio_write := rioBufferWrite |}.

Definition rioBufferIO : rio riobuf := mk_rio {| ptr := []; pos := 0 |} None 0 0 0 0.

Definition rioInitWithBuffer (s : list Z) : rio riobuf := set_io rioBufferIO {| ptr := s; pos := 0 |}.

(** ** What a stream promises to its users

    [RioStream] is the contract of a backend: reads deliver the bytes to come in order and fail
    when there are too few of them, writes append or fail.  The buffer target implements it.
    From the contract: what [rioRead] and [rioWrite] do, whatever the chunk size. *)

Class RioStream (B : Type) `{!RioBackend B} := {
  can_read : B -> list Z -> Prop;
  output : B -> list Z;
  can_read_ok b x y : can_read b (x ++ y) -> exists b', rio_read b (zlen x) = (b', Some x) /\ can_read b' y;
  can_read_short b x n : can_read b x -> zlen x < n -> exists b', rio_read b n = (b', None);
  write_output b x b' : rio_write b x = (b', true) -> output b' = output b ++ x;
}.

Section facts.
  Context {B : Type} `{!RioBackend B} `{!RioStream B}.

(** A healthy stream with the bytes [bs] to come. *)
Definition upcoming (r : rio B) (bs : list Z) : Prop :=
  can_read (io r) bs /\ Forall is_byte bs /\ has_error r RIO_FLAG_READ_ERROR = false /\ 0 <= max_processing_chunk r.

Lemma chunk_range (r : rio B) n : 0 <= max_processing_chunk r -> 0 < n -> 0 < chunk r n <= n.
Proof. intros Hm Hn. unfold chunk. destruct (_ && _) eqn:E; lia. Qed.

Lemma has_error_set (r : rio B) f : f <> 0 -> has_error (set_flag r f) f = true.
Proof.
  intros Hf. unfold has_error. simpl. apply negb_true_iff, Z.eqb_neq. intros E. apply Hf.
  apply Z.bits_inj_0. intros i. apply (f_equal (fun z => Z.testbit z i)) in E.
  rewrite Z.land_spec, Z.lor_spec, Z.bits_0 in E. destruct (Z.testbit f i), (Z.testbit (rflags r) i); done.
Qed.

Lemma rflags_add_cksum (r : rio B) bs : rflags (add_cksum r bs) = rflags r.
Proof. unfold add_cksum. by destruct (update_cksum r). Qed.
Lemma io_add_cksum (r : rio B) bs : io (add_cksum r bs) = io r.
Proof. unfold add_cksum. by destruct (update_cksum r). Qed.
Lemma chunk_add_cksum (r : rio B) bs : max_processing_chunk (add_cksum r bs) = max_processing_chunk r.
Proof. unfold add_cksum. by destruct (update_cksum r). Qed.

(** ** Reading *)

Lemma read_loop_ok (r0 : rio B) a b :
  upcoming r0 (a ++ b) -> forall fuel, zlen a < Z.of_nat fuel -> forall acc,
  exists r', loop fuel read_body (r0, acc, zlen a) = Some (r', Some (acc ++ a)) /\ upcoming r' b.
Proof.
  intros Hu fuel. revert r0 a Hu. induction fuel as [|fuel IH]; intros r0 a Hu Hf acc; [zlen_saturate; lia|].
  rewrite loop_step. unfold read_body at 1. destruct (Z.eqb_spec (zlen a) 0) as [E0|E0]; cbn [negb].
  - destruct a; [|rewrite zlen_cons in E0; zlen_saturate; lia]. exists r0. by rewrite app_nil_r.
  - destruct Hu as (Hc & Hb & He & Hm). zlen_saturate. pose proof (chunk_range r0 (zlen a) Hm ltac:(lia)) as Hn.
    set (n := chunk r0 (zlen a)) in *.
    rewrite <- (take_drop (Z.to_nat n) a) in Hc, Hb. rewrite <- app_assoc in Hc, Hb.
    destruct (can_read_ok _ _ _ Hc) as (b' & Er & Hc'). rewrite zlen_take in Er by lia. rewrite Er. cbv beta iota zeta.
    apply Forall_app in Hb as [_ Hb].
    destruct (IH (add_processed (add_cksum (set_io r0 b') (take (Z.to_nat n) a)) n) (drop (Z.to_nat n) a))
      with (acc := acc ++ take (Z.to_nat n) a) as (r' & E & Hu').
    + split_and!; [simpl; by rewrite io_add_cksum|done| |simpl; by rewrite chunk_add_cksum].
      unfold has_error. simpl. by rewrite rflags_add_cksum.
    + rewrite zlen_drop by lia. lia.
    + rewrite zlen_drop in E by lia. exists r'. split; [|done]. by rewrite E, <- app_assoc, take_drop.
Qed.

Lemma rioRead_ok (r : rio B) a b :
  upcoming r (a ++ b) -> exists r', rioRead r (zlen a) = Some (r', Some a) /\ upcoming r' b.
Proof.
  intros Hu. unfold rioRead. pose proof Hu as (_ & _ & -> & _).
  destruct (read_loop_ok r a b Hu (S (Z.to_nat (zlen a)))) with (acc := @nil Z) as (r' & E & Hu'); [zlen_saturate; lia|].
  by exists r'.
Qed.

Lemma rioRead_short (r : rio B) a n :
  upcoming r a -> zlen a < n -> exists r', rioRead r n = Some (r', None) /\ rioGetReadError r' = true.
Proof.
  intros Hu Hn. unfold rioRead. pose proof Hu as (_ & _ & -> & _).
  assert (forall fuel r a n, upcoming r a -> zlen a < n -> n < Z.of_nat fuel -> forall acc,
    exists r', loop fuel read_body (r, acc, n) = Some (r', None) /\ rioGetReadError r' = true) as Hloop.
  { clear. induction fuel as [|fuel IH]; intros r a n Hu Hn Hf acc; [zlen_saturate; lia|]. zlen_saturate.
    rewrite loop_step. unfold read_body at 1. replace (n =? 0) with false by lia. cbn [negb].
    destruct Hu as (Hc & Hb & He & Hm). pose proof (chunk_range r n Hm ltac:(lia)) as Hk.
    set (k := chunk r n) in *. destruct (Z.lt_ge_cases (zlen a) k).
    - destruct (can_read_short _ _ _ Hc H0) as (b' & ->). eexists. split; [done|]. apply has_error_set. done.
    - rewrite <- (take_drop (Z.to_nat k) a) in Hc, Hb. destruct (can_read_ok _ _ _ Hc) as (b' & Er & Hc').
      rewrite zlen_take in Er by lia. rewrite Er. cbv beta iota zeta. apply Forall_app in Hb as [_ Hb].
      apply (IH _ (drop (Z.to_nat k) a)).
      + split_and!; [simpl; by rewrite io_add_cksum|done| |simpl; by rewrite chunk_add_cksum].
        unfold has_error. simpl. by rewrite rflags_add_cksum.
      + rewrite zlen_drop by lia. lia.
      + lia. }
  apply (Hloop _ r a n Hu Hn). zlen_saturate. lia.
Qed.

(** ** Writing *)

Definition write_may_fail : Prop := exists b x b', rio_write (B := B) b x = (b', false).

Lemma write_loop_ok fuel : forall (r : rio B) buf, 0 <= max_processing_chunk r -> zlen buf < Z.of_nat fuel ->
  has_error r RIO_FLAG_WRITE_ERROR = false ->
  exists r' ok, loop fuel write_body (r, buf) = Some (r', ok) /\ max_processing_chunk r' = max_processing_chunk r /\
    if (ok : bool) then output (io r') = output (io r) ++ buf /\ has_error r' RIO_FLAG_WRITE_ERROR = false
    else rioGetWriteError r' = true /\ write_may_fail.
Proof.
  induction fuel as [|fuel IH]; intros r buf Hm Hf He; zlen_saturate; [lia|]. rewrite loop_step. unfold write_body at 1.
  destruct (Z.eqb_spec (zlen buf) 0) as [E0|E0]; cbn [negb].
  - destruct buf; [|rewrite zlen_cons in E0; zlen_saturate; lia]. exists r, true. rewrite app_nil_r. done.
  - pose proof (chunk_range r (zlen buf) Hm ltac:(lia)) as Hn. set (n := chunk r (zlen buf)) in *.
    set (bs := take (Z.to_nat n) buf). destruct (rio_write (io (add_cksum r bs)) bs) as [b' ok] eqn:Ew. destruct ok.
    + apply write_output in Ew. rewrite io_add_cksum in Ew.
      destruct (IH (add_processed (set_io (add_cksum r bs) b') n) (drop (Z.to_nat n) buf)) as (r' & ok & E & Hm' & Hok).
      * simpl. by rewrite chunk_add_cksum.
      * rewrite zlen_drop; lia.
      * unfold has_error. simpl. by rewrite rflags_add_cksum.
      * exists r', ok. split; [done|]. simpl in Hm', Hok. rewrite chunk_add_cksum in Hm'. split; [done|].
        destruct ok; [|done]. destruct Hok as [Ho He']. split; [|done]. rewrite Ho, Ew, <- app_assoc. unfold bs. by rewrite take_drop.
    + eexists _, false. split; [done|]. split; [simpl; by rewrite chunk_add_cksum|].
      split; [by apply has_error_set|]. by eexists _, _, _.
Qed.

Lemma rioWrite_ok (r : rio B) buf : 0 <= max_processing_chunk r -> has_error r RIO_FLAG_WRITE_ERROR = false ->
  exists r' ok, rioWrite r buf = Some (r', ok) /\ max_processing_chunk r' = max_processing_chunk r /\
    if (ok : bool) then output (io r') = output (io r) ++ buf /\ has_error r' RIO_FLAG_WRITE_ERROR = false
    else rioGetWriteError r' = true /\ write_may_fail.
Proof. intros Hm He. unfold rioWrite. rewrite He. apply write_loop_ok; [done|unfold zlen; lia|done]. Qed.
End facts.

(** ** The buffer target *)

Definition buffer_can_read (b : riobuf) (x : list Z) : Prop :=
  exists pre, ptr b = pre ++ x /\ pos b = zlen pre /\ zlen (ptr b) < 2 ^ 64.

#[export] Program Instance buffer_stream : RioStream riobuf :=
  {| can_read := buffer_can_read; output := ptr |}.
Next Obligation.
  intros b x y (pre & Hp & Hpos & Hl). exists {| ptr := ptr b; pos := pos b + zlen x |}. simpl. unfold rioBufferRead.
  rewrite Hp, Hpos, !zlen_app in *. zlen_saturate. rewrite wrapu_small by lia.
  replace (_ <? _) with false by lia. rewrite mem_read_mid by done. split; [done|].
  exists (pre ++ x). simpl. rewrite <- app_assoc, !zlen_app. done.
Qed.
Next Obligation.
  intros b x n (pre & Hp & Hpos & Hl) Hn. exists b. simpl. unfold rioBufferRead. rewrite Hp, Hpos, !zlen_app in *.
  zlen_saturate. rewrite wrapu_small by lia. by replace (_ <? _) with true by lia.
Qed.
Next Obligation. intros b x b' [= <-]. done. Qed.

(** The buffer never fails to write, and starts at the first byte. *)
Lemma buffer_never_fails : ~ write_may_fail (B := riobuf).
Proof. by intros (b & x & b' & [=]). Qed.

Lemma init_upcoming s : Forall is_byte s -> zlen s < 2 ^ 64 -> upcoming (rioInitWithBuffer s) s.
Proof. intros Hb Hl. split_and!; [by exists []|done|done|done]. Qed.
