(* ===== verification/Rdb.v ===== *)
(** * The RDB encoding of lengths, integers, times and strings

    The primitives of [rdb.c] over a stream.  Saving goes to [rdb : option (rio B)], since a NULL
    stream only counts bytes.  A loader returns a value, NULL, or NULL after it has reported a
    corrupt file ([Corrupt]; the process exits there unless it restores or checks a payload). *)
From S2P Require Import Prelude Endian Numstr Lzf Rio BitCmd Split.

Definition RDB_6BITLEN : Z := 0.
Definition RDB_14BITLEN : Z := 1.
Definition RDB_32BITLEN : Z := 0x80.
Definition RDB_64BITLEN : Z := 0x81.
Definition RDB_ENCVAL : Z := 3.
Definition RDB_LENERR : Z := UINT64_MAX.
Definition RDB_ENC_INT8 : Z := 0.
Definition RDB_ENC_INT16 : Z := 1.
Definition RDB_ENC_INT32 : Z := 2.
Definition RDB_ENC_LZF : Z := 3.

Definition RDB_LOAD_NONE : Z := 0.
Definition RDB_LOAD_ENC : Z := Z.shiftl 1 0.
Definition RDB_LOAD_PLAIN : Z := Z.shiftl 1 1.
Definition RDB_LOAD_SDS : Z := Z.shiftl 1 2.
Definition RDB_LOAD_HFLD : Z := Z.shiftl 1 3.
Definition RDB_LOAD_HFLD_TTL : Z := Z.shiftl 1 4.

Inductive res (A : Type) := Val (a : A) | Null | Corrupt.
Arguments Val {A}. Arguments Null {A}. Arguments Corrupt {A}.

(** What a string is loaded into. *)
Inductive loaded := LPlain (s : list Z) | LSds (s : list Z) | LHfld (ttl : bool) (s : list Z) | LObj (o : robj).

(** The surroundings of the functions: byte order, configuration, the uninitialised hash table
    and the address of the input of the compressor, and the sizes [malloc] can serve (with the
    prefix and the minimum of [zmalloc.c]). *)
Class RdbEnv := {
  big_endian : bool;
  rdb_compression : bool;
  shared_integers_ok : bool;
  lzf_addr : Z;
  lzf_tab : LZF_STATE;
  malloc_ok : Z -> bool;
}.

(** ** Allocation of strings

    Each returns whether the block was allocated.  A failed assert, or a write outside the block,
    is [None]. *)

Section alloc.
Context {E : RdbEnv}.

(** [ztrymalloc_usable_internal]: sizes from half the address space on are refused. *)
Definition ztrymalloc (size : Z) : bool :=
  if size >=? UINT64_MAX / 2 then false else malloc_ok size.

(** [_sdsnewlen] with [SDS_NOINIT] and [trymalloc]: the header and the terminator are written
    inside the [hdrlen + initlen + 1] bytes. *)
Definition sdstrynewlen (initlen : Z) : option bool :=
  let type := sdsReqType initlen in
  let type := if is_type5 type && (initlen =? 0) then SDS_TYPE_8 else type in
  let hdrlen := sdsHdrSize type in
  assert_true (u64 (initlen + hdrlen + 1) >? initlen) ;;
  Some (ztrymalloc (u64 (hdrlen + initlen + 1))).

Inductive mstrtype := MSTR_TYPE_5 | MSTR_TYPE_8 | MSTR_TYPE_16 | MSTR_TYPE_64.

Definition mstrReqType (string_size : Z) : mstrtype :=
  if string_size <? 2 ^ 5 then MSTR_TYPE_5
  else if string_size <? 2 ^ 8 then MSTR_TYPE_8
  else if string_size <? 2 ^ 16 then MSTR_TYPE_16
  else MSTR_TYPE_64.

Definition mstrHdrSize (t : mstrtype) : Z :=
  match t with MSTR_TYPE_5 => 1 | MSTR_TYPE_8 => 3 | MSTR_TYPE_16 => 3 | MSTR_TYPE_64 => 9 end.

Definition NULL_SIZE : Z := 1.

Definition mstrNew (lenStr : Z) : option bool :=
  let mstrHdr := mstrHdrSize (mstrReqType lenStr) in
  assert_true (u64 (lenStr + mstrHdr + 1) >? lenStr) ;;
  Some (ztrymalloc (u64 (mstrHdr + lenStr + NULL_SIZE))).

(** A write of [n] bytes at [off] in a block of [size] bytes. *)
Definition write_in (size off n : Z) : option unit := assert_true ((0 <=? off) && (off + n <=? size)).

Definition sizeof_mstrFlags : Z := 2.
Definition sizeof_ExpireMeta : Z := 16.

(** No assert: the size wraps around.  The header, the flags and the terminator are written at
    their distances from the start of the block, pointers wrapping too. *)
Definition mstrNewWithMeta (sumMetaLen lenStr : Z) : option bool :=
  let mstrHdr := mstrHdrSize (mstrReqType lenStr) in
  let allocLen := u64 (sumMetaLen + sizeof_mstrFlags + mstrHdr + lenStr + NULL_SIZE) in
  if negb (ztrymalloc allocLen) then Some false
  else
    let pMetaFlags := sumMetaLen in
    let mstrPtr := pMetaFlags + sizeof_mstrFlags + mstrHdr in
    write_in allocLen (mstrPtr - mstrHdr) mstrHdr ;;
    write_in allocLen pMetaFlags sizeof_mstrFlags ;;
    write_in allocLen (u64 (mstrPtr + lenStr)) NULL_SIZE ;;
    Some true.

(** The metadata of a field, marked as trash, is at the start of its block. *)
Definition hfieldTryNew (fieldlen : Z) (withExpireMeta : bool) : option bool :=
  if negb withExpireMeta then mstrNew fieldlen
  else mstrNewWithMeta sizeof_ExpireMeta fieldlen.

Definition OBJ_ENCODING_EMBSTR_SIZE_LIMIT : Z := 44.

(** Embedded strings are allocated with [zmalloc], which does not return NULL. *)
Definition tryCreateStringObject (len : Z) : option bool :=
  if len <=? OBJ_ENCODING_EMBSTR_SIZE_LIMIT then Some true else sdstrynewlen len.
End alloc.

Definition htonl (be : bool) (v : Z) : Z := if be then v else le_join (reverse (le_split 4 v)).
Definition ntohl := htonl.

(** ** Integers in a buffer *)

(** [enc] and the return value. *)
Definition rdbEncodeInteger (value : Z) (enc : list Z) : option (list Z * Z) :=
  if (value >=? - Z.shiftl 1 7) && (value <=? Z.shiftl 1 7 - 1) then
    enc ← setb enc 0 (Z.lor (Z.shiftl RDB_ENCVAL 6) RDB_ENC_INT8);
    enc ← setb enc 1 (Z.land value 0xFF);
    Some (enc, 2)
  else if (value >=? - Z.shiftl 1 15) && (value <=? Z.shiftl 1 15 - 1) then
    enc ← setb enc 0 (Z.lor (Z.shiftl RDB_ENCVAL 6) RDB_ENC_INT16);
    enc ← setb enc 1 (Z.land value 0xFF);
    enc ← setb enc 2 (Z.land (Z.shiftr value 8) 0xFF);
    Some (enc, 3)
  else if (value >=? - Z.shiftl 1 31) && (value <=? Z.shiftl 1 31 - 1) then
    enc ← setb enc 0 (Z.lor (Z.shiftl RDB_ENCVAL 6) RDB_ENC_INT32);
    enc ← setb enc 1 (Z.land value 0xFF);
    enc ← setb enc 2 (Z.land (Z.shiftr value 8) 0xFF);
    enc ← setb enc 3 (Z.land (Z.shiftr value 16) 0xFF);
    enc ← setb enc 4 (Z.land (Z.shiftr value 24) 0xFF);
    Some (enc, 5)
  else Some (enc, 0).

Definition rdbTryIntegerEncoding (s : list Z) (enc : list Z) : option (list Z * Z) :=
  v ← string2ll s (zlen s);
  match v with
  | Some value => rdbEncodeInteger value enc
  | None => Some (enc, 0)
  end.

(** ** [object.c]: strings from integers *)

Definition OBJ_SHARED_INTEGERS : Z := 10000.
Inductive ll2strobj := LL2STROBJ_AUTO | LL2STROBJ_NO_SHARED | LL2STROBJ_NO_INT_ENC.

#[export] Instance ll2strobj_eq_dec : EqDecision ll2strobj.
Proof. solve_decision. Defined.

(** A shared integer is an object with the integer encoding. *)
Definition createStringObjectFromLongLongWithOptions (value : Z) (flag : ll2strobj) : option robj :=
  if (value >=? 0) && (value <? OBJ_SHARED_INTEGERS) && bool_decide (flag = LL2STROBJ_AUTO)
  then Some (StringObj (IntEnc value))
  else if (value >=? INT64_MIN) && (value <=? INT64_MAX) && negb (bool_decide (flag = LL2STROBJ_NO_INT_ENC))
  then Some (StringObj (IntEnc value))
  else s ← int_text 21 value; Some (StringObj (Sds s)).

Section rdb.
  Context {B : Type} `{!RioBackend B} {E : RdbEnv} {A : Allocator}.

Definition createStringObjectFromLongLongForValue (value : Z) : option robj :=
  if shared_integers_ok then createStringObjectFromLongLongWithOptions value LL2STROBJ_AUTO
  else createStringObjectFromLongLongWithOptions value LL2STROBJ_NO_SHARED.

Definition createStringObjectFromLongLongWithSds (value : Z) : option robj :=
  createStringObjectFromLongLongWithOptions value LL2STROBJ_NO_INT_ENC.

(** ** Saving: the stream afterwards and the number of bytes, or -1 *)

Notation saved := (option (option (rio B) * Z)).

(** [if ((n = m) == -1) return -1;], then [k]. *)
Definition or_return (m : saved) (k : option (rio B) -> Z -> saved) : saved :=
  '(rdb, n) ← m; if n =? -1 then Some (rdb, -1) else k rdb n.

Definition rdbWriteRaw (rdb : option (rio B)) (p : list Z) : saved :=
  match rdb with
  | None => Some (None, zlen p)
  | Some r => '(r, ok) ← rioWrite r p; Some (Some r, if (ok : bool) then zlen p else -1)
  end.

Definition rdbSaveType (rdb : option (rio B)) (type : Z) : saved := rdbWriteRaw rdb [u8 type].

Definition rdbSaveMillisecondTime (rdb : option (rio B)) (t : Z) : saved :=
  t64 ← memrev64ifbe big_endian (host_store big_endian 8 t) 0;
  rdbWriteRaw rdb t64.

Definition rdbSaveLen (rdb : option (rio B)) (len : Z) : saved :=
  if len <? Z.shiftl 1 6 then
    or_return (rdbWriteRaw rdb [Z.lor (Z.land len 0xFF) (Z.shiftl RDB_6BITLEN 6)]) (fun rdb _ => Some (rdb, 1))
  else if len <? Z.shiftl 1 14 then
    or_return (rdbWriteRaw rdb [Z.lor (Z.land (Z.shiftr len 8) 0xFF) (Z.shiftl RDB_14BITLEN 6); Z.land len 0xFF])
      (fun rdb _ => Some (rdb, 2))
  else if len <=? UINT32_MAX then
    or_return (rdbWriteRaw rdb [RDB_32BITLEN]) (fun rdb _ =>
    let len32 := htonl big_endian (u32 len) in
    or_return (rdbWriteRaw rdb (host_store big_endian 4 len32)) (fun rdb _ => Some (rdb, 1 + 4)))
  else
    or_return (rdbWriteRaw rdb [RDB_64BITLEN]) (fun rdb _ =>
    len ← htonu64 big_endian len;
    or_return (rdbWriteRaw rdb (host_store big_endian 8 len)) (fun rdb _ => Some (rdb, 1 + 8))).

Definition rdbSaveLzfBlob (rdb : option (rio B)) (data : list Z) (compress_len original_len : Z) : saved :=
  let byte := Z.lor (Z.shiftl RDB_ENCVAL 6) RDB_ENC_LZF in
  or_return (rdbWriteRaw rdb [byte]) (fun rdb n1 =>
  or_return (rdbSaveLen rdb compress_len) (fun rdb n2 =>
  or_return (rdbSaveLen rdb original_len) (fun rdb n3 =>
  bs ← mem_read data 0 compress_len;
  or_return (rdbWriteRaw rdb bs) (fun rdb n4 => Some (rdb, n1 + n2 + n3 + n4))))).

Definition rdbSaveLzfStringObject (rdb : option (rio B)) (s : list Z) : saved :=
  let len := zlen s in
  if len <=? 4 then Some (rdb, 0)
  else
    let outlen := len - 4 in
    '(out, comprlen) ← lzf_compress lzf_addr lzf_tab s (fresh_bytes (Z.to_nat (outlen + 1))) outlen;
    if comprlen =? 0 then Some (rdb, 0) else rdbSaveLzfBlob rdb out comprlen len.

Definition rdbSaveRawString (rdb : option (rio B)) (s : list Z) : saved :=
  let len := zlen s in
  '(buf, enclen) ← (if len <=? 11 then rdbTryIntegerEncoding s (fresh_bytes 5) else Some ([], 0));
  if enclen >? 0 then
    bs ← mem_read buf 0 enclen;
    or_return (rdbWriteRaw rdb bs) (fun rdb _ => Some (rdb, enclen))
  else
    or_return (if rdb_compression && (len >? 20) then rdbSaveLzfStringObject rdb s else Some (rdb, 0)) (fun rdb n =>
    if n >? 0 then Some (rdb, n)
    else
      or_return (rdbSaveLen rdb len) (fun rdb n =>
      if len >? 0 then or_return (rdbWriteRaw rdb s) (fun rdb _ => Some (rdb, n + len))
      else Some (rdb, n))).

Definition rdbSaveLongLongAsStringObject (rdb : option (rio B)) (value : Z) : saved :=
  '(buf, enclen) ← rdbEncodeInteger value (fresh_bytes 32);
  if enclen >? 0 then bs ← mem_read buf 0 enclen; rdbWriteRaw rdb bs
  else
    '(buf, enclen) ← ll2string buf 0 32 value;
    _ ← assert_true (enclen <? 32);
    or_return (rdbSaveLen rdb enclen) (fun rdb n1 =>
    bs ← mem_read buf 0 enclen;
    or_return (rdbWriteRaw rdb bs) (fun rdb n2 => Some (rdb, n1 + n2))).

Definition rdbSaveStringObject (rdb : option (rio B)) (obj : stringval) : saved :=
  match obj with
  | IntEnc n => rdbSaveLongLongAsStringObject rdb n
  | Sds s => rdbSaveRawString rdb s
  end.

(** A double is its 64 bits. *)
Definition rdbSaveBinaryDoubleValue (rdb : option (rio B)) (val : Z) : saved :=
  val ← memrev64ifbe big_endian (host_store big_endian 8 val) 0;
  rdbWriteRaw rdb val.

(** ** Loading *)

Notation loading X := (option (rio B * res X)).

Definition on_read {X} (r : rio B) (n : Z) (k : rio B -> list Z -> loading X) : loading X :=
  '(r, x) ← rioRead r n; match x with Some bs => k r bs | None => Some (r, Null) end.

(** [if ((x = m) is an error) return NULL;], then [k]. *)
Definition on_value {X Y} (m : loading X) (k : rio B -> X -> loading Y) : loading Y :=
  '(r, x) ← m;
  match x with Val v => k r v | Null => Some (r, Null) | Corrupt => Some (r, Corrupt) end.

Definition rdbLoadType (r : rio B) : loading Z :=
  on_read r 1 (fun r bs => b ← getb bs 0; Some (r, Val b)).

(** The native 32 bits, sign extended. *)
Definition rdbLoadTime (r : rio B) : loading Z :=
  on_read r 4 (fun r bs => Some (r, Val (s32 (host_load big_endian bs)))).

Definition rdbLoadMillisecondTime (r : rio B) (rdbver : Z) : loading Z :=
  on_read r 8 (fun r bs =>
    bs ← (if rdbver >=? 9 then memrev64ifbe big_endian bs 0 else Some bs);
    Some (r, Val (s64 (host_load big_endian bs)))).

Definition rdbLoadBinaryDoubleValue (r : rio B) : loading Z :=
  on_read r 8 (fun r bs => bs ← memrev64ifbe big_endian bs 0; Some (r, Val (host_load big_endian bs))).

(** [*isencoded] and [*lenptr]. *)
Definition rdbLoadLenByRef (r : rio B) : loading (bool * Z) :=
  on_read r 1 (fun r buf =>
    b0 ← getb buf 0;
    let type := Z.shiftr (Z.land b0 0xC0) 6 in
    if type =? RDB_ENCVAL then Some (r, Val (true, Z.land b0 0x3F))
    else if type =? RDB_6BITLEN then Some (r, Val (false, Z.land b0 0x3F))
    else if type =? RDB_14BITLEN then
      on_read r 1 (fun r buf => b1 ← getb buf 0; Some (r, Val (false, Z.lor (Z.shiftl (Z.land b0 0x3F) 8) b1)))
    else if b0 =? RDB_32BITLEN then
      on_read r 4 (fun r buf => Some (r, Val (false, ntohl big_endian (host_load big_endian buf))))
    else if b0 =? RDB_64BITLEN then
      on_read r 8 (fun r buf => len ← htonu64 big_endian (host_load big_endian buf); Some (r, Val (false, len)))
    else Some (r, Corrupt)).

(** The callers take [RDB_LENERR] for an error, also when it was stored as a length. *)
Definition rdbLoadLen (r : rio B) : loading (bool * Z) :=
  on_value (rdbLoadLenByRef r) (fun r x => if x.2 =? RDB_LENERR then Some (r, Null) else Some (r, Val x)).

Definition has_flag_z (flags f : Z) : bool := negb (Z.land flags f =? 0).

(** The target chosen by [flags] for the bytes of a string. *)
Definition as_loaded (flags : Z) (s : list Z) : loaded :=
  if has_flag_z flags RDB_LOAD_PLAIN then LPlain s
  else if has_flag_z flags RDB_LOAD_SDS then LSds s
  else if has_flag_z flags (Z.lor RDB_LOAD_HFLD RDB_LOAD_HFLD_TTL) then LHfld (negb (has_flag_z flags RDB_LOAD_HFLD)) s
  else LObj (StringObj (Sds s)).

Definition is_robj (flags : Z) : bool :=
  negb (has_flag_z flags RDB_LOAD_PLAIN || has_flag_z flags RDB_LOAD_SDS ||
        has_flag_z flags (Z.lor RDB_LOAD_HFLD RDB_LOAD_HFLD_TTL)).

Definition rdbLoadIntegerObject (r : rio B) (enctype flags : Z) : loading loaded :=
  on_value
    (if enctype =? RDB_ENC_INT8 then
       on_read r 1 (fun r enc => e0 ← getb enc 0; Some (r, Val (wraps 8 e0)))
     else if enctype =? RDB_ENC_INT16 then
       on_read r 2 (fun r enc => e0 ← getb enc 0; e1 ← getb enc 1;
         Some (r, Val (s16 (u16 (Z.lor e0 (Z.shiftl e1 8))))))
     else if enctype =? RDB_ENC_INT32 then
       on_read r 4 (fun r enc => e0 ← getb enc 0; e1 ← getb enc 1; e2 ← getb enc 2; e3 ← getb enc 3;
         Some (r, Val (s32 (Z.lor (Z.lor (Z.lor e0 (Z.shiftl e1 8)) (Z.shiftl e2 16)) (u32 (Z.shiftl e3 24))))))
     else Some (r, Corrupt))
    (fun r val =>
      if negb (is_robj flags) then s ← int_text 21 val; Some (r, Val (as_loaded flags s))
      else if has_flag_z flags RDB_LOAD_ENC then
        o ← createStringObjectFromLongLongForValue val; Some (r, Val (LObj o))
      else o ← createStringObjectFromLongLongWithSds val; Some (r, Val (LObj o))).

(** The allocation of the target of a string, in the two loaders. *)
Definition alloc_uncompressed (flags len : Z) : option bool :=
  if has_flag_z flags RDB_LOAD_PLAIN then Some (ztrymalloc len)
  else if has_flag_z flags RDB_LOAD_SDS || is_robj flags then sdstrynewlen len
  else hfieldTryNew len (negb (has_flag_z flags RDB_LOAD_HFLD)).

Definition alloc_string (flags len : Z) : option bool :=
  if is_robj flags then tryCreateStringObject len
  else if has_flag_z flags RDB_LOAD_PLAIN then Some (ztrymalloc len)
  else if has_flag_z flags RDB_LOAD_SDS then sdstrynewlen len
  else hfieldTryNew len (negb (has_flag_z flags RDB_LOAD_HFLD)).

Definition rdbLoadLzfStringObject (r : rio B) (flags : Z) : loading loaded :=
  on_value (rdbLoadLen r) (fun r '(_, clen) =>
  on_value (rdbLoadLen r) (fun r '(_, len) =>
  if negb (ztrymalloc clen) then Some (r, Null)
  else
    val ← alloc_uncompressed flags len;
    if negb val then Some (r, Null)
    else
      on_read r clen (fun r c =>
        '(val, n, _) ← lzf_decompress c (fresh_bytes (Z.to_nat len)) len;
        if negb (n =? len) then Some (r, Corrupt) else Some (r, Val (as_loaded flags val))))).

Definition rdbGenericLoadStringObject (r : rio B) (flags : Z) : loading loaded :=
  on_value (rdbLoadLen r) (fun r '(isencoded, len) =>
  if (isencoded : bool) then
    if (len =? RDB_ENC_INT8) || (len =? RDB_ENC_INT16) || (len =? RDB_ENC_INT32) then rdbLoadIntegerObject r len flags
    else if len =? RDB_ENC_LZF then rdbLoadLzfStringObject r flags
    else Some (r, Corrupt)
  else
    buf ← alloc_string flags len;
    if negb buf then Some (r, Null)
    else if len =? 0 then Some (r, Val (as_loaded flags []))
    else on_read r len (fun r bs => Some (r, Val (as_loaded flags bs)))).

Definition rdbLoadStringObject (r : rio B) : loading loaded := rdbGenericLoadStringObject r RDB_LOAD_NONE.
Definition rdbLoadEncodedStringObject (r : rio B) : loading loaded := rdbGenericLoadStringObject r RDB_LOAD_ENC.
End rdb.
