(* ===== verification/RdbFacts.v ===== *)
(** * Saving and loading: the rules, lengths and numbers

    [save_post] is what a saver does to any stream, [decodes] what a loader makes of the bytes of a
    value: with them to come it returns the value and consumes exactly these bytes; with fewer it
    fails and the read error of the stream is set.  [load_safe] is the contract on arbitrary bytes.
    Each has its composition rules, against the interface [RioStream]. *)
From S2P Require Import Prelude Endian Numstr NumstrFacts NumstrProps Lzf Rio BitCmd BitCmdFacts Split Rdb LzfFacts LzfCompress.

(** ** Allocation *)

Section alloc.
Context {E : RdbEnv}.

Lemma ztrymalloc_small n : ztrymalloc n = true -> n < 2 ^ 63 - 1.
Proof. unfold ztrymalloc. case_match eqn:E'; [done|]. intros _. change (UINT64_MAX / 2) with (2 ^ 63 - 1) in E'. lia. Qed.

(** The allocator serves a string of [n] bytes with any header. *)
Definition serves (n : Z) : Prop := forall k : Z, n <= k <= n + 28 -> ztrymalloc k = true.

Lemma sds_header_size n : 1 <= sdsHdrSize n <= 17.
Proof. destruct n; simpl; lia. Qed.
Lemma mstr_header_size n : 1 <= mstrHdrSize n <= 9.
Proof. destruct n; simpl; lia. Qed.

Lemma sdstrynewlen_ok n : 0 <= n -> serves n -> sdstrynewlen n = Some true.
Proof.
  intros Hn Hs. pose proof (ztrymalloc_small _ (Hs (n + 28) ltac:(lia))) as Hb. unfold sdstrynewlen.
  set (t := if is_type5 (sdsReqType n) && (n =? 0) then SDS_TYPE_8 else sdsReqType n). pose proof (sds_header_size t).
  rewrite !wrapu_small by lia. replace (_ >? _) with true by lia. cbn [assert_true mbind option_bind].
  by rewrite Hs by lia.
Qed.

Lemma hfieldTryNew_ok n ttl : 0 <= n -> serves n -> hfieldTryNew n ttl = Some true.
Proof.
  intros Hn Hs. pose proof (ztrymalloc_small _ (Hs (n + 28) ltac:(lia))) as Hb.
  pose proof (mstr_header_size (mstrReqType n)). unfold hfieldTryNew. destruct ttl; cbn [negb].
  - unfold mstrNewWithMeta, write_in, sizeof_ExpireMeta, sizeof_mstrFlags, NULL_SIZE.
    rewrite !wrapu_small by lia. rewrite Hs by lia. cbn [negb].
    replace (_ && _) with true by lia. cbn [assert_true mbind option_bind].
    replace (_ && _) with true by lia. cbn [assert_true mbind option_bind].
    replace (_ && _) with true by lia. done.
  - unfold mstrNew, NULL_SIZE. rewrite !wrapu_small by lia. replace (_ >? _) with true by lia.
    cbn [assert_true mbind option_bind]. by rewrite Hs by lia.
Qed.

Lemma alloc_uncompressed_ok flags n : 0 <= n -> serves n -> alloc_uncompressed flags n = Some true.
Proof.
  intros Hn Hs. unfold alloc_uncompressed. destruct (has_flag_z _ _); [by rewrite Hs by lia|].
  destruct (_ || _); [by apply sdstrynewlen_ok|by apply hfieldTryNew_ok].
Qed.

Lemma alloc_string_ok flags n : 0 <= n -> serves n -> alloc_string flags n = Some true.
Proof.
  intros Hn Hs. unfold alloc_string, tryCreateStringObject.
  destruct (is_robj _); [case_match; [done|by apply sdstrynewlen_ok]|].
  destruct (has_flag_z _ _); [by rewrite Hs by lia|].
  destruct (has_flag_z _ _); [by apply sdstrynewlen_ok|by apply hfieldTryNew_ok].
Qed.

(** The least length at which the size of the block wraps around, for each target. *)
Definition wrapping_length (flags : Z) : Z :=
  if has_flag_z flags RDB_LOAD_PLAIN then 2 ^ 64
  else if has_flag_z flags RDB_LOAD_SDS || is_robj flags then 2 ^ 64 - 18
  else if has_flag_z flags RDB_LOAD_HFLD then 2 ^ 64 - 10 else 2 ^ 64 - 28.

Lemma wrapping_length_large flags : 2 ^ 32 <= wrapping_length flags.
Proof. unfold wrapping_length. repeat case_match; lia. Qed.

Lemma sds_type_large n : 2 ^ 32 <= n -> (if is_type5 (sdsReqType n) && (n =? 0) then SDS_TYPE_8 else sdsReqType n) = SDS_TYPE_64.
Proof. intros Hn. unfold sdsReqType. by repeat (replace (_ <? _) with false by lia). Qed.
Lemma mstr_type_large n : 2 ^ 32 <= n -> mstrReqType n = MSTR_TYPE_64.
Proof. intros Hn. unfold mstrReqType. by repeat (replace (_ <? _) with false by lia). Qed.

Lemma u64_over n : 2 ^ 64 <= n < 2 * 2 ^ 64 -> u64 n = n - 2 ^ 64.
Proof. intros Hn. unfold wrapu. symmetry. apply Z.mod_unique with (q := 1); lia. Qed.

Lemma sdstrynewlen_total n : 0 <= n < 2 ^ 64 - 18 -> is_Some (sdstrynewlen n).
Proof.
  intros Hn. unfold sdstrynewlen. set (t := if is_type5 (sdsReqType n) && (n =? 0) then SDS_TYPE_8 else sdsReqType n). pose proof (sds_header_size t).
  rewrite !wrapu_small by lia. replace (_ >? _) with true by lia. eauto.
Qed.

Lemma sdstrynewlen_aborts n : 2 ^ 64 - 18 <= n < 2 ^ 64 -> sdstrynewlen n = None.
Proof.
  intros Hn. unfold sdstrynewlen. rewrite sds_type_large by lia. simpl sdsHdrSize.
  rewrite (u64_over (n + 17 + 1)) by lia. by replace (_ >? _) with false by lia.
Qed.

Lemma mstrNew_total n : 0 <= n < 2 ^ 64 - 10 -> is_Some (mstrNew n).
Proof.
  intros Hn. unfold mstrNew, NULL_SIZE. pose proof (mstr_header_size (mstrReqType n)).
  rewrite !wrapu_small by lia. replace (_ >? _) with true by lia. eauto.
Qed.

Lemma mstrNew_aborts n : 2 ^ 64 - 10 <= n < 2 ^ 64 -> mstrNew n = None.
Proof.
  intros Hn. unfold mstrNew. rewrite mstr_type_large by lia. simpl mstrHdrSize.
  rewrite (u64_over (n + 9 + 1)) by lia. by replace (_ >? _) with false by lia.
Qed.

Lemma mstrNewWithMeta_total n : 0 <= n < 2 ^ 64 - 28 -> is_Some (mstrNewWithMeta sizeof_ExpireMeta n).
Proof.
  intros Hn. unfold mstrNewWithMeta, write_in, sizeof_ExpireMeta, sizeof_mstrFlags, NULL_SIZE.
  pose proof (mstr_header_size (mstrReqType n)). rewrite !wrapu_small by lia.
  case_match; [by eauto|]. replace (_ && _) with true by lia. cbn [assert_true mbind option_bind].
  replace (_ && _) with true by lia. cbn [assert_true mbind option_bind].
  replace (_ && _) with true by lia. by eauto.
Qed.

(** The wrapped block has at most 26 bytes, and the last byte of the header is at 26. *)
Lemma mstrNewWithMeta_overruns n :
  2 ^ 64 - 28 <= n < UINT64_MAX -> ztrymalloc (n - (2 ^ 64 - 28)) = true ->
  mstrNewWithMeta sizeof_ExpireMeta n = None.
Proof.
  intros Hn Hm. unfold_limits. unfold mstrNewWithMeta, write_in, sizeof_ExpireMeta, sizeof_mstrFlags, NULL_SIZE.
  rewrite mstr_type_large by lia. simpl mstrHdrSize. rewrite (u64_over (16 + 2 + 9 + n + 1)) by lia.
  replace (16 + 2 + 9 + n + 1 - 2 ^ 64) with (n - (2 ^ 64 - 28)) by lia. rewrite Hm. cbn [negb].
  by replace (16 + 2 + 9 - 9 + 9 <=? n - (2 ^ 64 - 28)) with false by lia.
Qed.

Lemma alloc_uncompressed_total flags n : 0 <= n < wrapping_length flags -> is_Some (alloc_uncompressed flags n).
Proof.
  unfold wrapping_length, alloc_uncompressed, hfieldTryNew.
  destruct (has_flag_z flags RDB_LOAD_PLAIN); [by eauto|].
  destruct (_ || _); [apply sdstrynewlen_total|].
  destruct (has_flag_z flags RDB_LOAD_HFLD); [apply mstrNew_total|apply mstrNewWithMeta_total].
Qed.

Lemma is_robj_spec flags : is_robj flags = true ->
  has_flag_z flags RDB_LOAD_PLAIN = false /\ has_flag_z flags RDB_LOAD_SDS = false.
Proof. unfold is_robj. destruct (has_flag_z flags RDB_LOAD_PLAIN), (has_flag_z flags RDB_LOAD_SDS); done. Qed.

(** Above the embedded strings the two loaders allocate alike. *)
Lemma alloc_string_large flags n : 44 < n -> alloc_string flags n = alloc_uncompressed flags n.
Proof.
  intros Hn. unfold alloc_string, alloc_uncompressed, tryCreateStringObject, OBJ_ENCODING_EMBSTR_SIZE_LIMIT.
  replace (n <=? 44) with false by lia. destruct (is_robj flags) eqn:Er.
  - apply is_robj_spec in Er as [-> ->]. done.
  - by rewrite orb_false_r.
Qed.

Lemma alloc_string_total flags n : 0 <= n < wrapping_length flags -> is_Some (alloc_string flags n).
Proof.
  intros Hn. destruct (Z.lt_ge_cases 44 n).
  - rewrite alloc_string_large by done. by apply alloc_uncompressed_total.
  - unfold alloc_string, tryCreateStringObject, OBJ_ENCODING_EMBSTR_SIZE_LIMIT, hfieldTryNew. replace (n <=? 44) with true by lia.
    destruct (is_robj _); [by eauto|]. destruct (has_flag_z _ _); [by eauto|].
    destruct (has_flag_z _ _); [apply sdstrynewlen_total; lia|].
    destruct (negb _); [apply mstrNew_total|apply mstrNewWithMeta_total]; lia.
Qed.

Lemma alloc_uncompressed_wraps flags n :
  (forall k, 0 <= k <= 26 -> ztrymalloc k = true) ->
  wrapping_length flags <= n < UINT64_MAX -> alloc_uncompressed flags n = None.
Proof.
  intros Hm. unfold wrapping_length, alloc_uncompressed, hfieldTryNew.
  destruct (has_flag_z flags RDB_LOAD_PLAIN); [unfold_limits; lia|].
  destruct (_ || _); [intros; apply sdstrynewlen_aborts; unfold_limits; lia|].
  destruct (has_flag_z flags RDB_LOAD_HFLD); [intros; apply mstrNew_aborts; unfold_limits; lia|].
  intros Hn. apply mstrNewWithMeta_overruns; [done|]. apply Hm. unfold_limits. lia.
Qed.

Lemma alloc_string_wraps flags n :
  (forall k, 0 <= k <= 26 -> ztrymalloc k = true) ->
  wrapping_length flags <= n < UINT64_MAX -> alloc_string flags n = None.
Proof.
  intros Hm Hn. pose proof (wrapping_length_large flags). rewrite alloc_string_large by lia.
  by apply alloc_uncompressed_wraps.
Qed.
End alloc.

Section rules.
  Context {B : Type} `{!RioBackend B} `{!RioStream B}.

(** ** Savers *)

Definition healthy (rdb : option (rio B)) : Prop :=
  match rdb with
  | Some r => 0 <= max_processing_chunk r /\ has_error r RIO_FLAG_WRITE_ERROR = false
  | None => True
  end.

Definition appended (rdb rdb' : option (rio B)) (bs : list Z) : Prop :=
  match rdb, rdb' with
  | None, None => True
  | Some r, Some r' => output (io r') = output (io r) ++ bs /\ healthy rdb'
  | _, _ => False
  end.

Definition failed (rdb : option (rio B)) : Prop :=
  match rdb with Some r => rioGetWriteError r = true /\ write_may_fail (B := B) | None => False end.

Definition save_post (rdb : option (rio B)) (bs : list Z) (n : Z) (m : option (option (rio B) * Z)) : Prop :=
  exists rdb' k, m = Some (rdb', k) /\ ((k = n /\ appended rdb rdb' bs) \/ (k = -1 /\ failed rdb')).

Lemma appended_healthy rdb rdb' bs : appended rdb rdb' bs -> healthy rdb'.
Proof. destruct rdb, rdb'; simpl; try done. by intros [_ ?]. Qed.

Lemma appended_trans r1 r2 r3 a b : appended r1 r2 a -> appended r2 r3 b -> appended r1 r3 (a ++ b).
Proof. destruct r1, r2, r3; simpl; try done. intros [E1 _] [E2 ?]. by rewrite E2, E1, app_assoc. Qed.

Lemma save_ret rdb n : healthy rdb -> save_post rdb [] n (Some (rdb, n)).
Proof. intros H. exists rdb, n. split; [done|]. left. split; [done|]. destruct rdb; simpl; [by rewrite app_nil_r|done]. Qed.

Lemma rdbWriteRaw_post rdb p : healthy rdb -> save_post rdb p (zlen p) (rdbWriteRaw rdb p).
Proof.
  intros H. destruct rdb as [r|]; [|by exists None, (zlen p); split; [|left]]. destruct H as [H He]. simpl.
  destruct (rioWrite_ok r p H He) as (r' & ok & -> & Hm & Hok). cbn [mbind option_bind].
  eexists _, _. split; [done|]. destruct ok; [left|right]; simpl; [rewrite Hm; by destruct Hok|done].
Qed.

Lemma or_return_post rdb a b n t m k : save_post rdb a n m -> 0 <= n ->
  (forall rdb', healthy rdb' -> save_post rdb' b t (k rdb' n)) -> save_post rdb (a ++ b) t (or_return m k).
Proof.
  intros (rdb' & x & -> & Hm) Hn Hk. unfold or_return. cbn [mbind option_bind]. destruct Hm as [[-> Ha]|[-> Hf]].
  - replace (n =? -1) with false by lia. destruct (Hk rdb' (appended_healthy _ _ _ Ha)) as (rdb'' & y & -> & [[-> Hb]|Hf]).
    + eexists _, _. split; [done|]. left. split; [done|]. by eapply appended_trans.
    + eexists _, _. split; [done|]. by right.
  - exists rdb', (-1). split; [done|]. by right.
Qed.

(** A write followed by a return. *)
Lemma write_return rdb p n : healthy rdb -> save_post rdb p n (or_return (rdbWriteRaw rdb p) (fun rdb _ => Some (rdb, n))).
Proof.
  intros H. rewrite <- (app_nil_r p) at 1. eapply or_return_post; [by apply rdbWriteRaw_post|apply zlen_nonneg|].
  intros. by apply save_ret.
Qed.

(** ** Loaders *)

Definition decodes {X} (f : rio B -> option (rio B * res X)) (bs : list Z) (v : X) : Prop :=
  (forall r rest, upcoming r (bs ++ rest) -> exists r', f r = Some (r', Val v) /\ upcoming r' rest) /\
  (forall r p q, bs = p ++ q -> q <> [] -> upcoming r p -> exists r', f r = Some (r', Null) /\ rioGetReadError r' = true).

Lemma decodes_ret {X} (v : X) : decodes (fun r => Some (r, Val v)) [] v.
Proof. split; [by eauto|]. intros r p q E Hq. symmetry in E. by apply app_eq_nil in E as [_ ?]. Qed.

Lemma decodes_ext {X} (f g : rio B -> option (rio B * res X)) bs v :
  (forall r, f r = g r) -> decodes g bs v -> decodes f bs v.
Proof. intros E [H1 H2]. split; intros; rewrite E; eauto. Qed.

(** A strict prefix ends in the first part or in the second. *)
Lemma app_prefix_cases (a b p q : list Z) : a ++ b = p ++ q -> q <> [] ->
  (exists q', a = p ++ q' /\ q' <> []) \/ (exists p', p = a ++ p' /\ b = p' ++ q).
Proof.
  intros E Hq. apply app_eq_app in E as (l & [[-> ->]|[-> ->]]); [|right; eauto].
  destruct l as [|x l]; [right; exists []; by rewrite !app_nil_r|left; by exists (x :: l)].
Qed.

Lemma decodes_read {X} (k : rio B -> list Z -> option (rio B * res X)) a b v :
  decodes (fun r => k r a) b v -> decodes (fun r => on_read r (zlen a) k) (a ++ b) v.
Proof.
  intros [H1 H2]. split.
  - intros r rest Hu. rewrite <- app_assoc in Hu. destruct (rioRead_ok r a _ Hu) as (r' & E & Hu').
    unfold on_read. rewrite E. cbn [mbind option_bind]. by apply H1.
  - intros r p q E Hq Hu. unfold on_read. destruct (app_prefix_cases a b p q E Hq) as [(q' & -> & Hq')|(p' & -> & ->)].
    + destruct (rioRead_short r p (zlen (p ++ q')) Hu) as (r' & Er & He).
      { destruct q'; [done|]. len_lia. }
      rewrite Er. eexists. split; [done|done].
    + destruct (rioRead_ok r a p' Hu) as (r' & Er & Hu'). rewrite Er. cbn [mbind option_bind]. by eapply H2.
Qed.

Lemma decodes_value {X Y} (f : rio B -> option (rio B * res X)) (k : rio B -> X -> option (rio B * res Y)) a b x v :
  decodes f a x -> decodes (fun r => k r x) b v -> decodes (fun r => on_value (f r) k) (a ++ b) v.
Proof.
  intros [F1 F2] [H1 H2]. split.
  - intros r rest Hu. rewrite <- app_assoc in Hu. destruct (F1 r _ Hu) as (r' & E & Hu').
    unfold on_value. rewrite E. cbn [mbind option_bind]. by apply H1.
  - intros r p q E Hq Hu. unfold on_value. destruct (app_prefix_cases a b p q E Hq) as [(q' & -> & Hq')|(p' & -> & ->)].
    + destruct (F2 r p q' eq_refl Hq' Hu) as (r' & -> & He). eexists. split; [done|done].
    + destruct (F1 r p' Hu) as (r' & -> & Hu'). cbn [mbind option_bind]. by eapply H2.
Qed.

(** A loader that only reads: its bytes are all read at once. *)
Lemma decodes_read_all {X} (k : rio B -> list Z -> option (rio B * res X)) a n v :
  n = zlen a -> (forall r, k r a = Some (r, Val v)) -> decodes (fun r => on_read r n k) a v.
Proof.
  intros -> Hk. cut (decodes (fun r => on_read r (zlen a) k) (a ++ []) v); [by rewrite app_nil_r|]. apply decodes_read. eapply decodes_ext; [exact Hk|]. apply decodes_ret.
Qed.

(** ** Arbitrary bytes *)

Definition load_safe {X} (f : rio B -> option (rio B * res X)) (P : X -> Prop) : Prop :=
  forall r bs, upcoming r bs -> exists r' x, f r = Some (r', x) /\
    match x with Val v => P v /\ exists rest, rest `suffix_of` bs /\ upcoming r' rest | _ => True end.

Lemma safe_ret {X} (v : X) (P : X -> Prop) : P v -> load_safe (fun r => Some (r, Val v)) P.
Proof. intros Hv r bs Hu. eexists _, _. split; [done|]. split; [done|]. by exists bs. Qed.
Lemma safe_corrupt {X} (P : X -> Prop) : load_safe (fun r => Some (r, Corrupt)) P.
Proof. intros r bs Hu. by eexists _, _. Qed.
Lemma safe_null {X} (P : X -> Prop) : load_safe (fun r => Some (r, Null)) P.
Proof. intros r bs Hu. by eexists _, _. Qed.

Lemma safe_read {X} n (k : rio B -> list Z -> option (rio B * res X)) P : 0 <= n ->
  (forall a, zlen a = n -> Forall is_byte a -> load_safe (fun r => k r a) P) -> load_safe (fun r => on_read r n k) P.
Proof.
  intros Hn Hk r bs Hu. unfold on_read. destruct (Z.lt_ge_cases (zlen bs) n).
  - destruct (rioRead_short r bs n Hu) as (r' & -> & _); [done|]. by eexists _, _.
  - rewrite <- (take_drop (Z.to_nat n) bs) in Hu. destruct (rioRead_ok r _ _ Hu) as (r' & E & Hu').
    rewrite zlen_take in E by lia. rewrite E. cbn [mbind option_bind]. destruct Hu as (_ & Hb & _).
    apply Forall_app in Hb as [Hb _].
    destruct (Hk (take (Z.to_nat n) bs)) with r' (drop (Z.to_nat n) bs) as (r'' & x & -> & Hx); [by apply zlen_take; lia|done|done|].
    eexists _, _. split; [done|]. destruct x; [|done..]. destruct Hx as (HP & rest & Hs & Hr). split; [done|].
    exists rest. split; [|done]. etransitivity; [done|]. exists (take (Z.to_nat n) bs). by rewrite take_drop.
Qed.

Lemma safe_value {X Y} (f : rio B -> option (rio B * res X)) (k : rio B -> X -> option (rio B * res Y)) P Q :
  load_safe f P -> (forall v, P v -> load_safe (fun r => k r v) Q) -> load_safe (fun r => on_value (f r) k) Q.
Proof.
  intros Hf Hk r bs Hu. unfold on_value. destruct (Hf r bs Hu) as (r' & x & -> & Hx). cbn [mbind option_bind].
  destruct x as [v| |]; [|by eexists _, _..]. destruct Hx as (HP & rest & Hs & Hr).
  destruct (Hk v HP r' rest Hr) as (r'' & y & -> & Hy). eexists _, _. split; [done|].
  destruct y; [|done..]. destruct Hy as (HQ & rest' & Hs' & Hr'). split; [done|]. exists rest'. split; [|done]. by etransitivity.
Qed.

Lemma safe_ext {X} (f g : rio B -> option (rio B * res X)) P : (forall r, f r = g r) -> load_safe g P -> load_safe f P.
Proof. intros Efg Hg r bs Hu. rewrite Efg. by apply Hg. Qed.

(** ** Byte orders *)

Lemma htonl_bytes be n : host_store be 4 (htonl be n) = reverse (le_split 4 n).
Proof.
  unfold host_store, htonl. destruct be; [done|].
  rewrite <- (le_split_join (reverse (le_split 4 n))) at 2 by (apply Forall_reverse, le_split_bytes).
  by rewrite length_reverse, length_le_split.
Qed.

Lemma htonu64_val be n : htonu64 be n = Some (if be then n else le_join (reverse (le_split 8 n))).
Proof.
  unfold htonu64. destruct be; [done|]. unfold intrev64. pose proof (memrev64_app [] (host_store false 8 n) []) as Em.
  rewrite app_nil_r in Em. change (zlen []) with 0 in Em. simpl app in Em.
  change (host_store false 8 n) with (le_split 8 n). rewrite Em by (apply length_le_split). simpl. by rewrite ?app_nil_r.
Qed.

Lemma htonu64_bytes be n v : htonu64 be n = Some v -> host_store be 8 v = reverse (le_split 8 n).
Proof.
  rewrite htonu64_val. intros [= <-]. unfold host_store. destruct be; [done|].
  rewrite <- (le_split_join (reverse (le_split 8 n))) at 2 by (apply Forall_reverse, le_split_bytes).
  by rewrite length_reverse, length_le_split.
Qed.

Lemma net_load be n bs : reverse bs = le_split 4 n -> ntohl be (host_load be bs) = n mod 2 ^ 32.
Proof.
  intros E. assert (Forall is_byte bs) as Hb.
  { rewrite <- (reverse_involutive bs), E. apply Forall_reverse, le_split_bytes. }
  assert (length bs = 4%nat) as Hl by (rewrite <- length_reverse, E; apply length_le_split).
  unfold ntohl, htonl, host_load. destruct be.
  - rewrite E. apply (le_join_split 4).
  - rewrite <- Hl, (le_split_join bs) by done. rewrite E. apply (le_join_split 4).
Qed.

Lemma net_load64 be n bs : reverse bs = le_split 8 n -> htonu64 be (host_load be bs) = Some (n mod 2 ^ 64).
Proof.
  intros E. assert (Forall is_byte bs) as Hb.
  { rewrite <- (reverse_involutive bs), E. apply Forall_reverse, le_split_bytes. }
  assert (length bs = 8%nat) as Hl by (rewrite <- length_reverse, E; apply length_le_split).
  rewrite htonu64_val. unfold host_load. f_equal. destruct be.
  - rewrite E. apply (le_join_split 8).
  - rewrite <- Hl, (le_split_join bs) by done. rewrite E. apply (le_join_split 8).
Qed.

Lemma rev64_store be v : memrev64ifbe be (host_store be 8 v) 0 = Some (le_split 8 v).
Proof.
  pose proof (memrevifbe_app be 8 [] (host_store be 8 v) [] ltac:(set_solver) (length_host_store be 8 v)) as Em.
  simpl in Em. rewrite !app_nil_r in Em. change (zlen []) with 0 in Em. rewrite Em. f_equal.
  unfold host_store. destruct be; [by rewrite reverse_involutive|done].
Qed.

Lemma rev64_load be v : exists m, memrev64ifbe be (le_split 8 v) 0 = Some m /\ host_load be m = v mod 2 ^ 64.
Proof.
  pose proof (memrevifbe_app be 8 [] (le_split 8 v) [] ltac:(set_solver) (length_le_split 8 v)) as Em.
  simpl in Em. rewrite !app_nil_r in Em. change (zlen []) with 0 in Em. eexists. split; [exact Em|].
  unfold host_load. destruct be; rewrite ?reverse_involutive; apply (le_join_split 8).
Qed.

(** ** Lengths *)

Context {E : RdbEnv}.

Definition len_bytes (n : Z) : list Z :=
  if n <? 64 then [n]
  else if n <? 16384 then [64 + n / 256; n mod 256]
  else if n <=? UINT32_MAX then 128 :: reverse (le_split 4 n)
  else 129 :: reverse (le_split 8 n).

Lemma len_bytes_bytes n : 0 <= n -> Forall is_byte (len_bytes n).
Proof.
  intros Hn. unfold len_bytes. assert (0 <= n mod 256 < 256) by (apply Z.mod_pos_bound; lia).
  destruct (Z.ltb_spec n 64); [repeat constructor; lia|]. destruct (Z.ltb_spec n 16384).
  { assert (0 <= n / 256 < 64) by div_lia. repeat (constructor; [unfold is_byte; lia|]). constructor. }
  destruct (n <=? UINT32_MAX); (constructor; [unfold is_byte; lia|apply Forall_reverse, le_split_bytes]).
Qed.

Lemma rdbSaveLen_post rdb n : 0 <= n < 2 ^ 64 -> healthy rdb ->
  save_post rdb (len_bytes n) (zlen (len_bytes n)) (rdbSaveLen rdb n).
Proof.
  intros Hn Hh. unfold rdbSaveLen, len_bytes. change (Z.shiftl 1 6) with 64. change (Z.shiftl 1 14) with 16384.
  destruct (Z.ltb_spec n 64).
  { rewrite land_255, Z.mod_small, Z.lor_0_r by lia. by apply write_return. }
  destruct (Z.ltb_spec n 16384).
  { rewrite !land_255, Z.shiftr_div_pow2 by lia. change (2 ^ 8) with 256. assert (0 <= n / 256 < 64) by div_lia.
    rewrite (Z.mod_small (n / 256)) by lia. change (Z.shiftl RDB_14BITLEN 6) with (Z.shiftl 1 6). rewrite lor_add_high by lia.
    replace (n / 256 + 2 ^ 6 * 1) with (64 + n / 256) by lia. by apply write_return. }
  destruct (Z.leb_spec n UINT32_MAX); unfold_limits.
  - change (128 :: ?l) with ([128] ++ l). eapply or_return_post; [by apply rdbWriteRaw_post|done|]. intros r' Hh'.
    rewrite htonl_bytes, wrapu_small by lia. by apply write_return.
  - change (129 :: ?l) with ([129] ++ l). eapply or_return_post; [by apply rdbWriteRaw_post|done|]. intros r' Hh'.
    destruct (htonu64 big_endian n) as [v|] eqn:Ev; [|by rewrite htonu64_val in Ev]. cbn [mbind option_bind].
    rewrite (htonu64_bytes _ _ _ Ev). by apply write_return.
Qed.

Lemma type_bits b : is_byte b -> Z.shiftr (Z.land b 0xC0) 6 = b / 64 /\ Z.land b 0x3F = b mod 64.
Proof.
  intros Hb. assert (forallb (fun b => (Z.shiftr (Z.land b 0xC0) 6 =? b / 64) && (Z.land b 0x3F =? b mod 64)) (seqZ 0 256) = true)
    as Hall by (vm_compute; done).
  apply (forallb_range _ _ b) in Hall; [|done]. apply andb_true_iff in Hall as [H1 H2]. by apply Z.eqb_eq in H1, H2.
Qed.

Lemma rdbLoadLenByRef_decodes n : 0 <= n < 2 ^ 64 -> decodes rdbLoadLenByRef (len_bytes n) (false, n).
Proof.
  intros Hn. unfold len_bytes. destruct (Z.ltb_spec n 64).
  { apply decodes_read_all; [done|]. intros r. simpl. destruct (type_bits n) as [-> ->]; [unfold is_byte; lia|].
    rewrite Z.div_small, Z.mod_small by lia. done. }
  destruct (Z.ltb_spec n 16384).
  { assert (0 <= n / 256 < 64) as Hq by div_lia.
    change [64 + n / 256; n mod 256] with ([64 + n / 256] ++ [n mod 256]). apply (decodes_read _ [64 + n / 256]). simpl.
    destruct (type_bits (64 + n / 256)) as [-> ->]; [unfold is_byte; lia|].
    assert (forall q, 0 <= q < 64 -> (64 + q) / 64 = 1 /\ (64 + q) mod 64 = q) as Hdm by (intros; div_lia).
    destruct (Hdm (n / 256) Hq) as [-> ->]. simpl.
    apply decodes_read_all; [done|]. intros r. simpl.
    rewrite Z.lor_comm, lor_add_high by (try lia; apply Z.mod_pos_bound; lia). do 4 f_equal. change (2 ^ 8) with 256. div_lia. }
  destruct (Z.leb_spec n UINT32_MAX); unfold_limits.
  - change (128 :: ?l) with ([128] ++ l). apply (decodes_read _ [128]). simpl.
    apply decodes_read_all; [by rewrite zlen_reverse, zlen_le_split|]. intros r.
    rewrite (net_load _ n), Z.mod_small by (rewrite ?reverse_involutive; (done || lia)). done.
  - change (129 :: ?l) with ([129] ++ l). apply (decodes_read _ [129]). simpl.
    apply decodes_read_all; [by rewrite zlen_reverse, zlen_le_split|]. intros r.
    rewrite (net_load64 _ n), Z.mod_small by (rewrite ?reverse_involutive; (done || lia)). done.
Qed.

Lemma rdbLoadLen_decodes n : 0 <= n < UINT64_MAX -> decodes rdbLoadLen (len_bytes n) (false, n).
Proof.
  intros Hn. unfold_limits. rewrite <- (app_nil_r (len_bytes n)).
  apply decodes_value with (x := (false, n)); [apply rdbLoadLenByRef_decodes; lia|].
  simpl. replace (n =? RDB_LENERR) with false by (unfold RDB_LENERR; unfold_limits; lia). apply decodes_ret.
Qed.
End rules.

(** ** Strings in RDB format

    The three forms of a string, integer, compressed and verbatim, are loaded back. *)

(** ** Integers *)

Definition fits (w v : Z) : Prop := - 2 ^ (w - 1) <= v < 2 ^ (w - 1).

Definition int_bytes (v : Z) : list Z :=
  if (v >=? -128) && (v <=? 127) then 192 :: le_split 1 v
  else if (v >=? -32768) && (v <=? 32767) then 193 :: le_split 2 v
  else 194 :: le_split 4 v.

Lemma land_shiftr_255 v k : 0 <= k -> Z.land (Z.shiftr v k) 0xFF = v / 2 ^ k mod 256.
Proof. intros Hk. by rewrite land_255, Z.shiftr_div_pow2 by done. Qed.

Lemma rdbEncodeInteger_spec v enc : 5 <= zlen enc ->
  (fits 32 v -> exists rest, rdbEncodeInteger v enc = Some (int_bytes v ++ rest, zlen (int_bytes v))) /\
  (~ fits 32 v -> rdbEncodeInteger v enc = Some (enc, 0)).
Proof.
  intros Hz. unfold fits, rdbEncodeInteger, int_bytes. change (Z.shiftl 1 7) with 128. change (Z.shiftl 1 15) with 32768.
  change (Z.shiftl 1 31) with (2 ^ 31). change (- (128)) with (-128). change (128 - 1) with 127.
  change (- (32768)) with (-32768). change (32768 - 1) with 32767. change (32 - 1) with 31.
  do 5 (destruct enc as [|? enc]; [exfalso; len_lia|]). clear Hz.
  change (Z.lor (Z.shiftl RDB_ENCVAL 6) RDB_ENC_INT8) with 192. change (Z.lor (Z.shiftl RDB_ENCVAL 6) RDB_ENC_INT16) with 193.
  change (Z.lor (Z.shiftl RDB_ENCVAL 6) RDB_ENC_INT32) with 194.
  rewrite !land_shiftr_255, land_255 by lia.
  assert (v / 256 / 256 = v / 2 ^ 16 /\ v / 256 / 256 / 256 = v / 2 ^ 24) as [E2 E3] by (rewrite !Z.div_div by lia; done).
  split; intros Hf.
  - destruct ((v >=? -128) && (v <=? 127)) eqn:C1; [by eexists|]. destruct ((v >=? -32768) && (v <=? 32767)) eqn:C2; [by eexists|].
    replace ((v >=? - 2 ^ 31) && (v <=? 2 ^ 31 - 1)) with true by lia.
    rewrite <- E2, <- E3. change (2 ^ 8) with 256. by eexists.
  - replace ((v >=? -128) && (v <=? 127)) with false by lia. replace ((v >=? -32768) && (v <=? 32767)) with false by lia.
    by replace ((v >=? - 2 ^ 31) && (v <=? 2 ^ 31 - 1)) with false by lia.
Qed.

Lemma lor_le2 a b : is_byte a -> Z.lor a (Z.shiftl b 8) = le_join [a; b].
Proof. unfold is_byte. intros Ha. rewrite lor_add_high by lia. unfold le_join. change (2 ^ 8) with 256. lia. Qed.

Lemma lor_le4 a b c d : is_byte a -> is_byte b -> is_byte c -> is_byte d ->
  Z.lor (Z.lor (Z.lor a (Z.shiftl b 8)) (Z.shiftl c 16)) (u32 (Z.shiftl d 24)) = le_join [a; b; c; d].
Proof.
  unfold is_byte. intros Ha Hb Hc Hd. rewrite wrapu_small by (rewrite Z.shiftl_mul_pow2 by lia; change (2 ^ 24) with 16777216; lia).
  rewrite (lor_add_high a b 8) by lia. change (2 ^ 8) with 256.
  rewrite (lor_add_high _ c 16) by (change (2 ^ 16) with 65536; lia). change (2 ^ 16) with 65536.
  rewrite (lor_add_high _ d 24) by (change (2 ^ 24) with 16777216; lia). change (2 ^ 24) with 16777216.
  unfold le_join. lia.
Qed.

(** What [flags] ask for, holding the string [s]. *)
Definition loads_to (flags : Z) (s : list Z) (x : loaded) : Prop :=
  if is_robj flags then exists o, x = LObj o /\ holds (Some o) s else x = as_loaded flags s.

Lemma loads_to_bytes flags s : loads_to flags s (as_loaded flags s).
Proof.
  unfold loads_to, is_robj, as_loaded. destruct (has_flag_z flags RDB_LOAD_PLAIN), (has_flag_z flags RDB_LOAD_SDS),
    (has_flag_z flags (Z.lor RDB_LOAD_HFLD RDB_LOAD_HFLD_TTL)); simpl; try done. by exists (StringObj (Sds s)).
Qed.

Section strings.
  Context {B : Type} `{!RioBackend B} `{!RioStream B} {E : RdbEnv} {A : Allocator}.

(** The object made from an integer holds its numeral. *)
Lemma integer_value v s flags : in_int64 v -> IsDec s v ->
  exists x, loads_to flags s x /\ forall r : rio B,
    (if negb (is_robj flags) then s ← int_text 21 v; Some (r, Val (as_loaded flags s))
     else if has_flag_z flags RDB_LOAD_ENC then
       o ← createStringObjectFromLongLongForValue v; Some (r, Val (LObj o))
     else o ← createStringObjectFromLongLongWithSds v; Some (r, Val (LObj o))) = Some (r, Val x).
Proof.
  intros Hv Hd. pose proof (int_text_ok 21 s v ltac:(lia) Hv Hd) as Ht.
  destruct (is_robj flags) eqn:Er; cbn [negb].
  - unfold loads_to. rewrite Er. destruct (has_flag_z flags RDB_LOAD_ENC).
    + exists (LObj (StringObj (IntEnc v))). split; [by eexists|]. intros r.
      unfold createStringObjectFromLongLongForValue, createStringObjectFromLongLongWithOptions, in_int64 in *.
      unfold_limits.
      destruct shared_integers_ok; simpl; repeat (case_match; try done); exfalso; lia.
    + exists (LObj (StringObj (Sds s))). split; [by eexists|]. intros r.
      unfold createStringObjectFromLongLongWithSds, createStringObjectFromLongLongWithOptions.
      rewrite (bool_decide_eq_false_2 (LL2STROBJ_NO_INT_ENC = LL2STROBJ_AUTO)), (bool_decide_eq_true_2 (LL2STROBJ_NO_INT_ENC = _)) by done.
      cbn [negb]. rewrite !andb_false_r, Ht. done.
  - exists (as_loaded flags s). split; [apply loads_to_bytes|]. intros r. by rewrite Ht.
Qed.

Lemma rdbLoadIntegerObject_decodes v s flags : fits 32 v -> IsDec s v ->
  exists t bs x, int_bytes v = (192 + t) :: bs /\ 0 <= t <= 2 /\ loads_to flags s x /\
    decodes (fun r : rio B => rdbLoadIntegerObject r t flags) bs x.
Proof.
  intros Hf Hd. assert (in_int64 v) as Hv by (unfold fits, in_int64 in *; unfold_limits; lia).
  destruct (integer_value v s flags Hv Hd) as (x & Hx & Hr).
  pose proof (le_split_bytes 4 v) as Hb.
  assert (forall n, (0 < n)%nat -> fits (8 * Z.of_nat n) v -> wraps (8 * Z.of_nat n) (le_join (le_split n v)) = v) as Hw.
  { intros n Hn Hfn. rewrite wraps_le_join_split by done. apply wraps_small; [lia|done]. }
  unfold int_bytes. destruct ((v >=? -128) && (v <=? 127)) eqn:C1; [|destruct ((v >=? -32768) && (v <=? 32767)) eqn:C2].
  - exists 0, (le_split 1 v), x. split_and!; try done. rewrite <- (app_nil_r (le_split 1 v)).
    apply decodes_value with (x := v); [|eapply decodes_ext; [exact Hr|apply decodes_ret]].
    apply decodes_read_all; [done|]. intros r. change (getb (le_split 1 v) 0) with (Some (v mod 256)). cbn [mbind option_bind].
    do 3 f_equal. change (wraps 8 (v mod 256)) with (wraps 8 (u8 v)). rewrite wraps_wrapu by lia. apply wraps_small; [lia|simpl; lia].
  - exists 1, (le_split 2 v), x. split_and!; try done. rewrite <- (app_nil_r (le_split 2 v)).
    apply decodes_value with (x := v); [|eapply decodes_ext; [exact Hr|apply decodes_ret]].
    apply decodes_read_all; [done|]. intros r. change (getb (le_split 2 v) 0) with (Some (v mod 256)).
    change (getb (le_split 2 v) 1) with (Some (v / 256 mod 256)). cbn [mbind option_bind]. do 3 f_equal.
    rewrite wraps_wrapu by lia. rewrite lor_le2 by (apply Z.mod_pos_bound; lia). apply (Hw 2%nat); [lia|]. unfold fits. simpl. lia.
  - exists 2, (le_split 4 v), x. split_and!; try done. rewrite <- (app_nil_r (le_split 4 v)).
    apply decodes_value with (x := v); [|eapply decodes_ext; [exact Hr|apply decodes_ret]].
    apply decodes_read_all; [done|]. intros r. change (getb (le_split 4 v) 0) with (Some (v mod 256)).
    change (getb (le_split 4 v) 1) with (Some (v / 256 mod 256)). change (getb (le_split 4 v) 2) with (Some (v / 256 / 256 mod 256)).
    change (getb (le_split 4 v) 3) with (Some (v / 256 / 256 / 256 mod 256)). cbn [mbind option_bind]. do 3 f_equal.
    rewrite lor_le4 by (apply Z.mod_pos_bound; lia). by apply (Hw 4%nat); [lia|].
Qed.

Lemma load_encoded t flags bs x : 0 <= t <= 2 ->
  decodes (fun r : rio B => rdbLoadIntegerObject r t flags) bs x ->
  decodes (fun r => rdbGenericLoadStringObject r flags) ((192 + t) :: bs) x.
Proof.
  intros Ht Hd. change ((192 + t) :: bs) with (([192 + t] ++ []) ++ bs).
  apply decodes_value with (x := (true, t)).
  - apply decodes_value with (x := (true, t)).
    + apply decodes_read_all; [done|]. intros r. simpl. destruct (type_bits (192 + t)) as [-> ->]; [unfold is_byte; lia|].
      replace ((192 + t) / 64) with 3 by div_lia. replace ((192 + t) mod 64) with t by div_lia. done.
    + simpl. replace (t =? RDB_LENERR) with false by (unfold RDB_LENERR; unfold_limits; lia). apply decodes_ret.
  - replace ((t =? RDB_ENC_INT8) || (t =? RDB_ENC_INT16) || (t =? RDB_ENC_INT32)) with true; [done|].
    unfold RDB_ENC_INT8, RDB_ENC_INT16, RDB_ENC_INT32. lia.
Qed.

(** ** The three forms *)

Definition lzf_bytes (c : list Z) (len : Z) : list Z := [195] ++ len_bytes (zlen c) ++ len_bytes len ++ c.

Lemma rdbSaveLzfBlob_post rdb c rest len :
  zlen c < 2 ^ 64 -> 0 <= len < 2 ^ 64 -> healthy rdb ->
  save_post rdb (lzf_bytes c len) (zlen (lzf_bytes c len)) (rdbSaveLzfBlob rdb (c ++ rest) (zlen c) len).
Proof.
  intros Hc Hl Hh. unfold lzf_bytes, rdbSaveLzfBlob. zlen_saturate. rewrite !zlen_app.
  change (Z.lor (Z.shiftl RDB_ENCVAL 6) RDB_ENC_LZF) with 195.
  eapply or_return_post; [by apply rdbWriteRaw_post|done|]. intros r1 Hh1.
  eapply or_return_post; [by apply rdbSaveLen_post|apply zlen_nonneg|]. intros r2 Hh2.
  eapply or_return_post; [by apply rdbSaveLen_post|apply zlen_nonneg|]. intros r3 Hh3.
  change (mem_read (c ++ rest) 0) with (mem_read ([] ++ c ++ rest) 0). rewrite mem_read_mid by done. cbn [mbind option_bind].
  replace (zlen [195] + (zlen (len_bytes (zlen c)) + (zlen (len_bytes len) + zlen c)))
    with (zlen [195] + zlen (len_bytes (zlen c)) + zlen (len_bytes len) + zlen c) by lia.
  rewrite <- (app_nil_r c) at 1. eapply or_return_post; [by apply rdbWriteRaw_post|apply zlen_nonneg|]. intros. by apply save_ret.
Qed.

Lemma load_lzf ts flags :
  tokens_ok [] ts -> zlen (tokens_bytes ts) < UINT64_MAX -> zlen (expands [] ts) < UINT64_MAX ->
  serves (zlen (tokens_bytes ts)) -> serves (zlen (expands [] ts)) ->
  decodes (fun r : rio B => rdbGenericLoadStringObject r flags) (lzf_bytes (tokens_bytes ts) (zlen (expands [] ts)))
    (as_loaded flags (expands [] ts)).
Proof.
  intros Hok Hc Hl Ha1 Ha2. unfold lzf_bytes. pose proof (zlen_nonneg (tokens_bytes ts)). pose proof (zlen_nonneg (expands [] ts)).
  change ([195] ++ ?l) with (([195] ++ []) ++ l).
  apply decodes_value with (x := (true, 3)).
  { apply decodes_value with (x := (true, 3)); [|simpl; apply decodes_ret]. apply decodes_read_all; [done|]. intros r. done. }
  simpl. unfold rdbLoadLzfStringObject.
  apply decodes_value with (x := (false, zlen (tokens_bytes ts))); [by apply rdbLoadLen_decodes|].
  apply decodes_value with (x := (false, zlen (expands [] ts))); [by apply rdbLoadLen_decodes|].
  rewrite Ha1, alloc_uncompressed_ok by (done || lia). cbn [negb mbind option_bind]. apply decodes_read_all; [done|]. intros r.
  set (o := fresh_bytes (Z.to_nat (zlen (expands [] ts)))).
  assert (zlen o = zlen (expands [] ts)) as Ho by (unfold zlen, o; rewrite length_fresh_bytes; unfold zlen; lia).
  destruct (decompress_spec ts o Hok) as (o' & Hz & Ed); [lia|]. rewrite Ho in Ed. rewrite Ed. cbn [mbind option_bind].
  rewrite Z.eqb_refl. cbn [negb]. destruct o'; [by rewrite app_nil_r|]. exfalso. rewrite zlen_cons in Hz. zlen_saturate. lia.
Qed.

Lemma load_verbatim s flags : zlen s < UINT64_MAX -> serves (zlen s) ->
  decodes (fun r : rio B => rdbGenericLoadStringObject r flags) (len_bytes (zlen s) ++ s) (as_loaded flags s).
Proof.
  intros Hl Ha. pose proof (zlen_nonneg s).
  apply decodes_value with (x := (false, zlen s)); [by apply rdbLoadLen_decodes|]. cbv beta iota. rewrite alloc_string_ok by done. cbn [negb mbind option_bind].
  destruct (Z.eqb_spec (zlen s) 0) as [E0|E0].
  - destruct s; [apply decodes_ret|]. exfalso. rewrite zlen_cons in E0. zlen_saturate. lia.
  - by apply decodes_read_all.
Qed.

Lemma save_verbatim rdb s : zlen s < 2 ^ 64 -> healthy rdb ->
  save_post rdb (len_bytes (zlen s) ++ s) (zlen (len_bytes (zlen s) ++ s))
    (or_return (rdbSaveLen rdb (zlen s)) (fun rdb n =>
      if zlen s >? 0 then or_return (rdbWriteRaw rdb s) (fun rdb _ => Some (rdb, n + zlen s)) else Some (rdb, n))).
Proof.
  intros Hl Hh. pose proof (zlen_nonneg s). eapply or_return_post; [by apply rdbSaveLen_post|apply zlen_nonneg|].
  intros r1 Hh1. rewrite zlen_app. destruct (Z.gtb_spec (zlen s) 0).
  - by apply write_return.
  - destruct s; [|exfalso; rewrite zlen_cons in *; zlen_saturate; lia]. rewrite zlen_nil, Z.add_0_r. by apply save_ret.
Qed.

(** The bytes of a saved string, the stream being irrelevant. *)
Definition saves_string (s e : list Z) : Prop :=
  forall rdb : option (rio B), healthy rdb -> save_post rdb e (zlen e) (rdbSaveRawString rdb s).

Definition loads_string (e s : list Z) : Prop :=
  Forall is_byte e /\ 0 < zlen e /\
  forall flags, exists x, loads_to flags s x /\ decodes (fun r : rio B => rdbGenericLoadStringObject r flags) e x.

Definition compressor_ok (s : list Z) : Prop :=
  8192 <= lzf_addr /\ lzf_addr + zlen s <= 2 ^ 64 /\ slots_ok lzf_tab.

Lemma save_post_app rdb e n m k :
  (exists rdb', m = Some (rdb', 0) /\ appended rdb rdb' []) -> (forall rdb', healthy rdb' -> save_post rdb' e n (k rdb' 0)) ->
  save_post rdb e n (or_return m k).
Proof.
  intros (rdb' & -> & Ha) Hk. rewrite <- (app_nil_l e). eapply (or_return_post _ [] _ 0); [|lia|exact Hk].
  exists rdb', 0. split; [done|]. by left.
Qed.

Lemma save_compressed s : 20 < zlen s -> zlen s < UINT64_MAX -> Forall is_byte s -> compressor_ok s ->
  (forall n, 0 <= n <= zlen s + 28 -> ztrymalloc n = true) ->
  (forall rdb : option (rio B), healthy rdb -> exists rdb', rdbSaveLzfStringObject rdb s = Some (rdb', 0) /\ appended rdb rdb' []) \/
  exists e, (forall rdb : option (rio B), healthy rdb -> save_post rdb e (zlen e) (rdbSaveLzfStringObject rdb s)) /\
    loads_string e s.
Proof.
  intros H20 Hl Hb (Ha1 & Ha2 & Hs) Hal. unfold rdbSaveLzfStringObject. replace (zlen s <=? 4) with false by lia.
  set (o := fresh_bytes (Z.to_nat (zlen s - 4 + 1))).
  assert (zlen o = zlen s - 3) as Ho by (unfold o, zlen; rewrite length_fresh_bytes; unfold zlen in *; lia).
  destruct (compress_spec lzf_addr s (zlen s - 4) o Hb Ha1 Ha2 ltac:(lia) lzf_tab ltac:(lia) Hs) as (o' & n & -> & Hz & Hn).
  cbn [mbind option_bind]. destruct (Z.eqb_spec n 0).
  { left. intros rdb Hh. exists rdb. split; [done|]. destruct rdb; simpl; [by rewrite app_nil_r|done]. }
  destruct Hn as [|(ts & Hok & Hex & Htk & Hnz & Hle)]; [done|]. right. exists (lzf_bytes (tokens_bytes ts) (zlen s)).
  pose proof (zlen_nonneg (tokens_bytes ts)). unfold_limits. split.
  - intros rdb Hh. rewrite <- (take_drop (Z.to_nat n) o'), Htk, Hnz. apply rdbSaveLzfBlob_post; (done || lia).
  - split_and!.
    + unfold lzf_bytes. apply Forall_app. split; [repeat constructor; unfold is_byte; lia|].
      rewrite !Forall_app. split_and!; [apply len_bytes_bytes; lia|apply len_bytes_bytes; lia|].
      apply (tokens_are_bytes ts [] Hok). by rewrite Hex.
    + unfold lzf_bytes. len_lia.
    + intros flags. eexists. split; [apply (loads_to_bytes flags s)|]. rewrite <- Hex. apply load_lzf; unfold_limits; rewrite ?Hex; try (done || lia).
      * intros k Hk. apply Hal. lia.
      * intros k Hk. apply Hal. lia.
Qed.

Lemma string_roundtrip s : Forall is_byte s -> zlen s < UINT64_MAX -> compressor_ok s ->
  (forall n, 0 <= n <= zlen s + 28 -> ztrymalloc n = true) ->
  exists e, saves_string s e /\ loads_string e s.
Proof.
  intros Hb Hl Hcomp Hal. pose proof (zlen_nonneg s) as Hz. unfold saves_string, rdbSaveRawString.
  assert (forall flags, exists x, loads_to flags s x /\
    decodes (fun r : rio B => rdbGenericLoadStringObject r flags) (len_bytes (zlen s) ++ s) x) as Hverb.
  { intros flags. eexists. split; [apply loads_to_bytes|]. apply load_verbatim; [done|]. intros k Hk. apply Hal. lia. }
  assert (loads_string (len_bytes (zlen s) ++ s) s) as Hlv.
  { split_and!; [|unfold len_bytes; repeat case_match; len_lia|done]. apply Forall_app. split; [by apply len_bytes_bytes|done]. }
  destruct (Z.leb_spec (zlen s) 11) as [H11|H11].
  - unfold rdbTryIntegerEncoding. destruct (string2ll_spec s []) as (v & Ev & Hv). rewrite app_nil_r in Ev. rewrite Ev. cbn [mbind option_bind].
    assert (5 <= zlen (fresh_bytes 5)) as Hz5 by (unfold zlen; rewrite length_fresh_bytes; lia).
    assert (forall rdb : option (rio B), healthy rdb -> save_post rdb (len_bytes (zlen s) ++ s) (zlen (len_bytes (zlen s) ++ s))
      (or_return (if rdb_compression && (zlen s >? 20) then rdbSaveLzfStringObject rdb s else Some (rdb, 0)) (fun rdb n =>
        if n >? 0 then Some (rdb, n) else or_return (rdbSaveLen rdb (zlen s)) (fun rdb n =>
          if zlen s >? 0 then or_return (rdbWriteRaw rdb s) (fun rdb _ => Some (rdb, n + zlen s)) else Some (rdb, n))))) as Hplain.
    { intros rdb Hh. replace (zlen s >? 20) with false by lia. rewrite andb_false_r. apply save_post_app.
      - exists rdb. split; [done|]. destruct rdb; simpl; [by rewrite app_nil_r|done].
      - intros rdb' Hh'. apply save_verbatim; [unfold_limits; lia|done]. }
    destruct v as [v|]; [|by exists (len_bytes (zlen s) ++ s)].
    destruct (proj1 (Hv v) eq_refl) as [Hd Hin]. destruct (rdbEncodeInteger_spec v (fresh_bytes 5) Hz5) as [Hyes Hno].
    destruct (decide (- 2 ^ 31 <= v < 2 ^ 31)) as [Hf|Hf].
    + destruct (Hyes Hf) as (rest & ->). cbn [mbind option_bind]. exists (int_bytes v).
      assert (0 < zlen (int_bytes v)) as Hpos by (unfold int_bytes; repeat case_match; len_lia).
      replace (zlen (int_bytes v) >? 0) with true by lia. split.
      * intros rdb Hh. change (int_bytes v ++ rest) with ([] ++ int_bytes v ++ rest). rewrite mem_read_mid by done.
        cbn [mbind option_bind]. by apply write_return.
      * split_and!; [|done|].
        -- unfold int_bytes. repeat case_match; (constructor; [unfold is_byte; lia|apply le_split_bytes]).
        -- intros flags. destruct (rdbLoadIntegerObject_decodes v s flags Hf Hd) as (t & bs & x & -> & Ht & Hx & Hdec).
           exists x. split; [done|]. by apply load_encoded.
    + rewrite (Hno Hf). cbn [mbind option_bind]. by exists (len_bytes (zlen s) ++ s).
  - cbn [mbind option_bind]. change (0 >? 0) with false. cbv beta iota.
    destruct (rdb_compression && (zlen s >? 20)) eqn:Ec.
    + destruct (save_compressed s) as [Hnone|(e & Hsave & Hload)]; [lia|done|done|done|done| |].
      * exists (len_bytes (zlen s) ++ s). split; [|done]. intros rdb Hh. apply save_post_app; [by apply Hnone|].
        intros rdb' Hh'. apply save_verbatim; [unfold_limits; lia|done].
      * exists e. split; [|done]. intros rdb Hh. rewrite <- (app_nil_r e) at 1.
        destruct Hload as (_ & Hpos & _). eapply or_return_post; [by apply Hsave|lia|].
        intros rdb' Hh'. replace (zlen e >? 0) with true by lia. by apply save_ret.
    + exists (len_bytes (zlen s) ++ s). split; [|done]. intros rdb Hh. apply save_post_app.
      * exists rdb. split; [done|]. destruct rdb; simpl; [by rewrite app_nil_r|done].
      * intros rdb' Hh'. apply save_verbatim; [unfold_limits; lia|done].
Qed.
End strings.
