(* ===== verification/RdbProps.v ===== *)
(** * What the compressor and the RDB primitives guarantee *)
From stdpp Require Import strings.
From S2P Require Import Prelude Endian Numstr NumstrFacts NumstrProps BitVec Lzf LzfFacts LzfCompress Rio BitCmd BitCmdFacts Split Rdb RdbFacts.

(** ** Integer objects, times and doubles *)

Section objects.
  Context {B : Type} `{!RioBackend B} `{!RioStream B} {E : RdbEnv} {A : Allocator}.

Lemma load_small_verbatim s : Forall is_byte s -> zlen s < UINT64_MAX -> serves (zlen s) ->
  loads_string (B := B) (len_bytes (zlen s) ++ s) s.
Proof.
  intros Hb Hl Ha. zlen_saturate. split_and!.
  - apply Forall_app. split; [by apply len_bytes_bytes|done].
  - unfold len_bytes. repeat case_match; len_lia.
  - intros flags. eexists. split; [apply loads_to_bytes|]. by apply load_verbatim.
Qed.

Lemma integer_object_roundtrip v s : in_int64 v -> IsDec s v -> (forall n, 0 <= n <= zlen s + 28 -> ztrymalloc n = true) ->
  exists e, (forall rdb : option (rio B), healthy rdb -> save_post rdb e (zlen e) (rdbSaveLongLongAsStringObject rdb v)) /\
    loads_string (B := B) e s.
Proof.
  intros Hv Hd Hal. unfold rdbSaveLongLongAsStringObject. pose proof (IsDec_length s v Hd Hv) as Hl.
  assert (zlen (fresh_bytes 32) = 32) as Hz by (unfold zlen; by rewrite length_fresh_bytes).
  destruct (rdbEncodeInteger_spec v (fresh_bytes 32)) as [Hyes Hno]; [rewrite Hz; lia|].
  destruct (decide (- 2 ^ 31 <= v < 2 ^ 31)) as [Hf|Hf].
  - destruct (Hyes Hf) as (rest & ->). cbn [mbind option_bind]. exists (int_bytes v).
    assert (0 < zlen (int_bytes v)) as Hpos by (unfold int_bytes; repeat case_match; len_lia).
    replace (zlen (int_bytes v) >? 0) with true by lia. split.
    + intros rdb Hh. change (int_bytes v ++ rest) with ([] ++ int_bytes v ++ rest). rewrite mem_read_mid by done.
      cbn [mbind option_bind]. by apply rdbWriteRaw_post.
    + split_and!; [|done|].
      * unfold int_bytes. repeat case_match; (constructor; [unfold is_byte; lia|apply le_split_bytes]).
      * intros flags. destruct (rdbLoadIntegerObject_decodes (B := B) v s flags Hf Hd) as (t & bs & x & -> & Ht & Hx & Hdec).
        exists x. split; [done|]. by apply load_encoded.
  - rewrite (Hno Hf). cbn [mbind option_bind]. change (0 >? 0) with false. cbv beta iota.
    destruct (ll2string_spec [] (fresh_bytes 32) [] v Hv) as (s' & Hd' & El). rewrite (IsDec_unique s' s v Hd' Hd) in El.
    rewrite Hz, !app_nil_r in El. replace (zlen s <? 32) with true in El by lia.
    change (zlen (@nil Z)) with 0 in El. simpl app in El. rewrite El. cbn [mbind option_bind].
    replace (zlen s <? 32) with true by lia. cbn [mbind option_bind assert_true].
    exists (len_bytes (zlen s) ++ s). split; [|apply load_small_verbatim; [by eapply IsDec_bytes|unfold_limits; lia|intros k Hk; apply Hal; lia]].
    intros rdb Hh. eapply or_return_post; [apply rdbSaveLen_post; [lia|done]|apply zlen_nonneg|]. intros r1 Hh1.
    change (mem_read (s ++ ?l) 0) with (mem_read ([] ++ s ++ l) 0). rewrite mem_read_mid by done. cbn [mbind option_bind].
    rewrite zlen_app. rewrite <- (app_nil_r s) at 1. eapply or_return_post; [by apply rdbWriteRaw_post|apply zlen_nonneg|].
    intros. by apply save_ret.
Qed.

(** ** Loading arbitrary bytes *)

Lemma getb_head (a : list Z) n : zlen a = n -> 0 < n -> exists x, getb a 0 = Some x.
Proof. intros Ha Hn. apply getb_is_Some. lia. Qed.

Lemma load_len_safe : load_safe (B := B) rdbLoadLenByRef (fun x => 0 <= x.2 < 2 ^ 64).
Proof.
  apply safe_read; [lia|]. intros a Ha Hb. destruct (getb_head a 1 Ha) as [b E0]; [lia|]. rewrite E0. cbn [mbind option_bind].
  pose proof (getb_byte _ _ _ Hb E0) as Hbb. destruct (type_bits b Hbb) as [-> ->].
  assert (0 <= b mod 64 < 64) by (apply Z.mod_pos_bound; lia).
  destruct (b / 64 =? RDB_ENCVAL); [apply safe_ret; simpl; lia|]. destruct (b / 64 =? RDB_6BITLEN); [apply safe_ret; simpl; lia|].
  destruct (b / 64 =? RDB_14BITLEN).
  { apply safe_read; [lia|]. intros c Hc Hcb. destruct (getb_head c 1 Hc) as [y E1]; [lia|]. rewrite E1. cbn [mbind option_bind].
    pose proof (getb_byte _ _ _ Hcb E1) as Hy. unfold is_byte in Hy. apply safe_ret. simpl. rewrite Z.lor_comm, lor_add_high by lia.
    change (2 ^ 8) with 256. lia. }
  destruct (b =? RDB_32BITLEN).
  { apply safe_read; [lia|]. intros c Hc Hcb. apply safe_ret. simpl.
    assert (length c = 4%nat) as Hl by (unfold zlen in Hc; lia).
    rewrite (net_load _ (le_join (reverse c))).
    - pose proof (Z.mod_pos_bound (le_join (reverse c)) (2 ^ 32)). lia.
    - rewrite <- Hl, <- (length_reverse c). symmetry. apply le_split_join. by apply Forall_reverse. }
  destruct (b =? RDB_64BITLEN); [|apply safe_corrupt].
  apply safe_read; [lia|]. intros c Hc Hcb. assert (length c = 8%nat) as Hl by (unfold zlen in Hc; lia).
  rewrite (net_load64 _ (le_join (reverse c))).
  2:{ rewrite <- Hl, <- (length_reverse c). symmetry. apply le_split_join. by apply Forall_reverse. }
  cbn [mbind option_bind]. apply safe_ret. simpl. apply Z.mod_pos_bound. lia.
Qed.

Lemma load_len_err_safe : load_safe (B := B) rdbLoadLen (fun x => 0 <= x.2 < UINT64_MAX).
Proof.
  apply safe_value with (P := fun x => 0 <= x.2 < 2 ^ 64); [apply load_len_safe|]. intros x Hx.
  destruct (Z.eqb_spec x.2 RDB_LENERR) as [|Hne]; [apply safe_null|]. apply safe_ret. unfold RDB_LENERR in Hne. unfold_limits. lia.
Qed.

Lemma integer_text_total v : in_int64 v -> exists s, IsDec s v.
Proof. intros Hv. destruct (ll2string_spec [] [] [] v Hv) as (s & Hd & _). by exists s. Qed.

Lemma load_integer_safe t flags : load_safe (B := B) (fun r => rdbLoadIntegerObject r t flags) (fun _ => True).
Proof.
  apply safe_value with (P := in_int64).
  - destruct (t =? RDB_ENC_INT8).
    { apply safe_read; [lia|]. intros a Ha Hb. destruct (getb_head a 1 Ha) as [x ->]; [lia|]. cbn [mbind option_bind].
      apply safe_ret. pose proof (wraps_range 8 x ltac:(lia)). unfold in_int64. unfold_limits. lia. }
    destruct (t =? RDB_ENC_INT16).
    { apply safe_read; [lia|]. intros a Ha Hb. destruct (getb_is_Some a 0) as [x ->]; [lia|]. destruct (getb_is_Some a 1) as [y ->]; [lia|].
      cbn [mbind option_bind]. apply safe_ret. set (z := u16 _). pose proof (wraps_range 16 z ltac:(lia)). unfold in_int64. unfold_limits. lia. }
    destruct (t =? RDB_ENC_INT32); [|apply safe_corrupt].
    apply safe_read; [lia|]. intros a Ha Hb. destruct (getb_is_Some a 0) as [x ->]; [lia|]. destruct (getb_is_Some a 1) as [y ->]; [lia|].
    destruct (getb_is_Some a 2) as [z ->]; [lia|]. destruct (getb_is_Some a 3) as [w ->]; [lia|]. cbn [mbind option_bind].
    apply safe_ret. set (q := Z.lor _ _). pose proof (wraps_range 32 q ltac:(lia)). unfold in_int64. unfold_limits. lia.
  - intros v Hv. destruct (integer_text_total v Hv) as (s & Hd). destruct (integer_value (B := B) v s flags Hv Hd) as (x & _ & Hx).
    eapply safe_ext; [exact Hx|]. by apply safe_ret.
Qed.

(** The length that a stream announces for a string: verbatim, or uncompressed behind the
    length of the compressed one. *)
Inductive announces (r : rio B) : bool -> Z -> Prop :=
| announces_verbatim r' len : rdbLoadLen r = Some (r', Val (false, len)) -> announces r false len
| announces_lzf r1 r2 r3 e1 e2 clen len :
    rdbLoadLen r = Some (r1, Val (true, RDB_ENC_LZF)) -> rdbLoadLen r1 = Some (r2, Val (e1, clen)) ->
    rdbLoadLen r2 = Some (r3, Val (e2, len)) -> ztrymalloc clen = true -> announces r true len.

Definition load_ok (bs : list Z) (m : option (rio B * res loaded)) : Prop :=
  exists r' x, m = Some (r', x) /\
    match x with Val _ => exists rest, rest `suffix_of` bs /\ upcoming r' rest | _ => True end.

Lemma load_ok_safe (f : rio B -> option (rio B * res loaded)) P r rest bs :
  load_safe f P -> upcoming r rest -> rest `suffix_of` bs -> load_ok bs (f r).
Proof.
  intros Hf Hu Hs. destruct (Hf r rest Hu) as (r' & x & -> & Hx). exists r', x. split; [done|].
  destruct x; [|done..]. destruct Hx as (_ & rest' & Hs' & Hu'). exists rest'. split; [by etransitivity|done].
Qed.

Lemma read_lzf_safe flags clen len : 0 <= clen -> 0 <= len -> load_safe (B := B) (fun r => on_read r clen (fun r c =>
    '(val, n, _) ← lzf_decompress c (fresh_bytes (Z.to_nat len)) len;
    if negb (n =? len) then Some (r, Corrupt) else Some (r, Val (as_loaded flags val)))) (fun _ => True).
Proof.
  intros Hc Hl. apply safe_read; [lia|]. intros a Ha Hb. set (o := (fresh_bytes (Z.to_nat len))).
  assert (zlen o = len) as Ho by (unfold zlen, o; rewrite length_fresh_bytes; lia).
  destruct (decompress_total a o len) as (o' & n & er & Ed & _); [done|lia|]. rewrite Ed. cbn [mbind option_bind].
  destruct (n =? len); [by apply safe_ret|apply safe_corrupt].
Qed.

(** Reading a length leaves a value, or ends the load. *)
Lemma load_len_cases r bs : upcoming r bs ->
  (exists r', rdbLoadLen r = Some (r', Null) \/ rdbLoadLen r = Some (r', Corrupt)) \/
  exists r' e len rest, rdbLoadLen r = Some (r', Val (e, len)) /\ 0 <= len < UINT64_MAX /\ rest `suffix_of` bs /\ upcoming r' rest.
Proof.
  intros Hu. destruct (load_len_err_safe r bs Hu) as (r' & x & E' & Hx). destruct x as [[e len]| |]; [|left; eauto..].
  right. destruct Hx as (Hl & rest & Hs & Hr). by exists r', e, len, rest.
Qed.

Lemma load_lzf_cases flags r r1 rest bs :
  rdbLoadLen r = Some (r1, Val (true, RDB_ENC_LZF)) -> upcoming r1 rest -> rest `suffix_of` bs ->
  load_ok bs (rdbLoadLzfStringObject r1 flags) \/
  exists len, announces r true len /\ wrapping_length flags <= len < UINT64_MAX /\ alloc_uncompressed flags len = None.
Proof.
  intros E0 Hu Hs. unfold rdbLoadLzfStringObject, on_value.
  destruct (load_len_cases r1 rest Hu) as [(r2 & [E1|E1])|(r2 & e1 & clen & rest1 & E1 & Hc & Hs1 & Hu1)];
    rewrite E1; cbn [mbind option_bind]; [left; by eexists _, _..|].
  destruct (load_len_cases r2 rest1 Hu1) as [(r3 & [E2|E2])|(r3 & e2 & len & rest2 & E2 & Hl & Hs2 & Hu2)];
    rewrite E2; cbn [mbind option_bind]; [left; by eexists _, _..|].
  destruct (ztrymalloc clen) eqn:Em; cbn [negb]; [|left; by eexists _, _].
  destruct (alloc_uncompressed flags len) as [[]|] eqn:Ea; cbn [mbind option_bind negb].
  - left. apply (load_ok_safe _ _ r3 rest2 bs (read_lzf_safe flags clen len ltac:(lia) ltac:(lia))); [done|].
    by do 2 (etransitivity; [done|]).
  - left. by eexists _, _.
  - right. exists len. split; [by econstructor|]. split; [|done].
    destruct (Z.lt_ge_cases len (wrapping_length flags)); [|lia].
    destruct (alloc_uncompressed_total flags len) as [x Hx]; [lia|congruence].
Qed.

Lemma load_string_cases flags r bs : upcoming r bs ->
  load_ok bs (rdbGenericLoadStringObject r flags) \/
  exists lzf len, announces r lzf len /\ wrapping_length flags <= len < UINT64_MAX /\
    (if lzf then alloc_uncompressed flags len else alloc_string flags len) = None.
Proof.
  intros Hu. unfold rdbGenericLoadStringObject, on_value.
  destruct (load_len_cases r bs Hu) as [(r1 & [E1|E1])|(r1 & e & len & rest & E1 & Hl & Hs & Hr)];
    rewrite E1; cbn [mbind option_bind]; [left; by eexists _, _..|].
  destruct e.
  - destruct (_ || _ || _); [left; by apply (load_ok_safe _ _ r1 rest bs (load_integer_safe len flags))|].
    destruct (len =? RDB_ENC_LZF) eqn:E3; [|left; by eexists _, _].
    assert (len = RDB_ENC_LZF) as -> by lia.
    destruct (load_lzf_cases flags r r1 rest bs E1 Hr Hs) as [H|(len & Ha & Hw & Hn)]; [by left|right].
    by exists true, len.
  - destruct (alloc_string flags len) as [[]|] eqn:Ea; cbn [mbind option_bind negb].
    + left. apply (load_ok_safe (fun r => if len =? 0 then Some (r, Val (as_loaded flags []))
        else on_read r len (fun r bs => Some (r, Val (as_loaded flags bs)))) (fun _ => True) r1 rest bs); [|done|done].
      destruct (len =? 0); [by apply safe_ret|]. apply safe_read; [lia|]. intros. by apply safe_ret.
    + left. by eexists _, _.
    + right. exists false, len. split; [by econstructor|]. split; [|done].
      destruct (Z.lt_ge_cases len (wrapping_length flags)); [|lia].
      destruct (alloc_string_total flags len) as [x Hx]; [lia|congruence].
Qed.

(** A length from which the size wraps around stops the load. *)
Lemma load_string_wraps flags r lzf len :
  (forall k, 0 <= k <= 26 -> ztrymalloc k = true) ->
  announces r lzf len -> wrapping_length flags <= len < UINT64_MAX -> rdbGenericLoadStringObject r flags = None.
Proof.
  intros Hm Ha Hw. unfold rdbGenericLoadStringObject, rdbLoadLzfStringObject, on_value.
  destruct Ha as [r' len E1|r1 r2 r3 e1 e2 clen len E1 E2 E3 E4]; rewrite E1; cbn [mbind option_bind].
  - by rewrite alloc_string_wraps.
  - change ((RDB_ENC_LZF =? RDB_ENC_INT8) || (RDB_ENC_LZF =? RDB_ENC_INT16) || (RDB_ENC_LZF =? RDB_ENC_INT32)) with false.
    rewrite Z.eqb_refl. rewrite E2. cbn [mbind option_bind].
    rewrite E3. cbn [mbind option_bind]. rewrite E4. cbn [negb]. by rewrite alloc_uncompressed_wraps.
Qed.
End objects.

(** ** The theorems *)

(** C23: lzf_compress of at least two bytes, whatever its uninitialised table holds, stays inside
    its buffers, and either gives up with 0 or yields at most out_len bytes that lzf_decompress
    expands to the input exactly. *)
Theorem lzf_roundtrip addr tab data o out_len :
  Forall is_byte data -> 2 <= zlen data -> 8192 <= addr -> addr + zlen data <= 2 ^ 64 -> slots_ok tab ->
  0 <= out_len <= zlen o ->
  exists o' n, lzf_compress addr tab data o out_len = Some (o', n) /\ zlen o' = zlen o /\ 0 <= n <= out_len /\
    (n <> 0 -> forall d, zlen d = zlen data ->
       lzf_decompress (take (Z.to_nat n) o') d (zlen d) = Some (data, zlen data, None)).
Proof.
  intros Hb H2 Ha He Ht Ho.
  destruct (compress_spec addr data out_len o Hb Ha He Ho tab H2 Ht) as (o' & n & E & Hz & Hn).
  exists o', n. split; [done|]. split; [done|]. destruct Hn as [->|(ts & Hok & Hex & -> & -> & Hle)]; [split; [lia|done]|].
  split; [split; [apply zlen_nonneg|done]|]. intros _ d Hd. destruct (decompress_spec ts d Hok) as (d' & Hz' & ->); [rewrite Hex; lia|].
  rewrite Hex in *. destruct d'; [by rewrite app_nil_r|]. exfalso. rewrite zlen_cons in Hz'. zlen_saturate. lia.
Qed.

(** C24: lzf_decompress of any bytes ends, reads and writes inside its buffers only, returns a count
    of at most out_len, and returns 0 whenever it sets errno. *)
Theorem lzf_decompress_safe data o out_len :
  Forall is_byte data -> 0 <= out_len <= zlen o ->
  exists o' n e, lzf_decompress data o out_len = Some (o', n, e) /\ zlen o' = zlen o /\ 0 <= n <= out_len /\ (e <> None -> n = 0).
Proof. apply decompress_total. Qed.

(** C21: when the allocator serves blocks of the size of the string and its header, a string object
    saved to any healthy stream, as an integer, compressed or raw, is written as bytes that
    rdbGenericLoadStringObject reads back as the same string, in the form that any combination
    of load flags asks for, leaving the stream at the next byte; saving to no stream counts the
    same bytes. *)
Theorem rdb_string_roundtrip {B} `{!RioBackend B} `{!RioStream B} {E : RdbEnv} {A : Allocator} v s :
  holds (Some (StringObj v)) s -> Forall is_byte s -> zlen s < UINT64_MAX -> compressor_ok s ->
  (forall n, 0 <= n <= zlen s + 28 -> ztrymalloc n = true) ->
  exists e, Forall is_byte e /\
    (forall rdb : option (rio B), healthy rdb -> save_post rdb e (zlen e) (rdbSaveStringObject rdb v)) /\
    forall flags, exists x, loads_to flags s x /\ decodes (fun r : rio B => rdbGenericLoadStringObject r flags) e x.
Proof.
  intros Hh Hb Hl Hc Hal. destruct v as [s'|n]; simpl in Hh.
  - subst s'. destruct (string_roundtrip (B := B) s Hb Hl Hc Hal) as (e & Hs & He & _ & Hd). by exists e.
  - destruct Hh as [Hn Hd]. destruct (integer_object_roundtrip (B := B) n s Hn Hd Hal) as (e & Hs & He & _ & Hx). by exists e.
Qed.

(** C22: whatever bytes a stream holds, loading a string ends without a failed assert or an access
    out of bounds, with a string, a NULL or a report of a corrupt file, and after a string the
    stream stands inside what it held; except for announced lengths at which the size of the
    block wraps around (from 2^64-18 for strings, 2^64-10 for hash fields, 2^64-28 for hash
    fields with a time to live, up to 2^64-2), which do fail the assert of sdstrynewlen or
    mstrNew or make mstrNewWithMeta write its header outside the block. *)
Theorem rdb_load_safe {B} `{!RioBackend B} `{!RioStream B} {E : RdbEnv} {A : Allocator} flags (r : rio B) bs :
  upcoming r bs ->
  ((exists r' x, rdbGenericLoadStringObject r flags = Some (r', x) /\
      match x with Val _ => exists rest, rest `suffix_of` bs /\ upcoming r' rest | _ => True end) \/
   (exists lzf len, announces r lzf len /\ wrapping_length flags <= len < UINT64_MAX /\
      (if lzf then alloc_uncompressed flags len else alloc_string flags len) = None)) /\
  (forall lzf len, announces r lzf len -> wrapping_length flags <= len < UINT64_MAX ->
     (forall k, 0 <= k <= 26 -> ztrymalloc k = true) -> rdbGenericLoadStringObject r flags = None).
Proof.
  intros Hu. split; [by apply load_string_cases|]. intros lzf len Ha Hw Hm. by eapply load_string_wraps.
Qed.

(** Lengths, times in milliseconds and binary doubles are read back as they were saved; a length
    takes one, two, five or nine bytes. *)
Theorem rdb_numbers_roundtrip {B} `{!RioBackend B} `{!RioStream B} {E : RdbEnv} n t :
  0 <= n < 2 ^ 64 -> in_int64 t ->
  (exists e, (forall rdb : option (rio B), healthy rdb -> save_post rdb e (zlen e) (rdbSaveLen rdb n)) /\
     decodes (B := B) rdbLoadLenByRef e (false, n) /\
     (n <> RDB_LENERR -> decodes (B := B) rdbLoadLen e (false, n)) /\
     zlen e = if n <? 64 then 1 else if n <? 16384 then 2 else if n <? 2 ^ 32 then 5 else 9) /\
  (exists e, (forall rdb : option (rio B), healthy rdb -> save_post rdb e 8 (rdbSaveMillisecondTime rdb t)) /\
     forall rdbver, 9 <= rdbver -> decodes (fun r : rio B => rdbLoadMillisecondTime r rdbver) e t) /\
  (exists e, (forall rdb : option (rio B), healthy rdb -> save_post rdb e 8 (rdbSaveBinaryDoubleValue rdb n)) /\
     decodes (B := B) rdbLoadBinaryDoubleValue e n).
Proof.
  intros Hn Ht. split_and!.
  - exists (len_bytes n). split_and!.
    + intros rdb Hh. by apply rdbSaveLen_post.
    + by apply rdbLoadLenByRef_decodes.
    + intros Hne. apply rdbLoadLen_decodes. unfold RDB_LENERR in Hne. unfold_limits. lia.
    + unfold len_bytes. unfold_limits. change (2 ^ 32) with 4294967296.
      destruct (n <? 64); [done|]. destruct (n <? 16384); [done|].
      destruct (Z.leb_spec n 4294967295), (Z.ltb_spec n 4294967296); try lia; by rewrite zlen_cons, zlen_reverse, zlen_le_split.
  - exists (le_split 8 t). split.
    + intros rdb Hh. unfold rdbSaveMillisecondTime. rewrite rev64_store. by apply rdbWriteRaw_post.
    + intros rdbver Hv. apply decodes_read_all; [done|]. intros r. replace (rdbver >=? 9) with true by lia.
      destruct (rev64_load big_endian t) as (m & -> & Em). cbn [mbind option_bind]. rewrite Em.
      change (t mod 2 ^ 64) with (u64 t). rewrite wraps_wrapu, wraps_small by (unfold in_int64 in Ht; unfold_limits; lia). done.
  - exists (le_split 8 n). split.
    + intros rdb Hh. unfold rdbSaveBinaryDoubleValue. rewrite rev64_store. by apply rdbWriteRaw_post.
    + apply decodes_read_all; [done|]. intros r. destruct (rev64_load big_endian n) as (m & -> & Em). cbn [mbind option_bind].
      rewrite Em, Z.mod_small by done. done.
Qed.

(** ** Concrete instances *)

Module RdbSample.

#[export] Instance sample_env : RdbEnv := {|
  big_endian := false; rdb_compression := true; shared_integers_ok := true;
  lzf_addr := 65536; lzf_tab := fun _ => 0; malloc_ok := fun n => n <? 1048576 |}.

Lemma sample_serves n : n < 1048576 -> ztrymalloc n = true.
Proof.
  intros Hn. unfold ztrymalloc. change (UINT64_MAX / 2) with (2 ^ 63 - 1).
  replace (_ >=? _) with false by lia. unfold malloc_ok, sample_env. lia.
Qed.

(** Enough repetition to be worth compressing. *)
Definition song : list Z := concat (replicate 6 (bytes_of "la la la, ")) ++ bytes_of "that is all.".

Lemma slots_zero : slots_ok (fun _ => 0).
Proof. by intros i. Qed.

Lemma lzf_roundtrip_witness :
  exists o n, lzf_compress 65536 (fun _ => 0) song (replicate 69 0) 68 = Some (o, n) /\ n = 29 /\
    lzf_decompress (take (Z.to_nat n) o) (replicate 72 7) 72 = Some (song, 72, None).
Proof.
  destruct (lzf_roundtrip 65536 (fun _ => 0) song (replicate 69 0) 68 (bytes_check song eq_refl) ltac:(closed_arith) ltac:(lia)
    ltac:(closed_arith) slots_zero ltac:(closed_arith)) as (o & n & E & _ & _ & Hd).
  exists o, n. split; [exact E|]. assert (n = 29) as En by (vm_compute in E; congruence). split; [exact En|].
  apply (Hd ltac:(lia) (replicate 72 7) eq_refl).
Defined.

Lemma lzf_decompress_witness :
  exists o n e, lzf_decompress [200; 7; 0; 3; 1] (replicate 10 0) 10 = Some (o, n, e) /\ zlen o = 10.
Proof.
  destruct (lzf_decompress_safe [200; 7; 0; 3; 1] (replicate 10 0) 10 (bytes_check [200; 7; 0; 3; 1] eq_refl) ltac:(closed_arith))
    as (o & n & e & E & Hz & _). by exists o, n, e.
Defined.

Lemma rdb_string_witness :
  exists e, save_post (Some (rioInitWithBuffer [])) e (zlen e) (rdbSaveStringObject (Some (rioInitWithBuffer [])) (Sds song)).
Proof.
  destruct (rdb_string_roundtrip (B := riobuf) (Sds song) song eq_refl (bytes_check song eq_refl) ltac:(closed_arith)) as (e & _ & Hs & _).
  - split; [closed_arith|]. split; [closed_arith|exact slots_zero].
  - intros n Hn. change (zlen song) with 72 in Hn. apply sample_serves. lia.
  - exists e. by apply Hs.
Defined.

(** The length [2^64 - 18] stored in nine bytes. *)
Definition wrapping_bytes : list Z := [129; 255; 255; 255; 255; 255; 255; 255; 238].

Lemma rdb_load_witness :
  (exists r x, rdbGenericLoadStringObject (rioInitWithBuffer [195; 5; 70; 0]) RDB_LOAD_ENC = Some (r, x)) /\
  rdbGenericLoadStringObject (rioInitWithBuffer wrapping_bytes) RDB_LOAD_ENC = None.
Proof.
  split.
  - destruct (rdb_load_safe RDB_LOAD_ENC (rioInitWithBuffer [195; 5; 70; 0]) [195; 5; 70; 0]) as [[(r & x & E & _)|(lzf & len & Ha & Hw & _)] _].
    + apply init_upcoming; [by apply bytes_check|done].
    + by exists r, x.
    + exfalso. destruct Ha as [r' len E1|r1 r2 r3 e1 e2 clen len E1 E2 E3 E4].
      * vm_compute in E1. congruence.
      * vm_compute in E1. injection E1 as <-. vm_compute in E2. injection E2 as <- <- <-. vm_compute in E3.
        injection E3 as <- <- <-. vm_compute in Hw. by destruct Hw as [[] _].
  - eapply (rdb_load_safe RDB_LOAD_ENC (rioInitWithBuffer wrapping_bytes) wrapping_bytes).
    + apply init_upcoming; [by apply bytes_check|done].
    + eapply announces_verbatim. vm_compute. reflexivity.
    + split; vm_compute; [discriminate|reflexivity].
    + intros k Hk. apply sample_serves. lia.
Defined.

Lemma rdb_numbers_witness :
  exists e, save_post (Some (rioInitWithBuffer [])) e 2 (rdbSaveLen (Some (rioInitWithBuffer [])) 700).
Proof.
  destruct (rdb_numbers_roundtrip (B := riobuf) 700 (-5) ltac:(lia) ltac:(closed_arith)) as ((e & Hs & _ & _ & Hz) & _).
  change (zlen e = 2) in Hz. exists e. rewrite <- Hz at 1. by apply Hs.
Defined.
End RdbSample.
