(* ===== verification/Crc.v ===== *)
(** * Checksums: [crc64.c], [crcspeed.c], [crc16.c], and the slot of a key

    A table is the list of its rows; an index out of a row is [None].  [rev8] is the byte swap
    of the compiler ([__builtin_bswap64]). *)
From S2P Require Import Prelude Endian.

(** ** The bit-by-bit CRC of [crc64.c] *)

Definition POLY : Z := 0xad93d23594c935a9.

Fixpoint reflect_loop (n : nat) (data ret : Z) : Z :=
  match n with
  | O => ret
  | S n =>
      let data := Z.shiftr data 1 in
      reflect_loop n data (Z.lor (u64 (Z.shiftl ret 1)) (Z.land data 0x01))
  end.

Definition crc_reflect (data : Z) (data_len : nat) : Z := reflect_loop (data_len - 1) data (Z.land data 0x01).

(** The turn of the inner loop for the mask [i]. *)
Definition crc64_bit (c crc i : Z) : Z :=
  let bit := Z.land crc 0x8000000000000000 in
  let bit := if negb (Z.land c i =? 0) then (if bit =? 0 then 1 else 0) else bit in
  let crc := u64 (Z.shiftl crc 1) in
  if negb (bit =? 0) then Z.lxor crc POLY else crc.

Definition crc64_masks : list Z := [0x01; 0x02; 0x04; 0x08; 0x10; 0x20; 0x40; 0x80].

Definition crc64_byte (crc c : Z) : Z :=
  Z.land (foldl (crc64_bit c) crc crc64_masks) 0xffffffffffffffff.

Definition _crc64 (crc : Z) (in_data : list Z) : Z :=
  let crc := foldl crc64_byte crc in_data in
  let crc := Z.land crc 0xffffffffffffffff in
  Z.lxor (crc_reflect crc 64) 0.

(** ** Tables *)

Notation crc_table := (list (list Z)).

Definition cell (t : crc_table) (k n : Z) : option Z :=
  row ← (if 0 <=? k then t !! Z.to_nat k else None); getb row n.

Definition set_cell (t : crc_table) (k n v : Z) : option crc_table :=
  row ← (if 0 <=? k then t !! Z.to_nat k else None);
  row ← setb row n v;
  Some (<[Z.to_nat k := row]> t).

(** A [for] loop over the given indexes. *)
Fixpoint for_each {S} (l : list Z) (f : Z -> S -> option S) (s : S) : option S :=
  match l with
  | [] => Some s
  | x :: l => s ← f x s; for_each l f s
  end.

Definition single_bytes (crcfn : Z -> list Z -> Z) (n : Z) (t : crc_table) : option crc_table :=
  set_cell t 0 n (crcfn 0 [u8 n]).

Definition nested_cells (n k : Z) (st : crc_table * Z) : option (crc_table * Z) :=
  let '(t, crc) := st in
  v ← cell t 0 (Z.land crc 0xff);
  let crc := Z.lxor v (Z.shiftr crc 8) in
  t ← set_cell t k n crc;
  Some (t, crc).

Definition nested_column (n : Z) (t : crc_table) : option crc_table :=
  crc ← cell t 0 n;
  '(t, _) ← for_each (seqZ 1 7) (nested_cells n) (t, crc);
  Some t.

Definition crcspeed64little_init (crcfn : Z -> list Z -> Z) (t : crc_table) : option crc_table :=
  t ← for_each (seqZ 0 256) (single_bytes crcfn) t;
  for_each (seqZ 0 256) nested_column t.

Definition rev8 (a : Z) : Z := le_join (reverse (le_split 8 a)).

Definition rev_cell (k n : Z) (t : crc_table) : option crc_table :=
  v ← cell t k n; set_cell t k n (rev8 v).

Definition crcspeed64big_init (fn : Z -> list Z -> Z) (t : crc_table) : option crc_table :=
  t ← crcspeed64little_init fn t;
  for_each (seqZ 0 8) (fun k t => for_each (seqZ 0 256) (rev_cell k) t) t.

Definition crcspeed64native_init (be : bool) (fn : Z -> list Z -> Z) (t : crc_table) : option crc_table :=
  if negb be then crcspeed64little_init fn t else crcspeed64big_init fn t.

(** ** Eight bytes at a time *)

(** [buf] is at the address [addr]; [next] is an offset into it. *)
Definition little_byte (t : crc_table) (buf : list Z) (crc next : Z) : option Z :=
  b ← getb buf next; v ← cell t 0 (Z.land (Z.lxor crc b) 0xff); Some (Z.lxor v (Z.shiftr crc 8)).

Definition big_byte (t : crc_table) (buf : list Z) (crc next : Z) : option Z :=
  b ← getb buf next; v ← cell t 0 (Z.lxor (Z.shiftr crc 56) b); Some (Z.lxor v (u64 (Z.shiftl crc 8))).

Definition little_word (t : crc_table) (buf : list Z) (crc next : Z) : option Z :=
  w ← mem_read buf next 8;
  let crc := Z.lxor crc (host_load false w) in
  v7 ← cell t 7 (Z.land crc 0xff);
  v6 ← cell t 6 (Z.land (Z.shiftr crc 8) 0xff);
  v5 ← cell t 5 (Z.land (Z.shiftr crc 16) 0xff);
  v4 ← cell t 4 (Z.land (Z.shiftr crc 24) 0xff);
  v3 ← cell t 3 (Z.land (Z.shiftr crc 32) 0xff);
  v2 ← cell t 2 (Z.land (Z.shiftr crc 40) 0xff);
  v1 ← cell t 1 (Z.land (Z.shiftr crc 48) 0xff);
  v0 ← cell t 0 (Z.shiftr crc 56);
  Some (Z.lxor (Z.lxor (Z.lxor (Z.lxor (Z.lxor (Z.lxor (Z.lxor v7 v6) v5) v4) v3) v2) v1) v0).

Definition big_word (t : crc_table) (buf : list Z) (crc next : Z) : option Z :=
  w ← mem_read buf next 8;
  let crc := Z.lxor crc (host_load true w) in
  v0 ← cell t 0 (Z.land crc 0xff);
  v1 ← cell t 1 (Z.land (Z.shiftr crc 8) 0xff);
  v2 ← cell t 2 (Z.land (Z.shiftr crc 16) 0xff);
  v3 ← cell t 3 (Z.land (Z.shiftr crc 24) 0xff);
  v4 ← cell t 4 (Z.land (Z.shiftr crc 32) 0xff);
  v5 ← cell t 5 (Z.land (Z.shiftr crc 40) 0xff);
  v6 ← cell t 6 (Z.land (Z.shiftr crc 48) 0xff);
  v7 ← cell t 7 (Z.shiftr crc 56);
  Some (Z.lxor (Z.lxor (Z.lxor (Z.lxor (Z.lxor (Z.lxor (Z.lxor v0 v1) v2) v3) v4) v5) v6) v7).

(** The three loops, over a way to consume one byte and one word; the state is [crc] and [next]. *)
Definition align_body (addr : Z) (buf : list Z) (byte : Z -> Z -> option Z) (st : Z * Z) : option (Z * Z + Z * Z) :=
  let '(crc, next) := st in
  if negb (zlen buf - next =? 0) && negb (Z.land (addr + next) 7 =? 0) then
    crc ← byte crc next; Some (inl (crc, next + 1))
  else Some (inr (crc, next)).

Definition words_body (buf : list Z) (word : Z -> Z -> option Z) (st : Z * Z) : option (Z * Z + Z * Z) :=
  let '(crc, next) := st in
  if zlen buf - next >=? 8 then crc ← word crc next; Some (inl (crc, next + 8)) else Some (inr (crc, next)).

Definition rest_body (buf : list Z) (byte : Z -> Z -> option Z) (st : Z * Z) : option (Z * Z + Z) :=
  let '(crc, next) := st in
  if negb (zlen buf - next =? 0) then crc ← byte crc next; Some (inl (crc, next + 1)) else Some (inr crc).

Definition crc_loops (addr : Z) (buf : list Z) (byte word : Z -> Z -> option Z) (crc : Z) : option Z :=
  st ← loop 8 (align_body addr buf byte) (crc, 0);
  st ← loop (S (length buf)) (words_body buf word) st;
  loop 9 (rest_body buf byte) st.

Definition crcspeed64little (t : crc_table) (crc addr : Z) (buf : list Z) : option Z :=
  crc_loops addr buf (little_byte t buf) (little_word t buf) crc.

Definition crcspeed64big (t : crc_table) (crc addr : Z) (buf : list Z) : option Z :=
  crc ← crc_loops addr buf (big_byte t buf) (big_word t buf) (rev8 crc); Some (rev8 crc).

Definition crcspeed64native (be : bool) (t : crc_table) (crc addr : Z) (buf : list Z) : option Z :=
  if negb be then crcspeed64little t crc addr buf else crcspeed64big t crc addr buf.

(** The static table, after [crc64_init]. *)
Definition crc64_table : crc_table := replicate 8 (replicate 256 0).

Definition crc64_init (be : bool) : option crc_table := crcspeed64native_init be _crc64 crc64_table.

Definition crc64 (be : bool) (t : crc_table) (crc addr : Z) (s : list Z) : option Z := crcspeed64native be t crc addr s.

(** ** [crc16.c] *)

Definition crc16tab : list Z := [
    0x0000; 0x1021; 0x2042; 0x3063; 0x4084; 0x50a5; 0x60c6; 0x70e7;
    0x8108; 0x9129; 0xa14a; 0xb16b; 0xc18c; 0xd1ad; 0xe1ce; 0xf1ef;
    0x1231; 0x0210; 0x3273; 0x2252; 0x52b5; 0x4294; 0x72f7; 0x62d6;
    0x9339; 0x8318; 0xb37b; 0xa35a; 0xd3bd; 0xc39c; 0xf3ff; 0xe3de;
    0x2462; 0x3443; 0x0420; 0x1401; 0x64e6; 0x74c7; 0x44a4; 0x5485;
    0xa56a; 0xb54b; 0x8528; 0x9509; 0xe5ee; 0xf5cf; 0xc5ac; 0xd58d;
    0x3653; 0x2672; 0x1611; 0x0630; 0x76d7; 0x66f6; 0x5695; 0x46b4;
    0xb75b; 0xa77a; 0x9719; 0x8738; 0xf7df; 0xe7fe; 0xd79d; 0xc7bc;
    0x48c4; 0x58e5; 0x6886; 0x78a7; 0x0840; 0x1861; 0x2802; 0x3823;
    0xc9cc; 0xd9ed; 0xe98e; 0xf9af; 0x8948; 0x9969; 0xa90a; 0xb92b;
    0x5af5; 0x4ad4; 0x7ab7; 0x6a96; 0x1a71; 0x0a50; 0x3a33; 0x2a12;
    0xdbfd; 0xcbdc; 0xfbbf; 0xeb9e; 0x9b79; 0x8b58; 0xbb3b; 0xab1a;
    0x6ca6; 0x7c87; 0x4ce4; 0x5cc5; 0x2c22; 0x3c03; 0x0c60; 0x1c41;
    0xedae; 0xfd8f; 0xcdec; 0xddcd; 0xad2a; 0xbd0b; 0x8d68; 0x9d49;
    0x7e97; 0x6eb6; 0x5ed5; 0x4ef4; 0x3e13; 0x2e32; 0x1e51; 0x0e70;
    0xff9f; 0xefbe; 0xdfdd; 0xcffc; 0xbf1b; 0xaf3a; 0x9f59; 0x8f78;
    0x9188; 0x81a9; 0xb1ca; 0xa1eb; 0xd10c; 0xc12d; 0xf14e; 0xe16f;
    0x1080; 0x00a1; 0x30c2; 0x20e3; 0x5004; 0x4025; 0x7046; 0x6067;
    0x83b9; 0x9398; 0xa3fb; 0xb3da; 0xc33d; 0xd31c; 0xe37f; 0xf35e;
    0x02b1; 0x1290; 0x22f3; 0x32d2; 0x4235; 0x5214; 0x6277; 0x7256;
    0xb5ea; 0xa5cb; 0x95a8; 0x8589; 0xf56e; 0xe54f; 0xd52c; 0xc50d;
    0x34e2; 0x24c3; 0x14a0; 0x0481; 0x7466; 0x6447; 0x5424; 0x4405;
    0xa7db; 0xb7fa; 0x8799; 0x97b8; 0xe75f; 0xf77e; 0xc71d; 0xd73c;
    0x26d3; 0x36f2; 0x0691; 0x16b0; 0x6657; 0x7676; 0x4615; 0x5634;
    0xd94c; 0xc96d; 0xf90e; 0xe92f; 0x99c8; 0x89e9; 0xb98a; 0xa9ab;
    0x5844; 0x4865; 0x7806; 0x6827; 0x18c0; 0x08e1; 0x3882; 0x28a3;
    0xcb7d; 0xdb5c; 0xeb3f; 0xfb1e; 0x8bf9; 0x9bd8; 0xabbb; 0xbb9a;
    0x4a75; 0x5a54; 0x6a37; 0x7a16; 0x0af1; 0x1ad0; 0x2ab3; 0x3a92;
    0xfd2e; 0xed0f; 0xdd6c; 0xcd4d; 0xbdaa; 0xad8b; 0x9de8; 0x8dc9;
    0x7c26; 0x6c07; 0x5c64; 0x4c45; 0x3ca2; 0x2c83; 0x1ce0; 0x0cc1;
    0xef1f; 0xff3e; 0xcf5d; 0xdf7c; 0xaf9b; 0xbfba; 0x8fd9; 0x9ff8;
    0x6e17; 0x7e36; 0x4e55; 0x5e74; 0x2e93; 0x3eb2; 0x0ed1; 0x1ef0].

(** [char] is signed. *)
Definition crc16_byte (crc b : Z) : option Z :=
  v ← getb crc16tab (Z.land (Z.lxor (Z.shiftr crc 8) (wraps 8 b)) 0x00FF);
  Some (u16 (Z.lxor (Z.shiftl crc 8) v)).

Fixpoint crc16_loop (crc : Z) (buf : list Z) : option Z :=
  match buf with
  | [] => Some crc
  | b :: buf => crc ← crc16_byte crc b; crc16_loop crc buf
  end.

Definition crc16 (buf : list Z) : option Z := crc16_loop 0 buf.

(** ** [cluster.h]: the slot of a key *)

(** The first index from [i] on with the byte [c], or the length. *)
Definition find_body (key : list Z) (c i : Z) : option (Z + Z) :=
  if i <? zlen key then b ← getb key i; if b =? c then Some (inr i) else Some (inl (i + 1)) else Some (inr i).

Definition find_byte (key : list Z) (c i : Z) : option Z := loop (S (length key)) (find_body key c) i.

Definition slot_of (bs : list Z) : option Z := v ← crc16 bs; Some (Z.land v 0x3FFF).

Definition keyHashSlot (key : list Z) : option Z :=
  let keylen := zlen key in
  s ← find_byte key 123 0;
  if s =? keylen then slot_of key
  else
    e ← find_byte key 125 (s + 1);
    if (e =? keylen) || (e =? s + 1) then slot_of key
    else bs ← mem_read key (s + 1) (e - s - 1); slot_of bs.
