(* ===== verification/CrcFacts.v ===== *)
(** * The CRC as arithmetic on polynomials

    [shift1] is the division step on the reflected register; it is linear, and everything else
    follows from this: the bit-by-bit loop, the tables and the slices. *)
From Stdlib Require Import Btauto.
From S2P Require Import Prelude Endian Crc.

Definition POLYR : Z := 0x95ac9329ac4bc9b5.

Definition shift1 (x : Z) : Z := Z.lxor (Z.shiftr x 1) (if Z.odd x then POLYR else 0).
Definition step8 (x : Z) : Z := Nat.iter 8 shift1 x.

(** One byte, and a string. *)
Definition upd (r c : Z) : Z := step8 (Z.lxor r c).
Definition crc_of (r : Z) (s : list Z) : Z := foldl upd r s.

Lemma upd_eq r c : upd r c = step8 (Z.lxor r c).
Proof. reflexivity. Qed.

(** ** Exclusive or *)

Lemma odd_lxor a b : Z.odd (Z.lxor a b) = xorb (Z.odd a) (Z.odd b).
Proof. by rewrite <- !Z.bit0_odd, Z.lxor_spec. Qed.

Lemma lxor_mid a b c d : Z.lxor (Z.lxor a b) (Z.lxor c d) = Z.lxor (Z.lxor a c) (Z.lxor b d).
Proof. rewrite !Z.lxor_assoc. f_equal. by rewrite <- !Z.lxor_assoc, (Z.lxor_comm b c). Qed.

Lemma shift1_lxor x y : shift1 (Z.lxor x y) = Z.lxor (shift1 x) (shift1 y).
Proof.
  unfold shift1. rewrite Z.shiftr_lxor, odd_lxor, lxor_mid. f_equal.
  destruct (Z.odd x), (Z.odd y); simpl xorb; cbn match; by rewrite ?Z.lxor_0_l, ?Z.lxor_0_r, ?Z.lxor_nilpotent.
Qed.

Lemma iter_lxor n x y : Nat.iter n shift1 (Z.lxor x y) = Z.lxor (Nat.iter n shift1 x) (Nat.iter n shift1 y).
Proof. induction n as [|n IH]; simpl; [done|]. by rewrite IH, shift1_lxor. Qed.

Lemma step8_lxor x y : step8 (Z.lxor x y) = Z.lxor (step8 x) (step8 y).
Proof. apply iter_lxor. Qed.

Lemma shift1_double y : shift1 (2 * y) = y.
Proof.
  unfold shift1. rewrite Z.odd_mul. simpl. rewrite Z.lxor_0_r, Z.shiftr_div_pow2 by lia. change (2 ^ 1) with 2.
  rewrite Z.mul_comm, Z.div_mul by lia. done.
Qed.

Lemma iter_shift1_pow n y : Nat.iter n shift1 (2 ^ Z.of_nat n * y) = y.
Proof.
  revert y. induction n as [|n IH]; intros y; [simpl; lia|].
  rewrite Nat.iter_succ_r, Nat2Z.inj_succ, Z.pow_succ_r, <- Z.mul_assoc, shift1_double by lia. apply IH.
Qed.

Lemma step8_shift y : step8 (256 * y) = y.
Proof. apply (iter_shift1_pow 8). Qed.

(** A number is its low byte and the rest. *)
Lemma low_byte_split x : x = Z.lxor (Z.land x 0xff) (256 * Z.shiftr x 8).
Proof.
  apply Z.bits_inj_iff'. intros n Hn. change 0xff with (Z.ones 8). change 256 with (2 ^ 8).
  rewrite Z.lxor_spec, Z.land_spec, (Z.mul_comm (2 ^ 8)). destruct (Z.lt_ge_cases n 8).
  - rewrite Z.ones_spec_low, Z.mul_pow2_bits_low by lia. destruct (Z.testbit x n); done.
  - rewrite Z.ones_spec_high, Z.mul_pow2_bits, Z.shiftr_spec by lia. replace (n - 8 + 8) with n by lia.
    destruct (Z.testbit x n); done.
Qed.

Lemma step8_split x : step8 x = Z.lxor (step8 (Z.land x 0xff)) (Z.shiftr x 8).
Proof. rewrite (low_byte_split x) at 1. by rewrite step8_lxor, step8_shift. Qed.

Lemma shift1_range x : 0 <= x < 2 ^ 64 -> 0 <= shift1 x < 2 ^ 64.
Proof.
  intros Hx. unfold shift1. apply lxor_range; [lia| |].
  - rewrite Z.shiftr_div_pow2 by lia. change (2 ^ 1) with 2. split; [apply Z.div_pos; lia|]. apply Z.div_lt_upper_bound; lia.
  - destruct (Z.odd x); unfold POLYR; lia.
Qed.

Lemma step8_range x : 0 <= x < 2 ^ 64 -> 0 <= step8 x < 2 ^ 64.
Proof.
  intros Hx. unfold step8. assert (forall n, 0 <= Nat.iter n shift1 x < 2 ^ 64) as H; [|apply H].
  induction n as [|n IH]; simpl; [done|]. by apply shift1_range.
Qed.

Lemma byte_range64 b : is_byte b -> 0 <= b < 2 ^ 64.
Proof. unfold is_byte. lia. Qed.

Lemma upd_range r c : 0 <= r < 2 ^ 64 -> is_byte c -> 0 <= upd r c < 2 ^ 64.
Proof. intros Hr Hc. apply step8_range, lxor_range; [lia|done|by apply byte_range64]. Qed.

Lemma crc_of_range s : forall r, 0 <= r < 2 ^ 64 -> Forall is_byte s -> 0 <= crc_of r s < 2 ^ 64.
Proof.
  induction s as [|c s IH]; intros r Hr Hs; [done|]. apply Forall_cons in Hs as [Hc Hs].
  apply (IH (upd r c)); [by apply upd_range|done].
Qed.

Lemma crc_of_app r a b : crc_of r (a ++ b) = crc_of (crc_of r a) b.
Proof. apply foldl_app. Qed.

(** Bytes taken together. *)
Lemma lxor_join r b x : is_byte b -> Z.lxor r (b + 256 * x) = Z.lxor (Z.lxor r b) (256 * x).
Proof.
  intros Hb. rewrite Z.lxor_assoc. f_equal. unfold is_byte in Hb.
  pose proof (lor_add_high b x 8 ltac:(lia) ltac:(lia)) as El. change (2 ^ 8) with 256 in El. rewrite <- El.
  replace (256 * x) with (Z.shiftl x 8) by (rewrite Z.shiftl_mul_pow2 by lia; change (2 ^ 8) with 256; lia).
  apply Z.bits_inj_iff'. intros n Hn. rewrite Z.lor_spec, Z.lxor_spec.
  destruct (Z.lt_ge_cases n 8).
  - rewrite Z.shiftl_spec_low by lia. destruct (Z.testbit b n); done.
  - rewrite (Z.bits_above_log2 b n); [destruct (Z.testbit _ n); done|lia|].
    destruct (Z.eq_dec b 0) as [->|]; [simpl; lia|]. assert (Z.log2 b < 8) by (apply Z.log2_lt_pow2; lia). lia.
Qed.

Lemma crc_of_join s : forall r, Forall is_byte s -> crc_of r s = Nat.iter (length s) step8 (Z.lxor r (le_join s)).
Proof.
  induction s as [|b s IH]; intros r Hs.
  - unfold le_join. simpl. by rewrite Z.lxor_0_r.
  - apply Forall_cons in Hs as [Hb Hs]. change (crc_of r (b :: s)) with (crc_of (upd r b) s). rewrite IH by done.
    simpl length. rewrite Nat.iter_succ_r. f_equal. change (le_join (b :: s)) with (b + 256 * le_join s).
    by rewrite lxor_join, step8_lxor, step8_shift.
Qed.

(** ** The bit-by-bit loop *)

Lemma land_1_range x : 0 <= Z.land x 1 < 2 ^ 1.
Proof. pose proof (Z.land_ones x 1 ltac:(lia)) as H. change (Z.ones 1) with 1 in H. rewrite H. apply Z.mod_pos_bound. lia. Qed.

Lemma reflect_loop_spec n : forall data ret k,
  (Z.of_nat n + k < 64) -> 0 <= k -> 0 <= ret < 2 ^ (k + 1) ->
  0 <= reflect_loop n data ret < 2 ^ (k + 1 + Z.of_nat n) /\
  forall i, 0 <= i <= k + Z.of_nat n -> Z.testbit (reflect_loop n data ret) i =
    if i <? Z.of_nat n then Z.testbit data (Z.of_nat n - i) else Z.testbit ret (i - Z.of_nat n).
Proof.
  induction n as [|n IH]; intros data ret k Hn Hk Hr; cbn [reflect_loop].
  - change (Z.of_nat 0) with 0 in *. rewrite Z.add_0_r. split; [done|]. intros i Hi.
    destruct (Z.ltb_spec i 0); [lia|]. f_equal. lia.
  - set (bit := Z.land (Z.shiftr data 1) 1).
    assert (0 <= bit < 2 ^ 1) as Hbit by apply land_1_range.
    assert (2 ^ (k + 1 + 1) = 2 * 2 ^ (k + 1)) as Hp by (rewrite (Z.pow_add_r 2 (k + 1) 1) by lia; lia).
    assert (2 ^ (k + 1 + 1) <= 2 ^ 64) as Hle by (apply Z.pow_le_mono_r; lia).
    rewrite wrapu_small by (rewrite Z.shiftl_mul_pow2 by lia; change (2 ^ 1) with 2; lia).
    rewrite Z.lor_comm, lor_add_high by (lia || done). change (2 ^ 1) with 2 in *.
    destruct (IH (Z.shiftr data 1) (bit + 2 * ret) (k + 1)) as [Hrange Hbits]; [lia|lia|lia|].
    split; [replace (k + 1 + Z.of_nat (S n)) with (k + 1 + 1 + Z.of_nat n) by lia; done|].
    intros i Hi. rewrite Hbits by lia. destruct (Z.ltb_spec i (Z.of_nat n)).
    + rewrite (proj2 (Z.ltb_lt i (Z.of_nat (S n)))) by lia. rewrite Z.shiftr_spec by lia. f_equal. lia.
    + destruct (Z.eq_dec i (Z.of_nat n)) as [->|].
      * rewrite (proj2 (Z.ltb_lt (Z.of_nat n) (Z.of_nat (S n)))) by lia. rewrite Z.sub_diag.
        replace (Z.of_nat (S n) - Z.of_nat n) with 1 by lia.
        rewrite Z.bit0_odd, Z.odd_add_mul_2, <- Z.bit0_odd. unfold bit. rewrite Z.land_spec, Z.shiftr_spec by lia.
        simpl. by rewrite andb_true_r.
      * rewrite (proj2 (Z.ltb_ge i (Z.of_nat (S n)))) by lia. replace (i - Z.of_nat n) with (Z.succ (i - Z.of_nat (S n))) by lia.
        assert ((bit + 2 * ret) / 2 = ret) as Ed by (clearbody bit; div_lia).
        rewrite <- (Z.div2_bits (bit + 2 * ret)), Ed by lia. done.
Qed.

Lemma crc_reflect_bits x i : 0 <= i < 64 -> Z.testbit (crc_reflect x 64) i = Z.testbit x (63 - i).
Proof.
  intros Hi. unfold crc_reflect. change (64 - 1)%nat with 63%nat.
  pose proof (land_1_range x) as Hl.
  destruct (reflect_loop_spec 63 x (Z.land x 1) 0) as [_ Hb]; [lia|lia|done|]. rewrite Hb by lia.
  destruct (Z.ltb_spec i (Z.of_nat 63)); [done|]. replace (i - Z.of_nat 63) with 0 by lia. replace (63 - i) with 0 by lia.
  rewrite Z.land_spec. simpl. by rewrite andb_true_r.
Qed.

Lemma crc_reflect_range x : 0 <= crc_reflect x 64 < 2 ^ 64.
Proof.
  unfold crc_reflect. change (64 - 1)%nat with 63%nat.
  pose proof (land_1_range x) as Hl.
  by destruct (reflect_loop_spec 63 x (Z.land x 1) 0) as [Hr _]; [lia|lia|done|].
Qed.

Lemma bits_eq64 x y : 0 <= x < 2 ^ 64 -> 0 <= y < 2 ^ 64 -> (forall i, 0 <= i < 64 -> Z.testbit x i = Z.testbit y i) -> x = y.
Proof.
  intros Hx Hy H. apply Z.bits_inj_iff'. intros i Hi. destruct (Z.lt_ge_cases i 64); [by apply H|].
  by rewrite (testbit_above x 64), (testbit_above y 64).
Qed.

Lemma crc_reflect_lxor x y : crc_reflect (Z.lxor x y) 64 = Z.lxor (crc_reflect x 64) (crc_reflect y 64).
Proof.
  apply bits_eq64; [apply crc_reflect_range|apply lxor_range; [lia|apply crc_reflect_range..]|].
  intros i Hi. by rewrite Z.lxor_spec, !crc_reflect_bits, Z.lxor_spec.
Qed.

Lemma crc_reflect_shl x : crc_reflect (u64 (Z.shiftl x 1)) 64 = Z.shiftr (crc_reflect x 64) 1.
Proof.
  pose proof (crc_reflect_range x) as Hr.
  assert (0 <= Z.shiftr (crc_reflect x 64) 1 < 2 ^ 64) as Hs.
  { rewrite Z.shiftr_div_pow2 by lia. change (2 ^ 1) with 2. split; [apply Z.div_pos; lia|]. apply Z.div_lt_upper_bound; lia. }
  apply bits_eq64; [apply crc_reflect_range|done|]. intros i Hi. rewrite crc_reflect_bits, Z.shiftr_spec by lia.
  unfold wrapu. rewrite Z.mod_pow2_bits_low by lia. destruct (Z.eq_dec i 63) as [->|].
  - rewrite Z.shiftl_spec_low by lia. by rewrite (testbit_above _ 64).
  - rewrite Z.shiftl_spec, crc_reflect_bits by lia. f_equal. lia.
Qed.

(** One turn of the inner loop, on the reflected register. *)
Lemma crc64_bit_reflect c crc k : 0 <= k ->
  crc_reflect (crc64_bit c crc (2 ^ k)) 64 =
    Z.lxor (Z.shiftr (crc_reflect crc 64) 1) (if xorb (Z.odd (crc_reflect crc 64)) (Z.testbit c k) then POLYR else 0).
Proof.
  intros Hk. unfold crc64_bit. rewrite land_bit_zero, negb_involutive by done.
  change 0x8000000000000000 with (2 ^ 63). rewrite <- Z.bit0_odd, crc_reflect_bits by lia. change (63 - 0) with 63.
  pose proof (land_bit_zero crc 63 ltac:(lia)) as E63.
  destruct (Z.testbit c k); rewrite E63; destruct (Z.testbit crc 63); simpl negb; cbn [xorb];
    rewrite ?Z.eqb_refl; simpl negb; cbv iota; rewrite ?crc_reflect_lxor, crc_reflect_shl, ?Z.lxor_0_r; try done.
Qed.

Lemma crc64_bits_reflect c r0 n : forall crc k, 0 <= k -> is_byte c ->
  Z.lxor (crc_reflect crc 64) (Z.shiftr c k) = r0 ->
  Z.lxor (crc_reflect (foldl (crc64_bit c) crc ((fun i => 2 ^ i) <$> seqZ k (Z.of_nat n))) 64) (Z.shiftr c (k + Z.of_nat n)) =
    Nat.iter n shift1 r0.
Proof.
  revert r0. induction n as [|n IH]; intros r0 crc k Hk Hc E.
  - simpl. by rewrite Z.add_0_r.
  - rewrite seqZ_cons by lia. simpl foldl. replace (Z.pred (Z.of_nat (S n))) with (Z.of_nat n) by lia.
    replace (k + Z.of_nat (S n)) with (Z.succ k + Z.of_nat n) by lia.
    rewrite (IH (shift1 r0)); [by rewrite <- Nat.iter_succ_r|lia|done|].
    rewrite crc64_bit_reflect by done. rewrite <- E. unfold shift1.
    rewrite Z.shiftr_lxor, Z.shiftr_shiftr, odd_lxor by lia. rewrite <- (Z.bit0_odd (Z.shiftr c k)), Z.shiftr_spec by lia.
    rewrite Z.add_0_l. change (k + 1) with (Z.succ k).
    rewrite !Z.lxor_assoc. f_equal. apply Z.lxor_comm.
Qed.

Lemma crc64_byte_reflect crc c : 0 <= crc < 2 ^ 64 -> is_byte c ->
  0 <= crc64_byte crc c < 2 ^ 64 /\ crc_reflect (crc64_byte crc c) 64 = upd (crc_reflect crc 64) c.
Proof.
  intros Hr Hc. unfold crc64_byte. change 0xffffffffffffffff with (Z.ones 64). rewrite Z.land_ones by lia.
  set (x := foldl _ _ _). split; [apply Z.mod_pos_bound; lia|].
  assert (crc_reflect (x mod 2 ^ 64) 64 = crc_reflect x 64) as ->.
  { apply bits_eq64; [apply crc_reflect_range..|]. intros i Hi. rewrite !crc_reflect_bits by lia. apply Z.mod_pow2_bits_low. lia. }
  pose proof (crc64_bits_reflect c (Z.lxor (crc_reflect crc 64) c) 8 crc 0 ltac:(lia) Hc) as H.
  rewrite Z.shiftr_0_r in H. specialize (H eq_refl). change (0 + Z.of_nat 8) with 8 in H.
  rewrite Z.shiftr_div_pow2, Z.div_small, Z.lxor_0_r in H by (unfold is_byte in Hc; simpl; lia). exact H.
Qed.

Lemma _crc64_spec crc s : 0 <= crc < 2 ^ 64 -> Forall is_byte s -> _crc64 crc s = crc_of (crc_reflect crc 64) s.
Proof.
  intros Hr Hs. unfold _crc64. rewrite Z.lxor_0_r.
  assert (0 <= foldl crc64_byte crc s < 2 ^ 64 /\ crc_reflect (foldl crc64_byte crc s) 64 = crc_of (crc_reflect crc 64) s) as [Hx E].
  { revert crc Hr. induction Hs as [|c s Hc Hs IH]; intros crc Hr; unfold crc_of in *; cbn [foldl] in *; [split; [exact Hr|reflexivity]|].
    destruct (crc64_byte_reflect crc c Hr Hc) as [Hr' E]. destruct (IH _ Hr') as [Hx Ex]. split; [done|]. by rewrite Ex, E. }
  change 0xffffffffffffffff with (Z.ones 64). rewrite Z.land_ones, Z.mod_small by lia. exact E.
Qed.

Lemma single_byte n : is_byte n -> _crc64 0 [n] = step8 n.
Proof.
  intros Hn. assert (Forall is_byte [n]) as Hb by (by apply Forall_singleton).
  pose proof (_crc64_spec 0 [n] ltac:(lia) Hb) as E. rewrite E.
  change (crc_reflect 0 64) with 0. change (crc_of 0 [n]) with (upd 0 n). unfold upd. by rewrite Z.lxor_0_l.
Qed.

(** ** Tables, slices and byte orders of the CRC

    The tables hold the iterates of [step8] on the single bytes, byte-swapped on a big-endian host,
    and the loops over bytes and words compute [crc_of]. *)

(** ** Cells *)

Definition shape (t : crc_table) : Prop := length t = 8%nat /\ Forall (fun row => length row = 256%nat) t.

Lemma set_cell_ok t k n v : shape t -> 0 <= k < 8 -> is_byte n ->
  exists t', set_cell t k n v = Some t' /\ shape t' /\
    forall k' n', cell t' k' n' = if (k' =? k) && (n' =? n) then Some v else cell t k' n'.
Proof.
  intros [Hl Hrows] Hk Hn. unfold set_cell, is_byte in *. replace (0 <=? k) with true by lia.
  destruct (lookup_lt_is_Some_2 t (Z.to_nat k)) as [row Er]; [lia|]. rewrite Er. cbn [mbind option_bind].
  pose proof (Forall_lookup_1 _ _ _ _ Hrows Er) as Hrow. simpl in Hrow.
  unfold setb. destruct (getb_is_Some row n) as [x Ex]; [unfold zlen; lia|]. rewrite Ex. cbn [mbind option_bind].
  eexists. split; [done|]. split.
  - split; [by rewrite length_insert|]. apply Forall_insert; [done|]. by rewrite length_insert.
  - intros k' n'. unfold cell. destruct (Z.eqb_spec k' k) as [->|Hne]; cbn [andb].
    + replace (0 <=? k) with true by lia. rewrite list_lookup_insert_eq, Er by lia. cbn [mbind option_bind].
      unfold getb. destruct (Z.eqb_spec n' n) as [->|Hn'].
      * replace (0 <=? n) with true by lia. rewrite list_lookup_insert_eq by lia. done.
      * destruct (Z.leb_spec 0 n'); [|done]. rewrite list_lookup_insert_ne by lia. done.
    + destruct (Z.leb_spec 0 k'); [|done]. rewrite list_lookup_insert_ne by lia. done.
Qed.

Lemma for_each_seqZ {S} (f : Z -> S -> option S) (I : Z -> S -> Prop) m : forall a s,
  (forall i s, a <= i < a + Z.of_nat m -> I i s -> exists s', f i s = Some s' /\ I (i + 1) s') -> I a s ->
  exists s', for_each (seqZ a (Z.of_nat m)) f s = Some s' /\ I (a + Z.of_nat m) s'.
Proof.
  induction m as [|m IH]; intros a s Hf HI.
  - exists s. rewrite Z.add_0_r. done.
  - rewrite seqZ_cons by lia. simpl. destruct (Hf a s) as (s1 & -> & H1); [lia|done|]. cbn [mbind option_bind].
    replace (Z.pred (Z.of_nat (Datatypes.S m))) with (Z.of_nat m) by lia.
    destruct (IH (Z.succ a) s1) as (s' & E & H'); [|done|].
    + intros i s2 Hi. apply Hf. lia.
    + exists s'. split; [done|]. by replace (a + Z.of_nat (Datatypes.S m)) with (Z.succ a + Z.of_nat m) by lia.
Qed.

(** ** The little-endian table *)

Definition entry (k : Z) (n : Z) : Z := Nat.iter (Z.to_nat (k + 1)) step8 n.

Definition table_ok (t : crc_table) : Prop :=
  shape t /\ forall k n, 0 <= k < 8 -> is_byte n -> cell t k n = Some (entry k n).

Lemma land_255_byte x : is_byte (Z.land x 0xff).
Proof. rewrite land_255. apply Z.mod_pos_bound. lia. Qed.

Lemma entry_succ k n : 0 <= k -> entry (k + 1) n = step8 (entry k n).
Proof. intros Hk. unfold entry. replace (Z.to_nat (k + 1 + 1)) with (S (Z.to_nat (k + 1))) by lia. done. Qed.

Lemma column_ok n t : is_byte n -> shape t -> (forall m, is_byte m -> cell t 0 m = Some (step8 m)) ->
  exists t', nested_column n t = Some t' /\ shape t' /\
    (forall k m, m <> n -> cell t' k m = cell t k m) /\ (forall k, 0 <= k < 8 -> cell t' k n = Some (entry k n)).
Proof.
  intros Hn Hs H0. unfold nested_column. rewrite H0 by done. cbn [mbind option_bind].
  destruct (for_each_seqZ (nested_cells n) (fun i st => shape st.1 /\ st.2 = entry (i - 1) n /\
    (forall k m, m <> n \/ k = 0 -> cell st.1 k m = cell t k m) /\ (forall k, 0 <= k < i -> cell st.1 k n = Some (entry k n))) 7 1 (t, step8 n))
    as ([t' c] & E & Hs' & _ & Hne & Hk).
  - intros i [u crc] Hi (Hsu & Hc & Hne & Hk). simpl in *. unfold nested_cells.
    rewrite Hne, H0 by (by right || apply land_255_byte). cbn [mbind option_bind].
    rewrite <- step8_split, Hc. replace (step8 (entry (i - 1) n)) with (entry i n) by (rewrite <- entry_succ by lia; f_equal; lia).
    destruct (set_cell_ok u i n (entry i n) Hsu) as (u' & -> & Hsu' & Hcell); [lia|done|]. cbn [mbind option_bind].
    eexists. split; [done|]. simpl. split; [done|]. split; [f_equal; lia|]. split.
    + intros k m Hkm. rewrite Hcell, Hne by done. destruct (Z.eqb_spec k i), (Z.eqb_spec m n); simpl; try done. exfalso. lia.
    + intros k Hki. rewrite Hcell, Z.eqb_refl, andb_true_r. destruct (Z.eqb_spec k i) as [->|]; [done|]. apply Hk. lia.
  - simpl. split; [done|]. split; [done|]. split; [done|]. intros k Hk. assert (k = 0) as -> by lia. by rewrite H0.
  - change (Z.of_nat 7) with 7 in E. rewrite E. cbn [mbind option_bind]. exists t'. split; [done|]. simpl in *.
    split; [done|]. split; [intros; apply Hne; auto|]. intros k Hk8. apply Hk. lia.
Qed.

Lemma little_init_ok t : shape t -> exists t', crcspeed64little_init _crc64 t = Some t' /\ table_ok t'.
Proof.
  intros Hs. unfold crcspeed64little_init.
  destruct (for_each_seqZ (single_bytes _crc64) (fun i t => shape t /\ forall n, 0 <= n < i -> cell t 0 n = Some (step8 n)) 256 0 t)
    as (t1 & E1 & Hs1 & H1).
  - intros i u Hi [Hsu Hu]. unfold single_bytes. assert (is_byte i) as Hb by (unfold is_byte; lia).
    rewrite wrapu_small, single_byte by (done || (unfold is_byte in Hb; simpl; lia)).
    destruct (set_cell_ok u 0 i (step8 i) Hsu) as (u' & -> & Hsu' & Hc); [lia|done|]. exists u'. split; [done|]. split; [done|].
    intros n Hn. rewrite Hc. simpl. destruct (Z.eqb_spec n i) as [->|]; [done|]. apply Hu. lia.
  - split; [done|]. intros. lia.
  - change (Z.of_nat 256) with 256 in *. rewrite E1. cbn [mbind option_bind].
    destruct (for_each_seqZ nested_column (fun i t => shape t /\ (forall n, is_byte n -> cell t 0 n = Some (step8 n)) /\
      forall k n, 0 <= k < 8 -> 0 <= n < i -> cell t k n = Some (entry k n)) 256 0 t1) as (t2 & E2 & Hs2 & H20 & H2).
    + intros i u Hi (Hsu & Hu0 & Hu). destruct (column_ok i u) as (u' & E & Hsu' & Hne & Hcol); [unfold is_byte; lia|done|done|].
      exists u'. split; [done|]. split; [done|]. split.
      * intros n Hn. destruct (Z.eq_dec n i) as [->|]; [by apply Hcol; lia|]. rewrite Hne by done. by apply Hu0.
      * intros k n Hk Hn. destruct (Z.eq_dec n i) as [->|]; [by apply Hcol; lia|]. rewrite Hne by done. apply Hu; lia.
    + split; [done|]. split; [intros; apply H1; unfold is_byte in *; lia|]. intros. lia.
    + exists t2. split; [exact E2|]. split; [done|]. intros k n Hk Hn. apply H2; [done|]. unfold is_byte in Hn. lia.
Qed.

(** ** Slices *)

Lemma iter_step8_lxor n x y : Nat.iter n step8 (Z.lxor x y) = Z.lxor (Nat.iter n step8 x) (Nat.iter n step8 y).
Proof. induction n as [|n IH]; simpl; [done|]. by rewrite IH, step8_lxor. Qed.

Lemma slice_step n x :
  Nat.iter (S n) step8 x = Z.lxor (Nat.iter (S n) step8 (Z.land x 0xff)) (Nat.iter n step8 (Z.shiftr x 8)).
Proof. rewrite (low_byte_split x) at 1. rewrite iter_step8_lxor. f_equal. by rewrite Nat.iter_succ_r, step8_shift. Qed.

(** The eight lookups of a word. *)
Lemma slices x : Nat.iter 8 step8 x =
  Z.lxor (Z.lxor (Z.lxor (Z.lxor (Z.lxor (Z.lxor (Z.lxor
    (entry 7 (Z.land x 0xff)) (entry 6 (Z.land (Z.shiftr x 8) 0xff))) (entry 5 (Z.land (Z.shiftr x 16) 0xff)))
    (entry 4 (Z.land (Z.shiftr x 24) 0xff))) (entry 3 (Z.land (Z.shiftr x 32) 0xff)))
    (entry 2 (Z.land (Z.shiftr x 40) 0xff))) (entry 1 (Z.land (Z.shiftr x 48) 0xff))) (entry 0 (Z.shiftr x 56)).
Proof.
  rewrite (slice_step 7 x), (slice_step 6), (slice_step 5), (slice_step 4), (slice_step 3), (slice_step 2), (slice_step 1).
  rewrite !Z.shiftr_shiftr by lia.
  repeat match goal with |- context [Z.shiftr x (?a + ?b)] => let c := eval vm_compute in (a + b) in change (a + b) with c end.
  change (entry 7) with (Nat.iter 8 step8). change (entry 6) with (Nat.iter 7 step8). change (entry 5) with (Nat.iter 6 step8).
  change (entry 4) with (Nat.iter 5 step8). change (entry 3) with (Nat.iter 4 step8). change (entry 2) with (Nat.iter 3 step8).
  change (entry 1) with (Nat.iter 2 step8). change (entry 0) with (Nat.iter 1 step8). by rewrite !Z.lxor_assoc.
Qed.

(** ** Byte swaps *)

Lemma le_split_lxor n : forall a b, le_split n (Z.lxor a b) = zip_with Z.lxor (le_split n a) (le_split n b).
Proof.
  induction n as [|n IH]; intros a b; [done|].
  change (le_split (S n) (Z.lxor a b)) with (Z.lxor a b mod 256 :: le_split n (Z.lxor a b / 256)).
  change (le_split (S n) a) with (a mod 256 :: le_split n (a / 256)). change (le_split (S n) b) with (b mod 256 :: le_split n (b / 256)).
  simpl. f_equal.
  - rewrite <- !land_255. apply Z.bits_inj_iff'. intros i Hi. rewrite Z.lxor_spec, !Z.land_spec, Z.lxor_spec.
    destruct (Z.testbit 255 i); btauto.
  - rewrite <- IH. f_equal. change 256 with (2 ^ 8). rewrite <- !Z.shiftr_div_pow2 by lia. apply Z.shiftr_lxor.
Qed.

Lemma le_split_rev8 x : le_split 8 (rev8 x) = reverse (le_split 8 x).
Proof.
  unfold rev8. rewrite <- (length_le_split 8 x) at 1. rewrite <- length_reverse. apply le_split_join.
  apply Forall_reverse, le_split_bytes.
Qed.

Lemma rev8_range x : 0 <= rev8 x < 2 ^ 64.
Proof.
  unfold rev8. pose proof (le_join_range (reverse (le_split 8 x))) as H. rewrite zlen_reverse, zlen_le_split in H.
  apply H, Forall_reverse, le_split_bytes.
Qed.

Lemma le_split_inj8 x y : 0 <= x < 2 ^ 64 -> 0 <= y < 2 ^ 64 -> le_split 8 x = le_split 8 y -> x = y.
Proof.
  intros Hx Hy E. apply (f_equal le_join) in E. rewrite !le_join_split in E. change (256 ^ Z.of_nat 8) with (2 ^ 64) in E.
  by rewrite !Z.mod_small in E by done.
Qed.

Lemma rev8_involutive x : 0 <= x < 2 ^ 64 -> rev8 (rev8 x) = x.
Proof. intros Hx. apply le_split_inj8; [apply rev8_range|done|]. by rewrite !le_split_rev8, reverse_involutive. Qed.

Lemma reverse_zip_with (l k : list Z) : length l = length k -> reverse (zip_with Z.lxor l k) = zip_with Z.lxor (reverse l) (reverse k).
Proof.
  revert k. induction l as [|x l IH]; intros [|y k] Hl; simpl in *; try done. injection Hl as Hl.
  rewrite !reverse_cons, IH by done. rewrite zip_with_app by (by rewrite !length_reverse). done.
Qed.

Lemma rev8_lxor a b : rev8 (Z.lxor a b) = Z.lxor (rev8 a) (rev8 b).
Proof.
  apply le_split_inj8; [apply rev8_range|apply lxor_range; [lia|apply rev8_range..]|].
  rewrite le_split_rev8, !le_split_lxor, !le_split_rev8. apply reverse_zip_with. by rewrite !length_le_split.
Qed.

Lemma lookup_le_split n : forall v i, (i < n)%nat -> le_split n v !! i = Some (v / 256 ^ Z.of_nat i mod 256).
Proof.
  induction n as [|n IH]; intros v i Hi; [lia|]. change (le_split (S n) v) with (v mod 256 :: le_split n (v / 256)).
  destruct i as [|i]; simpl; [by rewrite Z.div_1_r|]. rewrite IH by lia.
  do 2 f_equal. pose proof (pow256_succ i) as Hp. simpl Z.of_nat in Hp. rewrite Z.div_div by (lia || apply pow256_pos).
  by rewrite Hp.
Qed.

Lemma byte_at x i : (i < 8)%nat -> le_split 8 x !! i = Some (Z.land (Z.shiftr x (8 * Z.of_nat i)) 0xff).
Proof.
  intros Hi. rewrite lookup_le_split by done. rewrite land_255, Z.shiftr_div_pow2 by lia. by rewrite pow256_pow2.
Qed.

Lemma rev8_byte x i : (i < 8)%nat ->
  Z.land (Z.shiftr (rev8 x) (8 * Z.of_nat i)) 0xff = Z.land (Z.shiftr x (8 * Z.of_nat (7 - i))) 0xff.
Proof.
  intros Hi. apply (inj Some). rewrite <- !byte_at by lia. rewrite le_split_rev8, reverse_lookup by (by rewrite length_le_split).
  rewrite length_le_split. f_equal.
Qed.

Lemma top_byte x : 0 <= x < 2 ^ 64 -> Z.land (Z.shiftr x 56) 0xff = Z.shiftr x 56.
Proof.
  intros Hx. rewrite land_255, Z.mod_small; [done|]. rewrite Z.shiftr_div_pow2 by lia.
  split; [apply Z.div_pos; lia|]. apply Z.div_lt_upper_bound; [lia|]. change (2 ^ 56 * 256) with (2 ^ 64). lia.
Qed.

Lemma rev8_top x : Z.shiftr (rev8 x) 56 = Z.land x 0xff.
Proof.
  rewrite <- top_byte by apply rev8_range. pose proof (rev8_byte x 7 ltac:(lia)) as H.
  change (8 * Z.of_nat 7) with 56 in H. change (8 * Z.of_nat (7 - 7)) with 0 in H. by rewrite Z.shiftr_0_r in H.
Qed.

Lemma rev8_shift x : 0 <= x < 2 ^ 64 -> rev8 (Z.shiftr x 8) = u64 (Z.shiftl (rev8 x) 8).
Proof.
  intros Hx. apply le_split_inj8; [apply rev8_range|apply wrapu_range; lia|].
  unfold wrapu. change (2 ^ 64) with (256 ^ Z.of_nat 8). rewrite le_split_mod, le_split_rev8, Z.shiftl_mul_pow2, Z.shiftr_div_pow2 by lia.
  change (2 ^ 8) with 256.
  assert (le_split 8 (x / 256) = drop 1 (le_split 8 x) ++ [0]) as ->.
  { change (drop 1 (le_split 8 x)) with (le_split 7 (x / 256)).
    apply list_eq. intros i. destruct (Nat.lt_ge_cases i 7).
    - rewrite lookup_app_l, !lookup_le_split by (rewrite ?length_le_split; lia). done.
    - destruct (Nat.eq_dec i 7) as [->|].
      + rewrite lookup_app_r, length_le_split, lookup_le_split by (rewrite ?length_le_split; lia). simpl. f_equal.
        rewrite Z.div_div by lia. rewrite Z.div_small; [done|]. change (256 * _) with (2 ^ 64). done.
      + rewrite !lookup_ge_None_2; [done| |]; rewrite ?length_app, ?length_le_split; simpl; lia. }
  rewrite reverse_app. change (le_split 8 (rev8 x * 256)) with ((rev8 x * 256) mod 256 :: le_split 7 (rev8 x * 256 / 256)).
  rewrite Z.mod_mul, Z.div_mul by lia. cbn [reverse rev_append app]. change (reverse [0]) with [0]. cbn [app]. f_equal.
  apply list_eq. intros i. destruct (Nat.lt_ge_cases i 7).
  - rewrite (lookup_le_split 7) by lia. rewrite <- (lookup_le_split 8) by lia. rewrite le_split_rev8.
    change (drop 1 (le_split 8 x)) with (le_split 7 (x / 256)).
    change (le_split 8 x) with (x mod 256 :: le_split 7 (x / 256)). rewrite reverse_cons, lookup_app_l; [done|].
    rewrite length_reverse, length_le_split. lia.
  - rewrite !lookup_ge_None_2; [done| |]; rewrite ?length_reverse, ?length_drop, ?length_le_split; lia.
Qed.

(** ** The loops of the CRC, on both hosts *)

(** ** The big-endian table *)

Definition big_table_ok (t : crc_table) : Prop :=
  forall k n, 0 <= k < 8 -> is_byte n -> cell t k n = Some (rev8 (entry k n)).

Lemma rev_row_ok k t : 0 <= k < 8 -> shape t -> (forall n, is_byte n -> cell t k n = Some (entry k n)) ->
  exists t', for_each (seqZ 0 256) (rev_cell k) t = Some t' /\ shape t' /\
    (forall k' n, k' <> k -> cell t' k' n = cell t k' n) /\ forall n, is_byte n -> cell t' k n = Some (rev8 (entry k n)).
Proof.
  intros Hk Hs Ht.
  destruct (for_each_seqZ (rev_cell k) (fun i u => shape u /\ (forall k' n, k' <> k -> cell u k' n = cell t k' n) /\
    forall n, is_byte n -> cell u k n = Some (if n <? i then rev8 (entry k n) else entry k n)) 256 0 t) as (t' & E & Hs' & Hne & Hc).
  - intros i u Hi (Hsu & Hne & Hc). unfold rev_cell. assert (is_byte i) as Hb by (unfold is_byte; lia).
    rewrite Hc by done. cbn [mbind option_bind]. rewrite Z.ltb_irrefl.
    destruct (set_cell_ok u k i (rev8 (entry k i)) Hsu Hk Hb) as (u' & -> & Hsu' & Hcell). exists u'. split; [done|]. split; [done|]. split.
    + intros k' n Hk'. rewrite Hcell, Hne by done. by replace (k' =? k) with false by lia.
    + intros n Hn. rewrite Hcell, Z.eqb_refl. cbn [andb]. destruct (Z.eqb_spec n i) as [->|].
      * by replace (i <? i + 1) with true by lia.
      * rewrite Hc by done. do 2 f_equal. destruct (Z.ltb_spec n i), (Z.ltb_spec n (i + 1)); (done || lia).
  - split; [done|]. split; [done|]. intros n Hn. rewrite Ht by done. unfold is_byte in Hn. by replace (n <? 0) with false by lia.
  - exists t'. split; [exact E|]. split; [done|]. split; [done|]. intros n Hn. rewrite Hc by done. unfold is_byte in Hn.
    change (0 + Z.of_nat 256) with 256. by replace (n <? 256) with true by lia.
Qed.

Lemma big_init_ok t : shape t -> exists t', crcspeed64big_init _crc64 t = Some t' /\ big_table_ok t'.
Proof.
  intros Hs. unfold crcspeed64big_init. destruct (little_init_ok t Hs) as (t1 & -> & Hs1 & H1). cbn [mbind option_bind].
  destruct (for_each_seqZ (fun k t => for_each (seqZ 0 256) (rev_cell k) t) (fun i u => shape u /\
    forall k n, 0 <= k < 8 -> is_byte n -> cell u k n = Some (if k <? i then rev8 (entry k n) else entry k n)) 8 0 t1) as (t' & E & _ & Hc).
  - intros i u Hi [Hsu Hc].
    destruct (rev_row_ok i u) as (u' & E & Hsu' & Hne & Hrow); [lia|done| |].
    { intros n Hn. rewrite Hc by (lia || done). by rewrite Z.ltb_irrefl. }
    exists u'. split; [done|]. split; [done|]. intros k n Hk Hn. destruct (Z.eq_dec k i) as [->|].
    + rewrite Hrow by done. by replace (i <? i + 1) with true by lia.
    + rewrite Hne, Hc by done. do 2 f_equal. destruct (Z.ltb_spec k i), (Z.ltb_spec k (i + 1)); (done || lia).
  - split; [done|]. intros k n Hk Hn. rewrite H1 by done. by replace (k <? 0) with false by lia.
  - exists t'. split; [exact E|]. intros k n Hk Hn. rewrite Hc by done. change (0 + Z.of_nat 8) with 8. by replace (k <? 8) with true by lia.
Qed.

(** ** One byte, one word *)

(** The register as the host keeps it. *)
Definition held (be : bool) (r : Z) : Z := if be then rev8 r else r.

Definition host_table_ok (be : bool) (t : crc_table) : Prop :=
  forall k n, 0 <= k < 8 -> is_byte n -> cell t k n = Some (held be (entry k n)).

Definition crc_byte (be : bool) := if be then big_byte else little_byte.
Definition crc_word (be : bool) := if be then big_word else little_word.

Lemma lxor_byte_land r b : is_byte b -> Z.lxor (Z.land r 0xff) b = Z.land (Z.lxor r b) 0xff.
Proof.
  intros Hb. rewrite <- (Z.mod_small b 256) at 1 by done. rewrite <- land_255.
  apply Z.bits_inj_iff'. intros i Hi. rewrite Z.lxor_spec, !Z.land_spec, Z.lxor_spec. btauto.
Qed.

Lemma upd_table r b : upd r b = Z.lxor (entry 0 (Z.land (Z.lxor r b) 0xff)) (Z.shiftr (Z.lxor r b) 8).
Proof. unfold upd. rewrite step8_split. done. Qed.

Lemma byte_shiftr_8 b : is_byte b -> Z.shiftr b 8 = 0.
Proof. intros Hb. rewrite Z.shiftr_div_pow2 by lia. by apply Z.div_small. Qed.

Section host.
  Context (be : bool) (t : crc_table) (Ht : host_table_ok be t) (buf : list Z).

Lemma crc_byte_ok pre b post r : buf = pre ++ b :: post -> is_byte b -> 0 <= r < 2 ^ 64 ->
  crc_byte be t buf (held be r) (zlen pre) = Some (held be (upd r b)).
Proof.
  intros Hbuf Hb Hr. rewrite upd_table, Z.shiftr_lxor, (byte_shiftr_8 b), Z.lxor_0_r by done.
  destruct be; unfold crc_byte, held in *; unfold big_byte, little_byte; rewrite Hbuf, getb_mid by done; cbn [mbind option_bind].
  - rewrite rev8_top, lxor_byte_land by done. rewrite (Ht 0) by (lia || apply land_255_byte). cbn [mbind option_bind].
    by rewrite rev8_lxor, rev8_shift.
  - rewrite (Ht 0) by (lia || apply land_255_byte). done.
Qed.

Lemma crc_word_ok pre w post r : buf = pre ++ w ++ post -> Forall is_byte w -> length w = 8%nat -> 0 <= r < 2 ^ 64 ->
  crc_word be t buf (held be r) (zlen pre) = Some (held be (crc_of r w)).
Proof.
  intros Hbuf Hw Hl Hr. rewrite crc_of_join, Hl by done.
  assert (0 <= le_join w < 2 ^ 64) as Hj by (pose proof (le_join_range w Hw) as H; unfold zlen in H; by rewrite Hl in H).
  set (x := Z.lxor r (le_join w)). assert (0 <= x < 2 ^ 64) as Hx by (by apply lxor_range).
  assert (mem_read buf (zlen pre) 8 = Some w) as Em by (rewrite Hbuf; apply mem_read_mid; [done|unfold zlen; lia]).
  assert (is_byte (Z.shiftr x 56)) as Htop by (rewrite <- top_byte by done; apply land_255_byte).
  rewrite slices. destruct be; unfold crc_word, held in *; unfold big_word, little_word; rewrite Em; cbn [mbind option_bind].
  - assert (host_load true w = rev8 (le_join w)) as ->.
    { unfold host_load, rev8. rewrite <- Hl, le_split_join by done. done. }
    rewrite <- rev8_lxor. fold x.
    pose proof (rev8_byte x 0 ltac:(lia)) as B0. pose proof (rev8_byte x 1 ltac:(lia)) as B1. pose proof (rev8_byte x 2 ltac:(lia)) as B2.
    pose proof (rev8_byte x 3 ltac:(lia)) as B3. pose proof (rev8_byte x 4 ltac:(lia)) as B4. pose proof (rev8_byte x 5 ltac:(lia)) as B5.
    pose proof (rev8_byte x 6 ltac:(lia)) as B6.
    repeat match goal with H : context [8 * Z.of_nat ?n] |- _ =>
      let c := eval vm_compute in (8 * Z.of_nat n) in change (8 * Z.of_nat n) with c in H end.
    rewrite Z.shiftr_0_r in B0.
    rewrite B0, B1, B2, B3, B4, B5, B6, rev8_top, top_byte by done.
    rewrite (Ht 0), (Ht 1), (Ht 2), (Ht 3), (Ht 4), (Ht 5), (Ht 6), (Ht 7) by (lia || done || apply land_255_byte).
    cbn [mbind option_bind]. rewrite <- !rev8_lxor. do 2 f_equal. apply Z.bits_inj_iff'. intros i Hi. rewrite !Z.lxor_spec. btauto.
  - change (host_load false w) with (le_join w). fold x.
    rewrite (Ht 0), (Ht 1), (Ht 2), (Ht 3), (Ht 4), (Ht 5), (Ht 6), (Ht 7) by (lia || done || apply land_255_byte). done.
Qed.

(** ** The loops *)

Context (Hbuf : Forall is_byte buf) (addr r : Z) (Hr : 0 <= r < 2 ^ 64).

(** [next] bytes are in the register. *)
Definition consumed (st : Z * Z) : Prop :=
  exists pre post, buf = pre ++ post /\ st = (held be (crc_of r pre), zlen pre).

Lemma consume_byte crc next : consumed (crc, next) -> zlen buf - next <> 0 ->
  exists crc', crc_byte be t buf crc next = Some crc' /\ consumed (crc', next + 1) /\ next < zlen buf.
Proof.
  intros (pre & post & E & [= -> ->]) Hn. destruct post as [|b post].
  { exfalso. rewrite E, app_nil_r in Hn. lia. }
  pose proof Hbuf as Hb. rewrite E in Hb. apply Forall_app in Hb as [Hp Hb]. apply Forall_cons in Hb as [Hb _].
  eexists. split; [apply (crc_byte_ok pre b post); [done|done|by apply crc_of_range]|]. split; [|rewrite E; len_lia].
  exists (pre ++ [b]), post. rewrite crc_of_app, zlen_app, <- app_assoc. done.
Qed.

Lemma consume_word crc next : consumed (crc, next) -> zlen buf - next >= 8 ->
  exists crc', crc_word be t buf crc next = Some crc' /\ consumed (crc', next + 8).
Proof.
  intros (pre & post & E & [= -> ->]) Hn. rewrite E, zlen_app in Hn.
  pose proof Hbuf as Hb. rewrite E in Hb. apply Forall_app in Hb as [Hp Hb]. rewrite <- (take_drop 8 post) in Hb.
  apply Forall_app in Hb as [Hw _].
  assert (length (take 8 post) = 8%nat) as Hl by (rewrite length_take; unfold zlen in Hn; lia).
  eexists. split; [apply (crc_word_ok pre (take 8 post) (drop 8 post)); [by rewrite take_drop|done|done|by apply crc_of_range]|].
  exists (pre ++ take 8 post), (drop 8 post). rewrite crc_of_app, zlen_app, <- app_assoc, take_drop.
  split; [done|]. do 2 f_equal. unfold zlen. by rewrite Hl.
Qed.

Lemma crc_loops_ok :
  crc_loops addr buf (crc_byte be t buf) (crc_word be t buf) (held be r) = Some (held be (crc_of r buf)).
Proof.
  unfold crc_loops.
  assert (forall crc next, consumed (crc, next) -> 0 <= next <= zlen buf) as Hnext.
  { intros crc next (pre & post & -> & [= _ ->]). len_lia. }
  destruct (loop_ok (align_body addr buf (crc_byte be t buf)) consumed consumed (fun st => (- (addr + st.2)) mod 8))
    with (fuel := 8%nat) (s := (held be r, 0)) as ([crc1 n1] & -> & H1).
  { intros [crc next] Hc. simpl. split; [apply Z.mod_pos_bound; lia|]. unfold align_body.
    destruct (Z.eqb_spec (zlen buf - next) 0); [right; by eexists|]. cbn [negb andb].
    change 7 with (Z.ones 3). rewrite Z.land_ones by lia. change (2 ^ 3) with 8.
    destruct (Z.eqb_spec ((addr + next) mod 8) 0); [right; by eexists|]. cbn [negb]. left.
    destruct (consume_byte crc next Hc) as (crc' & -> & Hc' & Hlt); [done|]. cbn [mbind option_bind].
    eexists. split; [done|]. split; [done|]. simpl. clear Hnext. div_lia. }
  { exists [], buf. done. }
  { simpl. pose proof (Z.mod_pos_bound (- (addr + 0)) 8). lia. }
  cbn [mbind option_bind].
  destruct (loop_ok (words_body buf (crc_word be t buf)) consumed (fun st => consumed st /\ zlen buf - st.2 < 8) (fun st => zlen buf - st.2))
    with (fuel := S (length buf)) (s := (crc1, n1)) as ([crc2 n2] & -> & H2 & Hlt2).
  { intros [crc next] Hc. simpl. pose proof (Hnext _ _ Hc). split; [lia|]. unfold words_body.
    destruct (Z.geb_spec (zlen buf - next) 8); [left|right; eexists; split; [done|]; split; [done|simpl; lia]].
    destruct (consume_word crc next Hc) as (crc' & -> & Hc'); [lia|]. cbn [mbind option_bind].
    eexists. split; [done|]. split; [done|]. simpl. lia. }
  { done. }
  { pose proof (Hnext _ _ H1). simpl. unfold zlen in *. lia. }
  cbn [mbind option_bind]. simpl in Hlt2.
  destruct (loop_ok (rest_body buf (crc_byte be t buf)) consumed (fun c => c = held be (crc_of r buf)) (fun st => zlen buf - st.2))
    with (fuel := 9%nat) (s := (crc2, n2)) as (c & -> & ->); [|done|simpl; lia|done].
  intros [crc next] Hc. simpl. pose proof (Hnext _ _ Hc). split; [lia|]. unfold rest_body.
  destruct (Z.eqb_spec (zlen buf - next) 0) as [E0|E0]; cbn [negb].
  - right. eexists. split; [done|]. destruct Hc as (pre & post & E & [= -> ->]). rewrite E, zlen_app in E0.
    destruct post; [by rewrite E, app_nil_r|]. exfalso. rewrite zlen_cons in E0. zlen_saturate. lia.
  - left. destruct (consume_byte crc next Hc E0) as (crc' & -> & Hc' & Hlt). cbn [mbind option_bind].
    eexists. split; [done|]. split; [done|]. simpl. lia.
Qed.
End host.

(** ** The checksum *)

Lemma crc64_init_ok be : exists t, crc64_init be = Some t /\ host_table_ok be t.
Proof.
  assert (shape crc64_table) as Hs by (split; [done|]; by apply Forall_replicate).
  unfold crc64_init, crcspeed64native_init. destruct be; cbn [negb].
  - destruct (big_init_ok _ Hs) as (t & -> & Ht). by exists t.
  - destruct (little_init_ok _ Hs) as (t & -> & _ & Ht). by exists t.
Qed.

Lemma crc64_ok be t crc addr s : host_table_ok be t -> Forall is_byte s -> 0 <= crc < 2 ^ 64 ->
  crc64 be t crc addr s = Some (crc_of crc s).
Proof.
  intros Ht Hs Hr. unfold crc64, crcspeed64native. pose proof (crc_loops_ok be t Ht s Hs addr crc Hr) as E. destruct be; cbn [negb].
  - unfold crcspeed64big. change (crc_byte true t s) with (big_byte t s) in E. change (crc_word true t s) with (big_word t s) in E.
    change (held true crc) with (rev8 crc) in E. rewrite E. cbn [mbind option_bind]. unfold held.
    rewrite rev8_involutive by (by apply crc_of_range). done.
  - exact E.
Qed.
