(* ===== verification/Dump.v ===== *)
(** * DUMP payloads: [cluster.c]

    A payload is a serialised value, the RDB version and a checksum.  The value is written by the
    function that is passed in, which stands for [rdbSaveObjectType] followed by [rdbSaveObject];
    [dump_string] is the one for string objects. *)
From S2P Require Import Prelude Endian Numstr Lzf Rio BitCmd Rdb Crc.

Definition RDB_VERSION : Z := 12.
Definition RDB_TYPE_STRING : Z := 0.

Section dump.
  Context {E : RdbEnv} {A : Allocator} (table : crc_table).

(** [serverAssert(rdbSaveObjectType(payload,o)); serverAssert(rdbSaveObject(payload,o,key,dbid));] for a string object. *)
Definition dump_string (v : stringval) (r : rio riobuf) : option (rio riobuf) :=
  '(rdb, n) ← rdbSaveType (Some r) RDB_TYPE_STRING;
  _ ← assert_true (negb (n =? 0));
  '(rdb, n) ← rdbSaveStringObject rdb v;
  _ ← assert_true (negb (n =? 0));
  rdb.

(** The payload; [addr] is where the allocator has put it. *)
Definition createDumpPayload (save : rio riobuf -> option (rio riobuf)) (addr : Z) : option (list Z) :=
  payload ← save (rioInitWithBuffer []);
  let buf := [Z.land RDB_VERSION 0xff; Z.land (Z.shiftr RDB_VERSION 8) 0xff] in
  let p := ptr (io payload) ++ buf in
  crc ← crc64 big_endian table 0 addr p;
  crc ← memrev64ifbe big_endian (host_store big_endian 8 crc) 0;
  Some (p ++ crc).

(** [C_OK] is [true]; the second component is [*rdbver_ptr] when it is set. *)
Definition verifyDumpPayload (skip_checksum_validation : bool) (addr : Z) (p : list Z) : option (bool * option Z) :=
  let len := zlen p in
  if len <? 10 then Some (false, None)
  else
    let footer := len - 10 in
    f1 ← getb p (footer + 1); f0 ← getb p footer;
    let rdbver := u16 (Z.lor (Z.shiftl f1 8) f0) in
    if rdbver >? RDB_VERSION then Some (false, Some rdbver)
    else if skip_checksum_validation then Some (true, Some rdbver)
    else
      bs ← mem_read p 0 (len - 8);
      crc ← crc64 big_endian table 0 addr bs;
      crc ← memrev64ifbe big_endian (host_store big_endian 8 crc) 0;
      f ← mem_read p (footer + 2) 8;
      Some (bool_decide (crc = f), Some rdbver).
End dump.
