(* ===== verification/CrcProps.v ===== *)
(** * Checksums, slots and payloads: what they guarantee *)
From stdpp Require Import strings.
From Stdlib Require Import Btauto.
From S2P Require Import Prelude Endian Numstr NumstrFacts NumstrProps BitVec Lzf LzfCompress Rio BitCmd BitCmdFacts Split Rdb RdbFacts RdbProps Crc CrcFacts Dump.

(** ** Error detection *)

Lemma shift1_zero z : 0 <= z < 2 ^ 64 -> shift1 z = 0 -> z = 0.
Proof.
  intros Hz E. unfold shift1 in E. apply Z.lxor_eq in E. rewrite Z.shiftr_div_pow2 in E by lia. change (2 ^ 1) with 2 in E.
  destruct (Z.odd z) eqn:Eo; unfold POLYR in E; [exfalso; div_lia|].
  rewrite <- Z.negb_even in Eo. apply negb_false_iff, Z.even_spec in Eo as [q ->]. rewrite Z.mul_comm, Z.div_mul in E by lia. lia.
Qed.

Lemma shift1_inj x y : 0 <= x < 2 ^ 64 -> 0 <= y < 2 ^ 64 -> shift1 x = shift1 y -> x = y.
Proof.
  intros Hx Hy E. apply Z.lxor_eq. apply shift1_zero; [by apply lxor_range|]. by rewrite shift1_lxor, E, Z.lxor_nilpotent.
Qed.

Lemma step8_inj x y : 0 <= x < 2 ^ 64 -> 0 <= y < 2 ^ 64 -> step8 x = step8 y -> x = y.
Proof.
  unfold step8. generalize 8%nat as n. intros n Hx Hy. induction n as [|n IH]; simpl; [done|]. intros E. apply IH.
  assert (forall z, 0 <= z < 2 ^ 64 -> 0 <= Nat.iter n shift1 z < 2 ^ 64) as Hr.
  { clear. intros z Hz. induction n as [|n IH]; simpl; [done|]. by apply shift1_range. }
  apply shift1_inj; auto.
Qed.

Lemma iter_step8_inj n x y : 0 <= x < 2 ^ 64 -> 0 <= y < 2 ^ 64 -> Nat.iter n step8 x = Nat.iter n step8 y -> x = y.
Proof.
  intros Hx Hy. induction n as [|n IH]; simpl; [done|]. intros E. apply IH.
  assert (forall z, 0 <= z < 2 ^ 64 -> 0 <= Nat.iter n step8 z < 2 ^ 64) as Hr.
  { clear. intros z Hz. induction n as [|n IH]; simpl; [done|]. by apply step8_range. }
  apply step8_inj; auto.
Qed.

Lemma upd_inj r r' c : 0 <= r < 2 ^ 64 -> 0 <= r' < 2 ^ 64 -> is_byte c -> upd r c = upd r' c -> r = r'.
Proof.
  intros Hr Hr' Hc E. rewrite !upd_eq in E. apply byte_range64 in Hc. apply step8_inj in E; [|apply lxor_range; (done || lia)..].
  apply (f_equal (fun z => Z.lxor z c)) in E. by rewrite !Z.lxor_assoc, Z.lxor_nilpotent, !Z.lxor_0_r in E.
Qed.

Lemma crc_of_inj s : Forall is_byte s -> forall r r', 0 <= r < 2 ^ 64 -> 0 <= r' < 2 ^ 64 -> crc_of r s = crc_of r' s -> r = r'.
Proof.
  induction 1 as [|c s Hc Hs IH]; intros r r' Hr Hr' E; [done|]. eapply upd_inj; [done|done|exact Hc|].
  apply IH; [by apply upd_range..|exact E].
Qed.

(** Two texts that differ inside a window of at most eight bytes have different checksums. *)
Lemma crc_of_burst r a w w' b : 0 <= r < 2 ^ 64 -> Forall is_byte a -> Forall is_byte w -> Forall is_byte w' -> Forall is_byte b ->
  length w = length w' -> (length w <= 8)%nat -> crc_of r (a ++ w ++ b) = crc_of r (a ++ w' ++ b) -> w = w'.
Proof.
  intros Hr Ha Hw Hw' Hb Hl H8 E. rewrite !crc_of_app in E. pose proof (crc_of_range a r Hr Ha) as Hra.
  apply crc_of_inj in E; [|done|by apply crc_of_range..]. rewrite (crc_of_join w), (crc_of_join w'), Hl in E by done.
  assert (forall v, Forall is_byte v -> (length v <= 8)%nat -> 0 <= le_join v < 2 ^ 64) as Hj.
  { intros v Hv Hlv. pose proof (le_join_range v Hv) as [? Hlt]. split; [done|]. eapply Z.lt_le_trans; [exact Hlt|].
    change (2 ^ 64) with (256 ^ 8). apply Z.pow_le_mono_r; [lia|]. unfold zlen. lia. }
  apply iter_step8_inj in E; [|apply lxor_range; [lia|done|apply Hj; (done || lia)]..].
  apply (f_equal (fun z => Z.lxor (crc_of r a) z)) in E. rewrite <- !Z.lxor_assoc, Z.lxor_nilpotent, !Z.lxor_0_l in E.
  rewrite <- (le_split_join w), <- (le_split_join w'), E, Hl by done. done.
Qed.

(** ** CRC16 and slots *)

Definition crc16_shift (x : Z) : Z := Z.lxor (Z.land (Z.shiftl x 1) 0xFFFF) (if Z.testbit x 15 then 0x1021 else 0).

(** The checksum bit by bit, most significant bit first. *)
Definition crc16_step (r b : Z) : Z := Nat.iter 8 crc16_shift (Z.lxor r (Z.shiftl b 8)).
Definition crc16_ref (s : list Z) : Z := foldl crc16_step 0 s.

Lemma crc16_shift_lxor x y : crc16_shift (Z.lxor x y) = Z.lxor (crc16_shift x) (crc16_shift y).
Proof.
  unfold crc16_shift. rewrite Z.lxor_spec, lxor_mid. f_equal.
  - apply Z.bits_inj_iff'. intros i Hi. rewrite Z.lxor_spec, !Z.land_spec, Z.shiftl_lxor, Z.lxor_spec. btauto.
  - destruct (Z.testbit x 15), (Z.testbit y 15); cbn [xorb]; by rewrite ?Z.lxor_0_l, ?Z.lxor_0_r, ?Z.lxor_nilpotent.
Qed.

Lemma crc16_iter_lxor n x y : Nat.iter n crc16_shift (Z.lxor x y) = Z.lxor (Nat.iter n crc16_shift x) (Nat.iter n crc16_shift y).
Proof. induction n as [|n IH]; simpl; [done|]. by rewrite IH, crc16_shift_lxor. Qed.

(** A low byte is shifted up; the table holds the shifted high bytes. *)
Lemma crc16_table_ok n : is_byte n -> Nat.iter 8 crc16_shift n = Z.shiftl n 8 /\
  getb crc16tab n = Some (Nat.iter 8 crc16_shift (Z.shiftl n 8)) /\ 0 <= Nat.iter 8 crc16_shift (Z.shiftl n 8) < 2 ^ 16.
Proof.
  intros Hn. assert (forallb (fun n => (Nat.iter 8 crc16_shift n =? Z.shiftl n 8) &&
    bool_decide (getb crc16tab n = Some (Nat.iter 8 crc16_shift (Z.shiftl n 8))) &&
    (0 <=? Nat.iter 8 crc16_shift (Z.shiftl n 8)) && (Nat.iter 8 crc16_shift (Z.shiftl n 8) <? 2 ^ 16)) (seqZ 0 256) = true)
    as Hall by (vm_compute; reflexivity).
  apply (forallb_range _ _ n Hall) in Hn. rewrite !andb_true_iff in Hn. destruct Hn as [[[H1 H2] H3] H4].
  apply Z.eqb_eq in H1. apply bool_decide_eq_true_1 in H2. apply Z.leb_le in H3. apply Z.ltb_lt in H4. exact (conj H1 (conj H2 (conj H3 H4))).
Qed.

Lemma crc16_byte_ok r b : 0 <= r < 2 ^ 16 -> is_byte b ->
  crc16_byte r b = Some (crc16_step r b) /\ 0 <= crc16_step r b < 2 ^ 16.
Proof.
  intros Hr Hb. unfold crc16_step.
  assert (is_byte (Z.shiftr r 8)) as Hs.
  { rewrite Z.shiftr_div_pow2 by lia. split; [apply Z.div_pos; lia|]. apply Z.div_lt_upper_bound; [lia|]. change (2 ^ 8 * 256) with (2 ^ 16). lia. }
  assert (is_byte (Z.lxor (Z.shiftr r 8) b)) as Hh by (apply (lxor_range 8); [lia|exact Hs|exact Hb]).
  pose proof (land_255_byte r) as Hl.
  destruct (crc16_table_ok _ Hh) as (_ & Et & Hrange). destruct (crc16_table_ok _ Hl) as (El & _ & _).
  assert (Z.land (Z.lxor (Z.shiftr r 8) (wraps 8 b)) 0x00FF = Z.lxor (Z.shiftr r 8) b) as Ei.
  { rewrite land_255. rewrite <- (Z.mod_small (Z.lxor (Z.shiftr r 8) b) 256) by exact Hh.
    rewrite <- !land_255. apply Z.bits_inj_iff'. intros i Hi. rewrite !Z.land_spec, !Z.lxor_spec. change 255 with (Z.ones 8).
    destruct (Z.lt_ge_cases i 8); [|rewrite Z.ones_spec_high by lia; by rewrite !andb_false_r]. f_equal. f_equal.
    pose proof (wrapu_wraps 8 b ltac:(lia)) as Ew. unfold wrapu in Ew. apply (f_equal (fun z => Z.testbit z i)) in Ew.
    by rewrite !Z.mod_pow2_bits_low in Ew by lia. }
  assert (Z.lxor r (Z.shiftl b 8) = Z.lxor (Z.land r 255) (Z.shiftl (Z.lxor (Z.shiftr r 8) b) 8)) as Ex.
  { rewrite (low_byte_split r) at 1. rewrite Z.shiftl_lxor, <- Z.lxor_assoc. f_equal. f_equal.
    rewrite Z.shiftl_mul_pow2 by lia. change (2 ^ 8) with 256. lia. }
  unfold crc16_byte. rewrite Ei, Et. cbn [mbind option_bind]. rewrite Ex, crc16_iter_lxor, El.
  set (v := Nat.iter 8 crc16_shift (Z.shiftl (Z.lxor (Z.shiftr r 8) b) 8)) in *. clearbody v. unfold is_byte in *. split.
  - f_equal. unfold wrapu. rewrite land_255. rewrite !Z.shiftl_mul_pow2 by lia. apply Z.bits_inj_iff'. intros i Hi.
    rewrite Z.lxor_spec. destruct (Z.lt_ge_cases i 16).
    + rewrite Z.mod_pow2_bits_low, Z.lxor_spec by lia. f_equal. destruct (Z.lt_ge_cases i 8).
      * by rewrite !Z.mul_pow2_bits_low by lia.
      * rewrite !Z.mul_pow2_bits by lia. change 256 with (2 ^ 8). by rewrite Z.mod_pow2_bits_low by lia.
    + rewrite Z.mod_pow2_bits_high, (testbit_above v 16), (testbit_above (r mod 256 * 2 ^ 8) 16); [done| | |done|lia|lia]; [|lia].
      pose proof (Z.mod_pos_bound r 256). change (2 ^ 8) with 256. change (2 ^ 16) with 65536. lia.
  - apply lxor_range; [lia| |done]. rewrite Z.shiftl_mul_pow2 by lia. change (2 ^ 8) with 256. change (2 ^ 16) with 65536. lia.
Qed.

Lemma crc16_loop_ok s : Forall is_byte s -> forall r, 0 <= r < 2 ^ 16 ->
  crc16_loop r s = Some (foldl crc16_step r s) /\ 0 <= foldl crc16_step r s < 2 ^ 16.
Proof.
  induction 1 as [|b s Hb Hs IH]; intros r Hr; cbn [crc16_loop foldl]; [exact (conj eq_refl Hr)|].
  destruct (crc16_byte_ok r b Hr Hb) as [-> Hr']. cbn [mbind option_bind]. apply IH. exact Hr'.
Qed.

Lemma crc16_ok s : Forall is_byte s -> crc16 s = Some (crc16_ref s) /\ 0 <= crc16_ref s < 2 ^ 16.
Proof. intros Hs. apply (crc16_loop_ok s Hs 0). lia. Qed.

Lemma find_byte_spec key c i : 0 <= i <= zlen key ->
  exists j, find_byte key c i = Some j /\ i <= j <= zlen key /\ (forall k, i <= k < j -> getb key k <> Some c) /\
    (j = zlen key \/ getb key j = Some c).
Proof.
  intros Hi. unfold find_byte.
  apply (loop_ok (find_body key c) (fun k => i <= k <= zlen key /\ forall l, i <= l < k -> getb key l <> Some c)
    (fun j => i <= j <= zlen key /\ (forall k, i <= k < j -> getb key k <> Some c) /\ (j = zlen key \/ getb key j = Some c))
    (fun k => zlen key - k)).
  - intros k [Hk Hne]. split; [lia|]. unfold find_body. destruct (Z.ltb_spec k (zlen key)).
    + destruct (getb_is_Some key k) as [b Eb]; [lia|]. rewrite Eb. cbn [mbind option_bind]. destruct (Z.eqb_spec b c) as [->|Hb].
      * right. exists k. split; [done|]. split; [lia|]. split; [done|by right].
      * left. exists (k + 1). split; [done|]. split; [|lia]. split; [lia|]. intros l Hl.
        destruct (Z.eq_dec l k) as [->|]; [congruence|]. apply Hne. lia.
    + right. exists k. split; [done|]. split; [lia|]. split; [done|]. left. lia.
  - split; [lia|]. intros. lia.
  - unfold zlen in *. lia.
Qed.

(** The place of a byte that does not occur before. *)
Lemma find_byte_at a c b key i : key = a ++ c :: b -> 0 <= i <= zlen a -> (forall k, i <= k < zlen a -> getb key k <> Some c) ->
  find_byte key c i = Some (zlen a).
Proof.
  intros E Hi Hne. destruct (find_byte_spec key c i) as (j & -> & Hj & Hlt & Hend); [rewrite E; len_lia|]. f_equal.
  assert (getb key (zlen a) = Some c) as Ea by (rewrite E; by apply getb_mid).
  destruct (Z.lt_trichotomy j (zlen a)) as [Hl|[->|Hg]]; [|done|].
  - exfalso. destruct Hend as [->|Hend]; [rewrite E in Hl; len_lia|]. apply (Hne j); [lia|done].
  - exfalso. apply (Hlt (zlen a)); [lia|done].
Qed.

Lemma getb_not_in l k c : c ∉ l -> getb l k <> Some c.
Proof. intros Hc E. unfold getb in E. destruct (0 <=? k); [|done]. apply list_elem_of_lookup_2 in E. done. Qed.

Definition slot_ref (bs : list Z) : Z := crc16_ref bs mod 16384.

Lemma slot_of_ok bs : Forall is_byte bs -> slot_of bs = Some (slot_ref bs).
Proof.
  intros Hb. unfold slot_of. destruct (crc16_ok bs Hb) as [-> _]. cbn [mbind option_bind]. f_equal.
  change 0x3FFF with (Z.ones 14). by rewrite Z.land_ones by lia.
Qed.

(** The key has a hash tag [t]: the text between its first opening brace and the next closing one. *)
Definition tagged (key t : list Z) : Prop :=
  exists a b, key = a ++ [123] ++ t ++ [125] ++ b /\ 123 ∉ a /\ 125 ∉ t /\ t <> [].

Lemma slot_tagged key t : Forall is_byte key -> tagged key t -> keyHashSlot key = Some (slot_ref t).
Proof.
  intros Hb (a & b & E & Ha & Ht & Hne). unfold keyHashSlot.
  rewrite (find_byte_at a 123 (t ++ [125] ++ b) key 0);
    [|done|zlen_saturate; lia|intros k Hk; rewrite E, getb_app_l by lia; by apply getb_not_in].
  cbn [mbind option_bind]. pose proof (zlen_nonneg b). assert (0 < zlen t) by (destruct t; [done|len_lia]).
  assert (zlen key = zlen a + 1 + zlen t + 1 + zlen b) as Hz by (rewrite E; len_lia).
  replace (zlen a =? zlen key) with false by lia.
  replace (zlen a + 1) with (zlen (a ++ [123])) by len_lia.
  rewrite (find_byte_at (a ++ [123] ++ t) 125 b key).
  - rewrite !zlen_app. change (zlen [123]) with 1. cbn [mbind option_bind].
    replace (_ || _) with false by lia. rewrite E.
    rewrite app_assoc, mem_read_mid by (rewrite ?zlen_app; change (zlen [123]) with 1; lia). cbn [mbind option_bind].
    apply slot_of_ok. rewrite E, !Forall_app in Hb. by destruct Hb as (_ & _ & ? & _).
  - by rewrite E, <- !app_assoc.
  - len_lia.
  - intros k Hk. rewrite E, app_assoc. replace k with (zlen (a ++ [123]) + (k - zlen (a ++ [123]))) by lia.
    rewrite getb_app_r, getb_app_l by len_lia. by apply getb_not_in.
Qed.

Lemma getb_split l k c : getb l k = Some c -> exists a b, l = a ++ c :: b /\ k = zlen a.
Proof.
  unfold getb. destruct (Z.leb_spec 0 k); [|done]. intros E. exists (take (Z.to_nat k) l), (drop (S (Z.to_nat k)) l).
  split; [by rewrite take_drop_middle|]. apply lookup_lt_Some in E. unfold zlen. rewrite length_take. lia.
Qed.

Lemma not_in_getb l c : (forall k, 0 <= k < zlen l -> getb l k <> Some c) -> c ∉ l.
Proof.
  intros H Hin. apply list_elem_of_lookup_1 in Hin as [i Ei]. apply (H (Z.of_nat i)).
  - apply lookup_lt_Some in Ei. unfold zlen. lia.
  - unfold getb. rewrite (proj2 (Z.leb_le 0 (Z.of_nat i))) by lia. by rewrite Nat2Z.id.
Qed.

Lemma slot_untagged key : Forall is_byte key -> (forall t, ~ tagged key t) -> keyHashSlot key = Some (slot_ref key).
Proof.
  intros Hb Hno. unfold keyHashSlot. destruct (find_byte_spec key 123 0) as (s & -> & Hs & Hs' & Hse); [zlen_saturate; lia|].
  cbn [mbind option_bind]. destruct (Z.eqb_spec s (zlen key)); [by apply slot_of_ok|].
  destruct Hse as [|Hse]; [done|]. apply getb_split in Hse as (a & r & E & ->).
  assert (zlen key = zlen a + 1 + zlen r) as Hz by (rewrite E; len_lia). zlen_saturate.
  destruct (find_byte_spec key 125 (zlen a + 1)) as (e & -> & He & He' & Hee); [lia|]. cbn [mbind option_bind].
  destruct (Z.eqb_spec e (zlen key)); [by apply slot_of_ok|]. destruct (Z.eqb_spec e (zlen a + 1)); [by apply slot_of_ok|].
  exfalso. destruct Hee as [|Hee]; [done|]. rewrite E in Hee.
  replace e with (zlen a + (1 + (e - zlen a - 1))) in Hee by lia. rewrite getb_app_r in Hee by lia.
  assert (getb r (e - zlen a - 1) = Some 125) as Hr.
  { rewrite <- Hee. symmetry. apply (getb_app_r [123] r). lia. }
  apply getb_split in Hr as (t & b & Er & Et). apply (Hno t). exists a, b. subst r. split; [done|]. split.
  - apply not_in_getb. intros k Hk. rewrite <- (getb_app_l a (123 :: t ++ 125 :: b)) by lia. rewrite <- E. apply Hs'. lia.
  - split.
    + apply not_in_getb. intros k Hk. specialize (He' (zlen a + (1 + k)) ltac:(lia)). rewrite E, getb_app_r in He' by lia.
      pose proof (getb_app_r [123] (t ++ 125 :: b) k ltac:(lia)) as Eg. change (zlen [123] + k) with (1 + k) in Eg. simpl app in Eg.
      rewrite Eg, getb_app_l in He' by lia. done.
    + intros ->. change (zlen (@nil Z)) with 0 in Et. lia.
Qed.

(** ** Payloads *)

Section payload.
  Context {E : RdbEnv} {A : Allocator} (t : crc_table) (Ht : host_table_ok big_endian t).

Definition footer_of (p : list Z) : list Z := le_split 8 (crc_of 0 p).

Lemma stored_crc addr p : Forall is_byte p ->
  (crc ← crc64 big_endian t 0 addr p; memrev64ifbe big_endian (host_store big_endian 8 crc) 0) = Some (footer_of p).
Proof. intros Hp. rewrite (crc64_ok _ _ _ _ _ Ht Hp) by lia. cbn [mbind option_bind]. apply rev64_store. Qed.

(** What the verification decides. *)
Lemma verify_spec addr body f1 f0 footer :
  Forall is_byte (body ++ [f0; f1]) -> zlen footer = 8 ->
  verifyDumpPayload t false addr (body ++ [f0; f1] ++ footer) =
    Some ((f0 + 256 * f1 <=? RDB_VERSION) && bool_decide (footer_of (body ++ [f0; f1]) = footer), Some (f0 + 256 * f1)).
Proof.
  intros Hb Hf. unfold verifyDumpPayload. set (p := body ++ [f0; f1] ++ footer).
  assert (zlen p = zlen body + 10) as Hz by (unfold p; len_lia). rewrite Hz. pose proof (zlen_nonneg body).
  replace (zlen body + 10 <? 10) with false by lia. replace (zlen body + 10 - 10) with (zlen body) by lia.
  assert (is_byte f0 /\ is_byte f1) as [H0 H1].
  { apply Forall_app in Hb as [_ Hb]. apply Forall_cons in Hb as [? Hb]. by apply Forall_cons in Hb as [? _]. }
  unfold p. rewrite getb_app_r by lia. change (getb ([f0; f1] ++ footer) 1) with (Some f1).
  assert (getb (body ++ [f0; f1] ++ footer) (zlen body) = Some f0) as -> by (apply getb_mid; done).
  cbn [mbind option_bind]. unfold is_byte in *.
  rewrite Z.lor_comm, lor_add_high by lia. change (2 ^ 8) with 256.
  rewrite wrapu_small by (change (2 ^ 16) with 65536; lia). rewrite Z.gtb_ltb, Z.leb_antisym.
  destruct (RDB_VERSION <? f0 + 256 * f1); [done|]. cbn [negb andb].
  replace (zlen body + 10 - 8) with (zlen (body ++ [f0; f1])) by len_lia.
  rewrite app_assoc. change (mem_read ((body ++ [f0; f1]) ++ footer) 0) with (mem_read ([] ++ (body ++ [f0; f1]) ++ footer) 0).
  rewrite mem_read_mid by done. cbn [mbind option_bind app].
  pose proof (stored_crc addr (body ++ [f0; f1]) Hb) as Es.
  destruct (crc64 big_endian t 0 addr (body ++ [f0; f1])) as [c|]; [|done]. cbn [mbind option_bind] in Es |- *. rewrite Es. cbn [mbind option_bind].
  rewrite mem_read_tail by len_lia. done.
Qed.

Lemma dump_string_ok v s : holds (Some (StringObj v)) s -> Forall is_byte s -> zlen s < UINT64_MAX -> compressor_ok s ->
  (forall n, 0 <= n <= zlen s + 28 -> ztrymalloc n = true) ->
  exists r e, dump_string v (rioInitWithBuffer []) = Some r /\ ptr (io r) = [0] ++ e /\ Forall is_byte e /\
    forall flags, exists x, loads_to flags s x /\ decodes (fun r : rio riobuf => rdbGenericLoadStringObject r flags) e x.
Proof.
  intros Hh Hb Hl Hc Hal.
  assert (exists e, Forall is_byte e /\ 0 < zlen e /\
    (forall rdb : option (rio riobuf), healthy rdb -> save_post rdb e (zlen e) (rdbSaveStringObject rdb v)) /\
    forall flags, exists x, loads_to flags s x /\ decodes (fun r : rio riobuf => rdbGenericLoadStringObject r flags) e x)
    as (e & He & Hpos & Hs & Hd).
  { destruct v as [s'|n]; simpl in Hh.
    - subst s'. destruct (string_roundtrip (B := riobuf) s Hb Hl Hc Hal) as (e & Hs & He & Hp & Hd). by exists e.
    - destruct Hh as [Hn Hd]. destruct (integer_object_roundtrip (B := riobuf) n s Hn Hd Hal) as (e & Hs & He & Hp & Hx). by exists e. }
  unfold dump_string, rdbSaveType. change (u8 RDB_TYPE_STRING) with 0.
  destruct (rdbWriteRaw_post (Some (rioInitWithBuffer [])) [0]) as (rdb & n & -> & [[-> Ha]|[_ Hf]]); [done| |].
  2:{ exfalso. destruct rdb; [|done]. destruct Hf as [_ Hf]. by apply buffer_never_fails. }
  cbn [mbind option_bind]. change (zlen [0] =? 0) with false. cbn [negb assert_true mbind option_bind].
  destruct rdb as [r1|]; [|done]. destruct Ha as [Ho1 Hh1].
  destruct (Hs (Some r1) Hh1) as (rdb & n & -> & [[-> Ha]|[_ Hf]]).
  2:{ exfalso. destruct rdb; [|done]. destruct Hf as [_ Hf]. by apply buffer_never_fails. }
  cbn [mbind option_bind]. replace (zlen e =? 0) with false by lia. cbn [negb assert_true mbind option_bind].
  destruct rdb as [r2|]; [|done]. destruct Ha as [Ho2 _]. exists r2, e. split; [done|]. split; [|done].
  change (output (io ?r)) with (ptr (io r)) in Ho1, Ho2. by rewrite Ho2, Ho1.
Qed.
End payload.

(** ** The theorems *)

(** C25: on hosts of both byte orders, with the tables that crc64_init builds, the routine that
    consumes eight bytes at a time computes the CRC of the bit-by-bit definition, at any
    alignment, in one call or in two. *)
Theorem crc64_correct be :
  exists t, crc64_init be = Some t /\
    forall addr addr' a b, Forall is_byte (a ++ b) ->
      crc64 be t 0 addr (a ++ b) = Some (_crc64 0 (a ++ b)) /\
      (crc ← crc64 be t 0 addr a; crc64 be t crc addr' b) = Some (_crc64 0 (a ++ b)).
Proof.
  destruct (crc64_init_ok be) as (t & E & Ht). exists t. split; [done|]. intros addr addr' a b Hab.
  assert (_crc64 0 (a ++ b) = crc_of 0 (a ++ b)) as -> by (apply _crc64_spec; (done || lia)).
  split; [by apply crc64_ok|]. apply Forall_app in Hab as [Ha Hb].
  rewrite (crc64_ok _ _ _ _ _ Ht Ha) by lia. cbn [mbind option_bind].
  rewrite (crc64_ok _ _ _ _ _ Ht Hb) by (apply crc_of_range; (done || lia)). by rewrite crc_of_app.
Qed.

(** C28: the slot of a key is the CRC16, as the remainder of a division of polynomials, modulo
    16384, of the bytes between the first opening brace and the next closing one when there is
    at least one, and of the whole key otherwise. *)
Theorem keyHashSlot_correct key :
  Forall is_byte key ->
  (forall t, tagged key t -> keyHashSlot key = Some (slot_ref t)) /\
  ((forall t, ~ tagged key t) -> keyHashSlot key = Some (slot_ref key)) /\
  exists slot, keyHashSlot key = Some slot /\ 0 <= slot < 16384.
Proof.
  intros Hb. split; [intros t Ht; by apply slot_tagged|]. split; [intros Hno; by apply slot_untagged|].
  assert (forall bs, 0 <= slot_ref bs < 16384) as Hr by (intros; apply Z.mod_pos_bound; lia).
  unfold keyHashSlot. destruct (find_byte_spec key 123 0) as (s & -> & Hs & _ & Hse); [zlen_saturate; lia|]. cbn [mbind option_bind].
  destruct (Z.eqb_spec s (zlen key)); [rewrite slot_of_ok by done; eauto|].
  destruct (find_byte_spec key 125 (s + 1)) as (e & -> & He & _ & _); [lia|]. cbn [mbind option_bind].
  destruct (_ || _) eqn:Eo; [rewrite slot_of_ok by done; eauto|].
  unfold mem_read. replace (_ && _ && _) with true by lia. cbn [mbind option_bind].
  rewrite slot_of_ok by (by apply Forall_take, Forall_drop). eauto.
Qed.

(** C26: the payload that DUMP makes of a string object, with its version and checksum, passes
    verifyDumpPayload at any address, and, when the allocator serves blocks of the size of the
    string and its header, the bytes behind its type load back as the same string. *)
Theorem dump_payload_correct {E : RdbEnv} {A : Allocator} t v s addr addr' :
  crc64_init big_endian = Some t ->
  holds (Some (StringObj v)) s -> Forall is_byte s -> zlen s < 2 ^ 63 -> compressor_ok s ->
  (forall n, 0 <= n <= zlen s + 28 -> ztrymalloc n = true) ->
  exists p e, createDumpPayload t (dump_string v) addr = Some p /\
    verifyDumpPayload t false addr' p = Some (true, Some RDB_VERSION) /\
    p = [RDB_TYPE_STRING] ++ e ++ [12; 0] ++ footer_of ([RDB_TYPE_STRING] ++ e ++ [12; 0]) /\
    forall flags, exists x, loads_to flags s x /\ decodes (fun r : rio riobuf => rdbGenericLoadStringObject r flags) e x.
Proof.
  intros Hi Hh Hb Hl Hc Hal. destruct (crc64_init_ok big_endian) as (t' & Ei & Ht). rewrite Hi in Ei. injection Ei as <-.
  destruct (dump_string_ok v s Hh Hb) as (r & e & Ed & Hp & He & Hd); [unfold_limits; lia|done|done|].
  assert (Forall is_byte ([0] ++ e ++ [12; 0])) as Hbytes.
  { apply Forall_app. split; [by apply bytes_check|]. apply Forall_app. split; [done|by apply bytes_check]. }
  unfold createDumpPayload. rewrite Ed. cbn [mbind option_bind]. rewrite Hp.
  change [Z.land RDB_VERSION 0xff; Z.land (Z.shiftr RDB_VERSION 8) 0xff] with [12; 0]. rewrite <- app_assoc.
  pose proof (stored_crc t Ht addr _ Hbytes) as Es.
  destruct (crc64 big_endian t 0 addr ([0] ++ e ++ [12; 0])) as [c|]; [|done]. cbn [mbind option_bind] in Es |- *. rewrite Es. cbn [mbind option_bind].
  eexists _, e. split; [done|]. split; [|split; [by rewrite <- !app_assoc|done]].
  pose proof (verify_spec t Ht addr' ([0] ++ e) 0 12 (footer_of ([0] ++ e ++ [12; 0]))) as Hv. rewrite <- !app_assoc in Hv.
  rewrite <- !app_assoc. rewrite Hv; [by rewrite bool_decide_eq_true_2|done|]. unfold footer_of. by rewrite zlen_le_split.
Qed.

(** C27: with checksums not disabled, when a payload that verifies is changed in a run of at most
    eight bytes before its checksum, verifyDumpPayload refuses it. *)
Theorem dump_corruption_detected {E : RdbEnv} t addr addr' ver a w w' b :
  crc64_init big_endian = Some t ->
  verifyDumpPayload t false addr (a ++ w ++ b) = Some (true, ver) -> 8 <= zlen b ->
  Forall is_byte (a ++ w ++ b) -> Forall is_byte w' -> length w' = length w -> (length w <= 8)%nat -> w' <> w ->
  exists ver', verifyDumpPayload t false addr' (a ++ w' ++ b) = Some (false, ver').
Proof.
  intros Hi Hv Hb Hall Hw' Hl H8 Hne. destruct (crc64_init_ok big_endian) as (t' & Ei & Ht). rewrite Hi in Ei. injection Ei as <-.
  assert (10 <= zlen (a ++ w ++ b)) as H10.
  { unfold verifyDumpPayload in Hv. destruct (Z.ltb_spec (zlen (a ++ w ++ b)) 10); [done|lia]. }
  assert (exists c f, b = c ++ f /\ zlen f = 8) as (c & f & -> & Hf).
  { exists (take (length b - 8) b), (drop (length b - 8) b). rewrite take_drop. split; [done|]. unfold zlen in *. rewrite length_drop. lia. }
  rewrite !Forall_app in Hall. destruct Hall as (Ha & Hw & Hc & Hfb).
  assert (forall w0, Forall is_byte w0 -> length w0 = length w -> exists body f0 f1, a ++ w0 ++ c = body ++ [f0; f1]) as Hsplit.
  { intros w0 Hw0 Hlw. assert (2 <= zlen (a ++ w0 ++ c)) as H2.
    { assert (zlen w0 = zlen w) as Ew by (unfold zlen; lia). rewrite !zlen_app in H10. rewrite !zlen_app, Ew. lia. }
    revert H2. generalize (a ++ w0 ++ c) as l. intros l H2. pose proof (take_drop (length l - 2) l) as El.
    assert (length (drop (length l - 2) l) = 2%nat) as Hd by (rewrite length_drop; unfold zlen in H2; lia).
    destruct (drop (length l - 2) l) as [|x [|y [|z r]]]; simpl in Hd; try lia. by exists (take (length l - 2) l), x, y. }
  assert (forall w0, Forall is_byte w0 -> length w0 = length w -> forall ad, exists o vo,
    verifyDumpPayload t false ad (a ++ w0 ++ c ++ f) = Some (o, vo) /\
    (o = true -> footer_of (a ++ w0 ++ c) = f)) as Hcheck.
  { intros w0 Hw0 Hlw ad. destruct (Hsplit w0 Hw0 Hlw) as (body & f0 & f1 & Es).
    replace (a ++ w0 ++ c ++ f) with (body ++ [f0; f1] ++ f) by (rewrite app_assoc, <- Es, <- !app_assoc; done).
    eexists _, _. split.
    - apply verify_spec; [done| |done]. rewrite <- Es, !Forall_app. done.
    - intros Ho. apply andb_true_iff in Ho as [_ Ho]. apply bool_decide_eq_true_1 in Ho. by rewrite Es. }
  destruct (Hcheck w Hw eq_refl addr) as (o & vo & Eo & Ho). rewrite Hv in Eo. injection Eo as <- <-. specialize (Ho eq_refl).
  destruct (Hcheck w' Hw' Hl addr') as (o' & vo' & Eo' & Ho'). exists vo'. rewrite Eo'. do 2 f_equal.
  destruct o'; [|done]. exfalso. specialize (Ho' eq_refl). apply Hne. unfold footer_of in Ho, Ho'.
  assert (crc_of 0 (a ++ w' ++ c) = crc_of 0 (a ++ w ++ c)) as Ecrc.
  { apply le_split_inj8; [apply crc_of_range; [lia|rewrite !Forall_app; done]..|]. congruence. }
  apply (crc_of_burst 0 a w' w c); [lia|done|done|done|done|done|lia|exact Ecrc].
Qed.

(** ** Concrete instances *)

Module CrcSample.
Import RdbSample.

Definition table : crc_table := default [] (crc64_init false).

Lemma table_init : crc64_init big_endian = Some table.
Proof. vm_compute. reflexivity. Qed.

Definition digits : list Z := bytes_of "123456789".

(** The check value given in [crc64.c]. *)
Lemma crc64_witness : exists t, crc64_init true = Some t /\ crc64 true t 0 5 digits = Some 0xe9c6d914c4b8d9ca.
Proof.
  destruct (crc64_correct true) as (t & Ei & H). exists t. split; [exact Ei|].
  pose proof (proj1 (H 5 0 digits [] (bytes_check digits eq_refl))) as E. exact E.
Defined.

Lemma keyHashSlot_witness : keyHashSlot (bytes_of "user:{42}:name") = Some (slot_ref (bytes_of "42")).
Proof.
  refine (proj1 (keyHashSlot_correct (bytes_of "user:{42}:name") (bytes_check (bytes_of "user:{42}:name") eq_refl)) (bytes_of "42") _).
  exists (bytes_of "user:"), (bytes_of ":name"). split; [vm_compute; reflexivity|].
  split; [vm_compute; intros H; repeat (inversion H as [|? ? ? H']; subst; clear H; rename H' into H)|].
  split; [vm_compute; intros H; repeat (inversion H as [|? ? ? H']; subst; clear H; rename H' into H)|]. vm_compute. discriminate.
Defined.

Lemma dump_payload_witness :
  exists p, createDumpPayload table (dump_string (Sds song)) 64 = Some p /\
    verifyDumpPayload table false 3 p = Some (true, Some RDB_VERSION).
Proof.
  destruct (dump_payload_correct table (Sds song) song 64 3 table_init eq_refl (bytes_check song eq_refl)) as (p & e & Ep & Ev & _).
  - closed_arith.
  - split; [closed_arith|]. split; [closed_arith|exact slots_zero].
  - intros n Hn. change (zlen song) with 72 in Hn. apply sample_serves. lia.
  - exists p. exact (conj Ep Ev).
Defined.

Definition payload : list Z := default [] (createDumpPayload table (dump_string (Sds digits)) 64).

Lemma dump_corruption_witness :
  exists ver, verifyDumpPayload table false 3 (take 1 payload ++ [1; 2] ++ drop 3 payload) = Some (false, ver).
Proof.
  apply (dump_corruption_detected table 64 3 (Some 12) (take 1 payload) [drop 1 payload !!! 0%nat; drop 2 payload !!! 0%nat] [1; 2] (drop 3 payload)).
  - exact table_init.
  - vm_compute. reflexivity.
  - vm_compute. discriminate.
  - apply bytes_check. vm_compute. reflexivity.
  - apply (bytes_check [1; 2]). vm_compute. reflexivity.
  - vm_compute. reflexivity.
  - vm_compute. lia.
  - vm_compute. discriminate.
Defined.
End CrcSample.
