(* ===== verification/DictIter.v ===== *)
(** * Hash tables: iterators ([dict.c])

    [dictInitIterator], [dictNext], [dictResetIterator] and the fingerprint that detects changes
    under an unsafe iterator.  The entry and the next entry of an iterator are the chains from
    there on; the dictionary is passed next to its iterator, and [table_addr] gives the addresses
    of its tables. *)
From S2P Require Import Prelude Dict DictOps DictFacts DictRehash DictFind.

Section Iter.
Context `{T : DictType} (table_addr : dict -> bool -> Z).

Record dictIterator := {
  it_index : Z;
  it_table : bool;
  it_safe : bool;
  it_entry : chain;
  it_nextEntry : chain;
  it_fingerprint : Z;
}.

(** One turn of the loop of [dictFingerprint]. *)
Definition fingerprint_step (hash i : Z) : Z :=
  let hash := u64 (hash + i) in
  let hash := u64 (ulong_not hash + u64 (Z.shiftl hash 21)) in
  let hash := Z.lxor hash (Z.shiftr hash 24) in
  let hash := u64 (u64 (hash + u64 (Z.shiftl hash 3)) + u64 (Z.shiftl hash 8)) in
  let hash := Z.lxor hash (Z.shiftr hash 14) in
  let hash := u64 (u64 (hash + u64 (Z.shiftl hash 2)) + u64 (Z.shiftl hash 4)) in
  let hash := Z.lxor hash (Z.shiftr hash 28) in
  u64 (hash + u64 (Z.shiftl hash 31)).

Definition dictFingerprint (d : dict) : Z :=
  foldl fingerprint_step 0
    [u64 (table_addr d false); u64 (size_exp (ht0 d)); used (ht0 d);
     u64 (table_addr d true); u64 (size_exp (ht1 d)); used (ht1 d)].

Definition dictInitIterator (safe : bool) : dictIterator :=
  {| it_index := -1; it_table := false; it_safe := safe; it_entry := Nil; it_nextEntry := Nil; it_fingerprint := 0 |}.

(** The start of an iteration: the dictionary, the fingerprint and the index before the first bucket. *)
Definition start_iteration (d : dict) (it : dictIterator) : dict * dictIterator :=
  if (it_index it =? -1) && negb (it_table it) then
    let d' := if it_safe it then dictPauseRehashing d else d in
    (d', {| it_index := if dictIsRehashing d then rehashidx d - 1 else it_index it; it_table := it_table it;
            it_safe := it_safe it; it_entry := it_entry it; it_nextEntry := it_nextEntry it;
            it_fingerprint := if it_safe it then it_fingerprint it else dictFingerprint d |})
  else (d, it).

Definition at_entry (it : dictIterator) (index : Z) (tbl : bool) (entry next : chain) : dictIterator :=
  {| it_index := index; it_table := tbl; it_safe := it_safe it; it_entry := entry; it_nextEntry := next;
     it_fingerprint := it_fingerprint it |}.

(** [if (iter->entry) { iter->nextEntry = dictGetNext(iter->entry); return iter->entry; }] *)
Definition return_entry (d : dict) (it : dictIterator) : dict * dictIterator + dict * dictIterator * chain :=
  if is_nil (it_entry it) then inl (d, it)
  else inr (d, at_entry it (it_index it) (it_table it) (it_entry it) (dictGetNext (it_entry it)), it_entry it).

Definition next_entry_body (st : dict * dictIterator) : option (dict * dictIterator + dict * dictIterator * chain) :=
  let '(d, it) := st in
  if is_nil (it_entry it) then
    let '(d, it) := start_iteration d it in
    let index := it_index it + 1 in
    if index >=? s64 (DICTHT_SIZE (size_exp (ht d (it_table it)))) then
      if dictIsRehashing d && negb (it_table it) then
        e ← get_bucket d true 0;
        Some (return_entry d (at_entry it 0 true e (it_nextEntry it)))
      else Some (inr (d, at_entry it index (it_table it) Nil (it_nextEntry it), Nil))
    else
      e ← get_bucket d (it_table it) index;
      Some (return_entry d (at_entry it index (it_table it) e (it_nextEntry it)))
  else Some (return_entry d (at_entry it (it_index it) (it_table it) (it_nextEntry it) (it_nextEntry it))).

(** The entry returned, [Nil] for NULL. *)
Definition dictNext (d : dict) (it : dictIterator) : option (dict * dictIterator * chain) :=
  loop (S (S (S (length (default [] (table (ht0 d))) + length (default [] (table (ht1 d))))))) next_entry_body (d, it).

Definition dictResetIterator (d : dict) (it : dictIterator) : option dict :=
  if negb ((it_index it =? -1) && negb (it_table it)) then
    if it_safe it then Some (dictResumeRehashing d)
    else _ ← assert_true (it_fingerprint it =? dictFingerprint d); Some d
  else Some d.

(** ** What an unsafe iterator returns *)

Context (stored : bool) `{!DictTypeOk T stored}.
Notation entry := (dkey * option dval)%type.

(** The entries an iterator has before it. *)
Definition bucket_rest (tb : list chain) (index : Z) (cur next : chain) : list entry :=
  (if is_nil cur then [] else chain_entries next) ++ tb_entries (drop (Z.to_nat (index + 1)) tb).

(** The tables of a dictionary, in the order of the iteration. *)
Definition tables (d : dict) (tb0 tb1 : list chain) : Prop :=
  (ht0 d = _dictReset /\ rehashidx d = -1 /\ tb0 = [] /\ tb1 = []) \/
  (TableOk (ht0 d) tb0 /\ rehashidx d = -1 /\ tb1 = []) \/
  (TableOk (ht0 d) tb0 /\ TableOk (ht1 d) tb1 /\ 0 <= rehashidx d <= zlen tb0).

Definition iter_at (d : dict) (it : dictIterator) (tb0 tb1 : list chain) (rest : list entry) : Prop :=
  it_safe it = false /\ it_fingerprint it = dictFingerprint d /\
  if it_table it then
    TableOk (ht1 d) tb1 /\ 0 <= rehashidx d /\ 0 <= it_index it < zlen tb1 /\
    rest = bucket_rest tb1 (it_index it) (it_entry it) (it_nextEntry it)
  else
    0 <= it_index it <= zlen tb0 /\
    rest = bucket_rest tb0 (it_index it) (it_entry it) (it_nextEntry it) ++ tb_entries tb1.

Definition iterating (d : dict) (it : dictIterator) (rest : list entry) : Prop :=
  exists tb0 tb1, tables d tb0 tb1 /\
    ((it = dictInitIterator false /\ rest = tb_entries (drop (Z.to_nat (Z.max 0 (rehashidx d))) tb0) ++ tb_entries tb1) \/
     iter_at d it tb0 tb1 rest).

Lemma tables_zlen d tb0 tb1 : tables d tb0 tb1 ->
  s64 (DICTHT_SIZE (size_exp (ht0 d))) = zlen tb0 /\ length (default [] (table (ht0 d))) = length tb0 /\
  (0 <= rehashidx d -> s64 (DICTHT_SIZE (size_exp (ht1 d))) = zlen tb1 /\ length (default [] (table (ht1 d))) = length tb1) /\
  (rehashidx d < 0 -> rehashidx d = -1 /\ tb1 = []).
Proof.
  assert (forall t tb, TableOk t tb -> s64 (DICTHT_SIZE (size_exp t)) = zlen tb /\ length (default [] (table t)) = length tb) as Hok.
  { intros t tb Ht. pose proof (to_exp _ _ Ht). rewrite size_pow, (to_len _ _ Ht), (to_table _ _ Ht) by lia. split; [|done].
    apply wraps_small; [done|]. assert (2 ^ size_exp t <= 2 ^ 60) by (apply Z.pow_le_mono_r; lia). lia. }
  intros [(E & Hr & -> & ->)|[(H0 & Hr & ->)|(H0 & H1 & Hr)]].
  - rewrite E. split_and!; (done || lia).
  - destruct (Hok _ _ H0). split_and!; (done || lia).
  - destruct (Hok _ _ H0), (Hok _ _ H1). split_and!; (done || lia).
Qed.

Lemma tables_index d tb0 tb1 : tables d tb0 tb1 -> rehashidx d <= zlen tb0.
Proof. pose proof (zlen_nonneg tb0). intros [(_ & Hr & _)|[(_ & Hr & _)|(_ & _ & Hr)]]; lia. Qed.

Lemma tb_entries_drop tb i c : tb !! i = Some c -> tb_entries (drop i tb) = chain_entries c ++ tb_entries (drop (S i) tb).
Proof. intros Hc. by rewrite (drop_S _ _ _ Hc). Qed.

(** A bucket has been reached: either it is empty or its first entry is returned. *)
Lemma bucket_reached d it tb index tbl c :
  0 <= index < zlen tb -> tb !! Z.to_nat index = Some c ->
  let rest := tb_entries (drop (Z.to_nat index) tb) in
  let it' := at_entry it index tbl c (it_nextEntry it) in
  (c = Nil /\ return_entry d it' = inl (d, it') /\ bucket_rest tb index Nil (it_nextEntry it) = rest) \/
  (exists e, c <> Nil /\ head_entry c = Some e /\
     return_entry d it' = inr (d, at_entry it index tbl c (dictGetNext c), c) /\
     e :: bucket_rest tb index c (dictGetNext c) = rest).
Proof.
  intros Hi Hc rest it'. subst rest it'. unfold return_entry, bucket_rest. cbn [it_entry at_entry].
  rewrite (tb_entries_drop _ _ _ Hc). replace (Z.to_nat (index + 1)) with (S (Z.to_nat index)) by lia.
  destruct c as [|k|k nx|k v nx]; [by left|right..]; (eexists; split; [done|split; [done|split; [done|done]]]).
Qed.

(** The place of an iterator, as the number of turns left. *)
Definition turns_left (tb0 tb1 : list chain) (it : dictIterator) : Z :=
  (if it_table it then zlen tb1 - it_index it else zlen tb0 - it_index it + zlen tb1 + 1) +
  (if is_nil (it_entry it) then 0 else 1).

Definition returned (d : dict) (tb0 tb1 : list chain) (rest : list entry) (r : dict * dictIterator * chain) : Prop :=
  let '(d', it', c) := r in
  d' = d /\ it_safe it' = false /\ it_fingerprint it' = dictFingerprint d /\
  match rest with
  | [] => c = Nil
  | e :: rest => c <> Nil /\ head_entry c = Some e /\ iter_at d it' tb0 tb1 rest
  end.

Section Turn.
  Context (d : dict) (tb0 tb1 : list chain) (Ht : tables d tb0 tb1).

(** Arriving at the bucket [index] of a table. *)
Lemma arrive it index tbl rest :
  it_safe it = false -> it_fingerprint it = dictFingerprint d ->
  TableOk (ht d tbl) (if tbl then tb1 else tb0) -> (tbl = true -> 0 <= rehashidx d) ->
  0 <= index < zlen (if tbl then tb1 else tb0) ->
  rest = tb_entries (drop (Z.to_nat index) (if tbl then tb1 else tb0)) ++ (if tbl then [] else tb_entries tb1) ->
  exists e, get_bucket d tbl index = Some e /\
  ((exists it', return_entry d (at_entry it index tbl e (it_nextEntry it)) = inl (d, it') /\ iter_at d it' tb0 tb1 rest /\
      it_index it' = index /\ it_table it' = tbl /\ it_entry it' = Nil) \/
   (exists r, return_entry d (at_entry it index tbl e (it_nextEntry it)) = inr r /\ returned d tb0 tb1 rest r)).
Proof.
  intros Hs Hf Hok Hr Hi ->. rewrite (get_bucket_at d tbl _ index Hok) by lia.
  destruct (lookup_lt_is_Some_2 (if tbl then tb1 else tb0) (Z.to_nat index)) as [c Hc]; [unfold zlen in Hi; lia|].
  exists c. split; [done|].
  destruct (bucket_reached d it _ index tbl c Hi Hc) as [(-> & E & Hb)|(e & Hn & He & E & Hb)]; rewrite E; [left|right].
  - eexists. split; [done|]. split; [|done]. split; [done|]. split; [done|]. rewrite <- Hb.
    destruct tbl; cbn [it_table at_entry it_index it_entry it_nextEntry]; [rewrite app_nil_r; auto|]. split; [lia|done].
  - eexists. split; [done|]. unfold returned. split_and!; [done..|]. rewrite <- Hb. cbn [app]. split_and!; [done|done|].
    split; [done|]. split; [done|].
    destruct tbl; cbn [it_table at_entry it_index it_entry it_nextEntry]; [rewrite app_nil_r; auto|]. split; [lia|done].
Qed.

Lemma table_of_size tbl : (tbl = true -> 0 <= rehashidx d) ->
  s64 (DICTHT_SIZE (size_exp (ht d tbl))) = zlen (if tbl then tb1 else tb0).
Proof. intros Hr. destruct (tables_zlen d tb0 tb1 Ht) as (H0 & _ & H1 & _). destruct tbl; [by apply H1, Hr|done]. Qed.

Lemma table_of_ok tbl index : (tbl = true -> 0 <= rehashidx d) -> 0 <= index < zlen (if tbl then tb1 else tb0) ->
  TableOk (ht d tbl) (if tbl then tb1 else tb0).
Proof.
  intros Hr Hi. destruct Ht as [(E & Hx & -> & ->)|[(H0 & Hx & ->)|(H0 & H1 & Hx)]]; destruct tbl; try done.
  all: exfalso; try (specialize (Hr eq_refl); lia). unfold zlen in Hi. simpl in Hi. lia.
Qed.

(** From an iterator with no entry whose index is [index - 1], after its start. *)
Lemma next_bucket it tbl index rest :
  it_safe it = false -> it_fingerprint it = dictFingerprint d -> it_table it = tbl ->
  (tbl = true -> 0 <= rehashidx d) -> 0 <= index <= zlen (if tbl then tb1 else tb0) + 1 ->
  rest = tb_entries (drop (Z.to_nat index) (if tbl then tb1 else tb0)) ++ (if tbl then [] else tb_entries tb1) ->
  let r := (if index >=? s64 (DICTHT_SIZE (size_exp (ht d tbl))) then
              if dictIsRehashing d && negb tbl then
                e ← get_bucket d true 0; Some (return_entry d (at_entry it 0 true e (it_nextEntry it)))
              else Some (inr (d, at_entry it index tbl Nil (it_nextEntry it), Nil))
            else e ← get_bucket d tbl index; Some (return_entry d (at_entry it index tbl e (it_nextEntry it)))) in
  (exists it', r = Some (inl (d, it')) /\ iter_at d it' tb0 tb1 rest /\
     turns_left tb0 tb1 it' <= zlen (if tbl then tb1 else tb0) - index + (if tbl then 0 else zlen tb1 + 1)) \/
  (exists o, r = Some (inr o) /\ returned d tb0 tb1 rest o).
Proof.
  intros Hs Hf Htb Hr Hi Hrest r. subst r. rewrite table_of_size by done.
  destruct (Z.geb_spec index (zlen (if tbl then tb1 else tb0))) as [Hge|Hlt].
  - rewrite drop_ge in Hrest by (unfold zlen in Hge; lia). cbn [tb_entries app] in Hrest.
    destruct (dictIsRehashing d) eqn:Er; cbn [andb].
    + destruct tbl; cbn [negb]; [right; eexists; split; [done|]; by subst rest|].
      assert (0 <= rehashidx d) as Hx.
      { destruct (tables_zlen d tb0 tb1 Ht) as (_ & _ & _ & H). destruct (Z.ltb_spec (rehashidx d) 0); [|lia].
        destruct H as [Hm _]; [lia|]. by rewrite not_rehashing in Er. }
      assert (TableOk (ht d true) tb1) as Hok1.
      { destruct Ht as [(_ & Hm & _)|[(_ & Hm & _)|(_ & H1 & _)]]; [lia..|done]. }
      assert (0 < zlen tb1) as Hpos by (rewrite (to_len _ _ Hok1); apply Z.pow_pos_nonneg; [lia|pose proof (to_exp _ _ Hok1); lia]).
      destruct (arrive it 0 true rest Hs Hf Hok1 (fun _ => Hx)) as (e & -> & [(it' & E & Hat & Hix & Htb' & Hen)|(o & E & Ho)]);
        [lia|by rewrite app_nil_r|left|right].
      * cbn [mbind option_bind]. rewrite E. eexists. split; [done|]. split; [done|]. unfold turns_left. rewrite Hix, Htb', Hen.
        cbn [is_nil]. lia.
      * cbn [mbind option_bind]. rewrite E. eauto.
    + right. eexists. split; [done|]. unfold returned. split_and!; [done..|].
      destruct tbl; subst rest; [done|]. destruct (tables_zlen d tb0 tb1 Ht) as (_ & _ & _ & H).
      destruct (Z.ltb_spec (rehashidx d) 0) as [Hneg|]; [by destruct (H Hneg) as [_ ->]|].
      by rewrite is_rehashing in Er by lia.
  - destruct (arrive it index tbl rest Hs Hf) as (e & -> & [(it' & E & Hat & Hix & Htb' & Hen)|(o & E & Ho)]);
      [apply (table_of_ok tbl index); [done|lia]|done|lia|done|left|right].
    + cbn [mbind option_bind]. rewrite E. eexists. split; [done|]. split; [done|]. unfold turns_left. rewrite Hix, Htb', Hen.
      cbn [is_nil]. destruct tbl; lia.
    + cbn [mbind option_bind]. rewrite E. eauto.
Qed.

Definition iter_state (it : dictIterator) (rest : list entry) : Prop :=
  (it = dictInitIterator false /\ rest = tb_entries (drop (Z.to_nat (Z.max 0 (rehashidx d))) tb0) ++ tb_entries tb1) \/
  iter_at d it tb0 tb1 rest.

Lemma next_turn it rest :
  iter_state it rest ->
  (exists it', next_entry_body (d, it) = Some (inl (d, it')) /\ iter_state it' rest /\
     0 <= turns_left tb0 tb1 it' < turns_left tb0 tb1 it) \/
  (exists o, next_entry_body (d, it) = Some (inr o) /\ returned d tb0 tb1 rest o).
Proof.
  assert (forall it', iter_at d it' tb0 tb1 rest -> 0 <= turns_left tb0 tb1 it') as Hpos.
  { intros it' (_ & _ & Hat). unfold turns_left. pose proof (zlen_nonneg tb1). destruct (it_table it'), (is_nil (it_entry it')); lia. }
  intros [[-> Hrest]|Hat].
  - pose proof (tables_index d tb0 tb1 Ht) as Hle. pose proof (zlen_nonneg tb0) as Hz0.
    set (it1 := (start_iteration d (dictInitIterator false)).2).
    assert (it_index it1 = Z.max 0 (rehashidx d) - 1) as Hi.
    { unfold it1, start_iteration. cbn. destruct (tables_zlen d tb0 tb1 Ht) as (_ & _ & _ & H).
      destruct (Z.ltb_spec (rehashidx d) 0) as [Hneg|Hge]; [destruct (H Hneg) as [Em _]; rewrite not_rehashing by done; lia|].
      rewrite is_rehashing by done. lia. }
    destruct (next_bucket it1 false (it_index it1 + 1) rest) as [(it' & E & Hat & Hm)|(o & E & Ho)];
      [done|done|done|done|lia|rewrite Hi; replace (Z.max 0 (rehashidx d) - 1 + 1) with (Z.max 0 (rehashidx d)) by lia; done|left|right].
    + exists it'. split; [exact E|]. split; [by right|]. split; [by apply Hpos|]. cbn iota in Hm. rewrite Hi in Hm.
      unfold turns_left at 2. cbn [dictInitIterator it_table it_index it_entry is_nil]. lia.
    + exists o. split; [exact E|done].
  - destruct Hat as (Hs & Hf & Hat). unfold next_entry_body. destruct (is_nil (it_entry it)) eqn:En.
    + assert (0 <= it_index it) as Hi0 by (destruct (it_table it); lia).
      replace (start_iteration d it) with (d, it) by (unfold start_iteration; by replace (it_index it =? -1) with false by lia).
      destruct (next_bucket it (it_table it) (it_index it + 1) rest) as [(it' & -> & Hat' & Hm)|(o & -> & Ho)];
        [done|done|done|by destruct (it_table it); [intros; apply Hat|]|destruct (it_table it); lia| |left|right; eauto].
      * unfold bucket_rest in Hat. rewrite En in Hat. cbn [app] in Hat.
        destruct (it_table it); [rewrite app_nil_r|]; apply Hat.
      * exists it'. split; [done|]. split; [by right|]. split; [by apply Hpos|]. unfold turns_left at 2. rewrite En.
        destruct (it_table it); lia.
    + cbn beta iota. unfold return_entry. cbn [it_entry at_entry]. destruct (it_nextEntry it) as [|k|k nx|k v nx] eqn:Ex; [left|right..].
      { eexists. split; [done|]. assert (iter_at d (at_entry it (it_index it) (it_table it) Nil Nil) tb0 tb1 rest) as Hat'.
        { split; [done|]. split; [done|]. unfold bucket_rest in *. rewrite En in Hat. exact Hat. }
        split; [by right|]. split; [by apply Hpos|]. unfold turns_left. rewrite En. cbn. destruct (it_table it); lia. }
      all: eexists; split; [done|]; unfold returned; split_and!; [done..|].
      all: unfold bucket_rest in Hat; rewrite En in Hat; cbn [chain_entries] in Hat.
      all: destruct (it_table it) eqn:Etb; destruct_and! Hat; subst rest.
      all: split_and!; [done|done|]; split; [done|]; split; [done|]; cbn [at_entry it_table it_index it_entry it_nextEntry]; try rewrite Etb;
        split_and!; (done || lia).
Qed.
End Turn.

(** What is left before an unsafe iterator over [d]. *)
Lemma dictNext_spec d it rest :
  iterating d it rest ->
  exists it' c, dictNext d it = Some (d, it', c) /\ dictResetIterator d it' = Some d /\
    match rest with
    | [] => c = Nil
    | e :: rest => c <> Nil /\ head_entry c = Some e /\ iterating d it' rest
    end.
Proof.
  intros (tb0 & tb1 & Ht & Hst). unfold dictNext.
  destruct (loop_ok next_entry_body (fun st => st.1 = d /\ iter_state d tb0 tb1 st.2 rest) (returned d tb0 tb1 rest)
    (fun st => turns_left tb0 tb1 st.2))
    with (fuel := S (S (S (length (default [] (table (ht0 d))) + length (default [] (table (ht1 d)))))))
         (s := (d, it)) as ([[d' it'] c] & -> & Hr).
  - intros [d0 it0] [Hd Hs]. simpl in Hd, Hs. subst d0. split.
    { destruct Hs as [[-> _]|(_ & _ & Hat)].
      - unfold turns_left. cbn. pose proof (zlen_nonneg tb0). pose proof (zlen_nonneg tb1). lia.
      - unfold turns_left. cbn [snd]. pose proof (zlen_nonneg tb1). destruct (it_table it0), (is_nil (it_entry it0)); lia. }
    destruct (next_turn d tb0 tb1 Ht it0 rest Hs) as [(it1 & -> & Hs1 & Hm)|(o & -> & Ho)]; [left|right; eauto].
    exists (d, it1). split; [done|]. split; [done|]. simpl. lia.
  - done.
  - simpl. destruct (tables_zlen d tb0 tb1 Ht) as (_ & E0 & E1 & E2). rewrite E0.
    assert (zlen tb1 <= Z.of_nat (length (default [] (table (ht1 d))))) as H1.
    { destruct (Z.ltb_spec (rehashidx d) 0) as [Hneg|Hge]; [destruct (E2 Hneg) as [_ ->]; unfold zlen; simpl; lia|].
      destruct (E1 Hge) as [_ ->]. unfold zlen. lia. }
    destruct Hst as [[-> _]|(_ & _ & Hat)].
    + unfold turns_left. cbn. unfold zlen in *. lia.
    + unfold turns_left. unfold zlen in *. destruct (it_table it), (is_nil (it_entry it)); lia.
  - destruct Hr as (-> & Hs & Hf & Hrest). exists it', c. split; [done|]. split.
    { unfold dictResetIterator. rewrite Hs, Hf, Z.eqb_refl. cbn. by destruct (negb _). }
    destruct rest as [|e rest]; [done|]. destruct Hrest as (Hc & He & Hat). split; [done|]. split; [done|].
    exists tb0, tb1. split; [done|by right].
Qed.

(** A new iterator has the entries of the dictionary before it. *)
Lemma init_iterating d es : DictOk d es -> exists rest, iterating d (dictInitIterator false) rest /\ rest ≡ₚ es.
Proof.
  intros [H0 H1 Hr ->|tb0 H0 H1 Hr HP|tb0 tb1 H0 H1 Hr Hb HP].
  - exists []. split; [|done]. exists [], []. split; [by left|]. left. by rewrite drop_nil.
  - exists (tb_entries tb0). split; [|done]. exists tb0, []. split; [right; left; done|]. left. split; [done|].
    rewrite Hr. simpl. by rewrite app_nil_r.
  - eexists. split; [exists tb0, tb1; split; [right; right; done|by left]|]. rewrite HP. f_equiv.
    rewrite <- (take_drop (Z.to_nat (Z.max 0 (rehashidx d))) tb0) at 2. rewrite tb_entries_app.
    replace (tb_entries (take _ tb0)) with (@nil entry); [done|]. symmetry.
    apply elem_of_nil_inv. intros e He. apply tb_entries_elem in He as (i & c & Hi & Hc).
    apply lookup_take_Some in Hi as [Hi Hlt]. rewrite (Hb i c) in Hc; [by apply not_elem_of_nil in Hc|lia|done].
Qed.
End Iter.
