(* ===== verification/SetObj.v ===== *)
(** * Sets ([t_set.c])

    A set is an intset, a listpack or a hash table without values, and moves to a larger encoding
    when a member or the number of members asks for it.  A member is given or returned as a string
    or as an integer ([melem]; [str] is NULL for an integer).  The flag [str_is_sds] only says
    whether a temporary copy of the string is made, so it has no counterpart.  A failed
    [serverAssert], a NULL listpack and a dangling pointer are [None]. *)
From S2P Require Import Prelude Numstr Intset Listpack ListpackOps Dict DictOps DictFacts DictRehash DictFind DictIter Skiplist Zzl Zset.

Inductive melem := MStr (s : list Z) | MInt (v : Z).

(** The keys are owned strings, whose addresses are odd. *)
Definition setDictType (dictSdsHash : list Z -> Z) : DictType := {|
  dkey := list Z; dval := unit; key_eqb a b := bool_decide (a = b); key_odd _ := true;
  hashFunction := dictSdsHash; keyCompare := Some dictSdsKeyCompare;
  storedHashFunction := None; storedKeyCompare := None; keyDup := None; valDup := None;
  keyDestructor := true; valDestructor := false; rehashingStarted := false; rehashingCompleted := false;
  resizeAllowed := None; no_value := true; keys_are_odd := true |}.

Section Set_.
Context `{Allocator}.
Context (dictSdsHash : list Z -> Z) (resize : dictResizeEnable).
#[local] Instance SD : DictType := setDictType dictSdsHash.
Context (table_addr : @dict SD -> bool -> Z).
Context (set_max_intset_entries set_max_listpack_entries set_max_listpack_value : Z).

Inductive sobj := SetIntset (st : intset) | SetListpack (lp : list Z) | SetHT (d : @dict SD).

(** The encodings a set can be converted to. *)
Inductive senc := ENC_HT | ENC_LISTPACK.

Definition createSetObject : sobj := SetHT dictCreate.
Definition createIntsetObject : sobj := SetIntset intsetNew.
Definition createSetListpackObject : option sobj := lp ← lpNew 0; Some (SetListpack lp).

Definition isSdsRepresentableAsLongLong (s : list Z) : option (option Z) := string2ll s (zlen s).

(** [ll2string(tmpbuf, sizeof tmpbuf, llval)] for an integer. *)
Definition elem_text (m : melem) : option (list Z) :=
  match m with MStr s => Some s | MInt v => sdsfromlonglong v end.

(** ** Size *)

(** Counting the entries of a listpack may store the count in its header. *)
Definition setTypeSize (o : sobj) : option (sobj * Z) :=
  match o with
  | SetHT d => Some (o, dictSize d)
  | SetIntset st => Some (o, intsetLen st)
  | SetListpack lp => '(lp, n) ← lpLength lp; Some (SetListpack lp, n)
  end.

(** ** Iteration *)

Inductive setTypeIterator := ItHT (di : @dictIterator SD) | ItIntset (ii : Z) | ItListpack (lpi : option Z).

Definition setTypeInitIterator (o : sobj) : setTypeIterator :=
  match o with
  | SetHT _ => ItHT (dictInitIterator false)
  | SetIntset _ => ItIntset 0
  | SetListpack _ => ItListpack None
  end.

(** The next member, or [None] inside for -1.  The iterator is unsafe: [dictNext] leaves the
    dictionary as it is. *)
Definition setTypeNext (o : sobj) (si : setTypeIterator) : option (setTypeIterator * option melem) :=
  match o, si with
  | SetHT d, ItHT di =>
      '(_, di, de) ← dictNext table_addr d di;
      Some (ItHT di, match dictGetKey de with Some k => Some (MStr k) | None => None end)
  | SetIntset st, ItIntset ii =>
      r ← intsetGet st (u32 ii);
      Some (ItIntset (s32 (ii + 1)), match r with Some v => Some (MInt v) | None => None end)
  | SetListpack lp, ItListpack lpi =>
      lpi' ← (match lpi with None => lpFirst lp | Some p => lpNext lp p end);
      match lpi' with
      | None => Some (si, None)
      | Some p =>
          v ← lpGetValue lp p;
          m ← match v with
              | LpStr off len => s ← mem_read lp off len; Some (MStr s)
              | LpInt v => Some (MInt v)
              end;
          Some (ItListpack (Some p), Some m)
      end
  | _, _ => None
  end.

Definition setTypeNextObject (o : sobj) (si : setTypeIterator) : option (setTypeIterator * option (list Z)) :=
  '(si, m) ← setTypeNext o si;
  match m with
  | None => Some (si, None)
  | Some m => s ← elem_text m; Some (si, Some s)
  end.

Definition setTypeReleaseIterator (o : sobj) (si : setTypeIterator) : option unit :=
  match o, si with
  | SetHT d, ItHT di => _ ← dictResetIterator table_addr d di; Some tt
  | _, _ => Some tt
  end.

(** More turns than the set has members. *)
Definition iter_fuel (o : sobj) : nat :=
  match o with
  | SetHT d => S (Z.to_nat (dictSize d))
  | SetIntset st => S (Z.to_nat (is_length st))
  | SetListpack lp => S (length lp)
  end.

(** [while (setTypeNext(si, ...) != -1) f], where [subject] is the set in the current state and [f]
    goes on with [inl] or leaves the loop with [inr]. *)
Definition iterate_body {S} (subject : S -> option sobj) (f : melem -> S -> option (S + S)) (st : setTypeIterator * S) :
    option (setTypeIterator * S + setTypeIterator * S) :=
  let '(si, s) := st in
  o ← subject s;
  '(si, m) ← setTypeNext o si;
  match m with
  | None => Some (inr (si, s))
  | Some m => r ← f m s; Some (match r with inl s => inl (si, s) | inr s => inr (si, s) end)
  end.

Definition iterate {S} (subject : S -> option sobj) (f : melem -> S -> option (S + S)) (s : S) : option S :=
  o ← subject s;
  '(si, s) ← loop (iter_fuel o) (iterate_body subject f) (setTypeInitIterator o, s);
  o ← subject s;
  _ ← setTypeReleaseIterator o si;
  Some s.

(** ** Conversion *)

Definition convert_to_ht (o : sobj) (m : melem) (d : @dict SD) : option (@dict SD + @dict SD) :=
  element ← elem_text m;
  '(d, ok) ← dictAdd resize d (element : @dkey SD) (tt : @dval SD);
  _ ← assert_true ok;
  Some (inl d).

Definition append_elem (m : melem) (lp : list Z) : option (list Z + list Z) :=
  r ← match m with MStr s => lpAppend lp s (u32 (zlen s)) | MInt v => lpAppendInteger lp v end;
  lp ← r;
  Some (inl lp).

(** [panic] is [None] for 1, and whether the allocation of the table fails for 0.  The boolean is
    [C_OK]. *)
Definition setTypeConvertAndExpand (o : sobj) (enc : senc) (cap : Z) (panic : option bool) : option (sobj * bool) :=
  match enc with
  | ENC_HT =>
      _ ← assert_true (match o with SetHT _ => false | _ => true end);
      '(d, ok) ← match panic with
                 | None => '(d, _) ← dictExpand dictCreate cap; Some (d, true)
                 | Some fails => dictTryExpand dictCreate cap fails
                 end;
      if negb ok then Some (o, false)
      else
        d ← iterate (fun _ => Some o) (convert_to_ht o) d;
        Some (SetHT d, true)
  | ENC_LISTPACK =>
      _ ← assert_true (match o with SetListpack _ => false | _ => true end);
      let estcap := u64 (cap * 2) in
      estcap ← match o with
               | SetIntset st =>
                   if intsetLen st >? 0 then
                     mn ← intsetMin st; mx ← intsetMax st;
                     Some (Z.max (lpEstimateBytesRepeatedInteger mn cap) (lpEstimateBytesRepeatedInteger mx cap))
                   else Some estcap
               | _ => Some estcap
               end;
      lp ← lpNew estcap;
      lp ← iterate (fun _ => Some o) append_elem lp;
      Some (SetListpack lp, true)
  end.

Definition setTypeConvert (o : sobj) (enc : senc) : option sobj :=
  '(o, n) ← setTypeSize o; '(o, _) ← setTypeConvertAndExpand o enc n None; Some o.

(** ** Creation *)

Definition setTypeCreate (value : list Z) (size_hint : Z) : option sobj :=
  r ← isSdsRepresentableAsLongLong value;
  if bool_decide (is_Some r) && (size_hint <=? set_max_intset_entries) then Some createIntsetObject
  else if size_hint <=? set_max_listpack_entries then createSetListpackObject
  else '(d, _) ← dictExpand dictCreate size_hint; Some (SetHT d).

Definition setTypeMaybeConvert (o : sobj) (size_hint : Z) : option sobj :=
  if match o with
     | SetListpack _ => size_hint >? set_max_listpack_entries
     | SetIntset _ => size_hint >? set_max_intset_entries
     | SetHT _ => false
     end
  then '(o, _) ← setTypeConvertAndExpand o ENC_HT size_hint None; Some o
  else Some o.

Definition intsetMaxEntries : Z :=
  let max_entries := set_max_intset_entries in
  if max_entries >=? Z.shiftl 1 30 then Z.shiftl 1 30 else max_entries.

Definition maybeConvertIntset (st : intset) : option sobj :=
  if intsetLen st >? intsetMaxEntries then setTypeConvert (SetIntset st) ENC_HT else Some (SetIntset st).

Definition to_intset_elem (m : melem) (st : intset) : option (intset + intset) :=
  llval ← match m with MStr s => r ← string2ll s (zlen s); r | MInt v => Some v end;
  '(st, success) ← intsetAdd st llval;
  _ ← assert_true success;
  Some (inl st).

Definition maybeConvertToIntset (o : sobj) : option sobj :=
  match o with
  | SetIntset _ => Some o
  | _ =>
      '(o, n) ← setTypeSize o;
      if n >? intsetMaxEntries then Some o
      else st ← iterate (fun _ => Some o) to_intset_elem intsetNew; Some (SetIntset st)
  end.

(** ** Adding *)

Definition add_to_ht (d : @dict SD) (str : list Z) : option (sobj * bool) :=
  '(d, position) ← dictFindPositionForInsert resize d (str : @dkey SD);
  match position with
  | inr position => '(d, _) ← dictInsertAtPosition d (str : @dkey SD) position; Some (SetHT d, true)
  | inl _ => Some (SetHT d, false)
  end.

(** [serverAssert(dictAdd(set->ptr,sdsnewlen(str,len),NULL) == DICT_OK)] after a conversion. *)
Definition convert_and_add (o : sobj) (cap : Z) (str : list Z) : option (sobj * bool) :=
  '(o, _) ← setTypeConvertAndExpand o ENC_HT cap None;
  match o with
  | SetHT d => '(d, ok) ← dictAdd resize d (str : @dkey SD) (tt : @dval SD); _ ← assert_true ok; Some (SetHT d, true)
  | _ => None
  end.

(** [llval] is set when the member came in as an integer. *)
Definition add_to_listpack (lp : list Z) (str : list Z) (llval : option Z) : option (sobj * bool) :=
  p ← lpFirst lp;
  p ← (match p with Some _ => lpFind lp p str (u32 (zlen str)) 0 | None => Some None end);
  match p with
  | Some _ => Some (SetListpack lp, false)
  | None =>
      '(lp, n) ← lpLength lp;
      safe ← lpSafeToAdd (Some lp) (zlen str);
      if (n <? set_max_listpack_entries) && (zlen str <=? set_max_listpack_value) && safe then
        r ← match llval with Some v => lpAppendInteger lp v | None => lpAppend lp str (u32 (zlen str)) end;
        lp ← r;
        Some (SetListpack lp, true)
      else
        '(lp, n) ← lpLength lp;
        convert_and_add (SetListpack lp) (u64 (n + 1)) str
  end.

(** [maxelelen] and [totsize]: bounds for the listpack an intset would become. *)
Definition intset_estimate (st : intset) : option (Z * Z) :=
  let n := intsetLen st in
  if negb (n =? 0) then
    mx ← intsetMax st; mn ← intsetMin st;
    elelen1 ← sdigits10 mx; elelen2 ← sdigits10 mn;
    let s1 := lpEstimateBytesRepeatedInteger mx n in
    let s2 := lpEstimateBytesRepeatedInteger mn n in
    Some (Z.max elelen1 elelen2, Z.max s1 s2)
  else Some (0, 0).

Definition add_to_intset (st : intset) (str : list Z) : option (sobj * bool) :=
  r ← string2ll str (zlen str);
  match r with
  | Some value =>
      '(st, success) ← intsetAdd st value;
      if (success : bool) then o ← maybeConvertIntset st; Some (o, true) else Some (SetIntset st, false)
  | None =>
      '(maxelelen, totsize) ← intset_estimate st;
      safe ← lpSafeToAdd None (u64 (totsize + zlen str));
      if (intsetLen st <? set_max_listpack_entries) && (zlen str <=? set_max_listpack_value) &&
         (maxelelen <=? set_max_listpack_value) && safe
      then
        '(o, _) ← setTypeConvertAndExpand (SetIntset st) ENC_LISTPACK (u64 (intsetLen st + 1)) None;
        match o with
        | SetListpack lp =>
            r ← lpAppend lp str (u32 (zlen str)); lp ← r;
            lp ← lpShrinkToFit lp;
            Some (SetListpack lp, true)
        | _ => None
        end
      else convert_and_add (SetIntset st) (u64 (intsetLen st + 1)) str
  end.

Definition setTypeAddAux (o : sobj) (m : melem) : option (sobj * bool) :=
  match m, o with
  | MInt llval, SetIntset st =>
      '(st, success) ← intsetAdd st llval;
      if (success : bool) then o ← maybeConvertIntset st; Some (o, true) else Some (SetIntset st, false)
  | _, _ =>
      str ← elem_text m;
      match o with
      | SetHT d => add_to_ht d str
      | SetListpack lp => add_to_listpack lp str (match m with MInt v => Some v | MStr _ => None end)
      | SetIntset st => add_to_intset st str
      end
  end.

Definition setTypeAdd (o : sobj) (value : list Z) : option (sobj * bool) := setTypeAddAux o (MStr value).

(** ** Removing and looking up *)

Definition setTypeRemoveAux (o : sobj) (m : melem) : option (sobj * bool) :=
  match m, o with
  | MInt llval, SetIntset st => '(st, success) ← intsetRemove st llval; Some (SetIntset st, success)
  | _, _ =>
      str ← elem_text m;
      match o with
      | SetHT d => '(d, deleted) ← DictOps.dictDelete resize d (str : @dkey SD); Some (SetHT d, deleted)
      | SetListpack lp =>
          p ← lpFirst lp;
          match p with
          | None => Some (o, false)
          | Some _ =>
              p ← lpFind lp p str (u32 (zlen str)) 0;
              match p with
              | Some p => r ← lpDelete lp p; '(lp, _) ← r; Some (SetListpack lp, true)
              | None => Some (o, false)
              end
          end
      | SetIntset st =>
          r ← string2ll str (zlen str);
          match r with
          | Some llval => '(st, success) ← intsetRemove st llval; Some (SetIntset st, success)
          | None => Some (o, false)
          end
      end
  end.

Definition setTypeRemove (o : sobj) (value : list Z) : option (sobj * bool) := setTypeRemoveAux o (MStr value).

(** A lookup in a hash table may do a step of its rehashing. *)
Definition setTypeIsMemberAux (o : sobj) (m : melem) : option (sobj * bool) :=
  match m, o with
  | MInt llval, SetIntset st => b ← intsetFind st llval; Some (o, b)
  | _, _ =>
      str ← elem_text m;
      match o with
      | SetListpack lp =>
          p ← lpFirst lp;
          match p with
          | None => Some (o, false)
          | Some _ => r ← lpFind lp p str (u32 (zlen str)) 0; Some (o, bool_decide (is_Some r))
          end
      | SetIntset st =>
          r ← string2ll str (zlen str);
          match r with
          | Some llval => b ← intsetFind st llval; Some (o, b)
          | None => Some (o, false)
          end
      | SetHT d => '(d, de) ← dictFind resize d (str : @dkey SD); Some (SetHT d, bool_decide (is_Some de))
      end
  end.

Definition setTypeIsMember (o : sobj) (value : list Z) : option (sobj * bool) := setTypeIsMemberAux o (MStr value).

(** ** Copying *)

Definition dup_elem (m : melem) (o : sobj) : option (sobj + sobj) :=
  match m with MStr s => '(o, _) ← setTypeAdd o s; Some (inl o) | MInt _ => None end.

Definition setTypeDup (o : sobj) : option sobj :=
  match o with
  | SetIntset st =>
      bs ← mem_read (intset_to_blob st) 0 (intsetBlobLen st);
      st ← intset_of_blob bs;
      Some (SetIntset st)
  | SetListpack lp =>
      sz ← lpBytes lp;
      new_lp ← mem_read lp 0 sz;
      Some (SetListpack new_lp)
  | SetHT d =>
      '(d', _) ← dictExpand dictCreate (dictSize d);
      iterate (fun _ => Some o) dup_elem (SetHT d')
  end.
End Set_.
