(* ===== verification/SetFacts.v ===== *)
(** * Sets: one set of strings in three encodings

    [SetRepr o L]: the object [o] holds the distinct strings [L].  Iteration, conversion and the
    operations on members, for each encoding. *)
From S2P Require Import Prelude Numstr NumstrFacts NumstrProps Intset IntsetFacts IntsetProps Listpack ListpackOps ListpackFacts ListpackEdit ListpackRange ListpackProps Dict DictOps DictFacts DictRehash DictFind DictUpdate DictProps DictIter Skiplist SkiplistOrder Zzl ZzlFacts Zset ZsetFacts SetObj.

Definition setDictOk (hash : list Z -> Z) (Hhash : forall k, 0 <= hash k < 2 ^ 64) : DictTypeOk (SD hash) false.
Proof.
  assert (Heq : forall a b : list Z, bool_decide (a = b) || dictSdsKeyCompare a b = bool_decide (a = b)).
  { intros a b. case_bool_decide as E; [done|]. apply not_true_iff_false. by rewrite orb_false_l, dictSdsKeyCompare_spec. }
  refine (Build_DictTypeOk (SD hash) false (fun a b : list Z => bool_decide (a = b)) _ _ _ _ _ _ _ _ _).
  - intros k. by apply bool_decide_eq_true.
  - intros k k' E%bool_decide_eq_true. by apply bool_decide_eq_true.
  - intros k k' k'' E1%bool_decide_eq_true E2%bool_decide_eq_true. apply bool_decide_eq_true. by rewrite E1.
  - intros d k k' _. unfold key_match, dictGetKeyCmpFunc. simpl. apply Heq.
  - intros k k' E%bool_decide_eq_true. by rewrite E.
  - intros k b. apply Hhash.
  - intros k. by apply bool_decide_eq_true.
  - done.
  - done.
Defined.

(** The string a member stands for. *)
Definition text_of (m : melem) (s : list Z) : Prop :=
  match m with MStr t => t = s | MInt v => IsDec s v /\ in_int64 v end.

(** Strings are bytes, and shorter than 2^31. *)
Definition is_str (s : list Z) : Prop := Forall is_byte s /\ zlen s < 2 ^ 31.

Section Facts.
Context `{Allocator}.
Context (hash : list Z -> Z) (Hhash : forall k, 0 <= hash k < 2 ^ 64) (resize : dictResizeEnable).
#[local] Existing Instance SD.
#[local] Instance SDok : DictTypeOk (SD hash) false := setDictOk hash Hhash.
Context (addr : @dict (SD hash) -> bool -> Z).
Context (max_intset max_entries max_value : Z).

Definition sent (s : list Z) : @Dict.dkey (SD hash) * option (@dval (SD hash)) := (s, None).

Definition TableRepr (d : @dict (SD hash)) (L : list (list Z)) : Prop :=
  DictInv (T := SD hash) false d (sent <$> L) /\ pauseAutoResize d <= 0.

Definition IntsetRepr (st : intset) (L : list (list Z)) : Prop := exists xs, Repr st xs /\ Forall2 IsDec L xs.

Record SetRepr (o : sobj hash) (L : list (list Z)) : Prop := {
  sr_nodup : NoDup L;
  sr_strs : Forall is_str L;
  sr_enc : match o with
           | SetIntset _ st => IntsetRepr st L
           | SetListpack _ lp => LpRepr lp (str_ent <$> L)
           | SetHT _ d => TableRepr d L
           end;
}.

(** ** Members as integers and as strings *)

Lemma elem_text_spec m s : text_of m s -> elem_text m = Some s.
Proof.
  destruct m as [t|v]; simpl; [by intros ->|]. intros [Hd Hv].
  destruct (print_int (Z.to_nat LONG_STR_SIZE) v Hv) as (t & Ht & E & _); [done|].
  unfold sdsfromlonglong. rewrite <- (IsDec_unique _ _ _ Ht Hd). exact E.
Qed.

Lemma enc_in_int64 e v : enc_ok e -> in_enc e v -> in_int64 v.
Proof. intros He [H1 H2]. unfold in_int64. unfold_limits. destruct He as [->|[->| ->]]; simpl in H1, H2; lia. Qed.

Lemma intset_values st xs : Repr st xs -> Forall in_int64 xs.
Proof. intros HR. eapply Forall_impl; [apply HR|]. intros v. apply enc_in_int64, HR. Qed.

Lemma string_parses s : exists r, string2ll s (zlen s) = Some r /\ forall v, r = Some v <-> IsDec s v /\ in_int64 v.
Proof. destruct (string2ll_spec s []) as (r & E & Hr). rewrite app_nil_r in E. by exists r. Qed.

(** ** Iteration *)

(** Hash tables yield strings, intsets integers. *)
Definition yields (o : sobj hash) (m : melem) (s : list Z) : Prop :=
  text_of m s /\ match o, m with SetHT _ _, MInt _ | SetIntset _ _, MStr _ => False | _, _ => True end.

(** The strings an iterator has before it. *)
Definition iter_rest (o : sobj hash) (si : setTypeIterator hash) (rest : list (list Z)) : Prop :=
  match o, si with
  | SetHT _ d, ItHT _ di => iterating (T := SD hash) addr d di (sent <$> rest)
  | SetIntset _ st, ItIntset _ ii =>
      exists L i, IntsetRepr st L /\ zlen L < 2 ^ 29 /\ ii = Z.of_nat i /\ (i <= length L)%nat /\ rest = drop i L
  | SetListpack _ lp, ItListpack _ lpi =>
      exists L, LpRepr lp (str_ent <$> L) /\
        match lpi with
        | None => rest = L
        | Some p => exists i, (i < length L)%nat /\ p = ent_off (str_ent <$> L) i /\ rest = drop (S i) L
        end
  | _, _ => False
  end.

Lemma lp_member_at lp L i s :
  LpRepr lp (str_ent <$> L) -> L !! i = Some s ->
  exists v m, lpGetValue lp (ent_off (str_ent <$> L) i) = Some v /\
    match v with LpStr off len => s ← mem_read lp off len; Some (MStr s) | LpInt v => Some (MInt v) end = Some m /\
    text_of m s.
Proof.
  intros HR Hi. destruct (value_at lp _ HR i (str_ent s)) as (v & -> & Hv); [by rewrite list_lookup_fmap, Hi|].
  destruct (str_ent s) as [x|t] eqn:Es, v as [y|off len]; try done.
  - subst y. exists (LpInt x), (MInt x). split; [done|]. split; [done|]. by apply str_ent_int.
  - destruct Hv as [-> Hm]. exists (LpStr off (zlen t)), (MStr t). split; [done|]. rewrite Hm. split; [done|].
    by apply str_ent_str.
Qed.

Lemma set_next_spec o si rest : iter_rest o si rest ->
  exists si' m, setTypeNext hash addr o si = Some (si', m) /\ setTypeReleaseIterator hash addr o si' = Some tt /\
    match rest with
    | [] => m = None
    | s :: rest => exists e, m = Some e /\ yields o e s /\ iter_rest o si' rest
    end.
Proof.
  destruct o as [st|lp|d], si as [di|ii|lpi]; try done; simpl iter_rest.
  - intros (L & i & (xs & HR & HL) & Hl & -> & Hi & ->). unfold setTypeNext.
    assert (zlen xs = zlen L) as Hz by (unfold zlen; by rewrite (Forall2_length _ _ _ HL)).
    rewrite wrapu_small by (unfold zlen in *; lia).
    rewrite (intsetGet_correct st xs (Z.of_nat i) HR) by (unfold_limits; unfold zlen in *; lia). rewrite Nat2Z.id.
    cbn [mbind option_bind]. eexists _, _. split; [done|]. split; [done|].
    destruct (decide (i < length L)%nat) as [Hlt|Hge].
    + destruct (lookup_lt_is_Some_2 L i Hlt) as [s Hs]. destruct (Forall2_lookup_l _ _ _ _ _ HL Hs) as (v & Hv & Hd).
      rewrite (drop_S _ _ _ Hs), Hv. eexists. split; [done|]. split.
      * split; [|done]. split; [done|]. eapply Forall_lookup_1; [apply (intset_values st xs HR)|done].
      * exists L, (S i). split; [by exists xs|]. split; [done|]. split; [|split; [lia|done]].
        rewrite wraps_small by (unfold zlen in *; lia). lia.
    + rewrite drop_ge by lia. rewrite lookup_ge_None_2; [done|]. unfold zlen in Hz. lia.
  - intros (L & HR & Hp). unfold setTypeNext.
    assert (exists i, (match lpi with None => lpFirst lp | Some p => lpNext lp p end) = Some (ent_ptr (str_ent <$> L) i) /\
      rest = drop i L /\ (i <= length L)%nat) as (i & -> & -> & Hi).
    { destruct lpi as [p|].
      - destruct Hp as (i & Hi & -> & ->). exists (S i). split; [|split; [done|lia]].
        apply (zl_next_at lp _ HR). by rewrite length_fmap.
      - subst rest. exists O. split; [|split; [done|lia]]. destruct HR as (num & slack & -> & WF). by apply lpFirst_block. }
    cbn [mbind option_bind]. unfold ent_ptr. rewrite length_fmap. destruct (decide (i < length L)%nat) as [Hlt|Hge].
    + destruct (lookup_lt_is_Some_2 L i Hlt) as [s Hs]. rewrite (drop_S _ _ _ Hs).
      destruct (lp_member_at lp L i s HR Hs) as (v & m & -> & E & Ht). cbn [mbind option_bind]. rewrite E. cbn [mbind option_bind].
      eexists _, _. split; [done|]. split; [done|]. exists m. split; [done|]. split; [by split|]. exists L. split; [done|].
      by exists i.
    + rewrite drop_ge by lia. eexists _, _. split; [done|]. done.
  - intros Hit. unfold setTypeNext. destruct (dictNext_spec (T := SD hash) addr d di _ Hit) as (di' & c & -> & Hre & Hc).
    cbn [mbind option_bind]. eexists _, _. split; [done|]. split; [simpl; by rewrite Hre|].
    destruct rest as [|s rest]; simpl in Hc; [by subst c|]. destruct Hc as (Hn & Hh & Hit').
    eexists. split; [|split; [|exact Hit']].
    + destruct c; simpl in Hh; [done|..]; injection Hh as ->; done.
    + done.
Qed.

Lemma iter_start o L : SetRepr o L -> zlen L < 2 ^ 29 ->
  exists L', L' ≡ₚ L /\ iter_rest o (setTypeInitIterator hash o) L' /\ (length L < iter_fuel hash o)%nat.
Proof.
  intros [HN Hs He] Hl. destruct o as [st|lp|d]; simpl.
  - exists L. split; [done|]. split; [exists L, O; split_and!; (done || lia)|]. destruct He as (xs & HR & HL).
    rewrite (repr_len _ _ HR). unfold zlen. rewrite <- (Forall2_length _ _ _ HL). lia.
  - exists L. split; [done|]. split; [by exists L|]. pose proof (entries_in_block lp _ He) as Hb.
    unfold zlen in Hb. rewrite length_fmap in Hb. lia.
  - destruct He as [Hd Hp]. destruct (init_iterating (T := SD hash) addr d _ (di_ok _ _ _ Hd)) as (rest & Hit & HP).
    apply Permutation_map_inv in HP as HP'. destruct HP' as (L' & -> & HP').
    exists L'. split; [done|]. split; [exact Hit|].
    rewrite (dict_size (T := SD hash) d _ (di_ok _ _ _ Hd)) by (rewrite zlen_fmap; lia). rewrite zlen_fmap. unfold zlen. lia.
Qed.

Section Rule.
  Context {S : Type} (o : sobj hash) (subject : S -> option (sobj hash)) (f : melem -> S -> option (S + S)).
  Context (L' : list (list Z)) (I : list (list Z) -> S -> Prop) (Q : S -> Prop).
  Context (HI : forall done s, I done s -> subject s = Some o) (HQ : forall s, Q s -> subject s = Some o).
  Context (Hf : forall done x rest m s, L' = done ++ x :: rest -> yields o m x -> I done s ->
             exists r, f m s = Some r /\ match r with inl s' => I (done ++ [x]) s' | inr s' => Q s' end).

Lemma iterate_loop rest : forall done si s fuel,
  L' = done ++ rest -> iter_rest o si rest -> I done s -> (length rest < fuel)%nat ->
  exists si' s', loop fuel (iterate_body hash addr subject f) (si, s) = Some (si', s') /\
    setTypeReleaseIterator hash addr o si' = Some tt /\ (I L' s' \/ Q s').
Proof.
  induction rest as [|x rest IH]; intros done si s fuel HL Hr HIs Hfu; (destruct fuel as [|fuel]; [simpl in Hfu; lia|]).
  all: rewrite loop_step; unfold iterate_body at 1; rewrite (HI _ _ HIs); cbn [mbind option_bind].
  all: destruct (set_next_spec o si _ Hr) as (si' & m & -> & Hre & Hm); cbn [mbind option_bind].
  - subst m. exists si', s. split; [done|]. split; [done|]. left. by rewrite HL, app_nil_r.
  - destruct Hm as (e & -> & He & Hr'). destruct (Hf done x rest e s HL He HIs) as (r & -> & Hres). cbn [mbind option_bind].
    destruct r as [s'|s'].
    + apply (IH (done ++ [x])); [by rewrite <- app_assoc|done|done|simpl in Hfu; lia].
    + exists si', s'. split; [done|]. split; [done|]. by right.
Qed.
End Rule.

(** The rule for a loop over the members of [o], which the body does not change. *)
Lemma iterate_rule o L : SetRepr o L -> zlen L < 2 ^ 29 ->
  exists L', L' ≡ₚ L /\
    forall {S : Type} (subject : S -> option (sobj hash)) f (I : list (list Z) -> S -> Prop) (Q : S -> Prop) s0,
      I [] s0 -> (forall done s, I done s -> subject s = Some o) -> (forall s, Q s -> subject s = Some o) ->
      (forall done x rest m s, L' = done ++ x :: rest -> yields o m x -> I done s ->
         exists r, f m s = Some r /\ match r with inl s' => I (done ++ [x]) s' | inr s' => Q s' end) ->
      exists s', iterate hash addr subject f s0 = Some s' /\ (I L' s' \/ Q s').
Proof.
  intros Ho Hl. destruct (iter_start o L Ho Hl) as (L' & HP & Hit & Hfu). exists L'. split; [done|].
  intros S subject f I Q s0 H0 HI HQ Hf. unfold iterate. rewrite (HI _ _ H0). cbn [mbind option_bind].
  destruct (iterate_loop o subject f L' I Q HI Hf L' [] _ s0 (iter_fuel hash o) eq_refl Hit H0) as (si' & s' & -> & Hre & Hs').
  { by rewrite HP. }
  cbn [mbind option_bind]. assert (subject s' = Some o) as -> by (destruct Hs' as [Hs'|Hs']; eauto).
  cbn [mbind option_bind]. rewrite Hre. cbn [mbind option_bind]. eauto.
Qed.

(** ** Conversion *)

Lemma new_table cap : 0 <= cap < 2 ^ 64 ->
  exists d b, dictExpand (T := SD hash) dictCreate cap = Some (d, b) /\ TableRepr d [].
Proof.
  intros Hc. assert (DictOk (T := SD hash) dictCreate []) as Hok by (by apply Ok_empty).
  destruct (dictExpand_spec (T := SD hash) dictCreate [] cap Hok Hc) as (d & b & E' & Hok' & (Hf1 & Hf2 & Hf3) & _).
  exists d, b. split; [done|]. split; [by split|]. rewrite Hf3. simpl. lia.
Qed.

Lemma has_member L s : has_key (T := SD hash) false s (sent <$> L) = bool_decide (s ∈ L).
Proof.
  destruct (bool_decide_reflect (s ∈ L)) as [Hin|Hno].
  - apply has_key_true. exists (sent s). split; [by apply list_elem_of_fmap_2|]. apply bool_decide_eq_true. done.
  - apply has_key_false. intros e He. apply list_elem_of_fmap in He as (t & -> & Ht). apply bool_decide_eq_false. intros E. apply Hno. simpl in E. by rewrite E.
Qed.

Lemma table_add d L s : TableRepr d L -> zlen L < 2 ^ 30 ->
  exists d', dictAdd (T := SD hash) resize d s tt = Some (d', bool_decide (s ∉ L)) /\
    TableRepr d' (if decide (s ∈ L) then L else s :: L).
Proof.
  intros [Hd Hp] Hl.
  destruct (map_add_spec (T := SD hash) false resize d (sent <$> L) s tt Hd) as (d' & -> & Hf & Hd'); [rewrite zlen_fmap; lia|by left|].
  unfold map_add in Hd'. rewrite has_member in *. exists d'. split; [by rewrite bool_decide_not|].
  assert (pauseAutoResize d' <= 0) by (destruct Hf as (_ & _ & ->); done).
  destruct (decide (s ∈ L)) as [Hin|Hno]; [rewrite bool_decide_eq_true_2 in Hd' by done|rewrite bool_decide_eq_false_2 in Hd' by done]; by split.
Qed.

Lemma table_perm d L L' : TableRepr d L -> L ≡ₚ L' -> TableRepr d L'.
Proof. intros [Hd Hp] HP. split; [|done]. eapply inv_perm; [exact Hd|]. by rewrite HP. Qed.

Lemma to_table_rule o L d0 : SetRepr o L -> zlen L < 2 ^ 29 -> TableRepr d0 [] ->
  exists d, iterate hash addr (fun _ => Some o) (convert_to_ht hash resize o) d0 = Some d /\ TableRepr d L.
Proof.
  intros Ho Hl Hd0. destruct (iterate_rule o L Ho Hl) as (L' & HP & Hrule).
  assert (NoDup L') as HN by (rewrite HP; apply Ho).
  destruct (Hrule _ (fun _ => Some o) (convert_to_ht hash resize o) (fun done d => TableRepr d done) (fun _ => False) d0)
    as (d & -> & [Hd|[]]); [done|done|done| |exists d; split; [done|by eapply table_perm]].
  intros done x rest m d HL [Hm _] Hd. unfold convert_to_ht. rewrite (elem_text_spec m x Hm). cbn [mbind option_bind].
  assert (x ∉ done) as Hx by (subst L'; apply NoDup_app in HN as (_ & HN & _); intros Hin; apply (HN x Hin); left).
  assert (zlen done <= zlen L) as Hlen by (unfold zlen; rewrite <- HP, HL, length_app; lia).
  destruct (table_add d done x Hd) as (d' & -> & Hd'); [lia|]. cbn [mbind option_bind].
  rewrite bool_decide_eq_true_2 by done. cbn [assert_true mbind option_bind]. eexists. split; [done|].
  rewrite decide_False in Hd' by done. eapply table_perm; [done|]. by rewrite Permutation_app_comm.
Qed.

Lemma convert_ht_spec o L cap : SetRepr o L -> zlen L < 2 ^ 29 -> (forall d, o <> SetHT hash d) -> 0 <= cap < 2 ^ 64 ->
  exists d, setTypeConvertAndExpand hash resize addr o ENC_HT cap None = Some (SetHT hash d, true) /\ TableRepr d L.
Proof.
  intros Ho Hl Hn Hc. unfold setTypeConvertAndExpand.
  replace (match o with SetHT _ _ => false | _ => true end) with true by (destruct o; [done..|by destruct (Hn d)]).
  cbn [assert_true mbind option_bind]. destruct (new_table cap Hc) as (d0 & b & -> & Hd0). cbn [mbind option_bind negb].
  destruct (to_table_rule o L d0 Ho Hl Hd0) as (d & -> & Hd). cbn [mbind option_bind]. by exists d.
Qed.

(** *** The size of listpacks *)

Lemma body_perm es es' : es ≡ₚ es' -> zlen (lp_body es) = zlen (lp_body es').
Proof. induction 1; rewrite ?lp_body_cons, ?zlen_app; lia. Qed.

Lemma total_prefix a b : lp_total a <= lp_total (a ++ b).
Proof. unfold lp_total. rewrite lp_body_app, zlen_app. pose proof (zlen_nonneg (lp_body b)). lia. Qed.

Lemma total_snoc es e : lp_total (es ++ [e]) = lp_total es + zlen (ent_bytes e).
Proof. unfold lp_total. rewrite lp_body_app, zlen_app, lp_body_cons, zlen_app. change (zlen (lp_body [])) with 0. lia. Qed.

Lemma append_spec m s lp es : text_of m s -> is_str s -> LpRepr lp es -> lp_total (es ++ [str_ent s]) <= UINT32_MAX ->
  exists lp', match m with MStr s => lpAppend lp s (u32 (zlen s)) | MInt v => lpAppendInteger lp v end = Some (Some lp') /\
    LpRepr lp' (es ++ [str_ent s]).
Proof.
  intros Hm [Hb Hl] HR Hfit.
  assert (refines_block (match m with MStr s => lpAppend lp s (u32 (zlen s)) | MInt v => lpAppendInteger lp v end) (es ++ [str_ent s])) as Hr.
  { destruct m as [t|v]; simpl in Hm.
    - subst t. rewrite wrapu_small by (pose proof (zlen_nonneg s); lia). unfold lpAppend. apply end_insert; [done|].
      simpl. split_and!; [done|done|unfold_limits; lia|done].
    - destruct Hm as [Hd Hv]. rewrite (str_ent_dec s v Hd Hv). unfold lpAppendInteger, lpInsertInteger. apply end_insert; [done|].
      simpl. by exists v. }
  unfold refines_block in Hr. rewrite decide_True in Hr by done. exact Hr.
Qed.

Lemma to_listpack_rule o L lp0 : SetRepr o L -> zlen L < 2 ^ 29 -> LpRepr lp0 [] -> lp_total (str_ent <$> L) <= UINT32_MAX ->
  exists lp L', iterate hash addr (fun _ => Some o) append_elem lp0 = Some lp /\ LpRepr lp (str_ent <$> L') /\ L' ≡ₚ L.
Proof.
  intros Ho Hl Hlp0 Hfit. destruct (iterate_rule o L Ho Hl) as (L' & HP & Hrule).
  destruct (Hrule _ (fun _ => Some o) append_elem (fun done lp => LpRepr lp (str_ent <$> done)) (fun _ => False) lp0)
    as (lp & -> & [Hlp|[]]); [done|done|done| |by exists lp, L'].
  intros done x rest m lp HL [Hm _] Hlp. unfold append_elem.
  assert (is_str x) as Hx.
  { eapply Forall_forall; [apply (sr_strs _ _ Ho)|]. rewrite <- HP, HL. apply elem_of_app. right. left. }
  destruct (append_spec m x lp _ Hm Hx Hlp) as (lp' & -> & Hlp').
  { etrans; [|exact Hfit]. unfold lp_total at 2. rewrite <- (body_perm (str_ent <$> L') (str_ent <$> L)) by (by rewrite HP).
    fold (lp_total (str_ent <$> L')). rewrite HL, fmap_app, fmap_cons.
    rewrite (cons_middle _ _ (str_ent <$> rest)), app_assoc. apply total_prefix. }
  cbn [mbind option_bind]. eexists. split; [done|]. by rewrite fmap_app.
Qed.

(** ** Integers *)

Lemma IsDec_fun s v w : IsDec s v -> in_int64 v -> IsDec s w -> in_int64 w -> v = w.
Proof.
  intros Hv Iv Hw Iw. destruct (string_parses s) as (r & _ & Hr).
  assert (r = Some v) as Ev by (by apply Hr). assert (r = Some w) as Ew by (by apply Hr). congruence.
Qed.

Lemma intset_member st xs L s v : Repr st xs -> Forall2 IsDec L xs -> IsDec s v -> in_int64 v -> v ∈ xs <-> s ∈ L.
Proof.
  intros HR HL Hd Hv. pose proof (intset_values st xs HR) as Hxs. split; intros Hin.
  - apply list_elem_of_lookup in Hin as [i Hi]. destruct (Forall2_lookup_r _ _ _ _ _ HL Hi) as (t & Ht & Hdt).
    rewrite (IsDec_unique s t v Hd Hdt). by eapply list_elem_of_lookup_2.
  - apply list_elem_of_lookup in Hin as [i Hi]. destruct (Forall2_lookup_l _ _ _ _ _ HL Hi) as (w & Hw & Hdw).
    rewrite (IsDec_fun s v w Hd Hv Hdw); [by eapply list_elem_of_lookup_2|]. by eapply Forall_lookup_1.
Qed.

Lemma intset_numeric st L s : IntsetRepr st L -> s ∈ L -> exists v, IsDec s v /\ in_int64 v.
Proof.
  intros (xs & HR & HL) Hin. apply list_elem_of_lookup in Hin as [i Hi].
  destruct (Forall2_lookup_l _ _ _ _ _ HL Hi) as (w & Hw & Hdw). exists w. split; [done|].
  by eapply Forall_lookup_1; [apply (intset_values st xs HR)|].
Qed.

Lemma sorted_insert_perm v xs : v ∉ xs -> sorted_insert v xs ≡ₚ v :: xs.
Proof.
  induction xs as [|x xs IH]; simpl; [done|]. intros Hno. apply not_elem_of_cons in Hno as [Hx Hxs].
  destruct (v <? x); [done|]. destruct (Z.eqb_spec v x); [done|]. rewrite IH by done. apply Permutation_swap.
Qed.

Lemma sorted_insert_present' st xs v : Repr st xs -> v ∈ xs -> sorted_insert v xs = xs.
Proof.
  intros HR. pose proof (repr_sorted _ _ HR) as Hs. clear HR. induction Hs as [|x xs Hs IH Hx]; [by intros ?%not_elem_of_nil|].
  intros [->|Hin]%elem_of_cons; simpl; [by rewrite Z.ltb_irrefl, Z.eqb_refl|].
  rewrite Forall_forall in Hx. pose proof (Hx v Hin). destruct (Z.ltb_spec v x); [lia|]. destruct (Z.eqb_spec v x); [done|].
  by rewrite IH.
Qed.
End Facts.
