(* ===== verification/SetUpdate.v ===== *)
(** * Sets: adding, removing and looking up members *)
From S2P Require Import Prelude Numstr NumstrFacts NumstrProps Intset IntsetFacts IntsetProps Listpack ListpackOps ListpackFacts ListpackEdit ListpackRange ListpackProps Dict DictOps DictFacts DictRehash DictFind DictUpdate DictProps DictIter Skiplist SkiplistOrder Zzl ZzlFacts Zset ZsetFacts SetObj SetFacts.

(** The abstract operations, on lists of distinct strings. *)
Definition set_add (s : list Z) (L : list (list Z)) : list (list Z) := if decide (s ∈ L) then L else s :: L.
Definition set_remove (s : list Z) (L : list (list Z)) : list (list Z) := filter (.≠ s) L.

Lemma set_add_len s L : zlen (set_add s L) <= zlen L + 1.
Proof. unfold set_add. destruct (decide (s ∈ L)); rewrite ?zlen_cons; lia. Qed.

Lemma set_remove_absent s L : s ∉ L -> set_remove s L = L.
Proof.
  unfold set_remove. induction L as [|t L IH]; [done|]. intros [Ht HL]%not_elem_of_cons.
  rewrite filter_cons_True by done. by rewrite IH.
Qed.

Lemma set_remove_perm s L : NoDup L -> s ∈ L -> L ≡ₚ s :: set_remove s L.
Proof.
  intros HN Hin. apply list_elem_of_split in Hin as (a & b & ->).
  apply NoDup_app in HN as (Ha & Hab & Hb). apply NoDup_cons in Hb as [Hb _].
  unfold set_remove. rewrite filter_app, filter_cons_False by (intros []; done).
  fold (set_remove s a) (set_remove s b). rewrite !set_remove_absent; [by rewrite Permutation_middle|done|].
  intros Hs. apply (Hab s Hs). left.
Qed.

(** ** Sizes of integer entries *)

Lemma int_entry_size v : in_int64 v ->
  lpEntrySizeInteger v = 1 + (if (0 <=? v) && (v <=? 127) then 1 else if (-4096 <=? v) && (v <=? 4095) then 2
    else if (-32768 <=? v) && (v <=? 32767) then 3 else if (-8388608 <=? v) && (v <=? 8388607) then 4
    else if (-2147483648 <=? v) && (v <=? 2147483647) then 5 else 9).
Proof.
  intros Hv. unfold lpEntrySizeInteger. rewrite (int_data v Hv). unfold backlen_size.
  repeat match goal with |- context [if ?b then _ else _] =>
    match b with context [v] => destruct b end end; rewrite ?zlen_cons, ?zlen_le_split; reflexivity.
Qed.

Lemma int_entry_bytes v : zlen (ent_bytes (EInt v)) = lpEntrySizeInteger v.
Proof. by rewrite zlen_ent_bytes. Qed.

(** An integer between two others does not take more room than both of them. *)
Lemma int_entry_between a v b : in_int64 a -> in_int64 b -> a <= v <= b ->
  2 <= lpEntrySizeInteger v <= Z.max (lpEntrySizeInteger a) (lpEntrySizeInteger b) /\
  lpEntrySizeInteger a <= 10 /\ lpEntrySizeInteger b <= 10.
Proof.
  intros Ha Hb Hv. unfold in_int64 in *. rewrite !int_entry_size by (unfold in_int64; lia).
  assert (forall w, (if (0 <=? w) && (w <=? 127) then 1 else if (-4096 <=? w) && (w <=? 4095) then 2
    else if (-32768 <=? w) && (w <=? 32767) then 3 else if (-8388608 <=? w) && (w <=? 8388607) then 4
    else if (-2147483648 <=? w) && (w <=? 2147483647) then 5 else 9) <= 9) as H9.
  { intros w. repeat match goal with |- context [if ?c then _ else _] => destruct c end; lia. }
  split; [|split; [pose proof (H9 a); lia|pose proof (H9 b); lia]].
  split; [repeat match goal with |- context [if ?c then _ else _] =>
    match c with context [v] => destruct c end end; lia|].
  destruct (Z.leb_spec 0 v).
  - etrans; [|apply Z.le_max_r]. clear H9.
    repeat match goal with |- context [if ?c then _ else _] => destruct c eqn:? end; lia.
  - etrans; [|apply Z.le_max_l]. clear H9.
    repeat match goal with |- context [if ?c then _ else _] => destruct c eqn:? end; lia.
Qed.

Lemma ints_total xs w : Forall in_int64 xs -> (forall v, v ∈ xs -> lpEntrySizeInteger v <= w) ->
  lp_total (EInt <$> xs) <= LP_HDR_SIZE + w * zlen xs + 1.
Proof.
  intros Hi Hw. assert (zlen (lp_body (EInt <$> xs)) <= w * zlen xs) as Hb; [|unfold lp_total; lia].
  induction Hi as [|v xs Hv _ IH]; [change (0 <= w * 0); lia|].
  rewrite fmap_cons, lp_body_cons, zlen_app, int_entry_bytes, zlen_cons.
  pose proof (Hw v ltac:(left)). specialize (IH ltac:(intros u Hu; apply Hw; by right)). lia.
Qed.

Section Update.
Context `{Allocator}.
Context (hash : list Z -> Z) (Hhash : forall k, 0 <= hash k < 2 ^ 64) (resize : dictResizeEnable).
#[local] Existing Instance SD.
#[local] Instance SUok : DictTypeOk (SD hash) false := setDictOk hash Hhash.
Context (addr : @dict (SD hash) -> bool -> Z).
Context (max_intset max_entries max_value : Z).
Notation SetRepr := (SetRepr hash Hhash).
Notation TableRepr := (TableRepr hash Hhash).

(** ** Intsets *)

Lemma intset_len st L : IntsetRepr st L -> is_length st = zlen L.
Proof. intros (xs & HR & HL). rewrite (repr_len _ _ HR). unfold zlen. by rewrite (Forall2_length _ _ _ HL). Qed.

Lemma intset_add st L s v : IntsetRepr st L -> IsDec s v -> in_int64 v -> zlen L < 2 ^ 29 - 1 ->
  exists st' L', intsetAdd st v = Some (st', bool_decide (s ∉ L)) /\ IntsetRepr st' L' /\ L' ≡ₚ set_add s L.
Proof.
  intros (xs & HR & HL) Hd Hv Hl. assert (zlen xs = zlen L) as Hz by (unfold zlen; by rewrite (Forall2_length _ _ _ HL)).
  destruct (intsetAdd_spec st xs v HR Hv) as (st' & E & HR'); [unfold fits; unfold_limits; lia|].
  pose proof (intset_member st xs L s v HR HL Hd Hv) as Hm. exists st'. unfold set_add.
  destruct (decide (s ∈ L)) as [Hin|Hno].
  - exists L. rewrite E, (bool_decide_eq_true_2 (v ∈ xs)), (bool_decide_eq_false_2 (s ∉ L)) by (tauto || auto). split; [done|]. split; [|done].
    exists xs. split; [|done]. rewrite (sorted_insert_present' st xs v HR) in HR' by tauto. done.
  - rewrite E, (bool_decide_eq_false_2 (v ∈ xs)), (bool_decide_eq_true_2 (s ∉ L)) by tauto.
    destruct (Permutation_Forall2 (P := flip IsDec) (l1 := v :: xs) (l1' := sorted_insert v xs) (l2 := s :: L)) as (L' & HP & HL').
    + symmetry. apply sorted_insert_perm. tauto.
    + constructor; [done|]. by apply Forall2_flip.
    + exists L'. split; [done|]. split; [|done]. exists (sorted_insert v xs). split; [done|]. by apply Forall2_flip.
Qed.

Lemma intset_remove st L s v : NoDup L -> IntsetRepr st L -> IsDec s v -> in_int64 v -> zlen L < 2 ^ 29 - 1 ->
  exists st' L', intsetRemove st v = Some (st', bool_decide (s ∈ L)) /\ IntsetRepr st' L' /\ L' ≡ₚ set_remove s L.
Proof.
  intros HN (xs & HR & HL) Hd Hv Hl. assert (zlen xs = zlen L) as Hz by (unfold zlen; by rewrite (Forall2_length _ _ _ HL)).
  destruct (intsetRemove_spec st xs v HR Hv) as (st' & E & HR'); [unfold fits; unfold_limits; lia|].
  pose proof (intset_member st xs L s v HR HL Hd Hv) as Hm. exists st'. rewrite E, (bool_decide_ext _ _ Hm).
  destruct (decide (s ∈ L)) as [Hin|Hno].
  - pose proof (proj2 Hm Hin) as Hvx.
    apply list_elem_of_split in Hvx as (a & b & ->).
    apply Forall2_app_inv_r in HL as (La & Lb' & HLa & HLb & ->). apply Forall2_cons_inv_r in HLb as (t & Lb & Ht & HLb & ->).
    assert (t = s) as -> by (by eapply IsDec_unique).
    exists (La ++ Lb). split; [done|]. split.
    + exists (sorted_remove v (a ++ v :: b)). split; [done|]. rewrite sorted_remove_split by apply HR. by apply Forall2_app.
    + apply (inj (cons s)). rewrite <- set_remove_perm by done. by rewrite Permutation_middle.
  - exists L. rewrite set_remove_absent by done. split; [done|]. split; [|done]. exists xs. split; [|done].
    rewrite sorted_remove_absent in HR' by tauto. done.
Qed.

Lemma intset_find st L s v : IntsetRepr st L -> IsDec s v -> in_int64 v -> zlen L < 2 ^ 29 ->
  intsetFind st v = Some (bool_decide (s ∈ L)).
Proof.
  intros (xs & HR & HL) Hd Hv Hl. assert (zlen xs = zlen L) as Hz by (unfold zlen; by rewrite (Forall2_length _ _ _ HL)).
  rewrite (intsetFind_correct st xs v HR Hv) by (unfold_limits; lia).
  by rewrite (bool_decide_ext _ _ (intset_member st xs L s v HR HL Hd Hv)).
Qed.

(** A string that is not a numeral is not in an intset. *)
Lemma intset_no_string st L s : IntsetRepr st L -> string2ll s (zlen s) = Some None -> s ∉ L.
Proof.
  intros HR E Hin. destruct (intset_numeric st L s HR Hin) as (v & Hd & Hv).
  destruct (string_parses s) as (r & E' & Hr). rewrite E in E'. injection E' as <-.
  discriminate (proj2 (Hr v) (conj Hd Hv)).
Qed.

Lemma parse_cases s : (string2ll s (zlen s) = Some None) \/ exists v, string2ll s (zlen s) = Some (Some v) /\ IsDec s v /\ in_int64 v.
Proof. destruct (string_parses s) as ([v|] & -> & Hr); [right; exists v; split; [done|by apply Hr]|by left]. Qed.

(** ** Listpacks *)

Lemma find_first {f : lp_ent -> bool} l : match find_from f 0 0 l with
  | Some i => exists e, l !! i = Some e /\ f e = true
  | None => Forall (fun e => f e = false) l
  end.
Proof.
  induction l as [|e l IH]; simpl; [done|]. destruct (f e) eqn:Ef; [by exists e|].
  destruct (find_from f 0 0 l) as [i|]; simpl; [exact IH|]. by constructor.
Qed.

Lemma lp_find lp L s : LpRepr lp (str_ent <$> L) -> is_str s -> L <> [] ->
  exists r, lpFind lp (ent_ptr (str_ent <$> L) 0) s (u32 (zlen s)) 0 = Some r /\
    match r with
    | Some p => exists i, L !! i = Some s /\ p = ent_off (str_ent <$> L) i
    | None => s ∉ L
    end.
Proof.
  intros HR [Hb Hl] Hn. rewrite wrapu_small by (pose proof (zlen_nonneg s); lia).
  assert (lpFind lp (ent_ptr (str_ent <$> L) 0) s (zlen s) 0 = lpFind lp None s (zlen s) 0) as ->.
  { destruct HR as (num & slack & -> & WF). unfold lpFind, lpFindCb. destruct (lpBytes _); [|done]. cbn [mbind option_bind].
    rewrite lpFirst_block by done. unfold ent_ptr. rewrite length_fmap. destruct L; [done|]. by rewrite decide_True by (simpl; lia). }
  destruct HR as (num & slack & -> & WF).
  pose proof (lpFind_block num (str_ent <$> L) slack WF s 0 0 (or_intror eq_refl) ltac:(unfold_limits; lia)) as E.
  simpl in E. change (Z.to_nat 0) with 0%nat in E. rewrite E, drop_0. eexists. split; [done|].
  pose proof (@find_first (fun e => ent_matches e s) (str_ent <$> L)) as Hf.
  assert (forall t, ent_matches (str_ent t) s = bool_decide (t = s)) as Hm.
  { intros t. rewrite ent_matches_canon by apply str_ent_canon. apply bool_decide_ext. split; [apply str_ent_inj|by intros ->]. }
  destruct (find_from _ 0 0 _) as [i|]; simpl.
  - destruct Hf as (e & He & Hfe). rewrite list_lookup_fmap in He. destruct (L !! i) as [t|] eqn:Et; [|done]. simpl in He. injection He as <-.
    rewrite Hm in Hfe. apply bool_decide_eq_true in Hfe as ->.
    change (exists j, L !! j = Some s /\ ent_off (str_ent <$> L) i = ent_off (str_ent <$> L) j). by exists i.
  - change (s ∉ L). intros Hin. rewrite Forall_forall in Hf. specialize (Hf (str_ent s) (list_elem_of_fmap_2 _ _ _ Hin)).
    cbv beta in Hf. rewrite Hm in Hf. by apply bool_decide_eq_false in Hf.
Qed.

Lemma lp_first lp L : LpRepr lp (str_ent <$> L) -> lpFirst lp = Some (ent_ptr (str_ent <$> L) 0).
Proof. intros (num & slack & -> & WF). by apply lpFirst_block. Qed.

Lemma ent_ptr_first L : ent_ptr (str_ent <$> L) 0 = match L with [] => None | _ => Some (ent_off (str_ent <$> L) 0) end.
Proof. unfold ent_ptr. by destruct L. Qed.

Lemma lp_safe lp es n : LpRepr lp es -> 0 <= n < 2 ^ 32 -> exists b, lpSafeToAdd (Some lp) n = Some b /\ (b = true -> lp_total es + n <= 2 ^ 30).
Proof.
  intros (num & slack & -> & WF) Hn. unfold lpSafeToAdd. rewrite getTotalBytes_block by done. cbn [mbind option_bind].
  pose proof (lp_total_range _ _ WF) as Ht. unfold_limits. rewrite wrapu_small by lia. unfold LISTPACK_MAX_SAFETY_SIZE.
  eexists. split; [done|]. intros Hb. apply negb_true_iff in Hb. destruct (Z.gtb_spec (lp_total es + n) 1073741824); [done|lia].
Qed.

(** ** Size *)

Lemma setTypeSize_spec o L : SetRepr o L -> zlen L < 2 ^ 59 ->
  exists o', setTypeSize hash o = Some (o', zlen L) /\ SetRepr o' L /\
    match o, o' with SetIntset _ a, SetIntset _ b => a = b | SetHT _ a, SetHT _ b => a = b | SetListpack _ _, SetListpack _ _ => True | _, _ => False end.
Proof.
  intros [HN Hs He] Hl. destruct o as [st|lp|d]; simpl in *.
  - eexists. unfold intsetLen. rewrite (intset_len st L He). split; [done|]. split; [by split|done].
  - destruct (lpLength_correct lp _ He) as (lp' & -> & HR'). cbn [mbind option_bind]. rewrite zlen_fmap. eexists. split; [done|]. split; [by split|done].
  - destruct He as [Hd Hp]. rewrite (dict_size (T := SD hash) d _ (di_ok _ _ _ Hd)) by (rewrite zlen_fmap; lia). rewrite zlen_fmap.
    eexists. split; [done|]. split; [by split|done].
Qed.

(** ** Adding *)

Notation convert := (setTypeConvertAndExpand hash resize addr).

Lemma set_add_nodup s L : NoDup L -> NoDup (set_add s L).
Proof. intros HN. unfold set_add. destruct (decide (s ∈ L)); [done|by constructor]. Qed.

Lemma set_add_strs s L : Forall is_str L -> is_str s -> Forall is_str (set_add s L).
Proof. intros HL Hs. unfold set_add. destruct (decide (s ∈ L)); [done|by constructor]. Qed.

(** What an operation has to establish: the set of [L] up to order. *)
Definition holds_set (o : sobj hash) (L : list (list Z)) : Prop := exists L', SetRepr o L' /\ L' ≡ₚ L.

Lemma holds_table d L L' : NoDup L -> Forall is_str L -> TableRepr d L' -> L' ≡ₚ L -> holds_set (SetHT hash d) L.
Proof. intros HN Hs Hd HP. exists L. split; [|done]. split; [done|done|]. by eapply table_perm. Qed.

Lemma holds_intset st L L' : NoDup L -> Forall is_str L -> IntsetRepr st L' -> L' ≡ₚ L -> holds_set (SetIntset hash st) L.
Proof. intros HN Hs Hd HP. exists L'. split; [|done]. split; [by rewrite HP|by rewrite HP|done]. Qed.

Lemma holds_listpack lp L L' : NoDup L -> Forall is_str L -> LpRepr lp (str_ent <$> L') -> L' ≡ₚ L -> holds_set (SetListpack hash lp) L.
Proof. intros HN Hs Hd HP. exists L'. split; [|done]. split; [by rewrite HP|by rewrite HP|done]. Qed.

Lemma add_to_ht_spec d L s : SetRepr (SetHT hash d) L -> is_str s -> zlen L < 2 ^ 30 ->
  exists o, add_to_ht hash resize d s = Some (o, bool_decide (s ∉ L)) /\ holds_set o (set_add s L).
Proof.
  intros [HN Hss [Hd Hp]] Hs Hl. unfold add_to_ht.
  destruct (find_position_spec (T := SD hash) false resize d (sent hash <$> L) s Hd) as (d' & r & -> & Hd' & Hf & Hr);
    [rewrite zlen_fmap; lia|by left|]. cbn [mbind option_bind].
  assert (pauseAutoResize d' <= 0) as Hp' by (destruct Hf as (_ & _ & ->); done).
  unfold set_add. destruct r as [r|[i x]].
  - destruct Hr as (de & e & _ & _ & He & Hk). apply list_elem_of_fmap in He as (t & -> & Ht).
    apply bool_decide_eq_true in Hk. simpl in Hk. subst t. rewrite decide_True, bool_decide_eq_false_2 by (done || tauto).
    eexists. split; [done|]. by apply (holds_table d' L L).
  - destruct Hr as (Hno & -> & Hx & tb & Htb).
    assert (s ∉ L) as Hns.
    { intros Hin. specialize (Hno (sent hash s) (list_elem_of_fmap_2 _ _ _ Hin)). by apply bool_decide_eq_false in Hno. }
    destruct (insert_position_spec (T := SD hash) false d' (sent hash <$> L) s x tb (di_ok _ _ _ Hd') ltac:(rewrite zlen_fmap; lia) Htb (eq_sym Hx))
      as (d'' & c & -> & Hok & Hc & _). cbn [mbind option_bind]. rewrite decide_False, bool_decide_eq_true_2 by done.
    eexists. split; [done|]. destruct Hc as (_ & _ & Hst & Hpa).
    apply (holds_table d'' _ (s :: L)); [by constructor|by constructor| |done].
    split; [|by rewrite Hpa]. split; [exact Hok|rewrite Hst; apply Hd'|]. rewrite fmap_cons.
    apply (distinct_add (T := SD hash) false (sent hash <$> L) s (di_distinct _ _ _ Hd') Hno None).
Qed.

Lemma convert_and_add_spec o L s cap : SetRepr o L -> (forall d, o <> SetHT hash d) -> is_str s -> zlen L < 2 ^ 29 -> s ∉ L ->
  0 <= cap < 2 ^ 64 ->
  exists o', convert_and_add hash resize addr o cap s = Some (o', true) /\ holds_set o' (set_add s L).
Proof.
  intros Ho Hn Hs Hl Hns Hc. unfold convert_and_add.
  destruct (convert_ht_spec hash Hhash resize addr o L cap Ho Hl Hn Hc) as (d & -> & Hd). cbn [mbind option_bind].
  destruct (table_add hash Hhash resize d L s Hd) as (d' & -> & Hd'); [lia|]. cbn [mbind option_bind].
  rewrite bool_decide_eq_true_2 by done. cbn [assert_true mbind option_bind]. eexists. split; [done|].
  eapply (holds_table d' _ (set_add s L)); [apply set_add_nodup, Ho|apply set_add_strs; [apply Ho|done]|done|done].
Qed.

Lemma add_to_listpack_spec lp L s m : SetRepr (SetListpack hash lp) L -> is_str s -> text_of m s -> zlen L < 2 ^ 29 ->
  exists o, add_to_listpack hash resize addr max_entries max_value lp s (match m with MInt v => Some v | MStr _ => None end) =
    Some (o, bool_decide (s ∉ L)) /\ holds_set o (set_add s L).
Proof.
  intros Ho Hs Hm Hl. destruct Ho as [HN Hss HR]. unfold add_to_listpack. rewrite (lp_first lp L HR). cbn [mbind option_bind].
  assert (exists r, (match ent_ptr (str_ent <$> L) 0 with
      | Some _ => lpFind lp (ent_ptr (str_ent <$> L) 0) s (u32 (zlen s)) 0 | None => Some None end) = Some r /\
    match r with Some _ => s ∈ L | None => s ∉ L end) as (r & -> & Hr).
  { rewrite ent_ptr_first. destruct L as [|t L]; [exists None; split; [done|apply not_elem_of_nil]|].
    rewrite <- (ent_ptr_first (t :: L)). destruct (lp_find lp (t :: L) s HR Hs ltac:(done)) as (r & E & Hr).
    exists r. split; [exact E|]. destruct r; [|done]. destruct Hr as (i & Hi & _). by eapply list_elem_of_lookup_2. }
  cbn [mbind option_bind]. destruct r as [p|].
  { rewrite bool_decide_eq_false_2 by tauto. eexists. split; [done|]. unfold set_add. rewrite decide_True by done.
    by apply (holds_listpack lp L L). }
  rewrite bool_decide_eq_true_2 by done.
  destruct (lpLength_correct lp _ HR) as (lp' & -> & HR'). cbn [mbind option_bind]. rewrite zlen_fmap.
  pose proof (zlen_nonneg s) as Hs0. pose proof (zlen_nonneg L) as HL0.
  destruct (lp_safe lp' _ (zlen s) HR') as (b & -> & Hb); [destruct Hs; lia|]. cbn [mbind option_bind].
  destruct (_ && _ && b) eqn:Ec.
  - apply andb_prop in Ec as [_ ->]. specialize (Hb eq_refl). pose proof (zlen_str_ent s).
    destruct (append_spec m s lp' (str_ent <$> L) Hm Hs HR') as (lp'' & E & HR''); [rewrite total_snoc; unfold_limits; lia|].
    replace (match (match m with MInt v => Some v | MStr _ => None end) with Some v => lpAppendInteger lp' v
      | None => lpAppend lp' s (u32 (zlen s)) end) with (Some (Some lp'')) by (destruct m; simpl in *; congruence).
    cbn [mbind option_bind]. eexists. split; [done|]. unfold set_add. rewrite decide_False by done.
    apply (holds_listpack lp'' _ (L ++ [s])); [by constructor|by constructor|by rewrite fmap_app|by rewrite Permutation_app_comm].
  - destruct (lpLength_correct lp' _ HR') as (lp'' & -> & HR''). cbn [mbind option_bind]. rewrite zlen_fmap.
    apply convert_and_add_spec; [by split|done|done|done|done|]. rewrite wrapu_small by lia. lia.
Qed.

Lemma setTypeConvert_spec o L : SetRepr o L -> (forall d, o <> SetHT hash d) -> zlen L < 2 ^ 29 ->
  exists d, setTypeConvert hash resize addr o ENC_HT = Some (SetHT hash d) /\ TableRepr d L.
Proof.
  intros Ho Hn Hl. unfold setTypeConvert. destruct (setTypeSize_spec o L Ho) as (o' & -> & Ho' & Hk); [lia|]. cbn [mbind option_bind].
  destruct (convert_ht_spec hash Hhash resize addr o' L (zlen L) Ho' Hl) as (d & -> & Hd).
  - intros d ->. destruct o; try done. by destruct (Hn d0).
  - pose proof (zlen_nonneg L). lia.
  - cbn [mbind option_bind]. by exists d.
Qed.

Lemma maybeConvertIntset_spec st L L' : NoDup L -> Forall is_str L -> IntsetRepr st L' -> L' ≡ₚ L -> zlen L < 2 ^ 29 ->
  exists o, maybeConvertIntset hash resize addr max_intset st = Some o /\ holds_set o L.
Proof.
  intros HN Hs HR HP Hl. unfold maybeConvertIntset. destruct (intsetLen st >? intsetMaxEntries max_intset).
  - destruct (setTypeConvert_spec (SetIntset hash st) L') as (d & -> & Hd); [split; [by rewrite HP|by rewrite HP|done]|done|unfold zlen; by rewrite HP|].
    eexists. split; [done|]. by apply (holds_table d L L').
  - eexists. split; [done|]. by apply (holds_intset st L L').
Qed.

(** The listpack that an intset would become, against the estimate of its size. *)
Lemma intset_estimate_spec st L : IntsetRepr st L -> zlen L < 2 ^ 29 ->
  exists a b, intset_estimate st = Some (a, b) /\ 0 <= b < 2 ^ 40 /\ lp_total (str_ent <$> L) <= Z.max 7 b.
Proof.
  intros (xs & HR & HL) Hl. assert (zlen xs = zlen L) as Hz by (unfold zlen; by rewrite (Forall2_length _ _ _ HL)).
  pose proof (intset_values st xs HR) as Hxs. unfold intset_estimate, intsetLen. rewrite (repr_len _ _ HR).
  destruct (Z.eqb_spec (zlen xs) 0) as [E|E]; cbn [negb].
  { exists 0, 0. split; [done|]. split; [done|]. destruct L; [|rewrite zlen_cons in Hz; pose proof (zlen_nonneg L); lia]. done. }
  destruct xs as [|x xs]; [done|].
  destruct (intsetMin_Max_correct st x xs HR) as (Emn & Emx & Hall); [unfold_limits; lia|].
  destruct (last (x :: xs)) as [mx|] eqn:El; [|by rewrite last_None in El]. rewrite Emn, Emx. cbn [mbind option_bind].
  assert (in_int64 x) as Ix by (by inversion Hxs).
  assert (in_int64 mx) as Im by (eapply Forall_forall; [exact Hxs|by apply last_Some_elem_of]).
  destruct (sdigits10_correct mx Im) as (t1 & _ & ->). destruct (sdigits10_correct x Ix) as (t2 & _ & ->). cbn [mbind option_bind].
  destruct (int_entry_between x x mx) as (_ & H1 & H2); [done|done|rewrite Forall_forall in Hall; destruct (Hall x ltac:(left)) as (_ & m & Em & Hm); injection Em as ->; lia|].
  assert (forall v, in_int64 v -> 2 <= lpEntrySizeInteger v) as Hge2 by (intros v Iv; destruct (int_entry_between v v v) as ([? _] & _); [done|done|lia|done]).
  pose proof (Hge2 x Ix). pose proof (Hge2 mx Im). unfold lpEstimateBytesRepeatedInteger, LP_HDR_SIZE.
  pose proof (zlen_nonneg (x :: xs)) as Hn0. assert (zlen (x :: xs) < 2 ^ 29) as Hn by lia. change (2 ^ 29) with 536870912 in Hn.
  assert (forall w, 2 <= w <= 10 -> 0 <= w * zlen (x :: xs) <= 10 * zlen (x :: xs)) as Hw by (intros w Hw; nia).
  pose proof (Hw (lpEntrySizeInteger x) ltac:(lia)). pose proof (Hw (lpEntrySizeInteger mx) ltac:(lia)).
  rewrite !wrapu_small by lia. eexists _, _. split; [done|]. split; [lia|].
  replace (str_ent <$> L) with (EInt <$> (x :: xs)).
  - etrans; [apply (ints_total (x :: xs) (Z.max (lpEntrySizeInteger x) (lpEntrySizeInteger mx)) Hxs)|unfold LP_HDR_SIZE].
    2: { destruct (Z.max_spec (lpEntrySizeInteger x) (lpEntrySizeInteger mx)) as [[_ ->]|[_ ->]]; lia. }
    intros v Hv. rewrite Forall_forall in Hall, Hxs. destruct (Hall v Hv) as (Hle & m & Em & Hm). injection Em as ->.
    by apply (int_entry_between x v m Ix Im).
  - symmetry. clear -HL Hxs. revert Hxs. induction HL as [|t v L' xs' Hd HL IH]; intros Hxs; [done|]. inversion Hxs. subst.
    rewrite !fmap_cons, IH by done. f_equal. by apply str_ent_dec.
Qed.

Lemma add_int_spec st L s v : SetRepr (SetIntset hash st) L -> is_str s -> IsDec s v -> in_int64 v -> zlen L < 2 ^ 29 - 1 ->
  exists o, ('(st, success) ← intsetAdd st v;
     if (success : bool) then o ← maybeConvertIntset hash resize addr max_intset st; Some (o, true)
     else Some (SetIntset hash st, false)) = Some (o, bool_decide (s ∉ L)) /\ holds_set o (set_add s L).
Proof.
  intros [HN Hss HR] Hs Hd Hv Hl. destruct (intset_add st L s v HR Hd Hv Hl) as (st' & L' & -> & HR' & HP). cbn [mbind option_bind].
  pose proof (set_add_nodup s L HN) as HN'. pose proof (set_add_strs s L Hss Hs) as Hs'.
  destruct (bool_decide_reflect (s ∉ L)) as [Hno|Hin].
  - destruct (maybeConvertIntset_spec st' (set_add s L) L' HN' Hs' HR' HP) as (o & -> & Ho); [pose proof (set_add_len s L); lia|].
    by exists o.
  - eexists. split; [done|]. by apply (holds_intset st' _ L').
Qed.

Lemma add_to_intset_spec st L s : SetRepr (SetIntset hash st) L -> is_str s -> zlen L < 2 ^ 29 - 1 ->
  exists o, add_to_intset hash resize addr max_intset max_entries max_value st s = Some (o, bool_decide (s ∉ L)) /\
    holds_set o (set_add s L).
Proof.
  intros Ho Hs Hl. unfold add_to_intset. destruct (parse_cases s) as [E|(v & -> & Hd & Hv)].
  2: { cbn [mbind option_bind]. by apply add_int_spec. }
  pose proof Ho as [HN Hss HR]. simpl in HR. pose proof (intset_no_string st L s HR E) as Hno. rewrite E. cbn [mbind option_bind].
  destruct (intset_estimate_spec st L HR) as (a & b & -> & Hb & Hfit); [lia|]. cbn [mbind option_bind lpSafeToAdd].
  pose proof (zlen_nonneg s) as Hs0. pose proof (zlen_nonneg L) as HL0. destruct Hs as [Hsb Hsl].
  rewrite (wrapu_small 64 (b + zlen s)), (wrapu_small 64 (0 + (b + zlen s))) by lia. unfold LISTPACK_MAX_SAFETY_SIZE.
  unfold intsetLen at 1 2 3. rewrite (intset_len st L HR), (wrapu_small 64 (zlen L + 1)) by lia. rewrite bool_decide_eq_true_2 by done.
  destruct (_ && _ && _ && negb (_ >? _)) eqn:Ec; [|by apply convert_and_add_spec; [done|done|done|lia|done|lia]].
  apply andb_prop in Ec as [_ Ec]. apply negb_true_iff in Ec.
  assert (lp_total (str_ent <$> L) + zlen s + 20 <= UINT32_MAX) as Hroom.
  { destruct (Z.gtb_spec (0 + (b + zlen s)) 1073741824); [done|]. unfold_limits. lia. }
  unfold setTypeConvertAndExpand. cbn [assert_true mbind option_bind].
  assert (exists c, (if intsetLen st >? 0 then mn ← intsetMin st; mx ← intsetMax st;
      Some (Z.max (lpEstimateBytesRepeatedInteger mn (zlen L + 1)) (lpEstimateBytesRepeatedInteger mx (zlen L + 1)))
      else Some (u64 ((zlen L + 1) * 2))) = Some c) as (c & ->).
  { destruct HR as (xs & HR & HL). unfold intsetLen. rewrite (repr_len _ _ HR). destruct xs as [|x xs]; [by eexists|].
    destruct (intsetMin_Max_correct st x xs HR) as (-> & -> & _).
    - unfold zlen. rewrite <- (Forall2_length _ _ _ HL). unfold zlen in Hl. unfold_limits. lia.
    - destruct (last (x :: xs)) eqn:El; [|by rewrite last_None in El]. cbn [mbind option_bind]. destruct (_ >? _); eauto. }
  cbn [mbind option_bind]. destruct (lpNew_repr c) as (lp0 & -> & Hlp0). cbn [mbind option_bind].
  destruct (to_listpack_rule hash Hhash addr (SetIntset hash st) L lp0 Ho) as (lp & L' & -> & Hlp & HP); [lia|done|lia|].
  cbn [mbind option_bind]. pose proof (zlen_str_ent s).
  assert (lp_total (str_ent <$> L') = lp_total (str_ent <$> L)) as Et by (unfold lp_total; by rewrite (body_perm (str_ent <$> L') (str_ent <$> L)) by (by rewrite HP)).
  destruct (append_spec (MStr s) s lp (str_ent <$> L') eq_refl (conj Hsb Hsl) Hlp) as (lp' & -> & Hlp'); [rewrite total_snoc; lia|].
  cbn [mbind option_bind]. destruct Hlp' as (num & slack & -> & WF). rewrite shrink_block by apply WF. cbn [mbind option_bind].
  eexists. split; [done|]. unfold set_add. rewrite decide_False by done.
  apply (holds_listpack _ _ (L' ++ [s])); [by constructor|by constructor| |by rewrite HP, Permutation_app_comm].
  rewrite fmap_app. by exists num, [].
Qed.

Lemma set_add_spec o L m s : SetRepr o L -> text_of m s -> is_str s -> zlen L < 2 ^ 29 - 1 ->
  exists o', setTypeAddAux hash resize addr max_intset max_entries max_value o m = Some (o', bool_decide (s ∉ L)) /\
    holds_set o' (set_add s L).
Proof.
  intros Ho Hm Hs Hl. unfold setTypeAddAux. pose proof (elem_text_spec m s Hm) as Et.
  destruct o as [st|lp|d].
  - destruct m as [t|v]; [simpl in Hm; subst t; cbn [elem_text mbind option_bind]; by apply add_to_intset_spec|].
    destruct Hm as [Hd Hv]. by apply add_int_spec.
  - replace (match m with MInt _ | _ => _ end) with (str ← elem_text m;
      add_to_listpack hash resize addr max_entries max_value lp str (match m with MInt v => Some v | MStr _ => None end)) by (by destruct m).
    rewrite Et. cbn [mbind option_bind]. apply add_to_listpack_spec; [done|done|done|lia].
  - replace (match m with MInt _ | _ => _ end) with (str ← elem_text m; add_to_ht hash resize d str) by (by destruct m).
    rewrite Et. cbn [mbind option_bind]. apply add_to_ht_spec; [done|done|lia].
Qed.

(** ** Removing *)

Lemma set_remove_nodup s L : NoDup L -> NoDup (set_remove s L).
Proof. apply NoDup_filter. Qed.

Lemma set_remove_strs s L : Forall is_str L -> Forall is_str (set_remove s L).
Proof. intros HL. apply Forall_forall. intros t Ht. apply list_elem_of_filter in Ht as [_ Ht]. by eapply Forall_forall in HL. Qed.

Lemma delete_member (L : list (list Z)) i s : NoDup L -> L !! i = Some s -> delete i L = set_remove s L.
Proof.
  intros HN Hi. apply list_elem_of_split_length in Hi as (a & b & -> & ->). rewrite delete_middle.
  apply NoDup_app in HN as (Ha & Hab & Hb). apply NoDup_cons in Hb as [Hb _].
  unfold set_remove. rewrite filter_app, filter_cons_False by (intros []; done).
  fold (set_remove s a) (set_remove s b). rewrite !set_remove_absent; [done|done|intros Hs; apply (Hab s Hs); left].
Qed.

Lemma delete_key L s : map_delete (T := SD hash) false s (sent hash <$> L) = sent hash <$> set_remove s L.
Proof.
  unfold map_delete, set_remove. induction L as [|t L IH]; [done|]. rewrite fmap_cons. destruct (decide (t = s)) as [->|Hn].
  - rewrite !filter_cons_False; [done|intros []; done|]. simpl. rewrite bool_decide_eq_true_2 by done. done.
  - rewrite !filter_cons_True; [by rewrite fmap_cons, IH|done|]. simpl. apply bool_decide_eq_false_2. congruence.
Qed.

Lemma remove_int_spec st L s v : SetRepr (SetIntset hash st) L -> is_str s -> IsDec s v -> in_int64 v -> zlen L < 2 ^ 29 - 1 ->
  exists o, ('(st, success) ← intsetRemove st v; Some (SetIntset hash st, success)) = Some (o, bool_decide (s ∈ L)) /\
    holds_set o (set_remove s L).
Proof.
  intros [HN Hss HR] Hs Hd Hv Hl. destruct (intset_remove st L s v HN HR Hd Hv Hl) as (st' & L' & -> & HR' & HP). cbn [mbind option_bind].
  eexists. split; [done|]. apply (holds_intset st' _ L'); [by apply set_remove_nodup|by apply set_remove_strs|done|done].
Qed.

Lemma set_remove_spec o L m s : SetRepr o L -> text_of m s -> is_str s -> zlen L < 2 ^ 29 - 1 ->
  exists o', setTypeRemoveAux hash resize o m = Some (o', bool_decide (s ∈ L)) /\ holds_set o' (set_remove s L).
Proof.
  intros Ho Hm Hs Hl. unfold setTypeRemoveAux. pose proof (elem_text_spec m s Hm) as Et. pose proof Ho as [HN Hss HR].
  assert (s ∉ L -> holds_set o (set_remove s L)) as Hsame by (intros Hno; exists L; by rewrite set_remove_absent).
  destruct o as [st|lp|d]; simpl in HR.
  - destruct m as [t|v]; [|destruct Hm as [Hd Hv]; by apply remove_int_spec].
    rewrite Et. cbn [mbind option_bind]. simpl in Hm. subst t. destruct (parse_cases s) as [E|(v & -> & Hd & Hv)].
    + rewrite E. cbn [mbind option_bind]. pose proof (intset_no_string st L s HR E) as Hno. rewrite bool_decide_eq_false_2 by done.
      eexists. split; [done|by apply Hsame].
    + cbn [mbind option_bind]. by apply remove_int_spec.
  - replace (match m with MInt _ | _ => _ end) with (str ← elem_text m; p ← lpFirst lp;
      match p with None => Some (SetListpack hash lp, false)
      | Some _ => p ← lpFind lp p str (u32 (zlen str)) 0;
          match p with Some p => r ← lpDelete lp p; '(lp, _) ← r; Some (SetListpack hash lp, true) | None => Some (SetListpack hash lp, false) end
      end) by (by destruct m).
    rewrite Et, (lp_first lp L HR). cbn [mbind option_bind]. rewrite ent_ptr_first. destruct (decide (L = [])) as [->|Hn].
    { rewrite bool_decide_eq_false_2 by apply not_elem_of_nil. eexists. split; [done|]. apply Hsame, not_elem_of_nil. }
    rewrite <- ent_ptr_first. destruct (ent_ptr _ 0) as [p0|] eqn:Ep; [|rewrite ent_ptr_first in Ep; by destruct L]. rewrite <- Ep.
    destruct (lp_find lp L s HR Hs Hn) as (r & -> & Hr). cbn [mbind option_bind]. destruct r as [p|].
    + destruct Hr as (i & Hi & ->). rewrite bool_decide_eq_true_2 by (by eapply list_elem_of_lookup_2).
      destruct (lpDelete_correct lp _ i HR) as (lp' & -> & HR'); [rewrite length_fmap; by eapply lookup_lt_Some|].
      cbn [mbind option_bind]. eexists. split; [done|]. rewrite <- fmap_delete in HR'. rewrite <- (delete_member L i s HN Hi).
      apply (holds_listpack lp' _ (delete i L)); [|by apply Forall_delete|done|done]. rewrite (delete_member L i s HN Hi). by apply set_remove_nodup.
    + rewrite bool_decide_eq_false_2 by done. eexists. split; [done|by apply Hsame].
  - replace (match m with MInt _ | _ => _ end) with (str ← elem_text m;
      '(d, deleted) ← DictOps.dictDelete (T := SD hash) resize d str; Some (SetHT hash d, deleted)) by (by destruct m).
    rewrite Et. cbn [mbind option_bind]. destruct HR as [Hd Hp]. unfold DictOps.dictDelete.
    destruct (map_delete_spec (T := SD hash) false resize d (sent hash <$> L) s false Hd) as (d' & r & -> & Hf & Hr & Hd'); [rewrite zlen_fmap; lia|].
    cbn [mbind option_bind]. rewrite Hr, has_member. eexists. split; [done|].
    apply (holds_table d' _ (set_remove s L)); [by apply set_remove_nodup|by apply set_remove_strs| |done]. split; [|by destruct Hf as (_ & _ & ->)].
    replace (sent hash <$> set_remove s L) with (map_delete (T := SD hash) false s (sent hash <$> L)); [done|]. apply delete_key.
Qed.

(** ** Looking up *)

Lemma member_spec o L m s : SetRepr o L -> text_of m s -> is_str s -> zlen L < 2 ^ 29 ->
  exists o', setTypeIsMemberAux hash resize o m = Some (o', bool_decide (s ∈ L)) /\ SetRepr o' L.
Proof.
  intros Ho Hm Hs Hl. unfold setTypeIsMemberAux. pose proof (elem_text_spec m s Hm) as Et. pose proof Ho as [HN Hss HR].
  destruct o as [st|lp|d]; simpl in HR.
  - destruct m as [t|v]; [|destruct Hm as [Hd Hv]; rewrite (intset_find st L s v HR Hd Hv) by done; cbn [mbind option_bind]; eauto].
    rewrite Et. cbn [mbind option_bind]. simpl in Hm. subst t. destruct (parse_cases s) as [E|(v & -> & Hd & Hv)].
    + rewrite E. cbn [mbind option_bind]. rewrite bool_decide_eq_false_2 by (by eapply intset_no_string). eauto.
    + cbn [mbind option_bind]. rewrite (intset_find st L s v HR Hd Hv) by done. cbn [mbind option_bind]. eauto.
  - replace (match m with MInt _ | _ => _ end) with (str ← elem_text m; p ← lpFirst lp;
      match p with None => Some (SetListpack hash lp, false)
      | Some _ => r ← lpFind lp p str (u32 (zlen str)) 0; Some (SetListpack hash lp, bool_decide (is_Some r)) end) by (by destruct m).
    rewrite Et, (lp_first lp L HR). cbn [mbind option_bind]. rewrite ent_ptr_first. destruct (decide (L = [])) as [->|Hn].
    { rewrite bool_decide_eq_false_2 by apply not_elem_of_nil. eauto. }
    rewrite <- ent_ptr_first. destruct (ent_ptr _ 0) as [p0|] eqn:Ep; [|rewrite ent_ptr_first in Ep; by destruct L]. rewrite <- Ep.
    destruct (lp_find lp L s HR Hs Hn) as (r & -> & Hr). cbn [mbind option_bind]. eexists. split; [|done].
    do 2 f_equal. apply bool_decide_ext. destruct r as [p|]; [|split; [by intros []|done]].
    destruct Hr as (i & Hi & _). split; [|by eexists]. intros _. by eapply list_elem_of_lookup_2.
  - replace (match m with MInt _ | _ => _ end) with (str ← elem_text m;
      '(d, de) ← dictFind (T := SD hash) resize d str; Some (SetHT hash d, bool_decide (is_Some de))) by (by destruct m).
    rewrite Et. cbn [mbind option_bind]. destruct HR as [Hd Hp].
    destruct (dictFind_spec (T := SD hash) false resize d (sent hash <$> L) s Hd) as (d' & r & -> & Hd' & Hf & Hr); [rewrite zlen_fmap; lia|].
    cbn [mbind option_bind]. exists (SetHT hash d'). split.
    2: { split; [done|done|]. split; [exact Hd'|]. by destruct Hf as (_ & _ & ->). }
    do 2 f_equal. apply bool_decide_ext. destruct r as [r|]; split; try done.
    + intros _. destruct Hr as (de & e & _ & _ & He & Hk). apply list_elem_of_fmap in He as (t & -> & Ht).
      apply bool_decide_eq_true in Hk. simpl in Hk. by subst t.
    + intros Hin. specialize (Hr (sent hash s) (list_elem_of_fmap_2 _ _ _ Hin)). by apply bool_decide_eq_false in Hr.
Qed.

(** ** Creation, conversion by size, copying *)

Lemma empty_intset : SetRepr (createIntsetObject hash) [].
Proof. split; [constructor|done|]. exists []. split; [apply Repr_new|done]. Qed.

Lemma empty_listpack lp : LpRepr lp [] -> SetRepr (SetListpack hash lp) [].
Proof. intros HR. split; [constructor|done|done]. Qed.

Lemma set_create_spec value size_hint : 0 <= size_hint < 2 ^ 64 ->
  exists o, setTypeCreate hash max_intset max_entries value size_hint = Some o /\ SetRepr o [].
Proof.
  intros Hh. unfold setTypeCreate, isSdsRepresentableAsLongLong. destruct (string_parses value) as (r & -> & _). cbn [mbind option_bind].
  destruct (_ && _); [eexists; split; [done|apply empty_intset]|]. destruct (_ <=? _).
  - unfold createSetListpackObject. destruct (lpNew_repr 0) as (lp & -> & HR). cbn [mbind option_bind]. eexists. split; [done|by apply empty_listpack].
  - destruct (new_table hash Hhash size_hint Hh) as (d & b & -> & Hd). cbn [mbind option_bind]. eexists. split; [done|]. split; [constructor|done|done].
Qed.

Lemma maybe_convert_spec o L size_hint : SetRepr o L -> zlen L < 2 ^ 29 -> 0 <= size_hint < 2 ^ 64 ->
  exists o', setTypeMaybeConvert hash resize addr max_intset max_entries o size_hint = Some o' /\ holds_set o' L.
Proof.
  intros Ho Hl Hh. unfold setTypeMaybeConvert.
  destruct (match o with SetListpack _ _ => _ | _ => _ end) eqn:E; [|exists o; split; [done|by exists L]].
  destruct (convert_ht_spec hash Hhash resize addr o L size_hint Ho Hl) as (d & -> & Hd); [by intros d ->|done|].
  cbn [mbind option_bind]. eexists. split; [done|]. eapply (holds_table d L L); [apply Ho|apply Ho|done|done].
Qed.

Lemma set_add_fresh s L : s ∉ L -> set_add s L = s :: L.
Proof. intros Hno. unfold set_add. by rewrite decide_False. Qed.

Lemma nodup_snoc (L done rest : list (list Z)) x : NoDup L -> L = done ++ x :: rest -> x ∉ done.
Proof. intros HN ->. apply NoDup_app in HN as (_ & HN & _). intros Hin. apply (HN x Hin). left. Qed.

Lemma maybe_to_intset_spec o L : SetRepr o L -> zlen L < 2 ^ 29 - 1 -> Forall (fun s => exists v, IsDec s v /\ in_int64 v) L ->
  exists o', maybeConvertToIntset hash addr max_intset o = Some o' /\ holds_set o' L.
Proof.
  intros Ho Hl Hnum. unfold maybeConvertToIntset.
  assert (exists o', ('(o, n) ← setTypeSize hash o; if n >? intsetMaxEntries max_intset then Some o
     else st ← iterate hash addr (fun _ => Some o) to_intset_elem intsetNew; Some (SetIntset hash st)) = Some o' /\ holds_set o' L) as Hgo.
  { destruct (setTypeSize_spec o L Ho) as (o1 & -> & Ho1 & _); [lia|]. cbn [mbind option_bind].
    destruct (_ >? _); [exists o1; split; [done|by exists L]|].
    destruct (iterate_rule hash Hhash addr o1 L Ho1 ltac:(lia)) as (L' & HP & Hrule).
    assert (NoDup L') as HN by (rewrite HP; apply Ho).
    destruct (Hrule _ (fun _ => Some o1) to_intset_elem (fun done st => exists D, IntsetRepr st D /\ D ≡ₚ done) (fun _ => False) intsetNew)
      as (st & -> & [(D & HD & HPD)|[]]); [exists []; split; [|done]; exists []; split; [apply Repr_new|done]|done|done| |].
    - intros done x rest m st HL [Hm _] (D & HD & HPD). unfold to_intset_elem.
      assert (x ∈ L) as Hx by (rewrite <- HP, HL; apply elem_of_app; right; left).
      rewrite Forall_forall in Hnum. destruct (Hnum x Hx) as (v & Hd & Hv).
      assert ((match m with MStr s => r ← string2ll s (zlen s); r | MInt v => Some v end) = Some v) as ->.
      { destruct m as [t|w]; simpl in Hm.
        - subst t. destruct (string_parses x) as (r & -> & Hr). cbn [mbind option_bind]. by apply Hr.
        - destruct Hm as [Hdw Hw]. by rewrite (IsDec_fun x w v). }
      cbn [mbind option_bind]. pose proof (nodup_snoc L' done rest x HN HL) as Hno.
      assert (zlen D <= zlen L) as HlD by (unfold zlen; rewrite HPD, <- HP, HL, length_app; lia).
      destruct (intset_add st D x v HD Hd Hv) as (st' & D' & -> & HD' & HPD'); [lia|]. cbn [mbind option_bind].
      rewrite bool_decide_eq_true_2 by (by rewrite HPD). cbn [assert_true mbind option_bind]. eexists. split; [done|].
      exists D'. split; [done|]. rewrite HPD', set_add_fresh by (by rewrite HPD). by rewrite HPD, Permutation_app_comm.
    - cbn [mbind option_bind]. eexists. split; [done|]. apply (holds_intset st L D); [apply Ho|apply Ho|done|by rewrite HPD]. }
  destruct o; [exists (SetIntset hash st); split; [done|by exists L]|exact Hgo|exact Hgo].
Qed.

Lemma dup_spec o L : SetRepr o L -> zlen L < 2 ^ 29 - 1 ->
  exists o', setTypeDup hash resize addr max_intset max_entries max_value o = Some o' /\ holds_set o' L.
Proof.
  intros Ho Hl. pose proof Ho as [HN Hss HR]. pose proof (zlen_nonneg L) as HL0. destruct o as [st|lp|d]; unfold setTypeDup; simpl in HR.
  - pose proof (intset_len st L HR) as Hlen. pose proof HR as (xs & HRx & HLx). pose proof (encoding_range st xs HRx) as Henc.
    assert (zlen (intset_to_blob st) = intsetBlobLen st) as Hz.
    { unfold intset_to_blob, intsetBlobLen, sizeof_intset. rewrite !zlen_app, !zlen_le_split, (repr_contents _ _ HRx), zlen_encode_all.
      rewrite wrapu_small; rewrite Hlen; unfold zlen; rewrite (Forall2_length _ _ _ HLx); unfold zlen in Hl; rewrite (Forall2_length _ _ _ HLx) in Hl; nia. }
    rewrite <- Hz, mem_read_self. cbn [mbind option_bind]. rewrite intset_blob_roundtrip by (unfold_limits; lia). cbn [mbind option_bind].
    eexists. split; [done|by exists L].
  - destruct HR as (num & slack & -> & WF). unfold lpBytes. rewrite getTotalBytes_block by done. cbn [mbind option_bind].
    pose proof (lp_total_range _ _ WF) as Hr.
    pose proof (mem_read_mid [] (lp_block num (str_ent <$> L) []) slack 0 (lp_total (str_ent <$> L))) as Em.
    replace ([] ++ lp_block num (str_ent <$> L) [] ++ slack) with (lp_block num (str_ent <$> L) slack) in Em by (unfold lp_block; by rewrite <- !app_assoc).
    rewrite Em; [|done|rewrite zlen_lp by done; unfold zlen; simpl; lia].
    cbn [mbind option_bind]. eexists. split; [done|]. apply (holds_listpack _ L L); [done|done|by exists num, []|done].
  - destruct HR as [Hd Hp]. rewrite (dict_size (T := SD hash) d _ (di_ok _ _ _ Hd)) by (rewrite zlen_fmap; lia). rewrite zlen_fmap.
    destruct (new_table hash Hhash (zlen L)) as (d' & b & -> & Hd'); [lia|]. cbn [mbind option_bind].
    destruct (iterate_rule hash Hhash addr (SetHT hash d) L Ho ltac:(lia)) as (L' & HP & Hrule).
    destruct (Hrule _ (fun _ => Some (SetHT hash d)) (dup_elem hash resize addr max_intset max_entries max_value)
      (fun done o => holds_set o done) (fun _ => False) (SetHT hash d')) as (o' & -> & [Ho'|[]]);
      [by apply (holds_table d' [] []); [constructor|done|done|done]|done|done| |].
    + intros done x rest m o' HL [Hm Hk] (D & HD & HPD). destruct m as [t|v]; [simpl in Hm; subst t|done].
      assert (NoDup L') as HN' by (by rewrite HP). pose proof (nodup_snoc L' done rest x HN' HL) as Hno.
      assert (is_str x) as Hx by (eapply Forall_forall; [exact Hss|]; rewrite <- HP, HL; apply elem_of_app; right; left).
      assert (zlen D <= zlen L) as HlD by (unfold zlen; rewrite HPD, <- HP, HL, length_app; lia).
      destruct (set_add_spec o' D (MStr x) x HD eq_refl Hx) as (o'' & E & D' & HD' & HPD'); [lia|].
      unfold dup_elem, setTypeAdd. rewrite E. cbn [mbind option_bind]. eexists. split; [done|]. exists D'. split; [done|].
      rewrite HPD', set_add_fresh by (by rewrite HPD). by rewrite HPD, Permutation_app_comm.
    + exists o'. split; [done|]. destruct Ho' as (D & HD & HPD). exists D. split; [done|by rewrite HPD].
Qed.
End Update.
