(* ===== verification/SetCmd.v ===== *)
(** * Set commands ([t_set.c]): SADD, SREM, SMOVE, SISMEMBER, SMISMEMBER, SCARD, SINTER, SINTERCARD, SUNION, SDIFF and the storing forms

    The commands work on objects in a heap, so that a key given twice is the same object twice.
    The argument [keys] holds what [lookupKeyRead] or [lookupKeyWrite] found, [None] for NULL.  The
    result is the heap, the reply and what happens to the target key.  [qsort] is an interface, since
    the order of equal elements is not specified. *)
From S2P Require Import Prelude Numstr Intset Listpack ListpackOps Dict DictOps DictIter Skiplist Zzl Zset SetObj.

Class Qsort := { qsort : forall {A : Type}, (A -> A -> Z) -> list A -> list A }.

Class QsortOk (Q : Qsort) : Prop := { qsort_perm {A : Type} (cmp : A -> A -> Z) (l : list A) : qsort cmp l ≡ₚ l }.

Section Cmd.
Context `{Allocator} `{Qsort}.
Context (dictSdsHash : list Z -> Z) (resize : dictResizeEnable).
#[local] Existing Instance SD.
Context (table_addr : @dict (SD dictSdsHash) -> bool -> Z).
Context (set_max_intset_entries set_max_listpack_entries set_max_listpack_value : Z).
Notation sobj := (sobj dictSdsHash).
Notation setTypeAddAux := (setTypeAddAux dictSdsHash resize table_addr set_max_intset_entries set_max_listpack_entries set_max_listpack_value).
Notation setTypeRemoveAux := (setTypeRemoveAux dictSdsHash resize).
Notation setTypeIsMemberAux := (setTypeIsMemberAux dictSdsHash resize).
Notation setTypeSize := (setTypeSize dictSdsHash).
Notation iterate := (iterate dictSdsHash table_addr).

Inductive dbobj := OSet (o : sobj) | OOther.
Notation heap := (gmap nat dbobj).

Inductive sreply := WRONGTYPE | SetReply (n : Z) (els : list melem) | IntReply (n : Z) | ArrayReply (ns : list Z).

(** The target key: not given, set to an object, or deleted. *)
Inductive dst_effect := NoDst | StoreDst (o : sobj) | DeleteDst.

Definition get_set (H : heap) (id : nat) : option sobj := match H !! id with Some (OSet o) => Some o | _ => None end.
Definition put_set (H : heap) (id : nat) (o : sobj) : heap := <[id := OSet o]> H.

(** ** Single sets *)

(** The loop over the members: the set and [added]. *)
Fixpoint sadd_loop (o : sobj) (values : list (list Z)) (added : Z) : option (sobj * Z) :=
  match values with
  | [] => Some (o, added)
  | v :: values => '(o, b) ← setTypeAddAux o (MStr v); sadd_loop o values (if (b : bool) then s32 (added + 1) else added)
  end.

(** SADD: the set of the key afterwards and the reply. *)
Definition saddCommand (key : option dbobj) (values : list (list Z)) : option (option dbobj * sreply) :=
  match key with
  | Some OOther => Some (key, WRONGTYPE)
  | None =>
      v0 ← head values;
      o ← setTypeCreate dictSdsHash set_max_intset_entries set_max_listpack_entries v0 (zlen values);
      '(o, added) ← sadd_loop o values 0;
      Some (Some (OSet o), IntReply added)
  | Some (OSet o) =>
      o ← setTypeMaybeConvert dictSdsHash resize table_addr set_max_intset_entries set_max_listpack_entries o (zlen values);
      '(o, added) ← sadd_loop o values 0;
      Some (Some (OSet o), IntReply added)
  end.

(** [None] inside for the key that is removed with the last member. *)
Fixpoint srem_loop (o : sobj) (values : list (list Z)) (deleted : Z) : option (option sobj * Z) :=
  match values with
  | [] => Some (Some o, deleted)
  | v :: values =>
      '(o, b) ← setTypeRemoveAux o (MStr v);
      if (b : bool) then
        '(o, n) ← setTypeSize o;
        if n =? 0 then Some (None, s32 (deleted + 1)) else srem_loop o values (s32 (deleted + 1))
      else srem_loop o values deleted
  end.

Definition sremCommand (key : option dbobj) (values : list (list Z)) : option (option dbobj * sreply) :=
  match key with
  | None => Some (None, IntReply 0)
  | Some OOther => Some (key, WRONGTYPE)
  | Some (OSet o) => '(o, deleted) ← srem_loop o values 0; Some (match o with Some o => Some (OSet o) | None => None end, IntReply deleted)
  end.

Definition sismemberCommand (key : option dbobj) (value : list Z) : option (option dbobj * sreply) :=
  match key with
  | None => Some (None, IntReply 0)
  | Some OOther => Some (key, WRONGTYPE)
  | Some (OSet o) => '(o, b) ← setTypeIsMemberAux o (MStr value); Some (Some (OSet o), IntReply (if (b : bool) then 1 else 0))
  end.

Fixpoint smismember_loop (o : sobj) (values : list (list Z)) : option (sobj * list Z) :=
  match values with
  | [] => Some (o, [])
  | v :: values =>
      '(o, b) ← setTypeIsMemberAux o (MStr v);
      '(o, ns) ← smismember_loop o values;
      Some (o, (if (b : bool) then 1 else 0) :: ns)
  end.

Definition smismemberCommand (key : option dbobj) (values : list (list Z)) : option (option dbobj * sreply) :=
  match key with
  | None => Some (None, ArrayReply (replicate (length values) 0))
  | Some OOther => Some (key, WRONGTYPE)
  | Some (OSet o) => '(o, ns) ← smismember_loop o values; Some (Some (OSet o), ArrayReply ns)
  end.

(** SMOVE: the source and the target afterwards.  [same] says that both keys hold one object. *)
Definition smoveCommand (src dst : option dbobj) (same : bool) (ele : list Z) : option (option dbobj * option dbobj * sreply) :=
  match src, dst with
  | None, _ => Some (src, dst, IntReply 0)
  | Some OOther, _ | _, Some OOther => Some (src, dst, WRONGTYPE)
  | Some (OSet s), _ =>
      if same then
        '(s, b) ← setTypeIsMemberAux s (MStr ele);
        Some (Some (OSet s), Some (OSet s), IntReply (if (b : bool) then 1 else 0))
      else
        '(s, removed) ← setTypeRemoveAux s (MStr ele);
        if negb removed then Some (Some (OSet s), dst, IntReply 0)
        else
          '(s, n) ← setTypeSize s;
          let src := if n =? 0 then None else Some (OSet s) in
          d ← match dst with
              | Some (OSet d) => Some d
              | _ => setTypeCreate dictSdsHash set_max_intset_entries set_max_listpack_entries ele 1
              end;
          '(d, _) ← setTypeAddAux d (MStr ele);
          Some (src, Some (OSet d), IntReply 1)
  end.

Definition scardCommand (key : option dbobj) : option (option dbobj * sreply) :=
  match key with
  | None => Some (None, IntReply 0)
  | Some OOther => Some (key, WRONGTYPE)
  | Some (OSet o) => '(o, n) ← setTypeSize o; Some (Some (OSet o), IntReply n)
  end.

(** ** Looking up the sets of an operation *)

(** [None] inside when a key holds another type. *)
Fixpoint lookup_sets (H : heap) (keys : list (option nat)) : option (option (list (option nat))) :=
  match keys with
  | [] => Some (Some [])
  | None :: keys => r ← lookup_sets H keys; Some (match r with Some sets => Some (None :: sets) | None => None end)
  | Some id :: keys =>
      o ← H !! id;
      match o with
      | OOther => Some None
      | OSet _ => r ← lookup_sets H keys; Some (match r with Some sets => Some (Some id :: sets) | None => None end)
      end
  end.

(** The sizes the comparison functions of [qsort] ask for; every element is compared when there are
    two or more. *)
Fixpoint set_sizes (H : heap) (sets : list (option nat)) : option (heap * list (Z * option nat)) :=
  match sets with
  | [] => Some (H, [])
  | None :: sets => '(H, szs) ← set_sizes H sets; Some (H, (0, None) :: szs)
  | Some id :: sets =>
      o ← get_set H id;
      '(o, n) ← setTypeSize o;
      '(H, szs) ← set_sizes (put_set H id o) sets;
      Some (H, (n, Some id) :: szs)
  end.

Definition qsortCompareSetsByCardinality (s1 s2 : Z * option nat) : Z :=
  if s1.1 >? s2.1 then 1 else if s1.1 <? s2.1 then -1 else 0.

Definition qsortCompareSetsByRevCardinality (s1 s2 : Z * option nat) : Z :=
  if s1.1 <? s2.1 then 1 else if s1.1 >? s2.1 then -1 else 0.

Definition sort_sets (cmp : Z * option nat -> Z * option nat -> Z) (H : heap) (sets : list (option nat)) :
    option (heap * list (option nat)) :=
  if zlen sets <=? 1 then Some (H, sets)
  else '(H, szs) ← set_sizes H sets; Some (H, snd <$> qsort cmp szs).

(** ** Intersection *)

Inductive inter_mode := InterReply | InterCard (limit : Z) | InterStore.

Record inter_state := {
  is_heap : heap;
  is_card : Z;
  is_els : list melem;
  is_dst : sobj;
  is_only_integers : bool;
}.

(** [for (j = 1; j < setnum; j++)]: whether all the other sets have the member. *)
Fixpoint in_all (H : heap) (s0 : nat) (sets : list (option nat)) (m : melem) : option (heap * bool) :=
  match sets with
  | [] => Some (H, true)
  | None :: _ => None
  | Some j :: sets =>
      if bool_decide (j = s0) then in_all H s0 sets m
      else
        o ← get_set H j;
        '(o, b) ← setTypeIsMemberAux o m;
        let H := put_set H j o in
        if (b : bool) then in_all H s0 sets m else Some (H, false)
  end.

(** The member as it is added to the target, and [only_integers]. *)
Definition inter_member (from_ht : bool) (dst : sobj) (m : melem) (only_integers : bool) : option (melem * bool) :=
  match m with
  | MStr s =>
      if only_integers then
        r ← (if from_ht then string2ll s (zlen s) else Some None);
        Some (match r with
              | Some v => (match dst with SetHT _ _ => m | _ => MInt v end, true)
              | None => (m, false)
              end)
      else Some (m, false)
  | MInt _ => Some (m, only_integers)
  end.

Definition inter_elem (mode : inter_mode) (s0 : nat) (from_ht : bool) (others : list (option nat)) (m : melem) (st : inter_state) :
    option (inter_state + inter_state) :=
  '(H, all) ← in_all (is_heap st) s0 others m;
  if negb all then Some (inl {| is_heap := H; is_card := is_card st; is_els := is_els st; is_dst := is_dst st; is_only_integers := is_only_integers st |})
  else
    match mode with
    | InterCard limit =>
        let st := {| is_heap := H; is_card := u64 (is_card st + 1); is_els := is_els st; is_dst := is_dst st; is_only_integers := is_only_integers st |} in
        if negb (limit =? 0) && (is_card st >=? limit) then Some (inr st) else Some (inl st)
    | InterReply =>
        Some (inl {| is_heap := H; is_card := u64 (is_card st + 1); is_els := is_els st ++ [m]; is_dst := is_dst st; is_only_integers := is_only_integers st |})
    | InterStore =>
        '(m, only_integers) ← inter_member from_ht (is_dst st) m (is_only_integers st);
        '(dst, _) ← setTypeAddAux (is_dst st) m;
        Some (inl {| is_heap := H; is_card := is_card st; is_els := is_els st; is_dst := dst; is_only_integers := only_integers |})
    end.

(** The empty target, which starts in an encoding that suits the first set. *)
Definition inter_target (mode : inter_mode) (o : sobj) : option sobj :=
  match mode, o with
  | InterStore, SetIntset _ _ => Some (createIntsetObject dictSdsHash)
  | InterStore, SetListpack _ lp => b ← lpBytes lp; lp ← lpNew b; Some (SetListpack _ lp)
  | InterStore, SetHT _ _ => createSetListpackObject dictSdsHash
  | _, _ => Some (createIntsetObject dictSdsHash)
  end.

Definition inter_finish (mode : inter_mode) (st : inter_state) : option (heap * sreply * dst_effect) :=
  match mode with
  | InterCard _ => Some (is_heap st, IntReply (is_card st), NoDst)
  | InterReply => Some (is_heap st, SetReply (is_card st) (is_els st), NoDst)
  | InterStore =>
      '(dst, n) ← setTypeSize (is_dst st);
      if n >? 0 then
        dst ← (if is_only_integers st then maybeConvertToIntset dictSdsHash table_addr set_max_intset_entries dst else Some dst);
        dst ← match dst with SetListpack _ lp => lp ← lpShrinkToFit lp; Some (SetListpack _ lp) | _ => Some dst end;
        '(dst, n) ← setTypeSize dst;
        Some (is_heap st, IntReply n, StoreDst dst)
      else Some (is_heap st, IntReply 0, DeleteDst)
  end.

Definition sinterGenericCommand (H : heap) (keys : list (option nat)) (mode : inter_mode) : option (heap * sreply * dst_effect) :=
  r ← lookup_sets H keys;
  match r with
  | None => Some (H, WRONGTYPE, NoDst)
  | Some sets =>
      if existsb (fun s => bool_decide (s = None)) sets then
        Some (H, match mode with InterReply => SetReply 0 [] | _ => IntReply 0 end,
              match mode with InterStore => DeleteDst | _ => NoDst end)
      else
        '(H, sets) ← sort_sets qsortCompareSetsByCardinality H sets;
        match sets with
        | Some s0 :: others =>
            o ← get_set H s0;
            dst ← inter_target mode o;
            let from_ht := match o with SetHT _ _ => true | _ => false end in
            st ← iterate (fun st => get_set (is_heap st) s0) (inter_elem mode s0 from_ht others)
                   {| is_heap := H; is_card := 0; is_els := []; is_dst := dst; is_only_integers := true |};
            inter_finish mode st
        | _ => None
        end
  end.

(** ** Union and difference *)

Inductive set_op := SET_OP_UNION | SET_OP_DIFF.

Notation acc := (heap * sobj * Z)%type.

Definition acc_add (m : melem) (st : acc) : option (acc + acc) :=
  let '(H, dst, card) := st in
  '(dst, b) ← setTypeAddAux dst m;
  Some (inl (H, dst, if (b : bool) then s32 (card + 1) else card)).

Definition acc_remove (m : melem) (st : acc) : option (acc + acc) :=
  let '(H, dst, card) := st in
  '(dst, b) ← setTypeRemoveAux dst m;
  Some (inl (H, dst, if (b : bool) then s32 (card - 1) else card)).

Fixpoint union_loop (sets : list (option nat)) (st : acc) : option acc :=
  match sets with
  | [] => Some st
  | None :: sets => union_loop sets st
  | Some j :: sets => st ← iterate (fun st => get_set st.1.1 j) acc_add st; union_loop sets st
  end.

(** Whether none of the other sets has the member. *)
Fixpoint in_none (H : heap) (s0 : nat) (sets : list (option nat)) (m : melem) : option (heap * bool) :=
  match sets with
  | [] => Some (H, true)
  | None :: sets => in_none H s0 sets m
  | Some j :: sets =>
      if bool_decide (j = s0) then Some (H, false)
      else
        o ← get_set H j;
        '(o, b) ← setTypeIsMemberAux o m;
        let H := put_set H j o in
        if (b : bool) then Some (H, false) else in_none H s0 sets m
  end.

Definition diff1_elem (s0 : nat) (others : list (option nat)) (m : melem) (st : acc) : option (acc + acc) :=
  let '(H, dst, card) := st in
  '(H, none) ← in_none H s0 others m;
  if (none : bool) then acc_add m (H, dst, card) else Some (inl (H, dst, card)).

(** The sets from the second on, until the result is empty. *)
Fixpoint diff2_loop (sets : list (option nat)) (st : acc) : option acc :=
  match sets with
  | [] => Some st
  | None :: sets => diff2_loop sets st
  | Some j :: sets =>
      st ← iterate (fun st => get_set st.1.1 j) acc_remove st;
      if st.2 =? 0 then Some st else diff2_loop sets st
  end.

(** [algo_one_work] and [algo_two_work]. *)
Fixpoint diff_work (H : heap) (s0 : nat) (sets : list (option nat)) (one two : Z) : option (heap * Z * Z) :=
  match sets with
  | [] => Some (H, one, two)
  | None :: sets => diff_work H s0 sets one two
  | Some j :: sets =>
      o ← get_set H s0; '(o, n0) ← setTypeSize o;
      let H := put_set H s0 o in
      o ← get_set H j; '(o, n) ← setTypeSize o;
      diff_work (put_set H j o) s0 sets (s64 (one + n0)) (s64 (two + n))
  end.

Definition diff_command (H : heap) (s0 : nat) (others : list (option nat)) (dst : sobj) : option acc :=
  '(H, one, two) ← diff_work H s0 (Some s0 :: others) 0 0;
  if Z.quot one 2 <=? two then
    '(H, others) ← sort_sets qsortCompareSetsByRevCardinality H others;
    iterate (fun st => get_set st.1.1 s0) (diff1_elem s0 others) (H, dst, 0)
  else
    st ← iterate (fun st => get_set st.1.1 s0) acc_add (H, dst, 0);
    if st.2 =? 0 then Some st else diff2_loop others st.

(** The members of the result, in the order of its iteration. *)
Definition list_elems (o : sobj) : option (list melem) := iterate (fun _ => Some o) (fun m els => Some (inl (els ++ [m]))) [].

Definition sunionDiffGenericCommand (H : heap) (keys : list (option nat)) (store : bool) (op : set_op) : option (heap * sreply * dst_effect) :=
  r ← lookup_sets H keys;
  match r with
  | None => Some (H, WRONGTYPE, NoDst)
  | Some sets =>
      let dst := createIntsetObject dictSdsHash in
      '(H, dst, cardinality) ←
        match op, sets with
        | SET_OP_UNION, _ => union_loop sets (H, dst, 0)
        | SET_OP_DIFF, Some s0 :: others =>
            if existsb (fun s => bool_decide (s = Some s0)) others then Some (H, dst, 0) else diff_command H s0 others dst
        | SET_OP_DIFF, _ => Some (H, dst, 0)
        end;
      if negb store then
        els ← list_elems dst;
        Some (H, SetReply cardinality els, NoDst)
      else
        '(dst, n) ← setTypeSize dst;
        if n >? 0 then '(dst, n) ← setTypeSize dst; Some (H, IntReply n, StoreDst dst)
        else Some (H, IntReply 0, DeleteDst)
  end.
End Cmd.
