(* ===== verification/SetProps.v ===== *)
(** * Sets: the properties of the operations and commands *)
From S2P Require Import Prelude Numstr NumstrFacts NumstrProps Intset IntsetFacts IntsetProps Listpack ListpackOps ListpackFacts ListpackEdit ListpackRange ListpackProps Dict DictOps DictFacts DictRehash DictFind DictUpdate DictProps DictIter Skiplist SkiplistOrder Zzl ZzlFacts Zset ZsetFacts SetObj SetFacts SetUpdate SetCmd.

Section Commands.
Context `{Allocator} `{Q : Qsort} `{!QsortOk Q}.
Context (hash : list Z -> Z) (Hhash : forall k, 0 <= hash k < 2 ^ 64) (resize : dictResizeEnable).
#[local] Existing Instance SD.
Context (addr : @dict (SD hash) -> bool -> Z).
Context (max_intset max_entries max_value : Z).
Notation SetRepr := (SetRepr hash Hhash).
Notation holds_set := (holds_set hash Hhash).
Notation heap := (gmap nat (dbobj hash)).

(** The objects in [M] are sets with those members. *)
Definition heap_holds (h : heap) (M : gmap nat (list (list Z))) : Prop :=
  forall id L, M !! id = Some L -> exists o, h !! id = Some (OSet hash o) /\ SetRepr o L.

Definition small_sets (M : gmap nat (list (list Z))) : Prop := forall id L, M !! id = Some L -> zlen L < 2 ^ 29 - 1.

(** The keys found are NULL or sets. *)
Definition keys_ok (M : gmap nat (list (list Z))) (keys : list (option nat)) : Prop :=
  Forall (fun k => match k with Some id => is_Some (M !! id) | None => True end) keys.

Definition members (M : gmap nat (list (list Z))) (k : option nat) : list (list Z) :=
  match k with Some id => default [] (M !! id) | None => [] end.

Lemma get_set_ok h M id L : heap_holds h M -> M !! id = Some L -> exists o, get_set hash h id = Some o /\ SetRepr o L.
Proof. intros Hh HM. destruct (Hh id L HM) as (o & E & Ho). exists o. unfold get_set. by rewrite E. Qed.

Lemma put_set_ok h M id L o : heap_holds h M -> M !! id = Some L -> SetRepr o L -> heap_holds (put_set hash h id o) M.
Proof.
  intros Hh HM Ho id' L' HM'. unfold put_set. destruct (decide (id' = id)) as [->|Hn].
  - rewrite lookup_insert, decide_True by done. exists o. split; [done|]. congruence.
  - rewrite lookup_insert_ne by done. by apply Hh.
Qed.

Lemma lookup_sets_ok h M keys : heap_holds h M -> keys_ok M keys -> lookup_sets hash h keys = Some (Some keys).
Proof.
  intros Hh. induction 1 as [|k keys Hk _ IH]; [done|]. destruct k as [id|]; simpl.
  - destruct Hk as [L HM]. destruct (Hh id L HM) as (o & -> & _). cbn [mbind option_bind]. by rewrite IH.
  - by rewrite IH.
Qed.

(** A key of another type is an error and nothing changes. *)
Lemma lookup_sets_wrong h keys : Forall (fun k => match k with Some id => is_Some (h !! id) | None => True end) keys ->
  Exists (fun k => exists id, k = Some id /\ h !! id = Some (OOther hash)) keys -> lookup_sets hash h keys = Some None.
Proof.
  intros Hall. induction 1 as [k keys (id & -> & E)|k keys _ IH]; [simpl; by rewrite E|].
  inversion Hall as [|?? Hk Hks]; subst. destruct k as [id|]; simpl; [|by rewrite IH].
  destruct Hk as [o ->]. cbn [mbind option_bind]. destruct o; [|done]. by rewrite IH.
Qed.

Lemma set_sizes_ok keys : forall h M, heap_holds h M -> small_sets M -> keys_ok M keys ->
  exists h' szs, set_sizes hash h keys = Some (h', szs) /\ heap_holds h' M /\ szs.*2 = keys.
Proof.
  induction keys as [|k keys IH]; intros h M Hh Hm Hk; [by exists h, []|]. inversion Hk as [|?? Hk0 Hks]; subst.
  destruct k as [id|]; simpl.
  - destruct Hk0 as [L HM]. destruct (get_set_ok h M id L Hh HM) as (o & -> & Ho). cbn [mbind option_bind].
    pose proof (Hm id L HM). destruct (setTypeSize_spec hash Hhash o L Ho) as (o' & -> & Ho' & _); [lia|]. cbn [mbind option_bind].
    destruct (IH (put_set hash h id o') M) as (h' & szs & -> & Hh' & E); [by eapply put_set_ok|done|done|].
    cbn [mbind option_bind]. eexists _, _. split; [done|]. split; [done|]. by rewrite fmap_cons, E.
  - destruct (IH h M Hh Hm Hks) as (h' & szs & -> & Hh' & E). cbn [mbind option_bind]. eexists _, _. split; [done|]. split; [done|].
    by rewrite fmap_cons, E.
Qed.

Lemma sort_sets_ok cmp keys h M : heap_holds h M -> small_sets M -> keys_ok M keys ->
  exists h' keys', sort_sets hash cmp h keys = Some (h', keys') /\ heap_holds h' M /\ keys' ≡ₚ keys.
Proof.
  intros Hh Hm Hk. unfold sort_sets. destruct (zlen keys <=? 1); [by exists h, keys|].
  destruct (set_sizes_ok keys h M Hh Hm Hk) as (h' & szs & -> & Hh' & <-). cbn [mbind option_bind].
  eexists _, _. split; [done|]. split; [done|]. apply Permutation_map, qsort_perm.
Qed.

(** ** Testing one member against the other sets *)

Definition in_others (M : gmap nat (list (list Z))) (others : list (option nat)) (x : list Z) : Prop :=
  Forall (fun k => x ∈ members M k) others.
#[local] Instance in_others_dec M others x : Decision (in_others M others x).
Proof. unfold in_others. apply _. Defined.

Definition in_no_other (M : gmap nat (list (list Z))) (others : list (option nat)) (x : list Z) : Prop :=
  Forall (fun k => x ∉ members M k) others.
#[local] Instance in_no_other_dec M others x : Decision (in_no_other M others x).
Proof. unfold in_no_other. apply _. Defined.

Section Member.
  Context (M : gmap nat (list (list Z))) (Hsmall : small_sets M) (s0 : nat) (L0 : list (list Z)) (HM0 : M !! s0 = Some L0).
  Context (m : melem) (x : list Z) (Hm : text_of m x) (Hx : is_str x) (Hin : x ∈ L0).

Lemma member_at h j L : heap_holds h M -> M !! j = Some L -> j <> s0 ->
  exists o o', get_set hash h j = Some o /\ setTypeIsMemberAux hash resize o m = Some (o', bool_decide (x ∈ L)) /\
    heap_holds (put_set hash h j o') M /\ put_set hash h j o' !! s0 = h !! s0.
Proof.
  intros Hh HM Hj. destruct (get_set_ok h M j L Hh HM) as (o & E & Ho). pose proof (Hsmall j L HM).
  destruct (member_spec hash Hhash resize o L m x Ho Hm Hx) as (o' & E' & Ho'); [lia|].
  exists o, o'. split; [done|]. split; [done|]. split; [by eapply put_set_ok|]. unfold put_set. by rewrite lookup_insert_ne.
Qed.

Lemma in_all_ok others : forall h, heap_holds h M -> keys_ok M others -> Forall (fun k => k <> None) others ->
  exists h', in_all hash resize h s0 others m = Some (h', bool_decide (in_others M others x)) /\ heap_holds h' M /\ h' !! s0 = h !! s0.
Proof.
  induction others as [|k others IH]; intros h Hh Hk Hn; cbn [in_all].
  { exists h. by rewrite bool_decide_eq_true_2 by constructor. }
  inversion Hk as [|?? Hk0 Hks]; inversion Hn as [|?? Hn0 Hns]; subst. destruct k as [j|]; [|done].
  assert (forall b, bool_decide (in_others M (Some j :: others) x) = b <-> bool_decide (x ∈ members M (Some j) /\ in_others M others x) = b) as Hcons.
  { intros b. unfold in_others. by rewrite (bool_decide_ext _ _ (Forall_cons _ _ _)). }
  destruct (bool_decide_reflect (j = s0)) as [->|Hj].
  - destruct (IH h Hh Hks Hns) as (h' & -> & Hh' & E). exists h'. split; [|done]. do 2 f_equal. symmetry. apply Hcons.
    apply bool_decide_ext. simpl. rewrite HM0. simpl. tauto.
  - destruct Hk0 as [L HM]. destruct (member_at h j L Hh HM Hj) as (o & o' & Eg & Em & Hh1 & E1). rewrite Eg. cbn [mbind option_bind]. rewrite Em. cbn [mbind option_bind].
    destruct (bool_decide_reflect (x ∈ L)) as [HxL|HxL].
    + destruct (IH _ Hh1 Hks Hns) as (h' & -> & Hh' & E). exists h'. split; [|split; [done|by rewrite E]]. do 2 f_equal. symmetry. apply Hcons.
      apply bool_decide_ext. simpl. rewrite HM. simpl. tauto.
    + eexists. split; [|split; [exact Hh1|done]]. do 2 f_equal. symmetry. apply Hcons. apply bool_decide_eq_false_2.
      simpl. rewrite HM. simpl. tauto.
Qed.

Lemma in_none_ok others : forall h, heap_holds h M -> keys_ok M others ->
  exists h', in_none hash resize h s0 others m = Some (h', bool_decide (in_no_other M others x)) /\ heap_holds h' M /\ h' !! s0 = h !! s0.
Proof.
  induction others as [|k others IH]; intros h Hh Hk; cbn [in_none].
  { exists h. by rewrite bool_decide_eq_true_2 by constructor. }
  inversion Hk as [|?? Hk0 Hks]; subst.
  assert (forall b, bool_decide (in_no_other M (k :: others) x) = b <-> bool_decide (x ∉ members M k /\ in_no_other M others x) = b) as Hcons.
  { intros b. unfold in_no_other. by rewrite (bool_decide_ext _ _ (Forall_cons _ _ _)). }
  destruct k as [j|].
  2: { destruct (IH h Hh Hks) as (h' & -> & Hh' & E). exists h'. split; [|done]. do 2 f_equal. symmetry. apply Hcons.
       apply bool_decide_ext. split; [tauto|]. intros Hr. split; [apply not_elem_of_nil|done]. }
  destruct (bool_decide_reflect (j = s0)) as [->|Hj].
  - exists h. split; [|done]. do 2 f_equal. symmetry. apply Hcons. apply bool_decide_eq_false_2. simpl. rewrite HM0. simpl. tauto.
  - destruct Hk0 as [L HM]. destruct (member_at h j L Hh HM Hj) as (o & o' & Eg & Em & Hh1 & E1). rewrite Eg. cbn [mbind option_bind]. rewrite Em. cbn [mbind option_bind].
    destruct (bool_decide_reflect (x ∈ L)) as [HxL|HxL].
    + eexists. split; [|split; [exact Hh1|done]]. do 2 f_equal. symmetry. apply Hcons. apply bool_decide_eq_false_2.
      simpl. rewrite HM. simpl. tauto.
    + destruct (IH _ Hh1 Hks) as (h' & -> & Hh' & E). exists h'. split; [|split; [done|by rewrite E]]. do 2 f_equal. symmetry. apply Hcons.
      apply bool_decide_ext. simpl. rewrite HM. simpl. tauto.
Qed.
End Member.

(** ** Intersection *)

Definition numeric (x : list Z) : Prop := exists v, IsDec x v /\ in_int64 v.

Lemma inter_member_ok o dst m x b : yields hash o m x ->
  exists m' b', inter_member hash (match o with SetHT _ _ => true | _ => false end) dst m b = Some (m', b') /\ text_of m' x /\
    (b' = true -> b = true /\ numeric x).
Proof.
  intros [Hm Hk]. unfold inter_member. destruct m as [t|v]; simpl in Hm.
  - subst t. destruct b; [|by eexists _, _]. destruct o as [st|lp|d]; [done|by eexists _, _|].
    destruct (parse_cases x) as [->|(v & -> & Hd & Hv)]; cbn [mbind option_bind]; [by eexists _, _|].
    eexists _, _. split; [done|]. split; [by destruct dst|]. intros _. split; [done|by exists v].
  - eexists _, _. split; [done|]. split; [done|]. intros ->. split; [done|by exists v].
Qed.

Section Inter.
  Context (M : gmap nat (list (list Z))) (Hsmall : small_sets M) (s0 : nat) (L0 : list (list Z)) (HM0 : M !! s0 = Some L0).
  Context (others : list (option nat)) (Hk : keys_ok M others) (Hn : Forall (fun k => k <> None) others).
  Context (o : sobj hash) (Ho : SetRepr o L0) (mode : inter_mode).

(** The members found so far. *)
Definition common (done : list (list Z)) : list (list Z) := filter (in_others M others) done.

Definition inter_inv (done : list (list Z)) (st : inter_state hash) : Prop :=
  heap_holds (is_heap hash st) M /\ is_heap hash st !! s0 = Some (OSet hash o) /\
  match mode with
  | InterReply => is_card hash st = zlen (common done) /\ Forall2 text_of (is_els hash st) (common done)
  | InterCard limit => is_card hash st = zlen (common done) /\ (limit = 0 \/ is_card hash st < limit)
  | InterStore => holds_set (is_dst hash st) (common done) /\ (is_only_integers hash st = true -> Forall numeric (common done))
  end.

Definition inter_stop (n : Z) (st : inter_state hash) : Prop :=
  heap_holds (is_heap hash st) M /\ is_heap hash st !! s0 = Some (OSet hash o) /\
  match mode with InterCard limit => limit <> 0 /\ is_card hash st = limit /\ limit <= n | _ => False end.

Lemma common_snoc done x : common (done ++ [x]) = common done ++ (if decide (in_others M others x) then [x] else []).
Proof. unfold common. by rewrite filter_app, filter_cons, filter_nil. Qed.

Lemma common_len done : zlen (common done) <= zlen done.
Proof. unfold zlen, common. pose proof (length_filter (in_others M others) done). lia. Qed.

Lemma inter_elem_ok L' done x rest m st : L' ≡ₚ L0 -> L' = done ++ x :: rest -> yields hash o m x -> inter_inv done st ->
  exists r, inter_elem hash resize addr max_intset max_entries max_value mode s0
      (match o with SetHT _ _ => true | _ => false end) others m st = Some r /\
    match r with inl st' => inter_inv (done ++ [x]) st' | inr st' => inter_stop (zlen (common L')) st' end.
Proof.
  unfold inter_inv, inter_stop. intros HP HL Hy (Hh & H0 & Hinv). unfold inter_elem. pose proof Hy as [Hm _].
  assert (x ∈ L0) as Hx by (rewrite <- HP, HL; apply elem_of_app; right; left).
  assert (is_str x) as Hsx by (eapply Forall_forall; [apply (sr_strs _ _ _ _ Ho)|done]).
  assert (NoDup L') as HN by (rewrite HP; apply Ho).
  pose proof (Hsmall s0 L0 HM0) as Hl0. assert (zlen L' = zlen L0) as HlL by (unfold zlen; by rewrite HP).
  assert (zlen done + 1 <= zlen L') as Hld by (rewrite HL, zlen_app, zlen_cons; pose proof (zlen_nonneg rest); lia).
  pose proof (common_len done) as Hcl. pose proof (zlen_nonneg (common done)) as Hc0.
  destruct (in_all_ok M Hsmall s0 L0 HM0 m x Hm Hsx Hx others (is_heap hash st) Hh Hk Hn) as (h' & -> & Hh' & E'). cbn [mbind option_bind].
  rewrite H0 in E'. destruct (bool_decide_reflect (in_others M others x)) as [Hall|Hno]; cbn [negb].
  2: { eexists. split; [done|]. split; [done|]. split; [done|]. rewrite common_snoc, decide_False, app_nil_r by done. exact Hinv. }
  assert (common (done ++ [x]) = common done ++ [x]) as Ec by (by rewrite common_snoc, decide_True).
  assert (zlen (common done) + 1 <= zlen (common L')) as HcL.
  { rewrite HL. unfold common. rewrite filter_app, filter_cons_True, zlen_app, zlen_cons by done.
    pose proof (zlen_nonneg (filter (in_others M others) rest)). unfold common in *. lia. }
  destruct mode as [|limit|] eqn:Emode.
  - destruct Hinv as [Hc He]. eexists. split; [done|]. split; [done|]. split; [done|]. rewrite Ec. cbn.
    split; [rewrite zlen_app, Hc, wrapu_small by lia; done|]. apply Forall2_app; [done|by constructor].
  - destruct Hinv as [Hc Hlim]. cbn [is_card]. rewrite Hc, wrapu_small by lia.
    destruct (negb (limit =? 0) && (zlen (common done) + 1 >=? limit)) eqn:El.
    + eexists. split; [done|]. split; [done|]. split; [done|]. cbn. lia.
    + eexists. split; [done|]. split; [done|]. split; [done|]. rewrite Ec. cbn. split; [by rewrite zlen_app|]. lia.
  - destruct Hinv as [(D & HD & HPD) Hint].
    destruct (inter_member_ok o (is_dst hash st) m x (is_only_integers hash st) Hy) as (m' & b' & -> & Hm' & Hb'). cbn [mbind option_bind].
    assert (zlen D = zlen (common done)) as HlD by (unfold zlen; by rewrite HPD).
    destruct (set_add_spec hash Hhash resize addr max_intset max_entries max_value (is_dst hash st) D m' x HD Hm' Hsx)
      as (dst' & -> & D' & HD' & HPD'); [lia|]. cbn [mbind option_bind].
    assert (x ∉ common done) as Hno by (intros Hc; apply list_elem_of_filter in Hc as [_ Hc]; by eapply nodup_snoc).
    eexists. split; [done|]. split; [done|]. split; [done|]. rewrite Ec. cbn. split.
    + exists D'. split; [done|]. rewrite HPD', set_add_fresh by (by rewrite HPD). by rewrite HPD, Permutation_app_comm.
    + intros Eb. destruct (Hb' Eb) as [Eb0 Hnx]. apply Forall_app. split; [by apply Hint|by constructor].
Qed.

Lemma inter_target_ok : exists dst, inter_target hash mode o = Some dst /\ SetRepr dst [].
Proof.
  unfold inter_target. destruct mode; try (eexists; split; [done|apply empty_intset]).
  destruct o as [st|lp|d].
  - eexists. split; [done|apply empty_intset].
  - destruct (sr_enc _ _ _ _ Ho) as (num & slack & -> & WF). unfold lpBytes. rewrite getTotalBytes_block by done. cbn [mbind option_bind].
    destruct (lpNew_repr (lp_total (str_ent <$> L0))) as (lp & -> & HR). cbn [mbind option_bind]. eexists. split; [done|by apply empty_listpack].
  - unfold createSetListpackObject. destruct (lpNew_repr 0) as (lp & -> & HR). cbn [mbind option_bind]. eexists. split; [done|by apply empty_listpack].
Qed.
End Inter.

(** The members common to all the keys. *)
Definition is_inter (M : gmap nat (list (list Z))) (keys : list (option nat)) (ss : list (list Z)) : Prop :=
  NoDup ss /\ forall x, x ∈ ss <-> forall k, k ∈ keys -> x ∈ members M k.

Definition inter_result (mode : inter_mode) (ss : list (list Z)) (r : sreply) (d : dst_effect hash) : Prop :=
  match mode with
  | InterReply => d = NoDst hash /\ exists els, r = SetReply (zlen ss) els /\ Forall2 text_of els ss
  | InterCard limit => d = NoDst hash /\ r = IntReply (if limit =? 0 then zlen ss else Z.min limit (zlen ss))
  | InterStore => r = IntReply (zlen ss) /\
      match ss with [] => d = DeleteDst hash | _ => exists o, d = StoreDst hash o /\ holds_set o ss end
  end.

Lemma holds_size o L : holds_set o L -> zlen L < 2 ^ 29 -> exists o', setTypeSize hash o = Some (o', zlen L) /\ holds_set o' L.
Proof.
  intros (D & HD & HP) Hl. assert (zlen D = zlen L) as E by (unfold zlen; by rewrite HP).
  destruct (setTypeSize_spec hash Hhash o D HD) as (o' & -> & HD' & _); [lia|]. rewrite E. exists o'. split; [done|]. by exists D.
Qed.

Lemma holds_shrink o L : holds_set o L ->
  exists o', match o with SetListpack _ lp => lp ← lpShrinkToFit lp; Some (SetListpack hash lp) | _ => Some o end = Some o' /\ holds_set o' L.
Proof.
  intros (D & HD & HP). destruct o as [st|lp|d]; [by exists (SetIntset hash st); split; [|exists D]| |by exists (SetHT hash d); split; [|exists D]].
  destruct HD as [HN Hs HR]. simpl in HR. destruct HR as (num & slack & -> & WF). rewrite shrink_block by apply WF. cbn [mbind option_bind].
  eexists. split; [done|]. exists D. split; [|done]. split; [done|done|]. by exists num, [].
Qed.

Lemma inter_finish_ok M s0 others L' o mode st : zlen L' < 2 ^ 29 - 1 ->
  (inter_inv M s0 others o mode L' st \/ inter_stop M s0 o mode (zlen (common M others L')) st) ->
  (match mode with InterCard limit => 0 <= limit | _ => True end) ->
  exists r d, inter_finish hash addr max_intset mode st = Some (is_heap hash st, r, d) /\ heap_holds (is_heap hash st) M /\
    inter_result mode (common M others L') r d.
Proof.
  intros Hl Hst Hlim. pose proof (common_len M others L') as Hcl. pose proof (zlen_nonneg (common M others L')) as Hc0.
  unfold inter_finish, inter_inv, inter_stop, inter_result in *. destruct mode as [|limit|].
  - destruct Hst as [(Hh & _ & Hc & He)|(_ & _ & [])]. eexists _, _. split; [done|]. split; [done|]. split; [done|].
    exists (is_els hash st). by rewrite Hc.
  - destruct Hst as [(Hh & _ & Hc & He)|(Hh & _ & Hne & Hc & Hle)]; (eexists _, _; split; [done|]; split; [done|]; split; [done|]).
    + rewrite Hc. f_equal. destruct (Z.eqb_spec limit 0); [done|]. lia.
    + rewrite Hc. f_equal. destruct (Z.eqb_spec limit 0); lia.
  - destruct Hst as [(Hh & _ & Hd & Hint)|(_ & _ & [])].
    destruct (holds_size _ _ Hd) as (dst & -> & Hd1); [lia|]. cbn [mbind option_bind].
    destruct (common M others L') as [|y ys] eqn:Ec; [eexists _, _; split; [done|]; done|].
    replace (zlen (y :: ys) >? 0) with true by (rewrite zlen_cons; pose proof (zlen_nonneg ys); lia).
    assert (exists dst2, (if is_only_integers hash st then maybeConvertToIntset hash addr max_intset dst else Some dst) = Some dst2 /\
      holds_set dst2 (y :: ys)) as (dst2 & -> & Hd2).
    { destruct (is_only_integers hash st); [|by exists dst]. destruct Hd1 as (D & HD & HP).
      destruct (maybe_to_intset_spec hash Hhash addr max_intset dst D HD) as (dst2 & E & D2 & HD2 & HP2).
      - unfold zlen in *. rewrite HP. lia.
      - rewrite HP. by apply Hint.
      - exists dst2. split; [done|]. exists D2. split; [done|by rewrite HP2]. }
    cbn [mbind option_bind]. destruct (holds_shrink dst2 _ Hd2) as (dst3 & -> & Hd3). cbn [mbind option_bind].
    destruct (holds_size dst3 _ Hd3) as (dst4 & -> & Hd4); [lia|]. cbn [mbind option_bind].
    eexists _, _. split; [done|]. split; [done|]. split; [done|]. by exists dst4.
Qed.

Lemma keys_ok_perm M keys keys' : keys ≡ₚ keys' -> keys_ok M keys -> keys_ok M keys'.
Proof. intros HP. unfold keys_ok. by rewrite HP. Qed.

Lemma sinter_ok h M keys mode :
  heap_holds h M -> small_sets M -> keys_ok M keys -> keys <> [] -> (match mode with InterCard limit => 0 <= limit | _ => True end) ->
  exists h' r d ss, sinterGenericCommand hash resize addr max_intset max_entries max_value h keys mode = Some (h', r, d) /\
    heap_holds h' M /\ is_inter M keys ss /\ inter_result mode ss r d.
Proof.
  intros Hh Hsm Hk Hne Hlim. unfold sinterGenericCommand. rewrite (lookup_sets_ok h M keys Hh Hk). cbn [mbind option_bind].
  destruct (existsb _ keys) eqn:Eex.
  { apply existsb_exists in Eex as (k & Hin & E). apply bool_decide_eq_true in E as ->. rewrite <- list_elem_of_In in Hin.
    eexists _, _, _, []. split; [done|]. split; [done|]. split.
    - split; [constructor|]. intros x. split; [by intros ?%not_elem_of_nil|]. intros Hall. by apply (Hall None).
    - destruct mode as [|limit|]; simpl; [split; [done|]; by exists []|split; [done|]|done]. f_equal. destruct (Z.eqb_spec limit 0); [done|].
      change (zlen []) with 0. lia. }
  assert (Forall (fun k => k <> None) keys) as Hnn.
  { apply Forall_forall. intros k Hin ->. apply not_true_iff_false in Eex. apply Eex, existsb_exists. exists None.
    rewrite <- list_elem_of_In. split; [done|]. by apply bool_decide_eq_true. }
  destruct (sort_sets_ok qsortCompareSetsByCardinality keys h M Hh Hsm Hk) as (h1 & keys' & -> & Hh1 & HP). cbn [mbind option_bind].
  assert (keys_ok M keys') as Hk' by (by eapply keys_ok_perm). assert (Forall (fun k => k <> None) keys') as Hnn' by (by rewrite HP).
  destruct keys' as [|k0 others]; [by apply Permutation_nil_l in HP|].
  inversion Hk' as [|?? Hk0 Hks]; inversion Hnn' as [|?? Hn0 Hns]; subst. destruct k0 as [s0|]; [|done]. destruct Hk0 as [L0 HM0].
  destruct (get_set_ok h1 M s0 L0 Hh1 HM0) as (o & Eg & Ho). rewrite Eg. cbn [mbind option_bind].
  destruct (inter_target_ok L0 o Ho mode) as (dst & -> & Hdst). cbn [mbind option_bind]. pose proof (Hsm s0 L0 HM0) as Hl0.
  destruct (iterate_rule hash Hhash addr o L0 Ho ltac:(lia)) as (L' & HP' & Hrule).
  assert (forall st, is_heap hash st !! s0 = Some (OSet hash o) -> get_set hash (is_heap hash st) s0 = Some o) as Hget.
  { intros st E. unfold get_set. by rewrite E. }
  destruct (Hrule _ (fun st => get_set hash (is_heap hash st) s0)
     (inter_elem hash resize addr max_intset max_entries max_value mode s0 (match o with SetHT _ _ => true | _ => false end) others)
     (inter_inv M s0 others o mode) (inter_stop M s0 o mode (zlen (common M others L')))
     {| is_heap := h1; is_card := 0; is_els := []; is_dst := dst; is_only_integers := true |}) as (st & -> & Hst).
  - split; [done|]. split; [cbn [is_heap]; unfold get_set in Eg; destruct (h1 !! s0) as [[o1|]|]; [by injection Eg as ->|done|done]|].
    destruct mode; simpl; [by split|split; [done|lia]|]. split; [by exists []|done].
  - intros done st (_ & E & _). by apply Hget.
  - intros st (_ & E & _). by apply Hget.
  - intros done x rest m st. by apply (inter_elem_ok M Hsm s0 L0 HM0 others Hks Hns o Ho mode L').
  - cbn [mbind option_bind]. destruct (inter_finish_ok M s0 others L' o mode st) as (r & d & -> & Hh2 & Hres); [unfold zlen in *; rewrite HP'; lia|done|done|].
    eexists _, _, _, _. split; [done|]. split; [done|]. split; [|exact Hres]. split.
    + apply NoDup_filter. rewrite HP'. apply Ho.
    + intros x. unfold common. rewrite list_elem_of_filter, HP'. unfold in_others. rewrite Forall_forall. split.
      * intros [Hall Hx] k Hin. rewrite <- HP in Hin. apply elem_of_cons in Hin as [->|Hin]; [simpl; by rewrite HM0|by apply Hall].
      * intros Hall. split; [intros k Hin; apply Hall; rewrite <- HP; by right|].
        specialize (Hall (Some s0)). simpl in Hall. rewrite HM0 in Hall. apply Hall. rewrite <- HP. left.
Qed.

(** ** Union and difference *)

Definition add_all (xs D : list (list Z)) : list (list Z) := foldl (fun D x => set_add x D) D xs.
Definition remove_all (xs D : list (list Z)) : list (list Z) := foldl (fun D x => set_remove x D) D xs.

Lemma add_all_elem xs : forall D x, x ∈ add_all xs D <-> x ∈ D \/ x ∈ xs.
Proof.
  induction xs as [|y xs IH]; intros D x; [cbn; rewrite elem_of_nil; tauto|].
  change (x ∈ add_all xs (set_add y D) <-> x ∈ D \/ x ∈ y :: xs). rewrite IH, elem_of_cons. unfold set_add.
  destruct (decide (y ∈ D)) as [Hy|Hy]; [|rewrite elem_of_cons; tauto]. split; [tauto|]. intros [?|[->|?]]; tauto.
Qed.

Lemma add_all_nodup xs : forall D, NoDup D -> NoDup (add_all xs D).
Proof. induction xs as [|y xs IH]; intros D HD; [done|]. apply IH. by apply set_add_nodup. Qed.

Lemma add_all_len xs : forall D, zlen (add_all xs D) <= zlen D + zlen xs.
Proof.
  induction xs as [|y xs IH]; intros D; [change (zlen []) with 0; cbn; lia|].
  change (add_all (y :: xs) D) with (add_all xs (set_add y D)). pose proof (IH (set_add y D)). pose proof (set_add_len y D).
  rewrite zlen_cons. lia.
Qed.

Lemma remove_all_elem xs : forall D x, x ∈ remove_all xs D <-> x ∈ D /\ x ∉ xs.
Proof.
  induction xs as [|y xs IH]; intros D x; [cbn; rewrite elem_of_nil; tauto|].
  change (x ∈ remove_all xs (set_remove y D) <-> x ∈ D /\ x ∉ y :: xs). rewrite IH, elem_of_cons. unfold set_remove.
  rewrite list_elem_of_filter. tauto.
Qed.

Lemma remove_all_nodup xs : forall D, NoDup D -> NoDup (remove_all xs D).
Proof. induction xs as [|y xs IH]; intros D HD; [done|]. apply IH. by apply set_remove_nodup. Qed.

Notation add_step := (acc_add hash resize addr max_intset max_entries max_value).
Notation remove_step := (acc_remove hash resize).

(** The target holds [D] and the counter its size. *)
Definition acc_holds (st : heap * sobj hash * Z) (D : list (list Z)) : Prop := NoDup D /\ holds_set st.1.2 D /\ st.2 = zlen D.

Lemma acc_add_ok st D m x : acc_holds st D -> text_of m x -> is_str x -> zlen D < 2 ^ 29 - 1 ->
  exists dst n, add_step m st = Some (inl (st.1.1, dst, n)) /\ acc_holds (st.1.1, dst, n) (set_add x D).
Proof.
  destruct st as [[h dst] card]. intros (HN & (D1 & HD & HP) & Hc) Hm Hx Hl. simpl in *. subst card. unfold acc_add.
  assert (zlen D1 = zlen D) as E by (unfold zlen; by rewrite HP). pose proof (zlen_nonneg D).
  destruct (set_add_spec hash Hhash resize addr max_intset max_entries max_value dst D1 m x HD Hm Hx) as (dst' & -> & D2 & HD2 & HP2); [lia|].
  cbn [mbind option_bind]. eexists _, _. split; [done|]. split; [by apply set_add_nodup|]. split.
  - exists D2. split; [done|]. rewrite HP2. unfold set_add. destruct (decide (x ∈ D1)) as [H1|H1], (decide (x ∈ D)) as [H2|H2];
      [done|by rewrite HP in H1|by rewrite HP in H1|by rewrite HP].
  - simpl. unfold set_add. destruct (bool_decide_reflect (x ∉ D1)) as [H1|H1].
    + rewrite decide_False by (by rewrite HP in H1). rewrite zlen_cons, wraps_small by lia. lia.
    + rewrite decide_True; [done|]. rewrite <- HP. by destruct (decide (x ∈ D1)).
Qed.

Lemma acc_remove_ok st D m x : acc_holds st D -> text_of m x -> is_str x -> zlen D < 2 ^ 29 - 1 ->
  exists dst n, remove_step m st = Some (inl (st.1.1, dst, n)) /\ acc_holds (st.1.1, dst, n) (set_remove x D).
Proof.
  destruct st as [[h dst] card]. intros (HN & (D1 & HD & HP) & Hc) Hm Hx Hl. simpl in *. subst card. unfold acc_remove.
  assert (zlen D1 = zlen D) as E by (unfold zlen; by rewrite HP). pose proof (zlen_nonneg D).
  destruct (set_remove_spec hash Hhash resize dst D1 m x HD Hm Hx) as (dst' & -> & D2 & HD2 & HP2); [lia|].
  cbn [mbind option_bind]. eexists _, _. split; [done|]. split; [by apply set_remove_nodup|]. split.
  - exists D2. split; [done|]. rewrite HP2. unfold set_remove. by rewrite HP.
  - simpl. destruct (bool_decide_reflect (x ∈ D1)) as [H1|H1].
    + rewrite HP in H1. pose proof (set_remove_perm x D HN H1) as Hp. apply Permutation_length in Hp. unfold zlen in *. simpl in Hp.
      rewrite wraps_small by lia. lia.
    + by rewrite set_remove_absent by (by rewrite HP in H1).
Qed.

Section Fold.
  Context (M : gmap nat (list (list Z))) (Hsmall : small_sets M) (h : heap) (Hh : heap_holds h M) (j : nat) (L : list (list Z)) (HM : M !! j = Some L).

Lemma add_set_ok dst n D : acc_holds (h, dst, n) D -> zlen D + zlen L < 2 ^ 29 - 1 ->
  exists dst' n' L', iterate hash addr (fun st => get_set hash st.1.1 j) add_step (h, dst, n) = Some (h, dst', n') /\
    acc_holds (h, dst', n') (add_all L' D) /\ L' ≡ₚ L.
Proof.
  intros Ha Hl. destruct (get_set_ok h M j L Hh HM) as (o & Eg & Ho). pose proof (Hsmall j L HM).
  destruct (iterate_rule hash Hhash addr o L Ho ltac:(lia)) as (L' & HP & Hrule).
  destruct (Hrule _ (fun st : heap * sobj hash * Z => get_set hash st.1.1 j) add_step
    (fun done st => st.1.1 = h /\ acc_holds st (add_all done D)) (fun _ => False) (h, dst, n)) as ([[h' dst'] n'] & E & [[Eh Hacc]|[]]).
  - done.
  - by intros done st [-> _].
  - done.
  - intros done x rest m st HL [Hm _] [Est Hacc].
    assert (is_str x) as Hx by (eapply Forall_forall; [apply (sr_strs _ _ _ _ Ho)|]; rewrite <- HP, HL; apply elem_of_app; right; left).
    destruct (acc_add_ok st (add_all done D) m x Hacc Hm Hx) as (dst' & n' & -> & Hacc').
    { pose proof (add_all_len done D). assert (zlen done <= zlen L) by (unfold zlen; rewrite <- HP, HL, length_app; lia). lia. }
    eexists. split; [done|]. split; [done|]. unfold add_all. by rewrite foldl_app.
  - simpl in Eh. subst h'. by exists dst', n', L'.
Qed.

Lemma remove_set_ok dst n D : acc_holds (h, dst, n) D -> zlen D < 2 ^ 29 - 1 ->
  exists dst' n' L', iterate hash addr (fun st => get_set hash st.1.1 j) remove_step (h, dst, n) = Some (h, dst', n') /\
    acc_holds (h, dst', n') (remove_all L' D) /\ L' ≡ₚ L.
Proof.
  intros Ha Hl. destruct (get_set_ok h M j L Hh HM) as (o & Eg & Ho). pose proof (Hsmall j L HM).
  destruct (iterate_rule hash Hhash addr o L Ho ltac:(lia)) as (L' & HP & Hrule).
  destruct (Hrule _ (fun st : heap * sobj hash * Z => get_set hash st.1.1 j) remove_step
    (fun done st => st.1.1 = h /\ acc_holds st (remove_all done D)) (fun _ => False) (h, dst, n)) as ([[h' dst'] n'] & E & [[Eh Hacc]|[]]).
  - done.
  - by intros done st [-> _].
  - done.
  - intros done x rest m st HL [Hm _] [Est Hacc].
    assert (is_str x) as Hx by (eapply Forall_forall; [apply (sr_strs _ _ _ _ Ho)|]; rewrite <- HP, HL; apply elem_of_app; right; left).
    destruct (acc_remove_ok st (remove_all done D) m x Hacc Hm Hx) as (dst' & n' & -> & Hacc').
    { enough (zlen (remove_all done D) <= zlen D) by lia. clear. revert D. induction done as [|y ys IH]; intros D; [done|].
      simpl. etrans; [apply IH|]. unfold zlen, set_remove. pose proof (length_filter (.≠ y) D). lia. }
    eexists. split; [done|]. split; [done|]. unfold remove_all. by rewrite foldl_app.
  - simpl in Eh. subst h'. by exists dst', n', L'.
Qed.
End Fold.

Lemma acc_holds_perm st D D' : D ≡ₚ D' -> acc_holds st D -> acc_holds st D'.
Proof.
  intros HP (HN & (D1 & HD & HP1) & E). split; [by rewrite <- HP|]. split; [exists D1; split; [done|by rewrite HP1]|].
  rewrite E. unfold zlen. by rewrite HP.
Qed.

Lemma acc_holds_empty h : acc_holds (h, createIntsetObject hash, 0) [].
Proof. split; [constructor|]. split; [|done]. exists []. split; [apply empty_intset|done]. Qed.

Lemma remove_all_len xs : forall D, zlen (remove_all xs D) <= zlen D.
Proof.
  induction xs as [|y xs IH]; intros D; [done|]. change (remove_all (y :: xs) D) with (remove_all xs (set_remove y D)).
  etrans; [apply IH|]. unfold zlen, set_remove. pose proof (length_filter (.≠ y) D). lia.
Qed.

(** The sizes of the sets of the keys, added up. *)
Fixpoint total (M : gmap nat (list (list Z))) (keys : list (option nat)) : Z :=
  match keys with [] => 0 | k :: keys => zlen (members M k) + total M keys end.

Lemma total_nonneg M keys : 0 <= total M keys.
Proof. induction keys as [|k keys IH]; simpl; [lia|]. pose proof (zlen_nonneg (members M k)). lia. Qed.

Section Loops.
  Context (M : gmap nat (list (list Z))) (Hsmall : small_sets M) (h : heap) (Hh : heap_holds h M).

Lemma union_loop_ok keys : forall dst n D, keys_ok M keys -> acc_holds (h, dst, n) D -> zlen D + total M keys < 2 ^ 29 - 1 ->
  exists dst' n' D', union_loop hash resize addr max_intset max_entries max_value keys (h, dst, n) = Some (h, dst', n') /\
    acc_holds (h, dst', n') D' /\ zlen D' <= zlen D + total M keys /\
    forall x, x ∈ D' <-> x ∈ D \/ exists k, k ∈ keys /\ x ∈ members M k.
Proof.
  induction keys as [|k keys IH]; intros dst n D Hk Ha Hl.
  { exists dst, n, D. split; [done|]. split; [done|]. split; [simpl; lia|]. intros x. split; [tauto|].
    intros [?|(k & []%not_elem_of_nil & _)]; done. }
  inversion Hk as [|?? Hk0 Hks]; subst. simpl in Hl. destruct k as [j|]; cbn [union_loop].
  - destruct Hk0 as [L HM]. simpl in Hl. rewrite HM in Hl. simpl in Hl. pose proof (total_nonneg M keys).
    destruct (add_set_ok M Hsmall h Hh j L HM dst n D Ha) as (dst1 & n1 & L' & -> & Ha1 & HP); [lia|]. cbn [mbind option_bind].
    pose proof (add_all_len L' D). assert (zlen L' = zlen L) by (unfold zlen; by rewrite HP).
    destruct (IH dst1 n1 _ Hks Ha1) as (dst2 & n2 & D' & -> & Ha2 & Hl2 & Hx); [lia|].
    exists dst2, n2, D'. split; [done|]. split; [done|]. split; [simpl; rewrite HM; simpl; lia|].
    intros x. rewrite Hx, add_all_elem, HP. setoid_rewrite elem_of_cons. split.
    + intros [[?|?]|(k & ? & ?)]; [by left|right; exists (Some j); simpl; rewrite HM; tauto|right; exists k; tauto].
    + intros [?|(k & [->|?] & Hin)]; [tauto| |right; by exists k]. simpl in Hin. rewrite HM in Hin. tauto.
  - change (zlen (members M None)) with 0 in Hl. destruct (IH dst n D Hks Ha Hl) as (dst2 & n2 & D' & -> & Ha2 & Hl2 & Hx).
    exists dst2, n2, D'. split; [done|]. split; [done|]. split; [exact Hl2|]. intros x. rewrite Hx. setoid_rewrite elem_of_cons. split.
    + intros [?|(k & ? & ?)]; [by left|right; exists k; tauto].
    + intros [?|(k & [->|?] & Hin)]; [tauto|by apply not_elem_of_nil in Hin|right; by exists k].
Qed.

Lemma diff2_loop_ok keys : forall dst n D, keys_ok M keys -> acc_holds (h, dst, n) D -> zlen D < 2 ^ 29 - 1 ->
  exists dst' n' D', diff2_loop hash resize addr keys (h, dst, n) = Some (h, dst', n') /\ acc_holds (h, dst', n') D' /\
    zlen D' <= zlen D /\ forall x, x ∈ D' <-> x ∈ D /\ in_no_other M keys x.
Proof.
  induction keys as [|k keys IH]; intros dst n D Hk Ha Hl.
  { exists dst, n, D. split; [done|]. split; [done|]. split; [lia|]. intros x. unfold in_no_other. rewrite Forall_nil. tauto. }
  inversion Hk as [|?? Hk0 Hks]; subst. destruct k as [j|]; cbn [diff2_loop].
  - destruct Hk0 as [L HM]. destruct (remove_set_ok M Hsmall h Hh j L HM dst n D Ha Hl) as (dst1 & n1 & L' & -> & Ha1 & HP).
    cbn [mbind option_bind]. pose proof (remove_all_len L' D) as Hrl. cbn [snd].
    assert (forall x, in_no_other M (Some j :: keys) x <-> x ∉ L' /\ in_no_other M keys x) as Hcons.
    { intros x. unfold in_no_other. rewrite Forall_cons. simpl. rewrite HM. simpl. by rewrite HP. }
    destruct (Z.eqb_spec n1 0) as [->|Hn1].
    + exists dst1, 0, (remove_all L' D). split; [done|]. split; [done|]. split; [done|]. destruct Ha1 as (_ & _ & E). simpl in E.
      assert (remove_all L' D = []) as Enil by (destruct (remove_all L' D) as [|y ys]; [done|rewrite zlen_cons in E; pose proof (zlen_nonneg ys); lia]).
      intros x. rewrite Hcons. rewrite Enil. split; [by intros ?%not_elem_of_nil|]. intros (HxD & HxL & _). rewrite <- Enil. by apply remove_all_elem.
    + destruct (IH dst1 n1 _ Hks Ha1) as (dst2 & n2 & D' & -> & Ha2 & Hl2 & Hx); [lia|].
      exists dst2, n2, D'. split; [done|]. split; [done|]. split; [lia|]. intros x. rewrite Hx, Hcons, remove_all_elem. tauto.
  - destruct (IH dst n D Hks Ha Hl) as (dst2 & n2 & D' & -> & Ha2 & Hl2 & Hx).
    exists dst2, n2, D'. split; [done|]. split; [done|]. split; [done|]. intros x. rewrite Hx. unfold in_no_other. rewrite Forall_cons.
    pose proof (not_elem_of_nil x). simpl. tauto.
Qed.
End Loops.

Lemma diff_work_ok M (Hsmall : small_sets M) s0 L0 (HM0 : M !! s0 = Some L0) keys : forall h one two, heap_holds h M -> keys_ok M keys ->
  exists h' a b, diff_work hash h s0 keys one two = Some (h', a, b) /\ heap_holds h' M.
Proof.
  induction keys as [|k keys IH]; intros h one two Hh Hk; [by exists h, one, two|].
  inversion Hk as [|?? Hk0 Hks]; subst. destruct k as [j|]; cbn [diff_work]; [|by apply IH].
  destruct Hk0 as [L HM]. destruct (get_set_ok h M s0 L0 Hh HM0) as (o & -> & Ho). cbn [mbind option_bind]. pose proof (Hsmall s0 L0 HM0).
  destruct (setTypeSize_spec hash Hhash o L0 Ho) as (o' & -> & Ho' & _); [lia|]. cbn [mbind option_bind].
  assert (heap_holds (put_set hash h s0 o') M) as Hh1 by (by eapply put_set_ok).
  destruct (get_set_ok _ M j L Hh1 HM) as (o1 & -> & Ho1). cbn [mbind option_bind]. pose proof (Hsmall j L HM).
  destruct (setTypeSize_spec hash Hhash o1 L Ho1) as (o1' & -> & Ho1' & _); [lia|]. cbn [mbind option_bind].
  apply IH; [by eapply put_set_ok|done].
Qed.

(** Algorithm 1: every member of the first set is looked up in the others. *)
Lemma diff1_ok M (Hsmall : small_sets M) s0 L0 (HM0 : M !! s0 = Some L0) others h :
  heap_holds h M -> keys_ok M others ->
  exists h' dst n D, iterate hash addr (fun st => get_set hash st.1.1 s0)
      (diff1_elem hash resize addr max_intset max_entries max_value s0 others) (h, createIntsetObject hash, 0) = Some (h', dst, n) /\
    heap_holds h' M /\ acc_holds (h', dst, n) D /\ zlen D <= zlen L0 /\ forall x, x ∈ D <-> x ∈ L0 /\ in_no_other M others x.
Proof.
  intros Hh Hk. destruct (get_set_ok h M s0 L0 Hh HM0) as (o & Eg & Ho). pose proof (Hsmall s0 L0 HM0) as Hl0.
  destruct (iterate_rule hash Hhash addr o L0 Ho ltac:(lia)) as (L' & HP & Hrule).
  assert (NoDup L') as HN by (rewrite HP; apply Ho).
  set (keep := fun done : list (list Z) => filter (in_no_other M others) done).
  assert (forall done, zlen (keep done) <= zlen done) as Hkl by (intros done; unfold zlen, keep; pose proof (length_filter (in_no_other M others) done); lia).
  destruct (Hrule _ (fun st : heap * sobj hash * Z => get_set hash st.1.1 s0)
    (diff1_elem hash resize addr max_intset max_entries max_value s0 others)
    (fun done st => heap_holds st.1.1 M /\ get_set hash st.1.1 s0 = Some o /\ acc_holds st (keep done)) (fun _ => False)
    (h, createIntsetObject hash, 0)) as ([[h' dst'] n'] & E & [(Hh' & _ & Hacc)|[]]).
  - split; [done|]. split; [done|]. apply acc_holds_empty.
  - by intros done st (_ & -> & _).
  - done.
  - intros done x rest m [[hs dst] n] HL [Hm _] (Hhs & Egs & Hacc). cbn [fst] in Hhs, Egs.
    assert (x ∈ L0) as Hx0 by (rewrite <- HP, HL; apply elem_of_app; right; left).
    assert (is_str x) as Hx by (eapply Forall_forall; [apply (sr_strs _ _ _ _ Ho)|done]).
    assert (zlen done + 1 <= zlen L0) as Hld.
    { replace (zlen L0) with (zlen L') by (unfold zlen; by rewrite HP). rewrite HL, zlen_app, zlen_cons. pose proof (zlen_nonneg rest). lia. }
    unfold diff1_elem. destruct (in_none_ok M Hsmall s0 L0 HM0 m x Hm Hx Hx0 others hs Hhs Hk) as (h1 & -> & Hh1 & E1). cbn [mbind option_bind].
    assert (get_set hash h1 s0 = Some o) as Eg1 by (unfold get_set in *; by rewrite E1).
    assert (keep (done ++ [x]) = keep done ++ (if decide (in_no_other M others x) then [x] else [])) as Ek
      by (unfold keep; by rewrite filter_app, filter_cons, filter_nil).
    destruct (bool_decide_reflect (in_no_other M others x)) as [Hno|Hno].
    + specialize (Hkl done). destruct (acc_add_ok (h1, dst, n) (keep done) m x Hacc Hm Hx) as (dst1 & n1 & -> & Ha1); [lia|].
      eexists. split; [done|]. split; [done|]. split; [done|]. rewrite Ek, decide_True by done.
      eapply acc_holds_perm; [|exact Ha1]. rewrite set_add_fresh; [by rewrite Permutation_app_comm|].
      intros Hc. apply list_elem_of_filter in Hc as [_ Hc]. by eapply nodup_snoc.
    + eexists. split; [done|]. split; [done|]. split; [done|]. rewrite Ek, decide_False, app_nil_r by done. exact Hacc.
  - exists h', dst', n', (keep L'). split; [done|]. split; [done|]. split; [done|]. split.
    + etrans; [apply Hkl|]. unfold zlen. by rewrite HP.
    + intros x. unfold keep. rewrite list_elem_of_filter, HP. tauto.
Qed.

Lemma diff_command_ok M (Hsmall : small_sets M) s0 L0 (HM0 : M !! s0 = Some L0) others h :
  heap_holds h M -> keys_ok M others ->
  exists h' dst n D, diff_command hash resize addr max_intset max_entries max_value h s0 others (createIntsetObject hash) = Some (h', dst, n) /\
    heap_holds h' M /\ acc_holds (h', dst, n) D /\ zlen D <= zlen L0 /\ forall x, x ∈ D <-> x ∈ L0 /\ in_no_other M others x.
Proof.
  intros Hh Hk. unfold diff_command.
  destruct (diff_work_ok M Hsmall s0 L0 HM0 (Some s0 :: others) h 0 0 Hh) as (h1 & a & b & -> & Hh1); [by constructor; [eexists|]|].
  cbn [mbind option_bind]. destruct (Z.quot a 2 <=? b).
  - destruct (sort_sets_ok qsortCompareSetsByRevCardinality others h1 M Hh1 Hsmall Hk) as (h2 & others' & -> & Hh2 & HP). cbn [mbind option_bind].
    destruct (diff1_ok M Hsmall s0 L0 HM0 others' h2 Hh2) as (h' & dst & n & D & -> & Hh' & Ha & Hl & Hx); [by eapply keys_ok_perm|].
    exists h', dst, n, D. split; [done|]. split; [done|]. split; [done|]. split; [done|]. intros x. rewrite Hx. unfold in_no_other. by rewrite HP.
  - pose proof (Hsmall s0 L0 HM0) as Hl0.
    destruct (add_set_ok M Hsmall h1 Hh1 s0 L0 HM0 _ 0 [] (acc_holds_empty h1)) as (dst1 & n1 & L' & -> & Ha1 & HP); [change (zlen []) with 0; lia|].
    cbn [mbind option_bind snd]. pose proof (add_all_len L' []) as Hl1. change (zlen []) with 0 in Hl1.
    assert (zlen L' = zlen L0) as E by (unfold zlen; by rewrite HP).
    assert (forall x, x ∈ add_all L' [] <-> x ∈ L0) as Hin by (intros x; rewrite add_all_elem, HP; pose proof (not_elem_of_nil x); tauto).
    destruct (Z.eqb_spec n1 0) as [->|Hn1].
    + exists h1, dst1, 0, (add_all L' []). split; [done|]. split; [done|]. split; [done|]. split; [lia|]. intros x. rewrite Hin.
      split; [|tauto]. intros HxL. apply Hin in HxL. destruct Ha1 as (_ & _ & Ez). simpl in Ez.
      destruct (add_all L' []) as [|y ys]; [by apply not_elem_of_nil in HxL|]. rewrite zlen_cons in Ez. pose proof (zlen_nonneg ys). lia.
    + destruct (diff2_loop_ok M Hsmall h1 Hh1 others dst1 n1 _ Hk Ha1) as (dst2 & n2 & D & -> & Ha2 & Hl2 & Hx); [lia|].
      exists h1, dst2, n2, D. split; [done|]. split; [done|]. split; [done|]. split; [lia|]. intros x. by rewrite Hx, Hin.
Qed.

Lemma list_elems_ok o L : holds_set o L -> zlen L < 2 ^ 29 - 1 ->
  exists els L', list_elems hash addr o = Some els /\ Forall2 text_of els L' /\ L' ≡ₚ L.
Proof.
  intros (D & HD & HP) Hl. assert (zlen D = zlen L) as E by (unfold zlen; by rewrite HP).
  destruct (iterate_rule hash Hhash addr o D HD ltac:(lia)) as (L' & HP' & Hrule). unfold list_elems.
  destruct (Hrule _ (fun _ => Some o) (fun m els => Some (inl (els ++ [m]))) (fun done els => Forall2 text_of els done) (fun _ => False) [])
    as (els & -> & [Hels|[]]); [constructor|done|done| |].
  - intros done x rest m st _ [Hm _] Hst. eexists. split; [done|]. apply Forall2_app; [done|by constructor].
  - exists els, L'. split; [done|]. split; [done|]. by rewrite HP'.
Qed.

(** The members of some key; the members of the first key and of no other. *)
Definition is_op (op : set_op) (M : gmap nat (list (list Z))) (keys : list (option nat)) (ss : list (list Z)) : Prop :=
  NoDup ss /\ forall x, x ∈ ss <->
    match op with
    | SET_OP_UNION => exists k, k ∈ keys /\ x ∈ members M k
    | SET_OP_DIFF => match keys with k0 :: others => x ∈ members M k0 /\ forall k, k ∈ others -> x ∉ members M k | [] => False end
    end.

Definition op_result (store : bool) (ss : list (list Z)) (r : sreply) (d : dst_effect hash) : Prop :=
  if store then inter_result InterStore ss r d else inter_result InterReply ss r d.

(** Room for the result. *)
Definition op_room (op : set_op) (M : gmap nat (list (list Z))) (keys : list (option nat)) : Prop :=
  match op with SET_OP_UNION => total M keys < 2 ^ 29 - 1 | SET_OP_DIFF => True end.

Lemma op_compute h M keys op : heap_holds h M -> small_sets M -> keys_ok M keys -> op_room op M keys ->
  exists h' dst n D,
    match op, keys with
    | SET_OP_UNION, _ => union_loop hash resize addr max_intset max_entries max_value keys (h, createIntsetObject hash, 0)
    | SET_OP_DIFF, Some s0 :: others =>
        if existsb (fun s => bool_decide (s = Some s0)) others then Some (h, createIntsetObject hash, 0)
        else diff_command hash resize addr max_intset max_entries max_value h s0 others (createIntsetObject hash)
    | SET_OP_DIFF, _ => Some (h, createIntsetObject hash, 0)
    end = Some (h', dst, n) /\ heap_holds h' M /\ acc_holds (h', dst, n) D /\ zlen D < 2 ^ 29 - 1 /\ is_op op M keys D.
Proof.
  intros Hh Hsm Hk Hr. destruct op.
  - destruct (union_loop_ok M Hsm h Hh keys _ 0 [] Hk (acc_holds_empty h)) as (dst & n & D & -> & Ha & Hl & Hx); [exact Hr|].
    simpl in Hr. change (zlen []) with 0 in Hl. exists h, dst, n, D. split; [done|]. split; [done|]. split; [done|]. split; [lia|].
    split; [apply Ha|]. intros x. rewrite Hx. pose proof (not_elem_of_nil x). tauto.
  - assert (forall ks, (forall x, ~ match ks with k0 :: others => x ∈ members M k0 /\ forall k, k ∈ others -> x ∉ members M k | [] => False end) ->
      is_op SET_OP_DIFF M ks []) as Hempty.
    { intros ks Hno. split; [constructor|]. intros x. split; [by intros ?%not_elem_of_nil|]. intros Hx. by apply Hno in Hx. }
    destruct keys as [|[s0|] others].
    + exists h, (createIntsetObject hash), 0, []. split; [done|]. split; [done|]. split; [apply acc_holds_empty|]. split; [done|]. apply Hempty. tauto.
    + inversion Hk as [|?? Hk0 Hks]; subst. destruct Hk0 as [L0 HM0]. destruct (existsb _ others) eqn:Eex.
      * exists h, (createIntsetObject hash), 0, []. split; [done|]. split; [done|]. split; [apply acc_holds_empty|]. split; [done|]. apply Hempty.
        intros x [Hx Hno]. apply existsb_exists in Eex as (k & Hin & E). apply bool_decide_eq_true in E as ->. by apply (Hno (Some s0)); [apply list_elem_of_In|].
      * destruct (diff_command_ok M Hsm s0 L0 HM0 others h Hh Hks) as (h' & dst & n & D & -> & Hh' & Ha & Hl & Hx).
        pose proof (Hsm s0 L0 HM0). exists h', dst, n, D. split; [done|]. split; [done|]. split; [done|]. split; [lia|].
        split; [apply Ha|]. intros x. rewrite Hx. unfold in_no_other. simpl. rewrite HM0. by rewrite Forall_forall.
    + exists h, (createIntsetObject hash), 0, []. split; [done|]. split; [done|]. split; [apply acc_holds_empty|]. split; [done|]. apply Hempty.
      intros x [Hx _]. by apply not_elem_of_nil in Hx.
Qed.

Lemma sunion_sdiff_ok h M keys op store :
  heap_holds h M -> small_sets M -> keys_ok M keys -> op_room op M keys ->
  exists h' r d ss, sunionDiffGenericCommand hash resize addr max_intset max_entries max_value h keys store op = Some (h', r, d) /\
    heap_holds h' M /\ is_op op M keys ss /\ op_result store ss r d.
Proof.
  intros Hh Hsm Hk Hr. unfold sunionDiffGenericCommand. rewrite (lookup_sets_ok h M keys Hh Hk). cbn [mbind option_bind].
  destruct (op_compute h M keys op Hh Hsm Hk Hr) as (h' & dst & n & D & -> & Hh' & (HN & Hd & Hn) & Hl & Hop). simpl in Hd, Hn. subst n.
  cbn [mbind option_bind]. destruct store; cbn [negb].
  - destruct (holds_size dst D Hd) as (dst1 & -> & Hd1); [lia|]. cbn [mbind option_bind]. destruct D as [|y ys].
    + eexists _, _, _, []. split; [done|]. by split.
    + replace (zlen (y :: ys) >? 0) with true by (rewrite zlen_cons; pose proof (zlen_nonneg ys); lia).
      destruct (holds_size dst1 _ Hd1) as (dst2 & -> & Hd2); [lia|]. cbn [mbind option_bind]. eexists _, _, _, (y :: ys).
      split; [done|]. split; [done|]. split; [done|]. split; [done|]. by exists dst2.
  - destruct (list_elems_ok dst D Hd Hl) as (els & D' & -> & Hels & HP). cbn [mbind option_bind]. eexists _, _, _, D'.
    split; [done|]. split; [done|]. split; [split; [by rewrite HP|intros x; rewrite HP; apply Hop]|]. split; [done|]. exists els.
    split; [|done]. unfold zlen. by rewrite HP.
Qed.

(** ** Commands on one key *)

(** What a key holds: no key for the empty set, and otherwise a set object, which is never empty. *)
Definition key_holds (key : option (dbobj hash)) (L : list (list Z)) : Prop :=
  match key with
  | None => L = []
  | Some (OSet _ o) => holds_set o L /\ L <> []
  | Some (OOther _) => False
  end.

Lemma holds_nodup o L : holds_set o L -> NoDup L.
Proof. intros (D & HD & HP). rewrite <- HP. apply HD. Qed.

Lemma set_add_perm x L L' : L ≡ₚ L' -> set_add x L ≡ₚ set_add x L'.
Proof. intros HP. unfold set_add. destruct (decide (x ∈ L)) as [H1|H1], (decide (x ∈ L')) as [H2|H2]; rewrite HP in H1; by rewrite ?HP. Qed.

Lemma holds_add o L x : holds_set o L -> is_str x -> zlen L < 2 ^ 29 - 1 ->
  exists o', setTypeAddAux hash resize addr max_intset max_entries max_value o (MStr x) = Some (o', bool_decide (x ∉ L)) /\ holds_set o' (set_add x L).
Proof.
  intros (D & HD & HP) Hx Hl. assert (zlen D = zlen L) as E by (unfold zlen; by rewrite HP).
  destruct (set_add_spec hash Hhash resize addr max_intset max_entries max_value o D (MStr x) x HD eq_refl Hx) as (o' & -> & D' & HD' & HP'); [lia|].
  exists o'. split; [by rewrite (bool_decide_ext (x ∉ D) (x ∉ L)) by (by rewrite HP)|]. exists D'. split; [done|]. rewrite HP'. by apply set_add_perm.
Qed.

Lemma holds_remove o L x : holds_set o L -> is_str x -> zlen L < 2 ^ 29 - 1 ->
  exists o', setTypeRemoveAux hash resize o (MStr x) = Some (o', bool_decide (x ∈ L)) /\ holds_set o' (set_remove x L).
Proof.
  intros (D & HD & HP) Hx Hl. assert (zlen D = zlen L) as E by (unfold zlen; by rewrite HP).
  destruct (set_remove_spec hash Hhash resize o D (MStr x) x HD eq_refl Hx) as (o' & -> & D' & HD' & HP'); [lia|].
  exists o'. split; [by rewrite (bool_decide_ext (x ∈ D) (x ∈ L)) by (by rewrite HP)|]. exists D'. split; [done|]. rewrite HP'. unfold set_remove. by rewrite HP.
Qed.

Lemma holds_member o L x : holds_set o L -> is_str x -> zlen L < 2 ^ 29 - 1 ->
  exists o', setTypeIsMemberAux hash resize o (MStr x) = Some (o', bool_decide (x ∈ L)) /\ holds_set o' L.
Proof.
  intros (D & HD & HP) Hx Hl. assert (zlen D = zlen L) as E by (unfold zlen; by rewrite HP).
  destruct (member_spec hash Hhash resize o D (MStr x) x HD eq_refl Hx) as (o' & -> & HD'); [lia|].
  exists o'. split; [by rewrite (bool_decide_ext (x ∈ D) (x ∈ L)) by (by rewrite HP)|]. by exists D.
Qed.

Lemma set_add_count x L : zlen (set_add x L) = if bool_decide (x ∉ L) then zlen L + 1 else zlen L.
Proof.
  unfold set_add. destruct (bool_decide_reflect (x ∉ L)) as [Hx|Hx]; [rewrite decide_False by done; by rewrite zlen_cons, Z.add_comm|].
  rewrite decide_True; [done|]. by destruct (decide (x ∈ L)).
Qed.

Lemma set_remove_count x L : NoDup L -> zlen (set_remove x L) = if bool_decide (x ∈ L) then zlen L - 1 else zlen L.
Proof.
  intros HN. destruct (bool_decide_reflect (x ∈ L)) as [Hx|Hx]; [|by rewrite set_remove_absent].
  pose proof (Permutation_length (set_remove_perm x L HN Hx)) as Hp. unfold zlen. simpl in Hp. lia.
Qed.

Lemma sadd_loop_ok values : forall o L added, holds_set o L -> Forall is_str values -> 0 <= added -> added + zlen values < 2 ^ 29 -> zlen L + zlen values < 2 ^ 29 - 1 ->
  exists o', sadd_loop hash resize addr max_intset max_entries max_value o values added = Some (o', added + zlen (add_all values L) - zlen L) /\
    holds_set o' (add_all values L).
Proof.
  induction values as [|v values IH]; intros o L added Ho Hv H0 Ha Hl; cbn [sadd_loop].
  { exists o. split; [|done]. cbn [add_all foldl]. do 2 f_equal. unfold add_all. simpl. lia. }
  inversion Hv as [|?? Hv0 Hvs]; subst. rewrite zlen_cons in Hl, Ha. pose proof (zlen_nonneg values). pose proof (zlen_nonneg L).
  destruct (holds_add o L v Ho Hv0) as (o1 & -> & Ho1); [lia|]. cbn [mbind option_bind]. pose proof (set_add_count v L) as Hc.
  change (add_all (v :: values) L) with (add_all values (set_add v L)).
  destruct (IH o1 (set_add v L) (if bool_decide (v ∉ L) then s32 (added + 1) else added) Ho1 Hvs) as (o' & -> & Ho').
  - destruct (bool_decide (v ∉ L)); [|done]. rewrite wraps_small by lia. lia.
  - destruct (bool_decide (v ∉ L)); [rewrite wraps_small by lia|]; lia.
  - destruct (bool_decide (v ∉ L)); lia.
  - exists o'. split; [|done]. do 2 f_equal. destruct (bool_decide (v ∉ L)); [rewrite wraps_small by lia|]; lia.
Qed.

Lemma add_all_nonempty values L : L <> [] \/ values <> [] -> add_all values L <> [].
Proof.
  intros Hne E. assert (forall x, x ∉ add_all values L) as Hno by (intros x; rewrite E; apply not_elem_of_nil).
  destruct Hne as [Hne|Hne]; [destruct L as [|y L]|destruct values as [|y vs]]; try done; apply (Hno y), add_all_elem; [left|right]; left.
Qed.

Lemma sadd_ok key L values : key_holds key L -> Forall is_str values -> values <> [] -> zlen L + zlen values < 2 ^ 29 - 1 ->
  exists key', saddCommand hash resize addr max_intset max_entries max_value key values = Some (key', IntReply (zlen (add_all values L) - zlen L)) /\
    key_holds key' (add_all values L).
Proof.
  intros Hk Hv Hne Hl. pose proof (zlen_nonneg values). pose proof (zlen_nonneg L). unfold saddCommand.
  assert (forall o, holds_set o L -> exists key', ('(o, added) ← sadd_loop hash resize addr max_intset max_entries max_value o values 0;
    Some (Some (OSet hash o), IntReply added)) = Some (key', IntReply (zlen (add_all values L) - zlen L)) /\ key_holds key' (add_all values L)) as Hloop.
  { intros o Ho. destruct (sadd_loop_ok values o L 0 Ho Hv) as (o' & -> & Ho'); [lia|lia|lia|]. cbn [mbind option_bind]. eexists. split; [done|].
    split; [done|]. apply add_all_nonempty. by right. }
  destruct key as [[o|]|]; [|done|].
  - destruct Hk as [(D & HD & HP) _]. assert (zlen D = zlen L) as E by (unfold zlen; by rewrite HP).
    destruct (maybe_convert_spec hash Hhash resize addr max_intset max_entries o D (zlen values) HD) as (o' & -> & D' & HD' & HP'); [lia|lia|].
    cbn [mbind option_bind]. apply Hloop. exists D'. split; [done|by rewrite HP'].
  - destruct values as [|v0 vs]; [done|]. cbn [head mbind option_bind].
    destruct (set_create_spec hash Hhash max_intset max_entries v0 (zlen (v0 :: vs))) as (o & -> & Ho); [lia|]. cbn [mbind option_bind].
    apply Hloop. exists []. simpl in Hk. by subst L.
Qed.

Lemma remove_all_nil values : remove_all values [] = [].
Proof. induction values as [|v vs IH]; [done|]. exact IH. Qed.

Lemma srem_loop_ok values : forall o L deleted, holds_set o L -> L <> [] -> Forall is_str values -> 0 <= deleted -> deleted + zlen L < 2 ^ 29 - 1 ->
  exists o', srem_loop hash resize o values deleted = Some (o', deleted + zlen L - zlen (remove_all values L)) /\
    key_holds (match o' with Some o => Some (OSet hash o) | None => None end) (remove_all values L).
Proof.
  induction values as [|v values IH]; intros o L deleted Ho Hne Hv H0 Hl; cbn [srem_loop].
  { exists (Some o). split; [|done]. do 2 f_equal. unfold remove_all. simpl. lia. }
  inversion Hv as [|?? Hv0 Hvs]; subst. pose proof (zlen_nonneg L). pose proof (holds_nodup o L Ho) as HN.
  destruct (holds_remove o L v Ho Hv0) as (o1 & -> & Ho1); [lia|]. cbn [mbind option_bind]. pose proof (set_remove_count v L HN) as Hc.
  change (remove_all (v :: values) L) with (remove_all values (set_remove v L)). pose proof (zlen_nonneg (set_remove v L)).
  destruct (bool_decide_reflect (v ∈ L)) as [Hin|Hin].
  - destruct (holds_size o1 _ Ho1) as (o2 & -> & Ho2); [lia|]. cbn [mbind option_bind]. destruct (Z.eqb_spec (zlen (set_remove v L)) 0) as [Hz|Hz].
    + exists None. assert (set_remove v L = []) as -> by (destruct (set_remove v L) as [|y ys]; [done|rewrite zlen_cons in Hz; pose proof (zlen_nonneg ys); lia]).
      rewrite remove_all_nil. split; [|done]. do 2 f_equal. change (zlen []) with 0 in *. rewrite wraps_small by lia. lia.
    + rewrite wraps_small by lia. destruct (IH o2 _ (deleted + 1) Ho2) as (o' & -> & Ho'); [by intros E; rewrite E in Hz|done|lia|lia|].
      exists o'. split; [|done]. do 2 f_equal. lia.
  - rewrite set_remove_absent in * by done. destruct (IH o1 _ deleted Ho1 Hne Hvs H0 Hl) as (o' & -> & Ho'). by exists o'.
Qed.

Lemma srem_ok key L values : key_holds key L -> Forall is_str values -> zlen L < 2 ^ 29 - 1 ->
  exists key', sremCommand hash resize key values = Some (key', IntReply (zlen L - zlen (remove_all values L))) /\ key_holds key' (remove_all values L).
Proof.
  intros Hk Hv Hl. unfold sremCommand. destruct key as [[o|]|]; [|done|].
  - destruct Hk as [Ho Hne]. destruct (srem_loop_ok values o L 0 Ho Hne Hv) as (o' & -> & Ho'); [lia|lia|]. cbn [mbind option_bind]. by eexists.
  - simpl in Hk. subst L. exists None. by rewrite remove_all_nil.
Qed.

Definition member_bit (L : list (list Z)) (x : list Z) : Z := if decide (x ∈ L) then 1 else 0.

Lemma member_bit_bool L x : (if bool_decide (x ∈ L) then 1 else 0) = member_bit L x.
Proof. unfold member_bit. by destruct (bool_decide_reflect (x ∈ L)) as [?|?]; case_decide. Qed.

Lemma sismember_ok key L x : key_holds key L -> is_str x -> zlen L < 2 ^ 29 - 1 ->
  exists key', sismemberCommand hash resize key x = Some (key', IntReply (member_bit L x)) /\ key_holds key' L.
Proof.
  intros Hk Hx Hl. unfold sismemberCommand. destruct key as [[o|]|]; [|done|].
  - destruct Hk as [Ho Hne]. destruct (holds_member o L x Ho Hx Hl) as (o' & -> & Ho'). cbn [mbind option_bind]. rewrite member_bit_bool. by eexists.
  - simpl in Hk. subst L. by exists None.
Qed.

Lemma smismember_loop_ok values : forall o L, holds_set o L -> Forall is_str values -> zlen L < 2 ^ 29 - 1 ->
  exists o', smismember_loop hash resize o values = Some (o', member_bit L <$> values) /\ holds_set o' L.
Proof.
  induction values as [|v values IH]; intros o L Ho Hv Hl; cbn [smismember_loop]; [by exists o|]. inversion Hv as [|?? Hv0 Hvs]; subst.
  destruct (holds_member o L v Ho Hv0 Hl) as (o1 & -> & Ho1). cbn [mbind option_bind].
  destruct (IH o1 L Ho1 Hvs Hl) as (o' & -> & Ho'). cbn [mbind option_bind]. exists o'. by rewrite member_bit_bool.
Qed.

Lemma smismember_ok key L values : key_holds key L -> Forall is_str values -> zlen L < 2 ^ 29 - 1 ->
  exists key', smismemberCommand hash resize key values = Some (key', ArrayReply (member_bit L <$> values)) /\ key_holds key' L.
Proof.
  intros Hk Hv Hl. unfold smismemberCommand. destruct key as [[o|]|]; [|done|].
  - destruct Hk as [Ho Hne]. destruct (smismember_loop_ok values o L Ho Hv Hl) as (o' & -> & Ho'). cbn [mbind option_bind]. by eexists.
  - simpl in Hk. subst L. exists None. split; [|done]. do 3 f_equal. clear. induction values as [|v vs IH]; [done|]. cbn. by rewrite IH.
Qed.

Lemma scard_ok key L : key_holds key L -> zlen L < 2 ^ 29 - 1 ->
  exists key', scardCommand hash key = Some (key', IntReply (zlen L)) /\ key_holds key' L.
Proof.
  intros Hk Hl. unfold scardCommand. destruct key as [[o|]|]; [|done|].
  - destruct Hk as [Ho Hne]. destruct (holds_size o L Ho) as (o' & -> & Ho'); [lia|]. cbn [mbind option_bind]. by eexists.
  - simpl in Hk. subst L. by exists None.
Qed.

(** SMOVE between two keys. *)
Lemma smove_ok src L1 dst L2 x : key_holds src L1 -> key_holds dst L2 -> is_str x -> zlen L1 < 2 ^ 29 - 1 -> zlen L2 < 2 ^ 29 - 1 ->
  exists src' dst', smoveCommand hash resize addr max_intset max_entries max_value src dst false x = Some (src', dst', IntReply (member_bit L1 x)) /\
    key_holds src' (set_remove x L1) /\ key_holds dst' (if decide (x ∈ L1) then set_add x L2 else L2).
Proof.
  intros Hs Hd Hx Hl1 Hl2. unfold smoveCommand. destruct src as [[o|]|]; [|done|].
  2: { simpl in Hs. subst L1. exists None, dst. split; [done|]. by rewrite decide_False by apply not_elem_of_nil. }
  destruct dst as [[d|]|] eqn:Ed; [|done|]; destruct Hs as [Ho Hne]; pose proof (holds_nodup o L1 Ho) as HN;
    destruct (holds_remove o L1 x Ho Hx Hl1) as (o1 & -> & Ho1); cbn [mbind option_bind]; rewrite <- member_bit_bool;
    (destruct (bool_decide_reflect (x ∈ L1)) as [Hin|Hin]; cbn [negb];
      [rewrite decide_True by done|rewrite decide_False by done; rewrite set_remove_absent in * by done; by eexists _, _]);
    pose proof (set_remove_count x L1 HN) as Hc; rewrite bool_decide_eq_true_2 in Hc by done;
    (destruct (holds_size o1 _ Ho1) as (o2 & -> & Ho2); [lia|]); cbn [mbind option_bind];
    assert (key_holds (if zlen (set_remove x L1) =? 0 then None else Some (OSet hash o2)) (set_remove x L1)) as Hsrc
      by (destruct (Z.eqb_spec (zlen (set_remove x L1)) 0) as [Hz|Hz];
          [destruct (set_remove x L1) as [|y ys]; [done|rewrite zlen_cons in Hz; pose proof (zlen_nonneg ys); lia]
          |split; [done|]; intros E; by rewrite E in Hz]).
  - destruct Hd as [Hd Hdne]. destruct (holds_add d L2 x Hd Hx Hl2) as (d' & -> & Hd'). cbn [mbind option_bind]. eexists _, _. split; [done|].
    split; [done|]. split; [done|]. by apply (add_all_nonempty [x] L2); left.
  - simpl in Hd. subst L2. destruct (set_create_spec hash Hhash max_intset max_entries x 1) as (d & -> & Hd); [lia|]. cbn [mbind option_bind].
    destruct (holds_add d [] x) as (d' & -> & Hd'); [by exists []|done|done|]. cbn [mbind option_bind]. eexists _, _. split; [done|].
    split; [done|]. split; [done|]. by apply (add_all_nonempty [x] []); right.
Qed.

(** SMOVE from a key to itself. *)
Lemma smove_same_ok key L x : key_holds key L -> is_str x -> zlen L < 2 ^ 29 - 1 ->
  exists key', smoveCommand hash resize addr max_intset max_entries max_value key key true x = Some (key', key', IntReply (member_bit L x)) /\ key_holds key' L.
Proof.
  intros Hk Hx Hl. unfold smoveCommand. destruct key as [[o|]|]; [|done|].
  - destruct Hk as [Ho Hne]. destruct (holds_member o L x Ho Hx Hl) as (o' & -> & Ho'). cbn [mbind option_bind]. rewrite member_bit_bool. by eexists.
  - simpl in Hk. subst L. by exists None.
Qed.
End Commands.
