(* ===== verification/SetSpec.v ===== *)
(** * Sets: an abstract specification of the commands, and the theorems

    The specification keeps for every key a finite set of strings.  [exec] runs the commands of
    [t_set.c] on a key space of objects in their three encodings; [spec] is what they mean. *)
From S2P Require Import Prelude Numstr NumstrFacts NumstrProps Intset IntsetFacts IntsetProps Listpack ListpackOps ListpackFacts ListpackEdit ListpackRange ListpackProps Dict DictOps DictFacts DictRehash DictFind DictUpdate DictProps DictIter Skiplist SkiplistOrder Zzl ZzlFacts Zset ZsetFacts SetObj SetFacts SetUpdate SetCmd SetProps.

(** ** The specification *)

Inductive set_cmd :=
  | SADD (key : list Z) (values : list (list Z))
  | SREM (key : list Z) (values : list (list Z))
  | SISMEMBER (key : list Z) (value : list Z)
  | SMISMEMBER (key : list Z) (values : list (list Z))
  | SMOVE (src dst : list Z) (value : list Z)
  | SCARD (key : list Z).

(** The value of a key: a set, or a value of another type. *)
Inductive aobj := ASet (X : gset (list Z)) | AOther.
Notation adb := (gmap (list Z) aobj).

(** The set of a key, empty when there is no key; [None] for another type. *)
Definition aset (db : adb) (key : list Z) : option (gset (list Z)) :=
  match db !! key with Some (ASet X) => Some X | Some AOther => None | None => Some ∅ end.

(** A key with an empty set is removed. *)
Definition aput (db : adb) (key : list Z) (X : gset (list Z)) : adb :=
  if decide (X = ∅) then delete key db else <[key := ASet X]> db.

Definition zsize (X : gset (list Z)) : Z := Z.of_nat (size X).
Definition bit (X : gset (list Z)) (x : list Z) : Z := if decide (x ∈ X) then 1 else 0.

Definition spec (db : adb) (c : set_cmd) : adb * sreply :=
  match c with
  | SADD key values =>
      match aset db key with
      | Some X => let X' := X ∪ list_to_set values in (aput db key X', IntReply (zsize X' - zsize X))
      | None => (db, WRONGTYPE)
      end
  | SREM key values =>
      match aset db key with
      | Some X => let X' := X ∖ list_to_set values in (aput db key X', IntReply (zsize X - zsize X'))
      | None => (db, WRONGTYPE)
      end
  | SISMEMBER key value => (db, match aset db key with Some X => IntReply (bit X value) | None => WRONGTYPE end)
  | SMISMEMBER key values => (db, match aset db key with Some X => ArrayReply (bit X <$> values) | None => WRONGTYPE end)
  | SMOVE src dst value =>
      match db !! src, aset db src, aset db dst with
      | None, _, _ => (db, IntReply 0)
      | Some _, Some X1, Some X2 =>
          if decide (value ∈ X1) then
            if decide (src = dst) then (db, IntReply 1)
            else (aput (aput db src (X1 ∖ {[value]})) dst (X2 ∪ {[value]}), IntReply 1)
          else (db, IntReply 0)
      | _, _, _ => (db, WRONGTYPE)
      end
  | SCARD key => (db, match aset db key with Some X => IntReply (zsize X) | None => WRONGTYPE end)
  end.

Fixpoint spec_run (db : adb) (cs : list set_cmd) : adb * list sreply :=
  match cs with
  | [] => (db, [])
  | c :: cs => let '(db, r) := spec db c in let '(db, rs) := spec_run db cs in (db, r :: rs)
  end.

(** ** The key space of objects *)

Section Exec.
Context `{Allocator}.
Context (hash : list Z -> Z) (resize : dictResizeEnable).
#[local] Existing Instance SD.
Context (addr : @dict (SD hash) -> bool -> Z) (max_intset max_entries max_value : Z).
Notation db := (gmap (list Z) (dbobj hash)).

(** What the handler leaves at the key: an object or nothing. *)
Definition set_key (D : db) (key : list Z) (o : option (dbobj hash)) : db := partial_alter (fun _ => o) key D.

Definition exec (D : db) (c : set_cmd) : option (db * sreply) :=
  match c with
  | SADD key values =>
      '(o, r) ← saddCommand hash resize addr max_intset max_entries max_value (D !! key) values; Some (set_key D key o, r)
  | SREM key values => '(o, r) ← sremCommand hash resize (D !! key) values; Some (set_key D key o, r)
  | SISMEMBER key value => '(o, r) ← sismemberCommand hash resize (D !! key) value; Some (set_key D key o, r)
  | SMISMEMBER key values => '(o, r) ← smismemberCommand hash resize (D !! key) values; Some (set_key D key o, r)
  | SMOVE src dst value =>
      '(s, d, r) ← smoveCommand hash resize addr max_intset max_entries max_value (D !! src) (D !! dst) (bool_decide (src = dst)) value;
      Some (set_key (set_key D src s) dst d, r)
  | SCARD key => '(o, r) ← scardCommand hash (D !! key); Some (set_key D key o, r)
  end.

Fixpoint run (D : db) (cs : list set_cmd) : option (db * list sreply) :=
  match cs with
  | [] => Some (D, [])
  | c :: cs => '(D, r) ← exec D c; '(D, rs) ← run D cs; Some (D, r :: rs)
  end.
End Exec.

(** ** Lists and sets *)

Lemma elements_add (X : gset (list Z)) values : elements (X ∪ list_to_set values) ≡ₚ add_all values (elements X).
Proof.
  apply NoDup_Permutation; [apply NoDup_elements|apply add_all_nodup, NoDup_elements|]. intros x.
  rewrite add_all_elem, !elem_of_elements, elem_of_union, elem_of_list_to_set. done.
Qed.

Lemma elements_remove (X : gset (list Z)) values : elements (X ∖ list_to_set values) ≡ₚ remove_all values (elements X).
Proof.
  apply NoDup_Permutation; [apply NoDup_elements|apply remove_all_nodup, NoDup_elements|]. intros x.
  rewrite remove_all_elem, !elem_of_elements, elem_of_difference, elem_of_list_to_set. done.
Qed.

Lemma zlen_elements (X : gset (list Z)) : zlen (elements X) = zsize X.
Proof. unfold zlen, zsize, size, set_size. done. Qed.

Lemma bit_elements (X : gset (list Z)) x : member_bit (elements X) x = bit X x.
Proof. unfold member_bit, bit. do 2 case_decide; rewrite elem_of_elements in *; done. Qed.

Lemma zlen_perm (l k : list (list Z)) : l ≡ₚ k -> zlen l = zlen k.
Proof. intros HP. unfold zlen. by rewrite HP. Qed.

Lemma aput_lookup (db : adb) key X k :
  aput db key X !! k = if decide (k = key) then (if decide (X = ∅) then None else Some (ASet X)) else db !! k.
Proof.
  unfold aput. destruct (decide (k = key)) as [->|Hk]; destruct (decide (X = ∅)).
  - by rewrite lookup_delete_eq.
  - by rewrite lookup_insert_eq.
  - by rewrite lookup_delete_ne.
  - by rewrite lookup_insert_ne.
Qed.

(** ** Refinement *)

Section Refine.
Context `{Allocator}.
Context (hash : list Z -> Z) (Hhash : forall k, 0 <= hash k < 2 ^ 64) (resize : dictResizeEnable).
#[local] Existing Instance SD.
Context (addr : @dict (SD hash) -> bool -> Z) (max_intset max_entries max_value : Z).
Notation db := (gmap (list Z) (dbobj hash)).
Notation exec := (exec hash resize addr max_intset max_entries max_value).
Notation run := (run hash resize addr max_intset max_entries max_value).
Notation key_holds := (key_holds hash Hhash).

(** An object and the abstract value of the same key. *)
Definition val_rel (o : option (dbobj hash)) (a : option aobj) : Prop :=
  match o, a with
  | Some (OOther _), Some AOther => True
  | o, None => key_holds o []
  | o, Some (ASet X) => X <> ∅ /\ key_holds o (elements X)
  | _, _ => False
  end.

Definition db_rel (D : db) (A : adb) : Prop := forall key, val_rel (D !! key) (A !! key).

(** The size of all the sets of the key space is at most [n]. *)
Definition sizes_le (A : adb) (n : Z) : Prop := forall key X, A !! key = Some (ASet X) -> zsize X <= n.

(** Strings, at least one member for SADD and SREM, and how many members a command may add. *)
Definition cmd_ok (c : set_cmd) : Prop :=
  match c with
  | SADD _ values => Forall is_str values /\ values <> []
  | SREM _ values | SMISMEMBER _ values => Forall is_str values
  | SISMEMBER _ value | SMOVE _ _ value => is_str value
  | SCARD _ => True
  end.

Definition grows (c : set_cmd) : Z := match c with SADD _ values => zlen values | SMOVE _ _ _ => 1 | _ => 0 end.
Fixpoint growth (cs : list set_cmd) : Z := match cs with [] => 0 | c :: cs => grows c + growth cs end.

Lemma grows_nonneg c : 0 <= grows c.
Proof. destruct c; simpl; try lia. apply zlen_nonneg. Qed.

Lemma growth_nonneg cs : 0 <= growth cs.
Proof. induction cs as [|c cs IH]; simpl; [lia|]. pose proof (grows_nonneg c). lia. Qed.

Lemma key_holds_perm o L L' : L ≡ₚ L' -> key_holds o L -> key_holds o L'.
Proof.
  intros HP. destruct o as [[o|]|]; simpl; [|done|].
  - intros [(D & HD & HP') Hne]. split; [exists D; split; [done|by rewrite HP']|]. intros ->. by apply Permutation_nil_r in HP.
  - intros ->. by apply Permutation_nil_l in HP.
Qed.

Lemma key_holds_elements (o : option (dbobj hash)) (X : gset (list Z)) L : elements X ≡ₚ L -> key_holds o L -> key_holds o (elements X).
Proof. intros HP. by apply key_holds_perm. Qed.

(** The two cases of a key: another type, or a set of the specification. *)
Lemma val_cases (D : db) (A : adb) (key : list Z) : db_rel D A ->
  (D !! key = Some (OOther hash) /\ A !! key = Some AOther /\ aset A key = None) \/
  (exists X, aset A key = Some X /\ key_holds (D !! key) (elements X) /\ (A !! key = None <-> X = ∅) /\ (D !! key = None <-> X = ∅)).
Proof.
  intros HR. specialize (HR key). unfold aset. destruct (A !! key) as [[X|]|] eqn:EA.
  - right. exists X. destruct (D !! key) as [[o|]|]; simpl in HR; destruct HR as [HX Hk]; [| |by apply elements_empty_inv in Hk; apply leibniz_equiv in Hk].
    + split; [done|]. split; [done|]. split; [by split|by split].
    + done.
  - left. by destruct (D !! key) as [[o|]|]; simpl in HR.
  - right. exists ∅. rewrite elements_empty. destruct (D !! key) as [[o|]|]; simpl in HR; [by destruct HR|done|].
    split; [done|]. split; [done|]. split; by split.
Qed.

Lemma put_rel (D : db) (A : adb) (key : list Z) (o : option (dbobj hash)) (X : gset (list Z)) : db_rel D A -> key_holds o (elements X) -> db_rel (set_key hash D key o) (aput A key X).
Proof.
  intros HR Hk k. rewrite aput_lookup. unfold set_key. destruct (decide (k = key)) as [->|Hn].
  - rewrite lookup_partial_alter_eq. destruct (decide (X = ∅)) as [->|HX].
    + rewrite elements_empty in Hk. destruct o as [[o|]|]; simpl in *; [by destruct Hk|done|done].
    + destruct o as [[o|]|]; simpl in *; [done|done|done].
  - rewrite lookup_partial_alter_ne by done. apply HR.
Qed.

(** A command that leaves the abstract value alone. *)
Lemma keep_rel (D : db) (A : adb) (key : list Z) (o : option (dbobj hash)) X : db_rel D A -> aset A key = Some X -> key_holds o (elements X) -> db_rel (set_key hash D key o) A.
Proof.
  intros HR EA Hk k. destruct (decide (k = key)) as [->|Hn].
  - pose proof (put_rel D A key o X HR Hk key) as Hp. rewrite aput_lookup, decide_True in Hp by done. revert Hp. unfold aset in EA.
    destruct (A !! key) as [[Y|]|] eqn:E; [injection EA as ->| |injection EA as <-]; [|done|by rewrite decide_True].
    destruct (decide (X = ∅)) as [->|HX]; [|done]. pose proof (HR key) as Hk'. rewrite E in Hk'. destruct (D !! key) as [[?|]|]; simpl in Hk'; by destruct Hk' as [? _].
  - unfold set_key. rewrite lookup_partial_alter_ne by done. apply HR.
Qed.

Lemma wrong_rel (D : db) (A : adb) (key : list Z) : db_rel D A -> db_rel (set_key hash D key (D !! key)) A.
Proof. intros HR k. unfold set_key. destruct (decide (k = key)) as [->|Hn]; [rewrite lookup_partial_alter_eq|rewrite lookup_partial_alter_ne by done]; apply HR. Qed.

Lemma aset_size (A : adb) (n : Z) (key : list Z) (X : gset (list Z)) : sizes_le A n -> 0 <= n -> aset A key = Some X -> zsize X <= n.
Proof.
  intros Hs Hn. unfold aset. destruct (A !! key) as [[Y|]|] eqn:E; intros EA; [injection EA as <-; by apply (Hs key)|done|injection EA as <-].
  unfold zsize. rewrite size_empty. lia.
Qed.

Lemma sizes_put (A : adb) (n m : Z) (key : list Z) (X : gset (list Z)) : sizes_le A n -> n <= m -> zsize X <= m -> sizes_le (aput A key X) m.
Proof.
  intros Hs Hn HX k Y. rewrite aput_lookup. destruct (decide (k = key)) as [->|Hk]; [destruct (decide (X = ∅)); [done|]; by intros [= <-]|].
  intros E. specialize (Hs k Y E). lia.
Qed.

Lemma sizes_mono (A : adb) n m : sizes_le A n -> n <= m -> sizes_le A m.
Proof. intros Hs Hn k Y E. specialize (Hs k Y E). lia. Qed.

(** One command from related states: [m] bounds the sizes afterwards. *)
Definition step_ok (c : set_cmd) (D : db) (A : adb) (m : Z) : Prop :=
  exists D', exec D c = Some (D', (spec A c).2) /\ db_rel D' (spec A c).1 /\ sizes_le (spec A c).1 m.

Section Step.
  Context (D : db) (A : adb) (HR : db_rel D A) (n : Z) (Hs : sizes_le A n) (Hn : 0 <= n).

Lemma set_len (X : gset (list Z)) key : aset A key = Some X -> zlen (elements X) <= n.
Proof. intros EA. rewrite zlen_elements. by eapply aset_size. Qed.

Lemma sadd_step key values : cmd_ok (SADD key values) -> n + zlen values < 2 ^ 29 - 1 -> step_ok (SADD key values) D A (n + zlen values).
Proof.
  intros [Hv Hne] Hl. unfold step_ok. cbn [SetSpec.exec spec]. pose proof (zlen_nonneg values).
  destruct (val_cases D A key HR) as [(ED & EA & Ea)|(X & Ea & Hk & _)]; rewrite Ea.
  - rewrite ED. eexists. split; [done|]. split; [rewrite <- ED; by apply wrong_rel|eapply sizes_mono; [done|lia]].
  - pose proof (set_len X key Ea) as Hx.
    destruct (sadd_ok hash Hhash resize addr max_intset max_entries max_value (D !! key) (elements X) values Hk Hv Hne) as (o & -> & Ho); [lia|].
    cbn [mbind option_bind]. pose proof (elements_add X values) as HP. pose proof (zlen_perm _ _ HP) as E.
    pose proof (add_all_len values (elements X)) as Hlen. cbn [fst snd]. rewrite <- !zlen_elements, E.
    eexists. split; [done|]. split; [apply put_rel; [done|by eapply key_holds_elements]|]. eapply sizes_put; [done|lia|]. rewrite <- zlen_elements. lia.
Qed.

Lemma srem_step key values : Forall is_str values -> n < 2 ^ 29 - 1 -> step_ok (SREM key values) D A n.
Proof.
  intros Hv Hl. unfold step_ok. cbn [SetSpec.exec spec].
  destruct (val_cases D A key HR) as [(ED & EA & Ea)|(X & Ea & Hk & _)]; rewrite Ea.
  - rewrite ED. eexists. split; [done|]. split; [rewrite <- ED; by apply wrong_rel|done].
  - pose proof (set_len X key Ea) as Hx.
    destruct (srem_ok hash Hhash resize (D !! key) (elements X) values Hk Hv) as (o & -> & Ho); [lia|].
    cbn [mbind option_bind]. pose proof (elements_remove X values) as HP. pose proof (zlen_perm _ _ HP) as E.
    pose proof (remove_all_len values (elements X)) as Hlen. cbn [fst snd]. rewrite <- !zlen_elements, E.
    eexists. split; [done|]. split; [apply put_rel; [done|by eapply key_holds_elements]|]. eapply sizes_put; [done|lia|]. rewrite <- zlen_elements. lia.
Qed.

Lemma sismember_step key value : is_str value -> n < 2 ^ 29 - 1 -> step_ok (SISMEMBER key value) D A n.
Proof.
  intros Hv Hl. unfold step_ok. cbn [SetSpec.exec spec fst snd].
  destruct (val_cases D A key HR) as [(ED & EA & Ea)|(X & Ea & Hk & _)]; rewrite Ea.
  - rewrite ED. eexists. split; [done|]. split; [rewrite <- ED; by apply wrong_rel|done].
  - pose proof (set_len X key Ea) as Hx. destruct (sismember_ok hash Hhash resize (D !! key) (elements X) value Hk Hv) as (o & -> & Ho); [lia|].
    cbn [mbind option_bind]. rewrite bit_elements. eexists. split; [done|]. split; [by eapply keep_rel|done].
Qed.

Lemma smismember_step key values : Forall is_str values -> n < 2 ^ 29 - 1 -> step_ok (SMISMEMBER key values) D A n.
Proof.
  intros Hv Hl. unfold step_ok. cbn [SetSpec.exec spec fst snd].
  destruct (val_cases D A key HR) as [(ED & EA & Ea)|(X & Ea & Hk & _)]; rewrite Ea.
  - rewrite ED. eexists. split; [done|]. split; [rewrite <- ED; by apply wrong_rel|done].
  - pose proof (set_len X key Ea) as Hx. destruct (smismember_ok hash Hhash resize (D !! key) (elements X) values Hk Hv) as (o & -> & Ho); [lia|].
    cbn [mbind option_bind]. rewrite (list_fmap_ext _ (bit X) values) by (intros; apply bit_elements).
    eexists. split; [done|]. split; [by eapply keep_rel|done].
Qed.

Lemma scard_step key : n < 2 ^ 29 - 1 -> step_ok (SCARD key) D A n.
Proof.
  intros Hl. unfold step_ok. cbn [SetSpec.exec spec fst snd].
  destruct (val_cases D A key HR) as [(ED & EA & Ea)|(X & Ea & Hk & _)]; rewrite Ea.
  - rewrite ED. eexists. split; [done|]. split; [rewrite <- ED; by apply wrong_rel|done].
  - pose proof (set_len X key Ea) as Hx. destruct (scard_ok hash Hhash (D !! key) (elements X) Hk) as (o & -> & Ho); [lia|].
    cbn [mbind option_bind]. rewrite zlen_elements. eexists. split; [done|]. split; [by eapply keep_rel|done].
Qed.

(** A command that gives back the objects it found. *)
Lemma same_keys_rel src dst : db_rel (set_key hash (set_key hash D src (D !! src)) dst (D !! dst)) A.
Proof.
  intros k. unfold set_key. destruct (decide (k = dst)) as [->|Hk]; [rewrite lookup_partial_alter_eq; apply HR|].
  rewrite lookup_partial_alter_ne by done. by apply (wrong_rel D A src HR).
Qed.

Lemma set_key_twice key o : set_key hash (set_key hash D key o) key o = set_key hash D key o.
Proof.
  apply map_eq. intros k. unfold set_key. destruct (decide (k = key)) as [->|Hk]; [by rewrite !lookup_partial_alter_eq|].
  by rewrite !lookup_partial_alter_ne.
Qed.

Lemma elements_remove1 (X : gset (list Z)) x : elements (X ∖ {[x]}) ≡ₚ set_remove x (elements X).
Proof. rewrite <- (elements_remove X [x]). by rewrite list_to_set_singleton_L. Qed.

Lemma elements_add1 (X : gset (list Z)) x : elements (X ∪ {[x]}) ≡ₚ set_add x (elements X).
Proof. rewrite <- (elements_add X [x]). by rewrite list_to_set_singleton_L. Qed.

(** Moving between two keys that both hold sets, or to a key that does not exist. *)
Lemma smove_two src dst value X1 X2 : src <> dst -> is_str value -> n + 1 < 2 ^ 29 - 1 -> D !! src <> None ->
  aset A src = Some X1 -> aset A dst = Some X2 -> key_holds (D !! src) (elements X1) -> key_holds (D !! dst) (elements X2) ->
  step_ok (SMOVE src dst value) D A (n + 1).
Proof.
  intros Hne Hv Hl HD E1 E2 H1 H2. unfold step_ok. cbn [SetSpec.exec spec]. pose proof (set_len X1 src E1). pose proof (set_len X2 dst E2).
  rewrite bool_decide_eq_false_2 by done.
  destruct (smove_ok hash Hhash resize addr max_intset max_entries max_value (D !! src) (elements X1) (D !! dst) (elements X2) value H1 H2 Hv)
    as (s & d & -> & Hs' & Hd'); [lia|lia|]. cbn [mbind option_bind].
  assert (match A !! src with None => False | _ => True end) as HA.
  { pose proof (HR src) as Hr. unfold aset in E1. destruct (A !! src) as [[Y|]|]; [done|done|]. simpl in Hr.
    destruct (D !! src) as [[o|]|]; simpl in Hr; [by destruct Hr|done|done]. }
  destruct (A !! src) as [a|]; [|done]. rewrite E1, E2. rewrite bit_elements. unfold bit.
  destruct (decide (value ∈ X1)) as [Hin|Hin].
  - rewrite !decide_False by done. cbn [fst snd]. rewrite decide_True in Hd' by (by apply elem_of_elements).
    eexists. split; [done|]. split.
    + apply put_rel; [apply put_rel; [done|]|]; (eapply key_holds_elements; [|done]); [apply elements_remove1|apply elements_add1].
    + apply sizes_put with (n := n); [|lia|]. 
      * eapply sizes_put; [done|lia|]. rewrite <- zlen_elements, (zlen_perm _ _ (elements_remove1 _ _)). unfold zlen, set_remove in *.
        pose proof (length_filter (.≠ value) (elements X1)). lia.
      * rewrite <- zlen_elements, (zlen_perm _ _ (elements_add1 _ _)), set_add_count. destruct (bool_decide _); lia.
  - rewrite decide_False in Hd' by (by rewrite elem_of_elements). rewrite set_remove_absent in Hs' by (by rewrite elem_of_elements).
    cbn [fst snd]. eexists. split; [done|]. split; [eapply keep_rel; [|exact E2|done]; by eapply keep_rel|eapply sizes_mono; [done|lia]].
Qed.

Lemma smove_step src dst value : is_str value -> n + 1 < 2 ^ 29 - 1 -> step_ok (SMOVE src dst value) D A (n + 1).
Proof.
  intros Hv Hl.
  assert (sizes_le A (n + 1)) as Hs1 by (eapply sizes_mono; [done|lia]).
  assert (forall r, smoveCommand hash resize addr max_intset max_entries max_value (D !! src) (D !! dst) (bool_decide (src = dst)) value = Some (D !! src, D !! dst, r) ->
    spec A (SMOVE src dst value) = (A, r) -> step_ok (SMOVE src dst value) D A (n + 1)) as Hsame.
  { intros r E ES. unfold step_ok. rewrite ES. cbn [SetSpec.exec]. rewrite E. cbn [mbind option_bind fst snd]. eexists. split; [done|].
    split; [apply same_keys_rel|done]. }
  destruct (val_cases D A src HR) as [(ED & EA & Ea)|(X1 & Ea & Hk & HA & HD)].
  { apply (Hsame WRONGTYPE); [by rewrite ED|]. cbn [spec]. by rewrite EA, Ea. }
  destruct (D !! src) as [s|] eqn:ED.
  2: { apply (Hsame (IntReply 0)); [done|]. cbn [spec]. destruct HD as [HD _]. rewrite (HD eq_refl) in HA. by rewrite (proj2 HA eq_refl). }
  destruct (val_cases D A dst HR) as [(ED2 & EA2 & Ea2)|(X2 & Ea2 & Hk2 & _)].
  { apply (Hsame WRONGTYPE); [destruct s as [o|]; [|done]; by rewrite ED2|]. cbn [spec]. rewrite Ea, Ea2. destruct (A !! src) eqn:E; [done|].
    destruct HA as [HA _], HD as [_ HD]. by specialize (HD (HA eq_refl)). }
  destruct (decide (src = dst)) as [<-|Hne].
  - clear Ea2 Hk2. unfold step_ok. cbn [SetSpec.exec spec]. rewrite bool_decide_eq_true_2 by done. pose proof (set_len X1 src Ea).
    rewrite ED. destruct (smove_same_ok hash Hhash resize addr max_intset max_entries max_value (Some s) (elements X1) value Hk Hv) as (s' & -> & Hs'); [lia|].
    cbn [mbind option_bind]. rewrite set_key_twice, bit_elements, Ea. unfold bit.
    assert (A !! src <> None) as HnA by (intros E; apply HA, HD in E; done). destruct (A !! src) as [a|]; [|done].
    destruct (decide (value ∈ X1)); [rewrite decide_True by done|]; (eexists; split; [done|]; split; [by eapply keep_rel|done]).
  - by apply (smove_two src dst value X1 X2); rewrite ?ED.
Qed.
End Step.

Lemma exec_refines c D A n : db_rel D A -> sizes_le A n -> 0 <= n -> cmd_ok c -> n + grows c < 2 ^ 29 - 1 -> step_ok c D A (n + grows c).
Proof.
  intros HR Hs Hn Hc Hl. destruct c as [key vs|key vs|key v|key vs|src dst v|key]; simpl in *; rewrite ?Z.add_0_r in *.
  - by apply sadd_step.
  - by apply srem_step.
  - by apply sismember_step.
  - by apply smismember_step.
  - by apply smove_step.
  - by apply scard_step.
Qed.

Lemma run_refines cs : forall D A n, db_rel D A -> sizes_le A n -> 0 <= n -> Forall cmd_ok cs -> n + growth cs < 2 ^ 29 - 1 ->
  exists D', run D cs = Some (D', (spec_run A cs).2) /\ db_rel D' (spec_run A cs).1.
Proof.
  induction cs as [|c cs IH]; intros D A n HR Hs Hn Hc Hl; cbn [SetSpec.run spec_run]; [by exists D|].
  inversion Hc as [|?? Hc0 Hcs]; subst. simpl in Hl. pose proof (grows_nonneg c). pose proof (growth_nonneg cs).
  destruct (exec_refines c D A n HR Hs Hn Hc0) as (D1 & -> & HR1 & Hs1); [lia|]. destruct (spec A c) as [A1 r]. cbn [mbind option_bind fst snd] in *.
  destruct (IH D1 A1 (n + grows c) HR1 Hs1) as (D2 & -> & HR2); [lia|done|lia|]. destruct (spec_run A1 cs) as [A2 rs]. cbn [mbind option_bind fst snd] in *.
  by exists D2.
Qed.

Lemma empty_rel : db_rel ∅ ∅.
Proof. intros k. by rewrite !lookup_empty. Qed.
End Refine.

(** ** The theorems *)

Section Theorems.
Context `{Allocator} `{Q : Qsort} `{!QsortOk Q}.
Context (hash : list Z -> Z) (resize : dictResizeEnable).
#[local] Existing Instance SD.
Context (addr : @dict (SD hash) -> bool -> Z) (max_intset max_entries max_value : Z).

(** C13: any sequence of SADD, SREM, SISMEMBER, SMISMEMBER, SMOVE and SCARD on a key space of sets
    in any of the three encodings and of values of other types gives the replies of the
    specification on finite sets of strings, a wrong type answers an error and changes nothing,
    a set that becomes empty is removed with its key, and the key spaces stay related; the sizes
    and the members added stay below 2^29 - 1 *)
Theorem set_commands_refine (Hhash : forall k, 0 <= hash k < 2 ^ 64) D A n cs :
  db_rel hash Hhash D A -> sizes_le A n -> 0 <= n -> Forall cmd_ok cs -> n + growth cs < 2 ^ 29 - 1 ->
  exists D', run hash resize addr max_intset max_entries max_value D cs = Some (D', (spec_run A cs).2) /\
    db_rel hash Hhash D' (spec_run A cs).1.
Proof. apply run_refines. Qed.

(** on a set object of fewer than 2^29 - 1 members in any encoding, adding and removing a
    member given as a string or an integer tell whether it was there and change just it,
    whatever conversions the limits ask for, the lookup and the size are right, a copy has the
    same members, and the iteration, with its check of the fingerprint, gives every member once *)
Theorem set_objects_correct (Hhash : forall k, 0 <= hash k < 2 ^ 64) o L x m :
  holds_set hash Hhash o L -> is_str x -> text_of m x -> zlen L < 2 ^ 29 - 1 ->
  (exists o', setTypeAddAux hash resize addr max_intset max_entries max_value o m = Some (o', bool_decide (x ∉ L)) /\
     holds_set hash Hhash o' (set_add x L)) /\
  (exists o', setTypeRemoveAux hash resize o m = Some (o', bool_decide (x ∈ L)) /\ holds_set hash Hhash o' (set_remove x L)) /\
  (exists o', setTypeIsMemberAux hash resize o m = Some (o', bool_decide (x ∈ L)) /\ holds_set hash Hhash o' L) /\
  (exists o', setTypeSize hash o = Some (o', zlen L) /\ holds_set hash Hhash o' L) /\
  (exists o', setTypeDup hash resize addr max_intset max_entries max_value o = Some o' /\ holds_set hash Hhash o' L) /\
  (exists els L', list_elems hash addr o = Some els /\ Forall2 text_of els L' /\ L' ≡ₚ L).
Proof.
  intros Ho Hx Hm Hl. split_and!; [| | |by apply holds_size; [|lia]| |by eapply list_elems_ok].
  all: destruct Ho as (D & HD & HP); assert (zlen D = zlen L) as E by (by apply zlen_perm).
  - destruct (set_add_spec hash Hhash resize addr max_intset max_entries max_value o D m x HD Hm Hx) as (o' & -> & D' & HD' & HP'); [lia|].
    exists o'. split; [by rewrite (bool_decide_ext (x ∉ D) (x ∉ L)) by (by rewrite HP)|]. exists D'. split; [done|]. rewrite HP'. by apply set_add_perm.
  - destruct (set_remove_spec hash Hhash resize o D m x HD Hm Hx) as (o' & -> & D' & HD' & HP'); [lia|].
    exists o'. split; [by rewrite (bool_decide_ext (x ∈ D) (x ∈ L)) by (by rewrite HP)|]. exists D'. split; [done|]. rewrite HP'. unfold set_remove. by rewrite HP.
  - destruct (member_spec hash Hhash resize o D m x HD Hm Hx) as (o' & -> & HD'); [lia|].
    exists o'. split; [by rewrite (bool_decide_ext (x ∈ D) (x ∈ L)) by (by rewrite HP)|]. by exists D.
  - destruct (dup_spec hash Hhash resize addr max_intset max_entries max_value o D HD) as (o' & -> & D' & HD' & HP'); [lia|].
    exists o'. split; [done|]. exists D'. split; [done|]. by rewrite HP'.
Qed.

(** C14: SINTER, SINTERCARD with its limit and SINTERSTORE over any keys, repeated or missing, end
    and answer or store exactly the members common to all of them, in whatever order qsort puts
    sets of equal size, and an empty result deletes the target; the sets keep their members *)
Theorem sinter_correct (Hhash : forall k, 0 <= hash k < 2 ^ 64) h M keys mode :
  heap_holds hash Hhash h M -> small_sets M -> keys_ok M keys -> keys <> [] -> (match mode with InterCard limit => 0 <= limit | _ => True end) ->
  exists h' r d ss, sinterGenericCommand hash resize addr max_intset max_entries max_value h keys mode = Some (h', r, d) /\
    heap_holds hash Hhash h' M /\ is_inter M keys ss /\ inter_result hash Hhash mode ss r d.
Proof. apply sinter_ok. Qed.

(** C15: SUNION and SDIFF, answering or storing, end with exactly the members of some key, or of the
    first key and no other; for the difference both algorithms, chosen by their estimated work,
    compute the same set, a first key given again makes it empty, and missing keys count as
    empty *)
Theorem sunion_sdiff_correct (Hhash : forall k, 0 <= hash k < 2 ^ 64) h M keys op store :
  heap_holds hash Hhash h M -> small_sets M -> keys_ok M keys -> op_room op M keys ->
  exists h' r d ss, sunionDiffGenericCommand hash resize addr max_intset max_entries max_value h keys store op = Some (h', r, d) /\
    heap_holds hash Hhash h' M /\ is_op op M keys ss /\ op_result hash Hhash store ss r d.
Proof. apply sunion_sdiff_ok. Qed.

(** A key of another type: an error, and nothing changes. *)
Theorem set_wrongtype_error h keys mode op store :
  Forall (fun k => match k with Some id => is_Some (h !! id) | None => True end) keys ->
  Exists (fun k => exists id, k = Some id /\ h !! id = Some (OOther hash)) keys ->
  sinterGenericCommand hash resize addr max_intset max_entries max_value h keys mode = Some (h, WRONGTYPE, NoDst hash) /\
  sunionDiffGenericCommand hash resize addr max_intset max_entries max_value h keys store op = Some (h, WRONGTYPE, NoDst hash).
Proof.
  intros Hall Hex. unfold sinterGenericCommand, sunionDiffGenericCommand. by rewrite (lookup_sets_wrong hash h keys Hall Hex).
Qed.
End Theorems.

(** ** Instances *)

Module Sample.
Fixpoint insert_by {A : Type} (cmp : A -> A -> Z) (x : A) (l : list A) : list A :=
  match l with [] => [x] | y :: l => if cmp x y <=? 0 then x :: y :: l else y :: insert_by cmp x l end.

#[export] Instance insertion_sort : Qsort := {| qsort A cmp l := foldr (insert_by cmp) [] l |}.

Lemma insert_by_perm {A : Type} (cmp : A -> A -> Z) x l : insert_by cmp x l ≡ₚ x :: l.
Proof. induction l as [|y l IH]; simpl; [done|]. destruct (cmp x y <=? 0); [done|]. rewrite IH. apply Permutation_swap. Qed.

#[export] Instance insertion_sort_ok : QsortOk insertion_sort.
Proof. constructor. intros A cmp l. simpl. induction l as [|y l IH]; simpl; [done|]. by rewrite insert_by_perm, IH. Qed.

Definition hash (_ : list Z) : Z := 5.
Lemma hash_range k : 0 <= hash k < 2 ^ 64.
Proof. unfold hash. lia. Qed.

Definition addr (_ : @dict (SD hash)) (_ : bool) : Z := 0.

(** The sets 1, 5, 9 and 5, ab. *)
Definition L1 : list (list Z) := [[49]; [53]; [57]].
Definition L2 : list (list Z) := [[53]; [97; 98]].
Definition o1 : sobj hash := SetIntset hash example_set.
Definition o2 : sobj hash := SetListpack hash (lp_block 2 (str_ent <$> L2) []).

Lemma strs_check L : forallb (fun s => forallb (fun b => (0 <=? b) && (b <? 256)) s && (zlen s <? 2 ^ 31)) L = true -> Forall is_str L.
Proof.
  intros E. apply Forall_forall. intros s Hs. rewrite forallb_forall in E. specialize (E s (proj1 (list_elem_of_In _ _) Hs)).
  apply andb_prop in E as [E1 E2]. split; [|lia]. apply Forall_forall. intros b Hb. rewrite forallb_forall in E1.
  specialize (E1 b (proj1 (list_elem_of_In _ _) Hb)). unfold is_byte. lia.
Qed.

Lemma o1_repr : SetRepr hash hash_range o1 L1.
Proof.
  split; [apply (bool_decide_unpack _); by vm_compute|by apply strs_check|]. exists [1; 5; 9]. split; [apply example_set_repr|].
  constructor; [split; [right; split_and!; by vm_compute|done]|]. constructor; [split; [right; split_and!; by vm_compute|done]|]. constructor; [split; [right; split_and!; by vm_compute|done]|constructor].
Qed.

Lemma o2_repr : SetRepr hash hash_range o2 L2.
Proof.
  split; [apply (bool_decide_unpack _); by vm_compute|by apply strs_check|]. exists 2, []. split; [done|]. constructor; [|by vm_compute|by left].
  apply Forall_fmap, Forall_forall. intros s Hs. apply str_ent_ok. assert (Forall is_str L2) as HF by (by apply strs_check).
  rewrite Forall_forall in HF. by apply HF.
Qed.

Definition heap : gmap nat (dbobj hash) := {[1%nat := OSet hash o1; 2%nat := OSet hash o2]}.
Definition M : gmap nat (list (list Z)) := {[1%nat := L1; 2%nat := L2]}.

Lemma M_cases id L : M !! id = Some L -> (id = 1%nat /\ L = L1) \/ (id = 2%nat /\ L = L2).
Proof.
  unfold M. intros E. apply lookup_insert_Some in E as [[<- <-]|[_ E]]; [by left|].
  apply lookup_singleton_Some in E as [<- <-]. by right.
Qed.

Lemma heap_ok : heap_holds hash hash_range heap M.
Proof. intros id L [[-> ->]|[-> ->]]%M_cases; eexists; (split; [reflexivity|]); [apply o1_repr|apply o2_repr]. Qed.

Lemma small : small_sets M.
Proof. intros id L [[-> ->]|[-> ->]]%M_cases; by vm_compute. Qed.

Definition cs : list set_cmd :=
  [SADD [107] L1; SADD [107] L2; SREM [107] [[49]; [50]]; SMOVE [107] [108] [97; 98]; SCARD [107]; SMISMEMBER [108] L2].
End Sample.
#[local] Existing Instance Sample.insertion_sort.
#[local] Existing Instance Sample.insertion_sort_ok.

Lemma set_commands_refine_witness :
  exists D', run Sample.hash DICT_RESIZE_ENABLE Sample.addr 512 128 64 ∅ Sample.cs =
    Some (D', [IntReply 3; IntReply 1; IntReply 1; IntReply 1; IntReply 2; ArrayReply [0; 1]]) /\
    db_rel Sample.hash Sample.hash_range D' (spec_run ∅ Sample.cs).1.
Proof.
  replace [IntReply 3; IntReply 1; IntReply 1; IntReply 1; IntReply 2; ArrayReply [0; 1]] with (spec_run ∅ Sample.cs).2 by (by vm_compute).
  apply (set_commands_refine Sample.hash DICT_RESIZE_ENABLE Sample.addr 512 128 64 Sample.hash_range ∅ ∅ 0 Sample.cs).
  - apply empty_rel.
  - by intros key X E; rewrite lookup_empty in E.
  - done.
  - repeat constructor; try (by vm_compute); try done; apply (Sample.strs_check [_]) || apply Sample.strs_check; by vm_compute.
  - by vm_compute.
Defined.

Lemma set_objects_correct_witness :
  exists els L', list_elems Sample.hash Sample.addr Sample.o2 = Some els /\ Forall2 text_of els L' /\ L' ≡ₚ Sample.L2.
Proof.
  apply (set_objects_correct Sample.hash DICT_RESIZE_ENABLE Sample.addr 512 128 64 Sample.hash_range Sample.o2 Sample.L2 [53] (MStr [53])).
  - exists Sample.L2. split; [apply Sample.o2_repr|done].
  - split; [|by vm_compute]. constructor; [|constructor]. unfold is_byte. lia.
  - done.
  - by vm_compute.
Defined.

Lemma sinter_correct_witness :
  exists h' r d ss, sinterGenericCommand Sample.hash DICT_RESIZE_ENABLE Sample.addr 512 128 64 Sample.heap [Some 1%nat; Some 2%nat] InterStore = Some (h', r, d) /\
    heap_holds Sample.hash Sample.hash_range h' Sample.M /\ is_inter Sample.M [Some 1%nat; Some 2%nat] ss /\
    inter_result Sample.hash Sample.hash_range InterStore ss r d.
Proof.
  apply (sinter_correct Sample.hash DICT_RESIZE_ENABLE Sample.addr 512 128 64 Sample.hash_range Sample.heap Sample.M [Some 1%nat; Some 2%nat] InterStore).
  - apply Sample.heap_ok.
  - apply Sample.small.
  - constructor; [by eexists|]. constructor; [by eexists|constructor].
  - done.
  - done.
Defined.

Lemma sunion_sdiff_correct_witness :
  exists h' r d ss, sunionDiffGenericCommand Sample.hash DICT_RESIZE_ENABLE Sample.addr 512 128 64 Sample.heap [Some 1%nat; None; Some 2%nat] false SET_OP_DIFF = Some (h', r, d) /\
    heap_holds Sample.hash Sample.hash_range h' Sample.M /\ is_op SET_OP_DIFF Sample.M [Some 1%nat; None; Some 2%nat] ss /\
    op_result Sample.hash Sample.hash_range false ss r d.
Proof.
  apply (sunion_sdiff_correct Sample.hash DICT_RESIZE_ENABLE Sample.addr 512 128 64 Sample.hash_range Sample.heap Sample.M [Some 1%nat; None; Some 2%nat] SET_OP_DIFF false).
  - apply Sample.heap_ok.
  - apply Sample.small.
  - constructor; [by eexists|]. constructor; [done|]. constructor; [by eexists|constructor].
  - done.
Defined.

Lemma set_wrongtype_error_witness :
  let h := <[3%nat := OOther Sample.hash]> Sample.heap in
  sinterGenericCommand Sample.hash DICT_RESIZE_ENABLE Sample.addr 512 128 64 h [Some 1%nat; Some 3%nat] InterReply = Some (h, WRONGTYPE, NoDst Sample.hash).
Proof.
  apply (set_wrongtype_error Sample.hash DICT_RESIZE_ENABLE Sample.addr 512 128 64 _ [Some 1%nat; Some 3%nat] InterReply SET_OP_UNION true).
  - constructor; [by eexists|]. constructor; [by eexists|constructor].
  - right. left. exists 3%nat. split; [done|]. by vm_compute.
Defined.
