(* ===== verification/Kvstore.v ===== *)
(** * Key-value stores ([kvstore.c])

    An array of [2^num_dicts_bits] hash tables, allocated on demand, with the number of keys of
    each in a binary indexed tree.  The dictionaries are those of [dict.c].  The list of
    dictionaries being rehashed and the counters of buckets, which only feed statistics and the
    background rehashing, are left out. *)
From S2P Require Import Prelude Dict DictOps.

Section Kvstore.
Context `{T : DictType} (resize : dictResizeEnable).
Notation entry := (dkey * option dval)%type.

Record kvstore := {
  allocate_on_demand : bool;
  free_empty_dicts : bool;
  dicts : list (option dict);
  num_dicts : Z;
  num_dicts_bits : Z;
  resize_cursor : Z;
  allocated_dicts : Z;
  non_empty_dicts : Z;
  key_count : Z;
  dict_size_index : option (list Z);
}.

Definition set_dicts (kvs : kvstore) (ds : list (option dict)) (alloc : Z) : kvstore :=
  {| allocate_on_demand := allocate_on_demand kvs; free_empty_dicts := free_empty_dicts kvs; dicts := ds;
     num_dicts := num_dicts kvs; num_dicts_bits := num_dicts_bits kvs; resize_cursor := resize_cursor kvs;
     allocated_dicts := alloc; non_empty_dicts := non_empty_dicts kvs; key_count := key_count kvs;
     dict_size_index := dict_size_index kvs |}.

Definition set_counts (kvs : kvstore) (nonempty keys : Z) (index : option (list Z)) : kvstore :=
  {| allocate_on_demand := allocate_on_demand kvs; free_empty_dicts := free_empty_dicts kvs; dicts := dicts kvs;
     num_dicts := num_dicts kvs; num_dicts_bits := num_dicts_bits kvs; resize_cursor := resize_cursor kvs;
     allocated_dicts := allocated_dicts kvs; non_empty_dicts := nonempty; key_count := keys;
     dict_size_index := index |}.

Definition set_resize_cursor (kvs : kvstore) (c : Z) : kvstore :=
  {| allocate_on_demand := allocate_on_demand kvs; free_empty_dicts := free_empty_dicts kvs; dicts := dicts kvs;
     num_dicts := num_dicts kvs; num_dicts_bits := num_dicts_bits kvs; resize_cursor := c;
     allocated_dicts := allocated_dicts kvs; non_empty_dicts := non_empty_dicts kvs; key_count := key_count kvs;
     dict_size_index := dict_size_index kvs |}.

(** ** Helpers *)

(** [None] inside for NULL. *)
Definition kvstoreGetDict (kvs : kvstore) (didx : Z) : option (option dict) :=
  if 0 <=? didx then dicts kvs !! Z.to_nat didx else None.

(** A dictionary that an operation has changed. *)
Definition put_dict (kvs : kvstore) (didx : Z) (d : option dict) : kvstore :=
  set_dicts kvs (<[Z.to_nat didx := d]> (dicts kvs)) (allocated_dicts kvs).

(** Elements of the tree, which is an array of [num_dicts + 1] counters. *)
Definition index_get (kvs : kvstore) (idx : Z) : option Z :=
  index ← dict_size_index kvs; if 0 <=? idx then index !! Z.to_nat idx else None.

Definition kvstoreDictSize (kvs : kvstore) (didx : Z) : option Z :=
  d ← kvstoreGetDict kvs didx; Some (match d with Some d => dictSize d | None => 0 end).

Definition kvstoreSize (kvs : kvstore) : option Z :=
  if negb (num_dicts kvs =? 1) then Some (key_count kvs) else kvstoreDictSize kvs 0.

(** [idx & -idx] *)
Definition lowbit (idx : Z) : Z := Z.land idx (- idx).

Definition count_body (kvs : kvstore) (st : Z * Z) : option (Z * Z + Z) :=
  let '(idx, sum) := st in
  if idx >? 0 then n ← index_get kvs idx; Some (inl (idx - lowbit idx, u64 (sum + n)))
  else Some (inr sum).

(** Every turn clears a bit of the index. *)
Definition tree_fuel (kvs : kvstore) : nat := S (S (S (Z.to_nat (num_dicts_bits kvs)))).

Definition cumulativeKeyCountRead (kvs : kvstore) (didx : Z) : option Z :=
  if num_dicts kvs =? 1 then _ ← assert_true (didx =? 0); kvstoreSize kvs
  else loop (tree_fuel kvs) (count_body kvs) (didx + 1, 0).

Definition addDictIndexToCursor (kvs : kvstore) (didx cursor : Z) : Z :=
  if num_dicts kvs =? 1 then cursor
  else if didx <? 0 then cursor
  else Z.lor (u64 (Z.shiftl cursor (num_dicts_bits kvs))) didx.

(** The index and the cursor without it. *)
Definition getAndClearDictIndexFromCursor (kvs : kvstore) (cursor : Z) : Z * Z :=
  if num_dicts kvs =? 1 then (0, cursor)
  else (Z.land cursor (num_dicts kvs - 1), Z.shiftr cursor (num_dicts_bits kvs)).

Definition add_body (n delta : Z) (st : Z * list Z) : option (Z * list Z + list Z) :=
  let '(idx, index) := st in
  if idx <=? n then
    v ← index !! Z.to_nat idx;
    _ ← assert_true (negb (delta <? 0) || (v >=? Z.abs delta));
    Some (inl (idx + lowbit idx, <[Z.to_nat idx := u64 (v + delta)]> index))
  else Some (inr index).

Definition cumulativeKeyCountAdd (kvs : kvstore) (didx delta : Z) : option kvstore :=
  let keys := u64 (key_count kvs + delta) in
  d ← kvstoreGetDict kvs didx; d ← d;
  let dsize := dictSize d in
  let non_empty_dicts_delta := if (dsize =? 1) && (delta >? 0) then 1 else if dsize =? 0 then -1 else 0 in
  let nonempty := s32 (non_empty_dicts kvs + non_empty_dicts_delta) in
  if num_dicts kvs =? 1 then Some (set_counts kvs nonempty keys (dict_size_index kvs))
  else
    index ← dict_size_index kvs;
    index ← loop (tree_fuel kvs) (add_body (num_dicts kvs) delta) (didx + 1, index);
    Some (set_counts kvs nonempty keys (Some index)).

Definition createDictIfNeeded (kvs : kvstore) (didx : Z) : option (kvstore * dict) :=
  d ← kvstoreGetDict kvs didx;
  match d with
  | Some d => Some (kvs, d)
  | None => Some (set_dicts kvs (<[Z.to_nat didx := Some dictCreate]> (dicts kvs)) (s32 (allocated_dicts kvs + 1)), dictCreate)
  end.

Definition kvstoreDictIsRehashingPaused (kvs : kvstore) (didx : Z) : option bool :=
  d ← kvstoreGetDict kvs didx; Some (match d with Some d => pauserehash d >? 0 | None => false end).

Definition freeDictIfNeeded (kvs : kvstore) (didx : Z) : option kvstore :=
  d ← kvstoreGetDict kvs didx;
  size ← kvstoreDictSize kvs didx;
  paused ← kvstoreDictIsRehashingPaused kvs didx;
  if negb (free_empty_dicts kvs) || bool_decide (d = None) || negb (size =? 0) || paused then Some kvs
  else Some (set_dicts kvs (<[Z.to_nat didx := None]> (dicts kvs)) (s32 (allocated_dicts kvs - 1))).

(** ** Creation and clearing *)

Fixpoint create_loop (kvs : kvstore) (i : Z) (n : nat) : option kvstore :=
  match n with
  | O => Some kvs
  | S n => '(kvs, _) ← createDictIfNeeded kvs i; create_loop kvs (i + 1) n
  end.

Definition kvstoreCreate (bits : Z) (on_demand free_empty : bool) : option kvstore :=
  _ ← assert_true (bits <=? 16);
  let n := Z.shiftl 1 bits in
  let kvs := {| allocate_on_demand := on_demand; free_empty_dicts := free_empty; dicts := replicate (Z.to_nat n) None;
                num_dicts := n; num_dicts_bits := bits; resize_cursor := 0; allocated_dicts := 0;
                non_empty_dicts := 0; key_count := 0;
                dict_size_index := if n >? 1 then Some (replicate (Z.to_nat (n + 1)) 0) else None |} in
  if negb on_demand then create_loop kvs 0 (Z.to_nat n) else Some kvs.

Fixpoint empty_loop (kvs : kvstore) (didx : Z) (n : nat) : option kvstore :=
  match n with
  | O => Some kvs
  | S n =>
      d ← kvstoreGetDict kvs didx;
      kvs ← match d with
            | None => Some kvs
            | Some d => freeDictIfNeeded (put_dict kvs didx (Some (dictEmpty d))) didx
            end;
      empty_loop kvs (didx + 1) n
  end.

Definition kvstoreEmpty (kvs : kvstore) : option kvstore :=
  kvs ← empty_loop kvs 0 (Z.to_nat (num_dicts kvs));
  Some (set_resize_cursor (set_counts kvs 0 0 (match dict_size_index kvs with
    | Some _ => Some (replicate (Z.to_nat (num_dicts kvs + 1)) 0) | None => None end)) 0).

(** ** Finding dictionaries *)

Definition index_body (kvs : kvstore) (st : Z * Z * Z) : option (Z * Z * Z + Z) :=
  let '(i, result, target) := st in
  if i =? 0 then Some (inr result)
  else
    let current := result + i in
    v ← index_get kvs current;
    if target >? v then Some (inl (Z.shiftr i 1, current, u64 (target - v)))
    else Some (inl (Z.shiftr i 1, result, target)).

Definition kvstoreFindDictIndexByKeyIndex (kvs : kvstore) (target : Z) : option Z :=
  size ← kvstoreSize kvs;
  if (num_dicts kvs =? 1) || (size =? 0) then Some 0
  else
    _ ← assert_true (target <=? size);
    loop (tree_fuel kvs) (index_body kvs) (Z.shiftl 1 (num_dicts_bits kvs), 0, target).

(** [rnd] is the result of [randomULong]. *)
Definition kvstoreGetFairRandomDictIndex (kvs : kvstore) (rnd : Z) : option Z :=
  size ← kvstoreSize kvs;
  kvstoreFindDictIndexByKeyIndex kvs (if negb (size =? 0) then u64 (rnd mod size + 1) else 0).

Definition kvstoreGetFirstNonEmptyDictIndex (kvs : kvstore) : option Z := kvstoreFindDictIndexByKeyIndex kvs 1.

Definition kvstoreGetNextNonEmptyDictIndex (kvs : kvstore) (didx : Z) : option Z :=
  if num_dicts kvs =? 1 then _ ← assert_true (didx =? 0); Some (-1)
  else
    count ← cumulativeKeyCountRead kvs didx;
    let next_key := u64 (count + 1) in
    size ← kvstoreSize kvs;
    if next_key <=? size then kvstoreFindDictIndexByKeyIndex kvs next_key else Some (-1).

Definition kvstoreNumNonEmptyDicts (kvs : kvstore) : Z := non_empty_dicts kvs.
Definition kvstoreNumAllocatedDicts (kvs : kvstore) : Z := allocated_dicts kvs.
Definition kvstoreNumDicts (kvs : kvstore) : Z := num_dicts kvs.

(** ** Scanning *)

(** [onlydidx] is -1 for all dictionaries; the callback does not change the dictionary. *)
Definition kvstoreScan (kvs : kvstore) (cursor onlydidx : Z) (skip_cb : option (dict -> bool)) :
    option (kvstore * Z * list entry) :=
  let '(didx, cursor) := getAndClearDictIndexFromCursor kvs cursor in
  if (onlydidx >=? 0) && (didx >? onlydidx) then Some (kvs, 0, [])
  else
    '(didx, cursor) ← (if (onlydidx >=? 0) && (didx <? onlydidx) then
                         _ ← assert_true (onlydidx <? num_dicts kvs); Some (onlydidx, 0)
                       else Some (didx, cursor));
    d ← kvstoreGetDict kvs didx;
    let skip := match d, skip_cb with None, _ => true | Some d, Some f => f d | Some _, None => false end in
    '(kvs, _cursor, out) ←
      match d with
      | Some d =>
          if skip then Some (kvs, 0, [])
          else
            '(d, _cursor, out) ← dictScan d cursor;
            kvs ← freeDictIfNeeded (put_dict kvs didx (Some d)) didx;
            Some (kvs, _cursor, out)
      | None => Some (kvs, 0, [])
      end;
    if (_cursor =? 0) || skip then
      if onlydidx >=? 0 then Some (kvs, 0, out)
      else
        didx ← kvstoreGetNextNonEmptyDictIndex kvs didx;
        if didx =? -1 then Some (kvs, 0, out) else Some (kvs, addDictIndexToCursor kvs didx _cursor, out)
    else Some (kvs, addDictIndexToCursor kvs didx _cursor, out).

(** ** Operations on one dictionary *)

Definition kvstoreDictFetchValue (kvs : kvstore) (didx : Z) (key : dkey) : option (kvstore * option dval) :=
  d ← kvstoreGetDict kvs didx;
  match d with
  | None => Some (kvs, None)
  | Some d => '(d, v) ← dictFetchValue resize d key; Some (put_dict kvs didx (Some d), v)
  end.

Definition kvstoreDictFind (kvs : kvstore) (didx : Z) (key : dkey) : option (kvstore * option eref) :=
  d ← kvstoreGetDict kvs didx;
  match d with
  | None => Some (kvs, None)
  | Some d => '(d, r) ← dictFind resize d key; Some (put_dict kvs didx (Some d), r)
  end.

Definition kvstoreDictAddRaw (kvs : kvstore) (didx : Z) (key : dkey) : option (kvstore * (eref + eref)) :=
  '(kvs, d) ← createDictIfNeeded kvs didx;
  '(d, ret) ← dictAddRaw resize d key;
  let kvs := put_dict kvs didx (Some d) in
  match ret with
  | inl e => kvs ← cumulativeKeyCountAdd kvs didx 1; Some (kvs, inl e)
  | inr existing => Some (kvs, inr existing)
  end.

Definition kvstoreDictSetVal (kvs : kvstore) (didx : Z) (de : eref) (val : dval) : option kvstore :=
  d ← kvstoreGetDict kvs didx; d ← d;
  d ← dictSetVal d de val;
  Some (put_dict kvs didx (Some d)).

Definition kvstoreDictTwoPhaseUnlinkFind (kvs : kvstore) (didx : Z) (key : dkey) : option (kvstore * option eref) :=
  d ← kvstoreGetDict kvs didx;
  match d with
  | None => Some (kvs, None)
  | Some d => '(d, r) ← dictTwoPhaseUnlinkFind resize d key; Some (put_dict kvs didx (Some d), r)
  end.

Definition kvstoreDictTwoPhaseUnlinkFree (kvs : kvstore) (didx : Z) (he : option eref) : option kvstore :=
  d ← kvstoreGetDict kvs didx; d ← d;
  d ← dictTwoPhaseUnlinkFree resize d he;
  kvs ← cumulativeKeyCountAdd (put_dict kvs didx (Some d)) didx (-1);
  freeDictIfNeeded kvs didx.

(** The boolean is [DICT_OK]. *)
Definition kvstoreDictDelete (kvs : kvstore) (didx : Z) (key : dkey) : option (kvstore * bool) :=
  d ← kvstoreGetDict kvs didx;
  match d with
  | None => Some (kvs, false)
  | Some d =>
      '(d, ok) ← DictOps.dictDelete resize d key;
      let kvs := put_dict kvs didx (Some d) in
      if (ok : bool) then
        kvs ← cumulativeKeyCountAdd kvs didx (-1);
        kvs ← freeDictIfNeeded kvs didx;
        Some (kvs, true)
      else Some (kvs, false)
  end.

Definition kvstoreDictExpand (kvs : kvstore) (didx size : Z) : option (kvstore * bool) :=
  d ← kvstoreGetDict kvs didx;
  match d with
  | None => Some (kvs, false)
  | Some d => '(d, ok) ← dictExpand d size; Some (put_dict kvs didx (Some d), ok)
  end.

(** [try_expand] is [None] for 0, and what allocations fail for 1. *)
Fixpoint expand_loop (kvs : kvstore) (newsize : Z) (try_expand : option (Z -> bool)) (skip_cb : Z -> bool) (i : Z) (n : nat) :
    option (kvstore * bool) :=
  match n with
  | O => Some (kvs, true)
  | S n =>
      d ← kvstoreGetDict kvs i;
      match d with
      | None => expand_loop kvs newsize try_expand skip_cb (i + 1) n
      | Some d =>
          if skip_cb i then expand_loop kvs newsize try_expand skip_cb (i + 1) n
          else
            '(d, ok) ← match try_expand with Some fails => dictTryExpand d newsize (fails i) | None => dictExpand d newsize end;
            let kvs := put_dict kvs i (Some d) in
            if bool_decide (is_Some try_expand) && negb ok then Some (kvs, false)
            else expand_loop kvs newsize try_expand skip_cb (i + 1) n
      end
  end.

Definition kvstoreExpand (kvs : kvstore) (newsize : Z) (try_expand : option (Z -> bool)) (skip_cb : Z -> bool) : option (kvstore * bool) :=
  expand_loop kvs newsize try_expand skip_cb 0 (Z.to_nat (num_dicts kvs)).

Fixpoint resize_loop (kvs : kvstore) (n : nat) : option kvstore :=
  match n with
  | O => Some kvs
  | S n =>
      let didx := resize_cursor kvs in
      d ← kvstoreGetDict kvs didx;
      kvs ← match d with
            | None => Some kvs
            | Some d =>
                '(d, ok) ← dictShrinkIfNeeded resize d;
                if (ok : bool) then Some (put_dict kvs didx (Some d))
                else '(d, _) ← dictExpandIfNeeded resize d; Some (put_dict kvs didx (Some d))
            end;
      resize_loop (set_resize_cursor kvs (Z.rem (didx + 1) (num_dicts kvs))) n
  end.

Definition kvstoreTryResizeDicts (kvs : kvstore) (limit : Z) : option kvstore :=
  resize_loop kvs (Z.to_nat (Z.min limit (num_dicts kvs))).
End Kvstore.
