(* ===== verification/KvstoreFacts.v ===== *)
(** * Key-value stores: the binary indexed tree, and the invariant *)
From S2P Require Import Prelude Dict DictOps DictFacts DictRehash DictFind DictUpdate DictScanFacts DictProps Kvstore.

(** ** The lowest bit *)

Lemma lowbit_double j : lowbit (2 * j) = 2 * lowbit j.
Proof.
  unfold lowbit. replace (2 * j) with (Z.shiftl j 1) by (rewrite Z.shiftl_mul_pow2; lia).
  replace (- Z.shiftl j 1) with (Z.shiftl (- j) 1) by (rewrite !Z.shiftl_mul_pow2; lia).
  rewrite <- Z.shiftl_land, Z.shiftl_mul_pow2; lia.
Qed.

Lemma lowbit_odd q : lowbit (2 * q + 1) = 1.
Proof.
  unfold lowbit. apply Z.bits_inj'. intros n Hn. rewrite Z.land_spec. destruct (Z.eq_dec n 0) as [->|Hz].
  - rewrite Z.testbit_odd_0. replace (- (2 * q + 1)) with (2 * (- q - 1) + 1) by lia. by rewrite Z.testbit_odd_0.
  - assert (exists m, n = Z.succ m /\ 0 <= m) as (m & -> & Hm) by (exists (n - 1); lia). rewrite Z.testbit_odd_succ by lia.
    replace (- (2 * q + 1)) with (2 * (- q - 1) + 1) by lia. rewrite Z.testbit_odd_succ by lia.
    change 1 with (2 * 0 + 1) at 2. rewrite Z.testbit_odd_succ by lia.
    replace (- q - 1) with (Z.lnot q) by (unfold Z.lnot; lia). rewrite Z.lnot_spec by lia. rewrite Z.bits_0. by destruct (Z.testbit q m).
Qed.

(** A positive number is an odd multiple of a power of two, its lowest bit. *)
Lemma lowbit_spec i : 0 < i -> exists k q, 0 <= k /\ 0 <= q /\ lowbit i = 2 ^ k /\ i = (2 * q + 1) * 2 ^ k.
Proof.
  intros Hi. assert (1 <= i) as H1 by lia. clear Hi. revert i H1. apply Zlt_lower_bound_ind. intros i IH Hi.
  destruct (Z.Even_or_Odd i) as [[j ->]|[q ->]].
  - destruct (IH j) as (k & q & Hk & Hq & E & Ej); [lia|]. exists (k + 1), q. rewrite lowbit_double, E, Z.pow_add_r by lia.
    split; [lia|]. split; [lia|]. split; lia.
  - exists 0, q. rewrite lowbit_odd. split; [lia|]. split; lia.
Qed.

Lemma lowbit_range i : 0 < i -> 1 <= lowbit i <= i.
Proof. intros Hi. destruct (lowbit_spec i Hi) as (k & q & Hk & Hq & -> & E). pose proof (Z.pow_pos_nonneg 2 k). nia. Qed.

(** The bit [k] of a multiple of [2^k]: either it is the lowest one, or the number is a multiple of [2^(k+1)]. *)
Lemma lowbit_mult i k : 0 < i -> 0 <= k -> (2 ^ k | i) -> lowbit i = 2 ^ k \/ (2 ^ (k + 1) | i).
Proof.
  intros Hi Hk [m Hm]. destruct (Z.Even_or_Odd m) as [[j ->]|[q ->]].
  - right. exists j. rewrite Z.pow_add_r by lia. lia.
  - left. subst i. revert Hi. pattern k. apply natlike_ind; [|clear k Hk; intros k Hk IH|done].
    + intros _. rewrite Z.pow_0_r, Z.mul_1_r. apply lowbit_odd.
    + intros Hi. rewrite Z.pow_succ_r by lia. replace ((2 * q + 1) * (2 * 2 ^ k)) with (2 * ((2 * q + 1) * 2 ^ k)) by lia.
      rewrite lowbit_double, IH; [done|]. rewrite Z.pow_succ_r in Hi by lia. lia.
Qed.

Lemma lowbit_next i : 0 < i -> exists k, 0 <= k /\ lowbit i = 2 ^ k /\ (2 ^ k | i) /\ (2 ^ (k + 1) | i - lowbit i) /\ (2 ^ (k + 1) | i + lowbit i).
Proof.
  intros Hi. destruct (lowbit_spec i Hi) as (k & q & Hk & Hq & E & Ei). exists k. rewrite E. split; [done|]. split; [done|].
  rewrite !Z.pow_add_r by lia. split; [by exists (2 * q + 1)|]. split; [exists q; lia|exists (q + 1); lia].
Qed.

(** The lowest bit of a multiple of [2^k] is at least [2^k]. *)
Lemma lowbit_ge i k : 0 < i -> 0 <= k -> (2 ^ k | i) -> 2 ^ k <= lowbit i.
Proof.
  intros Hi Hk [m Hm]. destruct (lowbit_spec i Hi) as (j & q & Hj & Hq & -> & Ei).
  destruct (Z.le_gt_cases k j) as [Hle|Hgt]; [by apply Z.pow_le_mono_r|]. exfalso.
  assert (2 * q + 1 = 2 * (m * 2 ^ (k - j - 1))) as E; [|lia].
  apply (Z.mul_reg_r _ _ (2 ^ j)); [apply Z.pow_nonzero; lia|]. rewrite <- Ei, Hm.
  replace (2 ^ k) with (2 * 2 ^ (k - j - 1) * 2 ^ j); [lia|].
  rewrite <- (Z.pow_1_r 2) at 1. rewrite <- !Z.pow_add_r by lia. f_equal. lia.
Qed.

(** ** Prefix sums *)

Definition zsum (c : list Z) : Z := foldr Z.add 0 c.
Definition psum (c : list Z) (i : Z) : Z := zsum (take (Z.to_nat i) c).

Lemma zsum_app a b : zsum (a ++ b) = zsum a + zsum b.
Proof. unfold zsum. induction a as [|x a IH]; simpl; [done|]. rewrite IH. lia. Qed.

Lemma psum_0 c : psum c 0 = 0.
Proof. done. Qed.

Lemma psum_step c i x : 0 <= i -> c !! Z.to_nat i = Some x -> psum c (i + 1) = psum c i + x.
Proof.
  intros Hi Hx. unfold psum. replace (Z.to_nat (i + 1)) with (S (Z.to_nat i)) by lia.
  rewrite (take_S_r c _ x Hx), zsum_app. unfold zsum at 2. simpl. lia.
Qed.

Lemma psum_all c i : zlen c <= i -> psum c i = zsum c.
Proof. intros Hi. unfold psum. rewrite take_ge; [done|]. unfold zlen in Hi. lia. Qed.

Lemma zsum_nonneg c : Forall (Z.le 0) c -> 0 <= zsum c.
Proof. unfold zsum. induction 1; simpl; lia. Qed.

Lemma psum_mono c i j : Forall (Z.le 0) c -> 0 <= i <= j -> psum c i <= psum c j.
Proof.
  intros Hc Hij. unfold psum. rewrite <- (take_drop (Z.to_nat i) (take (Z.to_nat j) c)), zsum_app, take_take.
  replace (Z.to_nat i `min` Z.to_nat j)%nat with (Z.to_nat i) by lia.
  enough (0 <= zsum (drop (Z.to_nat i) (take (Z.to_nat j) c))) by lia. by apply zsum_nonneg, Forall_drop, Forall_take.
Qed.

Lemma psum_range c i : Forall (Z.le 0) c -> 0 <= i -> 0 <= psum c i <= zsum c.
Proof.
  intros Hc Hi. pose proof (psum_mono c 0 i Hc ltac:(lia)) as H0. rewrite psum_0 in H0.
  pose proof (psum_mono c i (Z.max i (zlen c)) Hc ltac:(lia)) as H1. rewrite (psum_all c (Z.max i (zlen c))) in H1 by lia. lia.
Qed.

(** Changing one element. *)
Lemma zsum_insert c p x y : c !! p = Some x -> zsum (<[p := y]> c) = zsum c + (y - x).
Proof.
  intros Hx. rewrite insert_take_drop by (by eapply lookup_lt_Some). rewrite <- (take_drop_middle c p x Hx) at 3.
  rewrite !zsum_app. unfold zsum. simpl. lia.
Qed.

Lemma psum_insert c p x y i : 0 <= i -> 0 <= p -> c !! Z.to_nat p = Some x ->
  psum (<[Z.to_nat p := y]> c) i = psum c i + (if p <? i then y - x else 0).
Proof.
  intros Hi Hp Hx. unfold psum. destruct (Z.ltb_spec p i).
  - rewrite take_insert_lt by lia. rewrite (zsum_insert _ _ x); [lia|]. rewrite lookup_take_lt by lia. done.
  - rewrite take_insert_ge by lia. lia.
Qed.

(** ** The tree *)

Definition tree_ok (c tree : list Z) : Prop :=
  zlen tree = zlen c + 1 /\
  forall i, 1 <= i <= zlen c -> tree !! Z.to_nat i = Some (psum c i - psum c (i - lowbit i)).

(** The largest multiple of [2^(b+1)] up to [2^b]. *)
Lemma mult_small i k b : 0 <= i <= 2 ^ b -> 0 <= b < k -> (2 ^ k | i) -> i = 0.
Proof.
  intros Hi Hk [m Hm]. assert (2 ^ b < 2 ^ k) by (apply Z.pow_lt_mono_r; lia). destruct (Z.eq_dec m 0) as [->|]; [lia|]. nia.
Qed.

Section Tree.
Context `{T : DictType} (c : list Z) (b : Z) (Hb : 0 <= b <= 16) (Hlen : zlen c = 2 ^ b) (Hpos : Forall (Z.le 0) c) (Hsum : zsum c < 2 ^ 59).

Lemma tree_get kvs tree i : dict_size_index kvs = Some tree -> tree_ok c tree -> 1 <= i <= 2 ^ b ->
  index_get kvs i = Some (psum c i - psum c (i - lowbit i)).
Proof.
  intros Ei [_ Ht] Hi. unfold index_get. rewrite Ei. cbn [mbind option_bind]. replace (0 <=? i) with true by lia. apply Ht. lia.
Qed.

Lemma node_range i : 1 <= i <= 2 ^ b -> 0 <= psum c i - psum c (i - lowbit i) < 2 ^ 59.
Proof.
  intros Hi. pose proof (lowbit_range i ltac:(lia)). pose proof (psum_mono c (i - lowbit i) i Hpos ltac:(lia)).
  pose proof (psum_range c i Hpos ltac:(lia)). pose proof (psum_range c (i - lowbit i) Hpos ltac:(lia)). lia.
Qed.

Lemma tree_read kvs tree i0 fuel : forall idx sum k, dict_size_index kvs = Some tree -> tree_ok c tree ->
  0 <= i0 <= 2 ^ b -> 0 <= idx <= i0 -> 0 <= k -> (2 ^ k | idx) -> b + 1 - k < Z.of_nat fuel -> sum = psum c i0 - psum c idx -> (k <= b + 1) ->
  loop (S fuel) (count_body kvs) (idx, sum) = Some (psum c i0).
Proof.
  induction fuel as [|fuel IH]; intros idx sum k Ei Ht Hi0 Hidx Hk Hdiv Hf Hs Hkb; [lia|].
  rewrite loop_step. unfold count_body at 1. pose proof (psum_range c i0 Hpos ltac:(lia)). destruct (Z.gtb_spec idx 0) as [Hgt|Hle].
  - rewrite (tree_get kvs tree idx Ei Ht) by lia. cbn [mbind option_bind].
    destruct (lowbit_next idx Hgt) as (j & Hj & El & Hj1 & Hj2 & _). pose proof (lowbit_range idx Hgt) as Hlr.
    pose proof (lowbit_ge idx k Hgt Hk Hdiv) as Hge. assert (k <= j) as Hkj.
    { destruct (Z.le_gt_cases k j); [done|]. rewrite El in Hge. assert (2 ^ j < 2 ^ k) by (apply Z.pow_lt_mono_r; lia). lia. }
    destruct (Z.le_gt_cases j b) as [Hjb|Hjb].
    2: { exfalso. assert (idx = 0) by (apply (mult_small idx j b); [lia|lia|done]). lia. }
    pose proof (psum_range c (idx - lowbit idx) Hpos ltac:(lia)). pose proof (psum_mono c (idx - lowbit idx) i0 Hpos ltac:(lia)).
    apply (IH _ _ (j + 1)); [done|done|done|lia|lia|done|lia| |lia].
    rewrite wrapu_small; lia.
  - assert (idx = 0) as -> by lia. rewrite psum_0 in Hs. f_equal. lia.
Qed.

(** The nodes whose range contains the position [p]. *)
Definition covers (i p : Z) : Prop := i - lowbit i <= p < i.

Lemma covers_next i p : 0 < i -> covers i p ->
  covers (i + lowbit i) p /\ forall j, i < j < i + lowbit i -> ~ covers j p.
Proof.
  intros Hi [H1 H2]. pose proof (lowbit_range i Hi) as Hr. destruct (lowbit_next i Hi) as (k & Hk & El & Hd & _ & Hd2). split.
  - split; [|lia]. pose proof (lowbit_ge (i + lowbit i) (k + 1) ltac:(lia) ltac:(lia) Hd2) as Hg. rewrite Z.pow_add_r in Hg by lia. lia.
  - intros j Hj [H3 _]. destruct (lowbit_spec j ltac:(lia)) as (m & q & Hm & Hq & Ej & Eq). destruct Hd as [a Ha].
    assert (m < k) as Hmk.
    { destruct (Z.lt_ge_cases m k); [done|]. exfalso.
      assert (exists w, j = w * 2 ^ k) as [w Hw].
      { exists ((2 * q + 1) * 2 ^ (m - k)). rewrite Eq, <- Z.mul_assoc, <- Z.pow_add_r by lia. do 2 f_equal. lia. }
      rewrite El, Ha, Hw in Hj. pose proof (Z.pow_pos_nonneg 2 k ltac:(lia) ltac:(lia)) as Hp2.
      assert (a < w) by (apply (Z.mul_lt_mono_pos_r (2 ^ k)); lia). assert (w < a + 1) by (apply (Z.mul_lt_mono_pos_r (2 ^ k)); lia). lia. }
    assert (exists w, i = w * 2 ^ m) as [w Hw].
    { exists (a * 2 ^ (k - m)). rewrite <- Z.mul_assoc, <- Z.pow_add_r by lia. rewrite Ha. do 2 f_equal. lia. }
    rewrite Ej in H3. pose proof (Z.pow_pos_nonneg 2 m ltac:(lia) ltac:(lia)) as Hp2.
    assert (w < 2 * q + 1) by (apply (Z.mul_lt_mono_pos_r (2 ^ m)); lia). assert (w * 2 ^ m <= (2 * q) * 2 ^ m) by (apply Z.mul_le_mono_nonneg_r; lia). lia.
Qed.

Lemma covers_first p : 0 <= p -> covers (p + 1) p /\ forall j, 0 < j < p + 1 -> ~ covers j p.
Proof. intros Hp. pose proof (lowbit_range (p + 1) ltac:(lia)). unfold covers. split; [lia|]. intros j Hj. lia. Qed.

#[local] Instance covers_dec i p : Decision (covers i p).
Proof. unfold covers. apply _. Defined.

Section Add.
  Context (p x delta : Z) (Hp : 0 <= p < 2 ^ b) (Hx : c !! Z.to_nat p = Some x) (Hnew : 0 <= x + delta) (Hsum' : zsum c + delta < 2 ^ 59).
  Notation c' := (<[Z.to_nat p := x + delta]> c).
  Notation node i := (psum c i - psum c (i - lowbit i)).

Lemma node_changed i : 1 <= i -> psum c' i - psum c' (i - lowbit i) = node i + (if decide (covers i p) then delta else 0).
Proof.
  intros Hi. pose proof (lowbit_range i ltac:(lia)). rewrite !(psum_insert c p x) by (done || lia). unfold covers. case_decide as Hc.
  - replace (p <? i) with true by lia. replace (p <? i - lowbit i) with false by lia. lia.
  - destruct (Z.ltb_spec p i); destruct (Z.ltb_spec p (i - lowbit i)); lia.
Qed.

Lemma new_pos : Forall (Z.le 0) c'.
Proof. apply Forall_insert; [done|lia]. Qed.

(** The tree while the nodes below [idx] have been changed. *)
Definition tree_mid (idx : Z) (tree : list Z) : Prop :=
  zlen tree = zlen c + 1 /\
  forall i, 1 <= i <= zlen c -> tree !! Z.to_nat i = Some (node i + (if decide (i < idx /\ covers i p) then delta else 0)).

Lemma covered_node i : 1 <= i <= 2 ^ b -> covers i p -> 0 <= node i + delta < 2 ^ 59 /\ 0 <= node i < 2 ^ 59.
Proof.
  intros Hi Hc. pose proof (node_changed i ltac:(lia)) as E. rewrite decide_True in E by done.
  pose proof (lowbit_range i ltac:(lia)). pose proof (psum_mono c' (i - lowbit i) i new_pos ltac:(lia)).
  pose proof (psum_range c' i new_pos ltac:(lia)). pose proof (psum_range c' (i - lowbit i) new_pos ltac:(lia)).
  rewrite (zsum_insert c _ x) in * by done. pose proof (node_range i Hi). lia.
Qed.

Lemma tree_mid_done idx tree : tree_mid idx tree -> 2 ^ b < idx -> tree_ok c' tree.
Proof.
  intros [Htl Ht] Hgt. split; [rewrite Htl; unfold zlen; by rewrite length_insert|]. intros i Hi. unfold zlen in Hi. rewrite length_insert in Hi.
  fold (zlen c) in Hi. rewrite Ht by done. f_equal. rewrite node_changed by lia. do 2 case_decide; lia || (exfalso; naive_solver lia).
Qed.

Lemma tree_add fuel : forall idx tree k, tree_mid idx tree -> 0 < idx -> covers idx p -> 0 <= k -> (2 ^ k | idx) -> b + 1 - k < Z.of_nat fuel ->
  exists tree', loop (S fuel) (add_body (2 ^ b) delta) (idx, tree) = Some tree' /\ tree_ok c' tree'.
Proof.
  induction fuel as [|fuel IH]; intros idx tree k Hmid Hidx Hc Hk Hdiv Hf; pose proof Hmid as [Htl Ht].
  - rewrite loop_step. unfold add_body at 1. destruct (Z.leb_spec idx (2 ^ b)) as [Hle|Hgt].
    { exfalso. assert (idx = 0); [|lia]. apply (mult_small idx k b); [lia|lia|done]. }
    exists tree. split; [done|]. by apply (tree_mid_done idx).
  - rewrite loop_step. unfold add_body at 1. destruct (Z.leb_spec idx (2 ^ b)) as [Hle|Hgt].
    + rewrite Ht by lia. rewrite decide_False by lia. rewrite Z.add_0_r. cbn [mbind option_bind].
      destruct (covered_node idx ltac:(lia) Hc) as [Hn1 Hn2].
      replace (negb (delta <? 0) || (node idx >=? Z.abs delta)) with true by (symmetry; destruct (Z.ltb_spec delta 0); [apply Z.geb_le; lia|done]).
      cbn [mbind option_bind assert_true]. destruct (lowbit_next idx Hidx) as (j & Hj & El & _ & _ & Hj2). pose proof (lowbit_ge idx k Hidx Hk Hdiv) as Hge.
      assert (k <= j) as Hkj.
      { destruct (Z.le_gt_cases k j); [done|]. rewrite El in Hge. assert (2 ^ j < 2 ^ k) by (apply Z.pow_lt_mono_r; lia). lia. }
      destruct (covers_next idx p Hidx Hc) as [Hc2 Hno]. pose proof (lowbit_range idx Hidx).
      apply (IH _ _ (j + 1)); [|lia|done|lia|done|lia]. split; [unfold zlen; rewrite length_insert; exact Htl|].
      intros i Hi. destruct (decide (i = idx)) as [->|Hne].
      * rewrite list_lookup_insert_eq by (unfold zlen in *; lia). rewrite decide_True by (split; [lia|done]). by rewrite wrapu_small by lia.
      * rewrite list_lookup_insert_ne by lia. rewrite Ht by done. f_equal. f_equal. do 2 case_decide; try done; exfalso; [naive_solver lia|].
        destruct (decide (i < idx)); [naive_solver|]. apply (Hno i); [naive_solver lia|naive_solver].
    + exists tree. split; [done|]. by apply (tree_mid_done idx).
Qed.

Lemma tree_add_ok tree fuel : tree_ok c tree -> b + 1 < Z.of_nat fuel ->
  exists tree', loop (S fuel) (add_body (2 ^ b) delta) (p + 1, tree) = Some tree' /\ tree_ok c' tree'.
Proof.
  intros [Htl Ht] Hf. destruct (covers_first p ltac:(lia)) as [Hc Hno]. apply (tree_add fuel (p + 1) tree 0); [|lia|done|lia|apply Z.divide_1_l|lia].
  split; [done|]. intros i Hi. rewrite Ht by done. f_equal. rewrite decide_False; [lia|]. intros [H1 H2]. apply (Hno i); [lia|done].
Qed.
End Add.

(** The position of the key number [t]. *)
Definition position (t r : Z) : Prop := 0 <= r < 2 ^ b /\ psum c r < t <= psum c (r + 1).

Lemma node_bit r k : 0 <= k -> 0 <= r -> (2 ^ (k + 1) | r) -> lowbit (r + 2 ^ k) = 2 ^ k.
Proof.
  intros Hk Hr [m Hm]. destruct (lowbit_mult (r + 2 ^ k) k) as [E|[q Hq]]; [pose proof (Z.pow_pos_nonneg 2 k); lia|done| |done|].
  - exists (2 * m + 1). rewrite Z.pow_add_r in Hm by lia. lia.
  - exfalso. rewrite Z.pow_add_r in Hm, Hq by lia. pose proof (Z.pow_pos_nonneg 2 k ltac:(lia) ltac:(lia)).
    assert (2 * q = 2 * m + 1); [|lia]. apply (Z.mul_reg_r _ _ (2 ^ k)); lia.
Qed.

Lemma tree_find kvs tree t fuel : forall k r target, dict_size_index kvs = Some tree -> tree_ok c tree ->
  0 <= k -> k + 2 <= Z.of_nat fuel -> 0 <= r -> (2 ^ (k + 1) | r) -> r + 2 ^ (k + 1) <= 2 ^ b -> target = t - psum c r ->
  psum c r < t <= psum c (r + 2 ^ (k + 1)) ->
  exists r', loop fuel (index_body kvs) (2 ^ k, r, target) = Some r' /\ position t r'.
Proof.
  induction fuel as [|fuel IH]; intros k r target Ei Ht Hk Hf Hr Hdiv Hle Htg Hpsum; [lia|].
  rewrite loop_step. unfold index_body at 1. pose proof (Z.pow_pos_nonneg 2 k ltac:(lia) ltac:(lia)) as Hp2.
  replace (2 ^ k =? 0) with false by lia. rewrite Z.pow_add_r, Z.pow_1_r in * by lia.
  rewrite (tree_get kvs tree (r + 2 ^ k) Ei Ht) by lia. cbn [mbind option_bind].
  assert (lowbit (r + 2 ^ k) = 2 ^ k) as El by (apply node_bit; [done|done|by rewrite Z.pow_add_r by lia]). rewrite El.
  replace (r + 2 ^ k - 2 ^ k) with r by lia. pose proof (psum_range c r Hpos Hr). pose proof (psum_range c (r + 2 ^ k * 2) Hpos ltac:(lia)).
  pose proof (psum_range c (r + 2 ^ k) Hpos ltac:(lia)). pose proof (psum_mono c r (r + 2 ^ k) Hpos ltac:(lia)).
  assert (forall r1, r1 = r \/ r1 = r + 2 ^ k -> psum c r1 < t <= psum c (r1 + 2 ^ k) -> 0 <= t ->
    exists r', loop fuel (index_body kvs) (Z.shiftr (2 ^ k) 1, r1, t - psum c r1) = Some r' /\ position t r') as Hnext.
  { intros r1 Hr1 Hps Ht0. destruct (Z.eq_dec k 0) as [->|Hk0].
    - change (Z.shiftr (2 ^ 0) 1) with 0. destruct fuel as [|fuel]; [lia|]. rewrite loop_step. exists r1. split; [done|].
      change (2 ^ 0) with 1 in *. split; [|done]. lia.
    - replace (Z.shiftr (2 ^ k) 1) with (2 ^ (k - 1)).
      2: { rewrite Z.shiftr_div_pow2 by lia. replace k with (1 + (k - 1)) at 2 by lia. rewrite Z.pow_add_r by lia. by rewrite Z.mul_comm, Z.div_mul. }
      assert (2 ^ (k - 1 + 1) = 2 ^ k) as Ek by (f_equal; lia).
      apply (IH (k - 1)); rewrite ?Ek; [done|done|lia|lia|lia| |lia|done|done]. destruct Hdiv as [m Hm]. destruct Hr1 as [-> | ->]; [exists (m * 2)|exists (m * 2 + 1)]; lia. }
  destruct (Z.gtb_spec target (psum c (r + 2 ^ k) - psum c r)) as [Hgt|Hngt].
  - rewrite wrapu_small by lia. replace (target - (psum c (r + 2 ^ k) - psum c r)) with (t - psum c (r + 2 ^ k)) by lia.
    apply Hnext; [by right| |lia]. replace (r + 2 ^ k + 2 ^ k) with (r + 2 ^ k * 2) by lia. lia.
  - subst target. apply Hnext; [by left|lia|lia].
Qed.

Lemma tree_find_ok kvs tree t fuel : dict_size_index kvs = Some tree -> tree_ok c tree -> 1 <= b -> b + 2 < Z.of_nat fuel ->
  1 <= t <= zsum c -> exists r, loop fuel (index_body kvs) (Z.shiftl 1 b, 0, t) = Some r /\ position t r.
Proof.
  intros Ei Ht Hb1 Hf Htr. destruct fuel as [|fuel]; [lia|]. rewrite loop_step. unfold index_body at 1. rewrite Z.shiftl_mul_pow2, Z.mul_1_l by lia.
  pose proof (Z.pow_pos_nonneg 2 b ltac:(lia) ltac:(lia)). replace (2 ^ b =? 0) with false by lia. rewrite Z.add_0_l.
  rewrite (tree_get kvs tree (2 ^ b) Ei Ht) by lia. cbn [mbind option_bind].
  assert (lowbit (2 ^ b) = 2 ^ b) as El by (pose proof (node_bit 0 b ltac:(lia) ltac:(lia) (Z.divide_0_r _)) as E; by rewrite Z.add_0_l in E).
  rewrite El, Z.sub_diag, psum_0, Z.sub_0_r, psum_all by lia. replace (t >? zsum c) with false by lia.
  replace (Z.shiftr (2 ^ b) 1) with (2 ^ (b - 1)).
  2: { rewrite Z.shiftr_div_pow2 by lia. replace b with (1 + (b - 1)) at 2 by lia. rewrite Z.pow_add_r by lia. by rewrite Z.mul_comm, Z.div_mul. }
  assert (2 ^ (b - 1 + 1) = 2 ^ b) as Ek by (f_equal; lia).
  apply (tree_find kvs tree t fuel (b - 1) 0 t); rewrite ?Ek, ?psum_0; [done|done|lia|lia|lia|apply Z.divide_0_r|lia|lia|].
  rewrite Z.add_0_l, psum_all by lia. lia.
Qed.
End Tree.

(** ** The invariant *)

Section Inv.
Context `{T : DictType} `{!DictTypeOk T false} (resize : dictResizeEnable).
Notation entry := (dkey * option dval)%type.

(** A dictionary and its entries: nothing is paused between the operations. *)
Definition dict_rel (d : option dict) (es : list entry) : Prop :=
  match d with Some d => DictInv false d es /\ pauseAutoResize d <= 0 /\ pauserehash d = 0 | None => es = [] end.

Definition sizes (ess : list (list entry)) : list Z := zlen <$> ess.
Definition total (ess : list (list entry)) : Z := zsum (sizes ess).
Definition nonempties (ess : list (list entry)) : Z := zsum ((fun es : list entry => match es with [] => 0 | _ => 1 end) <$> ess).
Definition allocateds (ds : list (option dict)) : Z := zsum ((fun d : option dict => match d with Some _ => 1 | None => 0 end) <$> ds).

Record kvs_shape (kvs : kvstore) (ess : list (list entry)) : Prop := {
  ks_bits : 0 <= num_dicts_bits kvs <= 16;
  ks_num : num_dicts kvs = 2 ^ num_dicts_bits kvs;
  ks_len : zlen ess = 2 ^ num_dicts_bits kvs;
  ks_dicts : Forall2 dict_rel (dicts kvs) ess;
  ks_alloc : allocated_dicts kvs = allocateds (dicts kvs);
  ks_cursor : 0 <= resize_cursor kvs < num_dicts kvs;
}.

Record kvs_counts (kvs : kvstore) (ess : list (list entry)) : Prop := {
  kc_keys : key_count kvs = total ess;
  kc_nonempty : non_empty_dicts kvs = nonempties ess;
  kc_tree : match dict_size_index kvs with
            | Some tree => 1 <= num_dicts_bits kvs /\ tree_ok (sizes ess) tree
            | None => num_dicts_bits kvs = 0
            end;
}.

Definition KvsInv (kvs : kvstore) (ess : list (list entry)) : Prop := kvs_shape kvs ess /\ kvs_counts kvs ess.

Lemma sizes_pos ess : Forall (Z.le 0) (sizes ess).
Proof. apply Forall_fmap, Forall_forall. intros es _. simpl. apply zlen_nonneg. Qed.

Lemma sizes_len ess : zlen (sizes ess) = zlen ess.
Proof. unfold zlen, sizes. by rewrite length_fmap. Qed.

Lemma sizes_insert ess i (es : list entry) : sizes (<[i := es]> ess) = <[i := zlen es]> (sizes ess).
Proof. unfold sizes. by rewrite list_fmap_insert. Qed.

Lemma flags_range {A} (f : A -> Z) (l : list A) : (forall x, 0 <= f x <= 1) -> 0 <= zsum (f <$> l) <= zlen l.
Proof. intros Hf. induction l as [|x l IH]; [done|]. rewrite fmap_cons. unfold zsum in *. simpl. rewrite zlen_cons. specialize (Hf x). lia. Qed.

Lemma zsum_fmap_insert {A} (f : A -> Z) (l : list A) i x y : l !! i = Some x -> zsum (f <$> <[i := y]> l) = zsum (f <$> l) + (f y - f x).
Proof. intros Hx. rewrite list_fmap_insert. apply zsum_insert. by rewrite list_lookup_fmap, Hx. Qed.

Lemma size_le_total ess i (es : list entry) : ess !! i = Some es -> zlen es <= total ess.
Proof.
  intros Hi. unfold total. rewrite <- (take_drop_middle ess i es Hi). unfold sizes. rewrite fmap_app, fmap_cons, zsum_app.
  pose proof (zsum_nonneg _ (sizes_pos (take i ess))) as H1. pose proof (zsum_nonneg _ (sizes_pos (drop (S i) ess))) as H2. unfold sizes in *.
  change (zsum (zlen es :: (zlen <$> drop (S i) ess))) with (zlen es + zsum (zlen <$> drop (S i) ess)). lia.
Qed.

Lemma keys_total_insert ess i (es es' : list entry) : ess !! i = Some es -> total (<[i := es']> ess) = total ess + (zlen es' - zlen es).
Proof. intros Hi. unfold total. rewrite sizes_insert. apply zsum_insert. unfold sizes. by rewrite list_lookup_fmap, Hi. Qed.

(** The dictionary at an index in range. *)
Lemma get_dict kvs ess i : kvs_shape kvs ess -> 0 <= i < 2 ^ num_dicts_bits kvs ->
  exists d es, kvstoreGetDict kvs i = Some d /\ dicts kvs !! Z.to_nat i = Some d /\ ess !! Z.to_nat i = Some es /\ dict_rel d es.
Proof.
  intros Hs Hi. pose proof (ks_len _ _ Hs) as Hl. unfold zlen in Hl.
  destruct (lookup_lt_is_Some_2 ess (Z.to_nat i)) as [es Hes]; [lia|]. destruct (Forall2_lookup_r _ _ _ _ _ (ks_dicts _ _ Hs) Hes) as (d & Hd & HR).
  exists d, es. unfold kvstoreGetDict. replace (0 <=? i) with true by lia. done.
Qed.

Lemma dict_rel_size d es : dict_rel d es -> zlen es < 2 ^ 59 -> match d with Some d => dictSize d | None => 0 end = zlen es.
Proof. destruct d as [d|]; simpl; [|by intros ->]. intros (HI & _) Hl. apply (dict_size d es); [apply HI|done]. Qed.

Lemma kvs_dict_size kvs ess i es : kvs_shape kvs ess -> 0 <= i < 2 ^ num_dicts_bits kvs -> ess !! Z.to_nat i = Some es -> zlen es < 2 ^ 59 ->
  kvstoreDictSize kvs i = Some (zlen es).
Proof.
  intros Hs Hi Hes Hl. destruct (get_dict kvs ess i Hs Hi) as (d & es' & E & _ & Hes' & HR). rewrite Hes in Hes'. injection Hes' as <-.
  unfold kvstoreDictSize. rewrite E. cbn [mbind option_bind]. f_equal. by apply dict_rel_size.
Qed.

Lemma single_total (ess : list (list entry)) : zlen ess = 1 -> exists es, ess = [es] /\ total ess = zlen es.
Proof.
  intros Hl. destruct ess as [|es [|es2 ess]]; [done| |].
  - exists es. split; [done|]. unfold total, sizes, zsum. simpl. lia.
  - rewrite !zlen_cons in Hl. pose proof (zlen_nonneg ess). lia.
Qed.

Lemma num_one kvs ess : kvs_shape kvs ess -> (num_dicts kvs =? 1) = (num_dicts_bits kvs =? 0).
Proof.
  intros Hs. rewrite (ks_num _ _ Hs). pose proof (ks_bits _ _ Hs). destruct (Z.eqb_spec (num_dicts_bits kvs) 0) as [->|Hn]; [done|].
  apply Z.eqb_neq. assert (2 ^ 1 <= 2 ^ num_dicts_bits kvs) by (apply Z.pow_le_mono_r; lia). lia.
Qed.

Lemma kvs_size kvs ess : KvsInv kvs ess -> total ess < 2 ^ 59 -> kvstoreSize kvs = Some (total ess).
Proof.
  intros [Hs Hc] Ht. unfold kvstoreSize. rewrite (num_one kvs ess Hs). destruct (Z.eqb_spec (num_dicts_bits kvs) 0) as [E|E]; cbn [negb]; [|by rewrite (kc_keys _ _ Hc)].
  pose proof (ks_len _ _ Hs) as Hl. rewrite E in Hl. destruct (single_total ess Hl) as (es & -> & Et). rewrite Et in *.
  apply (kvs_dict_size kvs [es] 0 es Hs); [rewrite E; lia|done|done].
Qed.

(** ** Counting *)

Lemma tree_fuel_ok kvs ess : kvs_shape kvs ess -> exists n, tree_fuel kvs = S n /\ num_dicts_bits kvs + 1 < Z.of_nat n.
Proof. intros Hs. pose proof (ks_bits _ _ Hs). eexists. split; [done|]. lia. Qed.

Lemma shape_counts kvs ess a b c : kvs_shape kvs ess -> kvs_shape (set_counts kvs a b c) ess.
Proof. intros [H1 H2 H3 H4 H5 H6]. by split. Qed.

Lemma count_add kvs ess i (es es' : list entry) delta :
  kvs_shape kvs (<[Z.to_nat i := es']> ess) -> kvs_counts kvs ess -> 0 <= i < 2 ^ num_dicts_bits kvs -> ess !! Z.to_nat i = Some es ->
  zlen es' = zlen es + delta -> delta = 1 \/ delta = -1 -> total ess + 1 < 2 ^ 59 -> kvstoreGetDict kvs i <> Some None ->
  exists kvs', cumulativeKeyCountAdd kvs i delta = Some kvs' /\ KvsInv kvs' (<[Z.to_nat i := es']> ess) /\ dicts kvs' = dicts kvs.
Proof.
  intros Hs Hc Hi Hes Hlen Hd Ht Hnn. unfold cumulativeKeyCountAdd. pose proof (size_le_total ess _ es Hes) as Hsz. pose proof (zlen_nonneg es) as H0. pose proof (zlen_nonneg es') as H0'.
  destruct (get_dict kvs _ i Hs Hi) as (d & es1 & E & _ & Hes1 & HR). rewrite E in Hnn |- *. cbn [mbind option_bind].
  rewrite list_lookup_insert_eq in Hes1 by (by eapply lookup_lt_Some). injection Hes1 as <-. destruct d as [d|]; [|done]. cbn [mbind option_bind].
  rewrite (dict_rel_size (Some d) es' HR) by lia. rewrite (num_one kvs _ Hs). rewrite (kc_keys _ _ Hc), (kc_nonempty _ _ Hc).
  pose proof (keys_total_insert ess _ es es' Hes) as Etot.
  assert (nonempties (<[Z.to_nat i := es']> ess) = nonempties ess + (if (zlen es' =? 1) && (delta >? 0) then 1 else if zlen es' =? 0 then -1 else 0)) as Ene.
  { unfold nonempties. rewrite (zsum_fmap_insert _ _ _ es es' Hes). f_equal.
    destruct es as [|e es2], es' as [|e' es2']; rewrite ?zlen_cons in *; change (zlen []) with 0 in *;
      try pose proof (zlen_nonneg es2); try pose proof (zlen_nonneg es2'); destruct Hd as [-> | ->]; cbn; try lia.
    - replace (1 + zlen es2' =? 1) with true by lia. done.
    - destruct (Z.eqb_spec (1 + zlen es2') 1); [lia|]. cbn. replace (1 + zlen es2' =? 0) with false by lia. done.
    - rewrite andb_false_r. replace (1 + zlen es2' =? 0) with false by lia. done. }
  pose proof (flags_range (fun es : list entry => match es with [] => 0 | _ => 1 end) ess) as Hfr. fold (nonempties ess) in Hfr.
  assert (zlen ess <= 2 ^ 16) as Hl16.
  { pose proof (ks_len _ _ Hs) as Hl. unfold zlen in Hl |- *. rewrite length_insert in Hl. rewrite Hl. apply Z.pow_le_mono_r; [lia|]. apply Hs. }
  assert (0 <= nonempties ess <= zlen ess) as Hne by (apply Hfr; intros [|? ?]; lia).
  change (2 ^ 16) with 65536 in Hl16. rewrite wraps_small by (destruct (_ && _); [|destruct (_ =? _)]; lia). rewrite <- Ene.
  assert (u64 (total ess + delta) = total (<[Z.to_nat i := es']> ess)) as Ek by (rewrite wrapu_small by lia; lia). rewrite Ek.
  pose proof (kc_tree _ _ Hc) as Htree. destruct (Z.eqb_spec (num_dicts_bits kvs) 0) as [Eb|Eb].
  - eexists. split; [done|]. split; [|done]. split; [by apply shape_counts|]. split; [done|done|].
    destruct (dict_size_index kvs) as [tree|] eqn:Ei; cbn; rewrite ?Ei; [lia|done].
  - destruct (dict_size_index kvs) as [tree|] eqn:Ei; [|done]. destruct Htree as [Hb1 Htree]. cbn [mbind option_bind].
    destruct (tree_fuel_ok kvs _ Hs) as (n & -> & Hn). rewrite (ks_num _ _ Hs).
    destruct (tree_add_ok (sizes ess) (num_dicts_bits kvs) (ks_bits _ _ Hs)) with (p := i) (x := zlen es) (delta := delta) (tree := tree) (fuel := n) as (tree' & -> & Htree').
    + rewrite sizes_len. pose proof (ks_len _ _ Hs) as Hl. unfold zlen in Hl |- *. by rewrite length_insert in Hl.
    + apply sizes_pos.
    + unfold total in Ht. lia.
    + done.
    + unfold sizes. by rewrite list_lookup_fmap, Hes.
    + lia.
    + unfold total in Ht. lia.
    + done.
    + done.
    + cbn [mbind option_bind]. eexists. split; [done|]. split; [|done]. split; [by apply shape_counts|]. split; [done|done|]. cbn. split; [done|].
      rewrite sizes_insert, Hlen. done.
Qed.
(** ** Changing one dictionary *)

Lemma allocs_same (ds : list (option dict)) i d d' : ds !! i = Some (Some d) -> allocateds (<[i := Some d']> ds) = allocateds ds.
Proof. intros Hd. unfold allocateds. rewrite (zsum_fmap_insert _ _ _ _ _ Hd). lia. Qed.

Lemma put_shape kvs ess i d d' es' : kvs_shape kvs ess -> dicts kvs !! Z.to_nat i = Some (Some d) -> dict_rel (Some d') es' ->
  kvs_shape (put_dict kvs i (Some d')) (<[Z.to_nat i := es']> ess).
Proof.
  intros [H1 H2 H3 H4 H5 H6] Hd HR. split; cbn; try done.
  - unfold zlen. by rewrite length_insert.
  - by apply Forall2_insert.
  - change (allocated_dicts kvs = allocateds (<[Z.to_nat i := Some d']> (dicts kvs))). rewrite H5. by rewrite (allocs_same _ _ d).
Qed.

(** The same entries, perhaps arranged anew. *)
Lemma put_same kvs ess i d d' es : KvsInv kvs ess -> dicts kvs !! Z.to_nat i = Some (Some d) -> ess !! Z.to_nat i = Some es -> dict_rel (Some d') es ->
  KvsInv (put_dict kvs i (Some d')) ess.
Proof.
  intros [Hs [H1 H2 H3]] Hd Hes HR. split; [|by split]. rewrite <- (list_insert_id ess _ es Hes). by eapply put_shape.
Qed.

Lemma dict_new : DictInv false dictCreate [].
Proof. split; [by apply Ok_empty|done|done]. Qed.

Lemma alloc_range kvs ess : kvs_shape kvs ess -> 0 <= allocateds (dicts kvs) <= 2 ^ 16.
Proof.
  intros Hs. pose proof (flags_range (fun d : option dict => match d with Some _ => 1 | None => 0 end) (dicts kvs)) as Hf.
  assert (zlen (dicts kvs) = 2 ^ num_dicts_bits kvs) as El by (rewrite <- (ks_len _ _ Hs); unfold zlen; by rewrite (Forall2_length _ _ _ (ks_dicts _ _ Hs))).
  rewrite El in Hf. fold (allocateds (dicts kvs)) in Hf. assert (2 ^ num_dicts_bits kvs <= 2 ^ 16) by (apply Z.pow_le_mono_r; [lia|apply Hs]).
  assert (0 <= allocateds (dicts kvs) <= 2 ^ num_dicts_bits kvs) by (apply Hf; intros [?|]; lia). lia.
Qed.

Lemma insert_fresh_shape kvs ess i d es a : kvs_shape kvs ess -> 0 <= i -> dict_rel d es -> ess !! Z.to_nat i = Some es ->
  a = allocateds (<[Z.to_nat i := d]> (dicts kvs)) -> kvs_shape (set_dicts kvs (<[Z.to_nat i := d]> (dicts kvs)) a) ess.
Proof.
  intros [H1 H2 H3 H4 H5 H6] Hi HR Hes ->. split; cbn; try done. rewrite <- (list_insert_id ess _ es Hes). by apply Forall2_insert.
Qed.

Lemma create_ok kvs ess i es : KvsInv kvs ess -> 0 <= i < 2 ^ num_dicts_bits kvs -> ess !! Z.to_nat i = Some es ->
  exists kvs' d, createDictIfNeeded kvs i = Some (kvs', d) /\ KvsInv kvs' ess /\ dicts kvs' !! Z.to_nat i = Some (Some d) /\ dict_rel (Some d) es /\
    num_dicts_bits kvs' = num_dicts_bits kvs.
Proof.
  intros [Hs [K1 K2 K3]] Hi Hes. unfold createDictIfNeeded. destruct (get_dict kvs ess i Hs Hi) as (d & es' & E & Ed & Hes' & HR).
  rewrite Hes in Hes'. injection Hes' as <-. rewrite E. cbn [mbind option_bind]. destruct d as [d|].
  - exists kvs, d. split; [done|]. by split.
  - simpl in HR. subst es. eexists _, _. split; [done|]. pose proof (alloc_range kvs ess Hs) as Har. change (2 ^ 16) with 65536 in Har.
    assert (dict_rel (Some dictCreate) []) as HR by (split; [apply dict_new|done]). split; [split|].
    + apply (insert_fresh_shape kvs ess i (Some dictCreate) []); [done|lia|done|done|].
      rewrite (ks_alloc _ _ Hs), wraps_small by lia. unfold allocateds. rewrite (zsum_fmap_insert _ _ _ _ _ Ed). lia.
    + by split.
    + split; [|by split]. cbn. apply list_lookup_insert_eq. by eapply lookup_lt_Some.
Qed.

(** The fields that counting keeps. *)
Definition same_counts (kvs kvs' : kvstore) : Prop :=
  key_count kvs' = key_count kvs /\ non_empty_dicts kvs' = non_empty_dicts kvs /\ dict_size_index kvs' = dict_size_index kvs /\
  num_dicts_bits kvs' = num_dicts_bits kvs /\ num_dicts kvs' = num_dicts kvs.

Lemma counts_same kvs kvs' ess : kvs_counts kvs ess -> same_counts kvs kvs' -> kvs_counts kvs' ess.
Proof. intros [H1 H2 H3] (E1 & E2 & E3 & E4 & _). split; [congruence|congruence|]. by rewrite E3, E4. Qed.

Lemma free_shape kvs ess i es : kvs_shape kvs ess -> 0 <= i < 2 ^ num_dicts_bits kvs -> ess !! Z.to_nat i = Some es -> zlen es < 2 ^ 59 ->
  exists kvs', freeDictIfNeeded kvs i = Some kvs' /\ kvs_shape kvs' ess /\ same_counts kvs kvs'.
Proof.
  intros Hs Hi Hes Hl. unfold freeDictIfNeeded, kvstoreDictIsRehashingPaused. destruct (get_dict kvs ess i Hs Hi) as (d & es' & E & Ed & Hes' & HR).
  rewrite (kvs_dict_size kvs ess i es Hs Hi Hes) by lia. rewrite E. cbn [mbind option_bind].
  destruct (negb (free_empty_dicts kvs) || _ || _ || _) eqn:Ec; [by exists kvs|].
  rewrite !orb_false_iff in Ec. destruct Ec as [[[_ Ed2] Esz] _]. apply bool_decide_eq_false in Ed2. destruct d as [d|]; [|done].
  assert (es = []) as -> by (destruct es as [|e es]; [done|]; rewrite zlen_cons in Esz; pose proof (zlen_nonneg es); lia).
  eexists. split; [done|]. pose proof (alloc_range kvs ess Hs) as Har. change (2 ^ 16) with 65536 in Har. split; [|done].
  apply (insert_fresh_shape kvs ess i None []); [done|lia|done|done|].
  assert (allocateds (<[Z.to_nat i := None]> (dicts kvs)) = allocateds (dicts kvs) - 1) as -> by (unfold allocateds; rewrite (zsum_fmap_insert _ _ _ _ _ Ed); lia).
  rewrite (ks_alloc _ _ Hs), wraps_small by lia. done.
Qed.

Lemma free_ok kvs ess i : KvsInv kvs ess -> total ess < 2 ^ 59 -> 0 <= i < 2 ^ num_dicts_bits kvs ->
  exists kvs', freeDictIfNeeded kvs i = Some kvs' /\ KvsInv kvs' ess /\ num_dicts_bits kvs' = num_dicts_bits kvs /\ num_dicts kvs' = num_dicts kvs.
Proof.
  intros [Hs Hc] Ht Hi. destruct (get_dict kvs ess i Hs Hi) as (_ & es & _ & _ & Hes & _). pose proof (size_le_total ess _ es Hes).
  destruct (free_shape kvs ess i es Hs Hi Hes ltac:(lia)) as (kvs' & E & Hs' & Hsame). exists kvs'. split; [done|].
  split; [split; [done|by eapply counts_same]|]. by destruct Hsame as (_ & _ & _ & ? & ?).
Qed.

(** ** The operations *)

Notation stored_key := (stored_key : dkey -> dkey).
Notation has_key := (has_key (T := T) false).

Lemma rel_flags d d' es es' : dict_rel (Some d) es -> same_flags d d' -> DictInv false d' es' -> dict_rel (Some d') es'.
Proof. intros (_ & H1 & H2) (F1 & _ & F3) HI. split; [done|]. split; congruence || (rewrite F3; done). Qed.

Lemma fetch_ok kvs ess i es key : no_value = false -> KvsInv kvs ess -> total ess < 2 ^ 59 -> 0 <= i < 2 ^ num_dicts_bits kvs -> ess !! Z.to_nat i = Some es ->
  exists kvs', kvstoreDictFetchValue resize kvs i key = Some (kvs', map_get false key es) /\ KvsInv kvs' ess /\ num_dicts_bits kvs' = num_dicts_bits kvs.
Proof.
  intros Hnv HK Ht Hi Hes. unfold kvstoreDictFetchValue. destruct (get_dict kvs ess i (proj1 HK) Hi) as (d & es' & E & Ed & Hes' & HR).
  rewrite Hes in Hes'. injection Hes' as <-. rewrite E. cbn [mbind option_bind]. pose proof (size_le_total ess _ es Hes).
  destruct d as [d|]; [|simpl in HR; subst es; by exists kvs].
  destruct (fetch_block false resize d es key Hnv (proj1 HR)) as (d' & -> & HI & Hf); [lia|]. cbn [mbind option_bind].
  eexists. split; [done|]. split; [|done]. eapply put_same; [done|done|done|]. by eapply rel_flags.
Qed.

Lemma find_ok kvs ess i es key : KvsInv kvs ess -> total ess < 2 ^ 59 -> 0 <= i < 2 ^ num_dicts_bits kvs -> ess !! Z.to_nat i = Some es ->
  exists kvs' r, kvstoreDictFind resize kvs i key = Some (kvs', r) /\ bool_decide (is_Some r) = has_key key es /\ KvsInv kvs' ess /\
    num_dicts_bits kvs' = num_dicts_bits kvs.
Proof.
  intros HK Ht Hi Hes. unfold kvstoreDictFind. destruct (get_dict kvs ess i (proj1 HK) Hi) as (d & es' & E & Ed & Hes' & HR).
  rewrite Hes in Hes'. injection Hes' as <-. rewrite E. cbn [mbind option_bind]. pose proof (size_le_total ess _ es Hes).
  destruct d as [d|]; [|simpl in HR; subst es; by exists kvs, None].
  destruct (dictFind_spec false resize d es key (proj1 HR)) as (d' & r & -> & HI & Hf & Hr); [lia|]. cbn [mbind option_bind].
  eexists _, r. split; [done|]. split; [|split; [|done]].
  - destruct r as [r|].
    + destruct Hr as (de & e & _ & _ & Hin & Hk). symmetry. rewrite bool_decide_eq_true_2 by done. apply has_key_true. by exists e.
    + symmetry. rewrite bool_decide_eq_false_2 by (by intros [? ?]). by apply has_key_false.
  - eapply put_same; [done|done|done|]. by eapply rel_flags.
Qed.

(** Adding a key and setting its value, as the callers do. *)
Definition kvs_add (kvs : kvstore) (i : Z) (key : dkey) (val : dval) : option (kvstore * bool) :=
  '(kvs, r) ← kvstoreDictAddRaw resize kvs i key;
  match r with
  | inr _ => Some (kvs, false)
  | inl de => kvs ← kvstoreDictSetVal kvs i de val; Some (kvs, true)
  end.

Lemma add_ok kvs ess i es key val : no_value = false -> KvsInv kvs ess -> total ess + 1 < 2 ^ 59 -> 0 <= i < 2 ^ num_dicts_bits kvs -> ess !! Z.to_nat i = Some es ->
  exists kvs', kvs_add kvs i key val = Some (kvs', negb (has_key key es)) /\ KvsInv kvs' (<[Z.to_nat i := map_add false key val es]> ess) /\
    num_dicts_bits kvs' = num_dicts_bits kvs.
Proof.
  intros Hnv HK Ht Hi Hes. unfold kvs_add, kvstoreDictAddRaw. pose proof (size_le_total ess _ es Hes) as Hsz.
  destruct (create_ok kvs ess i es HK Hi Hes) as (kvs1 & d & -> & HK1 & Ed & HR & Eb). cbn [mbind option_bind].
  destruct (add_raw_spec false resize d es key (proj1 HR)) as (d' & r & -> & Hf & Hr); [lia|left; apply HR|]. cbn [mbind option_bind].
  destruct r as [[[j x] n]|r]; cbn [mbind option_bind].
  - destruct Hr as (HI & Hno & -> & c & Hb & Hh & Hc & Hv).
    assert (has_key key es = false) as -> by (by apply has_key_false).
    assert (dict_rel (Some d') ((stored_key key, None) :: es)) as HR1 by (by eapply rel_flags).
    pose proof (put_shape kvs1 ess i d d' _ (proj1 HK1) Ed HR1) as Hs1.
    assert (dicts (put_dict kvs1 i (Some d')) !! Z.to_nat i = Some (Some d')) as Ed1 by (cbn; apply list_lookup_insert_eq; by eapply lookup_lt_Some).
    destruct (count_add (put_dict kvs1 i (Some d')) ess i es ((stored_key key, None) :: es) 1) as (kvs2 & -> & HK2 & Edd); [done| |cbn; rewrite Eb; lia|done|rewrite zlen_cons; lia|by left|lia| |].
    { destruct (proj2 HK1) as [? ? ?]. by split. }
    { unfold kvstoreGetDict. replace (0 <=? i) with true by lia. by rewrite Ed1. }
    cbn [mbind option_bind]. unfold kvstoreDictSetVal, kvstoreGetDict. replace (0 <=? i) with true by lia. rewrite Edd, Ed1. cbn [mbind option_bind].
    destruct (new_value_spec false d' es (stored_key key) j x c val HI Hb Hh Hc) as (d2 & E2 & Hf2 & HI2); [by apply Hv|]. rewrite E2. cbn [mbind option_bind].
    eexists. split; [done|]. unfold map_add. replace (DictProps.has_key false key es) with false by (symmetry; by apply has_key_false). rewrite Hnv.
    split.
    + rewrite <- (list_insert_insert_eq ess (Z.to_nat i) ((stored_key key, Some (stored_val val)) :: es) ((stored_key key, None) :: es)).
      destruct HK2 as [Hs2 [C1 C2 C3]]. split; [eapply put_shape; [done|by rewrite Edd|by eapply rel_flags]|].
      assert (forall f : list entry -> Z, f ((stored_key key, None) :: es) = f ((stored_key key, Some (stored_val val)) :: es) ->
        zsum (f <$> <[Z.to_nat i := (stored_key key, Some (stored_val val)) :: es]> (<[Z.to_nat i := (stored_key key, None) :: es]> ess)) = zsum (f <$> <[Z.to_nat i := (stored_key key, None) :: es]> ess)) as Hsame.
      { intros f Ef. rewrite (zsum_fmap_insert f _ _ ((stored_key key, None) :: es)); [lia|]. apply list_lookup_insert_eq. by eapply lookup_lt_Some. }
      split; cbn.
      * rewrite C1. symmetry. by apply (Hsame zlen).
      * rewrite C2. symmetry. by apply (Hsame (fun es => match es with [] => 0 | _ => 1 end)).
      * destruct (dict_size_index kvs2) as [tree|]; [|done]. destruct C3 as [C3 C4]. split; [done|].
        rewrite list_insert_insert_eq, sizes_insert. by rewrite sizes_insert in C4.
    + cbn. destruct HK2 as [Hs2 _]. pose proof (ks_len _ _ Hs2) as L2. pose proof (ks_len _ _ Hs1) as L1. cbn in L1. rewrite L1 in L2.
      apply Z.pow_inj_r in L2; [lia|lia|apply (ks_bits _ _ (proj1 HK1))|apply (ks_bits _ _ Hs2)].
  - destruct Hr as (HI & de & e & _ & _ & Hin & Hk).
    assert (DictProps.has_key false key es = true) as Eh by (apply has_key_true; by exists e).
    eexists. split; [by rewrite Eh|]. unfold map_add. rewrite Eh. split; [|cbn; done].
    rewrite list_insert_id by done. eapply put_same; [done|done|done|]. by eapply rel_flags.
Qed.
Lemma delete_size key es : distinct false es -> zlen (map_delete false key es) = zlen es - (if has_key key es then 1 else 0).
Proof.
  intros Hd. destruct (DictProps.has_key false key es) eqn:Eh.
  - apply has_key_true in Eh as (e & Hin & Hk). apply list_elem_of_split in Hin as (l1 & l2 & ->).
    assert (l1 ++ e :: l2 ≡ₚ e :: (l1 ++ l2)) as HP by (by rewrite Permutation_middle).
    pose proof (map_delete_split false key _ e (l1 ++ l2) Hd HP Hk) as HP2. unfold zlen. rewrite HP2, HP. simpl. lia.
  - rewrite has_key_false in Eh. unfold map_delete. rewrite filter_all_keep by done. lia.
Qed.

Lemma delete_ok kvs ess i es key : KvsInv kvs ess -> total ess + 1 < 2 ^ 59 -> 0 <= i < 2 ^ num_dicts_bits kvs -> ess !! Z.to_nat i = Some es ->
  exists kvs', kvstoreDictDelete resize kvs i key = Some (kvs', has_key key es) /\ KvsInv kvs' (<[Z.to_nat i := map_delete false key es]> ess) /\
    num_dicts_bits kvs' = num_dicts_bits kvs.
Proof.
  intros HK Ht Hi Hes. unfold kvstoreDictDelete. destruct (get_dict kvs ess i (proj1 HK) Hi) as (d & es' & E & Ed & Hes' & HR).
  rewrite Hes in Hes'. injection Hes' as <-. rewrite E. cbn [mbind option_bind]. pose proof (size_le_total ess _ es Hes).
  destruct d as [d|]; [|simpl in HR; subst es; exists kvs; by rewrite list_insert_id]. unfold dictDelete.
  destruct (map_delete_spec false resize d es key false (proj1 HR)) as (d' & r & -> & Hf & Hb & HI); [lia|]. cbn [mbind option_bind]. rewrite Hb.
  assert (dict_rel (Some d') (map_delete false key es)) as HR1 by (by eapply rel_flags).
  pose proof (put_shape kvs ess i d d' _ (proj1 HK) Ed HR1) as Hs1. pose proof (delete_size key es (di_distinct _ _ _ (proj1 HR))) as Hsz.
  destruct (DictProps.has_key false key es) eqn:Eh.
  - assert (dicts (put_dict kvs i (Some d')) !! Z.to_nat i = Some (Some d')) as Ed1 by (cbn; apply list_lookup_insert_eq; by eapply lookup_lt_Some).
    destruct (count_add (put_dict kvs i (Some d')) ess i es (map_delete false key es) (-1)) as (kvs2 & -> & HK2 & Edd); [done| |done|done|lia|by right|lia| |].
    { destruct (proj2 HK) as [? ? ?]. by split. }
    { unfold kvstoreGetDict. replace (0 <=? i) with true by lia. by rewrite Ed1. }
    assert (num_dicts_bits kvs2 = num_dicts_bits kvs) as Eb.
    { pose proof (ks_len _ _ (proj1 HK2)) as L2. pose proof (ks_len _ _ Hs1) as L1. cbn in L1. rewrite L1 in L2.
      apply Z.pow_inj_r in L2; [lia|lia|apply (ks_bits _ _ (proj1 HK))|apply (ks_bits _ _ (proj1 HK2))]. }
    cbn [mbind option_bind]. destruct (free_ok kvs2 _ i HK2) as (kvs3 & -> & HK3 & Eb3 & _); [rewrite (keys_total_insert _ _ es) by done; lia|by rewrite Eb|].
    cbn [mbind option_bind]. exists kvs3. split; [done|]. split; [done|lia].
  - eexists. split; [done|]. split; [|done]. rewrite has_key_false in Eh.
    assert (map_delete false key es = es) as Em by (unfold map_delete; by rewrite filter_all_keep). rewrite Em in *.
    rewrite list_insert_id by done. eapply put_same; [done|done|done|exact HR1].
Qed.

(** ** Finding dictionaries *)

Definition size_at (ess : list (list entry)) (i : Z) : Z := zlen (default [] (ess !! Z.to_nat i)).

Lemma psum_sizes ess i : 0 <= i < zlen ess -> psum (sizes ess) (i + 1) = psum (sizes ess) i + size_at ess i.
Proof.
  intros Hi. unfold size_at. destruct (lookup_lt_is_Some_2 ess (Z.to_nat i)) as [es Hes]; [unfold zlen in Hi; lia|].
  rewrite (psum_step _ i (zlen es)); [by rewrite Hes|lia|]. unfold sizes. by rewrite list_lookup_fmap, Hes.
Qed.

(** The dictionary that holds the key number [t] of the store. *)
Definition holds_key (ess : list (list entry)) (t r : Z) : Prop :=
  0 <= r < zlen ess /\ psum (sizes ess) r < t <= psum (sizes ess) (r + 1).

Lemma find_index_ok kvs ess t : KvsInv kvs ess -> total ess < 2 ^ 59 -> 1 <= t <= total ess ->
  exists r, kvstoreFindDictIndexByKeyIndex kvs t = Some r /\ holds_key ess t r.
Proof.
  intros HK Ht Htr. unfold kvstoreFindDictIndexByKeyIndex. rewrite (kvs_size kvs ess HK Ht). cbn [mbind option_bind].
  pose proof HK as [Hs Hc]. rewrite (num_one kvs ess Hs). replace (total ess =? 0) with false by lia. rewrite orb_false_r.
  destruct (Z.eqb_spec (num_dicts_bits kvs) 0) as [Eb|Eb].
  - pose proof (ks_len _ _ Hs) as Hl. rewrite Eb in Hl. destruct (single_total ess Hl) as (es & -> & Et). exists 0. split; [done|].
    split; [rewrite Hl; lia|]. rewrite (psum_sizes [es] 0) by (rewrite Hl; lia). rewrite psum_0. unfold size_at. simpl. lia.
  - replace (t <=? total ess) with true by lia. cbn [assert_true mbind option_bind]. pose proof (kc_tree _ _ Hc) as Htree.
    destruct (dict_size_index kvs) as [tree|] eqn:Ei; [|lia]. destruct Htree as [Hb1 Htree].
    destruct (tree_fuel_ok kvs ess Hs) as (n & -> & Hn).
    destruct (tree_find_ok (sizes ess) (num_dicts_bits kvs) (ks_bits _ _ Hs)) with (kvs := kvs) (tree := tree) (t := t) (fuel := S n) as (r & -> & Hr1 & Hr2);
      [rewrite sizes_len; apply Hs|apply sizes_pos|done|done|done|done|lia|done|].
    exists r. split; [done|]. split; [|done]. by rewrite (ks_len _ _ Hs).
Qed.

Lemma read_ok kvs ess i : KvsInv kvs ess -> total ess < 2 ^ 59 -> 0 <= i < 2 ^ num_dicts_bits kvs ->
  cumulativeKeyCountRead kvs i = Some (psum (sizes ess) (i + 1)).
Proof.
  intros HK Ht Hi. unfold cumulativeKeyCountRead. pose proof HK as [Hs Hc]. rewrite (num_one kvs ess Hs). destruct (Z.eqb_spec (num_dicts_bits kvs) 0) as [Eb|Eb].
  - rewrite Eb in Hi. assert (i = 0) as -> by (change (2 ^ 0) with 1 in Hi; lia). cbn [Z.eqb assert_true mbind option_bind]. rewrite (kvs_size kvs ess HK Ht). f_equal.
    pose proof (ks_len _ _ Hs) as Hl. rewrite Eb in Hl. rewrite psum_all; [done|]. rewrite sizes_len. by rewrite Hl.
  - pose proof (kc_tree _ _ Hc) as Htree. destruct (dict_size_index kvs) as [tree|] eqn:Ei; [|lia]. destruct Htree as [Hb1 Htree].
    destruct (tree_fuel_ok kvs ess Hs) as (n & -> & Hn).
    apply (tree_read (sizes ess) (num_dicts_bits kvs) (ks_bits _ _ Hs)) with (tree := tree) (k := 0);
      [rewrite sizes_len; apply Hs|apply sizes_pos|done|done|done|lia|lia|lia|apply Z.divide_1_l|lia|lia|lia].
Qed.

Lemma find_next_ok kvs ess i : KvsInv kvs ess -> total ess < 2 ^ 59 -> 0 <= i < 2 ^ num_dicts_bits kvs ->
  exists r, kvstoreGetNextNonEmptyDictIndex kvs i = Some r /\
    ((r = -1 /\ forall j, i < j < zlen ess -> size_at ess j = 0) \/
     (i < r < zlen ess /\ 0 < size_at ess r /\ forall j, i < j < r -> size_at ess j = 0)).
Proof.
  intros HK Ht Hi. pose proof HK as [Hs Hc]. pose proof (ks_len _ _ Hs) as Hl. pose proof (sizes_pos ess) as Hpos.
  pose proof (psum_range (sizes ess) (i + 1) Hpos ltac:(lia)) as Hpr. fold (total ess) in Hpr.
  assert (forall j, i < j < zlen ess -> psum (sizes ess) (j + 1) <= psum (sizes ess) (i + 1) -> size_at ess j = 0) as Hz.
  { intros j Hj Hle. rewrite (psum_sizes ess j) in Hle by lia. pose proof (psum_mono (sizes ess) (i + 1) j Hpos ltac:(lia)).
    assert (0 <= size_at ess j) by apply zlen_nonneg. lia. }
  unfold kvstoreGetNextNonEmptyDictIndex. rewrite (num_one kvs ess Hs). destruct (Z.eqb_spec (num_dicts_bits kvs) 0) as [Eb|Eb].
  - rewrite Eb in Hi, Hl. change (2 ^ 0) with 1 in *. assert (i = 0) as -> by lia. exists (-1). split; [done|]. left. split; [done|]. intros j Hj. lia.
  - rewrite (read_ok kvs ess i HK Ht Hi). cbn [mbind option_bind]. rewrite wrapu_small by lia. rewrite (kvs_size kvs ess HK Ht). cbn [mbind option_bind].
    destruct (Z.leb_spec (psum (sizes ess) (i + 1) + 1) (total ess)) as [Hle|Hgt].
    + destruct (find_index_ok kvs ess (psum (sizes ess) (i + 1) + 1) HK Ht) as (r & -> & Hr1 & Hr2); [lia|]. exists r. split; [done|]. right.
      assert (i < r) as Hir. { destruct (Z.lt_ge_cases i r); [done|]. pose proof (psum_mono (sizes ess) (r + 1) (i + 1) Hpos ltac:(lia)). lia. }
      split; [lia|]. split.
      * rewrite (psum_sizes ess r) in Hr2 by lia. lia.
      * intros j Hj. apply Hz; [lia|]. pose proof (psum_mono (sizes ess) (j + 1) r Hpos ltac:(lia)). lia.
    + exists (-1). split; [done|]. left. split; [done|]. intros j Hj. apply Hz; [lia|].
      pose proof (psum_range (sizes ess) (j + 1) Hpos ltac:(lia)). fold (total ess) in *. unfold total in *. lia.
Qed.
End Inv.
