(* ===== verification/KvstoreProps.v ===== *)
(** * Key-value stores: histories, scans, and the theorems *)
From S2P Require Import Prelude Dict DictOps DictFacts DictRehash DictFind DictUpdate DictScanFacts DictProps Kvstore KvstoreFacts.

(** ** Two-phase deletion in one dictionary *)

Section TwoPhase.
Context `{T : DictType} `{!DictTypeOk T false} (resize : dictResizeEnable).
Notation entry := (dkey * option dval)%type.

Lemma chain_remove_spec c : forall n e, chain_drop c n <> Nil -> head_entry (chain_drop c n) = Some e ->
  exists c', chain_remove_at c n = Some c' /\ chain_entries c ≡ₚ e :: chain_entries c' /\ (chain_ok c -> chain_ok c' /\ chain_ok (chain_drop c n)).
Proof.
  induction c as [|k|k nx IH|k v nx IH]; intros n e Hn He.
  - exfalso. apply Hn. clear. by induction n.
  - destruct n as [|n]; [injection He as <-; by exists Nil|]. exfalso. apply Hn. simpl. clear. by induction n.
  - destruct n as [|n]; [injection He as <-; exists nx; split; [done|]; split; [done|]; simpl; tauto|].
    destruct (IH n e Hn He) as (c' & E & HP & Hok). exists (NoValue k c'). simpl. rewrite E. split; [done|]. split; [rewrite HP; apply Permutation_swap|].
    intros [? ?]. split; [by split; [|apply Hok]|by apply Hok].
  - destruct n as [|n]; [injection He as <-; exists nx; split; [done|]; split; [done|]; simpl; tauto|].
    destruct (IH n e Hn He) as (c' & E & HP & Hok). exists (Normal k v c'). simpl. rewrite E. split; [done|]. split; [rewrite HP; apply Permutation_swap|].
    intros [? ?]. split; [by split; [|apply Hok]|by apply Hok].
Qed.

Lemma pause_inv d es p : DictInv false d es -> DictInv false (set_pauserehash d p) es.
Proof. intros [Hok Hs Hd]. split; [|done|done]. destruct Hok; [by apply Ok_empty|by eapply Ok_single|by eapply Ok_double]. Qed.

Lemma two_phase_find_spec d es key : DictInv false d es -> zlen es < 2 ^ 59 -> pauserehash d = 0 ->
  exists d' r, dictTwoPhaseUnlinkFind resize d key = Some (d', r) /\ DictInv false d' es /\ pauseAutoResize d' = pauseAutoResize d /\
    match r with
    | Some r => found false d' es key r /\ pauserehash d' = 1
    | None => (forall e, e ∈ es -> keq (stored := false) key e.1 = false) /\ pauserehash d' = 0
    end.
Proof.
  intros HI Hl Hp. unfold dictTwoPhaseUnlinkFind. rewrite (dict_size d es (di_ok _ _ _ HI) Hl). destruct (Z.eqb_spec (zlen es) 0) as [Hz|Hz].
  { exists d, None. split; [done|]. split; [done|]. split; [done|]. split; [|done]. intros e He. destruct es as [|? es]; [by apply not_elem_of_nil in He|].
    rewrite zlen_cons in Hz. pose proof (zlen_nonneg es). lia. }
  assert (exists d1, (if dictIsRehashing d then _dictRehashStep resize d else Some d) = Some d1 /\ DictOk d1 es /\ same_flags d d1) as (d1 & -> & Hok1 & Hf1).
  { destruct (dictIsRehashing d); [|exists d; split; [done|]; split; [apply HI|done]]. destruct (rehash_step_spec false resize d es (di_ok _ _ _ HI) ltac:(lia)) as (d1 & ? & ? & ? & _). by exists d1. }
  cbn [mbind option_bind]. pose proof (inv_flags false d d1 es HI Hok1 Hf1) as HI1. rewrite (di_stored _ _ _ HI1).
  assert (es <> []) as Hne by (by intros ->). pose proof (has_table d1 es Hok1 Hne) as Htb.
  pose proof (index_range false d1 es key Hok1) as [Hr1 Hr2].
  destruct (find_in_tables_spec false d1 es key Hok1 (di_stored _ _ _ HI1) (Z.land (dictHashKey key false) (DICTHT_SIZE_MASK (size_exp (ht0 d1)))) Htb Hr1) as (r & -> & Hr).
  { intros _. by apply Hr2. }
  cbn [mbind option_bind]. destruct Hf1 as (F1 & F2 & F3). destruct r as [r|x].
  - exists (dictPauseRehashing d1), (Some r). split; [done|]. split; [by apply pause_inv|]. split; [done|]. split; [exact Hr|].
    cbn. rewrite F1, Hp. done.
  - exists d1, None. split; [done|]. split; [done|]. split; [done|]. split; [apply Hr|congruence].
Qed.

Lemma two_phase_free_spec d es key r : DictInv false d es -> zlen es < 2 ^ 59 -> found false d es key r -> pauserehash d = 1 ->
  exists d', dictTwoPhaseUnlinkFree resize d (Some r) = Some d' /\ DictInv false d' (map_delete false key es) /\ pauserehash d' = 0 /\
    pauseAutoResize d' = pauseAutoResize d.
Proof.
  intros HI Hl (de & e & Eg & Eh & Hin & Hk) Hp. destruct r as [[i x] n]. unfold dictTwoPhaseUnlinkFree. rewrite Eg. cbn [mbind option_bind].
  unfold get_entry in Eg. destruct (get_bucket d i x) as [c|] eqn:Eb; [|done]. cbn [mbind option_bind] in Eg. destruct (is_nil (chain_drop c n)) eqn:En; [done|].
  injection Eg as <-. destruct (bucket_table d es i x c (di_ok _ _ _ HI) Eb) as (Hx & tb & Ht & Hc & Hri).
  destruct (chain_remove_spec c n e) as (c' & Er & HP & Hok); [by intros E; rewrite E in En|done|].
  destruct (Hok ltac:(by eapply Forall_lookup_1; [apply Ht|])) as [Hok' Hokde].
  set (u := u64 (used (ht d i) - 1)). assert (TableOk (ht d i) tb -> table (ht d i) = Some tb) as Htab by (intros Ht'; apply Ht').
  assert (get_bucket (set_ht d i (set_used (ht d i) u)) i x = Some c) as ->.
  { unfold get_bucket in *. rewrite get_set_ht. exact Eb. }
  cbn [mbind option_bind]. rewrite Er. cbn [mbind option_bind].
  assert (set_bucket (set_ht d i (set_used (ht d i) u)) i x c' = Some (set_ht d i (set_used (set_table (ht d i) (<[Z.to_nat x := c']> tb)) u))) as ->.
  { unfold set_bucket. assert (get_bucket (set_ht d i (set_used (ht d i) u)) i x = Some c) as -> by (unfold get_bucket in *; rewrite get_set_ht; exact Eb).
    cbn [mbind option_bind]. rewrite !get_set_ht. cbn [table set_used]. rewrite (Htab Ht). cbn [mbind option_bind]. by rewrite set_ht_twice. }
  cbn [mbind option_bind]. destruct (free_entry_spec false (set_ht d i (set_used (set_table (ht d i) (<[Z.to_nat x := c']> tb)) u)) (chain_drop c n) e Hokde Eh) as [evs ->].
  cbn [mbind option_bind]. rewrite emit_set_ht. unfold u.
  destruct (remove_spec (emit d evs) es i x tb c c' e) as (S & HS & HokS); try done.
  { by apply emit_ok, HI. }
  rewrite ht_emit in HokS. assert (zlen S < 2 ^ 59) as HlS by (unfold zlen in *; rewrite HS in Hl; simpl in Hl; lia).
  destruct (shrink_if_needed_spec resize _ S HokS HlS) as (d' & -> & Hok2 & F1 & F2 & F3). cbn [mbind option_bind].
  assert (pauserehash d' = 1 /\ useStoredKeyApi d' = false /\ pauseAutoResize d' = pauseAutoResize d) as (G1 & G2 & G3).
  { rewrite F1, F2, F3. pose proof (di_stored _ _ _ HI). destruct i; cbn; split_and!; done || congruence. }
  eexists. split; [done|]. split; [|split; [cbn; rewrite G1; done|exact G3]]. apply pause_inv.
  apply (inv_perm false d' S); [|symmetry; by apply (map_delete_split false key es e S (di_distinct _ _ _ HI))].
  split; [done|done|]. apply (distinct_perm false es (e :: S) HS). apply HI.
Qed.
End TwoPhase.

(** ** Operations of the store *)

Section Store.
Context `{T : DictType} `{!DictTypeOk T false} (resize : dictResizeEnable).
Notation entry := (dkey * option dval)%type.
Notation has_key := (has_key (T := T) false).
Notation map_delete := (map_delete (T := T) false).

(** The two phases of a deletion, as the callers do them. *)
Definition kvs_unlink (kvs : kvstore) (i : Z) (key : dkey) : option (kvstore * bool) :=
  '(kvs, r) ← kvstoreDictTwoPhaseUnlinkFind resize kvs i key;
  match r with
  | None => Some (kvs, false)
  | Some he => kvs ← kvstoreDictTwoPhaseUnlinkFree resize kvs i (Some he); Some (kvs, true)
  end.

Lemma put_twice (kvs : kvstore) i d d' : put_dict (put_dict kvs i d) i d' = put_dict kvs i d'.
Proof. unfold put_dict, set_dicts. cbn. by rewrite list_insert_insert_eq. Qed.

Lemma same_bits kvs kvs' (ess ess' : list (list entry)) : kvs_shape kvs ess -> kvs_shape kvs' ess' -> zlen ess' = zlen ess -> num_dicts_bits kvs' = num_dicts_bits kvs.
Proof.
  intros Hs Hs' Hl. pose proof (ks_len _ _ Hs) as L1. pose proof (ks_len _ _ Hs') as L2. rewrite Hl, L1 in L2.
  symmetry. apply Z.pow_inj_r in L2; [done|lia|apply Hs|apply Hs'].
Qed.

Lemma zlen_insert (ess : list (list entry)) i es : zlen (<[i := es]> ess) = zlen ess.
Proof. unfold zlen. by rewrite length_insert. Qed.

Lemma delete_absent key (es : list entry) : has_key key es = false -> map_delete key es = es.
Proof. intros Eh. rewrite has_key_false in Eh. unfold DictProps.map_delete. by rewrite filter_all_keep. Qed.

Lemma unlink_ok kvs ess i es key : KvsInv kvs ess -> total ess + 1 < 2 ^ 59 -> 0 <= i < 2 ^ num_dicts_bits kvs -> ess !! Z.to_nat i = Some es ->
  exists kvs', kvs_unlink kvs i key = Some (kvs', has_key key es) /\ KvsInv kvs' (<[Z.to_nat i := map_delete key es]> ess).
Proof.
  intros HK Ht Hi Hes. unfold kvs_unlink, kvstoreDictTwoPhaseUnlinkFind. destruct (get_dict kvs ess i (proj1 HK) Hi) as (d & es' & E & Ed & Hes' & HR).
  rewrite Hes in Hes'. injection Hes' as <-. rewrite E. cbn [mbind option_bind]. pose proof (size_le_total ess _ es Hes) as Hsz.
  destruct d as [d|]; [|simpl in HR; subst es; exists kvs; by rewrite list_insert_id]. destruct HR as (HI & Hpa & Hpr).
  destruct (two_phase_find_spec resize d es key HI ltac:(lia) Hpr) as (d1 & r & -> & HI1 & Ha1 & Hr). cbn [mbind option_bind].
  destruct r as [r|].
  - destruct Hr as [Hfound Hp1]. unfold kvstoreDictTwoPhaseUnlinkFree.
    assert (kvstoreGetDict (put_dict kvs i (Some d1)) i = Some (Some d1)) as ->.
    { unfold kvstoreGetDict. replace (0 <=? i) with true by lia. cbn. apply list_lookup_insert_eq. by eapply lookup_lt_Some. }
    cbn [mbind option_bind]. destruct (two_phase_free_spec resize d1 es key r HI1 ltac:(lia) Hfound Hp1) as (d2 & -> & HI2 & Hp2 & Ha2).
    cbn [mbind option_bind]. rewrite put_twice.
    assert (has_key key es = true) as Eh. { destruct Hfound as (de & e & _ & _ & Hin & Hk). apply has_key_true. by exists e. }
    assert (dict_rel (Some d2) (map_delete key es)) as HR2 by (split; [done|]; split; [lia|done]).
    pose proof (put_shape kvs ess i d d2 _ (proj1 HK) Ed HR2) as Hs2. pose proof (delete_size key es (di_distinct _ _ _ HI)) as Hdl. rewrite Eh in Hdl.
    destruct (count_add (put_dict kvs i (Some d2)) ess i es (map_delete key es) (-1)) as (kvs2 & -> & HK2 & _); [done| |done|done|lia|by right|lia| |].
    { destruct (proj2 HK) as [? ? ?]. by split. }
    { unfold kvstoreGetDict. replace (0 <=? i) with true by lia. cbn. rewrite list_lookup_insert_eq by (by eapply lookup_lt_Some). done. }
    cbn [mbind option_bind]. assert (num_dicts_bits kvs2 = num_dicts_bits kvs) as Eb by (apply (same_bits kvs kvs2 ess _ (proj1 HK) (proj1 HK2)), zlen_insert).
    destruct (free_ok kvs2 _ i HK2) as (kvs3 & -> & HK3 & _); [rewrite (keys_total_insert _ _ es) by done; lia|by rewrite Eb|].
    cbn [mbind option_bind]. rewrite Eh. by exists kvs3.
  - destruct Hr as [Hno Hp1]. assert (has_key key es = false) as Eh by (by apply has_key_false). eexists. rewrite Eh. split; [done|].
    rewrite delete_absent, list_insert_id by done. eapply put_same; [done|done|done|]. split; [done|]. split; [lia|done].
Qed.

(** *** Resizing *)

Lemma put_same_rel kvs (ess : list (list entry)) i d es : KvsInv kvs ess -> 0 <= i < 2 ^ num_dicts_bits kvs -> kvstoreGetDict kvs i = Some (Some d) -> ess !! Z.to_nat i = Some es ->
  forall d', DictOk d' es -> same_flags d d' -> KvsInv (put_dict kvs i (Some d')) ess.
Proof.
  intros HK Hi E Hes d' Hok Hf. destruct (get_dict kvs ess i (proj1 HK) Hi) as (d0 & es' & E' & Ed & Hes' & HR). rewrite E in E'. injection E' as <-.
  rewrite Hes in Hes'. injection Hes' as <-. eapply put_same; [done|done|done|]. eapply rel_flags; [done|done|]. eapply inv_flags; [apply HR|done|done].
Qed.

Lemma expand_loop_ok newsize try_expand skip n : forall kvs ess i, KvsInv kvs ess -> total ess < 2 ^ 59 -> 0 <= newsize < 2 ^ 64 -> 0 <= i -> i + Z.of_nat n <= 2 ^ num_dicts_bits kvs ->
  exists kvs' ok, expand_loop kvs newsize try_expand skip i n = Some (kvs', ok) /\ KvsInv kvs' ess.
Proof.
  induction n as [|n IH]; intros kvs ess i HK Ht Hsz Hi Hn; [by exists kvs, true|]. cbn [expand_loop].
  destruct (get_dict kvs ess i (proj1 HK) ltac:(lia)) as (d & es & E & Ed & Hes & HR). rewrite E. cbn [mbind option_bind].
  destruct d as [d|]; [|apply IH; [done|done|done|lia|lia]]. destruct (skip i); [apply IH; [done|done|done|lia|lia]|].
  assert (exists d' ok, match try_expand with Some fails => dictTryExpand d newsize (fails i) | None => dictExpand d newsize end = Some (d', ok) /\ DictOk d' es /\ same_flags d d') as (d' & ok & -> & Hok & Hf).
  { destruct try_expand as [fails|].
    - unfold dictTryExpand. destruct (expand_spec d es newsize (Some (fails i)) (di_ok _ _ _ (proj1 HR)) Hsz) as (d' & ok & failed & -> & Hok & Hf & _). by eexists _, _.
    - destruct (dictExpand_spec d es newsize (di_ok _ _ _ (proj1 HR)) Hsz) as (d' & ok & -> & Hok & Hf & _). by eexists _, _. }
  cbn [mbind option_bind]. pose proof (put_same_rel kvs ess i d es HK ltac:(lia) E Hes d' Hok Hf) as HK'.
  destruct (bool_decide (is_Some try_expand) && negb ok); [by eexists _, _|]. apply IH; [done|done|done|lia|cbn; lia].
Qed.

Lemma dict_expand_ok kvs ess i size : KvsInv kvs ess -> 0 <= size < 2 ^ 64 -> 0 <= i < 2 ^ num_dicts_bits kvs ->
  exists kvs' ok, kvstoreDictExpand kvs i size = Some (kvs', ok) /\ KvsInv kvs' ess.
Proof.
  intros HK Hsz Hi. unfold kvstoreDictExpand. destruct (get_dict kvs ess i (proj1 HK) Hi) as (d & es & E & Ed & Hes & HR). rewrite E. cbn [mbind option_bind].
  destruct d as [d|]; [|by eexists _, _]. destruct (dictExpand_spec d es size (di_ok _ _ _ (proj1 HR)) Hsz) as (d' & ok & -> & Hok & Hf & _). cbn [mbind option_bind].
  eexists _, _. split; [done|]. by eapply put_same_rel.
Qed.

Lemma set_cursor_inv kvs (ess : list (list entry)) c : KvsInv kvs ess -> 0 <= c < num_dicts kvs -> KvsInv (set_resize_cursor kvs c) ess.
Proof. intros [[? ? ? ? ? ?] [? ? ?]] Hc. split; split; cbn; done. Qed.

Lemma resize_loop_ok n : forall kvs ess, KvsInv kvs ess -> total ess < 2 ^ 59 -> exists kvs', resize_loop resize kvs n = Some kvs' /\ KvsInv kvs' ess.
Proof.
  induction n as [|n IH]; intros kvs ess HK Ht; [by exists kvs|]. cbn [resize_loop]. pose proof (proj1 HK) as Hs. pose proof (ks_cursor _ _ Hs) as Hcur.
  destruct (get_dict kvs ess (resize_cursor kvs) Hs) as (d & es & E & Ed & Hes & HR); [rewrite <- (ks_num _ _ Hs); lia|]. rewrite E. cbn [mbind option_bind].
  assert (forall kvs', KvsInv kvs' ess -> num_dicts kvs' = num_dicts kvs -> resize_cursor kvs' = resize_cursor kvs ->
    exists kvs'', resize_loop resize (set_resize_cursor kvs' (Z.rem (resize_cursor kvs + 1) (num_dicts kvs'))) n = Some kvs'' /\ KvsInv kvs'' ess) as Hrest.
  { intros kvs' HK' En _. apply IH; [|done]. apply set_cursor_inv; [done|]. rewrite En. apply Z.rem_bound_pos; lia. }
  destruct d as [d|]; [|by apply Hrest]. destruct HR as (HI & Hpa & Hpr). pose proof (size_le_total ess _ es Hes) as Hsz.
  destruct (shrink_if_needed_spec resize d es (di_ok _ _ _ HI) ltac:(lia)) as (d1 & E1 & Hok1 & Hf1).
  unfold _dictShrinkIfNeeded in E1. replace (pauseAutoResize d >? 0) with false in E1 by lia.
  destruct (dictShrinkIfNeeded resize d) as [[d1' ok]|]; [|done]. injection E1 as ->. cbn [mbind option_bind].
  assert (0 <= resize_cursor kvs < 2 ^ num_dicts_bits kvs) as Hr by (rewrite <- (ks_num _ _ Hs); lia).
  destruct ok; [apply Hrest; [by eapply put_same_rel|done|done]|].
  destruct (expand_if_needed_spec resize d1 es Hok1 ltac:(lia)) as (d2 & E2 & Hok2 & Hf2 & _).
  unfold _dictExpandIfNeeded in E2. pose proof Hf1 as (_ & _ & F3). replace (pauseAutoResize d1 >? 0) with false in E2 by lia.
  destruct (dictExpandIfNeeded resize d1) as [[d2' ok2]|]; [|done]. injection E2 as ->. cbn [mbind option_bind].
  apply Hrest; [|done|done]. eapply put_same_rel; [done|done|done|done|done|]. by eapply same_flags_trans.
Qed.

(** *** Creation and clearing *)

Lemma zsum_zeros n : zsum (replicate n 0) = 0.
Proof. unfold zsum. induction n as [|n IH]; [done|]. simpl. by rewrite IH. Qed.

Lemma psum_zeros n i : psum (replicate n 0) i = 0.
Proof. unfold psum. rewrite take_replicate. apply zsum_zeros. Qed.

Lemma tree_zeros n : tree_ok (replicate n 0) (replicate (S n) 0).
Proof.
  split; [unfold zlen; rewrite !length_replicate; lia|]. intros i Hi. rewrite !psum_zeros. apply lookup_replicate_2.
  unfold zlen in Hi. rewrite length_replicate in Hi. lia.
Qed.

Notation no_keys n := (replicate n (@nil entry)).

Lemma sizes_none n : sizes (no_keys n) = replicate n 0.
Proof. unfold sizes. by rewrite fmap_replicate. Qed.

Lemma counts_none kvs n : num_dicts kvs = Z.of_nat n -> num_dicts kvs = 2 ^ num_dicts_bits kvs -> 0 <= num_dicts_bits kvs -> key_count kvs = 0 -> non_empty_dicts kvs = 0 ->
  dict_size_index kvs = (if num_dicts kvs >? 1 then Some (replicate (Z.to_nat (num_dicts kvs + 1)) 0) else None) -> kvs_counts kvs (no_keys n).
Proof.
  intros En Eb Hb H1 H2 H3. split.
  - unfold total. by rewrite sizes_none, zsum_zeros.
  - unfold nonempties. by rewrite fmap_replicate, zsum_zeros.
  - rewrite H3. destruct (Z.gtb_spec (num_dicts kvs) 1) as [Hgt|Hle].
    + split; [destruct (Z.eq_dec (num_dicts_bits kvs) 0) as [E0|]; [rewrite E0 in Eb; change (2 ^ 0) with 1 in Eb; lia|lia]|].
      rewrite sizes_none. replace (Z.to_nat (num_dicts kvs + 1)) with (S n) by lia. apply tree_zeros.
    + destruct (Z.eq_dec (num_dicts_bits kvs) 0) as [->|Hn]; [done|]. assert (2 ^ 1 <= 2 ^ num_dicts_bits kvs) by (apply Z.pow_le_mono_r; lia). lia.
Qed.

Lemma dict_empty_rel d es : dict_rel (Some d) es -> dict_rel (Some (dictEmpty d)) [].
Proof.
  intros (HI & _). unfold dictEmpty, _dictClear. set (d0 := emit d _).
  destruct (clear_buckets (default [] (table (ht d0 false))) _) as [ev0 u0]. cbn [fst snd].
  destruct (clear_buckets _ _) as [ev1 u1]. split; [|done]. split; [by apply Ok_empty|apply (di_stored _ _ _ HI)|done].
Qed.

Lemma empty_loop_ok n : forall kvs ess i, kvs_shape kvs ess -> 0 <= i -> i + Z.of_nat n = 2 ^ num_dicts_bits kvs ->
  exists kvs', empty_loop kvs i n = Some kvs' /\ kvs_shape kvs' (take (Z.to_nat i) ess ++ no_keys n) /\ same_counts kvs kvs'.
Proof.
  induction n as [|n IH]; intros kvs ess i Hs Hi Hn.
  - exists kvs. split; [done|]. split; [|done]. simpl. rewrite app_nil_r, take_ge; [done|]. pose proof (ks_len _ _ Hs) as Hl. unfold zlen in Hl. lia.
  - cbn [empty_loop]. destruct (get_dict kvs ess i Hs ltac:(lia)) as (d & es & E & Ed & Hes & HR). rewrite E. cbn [mbind option_bind].
    assert (forall ess1, ess1 = <[Z.to_nat i := []]> ess -> take (Z.to_nat (i + 1)) ess1 ++ no_keys n = take (Z.to_nat i) ess ++ no_keys (S n)) as Eapp.
    { intros ess1 ->. replace (Z.to_nat (i + 1)) with (S (Z.to_nat i)) by lia.
      rewrite (take_S_r _ _ []) by (apply list_lookup_insert_eq; by eapply lookup_lt_Some). rewrite take_insert_ge by lia. by rewrite <- app_assoc. }
    destruct d as [d|].
    + assert (kvs_shape (put_dict kvs i (Some (dictEmpty d))) (<[Z.to_nat i := []]> ess)) as Hs1 by (eapply put_shape; [done|done|by eapply dict_empty_rel]).
      destruct (free_shape (put_dict kvs i (Some (dictEmpty d))) _ i [] Hs1) as (kvs2 & -> & Hs2 & Hc2); [cbn; lia|apply list_lookup_insert_eq; by eapply lookup_lt_Some|done|].
      cbn [mbind option_bind]. pose proof Hc2 as (C1 & C2 & C3 & C4 & C5). cbn in C4.
      destruct (IH kvs2 _ (i + 1) Hs2) as (kvs3 & -> & Hs3 & D1 & D2 & D3 & D4 & D5); [lia|rewrite C4; lia|]. exists kvs3. split; [done|].
      rewrite (Eapp _ eq_refl) in Hs3. split; [done|]. cbn in *. repeat split; congruence.
    + simpl in HR. subst es. cbn [mbind option_bind]. destruct (IH kvs ess (i + 1) Hs) as (kvs3 & -> & Hs3 & D); [lia|lia|]. exists kvs3. split; [done|]. split; [|done].
      by rewrite Eapp in Hs3 by (by rewrite list_insert_id).
Qed.

Lemma empty_ok kvs ess : KvsInv kvs ess -> exists kvs', kvstoreEmpty kvs = Some kvs' /\ KvsInv kvs' (no_keys (length ess)).
Proof.
  intros [Hs Hc]. unfold kvstoreEmpty. pose proof (ks_len _ _ Hs) as Hl. unfold zlen in Hl. pose proof (ks_num _ _ Hs) as Hnum. pose proof (ks_bits _ _ Hs) as Hb.
  destruct (empty_loop_ok (Z.to_nat (num_dicts kvs)) kvs ess 0 Hs) as (kvs' & -> & Hs' & C1 & C2 & C3 & C4 & C5); [lia|lia|].
  cbn [mbind option_bind]. eexists. split; [done|]. replace (Z.to_nat (num_dicts kvs)) with (length ess) in Hs' by lia. simpl in Hs'.
  split.
  - destruct Hs' as [? ? ? ? ? ?]. split; cbn; try done. pose proof (Z.pow_pos_nonneg 2 (num_dicts_bits kvs')). lia.
  - apply counts_none; [change (num_dicts kvs' = Z.of_nat (length ess)); lia|change (num_dicts kvs' = 2 ^ num_dicts_bits kvs'); rewrite C4; lia
      |change (0 <= num_dicts_bits kvs'); lia|done|done|]. cbn. rewrite C3, C5. pose proof (kc_tree _ _ Hc) as Ht.
    destruct (dict_size_index kvs) as [tree|].
    + destruct Ht as [Hb1 _]. assert (2 ^ 1 <= 2 ^ num_dicts_bits kvs) by (apply Z.pow_le_mono_r; lia). by replace (num_dicts kvs >? 1) with true by lia.
    + rewrite Hnum, Ht. done.
Qed.

Lemma create_loop_ok n : forall kvs (ess : list (list entry)) i, KvsInv kvs ess -> 0 <= i -> i + Z.of_nat n <= 2 ^ num_dicts_bits kvs ->
  exists kvs', create_loop kvs i n = Some kvs' /\ KvsInv kvs' ess /\ num_dicts_bits kvs' = num_dicts_bits kvs.
Proof.
  induction n as [|n IH]; intros kvs ess i HK Hi Hn; [by exists kvs|]. cbn [create_loop].
  destruct (get_dict kvs ess i (proj1 HK) ltac:(lia)) as (_ & es & _ & _ & Hes & _).
  destruct (create_ok kvs ess i es HK ltac:(lia) Hes) as (kvs1 & d & -> & HK1 & _ & _ & Eb). cbn [mbind option_bind].
  destruct (IH kvs1 ess (i + 1) HK1) as (kvs2 & -> & HK2 & Eb2); [lia|rewrite Eb; lia|]. exists kvs2. split; [done|]. split; [done|congruence].
Qed.

Lemma kvs_create_ok bits on_demand free_empty : 0 <= bits <= 16 ->
  exists kvs, kvstoreCreate bits on_demand free_empty = Some kvs /\ KvsInv kvs (no_keys (Z.to_nat (2 ^ bits))) /\ num_dicts_bits kvs = bits.
Proof.
  intros Hb. unfold kvstoreCreate. replace (bits <=? 16) with true by lia. cbn [assert_true mbind option_bind]. rewrite Z.shiftl_mul_pow2, Z.mul_1_l by lia.
  pose proof (Z.pow_pos_nonneg 2 bits ltac:(lia) ltac:(lia)) as Hp. set (kvs := {| dicts := _ |}).
  assert (KvsInv kvs (no_keys (Z.to_nat (2 ^ bits)))) as HK.
  { split; [split; cbn; [done|done|unfold zlen; rewrite length_replicate; lia| | |lia]|].
    - apply Forall2_replicate. done.
    - unfold allocateds. by rewrite fmap_replicate, zsum_zeros.
    - apply counts_none; cbn; [lia|done|lia|done|done|done]. }
  destruct on_demand; cbn [negb]; [by exists kvs|]. destruct (create_loop_ok (Z.to_nat (2 ^ bits)) kvs _ 0 HK) as (kvs' & -> & HK' & Eb); [lia|cbn; lia|]. by exists kvs'.
Qed.

(** *** Scanning *)

(** The cursor of the store: the cursor [v] in the dictionary [i]. *)
Definition pack (b i v : Z) : Z := v * 2 ^ b + i.

Lemma unpack kvs (ess : list (list entry)) i v : kvs_shape kvs ess -> 0 <= i < 2 ^ num_dicts_bits kvs -> 0 <= v ->
  getAndClearDictIndexFromCursor kvs (pack (num_dicts_bits kvs) i v) = (i, v).
Proof.
  intros Hs Hi Hv. unfold getAndClearDictIndexFromCursor, pack. rewrite (num_one kvs ess Hs). pose proof (ks_bits _ _ Hs) as Hb.
  destruct (Z.eqb_spec (num_dicts_bits kvs) 0) as [E|E].
  - rewrite E in *. change (2 ^ 0) with 1 in *. f_equal; lia.
  - pose proof (Z.pow_pos_nonneg 2 (num_dicts_bits kvs) ltac:(lia) ltac:(lia)). rewrite (ks_num _ _ Hs).
    replace (2 ^ num_dicts_bits kvs - 1) with (Z.ones (num_dicts_bits kvs)) by (rewrite Z.ones_equiv; lia).
    rewrite Z.land_ones, Z.shiftr_div_pow2 by lia. rewrite Z.add_comm. rewrite Z.mod_add, Z.div_add by lia.
    rewrite Z.mod_small, Z.div_small by lia. f_equal; lia.
Qed.

Lemma add_cursor kvs (ess : list (list entry)) i v : kvs_shape kvs ess -> 0 <= i < 2 ^ num_dicts_bits kvs -> 0 <= v < 2 ^ (64 - num_dicts_bits kvs) ->
  addDictIndexToCursor kvs i v = pack (num_dicts_bits kvs) i v.
Proof.
  intros Hs Hi Hv. unfold addDictIndexToCursor, pack. rewrite (num_one kvs ess Hs). pose proof (ks_bits _ _ Hs) as Hb.
  destruct (Z.eqb_spec (num_dicts_bits kvs) 0) as [E|E].
  - rewrite E in *. change (2 ^ 0) with 1 in *. lia.
  - replace (i <? 0) with false by lia. pose proof (Z.pow_pos_nonneg 2 (num_dicts_bits kvs) ltac:(lia) ltac:(lia)) as Hp.
    rewrite Z.shiftl_mul_pow2 by lia.
    assert (v * 2 ^ num_dicts_bits kvs < 2 ^ 64).
    { replace 64 with ((64 - num_dicts_bits kvs) + num_dicts_bits kvs) at 1 by lia. rewrite Z.pow_add_r by lia. apply Z.mul_lt_mono_pos_r; lia. }
    rewrite wrapu_small by lia.
    rewrite <- Z.lxor_lor; [symmetry; apply Z.add_nocarry_lxor|]; apply Z.bits_inj'; intros k Hk; rewrite Z.land_spec, Z.bits_0;
      (destruct (Z.lt_ge_cases k (num_dicts_bits kvs)); [rewrite Z.mul_pow2_bits_low by lia; done|rewrite (high_bit (num_dicts_bits kvs) i k) by lia; apply andb_false_r]).
Qed.

Lemma advanced_small e v v' : 0 <= e <= 64 -> advanced e v v' -> v' <> 0 -> v' < 2 ^ e.
Proof.
  intros He [Hv' [[_ ->]|[_ Er]]] Hn; [done|]. pose proof (stride_pos e ltac:(lia)).
  assert (rev (v' mod 2 ^ e) = rev v') as E by (rewrite rev_low by lia; rewrite Er; rewrite Z.div_mul by lia; done).
  apply rev_inj in E; [|apply mod_range; lia|lia]. rewrite <- E. apply Z.mod_pos_bound. apply Z.pow_pos_nonneg; lia.
Qed.

(** A state of the store that can be scanned: tables of at most [2^E] buckets. *)
Definition kvs_scannable (b E : Z) (kvs : kvstore) (ess : list (list entry)) : Prop :=
  KvsInv kvs ess /\ num_dicts_bits kvs = b /\ total ess < 2 ^ 59 /\
  Forall (fun d : option dict => match d with Some d => size_exp (ht0 d) <= E | None => True end) (dicts kvs).

Notation rhash k := (rev (dictHashKey (k : dkey) true)).
Definition keys_at (ess : list (list entry)) (i : Z) : list dkey := (default [] (ess !! Z.to_nat i)).*1.

(** What one call does from the cursor [v] of the dictionary [i]: [c'] is the next cursor. *)
Definition scan_next (b E : Z) (ess : list (list entry)) (i v c' : Z) (out : list entry) : Prop :=
  (forall x, x ∈ out.*1 -> x ∈ keys_at ess i) /\
  ((c' = 0 /\ (forall x, x ∈ keys_at ess i -> rev v <= rhash x -> x ∈ out.*1) /\ (forall j, i < j < 2 ^ b -> keys_at ess j = [])) \/
   (exists i', c' = pack b i' 0 /\ i < i' < 2 ^ b /\ (forall x, x ∈ keys_at ess i -> rev v <= rhash x -> x ∈ out.*1) /\
      (forall j, i < j < i' -> keys_at ess j = [])) \/
   (exists v', c' = pack b i v' /\ 0 < v' < 2 ^ E /\ rev v / stride E + 1 <= rev v' / stride E /\
      (forall x, x ∈ keys_at ess i -> rev v <= rhash x -> rhash x < rev v' -> x ∈ out.*1))).

Lemma keys_empty ess j : size_at ess j = 0 -> keys_at ess j = [].
Proof. unfold size_at, keys_at. destruct (default [] (ess !! Z.to_nat j)) as [|e es]; [done|]. rewrite zlen_cons. pose proof (zlen_nonneg es). lia. Qed.

Lemma keys_lookup (ess : list (list entry)) i es : ess !! Z.to_nat i = Some es -> keys_at ess i = es.*1.
Proof. unfold keys_at. by intros ->. Qed.

(** The last part of a call, after a dictionary is done. *)
Lemma scan_next_dict b kvs ess i : KvsInv kvs ess -> num_dicts_bits kvs = b -> total ess < 2 ^ 59 -> 0 <= i < 2 ^ b ->
  exists c', (didx ← kvstoreGetNextNonEmptyDictIndex kvs i;
      if didx =? -1 then Some (kvs, 0) else Some (kvs, addDictIndexToCursor kvs didx 0)) = Some (kvs, c') /\
    ((c' = 0 /\ forall j, i < j < 2 ^ b -> keys_at ess j = []) \/
     (exists i', c' = pack b i' 0 /\ i < i' < 2 ^ b /\ forall j, i < j < i' -> keys_at ess j = [])).
Proof.
  intros HK Eb Ht Hi. subst b. pose proof (ks_len _ _ (proj1 HK)) as Hl. destruct (find_next_ok kvs ess i HK Ht Hi) as (r & -> & Hr). cbn [mbind option_bind].
  destruct Hr as [[-> Hz]|(Hr & _ & Hz)].
  - exists 0. split; [done|]. left. split; [done|]. intros j Hj. apply keys_empty, Hz. lia.
  - replace (r =? -1) with false by lia. eexists. split; [done|]. right. exists r. pose proof (ks_bits _ _ (proj1 HK)).
    split; [apply (add_cursor kvs ess); [apply HK|lia|split; [lia|apply Z.pow_pos_nonneg; lia]]|]. split; [lia|]. intros j Hj. apply keys_empty, Hz. lia.
Qed.

Lemma kvs_scan_step b E kvs ess i v : kvs_scannable b E kvs ess -> 0 <= E -> b + E <= 64 -> 0 <= i < 2 ^ b -> 0 <= v < 2 ^ 64 ->
  exists kvs' c' out, kvstoreScan kvs (pack b i v) (-1) None = Some (kvs', c', out) /\ scan_next b E ess i v c' out.
Proof.
  intros (HK & Eb & Ht & Hexp) HE HbE Hi Hv. pose proof (ks_bits _ _ (proj1 HK)) as Hb. subst b. unfold kvstoreScan.
  rewrite (unpack kvs ess i v (proj1 HK) Hi) by lia. cbn [Z.geb Z.compare andb mbind option_bind].
  destruct (get_dict kvs ess i (proj1 HK) Hi) as (d & es & Eg & Ed & Hes & HR). rewrite Eg. cbn [mbind option_bind].
  unfold scan_next. rewrite (keys_lookup ess i es Hes). destruct d as [d|]; cbn [mbind option_bind].
  - pose proof HR as (HI & Hpa & Hpr). pose proof (size_le_total ess _ es Hes).
    destruct (dictScan_spec false d es v (di_ok _ _ _ HI) ltac:(lia) ltac:(lia) Hv) as (v' & out & -> & Hv' & Hadv & Hsub & Hout). cbn [mbind option_bind].
    assert (KvsInv (put_dict kvs i (Some d)) ess) as HK1 by (eapply put_same; [done|done|done|done]).
    destruct (free_ok (put_dict kvs i (Some d)) ess i HK1 Ht Hi) as (kvs2 & -> & HK2 & Eb2 & _). cbn [mbind option_bind]. cbn in Eb2.
    assert (forall x, x ∈ out.*1 -> x ∈ es.*1) as Hsub1.
    { intros x Hx. apply list_elem_of_fmap in Hx as (e & -> & He). apply list_elem_of_fmap_2, Hsub, He. }
    assert (forall x, x ∈ es.*1 -> rev v <= rhash x -> v' = 0 \/ rhash x < rev v' -> x ∈ out.*1) as Hout1.
    { intros x Hx H1 H2. apply list_elem_of_fmap in Hx as (e & -> & He). apply list_elem_of_fmap_2. by apply Hout. }
    rewrite orb_false_r. destruct (Z.eqb_spec v' 0) as [->|Hv0].
    + destruct (scan_next_dict (num_dicts_bits kvs) kvs2 ess i HK2 Eb2 Ht Hi) as (c' & En & Hc').
      exists kvs2, c', out. split.
      * revert En. destruct (kvstoreGetNextNonEmptyDictIndex kvs2 i) as [r|]; [|done]. cbn [mbind option_bind]. destruct (r =? -1); intros [= <-]; done.
      * split; [done|]. destruct Hc' as [[-> Hz]|(i' & -> & Hi' & Hz)].
        -- left. split; [done|]. split; [|done]. intros x Hx H1. apply Hout1; [done|done|by left].
        -- right. left. exists i'. split; [done|]. split; [done|]. split; [|done]. intros x Hx H1. apply Hout1; [done|done|by left].
    + destruct Hadv as [|[Hadv Hse]]; [done|].
      assert (scan_exp d <= E) as Hle.
      { pose proof (proj1 (Forall_lookup _ _) Hexp _ _ Ed) as Hd. simpl in Hd. unfold scan_exp. destruct (dictIsRehashing d); lia. }
      pose proof (advanced_small (scan_exp d) v v' ltac:(lia) Hadv Hv0) as Hsm.
      assert (2 ^ scan_exp d <= 2 ^ E) by (apply Z.pow_le_mono_r; lia). assert (2 ^ E <= 2 ^ (64 - num_dicts_bits kvs)) by (apply Z.pow_le_mono_r; lia).
      eexists _, _, out. split; [done|]. split; [done|]. right. right. exists v'. split; [|split; [lia|split]].
      * rewrite <- Eb2. apply (add_cursor kvs2 ess); [apply HK2|by rewrite Eb2|rewrite Eb2; lia].
      * by apply (advanced_count (scan_exp d)); [lia|lia|lia| |].
      * intros x Hx Hge Hlt. apply Hout1; [done|done|by right].
  - simpl in HR. subst es. rewrite orb_true_r. destruct (scan_next_dict (num_dicts_bits kvs) kvs ess i HK eq_refl Ht Hi) as (c' & En & Hc').
    exists kvs, c', []. split.
    + revert En. destruct (kvstoreGetNextNonEmptyDictIndex kvs i) as [r|]; [|done]. cbn [mbind option_bind]. destruct (r =? -1); intros [= <-]; done.
    + split; [done|]. destruct Hc' as [[-> Hz]|(i' & -> & Hi' & Hz)]; [left; by split|right; left; exists i'; by split].
Qed.

(** The client's loop over the successive states of the store. *)
Fixpoint kvs_scan_run (kvss : list kvstore) (c : Z) : option (list entry) :=
  match kvss with
  | [] => None
  | kvs :: kvss =>
      '(_, c, out) ← kvstoreScan kvs c (-1) None;
      if c =? 0 then Some out else out' ← kvs_scan_run kvss c; Some (out ++ out')
  end.

Section Run.
  Context (b E : Z) (Hb : 0 <= b) (HE : 0 <= E) (HbE : b + E <= 64).

Lemma pack_pos i v : 0 <= i -> 0 <= v -> 0 < i \/ 0 < v -> pack b i v <> 0.
Proof. intros Hi Hv Hp. unfold pack. pose proof (Z.pow_pos_nonneg 2 b). nia. Qed.

Lemma word_small v : 0 <= v < 2 ^ E -> 0 <= v < 2 ^ 64.
Proof. intros Hv. assert (2 ^ E <= 2 ^ 64) by (apply Z.pow_le_mono_r; lia). lia. Qed.

(** [2^(b+E)] calls are enough. *)
Lemma kvs_scan_returns kvss : forall esss i v, Forall2 (kvs_scannable b E) kvss esss -> 0 <= i < 2 ^ b -> 0 <= v < 2 ^ E ->
  2 ^ b * 2 ^ E - (i * 2 ^ E + rev v / stride E) <= zlen kvss -> is_Some (kvs_scan_run kvss (pack b i v)).
Proof.
  induction kvss as [|kvs kvss IH]; intros esss i v Hs Hi Hv Hn.
  - pose proof (rev_quotient v E (word_small v Hv) ltac:(lia)). change (zlen (@nil kvstore)) with 0 in Hn. nia.
  - inversion Hs as [|? ess ? esss' Hk Hks]; subst. rewrite zlen_cons in Hn. cbn [kvs_scan_run].
    destruct (kvs_scan_step b E kvs ess i v Hk HE HbE Hi (word_small v Hv)) as (kvs' & c' & out & -> & _ & Hc). cbn [mbind option_bind].
    pose proof (rev_quotient v E (word_small v Hv) ltac:(lia)) as Hq.
    destruct Hc as [(-> & _)|[(i' & -> & Hi' & _)|(v' & -> & Hv' & Hp & _)]]; [done| |].
    + destruct (Z.eqb_spec (pack b i' 0) 0) as [Hz|Hz]; [done|].
      destruct (IH esss' i' 0 Hks) as [out' ->]; [lia|split; [lia|apply Z.pow_pos_nonneg; lia]| |done].
      rewrite rev_0, Z.div_0_l by (pose proof (stride_pos E ltac:(lia)); lia). nia.
    + destruct (Z.eqb_spec (pack b i v') 0) as [Hz|Hz]; [done|]. destruct (IH esss' i v' Hks Hi) as [out' ->]; [lia|nia|done].
Qed.

Lemma kvs_scan_emits kvss : forall esss i v out, Forall2 (kvs_scannable b E) kvss esss -> 0 <= i < 2 ^ b -> 0 <= v < 2 ^ E ->
  kvs_scan_run kvss (pack b i v) = Some out ->
  (forall x j, 0 <= j < 2 ^ b -> Forall (fun ess => x ∈ keys_at ess j) esss -> i < j \/ (j = i /\ rev v <= rhash x) -> x ∈ out.*1) /\
  (forall x, x ∈ out.*1 -> Exists (fun ess => exists j, 0 <= j < 2 ^ b /\ x ∈ keys_at ess j) esss).
Proof.
  induction kvss as [|kvs kvss IH]; intros esss i v out Hs Hi Hv Hrun; [done|]. inversion Hs as [|? ess ? esss' Hk Hks]; subst. cbn [kvs_scan_run] in Hrun.
  destruct (kvs_scan_step b E kvs ess i v Hk HE HbE Hi (word_small v Hv)) as (kvs' & c' & out1 & Es & Hsub & Hc). rewrite Es in Hrun. cbn [mbind option_bind] in Hrun.
  assert (forall x, x ∈ out1.*1 -> Exists (fun ess => exists j, 0 <= j < 2 ^ b /\ x ∈ keys_at ess j) (ess :: esss')) as Hone by (intros x Hx; left; exists i; auto).
  destruct Hc as [(-> & Hall & Hlater)|Hc].
  - simpl in Hrun. injection Hrun as <-. split; [|done]. intros x j Hj HF Hpos. inversion HF as [|?? Hx _]; subst. destruct Hpos as [Hlt|[-> Hge]]; [|by apply Hall].
    rewrite (Hlater j) in Hx by lia. by apply not_elem_of_nil in Hx.
  - assert (exists i' v', c' = pack b i' v' /\ 0 <= i' < 2 ^ b /\ 0 <= v' < 2 ^ E /\ c' <> 0 /\
      forall x j, 0 <= j < 2 ^ b -> x ∈ keys_at ess j -> i < j \/ (j = i /\ rev v <= rhash x) -> x ∈ out1.*1 \/ (i' < j \/ (j = i' /\ rev v' <= rhash x)))
      as (i' & v' & -> & Hi' & Hv' & Hc0 & Hsplit).
    { destruct Hc as [(i' & -> & Hi' & Hall & Hz)|(v' & -> & Hv' & Hp & Hall)].
      - exists i', 0. split; [done|]. split; [lia|]. split; [split; [lia|apply Z.pow_pos_nonneg; lia]|]. split; [apply pack_pos; lia|].
        intros x j Hj Hx [Hlt|[-> Hge]]; [|left; by apply Hall]. right. destruct (Z.lt_trichotomy j i') as [Hl|[->|Hg]]; [|right|by left].
        + rewrite (Hz j) in Hx by lia. by apply not_elem_of_nil in Hx.
        + split; [done|]. rewrite rev_0. apply rev_range, (hash_range (stored := false)).
      - exists i, v'. split; [done|]. split; [done|]. split; [lia|]. split; [apply pack_pos; lia|].
        intros x j Hj Hx [Hlt|[-> Hge]]; [right; by left|]. destruct (Z.lt_ge_cases (rhash x) (rev v')); [left; by apply Hall|right; right; by split]. }
    destruct (Z.eqb_spec (pack b i' v') 0) as [?|_]; [done|]. destruct (kvs_scan_run kvss (pack b i' v')) as [out2|] eqn:E2; [|done]. injection Hrun as <-.
    destruct (IH esss' i' v' out2 Hks Hi' Hv' E2) as [IH1 IH2]. rewrite fmap_app. split.
    + intros x j Hj HF Hpos. inversion HF as [|?? Hx HF']; subst. apply elem_of_app. destruct (Hsplit x j Hj Hx Hpos) as [Ho|Ho]; [by left|right]. by apply (IH1 x j).
    + intros x Hx. apply elem_of_app in Hx as [Hx|Hx]; [by apply Hone|right; by apply IH2].
Qed.
End Run.
End Store.

(** ** Histories of a store *)

Inductive kvs_op `{T : DictType} :=
  | KAdd (i : Z) (key : dkey) (val : dval)
  | KDelete (i : Z) (key : dkey)
  | KUnlink (i : Z) (key : dkey)
  | KFetch (i : Z) (key : dkey)
  | KEmpty
  | KExpand (size : Z)
  | KDictExpand (i size : Z)
  | KTryResize (limit : Z).

Section History.
Context `{T : DictType} `{!DictTypeOk T false}.
Notation entry := (dkey * option dval)%type.

Definition run_kvs_op (resize : dictResizeEnable) (kvs : kvstore) (op : kvs_op) : option (kvstore * dict_result) :=
  match op with
  | KAdd i k v => '(kvs, r) ← kvs_add resize kvs i k v; Some (kvs, RBool r)
  | KDelete i k => '(kvs, r) ← kvstoreDictDelete resize kvs i k; Some (kvs, RBool r)
  | KUnlink i k => '(kvs, r) ← kvs_unlink resize kvs i k; Some (kvs, RBool r)
  | KFetch i k => '(kvs, r) ← kvstoreDictFetchValue resize kvs i k; Some (kvs, RVal r)
  | KEmpty => kvs ← kvstoreEmpty kvs; Some (kvs, RNone)
  | KExpand size => '(kvs, _) ← kvstoreExpand kvs size None (fun _ => false); Some (kvs, RNone)
  | KDictExpand i size => '(kvs, _) ← kvstoreDictExpand kvs i size; Some (kvs, RNone)
  | KTryResize limit => kvs ← kvstoreTryResizeDicts resize kvs limit; Some (kvs, RNone)
  end.

Fixpoint run_kvs_ops (kvs : kvstore) (ops : list (dictResizeEnable * kvs_op)) : option (kvstore * list dict_result) :=
  match ops with
  | [] => Some (kvs, [])
  | (resize, op) :: ops => '(kvs, r) ← run_kvs_op resize kvs op; '(kvs, rs) ← run_kvs_ops kvs ops; Some (kvs, r :: rs)
  end.

(** The same on an array of finite maps. *)
Definition maps_op (ess : list (list entry)) (op : kvs_op) : list (list entry) * dict_result :=
  let at_ i := default [] (ess !! Z.to_nat i) in
  match op with
  | KAdd i k v => (<[Z.to_nat i := map_add false k v (at_ i)]> ess, RBool (negb (has_key false k (at_ i))))
  | KDelete i k | KUnlink i k => (<[Z.to_nat i := map_delete false k (at_ i)]> ess, RBool (has_key false k (at_ i)))
  | KFetch i k => (ess, RVal (map_get false k (at_ i)))
  | KEmpty => (replicate (length ess) [], RNone)
  | KExpand _ | KDictExpand _ _ | KTryResize _ => (ess, RNone)
  end.

Fixpoint maps_ops (ess : list (list entry)) (ops : list (dictResizeEnable * kvs_op)) : list (list entry) * list dict_result :=
  match ops with
  | [] => (ess, [])
  | (_, op) :: ops => let '(ess, r) := maps_op ess op in let '(ess, rs) := maps_ops ess ops in (ess, r :: rs)
  end.

Definition kvs_op_ok (b : Z) (op : kvs_op) : Prop :=
  match op with
  | KAdd i _ _ | KDelete i _ | KUnlink i _ | KFetch i _ => 0 <= i < 2 ^ b
  | KDictExpand i size => 0 <= i < 2 ^ b /\ 0 <= size < 2 ^ 64
  | KExpand size => 0 <= size < 2 ^ 64
  | KEmpty | KTryResize _ => True
  end.

Lemma maps_op_total ess op : total (maps_op ess op).1 <= total ess + 1.
Proof.
  pose proof (zsum_nonneg _ (sizes_pos ess)) as H0. fold (total ess) in H0.
  assert (forall i es', zlen es' <= zlen (default [] (ess !! i)) + 1 -> total (<[i := es']> ess) <= total ess + 1) as Hins.
  { intros i es' Hl. destruct (ess !! i) as [es|] eqn:E; [rewrite (keys_total_insert ess i es es' E); simpl in Hl; lia|].
    rewrite list_insert_ge by (by apply lookup_ge_None). lia. }
  destruct op; cbn [maps_op fst]; try lia; [apply Hins..|].
  - unfold map_add. destruct (has_key _ _ _); [lia|rewrite zlen_cons; lia].
  - unfold map_delete, zlen. pose proof (length_filter (fun e : entry => keq (stored := false) key e.1 = false) (default [] (ess !! Z.to_nat i))). lia.
  - unfold map_delete, zlen. pose proof (length_filter (fun e : entry => keq (stored := false) key e.1 = false) (default [] (ess !! Z.to_nat i))). lia.
  - unfold total. rewrite sizes_none, zsum_zeros. fold (total ess). lia.
Qed.

Lemma run_kvs_op_spec resize kvs ess op : no_value = false -> KvsInv kvs ess -> total ess + 1 < 2 ^ 59 -> kvs_op_ok (num_dicts_bits kvs) op ->
  exists kvs', run_kvs_op resize kvs op = Some (kvs', (maps_op ess op).2) /\ KvsInv kvs' (maps_op ess op).1.
Proof.
  intros Hnv HK Ht Hop. pose proof (proj1 HK) as Hs.
  assert (forall i, 0 <= i < 2 ^ num_dicts_bits kvs -> ess !! Z.to_nat i = Some (default [] (ess !! Z.to_nat i))) as Hat.
  { intros i Hi. destruct (get_dict kvs ess i Hs Hi) as (_ & es & _ & _ & -> & _). done. }
  destruct op as [i k v|i k|i k|i k| |size|i size|limit]; cbn [run_kvs_op maps_op fst snd]; simpl in Hop.
  - destruct (add_ok resize kvs ess i _ k v Hnv HK ltac:(lia) Hop (Hat i Hop)) as (kvs' & -> & HK' & _). by exists kvs'.
  - destruct (delete_ok resize kvs ess i _ k HK ltac:(lia) Hop (Hat i Hop)) as (kvs' & -> & HK' & _). by exists kvs'.
  - destruct (unlink_ok resize kvs ess i _ k HK ltac:(lia) Hop (Hat i Hop)) as (kvs' & -> & HK'). by exists kvs'.
  - destruct (fetch_ok resize kvs ess i _ k Hnv HK ltac:(lia) Hop (Hat i Hop)) as (kvs' & -> & HK' & _). by exists kvs'.
  - destruct (empty_ok kvs ess HK) as (kvs' & -> & HK'). by exists kvs'.
  - unfold kvstoreExpand. destruct (expand_loop_ok size None (fun _ => false) (Z.to_nat (num_dicts kvs)) kvs ess 0 HK) as (kvs' & ok & -> & HK'); [lia|done|lia| |by exists kvs'].
    rewrite (ks_num _ _ Hs). pose proof (ks_bits _ _ Hs). pose proof (Z.pow_pos_nonneg 2 (num_dicts_bits kvs)). lia.
  - destruct (dict_expand_ok kvs ess i size HK (proj2 Hop) (proj1 Hop)) as (kvs' & ok & -> & HK'). by exists kvs'.
  - unfold kvstoreTryResizeDicts. destruct (resize_loop_ok resize (Z.to_nat (Z.min limit (num_dicts kvs))) kvs ess HK ltac:(lia)) as (kvs' & -> & HK'). by exists kvs'.
Qed.

Lemma maps_op_len (ess : list (list entry)) op : length (maps_op ess op).1 = length ess.
Proof. destruct op; cbn [maps_op fst]; rewrite ?length_insert, ?length_replicate; done. Qed.

Lemma run_kvs_ops_spec ops : forall kvs ess, no_value = false -> KvsInv kvs ess -> total ess + zlen ops < 2 ^ 59 -> Forall (fun op => kvs_op_ok (num_dicts_bits kvs) op.2) ops ->
  exists kvs', run_kvs_ops kvs ops = Some (kvs', (maps_ops ess ops).2) /\ KvsInv kvs' (maps_ops ess ops).1 /\ total (maps_ops ess ops).1 <= total ess + zlen ops.
Proof.
  induction ops as [|[resize op] ops IH]; intros kvs ess Hnv HK Ht Hops.
  { exists kvs. split; [done|]. split; [done|]. change (zlen (@nil (dictResizeEnable * kvs_op))) with 0. simpl. lia. }
  inversion Hops as [|?? Hop Hrest]; subst. rewrite zlen_cons in *. pose proof (zlen_nonneg ops). cbn [run_kvs_ops maps_ops].
  destruct (run_kvs_op_spec resize kvs ess op Hnv HK ltac:(lia) Hop) as (kvs1 & -> & HK1). pose proof (maps_op_total ess op) as Ht1. pose proof (maps_op_len ess op) as Hl1.
  assert (num_dicts_bits kvs1 = num_dicts_bits kvs) as Eb by (apply (same_bits kvs kvs1 ess _ (proj1 HK) (proj1 HK1)); unfold zlen; by rewrite Hl1).
  destruct (maps_op ess op) as [ess1 r]. cbn [mbind option_bind fst snd] in *.
  destruct (IH kvs1 ess1 Hnv HK1) as (kvs2 & -> & HK2 & Ht2); [lia|by rewrite Eb|]. destruct (maps_ops ess1 ops) as [ess2 rs]. cbn [mbind option_bind fst snd] in *.
  exists kvs2. split; [done|]. split; [done|lia].
Qed.
End History.

(** ** The theorems *)

Section Theorems.
Context `{T : DictType} `{!DictTypeOk T false}.
Notation entry := (dkey * option dval)%type.

(** C4: from kvstoreCreate with 2^0 to 2^16 dictionaries, allocated and freed on demand or not, any
    sequence of additions, deletions in one or two phases, lookups, clearings and resizings
    returns what it returns on an array of finite maps, and keeps the invariant: every
    dictionary well formed, the numbers of keys, of non-empty and of allocated dictionaries
    exact, and the binary indexed tree holding the sums of its ranges; no failed assert, no NULL
    dictionary *)
Theorem kvs_history_refines_maps bits on_demand free_empty ops :
  0 <= bits <= 16 -> no_value = false -> zlen ops < 2 ^ 59 -> Forall (fun op => kvs_op_ok bits op.2) ops ->
  let ess := maps_ops (replicate (Z.to_nat (2 ^ bits)) []) ops in
  exists kvs kvs', kvstoreCreate bits on_demand free_empty = Some kvs /\ run_kvs_ops kvs ops = Some (kvs', ess.2) /\ KvsInv kvs' ess.1 /\
    kvstoreSize kvs' = Some (total ess.1) /\ kvstoreNumNonEmptyDicts kvs' = nonempties ess.1 /\ kvstoreNumAllocatedDicts kvs' = allocateds (dicts kvs').
Proof.
  intros Hb Hnv Hl Hops ess. destruct (kvs_create_ok bits on_demand free_empty Hb) as (kvs & E & HK & Eb).
  assert (total (replicate (Z.to_nat (2 ^ bits)) (@nil entry)) = 0) as Et by (unfold total; by rewrite sizes_none, zsum_zeros).
  destruct (run_kvs_ops_spec ops kvs _ Hnv HK) as (kvs' & E' & HK' & Ht'); [lia|by rewrite Eb|]. fold ess in E', HK', Ht'.
  exists kvs, kvs'. split; [done|]. split; [done|]. split; [done|]. split; [apply kvs_size; [done|lia]|].
  split; [apply (kc_nonempty _ _ (proj2 HK'))|apply (ks_alloc _ _ (proj1 HK'))].
Qed.

(** C5: reading the binary indexed tree gives the number of keys up to a dictionary, the descent by
    powers of two finds the dictionary that holds the n-th key of the store, the random choice
    hits a dictionary in proportion to its keys, and the next non-empty dictionary is found or
    reported missing *)
Theorem kvs_index_correct kvs ess :
  KvsInv kvs ess -> total ess < 2 ^ 59 ->
  (forall i, 0 <= i < zlen ess -> cumulativeKeyCountRead kvs i = Some (psum (sizes ess) (i + 1))) /\
  (forall t, 1 <= t <= total ess -> exists r, kvstoreFindDictIndexByKeyIndex kvs t = Some r /\ holds_key ess t r) /\
  (forall rnd, 0 < total ess -> exists r, kvstoreGetFairRandomDictIndex kvs rnd = Some r /\ holds_key ess (rnd mod total ess + 1) r) /\
  (forall i, 0 <= i < zlen ess -> exists r, kvstoreGetNextNonEmptyDictIndex kvs i = Some r /\
    ((r = -1 /\ forall j, i < j < zlen ess -> size_at ess j = 0) \/
     (i < r < zlen ess /\ 0 < size_at ess r /\ forall j, i < j < r -> size_at ess j = 0))).
Proof.
  intros HK Ht. pose proof (ks_len _ _ (proj1 HK)) as Hl. split; [|split; [|split]].
  - intros i Hi. apply read_ok; [done|done|lia].
  - intros t Htr. by apply find_index_ok.
  - intros rnd Hp. unfold kvstoreGetFairRandomDictIndex. rewrite (kvs_size kvs ess HK Ht). cbn [mbind option_bind].
    replace (total ess =? 0) with false by lia. cbn [negb]. pose proof (Z.mod_pos_bound rnd (total ess) Hp).
    rewrite wrapu_small by lia. apply find_index_ok; [done|done|lia].
  - intros i Hi. apply find_next_ok; [done|done|lia].
Qed.

(** C6: a scan of a store of 2^b dictionaries of at most 2^E buckets each, with any changes between
    the calls, ends after at most 2^(b+E) calls, returns every key that was there during the
    whole scan, and no key that never was; the index of the dictionary and its cursor share one
    64-bit cursor *)
Theorem kvs_scan_complete b E kvss esss :
  0 <= b -> 0 <= E -> b + E <= 64 -> Forall2 (kvs_scannable b E) kvss esss -> 2 ^ (b + E) <= zlen kvss ->
  exists out, kvs_scan_run kvss 0 = Some out /\
    (forall x j, 0 <= j < 2 ^ b -> Forall (fun ess => x ∈ keys_at ess j) esss -> x ∈ out.*1) /\
    (forall x, x ∈ out.*1 -> Exists (fun ess => exists j, 0 <= j < 2 ^ b /\ x ∈ keys_at ess j) esss).
Proof.
  intros Hb HE HbE Hs Hn. pose proof (Z.pow_pos_nonneg 2 b ltac:(lia) ltac:(lia)) as Hpb. pose proof (Z.pow_pos_nonneg 2 E ltac:(lia) ltac:(lia)) as HpE.
  destruct (kvs_scan_returns b E Hb HE HbE kvss esss 0 0 Hs) as [out Hout]; [lia|lia| |].
  { rewrite rev_0, Z.div_0_l by (pose proof (stride_pos E ltac:(lia)); lia). rewrite Z.pow_add_r in Hn by lia. lia. }
  destruct (kvs_scan_emits b E Hb HE HbE kvss esss 0 0 out Hs ltac:(lia) ltac:(lia) Hout) as [H1 H2]. exists out. split; [done|]. split; [|done].
  intros x j Hj HF. apply (H1 x j Hj HF). destruct (Z.eq_dec j 0) as [->|]; [right; split; [done|]|left; lia].
  rewrite rev_0. apply rev_range, (hash_range (stored := false)).
Qed.
End Theorems.

(** ** Instances *)

Section Witnesses.
#[local] Existing Instance Sample.IntDict.
#[local] Existing Instance Sample.IntDictOk.

Definition sample_ops : list (dictResizeEnable * kvs_op) :=
  [(DICT_RESIZE_ENABLE, KAdd 1 7 70); (DICT_RESIZE_ENABLE, KAdd 3 8 80); (DICT_RESIZE_ENABLE, KAdd 3 9 90);
   (DICT_RESIZE_ENABLE, KAdd 1 7 71); (DICT_RESIZE_FORBID, KFetch 3 9); (DICT_RESIZE_ENABLE, KUnlink 1 7)].

Lemma kvs_history_witness :
  exists kvs kvs', kvstoreCreate 2 true true = Some kvs /\
    run_kvs_ops kvs sample_ops = Some (kvs', [RBool true; RBool true; RBool true; RBool false; RVal (Some 90); RBool true]) /\ kvstoreSize kvs' = Some 2.
Proof.
  destruct (kvs_history_refines_maps 2 true true sample_ops) as (kvs & kvs' & E & E' & _ & Es & _).
  - lia.
  - done.
  - by vm_compute.
  - repeat constructor; simpl; lia.
  - exists kvs, kvs'. split; [done|]. split; [exact E'|exact Es].
Defined.

Definition sample_ess : list (list (@dkey Sample.IntDict * option (@dval Sample.IntDict))) := [[]; []; []; [(9, Some 90); (8, Some 80)]].
Definition sample_kvs : kvstore :=
  match kvs ← kvstoreCreate 2 true true; run_kvs_ops kvs sample_ops with
  | Some (kvs, _) => kvs
  | None => {| allocate_on_demand := true; free_empty_dicts := true; dicts := []; num_dicts := 0; num_dicts_bits := 0; resize_cursor := 0;
               allocated_dicts := 0; non_empty_dicts := 0; key_count := 0; dict_size_index := None |}
  end.

Lemma sample_inv : KvsInv sample_kvs sample_ess.
Proof.
  destruct (kvs_create_ok 2 true true ltac:(lia)) as (kvs & E & HK & Eb).
  destruct (run_kvs_ops_spec sample_ops kvs _ eq_refl HK) as (kvs' & E' & HK' & _); [by vm_compute|rewrite Eb; repeat constructor; simpl; lia|].
  unfold sample_kvs. rewrite E. cbn [mbind option_bind]. rewrite E'. exact HK'.
Qed.

Lemma kvs_index_witness : exists r, kvstoreFindDictIndexByKeyIndex sample_kvs 2 = Some r /\ holds_key sample_ess 2 r.
Proof.
  destruct (kvs_index_correct sample_kvs sample_ess) as (_ & H & _); [apply sample_inv|by vm_compute|]. apply H. vm_compute. split; discriminate.
Defined.

Lemma kvs_scan_witness : exists out, kvs_scan_run (replicate 16 sample_kvs) 0 = Some out /\ 9 ∈ out.*1.
Proof.
  destruct (kvs_scan_complete 2 2 (replicate 16 sample_kvs) (replicate 16 sample_ess)) as (out & E & H & _).
  - lia.
  - lia.
  - lia.
  - apply Forall2_replicate. split; [apply sample_inv|]. split; [by vm_compute|]. split; [by vm_compute|].
    assert (forallb (fun d : option dict => match d with Some d => size_exp (ht0 d) <=? 2 | None => true end) (dicts sample_kvs) = true) as Hb by (by vm_compute).
    rewrite forallb_forall in Hb. apply Forall_forall. intros d Hd. apply list_elem_of_In in Hd. specialize (Hb d Hd). destruct d as [d|]; [lia|done].
  - by vm_compute.
  - exists out. split; [exact E|]. apply (H 9 3); [lia|]. apply Forall_replicate. left.
Defined.
End Witnesses.
