(* ===== verification/Hll.v ===== *)
(** * HyperLogLog ([hyperloglog.c]) and the string headers it relies on ([sds.c], [sds.h])

    An sds string is its header type, its length, the capacity the header records and the memory
    behind the pointer, capacity plus one byte, so that bytes past the length exist but are
    indeterminate.  A HyperLogLog is such a string: a header of 16 bytes and 16384 registers, dense
    (6 bits each) or sparse (runs coded by opcodes).  [usable_size] is what the allocator reports
    for a request; the floating point estimate of a histogram of registers is an interface. *)
From S2P Require Import Prelude Split.

(** ** Strings *)

Record sds := { s_type : sdstype; sdslen : Z; sdsalloc : Z; s_mem : list Z }.

Class Usable := { usable_size : Z -> Z; usable_size_ge n : n <= usable_size n }.

Definition sdsTypeMaxSize (t : sdstype) : Z :=
  match t with
  | SDS_TYPE_5 => 2 ^ 5 - 1 | SDS_TYPE_8 => 2 ^ 8 - 1 | SDS_TYPE_16 => 2 ^ 16 - 1
  | SDS_TYPE_32 => 2 ^ 32 - 1 | SDS_TYPE_64 => u64 (-1)
  end.

(** The order of the constants of the types. *)
Definition type_num (t : sdstype) : Z :=
  match t with SDS_TYPE_5 => 0 | SDS_TYPE_8 => 1 | SDS_TYPE_16 => 2 | SDS_TYPE_32 => 3 | SDS_TYPE_64 => 4 end.

Definition sdsavail (s : sds) : Z := if is_type5 (s_type s) then 0 else sdsalloc s - sdslen s.

Section Sds.
Context `{Allocator} `{Usable}.

(** [init] is [None] for NULL, which fills the string with zero bytes.  The header of type 5 has no
    field for the capacity: it is the length. *)
Definition sdsnewlen (init : option (list Z)) (initlen : Z) : option sds :=
  let type := sdsReqType initlen in
  let type := if is_type5 type && (initlen =? 0) then SDS_TYPE_8 else type in
  let hdrlen := sdsHdrSize type in
  assert_true (u64 (initlen + hdrlen + 1) >? initlen) ;;
  let usable := usable_size (hdrlen + initlen + 1) - hdrlen - 1 in
  let usable := if usable >? sdsTypeMaxSize type then sdsTypeMaxSize type else usable in
  let alloc := if is_type5 type then initlen else usable in
  let mem := fresh_bytes (Z.to_nat (alloc + 1)) in
  mem ← match init with
        | None => mem_write mem 0 (replicate (Z.to_nat (initlen + 1)) 0)
        | Some bytes => mem_write mem 0 bytes
        end;
  mem ← setb mem initlen 0;
  Some {| s_type := type; sdslen := initlen; sdsalloc := alloc; s_mem := mem |}.

Definition sdsResize (s : sds) (size : Z) (would_regrow : bool) : option sds :=
  if sdsalloc s =? size then Some s
  else
    let len := if size <? sdslen s then size else sdslen s in
    let type := sdsReqType size in
    let type := if would_regrow && is_type5 type then SDS_TYPE_8 else type in
    let oldtype := s_type s in
    let use_realloc := bool_decide (oldtype = type) || ((type_num type <? type_num oldtype) && (type_num type >? type_num SDS_TYPE_8)) in
    mem ← (if use_realloc then Some (mem_resize (s_mem s) (size + 1))
           else bytes ← mem_read (s_mem s) 0 len; mem_write (fresh_bytes (Z.to_nat (size + 1))) 0 bytes);
    let newtype := if use_realloc then oldtype else type in
    mem ← setb mem len 0;
    Some {| s_type := newtype; sdslen := len; sdsalloc := if is_type5 newtype then len else size; s_mem := mem |}.

(** The assertions of the five header types. *)
Definition sdsIncrLen (s : sds) (incr : Z) : option sds :=
  let len := sdslen s in
  assert_true match s_type s with
    | SDS_TYPE_5 => ((incr >? 0) && (len + incr <? 32)) || ((incr <? 0) && (len >=? u32 (- incr)))
    | SDS_TYPE_8 | SDS_TYPE_16 => ((incr >=? 0) && (sdsalloc s - len >=? incr)) || ((incr <? 0) && (len >=? u32 (- incr)))
    | SDS_TYPE_32 => ((incr >=? 0) && (u32 (sdsalloc s - len) >=? u32 incr)) || ((incr <? 0) && (len >=? u32 (- incr)))
    | SDS_TYPE_64 => ((incr >=? 0) && (u64 (sdsalloc s - len) >=? u64 incr)) || ((incr <? 0) && (len >=? u64 (- incr)))
    end ;;
  let len := len + incr in
  mem ← setb (s_mem s) len 0;
  Some {| s_type := s_type s; sdslen := len; sdsalloc := if is_type5 (s_type s) then len else sdsalloc s; s_mem := mem |}.

End Sds.

(** ** Constants and the header *)

Definition HLL_P := 14.
Definition HLL_Q := 50.
Definition HLL_REGISTERS := 16384.
Definition HLL_P_MASK := 16383.
Definition HLL_BITS := 6.
Definition HLL_REGISTER_MAX := 63.
Definition HLL_HDR_SIZE := 16.
Definition HLL_DENSE_SIZE := HLL_HDR_SIZE + (HLL_REGISTERS * HLL_BITS + 7) / 8.
Definition HLL_DENSE := 0.
Definition HLL_SPARSE := 1.
Definition HLL_RAW := 255.
Definition HLL_MAX_ENCODING := 1.
Definition HLL_SPARSE_VAL_MAX_VALUE := 32.
Definition HLL_SPARSE_VAL_MAX_LEN := 4.
Definition HLL_SPARSE_ZERO_MAX_LEN := 64.
Definition HLL_SPARSE_XZERO_MAX_LEN := 16384.

(** The magic is at 0, the encoding at 4, the cached cardinality at 8. *)
Definition hdr_encoding (m : list Z) : option Z := getb m 4.

(** Read, modify and write one byte. *)
Definition modb (m : list Z) (i : Z) (f : Z -> Z) : option (list Z) := b ← getb m i; setb m i (u8 (f b)).

Definition HLL_INVALIDATE_CACHE (m : list Z) : option (list Z) := modb m 15 (fun b => Z.lor b (Z.shiftl 1 7)).
Definition HLL_VALID_CACHE (m : list Z) : option bool := b ← getb m 15; Some (Z.land b (Z.shiftl 1 7) =? 0).

(** ** Registers of the dense representation

    [p] is the offset of the registers; the product is computed in the type of the register number,
    of [w] bits. *)
Definition HLL_DENSE_GET_REGISTER (w : Z) (m : list Z) (p regnum : Z) : option Z :=
  let byte := Z.quot (wraps w (regnum * HLL_BITS)) 8 in
  let fb := Z.land (wraps w (regnum * HLL_BITS)) 7 in
  let fb8 := 8 - fb in
  b0 ← getb m (p + byte);
  b1 ← getb m (p + byte + 1);
  Some (Z.land (Z.lor (Z.shiftr b0 fb) (Z.shiftl b1 fb8)) HLL_REGISTER_MAX).

Definition HLL_DENSE_SET_REGISTER (w : Z) (m : list Z) (p regnum v : Z) : option (list Z) :=
  let byte := Z.quot (wraps w (regnum * HLL_BITS)) 8 in
  let fb := Z.land (wraps w (regnum * HLL_BITS)) 7 in
  let fb8 := 8 - fb in
  m ← modb m (p + byte) (fun b => Z.land b (Z.lnot (Z.shiftl HLL_REGISTER_MAX fb)));
  m ← modb m (p + byte) (fun b => Z.lor b (Z.shiftl v fb));
  m ← modb m (p + byte + 1) (fun b => Z.land b (Z.lnot (Z.shiftr HLL_REGISTER_MAX fb8)));
  modb m (p + byte + 1) (fun b => Z.lor b (Z.shiftr v fb8)).

(** ** Opcodes of the sparse representation *)

Definition HLL_SPARSE_IS_ZERO (b : Z) : bool := Z.land b 192 =? 0.
Definition HLL_SPARSE_IS_XZERO (b : Z) : bool := Z.land b 192 =? 64.
Definition HLL_SPARSE_IS_VAL (b : Z) : bool := negb (Z.land b 128 =? 0).
Definition HLL_SPARSE_ZERO_LEN (b : Z) : Z := Z.land b 63 + 1.
Definition HLL_SPARSE_XZERO_LEN (b b1 : Z) : Z := Z.lor (Z.shiftl (Z.land b 63) 8) b1 + 1.
Definition HLL_SPARSE_VAL_VALUE (b : Z) : Z := Z.land (Z.shiftr b 2) 31 + 1.
Definition HLL_SPARSE_VAL_LEN (b : Z) : Z := Z.land b 3 + 1.
Definition HLL_SPARSE_VAL_SET (val len : Z) : list Z := [u8 (Z.lor (Z.lor (Z.shiftl (val - 1) 2) (len - 1)) 128)].
Definition HLL_SPARSE_ZERO_SET (len : Z) : list Z := [u8 (len - 1)].
Definition HLL_SPARSE_XZERO_SET (len : Z) : list Z :=
  let l := s32 (len - 1) in [u8 (Z.lor (Z.shiftr l 8) 64); u8 (Z.land l 255)].

(** ** The hash *)

Definition murmur_m : Z := 14313749767032793493.

(** A block of eight bytes: the load of a word where the byte order is little endian, shifts elsewhere. *)
Definition murmur_block (big : bool) (key : list Z) (data : Z) : option Z :=
  bs ← mem_read key data 8;
  if big then
    Some (foldl (fun k j => Z.lor k (Z.shiftl (nth j bs 0) (8 * Z.of_nat j))) (nth 0 bs 0) [1; 2; 3; 4; 5; 6; 7]%nat)
  else Some (le_join bs).

Definition murmur_mix (h k : Z) : Z :=
  let k := u64 (k * murmur_m) in
  let k := Z.lxor k (Z.shiftr k 47) in
  let k := u64 (k * murmur_m) in
  let h := Z.lxor h k in
  u64 (h * murmur_m).

Definition murmur_body (big : bool) (key : list Z) (end_ : Z) (st : Z * Z) : option (Z * Z + Z * Z) :=
  let '(data, h) := st in
  if data =? end_ then Some (inr (data, h))
  else k ← murmur_block big key data; Some (inl (data + 8, murmur_mix h k)).

(** The switch on the rest: each case falls through to the next. *)
Definition murmur_tail (key : list Z) (data h rest : Z) : option Z :=
  h ← foldl (fun (h : option Z) j => h ← h; if j <? rest then b ← getb key (data + j); Some (Z.lxor h (u64 (Z.shiftl b (8 * j)))) else Some h)
        (Some h) [6; 5; 4; 3; 2; 1; 0];
  Some (if 0 <? rest then u64 (h * murmur_m) else h).

Definition MurmurHash64A (big : bool) (key : list Z) (len seed : Z) : option Z :=
  let h := Z.lxor seed (u64 (u64 len * murmur_m)) in
  '(data, h) ← loop (S (length key)) (murmur_body big key (len - Z.land len 7)) (0, h);
  h ← murmur_tail key data h (Z.land len 7);
  let h := Z.lxor h (Z.shiftr h 47) in
  let h := u64 (h * murmur_m) in
  Some (Z.lxor h (Z.shiftr h 47)).

Definition patlen_body (hash : Z) (st : Z * Z) : option (Z * Z + Z) :=
  let '(bit, count) := st in
  if Z.land hash bit =? 0 then Some (inl (u64 (Z.shiftl bit 1), count + 1)) else Some (inr count).

(** The count and the register. *)
Definition hllPatLen (big : bool) (ele : list Z) : option (Z * Z) :=
  hash ← MurmurHash64A big ele (s32 (zlen ele)) 2915580697;
  let index := Z.land hash HLL_P_MASK in
  let hash := Z.shiftr hash HLL_P in
  let hash := Z.lor hash (Z.shiftl 1 HLL_Q) in
  count ← loop 64 (patlen_body hash) (1, 1);
  Some (count, s32 index).

(** ** Dense representation *)

(** [m] holds the registers from [p] on; the answer tells whether the register changed. *)
Definition hllDenseSet (m : list Z) (p index count : Z) : option (list Z * bool) :=
  oldcount ← HLL_DENSE_GET_REGISTER 64 m p index;
  if count >? oldcount then m ← HLL_DENSE_SET_REGISTER 64 m p index count; Some (m, true)
  else Some (m, false).

Definition hllDenseAdd (big : bool) (m : list Z) (p : Z) (ele : list Z) : option (list Z * bool) :=
  '(count, index) ← hllPatLen big ele;
  hllDenseSet m p index (u8 count).

(** [reghisto[r] += n], in an array of [int]. *)
Definition histo_add (h : list Z) (r n : Z) : option (list Z) := x ← getb h r; setb h r (s32 (x + n)).

Fixpoint histo_incr (h : list Z) (rs : list Z) : option (list Z) :=
  match rs with
  | [] => Some h
  | r :: rs => h ← histo_add h r 1; histo_incr h rs
  end.

(** The sixteen registers in the twelve bytes at [r]. *)
Definition unrolled_registers (m : list Z) (r : Z) : option (list Z) :=
  r0 ← getb m r; r1 ← getb m (r + 1); r2 ← getb m (r + 2); r3 ← getb m (r + 3);
  r4 ← getb m (r + 4); r5 ← getb m (r + 5); r6 ← getb m (r + 6); r7 ← getb m (r + 7);
  r8 ← getb m (r + 8); r9 ← getb m (r + 9); r10 ← getb m (r + 10); r11 ← getb m (r + 11);
  Some [Z.land r0 63;
        Z.land (Z.lor (Z.shiftr r0 6) (Z.shiftl r1 2)) 63;
        Z.land (Z.lor (Z.shiftr r1 4) (Z.shiftl r2 4)) 63;
        Z.land (Z.shiftr r2 2) 63;
        Z.land r3 63;
        Z.land (Z.lor (Z.shiftr r3 6) (Z.shiftl r4 2)) 63;
        Z.land (Z.lor (Z.shiftr r4 4) (Z.shiftl r5 4)) 63;
        Z.land (Z.shiftr r5 2) 63;
        Z.land r6 63;
        Z.land (Z.lor (Z.shiftr r6 6) (Z.shiftl r7 2)) 63;
        Z.land (Z.lor (Z.shiftr r7 4) (Z.shiftl r8 4)) 63;
        Z.land (Z.shiftr r8 2) 63;
        Z.land r9 63;
        Z.land (Z.lor (Z.shiftr r9 6) (Z.shiftl r10 2)) 63;
        Z.land (Z.lor (Z.shiftr r10 4) (Z.shiftl r11 4)) 63;
        Z.land (Z.shiftr r11 2) 63].

Fixpoint dense_histo_fast (turns : nat) (m : list Z) (r : Z) (h : list Z) : option (list Z) :=
  match turns with
  | O => Some h
  | S turns => rs ← unrolled_registers m r; h ← histo_incr h rs; dense_histo_fast turns m (r + 12) h
  end.

Fixpoint dense_histo_slow (turns : nat) (m : list Z) (p j : Z) (h : list Z) : option (list Z) :=
  match turns with
  | O => Some h
  | S turns => reg ← HLL_DENSE_GET_REGISTER 32 m p j; h ← histo_add h reg 1; dense_histo_slow turns m p (j + 1) h
  end.

Definition hllDenseRegHisto (m : list Z) (p : Z) (reghisto : list Z) : option (list Z) :=
  if (HLL_REGISTERS =? 16384) && (HLL_BITS =? 6) then dense_histo_fast (Z.to_nat 1024) m p reghisto
  else dense_histo_slow (Z.to_nat HLL_REGISTERS) m p 0 reghisto.

(** ** Sparse representation *)

(** The run of the opcode at [p]: its bytes, its registers and their value. *)
Definition sparse_run (m : list Z) (p : Z) : option (Z * Z * Z) :=
  b ← getb m p;
  if HLL_SPARSE_IS_ZERO b then Some (1, HLL_SPARSE_ZERO_LEN b, 0)
  else if HLL_SPARSE_IS_XZERO b then b1 ← getb m (p + 1); Some (2, HLL_SPARSE_XZERO_LEN b b1, 0)
  else Some (1, HLL_SPARSE_VAL_LEN b, HLL_SPARSE_VAL_VALUE b).

(** [while (runlen--)] over the registers of a run of values. *)
Fixpoint dense_fill (n : nat) (m : list Z) (p idx regval : Z) : option (list Z * Z) :=
  match n with
  | O => Some (m, idx)
  | S n => m ← HLL_DENSE_SET_REGISTER 32 m p idx regval; dense_fill n m p (s32 (idx + 1)) regval
  end.

(** One turn of the conversion: the offset, the register and the dense string. *)
Definition sparse_to_dense_body (m : list Z) (end_ : Z) (st : Z * Z * list Z) : option (Z * Z * list Z + Z * list Z) :=
  let '(p, idx, dense) := st in
  if p <? end_ then
    '(oplen, runlen, regval) ← sparse_run m p;
    if regval =? 0 then Some (inl (p + oplen, s32 (idx + runlen), dense))
    else if s32 (runlen + idx) >? HLL_REGISTERS then Some (inr (idx, dense))
    else '(dense, idx) ← dense_fill (Z.to_nat runlen) dense HLL_HDR_SIZE idx regval; Some (inl (p + oplen, idx, dense))
  else Some (inr (idx, dense)).

Section Hll.
Context `{Allocator} `{Usable}.

Definition set_mem (s : sds) (m : list Z) : sds :=
  {| s_type := s_type s; sdslen := sdslen s; sdsalloc := sdsalloc s; s_mem := m |}.

(** The string afterwards and C_OK. *)
Definition hllSparseToDense (o : sds) : option (sds * bool) :=
  enc ← hdr_encoding (s_mem o);
  if enc =? HLL_DENSE then Some (o, true)
  else
    dense ← sdsnewlen None HLL_DENSE_SIZE;
    hdr ← mem_read (s_mem o) 0 HLL_HDR_SIZE;
    m ← mem_write (s_mem dense) 0 hdr;
    m ← setb m 4 HLL_DENSE;
    '(idx, m) ← loop (S (length (s_mem o))) (sparse_to_dense_body (s_mem o) (sdslen o)) (HLL_HDR_SIZE, 0, m);
    if negb (idx =? HLL_REGISTERS) then Some (o, false) else Some (set_mem dense m, true).

(** Room for the opcodes of an update. *)
Definition sparse_enlarge (hll_sparse_max_bytes : Z) (o : sds) : option sds :=
  if (sdsalloc o <? hll_sparse_max_bytes) && (sdsavail o <? 3) then
    let newlen := sdslen o + 3 in
    let newlen := newlen + Z.min newlen 300 in
    let newlen := if newlen >? hll_sparse_max_bytes then hll_sparse_max_bytes else newlen in
    sdsResize o newlen true
  else Some o.

(** Step 1: the opcode that covers the register: its offset, the offset of the previous one, the
    first register and the number of registers. *)
Definition sparse_locate_body (m : list Z) (end_ index : Z) (st : Z * option Z * Z * Z)
    : option (Z * option Z * Z * Z + Z * option Z * Z * Z) :=
  let '(p, prev, first, span) := st in
  if p <? end_ then
    '(oplen, span, _) ← sparse_run m p;
    if index <=? first + span - 1 then Some (inr (p, prev, first, span))
    else Some (inl (p + oplen, Some p, first + span, span))
  else Some (inr (p, prev, first, span)).

(** Writing into the buffer of five bytes. *)
Definition seq_emit (seq bytes : list Z) : option (list Z) :=
  if zlen seq + zlen bytes <=? 5 then Some (seq ++ bytes) else None.

Definition zeros_op (len : Z) : list Z :=
  if len >? HLL_SPARSE_ZERO_MAX_LEN then HLL_SPARSE_XZERO_SET len else HLL_SPARSE_ZERO_SET len.

(** Step 2, case D: the opcodes that replace the one at [p], [curval] being 0 for a run of zeros. *)
Definition sparse_split (index first last count curval : Z) : option (list Z) :=
  let run len := if curval =? 0 then zeros_op len else HLL_SPARSE_VAL_SET curval len in
  seq ← (if negb (index =? first) then seq_emit [] (run (s32 (index - first))) else Some []);
  seq ← seq_emit seq (HLL_SPARSE_VAL_SET count 1);
  if negb (index =? last) then seq_emit seq (run (s32 (last - index))) else Some seq.

(** Step 4: merging adjacent values, [scanlen] opcodes from [p] on. *)
Fixpoint sparse_merge (scanlen : nat) (o : sds) (p : Z) : option sds :=
  match scanlen with
  | O => Some o
  | S scanlen =>
      let end_ := sdslen o in
      if p <? end_ then
        b ← getb (s_mem o) p;
        if HLL_SPARSE_IS_XZERO b then sparse_merge scanlen o (p + 2)
        else if HLL_SPARSE_IS_ZERO b then sparse_merge scanlen o (p + 1)
        else if p + 1 <? end_ then
          b1 ← getb (s_mem o) (p + 1);
          let len := HLL_SPARSE_VAL_LEN b + HLL_SPARSE_VAL_LEN b1 in
          if HLL_SPARSE_IS_VAL b1 && (HLL_SPARSE_VAL_VALUE b =? HLL_SPARSE_VAL_VALUE b1) && (len <=? HLL_SPARSE_VAL_MAX_LEN) then
            m ← mem_write (s_mem o) (p + 1) (HLL_SPARSE_VAL_SET (HLL_SPARSE_VAL_VALUE b) len);
            m ← memmove m p (p + 1) (end_ - p);
            o ← sdsIncrLen (set_mem o m) (-1);
            sparse_merge scanlen o p
          else sparse_merge scanlen o (p + 1)
        else sparse_merge scanlen o (p + 1)
      else Some o
  end.

(** The label [updated]. *)
Definition sparse_updated (o : sds) (prev : option Z) : option (sds * Z) :=
  o ← sparse_merge 5 o (default HLL_HDR_SIZE prev);
  m ← HLL_INVALIDATE_CACHE (s_mem o);
  Some (set_mem o m, 1).

(** The label [promote]. *)
Definition sparse_promote (o : sds) (index count : Z) : option (sds * Z) :=
  '(o, ok) ← hllSparseToDense o;
  if negb ok then Some (o, -1)
  else
    '(m, dense_retval) ← hllDenseSet (s_mem o) HLL_HDR_SIZE index count;
    assert_true dense_retval ;;
    Some (set_mem o m, 1).

(** Step 3: replacing the opcode of [oldlen] bytes at [p] by [seq]. *)
Definition sparse_replace (hll_sparse_max_bytes : Z) (o : sds) (p : Z) (prev next : option Z) (oldlen index count : Z)
    (seq : list Z) : option (sds * Z) :=
  let end_ := sdslen o in
  let deltalen := zlen seq - oldlen in
  if (deltalen >? 0) && (sdslen o + deltalen >? hll_sparse_max_bytes) then sparse_promote o index count
  else
    assert_true (u64 (sdslen o + deltalen) <=? sdsalloc o) ;;
    m ← match next with
        | Some next => if negb (deltalen =? 0) then memmove (s_mem o) (next + deltalen) next (end_ - next) else Some (s_mem o)
        | None => Some (s_mem o)
        end;
    o ← sdsIncrLen (set_mem o m) deltalen;
    m ← mem_write (s_mem o) p seq;
    sparse_updated (set_mem o m) prev.

(** The string afterwards and 1, 0 or -1. *)
Definition hllSparseSet (hll_sparse_max_bytes : Z) (o : sds) (index count : Z) : option (sds * Z) :=
  if count >? HLL_SPARSE_VAL_MAX_VALUE then sparse_promote o index count
  else
    o ← sparse_enlarge hll_sparse_max_bytes o;
    let m := s_mem o in
    let end_ := sdslen o in
    '(p, prev, first, span) ← loop (S (length m)) (sparse_locate_body m end_ index) (HLL_HDR_SIZE, None, 0, 0);
    if (span =? 0) || (p >=? end_) then Some (o, -1)
    else
      b ← getb m p;
      '(oldlen, runlen, oldcount) ← sparse_run m p;
      let next := if p + oldlen >=? end_ then None else Some (p + oldlen) in
      if HLL_SPARSE_IS_VAL b && (oldcount >=? count) then Some (o, 0)
      else if (HLL_SPARSE_IS_VAL b || HLL_SPARSE_IS_ZERO b) && (runlen =? 1) then
        m ← mem_write m p (HLL_SPARSE_VAL_SET count 1);
        sparse_updated (set_mem o m) prev
      else
        seq ← sparse_split index first (s32 (first + span - 1)) count oldcount;
        sparse_replace hll_sparse_max_bytes o p prev next oldlen index count seq.

Definition hllSparseAdd (big : bool) (hll_sparse_max_bytes : Z) (o : sds) (ele : list Z) : option (sds * Z) :=
  '(count, index) ← hllPatLen big ele;
  hllSparseSet hll_sparse_max_bytes o index (u8 count).

(** ** Histograms *)

(** The state is the offset, the register and the histogram. *)
Definition sparse_histo_body (m : list Z) (end_ : Z) (st : Z * Z * list Z) : option (Z * Z * list Z + Z * list Z) :=
  let '(p, idx, h) := st in
  if p <? end_ then
    '(oplen, runlen, regval) ← sparse_run m p;
    h ← histo_add h regval runlen;
    Some (inl (p + oplen, s32 (idx + runlen), h))
  else Some (inr (idx, h)).

(** The histogram and [invalid]. *)
Definition hllSparseRegHisto (m : list Z) (sparse sparselen : Z) (reghisto : list Z) : option (list Z * bool) :=
  '(idx, h) ← loop (S (length m)) (sparse_histo_body m (sparse + sparselen)) (sparse, 0, reghisto);
  Some (h, negb (idx =? HLL_REGISTERS)).

Fixpoint raw_histo (turns : nat) (m : list Z) (word : Z) (h : list Z) : option (list Z) :=
  match turns with
  | O => Some h
  | S turns =>
      bytes ← mem_read m word 8;
      h ← (if le_join bytes =? 0 then histo_add h 0 8 else histo_incr h bytes);
      raw_histo turns m (word + 8) h
  end.

Definition hllRawRegHisto (m : list Z) (registers : Z) (reghisto : list Z) : option (list Z) :=
  raw_histo (Z.to_nat (HLL_REGISTERS / 8)) m registers reghisto.

(** The histogram [hllCount] computes first, and [invalid]; [len] is the length of the string. *)
Definition hllRegHisto (m : list Z) (len : Z) : option (list Z * bool) :=
  let reghisto := replicate 64 0 in
  enc ← hdr_encoding m;
  if enc =? HLL_DENSE then h ← hllDenseRegHisto m HLL_HDR_SIZE reghisto; Some (h, false)
  else if enc =? HLL_SPARSE then hllSparseRegHisto m HLL_HDR_SIZE (s32 (len - HLL_HDR_SIZE)) reghisto
  else if enc =? HLL_RAW then h ← hllRawRegHisto m HLL_HDR_SIZE reghisto; Some (h, false)
  else None.

(** The estimate is floating point arithmetic on the histogram, converted to [uint64_t]. *)
Context (estimate : list Z -> Z).

Definition hllCount (m : list Z) (len : Z) : option (Z * bool) := '(h, invalid) ← hllRegHisto m len; Some (u64 (estimate h), invalid).

(** ** Adding and merging *)

Context (big : bool) (hll_sparse_max_bytes : Z).

Definition hllAdd (o : sds) (ele : list Z) : option (sds * Z) :=
  enc ← hdr_encoding (s_mem o);
  if enc =? HLL_DENSE then
    '(m, changed) ← hllDenseAdd big (s_mem o) HLL_HDR_SIZE ele; Some (set_mem o m, if (changed : bool) then 1 else 0)
  else if enc =? HLL_SPARSE then hllSparseAdd big hll_sparse_max_bytes o ele
  else Some (o, -1).

(** [if (val > max[i]) max[i] = val] *)
Definition max_set (max : list Z) (i val : Z) : option (list Z) :=
  x ← getb max i; if val >? x then setb max i (u8 val) else Some max.

Fixpoint merge_dense (turns : nat) (m : list Z) (i : Z) (max : list Z) : option (list Z) :=
  match turns with
  | O => Some max
  | S turns => val ← HLL_DENSE_GET_REGISTER 32 m HLL_HDR_SIZE i; max ← max_set max i val; merge_dense turns m (i + 1) max
  end.

Fixpoint merge_fill (n : nat) (max : list Z) (i regval : Z) : option (list Z * Z) :=
  match n with
  | O => Some (max, i)
  | S n => max ← max_set max i regval; merge_fill n max (s32 (i + 1)) regval
  end.

Definition merge_sparse_body (m : list Z) (end_ : Z) (st : Z * Z * list Z) : option (Z * Z * list Z + Z * list Z) :=
  let '(p, i, max) := st in
  if p <? end_ then
    '(oplen, runlen, regval) ← sparse_run m p;
    if regval =? 0 then Some (inl (p + oplen, s32 (i + runlen), max))
    else if runlen + i >? HLL_REGISTERS then Some (inr (i, max))
    else '(max, i) ← merge_fill (Z.to_nat runlen) max i regval; Some (inl (p + oplen, i, max))
  else Some (inr (i, max)).

(** The maxima and C_OK. *)
Definition hllMerge (max : list Z) (hll : sds) : option (list Z * bool) :=
  enc ← hdr_encoding (s_mem hll);
  if enc =? HLL_DENSE then max ← merge_dense (Z.to_nat HLL_REGISTERS) (s_mem hll) 0 max; Some (max, true)
  else
    '(i, max) ← loop (S (length (s_mem hll))) (merge_sparse_body (s_mem hll) (sdslen hll)) (HLL_HDR_SIZE, 0, max);
    Some (max, i =? HLL_REGISTERS).

(** ** Objects *)

(** [aux] counts the registers not yet covered. *)
Definition create_body (st : list Z * Z * Z) : option (list Z * Z * Z + list Z * Z) :=
  let '(m, p, aux) := st in
  if aux =? 0 then Some (inr (m, p))
  else
    let xzero := HLL_SPARSE_XZERO_MAX_LEN in
    let xzero := if xzero >? aux then aux else xzero in
    m ← mem_write m p (HLL_SPARSE_XZERO_SET xzero);
    Some (inl (m, p + 2, aux - xzero)).

Definition createHLLObject : option sds :=
  let sparselen := HLL_HDR_SIZE + (HLL_REGISTERS + (HLL_SPARSE_XZERO_MAX_LEN - 1)) / HLL_SPARSE_XZERO_MAX_LEN * 2 in
  s ← sdsnewlen None sparselen;
  '(m, p) ← loop (Z.to_nat HLL_REGISTERS) create_body (s_mem s, HLL_HDR_SIZE, HLL_REGISTERS);
  assert_true (p =? sparselen) ;;
  m ← mem_write m 0 [72; 89; 76; 76];
  m ← setb m 4 HLL_SPARSE;
  Some (set_mem s m).

(** A value of the key space.  [raw] says that the string is not shared and has the raw encoding, so
    that it can be changed in place. *)
Inductive hobj := HStr (raw : bool) (s : sds) | HIntEnc (n : Z) | HOther.

Inductive hreply := WrongType | NotHll | InvalidHll | HInt (n : Z) | HOk.

(** The string, or the error of the reply. *)
Definition isHLLObjectOrReply (o : hobj) : option (hreply + bool * sds) :=
  match o with
  | HOther => Some (inl WrongType)
  | HIntEnc _ => Some (inl NotHll)
  | HStr raw s =>
      if sdslen s <? HLL_HDR_SIZE then Some (inl NotHll)
      else
        magic ← mem_read (s_mem s) 0 4;
        enc ← hdr_encoding (s_mem s);
        if negb (bool_decide (magic = [72; 89; 76; 76])) then Some (inl NotHll)
        else if enc >? HLL_MAX_ENCODING then Some (inl NotHll)
        else if (enc =? HLL_DENSE) && negb (sdslen s =? HLL_DENSE_SIZE) then Some (inl NotHll)
        else Some (inr (raw, s))
  end.

(** On strings: a copy of its own when the object cannot be changed in place. *)
Definition dbUnshareStringValue (raw : bool) (s : sds) : option sds :=
  if raw then Some s else bytes ← mem_read (s_mem s) 0 (sdslen s); sdsnewlen (Some bytes) (sdslen s).

(** ** Commands

    The key space maps names to objects.  A command gives the key space, the reply and the change of
    [server.dirty]. *)
Notation hdb := (gmap (list Z) hobj).

(** The loop over the elements; the number of updates, or [None] for the error. *)
Fixpoint pfadd_loop (o : sds) (eles : list (list Z)) (updated : Z) : option (sds * option Z) :=
  match eles with
  | [] => Some (o, Some updated)
  | ele :: eles =>
      '(o, retval) ← hllAdd o ele;
      if retval =? 1 then pfadd_loop o eles (s32 (updated + 1))
      else if retval =? -1 then Some (o, None)
      else pfadd_loop o eles updated
  end.

Definition pfaddCommand (db : hdb) (key : list Z) (eles : list (list Z)) : option (hdb * hreply * Z) :=
  r ← match db !! key with
      | None => o ← createHLLObject; Some (inr (o, 1))
      | Some obj =>
          r ← isHLLObjectOrReply obj;
          match r with
          | inl e => Some (inl e)
          | inr (raw, s) => o ← dbUnshareStringValue raw s; Some (inr (o, 0))
          end
      end;
  match r with
  | inl e => Some (db, e, 0)
  | inr (o, updated) =>
      '(o, updated) ← pfadd_loop o eles updated;
      match updated with
      | None => Some (<[key := HStr true o]> db, InvalidHll, 0)
      | Some updated =>
          m ← (if updated =? 0 then Some (s_mem o) else HLL_INVALIDATE_CACHE (s_mem o));
          Some (<[key := HStr true (set_mem o m)]> db, HInt (if updated =? 0 then 0 else 1), updated)
      end
  end.

(** Merging the objects of the keys: the maxima and whether one is dense, or the error. *)
Fixpoint merge_keys (db : hdb) (keys : list (list Z)) (max : list Z) (use_dense : bool) : option (hreply + list Z * bool) :=
  match keys with
  | [] => Some (inr (max, use_dense))
  | key :: keys =>
      match db !! key with
      | None => merge_keys db keys max use_dense
      | Some obj =>
          r ← isHLLObjectOrReply obj;
          match r with
          | inl e => Some (inl e)
          | inr (_, s) =>
              enc ← hdr_encoding (s_mem s);
              '(max, ok) ← hllMerge max s;
              if negb (ok : bool) then Some (inl InvalidHll) else merge_keys db keys max (use_dense || (enc =? HLL_DENSE))
          end
      end
  end.

(** The cached cardinality, from eight bytes. *)
Definition read_card (m : list Z) : option Z :=
  bs ← mem_read m 8 8;
  Some (foldl (fun k j => Z.lor k (u64 (Z.shiftl (nth j bs 0) (8 * Z.of_nat j)))) (nth 0 bs 0) [1; 2; 3; 4; 5; 6; 7]%nat).

Definition write_card (m : list Z) (card : Z) : option (list Z) :=
  mem_write m 8 ((fun j => Z.land (Z.shiftr card (8 * j)) 255) <$> [0; 1; 2; 3; 4; 5; 6; 7]).

(** PFCOUNT of several keys, which works on a raw array behind a header. *)
Definition pfcount_multi (db : hdb) (keys : list (list Z)) : option (hdb * hreply * Z) :=
  let max := replicate (Z.to_nat (HLL_HDR_SIZE + HLL_REGISTERS)) 0 in
  max ← setb max 4 HLL_RAW;
  r ← merge_keys db keys (drop (Z.to_nat HLL_HDR_SIZE) max) false;
  match r with
  | inl e => Some (db, e, 0)
  | inr (registers, _) =>
      '(card, _) ← hllCount (take (Z.to_nat HLL_HDR_SIZE) max ++ registers) (zlen max);
      Some (db, HInt (s64 card), 0)
  end.

Definition pfcountCommand (db : hdb) (keys : list (list Z)) : option (hdb * hreply * Z) :=
  match keys with
  | [key] =>
      match db !! key with
      | None => Some (db, HInt 0, 0)
      | Some obj =>
          r ← isHLLObjectOrReply obj;
          match r with
          | inl e => Some (db, e, 0)
          | inr (raw, s) =>
              o ← dbUnshareStringValue raw s;
              let db := <[key := HStr true o]> db in
              valid ← HLL_VALID_CACHE (s_mem o);
              if (valid : bool) then card ← read_card (s_mem o); Some (db, HInt (s64 card), 0)
              else
                '(card, invalid) ← hllCount (s_mem o) (sdslen o);
                if (invalid : bool) then Some (db, InvalidHll, 0)
                else
                  m ← write_card (s_mem o) card;
                  Some (<[key := HStr true (set_mem o m)]> db, HInt (s64 card), 1)
          end
      end
  | _ => pfcount_multi db keys
  end.

(** Writing the maxima into the target: the answers of the two setters are not looked at. *)
Fixpoint merge_write (max : list Z) (j : Z) (o : sds) : option sds :=
  match max with
  | [] => Some o
  | x :: max =>
      if x =? 0 then merge_write max (j + 1) o
      else
        enc ← hdr_encoding (s_mem o);
        o ← (if enc =? HLL_DENSE then '(m, _) ← hllDenseSet (s_mem o) HLL_HDR_SIZE j x; Some (set_mem o m)
             else if enc =? HLL_SPARSE then '(o, _) ← hllSparseSet hll_sparse_max_bytes o j x; Some o
             else Some o);
        merge_write max (j + 1) o
  end.

(** [dst] is the first of the keys that are merged. *)
Definition pfmergeCommand (db : hdb) (dst : list Z) (srcs : list (list Z)) : option (hdb * hreply * Z) :=
  r ← merge_keys db (dst :: srcs) (replicate (Z.to_nat HLL_REGISTERS) 0) false;
  match r with
  | inl e => Some (db, e, 0)
  | inr (max, use_dense) =>
      o ← match db !! dst with
          | None => createHLLObject
          | Some (HStr raw s) => dbUnshareStringValue raw s
          | Some _ => None
          end;
      '(o, ok) ← (if (use_dense : bool) then hllSparseToDense o else Some (o, true));
      if negb (ok : bool) then Some (<[dst := HStr true o]> db, InvalidHll, 0)
      else
        o ← merge_write max 0 o;
        m ← HLL_INVALIDATE_CACHE (s_mem o);
        Some (<[dst := HStr true (set_mem o m)]> db, HOk, 1)
  end.

End Hll.
