(* ===== verification/HllDense.v ===== *)
(** * Dense registers, histograms and the hash of [hyperloglog.c]

    Four registers of 6 bits fill three bytes ([pack]).  Reading and writing one register through the
    bytes is reading and writing the list of registers; the loop that reads sixteen registers from
    twelve bytes at a time counts them ([hist]). *)
From S2P Require Import Prelude Endian Split Hll.

(** ** Registers packed into bytes *)

Definition is_reg (r : Z) : Prop := 0 <= r < 64.

Fixpoint pack (regs : list Z) : list Z :=
  match regs with
  | r0 :: r1 :: r2 :: r3 :: regs =>
      r0 + 64 * (r1 mod 4) :: r1 / 4 + 16 * (r2 mod 16) :: r2 / 16 + 4 * r3 :: pack regs
  | _ => []
  end.

(** Induction by groups of four. *)
Lemma four_ind (P : list Z -> Prop) :
  P [] -> (forall r0 r1 r2 r3 l, P l -> P (r0 :: r1 :: r2 :: r3 :: l)) ->
  forall l n, zlen l = 4 * n -> P l.
Proof.
  intros H0 H4 l n. remember (length l) as k eqn:Ek. revert l n Ek.
  induction k as [k IH] using lt_wf_ind. intros [|r0 [|r1 [|r2 [|r3 l]]]] n Ek Hn; [done| | | |]; try (unfold zlen in Hn; simpl in Hn; lia).
  apply H4. eapply (IH (length l)); [simpl in Ek; lia|done|]. instantiate (1 := n - 1). len_lia.
Qed.

Lemma pack_app l1 l2 n : zlen l1 = 4 * n -> pack (l1 ++ l2) = pack l1 ++ pack l2.
Proof.
  intros Hn. revert l1 n Hn. apply (four_ind (fun l1 => pack (l1 ++ l2) = pack l1 ++ pack l2)); [done|].
  intros r0 r1 r2 r3 l IH. simpl. by rewrite IH.
Qed.

Lemma zlen_pack l n : zlen l = 4 * n -> zlen (pack l) = 3 * n.
Proof.
  intros Hn. enough (4 * zlen (pack l) = 3 * zlen l) by lia. revert l n Hn. apply four_ind; [done|].
  intros. simpl pack. len_lia.
Qed.

Lemma pack_bytes l n : zlen l = 4 * n -> Forall is_reg l -> Forall is_byte (pack l).
Proof.
  intros Hn. revert l n Hn. apply (four_ind (fun l => Forall is_reg l -> Forall is_byte (pack l))); [constructor|].
  intros r0 r1 r2 r3 l IH Hf. rewrite !Forall_cons in Hf. destruct Hf as (H0 & H1 & H2 & H3 & Hf). unfold is_reg, is_byte in *.
  simpl. repeat constructor; [div_lia..|by apply IH].
Qed.

(** Every list of bytes is a packed list of registers. *)
Fixpoint unpack (bs : list Z) : list Z :=
  match bs with
  | b0 :: b1 :: b2 :: bs => b0 mod 64 :: b0 / 64 + 4 * (b1 mod 16) :: b1 / 16 + 16 * (b2 mod 4) :: b2 / 4 :: unpack bs
  | _ => []
  end.

Lemma unpack_spec n : forall bs, zlen bs = 3 * Z.of_nat n -> Forall is_byte bs ->
  pack (unpack bs) = bs /\ zlen (unpack bs) = 4 * Z.of_nat n /\ Forall is_reg (unpack bs).
Proof.
  induction n as [|n IH]; intros bs Hn Hb.
  - destruct bs; [done|len_lia].
  - destruct bs as [|b0 [|b1 [|b2 bs]]]; try len_lia.
    rewrite !Forall_cons in Hb. destruct Hb as (H0 & H1 & H2 & Hb). unfold is_byte in H0, H1, H2.
    destruct (IH bs) as (E & El & Hr); [len_lia|done|]. simpl pack. simpl unpack. rewrite E.
    split; [repeat f_equal; div_lia|]. split; [len_lia|]. repeat constructor; try done; unfold is_reg; div_lia.
Qed.

(** The group of four registers around register [i]. *)
Lemma reg_group (l : list Z) n i : zlen l = 4 * n -> 0 <= i < zlen l ->
  exists l1 r0 r1 r2 r3 l2, l = l1 ++ r0 :: r1 :: r2 :: r3 :: l2 /\ zlen l1 = 4 * (i / 4).
Proof.
  intros Hn Hi. set (k := 4 * (i / 4)). assert (0 <= k /\ k + 4 <= zlen l) as [Hk Hk4] by (subst k; div_lia).
  exists (take (Z.to_nat k) l). assert (zlen (drop (Z.to_nat k) l) = zlen l - k) as Hd by (apply zlen_drop; lia).
  destruct (drop (Z.to_nat k) l) as [|r0 [|r1 [|r2 [|r3 l2]]]] eqn:E; try len_lia.
  exists r0, r1, r2, r3, l2. split; [by rewrite <- E, take_drop|]. apply zlen_take. lia.
Qed.

(** Bytes of a memory that contains a packed group. *)
Lemma getb_pack a l1 l2 rest r0 r1 r2 r3 n c p :
  zlen l1 = 4 * n -> p = zlen a -> 0 <= c ->
  getb (a ++ pack (l1 ++ r0 :: r1 :: r2 :: r3 :: l2) ++ rest) (p + (3 * n + c)) =
  getb (r0 + 64 * (r1 mod 4) :: r1 / 4 + 16 * (r2 mod 16) :: r2 / 16 + 4 * r3 :: pack l2 ++ rest) c.
Proof.
  intros Hn -> Hc. rewrite (pack_app _ _ n Hn), <- app_assoc. rewrite getb_app_r by (rewrite <- (zlen_pack _ _ Hn) in *; len_lia).
  rewrite <- (zlen_pack _ _ Hn) at 1. by rewrite getb_app_r.
Qed.

Lemma reg_address w i : w = 32 \/ w = 64 -> 0 <= i < 2 ^ 16 ->
  Z.quot (wraps w (i * HLL_BITS)) 8 = 3 * (i / 4) + match i mod 4 with 0 => 0 | 1 => 0 | 2 => 1 | _ => 2 end /\
  Z.land (wraps w (i * HLL_BITS)) 7 = match i mod 4 with 0 => 0 | 1 => 6 | 2 => 4 | _ => 2 end.
Proof.
  intros Hw Hi. change (2 ^ 16) with 65536 in Hi. unfold HLL_BITS.
  assert (wraps w (i * 6) = i * 6) as ->.
  { apply wraps_small; [lia|]. destruct Hw as [-> | ->]; simpl; lia. }
  rewrite Z.quot_div_nonneg by lia. change 7 with (Z.ones 3). rewrite Z.land_ones by lia. change (2 ^ 3) with 8.
  assert (0 <= i mod 4 < 4) by (apply Z.mod_pos_bound; lia).
  pose proof (Z.div_mod i 4 ltac:(lia)) as E. set (q := i / 4) in *. set (t := i mod 4) in *.
  assert (t = 0 \/ t = 1 \/ t = 2 \/ t = 3) as [Ht | [Ht | [Ht | Ht]]] by lia; rewrite Ht in *; split; rewrite E; div_lia.
Qed.

Lemma land_63 v : Z.land v 63 = v mod 64.
Proof. change 63 with (Z.ones 6). by rewrite Z.land_ones by lia. Qed.

(** The two bytes of a register, as a number. *)
Lemma get_bits b0 b1 fb : 0 <= fb <= 6 -> is_byte b0 ->
  Z.land (Z.lor (Z.shiftr b0 fb) (Z.shiftl b1 (8 - fb))) HLL_REGISTER_MAX = (b0 / 2 ^ fb + 2 ^ (8 - fb) * b1) mod 64.
Proof.
  intros Hf Hb. unfold is_byte in Hb. unfold HLL_REGISTER_MAX. rewrite land_63, Z.shiftr_div_pow2 by lia.
  rewrite lor_add_high; [done|lia|]. split; [apply Z.div_pos; [lia|apply Z.pow_pos_nonneg; lia]|].
  apply Z.div_lt_upper_bound; [apply Z.pow_pos_nonneg; lia|]. rewrite <- Z.pow_add_r by lia. replace (fb + (8 - fb)) with 8 by lia.
  change (2 ^ 8) with 256. lia.
Qed.

(** Which register of its group [i] is. *)
Lemma group_lookup (l1 : list Z) r0 r1 r2 r3 l2 i : zlen l1 = 4 * (i / 4) -> 0 <= i ->
  exists t, 0 <= t <= 3 /\ i mod 4 = t /\ i = 4 * (i / 4) + t /\
    (l1 ++ r0 :: r1 :: r2 :: r3 :: l2) !! Z.to_nat i = Some (match t with 0 => r0 | 1 => r1 | 2 => r2 | _ => r3 end) /\
    forall v, <[Z.to_nat i := v]> (l1 ++ r0 :: r1 :: r2 :: r3 :: l2) =
      l1 ++ (match t with
             | 0 => v :: r1 :: r2 :: r3 :: l2 | 1 => r0 :: v :: r2 :: r3 :: l2
             | 2 => r0 :: r1 :: v :: r3 :: l2 | _ => r0 :: r1 :: r2 :: v :: l2
             end).
Proof.
  intros Hl Hi. pose proof (Z.div_mod i 4 ltac:(lia)) as E. assert (0 <= i mod 4 < 4) by (apply Z.mod_pos_bound; lia).
  exists (i mod 4). split; [lia|]. split; [done|]. split; [done|]. set (t := i mod 4) in *. set (q := i / 4) in *.
  assert (Z.to_nat i = length l1 + Z.to_nat t)%nat as -> by (unfold zlen in Hl; lia).
  rewrite lookup_app_r by lia. replace (length l1 + Z.to_nat t - length l1)%nat with (Z.to_nat t) by lia.
  assert (t = 0 \/ t = 1 \/ t = 2 \/ t = 3) as [Ht | [Ht | [Ht | Ht]]] by lia; rewrite Ht; (split; [done|]); intros v; by rewrite insert_app_r.
Qed.

Lemma getb_zeroth x l : getb (x :: l) 0 = Some x.
Proof. done. Qed.
Lemma getb_first x y l : getb (x :: y :: l) 1 = Some y.
Proof. done. Qed.
Lemma getb_second x y z l : getb (x :: y :: z :: l) 2 = Some z.
Proof. done. Qed.
Lemma getb_third x y z l : getb (x :: y :: z :: l) 3 = getb l 0.
Proof. done. Qed.

Lemma dense_get w a regs n x junk i r :
  w = 32 \/ w = 64 -> zlen regs = 4 * n -> n <= 2 ^ 14 -> Forall is_reg regs -> 0 <= i -> regs !! Z.to_nat i = Some r ->
  HLL_DENSE_GET_REGISTER w (a ++ pack regs ++ x :: junk) (zlen a) i = Some r.
Proof.
  intros Hw Hn Hn' Hf Hi Hr. change (2 ^ 14) with 16384 in Hn'.
  assert (i < zlen regs) by (apply lookup_lt_Some in Hr; unfold zlen; lia).
  unfold HLL_DENSE_GET_REGISTER. destruct (reg_address w i Hw) as [-> ->]; [change (2 ^ 16) with 65536; lia|].
  destruct (reg_group regs n i) as (l1 & r0 & r1 & r2 & r3 & l2 & -> & Hl); [done|lia|].
  rewrite Forall_app, !Forall_cons in Hf. destruct Hf as (_ & H0 & H1 & H2 & H3 & _).
  destruct (group_lookup l1 r0 r1 r2 r3 l2 i Hl Hi) as (t & Ht & -> & _ & E & _). rewrite E in Hr. injection Hr as <-.
  unfold is_reg in *.
  assert (t = 0 \/ t = 1 \/ t = 2 \/ t = 3) as [-> | [-> | [-> | ->]]] by lia; rewrite <- !Z.add_assoc, !(getb_pack _ _ _ _ _ _ _ _ _ _ _ Hl) by lia; rewrite ?getb_zeroth; try change (0 + 1) with 1; try change (1 + 1) with 2; rewrite ?getb_first, ?getb_second; cbn [mbind option_bind].
  - rewrite get_bits by (unfold is_byte; div_lia). f_equal. change (2 ^ 0) with 1. change (2 ^ (8 - 0)) with 256. div_lia.
  - rewrite get_bits by (unfold is_byte; div_lia). f_equal. change (2 ^ 6) with 64. change (2 ^ (8 - 6)) with 4. div_lia.
  - rewrite get_bits by (unfold is_byte; div_lia). f_equal. change (2 ^ 4) with 16. change (2 ^ (8 - 4)) with 16. div_lia.
  - destruct (getb_is_Some (pack l2 ++ x :: junk) 0) as [y Ey]; [len_lia|]. change (2 + 1) with 3. rewrite getb_third, Ey. cbn [mbind option_bind].
    rewrite get_bits by (unfold is_byte; div_lia). f_equal. change (2 ^ 2) with 4. change (2 ^ (8 - 2)) with 64. div_lia.
Qed.

(** ** Writing a register *)

Lemma modb_mid a b c i f : i = zlen a -> modb (a ++ b :: c) i f = Some (a ++ u8 (f b) :: c).
Proof. intros Hi. unfold modb. rewrite (getb_mid _ _ _ _ Hi). cbn [mbind option_bind]. by apply setb_mid. Qed.

(** The lower and the upper byte of a register that starts at bit [fb]. *)
Definition set_lo (fb b v : Z) : Z := u8 (Z.lor (u8 (Z.land b (Z.lnot (Z.shiftl HLL_REGISTER_MAX fb)))) (Z.shiftl v fb)).
Definition set_hi (fb b v : Z) : Z := u8 (Z.lor (u8 (Z.land b (Z.lnot (Z.shiftr HLL_REGISTER_MAX (8 - fb))))) (Z.shiftr v (8 - fb))).

Definition set_bits_check (fb : Z) (lo hi : Z -> Z -> Z) : bool :=
  forallb (fun b => forallb (fun v => (set_lo fb b v =? lo b v) && (set_hi fb b v =? hi b v)) (seqZ 0 64)) (seqZ 0 256).

Lemma set_bits fb lo hi b v : set_bits_check fb lo hi = true -> is_byte b -> is_reg v ->
  set_lo fb b v = lo b v /\ set_hi fb b v = hi b v.
Proof.
  intros Hc Hb Hv. apply (forallb_range _ _ b) in Hc; [|done]. apply (forallb_range _ _ v) in Hc; [|done].
  apply andb_true_iff in Hc as [H1 H2]. lia.
Qed.

Lemma set_bits_0 b v : is_byte b -> is_reg v -> set_lo 0 b v = b / 64 * 64 + v /\ set_hi 0 b v = b.
Proof. apply (set_bits 0 (fun b v => b / 64 * 64 + v) (fun b v => b)). vm_compute. done. Qed.
Lemma set_bits_6 b v : is_byte b -> is_reg v -> set_lo 6 b v = b mod 64 + 64 * (v mod 4) /\ set_hi 6 b v = b / 16 * 16 + v / 4.
Proof. apply (set_bits 6 (fun b v => b mod 64 + 64 * (v mod 4)) (fun b v => b / 16 * 16 + v / 4)). vm_compute. done. Qed.
Lemma set_bits_4 b v : is_byte b -> is_reg v -> set_lo 4 b v = b mod 16 + 16 * (v mod 16) /\ set_hi 4 b v = b / 4 * 4 + v / 16.
Proof. apply (set_bits 4 (fun b v => b mod 16 + 16 * (v mod 16)) (fun b v => b / 4 * 4 + v / 16)). vm_compute. done. Qed.
Lemma set_bits_2 b v : is_byte b -> is_reg v -> set_lo 2 b v = b mod 4 + 4 * v /\ set_hi 2 b v = b.
Proof. apply (set_bits 2 (fun b v => b mod 4 + 4 * v) (fun b v => b)). vm_compute. done. Qed.

(** The four updates change two neighbouring bytes. *)
Lemma set_register_bytes w A b0 b1 C p i v byte fb :
  Z.quot (wraps w (i * HLL_BITS)) 8 = byte -> Z.land (wraps w (i * HLL_BITS)) 7 = fb -> p + byte = zlen A ->
  HLL_DENSE_SET_REGISTER w (A ++ b0 :: b1 :: C) p i v = Some (A ++ set_lo fb b0 v :: set_hi fb b1 v :: C).
Proof.
  intros Eb Ef HA. unfold HLL_DENSE_SET_REGISTER. rewrite Eb, Ef.
  rewrite modb_mid by done. cbn [mbind option_bind]. rewrite modb_mid by done. cbn [mbind option_bind].
  rewrite cons_middle, app_assoc. rewrite modb_mid by len_lia. cbn [mbind option_bind]. rewrite modb_mid by len_lia.
  by rewrite <- app_assoc.
Qed.

Lemma dense_set w a regs n x junk i v :
  w = 32 \/ w = 64 -> zlen regs = 4 * n -> n <= 2 ^ 14 -> Forall is_reg regs -> is_reg v -> is_byte x -> 0 <= i < zlen regs ->
  HLL_DENSE_SET_REGISTER w (a ++ pack regs ++ x :: junk) (zlen a) i v = Some (a ++ pack (<[Z.to_nat i := v]> regs) ++ x :: junk).
Proof.
  intros Hw Hn Hn' Hf Hv Hx Hi. change (2 ^ 14) with 16384 in Hn'.
  destruct (reg_address w i Hw) as [Eb Ef]; [change (2 ^ 16) with 65536; lia|].
  destruct (reg_group regs n i) as (l1 & r0 & r1 & r2 & r3 & l2 & -> & Hl); [done|lia|].
  assert (Forall is_byte (pack l2)) as Hp.
  { rewrite Forall_app, !Forall_cons in Hf. destruct Hf as (_ & _ & _ & _ & _ & Hf). eapply (pack_bytes _ (n - i / 4 - 1)); [|done]. len_lia. }
  rewrite Forall_app, !Forall_cons in Hf. destruct Hf as (_ & H0 & H1 & H2 & H3 & _). unfold is_reg in H0, H1, H2, H3.
  destruct (group_lookup l1 r0 r1 r2 r3 l2 i Hl) as (t & Ht & Et & _ & _ & ->); [lia|]. rewrite Et in Eb, Ef.
  pose proof (zlen_pack _ _ Hl) as Hpl. rewrite !(pack_app _ _ _ Hl). rewrite <- !app_assoc.
  assert (t = 0 \/ t = 1 \/ t = 2 \/ t = 3) as [-> | [-> | [-> | ->]]] by lia; cbn [pack app].
  - rewrite app_assoc, (set_register_bytes w (a ++ pack l1) _ _ _ _ _ _ _ _ Eb Ef) by len_lia. rewrite <- app_assoc.
    destruct (set_bits_0 (r0 + 64 * (r1 mod 4)) v) as [-> _]; [unfold is_byte; div_lia|done|].
    destruct (set_bits_0 (r1 / 4 + 16 * (r2 mod 16)) v) as [_ ->]; [unfold is_byte; div_lia|done|].
    do 4 f_equal. div_lia.
  - rewrite app_assoc, (set_register_bytes w (a ++ pack l1) _ _ _ _ _ _ _ _ Eb Ef) by len_lia. rewrite <- app_assoc.
    destruct (set_bits_6 (r0 + 64 * (r1 mod 4)) v) as [-> _]; [unfold is_byte; div_lia|done|].
    destruct (set_bits_6 (r1 / 4 + 16 * (r2 mod 16)) v) as [_ ->]; [unfold is_byte; div_lia|done|].
    unfold is_reg in Hv. do 4 f_equal; [div_lia|]. f_equal. div_lia.
  - rewrite (cons_middle (r0 + 64 * (r1 mod 4))), 2app_assoc, (set_register_bytes w ((a ++ pack l1) ++ [_]) _ _ _ _ _ _ _ _ Eb Ef) by len_lia. rewrite <- !app_assoc.
    destruct (set_bits_4 (r1 / 4 + 16 * (r2 mod 16)) v) as [-> _]; [unfold is_byte; div_lia|done|].
    destruct (set_bits_4 (r2 / 16 + 4 * r3) v) as [_ ->]; [unfold is_byte; div_lia|done|].
    unfold is_reg in Hv. cbn [app]. do 5 f_equal; [div_lia|]. f_equal. div_lia.
  - assert (exists y l, pack l2 ++ x :: junk = y :: l /\ is_byte y) as (y & l & El & Hy).
    { destruct (pack l2) as [|y l] eqn:E2; [by exists x, junk|]. apply Forall_cons in Hp as [Hy _]. by exists y, (l ++ x :: junk). }
    rewrite El. rewrite (cons_middle (r0 + 64 * (r1 mod 4))), (cons_middle (r1 / 4 + 16 * (r2 mod 16))), 3app_assoc.
    rewrite (set_register_bytes w _ _ _ _ _ _ _ _ _ Eb Ef) by len_lia. rewrite <- !app_assoc.
    destruct (set_bits_2 (r2 / 16 + 4 * r3) v) as [-> _]; [unfold is_byte; div_lia|done|].
    destruct (set_bits_2 y v) as [_ ->]; [done|done|]. cbn [app]. do 6 f_equal. div_lia.
Qed.

Lemma hllDenseSet_spec a regs n x junk i count r :
  zlen regs = 4 * n -> n <= 2 ^ 14 -> Forall is_reg regs -> is_reg count -> is_byte x -> 0 <= i -> regs !! Z.to_nat i = Some r ->
  hllDenseSet (a ++ pack regs ++ x :: junk) (zlen a) i count =
    Some (a ++ pack (<[Z.to_nat i := Z.max r count]> regs) ++ x :: junk, count >? r).
Proof.
  intros Hn Hn' Hf Hc Hx Hi Hr. unfold hllDenseSet. rewrite (dense_get 64 a regs n x junk i r) by auto. cbn [mbind option_bind].
  assert (i < zlen regs) by (apply lookup_lt_Some in Hr; unfold zlen; lia).
  destruct (count >? r) eqn:E.
  - rewrite (dense_set 64 a regs n) by auto with lia. cbn [mbind option_bind]. by replace (Z.max r count) with count by lia.
  - replace (Z.max r count) with r by lia. by rewrite list_insert_id.
Qed.

(** ** Histograms *)

Definition count_reg (l : list Z) (v : Z) : Z := zlen (filter (fun x => x = v) l).
Definition hist (l : list Z) : list Z := count_reg l <$> seqZ 0 64.

Lemma count_reg_app l1 l2 v : count_reg (l1 ++ l2) v = count_reg l1 v + count_reg l2 v.
Proof. unfold count_reg. by rewrite filter_app, zlen_app. Qed.

Lemma count_reg_replicate n r v : count_reg (replicate n r) v = if bool_decide (r = v) then Z.of_nat n else 0.
Proof.
  unfold count_reg. induction n as [|n IH]; [by case_bool_decide|]. simpl replicate. rewrite filter_cons.
  case_bool_decide as E; case_decide; try done. rewrite zlen_cons, IH. lia.
Qed.

Lemma count_reg_range l v : 0 <= count_reg l v <= zlen l.
Proof. unfold count_reg, zlen. pose proof (length_filter (fun x => x = v) l). lia. Qed.

Lemma hist_length l : length (hist l) = 64%nat.
Proof. unfold hist. by rewrite length_fmap, length_seqZ. Qed.

Lemma hist_lookup l v : is_reg v -> hist l !! Z.to_nat v = Some (count_reg l v).
Proof.
  intros Hv. unfold is_reg in Hv. unfold hist. rewrite list_lookup_fmap, lookup_seqZ_lt by lia. simpl. f_equal. f_equal. lia.
Qed.

Lemma histo_add_spec l r n : is_reg r -> 0 <= n -> zlen l + n < 2 ^ 31 ->
  histo_add (hist l) r n = Some (hist (l ++ replicate (Z.to_nat n) r)).
Proof.
  intros Hr Hn Hl. unfold histo_add, setb. assert (getb (hist l) r = Some (count_reg l r)) as ->.
  { unfold getb. unfold is_reg in Hr. replace (0 <=? r) with true by lia. by apply hist_lookup. }
  cbn [mbind option_bind]. f_equal. apply list_eq. intros i. destruct (decide (i < 64)%nat) as [Hi|Hi].
  - replace i with (Z.to_nat (Z.of_nat i)) by lia. rewrite hist_lookup by (unfold is_reg; lia).
    pose proof (count_reg_range l r). change (2 ^ 31) with 2147483648 in Hl.
    rewrite count_reg_app, count_reg_replicate. case_bool_decide as E.
    + subst r. rewrite list_lookup_insert_eq by (rewrite hist_length; lia). f_equal. rewrite wraps_small; [lia|lia|simpl; lia].
    + rewrite list_lookup_insert_ne by (unfold is_reg in Hr; lia). rewrite hist_lookup by (unfold is_reg; lia). f_equal. lia.
  - rewrite !lookup_ge_None_2; [done|rewrite hist_length; lia|rewrite length_insert, hist_length; lia].
Qed.

Lemma histo_incr_spec rs : forall l, Forall is_reg rs -> zlen l + zlen rs < 2 ^ 31 -> histo_incr (hist l) rs = Some (hist (l ++ rs)).
Proof.
  induction rs as [|r rs IH]; intros l Hf Hl; [by rewrite app_nil_r|]. apply Forall_cons in Hf as [Hr Hf].
  simpl. rewrite histo_add_spec; [|done|lia|len_lia]. change (Z.to_nat 1) with 1%nat. cbn [mbind option_bind replicate]. rewrite IH; [|done|len_lia].
  by rewrite <- app_assoc.
Qed.

Lemma hist_nil : hist [] = replicate 64 0.
Proof. vm_compute. reflexivity. Qed.

(** Sixteen registers from twelve bytes. *)
Lemma unrolled_group a r0 r1 r2 r3 r4 r5 r6 r7 r8 r9 r10 r11 r12 r13 r14 r15 rest :
  let rs := [r0; r1; r2; r3; r4; r5; r6; r7; r8; r9; r10; r11; r12; r13; r14; r15] in
  Forall is_reg rs -> unrolled_registers (a ++ pack rs ++ rest) (zlen a) = Some rs.
Proof.
  intros rs Hf. subst rs. rewrite !Forall_cons in Hf. destruct_and! Hf. unfold is_reg in *. unfold unrolled_registers.
  rewrite <- (Z.add_0_r (zlen a)) at 1. rewrite !getb_app_r by lia. cbn [pack app].
  repeat match goal with |- context [getb ?l ?i] => destruct (getb l i) eqn:E0; [|discriminate E0]; injection E0 as <-; cbn [mbind option_bind] end.
  rewrite !Z.shiftr_div_pow2 by lia. rewrite !lor_add_high by (try lia; simpl; div_lia). rewrite !land_63. simpl Z.pow.
  f_equal. repeat (f_equal; [div_lia|]). f_equal. div_lia.
Qed.

Lemma take16 (l : list Z) : 16 <= zlen l -> exists r0 r1 r2 r3 r4 r5 r6 r7 r8 r9 r10 r11 r12 r13 r14 r15 l',
  l = [r0; r1; r2; r3; r4; r5; r6; r7; r8; r9; r10; r11; r12; r13; r14; r15] ++ l'.
Proof. intros Hl. do 16 (destruct l as [|? l]; [len_lia|]). by repeat eexists. Qed.

Lemma dense_histo_fast_spec turns : forall a regs rest l,
  zlen regs = 16 * Z.of_nat turns -> Forall is_reg regs -> zlen l + zlen regs < 2 ^ 31 ->
  dense_histo_fast turns (a ++ pack regs ++ rest) (zlen a) (hist l) = Some (hist (l ++ regs)).
Proof.
  induction turns as [|turns IH]; intros a regs rest l Hn Hf Hl.
  - destruct regs; [by rewrite app_nil_r|len_lia].
  - destruct (take16 regs) as (r0&r1&r2&r3&r4&r5&r6&r7&r8&r9&r10&r11&r12&r13&r14&r15&regs'&->); [lia|].
    apply Forall_app in Hf as [Hf Hf']. rewrite zlen_app in *. set (rs := [r0; _; _; _; _; _; _; _; _; _; _; _; _; _; _; _]) in *.
    assert (zlen rs = 4 * 4) as Hrs by done. pose proof (zlen_pack rs 4 Hrs) as Hp.
    rewrite (pack_app rs regs' 4 Hrs), <- app_assoc. cbn [dense_histo_fast]. subst rs. rewrite unrolled_group by done. cbn [mbind option_bind].
    rewrite histo_incr_spec by (done || lia). cbn [mbind option_bind].
    rewrite (app_assoc a). replace (zlen a + 12) with (zlen (a ++ pack [r0; r1; r2; r3; r4; r5; r6; r7; r8; r9; r10; r11; r12; r13; r14; r15])) by len_lia.
    rewrite IH; [by rewrite <- app_assoc|lia|done|rewrite zlen_app; lia].
Qed.

Lemma hllDenseRegHisto_spec a regs rest : zlen regs = 16384 -> Forall is_reg regs ->
  hllDenseRegHisto (a ++ pack regs ++ rest) (zlen a) (hist []) = Some (hist regs).
Proof.
  intros Hl Hf. unfold hllDenseRegHisto. change (_ && _) with true. cbn match.
  apply (dense_histo_fast_spec (Z.to_nat 1024) a regs rest []); [lia|done|]. rewrite Hl. done.
Qed.

(** The loop over the macro gives the same histogram. *)
Lemma dense_histo_slow_spec turns : forall a regs x junk j l,
  zlen regs = 16384 -> Forall is_reg regs -> 0 <= j -> j + Z.of_nat turns = 16384 -> zlen l = j ->
  dense_histo_slow turns (a ++ pack regs ++ x :: junk) (zlen a) j (hist l) = Some (hist (l ++ drop (Z.to_nat j) regs)).
Proof.
  induction turns as [|turns IH]; intros a regs x junk j l Hn Hf Hj Ht Hl.
  - rewrite drop_ge by (unfold zlen in Hn; lia). by rewrite app_nil_r.
  - cbn [dense_histo_slow]. destruct (lookup_lt_is_Some_2 regs (Z.to_nat j)) as [r Hr]; [unfold zlen in Hn; lia|].
    rewrite (dense_get 32 a regs 4096 x junk j r) by (auto; lia). cbn [mbind option_bind].
    assert (is_reg r) by (eapply Forall_lookup_1; eauto).
    rewrite histo_add_spec by (done || (change (2 ^ 31) with 2147483648; lia)). cbn [mbind option_bind].
    rewrite IH; [|done|done|lia|lia|change (Z.to_nat 1) with 1%nat; simpl replicate; len_lia].
    rewrite (drop_S _ _ _ Hr), <- app_assoc. replace (Z.to_nat (j + 1)) with (S (Z.to_nat j)) by lia. done.
Qed.

(** ** Raw registers *)

Lemma le_join_zero bs : Forall is_byte bs -> le_join bs = 0 -> bs = replicate (length bs) 0.
Proof.
  induction 1 as [|b bs Hb Hf IH]; [done|]. intros E. change (b + 256 * le_join bs = 0) in E. pose proof (le_join_range bs Hf).
  unfold is_byte in Hb. simpl. f_equal; [lia|]. apply IH. lia.
Qed.

Lemma raw_histo_spec turns : forall a regs l,
  zlen regs = 8 * Z.of_nat turns -> Forall is_reg regs -> zlen l + zlen regs < 2 ^ 31 ->
  raw_histo turns (a ++ regs) (zlen a) (hist l) = Some (hist (l ++ regs)).
Proof.
  induction turns as [|turns IH]; intros a regs l Hn Hf Hl.
  - destruct regs; [by rewrite !app_nil_r|len_lia].
  - assert (exists b regs', regs = b ++ regs' /\ zlen b = 8) as (b & regs' & -> & Hb).
    { exists (take 8 regs), (drop 8 regs). split; [by rewrite take_drop|]. apply (zlen_take regs 8). lia. }
    apply Forall_app in Hf as [Hf Hf']. rewrite zlen_app in *. cbn [raw_histo]. rewrite mem_read_mid by done. cbn [mbind option_bind].
    assert (Forall is_byte b) as Hb9 by (eapply Forall_impl; [exact Hf|]; unfold is_reg, is_byte; lia).
    assert ((if le_join b =? 0 then histo_add (hist l) 0 8 else histo_incr (hist l) b) = Some (hist (l ++ b))) as ->.
    { case_match eqn:E.
      - rewrite (le_join_zero b) by (done || lia). rewrite histo_add_spec by (unfold is_reg; lia). do 4 f_equal. unfold zlen in Hb. lia.
      - apply histo_incr_spec; [done|lia]. }
    cbn [mbind option_bind]. rewrite app_assoc. replace (zlen a + 8) with (zlen (a ++ b)) by len_lia.
    rewrite IH; [by rewrite <- app_assoc|lia|done|rewrite zlen_app; lia].
Qed.

Lemma hllRawRegHisto_spec a regs : zlen regs = 16384 -> Forall is_reg regs ->
  hllRawRegHisto (a ++ regs) (zlen a) (hist []) = Some (hist regs).
Proof.
  intros Hl Hf. apply (raw_histo_spec (Z.to_nat (16384 / 8)) a regs []); [|done|rewrite Hl; done]. rewrite Hl. done.
Qed.

(** ** The hash *)

Lemma word_or (bs : list Z) : zlen bs = 8 -> Forall is_byte bs ->
  foldl (fun k j => Z.lor k (Z.shiftl (nth j bs 0) (8 * Z.of_nat j))) (nth 0 bs 0) [1; 2; 3; 4; 5; 6; 7]%nat = le_join bs.
Proof.
  intros Hl Hf. do 8 (destruct bs as [|? bs]; [len_lia|]). destruct bs; [|len_lia].
  rewrite !Forall_cons in Hf. destruct_and! Hf. unfold is_byte in *. cbn [foldl nth].
  rewrite (lor_add_high _ _ (8 * Z.of_nat 1)) by (simpl; lia). rewrite (lor_add_high _ _ (8 * Z.of_nat 2)) by (simpl; lia).
  rewrite (lor_add_high _ _ (8 * Z.of_nat 3)) by (simpl; lia). rewrite (lor_add_high _ _ (8 * Z.of_nat 4)) by (simpl; lia).
  rewrite (lor_add_high _ _ (8 * Z.of_nat 5)) by (simpl; lia). rewrite (lor_add_high _ _ (8 * Z.of_nat 6)) by (simpl; lia).
  rewrite (lor_add_high _ _ (8 * Z.of_nat 7)) by (simpl; lia). unfold le_join. simpl Z.pow. lia.
Qed.

Lemma mem_read_bytes m off n bs : Forall is_byte m -> mem_read m off n = Some bs -> Forall is_byte bs /\ zlen bs = n.
Proof.
  intros Hf. unfold mem_read. case_match eqn:E; [|done]. intros [= <-]. split; [by apply Forall_take, Forall_drop|].
  unfold zlen in *. rewrite length_take, length_drop. lia.
Qed.

Lemma mem_read_is_Some m off n : 0 <= off -> 0 <= n -> off + n <= zlen m -> exists bs, mem_read m off n = Some bs.
Proof. intros. unfold mem_read. replace (_ && _ && _) with true by lia. eauto. Qed.

Lemma murmur_block_spec big key data : Forall is_byte key -> 0 <= data -> data + 8 <= zlen key ->
  exists k, murmur_block big key data = Some k /\ murmur_block false key data = Some k /\ 0 <= k < 2 ^ 64.
Proof.
  intros Hf Hd Hl. unfold murmur_block. destruct (mem_read_is_Some key data 8) as [bs E]; [lia|lia|lia|].
  destruct (mem_read_bytes _ _ _ _ Hf E) as [Hb Hz]. rewrite E. cbn [mbind option_bind]. exists (le_join bs).
  pose proof (le_join_range bs Hb) as Hr. rewrite Hz in Hr. rewrite word_or by done. by destruct big.
Qed.

Definition word64 (x : Z) : Prop := 0 <= x < 2 ^ 64.

Lemma u64_word x : word64 (u64 x).
Proof. apply wrapu_range. lia. Qed.

Lemma lxor_word x y : word64 x -> word64 y -> word64 (Z.lxor x y).
Proof. apply lxor_range. lia. Qed.

Lemma xorshift_word x : word64 x -> word64 (Z.lxor x (Z.shiftr x 47)).
Proof.
  intros Hx. apply lxor_word; [done|]. unfold word64 in *. rewrite Z.shiftr_div_pow2 by lia. split; [apply Z.div_pos; lia|].
  apply Z.div_lt_upper_bound; lia.
Qed.

Lemma murmur_blocks big key end_ : Forall is_byte key -> end_ <= zlen key ->
  forall n data h, 0 <= data -> data + 8 * Z.of_nat n = end_ -> word64 h ->
  exists h', word64 h' /\ forall fuel, (n < fuel)%nat -> loop fuel (murmur_body big key end_) (data, h) = Some (end_, h') /\
    loop fuel (murmur_body false key end_) (data, h) = Some (end_, h').
Proof.
  intros Hf He n. induction n as [|n IH]; intros data h Hd Hn Hh.
  - exists h. split; [done|]. intros [|fuel] Hfu; [lia|]. cbn [loop]. unfold murmur_body.
    replace (data =? end_) with true by lia. by replace end_ with data by lia.
  - destruct (murmur_block_spec big key data) as (k & E1 & E2 & Hk); [done|lia|lia|].
    destruct (IH (data + 8) (murmur_mix h k)) as (h' & Hh' & Hl); [lia|lia|apply u64_word|].
    exists h'. split; [done|]. intros [|fuel] Hfu; [lia|]. cbn [loop]. unfold murmur_body at 1 3.
    replace (data =? end_) with false by lia. rewrite E1, E2. cbn [mbind option_bind]. apply Hl. lia.
Qed.

Lemma murmur_tail_spec key data h rest : 0 <= data -> 0 <= rest <= 7 -> data + rest <= zlen key -> word64 h ->
  exists h', murmur_tail key data h rest = Some h' /\ word64 h'.
Proof.
  intros Hd Hr Hl Hh. unfold murmur_tail.
  assert (forall js, Forall (fun j => 0 <= j) js -> forall h, word64 h -> exists h', foldl (fun (h : option Z) j => h ← h; if j <? rest then b ← getb key (data + j); Some (Z.lxor h (u64 (Z.shiftl b (8 * j)))) else Some h)
        (Some h) js = Some h' /\ word64 h') as Hx.
  { clear h Hh. induction 1 as [|j js Hj Hjs IH]; intros h Hh; [by exists h|]. cbn [foldl mbind option_bind]. case_match eqn:E; [|by apply IH].
    destruct (getb_is_Some key (data + j)) as [b ->]; [lia|]. cbn [mbind option_bind]. apply IH, lxor_word; [done|apply u64_word]. }
  destruct (Hx [6; 5; 4; 3; 2; 1; 0]) with (h := h) as (h' & -> & Hh'); [repeat constructor; lia|done|]. cbn [mbind option_bind].
  eexists. split; [done|]. case_match; [apply u64_word|done].
Qed.

(** The hash exists and does not depend on the byte order. *)
Lemma murmur_spec big key seed : Forall is_byte key -> zlen key < 2 ^ 31 -> word64 seed ->
  exists h, MurmurHash64A big key (zlen key) seed = Some h /\ MurmurHash64A false key (zlen key) seed = Some h /\ word64 h.
Proof.
  intros Hf Hl Hs. unfold MurmurHash64A. pose proof (zlen_nonneg key) as H0. change 7 with (Z.ones 3). rewrite Z.land_ones by lia. change (2 ^ 3) with 8.
  destruct (murmur_blocks big key (zlen key - zlen key mod 8) Hf) with (n := Z.to_nat (zlen key / 8)) (data := 0) (h := Z.lxor seed (u64 (u64 (zlen key) * murmur_m))) as (h & Hh & Hloop);
    [div_lia|lia|div_lia|apply lxor_word; [done|apply u64_word]|].
  destruct (Hloop (S (length key))) as [-> ->]; [unfold zlen in *; div_lia|]. cbn [mbind option_bind].
  destruct (murmur_tail_spec key (zlen key - zlen key mod 8) h (zlen key mod 8)) as (h' & -> & Hh'); [div_lia|div_lia|lia|done|]. cbn [mbind option_bind].
  eexists. split; [done|]. split; [done|]. apply xorshift_word, u64_word.
Qed.

(** ** The pattern of an element *)

(** The first one of a word is at position [c - 1]. *)
Definition first_one (h c : Z) : Prop := 1 <= c /\ Z.testbit h (c - 1) = true /\ forall j, 0 <= j < c - 1 -> Z.testbit h j = false.

Lemma patlen_loop h : Z.testbit h 50 = true -> forall fuel c, 1 <= c <= 51 -> (forall j, 0 <= j < c - 1 -> Z.testbit h j = false) -> 51 - c < Z.of_nat fuel ->
  exists c', loop fuel (patlen_body h) (2 ^ (c - 1), c) = Some c' /\ first_one h c' /\ c' <= 51.
Proof.
  intros H50 fuel. induction fuel as [|fuel IH]; intros c Hc Hlow Hf; [lia|]. cbn [loop]. unfold patlen_body at 1.
  rewrite land_bit_zero by lia. destruct (Z.testbit h (c - 1)) eqn:E; cbn [negb].
  - exists c. unfold first_one. repeat split; (done || lia).
  - assert (c <> 51) by (intros ->; change (51 - 1) with 50 in E; congruence).
    replace (u64 (Z.shiftl (2 ^ (c - 1)) 1)) with (2 ^ (c + 1 - 1)).
    + apply IH; [lia| |lia]. intros j Hj. destruct (Z.eq_dec j (c - 1)) as [->|]; [done|]. apply Hlow. lia.
    + rewrite Z.shiftl_mul_pow2 by lia. change (2 ^ 1) with 2. replace (c + 1 - 1) with (1 + (c - 1)) by lia. rewrite Z.pow_add_r by lia. change (2 ^ 1) with 2.
      rewrite wrapu_small; [lia|]. assert (0 < 2 ^ (c - 1) < 2 ^ 51); [|change (2 ^ 51) with 2251799813685248 in *; change (2 ^ 64) with 18446744073709551616; lia].
      split; [apply Z.pow_pos_nonneg; lia|apply Z.pow_lt_mono_r; lia].
Qed.

(** The register is the low 14 bits of the hash, the count the position of the first one above them,
    at most 51.  Neither depends on the byte order. *)
Lemma hllPatLen_spec big ele : Forall is_byte ele -> zlen ele < 2 ^ 31 ->
  exists h c, MurmurHash64A false ele (zlen ele) 2915580697 = Some h /\ first_one (Z.lor (h / 2 ^ 14) (2 ^ 50)) c /\ c <= 51 /\
    hllPatLen big ele = Some (c, h mod 16384) /\ hllPatLen false ele = Some (c, h mod 16384).
Proof.
  intros Hf Hl. unfold hllPatLen. pose proof (zlen_nonneg ele). change (2 ^ 31) with 2147483648 in Hl.
  rewrite (wraps_small 32) by (simpl; lia).
  destruct (murmur_spec big ele 2915580697) as (h & -> & E & Hh); [done|done|unfold word64; simpl; lia|]. rewrite E. cbn [mbind option_bind].
  change HLL_P_MASK with (Z.ones 14). rewrite Z.land_ones by lia. change HLL_P with 14. change HLL_Q with 50. rewrite Z.shiftr_div_pow2 by lia.
  change (Z.shiftl 1 50) with (2 ^ 50). change (2 ^ 14) with 16384. change (loop 64 (patlen_body ?x) (1, 1)) with (loop 64 (patlen_body x) (2 ^ (1 - 1), 1)).
  destruct (patlen_loop (Z.lor (h / 16384) (2 ^ 50))) with (fuel := 64%nat) (c := 1) as (c & -> & Hc & Hc'); [|lia|lia|lia|].
  { rewrite Z.lor_spec, Z.pow2_bits_true by lia. apply orb_true_r. }
  exists h, c. cbn [mbind option_bind]. rewrite wraps_small; [done|lia|]. pose proof (Z.mod_pos_bound h 16384). simpl. lia.
Qed.
