(* ===== verification/HllSparse.v ===== *)
(** * Sparse registers and strings of [hyperloglog.c]

    A sparse string is a header, a sequence of opcodes ([sop]) and the terminator; its registers are
    the runs of the opcodes ([ops_regs]).  Updating a register in place (splitting the run, moving the
    rest, merging neighbours, or conversion to the dense representation) is updating the list. *)
From S2P Require Import Prelude Endian Split Hll HllDense.

(** ** Strings *)

Definition sds_ok (s : sds) : Prop :=
  0 <= sdslen s <= sdsalloc s /\ sdsalloc s + 1 <= zlen (s_mem s) /\ sdsalloc s <= sdsTypeMaxSize (s_type s) /\
  (s_type s = SDS_TYPE_5 -> sdsalloc s = sdslen s).

(** The contents of the string, before its terminator. *)
Definition holds (s : sds) (c : list Z) : Prop :=
  sds_ok s /\ sdslen s = zlen c /\ exists junk, s_mem s = c ++ 0 :: junk.

Lemma type_max t : sdsTypeMaxSize t <= 2 ^ 64 - 1.
Proof. by destruct t. Qed.

Lemma type_max_mono t1 t2 : type_num t1 < type_num t2 -> sdsTypeMaxSize t1 <= sdsTypeMaxSize t2.
Proof. by destruct t1, t2; vm_compute; intros. Qed.

Lemma req_type_max n : 0 <= n < 2 ^ 64 -> n <= sdsTypeMaxSize (sdsReqType n).
Proof.
  intros Hn. unfold sdsReqType. repeat case_match; unfold sdsTypeMaxSize; try lia.
  change (u64 (-1)) with (2 ^ 64 - 1). lia.
Qed.

Lemma is_type5_false t : t <> SDS_TYPE_5 -> is_type5 t = false.
Proof. intros Ht. unfold is_type5. by case_bool_decide. Qed.

Lemma zlen_replicate {A} n (x : A) : zlen (replicate n x) = Z.of_nat n.
Proof. unfold zlen. by rewrite length_replicate. Qed.
#[export] Hint Rewrite @zlen_replicate : zlen.

(** Writing at the start of a memory. *)
Lemma mem_write_start m bs : zlen bs <= zlen m -> exists rest, mem_write m 0 bs = Some (bs ++ rest) /\ zlen rest = zlen m - zlen bs.
Proof.
  intros Hl. destruct (mem_split m 0 (zlen bs)) as (a & b & c & -> & Ha & Hb); [lia|apply zlen_nonneg|lia|].
  exists c. rewrite (mem_write_mid a b bs c 0) by lia. destruct a; [|len_lia]. split; [done|len_lia].
Qed.

Lemma terminate c x rest n : n = zlen c -> setb (c ++ x :: rest) n 0 = Some (c ++ 0 :: rest).
Proof. apply setb_mid. Qed.

Lemma zlen_fresh `{Allocator} n : 0 <= n -> zlen (fresh_bytes (Z.to_nat n)) = n.
Proof. intros Hn. unfold zlen. rewrite length_fresh_bytes. lia. Qed.

(** A list that is not empty after [c]. *)
Lemma rest_cons (rest : list Z) : 0 < zlen rest -> exists x rest', rest = x :: rest'.
Proof. destruct rest as [|x rest]; [done|eauto]. Qed.

Section Strings.
Context `{Allocator} `{Usable}.

Lemma sdsnewlen_spec init n c : 0 <= n < 2 ^ 63 -> zlen c = n -> init = Some c \/ (init = None /\ c = replicate (Z.to_nat n) 0) ->
  exists s, sdsnewlen init n = Some s /\ holds s c.
Proof.
  intros Hn Hc Hi. unfold sdsnewlen. set (type := if is_type5 (sdsReqType n) && (n =? 0) then SDS_TYPE_8 else sdsReqType n).
  change (2 ^ 63) with 9223372036854775808 in Hn.
  assert (n <= sdsTypeMaxSize type) as Ht.
  { subst type. case_match eqn:E; [|apply req_type_max; change (2 ^ 64) with 18446744073709551616; lia]. simpl. lia. }
  assert (1 <= sdsHdrSize type <= 17) as Hh by (destruct type; simpl; lia).
  rewrite wrapu_small by (change (2 ^ 64) with 18446744073709551616; lia). replace (n + sdsHdrSize type + 1 >? n) with true by lia.
  cbn [assert_true mbind option_bind]. pose proof (usable_size_ge (sdsHdrSize type + n + 1)) as Hu.
  set (us := if _ >? sdsTypeMaxSize type then _ else _). assert (n <= us <= sdsTypeMaxSize type) as Hus by (subst us; case_match; lia).
  set (alloc := if is_type5 type then n else us). assert (n <= alloc <= sdsTypeMaxSize type) as Ha by (subst alloc; case_match; lia).
  assert (exists x rest, (match init with
        | None => mem_write (fresh_bytes (Z.to_nat (alloc + 1))) 0 (replicate (Z.to_nat (n + 1)) 0)
        | Some bytes => mem_write (fresh_bytes (Z.to_nat (alloc + 1))) 0 bytes
        end) = Some (c ++ x :: rest) /\ zlen rest = alloc - n) as (x & rest & -> & Hr).
  { destruct Hi as [-> | [-> Ec]].
    - destruct (mem_write_start (fresh_bytes (Z.to_nat (alloc + 1))) c) as (rest & -> & Hr); [rewrite zlen_fresh; lia|].
      rewrite zlen_fresh in Hr by lia. destruct (rest_cons rest) as (x & rest' & ->); [lia|]. exists x, rest'. split; [done|len_lia].
    - destruct (mem_write_start (fresh_bytes (Z.to_nat (alloc + 1))) (replicate (Z.to_nat (n + 1)) 0)) as (rest & -> & Hr); [rewrite zlen_fresh, zlen_replicate; lia|].
      rewrite zlen_fresh, zlen_replicate in Hr by lia. exists 0, rest. replace (Z.to_nat (n + 1)) with (Z.to_nat n + 1)%nat by lia.
      rewrite replicate_add, <- app_assoc, <- Ec. split; [done|lia]. }
  cbn [mbind option_bind]. rewrite terminate by done. eexists. split; [done|]. split; [|by simpl; eauto].
  repeat split; cbn [sdslen sdsalloc s_mem s_type]; try lia; [len_lia|]. intros E. subst alloc. by rewrite E.
Qed.

Lemma sdsResize_grow s c size : holds s c -> sdslen s <= size < 2 ^ 63 ->
  exists s', sdsResize s size true = Some s' /\ holds s' c /\ (s' = s \/ s_type s' <> SDS_TYPE_5) /\ sdsalloc s' = size.
Proof.
  intros Hh Hs. pose proof Hh as (Hok & Hlen & junk & Hm). unfold sdsResize. destruct Hok as (Hl & Hz & Hmax & H5).
  change (2 ^ 63) with 9223372036854775808 in Hs.
  destruct (sdsalloc s =? size) eqn:Ea; [exists s; split; [done|]; split; [done|split; [by left|lia]]|].
  replace (size <? sdslen s) with false by lia. set (type := if true && is_type5 (sdsReqType size) then SDS_TYPE_8 else sdsReqType size).
  assert (size <= sdsTypeMaxSize type /\ type <> SDS_TYPE_5) as [Ht Ht5].
  { pose proof (req_type_max size) as Hr. subst type. unfold is_type5. case_bool_decide as E; simpl; [|split; [apply Hr; change (2 ^ 64) with 18446744073709551616; lia|done]].
    rewrite E in Hr. simpl in Hr. split; [|done]. change (2 ^ 64) with 18446744073709551616 in Hr. lia. }
  set (use := _ || _). set (newtype := if use then s_type s else type).
  assert (size <= sdsTypeMaxSize newtype /\ newtype <> SDS_TYPE_5) as [Hn Hn5].
  { subst newtype. destruct use eqn:Eu; [|done]. subst use. apply orb_true_iff in Eu as [Eu%bool_decide_eq_true|Eu]; [by rewrite Eu|].
    apply andb_true_iff in Eu as [E1 E2]. pose proof (type_max_mono type (s_type s)). split; [lia|]. intros E5. rewrite E5 in E1. simpl in E1, E2. lia. }
  assert (exists x rest, (if use then Some (mem_resize (s_mem s) (size + 1))
      else bytes ← mem_read (s_mem s) 0 (sdslen s); mem_write (fresh_bytes (Z.to_nat (size + 1))) 0 bytes) = Some (c ++ x :: rest) /\ zlen rest = size - sdslen s) as (x & rest & -> & Hr).
  { rewrite Hm. destruct use.
    - unfold mem_resize. case_match eqn:E.
      + exists 0. exists (take (Z.to_nat (size - sdslen s)) junk). rewrite Hm in Hz. autorewrite with zlen in Hz.
        replace (Z.to_nat (size + 1)) with (length c + S (Z.to_nat (size - sdslen s)))%nat by (unfold zlen in *; lia).
        rewrite take_app_add. split; [done|]. apply zlen_take. autorewrite with zlen in E. lia.
      + rewrite Hm in Hz. autorewrite with zlen in *.
        eexists 0, (junk ++ _). rewrite <- app_assoc. split; [cbn [app]; reflexivity|]. rewrite zlen_app, zlen_fresh by (autorewrite with zlen; lia). autorewrite with zlen. lia.
    - rewrite (mem_read_mid [] c (0 :: junk)) by done. cbn [mbind option_bind].
      destruct (mem_write_start (fresh_bytes (Z.to_nat (size + 1))) c) as (rest & -> & Hr); [rewrite zlen_fresh; lia|].
      rewrite zlen_fresh in Hr by lia. destruct (rest_cons rest) as (x & rest' & ->); [lia|]. exists x, rest'. split; [done|len_lia]. }
  cbn [mbind option_bind]. rewrite terminate by done. eexists. split; [done|].
  rewrite is_type5_false by done. split; [|split; [by right|done]]. split; [|by simpl; eauto].
  repeat split; cbn [sdslen sdsalloc s_mem s_type]; try lia; [len_lia|done].
Qed.

Lemma sdsIncrLen_spec s incr c x rest : sds_ok s -> s_mem s = c ++ x :: rest -> zlen c = sdslen s + incr ->
  (s_type s = SDS_TYPE_5 -> incr < 0) -> -10 <= incr <= 10 -> sdslen s + incr <= sdsalloc s ->
  exists s', sdsIncrLen s incr = Some s' /\ s_mem s' = c ++ 0 :: rest /\ sdslen s' = zlen c /\
    s_type s' = s_type s /\ sdsalloc s' = if is_type5 (s_type s) then zlen c else sdsalloc s.
Proof.
  intros (Hl & Hz & Hmax & H5) Hm Hc Ht Hi Ha. unfold sdsIncrLen. pose proof (zlen_nonneg c).
  assert (forall w y, 32 <= w -> 0 <= y <= 10 -> wrapu w y = y) as Hw.
  { intros w y Hw Hy. apply wrapu_small. assert (2 ^ 32 <= 2 ^ w) by (apply Z.pow_le_mono_r; lia). lia. }
  assert ((match s_type s with
    | SDS_TYPE_5 => ((incr >? 0) && (sdslen s + incr <? 32)) || ((incr <? 0) && (sdslen s >=? u32 (- incr)))
    | SDS_TYPE_8 | SDS_TYPE_16 => ((incr >=? 0) && (sdsalloc s - sdslen s >=? incr)) || ((incr <? 0) && (sdslen s >=? u32 (- incr)))
    | SDS_TYPE_32 => ((incr >=? 0) && (u32 (sdsalloc s - sdslen s) >=? u32 incr)) || ((incr <? 0) && (sdslen s >=? u32 (- incr)))
    | SDS_TYPE_64 => ((incr >=? 0) && (u64 (sdsalloc s - sdslen s) >=? u64 incr)) || ((incr <? 0) && (sdslen s >=? u64 (- incr)))
    end) = true) as ->.
  { destruct (Z.lt_ge_cases incr 0) as [Hneg|Hpos].
    - rewrite (Hw 32 (- incr)), (Hw 64 (- incr)) by lia. case_match; lia.
    - pose proof (type_max (s_type s)). destruct (s_type s) eqn:Et; [specialize (Ht eq_refl); lia|lia|lia| |].
      + simpl in Hmax. rewrite (wrapu_small 32 (_ - _)) by lia. rewrite !(Hw 32 incr) by lia. lia.
      + rewrite (wrapu_small 64 (_ - _)) by lia. rewrite !(Hw 64 incr) by lia. lia. }
  cbn [assert_true mbind option_bind]. rewrite Hm, <- Hc, terminate by done. cbn [mbind option_bind]. eexists. split; [done|]. done.
Qed.

End Strings.

(** ** Opcodes *)

Inductive sop := OZero (n : Z) | OXZero (n : Z) | OVal (v n : Z).

Definition op_ok (o : sop) : Prop :=
  match o with OZero n => 1 <= n <= 64 | OXZero n => 1 <= n <= 16384 | OVal v n => 1 <= v <= 32 /\ 1 <= n <= 4 end.
Definition op_bytes (o : sop) : list Z :=
  match o with OZero n => HLL_SPARSE_ZERO_SET n | OXZero n => HLL_SPARSE_XZERO_SET n | OVal v n => HLL_SPARSE_VAL_SET v n end.
Definition op_len (o : sop) : Z := match o with OZero n | OXZero n | OVal _ n => n end.
Definition op_val (o : sop) : Z := match o with OVal v _ => v | _ => 0 end.
Definition op_size (o : sop) : Z := match o with OXZero _ => 2 | _ => 1 end.
Definition op_head (o : sop) : Z := match o with OZero n => n - 1 | OXZero n => 64 + (n - 1) / 256 | OVal v n => 128 + 4 * (v - 1) + (n - 1) end.
Definition op_tail (o : sop) : list Z := match o with OXZero n => [(n - 1) mod 256] | _ => [] end.
Definition is_val (o : sop) : bool := match o with OVal _ _ => true | _ => false end.
Definition is_xzero (o : sop) : bool := match o with OXZero _ => true | _ => false end.
Definition is_zero (o : sop) : bool := match o with OZero _ => true | _ => false end.

Definition op_regs (o : sop) : list Z := replicate (Z.to_nat (op_len o)) (op_val o).
Definition ops_bytes (ops : list sop) : list Z := concat (op_bytes <$> ops).
Definition ops_regs (ops : list sop) : list Z := concat (op_regs <$> ops).

Lemma ops_bytes_app l1 l2 : ops_bytes (l1 ++ l2) = ops_bytes l1 ++ ops_bytes l2.
Proof. unfold ops_bytes. by rewrite fmap_app, concat_app. Qed.
Lemma ops_regs_app l1 l2 : ops_regs (l1 ++ l2) = ops_regs l1 ++ ops_regs l2.
Proof. unfold ops_regs. by rewrite fmap_app, concat_app. Qed.
Lemma ops_bytes_cons o l : ops_bytes (o :: l) = op_bytes o ++ ops_bytes l.
Proof. done. Qed.
Lemma ops_regs_cons o l : ops_regs (o :: l) = op_regs o ++ ops_regs l.
Proof. done. Qed.

Lemma op_bytes_eq o : op_ok o -> op_bytes o = op_head o :: op_tail o.
Proof.
  destruct o as [n|n|v n]; simpl; intros Ho.
  - unfold HLL_SPARSE_ZERO_SET. rewrite wrapu_small by (simpl; lia). done.
  - unfold HLL_SPARSE_XZERO_SET. rewrite (wraps_small 32) by (simpl; lia). rewrite land_255, Z.shiftr_div_pow2 by lia. change (2 ^ 8) with 256.
    change 64 with (Z.shiftl 1 6) at 1. rewrite lor_add_high by (simpl; div_lia). rewrite !wrapu_small by (simpl; div_lia). f_equal. simpl. lia.
  - unfold HLL_SPARSE_VAL_SET. rewrite (Z.lor_comm (Z.shiftl _ _)), lor_add_high by (simpl; lia). change 128 with (Z.shiftl 1 7) at 1.
    rewrite lor_add_high by (simpl; lia). rewrite wrapu_small by (simpl; lia). f_equal. simpl. lia.
Qed.

Lemma zlen_op o : zlen (op_bytes o) = op_size o.
Proof. by destruct o. Qed.
#[export] Hint Rewrite zlen_op : zlen.

Lemma op_size_range o : 1 <= op_size o <= 2.
Proof. destruct o; simpl; lia. Qed.
Lemma op_len_range o : op_ok o -> 1 <= op_len o <= 16384.
Proof. destruct o; simpl; lia. Qed.
Lemma op_val_reg o : op_ok o -> is_reg (op_val o).
Proof. unfold is_reg. destruct o; simpl; lia. Qed.
Lemma zlen_op_regs o : op_ok o -> zlen (op_regs o) = op_len o.
Proof. intros Ho%op_len_range. unfold op_regs. rewrite zlen_replicate. lia. Qed.

Lemma op_head_byte o : op_ok o -> is_byte (op_head o).
Proof. unfold is_byte. destruct o; simpl; intros; div_lia. Qed.

Lemma ops_regs_reg ops : Forall op_ok ops -> Forall is_reg (ops_regs ops).
Proof.
  induction 1 as [|o ops Ho _ IH]; [constructor|]. rewrite ops_regs_cons. apply Forall_app. split; [|done].
  apply Forall_replicate. by apply op_val_reg.
Qed.

(** An opcode has at least half a register per byte. *)
Lemma ops_bytes_len ops : Forall op_ok ops -> 0 <= zlen (ops_bytes ops) <= 2 * zlen (ops_regs ops).
Proof.
  induction 1 as [|o ops Ho _ IH]; [done|]. rewrite ops_bytes_cons, ops_regs_cons, !zlen_app, zlen_op, zlen_op_regs by done.
  pose proof (op_len_range o Ho). pose proof (op_size_range o). lia.
Qed.

Definition decode_check : bool :=
  forallb (fun b => bool_decide (HLL_SPARSE_IS_ZERO b = (b <? 64)) && bool_decide (HLL_SPARSE_IS_XZERO b = ((64 <=? b) && (b <? 128))) &&
    bool_decide (HLL_SPARSE_IS_VAL b = (128 <=? b)) && (HLL_SPARSE_ZERO_LEN b =? b mod 64 + 1) && (HLL_SPARSE_VAL_VALUE b =? (b / 4) mod 32 + 1) &&
    (HLL_SPARSE_VAL_LEN b =? b mod 4 + 1)) (seqZ 0 256).

Lemma decode_bits b : is_byte b -> HLL_SPARSE_IS_ZERO b = (b <? 64) /\ HLL_SPARSE_IS_XZERO b = ((64 <=? b) && (b <? 128)) /\
  HLL_SPARSE_IS_VAL b = (128 <=? b) /\ HLL_SPARSE_ZERO_LEN b = b mod 64 + 1 /\ HLL_SPARSE_VAL_VALUE b = (b / 4) mod 32 + 1 /\ HLL_SPARSE_VAL_LEN b = b mod 4 + 1.
Proof.
  intros Hb. assert (decode_check = true) as Hc by (vm_compute; reflexivity). apply (forallb_range _ _ b) in Hc; [|done].
  apply andb_true_iff in Hc as [Hc H6]. apply andb_true_iff in Hc as [Hc H5]. apply andb_true_iff in Hc as [Hc H4].
  apply andb_true_iff in Hc as [Hc H3%bool_decide_eq_true]. apply andb_true_iff in Hc as [H1%bool_decide_eq_true H2%bool_decide_eq_true].
  repeat split; (done || lia).
Qed.

Lemma xzero_len b b1 : is_byte b -> is_byte b1 -> HLL_SPARSE_XZERO_LEN b b1 = 256 * (b mod 64) + b1 + 1.
Proof.
  intros Hb Hb1. unfold is_byte in *. unfold HLL_SPARSE_XZERO_LEN. rewrite land_63, Z.lor_comm, lor_add_high by (simpl; lia). simpl. lia.
Qed.

(** The kind of an opcode, from its first byte. *)
Lemma op_kind o : op_ok o -> HLL_SPARSE_IS_ZERO (op_head o) = is_zero o /\ HLL_SPARSE_IS_XZERO (op_head o) = is_xzero o /\ HLL_SPARSE_IS_VAL (op_head o) = is_val o.
Proof.
  intros Ho. destruct (decode_bits _ (op_head_byte o Ho)) as (-> & -> & -> & _). destruct o; simpl in *; repeat split; div_lia.
Qed.

Lemma op_val_bits v n : op_ok (OVal v n) -> HLL_SPARSE_VAL_VALUE (op_head (OVal v n)) = v /\ HLL_SPARSE_VAL_LEN (op_head (OVal v n)) = n.
Proof.
  intros Ho. destruct (decode_bits _ (op_head_byte _ Ho)) as (_ & _ & _ & _ & -> & ->). simpl in *. div_lia.
Qed.

Lemma getb_op a o rest p : op_ok o -> p = zlen a -> getb (a ++ op_bytes o ++ rest) p = Some (op_head o).
Proof. intros Ho Hp. rewrite op_bytes_eq by done. by apply getb_mid. Qed.

Lemma sparse_run_op a o rest p : op_ok o -> p = zlen a -> sparse_run (a ++ op_bytes o ++ rest) p = Some (op_size o, op_len o, op_val o).
Proof.
  intros Ho Hp. unfold sparse_run. rewrite (getb_op a o rest p Ho Hp). cbn [mbind option_bind]. destruct (op_kind o Ho) as (-> & -> & _).
  destruct (decode_bits _ (op_head_byte o Ho)) as (_ & _ & _ & Hz & Hv & Hl).
  destruct o as [n|n|v n]; cbn [is_zero is_xzero op_size op_len op_val].
  - rewrite Hz. simpl in *. do 3 f_equal. div_lia.
  - rewrite op_bytes_eq by done. cbn [app op_tail]. rewrite cons_middle, app_assoc, getb_mid by (subst p; len_lia). cbn [mbind option_bind].
    rewrite xzero_len; [|by apply op_head_byte|unfold is_byte; div_lia]. simpl in *. do 3 f_equal. div_lia.
  - destruct (op_val_bits v n Ho) as [-> ->]. done.
Qed.

(** ** Loops over the opcodes *)

(** The memory of a sparse string. *)
Definition sparse_mem (hdr : list Z) (ops : list sop) (junk : list Z) : list Z := hdr ++ ops_bytes ops ++ 0 :: junk.

Lemma sparse_mem_split hdr l1 o l2 junk :
  sparse_mem hdr (l1 ++ o :: l2) junk = (hdr ++ ops_bytes l1) ++ op_bytes o ++ (ops_bytes l2 ++ 0 :: junk).
Proof. unfold sparse_mem. by rewrite ops_bytes_app, ops_bytes_cons, <- !app_assoc. Qed.

Lemma sparse_run_at hdr l1 o l2 junk : zlen hdr = 16 -> op_ok o ->
  sparse_run (sparse_mem hdr (l1 ++ o :: l2) junk) (16 + zlen (ops_bytes l1)) = Some (op_size o, op_len o, op_val o).
Proof. intros Hh Ho. rewrite sparse_mem_split. apply sparse_run_op; [done|len_lia]. Qed.

Lemma getb_op_at hdr l1 o l2 junk : zlen hdr = 16 -> op_ok o ->
  getb (sparse_mem hdr (l1 ++ o :: l2) junk) (16 + zlen (ops_bytes l1)) = Some (op_head o).
Proof. intros Hh Ho. rewrite sparse_mem_split. apply getb_op; [done|len_lia]. Qed.

Lemma bytes_snoc l o : zlen (ops_bytes (l ++ [o])) = zlen (ops_bytes l) + op_size o.
Proof. rewrite ops_bytes_app, ops_bytes_cons. len_lia. Qed.
Lemma regs_snoc l o : op_ok o -> zlen (ops_regs (l ++ [o])) = zlen (ops_regs l) + op_len o.
Proof. intros Ho. rewrite ops_regs_app, ops_regs_cons, !zlen_app, zlen_op_regs by done. change (zlen (ops_regs [])) with 0. lia. Qed.
Lemma bytes_mid l1 o l2 : zlen (ops_bytes (l1 ++ o :: l2)) = zlen (ops_bytes l1) + op_size o + zlen (ops_bytes l2).
Proof. rewrite ops_bytes_app, ops_bytes_cons. len_lia. Qed.
Lemma regs_mid l1 o l2 : op_ok o -> zlen (ops_regs (l1 ++ o :: l2)) = zlen (ops_regs l1) + op_len o + zlen (ops_regs l2).
Proof. intros Ho. rewrite ops_regs_app, ops_regs_cons, !zlen_app, zlen_op_regs by done. lia. Qed.

(** A loop over all opcodes that keeps a value [a] in step with the opcodes read. *)
Lemma sparse_loop {A} (body : Z * Z * A -> option (Z * Z * A + Z * A)) ops (Inv : list sop -> A -> Prop) :
  (forall l1 o l2 a, ops = l1 ++ o :: l2 -> Inv l1 a ->
    exists a', body (16 + zlen (ops_bytes l1), zlen (ops_regs l1), a) = Some (inl (16 + zlen (ops_bytes (l1 ++ [o])), zlen (ops_regs (l1 ++ [o])), a')) /\ Inv (l1 ++ [o]) a') ->
  (forall a, body (16 + zlen (ops_bytes ops), zlen (ops_regs ops), a) = Some (inr (zlen (ops_regs ops), a))) ->
  forall fuel l1 l2 a, ops = l1 ++ l2 -> Inv l1 a -> (length l2 < fuel)%nat ->
  exists a', loop fuel body (16 + zlen (ops_bytes l1), zlen (ops_regs l1), a) = Some (zlen (ops_regs ops), a') /\ Inv ops a'.
Proof.
  intros Hstep Hend fuel. induction fuel as [|fuel IH]; intros l1 l2 a Eo Hi Hf; [lia|]. cbn [loop]. destruct l2 as [|o l2].
  - rewrite app_nil_r in Eo. subst l1. rewrite Hend. eauto.
  - destruct (Hstep _ _ _ _ Eo Hi) as (a' & -> & Hi'). apply (IH _ l2); [by rewrite <- app_assoc|done|simpl in Hf; lia].
Qed.

Lemma ops_length hdr ops junk : (length ops < S (length (sparse_mem hdr ops junk)))%nat.
Proof.
  unfold sparse_mem. rewrite !length_app. assert (length ops <= length (ops_bytes ops))%nat; [|lia].
  induction ops as [|o ops IH]; [done|]. rewrite ops_bytes_cons, length_app. pose proof (zlen_op o). pose proof (op_size_range o). unfold zlen in *. simpl length. lia.
Qed.

Lemma s32_small x : 0 <= x < 2 ^ 31 -> s32 x = x.
Proof. intros. apply wraps_small; simpl; lia. Qed.

(** Regs of a prefix. *)
Lemma regs_prefix (l1 : list sop) o l2 ops : Forall op_ok ops -> ops = l1 ++ o :: l2 ->
  op_ok o /\ 0 <= zlen (ops_regs l1) /\ zlen (ops_regs l1) + op_len o <= zlen (ops_regs ops) /\ zlen (ops_bytes l1) + op_size o <= zlen (ops_bytes ops).
Proof.
  intros Hf ->. apply Forall_app in Hf as [_ Hf]. apply Forall_cons in Hf as [Ho _]. rewrite regs_mid, bytes_mid by done.
  split; [done|]. pose proof (zlen_nonneg (ops_regs l1)). pose proof (zlen_nonneg (ops_regs l2)). pose proof (zlen_nonneg (ops_bytes l2)). lia.
Qed.

(** *** Histogram *)

Lemma hllSparseRegHisto_spec hdr ops junk : zlen hdr = 16 -> Forall op_ok ops -> zlen (ops_regs ops) < 2 ^ 31 ->
  hllSparseRegHisto (sparse_mem hdr ops junk) 16 (zlen (ops_bytes ops)) (hist []) = Some (hist (ops_regs ops), negb (zlen (ops_regs ops) =? 16384)).
Proof.
  intros Hh Hf Hl. unfold hllSparseRegHisto.
  destruct (sparse_loop (sparse_histo_body (sparse_mem hdr ops junk) (16 + zlen (ops_bytes ops))) ops (fun l h => h = hist (ops_regs l)))
    with (fuel := S (length (sparse_mem hdr ops junk))) (l1 := @nil sop) (l2 := ops) (a := hist []) as (h & E & ->); try done.
  - intros l1 o l2 a Eo ->. destruct (regs_prefix l1 o l2 ops Hf Eo) as (Ho & H0 & Hr & Hb). pose proof (op_len_range o Ho). pose proof (op_size_range o).
    exists (hist (ops_regs (l1 ++ [o]))). split; [|done]. unfold sparse_histo_body. replace (_ <? _) with true by lia.
    rewrite Eo, sparse_run_at by done. cbn [mbind option_bind]. rewrite histo_add_spec; [|by apply op_val_reg|lia|lia]. cbn [mbind option_bind].
    rewrite bytes_snoc, regs_snoc, s32_small by (done || lia). rewrite ops_regs_app, ops_regs_cons, app_nil_r. do 3 f_equal. f_equal. lia.
  - intros a. unfold sparse_histo_body. by replace (_ <? _) with false by lia.
  - apply ops_length.
  - change (16 + zlen (ops_bytes [])) with 16 in E. change (zlen (ops_regs [])) with 0 in E. rewrite E. done.
Qed.

(** *** Maxima *)

Definition maxs (l1 l2 : list Z) : list Z := zip_with Z.max l1 l2.

Lemma max_set_spec l1 x l2 i v : i = zlen l1 -> 0 <= v < 256 -> max_set (l1 ++ x :: l2) i v = Some (l1 ++ Z.max x v :: l2).
Proof.
  intros Hi Hv. unfold max_set. rewrite getb_mid by done. cbn [mbind option_bind]. case_match eqn:E.
  - rewrite setb_mid by done. rewrite wrapu_small by (simpl; lia). do 3 f_equal. lia.
  - do 3 f_equal. lia.
Qed.

Lemma merge_fill_spec v n : forall l1 xs l2 i, i = zlen l1 -> 0 <= v < 256 -> length xs = n -> i + Z.of_nat n < 2 ^ 31 ->
  merge_fill n (l1 ++ xs ++ l2) i v = Some (l1 ++ maxs xs (replicate n v) ++ l2, i + Z.of_nat n).
Proof.
  induction n as [|n IH]; intros l1 xs l2 i Hi Hv Hx Hn; (destruct xs as [|x xs]; simpl in Hx; [|]); try lia.
  - simpl. do 2 f_equal. lia.
  - cbn [merge_fill app]. rewrite max_set_spec by done. cbn [mbind option_bind]. rewrite s32_small by (pose proof (zlen_nonneg l1); lia).
    rewrite cons_middle, app_assoc, (IH _ xs l2) by (len_lia || lia). rewrite <- !app_assoc. cbn [replicate maxs zip_with app]. do 2 f_equal. lia.
Qed.

Lemma maxs_zeros l n : Forall is_reg l -> length l = n -> maxs l (replicate n 0) = l.
Proof.
  intros Hf. revert n. induction Hf as [|x l Hx _ IH]; intros n <-; [done|]. simpl. unfold is_reg in Hx. f_equal; [lia|by apply IH].
Qed.

Lemma maxs_app a b c d : length a = length c -> maxs (a ++ b) (c ++ d) = maxs a c ++ maxs b d.
Proof. apply zip_with_app. Qed.

Lemma hllMerge_sparse_spec hdr ops junk max : zlen hdr = 16 -> Forall op_ok ops -> zlen (ops_regs ops) = 16384 -> zlen max = 16384 -> Forall is_reg max ->
  loop (S (length (sparse_mem hdr ops junk))) (merge_sparse_body (sparse_mem hdr ops junk) (16 + zlen (ops_bytes ops))) (16, 0, max) =
    Some (16384, maxs max (ops_regs ops)).
Proof.
  intros Hh Hf Hl Hmax Hm.
  destruct (sparse_loop (merge_sparse_body (sparse_mem hdr ops junk) (16 + zlen (ops_bytes ops))) ops
      (fun l h => h = maxs (take (length (ops_regs l)) max) (ops_regs l) ++ drop (length (ops_regs l)) max))
    with (fuel := S (length (sparse_mem hdr ops junk))) (l1 := @nil sop) (l2 := ops) (a := max) as (h & E & ->); try done.
  - intros l1 o l2 a Eo ->. destruct (regs_prefix l1 o l2 ops Hf Eo) as (Ho & H0 & Hr & Hb). pose proof (op_len_range o Ho). pose proof (op_size_range o).
    eexists. split; [|done]. unfold merge_sparse_body. replace (_ <? _) with true by lia.
    rewrite Eo, sparse_run_at by done. cbn [mbind option_bind]. rewrite bytes_snoc, regs_snoc by done.
    set (k := length (ops_regs l1)) in *. assert (Z.of_nat k = zlen (ops_regs l1)) as Ek by done.
    assert (length (ops_regs (l1 ++ [o])) = k + Z.to_nat (op_len o))%nat as Ek'.
    { pose proof (regs_snoc l1 o Ho). unfold zlen in *. lia. }
    rewrite Ek'. set (n := Z.to_nat (op_len o)) in *.
    assert (drop k max = take n (drop k max) ++ drop (k + n) max) as Ed by (by rewrite <- drop_drop, take_drop).
    assert (length (take n (drop k max)) = n) as Ln by (rewrite length_take, length_drop; unfold zlen in *; lia).
    assert (maxs (take (k + n) max) (ops_regs (l1 ++ [o])) = maxs (take k max) (ops_regs l1) ++ maxs (take n (drop k max)) (replicate n (op_val o))) as ->.
    { rewrite ops_regs_app, ops_regs_cons, app_nil_r, <- maxs_app by (rewrite length_take; unfold zlen in *; subst k; lia). f_equal. by rewrite <- take_take_drop. }
    assert (zlen (maxs (take k max) (ops_regs l1)) = zlen (ops_regs l1)) as Lm.
    { unfold maxs, zlen. rewrite length_zip_with, length_take. unfold zlen in *. subst k. lia. }
    case_match eqn:Ev.
    + replace (op_val o) with 0 by lia. rewrite maxs_zeros; [|by apply Forall_take, Forall_drop|done]. rewrite <- app_assoc, <- Ed, s32_small by lia. do 3 f_equal. f_equal. lia.
    + replace (_ >? _) with false by (unfold HLL_REGISTERS; lia). rewrite Ed at 1.
      rewrite (merge_fill_spec (op_val o) n) by (done || lia || (pose proof (op_val_reg o Ho) as Hv; unfold is_reg in Hv; lia)).
      cbn [mbind option_bind]. replace (Z.of_nat n) with (op_len o) by lia. by rewrite <- app_assoc, Z.add_assoc.
  - intros a. unfold merge_sparse_body. by replace (_ <? _) with false by lia.
  - apply ops_length.
  - change (16 + zlen (ops_bytes [])) with 16 in E. change (zlen (ops_regs [])) with 0 in E. rewrite E, Hl. do 2 f_equal.
    rewrite take_ge, drop_ge by (unfold zlen in *; lia). by rewrite app_nil_r.
Qed.

(** ** The header and the two representations *)

Definition header (enc : Z) (u card : list Z) : list Z := [72; 89; 76; 76; enc] ++ u ++ card.
Definition hdr_ok (u card : list Z) : Prop := zlen u = 3 /\ zlen card = 8 /\ Forall is_byte card.

Lemma zlen_header enc u card : hdr_ok u card -> zlen (header enc u card) = 16.
Proof. intros (Hu & Hc & _). unfold header. len_lia. Qed.

Definition sparse_hll (o : sds) (u card : list Z) (ops : list sop) : Prop :=
  hdr_ok u card /\ Forall op_ok ops /\ zlen (ops_regs ops) = 16384 /\ holds o (header 1 u card ++ ops_bytes ops).
Definition dense_hll (o : sds) (u card regs : list Z) : Prop :=
  hdr_ok u card /\ Forall is_reg regs /\ zlen regs = 16384 /\ holds o (header 0 u card ++ pack regs).

Lemma sparse_layout o u card ops : sparse_hll o u card ops ->
  exists junk, s_mem o = sparse_mem (header 1 u card) ops junk /\ sdslen o = 16 + zlen (ops_bytes ops) /\ zlen (ops_bytes ops) <= 32768.
Proof.
  intros (Hh & Hf & Hl & _ & Hlen & junk & Hm). exists junk. split; [|split].
  - rewrite Hm. unfold sparse_mem. by rewrite <- app_assoc.
  - rewrite Hlen, zlen_app, zlen_header by done. done.
  - pose proof (ops_bytes_len ops Hf). lia.
Qed.

Lemma dense_layout o u card regs : dense_hll o u card regs ->
  exists junk, s_mem o = header 0 u card ++ pack regs ++ 0 :: junk /\ sdslen o = 12304.
Proof.
  intros (Hh & Hf & Hl & _ & Hlen & junk & Hm). exists junk. split; [by rewrite Hm, <- app_assoc|].
  rewrite Hlen, zlen_app, zlen_header by done. rewrite (zlen_pack regs 4096) by lia. done.
Qed.

Lemma hdr_encoding_header enc u card rest : hdr_encoding (header enc u card ++ rest) = Some enc.
Proof. done. Qed.

(** The other header in place of the old one. *)
Lemma set_encoding enc enc' u card rest : setb (header enc u card ++ rest) 4 enc' = Some (header enc' u card ++ rest).
Proof. done. Qed.

(** A string after its memory changed. *)
Lemma holds_set_mem s c c' junk : holds s c -> zlen c' = zlen c -> sdsalloc s - zlen c <= zlen junk -> holds (set_mem s (c' ++ 0 :: junk)) c'.
Proof.
  intros ((Hl & Hz & Hm & H5) & Hlen & _) Hc Hj. split; [|split; [simpl; lia|by exists junk]]. repeat split; simpl; try done; try lia. len_lia.
Qed.

Lemma holds_junk s c junk : holds s c -> s_mem s = c ++ 0 :: junk -> sdsalloc s - zlen c <= zlen junk.
Proof. intros ((Hl & Hz & _) & Hlen & _) E. rewrite E in Hz. len_lia. Qed.

(** ** Conversion to the dense representation *)

Lemma pack_zeros n : pack (replicate (4 * n) 0) = replicate (3 * n) 0.
Proof.
  induction n as [|n IH]; [done|]. replace (4 * S n)%nat with (4 + 4 * n)%nat by lia. replace (3 * S n)%nat with (3 + 3 * n)%nat by lia.
  rewrite !replicate_add. cbn [replicate app pack]. by rewrite IH.
Qed.

Lemma dense_fill_spec v n : forall a l1 k junk, is_reg v -> Forall is_reg l1 -> zlen l1 + Z.of_nat n + Z.of_nat k = 16384 ->
  dense_fill n (a ++ pack (l1 ++ replicate n 0 ++ replicate k 0) ++ 0 :: junk) (zlen a) (zlen l1) v =
    Some (a ++ pack (l1 ++ replicate n v ++ replicate k 0) ++ 0 :: junk, zlen l1 + Z.of_nat n).
Proof.
  induction n as [|n IH]; intros a l1 k junk Hv Hf Hl; [simpl; do 2 f_equal; lia|]. pose proof (zlen_nonneg l1). cbn [dense_fill].
  rewrite (dense_set 32 a _ 4096); [|by left|autorewrite with zlen; simpl replicate; len_lia|done| |done|unfold is_byte; lia|autorewrite with zlen; lia].
  2: { apply Forall_app. split; [done|]. apply Forall_app. split; apply Forall_replicate; unfold is_reg; lia. }
  cbn [mbind option_bind replicate app]. unfold zlen at 1 2. rewrite Nat2Z.id, insert_app_r_alt by lia. rewrite Nat.sub_diag. cbn [insert list_insert].
  rewrite (cons_middle v), (app_assoc l1). change (Z.of_nat (length l1)) with (zlen l1). rewrite s32_small by lia.
  replace (zlen l1 + 1) with (zlen (l1 ++ [v])) by len_lia. rewrite IH; [|done|apply Forall_app; split; [done|by apply Forall_singleton]|len_lia].
  rewrite <- !app_assoc. cbn [app]. do 2 f_equal. len_lia.
Qed.

Section Convert.
Context `{Allocator} `{Usable}.

Lemma sparse_to_dense_loop hdr ops junk dhdr djunk : zlen hdr = 16 -> zlen dhdr = 16 -> Forall op_ok ops -> zlen (ops_regs ops) = 16384 ->
  loop (S (length (sparse_mem hdr ops junk))) (sparse_to_dense_body (sparse_mem hdr ops junk) (16 + zlen (ops_bytes ops)))
    (16, 0, dhdr ++ pack (replicate (Z.to_nat 16384) 0) ++ 0 :: djunk) = Some (16384, dhdr ++ pack (ops_regs ops) ++ 0 :: djunk).
Proof.
  intros Hh Hd Hf Hl. set (m := sparse_mem hdr ops junk).
  destruct (sparse_loop (sparse_to_dense_body m (16 + zlen (ops_bytes ops))) ops
      (fun l a => a = dhdr ++ pack (ops_regs l ++ replicate (Z.to_nat 16384 - length (ops_regs l)) 0) ++ 0 :: djunk))
    with (fuel := S (length m)) (l1 := @nil sop) (l2 := ops) (a := dhdr ++ pack (replicate (Z.to_nat 16384) 0) ++ 0 :: djunk) as (h & E & ->); try done.
  - intros l1 o l2 a Eo ->. destruct (regs_prefix l1 o l2 ops Hf Eo) as (Ho & Hge & Hr & Hb). pose proof (op_len_range o Ho). pose proof (op_size_range o).
    eexists. split; [|done]. unfold sparse_to_dense_body. replace (_ <? _) with true by lia. subst m.
    rewrite Eo, sparse_run_at by done. cbn [mbind option_bind]. rewrite bytes_snoc, regs_snoc by done.
    assert (length (ops_regs (l1 ++ [o])) = length (ops_regs l1) + Z.to_nat (op_len o))%nat as ->.
    { pose proof (regs_snoc l1 o Ho). unfold zlen in *. lia. }
    rewrite ops_regs_app, ops_regs_cons, app_nil_r. unfold op_regs. set (n := Z.to_nat (op_len o)) in *.
    replace (Z.to_nat 16384 - length (ops_regs l1))%nat with (n + (Z.to_nat 16384 - (length (ops_regs l1) + n)))%nat by (unfold zlen in *; lia).
    rewrite replicate_add. case_match eqn:Ev.
    + replace (op_val o) with 0 by lia. rewrite <- app_assoc, Z.add_assoc, s32_small by lia. done.
    + rewrite s32_small by lia. replace (_ >? _) with false by (unfold HLL_REGISTERS; lia). unfold HLL_HDR_SIZE. rewrite <- Hd.
      rewrite dense_fill_spec; [|by apply op_val_reg| |unfold zlen in *; lia]. 2: { rewrite Eo in Hf. apply Forall_app in Hf as [Hf _]. by apply ops_regs_reg. }
      cbn [mbind option_bind]. replace (Z.of_nat n) with (op_len o) by lia. by rewrite <- app_assoc, Z.add_assoc.
  - intros a. unfold sparse_to_dense_body. by replace (_ <? _) with false by lia.
  - apply ops_length.
  - change (16 + zlen (ops_bytes [])) with 16 in E. change (zlen (ops_regs [])) with 0 in E. rewrite E, Hl. do 3 f_equal.
    replace (Z.to_nat 16384 - length (ops_regs ops))%nat with 0%nat by (unfold zlen in *; lia). by rewrite app_nil_r.
Qed.

Lemma hllSparseToDense_spec o u card ops : sparse_hll o u card ops ->
  exists o', hllSparseToDense o = Some (o', true) /\ dense_hll o' u card (ops_regs ops).
Proof.
  intros Ho. destruct (sparse_layout _ _ _ _ Ho) as (junk & Hm & Hlen & _). destruct Ho as (Hh & Hf & Hl & _).
  unfold hllSparseToDense. rewrite Hm, Hlen. change (hdr_encoding (sparse_mem (header 1 u card) ops junk)) with (Some 1). cbn [mbind option_bind].
  change (1 =? HLL_DENSE) with false. cbn match.
  destruct (sdsnewlen_spec None HLL_DENSE_SIZE (replicate (Z.to_nat HLL_DENSE_SIZE) 0)) as (d & -> & Hd); [done|done|by right|].
  pose proof Hd as (_ & _ & djunk & Hdm). cbn [mbind option_bind].
  replace (mem_read (sparse_mem (header 1 u card) ops junk) 0 HLL_HDR_SIZE) with (Some (header 1 u card)).
  2: { symmetry. apply (mem_read_mid [] (header 1 u card) (ops_bytes ops ++ 0 :: junk)); [done|by rewrite zlen_header]. }
  cbn [mbind option_bind].
  rewrite Hdm. change (Z.to_nat HLL_DENSE_SIZE) with (16 + 3 * 4096)%nat. rewrite replicate_add, <- pack_zeros, <- app_assoc.
  change (mem_write (replicate 16 0 ++ ?r) 0 (header 1 u card)) with (mem_write ([] ++ replicate 16 0 ++ r) 0 (header 1 u card)).
  rewrite (mem_write_mid [] (replicate 16 0) (header 1 u card)) by (done || rewrite zlen_header; done). cbn [mbind option_bind app].
  rewrite set_encoding. cbn [mbind option_bind]. change (4 * 4096)%nat with (Z.to_nat 16384).
  unfold HLL_HDR_SIZE. change HLL_DENSE with 0. rewrite sparse_to_dense_loop; [|by apply zlen_header|by apply zlen_header|done|done].
  cbn [mbind option_bind]. change (negb (16384 =? HLL_REGISTERS)) with false. cbn match. eexists. split; [done|].
  split; [done|]. split; [by apply ops_regs_reg|]. split; [done|]. rewrite app_assoc.
  assert (zlen (header 0 u card ++ pack (ops_regs ops)) = zlen (replicate (Z.to_nat HLL_DENSE_SIZE) 0)) as Ez.
  { rewrite zlen_app, zlen_header, (zlen_pack _ 4096), zlen_replicate by (done || lia). done. }
  eapply holds_set_mem; [exact Hd|done|]. by eapply holds_junk.
Qed.
End Convert.
