(* ===== verification/HllUpdate.v ===== *)
(** * Updating a register of a sparse string ([hllSparseSet] of [hyperloglog.c])

    The opcode that covers the register is found, split around it and replaced, neighbouring values
    are merged, or the string is converted to the dense representation: in every case the registers
    afterwards are the list updated at one place ([hllSparseSet_spec]). *)
From S2P Require Import Prelude Endian Split Hll HllDense HllSparse.

(** ** Finding the opcode *)

Definition prev_ok (l1 : list sop) (prev : option Z) : Prop :=
  match prev with None => l1 = [] | Some q => exists l0 x, l1 = l0 ++ [x] /\ q = 16 + zlen (ops_bytes l0) end.

Lemma locate_spec hdr ops junk index : zlen hdr = 16 -> Forall op_ok ops -> index < zlen (ops_regs ops) ->
  forall fuel l1 l2 prev span, ops = l1 ++ l2 -> zlen (ops_regs l1) <= index -> prev_ok l1 prev -> (length l2 < fuel)%nat ->
  exists l1' o l2' prev', ops = l1' ++ o :: l2' /\ zlen (ops_regs l1') <= index < zlen (ops_regs l1') + op_len o /\ prev_ok l1' prev' /\
    loop fuel (sparse_locate_body (sparse_mem hdr ops junk) (16 + zlen (ops_bytes ops)) index) (16 + zlen (ops_bytes l1), prev, zlen (ops_regs l1), span)
      = Some (16 + zlen (ops_bytes l1'), prev', zlen (ops_regs l1'), op_len o).
Proof.
  intros Hh Hf Hi fuel. induction fuel as [|fuel IH]; intros l1 l2 prev span Eo Hge Hp Hfu; [lia|]. destruct l2 as [|o l2].
  - rewrite app_nil_r in Eo. subst l1. lia.
  - destruct (regs_prefix l1 o l2 ops Hf Eo) as (Ho & _ & _ & Hb). pose proof (op_size_range o). cbn [loop]. unfold sparse_locate_body at 1.
    replace (_ <? _) with true by lia. assert (sparse_run (sparse_mem hdr ops junk) (16 + zlen (ops_bytes l1)) = Some (op_size o, op_len o, op_val o)) as -> by (rewrite Eo; by apply sparse_run_at). cbn [mbind option_bind]. destruct (index <=? _) eqn:E.
    + exists l1, o, l2, prev. repeat split; (done || lia).
    + rewrite <- Z.add_assoc, <- bytes_snoc, <- regs_snoc by done.
      destruct (IH (l1 ++ [o]) l2 (Some (16 + zlen (ops_bytes l1))) (op_len o)) as (l1' & o' & l2' & prev' & H1 & H2 & H3 & H4);
        [by rewrite <- app_assoc|rewrite regs_snoc by done; lia|by exists l1, o|simpl in Hfu; lia|].
      exists l1', o', l2', prev'. done.
Qed.

(** ** Splitting an opcode *)

Definition run_op (v n : Z) : sop := if v =? 0 then (if n >? 64 then OXZero n else OZero n) else OVal v n.

Definition split_ops (o : sop) (k count : Z) : list sop :=
  (if k =? 0 then [] else [run_op (op_val o) k]) ++ [OVal count 1] ++ (if k =? op_len o - 1 then [] else [run_op (op_val o) (op_len o - 1 - k)]).

Lemma run_op_facts o n : op_ok o -> 1 <= n <= op_len o ->
  op_ok (run_op (op_val o) n) /\ op_regs (run_op (op_val o) n) = replicate (Z.to_nat n) (op_val o) /\ op_size (run_op (op_val o) n) <= op_size o /\
  (if op_val o =? 0 then zeros_op n else HLL_SPARSE_VAL_SET (op_val o) n) = op_bytes (run_op (op_val o) n).
Proof.
  intros Ho Hn. unfold run_op. destruct o as [m|m|v m]; cbn [op_val op_len op_ok op_size] in *.
  - cbn [Z.eqb]. unfold zeros_op, HLL_SPARSE_ZERO_MAX_LEN. replace (n >? 64) with false by lia. repeat split; simpl; lia.
  - cbn [Z.eqb]. unfold zeros_op, HLL_SPARSE_ZERO_MAX_LEN. destruct (n >? 64) eqn:E; repeat split; simpl; lia.
  - replace (v =? 0) with false by lia. repeat split; simpl; lia.
Qed.

Ltac forall_cons := cbn [app]; repeat (apply Forall_cons; split; [done|]); apply Forall_nil; done.

Lemma split_regs o k count : op_ok o -> 0 <= k < op_len o -> 1 <= count <= 32 ->
  Forall op_ok (split_ops o k count) /\ ops_regs (split_ops o k count) = <[Z.to_nat k := count]> (op_regs o) /\
  1 <= zlen (ops_bytes (split_ops o k count)) <= 2 * op_size o + 1.
Proof.
  intros Ho Hk Hc. unfold split_ops. pose proof (op_size_range o).
  assert (op_regs o = replicate (Z.to_nat k) (op_val o) ++ op_val o :: replicate (Z.to_nat (op_len o - 1 - k)) (op_val o)) as ->.
  { unfold op_regs. replace (Z.to_nat (op_len o)) with (Z.to_nat k + S (Z.to_nat (op_len o - 1 - k)))%nat by lia. by rewrite replicate_add. }
  rewrite insert_app_r_alt by (rewrite length_replicate; lia). rewrite length_replicate, Nat.sub_diag. cbn [insert list_insert].
  assert (op_ok (OVal count 1)) by (simpl; lia).
  rewrite !ops_regs_app, !ops_bytes_app, !zlen_app. change (zlen (ops_bytes [OVal count 1])) with 1.
  destruct (k =? 0) eqn:E1, (k =? op_len o - 1) eqn:E2.
  - replace k with 0 by lia. replace (op_len o - 1 - 0) with 0 by lia. repeat split; [forall_cons|done|change (zlen (ops_bytes [])) with 0..]; lia.
  - replace k with 0 by lia. destruct (run_op_facts o (op_len o - 1 - 0)) as (H1 & H2 & H3 & _); [done|lia|].
    rewrite !ops_regs_cons, H2, ops_bytes_cons, zlen_app, zlen_op. pose proof (op_size_range (run_op (op_val o) (op_len o - 1 - 0))). repeat split; [forall_cons|by (change (ops_regs []) with (@nil Z); rewrite !app_nil_r)|change (zlen (ops_bytes [])) with 0..]; lia.
  - destruct (run_op_facts o k) as (H1 & H2 & H3 & _); [done|lia|]. replace (op_len o - 1 - k) with 0 by lia.
    rewrite !ops_regs_cons, H2, ops_bytes_cons, zlen_app, zlen_op. pose proof (op_size_range (run_op (op_val o) k)). repeat split; [forall_cons|by (change (ops_regs []) with (@nil Z); rewrite !app_nil_r)|change (zlen (ops_bytes [])) with 0..]; lia.
  - destruct (run_op_facts o k) as (H1 & H2 & H3 & _); [done|lia|]. destruct (run_op_facts o (op_len o - 1 - k)) as (H4 & H5 & H6 & _); [done|lia|].
    rewrite !ops_regs_cons, H2, H5, !ops_bytes_cons, !zlen_app, !zlen_op. pose proof (op_size_range (run_op (op_val o) k)). pose proof (op_size_range (run_op (op_val o) (op_len o - 1 - k))). repeat split; [forall_cons|by (change (ops_regs []) with (@nil Z); rewrite !app_nil_r)|change (zlen (ops_bytes [])) with 0..]; lia.
Qed.

Lemma emit_spec seq bytes : zlen seq + zlen bytes <= 5 -> seq_emit seq bytes = Some (seq ++ bytes).
Proof. intros. unfold seq_emit. by replace (_ <=? _) with true by lia. Qed.

Lemma sparse_split_spec o first index count : op_ok o -> first <= index < first + op_len o -> 0 <= first < 16384 -> 1 <= count <= 32 ->
  sparse_split index first (s32 (first + op_len o - 1)) count (op_val o) = Some (ops_bytes (split_ops o (index - first) count)).
Proof.
  intros Ho Hi Hf Hc. pose proof (op_len_range o Ho). pose proof (op_size_range o). destruct (split_regs o (index - first) count) as (_ & _ & Hs); [done|lia|done|].
  unfold sparse_split, split_ops in *. rewrite !ops_bytes_app, !zlen_app in Hs. change (zlen (ops_bytes [OVal count 1])) with 1 in Hs.
  rewrite (s32_small (first + _ - 1)) by lia. rewrite !s32_small by lia. rewrite !ops_bytes_app.
  assert ((if negb (index =? first) then seq_emit [] (if op_val o =? 0 then zeros_op (index - first) else HLL_SPARSE_VAL_SET (op_val o) (index - first)) else Some [])
    = Some (ops_bytes (if index - first =? 0 then [] else [run_op (op_val o) (index - first)]))) as ->.
  { destruct (index =? first) eqn:E; cbn [negb]; [by replace (index - first =? 0) with true by lia|]. replace (index - first =? 0) with false by lia.
    destruct (run_op_facts o (index - first)) as (_ & _ & Hz & ->); [done|lia|]. rewrite emit_spec by (rewrite zlen_op, zlen_nil; lia).
    rewrite ops_bytes_cons. by rewrite app_nil_r. }
  cbn [mbind option_bind]. set (pre := ops_bytes (if index - first =? 0 then [] else _)) in *.
  change (HLL_SPARSE_VAL_SET count 1) with (ops_bytes [OVal count 1]).
  rewrite emit_spec by (change (zlen (ops_bytes [OVal count 1])) with 1; pose proof (zlen_nonneg (ops_bytes (if index - first =? op_len o - 1 then [] else [run_op (op_val o) (op_len o - 1 - (index - first))]))); lia).
  cbn [mbind option_bind]. destruct (index =? first + op_len o - 1) eqn:E; cbn [negb].
  - replace (index - first =? op_len o - 1) with true by lia. by rewrite app_nil_r.
  - replace (index - first =? op_len o - 1) with false in * by lia. replace (first + op_len o - 1 - index) with (op_len o - 1 - (index - first)) by lia.
    destruct (run_op_facts o (op_len o - 1 - (index - first))) as (_ & _ & _ & ->); [done|lia|].
    rewrite (ops_bytes_cons (run_op _ _)) in *. change (ops_bytes []) with (@nil Z) in *. rewrite (app_nil_r (op_bytes (run_op _ _))) in *. rewrite emit_spec; [by rewrite <- app_assoc|].
    rewrite zlen_app. change (zlen (ops_bytes [OVal count 1])) with 1. lia.
Qed.

(** ** Moving bytes in the middle of a memory *)

Lemma memmove_left_mid a gap b c dst src n :
  src = zlen a + zlen gap -> n = zlen b -> dst = zlen a ->
  exists rest, zlen rest = zlen gap /\ memmove (a ++ gap ++ b ++ c) dst src n = Some (a ++ b ++ rest ++ c).
Proof.
  intros -> -> ->. exists (drop (length b) (gap ++ b)).
  assert (zlen (drop (length b) (gap ++ b)) = zlen gap) as Hh by (unfold zlen; rewrite length_drop, length_app; lia).
  split; [done|]. unfold memmove. rewrite (app_assoc a), mem_read_mid by (rewrite ?zlen_app; done).
  cbn [mbind option_bind]. rewrite <- app_assoc, (app_assoc gap). rewrite <- (take_drop (length b) (gap ++ b)) at 1. rewrite <- app_assoc.
  rewrite mem_write_mid; [done|done|]. unfold zlen. rewrite length_take, length_app. lia.
Qed.

Lemma memmove_right_mid a b gap c dst src n :
  src = zlen a -> n = zlen b -> dst = zlen a + zlen gap ->
  exists hole, zlen hole = zlen gap /\ memmove (a ++ b ++ gap ++ c) dst src n = Some (a ++ hole ++ b ++ c).
Proof.
  intros -> -> ->. exists (take (length gap) (b ++ gap)).
  assert (zlen (take (length gap) (b ++ gap)) = zlen gap) as Hh by (unfold zlen; rewrite length_take, length_app; lia).
  split; [done|]. unfold memmove. rewrite mem_read_mid by done. cbn [mbind option_bind].
  rewrite (app_assoc b). rewrite <- (take_drop (length gap) (b ++ gap)) at 1. rewrite <- app_assoc, (app_assoc a).
  rewrite mem_write_mid; [by rewrite <- app_assoc|rewrite zlen_app, Hh; done|]. unfold zlen. rewrite length_drop, length_app. lia.
Qed.

(** ** Merging neighbours *)

Lemma getb_op_next hdr l1 o1 o2 l2 junk : zlen hdr = 16 -> op_size o1 = 1 -> op_ok o2 ->
  getb (sparse_mem hdr (l1 ++ o1 :: o2 :: l2) junk) (16 + zlen (ops_bytes l1) + 1) = Some (op_head o2).
Proof.
  intros Hh H1 Ho. rewrite (cons_middle o1), app_assoc. replace (16 + zlen (ops_bytes l1) + 1) with (16 + zlen (ops_bytes (l1 ++ [o1]))) by (rewrite bytes_snoc; lia).
  by apply getb_op_at.
Qed.

Lemma val_regs v n1 n2 : 1 <= n1 -> 1 <= n2 -> op_regs (OVal v (n1 + n2)) = op_regs (OVal v n1) ++ op_regs (OVal v n2).
Proof. intros. unfold op_regs. simpl. by rewrite Z2Nat.inj_add, replicate_add by lia. Qed.

Section Update.
Context `{Allocator} `{Usable}.

(** The string after two opcodes became one. *)
Lemma merge_two o u card l1 v n1 n2 l2 : sparse_hll o u card (l1 ++ OVal v n1 :: OVal v n2 :: l2) -> n1 + n2 <= 4 ->
  exists o', sparse_hll o' u card (l1 ++ OVal v (n1 + n2) :: l2) /\
    (m ← mem_write (s_mem o) (16 + zlen (ops_bytes l1) + 1) (HLL_SPARSE_VAL_SET v (n1 + n2));
     m ← memmove m (16 + zlen (ops_bytes l1)) (16 + zlen (ops_bytes l1) + 1) (sdslen o - (16 + zlen (ops_bytes l1)));
     sdsIncrLen (set_mem o m) (-1)) = Some o'.
Proof.
  intros Ho Hn. pose proof (sparse_layout _ _ _ _ Ho) as (junk & Hm & Hlen & _). destruct Ho as (Hh & Hf & Hl & Hok & Hlen' & _).
  pose proof Hf as Hf'. rewrite Forall_app, !Forall_cons in Hf'. destruct Hf' as (Hf1 & Ho1 & Ho2 & Hf2).
  set (A := header 1 u card ++ ops_bytes l1). assert (zlen A = 16 + zlen (ops_bytes l1)) as HA by (unfold A; rewrite zlen_app, zlen_header by done; lia).
  set (x := HLL_SPARSE_VAL_SET v (n1 + n2)). assert (zlen x = 1) as Hx by done.
  assert (s_mem o = A ++ op_bytes (OVal v n1) ++ op_bytes (OVal v n2) ++ ops_bytes l2 ++ 0 :: junk) as Em.
  { rewrite Hm, sparse_mem_split, ops_bytes_cons, <- (app_assoc (op_bytes (OVal v n2))). done. }
  rewrite bytes_mid, ops_bytes_cons, zlen_app, !zlen_op in Hlen. cbn [op_size] in Hlen.
  rewrite Em, (app_assoc A), mem_write_mid by (rewrite ?zlen_app, ?zlen_op; simpl op_size; lia). cbn [mbind option_bind]. rewrite <- app_assoc.
  replace (x ++ ops_bytes l2 ++ 0 :: junk) with ((x ++ ops_bytes l2 ++ [0]) ++ junk) by (by rewrite <- !app_assoc).
  destruct (memmove_left_mid A (op_bytes (OVal v n1)) (x ++ ops_bytes l2 ++ [0]) junk (16 + zlen (ops_bytes l1)) (16 + zlen (ops_bytes l1) + 1) (sdslen o - (16 + zlen (ops_bytes l1))))
    as (rest & Hr & ->); [rewrite zlen_op; simpl op_size; lia|rewrite Hlen; len_lia|lia|]. cbn [mbind option_bind].
  rewrite zlen_op in Hr. cbn [op_size] in Hr.
  destruct (sdsIncrLen_spec (set_mem o (A ++ (x ++ ops_bytes l2 ++ [0]) ++ rest ++ junk)) (-1) (A ++ x ++ ops_bytes l2) 0 (rest ++ junk)) as (o' & -> & E1 & E2 & E3 & E4).
  - destruct Hok as (H1 & H2 & H3 & H4). repeat split; cbn [sdslen sdsalloc s_mem s_type set_mem]; try done; try lia.
    rewrite Em in H2. autorewrite with zlen in *. cbn [op_size] in H2. lia.
  - cbn [s_mem set_mem]. by rewrite <- !app_assoc.
  - cbn [sdslen set_mem]. len_lia.
  - lia.
  - lia.
  - cbn [sdslen sdsalloc set_mem]. destruct Hok. lia.
  - exists o'. split; [|done]. cbn [s_type sdsalloc set_mem] in *. split; [done|]. split; [|split].
    + rewrite Forall_app, Forall_cons. simpl in *. repeat split; (done || lia).
    + rewrite <- Hl, !ops_regs_app, !ops_regs_cons, val_regs, <- app_assoc by (simpl in *; lia). done.
    + rewrite ops_bytes_app, ops_bytes_cons, (app_assoc (header 1 u card)). fold A.
      split; [|split; [done|by exists (rest ++ junk)]]. destruct Hok as (H1 & H2 & H3 & H4). rewrite Em in H2.
      unfold sds_ok. rewrite E1, E2, E3, E4. clear E1. autorewrite with zlen in *. cbn [op_size] in *. pose proof (zlen_nonneg (ops_bytes l2)). pose proof (zlen_nonneg (ops_bytes l1)). pose proof (zlen_nonneg junk).
      unfold is_type5. case_bool_decide as E5; [specialize (H4 E5)|]; repeat split; (done || lia).
Qed.

Lemma sparse_merge_spec n : forall o u card l1 l2, sparse_hll o u card (l1 ++ l2) ->
  exists o' ops', sparse_merge n o (16 + zlen (ops_bytes l1)) = Some o' /\ sparse_hll o' u card ops' /\ ops_regs ops' = ops_regs (l1 ++ l2).
Proof.
  induction n as [|n IH]; intros o u card l1 l2 Ho; [by exists o, (l1 ++ l2)|]. cbn [sparse_merge].
  pose proof (sparse_layout _ _ _ _ Ho) as (junk & Hm & Hlen & _). pose proof Ho as (Hh & Hf & _).
  pose proof (zlen_header 1 u card Hh) as Hz. rewrite Hlen, ops_bytes_app, zlen_app. destruct l2 as [|op l2].
  { change (zlen (ops_bytes [])) with 0. replace (_ <? _) with false by lia. by exists o, (l1 ++ []). }
  rewrite Forall_app, Forall_cons in Hf. destruct Hf as (Hf1 & Hop & Hf2). rewrite ops_bytes_cons, zlen_app, zlen_op. pose proof (op_size_range op).
  pose proof (zlen_nonneg (ops_bytes l2)). replace (_ <? _) with true by lia. assert (getb (s_mem o) (16 + zlen (ops_bytes l1)) = Some (op_head op)) as -> by (rewrite Hm; by apply getb_op_at). cbn [mbind option_bind].
  destruct (op_kind op Hop) as (-> & -> & _).
  assert (forall k, k = op_size op -> exists o' ops', sparse_merge n o (16 + zlen (ops_bytes l1) + k) = Some o' /\ sparse_hll o' u card ops' /\ ops_regs ops' = ops_regs (l1 ++ op :: l2)) as Hnext.
  { intros k ->. rewrite <- Z.add_assoc, <- bytes_snoc. rewrite (cons_middle op l1 l2), (app_assoc l1 [op] l2). apply IH. by rewrite <- app_assoc. }
  destruct op as [k|k|v k]; cbn [is_xzero is_zero op_size] in *; [by apply Hnext..|]. destruct l2 as [|op2 l2].
  { change (zlen (ops_bytes [])) with 0. replace (_ <? _) with false by lia. by apply Hnext. }
  rewrite Forall_cons in Hf2. destruct Hf2 as [Hop2 Hf2]. rewrite ops_bytes_cons, zlen_app, zlen_op. pose proof (op_size_range op2). pose proof (zlen_nonneg (ops_bytes l2)).
  replace (_ <? _) with true by lia. assert (getb (s_mem o) (16 + zlen (ops_bytes l1) + 1) = Some (op_head op2)) as -> by (rewrite Hm; by apply getb_op_next). cbn [mbind option_bind].
  destruct (op_kind op2 Hop2) as (_ & _ & ->). destruct op2 as [k2|k2|v2 k2]; cbn [is_val andb]; [by apply Hnext..|].
  destruct (op_val_bits v k Hop) as [-> ->]. destruct (op_val_bits v2 k2 Hop2) as [-> ->].
  destruct ((v =? v2) && (k + k2 <=? HLL_SPARSE_VAL_MAX_LEN)) eqn:E; [|by apply Hnext]. unfold HLL_SPARSE_VAL_MAX_LEN in E.
  assert (v2 = v) as -> by lia. destruct (merge_two o u card l1 v k k2 l2 Ho) as (o' & Ho' & Em); [lia|].
  rewrite Hlen, bytes_mid, ops_bytes_cons, zlen_app, zlen_op in Em. cbn [op_size] in Em. rewrite (Z.add_assoc (zlen (ops_bytes l1)) 1) in *.
  destruct (mem_write (s_mem o) _ _) as [m|]; [|discriminate Em]. cbn [mbind option_bind] in *.
  destruct (memmove m _ _ _) as [m'|]; [|discriminate Em]. cbn [mbind option_bind] in *. rewrite Em. cbn [mbind option_bind].
  destruct (IH _ _ _ _ _ Ho') as (o2 & ops' & E2 & Hs2 & E3). exists o2, ops'. split; [done|]. split; [done|].
  rewrite E3, !ops_regs_app, !ops_regs_cons, val_regs, <- app_assoc by (simpl in *; lia). done.
Qed.

(** Any bytes of the same length in place of the cached cardinality. *)
Definition invalid_card (card : list Z) : list Z := take 7 card ++ [u8 (Z.lor (default 0 (card !! 7%nat)) 128)].

Lemma invalidate_spec enc u card rest : hdr_ok u card ->
  HLL_INVALIDATE_CACHE (header enc u card ++ rest) = Some (header enc u (invalid_card card) ++ rest) /\ hdr_ok u (invalid_card card).
Proof.
  intros (Hu & Hc & Hb). destruct u as [|u0 [|u1 [|u2 [|]]]]; try len_lia. do 8 (destruct card as [|? card]; [len_lia|]). destruct card; [|len_lia].
  split; [done|]. split; [done|]. split; [done|]. rewrite !Forall_cons in Hb. destruct_and! Hb. unfold invalid_card. simpl take. simpl lookup. simpl default.
  repeat (apply Forall_cons; split; [done|]). apply Forall_singleton. unfold is_byte. apply (wrapu_range 8). lia.
Qed.

Lemma sparse_updated_spec o u card ops l1 l2 prev : sparse_hll o u card ops -> ops = l1 ++ l2 -> prev_ok l1 prev ->
  exists o' ops', sparse_updated o prev = Some (o', 1) /\ sparse_hll o' u (invalid_card card) ops' /\ ops_regs ops' = ops_regs ops.
Proof.
  intros Ho Eo Hp. unfold sparse_updated, HLL_HDR_SIZE.
  assert (exists la lb, ops = la ++ lb /\ default 16 prev = 16 + zlen (ops_bytes la)) as (la & lb & Eab & ->).
  { destruct prev as [q|]; simpl in *; [|by exists [], ops]. destruct Hp as (l0 & x & -> & ->). exists l0, ([x] ++ l2). by rewrite app_assoc. }
  destruct (sparse_merge_spec 5 o u card la lb) as (o' & ops' & -> & Ho' & Er); [by rewrite <- Eab|]. cbn [mbind option_bind].
  pose proof (sparse_layout _ _ _ _ Ho') as (junk & Hm & Hlen & _). destruct Ho' as (Hh & Hf & Hl & Hok).
  rewrite Hm. unfold sparse_mem. destruct (invalidate_spec 1 u card (ops_bytes ops' ++ 0 :: junk) Hh) as [-> Hh']. cbn [mbind option_bind].
  eexists _, ops'. split; [done|]. split; [|by rewrite Er, Eab]. split; [done|]. split; [done|]. split; [done|].
  rewrite app_assoc. eapply holds_set_mem; [exact Hok|rewrite !zlen_app, !zlen_header by done; done|].
  eapply holds_junk; [done|]. rewrite Hm. unfold sparse_mem. by rewrite app_assoc.
Qed.

(** The rest of the string moves so that [seq] fits in the place of the old opcode. *)
Lemma shift_spec (A old B tail : list Z) k : -1 <= k <= 3 -> k < zlen tail -> 0 <= zlen old + k -> 1 <= zlen old -> zlen old <= 2 ->
  exists m H x rest, (match (if zlen B =? 0 then None else Some (zlen A + zlen old)) with
      | Some next => if negb (k =? 0) then memmove (A ++ old ++ B ++ tail) (next + k) next (zlen B) else Some (A ++ old ++ B ++ tail)
      | None => Some (A ++ old ++ B ++ tail)
      end) = Some m /\ m = (A ++ H ++ B) ++ x :: rest /\ zlen H = zlen old + k /\ zlen m = zlen (A ++ old ++ B ++ tail).
Proof.
  intros Hk Ht Hok Ho1 Ho2. destruct (Z.lt_ge_cases k 0) as [Hneg|Hpos].
  - assert (exists o1 o2, old = o1 ++ [o2] /\ zlen o1 = zlen old - 1) as (o1 & o2 & -> & Hz).
    { destruct (rest_cons old) as (x & old' & E); [lia|]. destruct (exists_last (l := old)) as (o1 & o2 & E'); [by rewrite E|]. exists o1, o2. rewrite E'. split; [done|]. len_lia. }
    replace k with (-1) in * by lia. cbn [Z.eqb negb]. destruct (zlen B =? 0) eqn:EB.
    + destruct B; [|len_lia]. exists (A ++ (o1 ++ [o2]) ++ [] ++ tail), o1, o2, tail. split; [done|]. split; [|split; [len_lia|done]]. by rewrite <- !app_assoc.
    + destruct (memmove_left_mid (A ++ o1) [o2] B tail (zlen A + zlen (o1 ++ [o2]) + -1) (zlen A + zlen (o1 ++ [o2])) (zlen B)) as (rest & Hr & E); [len_lia|done|len_lia|].
      rewrite <- !app_assoc in *. rewrite E. destruct (rest_cons rest) as (x & rest' & ->); [len_lia|]. eexists _, o1, x, (rest' ++ tail). split; [done|]. split; [by rewrite <- !app_assoc|].
      split; [len_lia|]. len_lia.
  - assert (exists g x t, tail = g ++ x :: t /\ zlen g = k) as (g & x & t & -> & Hg).
    { destruct (rest_cons (drop (Z.to_nat k) tail)) as (x & t & E); [rewrite zlen_drop by lia; lia|].
      exists (take (Z.to_nat k) tail), x, t. rewrite <- E, take_drop. split; [done|]. apply zlen_take. lia. }
    destruct (zlen B =? 0) eqn:EB.
    + destruct B; [|len_lia]. eexists _, (old ++ g), x, t. split; [done|]. split; [by rewrite app_nil_r, <- !app_assoc|]. split; [len_lia|done].
    + destruct (k =? 0) eqn:Ek; cbn [negb].
      * destruct g; [|len_lia]. eexists _, old, x, t. split; [done|]. split; [by rewrite <- !app_assoc|]. split; [lia|done].
      * destruct (memmove_right_mid (A ++ old) B g (x :: t) (zlen A + zlen old + k) (zlen A + zlen old) (zlen B)) as (hole & Hh & E); [len_lia|done|len_lia|].
        rewrite <- !app_assoc in *. rewrite E. eexists _, (old ++ hole), x, t. split; [done|]. split; [by rewrite <- !app_assoc|]. split; len_lia.
Qed.

Lemma sparse_promote_spec o u card ops index count r : sparse_hll o u card ops -> 0 <= index -> ops_regs ops !! Z.to_nat index = Some r -> r < count -> is_reg count ->
  exists o', sparse_promote o index count = Some (o', 1) /\ dense_hll o' u card (<[Z.to_nat index := count]> (ops_regs ops)).
Proof.
  intros Ho Hi Hr Hlt Hc. unfold sparse_promote. destruct (hllSparseToDense_spec o u card ops Ho) as (o' & -> & Hd). cbn [mbind option_bind negb].
  destruct (dense_layout _ _ _ _ Hd) as (junk & Hm & _). destruct Hd as (Hh & Hf & Hl & Hok). rewrite Hm. unfold HLL_HDR_SIZE. rewrite <- (zlen_header 0 u card Hh).
  rewrite (hllDenseSet_spec _ _ 4096 _ _ _ _ r) by (done || lia). cbn [mbind option_bind]. replace (count >? r) with true by lia. cbn [assert_true mbind option_bind].
  replace (Z.max r count) with count by lia. eexists. split; [done|]. split; [done|]. split; [by apply Forall_insert|]. split; [unfold zlen in *; by rewrite length_insert|].
  rewrite app_assoc. eapply holds_set_mem; [exact Hok| |eapply holds_junk; [done|by rewrite Hm, app_assoc]].
  rewrite !zlen_app, !(zlen_pack _ 4096) by (unfold zlen in *; rewrite ?length_insert; lia). done.
Qed.

(** Room for three more bytes, unless the limit is reached. *)
Definition roomy (max : Z) (o : sds) : Prop := s_type o <> SDS_TYPE_5 /\ (sdslen o + 3 <= sdsalloc o \/ max <= sdsalloc o).

Lemma sparse_enlarge_spec max o u card ops : 32 <= max < 2 ^ 63 -> sparse_hll o u card ops ->
  exists o', sparse_enlarge max o = Some o' /\ sparse_hll o' u card ops /\ roomy max o'.
Proof.
  intros Hmax Ho. pose proof (sparse_layout _ _ _ _ Ho) as (_ & _ & Hlen & Hle). destruct Ho as (Hh & Hf & Hl & Hok).
  pose proof Hok as ((H1 & H2 & H3 & H4) & _). pose proof (zlen_nonneg (ops_bytes ops)). unfold sparse_enlarge, sdsavail, is_type5. change (2 ^ 63) with 9223372036854775808 in *.
  case_bool_decide as E5.
  - specialize (H4 E5). rewrite E5 in H3. simpl in H3. replace (_ && _) with true by lia.
    set (newlen := if _ >? max then _ else _). assert (sdslen o < newlen <= max /\ (sdslen o + 3 <= newlen \/ newlen = max)) as [Hn Hn'] by (subst newlen; case_match; lia).
    destruct (sdsResize_grow o (header 1 u card ++ ops_bytes ops) newlen Hok) as (o' & -> & Hok' & [-> | Ht] & Ha); [change (2 ^ 63) with 9223372036854775808; lia|lia|].
    exists o'. split; [done|]. split; [exact (conj Hh (conj Hf (conj Hl Hok')))|]. split; [done|]. destruct Hok as (_ & Ez & _), Hok' as (_ & Ez' & _). lia.
  - destruct (_ && _) eqn:E; [|exists o; split; [done|]; split; [exact (conj Hh (conj Hf (conj Hl Hok)))|]; split; [done|lia]].
    set (newlen := if _ >? max then _ else _). assert (sdsalloc o < newlen <= max /\ (sdslen o + 3 <= newlen \/ newlen = max)) as [Hn Hn'] by (subst newlen; case_match; lia).
    destruct (sdsResize_grow o (header 1 u card ++ ops_bytes ops) newlen Hok) as (o' & -> & Hok' & [-> | Ht] & Ha); [change (2 ^ 63) with 9223372036854775808; lia|lia|].
    exists o'. split; [done|]. split; [exact (conj Hh (conj Hf (conj Hl Hok')))|]. split; [done|]. destruct Hok as (_ & Ez & _), Hok' as (_ & Ez' & _). lia.
Qed.

Lemma sparse_replace_spec max o u card l1 op l2 new prev index count r :
  32 <= max < 2 ^ 63 -> sparse_hll o u card (l1 ++ op :: l2) -> roomy max o -> prev_ok l1 prev ->
  Forall op_ok new -> ops_regs (l1 ++ new ++ l2) = <[Z.to_nat index := count]> (ops_regs (l1 ++ op :: l2)) -> 1 <= zlen (ops_bytes new) <= 2 * op_size op + 1 ->
  0 <= index -> ops_regs (l1 ++ op :: l2) !! Z.to_nat index = Some r -> r < count -> is_reg count ->
  exists o', sparse_replace max o (16 + zlen (ops_bytes l1)) prev (if 16 + zlen (ops_bytes l1) + op_size op >=? sdslen o then None else Some (16 + zlen (ops_bytes l1) + op_size op))
      (op_size op) index count (ops_bytes new) = Some (o', 1) /\
    ((exists ops', sparse_hll o' u (invalid_card card) ops' /\ ops_regs ops' = <[Z.to_nat index := count]> (ops_regs (l1 ++ op :: l2))) \/
     dense_hll o' u card (<[Z.to_nat index := count]> (ops_regs (l1 ++ op :: l2)))).
Proof.
  intros Hmax Ho [Ht Hroom] Hp Hnew Er Hs Hi Hr Hlt Hc. unfold sparse_replace. pose proof (op_size_range op) as Hsz.
  set (k := zlen (ops_bytes new) - op_size op). change (2 ^ 63) with 9223372036854775808 in *.
  destruct ((k >? 0) && (sdslen o + k >? max)) eqn:Epr.
  { destruct (sparse_promote_spec _ _ _ _ _ _ _ Ho Hi Hr Hlt Hc) as (o' & -> & Hd). eexists. split; [done|]. by right. }
  pose proof (sparse_layout _ _ _ _ Ho) as (junk & Hm & Hlen & Hle). destruct Ho as (Hh & Hf & Hl & Hok). pose proof Hok as ((H1 & H2 & H3 & H4) & Hlen' & _).
  pose proof (zlen_nonneg (ops_bytes l1)). pose proof (zlen_nonneg (ops_bytes l2)). rewrite bytes_mid in *.
  rewrite (wrapu_small 64) by (change (2 ^ 64) with 18446744073709551616; lia). replace (sdslen o + k <=? sdsalloc o) with true by lia. cbn [assert_true mbind option_bind].
  set (A := header 1 u card ++ ops_bytes l1). assert (zlen A = 16 + zlen (ops_bytes l1)) as HA by (unfold A; rewrite zlen_app, zlen_header by done; lia).
  assert (s_mem o = A ++ op_bytes op ++ ops_bytes l2 ++ 0 :: junk) as Em by (rewrite Hm; apply sparse_mem_split).
  destruct (shift_spec A (op_bytes op) (ops_bytes l2) (0 :: junk) k) as (m & H' & x & rest & E & Em' & HH & Hzm); [lia| |rewrite zlen_op; lia..|].
  { rewrite Em in H2. autorewrite with zlen in *. lia. }
  replace (16 + zlen (ops_bytes l1) + op_size op >=? sdslen o) with (zlen (ops_bytes l2) =? 0) by lia.
  rewrite <- Em, zlen_op in E. rewrite HA in E.
  assert (match (if zlen (ops_bytes l2) =? 0 then None else Some (16 + zlen (ops_bytes l1) + op_size op)) with
     | Some next => if negb (k =? 0) then memmove (s_mem o) (next + k) next (sdslen o - next) else Some (s_mem o)
     | None => Some (s_mem o) end = Some m) as ->.
  { rewrite <- E. destruct (zlen (ops_bytes l2) =? 0); [done|]. by replace (sdslen o - (16 + zlen (ops_bytes l1) + op_size op)) with (zlen (ops_bytes l2)) by lia. }
  cbn [mbind option_bind]. clear E.
  destruct (sdsIncrLen_spec (set_mem o m) k (A ++ H' ++ ops_bytes l2) x rest) as (o' & -> & E1 & E2 & E3 & E4); cbn [sdslen sdsalloc s_mem s_type set_mem] in *.
  { repeat split; cbn [sdslen sdsalloc s_mem s_type set_mem]; try done; try lia. rewrite Hzm, <- Em. done. }
  { done. } { rewrite zlen_op in HH. rewrite !zlen_app. lia. } { done. } { lia. } { lia. }
  cbn [mbind option_bind]. rewrite E1. rewrite <- !app_assoc. rewrite zlen_op in HH.
  rewrite (mem_write_mid A H' (ops_bytes new)) by lia. cbn [mbind option_bind].
  destruct (sparse_updated_spec (set_mem o' (A ++ ops_bytes new ++ ops_bytes l2 ++ 0 :: rest)) u card (l1 ++ new ++ l2) l1 (new ++ l2) prev) as (o2 & ops' & -> & Ho2 & Er2); [|done|done|].
  - split; [done|]. split; [|split].
    + rewrite Forall_app, Forall_cons in Hf. rewrite !Forall_app. naive_solver.
    + rewrite Er. unfold zlen. rewrite length_insert. done.
    + rewrite !ops_bytes_app, (app_assoc (header 1 u card)). fold A.
      rewrite is_type5_false in E4 by done. rewrite !zlen_app in E2.
      split; [|split; [cbn [sdslen set_mem]; rewrite !zlen_app; lia|exists rest; cbn [s_mem set_mem]; by rewrite <- !app_assoc]].
      rewrite Em' in Hzm. rewrite <- Em in Hzm. autorewrite with zlen in *. repeat split; cbn [sdslen sdsalloc s_mem s_type set_mem]; rewrite ?E2, ?E3, ?E4; autorewrite with zlen; try done; try lia.
  - exists o2. split; [done|]. left. exists ops'. split; [done|]. by rewrite Er2.
Qed.

(** A string that holds registers, in either representation. *)
Definition hll (o : sds) (card regs : list Z) : Prop :=
  (exists u ops, sparse_hll o u card ops /\ ops_regs ops = regs) \/ (exists u, dense_hll o u card regs).

Lemma ops_regs_le ops : Forall op_ok ops -> Forall (fun r => r <= 32) (ops_regs ops).
Proof.
  induction 1 as [|o ops Ho _ IH]; [constructor|]. rewrite ops_regs_cons. apply Forall_app. split; [|done].
  apply Forall_replicate. destruct o; simpl in *; lia.
Qed.

Lemma regs_at l1 o l2 index : op_ok o -> zlen (ops_regs l1) <= index < zlen (ops_regs l1) + op_len o ->
  ops_regs (l1 ++ o :: l2) !! Z.to_nat index = Some (op_val o) /\
  forall v, <[Z.to_nat index := v]> (ops_regs (l1 ++ o :: l2)) = ops_regs l1 ++ <[Z.to_nat (index - zlen (ops_regs l1)) := v]> (op_regs o) ++ ops_regs l2.
Proof.
  intros Ho Hi. pose proof (zlen_op_regs o Ho) as Hz. rewrite ops_regs_app, ops_regs_cons. unfold zlen in *. split.
  - rewrite lookup_app_r by lia. rewrite lookup_app_l by lia. unfold op_regs. apply lookup_replicate_2. lia.
  - intros v. rewrite insert_app_r_alt by lia. rewrite insert_app_l by lia. do 3 f_equal. lia.
Qed.

(** In place: an opcode of one register and one byte becomes a value. *)
Lemma sparse_overwrite o u card l1 op l2 prev count index : sparse_hll o u card (l1 ++ op :: l2) -> prev_ok l1 prev -> op_size op = 1 -> op_len op = 1 -> 1 <= count <= 32 ->
  index = zlen (ops_regs l1) ->
  exists o' ops', (m ← mem_write (s_mem o) (16 + zlen (ops_bytes l1)) (HLL_SPARSE_VAL_SET count 1); sparse_updated (set_mem o m) prev) = Some (o', 1) /\
    sparse_hll o' u (invalid_card card) ops' /\ ops_regs ops' = <[Z.to_nat index := count]> (ops_regs (l1 ++ op :: l2)).
Proof.
  intros Ho Hp Hs Hn Hc ->. pose proof (sparse_layout _ _ _ _ Ho) as (junk & Hm & Hlen & Hle). destruct Ho as (Hh & Hf & Hl & Hok).
  pose proof (zlen_header 1 u card Hh) as Hz. rewrite Forall_app, Forall_cons in Hf. destruct Hf as (Hf1 & Hop & Hf2).
  assert (ops_regs (l1 ++ OVal count 1 :: l2) = <[Z.to_nat (zlen (ops_regs l1)) := count]> (ops_regs (l1 ++ op :: l2))) as Er.
  { destruct (regs_at l1 op l2 (zlen (ops_regs l1)) Hop) as [_ ->]; [lia|]. rewrite Z.sub_diag, ops_regs_app, ops_regs_cons. unfold op_regs. by rewrite Hn. }
  rewrite Hm, sparse_mem_split, mem_write_mid by (rewrite ?zlen_app, ?zlen_op, ?Hs; done || lia). cbn [mbind option_bind].
  destruct (sparse_updated_spec (set_mem o ((header 1 u card ++ ops_bytes l1) ++ HLL_SPARSE_VAL_SET count 1 ++ ops_bytes l2 ++ 0 :: junk)) u card (l1 ++ OVal count 1 :: l2) l1 (OVal count 1 :: l2) prev)
    as (o2 & ops' & -> & Ho2 & Er2); [|done|done|].
  - split; [done|]. split; [|split].
    + rewrite Forall_app, Forall_cons. simpl. repeat split; (done || lia).
    + rewrite Er. unfold zlen. by rewrite length_insert.
    + rewrite ops_bytes_app, ops_bytes_cons. change (op_bytes (OVal count 1)) with (HLL_SPARSE_VAL_SET count 1).
      replace ((header 1 u card ++ ops_bytes l1) ++ HLL_SPARSE_VAL_SET count 1 ++ ops_bytes l2 ++ 0 :: junk) with ((header 1 u card ++ ops_bytes l1 ++ HLL_SPARSE_VAL_SET count 1 ++ ops_bytes l2) ++ 0 :: junk) by (by rewrite <- !app_assoc).
      eapply holds_set_mem; [exact Hok| |eapply holds_junk; [done|]].
      * rewrite ops_bytes_app, ops_bytes_cons, !zlen_app, zlen_op, Hs. done.
      * rewrite Hm. unfold sparse_mem. by rewrite <- app_assoc.
  - exists o2, ops'. split; [done|]. split; [done|]. by rewrite Er2.
Qed.

Lemma hllSparseSet_spec max o u card ops index count r :
  32 <= max < 2 ^ 63 -> sparse_hll o u card ops -> 0 <= index -> ops_regs ops !! Z.to_nat index = Some r -> 1 <= count < 64 ->
  exists o' card', hllSparseSet max o index count = Some (o', if count >? r then 1 else 0) /\
    hll o' card' (<[Z.to_nat index := Z.max r count]> (ops_regs ops)) /\ (count <= r -> card' = card).
Proof.
  intros Hmax Ho Hi Hr Hc. unfold hllSparseSet, HLL_SPARSE_VAL_MAX_VALUE, HLL_HDR_SIZE. destruct (count >? 32) eqn:E32.
  { assert (r <= 32). { destruct Ho as (_ & Hf & _). pose proof (ops_regs_le ops Hf) as Hle. rewrite Forall_lookup in Hle. by eapply Hle. }
    destruct (sparse_promote_spec o u card ops index count r) as (o' & -> & Hd); [done|done|done|lia|unfold is_reg; lia|].
    exists o', card. replace (count >? r) with true by lia. replace (Z.max r count) with count by lia. split; [done|]. split; [right; eauto|done]. }
  destruct (sparse_enlarge_spec max o u card ops Hmax Ho) as (o1 & -> & Ho1 & Hroom). cbn [mbind option_bind]. clear o Ho.
  pose proof (sparse_layout _ _ _ _ Ho1) as (junk & Hm & Hlen & Hle). pose proof Ho1 as (Hh & Hf & Hl & _). rewrite Hm, Hlen.
  assert (index < zlen (ops_regs ops)) as Hi' by (apply lookup_lt_Some in Hr; unfold zlen; lia).
  destruct (locate_spec (header 1 u card) ops junk index) with (fuel := S (length (sparse_mem (header 1 u card) ops junk))) (l1 := @nil sop) (l2 := ops) (prev := @None Z) (span := 0)
    as (l1 & op & l2 & prev & Eo & Hin & Hp & E); [by apply zlen_header|done|done|done|done|done|apply ops_length|].
  change (16 + zlen (ops_bytes [])) with 16 in E. change (zlen (ops_regs [])) with 0 in E. rewrite E. cbn [mbind option_bind]. clear E.
  destruct (regs_prefix l1 op l2 ops Hf Eo) as (Hop & Hge & Hr1 & Hb1). pose proof (op_len_range op Hop). pose proof (op_size_range op).
  replace ((op_len op =? 0) || _) with false by lia. subst ops.
  rewrite getb_op_at by (done || by apply zlen_header). cbn [mbind option_bind]. rewrite sparse_run_at by (done || by apply zlen_header). cbn [mbind option_bind].
  destruct (op_kind op Hop) as (-> & _ & ->). destruct (regs_at l1 op l2 index Hop Hin) as [Hr' Hins]. rewrite Hr in Hr'. injection Hr' as ->.
  destruct (is_val op && (op_val op >=? count)) eqn:EA.
  { exists o1, card. replace (count >? op_val op) with false by lia. replace (Z.max (op_val op) count) with (op_val op) by lia. rewrite list_insert_id by done. split; [done|]. split; [left; eauto|done]. }
  assert (op_val op < count) as Hlt by (destruct op; simpl in *; lia). replace (count >? op_val op) with true by lia. replace (Z.max (op_val op) count) with count by lia.
  destruct ((is_val op || is_zero op) && (op_len op =? 1)) eqn:EB.
  { destruct (sparse_overwrite o1 u card l1 op l2 prev count index) as (o2 & ops' & E & Ho2 & Er); [done|done|destruct op; simpl in *; lia|lia|lia|lia|].
    rewrite <- Hm, E. exists o2, (invalid_card card). split; [done|]. split; [left; eauto|lia]. }
  destruct (split_regs op (index - zlen (ops_regs l1)) count) as (Hn1 & Hn2 & Hn3); [done|lia|lia|].
  rewrite sparse_split_spec by (done || lia). cbn [mbind option_bind]. rewrite <- Hlen.
  destruct (sparse_replace_spec max o1 u card l1 op l2 (split_ops op (index - zlen (ops_regs l1)) count) prev index count (op_val op)) as (o2 & -> & Hres);
    [done|done|done|done|done|by rewrite Hins, !ops_regs_app, Hn2|done|done|done|done|unfold is_reg; lia|].
  destruct Hres as [(ops' & Ho2 & Er)|Hd].
  - exists o2, (invalid_card card). split; [done|]. split; [left; eauto|lia].
  - exists o2, card. split; [done|]. split; [right; eauto|lia].
Qed.

End Update.
