(* ===== verification/HllProps.v ===== *)
(** * The commands of [hyperloglog.c] on key spaces

    The specification works on lists of 16384 registers: observing an element raises one register to
    the rank of the element, merging takes the maximum of every register, counting estimates from the
    histogram.  Commands on strings in either representation refine it, cached cardinalities included.
    Then the strings that the commands accept but cannot handle. *)
From S2P Require Import Prelude Endian Split Hll HllDense HllSparse HllUpdate.

(** ** The specification *)

Definition empty_regs : list Z := replicate (Z.to_nat 16384) 0.

(** One more than the number of zeros below the first one, among [bits] bits. *)
Fixpoint rank (bits : nat) (w : Z) : Z :=
  match bits with O => 1 | S bits => if Z.odd w then 1 else 1 + rank bits (w / 2) end.

Definition hash_of (ele : list Z) : Z := default 0 (MurmurHash64A false ele (zlen ele) 2915580697).
Definition reg_of (ele : list Z) : Z := hash_of ele mod 16384.
Definition rank_of (ele : list Z) : Z := rank 50 (hash_of ele / 2 ^ 14).

Definition raise (regs : list Z) (i c : Z) : list Z := <[Z.to_nat i := Z.max (default 0 (regs !! Z.to_nat i)) c]> regs.
Definition observe (regs ele : list Z) : list Z := raise regs (reg_of ele) (rank_of ele).
Definition observe_all (regs : list Z) (eles : list (list Z)) : list Z := foldl observe regs eles.

(** The elements that change a register, in order. *)
Fixpoint changes (regs : list Z) (eles : list (list Z)) : Z :=
  match eles with
  | [] => 0
  | ele :: eles => (if rank_of ele >? default 0 (regs !! Z.to_nat (reg_of ele)) then 1 else 0) + changes (observe regs ele) eles
  end.

Inductive aval := AHll (regs : list Z) | AErr (e : hreply).
Notation adb := (gmap (list Z) aval).

Fixpoint amerge (db : adb) (keys : list (list Z)) (acc : list Z) : hreply + list Z :=
  match keys with
  | [] => inr acc
  | key :: keys =>
      match db !! key with
      | None => amerge db keys acc
      | Some (AErr e) => inl e
      | Some (AHll regs) => amerge db keys (maxs acc regs)
      end
  end.

Inductive hcmd := PfAdd (key : list Z) (eles : list (list Z)) | PfCount (keys : list (list Z)) | PfMerge (dst : list Z) (srcs : list (list Z)).

Section Spec.
Context (estimate : list Z -> Z).

(** The key space, the reply and the change of [server.dirty]; counting leaves the latter to the cache. *)
Definition spec_cmd (db : adb) (cmd : hcmd) : adb * hreply * option Z :=
  match cmd with
  | PfAdd key eles =>
      let add regs created :=
        let updated := created + changes regs eles in
        (<[key := AHll (observe_all regs eles)]> db, HInt (if updated =? 0 then 0 else 1), Some updated) in
      match db !! key with
      | None => add empty_regs 1
      | Some (AHll regs) => add regs 0
      | Some (AErr e) => (db, e, Some 0)
      end
  | PfCount keys =>
      match amerge db keys empty_regs with
      | inl e => (db, e, None)
      | inr regs => (db, HInt (s64 (estimate (hist regs))), None)
      end
  | PfMerge dst srcs =>
      match amerge db (dst :: srcs) empty_regs with
      | inl e => (db, e, Some 0)
      | inr regs => (<[dst := AHll regs]> db, HOk, Some 1)
      end
  end.

Fixpoint spec_run (db : adb) (cmds : list hcmd) : adb * list (hreply * option Z) :=
  match cmds with
  | [] => (db, [])
  | cmd :: cmds => let '(db, r, dirty) := spec_cmd db cmd in let '(db, rs) := spec_run db cmds in (db, (r, dirty) :: rs)
  end.
End Spec.

(** ** Patterns *)

Lemma first_one_unique h c c' : first_one h c -> first_one h c' -> c = c'.
Proof.
  intros (H1 & Ht & Hl) (H1' & Ht' & Hl'). destruct (Z.lt_trichotomy c c') as [Hlt|[->|Hlt]]; [|done|].
  - rewrite Hl' in Ht by lia. done.
  - rewrite Hl in Ht' by lia. done.
Qed.

Lemma rank_first n : forall w, 0 <= w < 2 ^ Z.of_nat n -> first_one (Z.lor w (2 ^ Z.of_nat n)) (rank n w) /\ rank n w <= Z.of_nat n + 1.
Proof.
  induction n as [|n IH]; intros w Hw.
  - replace w with 0 by (simpl in Hw; lia). split; [|simpl; lia]. split; [simpl; lia|]. split; [done|]. simpl. lia.
  - rewrite Nat2Z.inj_succ, Z.pow_succ_r in * by lia. cbn [rank]. destruct (Z.odd w) eqn:Eo.
    + split; [|lia]. split; [lia|]. split; [|lia]. change (1 - 1) with 0. rewrite Z.lor_spec, Z.bit0_odd, Eo. done.
    + destruct (IH (w / 2)) as [(H1 & H2 & H3) Hle]; [split; [apply Z.div_pos; lia|apply Z.div_lt_upper_bound; lia]|].
      assert (forall j, 0 <= j -> Z.testbit (Z.lor w (2 * 2 ^ Z.of_nat n)) (Z.succ j) = Z.testbit (Z.lor (w / 2) (2 ^ Z.of_nat n)) j) as Hs.
      { intros j Hj. rewrite !Z.lor_spec, Z.testbit_even_succ by lia. f_equal. rewrite <- Z.div2_div, Z.div2_spec, Z.shiftr_spec by lia. f_equal. }
      split; [|lia]. split; [lia|]. split.
      * replace (1 + rank n (w / 2) - 1) with (Z.succ (rank n (w / 2) - 1)) by lia. rewrite Hs by lia. done.
      * intros j Hj. destruct (Z.eq_dec j 0) as [->|].
        -- rewrite Z.lor_spec, Z.bit0_odd, Eo, Z.testbit_even_0. done.
        -- replace j with (Z.succ (j - 1)) by lia. rewrite Hs by lia. apply H3. lia.
Qed.

Definition ele_ok (ele : list Z) : Prop := Forall is_byte ele /\ zlen ele < 2 ^ 31.

Lemma pattern_spec big ele : ele_ok ele -> hllPatLen big ele = Some (rank_of ele, reg_of ele) /\ 1 <= rank_of ele <= 51 /\ 0 <= reg_of ele < 16384.
Proof.
  intros [Hf Hl]. destruct (hllPatLen_spec big ele Hf Hl) as (h & c & Eh & Hc & Hle & -> & _).
  destruct (murmur_spec false ele 2915580697 Hf Hl) as (h' & Eh' & _ & Hw); [unfold word64; simpl; lia|]. rewrite Eh in Eh'. injection Eh' as <-.
  unfold rank_of, reg_of, hash_of. rewrite Eh. cbn [default from_option id]. unfold word64 in Hw.
  destruct (rank_first 50 (h / 2 ^ 14)) as [Hr Hr']; [split; [apply Z.div_pos; lia|apply Z.div_lt_upper_bound; simpl; lia]|].
  change (2 ^ Z.of_nat 50) with (2 ^ 50) in Hr. pose proof (first_one_unique _ _ _ Hc Hr) as ->. split; [done|]. split; [destruct Hr; lia|]. apply Z.mod_pos_bound. lia.
Qed.

(** ** Operations on strings *)

Lemma hll_regs o card regs : hll o card regs -> zlen regs = 16384 /\ Forall is_reg regs /\ zlen card = 8 /\ Forall is_byte card.
Proof.
  intros [(u & ops & ((Hu & Hc & Hb) & Hf & Hl & _) & <-)|(u & (Hu & Hc & Hb) & Hf & Hl & _)]; [|done].
  split; [done|]. split; [by apply ops_regs_reg|done].
Qed.

Lemma reg_lookup (regs : list Z) i : zlen regs = 16384 -> 0 <= i < 16384 -> exists r, regs !! Z.to_nat i = Some r.
Proof. intros Hl Hi. apply lookup_lt_is_Some. unfold zlen in Hl. lia. Qed.

(** The string behind the header, whatever the encoding. *)
Lemma hll_bytes o card regs : hll o card regs ->
  exists enc u rest, s_mem o = header enc u card ++ rest /\ hdr_ok u card /\ (enc = 0 \/ enc = 1) /\ (enc = 0 -> sdslen o = 12304) /\ 16 <= sdslen o /\ sdslen o <= 32784.
Proof.
  intros [(u & ops & Hs & _)|(u & Hd)].
  - pose proof (sparse_layout _ _ _ _ Hs) as (junk & Hm & Hlen & Hle). exists 1, u, (ops_bytes ops ++ 0 :: junk). destruct Hs as (Hh & _).
    pose proof (zlen_nonneg (ops_bytes ops)). repeat split; (done || lia || by right || by apply Hh).
  - destruct (dense_layout _ _ _ _ Hd) as (junk & Hm & Hlen). exists 0, u, (pack regs ++ 0 :: junk). destruct Hd as (Hh & _). repeat split; (done || lia || by left || by apply Hh).
Qed.

(** Other bytes in place of the cached cardinality. *)
Lemma hll_card o card card' regs enc u rest : hll o card regs -> s_mem o = header enc u card ++ rest -> hdr_ok u card -> hdr_ok u card' ->
  hll (set_mem o (header enc u card' ++ rest)) card' regs.
Proof.
  assert (forall e1 e2 u1 u2 c r1 r2, header e1 u1 c ++ r1 = header e2 u2 c ++ r2 -> zlen u1 = 3 -> zlen u2 = 3 -> e1 = e2 /\ u1 = u2 /\ r1 = r2) as Hinj.
  { intros e1 e2 u1 u2 c r1 r2 E H1 H2. unfold header in E. cbn [app] in E. injection E as -> E. rewrite <- !app_assoc in E.
    apply app_inj_1 in E as [-> E]; [|unfold zlen in *; lia]. apply app_inv_head in E. done. }
  intros [(u1 & ops & Hs & <-)|(u1 & Hd)] Em Hu Hu'.
  - pose proof (sparse_layout _ _ _ _ Hs) as (junk & Hm & Hlen & Hle). destruct Hs as (Hh & Hf & Hl & Hok). rewrite Hm in Em. unfold sparse_mem in Em.
    destruct (Hinj _ _ _ _ _ _ _ Em) as (<- & <- & <-); [by apply Hh|by apply Hu|]. left. exists u1, ops. split; [|done]. split; [done|]. split; [done|]. split; [done|].
    rewrite app_assoc. eapply holds_set_mem; [exact Hok|by rewrite !zlen_app, !zlen_header|eapply holds_junk; [done|]]. rewrite Hm. unfold sparse_mem. by rewrite app_assoc.
  - destruct (dense_layout _ _ _ _ Hd) as (junk & Hm & Hlen). destruct Hd as (Hh & Hf & Hl & Hok). rewrite Hm in Em.
    destruct (Hinj _ _ _ _ _ _ _ Em) as (<- & <- & <-); [by apply Hh|by apply Hu|]. right. exists u1. split; [done|]. split; [done|]. split; [done|].
    rewrite app_assoc. eapply holds_set_mem; [exact Hok|by rewrite !zlen_app, !zlen_header|eapply holds_junk; [done|by rewrite Hm, app_assoc]].
Qed.

Lemma invalidate_hll o card regs : hll o card regs ->
  exists m, HLL_INVALIDATE_CACHE (s_mem o) = Some m /\ hll (set_mem o m) (invalid_card card) regs.
Proof.
  intros Ho. destruct (hll_bytes _ _ _ Ho) as (enc & u & rest & Em & Hu & _). destruct (invalidate_spec enc u card rest Hu) as [E Hu'].
  rewrite Em, E. eexists. split; [done|]. by eapply hll_card.
Qed.

(** Setting one register of a dense string. *)
Lemma dense_set_hll o u card regs i c r : dense_hll o u card regs -> 0 <= i -> regs !! Z.to_nat i = Some r -> is_reg c ->
  exists m, hllDenseSet (s_mem o) HLL_HDR_SIZE i c = Some (m, c >? r) /\ dense_hll (set_mem o m) u card (<[Z.to_nat i := Z.max r c]> regs).
Proof.
  intros Hd Hi Hr Hc. destruct (dense_layout _ _ _ _ Hd) as (junk & Hm & _). destruct Hd as (Hh & Hf & Hl & Hok). rewrite Hm. unfold HLL_HDR_SIZE. rewrite <- (zlen_header 0 u card Hh).
  rewrite (hllDenseSet_spec _ _ 4096 _ _ _ _ r) by (done || lia || (unfold is_byte; lia)). eexists. split; [done|].
  assert (is_reg r) by (eapply Forall_lookup_1; eauto). split; [done|]. split; [apply Forall_insert; [done|unfold is_reg in *; lia]|]. split; [unfold zlen in *; by rewrite length_insert|].
  rewrite app_assoc. eapply holds_set_mem; [exact Hok| |eapply holds_junk; [done|by rewrite Hm, app_assoc]].
  rewrite !zlen_app, !(zlen_pack _ 4096) by (unfold zlen in *; rewrite ?length_insert; lia). done.
Qed.

(** What a cached cardinality says. *)
Definition card_valid (card : list Z) : Prop := le_join card < 2 ^ 63.

Lemma le_join_app a b : le_join (a ++ b) = le_join a + 256 ^ zlen a * le_join b.
Proof.
  induction a as [|x a IH]; [change (zlen (@nil Z)) with 0; change (le_join []) with 0; cbn [app]; lia|]. change (le_join ((x :: a) ++ b)) with (x + 256 * le_join (a ++ b)). change (le_join (x :: a)) with (x + 256 * le_join a).
  rewrite IH, zlen_cons, Z.pow_add_r by (try apply zlen_nonneg; lia). lia.
Qed.

Lemma card_last card : zlen card = 8 -> Forall is_byte card -> exists lo b, card = lo ++ [b] /\ zlen lo = 7 /\ is_byte b /\ (card_valid card <-> b < 128).
Proof.
  intros Hc Hb. destruct (exists_last (l := card)) as (lo & b & ->); [by intros ->|]. exists lo, b. apply Forall_app in Hb as [Hlo Hb]. rewrite Forall_singleton in Hb.
  assert (zlen lo = 7) as Hl by len_lia. split; [done|]. split; [done|]. split; [done|]. unfold card_valid. rewrite le_join_app, Hl. change (le_join [b]) with (b + 256 * 0).
  pose proof (le_join_range lo Hlo) as Hr. rewrite Hl in Hr. change (256 ^ 7) with 72057594037927936 in *. change (2 ^ 63) with 9223372036854775808. lia.
Qed.

Lemma lor_128 b : is_byte b -> 128 <= u8 (Z.lor b 128) < 256.
Proof.
  intros Hb. assert (forallb (fun b => (128 <=? u8 (Z.lor b 128)) && (u8 (Z.lor b 128) <? 256)) (seqZ 0 256) = true) as Hc by (vm_compute; reflexivity).
  apply (forallb_range _ _ b) in Hc; [|done]. apply andb_true_iff in Hc as [H1 H2]. lia.
Qed.

Lemma invalid_card_not card : zlen card = 8 -> Forall is_byte card -> ~ card_valid (invalid_card card).
Proof.
  intros Hc Hb Hv. destruct (card_last card Hc Hb) as (lo & b & -> & Hl & Hbb & _). unfold invalid_card in Hv.
  assert (length lo = 7%nat) as Hl' by (unfold zlen in Hl; lia). rewrite (take_app_length' lo) in Hv by done. rewrite lookup_app_r, Hl' in Hv by lia. simpl in Hv.
  apply Forall_app in Hb as [Hlo _]. pose proof (le_join_range lo Hlo) as Hr. rewrite Hl in Hr. unfold card_valid in Hv. rewrite le_join_app, Hl in Hv.
  pose proof (lor_128 b Hbb). change (le_join [u8 (Z.lor b 128)]) with (u8 (Z.lor b 128) + 256 * 0) in Hv.
  change (256 ^ 7) with 72057594037927936 in *. change (2 ^ 63) with 9223372036854775808 in *. lia.
Qed.

Lemma HLL_VALID_CACHE_spec enc u card rest : hdr_ok u card -> exists v, HLL_VALID_CACHE (header enc u card ++ rest) = Some v /\ (v = true <-> card_valid card).
Proof.
  intros (Hu & Hc & Hb). destruct (card_last card Hc Hb) as (lo & b & -> & Hl & Hbb & Hv). unfold HLL_VALID_CACHE, header.
  replace (([72; 89; 76; 76; enc] ++ u ++ lo ++ [b]) ++ rest) with (([72; 89; 76; 76; enc] ++ u ++ lo) ++ b :: rest) by (by rewrite <- !app_assoc).
  rewrite getb_mid by len_lia. cbn [mbind option_bind]. eexists. split; [done|]. rewrite Hv. change (Z.shiftl 1 7) with (2 ^ 7). rewrite land_bit_zero by lia.
  unfold is_byte in Hbb. rewrite Z.testbit_odd, Z.shiftr_div_pow2 by lia. change (2 ^ 7) with 128.
  destruct (Z.lt_ge_cases b 128) as [Hlt|Hge]; [rewrite Z.div_small by lia|replace (b / 128) with 1 by div_lia]; simpl; split; (done || lia).
Qed.

Lemma read_card_spec enc u card rest : hdr_ok u card -> read_card (header enc u card ++ rest) = Some (le_join card).
Proof.
  intros (Hu & Hc & Hb). unfold read_card, header. rewrite <- !app_assoc, app_assoc.
  rewrite (mem_read_mid ([72; 89; 76; 76; enc] ++ u) card rest) by len_lia. cbn [mbind option_bind]. f_equal.
  rewrite <- word_or by done. do 8 (destruct card as [|? card]; [len_lia|]). destruct card; [|len_lia]. rewrite !Forall_cons in Hb. destruct_and! Hb. unfold is_byte in *.
  cbn [foldl nth]. rewrite !(wrapu_small 64) by (rewrite Z.shiftl_mul_pow2 by lia; simpl; lia). done.
Qed.

Lemma le_split_eight card : le_split 8 card = (fun j => Z.land (Z.shiftr card (8 * j)) 255) <$> [0; 1; 2; 3; 4; 5; 6; 7].
Proof.
  cbn [fmap list_fmap]. rewrite !land_255, !Z.shiftr_div_pow2 by lia. unfold le_split. simpl Z.pow.
  rewrite !Z.div_div by lia. rewrite Z.div_1_r. done.
Qed.

Lemma write_card_spec enc u card rest c : hdr_ok u card ->
  write_card (header enc u card ++ rest) c = Some (header enc u (le_split 8 c) ++ rest) /\ hdr_ok u (le_split 8 c).
Proof.
  intros (Hu & Hc & Hb). split; [|split; [done|split; [by rewrite zlen_le_split|apply le_split_bytes]]].
  unfold write_card, header. rewrite <- le_split_eight, <- !app_assoc, app_assoc. rewrite (mem_write_mid ([72; 89; 76; 76; enc] ++ u) card) by (rewrite ?zlen_le_split; len_lia).
  by rewrite <- app_assoc.
Qed.

(** ** Lists of maxima *)

Lemma zlen_maxs a b : zlen a = zlen b -> zlen (maxs a b) = zlen a.
Proof. intros E. unfold maxs, zlen in *. rewrite length_zip_with. lia. Qed.

Lemma maxs_regs a b : Forall is_reg a -> Forall is_reg b -> Forall is_reg (maxs a b).
Proof.
  intros Ha. revert b. induction Ha as [|x a Hx _ IH]; intros b Hb; [by destruct b|]. destruct Hb as [|y b Hy Hb]; [done|]. simpl. apply Forall_cons. split; [unfold is_reg in *; lia|by apply IH].
Qed.

Lemma maxs_le a b : zlen a = zlen b -> Forall2 Z.le a (maxs a b) /\ Forall2 Z.le b (maxs a b).
Proof.
  revert b. induction a as [|x a IH]; intros [|y b] E; try len_lia; [done|]. destruct (IH b) as [H1 H2]; [len_lia|]. simpl. split; constructor; (lia || done).
Qed.

Lemma maxs_absorb a b : Forall2 Z.le a b -> maxs a b = b.
Proof. induction 1 as [|x y a b Hxy _ IH]; [done|]. simpl. f_equal; [lia|done]. Qed.

Lemma le_lists_trans (a b c : list Z) : Forall2 Z.le a b -> Forall2 Z.le b c -> Forall2 Z.le a c.
Proof. intros H1. revert c. induction H1; inversion 1; simplify_eq; constructor; (lia || eauto). Qed.

Lemma empty_regs_ok : zlen empty_regs = 16384 /\ Forall is_reg empty_regs.
Proof. unfold empty_regs. rewrite zlen_replicate. split; [lia|]. apply Forall_replicate. unfold is_reg. lia. Qed.

Lemma maxs_empty_l regs : zlen regs = 16384 -> Forall is_reg regs -> maxs empty_regs regs = regs.
Proof.
  intros Hl Hf. apply maxs_absorb. apply Forall2_same_length_lookup_2; [destruct empty_regs_ok as [E _]; unfold zlen in *; lia|].
  intros i x y Hx Hy. unfold empty_regs in Hx. apply lookup_replicate_1 in Hx as [-> _]. rewrite Forall_lookup in Hf. apply Hf in Hy. unfold is_reg in Hy. lia.
Qed.

Definition db_regs_ok (db : adb) : Prop := forall k regs, db !! k = Some (AHll regs) -> zlen regs = 16384 /\ Forall is_reg regs.

Lemma amerge_ok db keys : db_regs_ok db -> forall acc res, zlen acc = 16384 -> Forall is_reg acc -> amerge db keys acc = inr res ->
  zlen res = 16384 /\ Forall is_reg res /\ Forall2 Z.le acc res.
Proof.
  intros Hdb. induction keys as [|k keys IH]; intros acc res Hl Hf E; simpl in E.
  - injection E as <-. split; [done|]. split; [done|]. apply Forall2_same_length_lookup_2; [done|]. intros i x y -> [= ->]. lia.
  - destruct (db !! k) as [[regs|e]|] eqn:Ek; [|done|by apply IH]. destruct (Hdb _ _ Ek) as [Hl' Hf'].
    destruct (IH (maxs acc regs) res) as (H1 & H2 & H3); [rewrite zlen_maxs; lia|by apply maxs_regs|done|]. split; [done|]. split; [done|].
    eapply le_lists_trans; [apply (maxs_le acc regs); lia|done].
Qed.

(** ** Reading a string *)

Section Ops.
Context `{Allocator} `{Usable}.
Context (estimate : list Z -> Z) (big : bool) (max : Z).
Hypothesis Hmax : 32 <= max < 2 ^ 63.

Lemma merge_dense_spec a regs x junk turns : zlen regs = 16384 -> Forall is_reg regs -> zlen a = 16 ->
  forall done_ todo i, i = zlen done_ -> Z.of_nat turns = 16384 - i -> zlen todo = 16384 - i ->
  merge_dense turns (a ++ pack regs ++ x :: junk) i (done_ ++ todo) = Some (done_ ++ maxs todo (drop (Z.to_nat i) regs)).
Proof.
  intros Hl Hf Ha. induction turns as [|turns IH]; intros done_ todo i Hi Ht Hz.
  - destruct todo; [done|len_lia].
  - destruct todo as [|y todo]; [len_lia|]. pose proof (zlen_nonneg done_). destruct (reg_lookup regs i Hl) as [r Hr]; [lia|].
    cbn [merge_dense]. unfold HLL_HDR_SIZE. rewrite <- Ha. rewrite (dense_get 32 a regs 4096 x junk i r) by (auto; lia). cbn [mbind option_bind].
    assert (is_reg r) as Hrr by (eapply Forall_lookup_1; eauto). unfold is_reg in Hrr. rewrite max_set_spec by lia. cbn [mbind option_bind].
    rewrite (cons_middle _ done_ todo), (app_assoc done_). rewrite IH; [|len_lia|lia|len_lia]. rewrite (drop_S _ _ _ Hr), <- app_assoc.
    replace (Z.to_nat (i + 1)) with (S (Z.to_nat i)) by lia. done.
Qed.

Lemma hllMerge_spec o card regs acc : hll o card regs -> zlen acc = 16384 -> Forall is_reg acc -> hllMerge acc o = Some (maxs acc regs, true).
Proof.
  intros [(u & ops & Hs & <-)|(u & Hd)] Hl Hf; unfold hllMerge.
  - pose proof (sparse_layout _ _ _ _ Hs) as (junk & Hm & Hlen & _). destruct Hs as (Hh & Hfo & Hlo & _). rewrite Hm, Hlen.
    change (hdr_encoding (sparse_mem (header 1 u card) ops junk)) with (Some 1). cbn [mbind option_bind]. change (1 =? HLL_DENSE) with false. cbn match.
    unfold HLL_HDR_SIZE. rewrite hllMerge_sparse_spec by (done || by apply zlen_header). done.
  - destruct (dense_layout _ _ _ _ Hd) as (junk & Hm & Hlen). destruct Hd as (Hh & Hfr & Hlr & _). rewrite Hm, hdr_encoding_header. cbn [mbind option_bind].
    assert ((0 =? HLL_DENSE) = true) as -> by done. pose proof (merge_dense_spec (header 0 u card) regs 0 junk (Z.to_nat HLL_REGISTERS) Hlr Hfr (zlen_header 0 u card Hh) [] acc 0) as E.
    cbn [app] in E. rewrite E; [done|done|unfold HLL_REGISTERS; lia|lia].
Qed.

Lemma hllCount_spec o card regs : hll o card regs -> hllCount estimate (s_mem o) (sdslen o) = Some (u64 (estimate (hist regs)), false).
Proof.
  intros [(u & ops & Hs & <-)|(u & Hd)]; unfold hllCount, hllRegHisto.
  - pose proof (sparse_layout _ _ _ _ Hs) as (junk & Hm & Hlen & Hle). destruct Hs as (Hh & Hfo & Hlo & _). rewrite Hm, Hlen.
    change (hdr_encoding (sparse_mem (header 1 u card) ops junk)) with (Some 1). cbn [mbind option_bind]. change (1 =? HLL_DENSE) with false. change (1 =? HLL_SPARSE) with true. cbn match.
    unfold HLL_HDR_SIZE. replace (16 + zlen (ops_bytes ops) - 16) with (zlen (ops_bytes ops)) by lia. rewrite s32_small by (pose proof (zlen_nonneg (ops_bytes ops)); lia).
    rewrite <- hist_nil, hllSparseRegHisto_spec; [by rewrite Hlo|by apply zlen_header|done|by rewrite Hlo].
  - destruct (dense_layout _ _ _ _ Hd) as (junk & Hm & Hlen). destruct Hd as (Hh & Hfr & Hlr & _). rewrite Hm, hdr_encoding_header. cbn [mbind option_bind].
    change (0 =? HLL_DENSE) with true. cbn match. unfold HLL_HDR_SIZE. rewrite <- hist_nil, <- (zlen_header 0 u card Hh), hllDenseRegHisto_spec by done. done.
Qed.

Lemma isHLL_spec o card regs raw : hll o card regs -> isHLLObjectOrReply (HStr raw o) = Some (inr (raw, o)).
Proof.
  intros Ho. destruct (hll_bytes _ _ _ Ho) as (enc & u & rest & Em & Hu & He & He' & Hlen & _). unfold isHLLObjectOrReply.
  unfold HLL_HDR_SIZE. replace (sdslen o <? 16) with false by lia. rewrite Em, hdr_encoding_header. unfold header. rewrite <- !app_assoc.
  change (mem_read ([72; 89; 76; 76; enc] ++ u ++ card ++ rest) 0 4) with (mem_read ([] ++ [72; 89; 76; 76] ++ (enc :: u ++ card ++ rest)) 0 4).
  rewrite mem_read_mid by done. cbn [mbind option_bind]. rewrite bool_decide_true by done. cbn [negb].
  destruct He as [-> | ->]; [|done]. rewrite He' by done. done.
Qed.

(** A copy holds the same bytes. *)
Lemma dbUnshare_spec o card regs raw : hll o card regs -> exists o', dbUnshareStringValue raw o = Some o' /\ hll o' card regs.
Proof.
  intros Ho. unfold dbUnshareStringValue. destruct raw; [by exists o|]. destruct (hll_bytes _ _ _ Ho) as (_ & _ & _ & _ & _ & _ & _ & Hlen).
  assert (exists c, holds o c) as [c Hc]. { destruct Ho as [(u & ops & (_ & _ & _ & Hok) & _)|(u & _ & _ & _ & Hok)]; eauto. }
  destruct (sdsnewlen_spec (Some c) (sdslen o) c) as (o' & E & Ho'); [change (2 ^ 63) with 9223372036854775808; lia|by destruct Hc as (_ & -> & _)|by left|].
  assert (mem_read (s_mem o) 0 (sdslen o) = Some c) as ->. { destruct Hc as (_ & Ez & junk & ->). by apply (mem_read_mid [] c (0 :: junk)). }
  cbn [mbind option_bind]. exists o'. split; [done|].
  assert (forall c', holds o c' -> holds o' c') as Hsame.
  { intros c' (_ & Ez' & junk' & Em'). destruct Hc as (_ & Ez & junk & Em). rewrite Em in Em'. apply app_inj_1 in Em' as [-> _]; [done|unfold zlen in *; lia]. }
  destruct Ho as [(u & ops & (H1 & H2 & H3 & Hok) & E2)|(u & H1 & H2 & H3 & Hok)].
  - left. exists u, ops. split; [|done]. exact (conj H1 (conj H2 (conj H3 (Hsame _ Hok)))).
  - right. exists u. exact (conj H1 (conj H2 (conj H3 (Hsame _ Hok)))).
Qed.

Lemma one_op_regs o : ops_regs [o] = op_regs o.
Proof. rewrite ops_regs_cons. apply app_nil_r. Qed.

Lemma empty_op_regs : op_regs (OXZero 16384) = empty_regs.
Proof. reflexivity. Qed.

Lemma empty_regs_eq : replicate (Z.to_nat HLL_REGISTERS) 0 = empty_regs.
Proof. reflexivity. Qed.

Lemma createHLL_step junk : create_body (replicate 18 0 ++ 0 :: junk, HLL_HDR_SIZE, HLL_REGISTERS) = Some (inl (replicate 16 0 ++ op_bytes (OXZero 16384) ++ 0 :: junk, 18, 0)).
Proof.
  unfold create_body. change (HLL_REGISTERS =? 0) with false. change (HLL_SPARSE_XZERO_MAX_LEN >? HLL_REGISTERS) with false. cbn match.
  change (replicate 18 0 ++ 0 :: junk) with (replicate 16 0 ++ replicate 2 0 ++ 0 :: junk). rewrite mem_write_mid by done. done.
Qed.

Lemma createHLL_loop junk : loop (Z.to_nat HLL_REGISTERS) create_body (replicate 18 0 ++ 0 :: junk, HLL_HDR_SIZE, HLL_REGISTERS) = Some (replicate 16 0 ++ op_bytes (OXZero 16384) ++ 0 :: junk, 18).
Proof.
  assert (exists n, Z.to_nat HLL_REGISTERS = S (S n)) as [n ->] by (exists (Z.to_nat 16382); unfold HLL_REGISTERS; lia).
  rewrite loop_step, createHLL_step, loop_step. done.
Qed.

Lemma createHLL_spec : exists o, createHLLObject = Some o /\ hll o (replicate 8 0) empty_regs.
Proof.
  unfold createHLLObject. pose proof createHLL_loop as CL. revert CL. generalize (Z.to_nat HLL_REGISTERS). intros n CL. assert (HLL_HDR_SIZE + (HLL_REGISTERS + (HLL_SPARSE_XZERO_MAX_LEN - 1)) / HLL_SPARSE_XZERO_MAX_LEN * 2 = 18) as -> by done. destruct (sdsnewlen_spec None 18 (replicate 18 0)) as (s & -> & Hs); [done|done|by right|].
  pose proof Hs as (_ & _ & junk & Hm). cbn [mbind option_bind]. rewrite Hm.
  rewrite CL.
  cbn [mbind option_bind]. change (18 =? 18) with true. cbn [assert_true mbind option_bind].
  change (mem_write (replicate 16 0 ++ op_bytes (OXZero 16384) ++ 0 :: junk) 0 [72; 89; 76; 76]) with (mem_write ([] ++ replicate 4 0 ++ (replicate 12 0 ++ op_bytes (OXZero 16384) ++ 0 :: junk)) 0 [72; 89; 76; 76]).
  rewrite mem_write_mid by done. cbn [mbind option_bind].
  change (setb ([] ++ [72; 89; 76; 76] ++ (replicate 12 0 ++ op_bytes (OXZero 16384) ++ 0 :: junk)) 4 HLL_SPARSE) with (Some ((header 1 (replicate 3 0) (replicate 8 0) ++ ops_bytes [OXZero 16384]) ++ 0 :: junk)).
  cbn [mbind option_bind]. eexists. split; [done|]. left. exists (replicate 3 0), [OXZero 16384].
  assert (hdr_ok (replicate 3 0) (replicate 8 0)) as Hh by (split; [done|]; split; [done|]; apply Forall_replicate; unfold is_byte; lia).
  assert (ops_regs [OXZero 16384] = empty_regs) as Er by (rewrite one_op_regs; exact empty_op_regs).
  split; [|exact Er]. split; [done|]. split; [apply Forall_singleton; simpl; lia|]. split; [rewrite Er; apply empty_regs_ok|].
  eapply holds_set_mem; [exact Hs|by rewrite zlen_app, zlen_header|by eapply holds_junk].
Qed.

(** ** Adding and writing *)

#[local] Opaque empty_regs.

Lemma raise_lookup regs i c r : regs !! Z.to_nat i = Some r -> raise regs i c = <[Z.to_nat i := Z.max r c]> regs.
Proof. intros E. unfold raise. by rewrite E. Qed.

Lemma hllAdd_spec o card regs ele : hll o card regs -> ele_ok ele ->
  exists o' card', hllAdd big max o ele = Some (o', if rank_of ele >? default 0 (regs !! Z.to_nat (reg_of ele)) then 1 else 0) /\
    hll o' card' (observe regs ele) /\ (rank_of ele <= default 0 (regs !! Z.to_nat (reg_of ele)) -> card' = card).
Proof.
  intros Ho He. destruct (pattern_spec big ele He) as (Ep & Hr & Hi). destruct (hll_regs _ _ _ Ho) as (Hl & Hf & _).
  destruct (reg_lookup regs (reg_of ele) Hl Hi) as [r Er]. unfold observe. rewrite (raise_lookup _ _ _ _ Er), Er. cbn [default from_option id].
  unfold hllAdd, hllDenseAdd, hllSparseAdd. rewrite Ep. destruct Ho as [(u & ops & Hs & <-)|(u & Hd)].
  - pose proof (sparse_layout _ _ _ _ Hs) as (junk & Hm & _). rewrite Hm. change (hdr_encoding (sparse_mem (header 1 u card) ops junk)) with (Some 1). cbn [mbind option_bind].
    assert ((1 =? HLL_DENSE) = false) as -> by done. assert ((1 =? HLL_SPARSE) = true) as -> by done. rewrite wrapu_small by (simpl; lia).
    destruct (hllSparseSet_spec max o u card ops (reg_of ele) (rank_of ele) r) as (o' & card' & -> & Ho' & Hc'); [done|done|lia|done|lia|]. exists o', card'. done.
  - destruct (dense_layout _ _ _ _ Hd) as (junk & Hm & _). assert (hdr_encoding (s_mem o) = Some 0) as -> by (rewrite Hm; apply hdr_encoding_header). cbn [mbind option_bind].
    assert ((0 =? HLL_DENSE) = true) as -> by done. rewrite wrapu_small by (simpl; lia).
    destruct (dense_set_hll o u card regs (reg_of ele) (rank_of ele) r) as (m & -> & Hd'); [done|lia|done|unfold is_reg; lia|]. cbn [mbind option_bind].
    eexists _, card. split; [by destruct (_ >? _)|]. split; [right; eauto|done].
Qed.

Lemma changes_range eles : forall regs, 0 <= changes regs eles <= zlen eles.
Proof. induction eles as [|e eles IH]; intros regs; [done|]. cbn [changes]. specialize (IH (observe regs e)). rewrite zlen_cons. case_match; lia. Qed.

Lemma changes_zero eles : forall regs, changes regs eles = 0 -> observe_all regs eles = regs.
Proof.
  induction eles as [|e eles IH]; intros regs E; [done|]. cbn [changes] in E. pose proof (changes_range eles (observe regs e)).
  destruct (rank_of e >? _) eqn:Eg; [lia|]. assert (observe regs e = regs) as Eo.
  { unfold observe, raise. destruct (regs !! Z.to_nat (reg_of e)) as [r|] eqn:Er; cbn [default from_option id] in *.
    - replace (Z.max r (rank_of e)) with r by lia. by apply list_insert_id.
    - apply list_insert_ge. by apply lookup_ge_None. }
  unfold observe_all. cbn [foldl]. rewrite Eo. apply IH. by rewrite Eo in E.
Qed.

Lemma pfadd_loop_spec eles : forall o card regs upd, hll o card regs -> Forall ele_ok eles -> 0 <= upd -> upd + zlen eles < 2 ^ 31 ->
  exists o' card', pfadd_loop big max o eles upd = Some (o', Some (upd + changes regs eles)) /\ hll o' card' (observe_all regs eles) /\ (changes regs eles = 0 -> card' = card).
Proof.
  induction eles as [|e eles IH]; intros o card regs upd Ho Hf Hu Hn.
  - exists o, card. split; [|done]. cbn [pfadd_loop changes]. by rewrite Z.add_0_r.
  - apply Forall_cons in Hf as [He Hf]. rewrite zlen_cons in Hn. pose proof (zlen_nonneg eles). cbn [pfadd_loop changes].
    destruct (hllAdd_spec o card regs e Ho He) as (o1 & card1 & -> & Ho1 & Hc1). cbn [mbind option_bind]. pose proof (changes_range eles (observe regs e)).
    destruct (rank_of e >? _) eqn:E.
    + cbn [Z.eqb Pos.eqb]. rewrite s32_small by lia. destruct (IH o1 card1 (observe regs e) (upd + 1)) as (o2 & card2 & -> & Ho2 & _); [done|done|lia|lia|].
      exists o2, card2. split; [by rewrite Z.add_assoc|]. split; [done|lia].
    + cbn [Z.eqb]. destruct (IH o1 card1 (observe regs e) upd) as (o2 & card2 & -> & Ho2 & Hc2); [done|done|lia|lia|].
      exists o2, card2. split; [done|]. split; [done|]. intros E0. rewrite Hc2, Hc1 by lia. done.
Qed.

Lemma merge_write_spec mx : forall j o card regs, hll o card regs -> 0 <= j -> zlen mx = 16384 - j -> Forall is_reg mx ->
  exists o' card', merge_write max mx j o = Some o' /\ hll o' card' (take (Z.to_nat j) regs ++ maxs (drop (Z.to_nat j) regs) mx).
Proof.
  induction mx as [|x mx IH]; intros j o card regs Ho Hj Hn Hf.
  - exists o, card. split; [done|]. destruct (hll_regs _ _ _ Ho) as (Hl & _). rewrite take_ge, drop_ge by (unfold zlen in *; simpl in *; lia). by rewrite app_nil_r.
  - apply Forall_cons in Hf as [Hx Hf]. unfold is_reg in Hx. rewrite zlen_cons in Hn. pose proof (zlen_nonneg mx). destruct (hll_regs _ _ _ Ho) as (Hl & Hfr & _). destruct (reg_lookup regs j Hl) as [r Er]; [lia|].
    assert (is_reg r) as Hr by (eapply Forall_lookup_1; eauto). unfold is_reg in Hr.
    assert (forall c, c = Z.max r x -> take (Z.to_nat (j + 1)) (<[Z.to_nat j := c]> regs) ++ maxs (drop (Z.to_nat (j + 1)) (<[Z.to_nat j := c]> regs)) mx = take (Z.to_nat j) regs ++ maxs (drop (Z.to_nat j) regs) (x :: mx)) as Hshape.
    { intros c ->. replace (Z.to_nat (j + 1)) with (S (Z.to_nat j)) by lia. rewrite drop_insert_lt by lia. rewrite (drop_S _ _ _ Er). cbn [maxs zip_with].
      rewrite (take_S_r _ _ (Z.max r x)) by (apply list_lookup_insert_eq; apply lookup_lt_Some in Er; lia). rewrite take_insert_ge by lia. by rewrite <- app_assoc. }
    cbn [merge_write]. destruct (x =? 0) eqn:E0.
    + destruct (IH (j + 1) o card regs) as (o' & card' & E & Ho'); [done|lia|lia|done|]. exists o', card'. split; [done|].
      specialize (Hshape r ltac:(lia)). rewrite list_insert_id in Hshape by done. by rewrite <- Hshape.
    + assert (exists o1 card1, (enc ← hdr_encoding (s_mem o);
         if enc =? HLL_DENSE then '(m, _) ← hllDenseSet (s_mem o) HLL_HDR_SIZE j x; Some (set_mem o m)
         else if enc =? HLL_SPARSE then '(o, _) ← hllSparseSet max o j x; Some o else Some o) = Some o1 /\ hll o1 card1 (<[Z.to_nat j := Z.max r x]> regs)) as (o1 & card1 & E & Ho1).
      { destruct Ho as [(u & ops & Hs & <-)|(u & Hd)].
        - pose proof (sparse_layout _ _ _ _ Hs) as (junk & Hm & _). rewrite Hm. change (hdr_encoding (sparse_mem (header 1 u card) ops junk)) with (Some 1). cbn [mbind option_bind].
          assert ((1 =? HLL_DENSE) = false) as -> by done. assert ((1 =? HLL_SPARSE) = true) as -> by done.
          destruct (hllSparseSet_spec max o u card ops j x r) as (o' & card' & -> & Ho' & Hc'); [done|done|lia|done|lia|]. exists o', card'. done.
        - destruct (dense_layout _ _ _ _ Hd) as (junk & Hm & _). assert (hdr_encoding (s_mem o) = Some 0) as -> by (rewrite Hm; apply hdr_encoding_header). cbn [mbind option_bind].
          assert ((0 =? HLL_DENSE) = true) as -> by done. destruct (dense_set_hll o u card regs j x r) as (m & -> & Hd'); [done|lia|done|unfold is_reg; lia|]. cbn [mbind option_bind].
          eexists _, card. split; [done|]. right; eauto. }
      destruct (hdr_encoding (s_mem o)) as [enc|]; [|discriminate E]. cbn [mbind option_bind] in *. rewrite E. cbn [mbind option_bind].
      destruct (IH (j + 1) o1 card1 _ Ho1) as (o' & card' & E' & Ho'); [lia|lia|done|]. exists o', card'. split; [done|]. by rewrite <- (Hshape _ eq_refl).
Qed.

Lemma toDense_spec o card regs : hll o card regs -> exists o', hllSparseToDense o = Some (o', true) /\ hll o' card regs.
Proof.
  intros [(u & ops & Hs & <-)|(u & Hd)].
  - destruct (hllSparseToDense_spec o u card ops Hs) as (o' & -> & Hd). exists o'. split; [done|]. right; eauto.
  - exists o. split; [|right; eauto]. destruct (dense_layout _ _ _ _ Hd) as (junk & Hm & _). unfold hllSparseToDense. rewrite Hm, hdr_encoding_header. done.
Qed.

(** ** Commands *)

Hypothesis Hest0 : estimate (hist empty_regs) = 0.

Definition cache_ok (card regs : list Z) : Prop := card_valid card -> le_join card = u64 (estimate (hist regs)).

Definition obj_rel (obj : hobj) (a : aval) : Prop :=
  match a with
  | AHll regs => exists raw s card, obj = HStr raw s /\ hll s card regs /\ cache_ok card regs
  | AErr e => isHLLObjectOrReply obj = Some (inl e)
  end.

Definition db_rel (db : gmap (list Z) hobj) (a : adb) : Prop :=
  forall k, match db !! k, a !! k with
            | None, None => True
            | Some obj, Some v => obj_rel obj v
            | _, _ => False
            end.

Lemma db_rel_insert db a k obj v : db_rel db a -> obj_rel obj v -> db_rel (<[k := obj]> db) (<[k := v]> a).
Proof.
  intros Hr Ho k'. destruct (decide (k = k')) as [<-|Hne]; [by rewrite !lookup_insert_eq|]. rewrite !lookup_insert_ne by done. apply Hr.
Qed.

(** Replacing an object by another for the same registers. *)
Lemma db_rel_same db a k obj v : db_rel db a -> a !! k = Some v -> obj_rel obj v -> db_rel (<[k := obj]> db) a.
Proof. intros Hr Ek Ho. rewrite <- (insert_id a k v Ek). by apply db_rel_insert. Qed.

Lemma db_rel_regs db a : db_rel db a -> db_regs_ok a.
Proof.
  intros Hr k regs E. specialize (Hr k). rewrite E in Hr. destruct (db !! k); [|done]. destruct Hr as (raw & s & card & _ & Hh & _). destruct (hll_regs _ _ _ Hh) as (H1 & H2 & _). done.
Qed.

Lemma cache_invalid card regs : zlen card = 8 -> Forall is_byte card -> cache_ok (invalid_card card) regs.
Proof. intros Hc Hb Hv. by apply invalid_card_not in Hv. Qed.

Lemma pfadd_spec db a key eles : db_rel db a -> Forall ele_ok eles -> zlen eles + 1 < 2 ^ 31 ->
  exists db' dirty, pfaddCommand big max db key eles = Some (db', (spec_cmd estimate a (PfAdd key eles)).1.2, dirty) /\
    db_rel db' (spec_cmd estimate a (PfAdd key eles)).1.1 /\ (spec_cmd estimate a (PfAdd key eles)).2 = Some dirty.
Proof.
  intros Hr Hf Hn. pose proof (zlen_nonneg eles).
  assert (forall o card regs n, hll o card regs -> cache_ok card regs -> n = 0 \/ n = 1 ->
    exists o' card', ('(o, updated) ← pfadd_loop big max o eles n;
      match updated with
      | None => Some (<[key := HStr true o]> db, InvalidHll, 0)
      | Some updated =>
          m ← (if updated =? 0 then Some (s_mem o) else HLL_INVALIDATE_CACHE (s_mem o));
          Some (<[key := HStr true (set_mem o m)]> db, HInt (if updated =? 0 then 0 else 1), updated)
      end) = Some (<[key := HStr true o']> db, HInt (if n + changes regs eles =? 0 then 0 else 1), n + changes regs eles) /\
      hll o' card' (observe_all regs eles) /\ cache_ok card' (observe_all regs eles)) as Hadd.
  { intros o card regs n Ho Hc Hn01. destruct (pfadd_loop_spec eles o card regs n) as (o1 & card1 & -> & Ho1 & Hc1); [done|done|lia|lia|]. cbn [mbind option_bind].
    pose proof (changes_range eles regs). destruct (n + changes regs eles =? 0) eqn:E.
    - cbn [mbind option_bind]. exists o1, card1. split; [by destruct o1|]. split; [done|]. rewrite changes_zero by lia. rewrite Hc1 by lia. done.
    - destruct (invalidate_hll o1 card1 _ Ho1) as (m & -> & Ho2). cbn [mbind option_bind]. eexists _, (invalid_card card1). split; [done|]. split; [done|].
      destruct (hll_regs _ _ _ Ho1) as (_ & _ & H3 & H4). by apply cache_invalid. }
  unfold pfaddCommand, spec_cmd. pose proof (Hr key) as Hk. destruct (a !! key) as [[regs|e]|] eqn:Ea; destruct (db !! key) as [obj|] eqn:Ed; try done.
  - destruct Hk as (raw & s & card & -> & Hh & Hc). rewrite (isHLL_spec s card regs raw Hh). cbn [mbind option_bind].
    destruct (dbUnshare_spec s card regs raw Hh) as (o & -> & Ho). cbn [mbind option_bind].
    destruct (Hadd o card regs 0 Ho Hc) as (o' & card' & E & Ho' & Hc'); [by left|]. rewrite E. eexists _, _. split; [done|]. split; [|done].
    apply db_rel_insert; [done|]. by exists true, o', card'.
  - simpl in Hk. rewrite Hk. cbn [mbind option_bind]. exists db, 0. done.
  - destruct createHLL_spec as (o & -> & Ho). cbn [mbind option_bind].
    destruct (Hadd o (replicate 8 0) empty_regs 1 Ho) as (o' & card' & E & Ho' & Hc'); [intros _; by rewrite Hest0|by right|]. rewrite E. eexists _, _. split; [done|]. split; [|done].
    apply db_rel_insert; [done|]. by exists true, o', card'.
Qed.

Lemma merge_keys_spec db a keys : db_rel db a -> forall acc d, zlen acc = 16384 -> Forall is_reg acc ->
  exists d', merge_keys db keys acc d = Some (match amerge a keys acc with inl e => inl e | inr regs => inr (regs, d') end).
Proof.
  intros Hr. induction keys as [|k keys IH]; intros acc d Hl Hf; [by exists d|]. cbn [merge_keys amerge]. pose proof (Hr k) as Hk.
  destruct (a !! k) as [[regs|e]|] eqn:Ea; destruct (db !! k) as [obj|] eqn:Ed; try done; [| |by apply IH].
  - destruct Hk as (raw & s & card & -> & Hh & _). rewrite (isHLL_spec s card regs raw Hh). cbn [mbind option_bind].
    destruct (hll_bytes _ _ _ Hh) as (enc & u & rest & Em & _). destruct (hll_regs _ _ _ Hh) as (H1 & H2 & _).
    assert (hdr_encoding (s_mem s) = Some enc) as -> by (rewrite Em; apply hdr_encoding_header). cbn [mbind option_bind].
    rewrite (hllMerge_spec s card regs acc Hh Hl Hf). cbn [mbind option_bind negb]. apply IH; [rewrite zlen_maxs; lia|by apply maxs_regs].
  - simpl in Hk. rewrite Hk. by exists d.
Qed.

Lemma pfmerge_spec db a dst srcs : db_rel db a ->
  exists db' dirty, pfmergeCommand max db dst srcs = Some (db', (spec_cmd estimate a (PfMerge dst srcs)).1.2, dirty) /\
    db_rel db' (spec_cmd estimate a (PfMerge dst srcs)).1.1 /\ (spec_cmd estimate a (PfMerge dst srcs)).2 = Some dirty.
Proof.
  intros Hr. unfold pfmergeCommand, spec_cmd. rewrite empty_regs_eq.
  destruct (merge_keys_spec db a (dst :: srcs) Hr empty_regs false (proj1 empty_regs_ok) (proj2 empty_regs_ok)) as (d & ->). cbn [mbind option_bind].
  destruct (amerge a (dst :: srcs) empty_regs) as [e|res] eqn:Em; [by exists db, 0|].
  destruct (amerge_ok a (dst :: srcs) (db_rel_regs _ _ Hr) empty_regs res (proj1 empty_regs_ok) (proj2 empty_regs_ok) Em) as (Hl & Hf & _).
  assert (exists o card regs, (match db !! dst with None => createHLLObject | Some (HStr raw s) => dbUnshareStringValue raw s | Some _ => None end) = Some o /\ hll o card regs /\ Forall2 Z.le regs res) as (o & card & regs & -> & Ho & Hle).
  { pose proof (Hr dst) as Hk. cbn [amerge] in Em. destruct (a !! dst) as [[regs|e]|] eqn:Ea; destruct (db !! dst) as [obj|] eqn:Ed; try done.
    - destruct Hk as (raw & s & card & -> & Hh & _). destruct (dbUnshare_spec s card regs raw Hh) as (o & -> & Ho). exists o, card, regs. split; [done|]. split; [done|].
      destruct (hll_regs _ _ _ Hh) as (H1 & H2 & _). rewrite maxs_empty_l in Em by done. by apply (amerge_ok a srcs (db_rel_regs _ _ Hr) regs res H1 H2 Em).
    - destruct createHLL_spec as (o & -> & Ho). exists o, (replicate 8 0), empty_regs. split; [done|]. split; [done|]. by apply (amerge_ok a srcs (db_rel_regs _ _ Hr) empty_regs res (proj1 empty_regs_ok) (proj2 empty_regs_ok) Em). }
  cbn [mbind option_bind].
  assert (exists o1, (if d then hllSparseToDense o else Some (o, true)) = Some (o1, true) /\ hll o1 card regs) as (o1 & -> & Ho1).
  { destruct d; [by apply toDense_spec|by exists o]. }
  cbn [mbind option_bind negb]. destruct (merge_write_spec res 0 o1 card regs Ho1) as (o2 & card2 & -> & Ho2); [lia|lia|done|]. cbn [mbind option_bind].
  change (Z.to_nat 0) with 0%nat in Ho2. rewrite take_0, drop_0, (maxs_absorb _ _ Hle) in Ho2. cbn [app] in Ho2.
  destruct (invalidate_hll o2 card2 _ Ho2) as (m & -> & Ho3). cbn [mbind option_bind]. eexists _, 1. split; [done|]. split; [|done].
  apply db_rel_insert; [done|]. eexists true, _, (invalid_card card2). split; [done|]. split; [done|]. destruct (hll_regs _ _ _ Ho2) as (_ & _ & H3 & H4). by apply cache_invalid.
Qed.

(** The count of one key, from the cache or computed and cached. *)
Lemma pfcount_one db a key : db_rel db a ->
  exists db' dirty, pfcountCommand estimate db [key] = Some (db', (spec_cmd estimate a (PfCount [key])).1.2, dirty) /\ db_rel db' a.
Proof.
  intros Hr. pose proof (Hr key) as Hk. unfold pfcountCommand, spec_cmd. cbn [amerge]. destruct (a !! key) as [[regs|e]|] eqn:Ea; destruct (db !! key) as [obj|] eqn:Ed; try done.
  - destruct Hk as (raw & s & card & -> & Hh & Hc). rewrite (isHLL_spec s card regs raw Hh). cbn [mbind option_bind].
    destruct (dbUnshare_spec s card regs raw Hh) as (o & -> & Ho). cbn [mbind option_bind]. destruct (hll_regs _ _ _ Ho) as (H1 & H2 & H3 & H4). rewrite maxs_empty_l by done.
    assert (db_rel (<[key := HStr true o]> db) a) as Hr' by (eapply db_rel_same; [done|done|by exists true, o, card]).
    destruct (hll_bytes _ _ _ Ho) as (enc & u & rest & Em & Hu & _). destruct (HLL_VALID_CACHE_spec enc u card rest Hu) as (v & Ev & Hv). rewrite <- Em in Ev. rewrite Ev. cbn [mbind option_bind].
    destruct v.
    + rewrite Em, read_card_spec by done. cbn [mbind option_bind]. rewrite Hc by (by apply Hv). rewrite wraps_wrapu by lia. eexists _, _. done.
    + rewrite (hllCount_spec o card regs Ho). cbn [mbind option_bind]. destruct (write_card_spec enc u card rest (u64 (estimate (hist regs))) Hu) as [E Hu']. rewrite <- Em in E. rewrite E. cbn [mbind option_bind fst snd].
      rewrite wraps_wrapu by lia. eexists _, _. split; [done|]. eapply db_rel_same; [done|done|]. eexists true, _, (le_split 8 (u64 (estimate (hist regs)))). split; [done|].
      split; [by eapply hll_card|]. intros _. rewrite le_join_split. change (256 ^ Z.of_nat 8) with (2 ^ 64). apply Z.mod_small. unfold wrapu. apply Z.mod_pos_bound. lia.
  - simpl in Hk. rewrite Hk. cbn [mbind option_bind]. by exists db, 0.
  - cbn [fst snd]. rewrite Hest0. by exists db, 0.
Qed.

Lemma pfcount_many db a keys : db_rel db a -> (forall k, keys <> [k]) ->
  exists db' dirty, pfcountCommand estimate db keys = Some (db', (spec_cmd estimate a (PfCount keys)).1.2, dirty) /\ db_rel db' a.
Proof.
  intros Hr Hk. unfold spec_cmd.
  assert (pfcountCommand estimate db keys = pfcount_multi estimate db keys) as -> by (destruct keys as [|k [|k' keys]]; [reflexivity|by destruct (Hk k)|reflexivity]).
  unfold pfcount_multi.
  set (hdr := [0; 0; 0; 0; HLL_RAW; 0; 0; 0; 0; 0; 0; 0; 0; 0; 0; 0]).
  assert (setb (replicate (Z.to_nat (HLL_HDR_SIZE + HLL_REGISTERS)) 0) 4 HLL_RAW = Some (hdr ++ empty_regs)) as E.
  { assert (Z.to_nat (HLL_HDR_SIZE + HLL_REGISTERS) = 16 + Z.to_nat 16384)%nat as -> by (unfold HLL_HDR_SIZE, HLL_REGISTERS; lia). rewrite replicate_add. rewrite (empty_regs_eq : replicate (Z.to_nat 16384) 0 = empty_regs).
    generalize empty_regs as er. done. }
  cbv zeta. rewrite E. cbn [mbind option_bind]. clear E. change (Z.to_nat HLL_HDR_SIZE) with (length hdr). rewrite drop_app_length, take_app_length.
  destruct (merge_keys_spec db a keys Hr empty_regs false (proj1 empty_regs_ok) (proj2 empty_regs_ok)) as (d & ->). cbn [mbind option_bind].
  destruct (amerge a keys empty_regs) as [e|res] eqn:Em; [by exists db, 0|].
  destruct (amerge_ok a keys (db_rel_regs _ _ Hr) empty_regs res (proj1 empty_regs_ok) (proj2 empty_regs_ok) Em) as (Hl & Hf & _).
  unfold hllCount, hllRegHisto. change (hdr_encoding (hdr ++ res)) with (Some HLL_RAW). cbn [mbind option_bind].
  assert ((HLL_RAW =? HLL_DENSE) = false) as -> by done. assert ((HLL_RAW =? HLL_SPARSE) = false) as -> by done. assert ((HLL_RAW =? HLL_RAW) = true) as -> by done.
  rewrite <- hist_nil. change HLL_HDR_SIZE with (zlen hdr). rewrite hllRawRegHisto_spec by done. cbn [mbind option_bind]. rewrite wraps_wrapu by lia. by exists db, 0.
Qed.

(** *** Sequences of commands *)

Definition run_cmd (db : gmap (list Z) hobj) (cmd : hcmd) : option (gmap (list Z) hobj * hreply * Z) :=
  match cmd with
  | PfAdd key eles => pfaddCommand big max db key eles
  | PfCount keys => pfcountCommand estimate db keys
  | PfMerge dst srcs => pfmergeCommand max db dst srcs
  end.

Fixpoint run_cmds (db : gmap (list Z) hobj) (cmds : list hcmd) : option (gmap (list Z) hobj * list (hreply * Z)) :=
  match cmds with
  | [] => Some (db, [])
  | cmd :: cmds => '(db, r, dirty) ← run_cmd db cmd; '(db, rs) ← run_cmds db cmds; Some (db, (r, dirty) :: rs)
  end.

Definition cmd_ok (cmd : hcmd) : Prop :=
  match cmd with PfAdd _ eles => Forall ele_ok eles /\ zlen eles + 1 < 2 ^ 31 | _ => True end.

(** The reply is the one of the specification, and so is the change of [server.dirty] where it says one. *)
Definition reply_ok (r : hreply * Z) (s : hreply * option Z) : Prop := r.1 = s.1 /\ forall d, s.2 = Some d -> r.2 = d.

Lemma run_cmd_spec db a cmd : db_rel db a -> cmd_ok cmd ->
  exists db' r, run_cmd db cmd = Some (db', r.1, r.2) /\ db_rel db' (spec_cmd estimate a cmd).1.1 /\ reply_ok r ((spec_cmd estimate a cmd).1.2, (spec_cmd estimate a cmd).2).
Proof.
  intros Hr Hc. destruct cmd as [key eles|keys|dst srcs]; simpl in Hc; cbn [run_cmd].
  - destruct Hc as [Hf Hn]. destruct (pfadd_spec db a key eles Hr Hf Hn) as (db' & d & -> & Hr' & Ed). eexists db', (_, d). split; [done|]. split; [done|]. split; [done|]. cbn [snd]. rewrite Ed. intros d' [= <-]. done.
  - assert ((spec_cmd estimate a (PfCount keys)).1.1 = a /\ (spec_cmd estimate a (PfCount keys)).2 = None) as [-> ->] by (cbn [spec_cmd]; by destruct (amerge a keys empty_regs)).
    assert (exists db' dirty, pfcountCommand estimate db keys = Some (db', (spec_cmd estimate a (PfCount keys)).1.2, dirty) /\ db_rel db' a) as (db' & d & -> & Hr').
    { destruct keys as [|k [|k' keys]]; [by apply pfcount_many|by apply pfcount_one|by apply pfcount_many]. }
    eexists db', (_, d). split; [done|]. split; [done|]. split; [done|]. done.
  - destruct (pfmerge_spec db a dst srcs Hr) as (db' & d & -> & Hr' & Ed). eexists db', (_, d). split; [done|]. split; [done|]. split; [done|]. cbn [snd]. rewrite Ed. intros d' [= <-]. done.
Qed.

Lemma run_cmds_spec cmds : forall db a, db_rel db a -> Forall cmd_ok cmds ->
  exists db' rs, run_cmds db cmds = Some (db', rs) /\ db_rel db' (spec_run estimate a cmds).1 /\ Forall2 reply_ok rs (spec_run estimate a cmds).2.
Proof.
  induction cmds as [|cmd cmds IH]; intros db a Hr Hf; [by exists db, []|]. apply Forall_cons in Hf as [Hc Hf]. cbn [run_cmds spec_run].
  destruct (run_cmd_spec db a cmd Hr Hc) as (db1 & r & -> & Hr1 & Hr2). destruct (spec_cmd estimate a cmd) as [[a1 r1] d1]. cbn [mbind option_bind fst snd] in *.
  destruct (IH db1 a1 Hr1 Hf) as (db2 & rs & -> & Hr3 & Hf3). destruct (spec_run estimate a1 cmds) as [a2 rs2]. cbn [mbind option_bind fst snd] in *.
  exists db2, (r :: rs). split; [by destruct r|]. split; [done|]. by constructor.
Qed.

Lemma db_rel_empty : db_rel ∅ ∅.
Proof. intros k. by rewrite !lookup_empty. Qed.

End Ops.

(** ** Unions *)

Lemma lookup_maxs a b i x y : a !! i = Some x -> b !! i = Some y -> maxs a b !! i = Some (Z.max x y).
Proof. intros Ha Hb. unfold maxs. rewrite lookup_zip_with, Ha. simpl. by rewrite Hb. Qed.

Lemma raise_length regs i c : length (raise regs i c) = length regs.
Proof. apply length_insert. Qed.

Lemma raise_maxs a b i c : length a = length b -> raise (maxs a b) i c = maxs a (raise b i c).
Proof.
  intros Hl. unfold raise. set (n := Z.to_nat i). apply list_eq_same_length with (length a); [unfold maxs; rewrite length_zip_with, length_insert; lia|rewrite length_insert; unfold maxs; rewrite length_zip_with; lia|].
  intros j x y Hj Hx Hy. destruct (lookup_lt_is_Some_2 a j) as [xa Ea]; [lia|]. destruct (lookup_lt_is_Some_2 b j) as [xb Eb]; [lia|].
  destruct (decide (j = n)) as [->|Hne].
  - rewrite (lookup_maxs a b n xa xb Ea Eb) in Hx. rewrite Eb in Hy. cbn [default from_option id] in *.
    rewrite list_lookup_insert_eq in Hx by (unfold maxs; rewrite length_zip_with; lia). rewrite (lookup_maxs a _ n xa (Z.max xb c) Ea) in Hy by (apply list_lookup_insert_eq; lia).
    injection Hx as <-. injection Hy as <-. lia.
  - rewrite list_lookup_insert_ne in Hx by done. rewrite (lookup_maxs a b j xa xb Ea Eb) in Hx. rewrite (lookup_maxs a _ j xa xb Ea) in Hy by (by rewrite list_lookup_insert_ne). congruence.
Qed.

Lemma observe_all_maxs eles : forall a b, length a = length b -> observe_all (maxs a b) eles = maxs a (observe_all b eles).
Proof.
  induction eles as [|e eles IH]; intros a b Hl; [done|]. unfold observe_all. cbn [foldl]. unfold observe at 2. rewrite raise_maxs by done. apply IH. unfold observe. by rewrite raise_length.
Qed.

Lemma observe_all_ok eles : forall regs, Forall ele_ok eles -> zlen regs = 16384 -> Forall is_reg regs -> zlen (observe_all regs eles) = 16384 /\ Forall is_reg (observe_all regs eles).
Proof.
  induction eles as [|e eles IH]; intros regs He Hl Hf; [done|]. apply Forall_cons in He as [He Hes]. unfold observe_all. cbn [foldl]. destruct (pattern_spec false e He) as (_ & Hr & Hi).
  destruct (reg_lookup regs (reg_of e) Hl Hi) as [r Er]. assert (is_reg r) as Hrr by (eapply Forall_lookup_1; eauto). unfold is_reg in Hrr.
  apply IH; [done|unfold zlen, observe in *; by rewrite raise_length|]. unfold observe. rewrite (raise_lookup _ _ _ _ Er). apply Forall_insert; [done|unfold is_reg; lia].
Qed.

(** Observing all elements is the maximum of observing two parts. *)
Lemma observe_union A B : Forall ele_ok A -> Forall ele_ok B -> maxs (observe_all empty_regs A) (observe_all empty_regs B) = observe_all empty_regs (A ++ B).
Proof.
  intros HA HB. destruct (observe_all_ok A empty_regs HA (proj1 empty_regs_ok) (proj2 empty_regs_ok)) as [Hl Hf].
  unfold observe_all at 3. rewrite foldl_app. fold (observe_all empty_regs A). set (X := observe_all empty_regs A) in *.
  change (maxs X (observe_all empty_regs B) = observe_all X B). rewrite <- observe_all_maxs by (pose proof (proj1 empty_regs_ok); unfold zlen in *; lia). f_equal. apply (maxs_zeros X); [done|unfold zlen in *; lia].
Qed.

(** ** Strings of any contents *)

(** The opcode at any place of a string of bytes. *)
Lemma sparse_run_any m end_ p : Forall is_byte (take (Z.to_nat (end_ + 1)) m) -> end_ + 1 <= zlen m -> 0 <= p < end_ ->
  exists oplen runlen v, sparse_run m p = Some (oplen, runlen, v) /\ 1 <= oplen <= 2 /\ 1 <= runlen <= 8192 * oplen /\ (v = 0 \/ (1 <= v <= 32 /\ runlen <= 4)) /\ is_reg v.
Proof.
  intros Hb Hl Hp. assert (forall i, 0 <= i <= end_ -> exists b, getb m i = Some b /\ is_byte b) as Hget.
  { intros i Hi. destruct (getb_is_Some m i) as [b Eb]; [lia|]. exists b. split; [done|]. unfold getb in Eb. replace (0 <=? i) with true in Eb by lia.
    rewrite Forall_lookup in Hb. apply (Hb (Z.to_nat i)). rewrite lookup_take_lt by lia. done. }
  destruct (Hget p) as (b & Eb & Hbb); [lia|]. destruct (Hget (p + 1)) as (b1 & Eb1 & Hb1); [lia|]. unfold sparse_run. rewrite Eb. cbn [mbind option_bind].
  destruct (decode_bits b Hbb) as (-> & -> & _ & -> & -> & ->). unfold is_byte, is_reg in *. destruct (b <? 64) eqn:E1; [|destruct (64 <=? b) eqn:E2; [destruct (b <? 128) eqn:E3|]]; cbn [andb].
  - eexists _, _, _. split; [done|]. div_lia.
  - rewrite Eb1. cbn [mbind option_bind]. rewrite xzero_len by done. eexists _, _, _. split; [done|]. div_lia.
  - eexists _, _, _. split; [done|]. div_lia.
  - lia.
Qed.

(** A loop over the opcodes of any string of at most 2^18 bytes, whose value keeps [Inv] while values
    are only written below 16384. *)
Lemma sparse_any_loop {A} (body : Z * Z * A -> option (Z * Z * A + Z * A)) m end_ (Inv : Z -> A -> Prop) :
  Forall is_byte (take (Z.to_nat (end_ + 1)) m) -> end_ + 1 <= zlen m -> 16 <= end_ <= 2 ^ 18 ->
  (forall p idx a oplen runlen v, 16 <= p < end_ -> 0 <= idx -> 0 <= idx + runlen < 2 ^ 31 -> Inv idx a -> sparse_run m p = Some (oplen, runlen, v) -> 1 <= runlen ->
    (v = 0 \/ (1 <= v <= 32 /\ runlen <= 4)) -> is_reg v ->
    (exists a', body (p, idx, a) = Some (inl (p + oplen, idx + runlen, a')) /\ Inv (idx + runlen) a') \/ (exists r, body (p, idx, a) = Some (inr (r, a)))) ->
  (forall p idx a, end_ <= p -> body (p, idx, a) = Some (inr (idx, a))) ->
  forall a fuel, Inv 0 a -> (length m < fuel)%nat -> exists idx idx' a', loop fuel body (16, 0, a) = Some (idx, a') /\ Inv idx' a'.
Proof.
  intros Hb Hl He Hstep Hend a fuel Ha Hfu. change (2 ^ 18) with 262144 in He.
  destruct (loop_ok body (fun '(p, idx, a) => 16 <= p <= end_ + 1 /\ 0 <= idx <= 8192 * (p - 16) /\ Inv idx a) (fun '(idx, a) => exists idx', Inv idx' a) (fun '(p, _, _) => end_ + 1 - p))
    with (fuel := fuel) (s := (16, 0, a)) as ([idx a'] & E & idx' & Hi).
  - intros [[p idx] b] (Hp & Hi & Hinv). split; [lia|]. destruct (Z.lt_ge_cases p end_) as [Hlt|Hge]; [|right; eexists (idx, b); split; [by apply Hend|by exists idx]].
    destruct (sparse_run_any m end_ p Hb Hl) as (oplen & runlen & v & Er & Ho & Hr & Hv & Hv'); [lia|].
    destruct (Hstep p idx b oplen runlen v) as [(a' & E & Hinv')|(r & E)]; [lia|lia|change (2 ^ 31) with 2147483648; lia|done|done|lia|done|done| |].
    + left. eexists. split; [done|]. split; [|lia]. split; [lia|]. split; [lia|done].
    + right. eexists (r, b). split; [done|]. by exists idx.
  - split; [lia|]. split; [lia|done].
  - unfold zlen in Hl. lia.
  - eauto.
Qed.

Lemma merge_any m end_ acc : Forall is_byte (take (Z.to_nat (end_ + 1)) m) -> end_ + 1 <= zlen m -> 16 <= end_ <= 2 ^ 18 -> zlen acc = 16384 -> Forall is_reg acc ->
  exists idx acc', loop (S (length m)) (merge_sparse_body m end_) (16, 0, acc) = Some (idx, acc') /\ zlen acc' = 16384 /\ Forall is_reg acc'.
Proof.
  intros Hb Hl He Ha Hf.
  destruct (sparse_any_loop (merge_sparse_body m end_) m end_ (fun _ acc => zlen acc = 16384 /\ Forall is_reg acc) Hb Hl He) with (a := acc) (fuel := S (length m)) as (idx & idx' & acc' & E & H1 & H2); [| |done|lia|by exists idx, acc'].
  - intros p idx a oplen runlen v Hp Hi Hir [Hz Hfa] Er Hrl Hv Hvr. unfold merge_sparse_body. replace (p <? end_) with true by lia. rewrite Er. cbn [mbind option_bind].
    destruct (v =? 0) eqn:Ev; [left; exists a; rewrite s32_small by lia; done|]. destruct (runlen + idx >? HLL_REGISTERS) eqn:Eo; [right; by exists idx|]. left. unfold HLL_REGISTERS in Eo.
    destruct (mem_split a idx runlen) as (l1 & xs & l2 & -> & Hl1 & Hxs); [lia|lia|lia|]. apply Forall_app in Hfa as [F1 F2]. apply Forall_app in F2 as [F2 F3].
    rewrite (merge_fill_spec v (Z.to_nat runlen) l1 xs l2) by (done || lia || (unfold zlen in *; lia) || (change (2 ^ 31) with 2147483648 in *; lia)). cbn [mbind option_bind].
    eexists. rewrite Z2Nat.id by lia. split; [done|]. assert (zlen (maxs xs (replicate (Z.to_nat runlen) v)) = zlen xs) by (apply zlen_maxs; rewrite zlen_replicate; lia).
    split; [autorewrite with zlen in *; lia|]. apply Forall_app. split; [done|]. apply Forall_app. split; [|done]. apply maxs_regs; [done|]. by apply Forall_replicate.
  - intros p idx a Hp. unfold merge_sparse_body. by replace (p <? end_) with false by lia.
Qed.

Lemma dense_fill_any v n : forall a regs junk idx, is_reg v -> Forall is_reg regs -> zlen regs = 16384 -> 0 <= idx -> idx + Z.of_nat n <= 16384 ->
  exists regs', dense_fill n (a ++ pack regs ++ 0 :: junk) (zlen a) idx v = Some (a ++ pack regs' ++ 0 :: junk, idx + Z.of_nat n) /\ Forall is_reg regs' /\ zlen regs' = 16384.
Proof.
  induction n as [|n IH]; intros a regs junk idx Hv Hf Hl Hi Hn.
  - exists regs. cbn [dense_fill]. by rewrite Z.add_0_r.
  - cbn [dense_fill]. rewrite (dense_set 32 a regs 4096) by (auto || lia || (unfold is_byte; lia)). cbn [mbind option_bind]. rewrite s32_small by lia.
    destruct (IH a (<[Z.to_nat idx := v]> regs) junk (idx + 1)) as (regs' & -> & H1 & H2); [done|by apply Forall_insert|unfold zlen in *; by rewrite length_insert|lia|lia|].
    exists regs'. split; [|done]. do 2 f_equal. lia.
Qed.

Lemma to_dense_any m end_ dhdr djunk : Forall is_byte (take (Z.to_nat (end_ + 1)) m) -> end_ + 1 <= zlen m -> 16 <= end_ <= 2 ^ 18 -> zlen dhdr = 16 ->
  exists idx dense, loop (S (length m)) (sparse_to_dense_body m end_) (16, 0, dhdr ++ pack empty_regs ++ 0 :: djunk) = Some (idx, dense).
Proof.
  intros Hb Hl He Hd. 
  destruct (sparse_any_loop (sparse_to_dense_body m end_) m end_ (fun _ d => exists regs, d = dhdr ++ pack regs ++ 0 :: djunk /\ Forall is_reg regs /\ zlen regs = 16384) Hb Hl He)
    with (a := dhdr ++ pack empty_regs ++ 0 :: djunk) (fuel := S (length m)) as (idx & idx' & d & E & _); [| |exists empty_regs; split; [reflexivity|]; split; apply empty_regs_ok|lia|by exists idx, d].
  - intros p idx a oplen runlen v Hp Hi Hir (regs & -> & Hf & Hz) Er Hrl Hv Hvr. unfold sparse_to_dense_body. replace (p <? end_) with true by lia. rewrite Er. cbn [mbind option_bind].
    destruct (v =? 0) eqn:Ev; [left; eexists; rewrite s32_small by lia; split; [done|by exists regs]|]. rewrite s32_small by lia. destruct (runlen + idx >? HLL_REGISTERS) eqn:Eo; [right; by exists idx|]. left. unfold HLL_REGISTERS in Eo.
    unfold HLL_HDR_SIZE. rewrite <- Hd. destruct (dense_fill_any v (Z.to_nat runlen) dhdr regs djunk idx) as (regs' & -> & H1 & H2); [done|done|done|lia|lia|]. cbn [mbind option_bind].
    eexists. rewrite Z2Nat.id by lia. split; [done|]. by exists regs'.
  - intros p idx a Hp. unfold sparse_to_dense_body. by replace (p <? end_) with false by lia.
Qed.

Lemma histo_any m end_ : Forall is_byte (take (Z.to_nat (end_ + 1)) m) -> end_ + 1 <= zlen m -> 16 <= end_ <= 2 ^ 18 ->
  exists idx h, loop (S (length m)) (sparse_histo_body m end_) (16, 0, hist []) = Some (idx, h).
Proof.
  intros Hb Hl He.
  destruct (sparse_any_loop (sparse_histo_body m end_) m end_ (fun idx h => exists l, h = hist l /\ zlen l = idx) Hb Hl He) with (a := hist []) (fuel := S (length m)) as (idx & idx' & h & E & _); [| |by exists []|lia|by exists idx, h].
  - intros p idx a oplen runlen v Hp Hi Hir (l & -> & Hz) Er Hrl Hv Hvr. unfold sparse_histo_body. replace (p <? end_) with true by lia. rewrite Er. cbn [mbind option_bind].
    rewrite histo_add_spec by (done || lia). cbn [mbind option_bind]. rewrite s32_small by lia. left. eexists. split; [done|]. eexists. split; [done|]. rewrite zlen_app, zlen_replicate. lia.
  - intros p idx a Hp. unfold sparse_histo_body. by replace (p <? end_) with false by lia.
Qed.

Section Any.
Context `{Allocator} `{Usable}.

(** The three loops over a string of at most 2^18 bytes stay in bounds. *)
Lemma any_string_safe s c acc : holds s c -> Forall is_byte c -> 16 <= sdslen s <= 2 ^ 18 ->
  (hdr_encoding (s_mem s) = Some HLL_DENSE /\ sdslen s = 12304) \/ hdr_encoding (s_mem s) = Some HLL_SPARSE -> zlen acc = 16384 -> Forall is_reg acc ->
  (exists acc' ok, hllMerge acc s = Some (acc', ok) /\ zlen acc' = 16384 /\ Forall is_reg acc') /\
  (exists r, hllSparseToDense s = Some r) /\ (exists r, hllRegHisto (s_mem s) (sdslen s) = Some r).
Proof.
  intros (_ & Hlen & junk & Hm) Hb Hl Henc Ha Hf. change (2 ^ 18) with 262144 in Hl.
  assert (sdslen s + 1 <= zlen (s_mem s)) as Hz by (rewrite Hm, Hlen; len_lia).
  assert (Forall is_byte (take (Z.to_nat (sdslen s + 1)) (s_mem s))) as Hb'.
  { rewrite Hm. replace (Z.to_nat (sdslen s + 1)) with (length c + 1)%nat by (unfold zlen in Hlen; lia). rewrite take_app_add. cbn [take]. apply Forall_app. split; [done|]. apply Forall_cons. split; [unfold is_byte; lia|apply Forall_nil; done]. }
  assert (sdslen s <= 2 ^ 18) as Hl2 by (change (2 ^ 18) with 262144; lia). unfold hllMerge, hllSparseToDense, hllRegHisto. destruct Henc as [[-> Hd] | ->]; cbn [mbind option_bind].
  - assert (HLL_DENSE =? HLL_DENSE = true) as -> by done.
    destruct (mem_split c 0 16) as (a0 & hd & body & -> & Ha0 & Hhd); [lia|lia|lia|]. destruct a0; [|len_lia]. cbn [app] in *. apply Forall_app in Hb as [_ Hb].
    destruct (unpack_spec 4096 body) as (Ep & El & Er); [autorewrite with zlen in *; lia|done|]. rewrite <- Ep in Hm. change (4 * Z.of_nat 4096) with 16384 in El. rewrite <- app_assoc in Hm.
    pose proof (merge_dense_spec hd (unpack body) 0 junk (Z.to_nat HLL_REGISTERS) El Er Hhd [] acc 0) as E. cbn [app] in E. rewrite <- Hm in E.
    split; [|split; [by eexists|]].
    + rewrite E; [|done|unfold HLL_REGISTERS; lia|lia]. cbn [mbind option_bind]. eexists _, true. split; [done|]. change (drop (Z.to_nat 0) (unpack body)) with (unpack body). split; [rewrite zlen_maxs; lia|by apply maxs_regs].
    + rewrite Hm. unfold HLL_HDR_SIZE. rewrite <- hist_nil, <- Hhd, hllDenseRegHisto_spec by done. by eexists.
  - assert (HLL_SPARSE =? HLL_DENSE = false) as -> by done. assert (HLL_SPARSE =? HLL_SPARSE = true) as -> by done. unfold HLL_HDR_SIZE. split; [|split].
    + destruct (merge_any (s_mem s) (sdslen s) acc) as (idx & acc' & -> & H1 & H2); [done|done|done|done|done|]. cbn [mbind option_bind]. by eexists _, _.
    + destruct (sdsnewlen_spec None HLL_DENSE_SIZE (replicate (Z.to_nat HLL_DENSE_SIZE) 0)) as (d & -> & (_ & _ & djunk & Hdm)); [done|done|by right|]. cbn [mbind option_bind].
      destruct (mem_split (s_mem s) 0 16) as (a0 & hd & body & E & Ha0 & Hhd); [lia|lia|lia|]. destruct a0; [|len_lia]. cbn [app] in E.
      assert (mem_read (s_mem s) 0 16 = Some hd) as ->. { rewrite E. by apply (mem_read_mid [] hd body). } cbn [mbind option_bind].
      rewrite Hdm. change (Z.to_nat HLL_DENSE_SIZE) with (16 + 3 * 4096)%nat. rewrite replicate_add, <- pack_zeros, <- app_assoc. change (4 * 4096)%nat with (Z.to_nat 16384).
      change (mem_write (replicate 16 0 ++ ?r) 0 hd) with (mem_write ([] ++ replicate 16 0 ++ r) 0 hd). rewrite (mem_write_mid [] (replicate 16 0) hd) by (done || rewrite Hhd; done). cbn [mbind option_bind app].
      assert (exists hd', setb (hd ++ pack (replicate (Z.to_nat 16384) 0) ++ 0 :: djunk) 4 HLL_DENSE = Some (hd' ++ pack empty_regs ++ 0 :: djunk) /\ zlen hd' = 16) as (hd' & -> & Hhd').
      { rewrite (empty_regs_eq : replicate (Z.to_nat 16384) 0 = empty_regs). generalize empty_regs as er. intros er. exists (<[4%nat := HLL_DENSE]> hd). split; [|unfold zlen in *; by rewrite length_insert].
        unfold setb. destruct (getb_is_Some hd 4) as [x Ex]; [lia|]. rewrite getb_app_l by lia. rewrite Ex. f_equal. change (Z.to_nat 4) with 4%nat. apply insert_app_l. unfold zlen in Hhd. lia. }
      cbn [mbind option_bind]. destruct (to_dense_any (s_mem s) (sdslen s) hd' djunk) as (idx & dm & ->); [done|done|done|done|]. cbn [mbind option_bind]. case_match; by eexists.
    + rewrite s32_small by lia. unfold hllSparseRegHisto. rewrite <- hist_nil. replace (16 + (sdslen s - 16)) with (sdslen s) by lia.
      destruct (histo_any (s_mem s) (sdslen s)) as (idx & h & ->); [done|done|done|]. cbn [mbind option_bind]. by eexists.
Qed.

(** ** Registers that wrap around

    Enough runs of zeros wrap the register number around to a negative one, and the next value is
    written there. *)

(** The state after [n] turns of a loop that does not end before. *)
Fixpoint turns {S R} (n : nat) (body : S -> option (S + R)) (st : S) : option S :=
  match n with
  | O => Some st
  | Datatypes.S n => match body st with Some (inl st) => turns n body st | _ => None end
  end.

Lemma turns_loop {S R} n (body : S -> option (S + R)) f : forall st st', turns n body st = Some st' -> loop (n + f) body st = loop f body st'.
Proof.
  induction n as [|n IH]; intros st st' E; [by injection E as ->|]. cbn [Nat.add turns] in *. rewrite loop_step.
  destruct (body st) as [[st1|]|]; [by apply IH|done..].
Qed.

Section Wrap.
Context (N : nat) (HN : Z.of_nat N = 262143) (hdr junk : list Z) (Hh : zlen hdr = 16).

Definition zero_runs : list sop := replicate N (OXZero 16384).

Lemma bytes_zeros n : zlen (ops_bytes (replicate n (OXZero 16384))) = 2 * Z.of_nat n.
Proof. induction n as [|n IH]; [done|]. cbn [replicate]. rewrite ops_bytes_cons, zlen_app, zlen_op. cbn [op_size]. lia. Qed.

Lemma zero_runs_bytes : zlen (ops_bytes zero_runs) = 524286.
Proof. unfold zero_runs. rewrite bytes_zeros. lia. Qed.

Lemma wrapping_run tail n : (n < N)%nat -> sparse_run (sparse_mem hdr (zero_runs ++ tail) junk) (16 + 2 * Z.of_nat n) = Some (2, 16384, 0).
Proof using HN Hh.
  intros Hn. unfold zero_runs. replace N with (n + S (N - n - 1))%nat by lia. rewrite replicate_add. cbn [replicate]. rewrite <- app_assoc. cbn [app].
  rewrite <- bytes_zeros. apply (sparse_run_at hdr _ (OXZero 16384)); [done|simpl; lia].
Qed.

Lemma wrapping_last : sparse_run (sparse_mem hdr (zero_runs ++ [OVal 1 1]) junk) 524302 = Some (1, 1, 1).
Proof using HN Hh. change 524302 with (16 + 524286). rewrite <- zero_runs_bytes. apply (sparse_run_at hdr _ (OVal 1 1)); [done|simpl; lia]. Qed.

(** A loop that only skips the zeros. *)
Lemma wrapping_turns {A R} (body : Z * Z * A -> option (Z * Z * A + R)) a :
  (forall n, (n < N)%nat -> body (16 + 2 * Z.of_nat n, s32 (16384 * Z.of_nat n), a) = Some (inl (16 + 2 * Z.of_nat (S n), s32 (16384 * Z.of_nat (S n)), a))) ->
  turns N body (16, 0, a) = Some (524302, -16384, a).
Proof using HN.
  intros Hstep. assert (forall k n, (n + k = N)%nat -> turns k body (16 + 2 * Z.of_nat n, s32 (16384 * Z.of_nat n), a) = Some (524302, -16384, a)) as Hall; [|by apply (Hall N 0%nat)].
  induction k as [|k IH]; intros n Hk; cbn [turns].
  - assert (Z.of_nat n = 262143) as -> by lia. done.
  - rewrite Hstep by lia. apply IH. lia.
Qed.

Lemma s32_add n : s32 (s32 (16384 * Z.of_nat n) + 16384) = s32 (16384 * Z.of_nat (S n)).
Proof.
  unfold wraps. replace ((16384 * Z.of_nat n + 2 ^ (32 - 1)) mod 2 ^ 32 - 2 ^ (32 - 1) + 16384 + 2 ^ (32 - 1)) with ((16384 * Z.of_nat n + 2 ^ (32 - 1)) mod 2 ^ 32 + 16384) by lia.
  rewrite Zplus_mod_idemp_l. do 2 f_equal. lia.
Qed.

Lemma merge_turns tail end_ acc : 524302 <= end_ -> turns N (merge_sparse_body (sparse_mem hdr (zero_runs ++ tail) junk) end_) (16, 0, acc) = Some (524302, -16384, acc).
Proof using HN Hh.
  intros He. apply wrapping_turns. intros n Hn. unfold merge_sparse_body. replace (_ <? _) with true by lia. rewrite wrapping_run by done. cbn [mbind option_bind]. rewrite s32_add. do 4 f_equal. lia.
Qed.

Lemma to_dense_turns tail end_ dense : 524302 <= end_ -> turns N (sparse_to_dense_body (sparse_mem hdr (zero_runs ++ tail) junk) end_) (16, 0, dense) = Some (524302, -16384, dense).
Proof using HN Hh.
  intros He. apply wrapping_turns. intros n Hn. unfold sparse_to_dense_body. replace (_ <? _) with true by lia. rewrite wrapping_run by done. cbn [mbind option_bind]. rewrite s32_add. do 4 f_equal. lia.
Qed.

Lemma enough_fuel tail : exists f, S (length (sparse_mem hdr (zero_runs ++ tail) junk)) = (N + S f)%nat.
Proof using HN.
  pose proof zero_runs_bytes as Hz. unfold zlen in Hz. exists (length (sparse_mem hdr (zero_runs ++ tail) junk) - N)%nat.
  enough (N <= length (sparse_mem hdr (zero_runs ++ tail) junk))%nat by lia.
  unfold sparse_mem. rewrite ops_bytes_app, !length_app. lia.
Qed.

(** At the value the two loops leave their arrays; behind the zeros alone they end. *)
Lemma merge_wraps acc : loop (S (length (sparse_mem hdr (zero_runs ++ [OVal 1 1]) junk))) (merge_sparse_body (sparse_mem hdr (zero_runs ++ [OVal 1 1]) junk) 524303) (16, 0, acc) = None.
Proof using HN Hh.
  destruct (enough_fuel [OVal 1 1]) as [f ->]. rewrite (turns_loop _ _ _ _ _ (merge_turns [OVal 1 1] 524303 acc ltac:(lia))), loop_step.
  unfold merge_sparse_body. change (524302 <? 524303) with true. rewrite wrapping_last. done.
Qed.

Lemma to_dense_wraps dense : loop (S (length (sparse_mem hdr (zero_runs ++ [OVal 1 1]) junk))) (sparse_to_dense_body (sparse_mem hdr (zero_runs ++ [OVal 1 1]) junk) 524303) (16, 0, dense) = None.
Proof using HN Hh.
  destruct (enough_fuel [OVal 1 1]) as [f ->]. rewrite (turns_loop _ _ _ _ _ (to_dense_turns [OVal 1 1] 524303 dense ltac:(lia))), loop_step.
  unfold sparse_to_dense_body. change (524302 <? 524303) with true. rewrite wrapping_last. done.
Qed.

Lemma merge_ends acc : loop (S (length (sparse_mem hdr (zero_runs ++ []) junk))) (merge_sparse_body (sparse_mem hdr (zero_runs ++ []) junk) 524302) (16, 0, acc) = Some (-16384, acc).
Proof using HN Hh.
  destruct (enough_fuel []) as [f ->]. rewrite (turns_loop _ _ _ _ _ (merge_turns [] 524302 acc ltac:(lia))), loop_step. done.
Qed.

Lemma to_dense_ends dense : loop (S (length (sparse_mem hdr (zero_runs ++ []) junk))) (sparse_to_dense_body (sparse_mem hdr (zero_runs ++ []) junk) 524302) (16, 0, dense) = Some (-16384, dense).
Proof using HN Hh.
  destruct (enough_fuel []) as [f ->]. rewrite (turns_loop _ _ _ _ _ (to_dense_turns [] 524302 dense ltac:(lia))), loop_step. done.
Qed.
End Wrap.
End Any.

(** ** The theorems *)

Section Theorems.
Context `{Allocator} `{Usable}.

(** C16: with hll-sparse-max-bytes from 32 to 2^63-1, and for any function that computes a 64-bit
    estimate from the histogram of the registers and gives 0 for empty registers (as
    hllSigma(1), infinity, makes it), any sequence of PFADD, PFCOUNT and PFMERGE on a key space
    of HyperLogLogs, sparse or dense, shared or not, and of other values, ends without an access
    out of bounds or a failed assert, answers what the specification on lists of 16384 registers
    answers, whatever conversions and merges of runs happen, and keeps every valid cached
    cardinality equal to the estimate of its registers. *)
Theorem hll_commands_refine estimate big max db a cmds :
  32 <= max < 2 ^ 63 -> estimate (hist empty_regs) = 0 ->
  db_rel estimate db a -> Forall cmd_ok cmds ->
  exists db' rs, run_cmds estimate big max db cmds = Some (db', rs) /\ db_rel estimate db' (spec_run estimate a cmds).1 /\
    Forall2 reply_ok rs (spec_run estimate a cmds).2.
Proof. intros Hm Hz Hr Hf. by apply run_cmds_spec. Qed.

(** C17: with hll-sparse-max-bytes from 32 to 2^63-1, and for any function that computes a 64-bit
    estimate from the histogram of the registers and gives 0 for empty registers, counting a
    merge of two keys, counting the two keys together and counting one key that got the elements
    of both give the same number, the estimate, as a signed integer of 64 bits, of the registers
    that hold the greatest rank of the elements hashed to them. *)
Theorem hll_union_correct estimate big max k1 k2 k3 k4 A B :
  32 <= max < 2 ^ 63 -> estimate (hist empty_regs) = 0 ->
  NoDup [k1; k2; k3; k4] -> Forall ele_ok A -> Forall ele_ok B -> zlen A + zlen B + 1 < 2 ^ 31 ->
  exists db rs r1 r2 r3 n,
    run_cmds estimate big max ∅ [PfAdd k1 A; PfAdd k2 B; PfMerge k3 [k1; k2]; PfCount [k3]; PfCount [k1; k2]; PfAdd k4 (A ++ B); PfCount [k4]] = Some (db, rs) /\
    rs.*1 = [r1; r2; HOk; HInt n; HInt n; r3; HInt n] /\ n = s64 (estimate (hist (observe_all empty_regs (A ++ B)))).
Proof.
  intros Hm H0' Hnd HA HB Hz. rewrite !NoDup_cons, !not_elem_of_cons in Hnd. destruct Hnd as ((N12 & N13 & N14 & _) & (N23 & N24 & _) & (N34 & _) & _).
  destruct (run_cmds_spec estimate big max Hm H0' [PfAdd k1 A; PfAdd k2 B; PfMerge k3 [k1; k2]; PfCount [k3]; PfCount [k1; k2]; PfAdd k4 (A ++ B); PfCount [k4]] ∅ ∅) as (db & rs & E & _ & Hrs); [apply db_rel_empty| |].
  { assert (zlen A + 1 < 2 ^ 31 /\ zlen B + 1 < 2 ^ 31 /\ zlen (A ++ B) + 1 < 2 ^ 31) as (? & ? & ?) by (pose proof (zlen_nonneg A); pose proof (zlen_nonneg B); rewrite zlen_app; lia).
    repeat (apply Forall_cons; split; [simpl; rewrite ?Forall_app; done|]). by apply Forall_nil. }
  destruct (observe_all_ok A empty_regs HA (proj1 empty_regs_ok) (proj2 empty_regs_ok)) as [LA FA]. destruct (observe_all_ok B empty_regs HB (proj1 empty_regs_ok) (proj2 empty_regs_ok)) as [LB FB].
  destruct (observe_all_ok (A ++ B) empty_regs) as [LAB FAB]; [by apply Forall_app|apply empty_regs_ok|apply empty_regs_ok|].
  cbn [spec_run spec_cmd amerge] in Hrs. rewrite !lookup_empty in Hrs. cbn [spec_run spec_cmd amerge] in Hrs.
  repeat (first [rewrite lookup_insert_eq in Hrs | rewrite lookup_insert_ne in Hrs by congruence | rewrite lookup_empty in Hrs]; cbn [spec_run spec_cmd amerge fst snd] in Hrs).
  rewrite ?(maxs_empty_l _ LA FA), ?(observe_union A B HA HB), ?(maxs_empty_l _ LAB FAB) in Hrs. exists db, rs, (HInt (if 1 + changes empty_regs A =? 0 then 0 else 1)), (HInt (if 1 + changes empty_regs B =? 0 then 0 else 1)), (HInt (if 1 + changes empty_regs (A ++ B) =? 0 then 0 else 1)), (s64 (estimate (hist (observe_all empty_regs (A ++ B))))).
  split; [done|]. split; [|done]. clear E. repeat match goal with Hf : Forall2 _ _ (_ :: _) |- _ => inversion Hf as [|? ? ? ? [? _]]; clear Hf; subst; cbn [fst] in * end.
  match goal with Hf : Forall2 _ _ [] |- _ => inversion Hf; subst end. cbn [fmap list_fmap]. repeat match goal with E : _.1 = _ |- _ => rewrite E; clear E end. reflexivity.
Qed.

(** C20: the loop that takes sixteen registers out of twelve bytes, the loop over the register macro
    and the loop over raw bytes that skips zero words all compute the histogram of the
    registers, and the loop over the opcodes that of their runs, with the mark of a wrong total. *)
Theorem hll_histograms_agree hdr regs x junk ops :
  zlen hdr = 16 -> zlen regs = 16384 -> Forall is_reg regs -> Forall op_ok ops -> zlen (ops_regs ops) < 2 ^ 31 ->
  hllDenseRegHisto (hdr ++ pack regs ++ x :: junk) 16 (replicate 64 0) = Some (hist regs) /\
  dense_histo_slow (Z.to_nat HLL_REGISTERS) (hdr ++ pack regs ++ x :: junk) 16 0 (replicate 64 0) = Some (hist regs) /\
  hllRawRegHisto (hdr ++ regs) 16 (replicate 64 0) = Some (hist regs) /\
  hllSparseRegHisto (hdr ++ ops_bytes ops ++ 0 :: junk) 16 (zlen (ops_bytes ops)) (replicate 64 0) =
    Some (hist (ops_regs ops), negb (zlen (ops_regs ops) =? HLL_REGISTERS)).
Proof.
  intros Hh Hl Hf Ho Hlo. rewrite <- hist_nil. split; [|split; [|split]].
  - rewrite <- Hh. by apply hllDenseRegHisto_spec.
  - rewrite <- Hh. apply (dense_histo_slow_spec (Z.to_nat HLL_REGISTERS) hdr regs x junk 0 []); (done || lia || (unfold HLL_REGISTERS; lia)).
  - rewrite <- Hh. by apply hllRawRegHisto_spec.
  - by apply hllSparseRegHisto_spec.
Qed.

(** C18: on any string of at most 2^18 bytes that isHLLObjectOrReply accepts, whatever its opcodes
    say, merging into registers, conversion to the dense representation and the histogram of
    counting stay in bounds and end. *)
Theorem hll_strings_safe s c raw acc :
  holds s c -> Forall is_byte c -> isHLLObjectOrReply (HStr raw s) = Some (inr (raw, s)) -> sdslen s <= 2 ^ 18 -> zlen acc = 16384 -> Forall is_reg acc ->
  (exists acc' ok, hllMerge acc s = Some (acc', ok) /\ zlen acc' = 16384 /\ Forall is_reg acc') /\
  (exists r, hllSparseToDense s = Some r) /\ (exists r, hllRegHisto (s_mem s) (sdslen s) = Some r).
Proof.
  intros Hs Hb Hi Hl Ha Hf. unfold isHLLObjectOrReply in Hi. destruct (sdslen s <? HLL_HDR_SIZE) eqn:E; [done|]. unfold HLL_HDR_SIZE in E.
  destruct (mem_read (s_mem s) 0 4) as [magic|]; [|done]. cbn [mbind option_bind] in Hi. destruct (hdr_encoding (s_mem s)) as [enc|] eqn:Ee; [|done]. cbn [mbind option_bind] in Hi.
  destruct (negb (bool_decide _)); [done|]. destruct (enc >? HLL_MAX_ENCODING) eqn:E1; [done|]. destruct (_ && _) eqn:E2; [done|]. unfold HLL_MAX_ENCODING, HLL_DENSE in *.
  eapply any_string_safe; eauto; [lia|].
  assert (is_byte enc) as He.
  { destruct Hs as (_ & Hlen & junk & Hm). unfold hdr_encoding in Ee. rewrite Hm, getb_app_l in Ee by lia. rewrite Forall_lookup in Hb. by apply (Hb 4%nat). }
  unfold is_byte in He. assert (enc = 0 \/ enc = 1) as [-> | ->] by lia; [left|right; done]. split; [done|]. change HLL_DENSE_SIZE with 12304 in E2. lia.
Qed.

(** A sparse string: the encoding is read, and the string is accepted. *)
Lemma sparse_accepted s card ops : holds s (header 1 [0; 0; 0] card ++ ops_bytes ops) -> zlen card = 8 ->
  exists junk, s_mem s = sparse_mem (header 1 [0; 0; 0] card) ops junk /\ sdslen s = 16 + zlen (ops_bytes ops) /\
    hdr_encoding (s_mem s) = Some 1 /\ isHLLObjectOrReply (HStr true s) = Some (inr (true, s)).
Proof.
  intros (_ & Hlen & junk & Hm) Hc. rewrite <- app_assoc in Hm. exists junk. split; [done|].
  assert (sdslen s = 16 + zlen (ops_bytes ops)) as Hl by (rewrite Hlen, zlen_app; unfold header; autorewrite with zlen; lia).
  split; [done|]. assert (hdr_encoding (s_mem s) = Some 1) as Henc by (by rewrite Hm). split; [done|].
  unfold isHLLObjectOrReply. rewrite Henc, Hl, Hm. pose proof (zlen_nonneg (ops_bytes ops)). replace (_ <? HLL_HDR_SIZE) with false by (unfold HLL_HDR_SIZE; lia).
  assert (mem_read (header 1 [0; 0; 0] card ++ ops_bytes ops ++ 0 :: junk) 0 4 = Some [72; 89; 76; 76]) as -> by (apply (mem_read_mid [] [72; 89; 76; 76]); done). done.
Qed.

(** The conversion of a sparse string is its loop. *)
Lemma to_dense_of_loop s card ops r : holds s (header 1 [0; 0; 0] card ++ ops_bytes ops) -> hdr_ok [0; 0; 0] card ->
  (forall dense, loop (S (length (s_mem s))) (sparse_to_dense_body (s_mem s) (sdslen s)) (16, 0, dense) = r dense) ->
  exists dense (k : Z -> list Z -> option (sds * bool)), hllSparseToDense s = ('(idx, m) ← r dense; k idx m) /\ forall idx m, idx <> 16384 -> k idx m = Some (s, false).
Proof.
  intros Hs Hh Hr. destruct (sparse_accepted s card ops Hs ltac:(by destruct Hh as (_ & ? & _))) as (junk & Hm & Hl & Henc & _).
  unfold hllSparseToDense. rewrite Henc. cbn [mbind option_bind]. assert ((1 =? HLL_DENSE) = false) as -> by done.
  destruct (sdsnewlen_spec None HLL_DENSE_SIZE (replicate (Z.to_nat HLL_DENSE_SIZE) 0)) as (d & -> & (_ & Hd & djunk & Hdm)); [done|done|by right|]. cbn [mbind option_bind].
  assert (mem_read (s_mem s) 0 HLL_HDR_SIZE = Some (header 1 [0; 0; 0] card)) as ->.
  { rewrite Hm. apply (mem_read_mid [] (header 1 [0; 0; 0] card)); [done|]. symmetry. by apply zlen_header. }
  cbn [mbind option_bind]. pose proof (zlen_header 1 [0; 0; 0] card Hh) as Hz.
  assert (12305 <= zlen (s_mem d)) as Hzd.
  { rewrite Hdm, zlen_app, zlen_cons, zlen_replicate. change HLL_DENSE_SIZE with 12304. pose proof (zlen_nonneg djunk). lia. }
  destruct (mem_write (s_mem d) 0 (header 1 [0; 0; 0] card)) as [m1|] eqn:E1.
  2:{ exfalso. unfold mem_write in E1. rewrite Hz in E1. replace (_ && _) with true in E1 by lia. done. }
  cbn [mbind option_bind]. destruct (setb m1 4 HLL_DENSE) as [m2|] eqn:E2.
  2:{ exfalso. pose proof (mem_write_length _ _ _ _ E1) as Hz1. unfold setb in E2. destruct (getb_is_Some m1 4) as [x Ex]; [lia|by rewrite Ex in E2]. }
  cbn [mbind option_bind]. unfold HLL_HDR_SIZE. rewrite Hr. eexists m2, _. split; [reflexivity|].
  intros idx m Hi. cbn beta. by replace (idx =? HLL_REGISTERS) with false by (unfold HLL_REGISTERS; lia).
Qed.

(** The string of the wrapping runs, with the value at its end and without. *)
Lemma overrun_string N s : Z.of_nat N = 262143 -> holds s (header 1 [0; 0; 0] (replicate 8 0) ++ ops_bytes (zero_runs N ++ [OVal 1 1])) ->
  sdslen s = 524303 /\ isHLLObjectOrReply (HStr true s) = Some (inr (true, s)) /\ sparse_run (s_mem s) 524302 = Some (1, 1, 1) /\
  (forall acc, turns N (merge_sparse_body (s_mem s) (sdslen s)) (HLL_HDR_SIZE, 0, acc) = Some (524302, -16384, acc) /\ hllMerge acc s = None) /\
  (forall dense, turns N (sparse_to_dense_body (s_mem s) (sdslen s)) (HLL_HDR_SIZE, 0, dense) = Some (524302, -16384, dense)) /\
  hllSparseToDense s = None /\
  (forall estimate key, pfcountCommand estimate {[key := HStr true s]} [key; key] = None).
Proof.
  intros HN Hs. assert (hdr_ok [0; 0; 0] (replicate 8 0)) as Hh by (split; [done|]; split; [done|]; apply Forall_replicate; unfold is_byte; lia).
  pose proof (zlen_header 1 [0; 0; 0] (replicate 8 0) Hh) as Hz. destruct (sparse_accepted s _ _ Hs ltac:(done)) as (junk & Hm & Hl & Henc & Hi).
  rewrite ops_bytes_app, zlen_app, (zero_runs_bytes N HN) in Hl. change (16 + (524286 + zlen (ops_bytes [OVal 1 1]))) with 524303 in Hl.
  unfold HLL_HDR_SIZE.
  assert (forall acc, hllMerge acc s = None) as HM.
  { intros acc. unfold hllMerge. rewrite Henc, Hm, Hl. cbn [mbind option_bind]. assert ((1 =? HLL_DENSE) = false) as -> by done. unfold HLL_HDR_SIZE. by rewrite merge_wraps. }
  split; [done|]. split; [done|]. split; [rewrite Hm; by apply wrapping_last|]. split; [intros acc; split; [|done]; rewrite Hm, Hl; by apply merge_turns|].
  split; [intros dense; rewrite Hm, Hl; by apply to_dense_turns|]. split.
  - destruct (to_dense_of_loop s _ _ (fun _ => None) Hs Hh) as (dense & k & -> & _); [|done]. intros dense. rewrite Hm, Hl. by apply to_dense_wraps.
  - intros estimate key. unfold pfcountCommand, pfcount_multi. cbv zeta. destruct (setb _ _ _) as [mx|]; [|done]. cbn [mbind option_bind merge_keys].
    rewrite lookup_singleton_eq, Hi. cbn [mbind option_bind]. rewrite Henc. cbn [mbind option_bind]. by rewrite HM.
Qed.

Lemma short_string N s : Z.of_nat N = 262143 -> holds s (header 1 [0; 0; 0] (replicate 8 0) ++ ops_bytes (zero_runs N)) ->
  (forall acc, hllMerge acc s = Some (acc, false)) /\ hllSparseToDense s = Some (s, false).
Proof.
  intros HN Hs. assert (hdr_ok [0; 0; 0] (replicate 8 0)) as Hh by (split; [done|]; split; [done|]; apply Forall_replicate; unfold is_byte; lia).
  pose proof (zlen_header 1 [0; 0; 0] (replicate 8 0) Hh) as Hz. destruct (sparse_accepted s _ _ Hs ltac:(done)) as (junk & Hm & Hl & Henc & Hi).
  rewrite (zero_runs_bytes N HN) in Hl. rewrite <- (app_nil_r (zero_runs N)) in Hm. change (16 + 524286) with 524302 in Hl. split.
  - intros acc. unfold hllMerge. rewrite Henc, Hm, Hl. cbn [mbind option_bind]. assert ((1 =? HLL_DENSE) = false) as -> by done. unfold HLL_HDR_SIZE. by rewrite merge_ends.
  - destruct (to_dense_of_loop s _ _ (fun dense => Some (-16384, dense)) Hs Hh) as (dense & k & -> & Hk).
    + intros dense. rewrite Hm, Hl. by apply to_dense_ends.
    + cbn [mbind option_bind]. by apply Hk.
Qed.

(** A length that does not change is refused for the smallest header only. *)
Lemma incr_zero_type5 s : s_type s = SDS_TYPE_5 -> sdsIncrLen s 0 = None.
Proof. intros E. unfold sdsIncrLen. rewrite E. done. Qed.

Lemma incr_zero_other s : sds_ok s -> s_type s <> SDS_TYPE_5 -> exists s', sdsIncrLen s 0 = Some s'.
Proof.
  intros (Hl & Hz & Hmax & _) Ht. pose proof (type_max (s_type s)). unfold sdsIncrLen.
  assert (exists m, setb (s_mem s) (sdslen s + 0) 0 = Some m) as [m Em].
  { unfold setb. destruct (getb_is_Some (s_mem s) (sdslen s + 0)) as [x ->]; [lia|]. by eexists. }
  change (u32 0) with 0. change (u64 0) with 0. change (0 >=? 0) with true. cbn [andb].
  assert (0 <= u32 (sdsalloc s - sdslen s) /\ 0 <= u64 (sdsalloc s - sdslen s)) as [Hu32 Hu64] by (split; apply Z.mod_pos_bound; lia).
  rewrite Em. destruct (s_type s); [done|..]; (replace (_ >=? 0) with true by lia); by eexists.
Qed.

End Theorems.

#[local] Program Instance usable_exact : Usable := {| usable_size n := n |}.
Next Obligation. intros. simpl. lia. Qed.

(** The contents of a valid sparse string of 21 bytes, and strings of them. *)
Definition short_ops : list sop := [OXZero 16318; OVal 1 1; OXZero 65].
Definition short_contents : list Z := header 1 [0; 0; 0] (replicate 8 0) ++ ops_bytes short_ops.
Definition short_sds (t : sdstype) : sds := {| s_type := t; sdslen := 21; sdsalloc := 21; s_mem := short_contents ++ [0] |}.

(** *)

(** C19: in a string of 524303 bytes that isHLLObjectOrReply accepts, 262143 opcodes bring the
    register number of hllMerge and of hllSparseToDense to -16384; the VAL opcode that follows
    passes the check of the number and is written to that register, outside the array and the
    string, so hllMerge, hllSparseToDense and PFCOUNT leave their memory, whereas without this
    last opcode both report an invalid string; and sdsIncrLen refuses an increment of 0 for the
    header of type 5 only, so with a limit of 0 bytes an update of a valid sparse string of 21
    bytes that keeps its length fails this assert, while the same string under a header of type
    8 is updated. *)
Theorem hll_overruns :
  (forall `{Allocator} `{Usable}, exists c s s0,
     zlen c = 524302 /\ holds s (c ++ HLL_SPARSE_VAL_SET 1 1) /\ holds s0 c /\
     isHLLObjectOrReply (HStr true s) = Some (inr (true, s)) /\ sparse_run (s_mem s) 524302 = Some (1, 1, 1) /\
     (forall acc, turns (Z.to_nat 262143) (merge_sparse_body (s_mem s) (sdslen s)) (HLL_HDR_SIZE, 0, acc) = Some (524302, -16384, acc) /\
        getb acc (-16384) = None /\ hllMerge acc s = None /\ hllMerge acc s0 = Some (acc, false)) /\
     (forall dense, turns (Z.to_nat 262143) (sparse_to_dense_body (s_mem s) (sdslen s)) (HLL_HDR_SIZE, 0, dense) = Some (524302, -16384, dense) /\
        HLL_HDR_SIZE + Z.quot (s32 (-16384 * HLL_BITS)) 8 = -12272 /\ HLL_DENSE_SET_REGISTER 32 dense HLL_HDR_SIZE (-16384) 1 = None) /\
     hllSparseToDense s = None /\ hllSparseToDense s0 = Some (s0, false) /\
     (forall estimate key, pfcountCommand estimate {[key := HStr true s]} [key; key] = None)) /\
  (zlen (ops_regs short_ops) = HLL_REGISTERS /\ holds (short_sds SDS_TYPE_5) short_contents /\ holds (short_sds SDS_TYPE_8) short_contents /\
   sparse_split 16319 16319 16383 1 0 = Some (HLL_SPARSE_VAL_SET 1 1 ++ HLL_SPARSE_ZERO_SET 64) /\ zlen (op_bytes (OXZero 65)) = 2 /\
   (forall s, s_type s = SDS_TYPE_5 -> sdsIncrLen s 0 = None) /\
   (forall s, sds_ok s -> s_type s <> SDS_TYPE_5 -> exists s', sdsIncrLen s 0 = Some s') /\
   (exists s, hllSparseSet 0 (short_sds SDS_TYPE_8) 16319 1 = Some (s, 1)) /\ hllSparseSet 0 (short_sds SDS_TYPE_5) 16319 1 = None).
Proof.
  split.
  - intros AL US. assert (Z.of_nat (Z.to_nat 262143) = 262143) as HN by (apply Z2Nat.id; lia). revert HN. generalize (Z.to_nat 262143). intros N HN.
    set (c := header 1 [0; 0; 0] (replicate 8 0) ++ ops_bytes (zero_runs N)).
    assert (zlen c = 524302) as Hc by (unfold c; rewrite zlen_app, (zero_runs_bytes N HN), zlen_header; [done|split; [done|]; split; [done|]; apply Forall_replicate; unfold is_byte; lia]).
    assert (c ++ HLL_SPARSE_VAL_SET 1 1 = header 1 [0; 0; 0] (replicate 8 0) ++ ops_bytes (zero_runs N ++ [OVal 1 1])) as Ec.
    { unfold c. rewrite ops_bytes_app, <- app_assoc. done. }
    destruct (sdsnewlen_spec (Some (c ++ HLL_SPARSE_VAL_SET 1 1)) 524303 (c ++ HLL_SPARSE_VAL_SET 1 1)) as (s & _ & Hs); [done|by rewrite zlen_app, Hc|by left|].
    destruct (sdsnewlen_spec (Some c) 524302 c) as (s0 & _ & Hs0); [done|done|by left|].
    exists c, s, s0. split; [done|]. split; [done|]. split; [done|]. rewrite Ec in Hs.
    destruct (overrun_string N s HN Hs) as (_ & Hi & Hr & HM & HD & E1 & E2). destruct (short_string N s0 HN Hs0) as [HM0 HD0].
    split; [done|]. split; [done|]. split; [intros acc; destruct (HM acc) as [H1 H2]; exact (conj H1 (conj eq_refl (conj H2 (HM0 acc))))|].
    split; [intros dense; exact (conj (HD dense) (conj eq_refl eq_refl))|]. split; [done|]. split; [done|]. done.
  - split; [unfold short_ops; rewrite !ops_regs_cons, !zlen_app, !zlen_op_regs by (simpl; lia); done|].
    assert (forall t, sdsTypeMaxSize t >= 21 -> holds (short_sds t) short_contents) as Hh.
    { intros t Ht. split; [|split; [done|by exists []]]. unfold sds_ok. change (sdslen (short_sds t)) with 21. change (sdsalloc (short_sds t)) with 21. change (zlen (s_mem (short_sds t))) with 22. cbn [s_type short_sds]. repeat split; lia. }
    split; [apply Hh; simpl; lia|]. split; [apply Hh; simpl; lia|]. split; [done|]. split; [done|]. split; [apply incr_zero_type5|]. split; [apply incr_zero_other|].
    split; [eexists; vm_compute; reflexivity|vm_compute; reflexivity].
Qed.

(** ** Concrete inputs *)

Section Witnesses.
#[local] Existing Instances zero_allocator usable_exact.

Definition sample_estimate (h : list Z) : Z := 16384 - default 16384 (h !! 0%nat).

Lemma sample_estimate_empty : sample_estimate (hist empty_regs) = 0.
Proof. vm_compute. reflexivity. Qed.

Lemma sample_ele (l : list Z) : forallb (fun b => (0 <=? b) && (b <? 256)) l && (zlen l <? 2 ^ 31) = true -> ele_ok l.
Proof.
  intros [Hb Hl]%andb_true_iff. split; [|lia]. apply Forall_forall. intros x Hx. rewrite forallb_forall in Hb. specialize (Hb x). rewrite <- list_elem_of_In in Hb.
  specialize (Hb Hx). apply andb_true_iff in Hb as [H1 H2]. unfold is_byte. lia.
Qed.

Definition sample_cmds : list hcmd := [PfAdd [107] [[97]; [98; 99]]; PfAdd [108] [[100]]; PfMerge [109] [[107]; [108]]; PfCount [[109]]; PfCount [[107]; [108]]].

Lemma hll_commands_witness : exists db rs, run_cmds sample_estimate false 3000 ∅ sample_cmds = Some (db, rs) /\ Forall2 reply_ok rs (spec_run sample_estimate ∅ sample_cmds).2.
Proof.
  destruct (hll_commands_refine sample_estimate false 3000 ∅ ∅ sample_cmds) as (db & rs & E & _ & Hr);
    [split; [lia|vm_compute; reflexivity]|apply sample_estimate_empty|apply db_rel_empty| |].
  { repeat (apply Forall_cons; split; [first [exact I|split; [repeat (apply Forall_cons; split; [apply sample_ele; vm_compute; reflexivity|]); by apply Forall_nil|vm_compute; reflexivity]]|]). by apply Forall_nil. }
  exists db, rs. exact (conj E Hr).
Defined.

Lemma hll_union_witness : exists db rs n, run_cmds sample_estimate false 3000 ∅ [PfAdd [1] [[97]]; PfAdd [2] [[98]; [97]]; PfMerge [3] [[1]; [2]]; PfCount [[3]]; PfCount [[1]; [2]]; PfAdd [4] [[97]; [98]; [97]]; PfCount [[4]]] = Some (db, rs) /\
  rs.*1 !! 3%nat = Some (HInt n) /\ rs.*1 !! 6%nat = Some (HInt n).
Proof.
  destruct (hll_union_correct sample_estimate false 3000 [1] [2] [3] [4] [[97]] [[98]; [97]]) as (db & rs & r1 & r2 & r3 & n & E & Er & _);
    [split; [lia|vm_compute; reflexivity]|apply sample_estimate_empty|by apply (bool_decide_unpack _)| | |vm_compute; reflexivity|].
  - repeat (apply Forall_cons; split; [apply sample_ele; vm_compute; reflexivity|]). by apply Forall_nil.
  - repeat (apply Forall_cons; split; [apply sample_ele; vm_compute; reflexivity|]). by apply Forall_nil.
  - exists db, rs, n. rewrite Er. exact (conj E (conj eq_refl eq_refl)).
Defined.

(** The string of an empty HyperLogLog. *)
Definition sample_hll : sds :=
  {| s_type := SDS_TYPE_5; sdslen := 18; sdsalloc := 18; s_mem := header 1 [0; 0; 0] (replicate 8 0) ++ ops_bytes [OXZero 16384] ++ [0] |}.

Lemma sample_holds : holds sample_hll (header 1 [0; 0; 0] (replicate 8 0) ++ ops_bytes [OXZero 16384]).
Proof.
  split; [|split; [done|]].
  - unfold sds_ok. change (sdslen sample_hll) with 18. change (sdsalloc sample_hll) with 18. change (zlen (s_mem sample_hll)) with 19. change (sdsTypeMaxSize (s_type sample_hll)) with 31. repeat split; lia.
  - exists []. done.
Qed.

Lemma hll_histograms_witness : hllDenseRegHisto (replicate 16 0 ++ pack (replicate (Z.to_nat 16384) 7) ++ [0]) 16 (replicate 64 0) = Some (hist (replicate (Z.to_nat 16384) 7)).
Proof.
  destruct (hll_histograms_agree (replicate 16 0) (replicate (Z.to_nat 16384) 7) 0 [] []) as (E & _);
    [reflexivity|rewrite zlen_replicate; lia|apply Forall_replicate; unfold is_reg; lia|by apply Forall_nil|vm_compute; reflexivity|exact E].
Defined.

Lemma hll_strings_witness : exists acc ok, hllMerge empty_regs sample_hll = Some (acc, ok) /\ zlen acc = 16384.
Proof.
  destruct (hll_strings_safe sample_hll (header 1 [0; 0; 0] (replicate 8 0) ++ ops_bytes [OXZero 16384]) true empty_regs) as ((acc & ok & E & Hz & _) & _).
  - exact sample_holds.
  - apply Forall_forall. intros x Hx. assert (forallb (fun b => (0 <=? b) && (b <? 256)) (header 1 [0; 0; 0] (replicate 8 0) ++ ops_bytes [OXZero 16384]) = true) as Hb by (vm_compute; reflexivity).
    rewrite forallb_forall in Hb. apply list_elem_of_In in Hx. specialize (Hb x Hx). unfold is_byte. apply andb_true_iff in Hb as [H1 H2]. lia.
  - vm_compute. reflexivity.
  - vm_compute. discriminate.
  - apply empty_regs_ok.
  - apply empty_regs_ok.
  - exists acc, ok. exact (conj E Hz).
Defined.

End Witnesses.
